(* ===== verification/_CoqProject ===== *)
-Q . S2P
Prelude.v
Accounts.v
AccountsSpec.v
AccountsRestore.v
Text.v
Sse.v
SseSpec.v
SseCorrect.v
Affinity.v
Execution.v
ExecutionSpec.v
ExecutionCorrect.v
Ring.v
Lifecycle.v
LifecycleSpec.v
Ident.v
NetAddr.v
Config.v
Catalog.v
CatalogSpec.v
EngineConfig.v
Routing.v
Snapshot.v
SnapshotSpec.v
Transport.v
TransportSpec.v
AuthRegistry.v
AuthSpec.v
AuthStore.v
Json.v
Canonical.v
ChatEncode.v
ChatEncodeSpec.v
UpstreamCommon.v
ChatUpstream.v
Upstream.v
RuntimeDiagnostics.v
DataPlane.v
ClientStream.v
ClientStreamSpec.v
ChatClient.v
GeminiUpstream.v
Pump.v
UpstreamSpec.v
PumpSpec.v
Dispatch.v
DispatchSpec.v
Inbound.v
ChatDecode.v
ResponsesDecode.v
AnthropicDecode.v
ChatDecodeSpec.v
RequestBuild.v
Executor.v
AnthropicDecodeSpec.v
InboundCodec.v
ResponsesEncode.v
ResponsesEncodeSpec.v
AnthropicEncode.v
AnthropicEncodeSpec.v
DataRegistry.v
ClientCodecs.v
ClientCodecsSpec.v
DataRoutes.v
Security.v
SecuritySpec.v
ConfigStore.v
Providers.v
ProvidersSpec.v
ManagementApi.v
Calendar.v
CalendarSpec.v
DiagnosticEvent.v
DiagnosticSpec.v
Segments.v
SegmentsSpec.v
Update.v
UpdateSpec.v
RuntimeMetadata.v
RuntimeMetadataSpec.v
