(* ===== verification/Prelude.v ===== *)
(** * WokCore verification library

    WokCore is a local gateway between LLM clients and upstream providers: it
    authenticates a client, routes its request by configuration to a provider
    account, executes it against the upstream with one retry, and streams the
    answer back.  This library models that path and the state around it, as
    pure functions, a state-and-error monad and step relations translated from
    the sources under [crates/], and proves what the parts promise.

    ** How the parts fit together

    A request passes the router and its middleware (Security), which asks the
    authentication registry (AuthRegistry) and counts the request in the service
    lifecycle (Lifecycle).  A data-plane route (DataRoutes) decodes the body to
    the canonical request (Inbound, ChatDecode, ResponsesDecode, AnthropicDecode,
    InboundCodec), routes it by the published runtime snapshot (Snapshot, built
    by Routing, EngineConfig, Config and Catalog) and executes it (Dispatch over
    the coordinator of Execution), which takes an account from the health table
    (Accounts), keeps a thread on its account (Affinity), asks the retry policy,
    builds the upstream request (RequestBuild, Executor) and sends it through the
    transport (Transport, over NetAddr).  Answers come back as event streams
    (Sse), are decoded to canonical events (Upstream, ChatUpstream,
    GeminiUpstream), pumped into a channel (Pump) and written in the client's
    dialect (ClientStream over ChatEncode, ResponsesEncode, AnthropicEncode and
    ClientCodecs).  The management API (ManagementApi) issues tokens and changes
    the configuration through the control plane (Providers over ConfigStore),
    whose runtime state is stored by RuntimeMetadata.  Diagnostics of all of it
    are events (DiagnosticEvent) that go to the event ring (Ring) and, in
    batches, to the log on disk (Segments).

    ** Files

    - Prelude (this file, below): results and the [?] operator as a monad, the
      state-and-error monad [st_res], 64-bit wrapping and saturating arithmetic,
      strings as bytes, ordered iteration of maps, stable sorting, list lemmas,
      hint databases and tactics.
    - Accounts, AccountsSpec, AccountsRestore: [wokcore-engine/src/accounts.rs].  The sharded table refines one flat map;
      its states are well formed and its cooldowns bounded, also while the two
      atomic halves of [mark_selected] interleave; selection does exactly what
      its contract says, and is fair; snapshots are complete, and
      reconfiguration succeeds exactly on acceptable states.
    - Text, Sse, SseSpec, SseCorrect: UTF-8 text, and
      [wokcore-protocols/src/stream/sse.rs].
      Any chunking of a byte stream decodes to the frames of a line-based
      specification, within the limits; encoded frames are read back.
    - Affinity: [wokcore-engine/src/affinity.rs].  Bind and lookup, expiry, the
      bound of the table and its eviction.
    - Execution, ExecutionSpec, ExecutionCorrect:
      [wokcore-engine/src/retry.rs], [execution.rs].  The coordinator follows a
      small protocol while the other users of the health table leave it
      consistent, which every operation of the table does; it starts at most two
      attempts.
    - Ring: [wokcore-diagnostics/src/ring.rs].  Insertion and eviction keep the
      ring's invariant; following the cursors reads every retained event once.
    - Lifecycle, LifecycleSpec: [wokcore-server/src/lifecycle/admission.rs],
      [service.rs].  Threads interleave at every atomic access; a stopped or
      drained service has no admitted request.
    - Ident, NetAddr, Config, Catalog, CatalogSpec, EngineConfig:
      [wokcore-core/src/id.rs], [secret.rs], [config.rs],
      [wokcore-engine/src/catalog.rs], [config.rs].  The validators accept
      exactly what their declarative readings say.
    - Routing, Snapshot, SnapshotSpec: [wokcore-engine/src/routing.rs],
      [snapshot.rs], [models.rs].  A validated configuration compiles without a
      panic; a request takes the most specific matching rule; public models are
      the routable ones.
    - Transport, TransportSpec: [wokcore-engine/src/transport.rs], [auth.rs],
      the policy mapping of [apps/wokcore/src/runtime.rs].  No connection leaves
      the policy's address classes, only allowed headers are sent, bodies are
      read exactly and within their limits.
    - AuthRegistry, AuthSpec, AuthStore:
      [wokcore-server/src/auth/token.rs], [registry.rs], the token tables of
      [wokcore-storage/src/state/store.rs], [secrets/memory.rs].  The registry is
      proved against the laws of its store, which the tables then satisfy:
      access is exact through any operations and database failures, revoked
      tokens stay dead, a restart accepts the same tokens.
    - Json, Canonical: the JSON values the protocols build and read, and
      [wokcore-protocols/src/canonical/].  Maps keep their order through the
      crate's sorted objects; parsing and printing are parameters.
    - ChatEncode, ChatEncodeSpec: [wokcore-protocols/src/outbound/openai_chat.rs].
      A streamed answer assembles to the very completion the aggregator builds;
      the codec's states stay well formed.
    - UpstreamCommon, ChatUpstream, GeminiUpstream, Upstream,
      UpstreamSpec: [outbound/mod.rs], [azure.rs], [gemini.rs], [upstream/mod.rs].  The
      decoders of the five upstream protocols, whole and streamed.
    - Pump, PumpSpec: [apps/wokcore/src/runtime.rs] and the dispatch of
      [upstream/mod.rs].  Whatever an upstream sends, the channel to the client
      gets a well-formed stream or a failure.
    - RuntimeDiagnostics: [wokcore-diagnostics/src/runtime.rs], whose counters
      balance under every interleaving.
    - DataPlane, Dispatch, DispatchSpec: [wokcore-server/src/data_plane/execute.rs].
      The checks on answers, and the execution of a request over the route, the
      coordinator and the accounts: at most two calls, each with the selected
      account's own credential, to the routed endpoint.
    - ClientStream, ClientStreamSpec, ChatClient: [data_plane/stream.rs],
      [data_plane/chat.rs].  Against the laws of a client codec, the body
      delivers what the sent items mean under every interleaving, and ends; the
      chat codec satisfies the laws, and closes its stream once.
    - Inbound, ChatDecode, ChatDecodeSpec, ResponsesDecode,
      AnthropicDecode, AnthropicDecodeSpec, InboundCodec:
      [wokcore-protocols/src/inbound/].  A client's request becomes the canonical
      one, the conversation is kept whole, and a request is accepted exactly
      within the limits.
    - RequestBuild, Executor: the request builders of
      [wokcore-protocols/src/upstream/mod.rs] and [outbound/], and the first half
      of the executor in [apps/wokcore/src/runtime.rs].  The request that is sent
      stays at the configured endpoint with the account's credential.
    - ResponsesEncode, ResponsesEncodeSpec, AnthropicEncode, AnthropicEncodeSpec:
      [outbound/openai_responses.rs], [outbound/anthropic.rs].  Reference clients
      read the streams: they assemble to the answer the aggregators build.
    - DataRegistry, ClientCodecs, ClientCodecsSpec, DataRoutes:
      [wokcore-server/src/data_plane/].  The three client dialects close every
      stream once; the text routes answer every body, and what they answer.
    - Security, SecuritySpec: [wokcore-server/src/api/error.rs], [security.rs],
      [mod.rs].  For every route, the requests that reach its handler.
    - ConfigStore, Providers, ProvidersSpec: [wokcore-storage/src/config/],
      [wokcore-server/src/providers.rs].  Active configuration, snapshot, accounts
      and file agree after every method; secrets in use are not deleted.
    - ManagementApi: [wokcore-server/src/api/routes.rs], [model.rs],
      [providers.rs].  The handlers of the management routes, and what a token
      they issue can reach.
    - Calendar, CalendarSpec: the time functions of [wokcore-server/src/runtime.rs],
      [wokcore-diagnostics/src/event.rs] and [wokcore-sessions/src/codex.rs].  The
      day count is the Gregorian calendar, and timestamps are read back.
    - DiagnosticEvent, DiagnosticSpec: [wokcore-diagnostics/src/event.rs],
      [redaction.rs].  An event is read back from its patched template.
    - Segments, SegmentsSpec: [wokcore-diagnostics/src/segment.rs] (batches,
      recovery, the segment writer), [retention.rs], and the diagnostic directory
      of [wokcore-platform/src/diagnostics.rs] as an ordered list of files whose
      every call may fail.  Under every such behaviour the log on disk refines an
      append-only list of events that loses only its oldest segments; recovery
      comes back from every state the writer leaves; retention is bounded.  The
      segment limit is taken larger than one event, as the service's is.
    - RuntimeMetadata, RuntimeMetadataSpec: the metadata batch of
      [wokcore-server/src/providers.rs] and the metadata tables of
      [wokcore-storage/src/state/store.rs].  A recorded batch is what is loaded,
      and what is refused is exactly described.
    - Update, UpdateSpec: [wokcore-platform/src/update/] (the Unix build) and
      [install_verified] of [apps/wokcore/src/commands/update.rs], over a directory
      of names and inodes whose calls may fail.  A version is offered exactly by
      a signed manifest; in every state an update goes through, the executable is
      the previous one or the verified new one.
    ** Modelling conventions

    A w-bit integer is a [Z] with the source's wrapping, saturating or checked
    arithmetic written out; a string is the string of its UTF-8 bytes; a map is
    a [gmap], iterated in key order where it is a [BTreeMap]; [Result] is
    [result]; a method on shared state runs in [st_res], which keeps the state an
    error leaves behind.  A method under a lock is one step; where the code
    interleaves (Lifecycle, ClientStream, AccountsSpec) every atomic access is one.
    Third-party code (hashing, base64, URL and UUID parsing, the HTTP client,
    the clock, entropy) is an argument or a type class with its documented laws,
    and every theorem that uses such laws has a witness at a concrete instance.

    ** Bounds and fuel

    [Ring.read_pages] follows cursors with fuel; one page per retained event is
    enough, since a page is never empty before the end.  The coordinator's loop
    runs over [Execution.attempt_ordinals], the two attempts the source allows.
    [Transport]'s body readers recurse on the list of received chunks.  Nothing
    else needs fuel: the recursion is structural.
    [Routing.collect] walks one provider per step.  [ClientStream.poll_loop] is
    structural on the channel's content; its [PollSpins] answer stands for the
    source's loop not returning, and is shown impossible.  [Pump.pump_stream]
    is structural on the reads of the connection.
    [Inbound.free_key] has as many tries as there are taken keys, which [free_key_found] shows enough.  A
    number's decimal digits take twenty steps, which every 64-bit value fits.
    [Segments.for_pages] has one page more than there are files and
    [Segments.scan_chunks] one step more than there are bytes, which
    [pages_run] and [scan_chunks_looked] of SegmentsSpec show enough.
    ** Not modelled

    Operating-system services (files, permissions, processes, key stores), the
    Windows build of the update installer and the command around it, SQLite
    itself beyond the tables named above, the axum and tokio glue, the image routes and their multipart bodies, the Cursor adapter,
    the transcript readers of the sessions crate (their timestamps excepted), the
    diagnostics recorder with the queue of its durable writer, snapshots and
    export bundles, the log and session queries, the command line, and the test
    simulators.  The first two groups are direct operating-system calls and
    process control; the transcript readers and export bundles are parsers and
    writers over file handles whose behaviour on partial reads and locks lies
    outside the sources; the rest is glue around the modelled parts or not part
    of the service. *)

From Stdlib Require Export ZArith Lia.
From Stdlib Require Import Ascii.
From stdpp Require Export sorting.
From stdpp Require Export base tactics option list gmap strings countable.

#[global] Set Default Proof Using "Type".

(** ** Results

    Fallible Rust code returns [Result<T, E>]; the early return of the
    [?] operator is the monadic bind. *)
Inductive result (E A : Type) : Type :=
| Ok (a : A)
| Err (e : E).
Arguments Ok {E A} _.
Arguments Err {E A} _.

Definition result_bind {E A B} (c : result E A) (k : A -> result E B) : result E B :=
  match c with
  | Ok a => k a
  | Err e => Err e
  end.

Definition map_err {E F A} (f : E -> F) (c : result E A) : result F A :=
  match c with
  | Ok a => Ok a
  | Err e => Err (f e)
  end.

Definition ok_or {E A} (o : option A) (e : E) : result E A :=
  match o with
  | Some a => Ok a
  | None => Err e
  end.

(** An [if] that returns early with an error. *)
Definition guard_err {E} (bad : bool) (e : E) : result E unit :=
  if bad then Err e else Ok tt.

Definition is_ok {E A} (c : result E A) : bool :=
  match c with Ok _ => true | Err _ => false end.

(** A [for] loop whose body updates a local state and may return early. *)
Fixpoint try_fold {E S A} (f : S -> A -> result E S) (s : S) (l : list A) : result E S :=
  match l with
  | [] => Ok s
  | a :: l => result_bind (f s a) (fun s' => try_fold f s' l)
  end.

(** [Option] helpers with their Rust names. *)
Definition is_some_and {A} (p : A -> bool) (o : option A) : bool :=
  match o with Some a => p a | None => false end.

Definition is_none_or {A} (p : A -> bool) (o : option A) : bool :=
  match o with Some a => p a | None => true end.

Definition is_someb {A} (o : option A) : bool :=
  match o with Some _ => true | None => false end.

Definition is_emptyb {A} (l : list A) : bool :=
  match l with [] => true | _ => false end.

Declare Scope wok_scope.
Delimit Scope wok_scope with wok.
Notation "'let?' x ':=' c 'in' k" := (result_bind c (fun x => k))
  (at level 10, x binder, c at level 100, k at level 200) : wok_scope.
Notation "'check?' c ; k" := (result_bind c (fun _ => k))
  (at level 10, c at level 100, k at level 200) : wok_scope.
#[global] Open Scope wok_scope.

(** ** State and errors

    A method that takes [&mut self] and returns a [Result]: the new state is
    there whatever the result is, since a Rust error leaves the mutations made
    before it in place. *)
Definition st_res (S E A : Type) : Type := S -> S * result E A.

Definition st_ret {S E A} (a : A) : st_res S E A := fun s => (s, Ok a).

Definition st_err {S E A} (e : E) : st_res S E A := fun s => (s, Err e).

Definition st_bind {S E A B} (c : st_res S E A) (k : A -> st_res S E B) : st_res S E B :=
  fun s => match c s with
           | (s', Ok a) => k a s'
           | (s', Err e) => (s', Err e)
           end.

Definition st_get {S E} : st_res S E S := fun s => (s, Ok s).

Definition st_mod {S E} (f : S -> S) : st_res S E unit := fun s => (f s, Ok tt).

(** A result computed without touching the state. *)
Definition st_lift {S E A} (c : result E A) : st_res S E A := fun s => (s, c).

(** A [for] loop over [l] that threads a local value and may return early. *)
Fixpoint st_fold {S E A X} (f : X -> A -> st_res S E X) (x : X) (l : list A) : st_res S E X :=
  match l with
  | [] => st_ret x
  | a :: l => st_bind (f x a) (fun x' => st_fold f x' l)
  end.

Notation "'let!' x ':=' c 'in' k" := (st_bind c (fun x => k))
  (at level 10, x binder, c at level 100, k at level 200) : wok_scope.
Notation "'do!' c ; k" := (st_bind c (fun _ => k))
  (at level 10, c at level 100, k at level 200) : wok_scope.

(** ** Machine integers

    A [w]-bit unsigned integer is a [Z] between [0] and [2^w - 1]; what the
    Rust operators do at the boundary is written out.  [usize] is 64 bits
    wide on every target the project ships. *)
Open Scope Z_scope.

Definition u64_max : Z := 18446744073709551615.
Definition u8_max : Z := 255.

Definition in_u64 (x : Z) : Prop := 0 <= x <= u64_max.
Definition in_u8 (x : Z) : Prop := 0 <= x <= u8_max.

Definition sat_add64 (a b : Z) : Z := Z.min (a + b) u64_max.
Definition sat_mul64 (a b : Z) : Z := Z.min (a * b) u64_max.
Definition sat_sub (a b : Z) : Z := Z.max (a - b) 0.
Definition sat_add8 (a b : Z) : Z := Z.min (a + b) u8_max.
Definition wrap64 (a : Z) : Z := a mod (u64_max + 1).
Definition checked_add64 (a b : Z) : option Z :=
  if a + b <=? u64_max then Some (a + b) else None.
Definition checked_sub64 (a b : Z) : option Z :=
  if b <=? a then Some (a - b) else None.
(** [1_u64.checked_shl(e)]: [None] from 64 bits on, no overflow check on the value. *)
Definition checked_shl64 (a e : Z) : option Z :=
  if e <? 64 then Some (wrap64 (Z.shiftl a e)) else None.

Lemma u64_max_val : u64_max = 18446744073709551615.
Proof. reflexivity. Qed.

Lemma wrap64_small a : in_u64 a -> wrap64 a = a.
Proof. unfold wrap64, in_u64. intros. apply Z.mod_small. lia. Qed.

Lemma wrap64_range a : in_u64 (wrap64 a).
Proof.
  unfold wrap64, in_u64.
  pose proof (Z.mod_pos_bound a (u64_max + 1) ltac:(unfold u64_max; lia)). lia.
Qed.

Lemma sat_add64_range a b : 0 <= a -> 0 <= b -> in_u64 (sat_add64 a b).
Proof. unfold in_u64, sat_add64, u64_max. lia. Qed.

Lemma sat_add64_exact a b : a + b <= u64_max -> sat_add64 a b = a + b.
Proof. unfold sat_add64. lia. Qed.

Lemma checked_add64_Some a b c : checked_add64 a b = Some c -> c = a + b /\ c <= u64_max.
Proof. unfold checked_add64. destruct (Z.leb_spec (a + b) u64_max); naive_solver. Qed.

Lemma checked_add64_None a b : checked_add64 a b = None -> u64_max < a + b.
Proof. unfold checked_add64. destruct (Z.leb_spec (a + b) u64_max); naive_solver. Qed.

(** Length of a list as a machine integer. *)
Definition zlen {A} (l : list A) : Z := Z.of_nat (length l).

Lemma zlen_nonneg {A} (l : list A) : 0 <= zlen l.
Proof. unfold zlen. lia. Qed.

Lemma zlen_app {A} (l k : list A) : zlen (l ++ k) = zlen l + zlen k.
Proof. unfold zlen. rewrite length_app. lia. Qed.

Lemma zlen_cons {A} (x : A) l : zlen (x :: l) = 1 + zlen l.
Proof. unfold zlen. simpl. lia. Qed.

(** ** Strings

    A Rust [str] is the [string] of its UTF-8 bytes: [len] counts bytes and
    [Ord] compares bytes, as [String.length] and [String.le] do. *)
Definition byte_val (c : ascii) : Z := Z.of_N (N_of_ascii c).

Definition str_ascii (s : string) : list ascii := String.list_ascii_of_string s.
Definition str_bytes (s : string) : list Z := byte_val <$> str_ascii s.
Definition str_len (s : string) : Z := Z.of_nat (String.length s).
Definition str_is_empty (s : string) : bool := bool_decide (s = ""%string).

Definition is_ascii_lowercase (b : Z) : bool := (97 <=? b) && (b <=? 122).
Definition is_ascii_uppercase (b : Z) : bool := (65 <=? b) && (b <=? 90).
Definition is_ascii_digit (b : Z) : bool := (48 <=? b) && (b <=? 57).
Definition is_ascii_alphanumeric (b : Z) : bool :=
  is_ascii_lowercase b || is_ascii_uppercase b || is_ascii_digit b.

Definition ascii_lower (c : ascii) : ascii :=
  if is_ascii_uppercase (byte_val c) then ascii_of_N (N_of_ascii c + 32) else c.

Fixpoint to_ascii_lowercase (s : string) : string :=
  match s with
  | EmptyString => EmptyString
  | String c s => String (ascii_lower c) (to_ascii_lowercase s)
  end.

Definition eq_ignore_ascii_case (s t : string) : bool :=
  bool_decide (to_ascii_lowercase s = to_ascii_lowercase t).

Fixpoint strip_prefix (p s : string) : option string :=
  match p, s with
  | EmptyString, _ => Some s
  | String c p, String d s => if bool_decide (c = d) then strip_prefix p s else None
  | String _ _, EmptyString => None
  end.

Definition starts_with (p s : string) : bool := is_someb (strip_prefix p s).

Fixpoint str_rev_onto (s acc : string) : string :=
  match s with
  | EmptyString => acc
  | String c s => str_rev_onto s (String c acc)
  end.

Definition ends_with (p s : string) : bool :=
  starts_with (str_rev_onto p "") (str_rev_onto s "").

Definition str_contains (c : ascii) (s : string) : bool :=
  bool_decide (c ∈ str_ascii s).

Lemma str_is_empty_false s : str_is_empty s = false <-> s <> ""%string.
Proof. unfold str_is_empty. by rewrite bool_decide_eq_false. Qed.

Lemma str_contains_false c s : str_contains c s = false <-> c ∉ str_ascii s.
Proof. unfold str_contains. by rewrite bool_decide_eq_false. Qed.

Lemma str_is_empty_true s : str_is_empty s = true <-> s = ""%string.
Proof. unfold str_is_empty. by rewrite bool_decide_eq_true. Qed.

Lemma strip_prefix_Some p s r : strip_prefix p s = Some r <-> s = (p +:+ r)%string.
Proof.
  revert s. induction p as [|c p IH]; intros s.
  { change ("" +:+ r)%string with r. cbn. split; congruence. }
  change (String c p +:+ r)%string with (String c (p +:+ r)).
  destruct s as [|d s]; cbn; [split; congruence|].
  case_bool_decide as Hcd; [subst; rewrite IH|]; split; congruence.
Qed.

Lemma str_ascii_inj s t : str_ascii s = str_ascii t -> s = t.
Proof.
  intros H. rewrite <- (String.string_of_list_ascii_of_string s),
    <- (String.string_of_list_ascii_of_string t).
  unfold str_ascii in H. by rewrite H.
Qed.

Lemma str_ascii_app s t : str_ascii (s +:+ t)%string = str_ascii s ++ str_ascii t.
Proof.
  induction s as [|c s IH]; [done|].
  change (str_ascii (String c (s +:+ t)) = c :: str_ascii s ++ str_ascii t).
  by rewrite <- IH.
Qed.

Lemma byte_val_range c : 0 <= byte_val c <= 255.
Proof. unfold byte_val. pose proof (N_ascii_bounded c). lia. Qed.

Lemma byte_val_inj c d : byte_val c = byte_val d -> c = d.
Proof.
  unfold byte_val. intros H%N2Z.inj.
  by rewrite <- (ascii_N_embedding c), <- (ascii_N_embedding d), H.
Qed.

#[global] Instance byte_val_Inj : Inj (=) (=) byte_val := byte_val_inj.

Lemma str_bytes_inj s t : str_bytes s = str_bytes t -> s = t.
Proof. unfold str_bytes. intros H. by apply str_ascii_inj, (inj (fmap byte_val)). Qed.

Lemma str_app_nil_r s : (s +:+ "")%string = s.
Proof.
  induction s as [|c s IH]; [done|].
  change (String c (s +:+ "") = String c s)%string. by rewrite IH.
Qed.

Lemma str_app_assoc s t u : ((s +:+ t) +:+ u)%string = (s +:+ (t +:+ u))%string.
Proof.
  induction s as [|c s IH]; [done|].
  change (String c ((s +:+ t) +:+ u) = String c (s +:+ (t +:+ u)))%string. by rewrite IH.
Qed.

Lemma str_len_nonneg s : 0 <= str_len s.
Proof. unfold str_len. lia. Qed.

Lemma str_len_app s t : str_len (s +:+ t)%string = str_len s + str_len t.
Proof.
  unfold str_len. induction s as [|c s IH]; [done|].
  change (Z.of_nat (S (String.length (s +:+ t)%string))
          = Z.of_nat (S (String.length s)) + Z.of_nat (String.length t)). lia.
Qed.

Lemma str_bytes_app s t : str_bytes (s +:+ t)%string = str_bytes s ++ str_bytes t.
Proof. unfold str_bytes. by rewrite str_ascii_app, fmap_app. Qed.

(** ** Ordered iteration

    A [BTreeMap] is a [gmap]; where the code iterates over it, the entries
    come in ascending key order. *)
Definition entry_le {V} (x y : string * V) : Prop := String.le x.1 y.1.

#[global] Instance entry_le_dec {V} : RelDecision (@entry_le V).
Proof. intros x y. unfold entry_le. apply _. Defined.

#[global] Instance entry_le_total {V} : Total (@entry_le V).
Proof. intros x y. unfold entry_le. apply String.le_total. Qed.

#[global] Instance entry_le_trans {V} : Transitive (@entry_le V).
Proof. intros x y z. unfold entry_le. apply String.le_po. Qed.

Definition btree_iter {V} (m : gmap string V) : list (string * V) :=
  merge_sort entry_le (map_to_list m).

Lemma btree_iter_perm {V} (m : gmap string V) : btree_iter m ≡ₚ map_to_list m.
Proof. apply merge_sort_Permutation. Qed.

Lemma elem_of_btree_iter {V} (m : gmap string V) k v : (k, v) ∈ btree_iter m <-> m !! k = Some v.
Proof. by rewrite btree_iter_perm, elem_of_map_to_list. Qed.

Lemma NoDup_fst_btree_iter {V} (m : gmap string V) : NoDup (btree_iter m).*1.
Proof. rewrite btree_iter_perm. apply NoDup_fst_map_to_list. Qed.

Lemma Sorted_btree_iter {V} (m : gmap string V) : StronglySorted entry_le (btree_iter m).
Proof. apply (StronglySorted_merge_sort _). Qed.

(** ** Stable sorting

    [slice::sort_by_key] is a stable sort: elements with equal keys keep their
    order.  Insertion from the right has that property. *)
Fixpoint insert_by_key {A} (key : A -> Z) (x : A) (l : list A) : list A :=
  match l with
  | [] => [x]
  | y :: l => if key x <=? key y then x :: y :: l else y :: insert_by_key key x l
  end.

Definition sort_by_key {A} (key : A -> Z) (l : list A) : list A :=
  foldr (insert_by_key key) [] l.

(** The first of the elements satisfying [p] that have the least key. *)
Fixpoint first_least {A} (key : A -> Z) (p : A -> bool) (l : list A) : option A :=
  match l with
  | [] => None
  | x :: l =>
      if p x then
        match first_least key p l with
        | Some y => if key x <=? key y then Some x else Some y
        | None => Some x
        end
      else first_least key p l
  end.

Lemma insert_by_key_perm {A} (key : A -> Z) x l : insert_by_key key x l ≡ₚ x :: l.
Proof.
  induction l as [|y l IH]; cbn; [done|]. destruct (key x <=? key y); [done|].
  rewrite IH. constructor.
Qed.

Lemma insert_by_key_sorted {A} (key : A -> Z) x l :
  StronglySorted (fun a b => key a <= key b) l ->
  StronglySorted (fun a b => key a <= key b) (insert_by_key key x l).
Proof.
  induction 1 as [|y l Hl IH Hy]; cbn; [repeat constructor|].
  destruct (Z.leb_spec (key x) (key y)).
  - constructor; [by constructor|]. constructor; [done|].
    eapply Forall_impl; [|exact Hy]. cbn. lia.
  - constructor; [done|]. rewrite insert_by_key_perm. constructor; [lia|done].
Qed.

Lemma sort_by_key_sorted {A} (key : A -> Z) l :
  StronglySorted (fun a b => key a <= key b) (sort_by_key key l).
Proof. induction l; cbn; [constructor|]. by apply insert_by_key_sorted. Qed.

Lemma sort_by_key_perm {A} (key : A -> Z) l : sort_by_key key l ≡ₚ l.
Proof. induction l as [|x l IH]; cbn; [done|]. rewrite insert_by_key_perm. by rewrite IH. Qed.

Lemma find_insert_by_key {A} (key : A -> Z) p x l :
  StronglySorted (fun a b => key a <= key b) l ->
  List.find p (insert_by_key key x l) =
  if p x then
    match List.find p l with
    | Some y => if key x <=? key y then Some x else Some y
    | None => Some x
    end
  else List.find p l.
Proof.
  induction 1 as [|y l Hl IH Hy]; cbn; [by destruct (p x)|].
  destruct (Z.leb_spec (key x) (key y)) as [Hle|Hlt].
  - cbn. destruct (p x) eqn:Hx; [|done].
    destruct (p y); [by rewrite (proj2 (Z.leb_le _ _) Hle)|].
    destruct (List.find p l) as [z|] eqn:Hz; [|done].
    apply find_some in Hz as [Hz%list_elem_of_In _].
    rewrite list.Forall_forall in Hy. specialize (Hy z Hz).
    by rewrite (proj2 (Z.leb_le (key x) (key z))) by lia.
  - cbn. rewrite IH. destruct (p y) eqn:Hpy, (p x) eqn:Hx; try done.
    by rewrite (proj2 (Z.leb_gt _ _) Hlt).
Qed.

(** Searching the sorted list finds the first of the least. *)
Lemma find_sort_by_key {A} (key : A -> Z) p l :
  List.find p (sort_by_key key l) = first_least key p l.
Proof.
  induction l as [|x l IH]; [done|]. cbn.
  change (foldr (insert_by_key key) [] l) with (sort_by_key key l).
  rewrite find_insert_by_key by apply sort_by_key_sorted. by rewrite IH.
Qed.

Lemma first_least_None {A} (key : A -> Z) p l :
  first_least key p l = None <-> forall j y, l !! j = Some y -> p y = false.
Proof.
  induction l as [|z l IH]; [cbn; split; [intros _ [|j] y [=]|done]|].
  cbn [first_least]. destruct (p z) eqn:Hz; split.
  - repeat case_match; done.
  - intros H. specialize (H 0%nat z eq_refl). congruence.
  - intros H [|j] y Hy; cbn in Hy; [congruence|]. by apply (proj1 IH H j).
  - intros H. apply IH. intros j y Hy. by apply (H (S j)).
Qed.

(** The first least element is at an index no other match beats. *)
Definition least_at {A} (key : A -> Z) (p : A -> bool) (l : list A) (x : A) (i : nat) : Prop :=
  l !! i = Some x /\ p x = true /\
  forall j y, l !! j = Some y -> p y = true -> key x < key y \/ key x = key y /\ (i <= j)%nat.

Lemma least_at_unique {A} (key : A -> Z) p l x y i k :
  least_at key p l x i -> least_at key p l y k -> x = y.
Proof.
  intros (Hi & Hpx & Hx) (Hk & Hpy & Hy).
  destruct (Hx k y Hk Hpy) as [|[? ?]], (Hy i x Hi Hpx) as [|[? ?]]; try lia.
  assert (i = k) as -> by lia. congruence.
Qed.

Lemma least_at_cons {A} (key : A -> Z) p l z x i :
  least_at key p l x i -> (p z = true -> key x < key z) -> least_at key p (z :: l) x (S i).
Proof.
  intros (Hi & Hpx & Hx) Hz. split_and!; [done..|].
  intros [|j] w Hw Hpw; cbn in Hw; [simplify_eq; auto|]. destruct (Hx j w Hw Hpw); lia.
Qed.

Lemma first_least_at {A} (key : A -> Z) p l x :
  first_least key p l = Some x -> exists i, least_at key p l x i.
Proof.
  revert x. induction l as [|z l IH]; intros x; [done|]. cbn [first_least].
  destruct (p z) eqn:Hz.
  2: { intros (i & Hi)%IH. exists (S i). apply least_at_cons; [done|congruence]. }
  destruct (first_least key p l) as [y|] eqn:Hy.
  - destruct (IH y eq_refl) as (i & Hi). destruct (Z.leb_spec (key z) (key y)); intros [= <-].
    + exists 0%nat. split_and!; [done..|]. intros [|j] w Hw Hpw; cbn in Hw; [simplify_eq; lia|].
      destruct Hi as (_ & _ & Hi). destruct (Hi j w Hw Hpw); lia.
    + exists (S i). by apply least_at_cons.
  - intros [= <-]. exists 0%nat. split_and!; [done..|].
    intros [|j] w Hw Hpw; cbn in Hw; [simplify_eq; lia|].
    rewrite first_least_None in Hy. specialize (Hy j w Hw). congruence.
Qed.

Lemma first_least_Some {A} (key : A -> Z) p l x :
  first_least key p l = Some x <-> exists i, least_at key p l x i.
Proof.
  split; [apply first_least_at|]. intros (i & Hi).
  destruct (first_least key p l) as [y|] eqn:Hy.
  - apply first_least_at in Hy as (k & Hk). f_equal. by eapply least_at_unique.
  - rewrite first_least_None in Hy. destruct Hi as (Hi & Hpx & _).
    specialize (Hy i x Hi). congruence.
Qed.

(** ** Generic lemmas *)
Lemma result_bind_Ok {E A B} (c : result E A) (k : A -> result E B) b :
  result_bind c k = Ok b <-> exists a, c = Ok a /\ k a = Ok b.
Proof.
  destruct c; cbn; split; intros H; [eauto| |done|].
  - destruct H as (? & [= ->] & H). exact H.
  - destruct H as (? & [=] & _).
Qed.

(** Collecting a fallible map: the first error ends it. *)
Fixpoint try_map {E A B} (f : A -> result E B) (l : list A) : result E (list B) :=
  match l with
  | [] => Ok []
  | a :: l => let? b := f a in let? bs := try_map f l in Ok (b :: bs)
  end.

Lemma try_map_Ok {E A B} (f : A -> result E B) l bs :
  try_map f l = Ok bs <-> Forall2 (fun a b => f a = Ok b) l bs.
Proof.
  revert bs. induction l as [|a l IH]; intros bs; cbn [try_map].
  - split; [intros [= <-]; constructor|intros H; by inversion H].
  - rewrite result_bind_Ok. split.
    + intros (b & Hb & (bs' & Hbs & [= <-])%result_bind_Ok). constructor; [done|]. by apply IH.
    + intros H. inversion H as [|? b ? bs' Hb Hbs]; subst. exists b. split; [done|].
      apply result_bind_Ok. exists bs'. split; [|done]. by apply IH.
Qed.

(** A check whose value is not used. *)
Lemma check_Ok {E B} (c : result E unit) (k : result E B) b :
  result_bind c (fun _ => k) = Ok b <-> c = Ok tt /\ k = Ok b.
Proof. destruct c as [[]|]; cbn; naive_solver. Qed.

(** A loop whose final state is dropped. *)
Lemma check_loop_Ok {E S B} (c : result E S) (k : result E B) b :
  result_bind c (fun _ => k) = Ok b <-> (exists s, c = Ok s) /\ k = Ok b.
Proof. rewrite result_bind_Ok. naive_solver. Qed.

Lemma optional_check_Ok {E A} (f : A -> result E unit) (P : A -> Prop) o :
  (forall a, f a = Ok tt <-> P a) ->
  match o with Some a => f a | None => Ok tt end = Ok tt <-> from_option P True o.
Proof. intros Hf. destruct o; cbn; [apply Hf|naive_solver]. Qed.

Lemma guard_err_Ok {E} b (e : E) u : guard_err b e = Ok u <-> b = false.
Proof. destruct b, u; naive_solver. Qed.

Lemma map_err_Ok {E F A} (f : E -> F) (c : result E A) a : map_err f c = Ok a <-> c = Ok a.
Proof. destruct c; naive_solver. Qed.

Lemma ok_or_Ok {E A} (o : option A) (e : E) a : ok_or o e = Ok a <-> o = Some a.
Proof. destruct o; naive_solver. Qed.

(** Loop invariant rule for [try_fold]: [P] relates the elements already
    consumed to the loop state. *)
Lemma try_fold_inv {E S A} (f : S -> A -> result E S) (P : list A -> S -> Prop) s l s' :
  P [] s ->
  (forall done s a s', P done s -> f s a = Ok s' -> P (done ++ [a]) s') ->
  try_fold f s l = Ok s' -> P l s'.
Proof.
  intros H0 Hstep.
  enough (forall pre s, P pre s -> try_fold f s l = Ok s' -> P (pre ++ l) s') as Hgen
    by exact (Hgen [] s H0).
  clear s H0. induction l as [|a l IH]; intros pre s HP; cbn.
  - intros [= ->]. by rewrite app_nil_r.
  - intros (s1 & Hf & Hl)%result_bind_Ok.
    replace (pre ++ a :: l) with ((pre ++ [a]) ++ l) by by rewrite <- app_assoc.
    eapply IH; eauto.
Qed.

(** A loop that only checks: it succeeds exactly when every step does. *)
Lemma try_fold_unit {E A} (f : A -> result E unit) l u :
  try_fold (fun _ a => f a) u l = Ok tt <-> Forall (fun a => f a = Ok tt) l.
Proof.
  revert u. induction l as [|a l IH]; intros u; cbn.
  - destruct u. naive_solver.
  - rewrite list.Forall_cons. destruct (f a) as [[]|] eqn:E1; cbn; [rewrite IH|]; naive_solver.
Qed.

(** A loop that collects keys in a set, rejects a key it has seen and checks
    each element: it succeeds exactly when the keys are distinct and new and
    every element passes. *)
Lemma try_fold_dedup {E A} (f : gset string -> A -> result E (gset string))
    (key : A -> string) (P : A -> Prop) :
  (forall s a s', f s a = Ok s' <-> key a ∉ s /\ P a /\ s' = {[key a]} ∪ s) ->
  forall l s s',
    try_fold f s l = Ok s' <->
    NoDup (key <$> l) /\ (forall a, a ∈ l -> key a ∉ s) /\ Forall P l /\
    s' = list_to_set (key <$> l) ∪ s.
Proof.
  intros Hf l. induction l as [|a l IH]; intros s s'.
  - cbn. split; [intros [= ->]|intros (_ & _ & _ & ->)].
    + split_and!; [constructor|set_solver|constructor|set_solver].
    + f_equal. set_solver.
  - cbn [try_fold]. rewrite result_bind_Ok, fmap_cons, list.NoDup_cons, list.Forall_cons.
    cbn [list_to_set]. split.
    + intros (s1 & (Hn & HP & ->)%Hf & (Hnd & Hnew & HF & ->)%IH).
      split_and!; try done; try set_solver.
    + intros ((Hn & Hnd) & Hnew & (HP & HF) & ->).
      exists ({[key a]} ∪ s). rewrite Hf, IH. split_and!; try done; try set_solver.
Qed.

(** The same loop over elements that bring several keys each. *)
Lemma try_fold_dedup_groups {E A} (f : gset string -> A -> result E (gset string))
    (keys : A -> list string) (P : A -> Prop) :
  (forall s a s', f s a = Ok s' <->
     NoDup (keys a) /\ (forall k, k ∈ keys a -> k ∉ s) /\ P a /\ s' = list_to_set (keys a) ∪ s) ->
  forall l s s',
    try_fold f s l = Ok s' <->
    NoDup (l ≫= keys) /\ (forall k, k ∈ l ≫= keys -> k ∉ s) /\ Forall P l /\
    s' = list_to_set (l ≫= keys) ∪ s.
Proof.
  intros Hf l. induction l as [|a l IH]; intros s s'.
  - cbn. split; [intros [= ->]|intros (_ & _ & _ & ->)].
    + split_and!; [constructor|set_solver|constructor|set_solver].
    + f_equal. set_solver.
  - cbn [try_fold]. rewrite result_bind_Ok, bind_cons, list.NoDup_app, list.Forall_cons,
      list_to_set_app_L.
    split.
    + intros (s1 & (Hnd & Hnew & HP & ->)%Hf & (Hnd2 & Hnew2 & HF & ->)%IH).
      split_and!; try done; try set_solver.
    + intros ((Hnd & Hd & Hnd2) & Hnew & (HP & HF) & ->).
      exists (list_to_set (keys a) ∪ s). rewrite Hf, IH. split_and!; try done; set_solver.
Qed.

(** A loop that fills a map, one new key per element: it succeeds when every
    element has a value, and the map holds exactly these values. *)
Section FillMap.
Context {E A V : Type} (f : gmap string V -> A -> result E (gmap string V)).
Context (key : A -> string) (Q : A -> Prop) (P : A -> V -> Prop).
Hypothesis Hf : forall m a m', Q a ->
  f m a = Ok m' <-> exists v, P a v /\ m' = <[key a := v]> m.

Lemma try_fold_fill_Ok l m :
  Forall Q l -> (exists m', try_fold f m l = Ok m') <-> Forall (fun a => exists v, P a v) l.
Proof using Hf.
  intros Hl. revert m. induction Hl as [|a l Ha _ IH]; intros m; cbn [try_fold].
  - split; [constructor|eauto].
  - rewrite list.Forall_cons. setoid_rewrite result_bind_Ok. split.
    + intros (m' & m1 & (v & Hv & ->)%Hf & Hrest); [|done].
      split; [eauto|]. apply (IH (<[key a := v]> m)). eauto.
    + intros [[v Hv] Hrest]. apply (IH (<[key a := v]> m)) in Hrest as (m' & Hm').
      exists m', (<[key a := v]> m). split; [|done]. apply Hf; eauto.
Qed.

Lemma try_fold_fill_gen l m m' :
  Forall Q l -> NoDup (key <$> l) -> (forall a v w, P a v -> P a w -> v = w) ->
  try_fold f m l = Ok m' ->
  forall k v, m' !! k = Some v <->
    (exists a, a ∈ l /\ key a = k /\ P a v) \/ (k ∉ key <$> l /\ m !! k = Some v).
Proof using Hf.
  intros Hl Hnd HP. revert m. induction Hl as [|a l Ha Hl IH]; intros m.
  - intros [= <-] k v. set_solver.
  - rewrite fmap_cons, list.NoDup_cons in Hnd. destruct Hnd as [Hnew Hnd].
    cbn [try_fold]. rewrite result_bind_Ok.
    intros (m1 & (v0 & Hv0 & ->)%Hf & Hrest) k v; [|done].
    rewrite (IH Hnd _ Hrest k v), lookup_insert_Some, fmap_cons, not_elem_of_cons. split.
    + intros [(b & Hb & Hk & Hv)|[Hni [[<- <-]|[Hne Hm]]]].
      * left. exists b. split; [by right|done].
      * left. exists a. split; [by left|done].
      * right. split; [|done]. auto.
    + intros [(b & [->|Hb]%elem_of_cons & <- & Hv)|[[Hne Hni] Hm]].
      * right. split; [done|]. left. split; [done|]. by eapply HP.
      * left. eauto.
      * right. auto.
Qed.

Lemma try_fold_fill_lookup l m' :
  Forall Q l -> NoDup (key <$> l) -> (forall a v w, P a v -> P a w -> v = w) ->
  try_fold f ∅ l = Ok m' ->
  forall k v, m' !! k = Some v <-> exists a, a ∈ l /\ key a = k /\ P a v.
Proof using Hf.
  intros Hl Hnd HP Hm k v. rewrite (try_fold_fill_gen l ∅ m' Hl Hnd HP Hm k v), lookup_empty.
  naive_solver.
Qed.
End FillMap.

(** A loop fails where one of its steps does. *)
Lemma try_fold_Err {E S A} (f : S -> A -> result E S) s l e :
  try_fold f s l = Err e -> exists s' a, a ∈ l /\ f s' a = Err e.
Proof.
  revert s. induction l as [|a l IH]; intros s; cbn; [done|].
  destruct (f s a) as [s1|e1] eqn:Hf; cbn.
  - intros (s' & b & Hb & Hfb)%IH. exists s', b. split; [by right|done].
  - intros [= ->]. exists s, a. split; [left|done].
Qed.

(** [is_ok] loop bodies that leave the state alone. *)
Lemma try_fold_check {E S A} (f : S -> A -> result E S) (P : A -> Prop) :
  (forall s a s', f s a = Ok s' <-> P a /\ s' = s) ->
  forall l s s', try_fold f s l = Ok s' <-> Forall P l /\ s' = s.
Proof.
  intros Hf l. induction l as [|a l IH]; intros s s'; cbn [try_fold].
  - split; [intros [= ->]; auto|naive_solver].
  - rewrite result_bind_Ok, list.Forall_cons. split.
    + intros (s1 & (HP & ->)%Hf & (HF & ->)%IH). auto.
    + intros ((HP & HF) & ->). exists s. by rewrite Hf, IH.
Qed.

Lemma st_fold_app {S E A X} (f : X -> A -> st_res S E X) x l k s :
  st_fold f x (l ++ k) s = st_bind (st_fold f x l) (fun y => st_fold f y k) s.
Proof.
  revert x s. induction l as [|a l IH]; intros x s; [done|].
  cbn. unfold st_bind. destruct (f x a s) as [s' [y|e]]; [|done].
  rewrite IH. done.
Qed.

Lemma st_bind_Ok {S E A B} (c : st_res S E A) (k : A -> st_res S E B) s s' b :
  st_bind c k s = (s', Ok b) <-> exists s1 a, c s = (s1, Ok a) /\ k a s1 = (s', Ok b).
Proof.
  unfold st_bind. destruct (c s) as [s1 [a|e]]; naive_solver.
Qed.

Lemma is_someb_true {A} (o : option A) : is_someb o = true <-> is_Some o.
Proof. destruct o; split; naive_solver. Qed.

Lemma is_someb_false {A} (o : option A) : is_someb o = false <-> o = None.
Proof. destruct o; naive_solver. Qed.

Lemma is_emptyb_true {A} (l : list A) : is_emptyb l = true <-> l = [].
Proof. by destruct l. Qed.

Lemma is_emptyb_false {A} (l : list A) : is_emptyb l = false <-> l <> [].
Proof. by destruct l. Qed.

Lemma find_Some_elem {A} (p : A -> bool) l a :
  List.find p l = Some a -> a ∈ l /\ p a = true.
Proof. intros H%find_some. by rewrite list_elem_of_In. Qed.

Lemma find_None_elem {A} (p : A -> bool) l :
  List.find p l = None <-> forall a, a ∈ l -> p a = false.
Proof.
  split.
  - intros H a Ha. eapply find_none; eauto. by apply list_elem_of_In.
  - induction l as [|x l IH]; [done|]. cbn. intros H.
    rewrite (H x) by left. apply IH. intros a Ha. apply H. by right.
Qed.

Lemma size_list_to_set_le (l : list string) :
  (size (list_to_set l : gset string) <= length l)%nat.
Proof.
  induction l as [|x l IH]; cbn [list_to_set length]; [by rewrite size_empty|].
  rewrite size_union_alt, size_singleton.
  pose proof (subseteq_size (list_to_set l ∖ {[x]}) (list_to_set l : gset string)
    ltac:(set_solver)). lia.
Qed.

(** Comparing the size of the collected set with the list detects duplicates. *)
Lemma NoDup_of_set_size (l : list string) :
  size (list_to_set l : gset string) = length l -> NoDup l.
Proof.
  induction l as [|x l IH]; intros Hs; [constructor|]. cbn [list_to_set length] in Hs.
  pose proof (size_list_to_set_le l) as Hle. rewrite size_union_alt, size_singleton in Hs.
  destruct (decide (x ∈ l)) as [Hx|Hx].
  - assert (size (list_to_set l ∖ {[x]} : gset string) < size (list_to_set l : gset string))%nat.
    { apply subset_size. split; [set_solver|]. intros Hsub.
      assert (x ∈ (list_to_set l : gset string)) as Hin by (by apply elem_of_list_to_set).
      apply Hsub in Hin. set_solver. }
    lia.
  - constructor; [done|]. apply IH.
    pose proof (subseteq_size (list_to_set l ∖ {[x]}) (list_to_set l : gset string)
      ltac:(set_solver)). lia.
Qed.

(** ** Automation *)
Create HintDb wok discriminated.
Create Rewrite HintDb wok_ok.
#[export] Hint Resolve zlen_nonneg byte_val_range wrap64_range sat_add64_range : wok.
#[export] Hint Rewrite @result_bind_Ok @guard_err_Ok @map_err_Ok @ok_or_Ok : wok_ok.

(** Turn a successful computation into the facts its binds established. *)
Ltac ok_inv H :=
  autorewrite with wok_ok in H; destruct_and?; simplify_eq;
  repeat match type of H with
         | exists _, _ => let x := fresh "x" in destruct H as [x H]
         | _ /\ _ => let K := fresh "K" in destruct H as [K H]
         end; autorewrite with wok_ok in *.

(** Unfold the machine-integer operations and call [lia]. *)
Ltac ulia :=
  unfold in_u64, in_u8, sat_add64, sat_mul64, sat_sub, sat_add8, u64_max, u8_max in *; lia.
