(* ===== verification/Accounts.v ===== *)
(** * Account health table

    Models [crates/wokcore-engine/src/accounts.rs]: the sharded table of
    per-account health, the observations that move an account between
    healthy, cooling down, quota-exhausted and quarantined, the snapshot and
    restore path, and weighted least-recently-used selection. *)

From S2P Require Import Prelude.

Inductive AccountAuthentication : Set :=
| Forward | Oauth | ApiKey | Local.

#[global] Instance AccountAuthentication_eq_dec : EqDecision AccountAuthentication.
Proof. solve_decision. Defined.

Inductive AccountStatusKind : Set :=
| Healthy | CoolingDown | QuotaExhausted | Quarantined.

#[global] Instance AccountStatusKind_eq_dec : EqDecision AccountStatusKind.
Proof. solve_decision. Defined.

Inductive AccountStateError : Set :=
| InvalidPolicy | InvalidWeight | DuplicateAccount | TooManyAccounts | UnknownAccount
| InvalidSnapshot.

#[global] Instance AccountStateError_eq_dec : EqDecision AccountStateError.
Proof. solve_decision. Defined.

Inductive SelectionError : Set :=
| SelectionAccountState (e : AccountStateError)
| NoEligibleAccount.

#[global] Instance SelectionError_eq_dec : EqDecision SelectionError.
Proof. solve_decision. Defined.

Inductive AccountChoiceOrigin : Set :=
| Affinity | WeightedLeastRecentlyUsed.

#[global] Instance AccountChoiceOrigin_eq_dec : EqDecision AccountChoiceOrigin.
Proof. solve_decision. Defined.

Inductive AccountObservation : Set :=
| Success
| RateLimited (retry_after_ms : option Z)
| TemporaryFailure (retry_after_ms : option Z)
| InvalidCredentials
| InvalidRequest
| PolicyRejected
| Quota (remaining resets_at_ms : Z).

Definition ACCOUNT_SHARDS : Z := 64.
Definition MAX_ACCOUNTS : Z := 256.
Definition MAX_WEIGHT : Z := 100.
Definition MAX_COOLDOWN_MS : Z := 24 * 60 * 60 * 1000.

Record AccountHealthPolicy : Set := mkPolicy {
  base_cooldown_ms : Z;
  max_cooldown_ms : Z
}.

Definition AccountHealthPolicy_new (base max : Z) : result AccountStateError AccountHealthPolicy :=
  if (base =? 0) || (max <? base) || (MAX_COOLDOWN_MS <? max)
  then Err InvalidPolicy
  else Ok (mkPolicy base max).

Record AccountCandidate : Set := mkCandidate {
  cand_account_id : string;
  cand_authentication : AccountAuthentication;
  cand_weight : Z
}.

Definition AccountCandidate_new (id : string) (auth : AccountAuthentication) (weight : Z)
  : result AccountStateError AccountCandidate :=
  if (weight =? 0) || (MAX_WEIGHT <? weight)
  then Err InvalidWeight
  else Ok (mkCandidate id auth weight).

Record AccountStatus : Set := mkStatus {
  st_kind : AccountStatusKind;
  st_consecutive_failures : Z;
  st_cooldown_until_ms : option Z;
  st_quota_remaining : option Z;
  st_quota_resets_at_ms : option Z;
  st_selection_count : Z;
  st_last_selected_sequence : Z;
  st_updated_at_ms : Z
}.

Record AccountState : Set := mkState {
  consecutive_failures : Z;
  cooldown_until_ms : option Z;
  quarantined : bool;
  quota_remaining : option Z;
  quota_resets_at_ms : option Z;
  selection_count : Z;
  last_selected_sequence : Z;
  updated_at_ms : Z
}.

#[global] Instance AccountState_eq_dec : EqDecision AccountState.
Proof. solve_decision. Defined.

Definition AccountState_default : AccountState := mkState 0 None false None None 0 0 0.

Definition normalize (s : AccountState) (now_ms : Z) : AccountState :=
  let cooldown :=
    if is_some_and (fun until_ms => until_ms <=? now_ms) (cooldown_until_ms s)
    then None else cooldown_until_ms s in
  let expired := is_some_and (fun resets => resets <=? now_ms) (quota_resets_at_ms s) in
  mkState (consecutive_failures s) cooldown (quarantined s)
    (if expired then None else quota_remaining s)
    (if expired then None else quota_resets_at_ms s)
    (selection_count s) (last_selected_sequence s) (updated_at_ms s).

Definition AccountState_kind (s : AccountState) : AccountStatusKind :=
  if quarantined s then Quarantined
  else if is_someb (cooldown_until_ms s) then CoolingDown
  else if bool_decide (quota_remaining s = Some 0) then QuotaExhausted
  else Healthy.

Definition AccountState_status (s : AccountState) : AccountStatus :=
  mkStatus (AccountState_kind s) (consecutive_failures s) (cooldown_until_ms s)
    (quota_remaining s) (quota_resets_at_ms s) (selection_count s)
    (last_selected_sequence s) (updated_at_ms s).

Record AccountHealthSnapshot : Set := mkSnapshot {
  snap_account_id : string;
  snap_consecutive_failures : Z;
  snap_cooldown_until_ms : option Z;
  snap_quarantined : bool;
  snap_quota_remaining : option Z;
  snap_quota_resets_at_ms : option Z;
  snap_selection_count : Z;
  snap_last_selected_sequence : Z;
  snap_updated_at_ms : Z
}.

(** ** The table: 64 mutex-protected shards and a selection counter *)
Record AccountHealthTable : Type := mkTable {
  policy : AccountHealthPolicy;
  shards : list (gmap string AccountState);
  selection_sequence : Z
}.

(** FNV-1a over the identifier's bytes, modulo the shard count. *)
Definition account_hash (id : string) : Z :=
  fold_left (fun hash byte => wrap64 (Z.lxor hash byte * 1099511628211))
    (str_bytes id) 14695981039346656037.

Definition account_shard (id : string) : nat :=
  Z.to_nat (account_hash id mod ACCOUNT_SHARDS).

Definition lock_shard (t : AccountHealthTable) (id : string) : gmap string AccountState :=
  default ∅ (shards t !! account_shard id).

(** The state reached through [lock_shard] and [get_mut]. *)
Definition get_state (t : AccountHealthTable) (id : string) : option AccountState :=
  lock_shard t id !! id.

Definition set_state (t : AccountHealthTable) (id : string) (s : AccountState)
  : AccountHealthTable :=
  mkTable (policy t) (<[account_shard id := <[id := s]> (lock_shard t id)]> (shards t))
    (selection_sequence t).

(** ** Construction and restoration *)
Definition AccountHealthTable_new (p : AccountHealthPolicy) (accounts : list string)
  : result AccountStateError AccountHealthTable :=
  let unique : gset string := list_to_set accounts in
  if negb (Nat.eqb (size unique) (length accounts)) then Err DuplicateAccount
  else if MAX_ACCOUNTS <? zlen accounts then Err TooManyAccounts
  else
    let table := mkTable p (replicate (Z.to_nat ACCOUNT_SHARDS) ∅) 0 in
    Ok (fold_left (fun t account => set_state t account AccountState_default) accounts table).

Definition snapshot_invalid (s : AccountHealthSnapshot) : bool :=
  (64 <? snap_consecutive_failures s)
  || (snap_last_selected_sequence s <? snap_selection_count s)
  || ((snap_selection_count s =? 0) && negb (snap_last_selected_sequence s =? 0))
  || (is_someb (snap_cooldown_until_ms s) && snap_quarantined s)
  || negb (eqb (is_someb (snap_quota_remaining s)) (is_someb (snap_quota_resets_at_ms s))).

Definition state_of_snapshot (s : AccountHealthSnapshot) : AccountState :=
  mkState (snap_consecutive_failures s) (snap_cooldown_until_ms s) (snap_quarantined s)
    (snap_quota_remaining s) (snap_quota_resets_at_ms s) (snap_selection_count s)
    (snap_last_selected_sequence s) (snap_updated_at_ms s).

(** One iteration of the loop of [restore]; the loop state is the table, the
    set of restored accounts and the largest sequence seen. *)
Definition restore_step (now_ms : Z)
    (acc : AccountHealthTable * gset string * Z) (snapshot : AccountHealthSnapshot)
  : result AccountStateError (AccountHealthTable * gset string * Z) :=
  let '(table, restored, maximum_sequence) := acc in
  let id := snap_account_id snapshot in
  if bool_decide (id ∈ restored) then Err InvalidSnapshot
  else if snapshot_invalid snapshot then Err InvalidSnapshot
  else
    let? _ := ok_or (get_state table id) UnknownAccount in
    let state := normalize (state_of_snapshot snapshot) now_ms in
    Ok (set_state table id state, {[id]} ∪ restored,
        Z.max maximum_sequence (snap_last_selected_sequence snapshot)).

Definition restore (p : AccountHealthPolicy) (accounts : list string)
    (snapshots : list AccountHealthSnapshot) (now_ms : Z)
  : result AccountStateError AccountHealthTable :=
  let? table := AccountHealthTable_new p accounts in
  let? acc := try_fold (restore_step now_ms) (table, ∅, 0) snapshots in
  let '(table, _, maximum_sequence) := acc in
  Ok (mkTable (policy table) (shards table) maximum_sequence).

(** ** Observations *)
Definition observe_state (p : AccountHealthPolicy) (s0 : AccountState)
    (observation : AccountObservation) (now_ms : Z) : AccountState :=
  let s := normalize s0 now_ms in
  let s' :=
    match observation with
    | Success =>
        mkState 0 None false None None (selection_count s) (last_selected_sequence s)
          (updated_at_ms s)
    | RateLimited retry_after_ms | TemporaryFailure retry_after_ms =>
        let failures := sat_add8 (consecutive_failures s) 1 in
        let exponent := Z.min (sat_sub failures 1) 63 in
        let exponential :=
          Z.min (sat_mul64 (base_cooldown_ms p) (default u64_max (checked_shl64 1 exponent)))
            (max_cooldown_ms p) in
        let hinted := Z.min (default 0 retry_after_ms) (max_cooldown_ms p) in
        let duration := Z.max exponential hinted in
        mkState failures (Some (sat_add64 now_ms duration)) (quarantined s)
          (quota_remaining s) (quota_resets_at_ms s) (selection_count s)
          (last_selected_sequence s) (updated_at_ms s)
    | InvalidCredentials =>
        mkState (sat_add8 (consecutive_failures s) 1) None true
          (quota_remaining s) (quota_resets_at_ms s) (selection_count s)
          (last_selected_sequence s) (updated_at_ms s)
    | InvalidRequest | PolicyRejected => s
    | Quota remaining resets_at_ms =>
        let live := negb (resets_at_ms <=? now_ms) in
        mkState (consecutive_failures s) (cooldown_until_ms s) (quarantined s)
          (if live then Some remaining else None)
          (if live then Some resets_at_ms else None)
          (selection_count s) (last_selected_sequence s) (updated_at_ms s)
    end in
  mkState (consecutive_failures s') (cooldown_until_ms s') (quarantined s')
    (quota_remaining s') (quota_resets_at_ms s') (selection_count s')
    (last_selected_sequence s') (Z.max (updated_at_ms s') now_ms).

Definition observe (t : AccountHealthTable) (id : string) (observation : AccountObservation)
    (now_ms : Z) : result AccountStateError unit * AccountHealthTable :=
  match get_state t id with
  | None => (Err UnknownAccount, t)
  | Some s => (Ok tt, set_state t id (observe_state (policy t) s observation now_ms))
  end.

(** [status] normalizes the stored state before it reports it. *)
Definition status (t : AccountHealthTable) (id : string) (now_ms : Z)
  : result AccountStateError AccountStatus * AccountHealthTable :=
  match get_state t id with
  | None => (Err UnknownAccount, t)
  | Some s => let s' := normalize s now_ms in (Ok (AccountState_status s'), set_state t id s')
  end.

(** ** Snapshots *)
Definition snapshot_of (id : string) (s : AccountState) : AccountHealthSnapshot :=
  mkSnapshot id (consecutive_failures s) (cooldown_until_ms s) (quarantined s)
    (quota_remaining s) (quota_resets_at_ms s) (selection_count s)
    (last_selected_sequence s) (updated_at_ms s).

Definition snapshot_le (x y : AccountHealthSnapshot) : Prop :=
  String.le (snap_account_id x) (snap_account_id y).

#[global] Instance snapshot_le_dec : RelDecision snapshot_le.
Proof. intros x y. unfold snapshot_le. apply _. Defined.

Definition normalize_shard (now_ms : Z) (shard : gmap string AccountState)
  : gmap string AccountState :=
  (fun s => normalize s now_ms) <$> shard.

Definition normalize_all (t : AccountHealthTable) (now_ms : Z) : AccountHealthTable :=
  mkTable (policy t) (normalize_shard now_ms <$> shards t)
    (selection_sequence t).

Definition snapshots (t : AccountHealthTable) (now_ms : Z)
  : list AccountHealthSnapshot * AccountHealthTable :=
  let t' := normalize_all t now_ms in
  let pushed :=
    flat_map (fun shard => (fun e => snapshot_of e.1 e.2) <$> btree_iter shard) (shards t') in
  (merge_sort snapshot_le pushed, t').

Definition reconfigured (t : AccountHealthTable) (accounts : list string) (now_ms : Z)
  : result AccountStateError AccountHealthTable * AccountHealthTable :=
  let retained : gset string := list_to_set accounts in
  let '(snaps, t') := snapshots t now_ms in
  let kept := List.filter (fun s => bool_decide (snap_account_id s ∈ retained)) snaps in
  (restore (policy t') accounts kept now_ms, t').

(** ** Selection *)
Definition compare_weighted_usage (left : AccountCandidate) (left_status : AccountStatus)
    (right : AccountCandidate) (right_status : AccountStatus) : comparison :=
  let left_score := st_selection_count left_status * cand_weight right in
  let right_score := st_selection_count right_status * cand_weight left in
  match left_score ?= right_score with
  | Eq => st_last_selected_sequence left_status ?= st_last_selected_sequence right_status
  | c => c
  end.

(** [fetch_add] wraps the shared counter; the sequence given to the account
    is the previous value plus one, saturating. *)
Definition mark_selected (t : AccountHealthTable) (id : string) (now_ms : Z)
  : result AccountStateError unit * AccountHealthTable :=
  let sequence := sat_add64 (selection_sequence t) 1 in
  let t1 := mkTable (policy t) (shards t) (wrap64 (selection_sequence t + 1)) in
  match get_state t1 id with
  | None => (Err UnknownAccount, t1)
  | Some s =>
      (Ok tt,
       set_state t1 id
         (mkState (consecutive_failures s) (cooldown_until_ms s) (quarantined s)
            (quota_remaining s) (quota_resets_at_ms s) (sat_add64 (selection_count s) 1)
            sequence (Z.max (updated_at_ms s) now_ms)))
  end.

Record AccountChoice : Set := mkChoice {
  choice_account_id : string;
  choice_origin : AccountChoiceOrigin
}.

Definition mark_choice (t : AccountHealthTable) (id : string) (origin : AccountChoiceOrigin)
    (now_ms : Z) : result SelectionError AccountChoice * AccountHealthTable :=
  let '(r, t') := mark_selected t id now_ms in
  (let? _ := map_err SelectionAccountState r in Ok (mkChoice id origin), t').

Section select.
Context (authentication : AccountAuthentication) (affinity_account : option string) (now_ms : Z).

(** The loop of [select_from] over the remaining candidates, with the best
    candidate so far; the table is threaded because [status] writes to it. *)
Fixpoint select_loop (candidates : list AccountCandidate)
    (best : option (AccountCandidate * AccountStatus)) (t : AccountHealthTable)
  : result SelectionError AccountChoice * AccountHealthTable :=
  match candidates with
  | [] =>
      match best with
      | None => (Err NoEligibleAccount, t)
      | Some (candidate, _) =>
          mark_choice t (cand_account_id candidate) WeightedLeastRecentlyUsed now_ms
      end
  | candidate :: rest =>
      if negb (bool_decide (cand_authentication candidate = authentication))
      then select_loop rest best t
      else
        match status t (cand_account_id candidate) now_ms with
        | (Err e, t') => (Err (SelectionAccountState e), t')
        | (Ok st, t') =>
            if negb (bool_decide (st_kind st = Healthy)) then select_loop rest best t'
            else if bool_decide (affinity_account = Some (cand_account_id candidate))
            then mark_choice t' (cand_account_id candidate) Affinity now_ms
            else
              let replace :=
                is_none_or (fun cur =>
                  match compare_weighted_usage candidate st cur.1 cur.2 with
                  | Lt => true | _ => false end) best in
              select_loop rest (if replace then Some (candidate, st) else best) t'
        end
  end.

Definition select_from (candidates : list AccountCandidate) (t : AccountHealthTable)
  : result SelectionError AccountChoice * AccountHealthTable :=
  select_loop candidates None t.
End select.
