(* ===== verification/AccountsSpec.v ===== *)
(** * Account health table: structure, refinement and selection

    The 64-shard table of [Accounts] behaves as one flat map from account to
    state; every access, the two halves of a mark taken separately, keeps every
    state well formed, and the cooldowns are bounded; selection does exactly what
    its contract says and is fair. *)

From S2P Require Import Prelude Accounts.

(** ** Shard structure *)
Record table_wf (t : AccountHealthTable) : Prop := {
  wf_len : length (shards t) = Z.to_nat ACCOUNT_SHARDS;
  wf_home : forall i sh id,
    shards t !! i = Some sh -> is_Some (sh !! id) -> i = account_shard id
}.

Lemma account_shard_lt id : (account_shard id < Z.to_nat ACCOUNT_SHARDS)%nat.
Proof.
  unfold account_shard. apply Z2Nat.inj_lt; try (unfold ACCOUNT_SHARDS; lia);
    apply Z.mod_pos_bound; unfold ACCOUNT_SHARDS; lia.
Qed.

Lemma shard_lookup t id : table_wf t -> shards t !! account_shard id = Some (lock_shard t id).
Proof.
  intros [Hlen _]. unfold lock_shard.
  destruct (shards t !! account_shard id) eqn:E; [done|].
  apply lookup_ge_None in E. pose proof (account_shard_lt id). lia.
Qed.

Lemma lock_shard_set t id s id' : table_wf t ->
  lock_shard (set_state t id s) id' =
  if decide (account_shard id = account_shard id') then <[id := s]> (lock_shard t id)
  else lock_shard t id'.
Proof.
  intros Hwf. unfold lock_shard at 1, set_state; cbn.
  case_decide as Hs.
  - rewrite <- Hs, list_lookup_insert_eq; [done|].
    rewrite (wf_len _ Hwf). apply account_shard_lt.
  - by rewrite list_lookup_insert_ne.
Qed.

Lemma get_set_eq t id s : table_wf t -> get_state (set_state t id s) id = Some s.
Proof.
  intros Hwf. unfold get_state. rewrite lock_shard_set by done.
  rewrite decide_True by done. apply lookup_insert_eq.
Qed.

Lemma get_set_ne t id id' s : table_wf t -> id <> id' ->
  get_state (set_state t id s) id' = get_state t id'.
Proof.
  intros Hwf Hne. unfold get_state. rewrite lock_shard_set by done.
  case_decide as Hs; [|done]. rewrite lookup_insert_ne by done.
  unfold lock_shard. by rewrite Hs.
Qed.

Lemma set_state_wf t id s : table_wf t -> table_wf (set_state t id s).
Proof.
  intros Hwf. split; cbn.
  - rewrite length_insert. apply Hwf.
  - intros i sh id' Hi Hid'. apply list_lookup_insert_Some in Hi as [(<- & <- & _)|[_ Hi]].
    + destruct (decide (id = id')) as [->|Hne]; [done|].
      rewrite lookup_insert_ne in Hid' by done.
      eapply wf_home; [done|by apply shard_lookup|done].
    + by eapply wf_home.
Qed.

Lemma seq_wf t n : table_wf t -> table_wf (mkTable (policy t) (shards t) n).
Proof. intros [H1 H2]. by split. Qed.

Lemma normalize_all_wf t now : table_wf t -> table_wf (normalize_all t now).
Proof.
  intros Hwf. split; cbn.
  - rewrite length_fmap. apply Hwf.
  - intros i sh id Hi Hid. apply list_lookup_fmap_Some in Hi as (sh0 & -> & Hi).
    unfold normalize_shard in Hid. rewrite lookup_fmap, fmap_is_Some in Hid.
    by eapply wf_home.
Qed.

Lemma get_state_normalize_all t now id :
  get_state (normalize_all t now) id = (fun s => normalize s now) <$> get_state t id.
Proof.
  unfold get_state, lock_shard, normalize_all; cbn. rewrite list_lookup_fmap.
  destruct (shards t !! account_shard id) as [sh|]; cbn.
  - unfold normalize_shard. by rewrite lookup_fmap.
  - by rewrite !lookup_empty.
Qed.

#[export] Hint Resolve set_state_wf seq_wf normalize_all_wf : wok.

(** ** Abstract specification: one flat map *)
Record HealthSpec : Type := mkSpec {
  hs_policy : AccountHealthPolicy;
  hs_states : gmap string AccountState;
  hs_sequence : Z
}.

Definition flat (t : AccountHealthTable) : gmap string AccountState := ⋃ (shards t).

Definition abs (t : AccountHealthTable) : HealthSpec :=
  mkSpec (policy t) (flat t) (selection_sequence t).

(** A specification step updates the state of one registered account. *)
Definition spec_update {B} (h : HealthSpec) (id : string) (f : AccountState -> B * AccountState)
  : result AccountStateError B * HealthSpec :=
  match hs_states h !! id with
  | None => (Err UnknownAccount, h)
  | Some s =>
      let '(b, s') := f s in
      (Ok b, mkSpec (hs_policy h) (<[id := s']> (hs_states h)) (hs_sequence h))
  end.

Definition spec_observe h id o now :=
  spec_update h id (fun s => (tt, observe_state (hs_policy h) s o now)).

Definition spec_status h id now :=
  spec_update h id (fun s => let s' := normalize s now in (AccountState_status s', s')).

Definition select_mark (s : AccountState) (sequence now_ms : Z) : AccountState :=
  mkState (consecutive_failures s) (cooldown_until_ms s) (quarantined s)
    (quota_remaining s) (quota_resets_at_ms s) (sat_add64 (selection_count s) 1)
    sequence (Z.max (updated_at_ms s) now_ms).

Definition spec_mark_selected h id now :=
  spec_update (mkSpec (hs_policy h) (hs_states h) (wrap64 (hs_sequence h + 1))) id
    (fun s => (tt, select_mark s (sat_add64 (hs_sequence h) 1) now)).

Definition spec_new p (accounts : list string) : HealthSpec :=
  mkSpec p (list_to_map ((fun a => (a, AccountState_default)) <$> accounts)) 0.

Lemma lookup_union_list_home {V} (l : list (gmap string V)) id j :
  (forall i sh, l !! i = Some sh -> is_Some (sh !! id) -> i = j) ->
  (⋃ l) !! id = l !! j ≫= (fun sh => sh !! id).
Proof.
  revert j. induction l as [|sh l IH]; intros j Hhome; cbn.
  { by rewrite lookup_empty. }
  destruct (sh !! id) as [v|] eqn:E.
  - rewrite (lookup_union_Some_l _ _ _ _ E).
    by rewrite <- (Hhome 0%nat sh eq_refl (mk_is_Some _ _ E)).
  - rewrite lookup_union_r by done. destruct j as [|j]; cbn.
    + rewrite E, (IH (length l)).
      * by rewrite lookup_ge_None_2.
      * intros i sh' Hi Hid. by specialize (Hhome (S i) sh' Hi Hid).
    + apply IH. intros i sh' Hi Hid. by specialize (Hhome (S i) sh' Hi Hid) as [= ->].
Qed.

Lemma lookup_flat t id : table_wf t -> flat t !! id = get_state t id.
Proof.
  intros Hwf. unfold flat. rewrite (lookup_union_list_home _ _ (account_shard id)).
  - by rewrite shard_lookup.
  - intros i sh. by apply Hwf.
Qed.

Lemma flat_set_state t id s : table_wf t -> flat (set_state t id s) = <[id := s]> (flat t).
Proof.
  intros Hwf. apply map_eq. intros id'. rewrite lookup_flat by auto with wok.
  rewrite lookup_insert. case_decide as Hid.
  - subst. by apply get_set_eq.
  - rewrite get_set_ne, lookup_flat by done. done.
Qed.

Lemma abs_set_state t id s : table_wf t ->
  abs (set_state t id s) = mkSpec (policy t) (<[id := s]> (flat t)) (selection_sequence t).
Proof. intros. unfold abs. by rewrite flat_set_state. Qed.

(** [t] and its result refine the specification's: equal results, and the
    new table is well formed and abstracts to the new specification state. *)
Definition refines {B} (r : result AccountStateError B * AccountHealthTable)
    (h : result AccountStateError B * HealthSpec) : Prop :=
  r.1 = h.1 /\ abs r.2 = h.2 /\ table_wf r.2.

Lemma observe_refines t id o now : table_wf t ->
  refines (observe t id o now) (spec_observe (abs t) id o now).
Proof.
  intros Hwf. unfold refines, observe, spec_observe, spec_update; cbn.
  rewrite lookup_flat by done. destruct (get_state t id) as [s|]; cbn; [|done].
  by rewrite abs_set_state; eauto with wok.
Qed.

Lemma status_refines t id now : table_wf t ->
  refines (status t id now) (spec_status (abs t) id now).
Proof.
  intros Hwf. unfold refines, status, spec_status, spec_update; cbn.
  rewrite lookup_flat by done. destruct (get_state t id) as [s|]; cbn; [|done].
  by rewrite abs_set_state; eauto with wok.
Qed.

Lemma mark_selected_refines t id now : table_wf t ->
  refines (mark_selected t id now) (spec_mark_selected (abs t) id now).
Proof.
  intros Hwf. unfold refines, mark_selected, spec_mark_selected, spec_update; cbn.
  rewrite lookup_flat by done.
  change (get_state (mkTable (policy t) (shards t) _) id) with (get_state t id).
  destruct (get_state t id) as [s|]; cbn; [|eauto with wok].
  rewrite abs_set_state; eauto with wok.
Qed.

Lemma empty_table_wf p :
  table_wf (mkTable p (replicate (Z.to_nat ACCOUNT_SHARDS) ∅) 0).
Proof.
  split; cbn -[replicate].
  - by rewrite length_replicate.
  - intros i sh id [-> _]%lookup_replicate [s Hs]. by rewrite lookup_empty in Hs.
Qed.

Lemma flat_empty_table p n : flat (mkTable p (replicate n ∅) 0) = ∅.
Proof.
  unfold flat; cbn. induction n as [|n IH]; cbn; [done|]. by rewrite IH, (left_id_L ∅ (∪)).
Qed.

Lemma register_all accounts t : table_wf t ->
  let t' := fold_left (fun t a => set_state t a AccountState_default) accounts t in
  table_wf t' /\ policy t' = policy t /\ selection_sequence t' = selection_sequence t /\
  forall id, get_state t' id =
    if decide (id ∈ accounts) then Some AccountState_default else get_state t id.
Proof.
  revert t. induction accounts as [|a accounts IH]; intros t Hwf; cbn.
  { by split_and!. }
  destruct (IH (set_state t a AccountState_default)) as (H1 & H2 & H3 & H4); [by auto with wok|].
  split_and!; [done..|]. intros id. rewrite H4. destruct (decide (id = a)) as [->|Hne].
  - rewrite (decide_True (P := a ∈ a :: _)) by set_solver. case_decide; [done|].
    by apply get_set_eq.
  - rewrite get_set_ne by done. repeat case_decide; set_solver.
Qed.

Lemma AccountHealthTable_new_Ok p accounts t :
  AccountHealthTable_new p accounts = Ok t <->
  NoDup accounts /\ zlen accounts <= MAX_ACCOUNTS /\
  t = fold_left (fun t a => set_state t a AccountState_default) accounts
        (mkTable p (replicate (Z.to_nat ACCOUNT_SHARDS) ∅) 0).
Proof.
  unfold AccountHealthTable_new.
  destruct (Nat.eqb_spec (size (list_to_set accounts : gset string)) (length accounts)) as [He|He];
    cbn [negb].
  - assert (NoDup accounts) by by apply NoDup_of_set_size.
    destruct (Z.ltb_spec MAX_ACCOUNTS (zlen accounts)); split; try naive_solver lia.
  - split; [done|]. intros (Hnd & _). by rewrite size_list_to_set in He.
Qed.

Lemma new_get_state p accounts t : AccountHealthTable_new p accounts = Ok t ->
  table_wf t /\ policy t = p /\ selection_sequence t = 0 /\
  forall id, get_state t id = if decide (id ∈ accounts) then Some AccountState_default else None.
Proof.
  intros (_ & _ & ->)%AccountHealthTable_new_Ok.
  destruct (register_all accounts _ (empty_table_wf p)) as (H1 & H2 & H3 & H4).
  split_and!; [done..|]. intros id. rewrite H4. case_decide; [done|].
  rewrite <- lookup_flat by apply empty_table_wf. by rewrite flat_empty_table, lookup_empty.
Qed.

(** ** Well-formed states *)
Definition opt_u64 (o : option Z) : Prop := forall v, o = Some v -> in_u64 v.

Record state_wf (s : AccountState) : Prop := {
  sw_failures : in_u8 (consecutive_failures s);
  sw_cooldown : opt_u64 (cooldown_until_ms s);
  sw_quota : is_Some (quota_remaining s) <-> is_Some (quota_resets_at_ms s);
  sw_remaining : opt_u64 (quota_remaining s);
  sw_resets : opt_u64 (quota_resets_at_ms s);
  sw_count : in_u64 (selection_count s);
  sw_zero : selection_count s = 0 -> last_selected_sequence s = 0;
  sw_last : in_u64 (last_selected_sequence s);
  sw_updated : in_u64 (updated_at_ms s)
}.

Definition policy_ok (p : AccountHealthPolicy) : Prop :=
  0 < base_cooldown_ms p <= max_cooldown_ms p /\ max_cooldown_ms p <= MAX_COOLDOWN_MS.

Definition observation_ok (o : AccountObservation) : Prop :=
  match o with
  | RateLimited h | TemporaryFailure h => opt_u64 h
  | Quota r a => in_u64 r /\ in_u64 a
  | _ => True
  end.

Lemma policy_new_ok b m p : 0 <= b -> AccountHealthPolicy_new b m = Ok p -> policy_ok p.
Proof.
  unfold AccountHealthPolicy_new, policy_ok. intros Hb.
  destruct (Z.eqb_spec b 0), (Z.ltb_spec m b), (Z.ltb_spec MAX_COOLDOWN_MS m);
    cbn; intros; simplify_eq; cbn; lia.
Qed.

Lemma default_state_wf : state_wf AccountState_default.
Proof. split; cbn; try done; ulia. Qed.

Lemma opt_u64_None : opt_u64 None.
Proof. done. Qed.

Lemma opt_u64_Some v : in_u64 v -> opt_u64 (Some v).
Proof. intros ? ? [= <-]. done. Qed.

#[export] Hint Resolve default_state_wf opt_u64_None opt_u64_Some : wok.

Lemma normalize_wf s now : state_wf s -> state_wf (normalize s now).
Proof.
  intros []. unfold normalize.
  destruct (is_some_and _ (cooldown_until_ms s)), (is_some_and _ (quota_resets_at_ms s));
    split; cbn; auto with wok; try done; by split; intros [? ?].
Qed.

Lemma normalize_idem s now : normalize (normalize s now) now = normalize s now.
Proof.
  unfold normalize; cbn.
  destruct (is_some_and _ (cooldown_until_ms s)) eqn:E1,
           (is_some_and _ (quota_resets_at_ms s)) eqn:E2; cbn; by rewrite ?E1, ?E2.
Qed.

(** The exponential backoff in closed form. *)
Lemma exponential_closed p k : policy_ok p -> 1 <= k ->
  Z.min (sat_mul64 (base_cooldown_ms p)
           (default u64_max (checked_shl64 1 (Z.min (sat_sub k 1) 63))))
    (max_cooldown_ms p)
  = Z.min (base_cooldown_ms p * 2 ^ (k - 1)) (max_cooldown_ms p).
Proof.
  unfold policy_ok, MAX_COOLDOWN_MS. intros [Hb Hm] Hk.
  set (b := base_cooldown_ms p) in *. set (m := max_cooldown_ms p) in *.
  replace (sat_sub k 1) with (k - 1) by ulia.
  unfold checked_shl64. rewrite (proj2 (Z.ltb_lt _ _)) by lia. cbn [from_option]; unfold id.
  set (e := Z.min (k - 1) 63).
  assert (0 <= e <= 63) by lia.
  assert (2 ^ e <= 2 ^ 63) by (apply Z.pow_le_mono_r; lia).
  assert (0 < 2 ^ e) by (apply Z.pow_pos_nonneg; lia).
  change (2 ^ 63) with 9223372036854775808 in *.
  rewrite Z.shiftl_1_l, wrap64_small by ulia. unfold sat_mul64.
  rewrite <- Z.min_assoc, (Z.min_r u64_max) by ulia.
  destruct (Z.le_gt_cases (k - 1) 63).
  - by replace (k - 1) with e by lia.
  - assert (2 ^ 63 <= 2 ^ (k - 1)) by (apply Z.pow_le_mono_r; lia).
    replace e with 63 by lia. change (2 ^ 63) with 9223372036854775808 in *.
    generalize dependent (2 ^ (k - 1)). intros x ?.
    rewrite !Z.min_r; [done| |]; nia.
Qed.

Lemma backoff_bounds p k h : policy_ok p -> 1 <= k -> 0 <= h ->
  base_cooldown_ms p
  <= Z.max (Z.min (base_cooldown_ms p * 2 ^ (k - 1)) (max_cooldown_ms p))
       (Z.min h (max_cooldown_ms p))
  <= max_cooldown_ms p.
Proof.
  intros [Hb Hm] Hk Hh. assert (1 <= 2 ^ (k - 1)).
  { change 1 with (2 ^ 0). apply Z.pow_le_mono_r; lia. }
  nia.
Qed.

Lemma observe_state_wf p s o now :
  policy_ok p -> observation_ok o -> in_u64 now -> state_wf s ->
  state_wf (observe_state p s o now).
Proof.
  intros Hp Ho Hnow Hs. pose proof (normalize_wf s now Hs) as [].
  assert (forall h, opt_u64 h -> opt_u64 (Some (sat_add64 now
    (Z.max (Z.min (sat_mul64 (base_cooldown_ms p) (default u64_max (checked_shl64 1
       (Z.min (sat_sub (sat_add8 (consecutive_failures (normalize s now)) 1) 1) 63))))
       (max_cooldown_ms p)) (Z.min (default 0 h) (max_cooldown_ms p)))))) as Hcool.
  { intros h Hh. apply opt_u64_Some, sat_add64_range; [ulia|].
    rewrite exponential_closed by (done || ulia).
    assert (0 <= default 0 h) by (destruct h as [v|]; [destruct (Hh v eq_refl)|]; simpl; lia).
    pose proof (backoff_bounds p (sat_add8 (consecutive_failures (normalize s now)) 1)
      (default 0 h) Hp ltac:(ulia) ltac:(done)). destruct Hp. lia. }
  destruct o as [|h|h| | | |r a]; cbn in Ho; split; cbn -[Z.mul Z.pow] in *; auto with wok;
    try done; try ulia.
  - destruct (negb _); split; intros [? ?]; done || eauto.
  - destruct (negb _); auto with wok. apply opt_u64_Some, Ho.
  - destruct (negb _); auto with wok. apply opt_u64_Some, Ho.
Qed.

(** ** Invariant of the table under every operation *)
Record table_inv (t : AccountHealthTable) : Prop := {
  ti_wf : table_wf t;
  ti_policy : policy_ok (policy t);
  ti_seq : in_u64 (selection_sequence t);
  ti_state : forall id s, get_state t id = Some s -> state_wf s
}.

Lemma set_state_inv t id s : table_inv t -> state_wf s -> table_inv (set_state t id s).
Proof.
  intros [] Hs. split; cbn; auto with wok. intros id' s' Hg.
  destruct (decide (id = id')) as [->|Hne].
  - rewrite get_set_eq in Hg by done. by simplify_eq.
  - rewrite get_set_ne in Hg by done. by eapply ti_state0.
Qed.

Lemma status_inv t id now : table_inv t -> table_inv (status t id now).2.
Proof.
  intros Hi. unfold status. destruct (get_state t id) as [s|] eqn:E; [|done].
  pose proof (ti_state _ Hi _ _ E). apply set_state_inv; auto using normalize_wf.
Qed.

Lemma observe_inv t id o now : table_inv t -> observation_ok o -> in_u64 now ->
  table_inv (observe t id o now).2.
Proof.
  intros Hi Ho Hn. unfold observe. destruct (get_state t id) as [s|] eqn:E; [|done].
  pose proof (ti_state _ Hi _ _ E). apply set_state_inv; [done|].
  apply observe_state_wf; auto. apply Hi.
Qed.

Lemma normalize_all_inv t now : table_inv t -> table_inv (normalize_all t now).
Proof.
  intros []. split; cbn; auto with wok. intros id s Hg.
  rewrite get_state_normalize_all in Hg. apply fmap_Some in Hg as (s0 & Hg & ->).
  by eapply normalize_wf, ti_state0.
Qed.

Lemma new_inv p accounts t : policy_ok p -> AccountHealthTable_new p accounts = Ok t -> table_inv t.
Proof.
  intros Hp Hnew. destruct (new_get_state _ _ _ Hnew) as (H1 & H2 & H3 & H4).
  split; [done|by rewrite H2|rewrite H3; ulia|].
  intros id s Hg. rewrite H4 in Hg. case_decide; simplify_eq. auto with wok.
Qed.

Lemma status_seq t id now : selection_sequence (status t id now).2 = selection_sequence t.
Proof. unfold status. by destruct (get_state t id). Qed.

(** ** The two halves of a mark
    [mark_selected] takes a sequence number from the shared counter and only
    then locks the account's shard, so marks of concurrent requests interleave. *)

(** A mark in flight: the account, the sequence it drew, its clock. *)
Record PendingMark : Set := mkPending {
  pm_account : string;
  pm_sequence : Z;
  pm_now : Z
}.

Definition mark_fetch (t : AccountHealthTable) (id : string) (now : Z)
  : PendingMark * AccountHealthTable :=
  (mkPending id (sat_add64 (selection_sequence t) 1) now,
   mkTable (policy t) (shards t) (wrap64 (selection_sequence t + 1))).

Definition mark_apply (t : AccountHealthTable) (p : PendingMark)
  : result AccountStateError unit * AccountHealthTable :=
  match get_state t (pm_account p) with
  | None => (Err UnknownAccount, t)
  | Some s => (Ok tt, set_state t (pm_account p) (select_mark s (pm_sequence p) (pm_now p)))
  end.

(** Without interference the two halves are [mark_selected]. *)
Lemma fetch_apply_mark_selected t id now :
  mark_selected t id now = let '(p, t1) := mark_fetch t id now in mark_apply t1 p.
Proof. reflexivity. Qed.

Lemma mark_fetch_table_inv t id now : table_inv t -> table_inv (mark_fetch t id now).2.
Proof.
  intros []. split; cbn; [by apply seq_wf|done|apply wrap64_range|done].
Qed.

Lemma mark_apply_table_inv t p : table_inv t -> 1 <= pm_sequence p <= u64_max -> in_u64 (pm_now p) ->
  table_inv (mark_apply t p).2.
Proof.
  intros Hi Hp Hn. unfold mark_apply. destruct (get_state t (pm_account p)) as [s|] eqn:E; [|done]. cbn.
  destruct (ti_state _ Hi _ _ E). apply set_state_inv; [done|]. split; cbn; try done; ulia.
Qed.

(** The operations of the table as steps of a shared object, each as much as
    happens under one lock or one atomic access. *)
Inductive table_step : AccountHealthTable -> AccountHealthTable -> Prop :=
| step_observe t id o now :
    observation_ok o -> in_u64 now -> table_step t (observe t id o now).2
| step_status t id now : table_step t (status t id now).2
| step_snapshots t now : table_step t (snapshots t now).2
| step_draw t id now : table_step t (mark_fetch t id now).2
| step_mark t p : 1 <= pm_sequence p <= u64_max -> in_u64 (pm_now p) -> table_step t (mark_apply t p).2.

Lemma table_step_inv t t' : table_step t t' -> table_inv t -> table_inv t'.
Proof.
  destruct 1; auto using observe_inv, status_inv, mark_fetch_table_inv, mark_apply_table_inv.
  by apply normalize_all_inv.
Qed.

Lemma set_state_domain t id s s' id' : table_wf t -> get_state t id = Some s ->
  is_Some (get_state (set_state t id s') id') <-> is_Some (get_state t id').
Proof.
  intros Hwf Hs. destruct (decide (id = id')) as [<-|Hne].
  - rewrite get_set_eq, Hs by done. split; eauto.
  - by rewrite get_set_ne.
Qed.

(** No step adds an account or loses one. *)
Lemma table_step_domain t t' id : table_step t t' -> table_wf t ->
  is_Some (get_state t' id) <-> is_Some (get_state t id).
Proof.
  intros Hs Hwf. destruct Hs as [t id' o now _ _|t id' now|t now|t id' now|t p _ _].
  - unfold observe. destruct (get_state t id') eqn:E; [|done]. by eapply set_state_domain.
  - unfold status. destruct (get_state t id') eqn:E; [|done]. by eapply set_state_domain.
  - cbn. rewrite get_state_normalize_all. by rewrite fmap_is_Some.
  - done.
  - unfold mark_apply. destruct (get_state t (pm_account p)) eqn:E; [|done]. by eapply set_state_domain.
Qed.

Lemma mark_choice_steps t id origin now : in_u64 (selection_sequence t) -> in_u64 now ->
  rtc table_step t (mark_choice t id origin now).2.
Proof.
  intros Hs Hn. unfold mark_choice. pose proof (fetch_apply_mark_selected t id now) as Hm.
  destruct (mark_selected t id now) as [r t']. cbn [snd].
  eapply rtc_l; [apply (step_draw t id now)|].
  replace t' with (mark_apply (mark_fetch t id now).2 (mark_fetch t id now).1).2.
  - apply rtc_once, step_mark; cbn; ulia.
  - cbn in *. by rewrite <- Hm.
Qed.

(** A selection is a run of such steps. *)
Lemma select_steps auth aff now cands best t : in_u64 (selection_sequence t) -> in_u64 now ->
  rtc table_step t (select_loop auth aff now cands best t).2.
Proof.
  revert best t. induction cands as [|c cands IH]; intros best t Hs Hn; cbn.
  { destruct best as [[c st]|]; [by apply mark_choice_steps|constructor]. }
  destruct (negb _); [by auto|].
  pose proof (step_status t (cand_account_id c) now) as Hst.
  pose proof (status_seq t (cand_account_id c) now) as Hs'.
  destruct (status t (cand_account_id c) now) as [[st|e] t']; cbn in *; [|by apply rtc_once].
  rewrite <- Hs' in Hs. eapply rtc_l; [exact Hst|].
  destruct (negb _); [by auto|]. destruct (bool_decide _); [by apply mark_choice_steps|by auto].
Qed.

(** In every state of the table reachable from a freshly built one by
    observations, status queries, snapshots and selections, the two halves of
    whose marks may interleave, every account sits in its own shard, its counters
    stay in their machine range, its quota fields are present together, and an
    account that was never selected has no sequence. *)
Theorem reachable_table_inv p accounts t0 t b m :
  0 <= b -> AccountHealthPolicy_new b m = Ok p ->
  AccountHealthTable_new p accounts = Ok t0 -> rtc table_step t0 t -> table_inv t.
Proof.
  intros Hb Hp Hnew Hrtc. assert (table_inv t0) as Hi.
  { eapply new_inv; [|done]. by eapply policy_new_ok. }
  clear Hnew. induction Hrtc; eauto using table_step_inv.
Qed.

(** A two-account table used by the witnesses. *)
Definition demo_policy : AccountHealthPolicy := mkPolicy 1000 60000.

Definition demo_table : AccountHealthTable :=
  match AccountHealthTable_new demo_policy ["light"; "heavy"] with
  | Ok t => t
  | Err _ => mkTable demo_policy [] 0
  end.

Lemma demo_table_new : AccountHealthTable_new demo_policy ["light"; "heavy"] = Ok demo_table.
Proof. vm_compute. reflexivity. Qed.

Lemma demo_table_wf : table_wf demo_table.
Proof. exact (proj1 (new_get_state _ _ _ demo_table_new)). Qed.

Definition demo_cands : list AccountCandidate :=
  [mkCandidate "light" ApiKey 1; mkCandidate "heavy" ApiKey 3].

Lemma demo_cands_weight c : c ∈ demo_cands -> 0 < cand_weight c.
Proof. unfold demo_cands. set_unfold. intros [->|[->|[]]]; cbn; lia. Qed.

Lemma reachable_table_inv_witness :
  table_inv (select_from ApiKey None 7 demo_cands
    (observe demo_table "light" (RateLimited (Some 20)) 5).2).2.
Proof.
  apply (reachable_table_inv demo_policy ["light"; "heavy"] demo_table _ 1000 60000).
  - lia.
  - reflexivity.
  - exact demo_table_new.
  - eapply rtc_l.
    { apply (step_observe demo_table "light" (RateLimited (Some 20)) 5); [|ulia].
      apply opt_u64_Some. ulia. }
    apply select_steps; [vm_compute; split; discriminate|ulia].
Defined.

(** C26: the sharded table refines one flat map.  Observation, status and
    selection marking return what the specification over the flat map
    returns, change exactly the entry it changes, and keep every account in
    its shard. *)
Theorem table_refines_flat_map t id o now : table_wf t ->
  refines (observe t id o now) (spec_observe (abs t) id o now) /\
  refines (status t id now) (spec_status (abs t) id now) /\
  refines (mark_selected t id now) (spec_mark_selected (abs t) id now).
Proof. auto using observe_refines, status_refines, mark_selected_refines. Qed.

Lemma observe_failure_fields p s o h now :
  o = RateLimited h \/ o = TemporaryFailure h ->
  consecutive_failures (observe_state p s o now) = sat_add8 (consecutive_failures s) 1 /\
  cooldown_until_ms (observe_state p s o now) =
    Some (sat_add64 now
      (Z.max
        (Z.min (sat_mul64 (base_cooldown_ms p) (default u64_max (checked_shl64 1
          (Z.min (sat_sub (sat_add8 (consecutive_failures s) 1) 1) 63)))) (max_cooldown_ms p))
        (Z.min (default 0 h) (max_cooldown_ms p)))).
Proof.
  intros [-> | ->]; unfold observe_state, normalize;
    cbn [consecutive_failures cooldown_until_ms]; split; reflexivity.
Qed.

Lemma table_refines_flat_map_witness :
  refines (observe demo_table "light" InvalidCredentials 3)
    (spec_observe (abs demo_table) "light" InvalidCredentials 3) /\
  refines (status demo_table "light" 3) (spec_status (abs demo_table) "light" 3) /\
  refines (mark_selected demo_table "light" 3) (spec_mark_selected (abs demo_table) "light" 3).
Proof. apply (table_refines_flat_map demo_table "light" InvalidCredentials 3), demo_table_wf. Defined.

(** A rate limit or temporary failure puts the account into a cooldown
    that lasts [min(base * 2^(k-1), max)] milliseconds for the [k]-th
    consecutive failure, or the server's hint cut at [max] if that is longer;
    it is at least [base], at most [max], and the deadline saturates at the
    end of the clock. *)
Theorem failure_cooldown p s o h now b m :
  0 <= b -> AccountHealthPolicy_new b m = Ok p -> state_wf s -> opt_u64 h ->
  o = RateLimited h \/ o = TemporaryFailure h ->
  let s' := observe_state p s o now in
  let k := Z.min (consecutive_failures s + 1) 255 in
  let d := Z.max (Z.min (b * 2 ^ (k - 1)) m) (Z.min (default 0 h) m) in
  consecutive_failures s' = k /\
  cooldown_until_ms s' = Some (Z.min (now + d) u64_max) /\ b <= d <= m.
Proof.
  intros Hb Hnew Hs Hh Ho s' k d. pose proof (policy_new_ok _ _ _ Hb Hnew) as Hp.
  assert (base_cooldown_ms p = b /\ max_cooldown_ms p = m) as [Hb' Hm'].
  { unfold AccountHealthPolicy_new in Hnew. destruct (_ || _); by simplify_eq. }
  destruct (sw_failures _ Hs) as [Hf1 Hf2].
  assert (0 <= default 0 h) by (destruct h as [v|]; [destruct (Hh v eq_refl)|]; simpl; lia).
  assert (sat_add8 (consecutive_failures s) 1 = k) as Hk by reflexivity.
  clearbody k.
  destruct (observe_failure_fields p s o h now Ho) as [Hf Hc].
  rewrite exponential_closed, Hk in Hc by (done || ulia).
  pose proof (backoff_bounds p k (default 0 h) Hp ltac:(ulia) ltac:(done)) as Hd.
  rewrite Hb', Hm' in *. subst s'. rewrite Hf, Hc. auto.
Qed.

Lemma failure_cooldown_witness :
  consecutive_failures (observe_state (mkPolicy 1000 60000)
    (mkState 3 None false None None 0 0 0) (RateLimited (Some 2500)) 10000) = 4 /\
  cooldown_until_ms (observe_state (mkPolicy 1000 60000)
    (mkState 3 None false None None 0 0 0) (RateLimited (Some 2500)) 10000) = Some 18000 /\
  1000 <= 8000 <= 60000.
Proof.
  apply (failure_cooldown (mkPolicy 1000 60000) (mkState 3 None false None None 0 0 0)
    (RateLimited (Some 2500)) (Some 2500) 10000 1000 60000); [lia|reflexivity| | |by left].
  - split; cbn; try done; ulia.
  - apply opt_u64_Some. ulia.
Defined.

(** ** Selection *)
Definition view (now : Z) (t : AccountHealthTable) (id : string) : option AccountState :=
  (fun s => normalize s now) <$> get_state t id.

(** Two tables a client cannot tell apart at time [now]. *)
Definition same_view (now : Z) (t t' : AccountHealthTable) : Prop :=
  selection_sequence t = selection_sequence t' /\ forall id, view now t id = view now t' id.

#[global] Instance same_view_equiv now : Equivalence (same_view now).
Proof.
  split.
  - by intros t.
  - intros t t' [H1 H2]. by split.
  - intros t1 t2 t3 [H1 H2] [H3 H4]. split; [by rewrite H1|]. intros id. by rewrite H2.
Qed.

Definition eligible (m : string -> option AccountState) auth (c : AccountCandidate) : Prop :=
  cand_authentication c = auth /\
  exists s, m (cand_account_id c) = Some s /\ AccountState_kind s = Healthy.

(** [c] has been used strictly less than [d], relative to the weights, ties
    broken by the older last selection. *)
Definition less_used (m : string -> option AccountState) (c d : AccountCandidate) : Prop :=
  exists sc sd, m (cand_account_id c) = Some sc /\ m (cand_account_id d) = Some sd /\
  (selection_count sc * cand_weight d < selection_count sd * cand_weight c \/
   selection_count sc * cand_weight d = selection_count sd * cand_weight c /\
   last_selected_sequence sc < last_selected_sequence sd).

(** The candidates at which the walk over the list ends: one the table does not
    know, or the healthy account of the affinity. *)
Definition stops (m : string -> option AccountState) auth (aff : option string) (c : AccountCandidate) : Prop :=
  cand_authentication c = auth /\
  (m (cand_account_id c) = None \/ eligible m auth c /\ aff = Some (cand_account_id c)).

(** The contract of [select_from] over the view [m]: at most one answer for
    every list of candidates. *)
Inductive select_spec (m : string -> option AccountState) auth (aff : option string)
    (cands : list AccountCandidate) : result SelectionError AccountChoice -> Prop :=
| select_unknown pre c post :
    cands = pre ++ c :: post -> (forall d, d ∈ pre -> ~ stops m auth aff d) ->
    cand_authentication c = auth -> m (cand_account_id c) = None ->
    select_spec m auth aff cands (Err (SelectionAccountState UnknownAccount))
| select_affinity pre c post :
    cands = pre ++ c :: post -> (forall d, d ∈ pre -> ~ stops m auth aff d) ->
    eligible m auth c -> aff = Some (cand_account_id c) ->
    select_spec m auth aff cands (Ok (mkChoice (cand_account_id c) Affinity))
| select_weighted pre c post :
    cands = pre ++ c :: post -> (forall d, d ∈ cands -> ~ stops m auth aff d) -> eligible m auth c ->
    (forall d, d ∈ pre -> eligible m auth d -> less_used m c d) ->
    (forall d, d ∈ post -> eligible m auth d -> ~ less_used m d c) ->
    select_spec m auth aff cands (Ok (mkChoice (cand_account_id c) WeightedLeastRecentlyUsed))
| select_none :
    (forall d, d ∈ cands -> ~ stops m auth aff d) -> (forall d, d ∈ cands -> ~ eligible m auth d) ->
    select_spec m auth aff cands (Err NoEligibleAccount).

Lemma less_used_trans m c d e :
  0 < cand_weight c -> 0 < cand_weight d -> 0 < cand_weight e ->
  less_used m c d -> less_used m d e -> less_used m c e.
Proof.
  intros Hc Hd He (sc & sd & H1 & H2 & H3) (sd' & se & H4 & H5 & H6).
  simplify_eq. exists sc, se. split_and!; [done..|].
  set (x := selection_count sc) in *. set (y := selection_count sd) in *.
  set (z := selection_count se) in *.
  set (u := cand_weight c) in *. set (v := cand_weight d) in *. set (w := cand_weight e) in *.
  clearbody x y z u v w.
  assert (x * v <= y * u) by lia. assert (y * w <= z * v) by lia.
  assert (x * w * v <= z * u * v) by nia.
  assert (x * w <= z * u) by nia.
  destruct (Z.eq_dec (x * w) (z * u)) as [Heq|]; [right|left; lia].
  split; [done|]. destruct H3 as [H3|[_ H3]], H6 as [H6|[_ H6]]; nia.
Qed.

(** What is used less than [b] is used less than all [b] is not above. *)
Lemma less_used_below m b c d :
  0 < cand_weight b -> 0 < cand_weight c -> 0 < cand_weight d -> is_Some (m (cand_account_id d)) ->
  less_used m c b -> ~ less_used m d b -> less_used m c d.
Proof.
  intros Hb Hc Hd [sd Hsd] (sc & sb & H1 & H2 & H3) Hn. exists sc, sd. split_and!; [done..|].
  assert (~ (selection_count sd * cand_weight b < selection_count sb * cand_weight d \/
    selection_count sd * cand_weight b = selection_count sb * cand_weight d /\
    last_selected_sequence sd < last_selected_sequence sb)) as Hd' by (intros H; apply Hn; exists sd, sb; done).
  set (x := selection_count sc) in *. set (y := selection_count sb) in *. set (z := selection_count sd) in *.
  set (u := cand_weight c) in *. set (v := cand_weight b) in *. set (w := cand_weight d) in *.
  clearbody x y z u v w.
  assert (x * v <= y * u) by lia. assert (y * w <= z * v) by lia.
  assert (x * w * v <= z * u * v) by nia. assert (x * w <= z * u) by nia.
  destruct (Z.eq_dec (x * w) (z * u)) as [Heq|]; [right|left; lia].
  split; [done|]. assert (x * v = y * u) by nia. assert (y * w = z * v) by nia. lia.
Qed.

Lemma compare_Lt_less_used m c sc d sd :
  m (cand_account_id c) = Some sc -> m (cand_account_id d) = Some sd ->
  compare_weighted_usage c (AccountState_status sc) d (AccountState_status sd) = Lt <->
  less_used m c d.
Proof.
  intros Hc Hd. unfold compare_weighted_usage, less_used; cbn. rewrite Hc, Hd.
  destruct (Z.compare_spec (selection_count sc * cand_weight d) (selection_count sd * cand_weight c)).
  - rewrite Z.compare_lt_iff. naive_solver lia.
  - naive_solver.
  - split; [done|]. naive_solver lia.
Qed.

Lemma view_status now t id : table_wf t -> forall id', view now (status t id now).2 id' = view now t id'.
Proof.
  intros Hwf id'. unfold view, status. destruct (get_state t id) as [s|] eqn:E; cbn; [|done].
  destruct (decide (id = id')) as [->|Hne].
  - rewrite get_set_eq, E by done. cbn. by rewrite normalize_idem.
  - by rewrite get_set_ne.
Qed.

Lemma status_same_view now t id : table_wf t -> same_view now (status t id now).2 t.
Proof. intros Hwf. split; [apply status_seq|by apply view_status]. Qed.

Lemma status_result now t id :
  (status t id now).1 =
  match view now t id with Some s => Ok (AccountState_status s) | None => Err UnknownAccount end.
Proof. unfold view, status. by destruct (get_state t id). Qed.

Lemma status_wf now t id : table_wf t -> table_wf (status t id now).2.
Proof. intros. unfold status. destruct (get_state t id); cbn; auto with wok. Qed.

Lemma status_view now t m id s :
  table_wf t -> (forall id, view now t id = m id) -> m id = Some s ->
  exists t', status t id now = (Ok (AccountState_status s), t') /\ table_wf t' /\
    forall id, view now t' id = m id.
Proof.
  intros Hwf Hm Hs. pose proof (status_result now t id) as Hres. rewrite Hm, Hs in Hres.
  exists (status t id now).2. rewrite <- Hres, <- surjective_pairing.
  split_and!; [done|by apply status_wf|]. intros id'. by rewrite view_status.
Qed.

Lemma mark_choice_result now t id origin : is_Some (view now t id) ->
  (mark_choice t id origin now).1 = Ok (mkChoice id origin).
Proof.
  unfold view, mark_choice, mark_selected. intros Hs%fmap_is_Some.
  change (get_state (mkTable (policy t) (shards t) _) id) with (get_state t id).
  by destruct (get_state t id) as [s|]; [|destruct Hs].
Qed.

(** What the loop knows about the candidates it has passed: the first of the
    least used ones. *)
Definition best_ok (m : string -> option AccountState) auth (pre : list AccountCandidate)
    (best : option (AccountCandidate * AccountStatus)) : Prop :=
  match best with
  | None => forall d, d ∈ pre -> ~ eligible m auth d
  | Some (c, st) =>
      exists p q, pre = p ++ c :: q /\ eligible m auth c /\
      (exists s, m (cand_account_id c) = Some s /\ st = AccountState_status s) /\
      (forall d, d ∈ p -> eligible m auth d -> less_used m c d) /\
      (forall d, d ∈ q -> eligible m auth d -> ~ less_used m d c)
  end.

Lemma best_ok_skip m auth pre c best :
  ~ eligible m auth c -> best_ok m auth pre best -> best_ok m auth (pre ++ [c]) best.
Proof.
  destruct best as [[d st]|]; cbn; [|set_solver]. intros Hc (p & q & -> & He & Hs & Hp & Hq).
  exists p, (q ++ [c]). rewrite <- app_assoc. split_and!; [done..|]. set_solver.
Qed.

Lemma best_ok_step m auth pre c s best replace :
  (forall d, d ∈ pre ++ [c] -> 0 < cand_weight d) ->
  eligible m auth c -> m (cand_account_id c) = Some s -> best_ok m auth pre best ->
  (forall d st, best = Some (d, st) -> replace = true <-> less_used m c d) ->
  (best = None -> replace = true) ->
  best_ok m auth (pre ++ [c]) (if replace then Some (c, AccountState_status s) else best).
Proof.
  intros Hw Hc Hs Hbest Hrep Hnone. destruct replace; cbn.
  - exists pre, []. split_and!; [done|done|by exists s| |set_solver]. intros d Hd Hel.
    destruct best as [[b st]|]; [|by destruct (Hbest d Hd)].
    destruct Hbest as (p & q & -> & _ & _ & Hp & Hq). pose proof (proj1 (Hrep b st eq_refl) eq_refl) as Hcb.
    assert (d = b \/ d ∈ p \/ d ∈ q) as [->|[Hd'|Hd']] by set_solver; [done|..].
    + apply (less_used_trans m c b d); [apply Hw; set_solver..|done|]. by apply Hp.
    + apply (less_used_below m b c d); [apply Hw; set_solver..| |done|by apply Hq].
      destruct Hel as (_ & sd & Hsd & _). eauto.
  - destruct best as [[b st]|]; [|by discriminate Hnone]. cbn.
    destruct Hbest as (p & q & -> & Hbe & Hbs & Hp & Hq). exists p, (q ++ [c]). rewrite <- app_assoc.
    split_and!; [done..|]. intros d Hd Hel Hlt. assert (d = c \/ d ∈ q) as [->|Hd'] by set_solver.
    + by apply (Hrep b st) in Hlt.
    + by eapply Hq.
Qed.

Lemma select_loop_spec auth aff now m pre cands best t :
  table_wf t -> (forall id, view now t id = m id) ->
  (forall c, c ∈ pre ++ cands -> 0 < cand_weight c) ->
  best_ok m auth pre best -> (forall d, d ∈ pre -> ~ stops m auth aff d) ->
  select_spec m auth aff (pre ++ cands) (select_loop auth aff now cands best t).1.
Proof.
  revert pre best t. induction cands as [|c cands IH];
    intros pre best t Hwf Hm Hw Hbest Hstop; cbn [select_loop].
  { rewrite app_nil_r. destruct best as [[c st]|]; cbn in Hbest.
    - destruct Hbest as (p & q & -> & Hel & (s & Hs & _) & Hp & Hq).
      rewrite mark_choice_result by (rewrite Hm; eauto). by eapply select_weighted.
    - by apply select_none. }
  assert (pre ++ c :: cands = (pre ++ [c]) ++ cands) as Hsplit by by rewrite <- app_assoc.
  assert (~ stops m auth aff c -> forall d, d ∈ pre ++ [c] -> ~ stops m auth aff d) as Hnext.
  { intros Hc d Hd. assert (d = c \/ d ∈ pre) as [->|?] by set_solver; [done|by apply Hstop]. }
  destruct (decide (cand_authentication c = auth)) as [Ha|Ha].
  2:{ rewrite bool_decide_eq_false_2 by done. rewrite Hsplit in *. apply IH; try done.
      - apply best_ok_skip; [|done]. by intros [? _].
      - apply Hnext. by intros [? _]. }
  rewrite bool_decide_eq_true_2 by done. cbn [negb].
  destruct (m (cand_account_id c)) as [s|] eqn:Hs.
  2:{ unfold status. rewrite <- Hm in Hs. unfold view in Hs. rewrite fmap_None in Hs. rewrite Hs. cbn.
      eapply (select_unknown _ _ _ _ pre c cands); try done. rewrite <- Hm. unfold view. by rewrite Hs. }
  destruct (status_view now t m _ s Hwf Hm Hs) as (t' & -> & Hwf' & Hm').
  cbn [st_kind AccountState_status].
  destruct (decide (AccountState_kind s = Healthy)) as [Hk|Hk].
  2:{ rewrite bool_decide_eq_false_2 by done. rewrite Hsplit in *.
      assert (~ eligible m auth c) by (intros (_ & ? & ? & ?); congruence).
      apply IH; try done; [by apply best_ok_skip|]. apply Hnext. intros (_ & [?|[? _]]); congruence. }
  rewrite bool_decide_eq_true_2 by done. cbn [negb].
  assert (eligible m auth c) as Hel by (split; eauto).
  case_bool_decide as Haf.
  { rewrite mark_choice_result by (rewrite Hm', Hs; eauto). by eapply (select_affinity _ _ _ _ pre c cands). }
  rewrite Hsplit in *. apply IH; try done.
  - apply best_ok_step; try done; [set_solver| |by intros ->].
    intros d st ->. destruct Hbest as (p & q & _ & _ & (sd & Hsd & ->) & _). cbn [is_none_or fst snd].
    rewrite <- (compare_Lt_less_used m c s d sd Hs Hsd).
    by destruct (compare_weighted_usage _ _ _ _).
  - apply Hnext. intros (_ & [?|[_ ?]]); congruence.
Qed.

(** *** Effect of a selection *)
Lemma normalize_select_mark s n now :
  normalize (select_mark s n now) now = select_mark (normalize s now) n now.
Proof. done. Qed.

Definition selected (m : string -> option AccountState) now seq id (t' : AccountHealthTable) : Prop :=
  table_wf t' /\ selection_sequence t' = wrap64 (seq + 1) /\
  exists s, m id = Some s /\ view now t' id = Some (select_mark s (sat_add64 seq 1) now) /\
  forall id', id' <> id -> view now t' id' = m id'.

Lemma mark_choice_effect now t m id origin ch t' :
  table_wf t -> (forall id, view now t id = m id) ->
  mark_choice t id origin now = (Ok ch, t') ->
  choice_account_id ch = id /\ selected m now (selection_sequence t) id t'.
Proof.
  intros Hwf Hm. unfold mark_choice, mark_selected.
  change (get_state (mkTable (policy t) (shards t) _) id) with (get_state t id).
  destruct (get_state t id) as [s|] eqn:E; cbn; [|done]. intros. simplify_eq. cbn.
  assert (table_wf (mkTable (policy t) (shards t) (wrap64 (selection_sequence t + 1)))) by
    by apply seq_wf.
  split; [done|]. split; [by apply set_state_wf|]. split; [done|].
  exists (normalize s now). split_and!.
  - rewrite <- Hm. unfold view. by rewrite E.
  - unfold view. by rewrite get_set_eq.
  - intros id' Hne. rewrite <- Hm. unfold view. by rewrite get_set_ne.
Qed.

Lemma select_loop_effect auth aff now m cands best t ch t' :
  table_wf t -> (forall id, view now t id = m id) ->
  select_loop auth aff now cands best t = (Ok ch, t') ->
  selected m now (selection_sequence t) (choice_account_id ch) t'.
Proof.
  revert best t. induction cands as [|c cands IH]; intros best t Hwf Hm; cbn [select_loop].
  { destruct best as [[c st]|]; [|done]. intros H. by apply (mark_choice_effect _ _ m) in H as [-> ?]. }
  destruct (negb _); [by apply IH|].
  destruct (m (cand_account_id c)) as [s|] eqn:Hs.
  2:{ unfold status. rewrite <- Hm in Hs. unfold view in Hs. by apply fmap_None in Hs as ->. }
  destruct (status_view now t m _ s Hwf Hm Hs) as (t1 & Est & Hwf' & Hm').
  pose proof (status_seq t (cand_account_id c) now) as Hseq. rewrite Est in *. cbn in Hseq.
  rewrite <- Hseq. destruct (negb _); [by apply IH|]. destruct (bool_decide _); [|by apply IH].
  intros H. by apply (mark_choice_effect _ _ m) in H as [-> ?].
Qed.

Lemma status_policy t id now : policy (status t id now).2 = policy t.
Proof. unfold status. by destruct (get_state t id). Qed.

Lemma mark_choice_policy t id origin now : policy (mark_choice t id origin now).2 = policy t.
Proof. unfold mark_choice, mark_selected. by case_match; case_match; simplify_eq. Qed.

Lemma select_loop_policy auth aff now cands : forall best t,
  policy (select_loop auth aff now cands best t).2 = policy t.
Proof.
  induction cands as [|c cands IH]; intros best t; cbn [select_loop].
  { destruct best as [[c st]|]; [apply mark_choice_policy|done]. }
  destruct (negb _); [by apply IH|].
  pose proof (status_policy t (cand_account_id c) now) as Hp'.
  destruct (status t (cand_account_id c) now) as [[st|e] t']; cbn [snd] in *; [|done].
  destruct (negb _); [by rewrite IH|].
  destruct (bool_decide _); [by rewrite mark_choice_policy|by rewrite IH].
Qed.

(** A refused selection changes no state that can be seen. *)
Lemma select_loop_refused auth aff now cands : forall best t e t',
  table_wf t -> (forall c st, best = Some (c, st) -> is_Some (view now t (cand_account_id c))) ->
  select_loop auth aff now cands best t = (Err e, t') -> table_wf t' /\ same_view now t' t.
Proof.
  induction cands as [|c cands IH]; intros best t e t' Hwf Hbest; cbn [select_loop].
  { destruct best as [[c st]|]; [|by intros [= _ <-]]. intros Hmk.
    pose proof (mark_choice_result now t (cand_account_id c) WeightedLeastRecentlyUsed (Hbest c st eq_refl)) as Hr. by rewrite Hmk in Hr. }
  destruct (negb _); [by apply IH|].
  pose proof (status_same_view now t (cand_account_id c) Hwf) as Hv. pose proof (status_wf now t (cand_account_id c) Hwf) as Hwf'.
  pose proof (status_result now t (cand_account_id c)) as Hr.
  destruct (status t (cand_account_id c) now) as [[st|e'] t1]; cbn [fst snd] in *; [|by intros [= _ <-]].
  assert (is_Some (view now t (cand_account_id c))) as Hc by (destruct (view now t (cand_account_id c)); [eauto|done]).
  assert (forall id, view now t1 id = view now t id) as Hv1 by apply Hv.
  assert (forall best', (forall c st, best' = Some (c, st) -> is_Some (view now t (cand_account_id c))) ->
    select_loop auth aff now cands best' t1 = (Err e, t') -> table_wf t' /\ same_view now t' t) as Hgo.
  { intros best' Hb' Hl. destruct (IH best' t1 e t' Hwf') as [? Hs]; [intros; rewrite Hv1; eauto|done|]. split; [done|]. by rewrite Hs. }
  destruct (negb _); [by apply Hgo|]. destruct (bool_decide _).
  - intros Hmk. pose proof (mark_choice_result now t1 (cand_account_id c) Affinity ltac:(by rewrite Hv1)) as Hr'. by rewrite Hmk in Hr'.
  - apply Hgo. intros d sd. destruct (is_none_or _ _); intros Hd; [by simplify_eq|eauto].
Qed.

(** A candidate as its constructor builds it: the weight is a byte. *)
Definition built_candidate (c : AccountCandidate) : Prop :=
  in_u8 (cand_weight c) /\
  AccountCandidate_new (cand_account_id c) (cand_authentication c) (cand_weight c) = Ok c.

Lemma built_weight c : built_candidate c -> 0 < cand_weight c.
Proof.
  intros [[H _] Hnew]. unfold AccountCandidate_new in Hnew. destruct (Z.eqb_spec (cand_weight c) 0); [done|lia].
Qed.

(** C1: Selection does exactly what its contract says, judged on the states as
    they stand at [now].  The candidates of the requested authentication are
    walked in order: one the table does not know ends the walk with an error, the
    healthy account of the affinity is taken at once; otherwise the first of the
    healthy candidates with the least use relative to its weight is taken, the
    older last selection breaking ties, and [NoEligibleAccount] is the answer
    exactly if none is healthy.  Exactly the account that is taken is marked with
    the next number of the sequence; every other account, and after an error every
    account, is as it was. *)
Theorem select_from_correct auth aff now cands t :
  table_wf t -> (forall c, c ∈ cands -> built_candidate c) ->
  let '(r, t') := select_from auth aff now cands t in
  select_spec (view now t) auth aff cands r /\ table_wf t' /\ policy t' = policy t /\
  match r with
  | Ok choice => selected (view now t) now (selection_sequence t) (choice_account_id choice) t'
  | Err _ => same_view now t' t
  end.
Proof.
  intros Hwf Hb. pose proof (select_loop_spec auth aff now (view now t) [] cands None t) as Hspec.
  pose proof (select_loop_policy auth aff now cands None t) as Hpol.
  pose proof (select_loop_effect auth aff now (view now t) cands None t) as Heff.
  pose proof (select_loop_refused auth aff now cands None t) as Href.
  unfold select_from. destruct (select_loop _ _ _ _ _ _) as [r t']. cbn in *.
  split; [apply Hspec; try done|].
  - intros c Hc. by apply built_weight, Hb.
  - intros d Hd. by apply elem_of_nil in Hd.
  - intros d Hd. by apply elem_of_nil in Hd.
  - destruct r as [ch|e]; [|destruct (Href e t' Hwf ltac:(intros ? ?; done) eq_refl); by split_and!].
    specialize (Heff ch t' Hwf ltac:(done) eq_refl). split_and!; [apply Heff|done|done].
Qed.

Lemma demo_built c : c ∈ demo_cands -> built_candidate c.
Proof. unfold demo_cands. set_unfold. by intros [->|[->|[]]]; vm_compute. Qed.

Lemma select_from_correct_witness :
  select_spec (view 9 demo_table) ApiKey (Some "heavy") demo_cands (Ok (mkChoice "heavy" Affinity)) /\
  selected (view 9 demo_table) 9 0 "heavy" (select_from ApiKey (Some "heavy") 9 demo_cands demo_table).2.
Proof.
  pose proof (select_from_correct ApiKey (Some "heavy") 9 demo_cands demo_table demo_table_wf demo_built) as H.
  assert ((select_from ApiKey (Some "heavy") 9 demo_cands demo_table).1 = Ok (mkChoice "heavy" Affinity)) as E by (vm_compute; reflexivity).
  destruct (select_from ApiKey (Some "heavy") 9 demo_cands demo_table) as [r t']. cbn [fst] in E. rewrite E in H.
  destruct H as (Hspec & _ & _ & Hsel). split; [exact Hspec|exact Hsel].
Defined.

(** *** Weighted fairness *)
Definition uses (t : AccountHealthTable) (c : AccountCandidate) : Z :=
  match get_state t (cand_account_id c) with Some s => selection_count s | None => 0 end.

(** A run of selections without affinity, with the accounts it picked.  Between
    them any account may be observed or looked at, and may cool down, as long as
    all candidates are eligible again at the next selection. *)
Inductive select_run auth (cands : list AccountCandidate)
  : AccountHealthTable -> list string -> AccountHealthTable -> Prop :=
| run_nil t : select_run auth cands t [] t
| run_cons t now ch t' chosen t'' :
    (forall c, c ∈ cands -> eligible (view now t) auth c) ->
    select_from auth None now cands t = (Ok ch, t') ->
    select_run auth cands t' chosen t'' ->
    select_run auth cands t (choice_account_id ch :: chosen) t''
| run_observe t id o now chosen t' :
    select_run auth cands (observe t id o now).2 chosen t' -> select_run auth cands t chosen t'
| run_status t id now chosen t' :
    select_run auth cands (status t id now).2 chosen t' -> select_run auth cands t chosen t'.

Definition occurrences (id : string) (chosen : list string) : Z :=
  zlen (filter (fun x => x = id) chosen).

Definition fair (n : AccountCandidate -> Z) (cands : list AccountCandidate) : Prop :=
  forall c d, c ∈ cands -> d ∈ cands ->
  n c * cand_weight d <= n d * cand_weight c + cand_weight d.

Lemma view_uses now t c s : view now t (cand_account_id c) = Some s -> uses t c = selection_count s.
Proof. unfold view, uses. destruct (get_state t _); cbn; intros; by simplify_eq. Qed.

Lemma selected_uses now t t' id c :
  selected (view now t) now (selection_sequence t) id t' ->
  is_Some (view now t (cand_account_id c)) -> 0 <= uses t c < u64_max ->
  uses t' c = uses t c + (if decide (cand_account_id c = id) then 1 else 0).
Proof.
  intros (_ & _ & s & Hs & Hs' & Hother) [sc Hsc] Hu.
  pose proof (view_uses _ _ _ _ Hsc) as Huse. case_decide as Hid.
  - rewrite <- Hid in *. simplify_eq. rewrite (view_uses now t' c _ Hs'), Huse. cbn. ulia.
  - specialize (Hother _ Hid). rewrite Hsc in Hother.
    rewrite (view_uses now t' c _ Hother), Huse. lia.
Qed.

Definition ids_unique (cands : list AccountCandidate) : Prop :=
  forall c d, c ∈ cands -> d ∈ cands -> cand_account_id c = cand_account_id d -> c = d.

Lemma not_less_used now t c d sc sd :
  view now t (cand_account_id c) = Some sc -> view now t (cand_account_id d) = Some sd ->
  ~ less_used (view now t) d c -> uses t c * cand_weight d <= uses t d * cand_weight c.
Proof.
  intros Hc Hd Hn. rewrite (view_uses _ _ _ _ Hc), (view_uses _ _ _ _ Hd).
  destruct (Z.le_gt_cases (selection_count sc * cand_weight d) (selection_count sd * cand_weight c));
    [done|].
  exfalso. apply Hn. exists sd, sc. split_and!; [done..|left; lia].
Qed.

(** The candidate a step picks is one of least relative use. *)
Lemma select_min auth now cands t ch t' :
  table_wf t -> (forall c, c ∈ cands -> 0 < cand_weight c) ->
  (forall c, c ∈ cands -> eligible (view now t) auth c) ->
  select_from auth None now cands t = (Ok ch, t') ->
  exists c, c ∈ cands /\ choice_account_id ch = cand_account_id c /\
  forall d, d ∈ cands -> uses t c * cand_weight d <= uses t d * cand_weight c.
Proof.
  intros Hwf Hw Hel Hsel.
  assert (select_spec (view now t) auth None cands (Ok ch)) as Hspec.
  { replace (Ok ch) with (select_from auth None now cands t).1 by by rewrite Hsel.
    apply (select_loop_spec auth None now (view now t) [] cands); try done.
    all: intros d Hd; by apply elem_of_nil in Hd. }
  inversion Hspec as [|pre c post|pre c post Hc _ Hce Hpre Hpost|]; subst; [done|].
  exists c. split_and!; [set_solver|done|]. intros d Hd.
  destruct Hce as (_ & sc & Hsc & _), (Hel d Hd) as (Ha & sd & Hsd & Hk).
  eapply not_less_used; [done..|]. assert (eligible (view now t) auth d) as Hed by (split; eauto).
  assert (d ∈ pre \/ d = c \/ d ∈ post) as [Hin|[->|Hin]] by set_solver; [| |by apply Hpost].
  - intros Hdc. destruct (Hpre d Hin Hed) as (? & ? & ? & ? & ?), Hdc as (? & ? & ? & ? & ?). simplify_eq. lia.
  - intros (? & ? & ? & ? & ?). simplify_eq. lia.
Qed.

Lemma fair_step (n n' : AccountCandidate -> Z) cands c :
  ids_unique cands -> c ∈ cands -> fair n cands ->
  (forall d, d ∈ cands -> 0 < cand_weight d) ->
  (forall d, d ∈ cands -> n c * cand_weight d <= n d * cand_weight c) ->
  (forall d, d ∈ cands ->
     n' d = n d + (if decide (cand_account_id d = cand_account_id c) then 1 else 0)) ->
  fair n' cands.
Proof.
  intros Huniq Hc Hfair Hw Hmin Hn d e Hd He. rewrite !Hn by done.
  specialize (Hfair d e Hd He). pose proof (Hw d Hd). pose proof (Hw e He).
  destruct (decide (cand_account_id d = cand_account_id c)) as [Heq|].
  - apply Huniq in Heq as ->; [|done..]. specialize (Hmin e He). case_decide; lia.
  - case_decide; nia.
Qed.

(** Observations do not count as uses. *)
Lemma set_state_uses t id s s' c :
  table_wf t -> get_state t id = Some s -> selection_count s' = selection_count s -> uses (set_state t id s') c = uses t c.
Proof.
  intros Hwf Hs Hc. unfold uses. destruct (decide (id = cand_account_id c)) as [->|Hne].
  - by rewrite get_set_eq, Hs.
  - by rewrite get_set_ne.
Qed.

Lemma observe_uses t id o now : table_wf t -> table_wf (observe t id o now).2 /\ forall c, uses (observe t id o now).2 c = uses t c.
Proof.
  intros Hwf. unfold observe. destruct (get_state t id) as [s|] eqn:Hs; [|done]. cbn. split; [by apply set_state_wf|].
  intros c. eapply set_state_uses; [done..|]. unfold observe_state. by destruct o.
Qed.

Lemma status_uses t id now : table_wf t -> table_wf (status t id now).2 /\ forall c, uses (status t id now).2 c = uses t c.
Proof.
  intros Hwf. unfold status. destruct (get_state t id) as [s|] eqn:Hs; [|done]. cbn. split; [by apply set_state_wf|].
  intros c. by eapply set_state_uses.
Qed.

Lemma fair_ext n n' cands : (forall c, n c = n' c) -> fair n cands -> fair n' cands.
Proof. intros Hn Hf c d Hc Hd. rewrite <- !Hn. by apply Hf. Qed.

(** A step that uses no account keeps what the rest of a run shows. *)
Lemma uses_unchanged t t1 cands chosen t' :
  table_wf t1 -> (forall c, uses t1 c = uses t c) ->
  (table_wf t1 -> (forall c, c ∈ cands -> 0 < cand_weight c) -> ids_unique cands ->
   (forall c, c ∈ cands -> 0 <= uses t1 c /\ uses t1 c + zlen chosen < u64_max) -> fair (uses t1) cands ->
   fair (uses t') cands /\ forall c, c ∈ cands -> uses t' c = uses t1 c + occurrences (cand_account_id c) chosen) ->
  (forall c, c ∈ cands -> 0 < cand_weight c) -> ids_unique cands ->
  (forall c, c ∈ cands -> 0 <= uses t c /\ uses t c + zlen chosen < u64_max) -> fair (uses t) cands ->
  fair (uses t') cands /\ forall c, c ∈ cands -> uses t' c = uses t c + occurrences (cand_account_id c) chosen.
Proof.
  intros Hwf Hsame IH Hw Huniq Hb Hfair. destruct IH as [Hf Hocc]; [done..| | |].
  - intros c Hc. rewrite Hsame. by apply Hb.
  - by apply (fair_ext (uses t)).
  - split; [done|]. intros c Hc. by rewrite Hocc, Hsame.
Qed.

Lemma select_run_fair auth cands t chosen t' :
  select_run auth cands t chosen t' ->
  table_wf t -> (forall c, c ∈ cands -> 0 < cand_weight c) -> ids_unique cands ->
  (forall c, c ∈ cands -> 0 <= uses t c /\ uses t c + zlen chosen < u64_max) ->
  fair (uses t) cands ->
  fair (uses t') cands /\
  forall c, c ∈ cands -> uses t' c = uses t c + occurrences (cand_account_id c) chosen.
Proof.
  induction 1 as [t|t now ch t1 chosen t' Hel Hsel Hrun IH|t id o now chosen t' Hrun IH|t id now chosen t' Hrun IH];
    intros Hwf Hw Huniq Hb Hfair.
  { split; [done|]. intros c _. change (occurrences _ []) with 0. lia. }
  2:{ apply (uses_unchanged _ (observe t id o now).2); [by apply observe_uses|by apply observe_uses|done..]. }
  2:{ apply (uses_unchanged _ (status t id now).2); [by apply status_uses|by apply status_uses|done..]. }
  destruct (select_min auth now cands t ch t1 Hwf Hw Hel Hsel) as (c & Hc & Hid & Hmin).
  apply (select_loop_effect auth None now (view now t)) in Hsel as Heff; [|done..].
  assert (forall d, d ∈ cands -> uses t1 d =
    uses t d + (if decide (cand_account_id d = cand_account_id c) then 1 else 0)) as Hstep.
  { intros d Hd. rewrite <- Hid. eapply selected_uses; [done| |].
    - destruct (Hel d Hd) as (_ & s & Hs & _). eauto.
    - specialize (Hb d Hd). rewrite zlen_cons in Hb. pose proof (zlen_nonneg chosen). lia. }
  destruct IH as [Hf Hocc]; [apply Heff|done|done| |by eapply fair_step|].
  { intros d Hd. specialize (Hb d Hd). rewrite zlen_cons in Hb. rewrite Hstep by done.
    case_decide; lia. }
  split; [done|]. intros d Hd. rewrite Hocc, Hstep, Hid by done. unfold occurrences.
  rewrite filter_cons. repeat case_decide; try congruence; rewrite ?zlen_cons; lia.
Qed.

(** C2: Weighted fairness.  Take a table in which the uses of the candidates
    are in proportion to their weights up to one use, as in a new one, where no
    account has been used.  After every run of selections without affinity, with
    any observations in between, at which all candidates are eligible, this is
    still so: [n_c / w_c <= n_d / w_d + 1 / w_c] for all candidates; and the uses
    have grown by exactly the number of times each account was chosen. *)
Theorem select_weighted_fairness auth cands t0 chosen t :
  table_wf t0 -> (forall c, c ∈ cands -> built_candidate c) -> ids_unique cands ->
  fair (uses t0) cands ->
  (forall c, c ∈ cands -> 0 <= uses t0 c /\ uses t0 c + zlen chosen < u64_max) ->
  select_run auth cands t0 chosen t ->
  fair (uses t) cands /\
  forall c, c ∈ cands -> uses t c = uses t0 c + occurrences (cand_account_id c) chosen.
Proof.
  intros Hwf Hb Huniq Hfair Hmax Hrun. apply (select_run_fair auth cands t0 chosen t); try done.
  intros c Hc. by apply built_weight, Hb.
Qed.

(** A new table is fair. *)
Lemma new_fair p accounts cands t :
  AccountHealthTable_new p accounts = Ok t -> (forall c, c ∈ cands -> built_candidate c) ->
  (forall c, uses t c = 0) /\ fair (uses t) cands.
Proof.
  intros Hnew Hb. destruct (new_get_state _ _ _ Hnew) as (_ & _ & _ & Hget).
  assert (forall c, uses t c = 0) as H0 by (intros e; unfold uses; rewrite Hget; by case_decide).
  split; [done|]. intros c d _ Hd. rewrite !H0. pose proof (built_weight d (Hb d Hd)). lia.
Qed.

Lemma demo_cands_unique : ids_unique demo_cands.
Proof.
  unfold ids_unique, demo_cands. intros c d. set_unfold.
  intros [->|[->|[]]] [->|[->|[]]]; cbn; congruence.
Qed.

Lemma demo_eligible now t c :
  from_option AccountState_kind Quarantined (view now t "light") = Healthy ->
  from_option AccountState_kind Quarantined (view now t "heavy") = Healthy ->
  c ∈ demo_cands -> eligible (view now t) ApiKey c.
Proof.
  unfold demo_cands. set_unfold. intros Hl Hh [->|[->|[]]]; split; try done; cbn [cand_account_id].
  - destruct (view now t "light"); [eauto|done].
  - destruct (view now t "heavy"); [eauto|done].
Qed.

Lemma select_weighted_fairness_witness :
  occurrences "heavy" ["light"; "heavy"; "heavy"; "heavy"] * 1 <=
  occurrences "light" ["light"; "heavy"; "heavy"; "heavy"] * 3 + 1.
Proof.
  destruct (new_fair _ _ demo_cands _ demo_table_new demo_built) as [H0 Hfair].
  destruct (select_weighted_fairness ApiKey demo_cands demo_table
    ["light"; "heavy"; "heavy"; "heavy"]
    (select_from ApiKey None 4 demo_cands (select_from ApiKey None 3 demo_cands
      (select_from ApiKey None 2 demo_cands (select_from ApiKey None 1 demo_cands demo_table).2).2).2).2)
    as [Hf Hu].
  - exact demo_table_wf.
  - exact demo_built.
  - exact demo_cands_unique.
  - exact Hfair.
  - intros c _. rewrite H0. vm_compute. split; [discriminate|reflexivity].
  - apply (run_cons _ _ _ 1 (mkChoice "light" WeightedLeastRecentlyUsed)
      (select_from ApiKey None 1 demo_cands demo_table).2);
      [intros; apply demo_eligible; done|vm_compute; reflexivity|].
    apply (run_cons _ _ _ 2 (mkChoice "heavy" WeightedLeastRecentlyUsed)
      (select_from ApiKey None 2 demo_cands (select_from ApiKey None 1 demo_cands demo_table).2).2);
      [intros; apply demo_eligible; done|vm_compute; reflexivity|].
    eapply (run_cons _ _ _ 3 (mkChoice "heavy" WeightedLeastRecentlyUsed));
      [intros; apply demo_eligible; done|vm_compute; reflexivity|].
    eapply (run_cons _ _ _ 4 (mkChoice "heavy" WeightedLeastRecentlyUsed));
      [intros; apply demo_eligible; done|vm_compute; reflexivity|].
    match goal with |- select_run _ _ ?t _ ?t' => replace t' with t by (vm_compute; reflexivity) end.
    constructor.
  - pose proof (Hf (mkCandidate "heavy" ApiKey 3) (mkCandidate "light" ApiKey 1)) as Hc.
    assert (mkCandidate "heavy" ApiKey 3 ∈ demo_cands) as Hheavy by (right; left).
    assert (mkCandidate "light" ApiKey 1 ∈ demo_cands) as Hlight by left.
    rewrite (Hu _ Hheavy), (Hu _ Hlight), !H0 in Hc. exact (Hc Hheavy Hlight).
Defined.
