(* ===== verification/AccountsRestore.v ===== *)
(** * Account health table: snapshots, restore and reconfiguration

    [snapshots] reports every account once, in identifier order;
    [reconfigured] carries the retained accounts over to a new table, and
    fails exactly when one of them is in a state [restore] refuses. *)

From S2P Require Import Prelude Accounts AccountsSpec.

Lemma state_of_snapshot_of id s : state_of_snapshot (snapshot_of id s) = s.
Proof. by destruct s. Qed.

(** The states [restore] accepts back. *)
Definition persistable (s : AccountState) : Prop :=
  consecutive_failures s <= 64 /\ (quarantined s = true -> cooldown_until_ms s = None) /\
  selection_count s <= last_selected_sequence s.

Lemma snapshot_invalid_persistable id s : state_wf s ->
  snapshot_invalid (snapshot_of id s) = false <-> persistable s.
Proof.
  intros []. unfold snapshot_invalid, persistable; cbn.
  rewrite !orb_false_iff, !andb_false_iff, !negb_false_iff, !Z.ltb_ge, Z.eqb_neq, Z.eqb_eq.
  rewrite eqb_true_iff, is_someb_false.
  assert (is_someb (quota_remaining s) = is_someb (quota_resets_at_ms s)) as Hq.
  { destruct (quota_remaining s), (quota_resets_at_ms s); cbn; try done;
      [destruct (proj1 sw_quota)|destruct (proj2 sw_quota)]; by eauto. }
  destruct (quarantined s); naive_solver lia.
Qed.

(** ** What [snapshots] lists *)
Definition pushed (t : AccountHealthTable) : list AccountHealthSnapshot :=
  flat_map (fun shard => (fun e => snapshot_of e.1 e.2) <$> btree_iter shard) (shards t).

Lemma elem_of_pushed t snap : table_wf t ->
  snap ∈ pushed t <-> exists id s, get_state t id = Some s /\ snap = snapshot_of id s.
Proof.
  intros Hwf. unfold pushed. rewrite list_elem_of_In, in_flat_map. split.
  - intros (shard & Hin & Hsnap). apply list_elem_of_In, list_elem_of_lookup in Hin as [i Hi].
    apply list_elem_of_In, list_elem_of_fmap in Hsnap as ([id s] & -> & He).
    apply elem_of_btree_iter in He. exists id, s. split; [|done].
    assert (i = account_shard id) as -> by (eapply wf_home; eauto).
    unfold get_state. rewrite shard_lookup in Hi by done. by simplify_eq.
  - intros (id & s & Hg & ->). exists (lock_shard t id). split.
    + apply list_elem_of_In, list_elem_of_lookup. exists (account_shard id). by apply shard_lookup.
    + apply list_elem_of_In, list_elem_of_fmap. exists (id, s). split; [done|].
      by apply elem_of_btree_iter.
Qed.

Lemma NoDup_flat_map_ids (l : list (gmap string AccountState)) :
  (forall i j sh sh' id, l !! i = Some sh -> l !! j = Some sh' ->
     is_Some (sh !! id) -> is_Some (sh' !! id) -> i = j) ->
  NoDup (snap_account_id <$>
    flat_map (fun shard => (fun e => snapshot_of e.1 e.2) <$> btree_iter shard) l).
Proof.
  induction l as [|sh l IH]; intros Hdis; cbn; [constructor|].
  rewrite fmap_app. apply list.NoDup_app. split_and!.
  - rewrite <- list_fmap_compose. apply NoDup_fst_btree_iter.
  - intros id Hid Hid'. rewrite <- list_fmap_compose in Hid.
    apply list_elem_of_fmap in Hid as ([k s] & -> & Hk). apply elem_of_btree_iter in Hk.
    apply list_elem_of_fmap in Hid' as (snap & Hsnap & Hin).
    apply list_elem_of_In, in_flat_map in Hin as (sh' & Hsh' & Hin).
    apply list_elem_of_In, list_elem_of_lookup in Hsh' as [j Hj].
    apply list_elem_of_In, list_elem_of_fmap in Hin as ([k' s'] & -> & Hk').
    apply elem_of_btree_iter in Hk'. cbn in Hsnap. subst k'.
    by specialize (Hdis 0%nat (S j) sh sh' k eq_refl Hj (mk_is_Some _ _ Hk) (mk_is_Some _ _ Hk')).
  - apply IH. intros i j sh1 sh2 id H1 H2 H3 H4.
    by specialize (Hdis (S i) (S j) sh1 sh2 id H1 H2 H3 H4) as [= ->].
Qed.

Lemma NoDup_pushed t : table_wf t -> NoDup (snap_account_id <$> pushed t).
Proof.
  intros Hwf. apply NoDup_flat_map_ids. intros i j sh sh' id Hi Hj Hs Hs'.
  trans (account_shard id); [|symmetry]; by eapply wf_home.
Qed.

Lemma snapshots_perm t now : (snapshots t now).1 ≡ₚ pushed (normalize_all t now).
Proof. apply merge_sort_Permutation. Qed.

#[global] Instance snapshot_le_total : Total snapshot_le.
Proof. intros x y. apply String.le_total. Qed.
#[global] Instance snapshot_le_trans : Transitive snapshot_le.
Proof. intros x y z. unfold snapshot_le. apply String.le_po. Qed.

(** A snapshot lists every registered account exactly once, with its
    state as it stands at that time, sorted by account identifier. *)
Theorem snapshots_complete t now : table_wf t ->
  let l := (snapshots t now).1 in
  (forall snap, snap ∈ l <->
     exists id s, get_state t id = Some s /\ snap = snapshot_of id (normalize s now)) /\
  NoDup (snap_account_id <$> l) /\ StronglySorted snapshot_le l.
Proof.
  intros Hwf l. assert (table_wf (normalize_all t now)) as Hwf' by auto with wok.
  split_and!.
  - intros snap. unfold l. rewrite snapshots_perm, elem_of_pushed by done.
    setoid_rewrite get_state_normalize_all. split.
    + intros (id & s & (s0 & Hg & ->)%fmap_Some & ->). eauto.
    + intros (id & s & Hg & ->). exists id, (normalize s now). by rewrite Hg.
  - unfold l. rewrite snapshots_perm. by apply NoDup_pushed.
  - apply (StronglySorted_merge_sort _).
Qed.

Lemma snapshots_complete_witness :
  (forall snap, snap ∈ (snapshots demo_table 8).1 <->
     exists id s, get_state demo_table id = Some s /\ snap = snapshot_of id (normalize s 8)) /\
  NoDup (snap_account_id <$> (snapshots demo_table 8).1) /\
  StronglySorted snapshot_le (snapshots demo_table 8).1.
Proof. apply (snapshots_complete demo_table 8), demo_table_wf. Defined.

(** ** The loop of [restore] *)
Section restore_loop.
Context (now : Z).

(** The snapshots still to restore fit the table. *)
Record loop_ready (t : AccountHealthTable) (restored : gset string)
    (snaps : list AccountHealthSnapshot) : Prop := {
  lr_wf : table_wf t;
  lr_nodup : NoDup (snap_account_id <$> snaps);
  lr_fresh : forall s, s ∈ snaps -> snap_account_id s ∉ restored;
  lr_known : forall s, s ∈ snaps -> is_Some (get_state t (snap_account_id s))
}.

Lemma loop_ready_step t restored snap snaps st :
  loop_ready t restored (snap :: snaps) ->
  loop_ready (set_state t (snap_account_id snap) st) ({[snap_account_id snap]} ∪ restored) snaps.
Proof.
  intros [Hwf Hnd Hfresh Hknown]. cbn in Hnd. apply list.NoDup_cons in Hnd as [Hni Hnd].
  split; [by auto with wok|done| |].
  - intros s Hs. assert (snap_account_id s <> snap_account_id snap).
    { intros Heq. apply Hni. rewrite <- Heq. by apply list_elem_of_fmap_2. }
    specialize (Hfresh s ltac:(set_solver)). set_solver.
  - intros s Hs. destruct (decide (snap_account_id snap = snap_account_id s)) as [->|Hne].
    + rewrite get_set_eq by done. eauto.
    + rewrite get_set_ne by done. apply Hknown. set_solver.
Qed.

Lemma restore_step_eval t restored mx snap snaps :
  loop_ready t restored (snap :: snaps) ->
  restore_step now (t, restored, mx) snap =
  if snapshot_invalid snap then Err InvalidSnapshot
  else Ok (set_state t (snap_account_id snap) (normalize (state_of_snapshot snap) now),
           {[snap_account_id snap]} ∪ restored,
           Z.max mx (snap_last_selected_sequence snap)).
Proof.
  intros [Hwf _ Hfresh Hknown]. unfold restore_step.
  rewrite bool_decide_eq_false_2 by (apply Hfresh; set_solver).
  destruct (snapshot_invalid snap); [done|].
  by destruct (Hknown snap ltac:(set_solver)) as [s ->].
Qed.

Lemma restore_loop_err snaps t restored mx :
  loop_ready t restored snaps ->
  (exists s, s ∈ snaps /\ snapshot_invalid s = true) ->
  try_fold (restore_step now) (t, restored, mx) snaps = Err InvalidSnapshot.
Proof.
  revert t restored mx. induction snaps as [|snap snaps IH]; intros t restored mx Hr (s & Hs & Hi).
  { by apply elem_of_nil in Hs. }
  cbn [try_fold]. rewrite (restore_step_eval _ _ _ _ _ Hr). destruct (snapshot_invalid snap) eqn:E; cbn; [done|].
  apply IH; [by apply loop_ready_step|]. exists s. split; [|done].
  apply elem_of_cons in Hs as [->|]; congruence.
Qed.

(** What a finished loop has done to the table it started from. *)
Definition restored_from (t t' : AccountHealthTable) (snaps : list AccountHealthSnapshot) : Prop :=
  table_wf t' /\ policy t' = policy t /\
  (forall s, s ∈ snaps ->
     get_state t' (snap_account_id s) = Some (normalize (state_of_snapshot s) now)) /\
  (forall id, id ∉ (snap_account_id <$> snaps) -> get_state t' id = get_state t id).

Lemma restored_from_step t t' snap snaps :
  table_wf t -> NoDup (snap_account_id <$> snap :: snaps) ->
  restored_from (set_state t (snap_account_id snap) (normalize (state_of_snapshot snap) now)) t' snaps ->
  restored_from t t' (snap :: snaps).
Proof.
  intros Hwf Hnd (H1 & H2 & H3 & H4). cbn in Hnd. apply list.NoDup_cons in Hnd as [Hni Hnd].
  split_and!; [done|done| |].
  - intros s [->|Hs]%elem_of_cons; [|by auto]. rewrite H4 by done. by apply get_set_eq.
  - intros id Hid. rewrite H4, get_set_ne; set_solver.
Qed.

Lemma restore_loop_ok snaps t restored mx :
  loop_ready t restored snaps ->
  (forall s, s ∈ snaps -> snapshot_invalid s = false) ->
  exists t' restored' mx',
    try_fold (restore_step now) (t, restored, mx) snaps = Ok (t', restored', mx') /\
    restored_from t t' snaps /\ mx <= mx' /\
    (mx' = mx \/ exists s, s ∈ snaps /\ mx' = snap_last_selected_sequence s) /\
    forall s, s ∈ snaps -> snap_last_selected_sequence s <= mx'.
Proof.
  revert t restored mx. induction snaps as [|snap snaps IH]; intros t restored mx Hr Hv.
  { exists t, restored, mx. cbn. split; [done|]. split; [split_and!; [apply Hr|done|set_solver|done]|].
    split_and!; [done|by left|set_solver]. }
  cbn [try_fold]. rewrite (restore_step_eval _ _ _ _ _ Hr), Hv by set_solver. cbn [result_bind].
  destruct (IH _ _ (Z.max mx (snap_last_selected_sequence snap))
    (loop_ready_step _ _ _ _ (normalize (state_of_snapshot snap) now) Hr))
    as (t' & r' & mx' & -> & Hfrom & Hle & Hmx & Hall); [set_solver|].
  exists t', r', mx'. split_and!; [done| |lia| |].
  - apply restored_from_step; [apply Hr|apply Hr|done].
  - destruct Hmx as [->|(s & Hs & ->)]; [|right; exists s; set_solver].
    destruct (Z.max_spec mx (snap_last_selected_sequence snap)) as [[_ ->]|[_ ->]]; [|by left].
    right. exists snap. set_solver.
  - intros s [->|Hs]%elem_of_cons; [lia|by auto].
Qed.
End restore_loop.

(** ** Reconfiguration *)
Definition retained_snapshots (t : AccountHealthTable) (accounts : list string) (now : Z)
  : list AccountHealthSnapshot :=
  List.filter (fun s => bool_decide (snap_account_id s ∈ (list_to_set accounts : gset string)))
    (snapshots t now).1.

Lemma elem_of_retained t accounts now snap : table_wf t ->
  snap ∈ retained_snapshots t accounts now <->
  exists id s, id ∈ accounts /\ view now t id = Some s /\ snap = snapshot_of id s.
Proof.
  intros Hwf. unfold retained_snapshots.
  rewrite list_elem_of_In, filter_In, <- list_elem_of_In, bool_decide_eq_true.
  rewrite snapshots_perm, elem_of_pushed, elem_of_list_to_set by auto with wok.
  setoid_rewrite get_state_normalize_all. unfold view. split.
  - intros ((id & s & Hg & ->) & Hin). eauto.
  - intros (id & s & Hin & Hg & ->). eauto.
Qed.

Lemma NoDup_retained t accounts now : table_wf t ->
  NoDup (snap_account_id <$> retained_snapshots t accounts now).
Proof.
  intros Hwf. unfold retained_snapshots.
  assert (NoDup (snap_account_id <$> (snapshots t now).1)) as Hnd
    by (rewrite snapshots_perm; apply NoDup_pushed; auto with wok).
  revert Hnd. induction (snapshots t now).1 as [|s l IH]; cbn; [done|].
  intros [Hni Hnd]%list.NoDup_cons. destruct (bool_decide _); cbn; [|by auto].
  apply list.NoDup_cons. split; [|by auto]. intros Hin. apply Hni.
  apply list_elem_of_fmap in Hin as (x & -> & Hx). apply list_elem_of_fmap_2.
  apply list_elem_of_In, filter_In in Hx as [Hx _]. by apply list_elem_of_In.
Qed.

Lemma retained_ready t t0 accounts now :
  table_wf t -> AccountHealthTable_new (policy t) accounts = Ok t0 ->
  loop_ready t0 ∅ (retained_snapshots t accounts now).
Proof.
  intros Hwf Hnew. destruct (new_get_state _ _ _ Hnew) as (Hwf0 & _ & _ & Hget).
  split; [done|by apply NoDup_retained|set_solver|].
  intros snap (id & s & Hin & _ & ->)%elem_of_retained; [|done].
  cbn [snap_account_id snapshot_of].
  rewrite Hget, decide_True by done. eauto.
Qed.

Lemma reconfigured_unfold t accounts now t0 :
  AccountHealthTable_new (policy t) accounts = Ok t0 ->
  (reconfigured t accounts now).1 =
  let? acc := try_fold (restore_step now) (t0, ∅, 0) (retained_snapshots t accounts now) in
  Ok (mkTable (policy acc.1.1) (shards acc.1.1) acc.2).
Proof.
  intros Hnew. unfold reconfigured, restore. cbn [fst snapshots policy normalize_all].
  rewrite Hnew. cbn [result_bind].
  change (List.filter _ _) with (retained_snapshots t accounts now).
  by destruct (try_fold _ _ _) as [[[? ?] ?]|].
Qed.

Lemma new_exists p accounts : NoDup accounts -> zlen accounts <= MAX_ACCOUNTS ->
  exists t0, AccountHealthTable_new p accounts = Ok t0.
Proof. intros. eexists. by apply AccountHealthTable_new_Ok. Qed.

Lemma view_normalized now t id s : view now t id = Some s -> normalize s now = s.
Proof. intros (s0 & _ & ->)%fmap_Some. apply normalize_idem. Qed.

Lemma restored_states t t0 t' accounts now :
  table_wf t -> AccountHealthTable_new (policy t) accounts = Ok t0 ->
  restored_from now t0 t' (retained_snapshots t accounts now) ->
  forall id, get_state t' id =
    if decide (id ∈ accounts)
    then Some (default AccountState_default (view now t id)) else None.
Proof.
  intros Hwf Hnew (_ & _ & Hin & Hout) id.
  destruct (new_get_state _ _ _ Hnew) as (_ & _ & _ & Hget).
  destruct (decide (id ∈ accounts)) as [Ha|Ha].
  - destruct (view now t id) as [s|] eqn:Hv.
    + pose proof (Hin (snapshot_of id s)) as Hs. cbn [snap_account_id snapshot_of] in Hs.
      rewrite state_of_snapshot_of, (view_normalized _ _ _ _ Hv) in Hs.
      apply Hs, elem_of_retained; eauto.
    + rewrite Hout, Hget, decide_True; [done..|].
      intros (snap & -> & (? & ? & ? & ? & ->)%elem_of_retained)%list_elem_of_fmap; [|done].
      cbn [snap_account_id snapshot_of] in *. congruence.
  - rewrite Hout, Hget, decide_False; [done..|].
    intros (snap & -> & (? & ? & ? & ? & ->)%elem_of_retained)%list_elem_of_fmap; done.
Qed.

Lemma view_state_wf t now id s : table_inv t -> view now t id = Some s -> state_wf s.
Proof.
  intros Hi (s0 & Hg & ->)%fmap_Some. apply normalize_wf, (ti_state _ Hi _ _ Hg).
Qed.

(** Reconfiguring a table for a new account set carries every retained
    account over with its state at that time, starts new accounts fresh,
    drops the others and keeps the table's invariant, provided every retained
    state is one [restore] accepts. *)
Theorem reconfigured_preserves t accounts now :
  table_inv t -> NoDup accounts -> zlen accounts <= MAX_ACCOUNTS ->
  (forall id s, id ∈ accounts -> view now t id = Some s -> persistable s) ->
  exists t', (reconfigured t accounts now).1 = Ok t' /\ table_inv t' /\
  forall id, get_state t' id =
    if decide (id ∈ accounts)
    then Some (default AccountState_default (view now t id)) else None.
Proof.
  intros Hi Hnd Hlen Hp. pose proof (ti_wf _ Hi) as Hwf.
  destruct (new_exists (policy t) accounts Hnd Hlen) as [t0 Hnew].
  destruct (new_get_state _ _ _ Hnew) as (_ & Hpol & _ & _).
  destruct (restore_loop_ok now _ _ _ 0 (retained_ready t t0 accounts now Hwf Hnew))
    as (t' & r' & mx & Hfold & Hfrom & Hmx0 & Hmx & Hall).
  { intros snap (id & s & Hid & Hv & ->)%elem_of_retained; [|done].
    apply snapshot_invalid_persistable; eauto using view_state_wf. }
  pose proof (restored_states _ _ _ _ _ Hwf Hnew Hfrom) as Hfinal.
  destruct Hfrom as (Hwf' & Hpol' & _ & _).
  exists (mkTable (policy t') (shards t') mx). rewrite (reconfigured_unfold _ _ _ _ Hnew), Hfold.
  split; [done|]. split; [|exact Hfinal]. split; cbn [policy selection_sequence].
  - by apply seq_wf.
  - rewrite Hpol', Hpol. apply Hi.
  - destruct Hmx as [->|(snap & (id & s & _ & Hv & ->)%elem_of_retained & ->)]; [ulia| |done].
    exact (sw_last _ (view_state_wf _ _ _ _ Hi Hv)).
  - intros id s Hg. change (get_state (mkTable _ _ _) id) with (get_state t' id) in Hg.
    rewrite Hfinal in Hg. case_decide as Ha; [|done]. injection Hg as <-.
    destruct (view now t id) as [s|] eqn:Hv; cbn; [by eapply view_state_wf|auto with wok].
Qed.

Lemma retained_invalid t accounts now id s :
  table_inv t -> id ∈ accounts -> view now t id = Some s -> ~ persistable s ->
  exists snap, snap ∈ retained_snapshots t accounts now /\ snapshot_invalid snap = true.
Proof.
  intros Hi Hid Hv Hn. exists (snapshot_of id s). split.
  - apply elem_of_retained; [apply Hi|eauto].
  - apply not_false_is_true. intros Hf. apply Hn.
    eapply snapshot_invalid_persistable; [|done]. by eapply view_state_wf.
Qed.

(** Reconfiguration fails with [InvalidSnapshot] as soon as one retained
    account is both quarantined and cooling down, has more than 64 consecutive
    failures, or has been selected more often than its last sequence says,
    although the table itself reaches all three. *)
Theorem reconfigured_rejects t accounts now id s :
  table_inv t -> NoDup accounts -> zlen accounts <= MAX_ACCOUNTS ->
  id ∈ accounts -> view now t id = Some s ->
  64 < consecutive_failures s \/ (quarantined s = true /\ is_Some (cooldown_until_ms s)) \/
  last_selected_sequence s < selection_count s ->
  (reconfigured t accounts now).1 = Err InvalidSnapshot.
Proof.
  intros Hi Hnd Hlen Hid Hv Hbad.
  destruct (new_exists (policy t) accounts Hnd Hlen) as [t0 Hnew].
  rewrite (reconfigured_unfold _ _ _ _ Hnew), restore_loop_err; [done| |].
  - apply retained_ready; [apply Hi|done].
  - eapply retained_invalid; [done..|]. intros (Hf & Hq & Hn).
    destruct Hbad as [|[[Hqq [c Hc]]|]]; [lia| |lia]. rewrite Hq in Hc by done. done.
Qed.

(** A fresh table of one account that a 401 and then a 429 hit. *)
Definition raced_table : AccountHealthTable :=
  match AccountHealthTable_new (mkPolicy 1000 60000) ["work"] with
  | Ok t => (observe (observe t "work" InvalidCredentials 10).2 "work" (RateLimited None) 11).2
  | Err _ => mkTable (mkPolicy 1000 60000) [] 0
  end.

Lemma raced_table_inv : table_inv raced_table.
Proof.
  unfold raced_table. destruct (AccountHealthTable_new _ _) as [t|] eqn:E; [|by vm_compute in E].
  apply observe_inv; [|done|ulia]. apply observe_inv; [|done|ulia].
  eapply new_inv; [|done]. unfold policy_ok, MAX_COOLDOWN_MS. cbn. lia.
Qed.

Lemma reconfigured_rejects_witness :
  (reconfigured raced_table ["work"] 12).1 = Err InvalidSnapshot.
Proof.
  apply (reconfigured_rejects raced_table ["work"] 12 "work"
    (mkState 2 (Some 2011) true None None 0 0 11)).
  - exact raced_table_inv.
  - apply list.NoDup_singleton.
  - vm_compute. discriminate.
  - apply list_elem_of_here.
  - vm_compute. reflexivity.
  - right. left. split; [reflexivity|]. eexists. reflexivity.
Defined.

Lemma reconfigured_preserves_witness :
  exists t', (reconfigured (observe raced_table "work" Success 12).2 ["work"; "home"] 13).1 = Ok t' /\
  table_inv t' /\ forall id, get_state t' id =
    if decide (id ∈ ["work"; "home"])
    then Some (default AccountState_default
      (view 13 (observe raced_table "work" Success 12).2 id)) else None.
Proof.
  apply reconfigured_preserves.
  - apply observe_inv; [exact raced_table_inv|done|ulia].
  - apply (bool_decide_unpack _). vm_compute. exact I.
  - vm_compute. discriminate.
  - intros id s Hid Hv. apply elem_of_cons in Hid as [->|Hid].
    + vm_compute in Hv. injection Hv as <-. split_and!; cbn; [lia|done|lia].
    + apply list_elem_of_singleton in Hid as ->. vm_compute in Hv. discriminate.
Defined.

(** ** Tables the program can hold *)
(** The machine ranges of a snapshot's fields. *)
Record snapshot_typed (snap : AccountHealthSnapshot) : Prop := {
  st_failures : in_u8 (snap_consecutive_failures snap);
  st_cooldown : opt_u64 (snap_cooldown_until_ms snap);
  st_remaining : opt_u64 (snap_quota_remaining snap);
  st_resets : opt_u64 (snap_quota_resets_at_ms snap);
  st_count : in_u64 (snap_selection_count snap);
  st_last : in_u64 (snap_last_selected_sequence snap);
  st_updated : in_u64 (snap_updated_at_ms snap)
}.

Lemma valid_snapshot_wf snap : snapshot_typed snap -> snapshot_invalid snap = false -> state_wf (state_of_snapshot snap).
Proof.
  intros []. unfold snapshot_invalid.
  rewrite !orb_false_iff, !andb_false_iff, !negb_false_iff, !Z.ltb_ge, Z.eqb_neq, Z.eqb_eq, eqb_true_iff.
  intros ([[[_ _] Hz] _] & Hq). split; cbn; try done; [|naive_solver lia].
  destruct (snap_quota_remaining snap), (snap_quota_resets_at_ms snap); cbn in Hq; try done; split; eauto.
Qed.

Lemma restore_loop_inv now snaps t restored mx t' restored' mx' :
  Forall snapshot_typed snaps -> table_inv t -> in_u64 mx ->
  try_fold (restore_step now) (t, restored, mx) snaps = Ok (t', restored', mx') -> table_inv t' /\ in_u64 mx'.
Proof.
  intros Ht. revert t restored mx. induction Ht as [|snap snaps Hs Ht IH]; intros t restored mx Hi Hm; cbn [try_fold].
  { by intros [= <- <- <-]. }
  rewrite result_bind_Ok. intros ([[t1 r1] m1] & H1 & Hr). unfold restore_step in H1.
  case_bool_decide; [done|]. destruct (snapshot_invalid snap) eqn:E; [done|].
  apply result_bind_Ok in H1 as (s0 & _ & [= <- <- <-]). eapply IH; [| |exact Hr].
  - by apply set_state_inv, normalize_wf, valid_snapshot_wf.
  - destruct Hs. ulia.
Qed.

Lemma restore_inv p accounts snaps now t :
  policy_ok p -> Forall snapshot_typed snaps -> restore p accounts snaps now = Ok t -> table_inv t.
Proof.
  intros Hp Ht. unfold restore. rewrite result_bind_Ok. intros (t0 & Hnew & Hr).
  apply result_bind_Ok in Hr as ([[t1 r1] m1] & Hf & [= <-]).
  apply restore_loop_inv in Hf as [[] Hm]; [|done|by eapply new_inv|ulia].
  split; cbn; [by apply seq_wf|done|done|done].
Qed.

(** What [new], [restore] and the table's own operations lead to. *)
Inductive table_reached : AccountHealthTable -> Prop :=
| reached_new p accounts t : policy_ok p -> AccountHealthTable_new p accounts = Ok t -> table_reached t
| reached_restore p accounts snaps now t :
    policy_ok p -> Forall snapshot_typed snaps -> restore p accounts snaps now = Ok t -> table_reached t
| reached_step t t' : table_reached t -> table_step t t' -> table_reached t'.

Lemma table_reached_inv t : table_reached t -> table_inv t.
Proof. induction 1; eauto using new_inv, restore_inv, table_step_inv. Qed.

(** * Account health table: interleaved selections

    Runs of the two halves of [mark_selected], with the marks in flight. *)

(** The shared table together with the marks in flight. *)
Definition shared : Type := AccountHealthTable * list PendingMark.

Inductive mark_step : shared -> shared -> Prop :=
| step_fetch t pend id now :
    selection_sequence t < u64_max -> is_Some (get_state t id) ->
    mark_step (t, pend) ((mark_fetch t id now).2, (mark_fetch t id now).1 :: pend)
| step_apply t pend1 p pend2 :
    mark_step (t, pend1 ++ p :: pend2) ((mark_apply t p).2, pend1 ++ pend2).

(** ** What survives interleaving *)
Definition marks_of (id : string) (pend : list PendingMark) : Z :=
  zlen (filter (fun p => pm_account p = id) pend).

Record shared_inv (g : shared) : Prop := {
  si_wf : table_wf g.1;
  si_seq : in_u64 (selection_sequence g.1);
  si_pending : forall p, p ∈ g.2 -> 1 <= pm_sequence p <= selection_sequence g.1;
  si_state : forall id s, get_state g.1 id = Some s ->
    0 <= selection_count s /\
    selection_count s + marks_of id g.2 <= selection_sequence g.1 /\
    0 <= last_selected_sequence s <= selection_sequence g.1 /\
    (0 < selection_count s -> 0 < last_selected_sequence s)
}.

Lemma marks_of_nonneg id pend : 0 <= marks_of id pend.
Proof. apply zlen_nonneg. Qed.

Lemma marks_of_cons id p pend :
  marks_of id (p :: pend) = (if decide (pm_account p = id) then 1 else 0) + marks_of id pend.
Proof. unfold marks_of. rewrite filter_cons. case_decide; rewrite ?zlen_cons; lia. Qed.

Lemma marks_of_app id pend1 pend2 :
  marks_of id (pend1 ++ pend2) = marks_of id pend1 + marks_of id pend2.
Proof. unfold marks_of. by rewrite list.filter_app, zlen_app. Qed.

Lemma mark_fetch_inv t pend id now :
  shared_inv (t, pend) -> selection_sequence t < u64_max ->
  shared_inv ((mark_fetch t id now).2, (mark_fetch t id now).1 :: pend).
Proof.
  intros [Hwf Hseq Hpend Hst] Hlt. cbn in *.
  split; cbn; rewrite ?(wrap64_small (_ + 1)), ?(sat_add64_exact (selection_sequence t)) by ulia.
  - by apply seq_wf.
  - ulia.
  - intros p [->|Hp]%elem_of_cons; cbn; [ulia|]. specialize (Hpend p Hp). lia.
  - intros id' s Hg. destruct (Hst id' s Hg) as (H1 & H2 & H3 & H4).
    rewrite marks_of_cons. cbn. pose proof (marks_of_nonneg id' pend).
    split_and!; try lia; case_decide; lia.
Qed.

Lemma mark_apply_inv t pend1 p pend2 :
  shared_inv (t, pend1 ++ p :: pend2) -> shared_inv ((mark_apply t p).2, pend1 ++ pend2).
Proof.
  intros [Hwf Hseq Hpend Hst]. cbn in *. unfold mark_apply.
  assert (1 <= pm_sequence p <= selection_sequence t) as Hp by (apply Hpend; set_solver).
  assert (forall q, q ∈ pend1 ++ pend2 -> 1 <= pm_sequence q <= selection_sequence t) as Hpend'
    by (intros q Hq; apply Hpend; set_solver).
  assert (forall id, marks_of id (pend1 ++ p :: pend2) =
    (if decide (pm_account p = id) then 1 else 0) + marks_of id (pend1 ++ pend2)) as Hm
    by (intros id; rewrite !marks_of_app, marks_of_cons; lia).
  destruct (get_state t (pm_account p)) as [s|] eqn:E; cbn.
  - split; cbn; [by auto with wok|done|done|]. intros id s' Hg.
    destruct (decide (pm_account p = id)) as [<-|Hne].
    + rewrite get_set_eq in Hg by done. injection Hg as <-. cbn.
      destruct (Hst _ _ E) as (H1 & H2 & H3 & H4). rewrite Hm, decide_True in H2 by done.
      pose proof (marks_of_nonneg (pm_account p) (pend1 ++ pend2)). split_and!; ulia.
    + rewrite get_set_ne in Hg by done. specialize (Hst _ _ Hg).
      rewrite Hm, decide_False in Hst by done. by rewrite Z.add_0_l in Hst.
  - split; cbn; [done..|]. intros id s' Hg. specialize (Hst _ _ Hg).
    rewrite Hm in Hst. case_decide; [congruence|]. by rewrite Z.add_0_l in Hst.
Qed.

(** However the two halves of concurrent selection marks interleave,
    starting from a fresh table, no account is credited with more selections
    than the table has handed out (marks in flight included), and its last
    sequence is one the table has handed out. *)
Theorem interleaved_marks_sound p accounts t0 t pend :
  AccountHealthTable_new p accounts = Ok t0 ->
  rtc mark_step (t0, []) (t, pend) -> shared_inv (t, pend).
Proof.
  intros Hnew Hrtc. destruct (new_get_state _ _ _ Hnew) as (Hwf & _ & Hseq & Hget).
  assert (shared_inv (t0, [])) as Hi.
  { split; cbn; [done|rewrite Hseq; ulia|set_solver|]. intros id s Hg. rewrite Hget in Hg.
    case_decide; simplify_eq. rewrite Hseq. cbn. change (marks_of id []) with 0. lia. }
  clear Hnew Hwf Hseq Hget. remember (t0, []) as g0 eqn:E0. clear E0. remember (t, pend) as g eqn:E.
  clear E t pend t0. induction Hrtc as [|g1 g2 g3 Hstep _ IH]; [done|]. apply IH.
  destruct Hstep; [by apply mark_fetch_inv|by apply mark_apply_inv].
Qed.

(** ** A schedule that leaves an account [restore] refuses *)
Definition fresh_work : AccountHealthTable :=
  match AccountHealthTable_new (mkPolicy 1000 60000) ["work"] with
  | Ok t => t
  | Err _ => mkTable (mkPolicy 1000 60000) [] 0
  end.

(** Two requests draw sequences 1 and 2; the second applies its mark first. *)
Definition crossed_marks : AccountHealthTable :=
  let '(p1, t1) := mark_fetch fresh_work "work" 5 in
  let '(p2, t2) := mark_fetch t1 "work" 5 in
  (mark_apply (mark_apply t2 p2).2 p1).2.

Lemma crossed_marks_reachable : rtc mark_step (fresh_work, []) (crossed_marks, []).
Proof.
  unfold crossed_marks. cbn -[get_state set_state].
  eapply rtc_l; [apply (step_fetch fresh_work [] "work" 5); [done|vm_compute; eauto]|].
  eapply rtc_l; [apply (step_fetch _ _ "work" 5); [done|vm_compute; eauto]|].
  eapply rtc_l; [apply (step_apply _ [] _ [_])|].
  eapply rtc_l; [apply (step_apply _ [] _ [])|]. constructor.
Qed.

(** Two concurrent selections of one account, healthy throughout, can
    leave a table that refuses to be reconfigured: the marks applied in the
    opposite order of their sequence numbers leave more selections than the
    last sequence, which [restore] rejects. *)
Theorem crossed_marks_break_reconfiguration :
  exists t, rtc mark_step (fresh_work, []) (t, []) /\
  (exists s, get_state t "work" = Some s /\ AccountState_kind s = Healthy /\
     selection_count s = 2 /\ last_selected_sequence s = 1) /\
  (reconfigured t ["work"] 6).1 = Err InvalidSnapshot.
Proof.
  exists crossed_marks. split; [exact crossed_marks_reachable|]. split.
  - eexists. split; [vm_compute; reflexivity|]. by vm_compute.
  - vm_compute. reflexivity.
Qed.

Lemma interleaved_marks_sound_witness : shared_inv (crossed_marks, []).
Proof.
  apply (interleaved_marks_sound (mkPolicy 1000 60000) ["work"] fresh_work).
  - vm_compute. reflexivity.
  - exact crossed_marks_reachable.
Defined.
