(* ===== verification/Text.v ===== *)
(** * UTF-8 text

    What the sources use of Rust's [str]: [str::from_utf8] accepts exactly the
    well-formed byte sequences, and a Rust [String] holds only such sequences.
    A byte is a [Z] between 0 and 255. *)
From S2P Require Import Prelude.

Definition is_byte (b : Z) : bool := (0 <=? b) && (b <=? 255).

(** Continuation bytes, and the second byte of the sequences whose first byte
    restricts it (no overlong forms, no surrogates, nothing above U+10FFFF). *)
Definition utf8_cont (b : Z) : bool := (128 <=? b) && (b <=? 191).

Definition utf8_second3 (first b : Z) : bool :=
  if first =? 224 then (160 <=? b) && (b <=? 191)
  else if first =? 237 then (128 <=? b) && (b <=? 159)
  else utf8_cont b.

Definition utf8_second4 (first b : Z) : bool :=
  if first =? 240 then (144 <=? b) && (b <=? 191)
  else if first =? 244 then (128 <=? b) && (b <=? 143)
  else utf8_cont b.

Fixpoint utf8_valid (l : list Z) : bool :=
  match l with
  | [] => true
  | b :: r =>
      if (0 <=? b) && (b <? 128) then utf8_valid r
      else if (194 <=? b) && (b <=? 223) then
        match r with
        | c :: r => utf8_cont c && utf8_valid r
        | [] => false
        end
      else if (224 <=? b) && (b <=? 239) then
        match r with
        | c :: d :: r => utf8_second3 b c && utf8_cont d && utf8_valid r
        | _ => false
        end
      else if (240 <=? b) && (b <=? 244) then
        match r with
        | c :: d :: e :: r => utf8_second4 b c && utf8_cont d && utf8_cont e && utf8_valid r
        | _ => false
        end
      else false
  end.

Definition is_ascii_byte (b : Z) : bool := (0 <=? b) && (b <? 128).

Lemma utf8_second3_cont first b : utf8_second3 first b = true -> utf8_cont b = true.
Proof. unfold utf8_second3, utf8_cont. repeat case_match; lia. Qed.

Lemma utf8_second4_cont first b : utf8_second4 first b = true -> utf8_cont b = true.
Proof. unfold utf8_second4, utf8_cont. repeat case_match; lia. Qed.

Lemma ascii_not_cont b : is_ascii_byte b = true -> utf8_cont b = false.
Proof. unfold is_ascii_byte, utf8_cont. lia. Qed.

(** Case analysis on the first character of a well-formed sequence: it is a
    non-empty group of bytes, all of them continuation bytes but the first, and
    what follows the group is well formed. *)
Lemma utf8_valid_cons b r :
  utf8_valid (b :: r) = true ->
  exists cont rest, r = cont ++ rest /\ Forall (fun c => utf8_cont c = true) cont /\
    utf8_valid rest = true /\ (is_ascii_byte b = true -> cont = []) /\
    (forall rest', utf8_valid (b :: cont ++ rest') = utf8_valid rest').
Proof.
  cbn [utf8_valid]. unfold is_ascii_byte.
  destruct ((0 <=? b) && (b <? 128)) eqn:E0.
  { exists [], r. by repeat split. }
  destruct ((194 <=? b) && (b <=? 223)) eqn:E1.
  { destruct r as [|c r]; [done|]. intros [Hc Hr]%andb_true_iff.
    exists [c], r. repeat split; auto; [lia|]. intros rest'. cbn. by rewrite Hc. }
  destruct ((224 <=? b) && (b <=? 239)) eqn:E2.
  { destruct r as [|c [|d r]]; [done..|]. intros [[Hc Hd]%andb_true_iff Hr]%andb_true_iff.
    exists [c; d], r. repeat split; auto; [|lia|].
    - eauto using utf8_second3_cont.
    - intros rest'. cbn. by rewrite Hc, Hd. }
  destruct ((240 <=? b) && (b <=? 244)) eqn:E3; [|done].
  destruct r as [|c [|d [|e r]]]; [done..|].
  intros [[[Hc Hd]%andb_true_iff He]%andb_true_iff Hr]%andb_true_iff.
  exists [c; d; e], r. repeat split; auto; [|lia|].
  - eauto 6 using utf8_second4_cont.
  - intros rest'. cbn. by rewrite Hc, Hd, He.
Qed.

Lemma utf8_valid_ascii_cons b r : is_ascii_byte b = true -> utf8_valid (b :: r) = utf8_valid r.
Proof. unfold is_ascii_byte. intros H. cbn. by rewrite H. Qed.

Lemma utf8_valid_app_fwd l k :
  utf8_valid l = true -> utf8_valid (l ++ k) = utf8_valid k.
Proof.
  remember (length l) as n eqn:Hn. revert l Hn.
  induction (lt_wf n) as [n _ IH]. intros l -> Hl.
  destruct l as [|b r]; [done|].
  destruct (utf8_valid_cons _ _ Hl) as (cont & rest & -> & _ & Hrest & _ & Hpre).
  rewrite <- app_comm_cons, <- app_assoc, Hpre.
  eapply IH; [|reflexivity|done]. cbn. rewrite length_app. lia.
Qed.

Lemma utf8_valid_app l k :
  utf8_valid l = true -> utf8_valid k = true -> utf8_valid (l ++ k) = true.
Proof. intros Hl Hk. by rewrite utf8_valid_app_fwd. Qed.

(** Cutting a well-formed sequence at an ASCII byte leaves two well-formed ones. *)
Lemma utf8_valid_split l a k :
  is_ascii_byte a = true -> utf8_valid (l ++ a :: k) = true ->
  utf8_valid l = true /\ utf8_valid k = true.
Proof.
  intros Ha. remember (length l) as n eqn:Hn. revert l Hn.
  induction (lt_wf n) as [n _ IH]. intros l -> Hl.
  destruct l as [|b r].
  { cbn [app] in Hl. rewrite utf8_valid_ascii_cons in Hl by done. done. }
  destruct (utf8_valid_cons _ _ Hl) as (cont & rest & Heq & Hcont & Hrest & _ & Hpre).
  assert (exists r2, r = cont ++ r2 /\ rest = r2 ++ a :: k) as (r2 & -> & ->).
  { clear -Ha Heq Hcont. revert r Heq.
    induction Hcont as [|c cont Hc _ IHc]; intros r Heq; [by exists r|].
    destruct r as [|c' r]; cbn in Heq; simplify_eq.
    - rewrite ascii_not_cont in Hc by done. done.
    - destruct (IHc r) as (r2 & -> & ->); eauto. }
  destruct (IH (length r2)) with (l := r2) as [H1 H2]; auto.
  { cbn. rewrite length_app. lia. }
  split; [|done]. by rewrite Hpre.
Qed.

#[export] Hint Resolve utf8_valid_app : wok.

(** * Characters of a string

    What the validators use of Rust's [char]: decoding well-formed UTF-8 into
    code points, [char::is_whitespace] (the Unicode White_Space property, which
    [str::trim] strips) and [char::is_control] (general category Cc). *)

(** [str::chars] on the bytes of a string. *)
Fixpoint chars (l : list Z) : list Z :=
  match l with
  | [] => []
  | b :: r =>
      if b <? 128 then b :: chars r
      else if b <? 224 then
        match r with
        | c :: r => ((b - 192) * 64 + (c - 128)) :: chars r
        | [] => []
        end
      else if b <? 240 then
        match r with
        | c :: d :: r => ((b - 224) * 4096 + (c - 128) * 64 + (d - 128)) :: chars r
        | _ => []
        end
      else
        match r with
        | c :: d :: e :: r =>
            ((b - 240) * 262144 + (c - 128) * 4096 + (d - 128) * 64 + (e - 128)) :: chars r
        | _ => []
        end
  end.

Definition str_chars (s : string) : list Z := chars (str_bytes s).

Definition is_whitespace (c : Z) : bool :=
  ((9 <=? c) && (c <=? 13)) || (c =? 32) || (c =? 133) || (c =? 160) || (c =? 5760)
  || ((8192 <=? c) && (c <=? 8202)) || (c =? 8232) || (c =? 8233) || (c =? 8239)
  || (c =? 8287) || (c =? 12288).

Definition is_control (c : Z) : bool :=
  ((0 <=? c) && (c <=? 31)) || ((127 <=? c) && (c <=? 159)).

(** [s.trim().is_empty()]. *)
Definition is_blank (s : string) : bool := forallb is_whitespace (str_chars s).

(** [s.chars().any(char::is_control)]. *)
Definition has_control (s : string) : bool := existsb is_control (str_chars s).

Example chars_ascii : str_chars "gpt-4" = [103; 112; 116; 45; 52].
Proof. reflexivity. Qed.

Example chars_multibyte : chars [206; 187; 226; 128; 175; 240; 159; 166; 128] = [955; 8239; 129408].
Proof. reflexivity. Qed.

(** Bytes that are all ASCII decode to themselves. *)
Lemma chars_ascii_bytes l : Forall (fun b => is_ascii_byte b = true) l -> chars l = l.
Proof.
  induction 1 as [|b l Hb _ IH]; [done|].
  cbn. unfold is_ascii_byte in Hb. replace (b <? 128) with true by lia. by rewrite IH.
Qed.

Lemma is_blank_empty : is_blank "" = true.
Proof. reflexivity. Qed.

Lemma not_blank_nonempty s : is_blank s = false -> s <> ""%string.
Proof. by intros H ->. Qed.
