(* ===== verification/Sse.v ===== *)
(** * Server-sent events (crates/wokcore-protocols/src/stream/sse.rs)

    The incremental decoder of upstream event streams and the encoder of the
    gateway's own.  A byte is a [Z] in 0..255, a [Vec<u8>] or a [String] the
    list of its bytes; [usize] counters are non-negative [Z] with the
    saturation of the source.  The decoder's methods run in the state and
    error monad of the prelude, so the state left behind by an error is
    modelled too. *)
From S2P Require Import Prelude Text.

Inductive ProtocolError : Type :=
| FrameTooLarge (limit : Z)
| TooManyFrames (limit : Z)
| InvalidUtf8
| DecoderFailed
| UnexpectedEof
| InvalidChannelCapacity.

Definition DEFAULT_MAX_SSE_FRAME_BYTES : Z := 1024 * 1024.
Definition DEFAULT_MAX_SSE_FRAMES_PER_PUSH : Z := 4096.

Record SseFrame : Type := mkSseFrame {
  frame_event : option (list Z);
  frame_data : list Z
}.

Record SseDecoder : Type := mkSseDecoder {
  max_frame_bytes : Z;
  max_frames_per_push : Z;
  frame_bytes : Z;
  line : list Z;
  event : option (list Z);
  data : list Z;
  saw_data : bool;
  at_stream_start : bool;
  failed : bool;
  skip_lf : bool;
  count_skipped_lf : bool
}.

(** Assignments to the fields of [self]. *)
Definition set_frame_bytes (v : Z) (d : SseDecoder) : SseDecoder :=
  mkSseDecoder (max_frame_bytes d) (max_frames_per_push d) v (line d) (event d) (data d)
    (saw_data d) (at_stream_start d) (failed d) (skip_lf d) (count_skipped_lf d).
Definition set_line (v : list Z) (d : SseDecoder) : SseDecoder :=
  mkSseDecoder (max_frame_bytes d) (max_frames_per_push d) (frame_bytes d) v (event d) (data d)
    (saw_data d) (at_stream_start d) (failed d) (skip_lf d) (count_skipped_lf d).
Definition set_event (v : option (list Z)) (d : SseDecoder) : SseDecoder :=
  mkSseDecoder (max_frame_bytes d) (max_frames_per_push d) (frame_bytes d) (line d) v (data d)
    (saw_data d) (at_stream_start d) (failed d) (skip_lf d) (count_skipped_lf d).
Definition set_data (v : list Z) (d : SseDecoder) : SseDecoder :=
  mkSseDecoder (max_frame_bytes d) (max_frames_per_push d) (frame_bytes d) (line d) (event d) v
    (saw_data d) (at_stream_start d) (failed d) (skip_lf d) (count_skipped_lf d).
Definition set_saw_data (v : bool) (d : SseDecoder) : SseDecoder :=
  mkSseDecoder (max_frame_bytes d) (max_frames_per_push d) (frame_bytes d) (line d) (event d)
    (data d) v (at_stream_start d) (failed d) (skip_lf d) (count_skipped_lf d).
Definition set_at_stream_start (v : bool) (d : SseDecoder) : SseDecoder :=
  mkSseDecoder (max_frame_bytes d) (max_frames_per_push d) (frame_bytes d) (line d) (event d)
    (data d) (saw_data d) v (failed d) (skip_lf d) (count_skipped_lf d).
Definition set_failed (v : bool) (d : SseDecoder) : SseDecoder :=
  mkSseDecoder (max_frame_bytes d) (max_frames_per_push d) (frame_bytes d) (line d) (event d)
    (data d) (saw_data d) (at_stream_start d) v (skip_lf d) (count_skipped_lf d).
Definition set_skip_lf (v : bool) (d : SseDecoder) : SseDecoder :=
  mkSseDecoder (max_frame_bytes d) (max_frames_per_push d) (frame_bytes d) (line d) (event d)
    (data d) (saw_data d) (at_stream_start d) (failed d) v (count_skipped_lf d).
Definition set_count_skipped_lf (v : bool) (d : SseDecoder) : SseDecoder :=
  mkSseDecoder (max_frame_bytes d) (max_frames_per_push d) (frame_bytes d) (line d) (event d)
    (data d) (saw_data d) (at_stream_start d) (failed d) (skip_lf d) v.

Definition with_limits (max_frame max_frames : Z) : SseDecoder :=
  mkSseDecoder max_frame max_frames 0 [] None [] false true false false false.

Definition SseDecoder_new (max_frame : Z) : SseDecoder :=
  with_limits max_frame DEFAULT_MAX_SSE_FRAMES_PER_PUSH.

Definition SseDecoder_default : SseDecoder := SseDecoder_new DEFAULT_MAX_SSE_FRAME_BYTES.

Notation decoding := (st_res SseDecoder ProtocolError).

Definition add_frame_bytes (added : Z) : decoding unit :=
  do! st_mod (fun d => set_frame_bytes (sat_add64 (frame_bytes d) added) d);
  let! d := st_get in
  if max_frame_bytes d <? frame_bytes d then st_err (FrameTooLarge (max_frame_bytes d))
  else st_ret tt.

(** [slice::strip_prefix(..).unwrap_or(..)] *)
Definition strip_bom (l : list Z) : list Z :=
  match l with
  | b0 :: b1 :: b2 :: r => if (b0 =? 239) && (b1 =? 187) && (b2 =? 191) then r else l
  | _ => l
  end.

(** [str::split_once(':')] *)
Fixpoint split_colon (l : list Z) : option (list Z * list Z) :=
  match l with
  | [] => None
  | b :: r =>
      if b =? 58 then Some ([], r)
      else match split_colon r with
           | Some (f, v) => Some (b :: f, v)
           | None => None
           end
  end.

(** [value.strip_prefix(' ').unwrap_or(value)] *)
Definition strip_space (l : list Z) : list Z :=
  match l with
  | b :: r => if b =? 32 then r else l
  | [] => []
  end.

Definition field_event : list Z := [101; 118; 101; 110; 116].
Definition field_data : list Z := [100; 97; 116; 97].

(** The field name and the value of a non-empty line that is no comment. *)
Definition parse_field (l : list Z) : list Z * list Z :=
  match split_colon l with
  | Some (field, value) => (field, strip_space value)
  | None => (l, [])
  end.

Definition apply_field (field value : list Z) (d : SseDecoder) : SseDecoder :=
  if bool_decide (field = field_event) then set_event (Some value) d
  else if bool_decide (field = field_data) then
    let d := if saw_data d then set_data (data d ++ [10]) d else d in
    set_saw_data true (set_data (data d ++ value) d)
  else d.

Definition process_line (frames : list SseFrame) : decoding (list SseFrame) :=
  let! d := st_get in
  let taken := line d in
  do! st_mod (set_line []);
  let taken := if at_stream_start d then strip_bom taken else taken in
  do! st_mod (set_at_stream_start false);
  if negb (utf8_valid taken) then st_err InvalidUtf8
  else match taken with
  | [] =>
      let! frames :=
        if saw_data d then
          if max_frames_per_push d <=? zlen frames then
            st_err (TooManyFrames (max_frames_per_push d))
          else
            do! st_mod (fun d => set_data [] (set_event None d));
            st_ret (frames ++ [mkSseFrame (event d) (data d)])
        else
          do! st_mod (fun d => set_data [] (set_event None d));
          st_ret frames in
      do! st_mod (fun d => set_frame_bytes 0 (set_saw_data false d));
      st_ret frames
  | b :: _ =>
      if b =? 58 then st_ret frames
      else
        let '(field, value) := parse_field taken in
        do! st_mod (apply_field field value);
        st_ret frames
  end.

(** One turn of the [for] loop of [push_inner]. *)
Definition push_byte (frames : list SseFrame) (byte : Z) : decoding (list SseFrame) :=
  let! d := st_get in
  if skip_lf d && (byte =? 10) then
    do! st_mod (set_skip_lf false);
    do! (if count_skipped_lf d then add_frame_bytes 1 else st_ret tt);
    do! st_mod (set_count_skipped_lf false);
    st_ret frames
  else
    do! (if skip_lf d
         then st_mod (fun d => set_count_skipped_lf false (set_skip_lf false d))
         else st_ret tt);
    if byte =? 13 then
      let line_has_bytes := negb (is_emptyb (line d)) in
      do! (if line_has_bytes then add_frame_bytes 1 else st_ret tt);
      let! frames := process_line frames in
      do! st_mod (fun d => set_count_skipped_lf line_has_bytes (set_skip_lf true d));
      st_ret frames
    else if byte =? 10 then
      do! (if negb (is_emptyb (line d)) then add_frame_bytes 1 else st_ret tt);
      process_line frames
    else
      do! add_frame_bytes 1;
      do! st_mod (fun d => set_line (line d ++ [byte]) d);
      st_ret frames.

Definition push_inner (chunk : list Z) : decoding (list SseFrame) :=
  st_fold push_byte [] chunk.

Definition push (chunk : list Z) : decoding (list SseFrame) := fun d =>
  if failed d then (d, Err DecoderFailed)
  else match push_inner chunk d with
       | (d, Ok frames) => (d, Ok frames)
       | (d, Err error) => (set_failed true d, Err error)
       end.

Definition finish : decoding (list SseFrame) := fun d =>
  if failed d then (d, Err DecoderFailed)
  else
    let d := set_failed true d in
    if negb (is_emptyb (line d)) || is_someb (event d) || negb (is_emptyb (data d))
       || saw_data d || negb (frame_bytes d =? 0)
    then (d, Err UnexpectedEof)
    else (d, Ok []).

(** ** Encoder

    [serde_json] is third-party code: the compact serialisation of a value is
    a parameter. *)
Section Encode.
Context {Value : Type} (to_vec : Value -> list Z).

Definition has_line_break (name : list Z) : bool :=
  existsb (fun b => (b =? 13) || (b =? 10)) name.

Definition event_field (event : option (list Z)) : list Z :=
  match event with
  | Some name => if has_line_break name then [] else field_event ++ [58; 32] ++ name ++ [10]
  | None => []
  end.

Definition encode_sse (event : option (list Z)) (value : Value) : list Z :=
  event_field event ++ field_data ++ [58; 32] ++ to_vec value ++ [10; 10].
End Encode.
