(* ===== verification/SseSpec.v ===== *)
(** * Event streams: specification and correctness of the decoder

    A stream is specified without a decoder: its lines end with CR LF, CR or
    LF, a block of field lines ends with an empty line, and a block that has
    data lines is one frame.  The theorems relate any sequence of [push] calls
    to that specification. *)
From S2P Require Import Prelude Text Sse.

(** ** Specification *)

(** The terminated lines of a stream, [cur] being the bytes of the open line. *)
Fixpoint split_lines (cur l : list Z) : list (list Z) :=
  match l with
  | [] => []
  | b :: r =>
      if b =? 13 then
        cur :: match r with
               | c :: r' => if c =? 10 then split_lines [] r' else split_lines [] r
               | [] => []
               end
      else if b =? 10 then cur :: split_lines [] r
      else split_lines (cur ++ [b]) r
  end.

(** The fields collected for the current block. *)
Record block : Type := mkBlock { blk_event : option (list Z); blk_data : list (list Z) }.
Definition empty_block : block := mkBlock None [].

Definition join_lines (ls : list (list Z)) : list Z :=
  match ls with
  | [] => []
  | l :: ls => l ++ concat (map (cons 10) ls)
  end.

Definition block_frame (p : block) : list SseFrame :=
  match blk_data p with
  | [] => []
  | ls => [mkSseFrame (blk_event p) (join_lines ls)]
  end.

Definition block_field (p : block) (l : list Z) : block :=
  let '(field, value) := parse_field l in
  if bool_decide (field = field_event) then mkBlock (Some value) (blk_data p)
  else if bool_decide (field = field_data) then mkBlock (blk_event p) (blk_data p ++ [value])
  else p.

Definition block_line (p : block) (l : list Z) : block * list SseFrame :=
  match l with
  | [] => (empty_block, block_frame p)
  | b :: _ => (if b =? 58 then p else block_field p l, [])
  end.

Fixpoint block_lines (p : block) (ls : list (list Z)) : list SseFrame :=
  match ls with
  | [] => []
  | l :: ls => let '(p', fs) := block_line p l in fs ++ block_lines p' ls
  end.

(** The frames of a whole stream; a byte-order mark may open it. *)
Definition stream_frames (bytes : list Z) : list SseFrame :=
  match split_lines [] bytes with
  | [] => []
  | l :: ls => block_lines empty_block (strip_bom l :: ls)
  end.

(** A stream delivered in chunks: the frames of successive pushes. *)
Fixpoint push_all (chunks : list (list Z)) : decoding (list SseFrame) :=
  match chunks with
  | [] => st_ret []
  | c :: cs =>
      let! fs := push c in
      let! gs := push_all cs in
      st_ret (fs ++ gs)
  end.

(** ** Lemmas on the decoder *)

Definition taken_line (d : SseDecoder) : list Z :=
  if at_stream_start d then strip_bom (line d) else line d.

Definition line_taken (d : SseDecoder) : SseDecoder := set_at_stream_start false (set_line [] d).

Definition block_reset (d : SseDecoder) : SseDecoder :=
  set_frame_bytes 0 (set_saw_data false (set_data [] (set_event None d))).

(** [process_line] without the monad. *)
Lemma process_line_eq fs d :
  process_line fs d =
    if negb (utf8_valid (taken_line d)) then (line_taken d, Err InvalidUtf8)
    else match taken_line d with
         | [] =>
             if saw_data d then
               if max_frames_per_push d <=? zlen fs
               then (line_taken d, Err (TooManyFrames (max_frames_per_push d)))
               else (block_reset (line_taken d), Ok (fs ++ [mkSseFrame (event d) (data d)]))
             else (block_reset (line_taken d), Ok fs)
         | b :: _ =>
             (if b =? 58 then line_taken d
              else let '(f, v) := parse_field (taken_line d) in apply_field f v (line_taken d),
              Ok fs)
         end.
Proof.
  unfold process_line, st_bind, st_get, st_mod, st_ret, st_err, taken_line, line_taken,
    block_reset. cbn [fst snd].
  destruct (at_stream_start d) eqn:Es; repeat (case_match; simplify_eq/=; try done).
Qed.

(** Apart from a full frame list, what a line does to the decoder. *)
Lemma process_line_Ok fs d d' fs' :
  process_line fs d = (d', Ok fs') ->
  exists new, fs' = fs ++ new /\
    (new = [] \/ exists f, new = [f] /\ zlen fs < max_frames_per_push d) /\
    forall gs, new = [] \/ zlen gs < max_frames_per_push d ->
      process_line gs d = (d', Ok (gs ++ new)).
Proof.
  setoid_rewrite process_line_eq. intros H.
  destruct (utf8_valid (taken_line d)); [|done]. cbn [negb] in *.
  destruct (taken_line d) as [|b r].
  - destruct (saw_data d).
    + destruct (max_frames_per_push d <=? zlen fs) eqn:E; [done|]. simplify_eq.
      eexists; split; [reflexivity|]. split; [right; eexists; split; [done|lia]|].
      intros gs [?|?]; [done|]. by rewrite (proj2 (Z.leb_gt _ _)) by lia.
    + simplify_eq. exists []. rewrite app_nil_r. repeat split; auto.
      intros gs _. by rewrite app_nil_r.
  - simplify_eq. exists []. rewrite app_nil_r. repeat split; auto.
    intros gs _. by rewrite app_nil_r.
Qed.

Definition counted (n : bool) (d : SseDecoder) : SseDecoder :=
  if n then set_frame_bytes (sat_add64 (frame_bytes d) 1) d else d.

Definition too_large (n : bool) (d : SseDecoder) : bool :=
  n && (max_frame_bytes d <? sat_add64 (frame_bytes d) 1).

Definition no_skip (d : SseDecoder) : SseDecoder := set_count_skipped_lf false (set_skip_lf false d).

(** [push_byte] without the monad: a skipped LF, a CR, an LF, any other byte. *)
Lemma push_byte_eq fs b d :
  push_byte fs b d =
    let open_line := negb (is_emptyb (line d)) in
    if skip_lf d && (b =? 10) then
      if too_large (count_skipped_lf d) d
      then (counted true (set_skip_lf false d), Err (FrameTooLarge (max_frame_bytes d)))
      else (set_count_skipped_lf false (counted (count_skipped_lf d) (set_skip_lf false d)), Ok fs)
    else
      let d0 := if skip_lf d then no_skip d else d in
      if (b =? 13) || (b =? 10) then
        if too_large open_line d
        then (counted true d0, Err (FrameTooLarge (max_frame_bytes d)))
        else
          match process_line fs (counted open_line d0) with
          | (d1, Ok fs') =>
              (if b =? 13 then set_count_skipped_lf open_line (set_skip_lf true d1) else d1, Ok fs')
          | (d1, Err e) => (d1, Err e)
          end
      else if too_large true d
      then (counted true d0, Err (FrameTooLarge (max_frame_bytes d)))
      else (set_line (line d ++ [b]) (counted true d0), Ok fs).
Proof.
  unfold push_byte, add_frame_bytes, st_bind, st_get, st_mod, st_ret, st_err, too_large, counted.
  destruct (skip_lf d) eqn:Es; cbn [andb].
  - destruct (b =? 10) eqn:E10.
    + destruct (count_skipped_lf d); cbn; [|done]. by destruct (_ <? _).
    + rewrite orb_false_r. destruct (b =? 13).
      * destruct (is_emptyb (line d)); cbn [negb andb]; [done|]. cbn -[process_line].
        by destruct (_ <? _).
      * cbn. by destruct (_ <? _).
  - destruct (b =? 13) eqn:E13; cbn [orb].
    + destruct (is_emptyb (line d)); cbn [negb andb]; [done|]. cbn -[process_line].
      by destruct (_ <? _).
    + destruct (b =? 10).
      * destruct (is_emptyb (line d)); cbn [negb andb]; cbn -[process_line].
        -- by destruct (process_line fs d) as [? [?|?]].
        -- destruct (_ <? _); [done|]. by destruct (process_line _ _) as [? [?|?]].
      * cbn. by destruct (_ <? _).
Qed.

(** ** The stream as a byte automaton

    The bridge between the decoder and the specification: the position in the
    line structure and the block so far. *)
Record position : Type := mkPosition {
  pos_skip : bool;
  pos_line : list Z;
  pos_start : bool;
  pos_block : block
}.

Definition stream_start : position := mkPosition false [] true empty_block.

Definition pos_taken (a : position) : list Z :=
  if pos_start a then strip_bom (pos_line a) else pos_line a.

Definition pos_step (a : position) (b : Z) : position * list SseFrame :=
  if pos_skip a && (b =? 10) then
    (mkPosition false (pos_line a) (pos_start a) (pos_block a), [])
  else if (b =? 13) || (b =? 10) then
    let '(p, fs) := block_line (pos_block a) (pos_taken a) in
    (mkPosition (b =? 13) [] false p, fs)
  else (mkPosition false (pos_line a ++ [b]) (pos_start a) (pos_block a), []).

Fixpoint pos_run (a : position) (l : list Z) : position * list SseFrame :=
  match l with
  | [] => (a, [])
  | b :: l =>
      let '(a', fs) := pos_step a b in
      let '(a'', gs) := pos_run a' l in (a'', fs ++ gs)
  end.

(** The decoder is at a position of the stream. *)
Definition at_position (d : SseDecoder) (a : position) : Prop :=
  skip_lf d = pos_skip a /\ line d = pos_line a /\ at_stream_start d = pos_start a /\
  event d = blk_event (pos_block a) /\ data d = join_lines (blk_data (pos_block a)) /\
  saw_data d = negb (is_emptyb (blk_data (pos_block a))).

Lemma join_lines_snoc ls v :
  join_lines (ls ++ [v]) =
    (if negb (is_emptyb ls) then join_lines ls ++ [10] else join_lines ls) ++ v.
Proof.
  destruct ls as [|l ls]; cbn.
  - by rewrite app_nil_r.
  - by rewrite map_app, concat_app, <- !app_assoc; cbn; rewrite app_nil_r.
Qed.

Lemma pos_run_app a l k :
  pos_run a (l ++ k) =
    let '(a1, fs) := pos_run a l in let '(a2, gs) := pos_run a1 k in (a2, fs ++ gs).
Proof.
  revert a. induction l as [|b l IH]; intros a; cbn [app pos_run].
  { by destruct (pos_run a k). }
  destruct (pos_step a b) as [a1 f1]. rewrite IH.
  destruct (pos_run a1 l) as [a2 f2]. destruct (pos_run a2 k) as [a3 f3].
  by rewrite app_assoc.
Qed.

(** The automaton computes the specification. *)
Lemma pos_run_skip cur p l :
  (pos_run (mkPosition true cur false p) l).2 =
    (pos_run (mkPosition false cur false p)
       match l with b :: r => if b =? 10 then r else l | [] => [] end).2.
Proof.
  destruct l as [|b r]; [done|]. cbn [pos_run].
  unfold pos_step at 1. cbn [pos_skip andb].
  destruct (b =? 10) eqn:E; cbn [pos_line pos_start pos_block].
  - by destruct (pos_run _ r).
  - cbn [pos_run]. unfold pos_step. cbn [pos_skip pos_line pos_start pos_block andb]. by rewrite E.
Qed.

Lemma pos_run_lines start cur p l :
  (pos_run (mkPosition false cur start p) l).2 =
    match split_lines cur l with
    | [] => []
    | x :: ls => block_lines p ((if start then strip_bom x else x) :: ls)
    end.
Proof.
  remember (length l) as n eqn:Hn. revert l Hn start cur p.
  induction (lt_wf n) as [n _ IH]. intros l -> start cur p.
  assert (forall k q, (length k < length l)%nat ->
    (pos_run (mkPosition false [] false q) k).2 = block_lines q (split_lines [] k)) as IH'.
  { intros k q Hk. rewrite (IH _ Hk k eq_refl). by destruct (split_lines [] k). }
  destruct l as [|b r]; [done|]. cbn [pos_run split_lines]. unfold pos_step at 1.
  cbn [pos_skip pos_line pos_start pos_block andb]. unfold pos_taken.
  cbn [pos_line pos_start].
  destruct (b =? 13) eqn:E13; [|destruct (b =? 10) eqn:E10]; cbn [orb].
  - cbn [block_lines]. destruct (block_line p _) as [q fs].
    destruct (pos_run _ r) as [a gs] eqn:Er.
    cbn [snd]. f_equal. change gs with ((a, gs).2). rewrite <- Er, pos_run_skip.
    destruct r as [|c r']; [done|]. destruct (c =? 10); rewrite IH'; auto; cbn; lia.
  - cbn [block_lines]. destruct (block_line p _) as [q fs].
    destruct (pos_run _ r) as [a gs] eqn:Er.
    cbn [snd]. f_equal. change gs with ((a, gs).2). rewrite <- Er. rewrite IH'; auto; cbn; lia.
  - destruct (pos_run _ r) as [a gs] eqn:Er. cbn [snd app]. change gs with ((a, gs).2).
    rewrite <- Er. by rewrite IH with (l := r) (y := length r) by (cbn; lia).
Qed.

Lemma pos_run_stream bytes : (pos_run stream_start bytes).2 = stream_frames bytes.
Proof. unfold stream_start, stream_frames. by rewrite pos_run_lines. Qed.

(** ** The decoder follows the stream *)

Lemma apply_field_position d a l f v :
  at_position d a -> parse_field l = (f, v) ->
  let d' := apply_field f v (line_taken d) in
  line d' = [] /\ at_stream_start d' = false /\ skip_lf d' = skip_lf d /\
  event d' = blk_event (block_field (pos_block a) l) /\
  data d' = join_lines (blk_data (block_field (pos_block a) l)) /\
  saw_data d' = negb (is_emptyb (blk_data (block_field (pos_block a) l))) /\
  frame_bytes d' = frame_bytes d.
Proof.
  intros (_ & _ & _ & He & Hd & Hs) Hp. unfold block_field. rewrite Hp.
  unfold apply_field. case_bool_decide; [by cbn|]. case_bool_decide; [|by cbn].
  cbn -[line_taken]. rewrite join_lines_snoc, <- Hs.
  unfold line_taken. cbn. rewrite <- Hd. destruct (saw_data d); cbn; repeat split; auto.
  all: by destruct (blk_data (pos_block a)).
Qed.

(** What an accepted line does: the block advances as specified, and the frame
    counter is kept, or reset by an empty line. *)
Lemma process_line_position fs d a d' fs' :
  at_position d a -> process_line fs d = (d', Ok fs') ->
  let '(p, new) := block_line (pos_block a) (pos_taken a) in
  fs' = fs ++ new /\
  at_position d' (mkPosition (pos_skip a) [] false p) /\
  (frame_bytes d' = frame_bytes d \/ frame_bytes d' = 0).
Proof.
  intros Hd. pose proof Hd as (Hk & Hl & Hst & He & Hda & Hs). rewrite process_line_eq.
  assert (taken_line d = pos_taken a) as ->
    by (unfold taken_line, pos_taken; by rewrite Hst, Hl).
  destruct (utf8_valid (pos_taken a)); [|done]. cbn [negb].
  destruct (pos_taken a) as [|b r] eqn:Et; unfold block_line.
  - unfold block_frame. rewrite Hs. destruct (blk_data (pos_block a)) as [|x xs] eqn:Eb; cbn [negb is_emptyb].
    + intros [= <- <-]. rewrite app_nil_r. repeat split; cbn; auto.
    + destruct (_ <=? _); [done|]. intros [= <- <-]. rewrite He, Hda.
      repeat split; cbn; auto.
  - intros [= <- <-]. rewrite app_nil_r. split; [done|].
    destruct (b =? 58).
    + repeat split; cbn; auto.
    + destruct (parse_field (b :: r)) as [f v] eqn:Ep.
      destruct (apply_field_position d a (b :: r) f v Hd Ep) as (? & ? & ? & ? & ? & ? & ?).
      repeat split; cbn; auto; congruence.
Qed.

Lemma at_position_irrel d d' a :
  skip_lf d' = skip_lf d -> line d' = line d -> at_stream_start d' = at_stream_start d ->
  event d' = event d -> data d' = data d -> saw_data d' = saw_data d ->
  at_position d a -> at_position d' a.
Proof. unfold at_position. intros -> -> -> -> -> ->. done. Qed.

Lemma push_byte_position fs b d a d' fs' :
  at_position d a -> push_byte fs b d = (d', Ok fs') ->
  at_position d' (pos_step a b).1 /\ fs' = fs ++ (pos_step a b).2.
Proof.
  intros Hd. pose proof Hd as (Hk & Hl & Hst & He & Hda & Hs).
  rewrite push_byte_eq. cbv zeta. unfold pos_step. rewrite Hk.
  destruct (pos_skip a && (b =? 10)) eqn:E10.
  - destruct (too_large _ _); [done|]. intros [= <- <-]. rewrite app_nil_r. split; [|done].
    destruct (count_skipped_lf d); repeat split; cbn; auto.
  - set (d0 := if pos_skip a then no_skip d else d).
    assert (at_position d0 (mkPosition false (pos_line a) (pos_start a) (pos_block a))) as H0.
    { subst d0. destruct (pos_skip a); repeat split; cbn; auto. }
    destruct ((b =? 13) || (b =? 10)) eqn:Eb.
    + destruct (too_large _ _); [done|].
      set (d1 := counted _ d0).
      assert (at_position d1 (mkPosition false (pos_line a) (pos_start a) (pos_block a))) as H1.
      { eapply at_position_irrel; [..|exact H0]; unfold d1, counted; by destruct (negb (is_emptyb (line d))). }
      destruct (process_line fs d1) as [d2 [fs2|e]] eqn:Ep; [|done].
      pose proof (process_line_position _ _ _ _ _ H1 Ep) as Hpl.
      unfold pos_taken in *. cbn [pos_line pos_start pos_block pos_skip] in Hpl.
      destruct (block_line _ _) as [p new]. destruct Hpl as (-> & Hd2 & _).
      intros [= <- <-]. split; [|done].
      destruct Hd2 as (? & ? & ? & ? & ? & ?).
      destruct (b =? 13); repeat split; cbn in *; auto.
    + destruct (too_large _ _); [done|]. intros [= <- <-]. rewrite app_nil_r.
      split; [|done]. destruct H0 as (? & ? & ? & ? & ? & ?). rewrite Hl.
      repeat split; cbn in *; auto.
Qed.

Lemma push_loop_position l : forall fs d a d' fs',
  at_position d a -> st_fold push_byte fs l d = (d', Ok fs') ->
  at_position d' (pos_run a l).1 /\ fs' = fs ++ (pos_run a l).2.
Proof.
  induction l as [|b l IH]; intros fs d a d' fs' Hd.
  { cbn. intros [= <- <-]. by rewrite app_nil_r. }
  cbn [st_fold pos_run]. intros (d1 & fs1 & H1 & H2)%st_bind_Ok.
  apply push_byte_position with (a := a) in H1 as [Hd1 ->]; [|done].
  destruct (pos_step a b) as [a1 f1]. destruct (pos_run a1 l) as [a2 f2] eqn:E2.
  apply IH with (a := a1) in H2 as [Hd2 ->]; [|done]. rewrite E2 in *.
  by rewrite <- app_assoc.
Qed.

Lemma push_Ok chunk d d' fs :
  push chunk d = (d', Ok fs) <-> failed d = false /\ push_inner chunk d = (d', Ok fs).
Proof.
  unfold push. destruct (failed d); [naive_solver|].
  destruct (push_inner chunk d) as [d1 [fs1|e]]; naive_solver.
Qed.

Lemma push_all_position cs : forall d a d' fs,
  at_position d a -> push_all cs d = (d', Ok fs) ->
  at_position d' (pos_run a (concat cs)).1 /\ fs = (pos_run a (concat cs)).2.
Proof.
  induction cs as [|c cs IH]; intros d a d' fs Hd; cbn [push_all concat].
  { cbn. intros [= <- <-]. done. }
  intros (d1 & fs1 & H1 & H2)%st_bind_Ok. apply push_Ok in H1 as [_ H1].
  apply st_bind_Ok in H2 as (d2 & fs2 & H2 & H3).
  apply push_loop_position with (a := a) in H1 as [Hd1 ->]; [|done].
  rewrite pos_run_app. destruct (pos_run a c) as [a1 f1].
  apply IH with (a := a1) in H2 as [Hd2 ->]; [|done].
  unfold st_ret in H3. destruct (pos_run a1 (concat cs)). cbn in *. by simplify_eq.
Qed.

(** ** Success

    A UTF-8 text whose bytes fit the remaining frame budget is accepted. *)

Lemma strip_bom_valid l : utf8_valid l = true -> utf8_valid (strip_bom l) = true.
Proof.
  destruct l as [|b0 [|b1 [|b2 r]]]; try done. cbn [strip_bom].
  destruct (_ && _ && _) eqn:E; [|done].
  apply andb_true_iff in E as [[->%Z.eqb_eq ->%Z.eqb_eq]%andb_true_iff ->%Z.eqb_eq].
  done.
Qed.

Definition has_budget (n : Z) (d : SseDecoder) : Prop :=
  failed d = false /\ 0 <= frame_bytes d /\ frame_bytes d + n <= max_frame_bytes d /\
  max_frame_bytes d < u64_max.

Lemma too_large_budget n m d : has_budget m d -> 1 <= m -> too_large n d = false.
Proof. unfold has_budget, too_large. intros. destruct n; [|done]. cbn. ulia. Qed.

Lemma process_line_succeeds fs d a :
  at_position d a -> utf8_valid (pos_line a) = true ->
  zlen (fs ++ (block_line (pos_block a) (pos_taken a)).2) <= max_frames_per_push d ->
  exists d' fs', process_line fs d = (d', Ok fs') /\
    failed d' = failed d /\ max_frame_bytes d' = max_frame_bytes d /\
    max_frames_per_push d' = max_frames_per_push d.
Proof.
  intros (Hk & Hl & Hst & He & Hda & Hs) Hu Hlen. rewrite process_line_eq.
  assert (taken_line d = pos_taken a) as ->
    by (unfold taken_line, pos_taken; by rewrite Hst, Hl).
  assert (utf8_valid (pos_taken a) = true) as ->.
  { unfold pos_taken. destruct (pos_start a); auto using strip_bom_valid. }
  cbn [negb]. destruct (pos_taken a) as [|b r]; cbn [block_line snd] in Hlen.
  - unfold block_frame in Hlen. rewrite Hs.
    destruct (blk_data _); cbn [is_emptyb negb]; [eauto 10|].
    rewrite zlen_app in Hlen. rewrite (proj2 (Z.leb_gt _ _)); [eauto 10|].
    unfold zlen in *. cbn in Hlen. lia.
  - destruct (b =? 58); [by eauto 10|]. destruct (parse_field _) as [f v].
    unfold apply_field. repeat case_match; eauto 10.
Qed.

Lemma push_byte_succeeds fs b r d a n :
  at_position d a -> has_budget (1 + n) d -> 0 <= n -> utf8_valid (pos_line a ++ b :: r) = true ->
  zlen (fs ++ (pos_step a b).2) <= max_frames_per_push d ->
  exists d' fs', push_byte fs b d = (d', Ok fs') /\ has_budget n d' /\
    max_frames_per_push d' = max_frames_per_push d /\
    utf8_valid (pos_line (pos_step a b).1 ++ r) = true.
Proof.
  intros Hd Hb Hn Hu Hlen. pose proof Hd as (Hk & Hl & Hst & He & Hda & Hs).
  rewrite push_byte_eq. cbv zeta. unfold pos_step in *. rewrite Hk, !(too_large_budget _ _ _ Hb) by lia.
  destruct Hb as (Hf & Hb0 & Hb1 & Hb2).
  destruct (pos_skip a && (b =? 10)) eqn:E10.
  - eexists _, _. split; [reflexivity|]. cbn [fst pos_line]. repeat split.
    1-4: destruct (count_skipped_lf d); cbn; unfold sat_add64; lia || done.
    + by destruct (count_skipped_lf d).
    + apply andb_true_iff in E10 as [_ ->%Z.eqb_eq].
      apply utf8_valid_split in Hu as [Hu1 Hu2]; [|done]. by apply utf8_valid_app.
  - set (d0 := if pos_skip a then no_skip d else d) in *.
    destruct ((b =? 13) || (b =? 10)) eqn:Eb.
    + set (d1 := counted _ d0).
      assert (at_position d1 (mkPosition false (pos_line a) (pos_start a) (pos_block a))) as H1.
      { unfold d1, d0, counted. destruct (pos_skip a), (negb (is_emptyb (line d)));
          repeat split; cbn; auto. }
      assert (is_ascii_byte b = true) as Hasc by (unfold is_ascii_byte; lia).
      apply utf8_valid_split in Hu as [Hu1 Hu2]; [|done].
      assert (max_frames_per_push d1 = max_frames_per_push d) as Hmf
        by (unfold d1, d0, counted; by destruct (pos_skip a), (negb (is_emptyb (line d)))).
      destruct (process_line_succeeds fs d1 _ H1) as (d2 & fs2 & Hp & Hf2 & Hm2 & Hx2); auto.
      { rewrite Hmf. unfold pos_taken in *. cbn [pos_line pos_start pos_block].
        by destruct (block_line _ _). }
      pose proof (process_line_position _ _ _ _ _ H1 Hp) as Hpp. rewrite Hp.
      unfold pos_taken in *. cbn [pos_line pos_start pos_block] in *.
      destruct (block_line _ _) as [p new]. destruct Hpp as (_ & _ & Hfb).
      assert (frame_bytes d <= frame_bytes d1 <= frame_bytes d + 1 /\ failed d1 = failed d /\
        max_frame_bytes d1 = max_frame_bytes d) as (? & ? & ?).
      { unfold d1, d0, counted, sat_add64.
        destruct (pos_skip a), (negb (is_emptyb (line d))); cbn; repeat split; lia. }
      eexists _, _. split; [reflexivity|]. destruct (b =? 13); cbn [fst pos_line app];
        unfold has_budget; cbn; repeat split; try done; try congruence; lia.
    + eexists _, _. split; [reflexivity|]. cbn [fst pos_line].
      rewrite <- app_assoc. unfold has_budget, d0.
      destruct (pos_skip a); cbn; unfold sat_add64; repeat split; done || lia.
Qed.

Lemma push_loop_succeeds l : forall fs d a n,
  at_position d a -> has_budget (zlen l + n) d -> 0 <= n -> utf8_valid (pos_line a ++ l) = true ->
  zlen (fs ++ (pos_run a l).2) <= max_frames_per_push d ->
  exists d' fs', st_fold push_byte fs l d = (d', Ok fs') /\ has_budget n d' /\
    max_frames_per_push d' = max_frames_per_push d /\
    at_position d' (pos_run a l).1 /\ fs' = fs ++ (pos_run a l).2.
Proof.
  induction l as [|b l IH]; intros fs d a n Hd Hb Hn Hu Hlen.
  { exists d, fs. cbn. rewrite app_nil_r. split; [done|]. split; [|done].
    destruct Hb as (? & ? & ? & ?). cbn in *. by repeat split. }
  pose proof (zlen_nonneg l). rewrite zlen_cons in Hb.
  cbn [pos_run] in *. destruct (pos_step a b) as [a1 f1] eqn:Es.
  destruct (pos_run a1 l) as [a2 f2] eqn:Er. cbn [fst snd] in *.
  rewrite !zlen_app in Hlen. pose proof (zlen_nonneg f2).
  destruct (push_byte_succeeds fs b l d a (zlen l + n)) as (d1 & fs1 & Hp & Hb1 & Hm1 & Hu1); auto.
  { by rewrite Z.add_assoc. }
  { lia. }
  { rewrite Es, zlen_app. cbn. lia. }
  destruct (push_byte_position _ _ _ _ _ _ Hd Hp) as [Hd1 ->]. rewrite Es in *. cbn [fst snd] in *.
  destruct (IH (fs ++ f1) d1 a1 n) as (d2 & fs2 & Hp2 & Hb2 & Hm2 & Hd2 & ->); auto.
  { rewrite Er, Hm1, !zlen_app. cbn. lia. }
  rewrite Er in *. exists d2. eexists. split.
  { cbn [st_fold]. apply st_bind_Ok. eauto. }
  rewrite <- app_assoc. repeat split; try apply Hb2; try apply Hd2. congruence.
Qed.

(** ** Chunk boundaries *)

Lemma push_byte_frames fs b d d' fs' :
  push_byte fs b d = (d', Ok fs') ->
  exists new, fs' = fs ++ new /\ failed d' = failed d /\
    max_frames_per_push d' = max_frames_per_push d /\
    (new = [] \/ zlen fs' <= max_frames_per_push d) /\
    forall gs, new = [] \/ zlen (gs ++ new) <= max_frames_per_push d ->
      push_byte gs b d = (d', Ok (gs ++ new)).
Proof.
  setoid_rewrite push_byte_eq. cbv zeta.
  destruct (skip_lf d && (b =? 10)).
  { destruct (too_large _ _); [done|]. intros [= <- <-]. exists []. rewrite app_nil_r.
    repeat split; auto; try by destruct (count_skipped_lf d). intros gs _. by rewrite app_nil_r. }
  set (d0 := if skip_lf d then no_skip d else d).
  assert (failed d0 = failed d /\ max_frames_per_push d0 = max_frames_per_push d) as [Hf0 Hm0]
    by (subst d0; by destruct (skip_lf d)).
  destruct ((b =? 13) || (b =? 10)).
  - destruct (too_large _ _); [done|]. set (d1 := counted _ d0).
    assert (failed d1 = failed d /\ max_frames_per_push d1 = max_frames_per_push d) as [Hf1 Hm1]
      by (unfold d1, counted; by destruct (negb _)).
    destruct (process_line fs d1) as [d2 [fs2|e]] eqn:Ep; [|done].
    assert (failed d2 = failed d1 /\ max_frames_per_push d2 = max_frames_per_push d1) as [Hf2 Hm2].
    { clear -Ep. rewrite process_line_eq in Ep. unfold apply_field in Ep.
      repeat case_match; simplify_eq; done. }
    intros [= <- <-]. apply process_line_Ok in Ep as (new & -> & Hnew & Hgs).
    exists new. split; [done|]. split; [destruct (b =? 13); cbn; congruence|].
    split; [destruct (b =? 13); cbn; congruence|]. split.
    + destruct Hnew as [|(f & -> & ?)]; [by left|right]. rewrite zlen_app, zlen_cons. change (zlen []) with 0. lia.
    + intros gs Hg. rewrite Hgs; [done|].
      destruct Hnew as [->|(f & -> & ?)]; [by left|right].
      destruct Hg as [?|Hg]; [done|]. rewrite zlen_app, zlen_cons in Hg. change (zlen []) with 0 in Hg. lia.
  - destruct (too_large _ _); [done|]. intros [= <- <-]. exists []. rewrite app_nil_r.
    repeat split; auto. intros gs _. by rewrite app_nil_r.
Qed.

Lemma push_loop_frames l : forall fs d d' fs',
  st_fold push_byte fs l d = (d', Ok fs') ->
  exists new, fs' = fs ++ new /\ failed d' = failed d /\
    max_frames_per_push d' = max_frames_per_push d /\
    (new = [] \/ zlen fs' <= max_frames_per_push d) /\
    forall gs, new = [] \/ zlen (gs ++ new) <= max_frames_per_push d ->
      st_fold push_byte gs l d = (d', Ok (gs ++ new)).
Proof.
  induction l as [|b l IH]; intros fs d d' fs'.
  { cbn. intros [= <- <-]. exists []. rewrite app_nil_r. repeat split; auto.
    intros gs _. by rewrite app_nil_r. }
  cbn [st_fold]. intros (d1 & fs1 & H1 & H2)%st_bind_Ok.
  apply push_byte_frames in H1 as (n1 & -> & Hf1 & Hm1 & Hl1 & Hg1).
  apply IH in H2 as (n2 & -> & Hf2 & Hm2 & Hl2 & Hg2).
  exists (n1 ++ n2). rewrite app_assoc. do 3 (split; [congruence|]).
  rewrite Hm1 in *. split.
  { destruct Hl2 as [->|?]; [|by right]. rewrite !app_nil_r. exact Hl1. }
  intros gs Hgs. apply st_bind_Ok. exists d1, (gs ++ n1).
  rewrite app_assoc in Hgs. split.
  - apply Hg1. destruct Hgs as [[-> _]%app_eq_nil|Hgs]; [by left|right].
    rewrite zlen_app in Hgs. pose proof (zlen_nonneg n2). lia.
  - rewrite app_assoc. apply Hg2.
    destruct Hgs as [[_ ->]%app_eq_nil|Hgs]; [by left|by right].
Qed.

(** Many pushes succeed when one push of all their bytes does, and conversely
    when the frames fit the limit of one push. *)
Lemma push_all_of_one cs : forall d d' fs,
  failed d = false -> st_fold push_byte [] (concat cs) d = (d', Ok fs) ->
  push_all cs d = (d', Ok fs).
Proof.
  induction cs as [|c cs IH]; intros d d' fs Hf; cbn [concat push_all]; [done|].
  rewrite st_fold_app. intros (d1 & f1 & H1 & H2)%st_bind_Ok.
  pose proof (push_loop_frames _ _ _ _ _ H1) as (n1 & Hn1 & Hf1 & Hm1 & _ & _).
  apply push_loop_frames in H2 as (n2 & -> & _ & _ & Hl2 & Hg2).
  apply st_bind_Ok. exists d1, f1. split; [by apply push_Ok|].
  apply st_bind_Ok. exists d', n2. split; [|done].
  apply IH; [congruence|]. apply (Hg2 []).
  destruct Hl2 as [|Hl2]; [by left|right]. cbn. rewrite zlen_app in Hl2.
  pose proof (zlen_nonneg f1). lia.
Qed.

Lemma push_all_to_one cs : forall d d' fs,
  zlen fs <= max_frames_per_push d -> push_all cs d = (d', Ok fs) ->
  st_fold push_byte [] (concat cs) d = (d', Ok fs).
Proof.
  induction cs as [|c cs IH]; intros d d' fs Hlen; cbn [concat push_all]; [done|].
  intros (d1 & f1 & H1 & H2)%st_bind_Ok. apply push_Ok in H1 as [_ H1].
  apply st_bind_Ok in H2 as (d2 & f2 & H2 & H3). unfold st_ret in H3. simplify_eq.
  rewrite zlen_app in Hlen. pose proof (zlen_nonneg f1).
  rewrite st_fold_app. apply st_bind_Ok. exists d1, f1. split; [done|].
  pose proof (push_loop_frames _ _ _ _ _ H1) as (n1 & _ & _ & Hm1 & _ & _).
  apply IH in H2; [|lia]. apply push_loop_frames in H2 as (n2 & -> & _ & _ & _ & Hg2).
  apply Hg2. right. rewrite zlen_app. cbn in *. lia.
Qed.

(** ** What the decoder buffers *)

Definition opt_len (o : option (list Z)) : Z := match o with Some l => zlen l | None => 0 end.

Definition opt_utf8 (o : option (list Z)) : Prop :=
  match o with Some l => utf8_valid l = true | None => True end.

(** Bytes of stream text held by the decoder. *)
Definition buffered (d : SseDecoder) : Z := zlen (line d) + zlen (data d) + opt_len (event d).

Definition text_ok (d : SseDecoder) : Prop := utf8_valid (data d) = true /\ opt_utf8 (event d).

(** The counter bounds the buffers as long as no error occurred; the buffers
    stay bounded afterwards. *)
Definition decoder_ok (d : SseDecoder) : Prop :=
  buffered d <= frame_bytes d <= max_frame_bytes d /\ text_ok d.

Definition buffers_ok (d : SseDecoder) : Prop := buffered d <= max_frame_bytes d /\ text_ok d.

Definition frame_ok (limit : Z) (f : SseFrame) : Prop :=
  zlen (frame_data f) + opt_len (frame_event f) <= limit /\
  utf8_valid (frame_data f) = true /\ opt_utf8 (frame_event f).

Lemma split_colon_Some l f v :
  split_colon l = Some (f, v) -> l = f ++ 58 :: v.
Proof.
  revert f. induction l as [|b r IH]; intros f; cbn; [done|].
  destruct (b =? 58) eqn:E.
  - intros [= <- <-]. by apply Z.eqb_eq in E as ->.
  - destruct (split_colon r) as [[f' v']|]; [|done]. intros [= <- <-]. by rewrite (IH f').
Qed.

Lemma parse_field_spec l f v :
  parse_field l = (f, v) -> utf8_valid l = true ->
  zlen f + zlen v <= zlen l /\ utf8_valid v = true.
Proof.
  unfold parse_field. destruct (split_colon l) as [[f' v']|] eqn:E.
  - apply split_colon_Some in E as ->. intros [= -> <-] Hu.
    apply utf8_valid_split in Hu as [_ Hv]; [|done].
    rewrite zlen_app, zlen_cons.
    destruct v' as [|b r]; cbn [strip_space]; [split; [lia|done]|].
    rewrite zlen_cons. destruct (b =? 32) eqn:Eb; rewrite ?zlen_cons; split; auto; try lia.
    apply Z.eqb_eq in Eb as ->. by rewrite utf8_valid_ascii_cons in Hv.
  - intros [= -> <-] Hu. split; [change (zlen []) with 0; lia|done].
Qed.

Lemma strip_bom_len l : zlen (strip_bom l) <= zlen l.
Proof.
  destruct l as [|b0 [|b1 [|b2 r]]]; cbn [strip_bom]; try lia.
  destruct (_ && _); rewrite ?zlen_cons; lia.
Qed.

(** The bytes of a line and of its terminator, already counted, pay for what
    the line adds to the buffers. *)
Lemma process_line_buffers limit fs d :
  max_frame_bytes d = limit -> text_ok d ->
  buffered d <= limit -> (line d <> [] -> buffered d + 1 <= frame_bytes d) ->
  buffered d <= frame_bytes d <= limit -> Forall (frame_ok limit) fs ->
  let '(d', r) := process_line fs d in
  max_frame_bytes d' = limit /\ buffers_ok d' /\
  match r with
  | Ok fs' => decoder_ok d' /\ Forall (frame_ok limit) fs'
  | Err _ => True
  end.
Proof.
  intros Hm [Htd Hte] Hbm Hpay [Hb Hfb] Hfs. rewrite process_line_eq.
  pose proof (zlen_nonneg (line d)). pose proof (zlen_nonneg (data d)).
  assert (0 <= opt_len (event d)) by (destruct (event d); cbn; auto using zlen_nonneg with lia).
  assert (zlen (taken_line d) <= zlen (line d)) as Hlen.
  { unfold taken_line. destruct (at_stream_start d); [apply strip_bom_len|lia]. }
  unfold buffered in *.
  assert (buffers_ok (line_taken d)) as Hlt.
  { unfold buffers_ok, buffered, text_ok. cbn. change (zlen []) with 0. repeat split; auto; lia. }
  destruct (utf8_valid (taken_line d)) eqn:Hu; cbn [negb]; [|done].
  destruct (taken_line d) as [|b r] eqn:Et.
  - assert (buffers_ok (block_reset (line_taken d)) /\ decoder_ok (block_reset (line_taken d)))
      as [Hr1 Hr2].
    { unfold buffers_ok, decoder_ok, buffered, text_ok. cbn. change (zlen []) with 0.
      repeat split; lia. }
    destruct (saw_data d); [destruct (_ <=? _)|].
    + done.
    + do 3 (split; [done|]). apply Forall_app_2; [done|]. apply Forall_singleton.
      unfold frame_ok. cbn. repeat split; auto; lia.
    + done.
  - assert (line d <> []) as Hne.
    { intros Hl. rewrite Hl in Hlen. rewrite zlen_cons in Hlen. pose proof (zlen_nonneg r).
      change (zlen []) with 0 in Hlen. lia. }
    specialize (Hpay Hne).
    destruct (b =? 58).
    + unfold buffers_ok, decoder_ok, buffered, text_ok. cbn. change (zlen []) with 0.
      repeat split; auto; lia.
    + destruct (parse_field (b :: r)) as [f v] eqn:Ep.
      apply parse_field_spec in Ep as [Hfv Hv]; [|done]. pose proof (zlen_nonneg v).
      unfold apply_field. case_bool_decide as Hf; [|case_bool_decide as Hf2].
      * subst f. change (zlen field_event) with 5 in Hfv.
        unfold buffers_ok, decoder_ok, buffered, text_ok. cbn. change (zlen []) with 0.
        repeat split; auto; lia.
      * subst f. change (zlen field_data) with 4 in Hfv.
        unfold buffers_ok, decoder_ok, buffered, text_ok. cbn [saw_data line_taken set_line
          set_at_stream_start].
        destruct (saw_data d); cbn; change (zlen []) with 0; rewrite ?zlen_app;
          change (zlen [10]) with 1; repeat split; auto using utf8_valid_app; lia.
      * pose proof (zlen_nonneg f).
        unfold buffers_ok, decoder_ok, buffered, text_ok. cbn. change (zlen []) with 0.
        repeat split; auto; lia.
Qed.

Lemma counted_buffers n d :
  decoder_ok d -> max_frame_bytes d < u64_max -> too_large n d = false ->
  buffered d + (if n then 1 else 0) <= frame_bytes (counted n d) <= max_frame_bytes d /\
  max_frame_bytes (counted n d) = max_frame_bytes d /\ buffered (counted n d) = buffered d /\
  text_ok (counted n d) /\ line (counted n d) = line d.
Proof.
  unfold decoder_ok, too_large, counted, text_ok. intros [[? ?] [? ?]] ?.
  destruct n; cbn; unfold sat_add64; intros; repeat split; auto; lia.
Qed.

Lemma push_byte_buffers limit fs b d :
  decoder_ok d -> max_frame_bytes d = limit -> limit < u64_max -> Forall (frame_ok limit) fs ->
  let '(d', r) := push_byte fs b d in
  max_frame_bytes d' = limit /\ buffers_ok d' /\
  match r with
  | Ok fs' => decoder_ok d' /\ Forall (frame_ok limit) fs'
  | Err _ => True
  end.
Proof.
  intros Hd Hm Hlim Hfs. pose proof Hd as [[Hb Hfb] Ht]. rewrite push_byte_eq. cbv zeta.
  assert (forall d1, buffered d1 = buffered d -> text_ok d1 ->
    max_frame_bytes d1 = limit -> buffers_ok d1) as Hbuf.
  { intros d1 ? ? ?. split; [lia|done]. }
  destruct (skip_lf d && (b =? 10)).
  { destruct (too_large _ d) eqn:Etl.
    - split; [done|]. split; [by apply Hbuf|done].
    - destruct (counted_buffers _ _ Hd ltac:(lia) Etl) as (? & ? & ? & ? & ?).
      split; [by destruct (count_skipped_lf d)|]. split; [by apply Hbuf; destruct (count_skipped_lf d)|].
      split; [|done]. unfold decoder_ok, buffered, text_ok in *.
      destruct (count_skipped_lf d); cbn in *; repeat split; try apply Ht; lia. }
  set (d0 := if skip_lf d then no_skip d else d).
  assert (decoder_ok d0 /\ max_frame_bytes d0 = limit /\ buffered d0 = buffered d /\
    line d0 = line d /\ frame_bytes d0 = frame_bytes d) as (Hd0 & Hm0 & Hb0 & Hl0 & Hf0).
  { subst d0. destruct (skip_lf d); [|done]. split; [exact Hd|done]. }
  assert (forall n, too_large n d = too_large n d0) as Hl.
  { intros n. unfold too_large. by rewrite Hm0, Hm, Hf0. }
  rewrite !Hl. destruct ((b =? 13) || (b =? 10)).
  - destruct (too_large _ d0) eqn:Etl.
    { split; [done|]. split; [|done]. apply Hbuf; try apply Hd0; done. }
    destruct (counted_buffers _ _ Hd0 ltac:(lia) Etl) as (Hc1 & Hc2 & Hc3 & Hc4 & Hc5).
    pose proof (process_line_buffers limit fs (counted (negb (is_emptyb (line d))) d0)) as Hp.
    destruct (process_line fs _) as [d2 r]. destruct Hp as (Hp1 & Hp2 & Hp3); auto; try lia.
    { intros Hne. rewrite Hc5, Hl0 in Hne. destruct (line d); [done|]. cbn [is_emptyb negb] in *. lia. }
    { destruct (negb _); lia. }
    destruct r as [fs2|e]; [|done]. destruct Hp3 as [Hp3 Hp4].
    by destruct (b =? 13).
  - destruct (too_large true d0) eqn:Etl.
    { split; [done|]. split; [|done]. apply Hbuf; try apply Hd0; done. }
    destruct (counted_buffers _ _ Hd0 ltac:(lia) Etl) as (Hc1 & Hc2 & Hc3 & Hc4 & Hc5).
    assert (decoder_ok (set_line (line d ++ [b]) (counted true d0))) as Hok.
    { unfold decoder_ok. split; [|done]. unfold buffered in *. cbn in *.
      rewrite zlen_app. change (zlen [b]) with 1. rewrite Hl0 in Hc1. lia. }
    split; [by cbn|]. split; [|done]. destruct Hok as [[? ?] ?]. split; [lia|done].
Qed.

Lemma push_loop_buffers limit l : forall fs d,
  decoder_ok d -> max_frame_bytes d = limit -> limit < u64_max -> Forall (frame_ok limit) fs ->
  let '(d', r) := st_fold push_byte fs l d in
  max_frame_bytes d' = limit /\ buffers_ok d' /\
  match r with
  | Ok fs' => decoder_ok d' /\ Forall (frame_ok limit) fs'
  | Err _ => True
  end.
Proof.
  induction l as [|b l IH]; intros fs d Hd Hm Hlim Hfs.
  { cbn. repeat split; try apply Hd; try done. destruct Hd as [[? ?] ?]. lia. }
  cbn [st_fold]. unfold st_bind.
  pose proof (push_byte_buffers limit fs b d Hd Hm Hlim Hfs) as Hs.
  destruct (push_byte fs b d) as [d1 [fs1|e]]; [|done].
  destruct Hs as (Hm1 & _ & Hd1 & Hfs1). by apply IH.
Qed.

(** Decoders reachable through the public methods, whatever those return. *)
Inductive decoder_reaches (d0 : SseDecoder) : SseDecoder -> Prop :=
| reaches_new : decoder_reaches d0 d0
| reaches_push d chunk : decoder_reaches d0 d -> decoder_reaches d0 (push chunk d).1
| reaches_finish d : decoder_reaches d0 d -> decoder_reaches d0 (finish d).1.

Definition latched_ok (limit : Z) (d : SseDecoder) : Prop :=
  max_frame_bytes d = limit /\ buffers_ok d /\ (failed d = false -> decoder_ok d).

Lemma push_latched limit chunk d :
  limit < u64_max -> latched_ok limit d ->
  latched_ok limit (push chunk d).1 /\
  match (push chunk d).2 with Ok fs => Forall (frame_ok limit) fs | Err _ => failed (push chunk d).1 = true end.
Proof.
  intros Hlim (Hm & Hb & Hf). unfold push. destruct (failed d) eqn:Ef.
  { split; [|done]. by split; [|split; [|cbn; rewrite Ef]]. }
  pose proof (push_loop_buffers limit chunk [] d (Hf eq_refl) Hm Hlim (Forall_nil_2 _)) as Hs.
  unfold push_inner. destruct (st_fold push_byte [] chunk d) as [d1 [fs|e]].
  - destruct Hs as (? & ? & ? & ?). split; [by split|done].
  - destruct Hs as (? & ? & _). split; [|done]. split; [done|]. split; [done|]. done.
Qed.

Lemma finish_latched limit d : latched_ok limit d -> latched_ok limit (finish d).1.
Proof.
  intros (Hm & Hb & Hf). unfold finish. destruct (failed d) eqn:Ef.
  { by split; [|split; [|cbn; rewrite Ef]]. }
  destruct (_ || _); by split.
Qed.

Lemma reaches_latched limit frames d :
  0 <= limit < u64_max -> decoder_reaches (with_limits limit frames) d -> latched_ok limit d.
Proof.
  intros Hlim. induction 1 as [|d chunk _ IH|d _ IH].
  - split; [done|]. split; [|intros _]; unfold buffers_ok, decoder_ok, buffered, text_ok;
      cbn; change (zlen []) with 0; repeat split; lia.
  - by apply push_latched; [lia|].
  - by apply finish_latched.
Qed.

Lemma push_limit chunk d d' fs :
  0 <= max_frames_per_push d -> push chunk d = (d', Ok fs) -> zlen fs <= max_frames_per_push d.
Proof.
  intros H0 [_ H]%push_Ok. apply push_loop_frames in H as (new & -> & _ & _ & Hl & _).
  destruct Hl as [->|]; [|done]. done.
Qed.

Definition limits (d : SseDecoder) : Z * Z := (max_frame_bytes d, max_frames_per_push d).

Lemma push_byte_limits fs b d : limits (push_byte fs b d).1 = limits d.
Proof.
  rewrite push_byte_eq. cbv zeta.
  destruct (skip_lf d && (b =? 10)).
  { destruct (too_large _ d); [done|]. by destruct (count_skipped_lf d). }
  set (d0 := if skip_lf d then no_skip d else d).
  assert (limits d0 = limits d) as Hd0 by (subst d0; by destruct (skip_lf d)).
  destruct ((b =? 13) || (b =? 10)); [|by destruct (too_large _ d)].
  destruct (too_large _ d); [done|].
  assert (limits (process_line fs (counted (negb (is_emptyb (line d))) d0)).1 = limits d) as Hp.
  { rewrite process_line_eq. unfold apply_field, counted. rewrite <- Hd0.
    repeat case_match; simplify_eq; done. }
  destruct (process_line fs _) as [d2 [fs2|e]]; [|done]. by destruct (b =? 13).
Qed.

Lemma push_loop_limits l : forall fs d, limits (st_fold push_byte fs l d).1 = limits d.
Proof.
  induction l as [|b l IH]; intros fs d; [done|]. cbn [st_fold]. unfold st_bind.
  pose proof (push_byte_limits fs b d) as Hs.
  destruct (push_byte fs b d) as [d1 [fs1|e]]; [|done]. by rewrite IH.
Qed.

Lemma reaches_limits d0 d : decoder_reaches d0 d -> limits d = limits d0.
Proof.
  induction 1 as [|d chunk _ IH|d _ IH]; [done|..]; rewrite <- IH.
  - unfold push, push_inner. destruct (failed d); [done|].
    pose proof (push_loop_limits chunk [] d) as Hs.
    by destruct (st_fold push_byte [] chunk d) as [d1 [fs1|e]].
  - unfold finish. destruct (failed d); [done|]. by destruct (_ || _).
Qed.
