(* ===== verification/SseCorrect.v ===== *)
(** * Event streams: the decoder and the encoder are correct

    Any delivery of a stream in chunks yields the frames of the specification,
    the decoder's buffers stay within the frame limit, and what the encoder
    writes is read back. *)
From S2P Require Import Prelude Text Sse SseSpec.

(** Chunk boundaries do not matter.  When one way of cutting a stream into
    pushes is decoded without error, every other way of cutting the same bytes
    gives the same frames and leaves the decoder in the same state, as long as
    the frames fit the per-push limit. *)
Theorem sse_chunking_invariant d d' fs cs1 cs2 :
  failed d = false -> concat cs1 = concat cs2 -> zlen fs <= max_frames_per_push d ->
  push_all cs1 d = (d', Ok fs) -> push_all cs2 d = (d', Ok fs).
Proof.
  intros Hf Hcs Hlen H1. apply push_all_of_one; [done|].
  rewrite <- Hcs. by apply push_all_to_one.
Qed.

(** "event: a", CR LF, "data: x", LF, LF in two ways, cut inside the CR LF. *)
Definition demo_stream : list Z :=
  field_event ++ [58; 32; 97; 13; 10] ++ field_data ++ [58; 32; 120; 10; 10].

Definition demo_end : SseDecoder :=
  Eval vm_compute in (push_all [demo_stream] (with_limits 64 4)).1.

Lemma sse_chunking_invariant_witness :
  push_all [take 9 demo_stream; drop 9 demo_stream] (with_limits 64 4) =
    (demo_end, Ok [mkSseFrame (Some [97]) [120]]).
Proof.
  apply (sse_chunking_invariant (with_limits 64 4) demo_end [mkSseFrame (Some [97]) [120]]
    [demo_stream]); [reflexivity|vm_compute; reflexivity|vm_compute; discriminate|
    vm_compute; reflexivity].
Defined.

(** C8: the decoder implements the stream specification.  Whatever the chunks,
    a decoding without error returns exactly the frames of the concatenated
    bytes; and a UTF-8 stream that fits the byte limit and whose frames fit
    the frame limit is decoded without error. *)
Theorem sse_refines_stream max_frame max_frames chunks :
  (forall d' fs, push_all chunks (with_limits max_frame max_frames) = (d', Ok fs) ->
    fs = stream_frames (concat chunks)) /\
  (utf8_valid (concat chunks) = true -> zlen (concat chunks) <= max_frame < u64_max ->
   zlen (stream_frames (concat chunks)) <= max_frames ->
   exists d', push_all chunks (with_limits max_frame max_frames) =
     (d', Ok (stream_frames (concat chunks)))).
Proof.
  assert (at_position (with_limits max_frame max_frames) stream_start) as Hs by done.
  split.
  - intros d' fs H. apply push_all_position with (a := stream_start) in H as [_ ->]; [|done].
    apply pos_run_stream.
  - intros Hu Hlen Hfr. rewrite <- pos_run_stream in *.
    destruct (push_loop_succeeds (concat chunks) [] (with_limits max_frame max_frames)
      stream_start 0) as (d' & fs' & Hp & _ & _ & _ & ->); auto; try lia.
    { unfold has_budget. cbn -[Z.add]. repeat split; lia. }
    exists d'. by apply push_all_of_one.
Qed.

Lemma sse_refines_stream_witness :
  exists d', push_all [take 9 demo_stream; drop 9 demo_stream] (with_limits 64 4) =
    (d', Ok (stream_frames demo_stream)).
Proof.
  apply (sse_refines_stream 64 4 [take 9 demo_stream; drop 9 demo_stream]);
    [reflexivity|split; [vm_compute; discriminate|reflexivity]|vm_compute; discriminate].
Defined.

(** Memory and output bounds.  However the decoder was used before, errors
    included, it never holds more text than the frame limit, a push returns at
    most the allowed number of frames, each of them valid UTF-8 and within the
    frame limit, and a push that fails leaves the decoder refusing everything. *)
Theorem sse_bounded max_frame max_frames d chunk :
  0 <= max_frame < u64_max -> 0 <= max_frames ->
  decoder_reaches (with_limits max_frame max_frames) d ->
  buffered d <= max_frame /\
  match push chunk d with
  | (d', Ok fs) => zlen fs <= max_frames /\ Forall (frame_ok max_frame) fs
  | (d', Err _) => forall chunk', push chunk' d' = (d', Err DecoderFailed) /\
                                  finish d' = (d', Err DecoderFailed)
  end.
Proof.
  intros Hlim Hmf Hr. pose proof (reaches_latched _ _ _ Hlim Hr) as Hd.
  pose proof (reaches_limits _ _ Hr) as [= _ Hm].
  split. { destruct Hd as (<- & [? _] & _). done. }
  destruct (push_latched max_frame chunk d ltac:(lia) Hd) as [_ Hp].
  destruct (push chunk d) as [d' [fs|e]] eqn:Ep; cbn [fst snd] in Hp.
  - split; [|done]. rewrite <- Hm. eapply push_limit; [lia|done].
  - intros chunk'. unfold push, finish. by rewrite Hp.
Qed.

Lemma sse_bounded_witness :
  buffered (push [100; 97] (with_limits 16 4)).1 <= 16 /\
  match push [10; 10] (push [100; 97] (with_limits 16 4)).1 with
  | (d', Ok fs) => zlen fs <= 4 /\ Forall (frame_ok 16) fs
  | (d', Err _) => forall chunk', push chunk' d' = (d', Err DecoderFailed) /\
                                  finish d' = (d', Err DecoderFailed)
  end.
Proof.
  apply (sse_bounded 16 4 (push [100; 97] (with_limits 16 4)).1 [10; 10]);
    [split; [discriminate|reflexivity]|discriminate|].
  apply reaches_push, reaches_new.
Defined.

(** ** Reading back what the encoder writes *)

Lemma pos_run_text l : forall skip cur start p,
  has_line_break l = false -> l <> [] ->
  pos_run (mkPosition skip cur start p) l = (mkPosition false (cur ++ l) start p, []).
Proof.
  induction l as [|b l IH]; intros skip cur start p Hl Hne; [done|].
  cbn [has_line_break existsb] in Hl. apply orb_false_iff in Hl as [[H13 H10]%orb_false_iff Hl].
  cbn [pos_run]. unfold pos_step. cbn [pos_skip pos_line pos_start pos_block].
  rewrite H13, H10, andb_false_r. cbn [orb].
  destruct l as [|c l]; [done|]. rewrite IH by done. by rewrite <- app_assoc.
Qed.

Lemma has_line_break_app l k : has_line_break (l ++ k) = has_line_break l || has_line_break k.
Proof. apply existsb_app. Qed.

Section Roundtrip.
Context {Value : Type} (to_vec : Value -> list Z).

(** Compact JSON is UTF-8 text in which control characters are escaped. *)
Hypothesis to_vec_utf8 : forall v, utf8_valid (to_vec v) = true.
Hypothesis to_vec_line : forall v, has_line_break (to_vec v) = false.

Definition sent_event (e : option (list Z)) : option (list Z) :=
  match e with
  | Some name => if has_line_break name then None else Some name
  | None => None
  end.

Definition sent_frame (m : option (list Z) * Value) : SseFrame :=
  mkSseFrame (sent_event m.1) (to_vec m.2).

Definition sent_bytes (m : option (list Z) * Value) : list Z := encode_sse to_vec m.1 m.2.

(** The lines of one message, without the empty line that ends it. *)
Definition sent_lines (m : option (list Z) * Value) : list Z :=
  event_field m.1 ++ field_data ++ [58; 32] ++ to_vec m.2 ++ [10].

Lemma sent_bytes_lines m : sent_bytes m = sent_lines m ++ [10].
Proof. unfold sent_bytes, sent_lines, encode_sse. by rewrite <- !app_assoc. Qed.

Lemma pos_run_event_field e skip start :
  pos_run (mkPosition skip [] start empty_block) (event_field e) =
    (match sent_event e with
     | Some name => mkPosition false [] false (mkBlock (Some name) [])
     | None => mkPosition skip [] start empty_block
     end, []).
Proof.
  destruct e as [name|]; [|done]. cbn [event_field sent_event].
  destruct (has_line_break name) eqn:Hn; [done|].
  rewrite !app_assoc, pos_run_app, pos_run_text; [|by rewrite has_line_break_app, Hn|done].
  cbn [pos_run]. unfold pos_step, pos_taken.
  cbn [pos_skip pos_line pos_start pos_block andb orb Z.eqb Pos.eqb].
  change (([] ++ (field_event ++ [58; 32]) ++ name)) with (field_event ++ [58; 32] ++ name).
  replace (if start then strip_bom (field_event ++ [58; 32] ++ name)
           else field_event ++ [58; 32] ++ name) with (field_event ++ [58; 32] ++ name)
    by by destruct start.
  done.
Qed.

Lemma pos_run_sent m skip start :
  exists p, pos_run (mkPosition skip [] start empty_block) (sent_lines m) =
    (mkPosition false [] false p, []) /\ block_frame p = [sent_frame m].
Proof using to_vec_line.
  destruct m as [e v]. unfold sent_lines, sent_frame. cbn [fst snd].
  rewrite pos_run_app, pos_run_event_field.
  assert (forall skip start ev,
    pos_run (mkPosition skip [] start (mkBlock ev [])) (field_data ++ [58; 32] ++ to_vec v ++ [10])
      = (mkPosition false [] false (mkBlock ev [to_vec v]), [])) as Hrun.
  { clear e skip start. intros skip start ev.
    rewrite !app_assoc, pos_run_app, pos_run_text; [|by rewrite has_line_break_app, to_vec_line|done].
    cbn [pos_run]. unfold pos_step, pos_taken.
    cbn [pos_skip pos_line pos_start pos_block andb orb Z.eqb Pos.eqb].
    change (([] ++ (field_data ++ [58; 32]) ++ to_vec v)) with (field_data ++ [58; 32] ++ to_vec v).
    by destruct start. }
  unfold empty_block. destruct (sent_event e) as [name|]; rewrite Hrun; eexists;
    (split; [reflexivity|cbn; by rewrite app_nil_r]).
Qed.

(** Between two messages. *)
Definition between (limit frames : Z) (d : SseDecoder) : Prop :=
  failed d = false /\ frame_bytes d = 0 /\ max_frame_bytes d = limit /\
  max_frames_per_push d = frames /\
  exists skip start, at_position d (mkPosition skip [] start empty_block).

Lemma blank_line_resets fs d p d' fs' :
  at_position d (mkPosition false [] false p) -> push_byte fs 10 d = (d', Ok fs') ->
  frame_bytes d' = 0 /\ max_frame_bytes d' = max_frame_bytes d.
Proof.
  intros (Hk & Hl & Hst & _) Hp. rewrite push_byte_eq in Hp. cbv zeta in Hp.
  cbn [pos_skip pos_line pos_start] in *. rewrite Hk, Hl in Hp.
  cbn -[process_line] in Hp. rewrite process_line_eq in Hp.
  unfold taken_line in Hp. rewrite Hst, Hl in Hp. cbn -[zlen] in Hp.
  repeat case_match; simplify_eq; done.
Qed.

Lemma sent_utf8 m : opt_utf8 m.1 -> utf8_valid (sent_bytes m) = true.
Proof using to_vec_utf8.
  destruct m as [e v]. intros He. unfold sent_bytes, encode_sse. cbn [fst snd] in *.
  apply utf8_valid_app; [|apply (utf8_valid_app (field_data ++ [58; 32]));
    [done|by apply utf8_valid_app]].
  destruct e as [name|]; [|done]. cbn in *. destruct (has_line_break name); [done|].
  apply (utf8_valid_app (field_event ++ [58; 32])); [done|by apply utf8_valid_app].
Qed.

Lemma push_sent limit frames fs d m :
  between limit frames d -> limit < u64_max -> zlen (sent_bytes m) <= limit ->
  opt_utf8 m.1 -> zlen fs + 1 <= frames ->
  exists d', st_fold push_byte fs (sent_bytes m) d = (d', Ok (fs ++ [sent_frame m])) /\
    between limit frames d'.
Proof using to_vec_utf8 to_vec_line.
  intros (Hf & Hz & Hm & Hmf & skip & start & Hd) Hlim Hlen Hu Hfs.
  destruct (pos_run_sent m skip start) as (p & Hrun & Hblk).
  assert (pos_run (mkPosition skip [] start empty_block) (sent_bytes m) =
    (mkPosition false [] false empty_block, [sent_frame m])) as Hall.
  { rewrite sent_bytes_lines, pos_run_app, Hrun. cbn. by rewrite Hblk. }
  destruct (push_loop_succeeds (sent_bytes m) fs d _ 0 Hd) as (d' & fs' & Hp & Hb & Hmf' & Hd' & ->).
  { unfold has_budget. rewrite Hm, Hz. pose proof (zlen_nonneg (sent_bytes m)). repeat split; auto; lia. }
  { lia. }
  { cbn [pos_line app]. by apply sent_utf8. }
  { rewrite Hall, zlen_app. cbn [snd]. change (zlen [sent_frame m]) with 1. lia. }
  rewrite Hall in *. cbn [fst snd] in *. exists d'. split; [done|].
  rewrite sent_bytes_lines, st_fold_app in Hp. apply st_bind_Ok in Hp as (d1 & fs1 & H1 & H2).
  pose proof (push_loop_limits (sent_lines m) fs d) as [= Hm1 _]. rewrite H1 in Hm1. cbn in Hm1.
  apply push_loop_position with (a := mkPosition skip [] start empty_block) in H1 as [Hd1 _]; [|done].
  rewrite Hrun in Hd1. cbn [fst] in Hd1.
  cbn [st_fold] in H2. apply st_bind_Ok in H2 as (d2 & fs2 & H2 & H3). unfold st_ret in H3.
  simplify_eq. apply blank_line_resets with (p := p) in H2 as [Hz2 Hm2]; [|done].
  destruct Hb as (Hf' & _). repeat split; auto; try congruence. by exists false, false.
Qed.

Lemma push_sent_all limit frames ms : forall fs d,
  between limit frames d -> limit < u64_max ->
  Forall (fun m => zlen (sent_bytes m) <= limit /\ opt_utf8 m.1) ms ->
  zlen fs + zlen ms <= frames ->
  exists d', st_fold push_byte fs (concat (map sent_bytes ms)) d =
    (d', Ok (fs ++ map sent_frame ms)) /\ between limit frames d'.
Proof using to_vec_utf8 to_vec_line.
  induction ms as [|m ms IH]; intros fs d Hd Hlim Hms Hlen.
  { exists d. cbn. by rewrite app_nil_r. }
  apply Forall_cons_1 in Hms as [[Hm Hu] Hms]. rewrite zlen_cons in Hlen.
  pose proof (zlen_nonneg ms).
  destruct (push_sent limit frames fs d m) as (d1 & Hp & Hd1); auto; [lia|].
  destruct (IH (fs ++ [sent_frame m]) d1) as (d2 & Hp2 & Hd2); auto.
  { rewrite zlen_app. change (zlen [sent_frame m]) with 1. lia. }
  exists d2. split; [|done]. cbn [map concat]. rewrite st_fold_app.
  apply st_bind_Ok. exists d1, (fs ++ [sent_frame m]). split; [done|].
  rewrite Hp2, <- app_assoc. done.
Qed.
End Roundtrip.

(** C12: what the encoder writes, the decoder reads.  Messages whose names are
    UTF-8 and whose encodings fit the frame limit, written one after the other
    and delivered in any chunks, come back as the same names (one that holds a
    line break is not sent) and the same JSON texts, and the stream ends
    cleanly. *)
Theorem sse_roundtrip {Value} (to_vec : Value -> list Z) max_frame max_frames chunks ms :
  (forall v, utf8_valid (to_vec v) = true) -> (forall v, has_line_break (to_vec v) = false) ->
  max_frame < u64_max -> zlen ms <= max_frames ->
  Forall (fun m => zlen (encode_sse to_vec m.1 m.2) <= max_frame /\ opt_utf8 m.1) ms ->
  concat chunks = concat (map (fun m => encode_sse to_vec m.1 m.2) ms) ->
  exists d', push_all chunks (with_limits max_frame max_frames) =
      (d', Ok (map (fun m => mkSseFrame (sent_event m.1) (to_vec m.2)) ms)) /\
    (finish d').2 = Ok [].
Proof.
  intros Hv1 Hv2 Hlim Hlen Hms Hcs.
  destruct (push_sent_all to_vec Hv1 Hv2 max_frame max_frames ms []
    (with_limits max_frame max_frames)) as (d' & Hp & Hf & Hz & _ & _ & skip & start & Hd); auto.
  { repeat split; auto. by exists false, true. }
  exists d'. split.
  - apply push_all_of_one; [done|]. rewrite Hcs. exact Hp.
  - destruct Hd as (_ & Hl & _ & He & Hda & Hs). unfold finish. rewrite Hf. cbn in *.
    by rewrite Hl, He, Hda, Hs, Hz.
Qed.

(** A concrete serialiser: small numbers as one digit. *)
Definition demo_to_vec (v : bool) : list Z := if v then [49] else [48].

Definition demo_messages : list (option (list Z) * bool) := [(Some [97], true); (None, false); (Some [10], true)].

Lemma sse_roundtrip_witness :
  exists d', push_all [concat (map (fun m => encode_sse demo_to_vec m.1 m.2) demo_messages)]
      (with_limits 32 8) =
      (d', Ok (map (fun m => mkSseFrame (sent_event m.1) (demo_to_vec m.2)) demo_messages)) /\
    (finish d').2 = Ok [].
Proof.
  apply (sse_roundtrip demo_to_vec 32 8 [concat (map (fun m => encode_sse demo_to_vec m.1 m.2) demo_messages)]
    demo_messages).
  - by intros [].
  - by intros [].
  - reflexivity.
  - vm_compute. discriminate.
  - repeat constructor; vm_compute; discriminate.
  - reflexivity.
Defined.
