(* ===== verification/Affinity.v ===== *)
(** * Thread affinity (crates/wokcore-engine/src/affinity.rs)

    A bounded, sharded map from keyed digests of thread keys to accounts, with
    expiry and eviction.  SHA-256 is third-party code and a parameter: a
    function from byte strings to byte strings.  Entries live in a [gmap]
    keyed by digest; the shard mutexes make each method atomic per shard, so a
    method is one step on the table. *)
From S2P Require Import Prelude.

Definition MAX_AFFINITIES : Z := 4096.
Definition MAX_AFFINITY_TTL_MS : Z := 24 * 60 * 60 * 1000.
Definition MAX_AFFINITY_SHARDS : Z := 16.

Record AffinityEntry : Type := mkAffinityEntry {
  aff_account_id : string;
  expires_at_ms : Z;
  touched_sequence : Z
}.

Record AffinityShard : Type := mkAffinityShard {
  capacity : Z;
  entries : gmap (list Z) AffinityEntry
}.

Record AffinityTable : Type := mkAffinityTable {
  hash_key : list Z;
  ttl_ms : Z;
  maximum_entries : Z;
  aff_shards : list AffinityShard;
  touch_sequence : Z
}.

Inductive AffinityError : Type := AffinityInvalidPolicy.

Definition AffinityTable_new (key : list Z) (max_entries ttl : Z) : result AffinityError AffinityTable :=
  check? guard_err ((max_entries =? 0) || (MAX_AFFINITIES <? max_entries)
                    || (ttl =? 0) || (MAX_AFFINITY_TTL_MS <? ttl)) AffinityInvalidPolicy;
  let shard_count := Z.min max_entries MAX_AFFINITY_SHARDS in
  let base_capacity := max_entries / shard_count in
  let extra := max_entries mod shard_count in
  let shard index :=
    mkAffinityShard (base_capacity + (if Z.of_nat index <? extra then 1 else 0)) ∅ in
  Ok (mkAffinityTable key ttl max_entries (shard <$> seq 0 (Z.to_nat shard_count)) 0).

(** The eviction order [(expires_at_ms, touched_sequence, digest)]. *)
Fixpoint bytes_lt (l k : list Z) : bool :=
  match l, k with
  | [], [] => false
  | [], _ :: _ => true
  | _ :: _, [] => false
  | x :: l, y :: k => (x <? y) || ((x =? y) && bytes_lt l k)
  end.

Definition evicts_before (x y : list Z * AffinityEntry) : bool :=
  (expires_at_ms x.2 <? expires_at_ms y.2)
  || ((expires_at_ms x.2 =? expires_at_ms y.2)
      && ((touched_sequence x.2 <? touched_sequence y.2)
          || ((touched_sequence x.2 =? touched_sequence y.2) && bytes_lt x.1 y.1))).

(** [Iterator::min_by_key]: the keys are distinct, so the iteration order does
    not matter. *)
Definition min_entry (l : list (list Z * AffinityEntry)) : option (list Z * AffinityEntry) :=
  match l with
  | [] => None
  | x :: l => Some (fold_left (fun best y => if evicts_before y best then y else best) l x)
  end.

Definition evicted (m : gmap (list Z) AffinityEntry) : option (list Z) :=
  fst <$> min_entry (map_to_list m).

(** [entries.retain(|_, entry| entry.expires_at_ms > now_ms)] *)
Definition retain_live (now_ms : Z) (m : gmap (list Z) AffinityEntry) : gmap (list Z) AffinityEntry :=
  filter (fun kv => now_ms < expires_at_ms kv.2) m.

Definition set_shard (i : nat) (s : AffinityShard) (t : AffinityTable) : AffinityTable :=
  mkAffinityTable (hash_key t) (ttl_ms t) (maximum_entries t) (<[i := s]> (aff_shards t))
    (touch_sequence t).

(** [touch_sequence.fetch_add(1).saturating_add(1)] *)
Definition fetch_touch (t : AffinityTable) : AffinityTable * Z :=
  (mkAffinityTable (hash_key t) (ttl_ms t) (maximum_entries t) (aff_shards t)
     (wrap64 (touch_sequence t + 1)),
   sat_add64 (touch_sequence t) 1).

Definition shard_index (t : AffinityTable) (digest : list Z) : nat :=
  Z.to_nat (default 0 (head digest) mod zlen (aff_shards t)).

(** The locked shard; indexing an empty table would panic and is excluded by
    the constructor. *)
Definition lock_aff_shard (t : AffinityTable) (digest : list Z) : AffinityShard :=
  default (mkAffinityShard 0 ∅) (aff_shards t !! shard_index t digest).

Definition bind_shard (ttl : Z) (digest : list Z) (account_id : string) (now_ms sequence : Z)
    (shard : AffinityShard) : AffinityShard :=
  let live := retain_live now_ms (entries shard) in
  let entry := mkAffinityEntry account_id (sat_add64 now_ms ttl) sequence in
  match live !! digest with
  | Some _ => mkAffinityShard (capacity shard) (<[digest := entry]> live)
  | None =>
      let kept :=
        if capacity shard <=? Z.of_nat (size live) then
          match evicted live with
          | Some d => delete d live
          | None => live
          end
        else live in
      mkAffinityShard (capacity shard) (<[digest := entry]> kept)
  end.

Definition AffinityTable_len (t : AffinityTable) (now_ms : Z) : AffinityTable * Z :=
  let shards :=
    (fun s => mkAffinityShard (capacity s) (retain_live now_ms (entries s))) <$> aff_shards t in
  (mkAffinityTable (hash_key t) (ttl_ms t) (maximum_entries t) shards (touch_sequence t),
   foldr Z.add 0 ((fun s => Z.of_nat (size (entries s))) <$> shards)).

(** Little-endian bytes of a 64-bit length. *)
Fixpoint le_bytes (n : nat) (v : Z) : list Z :=
  match n with
  | O => []
  | S n => Z.land v 255 :: le_bytes n (Z.shiftr v 8)
  end.

Section Digest.
Context (sha256 : list Z -> list Z).

Definition affinity_domain : list Z := str_bytes "wokcore.affinity.v1" ++ [0].

Definition digest (t : AffinityTable) (thread_key : list Z) : list Z :=
  sha256 (affinity_domain ++ hash_key t ++ le_bytes 8 (zlen thread_key) ++ thread_key).

Definition AffinityTable_bind (t : AffinityTable) (thread_key : list Z) (account_id : string) (now_ms : Z)
    : AffinityTable :=
  let d := digest t thread_key in
  let '(t, sequence) := fetch_touch t in
  set_shard (shard_index t d) (bind_shard (ttl_ms t) d account_id now_ms sequence (lock_aff_shard t d)) t.

Definition AffinityTable_lookup (t : AffinityTable) (thread_key : list Z) (now_ms : Z)
    : AffinityTable * option string :=
  let d := digest t thread_key in
  let shard := lock_aff_shard t d in
  match entries shard !! d with
  | None => (t, None)
  | Some entry =>
      if expires_at_ms entry <=? now_ms then
        (set_shard (shard_index t d) (mkAffinityShard (capacity shard) (delete d (entries shard))) t, None)
      else
        let '(t, sequence) := fetch_touch t in
        let entry := mkAffinityEntry (aff_account_id entry) (expires_at_ms entry) sequence in
        (set_shard (shard_index t d)
           (mkAffinityShard (capacity shard) (<[d := entry]> (entries shard))) t,
         Some (aff_account_id entry))
  end.
End Digest.

(** ** Invariant *)

Definition shard_ok (s : AffinityShard) : Prop :=
  1 <= capacity s /\ Z.of_nat (size (entries s)) <= capacity s.

Record table_ok (t : AffinityTable) : Prop := {
  ok_shards : Forall shard_ok (aff_shards t);
  ok_total : foldr Z.add 0 (capacity <$> aff_shards t) = maximum_entries t;
  ok_max : 1 <= maximum_entries t <= MAX_AFFINITIES;
  ok_ttl : 1 <= ttl_ms t <= MAX_AFFINITY_TTL_MS;
  ok_nonempty : aff_shards t <> []
}.

Lemma shard_index_lt t d : aff_shards t <> [] -> (shard_index t d < length (aff_shards t))%nat.
Proof.
  intros Hne. unfold shard_index.
  assert (0 < zlen (aff_shards t)) by (destruct (aff_shards t); [done|]; rewrite zlen_cons;
    pose proof (zlen_nonneg l); lia).
  pose proof (Z.mod_pos_bound (default 0 (head d)) (zlen (aff_shards t)) ltac:(lia)).
  unfold zlen in *. lia.
Qed.

Lemma lock_aff_shard_Some t d :
  aff_shards t <> [] -> aff_shards t !! shard_index t d = Some (lock_aff_shard t d).
Proof.
  intros Hne. unfold lock_aff_shard.
  destruct (lookup_lt_is_Some_2 (aff_shards t) (shard_index t d)) as [s Hs];
    [by apply shard_index_lt|]. by rewrite Hs.
Qed.

Lemma size_retain_live now m : (size (retain_live now m) <= size m)%nat.
Proof.
  unfold retain_live. rewrite <- !size_dom. apply subseteq_size, dom_filter_subseteq.
Qed.

Lemma min_entry_elem l x : min_entry l = Some x -> x ∈ l.
Proof.
  destruct l as [|y l]; cbn; [done|]. intros [= <-]. revert y.
  induction l as [|z l IH]; intros y; cbn; [set_solver|].
  destruct (evicts_before z y); [pose proof (IH z)|pose proof (IH y)]; set_solver.
Qed.

Lemma evicted_Some m d : evicted m = Some d -> is_Some (m !! d).
Proof.
  unfold evicted. intros ([k v] & H & ->)%fmap_Some. apply min_entry_elem in H.
  apply elem_of_map_to_list in H. by exists v.
Qed.

Lemma evicted_None m : evicted m = None -> m = ∅.
Proof.
  unfold evicted. intros H%fmap_None. destruct (map_to_list m) eqn:E; [|done].
  by apply map_to_list_empty_iff.
Qed.

Lemma bind_shard_ok ttl d a now q s : shard_ok s -> shard_ok (bind_shard ttl d a now q s).
Proof.
  intros [Hc Hs]. unfold bind_shard. pose proof (size_retain_live now (entries s)).
  destruct (retain_live now (entries s) !! d) eqn:Ed.
  { split; [done|]. cbn [entries capacity]. rewrite map_size_insert, Ed. unfold id. lia. }
  split; [done|]. cbn [entries capacity]. rewrite map_size_insert.
  destruct (capacity s <=? Z.of_nat (size (retain_live now (entries s)))) eqn:Ec.
  - destruct (evicted (retain_live now (entries s))) as [e|] eqn:Ee.
    + apply evicted_Some in Ee as [v Hv]. rewrite lookup_delete_ne by congruence.
      rewrite Ed, map_size_delete, Hv.
      assert (size (retain_live now (entries s)) <> 0)%nat.
      { intros Hz%map_size_empty_inv. rewrite Hz in Hv. done. }
      rewrite Nat.succ_pred by done. lia.
    + apply evicted_None in Ee. rewrite Ee in *. rewrite map_size_empty in *. rewrite Ed. lia.
  - rewrite Ed. lia.
Qed.

Lemma bytes_lt_trans x : forall y z, bytes_lt x y = true -> bytes_lt y z = true -> bytes_lt x z = true.
Proof.
  induction x as [|a x IH]; intros [|b y] [|c z]; cbn; try done.
  rewrite !orb_true_iff, !andb_true_iff, !Z.ltb_lt, !Z.eqb_eq.
  intros [?|[-> ?]] [?|[-> ?]]; eauto; left; lia.
Qed.

Lemma evicts_before_trans x y z :
  evicts_before x y = true -> evicts_before y z = true -> evicts_before x z = true.
Proof.
  unfold evicts_before.
  rewrite !orb_true_iff, !andb_true_iff, !orb_true_iff, !andb_true_iff, !Z.ltb_lt, !Z.eqb_eq.
  intros [?|[? [?|[? ?]]]] [?|[? [?|[? ?]]]]; try (left; lia); right; (split; [lia|]);
    try (left; lia). right. split; [lia|]. eauto using bytes_lt_trans.
Qed.

Lemma bytes_lt_irrefl x : bytes_lt x x = false.
Proof. induction x as [|a x IH]; cbn; [done|]. rewrite IH, Z.ltb_irrefl. by destruct (a =? a). Qed.

Lemma evicts_before_irrefl x : evicts_before x x = false.
Proof. unfold evicts_before. rewrite !Z.ltb_irrefl, bytes_lt_irrefl, !andb_false_r. done. Qed.

(** The evicted entry is a minimum of the eviction order. *)
Lemma min_entry_min l x y : min_entry l = Some x -> y ∈ l -> evicts_before y x = false.
Proof.
  destruct l as [|z l]; cbn [min_entry]; [done|]. intros [= <-].
  revert y. cut (forall best, (forall y, y = best \/ y ∈ l ->
    evicts_before y (fold_left (fun best y => if evicts_before y best then y else best) l best) = false)
    /\ (evicts_before (fold_left (fun best y => if evicts_before y best then y else best) l best) best = true
        \/ fold_left (fun best y => if evicts_before y best then y else best) l best = best)).
  { intros H y Hy. apply (H z). set_solver. }
  induction l as [|w l IH]; intros best; cbn.
  { split; [|by right]. intros y [->|Hy]; [apply evicts_before_irrefl|set_solver]. }
  destruct (evicts_before w best) eqn:E.
  - destruct (IH w) as [Hmin Hle]. set (r := fold_left _ l w) in *.
    assert (evicts_before r best = true) as Hr.
    { destruct Hle as [Hle| ->]; [eauto using evicts_before_trans|done]. }
    split; [|by left]. intros y [->|[->|Hy]%elem_of_cons]; [|by apply Hmin; left|by apply Hmin; right].
    destruct (evicts_before best r) eqn:E2; [|done].
    pose proof (evicts_before_trans _ _ _ Hr E2). by rewrite evicts_before_irrefl in *.
  - destruct (IH best) as [Hmin Hle]. set (r := fold_left _ l best) in *.
    split; [|done]. intros y [->|[->|Hy]%elem_of_cons]; [by apply Hmin; left| |by apply Hmin; right].
    destruct (evicts_before w r) eqn:E2; [|done].
    destruct Hle as [Hle|Hle]; [|congruence].
    pose proof (evicts_before_trans _ _ _ E2 Hle). congruence.
Qed.

(** ** Steps *)
Section Steps.
Context (sha256 : list Z -> list Z).

Notation digest := (digest sha256).
Notation bind := (AffinityTable_bind sha256).
Notation lookup_affinity := (AffinityTable_lookup sha256).

(** One call of a public method; [keep d] forbids rebinding the digest [d]. *)
Inductive affinity_step (keep : list Z -> Prop) (t : AffinityTable) : AffinityTable -> Prop :=
| step_bind k a now : ~ keep (digest t k) -> affinity_step keep t (bind t k a now)
| step_lookup k now : affinity_step keep t (lookup_affinity t k now).1
| step_len now : affinity_step keep t (AffinityTable_len t now).1.

(** What every method keeps: the policy, the number of shards, their capacities. *)
Definition same_policy (t t' : AffinityTable) : Prop :=
  hash_key t' = hash_key t /\ ttl_ms t' = ttl_ms t /\ maximum_entries t' = maximum_entries t /\
  capacity <$> aff_shards t' = capacity <$> aff_shards t.

Lemma same_policy_length t t' : same_policy t t' -> length (aff_shards t') = length (aff_shards t).
Proof.
  intros (_ & _ & _ & H). by rewrite <- (length_fmap capacity), H, length_fmap.
Qed.

Lemma same_policy_index t t' d : same_policy t t' -> shard_index t' d = shard_index t d.
Proof. intros H%same_policy_length. unfold shard_index, zlen. by rewrite H. Qed.

Lemma same_policy_digest t t' k : same_policy t t' -> digest t' k = digest t k.
Proof. intros (H & _). unfold Affinity.digest. by rewrite H. Qed.

Lemma set_shard_policy i s s0 t t' :
  aff_shards t !! i = Some s0 -> capacity s = capacity s0 -> same_policy t t' ->
  aff_shards t' = aff_shards t -> same_policy t (set_shard i s t').
Proof.
  intros Hi Hc (H1 & H2 & H3 & _) H4. repeat split; cbn; auto.
  rewrite H4, list_fmap_insert. apply list_insert_id. rewrite list_lookup_fmap, Hi. cbn. congruence.
Qed.

Lemma bind_eq t k a now :
  bind t k a now =
    set_shard (shard_index t (digest t k))
      (bind_shard (ttl_ms t) (digest t k) a now (sat_add64 (touch_sequence t) 1)
         (lock_aff_shard t (digest t k))) (fetch_touch t).1.
Proof. reflexivity. Qed.

Lemma lookup_eq t k now :
  lookup_affinity t k now =
    let d := digest t k in
    let m := entries (lock_aff_shard t d) in
    let with_entries m := set_shard (shard_index t d) (mkAffinityShard (capacity (lock_aff_shard t d)) m) in
    match m !! d with
    | None => (t, None)
    | Some e =>
        if expires_at_ms e <=? now then (with_entries (delete d m) t, None)
        else (with_entries (<[d := mkAffinityEntry (aff_account_id e) (expires_at_ms e)
                                    (sat_add64 (touch_sequence t) 1)]> m) (fetch_touch t).1,
              Some (aff_account_id e))
    end.
Proof. reflexivity. Qed.

Lemma bind_shard_capacity ttl d a now q s : capacity (bind_shard ttl d a now q s) = capacity s.
Proof. unfold bind_shard. by case_match. Qed.

Lemma affinity_step_policy keep t t' :
  aff_shards t <> [] -> affinity_step keep t t' -> same_policy t t'.
Proof.
  intros Hne [k a now _|k now|now].
  - rewrite bind_eq.
    eapply set_shard_policy; [by apply lock_aff_shard_Some|apply bind_shard_capacity|by repeat split|done].
  - rewrite lookup_eq. cbv zeta. case_match eqn:E; [|by repeat split].
    destruct (_ <=? _); cbn [fst]; (eapply set_shard_policy; [by apply lock_aff_shard_Some|done|by repeat split|done]).
  - repeat split. cbn. rewrite <- list_fmap_compose. by apply list_fmap_ext.
Qed.

Lemma affinity_step_shards keep t t' :
  table_ok t -> affinity_step keep t t' -> Forall shard_ok (aff_shards t').
Proof.
  intros [Hs _ _ _ Hne]. intros [k a now _|k now|now].
  - rewrite bind_eq. cbn. apply Forall_insert; [done|]. apply bind_shard_ok.
    eapply Forall_lookup_1; [done|]. by apply lock_aff_shard_Some.
  - rewrite lookup_eq. cbv zeta. set (d := digest t k).
    assert (shard_ok (lock_aff_shard t d)) as [Hc Hsz]
      by (eapply Forall_lookup_1; [done|]; by apply lock_aff_shard_Some).
    case_match eqn:E; [|done]. destruct (_ <=? _); cbn; apply Forall_insert; auto; split; auto; cbn.
    + rewrite map_size_delete, E. lia.
    + rewrite map_size_insert, E. unfold id. lia.
  - cbn. apply list.Forall_fmap. apply list.Forall_forall. intros s Hin. apply list.Forall_forall with (x := s) in Hs as [? ?]; [|done].
    split; [done|]. cbn. pose proof (size_retain_live now (entries s)). lia.
Qed.

Lemma affinity_step_ok keep t t' : table_ok t -> affinity_step keep t t' -> table_ok t'.
Proof.
  intros Hok Hs. pose proof (affinity_step_shards _ _ _ Hok Hs) as Hsh.
  apply affinity_step_policy in Hs as Hp; [|apply Hok]. pose proof (same_policy_length _ _ Hp) as Hl.
  destruct Hp as (_ & Ht & Hm & Hc). destruct Hok as [_ Htot Hmax Httl Hne].
  constructor; rewrite ?Hm, ?Hc, ?Ht; auto.
  intros Hnil. rewrite Hnil in Hl. by destruct (aff_shards t).
Qed.

(** ** What a thread sees *)

Definition entry_at (t : AffinityTable) (d : list Z) : option AffinityEntry :=
  entries (lock_aff_shard t d) !! d.

Definition live_account (now : Z) (e : option AffinityEntry) : option string :=
  match e with
  | Some e => if now <? expires_at_ms e then Some (aff_account_id e) else None
  | None => None
  end.

Lemma lookup_result t k now :
  (lookup_affinity t k now).2 = live_account now (entry_at t (digest t k)).
Proof.
  rewrite lookup_eq. cbv zeta. unfold entry_at, live_account.
  destruct (entries _ !! _) as [e|]; [|done].
  rewrite Z.leb_antisym. by destruct (now <? expires_at_ms e).
Qed.

Lemma lock_set_shard t t' i s d :
  aff_shards t' = aff_shards t -> (i < length (aff_shards t))%nat ->
  lock_aff_shard (set_shard i s t') d = if decide (i = shard_index t d) then s else lock_aff_shard t d.
Proof.
  intros Hs Hi. unfold lock_aff_shard.
  assert (shard_index (set_shard i s t') d = shard_index t d) as ->.
  { unfold shard_index, set_shard. cbn. rewrite Hs. unfold zlen. by rewrite length_insert. }
  cbn. rewrite Hs. case_decide as Hd; subst.
  - by rewrite list_lookup_insert_eq.
  - by rewrite list_lookup_insert_ne.
Qed.

Lemma retain_live_lookup now m d :
  retain_live now m !! d = match m !! d with
                           | Some e => if now <? expires_at_ms e then Some e else None
                           | None => None
                           end.
Proof.
  unfold retain_live. destruct (m !! d) as [e|] eqn:E.
  - destruct (now <? expires_at_ms e) eqn:El.
    + apply map_lookup_filter_Some. split; [done|]. cbn. lia.
    + apply map_lookup_filter_None. right. intros x Hx. cbn. assert (x = e) by congruence. subst. lia.
  - apply map_lookup_filter_None. by left.
Qed.

(** The digest a bind pushes out of its shard, if any. *)
Definition bind_evicts (t : AffinityTable) (d : list Z) (now : Z) : option (list Z) :=
  let live := retain_live now (entries (lock_aff_shard t d)) in
  match live !! d with
  | Some _ => None
  | None =>
      if capacity (lock_aff_shard t d) <=? Z.of_nat (size live) then evicted live else None
  end.

Lemma bind_entry_same t k a now :
  aff_shards t <> [] ->
  exists q, entry_at (bind t k a now) (digest t k) =
    Some (mkAffinityEntry a (sat_add64 now (ttl_ms t)) q).
Proof.
  intros Hne. unfold entry_at. rewrite bind_eq.
  rewrite (lock_set_shard t) by (done || by apply shard_index_lt).
  rewrite decide_True by done. unfold bind_shard.
  case_match; cbn; rewrite lookup_insert_eq; eauto.
Qed.

Lemma bind_entry_other t k a now now' d :
  aff_shards t <> [] -> d <> digest t k -> now <= now' ->
  live_account now' (entry_at (bind t k a now) d) =
    (if bool_decide (shard_index t d = shard_index t (digest t k) /\
                     bind_evicts t (digest t k) now = Some d)
     then None else live_account now' (entry_at t d)).
Proof.
  intros Hne Hd Hnow. unfold entry_at. rewrite bind_eq.
  rewrite (lock_set_shard t) by (done || by apply shard_index_lt).
  case_decide as Hi.
  2:{ rewrite bool_decide_false; [done|]. intros [? _]. congruence. }
  assert (lock_aff_shard t d = lock_aff_shard t (digest t k)) as ->
    by (unfold lock_aff_shard; by rewrite Hi).
  unfold bind_shard, bind_evicts. set (s := lock_aff_shard t (digest t k)).
  assert (live_account now' (retain_live now (entries s) !! d) = live_account now' (entries s !! d)) as Hl.
  { rewrite retain_live_lookup. destruct (entries s !! d) as [e|]; [|done].
    destruct (now <? expires_at_ms e) eqn:El; [done|]. cbn.
    by rewrite (proj2 (Z.ltb_ge _ _)) by lia. }
  destruct (retain_live now (entries s) !! digest t k) eqn:Ek; cbn [entries].
  { rewrite lookup_insert_ne by done. rewrite bool_decide_false by naive_solver. done. }
  rewrite lookup_insert_ne by done.
  destruct (capacity s <=? _); [|rewrite bool_decide_false by naive_solver; done].
  destruct (evicted (retain_live now (entries s))) as [v|].
  - destruct (decide (v = d)) as [->|Hv].
    + rewrite lookup_delete_eq, bool_decide_true by done. done.
    + rewrite lookup_delete_ne, bool_decide_false by naive_solver. done.
  - rewrite bool_decide_false by naive_solver. done.
Qed.

(** No method but [bind] on the same digest can prolong an entry. *)
Lemma affinity_step_expiry keep t t' d limit :
  table_ok t -> affinity_step keep t t' -> keep d ->
  (forall e, entry_at t d = Some e -> expires_at_ms e <= limit) ->
  forall e, entry_at t' d = Some e -> expires_at_ms e <= limit.
Proof.
  intros Hok Hs Hkeep Hlim. pose proof (ok_nonempty _ Hok) as Hne.
  destruct Hs as [k a now Hk|k now|now].
  - assert (d <> digest t k) as Hd by congruence.
    unfold entry_at. rewrite bind_eq, (lock_set_shard t) by (done || by apply shard_index_lt).
    case_decide as Hi; [|exact Hlim].
    unfold entry_at, lock_aff_shard in Hlim. rewrite <- Hi in Hlim.
    fold (lock_aff_shard t (digest t k)) in Hlim.
    assert (forall e, retain_live now (entries (lock_aff_shard t (digest t k))) !! d = Some e ->
      expires_at_ms e <= limit) as Hr.
    { intros e. rewrite retain_live_lookup. case_match eqn:E; [|done].
      case_match; [|done]. intros [= <-]. by apply Hlim. }
    unfold bind_shard. intros e. repeat case_match; cbn [entries]; rewrite lookup_insert_ne by done; auto.
    rewrite lookup_delete_Some. intros [_ ?]. auto.
  - rewrite lookup_eq. cbv zeta. case_match eqn:E; [|exact Hlim]. unfold entry_at.
    destruct (expires_at_ms a <=? now); cbn [fst];
      rewrite (lock_set_shard t) by (done || by apply shard_index_lt);
      (case_decide as Hi; [|exact Hlim]);
      unfold entry_at, lock_aff_shard in Hlim; rewrite <- Hi in Hlim;
      fold (lock_aff_shard t (digest t k)) in Hlim; intros e; cbn [entries].
    + rewrite lookup_delete_Some. intros [_ ?]. auto.
    + rewrite lookup_insert_Some. intros [[<- <-]|[_ ?]]; cbn; auto.
  - intros e. unfold entry_at, lock_aff_shard. 
    assert (shard_index (AffinityTable_len t now).1 d = shard_index t d) as ->.
    { unfold shard_index. cbn. unfold zlen. by rewrite length_fmap. }
    cbn. rewrite list_lookup_fmap. unfold entry_at, lock_aff_shard in Hlim.
    destruct (aff_shards t !! shard_index t d) as [s|]; [|done]. cbn in *.
    rewrite retain_live_lookup. case_match eqn:E; [|done]. case_match; [|done].
    intros [= <-]. by apply Hlim.
Qed.

Lemma steps_policy keep t t' : table_ok t -> rtc (affinity_step keep) t t' -> table_ok t' /\ same_policy t t'.
Proof.
  intros Hok Hr. induction Hr as [t|t t1 t2 Hs _ IH]; [split; [done|by repeat split]|].
  pose proof (affinity_step_ok _ _ _ Hok Hs) as Hok1.
  apply affinity_step_policy in Hs as (H1 & H2 & H3 & H4); [|apply Hok].
  destruct (IH Hok1) as (? & ? & ? & ? & ?). split; [done|]. repeat split; congruence.
Qed.

Lemma steps_expiry keep t t' d limit :
  table_ok t -> rtc (affinity_step keep) t t' -> keep d ->
  (forall e, entry_at t d = Some e -> expires_at_ms e <= limit) ->
  forall e, entry_at t' d = Some e -> expires_at_ms e <= limit.
Proof.
  intros Hok Hr Hk. induction Hr as [t|t t1 t2 Hs _ IH]; [done|]. intros Hlim.
  apply IH; [by eapply affinity_step_ok|]. by eapply affinity_step_expiry.
Qed.
End Steps.

Lemma sum_capacities base extra n :
  foldr Z.add 0 ((fun i => base + (if Z.of_nat i <? extra then 1 else 0)) <$> seq 0 n) =
    Z.of_nat n * base + Z.min (Z.of_nat n) (Z.max extra 0).
Proof.
  induction n as [|n IH]; [cbn; lia|].
  rewrite seq_S, fmap_app, foldr_app. cbn [fmap list_fmap foldr].
  assert (forall l a, foldr Z.add a l = foldr Z.add 0 l + a) as Hshift.
  { clear. intros l a. induction l as [|x l IHl]; cbn; lia. }
  rewrite Hshift, IH. destruct (Z.ltb_spec (Z.of_nat (0 + n)) extra); lia.
Qed.

Lemma AffinityTable_new_ok key n ttl t :
  0 <= n -> 0 <= ttl -> AffinityTable_new key n ttl = Ok t ->
  table_ok t /\ maximum_entries t = n /\ ttl_ms t = ttl.
Proof.
  intros Hn Httl. unfold AffinityTable_new. intros (_ & Hg%guard_err_Ok & [= <-])%result_bind_Ok.
  rewrite !orb_false_iff, !Z.eqb_neq, !Z.ltb_ge in Hg. destruct Hg as [[[Hn0 Hmax] Ht0] Htmax].
  set (c := Z.min n MAX_AFFINITY_SHARDS) in *.
  assert (1 <= c <= n /\ c <= 16) as [Hc Hc16] by (unfold c, MAX_AFFINITY_SHARDS; lia).
  pose proof (Z.div_mod n c ltac:(lia)) as Hdm. pose proof (Z.mod_pos_bound n c ltac:(lia)) as Hmb.
  assert (1 <= n / c) by (apply Z.div_le_lower_bound; lia).
  split; [|done]. constructor; cbn; try lia.
  - apply list.Forall_fmap, list.Forall_forall. intros i _. split; cbn.
    + destruct (_ <? _); lia.
    + rewrite map_size_empty. destruct (_ <? _); lia.
  - rewrite <- list_fmap_compose.
    rewrite (list_fmap_ext _ (fun i => n / c + (if Z.of_nat i <? n mod c then 1 else 0))) by done.
    rewrite sum_capacities. rewrite Z2Nat.id by lia. nia.
  - destruct (Z.to_nat c) eqn:E; [lia|]. done.
Qed.

Lemma len_le_total t now :
  Forall shard_ok (aff_shards t) ->
  0 <= (AffinityTable_len t now).2 <= foldr Z.add 0 (capacity <$> aff_shards t).
Proof.
  unfold AffinityTable_len. cbn. induction 1 as [|s l [Hc Hs] _ IH]; cbn in *; [lia|].
  pose proof (size_retain_live now (entries s)). lia.
Qed.

(** ** Claims *)

(** The table is bounded.  In every table reached from [new] by any sequence
    of method calls, each shard holds at most its capacity, the capacities sum
    to the configured maximum, and so the number of live affinities reported
    at any time is at most that maximum. *)
Theorem affinity_bounded sha256 key n ttl t0 t now :
  0 <= n -> 0 <= ttl -> AffinityTable_new key n ttl = Ok t0 ->
  rtc (affinity_step sha256 (fun _ => False)) t0 t ->
  table_ok t /\ 0 <= (AffinityTable_len t now).2 <= n /\ n <= MAX_AFFINITIES.
Proof.
  intros Hn Httl (Hok & Hmax & _)%AffinityTable_new_ok Hr; auto.
  apply steps_policy in Hr as [Hok' (_ & _ & Hm & _)]; [|done].
  split; [done|]. destruct Hok' as [Hs Htot Hmx _ _]. rewrite Hm, Hmax in *.
  rewrite <- Htot at 1. split; [by apply len_le_total|lia].
Qed.

(** A stand-in for the digest: the last byte of the hashed text. *)
Definition demo_sha256 (l : list Z) : list Z := [List.last l 0].

Definition demo_affinity : AffinityTable :=
  Eval vm_compute in
    match AffinityTable_new [] 2 1000 with Ok t => t | Err _ => mkAffinityTable [] 0 0 [] 0 end.

Lemma affinity_bounded_witness :
  let t := AffinityTable_bind demo_sha256 demo_affinity [5] "acct" 10 in
  table_ok t /\ 0 <= (AffinityTable_len t 20).2 <= 2 /\ 2 <= MAX_AFFINITIES.
Proof.
  apply (affinity_bounded demo_sha256 [] 2 1000 demo_affinity); [lia|lia|reflexivity|].
  apply rtc_once. constructor. intros [].
Defined.

(** Binding is seen by lookups, until it expires, and harms no other
    thread but the one evicted.  After [bind key account now], a lookup of the
    key returns the account exactly before [now + ttl]; a thread with another
    digest sees what it saw before, unless the bind evicted it, which happens
    only when its shard is full of live entries and it is the first in the
    eviction order of that shard. *)
Theorem affinity_bind_lookup sha256 t key account now now' :
  table_ok t -> now <= now' ->
  let t' := AffinityTable_bind sha256 t key account now in
  let d := digest sha256 t key in
  (AffinityTable_lookup sha256 t' key now').2 =
    (if now' <? sat_add64 now (ttl_ms t) then Some account else None) /\
  forall key2, digest sha256 t key2 <> d ->
    (AffinityTable_lookup sha256 t' key2 now').2 = (AffinityTable_lookup sha256 t key2 now').2 \/
    (let live := retain_live now (entries (lock_aff_shard t d)) in
     capacity (lock_aff_shard t d) <= Z.of_nat (size live) /\
     exists e, live !! digest sha256 t key2 = Some e /\
       forall d3 e3, live !! d3 = Some e3 ->
         evicts_before (d3, e3) (digest sha256 t key2, e) = false).
Proof.
  intros Hok Hnow t' d. pose proof (ok_nonempty _ Hok) as Hne.
  assert (same_policy t t') as Hp.
  { apply (affinity_step_policy sha256 (fun _ => False)); [done|]. constructor. intros []. }
  split.
  - rewrite lookup_result, (same_policy_digest sha256 _ _ _ Hp).
    destruct (bind_entry_same sha256 t key account now Hne) as [q Hq].
    unfold t'. rewrite Hq. done.
  - intros key2 Hd2. rewrite !lookup_result, (same_policy_digest sha256 _ _ _ Hp).
    unfold t'. rewrite bind_entry_other by done. fold d.
    case_bool_decide as Hb; [|by left]. right. cbv zeta. destruct Hb as [_ Hb].
    unfold bind_evicts in Hb. case_match; [done|].
    destruct (capacity (lock_aff_shard t d) <=? _) eqn:Ec; [|done]. split; [lia|].
    unfold evicted in Hb. apply fmap_Some in Hb as ([k2 e] & Hmin & Hk2). cbn in Hk2. subst k2.
    exists e. split; [by apply elem_of_map_to_list, min_entry_elem|].
    intros d3 e3 H3. eapply min_entry_min; [done|]. by apply elem_of_map_to_list.
Qed.

Lemma affinity_bind_lookup_witness :
  let t' := AffinityTable_bind demo_sha256 demo_affinity [5] "acct" 10 in
  (AffinityTable_lookup demo_sha256 t' [5] 1009).2 = Some "acct"%string /\
  (AffinityTable_lookup demo_sha256 t' [5] 1010).2 = None.
Proof.
  assert (table_ok demo_affinity) as Hok.
  { apply (AffinityTable_new_ok [] 2 1000); [lia|lia|reflexivity]. }
  split; apply (affinity_bind_lookup demo_sha256 demo_affinity [5] "acct" 10); done || lia.
Defined.

(** Affinities expire.  Whatever calls follow a [bind] at [now], lookups
    included, as long as the same thread is not bound again, a lookup of it at
    or after [now + ttl] finds nothing. *)
Theorem affinity_expires sha256 t key account now t' now' :
  table_ok t -> let t1 := AffinityTable_bind sha256 t key account now in
  rtc (affinity_step sha256 (fun d => d = digest sha256 t key)) t1 t' ->
  sat_add64 now (ttl_ms t) <= now' ->
  (AffinityTable_lookup sha256 t' key now').2 = None.
Proof.
  intros Hok t1 Hr Hnow. pose proof (ok_nonempty _ Hok) as Hne.
  assert (affinity_step sha256 (fun _ => False) t t1) as Hs by (constructor; intros []).
  pose proof (affinity_step_ok _ _ _ _ Hok Hs) as Hok1.
  pose proof (affinity_step_policy _ _ _ _ Hne Hs) as Hp.
  pose proof (steps_policy _ _ _ _ Hok1 Hr) as [_ Hp'].
  rewrite lookup_result, (same_policy_digest sha256 _ _ _ Hp'), (same_policy_digest sha256 _ _ _ Hp).
  destruct (entry_at t' (digest sha256 t key)) as [e|] eqn:He; [|done].
  assert (expires_at_ms e <= sat_add64 now (ttl_ms t)) as Hexp.
  { eapply steps_expiry; [exact Hok1|exact Hr|reflexivity| |exact He].
    destruct (bind_entry_same sha256 t key account now Hne) as [q Hq].
    unfold t1. intros e' He'. rewrite Hq in He'. by simplify_eq. }
  cbn. by rewrite (proj2 (Z.ltb_ge _ _)) by lia.
Qed.

Lemma affinity_expires_witness :
  let t1 := AffinityTable_bind demo_sha256 demo_affinity [5] "acct" 10 in
  (AffinityTable_lookup demo_sha256 (AffinityTable_lookup demo_sha256 t1 [5] 900).1 [5] 1010).2 = None.
Proof.
  assert (table_ok demo_affinity) as Hok.
  { apply (AffinityTable_new_ok [] 2 1000); [lia|lia|reflexivity]. }
  apply (affinity_expires demo_sha256 demo_affinity [5] "acct" 10); [done| |vm_compute; discriminate].
  apply rtc_once. constructor.
Defined.
