(* ===== verification/Execution.v ===== *)
(** * Retry policy (crates/wokcore-engine/src/retry.rs) *)
From S2P Require Import Prelude.
From S2P Require Import Accounts.

Definition MAX_TOTAL_ATTEMPTS : Z := 2.
Definition MAX_RETRY_DELAY_MS : Z := 60000.
Definition MAX_RETAINED_REQUEST_BODY_BYTES : Z := 16 * 1024 * 1024.

Inductive RetryClass : Set := ClassRateLimited | ClassTemporary | ClassNever.

#[global] Instance RetryClass_eq_dec : EqDecision RetryClass.
Proof. solve_decision. Defined.

Record RetryPolicy : Set := mkRetryPolicy {
  base_delay_ms : Z;
  maximum_delay_ms : Z;
  maximum_body_bytes : Z
}.

Inductive RetryPolicyError : Set := RetryInvalidPolicy.

Definition RetryPolicy_new (base maximum body : Z) : result RetryPolicyError RetryPolicy :=
  if (base =? 0) || (maximum <? base) || (MAX_RETRY_DELAY_MS <? maximum)
     || (body =? 0) || (MAX_RETAINED_REQUEST_BODY_BYTES <? body)
  then Err RetryInvalidPolicy
  else Ok (mkRetryPolicy base maximum body).

Definition delay_ms (p : RetryPolicy) (class : RetryClass) (server_hint_ms : option Z) : option Z :=
  match class with
  | ClassNever => None
  | ClassRateLimited =>
      Some (Z.max (base_delay_ms p) (Z.min (default 0 server_hint_ms) (maximum_delay_ms p)))
  | ClassTemporary => Some (base_delay_ms p)
  end.

Definition retry_policy_ok (p : RetryPolicy) : Prop :=
  0 < base_delay_ms p <= maximum_delay_ms p /\ maximum_delay_ms p <= MAX_RETRY_DELAY_MS /\
  0 < maximum_body_bytes p <= MAX_RETAINED_REQUEST_BODY_BYTES.

Lemma RetryPolicy_new_ok b m n p :
  0 <= b -> 0 <= n -> RetryPolicy_new b m n = Ok p -> retry_policy_ok p.
Proof.
  unfold RetryPolicy_new, retry_policy_ok. intros Hb Hn.
  destruct (_ || _) eqn:E; [done|]. intros [= <-]. cbn.
  rewrite !orb_false_iff in E. destruct E as [[[[? ?] ?] ?] ?]. repeat split; lia.
Qed.

(** A delay lies between the base and the maximum; hints cannot push it out. *)
Lemma delay_ms_bounds p class hint d :
  retry_policy_ok p -> delay_ms p class hint = Some d ->
  base_delay_ms p <= d <= maximum_delay_ms p /\ class <> ClassNever.
Proof.
  intros (Hb & _ & _). destruct class; cbn; intros [= <-]; (split; [lia|done]).
Qed.

(** * Request execution (crates/wokcore-engine/src/execution.rs)

    The coordinator that runs a request against an upstream with at most one
    retry.  The account health table is seen through an interface (a type
    class), the upstream, the clock, the retry delay, cancellation and the
    concurrent users of the health table through an environment that answers
    at each point where the code reads or awaits them. *)

(** ** Data *)

Inductive InvalidExecutionRequestId : Set := mkInvalidExecutionRequestId.

(** [ExecutionRequestId::new]: 1 to 128 bytes of letters, digits, [-_.] *)
Definition ExecutionRequestId_new (value : string) : result InvalidExecutionRequestId string :=
  let ok b := is_ascii_alphanumeric b || (b =? 45) || (b =? 95) || (b =? 46) in
  if str_is_empty value || (128 <? str_len value) || negb (forallb ok (str_bytes value))
  then Err mkInvalidExecutionRequestId
  else Ok value.

Record AttemptId : Set := mkAttemptId { attempt_request_id : string; ordinal : Z }.

Inductive AttemptBoundary : Set := BeforeVisible | Visible.

#[global] Instance AttemptBoundary_eq_dec : EqDecision AttemptBoundary.
Proof. solve_decision. Defined.

Inductive AttemptFailureKind : Set :=
| FailRateLimited | FailServer | FailTimeout | FailReset
| FailInvalidCredentials | FailInvalidRequest | FailPolicy | FailOther.

Record AttemptFailure : Set := mkAttemptFailure {
  failure_kind : AttemptFailureKind;
  failure_status_code : option Z;
  failure_retry_after_ms : option Z
}.

Definition AttemptFailure_new (kind : AttemptFailureKind) (status_code retry_after_ms : option Z)
    : AttemptFailure :=
  let keep :=
    match status_code with
    | Some c => if (100 <=? c) && (c <=? 599) then Some c else None
    | None => None
    end in
  mkAttemptFailure kind keep retry_after_ms.

Definition retry_class (f : AttemptFailure) : RetryClass :=
  match failure_kind f with
  | FailRateLimited => ClassRateLimited
  | FailServer | FailTimeout | FailReset => ClassTemporary
  | FailInvalidCredentials | FailInvalidRequest | FailPolicy | FailOther => ClassNever
  end.

Inductive AttemptResult (T : Type) : Type :=
| AttemptSucceeded (output : T) (boundary : AttemptBoundary)
| AttemptFailed (failure : AttemptFailure) (boundary : AttemptBoundary).
Arguments AttemptSucceeded {T} _ _.
Arguments AttemptFailed {T} _ _.

Record ExecutionCandidate : Set := mkExecutionCandidate {
  exec_account_id : string;
  exec_authentication : AccountAuthentication;
  exec_weight : Z
}.

Definition ExecutionCandidate_new (id : string) (auth : AccountAuthentication) (weight : Z)
    : result AccountStateError ExecutionCandidate :=
  let? _ := AccountCandidate_new id auth weight in
  Ok (mkExecutionCandidate id auth weight).

(** [None] is the panic of the [expect]. *)
Definition as_account_candidate (c : ExecutionCandidate) : option AccountCandidate :=
  match AccountCandidate_new (exec_account_id c) (exec_authentication c) (exec_weight c) with
  | Ok c => Some c
  | Err _ => None
  end.

Record ExecutionRequest : Type := mkExecutionRequest {
  request_id : string;
  provider_id : string;
  model : string;
  candidates : list ExecutionCandidate;
  authentication : AccountAuthentication;
  accountless_account_id : option string;
  affinity_account : option string;
  body : list Z
}.

Definition ExecutionRequest_new (id provider model : string) (candidates : list ExecutionCandidate)
    (auth : AccountAuthentication) (affinity : option string) (body : list Z) : ExecutionRequest :=
  mkExecutionRequest id provider model candidates auth None affinity body.

Definition new_accountless (id provider model account : string) (body : list Z) : ExecutionRequest :=
  mkExecutionRequest id provider model [] Local (Some account) None body.

Record AttemptContext : Set := mkAttemptContext {
  ctx_request_id : string;
  ctx_attempt_id : AttemptId;
  ctx_provider_id : string;
  ctx_account_id : string;
  ctx_model : string
}.

Inductive AttemptDiagnosticOutcome : Set :=
| DiagnosticSucceeded (boundary : AttemptBoundary)
| DiagnosticFailed (kind : AttemptFailureKind) (status_code : option Z) (boundary : AttemptBoundary).

Record AttemptDiagnostic : Set := mkAttemptDiagnostic {
  diag_request_id : string;
  diag_attempt_id : AttemptId;
  diag_provider_id : string;
  diag_account_id : string;
  diag_outcome : AttemptDiagnosticOutcome
}.

Definition AttemptDiagnostic_success (r : ExecutionRequest) (account : string) (id : AttemptId)
    (b : AttemptBoundary) : AttemptDiagnostic :=
  mkAttemptDiagnostic (request_id r) id (provider_id r) account (DiagnosticSucceeded b).

Definition AttemptDiagnostic_failure (r : ExecutionRequest) (account : string) (id : AttemptId)
    (f : AttemptFailure) (b : AttemptBoundary) : AttemptDiagnostic :=
  mkAttemptDiagnostic (request_id r) id (provider_id r) account
    (DiagnosticFailed (failure_kind f) (failure_status_code f) b).

(** The fixed array of attempt diagnostics. *)
Record AttemptHistory : Set := mkAttemptHistory {
  history_entries : list (option AttemptDiagnostic);
  history_length : Z
}.

Definition AttemptHistory_default : AttemptHistory :=
  mkAttemptHistory (replicate (Z.to_nat MAX_TOTAL_ATTEMPTS) None) 0.

Definition AttemptHistory_push (h : AttemptHistory) (d : AttemptDiagnostic) : AttemptHistory :=
  if history_length h <? zlen (history_entries h) then
    mkAttemptHistory (<[Z.to_nat (history_length h) := Some d]> (history_entries h))
      (history_length h + 1)
  else h.

(** [None] is the panic of the [expect] on an empty slot. *)
Definition AttemptHistory_iter (h : AttemptHistory) : option (list AttemptDiagnostic) :=
  mapM id (take (Z.to_nat (history_length h)) (history_entries h)).

Inductive ExecutionTerminal : Set :=
| TerminalCancelled
| TerminalRequestBodyTooLarge
| TerminalNoEligibleAccount
| TerminalUpstream (failure : AttemptFailure) (boundary : AttemptBoundary).

Inductive ExecutionOutcome (T : Type) : Type :=
| ExecutionSucceeded (output : T) (boundary : AttemptBoundary) (history : AttemptHistory)
| ExecutionFailed (terminal : ExecutionTerminal) (history : AttemptHistory).
Arguments ExecutionSucceeded {T} _ _ _.
Arguments ExecutionFailed {T} _ _.

Definition outcome_history {T} (o : ExecutionOutcome T) : AttemptHistory :=
  match o with
  | ExecutionSucceeded _ _ h => h
  | ExecutionFailed _ h => h
  end.

(** ** The health table as the coordinator uses it *)
Class AccountHealth (H : Type) : Type := {
  health_select : list AccountCandidate -> AccountAuthentication -> option string -> Z -> H ->
    result SelectionError AccountChoice * H;
  health_observe : string -> AccountObservation -> Z -> H -> result AccountStateError unit * H
}.

(** What the coordinator relies on: a consistent table stays consistent, a
    selected account is one of the candidates, known to the table and usable at
    that time, and a known account whose failure is recorded is not usable for
    at least the table's minimal cooldown. *)
Class AccountHealthLaws (H : Type) `{AccountHealth H} : Type := {
  health_ok : H -> Prop;
  health_known : H -> string -> Prop;
  health_usable : H -> string -> Z -> Prop;
  health_cooldown : H -> Z;
  health_select_ok cands auth aff now h :
    health_ok h -> health_ok (health_select cands auth aff now h).2;
  health_select_sound cands auth aff now h ch h' :
    health_ok h -> health_select cands auth aff now h = (Ok ch, h') ->
    health_usable h (choice_account_id ch) now /\ health_known h' (choice_account_id ch) /\
    exists c, c ∈ cands /\ cand_account_id c = choice_account_id ch /\ cand_authentication c = auth;
  health_select_cooldown cands auth aff now h :
    health_cooldown (health_select cands auth aff now h).2 = health_cooldown h;
  health_observe_ok id o now h : health_ok h -> health_ok (health_observe id o now h).2;
  health_failure_cools id o hint now now' h :
    health_ok h -> health_known h id -> o = RateLimited hint \/ o = TemporaryFailure hint ->
    now' < sat_add64 now (health_cooldown h) ->
    ~ health_usable (health_observe id o now h).2 id now'
}.

(** ** Environment *)

(** Where cancellation is looked at during attempt number [ordinal]: at the
    head of the loop, when the attempt would first be polled, while it runs,
    while the delay runs, and after it. *)
Inductive CancelPoint : Set :=
| AtLoopHead (ordinal : Z)
| BeforePoll (ordinal : Z)
| WhileRunning (ordinal : Z)
| WhileWaiting (ordinal : Z)
| AfterWait (ordinal : Z).

Record Environment (H T : Type) : Type := mkEnvironment {
  env_cancelled : CancelPoint -> bool;
  env_now : Z -> Z;
  env_upstream : AttemptContext -> list Z -> AttemptResult T;
  env_wait : Z -> bool;
  (** what other requests do to the health table before this one reads or
      writes it for the given attempt *)
  env_before_select : Z -> H -> H;
  env_before_observe : Z -> H -> H
}.
Arguments mkEnvironment {H T} _ _ _ _ _ _.
Arguments env_cancelled {H T} _ _.
Arguments env_now {H T} _ _.
Arguments env_upstream {H T} _ _ _.
Arguments env_wait {H T} _ _.
Arguments env_before_select {H T} _ _ _.
Arguments env_before_observe {H T} _ _ _.

(** ** The coordinator *)
Section Execute.
Context {H T : Type} `{AccountHealth H} (policy : RetryPolicy) (env : Environment H T).

(** The health table, and the effects so far: the attempts started, with what
    they returned if they completed, and the delays started. *)
Record World : Type := mkWorld {
  world_health : H;
  world_calls : list (AttemptContext * option (AttemptResult T));
  world_waits : list Z
}.

(** Leaving the function: by [return], or by a panic. *)
Inductive Exit : Type :=
| Return (outcome : ExecutionOutcome T)
| Panic.

Notation run := (st_res World Exit).

Definition cancelled {A} (history : AttemptHistory) : run A :=
  st_err (Return (ExecutionFailed TerminalCancelled history)).

Definition return_if_cancelled (p : CancelPoint) (history : AttemptHistory) : run unit :=
  if env_cancelled env p then cancelled history else st_ret tt.

Definition with_health {A} (f : H -> A * H) : run A := fun w =>
  let '(a, h) := f (world_health w) in
  (mkWorld h (world_calls w) (world_waits w), Ok a).

Definition record_call (c : AttemptContext) (r : option (AttemptResult T)) : run unit :=
  st_mod (fun w => mkWorld (world_health w) (world_calls w ++ [(c, r)]) (world_waits w)).

Definition record_wait (d : Z) : run unit :=
  st_mod (fun w => mkWorld (world_health w) (world_calls w) (world_waits w ++ [d])).

Definition observe_failure (account_id : string) (failure : AttemptFailure) (now_ms : Z) (h : H)
    : unit * H :=
  let observation :=
    match failure_kind failure with
    | FailRateLimited => Some (RateLimited (failure_retry_after_ms failure))
    | FailServer | FailTimeout | FailReset => Some (TemporaryFailure (failure_retry_after_ms failure))
    | FailInvalidCredentials => Some InvalidCredentials
    | FailInvalidRequest | FailPolicy | FailOther => None
    end in
  match observation with
  | Some o => (tt, (health_observe account_id o now_ms h).2)
  | None => (tt, h)
  end.

(** The account of an attempt: the fixed one, or a selection. *)
Definition choose_account (request : ExecutionRequest) (history : AttemptHistory) (ordinal now_ms : Z)
    : run string :=
  match accountless_account_id request with
  | Some account_id => st_ret account_id
  | None =>
      match mapM as_account_candidate (candidates request) with
      | None => st_err Panic
      | Some cands =>
          let! choice := with_health (fun h =>
            health_select cands (authentication request) (affinity_account request) now_ms
              (env_before_select env ordinal h)) in
          match choice with
          | Ok choice => st_ret (choice_account_id choice)
          | Err _ => st_err (Return (ExecutionFailed TerminalNoEligibleAccount history))
          end
      end
  end.

(** One turn of the attempt loop; it returns early or continues with the
    history it extended. *)
Definition attempt (request : ExecutionRequest) (history : AttemptHistory) (ordinal : Z)
    : run AttemptHistory :=
  do! return_if_cancelled (AtLoopHead ordinal) history;
  let now_ms := env_now env ordinal in
  let! account_id := choose_account request history ordinal now_ms in
  let attempt_id := mkAttemptId (request_id request) ordinal in
  let context :=
    mkAttemptContext (request_id request) attempt_id (provider_id request) account_id (model request) in
  do! return_if_cancelled (BeforePoll ordinal) history;
  if env_cancelled env (WhileRunning ordinal) then
    do! record_call context None;
    cancelled history
  else
    let result := env_upstream env context (body request) in
    do! record_call context (Some result);
    match result with
    | AttemptSucceeded output boundary =>
        do! (match accountless_account_id request with
             | Some _ => st_ret tt
             | None => with_health (fun h =>
                 (tt, (health_observe account_id Success now_ms (env_before_observe env ordinal h)).2))
             end);
        let history := AttemptHistory_push history
          (AttemptDiagnostic_success request account_id attempt_id boundary) in
        st_err (Return (ExecutionSucceeded output boundary history))
    | AttemptFailed failure boundary =>
        do! (match accountless_account_id request with
             | Some _ => st_ret tt
             | None => with_health (fun h =>
                 observe_failure account_id failure now_ms (env_before_observe env ordinal h))
             end);
        let history := AttemptHistory_push history
          (AttemptDiagnostic_failure request account_id attempt_id failure boundary) in
        let retry_delay :=
          if bool_decide (boundary = BeforeVisible) && (ordinal <? MAX_TOTAL_ATTEMPTS)
          then delay_ms policy (retry_class failure) (failure_retry_after_ms failure)
          else None in
        match retry_delay with
        | None => st_err (Return (ExecutionFailed (TerminalUpstream failure boundary) history))
        | Some retry_delay =>
            do! record_wait retry_delay;
            do! return_if_cancelled (WhileWaiting ordinal) history;
            if negb (env_wait env ordinal) || env_cancelled env (AfterWait ordinal)
            then cancelled history
            else st_ret history
        end
    end.

Definition attempt_ordinals : list Z := Z.of_nat <$> seq 1 (Z.to_nat MAX_TOTAL_ATTEMPTS).

Definition execute_body (request : ExecutionRequest) : run AttemptHistory :=
  let history := AttemptHistory_default in
  if maximum_body_bytes policy <? zlen (body request) then
    st_err (Return (ExecutionFailed TerminalRequestBodyTooLarge history))
  else
    do! st_fold (attempt request) history attempt_ordinals;
    st_err Panic.

(** The whole call: the effects, and how the function was left. *)
Definition execute (request : ExecutionRequest) (h : H) : World * Exit :=
  match execute_body request (mkWorld h [] []) with
  | (w, Err exit) => (w, exit)
  | (w, Ok _) => (w, Panic)
  end.
End Execute.
Arguments mkWorld {H T} _ _ _.
Arguments world_health {H T} _.
Arguments world_calls {H T} _.
Arguments world_waits {H T} _.
Arguments Return {T} _.
Arguments Panic {T}.
