(* ===== verification/ExecutionSpec.v ===== *)
(** * Request execution: protocol and correctness

    The protocol is a small inductive relation: what a sequence of attempts
    may look like from attempt number [o] on, which delays it contains and how
    it ends.  The coordinator is shown to follow it while the health table is kept
    consistent. *)
From S2P Require Import Prelude Accounts Execution.

(** ** Protocol *)

Definition allowed_account (r : ExecutionRequest) (account : string) : Prop :=
  match accountless_account_id r with
  | Some a => account = a
  | None => exists c, c ∈ candidates r /\ exec_account_id c = account /\
                      exec_authentication c = authentication r
  end.

Definition context_of (r : ExecutionRequest) (o : Z) (account : string) : AttemptContext :=
  mkAttemptContext (request_id r) (mkAttemptId (request_id r) o) (provider_id r) account (model r).

(** The array that holds the diagnostics of [l]. *)
Definition history_of (l : list AttemptDiagnostic) : AttemptHistory :=
  mkAttemptHistory ((Some <$> l) ++ replicate (Z.to_nat MAX_TOTAL_ATTEMPTS - length l) None) (zlen l).

Section Protocol.
Context {H T : Type} `{AccountHealth H} (policy : RetryPolicy) (env : Environment H T) (r : ExecutionRequest).

Notation failure_diag o account f b :=
  (AttemptDiagnostic_failure r account (mkAttemptId (request_id r) o) f b).

(** The selection of attempt [o] over the table [h], as the other requests have
    left it. *)
Definition selects (o : Z) (h : H) (choice : result SelectionError AccountChoice) (h' : H) : Prop :=
  accountless_account_id r = None /\
  exists cands, mapM as_account_candidate (candidates r) = Some cands /\
    health_select cands (authentication r) (affinity_account r) (env_now env o) (env_before_select env o h) = (choice, h').

(** The account of attempt [o]: the fixed one, or the selected one. *)
Definition picks (o : Z) (h : H) (account : string) (h' : H) : Prop :=
  allowed_account r account /\
  (accountless_account_id r = Some account /\ h' = h \/
   exists choice, selects o h (Ok choice) h' /\ choice_account_id choice = account).

(** Attempt [o] is not cancelled before it is polled, and runs on [account]. *)
Definition starts (o : Z) (h : H) (account : string) (h' : H) : Prop :=
  env_cancelled env (AtLoopHead o) = false /\ picks o h account h' /\ env_cancelled env (BeforePoll o) = false.

(** It runs to its end, with the upstream's answer. *)
Definition answers (o : Z) (h : H) (account : string) (h' : H) (result : AttemptResult T) : Prop :=
  starts o h account h' /\ env_cancelled env (WhileRunning o) = false /\
  env_upstream env (context_of r o account) (body r) = result.

(** The table after a failure on [account] is recorded. *)
Definition learns (o : Z) (account : string) (f : AttemptFailure) (h : H) : H :=
  match accountless_account_id r with
  | Some _ => h
  | None => (observe_failure account f (env_now env o) (env_before_observe env o h)).2
  end.

(** The delay after attempt [o] does not run to its end. *)
Definition wait_broken (o : Z) : bool :=
  env_cancelled env (WhileWaiting o) || (negb (env_wait env o) || env_cancelled env (AfterWait o)).

(** [protocol o past h calls waits out]: from the table [h], attempts [calls] and
    delays [waits] from ordinal [o] on, after the attempts recorded in [past],
    ending with [out]. *)
Inductive protocol : Z -> list AttemptDiagnostic -> H ->
    list (AttemptContext * option (AttemptResult T)) -> list Z -> ExecutionOutcome T -> Prop :=
| protocol_cancelled o past h :
    env_cancelled env (AtLoopHead o) = true ->
    protocol o past h [] [] (ExecutionFailed TerminalCancelled (history_of past))
| protocol_no_account o past h e h' :
    env_cancelled env (AtLoopHead o) = false -> selects o h (Err e) h' ->
    protocol o past h [] [] (ExecutionFailed TerminalNoEligibleAccount (history_of past))
| protocol_not_polled o past h account h' :
    env_cancelled env (AtLoopHead o) = false -> picks o h account h' -> env_cancelled env (BeforePoll o) = true ->
    protocol o past h [] [] (ExecutionFailed TerminalCancelled (history_of past))
| protocol_interrupted o past h account h' :
    starts o h account h' -> env_cancelled env (WhileRunning o) = true ->
    protocol o past h [(context_of r o account, None)] []
      (ExecutionFailed TerminalCancelled (history_of past))
| protocol_succeeded o past h account h' output b :
    answers o h account h' (AttemptSucceeded output b) ->
    protocol o past h [(context_of r o account, Some (AttemptSucceeded output b))] []
      (ExecutionSucceeded output b (history_of (past ++
        [AttemptDiagnostic_success r account (mkAttemptId (request_id r) o) b])))
| protocol_failed o past h account h' f b :
    answers o h account h' (AttemptFailed f b) ->
    b = Visible \/ MAX_TOTAL_ATTEMPTS <= o \/ retry_class f = ClassNever ->
    protocol o past h [(context_of r o account, Some (AttemptFailed f b))] []
      (ExecutionFailed (TerminalUpstream f b) (history_of (past ++ [failure_diag o account f b])))
| protocol_wait_cancelled o past h account h' f d :
    answers o h account h' (AttemptFailed f BeforeVisible) -> o < MAX_TOTAL_ATTEMPTS ->
    delay_ms policy (retry_class f) (failure_retry_after_ms f) = Some d -> wait_broken o = true ->
    protocol o past h [(context_of r o account, Some (AttemptFailed f BeforeVisible))] [d]
      (ExecutionFailed TerminalCancelled (history_of (past ++ [failure_diag o account f BeforeVisible])))
| protocol_retry o past h account h' f d calls waits out :
    answers o h account h' (AttemptFailed f BeforeVisible) -> o < MAX_TOTAL_ATTEMPTS ->
    delay_ms policy (retry_class f) (failure_retry_after_ms f) = Some d -> wait_broken o = false ->
    protocol (o + 1) (past ++ [failure_diag o account f BeforeVisible]) (learns o account f h') calls waits out ->
    protocol o past h ((context_of r o account, Some (AttemptFailed f BeforeVisible)) :: calls)
      (d :: waits) out.

Lemma answers_allowed o h account h' result : answers o h account h' result -> allowed_account r account.
Proof. by intros ((_ & [? _] & _) & _). Qed.
End Protocol.

(** ** History *)

Lemma history_push l d :
  zlen l < MAX_TOTAL_ATTEMPTS -> AttemptHistory_push (history_of l) d = history_of (l ++ [d]).
Proof.
  unfold AttemptHistory_push, history_of, MAX_TOTAL_ATTEMPTS. intros Hl.
  destruct l as [|x [|y l]]; [done|done|].
  rewrite !zlen_cons in Hl. pose proof (zlen_nonneg l). lia.
Qed.

Lemma history_iter l : AttemptHistory_iter (history_of l) = Some l.
Proof.
  unfold AttemptHistory_iter, history_of, zlen. cbn. rewrite Nat2Z.id.
  rewrite take_app_length'; [|by rewrite length_fmap].
  induction l as [|x l IH]; cbn; [done|]. by rewrite IH.
Qed.

(** ** The coordinator follows the protocol *)

Lemma candidates_valid l :
  Forall (fun c => 0 < exec_weight c <= MAX_WEIGHT) l ->
  mapM as_account_candidate l =
    Some ((fun c => mkCandidate (exec_account_id c) (exec_authentication c) (exec_weight c)) <$> l).
Proof.
  induction 1 as [|c l Hc _ IH]; [done|]. cbn. rewrite IH.
  unfold as_account_candidate, AccountCandidate_new.
  rewrite (proj2 (Z.eqb_neq _ _)), (proj2 (Z.ltb_ge _ _)) by lia. done.
Qed.

(** What the concurrent users of the health table are held to: they leave it
    consistent. *)
Record steady {H T : Type} `{AccountHealthLaws H} (env : Environment H T) : Prop := {
  steady_select : forall o h, health_ok h -> health_ok (env_before_select env o h);
  steady_observe : forall o h, health_ok h -> health_ok (env_before_observe env o h)
}.

Section Correct.
Context {H T : Type} `{AccountHealthLaws H} (policy : RetryPolicy) (env : Environment H T)
  (r : ExecutionRequest).

Hypothesis env_steady : steady env.
Hypothesis weights_ok : Forall (fun c => 0 < exec_weight c <= MAX_WEIGHT) (candidates r).

Lemma choose_account_spec history o (w : World) :
  health_ok (world_health w) ->
  match choose_account env r history o (env_now env o) w with
  | (w', Ok account) => picks env r o (world_health w) account (world_health w') /\ health_ok (world_health w') /\
      world_calls w' = world_calls w /\ world_waits w' = world_waits w
  | (w', Err (Return out)) => out = ExecutionFailed TerminalNoEligibleAccount history /\
      (exists e, selects env r o (world_health w) (Err e) (world_health w')) /\
      world_calls w' = world_calls w /\ world_waits w' = world_waits w
  | (w', Err Panic) => False
  end.
Proof using env_steady weights_ok.
  intros Hok. unfold choose_account, picks, allowed_account, selects.
  destruct (accountless_account_id r) as [a|]; [cbn; split_and!; [done|by left|done..]|].
  rewrite candidates_valid by done. unfold st_bind, with_health.
  set (cands := _ <$> candidates r).
  pose proof (health_select_ok cands (authentication r) (affinity_account r) (env_now env o)
    (env_before_select env o (world_health w)) (steady_select _ env_steady _ _ Hok)) as Hok'.
  destruct (health_select _ _ _ _ _) as [[ch|e] h'] eqn:Es; cbn in *; [|by eauto 10].
  pose proof Es as (_ & _ & c & Hc & Hid & Hauth)%health_select_sound; [|by apply (steady_select _ env_steady)].
  apply list_elem_of_fmap in Hc as (c' & -> & Hc'). cbn in *. split_and!; [by exists c'|right; by eauto 10|done..].
Qed.

Lemma observed_ok account f o now h :
  health_ok h -> health_ok (observe_failure account f now (env_before_observe env o h)).2.
Proof using env_steady.
  intros Hh%(steady_observe _ env_steady o). unfold observe_failure. destruct (failure_kind f); cbn; auto using health_observe_ok.
Qed.

Lemma attempt_spec past o (w : World) :
  health_ok (world_health w) -> zlen past + 1 = o -> 1 <= o <= MAX_TOTAL_ATTEMPTS ->
  exists calls waits, let '(w', x) := attempt policy env r (history_of past) o w in
  world_calls w' = world_calls w ++ calls /\ world_waits w' = world_waits w ++ waits /\
  match x with
  | Err (Return out) => protocol policy env r o past (world_health w) calls waits out
  | Err Panic => False
  | Ok hist => exists account h f d, answers env r o (world_health w) account h (AttemptFailed f BeforeVisible) /\ o < MAX_TOTAL_ATTEMPTS /\
      delay_ms policy (retry_class f) (failure_retry_after_ms f) = Some d /\ wait_broken env o = false /\
      calls = [(context_of r o account, Some (AttemptFailed f BeforeVisible))] /\ waits = [d] /\
      hist = history_of (past ++
        [AttemptDiagnostic_failure r account (mkAttemptId (request_id r) o) f BeforeVisible]) /\
      world_health w' = learns env r o account f h /\ health_ok (world_health w')
  end.
Proof using env_steady weights_ok.
  intros Hok Hpast Ho. unfold attempt, return_if_cancelled, cancelled.
  destruct (env_cancelled env (AtLoopHead o)) eqn:Ehead.
  { exists [], []. cbn. rewrite !app_nil_r. repeat split. by apply protocol_cancelled. }
  pose proof (choose_account_spec (history_of past) o w Hok) as Hch.
  unfold st_bind at 1. cbn [st_ret]. unfold st_bind at 1.
  destruct (choose_account env r (history_of past) o (env_now env o) w) as [w1 [account|[out|]]]; [| |done].
  2:{ exists [], []. rewrite !app_nil_r. destruct Hch as (-> & [e He] & ? & ?). repeat split; [done..|].
      by eapply protocol_no_account. }
  destruct Hch as (Hpick & Hok1 & Hc1 & Hw1).
  destruct (env_cancelled env (BeforePoll o)) eqn:Epoll.
  { exists [], []. cbn. rewrite !app_nil_r. repeat split; [done..|]. by eapply protocol_not_polled. }
  assert (starts env r o (world_health w) account (world_health w1)) as Hstart by done.
  unfold st_bind at 1. cbn [st_ret].
  destruct (env_cancelled env (WhileRunning o)) eqn:Erun.
  { exists [(context_of r o account, None)], []. unfold st_bind, record_call, st_mod, st_err. cbn.
    rewrite Hc1, Hw1, app_nil_r. repeat split; [done..|]. by eapply protocol_interrupted. }
  unfold st_bind at 1, record_call, st_mod.
  fold (context_of r o account).
  assert (answers env r o (world_health w) account (world_health w1) (env_upstream env (context_of r o account) (body r))) as Hans by done.
  destruct (env_upstream env (context_of r o account) (body r)) as [output b|f b].
  - exists [(context_of r o account, Some (AttemptSucceeded output b))], [].
    unfold st_bind, with_health, st_err, st_ret.
    destruct (accountless_account_id r) eqn:Eacc; cbn; rewrite Hc1, Hw1, app_nil_r;
      rewrite history_push by (unfold MAX_TOTAL_ATTEMPTS in *; lia);
      repeat split; by eapply protocol_succeeded.
  - set (w2 := mkWorld (world_health w1) _ (world_waits w1)). unfold st_bind at 1.
    assert (exists w3, (match accountless_account_id r with
         | Some _ => st_ret tt
         | None => with_health (fun h =>
             observe_failure account f (env_now env o) (env_before_observe env o h))
         end) w2 = (w3, Ok tt : result (Exit (T := T)) unit) /\
         world_health w3 = learns env r o account f (world_health w1) /\ health_ok (world_health w3) /\
         world_calls w3 = world_calls w2 /\ world_waits w3 = world_waits w2)
      as (w3 & -> & Hh3 & Hok3 & Hc3 & Hw3).
    { unfold learns. destruct (accountless_account_id r); [by exists w2|].
      unfold with_health. pose proof (observed_ok account f o (env_now env o) (world_health w2) Hok1).
      cbn [world_health w2] in *. destruct (observe_failure _ _ _ _) as [[] h3]. by eexists. }
    cbn [world_calls world_waits w2] in Hc3, Hw3.
    rewrite history_push by (unfold MAX_TOTAL_ATTEMPTS in *; lia).
    destruct (if _ && _ then _ else _) as [d|] eqn:Ed.
    + destruct (bool_decide (b = BeforeVisible)) eqn:Eb; [|done]. apply bool_decide_eq_true in Eb as ->.
      destruct (o <? MAX_TOTAL_ATTEMPTS) eqn:Eo; [|done]. cbn [andb] in Ed. apply Z.ltb_lt in Eo.
      exists [(context_of r o account, Some (AttemptFailed f BeforeVisible))], [d].
      unfold st_bind, record_wait, st_mod, st_err, st_ret.
      destruct (env_cancelled env (WhileWaiting o)) eqn:Ewait;
        [|destruct (negb (env_wait env o) || env_cancelled env (AfterWait o)) eqn:Eafter]; cbn; rewrite Hc3, Hw3, Hc1, Hw1;
        (split; [reflexivity|]); (split; [reflexivity|]).
      * eapply protocol_wait_cancelled; try done. unfold wait_broken. by rewrite Ewait.
      * eapply protocol_wait_cancelled; try done. unfold wait_broken. by rewrite Ewait, Eafter.
      * exists account, (world_health w1), f, d. unfold wait_broken. rewrite Ewait, Eafter. by split_and!.
    + exists [(context_of r o account, Some (AttemptFailed f b))], []. unfold st_err. rewrite Hc3, Hw3, Hc1, Hw1, app_nil_r.
      split; [reflexivity|]. split; [reflexivity|].
      eapply protocol_failed; [done|]. destruct b; [|by left]. right.
      destruct (Z.ltb_spec o MAX_TOTAL_ATTEMPTS); [right|by left].
      cbn in Ed. by destruct (retry_class f).
Qed.

Lemma attempt_ordinals_eq : attempt_ordinals = [1; 2].
Proof. reflexivity. Qed.

Lemma execute_protocol h :
  health_ok h ->
  exists w out, execute policy env r h = (w, Return out) /\
    if maximum_body_bytes policy <? zlen (body r)
    then world_calls w = [] /\ world_waits w = [] /\
         out = ExecutionFailed TerminalRequestBodyTooLarge (history_of [])
    else protocol policy env r 1 [] h (world_calls w) (world_waits w) out.
Proof using env_steady weights_ok.
  intros Hok. unfold execute, execute_body.
  destruct (maximum_body_bytes policy <? zlen (body r)); [by eexists _, _|].
  rewrite attempt_ordinals_eq. change AttemptHistory_default with (history_of []).
  unfold st_bind at 1. cbn [st_fold].
  destruct (attempt_spec [] 1 (mkWorld h [] []) Hok) as (c1 & w1 & Hs1); [done|done|].
  unfold st_bind at 1.
  destruct (attempt policy env r (history_of []) 1 (mkWorld h [] [])) as [wa [h1|[out|]]];
    destruct Hs1 as (Hc1 & Hw1 & Hs1); cbn in Hc1, Hw1; [|by rewrite <- Hc1, <- Hw1 in Hs1; eauto|done].
  destruct Hs1 as (a1 & h2 & f1 & d1 & Ha1 & Ho1 & Hd1 & Hb1 & -> & -> & -> & Hh1 & Hok1).
  destruct (attempt_spec ([] ++ [AttemptDiagnostic_failure r a1 (mkAttemptId (request_id r) 1) f1 BeforeVisible])
    2 wa Hok1) as (c2 & w2 & Hs2); [done|done|].
  unfold st_bind at 1.
  destruct (attempt policy env r _ 2 wa) as [wb [h3|[out|]]];
    destruct Hs2 as (Hc2 & Hw2 & Hs2); [|..|done].
  - destruct Hs2 as (? & ? & ? & ? & _ & Ho & _). unfold MAX_TOTAL_ATTEMPTS in Ho. lia.
  - rewrite Hc1 in Hc2. rewrite Hw1 in Hw2. eexists _, _. split; [reflexivity|]. rewrite Hc2, Hw2.
    rewrite Hh1 in Hs2. by eapply protocol_retry.
Qed.
End Correct.

(** ** Consequences of the protocol *)

(** The diagnostic of a completed attempt. *)
Definition diagnostic_of {T} (c : AttemptContext * option (AttemptResult T)) : option AttemptDiagnostic :=
  let diag o := Some (mkAttemptDiagnostic (ctx_request_id c.1) (ctx_attempt_id c.1)
    (ctx_provider_id c.1) (ctx_account_id c.1) o) in
  match c.2 with
  | None => None
  | Some (AttemptSucceeded _ b) => diag (DiagnosticSucceeded b)
  | Some (AttemptFailed f b) => diag (DiagnosticFailed (failure_kind f) (failure_status_code f) b)
  end.

(** A call after which another one may follow. *)
Definition retryable {T} (c : AttemptContext * option (AttemptResult T)) : Prop :=
  exists f, c.2 = Some (AttemptFailed f BeforeVisible) /\ retry_class f <> ClassNever.

Definition ordinals {T} (calls : list (AttemptContext * option (AttemptResult T))) : list Z :=
  (fun c => ordinal (ctx_attempt_id c.1)) <$> calls.

Lemma protocol_history {H T} `{AccountHealth H} policy (env : Environment H T) r o past h calls waits (out : ExecutionOutcome T) :
  protocol policy env r o past h calls waits out ->
  outcome_history out = history_of (past ++ omap diagnostic_of calls).
Proof.
  induction 1; cbn; rewrite ?app_nil_r; try done.
  rewrite IHprotocol. by rewrite <- app_assoc.
Qed.

Lemma protocol_shape {H T} `{AccountHealth H} policy (env : Environment H T) r o past h calls waits (out : ExecutionOutcome T) :
  retry_policy_ok policy -> protocol policy env r o past h calls waits out -> 1 <= o <= MAX_TOTAL_ATTEMPTS ->
  zlen calls <= MAX_TOTAL_ATTEMPTS + 1 - o /\ zlen waits <= MAX_TOTAL_ATTEMPTS - o /\
  Forall (fun d => base_delay_ms policy <= d <= maximum_delay_ms policy) waits /\
  (forall pre c c' post, calls = pre ++ c :: c' :: post -> retryable c) /\
  ordinals calls = Z.of_nat <$> seq (Z.to_nat o) (length calls) /\
  Forall (fun c => exists a, allowed_account r a /\
    c.1 = context_of r (ordinal (ctx_attempt_id c.1)) a) calls.
Proof.
  intros Hpol Hp. induction Hp as [| | |? ? ? ? ? [_ [[Ha _] _]]|? ? ? ? ? ? ? Ha%answers_allowed|? ? ? ? ? ? ? Ha%answers_allowed
    |? ? ? ? ? ? ? Ha%answers_allowed|o past h a h' f d calls waits out Ha%answers_allowed Ho Hd Hb Hp IH];
    intros Hr.
  1-7: split_and!; change (zlen []) with 0; rewrite ?zlen_cons; change (zlen []) with 0;
    unfold MAX_TOTAL_ATTEMPTS in *; try lia; repeat constructor; cbn.
  all: try (intros [|? [|? ?]] ? ? ? [=]; fail).
  all: try (rewrite Z2Nat.id by lia; reflexivity).
  all: try (eapply delay_ms_bounds; eauto; fail).
  all: try (eexists; eauto; fail).
  destruct IH as (H1 & H2 & H3 & H4 & H5 & H6); [unfold MAX_TOTAL_ATTEMPTS in *; lia|].
  rewrite !zlen_cons. split_and!; [lia|lia| | | |].
  - constructor; [|done]. by eapply delay_ms_bounds.
  - intros pre c c' post Heq. destruct pre as [|x pre]; cbn in Heq; simplify_eq.
    + exists f. split; [done|]. by eapply delay_ms_bounds.
    + by eapply H4.
  - cbn [ordinals fmap list_fmap length seq]. unfold ordinals in H5. rewrite H5.
    cbn. rewrite Z2Nat.id by lia. f_equal. by rewrite Z2Nat.inj_add, Nat.add_1_r by lia.
  - constructor; [|done]. by exists a.
Qed.
