(* ===== verification/ExecutionCorrect.v ===== *)
(** * Request execution: theorems

    The account health table of [Accounts] implements the interface the
    coordinator relies on; the coordinator follows its protocol and starts at
    most two attempts while the others leave the table consistent, and does not
    retry on the account that just failed while they do not clear its cooldown. *)
From S2P Require Import Prelude Accounts AccountsSpec Execution ExecutionSpec.

(** ** The health table implements the interface *)

#[global] Instance table_health : AccountHealth AccountHealthTable := {
  health_select cands auth aff now t := select_from auth aff now cands t;
  health_observe id o now t := observe t id o now
}.

Definition table_consistent (t : AccountHealthTable) : Prop :=
  table_wf t /\ policy_ok (policy t) /\
  forall id s, get_state t id = Some s -> 0 <= consecutive_failures s.

Definition table_usable (t : AccountHealthTable) (id : string) (now : Z) : Prop :=
  exists s, view now t id = Some s /\ AccountState_kind s = Healthy.

Lemma set_state_consistent t id s :
  table_consistent t -> 0 <= consecutive_failures s -> table_consistent (set_state t id s).
Proof.
  intros (Hwf & Hp & Hs) Hcf. split_and!; [by apply set_state_wf|done|].
  intros id' s' Hg. destruct (decide (id = id')) as [->|Hne].
  - rewrite get_set_eq in Hg by done. by simplify_eq.
  - rewrite get_set_ne in Hg by done. eauto.
Qed.

Lemma status_consistent t id now : table_consistent t -> table_consistent (status t id now).2.
Proof.
  intros Ht. unfold status. destruct (get_state t id) as [s|] eqn:E; [|done].
  apply set_state_consistent; [done|]. cbn. destruct Ht as (_ & _ & Hs). eauto.
Qed.

Lemma mark_choice_consistent t id origin now :
  table_consistent t -> table_consistent (mark_choice t id origin now).2.
Proof.
  intros (Hwf & Hp & Hs). unfold mark_choice, mark_selected.
  change (get_state (mkTable (policy t) (shards t) _) id) with (get_state t id).
  assert (table_consistent (mkTable (policy t) (shards t) (wrap64 (selection_sequence t + 1)))) as Ht.
  { split_and!; [by apply seq_wf|done|]. intros id' s'. apply Hs. }
  destruct (get_state t id) as [s|] eqn:E; cbn; [|done].
  apply set_state_consistent; cbn; eauto.
Qed.

Lemma select_loop_consistent auth aff now cands : forall best t,
  table_consistent t -> table_consistent (select_loop auth aff now cands best t).2.
Proof.
  induction cands as [|c cands IH]; intros best t Ht; cbn [select_loop].
  { destruct best as [[c st]|]; [by apply mark_choice_consistent|done]. }
  destruct (negb _); [by apply IH|].
  pose proof (status_consistent t (cand_account_id c) now Ht) as Ht'.
  destruct (status t (cand_account_id c) now) as [[st|e] t']; cbn [snd] in *; [|done].
  destruct (negb _); [by apply IH|].
  destruct (bool_decide _); [by apply mark_choice_consistent|by apply IH].
Qed.

(** The choice is a candidate that is healthy in the table's view. *)
Lemma select_loop_sound auth aff now m (pool cands : list AccountCandidate) : forall best t ch t',
  table_wf t -> (forall id, view now t id = m id) -> (forall c, c ∈ cands -> c ∈ pool) ->
  (forall c st, best = Some (c, st) -> c ∈ pool /\ eligible m auth c) ->
  select_loop auth aff now cands best t = (Ok ch, t') ->
  exists c, c ∈ pool /\ cand_account_id c = choice_account_id ch /\ eligible m auth c.
Proof.
  induction cands as [|c cands IH]; intros best t ch t' Hwf Hm Hpool Hbest; cbn [select_loop].
  { destruct best as [[c st]|]; [|done]. intros Hmk.
    apply (mark_choice_effect _ _ m) in Hmk as [-> _]; [|done..].
    destruct (Hbest c st eq_refl). eauto. }
  assert (c ∈ pool) as Hc by (apply Hpool; left).
  assert (forall d, d ∈ cands -> d ∈ pool) as Hpool' by (intros d ?; apply Hpool; by right).
  destruct (bool_decide_reflect (cand_authentication c = auth)) as [Ha|Ha]; cbn [negb];
    [|by apply IH].
  pose proof (status_result now t (cand_account_id c)) as Hr.
  pose proof (status_wf now t (cand_account_id c) Hwf) as Hwf'.
  pose proof (view_status now t (cand_account_id c) Hwf) as Hv'.
  destruct (status t (cand_account_id c) now) as [[st|e] t1]; cbn [fst snd] in *; [|done].
  rewrite Hm in Hr. destruct (m (cand_account_id c)) as [s|] eqn:Em; simplify_eq.
  assert (forall id, view now t1 id = m id) as Hm1 by (intros id; by rewrite Hv').
  destruct (bool_decide_reflect (st_kind (AccountState_status s) = Healthy)) as [Hk|Hk]; cbn [negb];
    [|by apply IH].
  assert (eligible m (cand_authentication c) c) as Hel by (split; eauto).
  destruct (bool_decide _).
  - intros Hmk. apply (mark_choice_effect _ _ m) in Hmk as [-> _]; eauto.
  - apply IH; auto. intros d sd. destruct (is_none_or _ _); intros Hd; [by simplify_eq|eauto].
Qed.

Lemma select_known auth aff now cands t ch t' :
  table_wf t -> select_from auth aff now cands t = (Ok ch, t') ->
  is_Some (get_state t' (choice_account_id ch)).
Proof.
  intros Hwf Hs. apply (select_loop_effect _ _ _ (view now t)) in Hs as (_ & _ & s & _ & Hv & _); auto.
  unfold view in Hv. by destruct (get_state t' _).
Qed.

Lemma observe_state_failures p s o now :
  0 <= consecutive_failures s -> 0 <= consecutive_failures (observe_state p s o now).
Proof.
  intros Hs. unfold observe_state. destruct o; cbn; try ulia; by destruct (_ <=? _).
Qed.

Lemma failure_unusable id o hint now now' t :
  table_consistent t -> is_Some (get_state t id) ->
  o = RateLimited hint \/ o = TemporaryFailure hint ->
  now' < sat_add64 now (base_cooldown_ms (policy t)) ->
  ~ table_usable (observe t id o now).2 id now'.
Proof.
  intros (Hwf & Hp & Hcf) [s Hs] Ho Hnow (s' & Hv & Hk). unfold observe in Hv. rewrite Hs in Hv.
  cbn in Hv. unfold view in Hv. rewrite get_set_eq in Hv by done. cbn in Hv. simplify_eq.
  destruct (observe_failure_fields (policy t) s o hint now Ho) as [_ Hc].
  rewrite exponential_closed in Hc; [|done|specialize (Hcf _ _ Hs); ulia].
  set (k := sat_add8 (consecutive_failures s) 1) in *.
  assert (1 <= k) by (specialize (Hcf _ _ Hs); unfold k; ulia).
  assert (1 <= 2 ^ (k - 1)) by (change 1 with (2 ^ 0); apply Z.pow_le_mono_r; lia).
  set (e := Z.min (base_cooldown_ms (policy t) * 2 ^ (k - 1)) (max_cooldown_ms (policy t))) in *.
  assert (base_cooldown_ms (policy t) <= e) by (destruct Hp; unfold e; nia).
  set (until := sat_add64 now _) in Hc.
  assert (now' < until) by (unfold until, sat_add64 in *; lia).
  clearbody until e k.
  unfold AccountState_kind, normalize in Hk. cbn [quarantined cooldown_until_ms] in Hk.
  rewrite Hc in Hk. cbn [is_some_and] in Hk. rewrite (proj2 (Z.leb_gt _ _)) in Hk by done.
  cbn in Hk. by destruct (quarantined _).
Qed.

#[global] Instance table_health_laws : AccountHealthLaws AccountHealthTable.
Proof.
  refine (Build_AccountHealthLaws _ _ table_consistent (fun t id => is_Some (get_state t id))
    table_usable (fun t => base_cooldown_ms (policy t)) _ _ _ _ _).
  - intros. by apply select_loop_consistent.
  - intros cands auth aff now t ch t' (Hwf & _) Hs. split_and!.
    + destruct (select_loop_sound auth aff now (view now t) cands cands None t ch t')
        as (c & _ & <- & _ & s & Hv & Hk); auto; [done|]. by exists s.
    + exact (select_known _ _ _ _ _ _ _ Hwf Hs).
    + destruct (select_loop_sound auth aff now (view now t) cands cands None t ch t')
        as (c & Hc & Hid & Ha & _); auto; [done|]. eauto.
  - intros. cbn. unfold select_from. by rewrite select_loop_policy.
  - intros id o now t Ht. cbn. unfold observe. destruct (get_state t id) as [s|] eqn:E; [|done].
    apply set_state_consistent; [done|]. apply observe_state_failures. destruct Ht as (_ & _ & Ht). eauto.
  - intros id o hint now now' t Ht Hk Ho Hn. by eapply failure_unusable.
Defined.

(** ** Claims *)
Section Claims.
Context {H T : Type} `{AccountHealthLaws H} (retry : RetryPolicy) (env : Environment H T)
  (r : ExecutionRequest).

(** What other requests are held to where a cooldown matters: they also forget no
    account, leave the cooldown policy alone and do not make an unusable account
    usable before the second selection. *)
Record respectful : Prop := {
  rely_steady : steady env;
  rely_known : forall o h id, health_known h id -> health_known (env_before_observe env o h) id;
  rely_cooldown_select : forall o h, health_cooldown (env_before_select env o h) = health_cooldown h;
  rely_cooldown_observe : forall o h, health_cooldown (env_before_observe env o h) = health_cooldown h;
  rely_usable : forall o h id now, ~ health_usable h id now -> ~ health_usable (env_before_select env o h) id now
}.

Lemma choose_account_usable (Hr : respectful) hist o now (w w' : World) account :
  accountless_account_id r = None -> health_ok (world_health w) ->
  choose_account env r hist o now w = (w', Ok account : result (Exit (T := T)) string) ->
  health_usable (env_before_select env o (world_health w)) account now /\
  health_known (world_health w') account /\ health_ok (world_health w') /\
  world_calls w' = world_calls w /\ health_cooldown (world_health w') = health_cooldown (world_health w).
Proof.
  intros Ha Hok. unfold choose_account. rewrite Ha. destruct (mapM _ _) as [cands|]; [|done].
  unfold st_bind, with_health, st_ret, st_err.
  pose proof (health_select_ok cands (authentication r) (affinity_account r) now
    _ (steady_select _ (rely_steady Hr) o _ Hok)) as Hok'.
  pose proof (health_select_cooldown cands (authentication r) (affinity_account r) now
    (env_before_select env o (world_health w))) as Hcd.
  destruct (health_select _ _ _ _ _) as [[ch|e] h'] eqn:Es; [|done]. cbn in *. intros. simplify_eq.
  apply health_select_sound in Es as (Hu & Hk & _); [|by apply (steady_select _ (rely_steady Hr))].
  split_and!; auto. etrans; [exact Hcd|apply Hr].
Qed.

(** A started attempt went to an account that was usable when it was chosen;
    if the loop continues, that account is unusable for the cooldown. *)
Lemma attempt_account (Hr : respectful) hist o (w w' : World) x :
  accountless_account_id r = None -> health_ok (world_health w) ->
  attempt retry env r hist o w = (w', x) ->
  world_calls w' = world_calls w /\ (forall h, x <> Ok h) \/
  exists c, world_calls w' = world_calls w ++ [c] /\
    health_usable (env_before_select env o (world_health w)) (ctx_account_id c.1) (env_now env o) /\
    forall h, x = Ok h -> health_ok (world_health w') /\
      forall now', now' < sat_add64 (env_now env o) (health_cooldown (world_health w)) ->
        ~ health_usable (world_health w') (ctx_account_id c.1) now'.
Proof.
  intros Ha Hok. unfold attempt, return_if_cancelled, cancelled.
  destruct (env_cancelled env (AtLoopHead o)); [unfold st_bind, st_err; intros; simplify_eq; by left|].
  unfold st_bind at 1. cbn [st_ret]. unfold st_bind at 1.
  destruct (choose_account env r hist o (env_now env o) w) as [w1 [account|e]] eqn:Ec.
  2:{ intros. simplify_eq. left. split; [|done].
      unfold choose_account, st_bind, with_health, st_ret, st_err in Ec. rewrite Ha in Ec.
      repeat case_match; by simplify_eq/=. }
  destruct (choose_account_usable Hr _ _ _ _ _ _ Ha Hok Ec) as (Hu & Hk & Hok1 & Hc1 & Hcd).
  destruct (env_cancelled env (BeforePoll o)); [unfold st_bind, st_err; intros; simplify_eq; by left|].
  unfold st_bind at 1. cbn [st_ret].
  destruct (env_cancelled env (WhileRunning o)).
  { unfold st_bind, record_call, st_mod, st_err. intros. simplify_eq. right.
    eexists. cbn. rewrite Hc1. split; [reflexivity|]. done. }
  unfold st_bind at 1, record_call, st_mod. rewrite Ha.
  destruct (env_upstream _ _ _) as [output b|f b].
  - unfold st_bind, with_health, st_err. intros. simplify_eq. right. cbn.
    eexists. rewrite Hc1. split; [reflexivity|]. done.
  - unfold st_bind at 1, with_health.
    pose proof (observed_ok env (rely_steady Hr) account f o (env_now env o) (world_health w1) Hok1) as Hok2.
    cbn [world_health world_calls world_waits].
    destruct (if _ && _ then _ else _) as [d|] eqn:Ed.
    2:{ destruct (observe_failure _ _ _ _) as [[] h2]. unfold st_err. intros. simplify_eq.
        right. cbn. eexists. rewrite Hc1. split; [reflexivity|]. done. }
    assert (exists ob hint, (ob = RateLimited hint \/ ob = TemporaryFailure hint) /\
      observe_failure account f (env_now env o) (env_before_observe env o (world_health w1)) =
      (tt, (health_observe account ob (env_now env o) (env_before_observe env o (world_health w1))).2))
      as (ob & hint & Hob & Heq).
    { destruct (_ && _); [|done]. unfold retry_class in Ed. unfold observe_failure.
      destruct (failure_kind f); cbn in *; try done; eexists _, _; (split; [|reflexivity]); eauto. }
    rewrite Heq in *. unfold st_bind, record_wait, st_mod, st_err, st_ret.
    destruct (env_cancelled env (WhileWaiting o)); [|destruct (_ || _)]; intros; simplify_eq; right; cbn;
      eexists; rewrite Hc1; (split; [reflexivity|]); (split; [done|]); try done.
    intros h _. split; [done|]. intros now' Hn.
    eapply health_failure_cools; [by apply (steady_observe _ (rely_steady Hr))|by apply Hr|done|].
    by rewrite (rely_cooldown_observe Hr), Hcd.
Qed.
End Claims.
Arguments respectful {H T _ _} _.

(** Every use of the table leaves it consistent: selections, observations and
    status reads of other requests, and single halves of their marks, in any
    number. *)
Inductive table_used : AccountHealthTable -> AccountHealthTable -> Prop :=
| used_not t : table_used t t
| used_select t cands auth aff now t' : table_used (select_from auth aff now cands t).2 t' -> table_used t t'
| used_observe t id o now t' : table_used (observe t id o now).2 t' -> table_used t t'
| used_status t id now t' : table_used (status t id now).2 t' -> table_used t t'
| used_draw t id now t' : table_used (mark_fetch t id now).2 t' -> table_used t t'
| used_mark t p t' : table_used (mark_apply t p).2 t' -> table_used t t'.

Lemma used_consistent t t' : table_used t t' -> health_ok t -> health_ok t'.
Proof.
  induction 1 as [|t cands auth aff now t' _ IH|t id o now t' _ IH|t id now t' _ IH|t id now t' _ IH|t p t' _ IH];
    intros Ht; [done|apply IH..].
  - exact (health_select_ok cands auth aff now t Ht).
  - exact (health_observe_ok id o now t Ht).
  - by apply status_consistent.
  - destruct Ht as (Hwf & Hp & Hs). split_and!; [by apply seq_wf|done|done].
  - unfold mark_apply. destruct (get_state t (pm_account p)) eqn:E; [|done].
    apply set_state_consistent; [done|]. destruct Ht as (_ & _ & Hs). exact (Hs _ _ E).
Qed.

Lemma used_steady {T} (env : Environment AccountHealthTable T) :
  (forall o t, table_used t (env_before_select env o t)) -> (forall o t, table_used t (env_before_observe env o t)) -> steady env.
Proof. intros Hs Ho. split; intros o t Ht; by eapply used_consistent. Qed.

(** C14: Whatever the upstream, the clock and cancellation do, and whatever other
    requests do to the health table as long as they leave it consistent (every
    selection, observation and status read does), the coordinator returns, so the
    panics in the code are unreachable, and its attempts, delays and outcome follow
    the protocol from the table it is given: a request over the body limit starts
    no attempt; otherwise each attempt goes to the account the table selects at
    that moment, under its ordinal; [NoEligibleAccount] is reported exactly when
    that selection fails and a cancellation only where one was seen; and only a
    failure before any visible output, of a retryable kind and below the attempt
    limit, is followed by the policy's delay and, once it has run, by another
    attempt over the table that has learned of the failure. *)
Theorem execute_follows_protocol {H T} `{AccountHealthLaws H} retry (env : Environment H T) r h :
  steady env -> Forall (fun c => 0 < exec_weight c <= MAX_WEIGHT) (candidates r) -> health_ok h ->
  exists w out, execute retry env r h = (w, Return out) /\
    if maximum_body_bytes retry <? zlen (body r)
    then world_calls w = [] /\ world_waits w = [] /\
         out = ExecutionFailed TerminalRequestBodyTooLarge (history_of [])
    else protocol retry env r 1 [] h (world_calls w) (world_waits w) out.
Proof. intros Hr Hw Hh. by apply execute_protocol. Qed.

(** Two accounts, the first of which answers with a rate limit. *)
Definition demo_request : ExecutionRequest :=
  ExecutionRequest_new "req-1" "prov" "model-a"
    [mkExecutionCandidate "light" ApiKey 1; mkExecutionCandidate "heavy" ApiKey 3] ApiKey None [1; 2].

Definition demo_retry : RetryPolicy := mkRetryPolicy 250 10000 1024.

Definition demo_env : Environment AccountHealthTable bool :=
  mkEnvironment (fun _ => false) (fun o => 1000 + o)
    (fun c _ => if ordinal (ctx_attempt_id c) =? 1
                then AttemptFailed (AttemptFailure_new FailRateLimited (Some 429) (Some 500)) BeforeVisible
                else AttemptSucceeded true Visible)
    (fun _ => true) (fun _ h => h) (fun _ h => h).

Lemma demo_respectful : respectful demo_env.
Proof. split; [by split|done..]. Qed.

(** Another request reports the account healthy again while the retry waits. *)
Definition cleared_env : Environment AccountHealthTable bool :=
  mkEnvironment (fun _ => false) (fun o => 1000 + o) (env_upstream demo_env) (fun _ => true)
    (fun o t => if o =? 2 then (observe t "light" Success 1001).2 else t) (fun _ t => t).

Lemma cleared_steady : steady cleared_env.
Proof.
  apply used_steady; intros o t; [|apply used_not]. cbn. destruct (o =? 2); [|apply used_not].
  eapply used_observe, used_not.
Qed.

Lemma demo_weights : Forall (fun c => 0 < exec_weight c <= MAX_WEIGHT) (candidates demo_request).
Proof. repeat constructor; vm_compute; done. Qed.

Lemma demo_consistent : health_ok demo_table.
Proof.
  destruct (new_get_state _ _ _ demo_table_new) as (H1 & H2 & _ & H4).
  split_and!; [exact H1|rewrite H2; vm_compute; intuition discriminate|].
  intros id s Hs. rewrite H4 in Hs. clear -Hs. destruct (decide _); [|discriminate].
  injection Hs as <-. apply Z.le_refl.
Qed.

Lemma execute_follows_protocol_witness :
  exists w out, execute demo_retry cleared_env demo_request demo_table = (w, Return out) /\ zlen (world_calls w) = 2 /\
    protocol demo_retry cleared_env demo_request 1 [] demo_table (world_calls w) (world_waits w) out.
Proof.
  destruct (execute_follows_protocol demo_retry cleared_env demo_request demo_table
    cleared_steady demo_weights demo_consistent) as (w & out & He & Hp).
  assert (zlen (world_calls (execute demo_retry cleared_env demo_request demo_table).1) = 2) as Hn by (vm_compute; reflexivity).
  rewrite He in Hn. exists w, out. split; [exact He|]. split; [exact Hn|exact Hp].
Defined.

(** Attempts are bounded and never repeat visible work.  Whatever the
    environment does, at most two attempts start, numbered from one; one
    attempt is followed by another only if it failed before anything was
    visible and in a retryable way; there is at most one delay, within the
    policy's bounds; and the reported history is exactly the diagnostics of
    the completed attempts, read without touching an empty slot. *)
Theorem execute_attempts_bounded {H T} `{AccountHealthLaws H} retry (env : Environment H T) r h w out :
  retry_policy_ok retry -> steady env ->
  Forall (fun c => 0 < exec_weight c <= MAX_WEIGHT) (candidates r) -> health_ok h ->
  execute retry env r h = (w, Return out) ->
  zlen (world_calls w) <= MAX_TOTAL_ATTEMPTS /\
  ordinals (world_calls w) = Z.of_nat <$> seq 1 (length (world_calls w)) /\
  (forall pre c c' post, world_calls w = pre ++ c :: c' :: post -> retryable c) /\
  zlen (world_waits w) <= 1 /\
  Forall (fun d => base_delay_ms retry <= d <= maximum_delay_ms retry) (world_waits w) /\
  AttemptHistory_iter (outcome_history out) = Some (omap diagnostic_of (world_calls w)).
Proof.
  intros Hpol Hr Hw Hh He.
  destruct (execute_protocol retry env r Hr Hw h Hh)
    as (w' & out' & He' & Hp). rewrite He in He'. simplify_eq.
  destruct (maximum_body_bytes retry <? zlen (body r)).
  - destruct Hp as (-> & -> & ->). split_and!; try done; by intros [|? ?].
  - pose proof (protocol_history _ _ _ _ _ _ _ _ _ Hp) as Hh'.
    destruct (protocol_shape _ _ _ _ _ _ _ _ _ Hpol Hp) as (H1' & H2' & H3' & H4' & H5' & _); [done|].
    unfold MAX_TOTAL_ATTEMPTS in *. split_and!; auto; try lia.
    rewrite Hh'. apply history_iter.
Qed.

Definition demo_run : World * Exit := execute demo_retry demo_env demo_request demo_table.

Lemma execute_attempts_bounded_witness :
  exists w out, demo_run = (w, Return out) /\ zlen (world_calls w) = 2 /\
  zlen (world_calls w) <= MAX_TOTAL_ATTEMPTS /\
  ordinals (world_calls w) = Z.of_nat <$> seq 1 (length (world_calls w)) /\
  (forall pre c c' post, world_calls w = pre ++ c :: c' :: post -> retryable c) /\
  zlen (world_waits w) <= 1 /\
  Forall (fun d => base_delay_ms demo_retry <= d <= maximum_delay_ms demo_retry) (world_waits w) /\
  AttemptHistory_iter (outcome_history out) = Some (omap diagnostic_of (world_calls w)).
Proof.
  eexists _, _. split; [vm_compute; reflexivity|]. split; [vm_compute; reflexivity|].
  eapply (execute_attempts_bounded demo_retry demo_env demo_request demo_table).
  - unfold retry_policy_ok. vm_compute. intuition discriminate.
  - exact (rely_steady _ demo_respectful).
  - exact demo_weights.
  - exact demo_consistent.
  - vm_compute. reflexivity.
Defined.

(** A retry does not hit the account that just failed.  When the second
    attempt of a request starts before the table's minimal cooldown has
    passed, it goes to another account than the first. *)
Theorem retry_avoids_failed_account {H T} `{AccountHealthLaws H} retry (env : Environment H T) r h w x c1 c2 :
  respectful env -> health_ok h -> accountless_account_id r = None ->
  execute retry env r h = (w, x) -> world_calls w = [c1; c2] ->
  env_now env 2 < sat_add64 (env_now env 1) (health_cooldown h) ->
  ctx_account_id c1.1 <> ctx_account_id c2.1.
Proof.
  intros Hr Hh Ha He Hc Hnow. unfold execute, execute_body in He.
  destruct (_ <? _); [unfold st_err in He; simplify_eq; done|].
  rewrite attempt_ordinals_eq in He. unfold st_bind at 1 in He. cbn [st_fold] in He.
  unfold st_bind at 1 in He.
  destruct (attempt retry env r AttemptHistory_default 1 (mkWorld h [] [])) as [wa xa] eqn:E1.
  apply (attempt_account retry env r Hr) in E1; [|done..].
  destruct E1 as [[Ec1 Hx1]|(d1 & Ec1 & _ & Hx1)].
  { destruct xa as [ha|e]; [by edestruct Hx1|]. simplify_eq. by rewrite Ec1 in Hc. }
  cbn in Ec1. destruct xa as [ha|e]; [|simplify_eq; by rewrite Ec1 in Hc].
  destruct (Hx1 ha eq_refl) as [Hok1 Hcool]. unfold st_bind at 1 in He.
  destruct (attempt retry env r ha 2 wa) as [wb xb] eqn:E2.
  apply (attempt_account retry env r Hr) in E2; [|done..].
  assert (w = wb) as -> by (unfold st_ret, st_err in He; destruct xb; congruence).
  destruct E2 as [[Ec2 _]|(d2 & Ec2 & Hu2 & _)]; rewrite Ec2, Ec1 in Hc; [done|].
  cbn in Hc. simplify_eq. intros Heq. rewrite <- Heq in Hu2. revert Hu2.
  by apply (rely_usable _ Hr), Hcool.
Qed.

Lemma retry_avoids_failed_account_witness :
  exists c1 c2, world_calls demo_run.1 = [c1; c2] /\ ctx_account_id c1.1 <> ctx_account_id c2.1.
Proof.
  eexists _, _. split; [vm_compute; reflexivity|].
  eapply (retry_avoids_failed_account demo_retry demo_env demo_request demo_table).
  - exact demo_respectful.
  - exact demo_consistent.
  - reflexivity.
  - vm_compute. reflexivity.
  - vm_compute. reflexivity.
  - vm_compute. reflexivity.
Defined.
