(* ===== verification/Ring.v ===== *)
(** * Diagnostic ring (crates/wokcore-diagnostics/src/ring.rs)

    The in-memory ring of recent diagnostic events: a byte budget, eviction
    from the front, strictly increasing sequence numbers, and pages in both
    directions with a cursor.  An [EventId] is the 128-bit number of its UUID,
    which orders as the UUID does. *)
From S2P Require Import Prelude.

Definition MAX_PREPARED_EVENT_BYTES : Z := 16384.
Definition DEFAULT_RING_BYTES : Z := 16777216.
Definition MAX_RING_BYTES : Z := 16777216.
Definition DEFAULT_PAGE_EVENTS : Z := 100.
Definition MAX_PAGE_EVENTS : Z := 1000.
Definition MAX_PAGE_BYTES : Z := 1048576.

Record PreparedDiagnosticEvent : Set := mkPreparedEvent {
  sequence : Z;
  event_id : Z;
  encoded : list Z
}.

Definition encoded_len (e : PreparedDiagnosticEvent) : Z := zlen (encoded e).

Inductive DiagnosticBuildError : Set :=
| DiagnosticInvalidValue | CollectionLimit | EventTooLarge | Serialization.

Inductive RingInsertOutcome : Set := Inserted | Oversized | OutOfOrder.

#[global] Instance RingInsertOutcome_eq_dec : EqDecision RingInsertOutcome.
Proof. solve_decision. Defined.

Inductive PageDirection : Set := Ascending | Descending.

Record PageCursor : Set := mkPageCursor { cursor_sequence : Z; cursor_event_id : Z }.

Record PageRequest : Set := mkPageRequest {
  direction : PageDirection;
  cursor : option PageCursor;
  max_events : Z;
  max_bytes : Z
}.

Definition PageRequest_default_for (d : PageDirection) : PageRequest :=
  mkPageRequest d None DEFAULT_PAGE_EVENTS MAX_PAGE_BYTES.

Definition PageRequest_with_limits (d : PageDirection) (c : option PageCursor) (events bytes : Z)
    : result DiagnosticBuildError PageRequest :=
  if (events =? 0) || (MAX_PAGE_EVENTS <? events)
     || negb ((MAX_PREPARED_EVENT_BYTES <=? bytes) && (bytes <=? MAX_PAGE_BYTES))
  then Err DiagnosticInvalidValue
  else Ok (mkPageRequest d c events bytes).

Record RingPage : Set := mkRingPage {
  page_events : list PreparedDiagnosticEvent;
  page_encoded_bytes : Z;
  ring_retained_bytes : Z;
  next_cursor : option PageCursor
}.

Record DiagnosticRing : Set := mkRing {
  byte_budget : Z;
  retained_bytes : Z;
  last_sequence : option Z;
  ring_events : list PreparedDiagnosticEvent
}.

Definition DiagnosticRing_new : DiagnosticRing := mkRing DEFAULT_RING_BYTES 0 None [].

Definition with_byte_budget (budget : Z) : result DiagnosticBuildError DiagnosticRing :=
  if negb ((MAX_PREPARED_EVENT_BYTES <=? budget) && (budget <=? MAX_RING_BYTES))
  then Err DiagnosticInvalidValue
  else Ok (mkRing budget 0 None []).

(** The eviction loop: pop from the front until the event fits; [None] when
    the ring runs empty first. *)
Fixpoint evict (budget event_bytes retained : Z) (events : list PreparedDiagnosticEvent)
    : option Z * (Z * list PreparedDiagnosticEvent) :=
  if is_none_or (fun bytes => budget <? bytes) (checked_add64 retained event_bytes) then
    match events with
    | [] => (None, (retained, []))
    | evicted :: events => evict budget event_bytes (sat_sub retained (encoded_len evicted)) events
    end
  else (Some retained, (retained, events)).

Definition DiagnosticRing_insert (ring : DiagnosticRing) (event : PreparedDiagnosticEvent)
    : DiagnosticRing * RingInsertOutcome :=
  if is_some_and (fun s => sequence event <=? s) (last_sequence ring) then (ring, OutOfOrder)
  else
    let event_bytes := encoded_len event in
    if byte_budget ring <? event_bytes then (ring, Oversized)
    else
      match evict (byte_budget ring) event_bytes (retained_bytes ring) (ring_events ring) with
      | (None, (retained, events)) =>
          (mkRing (byte_budget ring) retained (last_sequence ring) events, Oversized)
      | (Some retained, (_, events)) =>
          (mkRing (byte_budget ring) (sat_add64 retained event_bytes) (Some (sequence event))
             (events ++ [event]), Inserted)
      end.

(** [(sequence, event_id)] pairs compare lexicographically. *)
Definition key_lt (x y : Z * Z) : bool := (x.1 <? y.1) || ((x.1 =? y.1) && (x.2 <? y.2)).

Definition event_key (e : PreparedDiagnosticEvent) : Z * Z := (sequence e, event_id e).

Definition after_cursor (r : PageRequest) (e : PreparedDiagnosticEvent) : bool :=
  match direction r, cursor r with
  | _, None => true
  | Ascending, Some c => key_lt (cursor_sequence c, cursor_event_id c) (event_key e)
  | Descending, Some c => key_lt (event_key e) (cursor_sequence c, cursor_event_id c)
  end.

(** The [select] closure and the loop that runs it until it returns false. *)
Fixpoint select_events (r : PageRequest) (selected : list PreparedDiagnosticEvent) (encoded_bytes : Z)
    (events : list PreparedDiagnosticEvent) : list PreparedDiagnosticEvent * Z :=
  match events with
  | [] => (selected, encoded_bytes)
  | event :: rest =>
      if negb (after_cursor r event) || (max_events r <=? zlen selected) then
        if zlen selected <? max_events r then select_events r selected encoded_bytes rest
        else (selected, encoded_bytes)
      else
        match checked_add64 encoded_bytes (encoded_len event) with
        | None => (selected, encoded_bytes)
        | Some next_bytes =>
            if max_bytes r <? next_bytes then (selected, encoded_bytes)
            else select_events r (selected ++ [event]) next_bytes rest
        end
  end.

Definition DiagnosticRing_page (ring : DiagnosticRing) (r : PageRequest) : RingPage :=
  let events :=
    match direction r with
    | Ascending => ring_events ring
    | Descending => rev (ring_events ring)
    end in
  let '(selected, encoded_bytes) := select_events r [] 0 events in
  mkRingPage selected encoded_bytes (retained_bytes ring)
    ((fun e => mkPageCursor (sequence e) (event_id e)) <$> list.last selected).

(** ** Invariant *)

Definition total_bytes (l : list PreparedDiagnosticEvent) : Z := foldr Z.add 0 (encoded_len <$> l).

Definition increasing (l : list PreparedDiagnosticEvent) : Prop :=
  StronglySorted (fun x y => sequence x < sequence y) l.

Record ring_ok (ring : DiagnosticRing) : Prop := {
  ring_budget : 0 <= byte_budget ring <= MAX_RING_BYTES;
  ring_bytes : retained_bytes ring = total_bytes (ring_events ring);
  ring_bound : retained_bytes ring <= byte_budget ring;
  ring_sorted : increasing (ring_events ring);
  ring_last : Forall (fun e => exists s, last_sequence ring = Some s /\ sequence e <= s)
    (ring_events ring)
}.

Lemma total_bytes_app l k : total_bytes (l ++ k) = total_bytes l + total_bytes k.
Proof. unfold total_bytes. induction l as [|x l IH]; cbn in *; lia. Qed.

Lemma total_bytes_nonneg l : 0 <= total_bytes l.
Proof.
  unfold total_bytes. induction l as [|x l IH]; cbn in *; [lia|].
  unfold encoded_len at 1. pose proof (zlen_nonneg (encoded x)). lia.
Qed.

(** The loop drops the shortest prefix that makes room. *)
Lemma evict_spec budget n events : forall retained,
  retained = total_bytes events -> 0 <= n <= budget -> budget <= MAX_RING_BYTES ->
  exists dropped kept, events = dropped ++ kept /\
    evict budget n retained events = (Some (total_bytes kept), (total_bytes kept, kept)) /\
    total_bytes kept + n <= budget /\
    (forall e, list.last dropped = Some e -> budget < encoded_len e + total_bytes kept + n).
Proof.
  induction events as [|e events IH]; intros retained -> Hn Hb; cbn [evict].
  - exists [], []. assert (checked_add64 (total_bytes []) n = Some n) as ->.
    { unfold checked_add64, total_bytes. cbn. rewrite (proj2 (Z.leb_le _ _)); [done|].
      unfold MAX_RING_BYTES in Hb. ulia. }
    cbn [is_none_or]. rewrite (proj2 (Z.ltb_ge _ _)) by lia.
    repeat split; [|done]. unfold total_bytes. cbn. lia.
  - pose proof (total_bytes_nonneg events) as H0. pose proof (zlen_nonneg (encoded e)) as H1.
    assert (total_bytes (e :: events) = encoded_len e + total_bytes events) as Ht by done.
    destruct (is_none_or _ _) eqn:Efull.
    + assert (budget < encoded_len e + total_bytes events + n) as Hfull.
      { rewrite Ht in Efull. unfold checked_add64 in Efull.
        destruct (_ <=? u64_max) eqn:Eu; cbn in Efull; unfold MAX_RING_BYTES in *; ulia. }
      assert (sat_sub (total_bytes (e :: events)) (encoded_len e) = total_bytes events) as ->
        by (rewrite Ht; unfold sat_sub; lia).
      destruct (IH (total_bytes events)) as (d & k & -> & He & Hfit & Hmin); [done..|].
      exists (e :: d), k. split; [done|]. split; [done|]. split; [done|].
      destruct d as [|d0 d]; [|done]. intros e' [= <-]. exact Hfull.
    + exists [], (e :: events). repeat split; [|done].
      unfold checked_add64 in Efull. destruct (_ <=? u64_max) eqn:Eu; cbn [is_none_or] in Efull; [lia|done].
Qed.

Lemma insert_ok ring e ring' out :
  ring_ok ring -> DiagnosticRing_insert ring e = (ring', out) ->
  ring_ok ring' /\ byte_budget ring' = byte_budget ring /\
  match out with
  | OutOfOrder => ring' = ring /\ exists s, last_sequence ring = Some s /\ sequence e <= s
  | Oversized => ring' = ring /\ byte_budget ring < encoded_len e
  | Inserted => last_sequence ring' = Some (sequence e) /\
      exists dropped kept, ring_events ring = dropped ++ kept /\ ring_events ring' = kept ++ [e] /\
        forall d, list.last dropped = Some d ->
          byte_budget ring < encoded_len d + total_bytes kept + encoded_len e
  end.
Proof.
  intros Hok. unfold DiagnosticRing_insert.
  destruct (is_some_and _ _) eqn:Eo.
  { intros [= <- <-]. split_and!; auto. unfold is_some_and in Eo.
    destruct (last_sequence ring) as [s|]; [|done]. exists s. split; [done|lia]. }
  pose proof Hok as [Hbud Hby Hbnd Hs Hl].
  destruct (byte_budget ring <? encoded_len e) eqn:Eb; [intros [= <- <-]; split_and!; auto; lia|].
  pose proof (zlen_nonneg (encoded e)).
  destruct (evict_spec (byte_budget ring) (encoded_len e) (ring_events ring) (retained_bytes ring))
    as (d & k & He & -> & Hfit & Hmin); [done|unfold encoded_len in *; lia|lia|].
  intros [= <- <-]. split_and!; cbn; auto; [|by exists d, k].
  pose proof (total_bytes_nonneg k) as Hk.
  assert (total_bytes (k ++ [e]) = total_bytes k + encoded_len e) as Htk.
  { rewrite total_bytes_app. unfold total_bytes at 2. cbn. lia. }
  assert (sat_add64 (total_bytes k) (encoded_len e) = total_bytes (k ++ [e])) as Hsat.
  { rewrite Htk. apply sat_add64_exact. unfold MAX_RING_BYTES in *. ulia. }
  rewrite He in Hs, Hl. apply list.Forall_app in Hl as [_ Hlk].
  constructor; cbn; [done|by rewrite Hsat|rewrite Hsat, Htk; lia|..].
  - apply StronglySorted_app_1_r in Hs. apply StronglySorted_app_2; [|done|repeat constructor].
    intros x y Hx Hy%list_elem_of_singleton. subst y. apply list.Forall_forall with (x := x) in Hlk as (s & Hls & ?); [|done].
    rewrite Hls in Eo. cbn in Eo. lia.
  - apply list.Forall_app. split; [|repeat constructor; eexists; split; [done|lia]].
    eapply Forall_impl; [|exact Hlk]. cbn. intros x (s & Hls & ?). exists (sequence e). split; [done|].
    rewrite Hls in Eo. cbn in Eo. lia.
Qed.

(** Rings reachable from an empty one by insertions. *)
Inductive ring_reaches : DiagnosticRing -> Prop :=
| ring_reaches_new budget ring : with_byte_budget budget = Ok ring -> ring_reaches ring
| ring_reaches_insert ring e : ring_reaches ring -> ring_reaches (DiagnosticRing_insert ring e).1.

Lemma ring_reaches_ok ring : ring_reaches ring -> ring_ok ring.
Proof.
  induction 1 as [budget ring Hn|ring e _ IH].
  - unfold with_byte_budget in Hn. destruct (negb _) eqn:E; [done|]. simplify_eq.
    rewrite negb_false_iff, andb_true_iff, !Z.leb_le in E. unfold MAX_PREPARED_EVENT_BYTES in E.
    constructor; cbn; [lia|done|lia|constructor|constructor].
  - destruct (DiagnosticRing_insert ring e) as [r o] eqn:E. by eapply insert_ok.
Qed.

(** ** Paging *)

(** The events in the order a direction visits them. *)
Definition visited (d : PageDirection) (ring : DiagnosticRing) : list PreparedDiagnosticEvent :=
  match d with Ascending => ring_events ring | Descending => rev (ring_events ring) end.

Definition ahead (d : PageDirection) (x y : PreparedDiagnosticEvent) : Prop :=
  match d with Ascending => sequence x < sequence y | Descending => sequence y < sequence x end.

Lemma visited_sorted d ring : ring_ok ring -> StronglySorted (ahead d) (visited d ring).
Proof.
  intros [_ _ _ Hs _]. destruct d; [exact Hs|]. cbn. clear -Hs.
  induction Hs as [|x l Hs IH Hx]; cbn; [constructor|].
  apply StronglySorted_app_2; [|done|repeat constructor].
  intros y z Hy Hz%list_elem_of_singleton. subst z. apply list.Forall_forall with (x := y) in Hx; [done|].
  apply list_elem_of_In, in_rev. by apply list_elem_of_In.
Qed.

Lemma select_skip r l k : 0 < max_events r -> Forall (fun e => after_cursor r e = false) l ->
  select_events r [] 0 (l ++ k) = select_events r [] 0 k.
Proof.
  intros Hm. induction 1 as [|e l He _ IH]; [done|]. cbn [app select_events].
  rewrite He. cbn [negb orb]. rewrite (proj2 (Z.ltb_lt _ _)) by (unfold zlen; cbn; lia). done.
Qed.

(** From the cursor on, the page is the longest prefix within both limits. *)
Lemma select_prefix r l : forall selected bytes,
  Forall (fun e => after_cursor r e = true) l -> bytes = total_bytes selected ->
  0 <= bytes <= max_bytes r -> max_bytes r <= MAX_PAGE_BYTES -> zlen selected <= max_events r ->
  exists taken rest, l = taken ++ rest /\
    select_events r selected bytes l = (selected ++ taken, total_bytes (selected ++ taken)) /\
    zlen (selected ++ taken) <= max_events r /\ total_bytes (selected ++ taken) <= max_bytes r /\
    (forall e, head rest = Some e -> zlen (selected ++ taken) = max_events r \/
      max_bytes r < total_bytes (selected ++ taken) + encoded_len e).
Proof.
  induction l as [|e l IH]; intros sel bytes Hl -> Hb Hmax Hn; cbn [select_events].
  { exists [], []. rewrite !app_nil_r. split_and!; auto; try lia; done. }
  apply Forall_cons_1 in Hl as [He Hl]. rewrite He. cbn [negb orb].
  destruct (max_events r <=? zlen sel) eqn:Ef.
  { rewrite (proj2 (Z.ltb_ge _ _)) by lia. exists [], (e :: l). rewrite !app_nil_r.
    split_and!; auto; lia. }
  pose proof (zlen_nonneg (encoded e)).
  unfold checked_add64. destruct (_ <=? u64_max) eqn:Eu.
  2:{ exists [], (e :: l). rewrite !app_nil_r. split_and!; auto; try lia.
      intros ? [= <-]. right. unfold MAX_PAGE_BYTES in *. ulia. }
  destruct (max_bytes r <? total_bytes sel + encoded_len e) eqn:Eb.
  { exists [], (e :: l). rewrite !app_nil_r. split_and!; auto; try lia.
    intros ? [= <-]. right. lia. }
  assert (total_bytes (sel ++ [e]) = total_bytes sel + encoded_len e) as Ht.
  { rewrite total_bytes_app. unfold total_bytes at 2. cbn. lia. }
  destruct (IH (sel ++ [e]) (total_bytes sel + encoded_len e)) as (tk & rest & -> & -> & H1 & H2 & H3);
    auto; [unfold encoded_len in *; lia|rewrite zlen_app, zlen_cons; change (zlen []) with 0; lia|].
  exists (e :: tk), rest. rewrite <- app_assoc in *. by split_and!.
Qed.

(** The pages a client reads by following the cursors. *)
Fixpoint read_pages (fuel : nat) (ring : DiagnosticRing) (r : PageRequest) : list RingPage :=
  match fuel with
  | O => []
  | S fuel =>
      let p := DiagnosticRing_page ring r in
      match page_events p with
      | [] => []
      | _ => p :: read_pages fuel ring (mkPageRequest (direction r) (next_cursor p) (max_events r) (max_bytes r))
      end
  end.

Definition page_within (r : PageRequest) (p : RingPage) : Prop :=
  zlen (page_events p) <= max_events r /\ page_encoded_bytes p <= max_bytes r /\
  page_encoded_bytes p = total_bytes (page_events p).

Definition limits_ok (r : PageRequest) : Prop :=
  0 < max_events r /\ MAX_PREPARED_EVENT_BYTES <= max_bytes r <= MAX_PAGE_BYTES.

Lemma with_limits_ok d c n b r : 0 <= n -> PageRequest_with_limits d c n b = Ok r ->
  limits_ok r /\ direction r = d /\ cursor r = c.
Proof.
  unfold PageRequest_with_limits, limits_ok. intros Hn. destruct (_ || _) eqn:E; [done|].
  intros [= <-]. rewrite !orb_false_iff, negb_false_iff, andb_true_iff in E. cbn.
  split; [lia|done].
Qed.

(** The cursor of the last event of [done] separates [done] from [rest]. *)
Lemma cursor_splits d r pre c rest :
  StronglySorted (ahead d) (pre ++ [c] ++ rest) -> direction r = d ->
  cursor r = Some (mkPageCursor (sequence c) (event_id c)) ->
  Forall (fun e => after_cursor r e = false) (pre ++ [c]) /\
  Forall (fun e => after_cursor r e = true) rest.
Proof.
  intros Hs Hd Hc. rewrite app_assoc in Hs.
  assert (forall x, x ∈ rest -> ahead d c x) as Hr.
  { intros x Hx. eapply StronglySorted_app_1_elem_of; [exact Hs| |exact Hx]. set_solver. }
  assert (forall x, x ∈ pre -> ahead d x c) as Hp.
  { intros x Hx. apply StronglySorted_app_1_l in Hs.
    eapply StronglySorted_app_1_elem_of; [exact Hs|exact Hx|set_solver]. }
  unfold after_cursor, event_key, key_lt. rewrite Hd, Hc. cbn.
  split; apply list.Forall_forall; intros x Hx.
  - apply elem_of_app in Hx as [Hx|Hx%list_elem_of_singleton].
    + specialize (Hp x Hx). destruct d; cbn in *; lia.
    + subst x. destruct d; cbn; lia.
  - specialize (Hr x Hx). destruct d; cbn in *; lia.
Qed.

(** One page, from a position that splits the visited events into those
    already read and the rest. *)
Lemma page_step ring r past rest :
  limits_ok r -> ring_ok ring -> Forall (fun e => encoded_len e <= MAX_PREPARED_EVENT_BYTES) (ring_events ring) ->
  visited (direction r) ring = past ++ rest ->
  Forall (fun e => after_cursor r e = false) past -> Forall (fun e => after_cursor r e = true) rest ->
  exists taken rest', rest = taken ++ rest' /\ page_events (DiagnosticRing_page ring r) = taken /\
    page_within r (DiagnosticRing_page ring r) /\ (taken = [] -> rest = []) /\
    next_cursor (DiagnosticRing_page ring r) =
      ((fun e => mkPageCursor (sequence e) (event_id e)) <$> list.last taken).
Proof.
  intros [Hm [Hb1 Hb2]] Hok Hlen Hv Hpast Hrest.
  destruct (select_prefix r rest [] 0) as (tk & rest' & -> & Hsel & H1 & H2 & H3); auto;
    [unfold MAX_PREPARED_EVENT_BYTES in *; lia|unfold zlen; cbn; lia|].
  assert (DiagnosticRing_page ring r = mkRingPage tk (total_bytes tk) (retained_bytes ring)
    ((fun e => mkPageCursor (sequence e) (event_id e)) <$> list.last tk)) as ->.
  { unfold DiagnosticRing_page. change (match direction r with Ascending => ring_events ring
      | Descending => rev (ring_events ring) end) with (visited (direction r) ring).
    rewrite Hv, select_skip by done. by rewrite Hsel. }
  exists tk, rest'. split_and!; auto; [by split_and!|].
  intros ->. destruct rest' as [|e rest']; [done|]. exfalso. cbn in H3.
  assert (e ∈ ring_events ring) as He.
  { assert (e ∈ visited (direction r) ring) as Hin by (rewrite Hv; set_solver).
    destruct (direction r); [done|]. apply list_elem_of_In, in_rev. by apply list_elem_of_In. }
  apply list.Forall_forall with (x := e) in Hlen; [|done].
  destruct (H3 e eq_refl) as [Hz|Hz]; [change (zlen []) with 0 in Hz; lia|].
  change (total_bytes []) with 0 in Hz. lia.
Qed.

Lemma read_pages_rest fuel ring : forall r past rest,
  limits_ok r -> ring_ok ring -> Forall (fun e => encoded_len e <= MAX_PREPARED_EVENT_BYTES) (ring_events ring) ->
  visited (direction r) ring = past ++ rest ->
  Forall (fun e => after_cursor r e = false) past -> Forall (fun e => after_cursor r e = true) rest ->
  (length rest < fuel)%nat ->
  concat (map page_events (read_pages fuel ring r)) = rest /\
  Forall (page_within r) (read_pages fuel ring r).
Proof.
  induction fuel as [|fuel IH]; intros r past rest Hl Hok Hlen Hv Hp Hr Hf; [lia|].
  destruct (page_step ring r past rest) as (tk & rest' & -> & Hev & Hw & Hemp & Hcur); auto.
  cbn [read_pages]. rewrite Hev. destruct tk as [|e tk]; [by rewrite (Hemp eq_refl)|].
  assert (exists pre c, e :: tk = pre ++ [c]) as (pre & c & Htk).
  { destruct (exists_last (l := e :: tk) ltac:(done)) as (pre & c & ->). eauto. }
  rewrite Htk, last_snoc in Hcur. cbn in Hcur. rewrite Hcur.
  set (r' := mkPageRequest (direction r) _ (max_events r) (max_bytes r)).
  destruct (cursor_splits (direction r) r' (past ++ pre) c rest') as [Hp' Hr']; [|done|done|].
  { rewrite <- app_assoc, (app_assoc pre), <- Htk, <- Hv. by apply visited_sorted. }
  destruct (IH r' ((past ++ pre) ++ [c]) rest') as [Hc Hw']; auto.
  { cbn [direction r']. rewrite Hv, Htk, <- !app_assoc. done. }
  { cbn in Hf. rewrite length_app in Hf. lia. }
  cbn [map concat]. split; [by rewrite Hc, Hev|]. by constructor.
Qed.

(** ** Claims *)

(** Insertion into a reachable ring.  The ring never holds more than its
    budget, its byte counter is exact, its sequence numbers increase strictly;
    an event is refused exactly because it is not newer than the last one or
    because it alone exceeds the budget, and then nothing changes; otherwise
    it becomes the last event and only the shortest prefix of old events that
    makes room is dropped. *)
Theorem ring_insert_correct ring e ring' out :
  ring_reaches ring -> DiagnosticRing_insert ring e = (ring', out) ->
  retained_bytes ring' = total_bytes (ring_events ring') /\
  retained_bytes ring' <= byte_budget ring' /\ byte_budget ring' = byte_budget ring /\
  increasing (ring_events ring') /\
  match out with
  | OutOfOrder => ring' = ring /\ exists s, last_sequence ring = Some s /\ sequence e <= s
  | Oversized => ring' = ring /\ byte_budget ring < encoded_len e
  | Inserted => last_sequence ring' = Some (sequence e) /\
      exists dropped kept, ring_events ring = dropped ++ kept /\ ring_events ring' = kept ++ [e] /\
        forall d, list.last dropped = Some d ->
          byte_budget ring < encoded_len d + total_bytes kept + encoded_len e
  end.
Proof.
  intros Hr%ring_reaches_ok Hi. destruct (insert_ok _ _ _ _ Hr Hi) as ([_ Hb Hbd Hs _] & Hbud & Ho).
  by split_and!.
Qed.

Definition demo_ring : DiagnosticRing := mkRing 16384 0 None [].

Lemma ring_insert_correct_witness :
  let ring := (DiagnosticRing_insert demo_ring (mkPreparedEvent 1 7 [1; 2])).1 in
  retained_bytes ring <= byte_budget ring.
Proof.
  eapply (ring_insert_correct demo_ring (mkPreparedEvent 1 7 [1; 2])); [|vm_compute; reflexivity].
  eapply (ring_reaches_new 16384). reflexivity.
Defined.

(** Following the cursors reads the whole ring.  For limits accepted by the
    request constructor, paging a ring in either direction until an empty page
    takes at most one page more than there are events, visits every event
    exactly once in ring order (reversed when descending), and every page
    respects both limits. *)
Theorem ring_pages_complete ring d n b r :
  ring_reaches ring -> Forall (fun e => encoded_len e <= MAX_PREPARED_EVENT_BYTES) (ring_events ring) ->
  0 <= n -> PageRequest_with_limits d None n b = Ok r ->
  concat (map page_events (read_pages (S (length (ring_events ring))) ring r)) = visited d ring /\
  Forall (page_within r) (read_pages (S (length (ring_events ring))) ring r).
Proof.
  intros Hr%ring_reaches_ok Hlen Hn (Hl & <- & Hc)%with_limits_ok; [|done].
  apply (read_pages_rest _ ring r []); auto.
  - apply list.Forall_forall. intros e _. unfold after_cursor. rewrite Hc. by destruct (direction r).
  - destruct (direction r); cbn; rewrite ?length_rev; lia.
Qed.

Lemma ring_pages_complete_witness :
  let ring := (DiagnosticRing_insert (DiagnosticRing_insert demo_ring (mkPreparedEvent 1 7 [1; 2])).1
    (mkPreparedEvent 5 3 [4])).1 in
  let r := mkPageRequest Descending None 1 16384 in
  concat (map page_events (read_pages 3 ring r)) = [mkPreparedEvent 5 3 [4]; mkPreparedEvent 1 7 [1; 2]].
Proof.
  eapply (ring_pages_complete (DiagnosticRing_insert (DiagnosticRing_insert demo_ring
    (mkPreparedEvent 1 7 [1; 2])).1 (mkPreparedEvent 5 3 [4])).1 Descending 1 16384).
  - do 2 apply ring_reaches_insert. eapply (ring_reaches_new 16384). reflexivity.
  - repeat constructor; vm_compute; discriminate.
  - lia.
  - reflexivity.
Defined.
