(* ===== verification/Lifecycle.v ===== *)
(** * Service lifecycle (crates/wokcore-server/src/lifecycle)

    Admission of requests ([admission.rs]) and the phase transitions
    ([service.rs]) run concurrently on shared atomics.  Every atomic access is
    one step: a thread is a program counter, one Rust method is the sequence
    of counters it goes through, and the system interleaves the threads.  The
    accesses are all [SeqCst], so the interleaving semantics is the one the
    code asks for.  The transition mutex is modelled with its holder; what a
    method does to [TransitionState] while it holds the mutex is part of the
    next step.  The notifications that wake the waiters carry no data; waiting
    is modelled by the waiter's checks, which may run at any time. *)
From S2P Require Import Prelude.

(** ** Data *)

Inductive LifecyclePhase : Set :=
| Starting | Running | Draining | AwaitingCancellation | Stopping.

#[global] Instance LifecyclePhase_eq_dec : EqDecision LifecyclePhase.
Proof. solve_decision. Defined.

Inductive DrainOutcome : Set := DrainCompleted | TimedOutAwaitingCancellation | DrainCancelled.

#[global] Instance DrainOutcome_eq_dec : EqDecision DrainOutcome.
Proof. solve_decision. Defined.

Inductive DrainWait : Set := ZeroActive | TimedOut | WaitCancelled.

#[global] Instance DrainWait_eq_dec : EqDecision DrainWait.
Proof. solve_decision. Defined.

Inductive LifecycleError : Set :=
| InvalidTransition (from : LifecyclePhase)
| ActiveRequestsRemain (active_requests : Z)
| TransitionStateUnavailable
| DrainGenerationExhausted
| TransitionRevisionExhausted.

Record LifecycleSnapshot : Set := mkLifecycleSnapshot {
  snapshot_phase : LifecyclePhase;
  snapshot_active : Z
}.

Inductive DecrementOutcome : Set := BecameZero | Remaining | AlreadyZero.

(** [SharedLifecycle], the [TransitionState] behind the mutex with the thread
    that holds it, and the watch channel. *)
Record Shared : Set := mkShared {
  phase : LifecyclePhase;
  active : Z;
  transition_revision : Z;
  activity_revision : Z;
  t_phase : LifecyclePhase;
  drain_generation : Z;
  t_holder : option nat;
  watch_phase : LifecyclePhase;
  watch_generation : Z
}.

Definition ServiceLifecycle_new : Shared :=
  mkShared Starting 0 0 0 Starting 0 None Starting 0.

Definition set_active (n : Z) (s : Shared) : Shared :=
  mkShared (phase s) n (transition_revision s) (activity_revision s) (t_phase s)
    (drain_generation s) (t_holder s) (watch_phase s) (watch_generation s).
Definition set_revision (n : Z) (s : Shared) : Shared :=
  mkShared (phase s) (active s) n (activity_revision s) (t_phase s)
    (drain_generation s) (t_holder s) (watch_phase s) (watch_generation s).
Definition set_activity (n : Z) (s : Shared) : Shared :=
  mkShared (phase s) (active s) (transition_revision s) n (t_phase s)
    (drain_generation s) (t_holder s) (watch_phase s) (watch_generation s).
Definition set_generation (n : Z) (s : Shared) : Shared :=
  mkShared (phase s) (active s) (transition_revision s) (activity_revision s) (t_phase s)
    n (t_holder s) (watch_phase s) (watch_generation s).
Definition set_holder (h : option nat) (s : Shared) : Shared :=
  mkShared (phase s) (active s) (transition_revision s) (activity_revision s) (t_phase s)
    (drain_generation s) h (watch_phase s) (watch_generation s).

(** The calls that take the transition mutex. *)
Inductive Transition : Set :=
| MarkRunning
| BeginDrain
| CancelDrain
| RequestStop
| FinishDrainWait (generation : Z) (event : DrainWait).

(** What a transition call has decided to return. *)
Inductive Answer : Set :=
| AnswerDone
| AnswerDrain (outcome : DrainOutcome)
| AnswerWait (generation : Z)
| AnswerError (e : LifecycleError).

(** What follows a [publish_phase] in the method that called it. *)
Inductive AfterPublish : Set :=
| ThenAnswer (a : Answer)
| ThenCheckActive.

Inductive Pc : Set :=
| Idle
(* [AdmissionController::try_enter] and the guard *)
| TryEnter
| TryEnterIncrement
| TryEnterRecheck
| TryEnterRollback
| Guard
| GuardDrop
(* a transition method: before the lock, holding it, publishing, unlocking *)
| Call (t : Transition)
| Locked (t : Transition)
| PublishRevision (p : LifecyclePhase) (k : AfterPublish)
| PublishStore (p : LifecyclePhase) (k : AfterPublish)
| PublishWatch (p : LifecyclePhase) (k : AfterPublish)
| StopCheckActive
| DrainCheckActive
| Unlock (a : Answer)
| Answered (a : Answer)
(* [wait_for_drain] *)
| WaitWatch (generation : Z)
| WaitActive (generation : Z)
(* [snapshot]; [seen] is the phase at the moment [active] was read *)
| SnapRevision
| SnapPhase (revision : Z)
| SnapActive (revision : Z) (before : LifecyclePhase)
| SnapPhaseAgain (revision : Z) (before : LifecyclePhase) (n : Z) (seen : LifecyclePhase)
| SnapRevisionAgain (revision : Z) (before : LifecyclePhase) (n : Z) (seen after : LifecyclePhase)
| SnapTaken (snapshot : LifecycleSnapshot) (seen : LifecyclePhase).

(** ** Admission *)

Definition observe_activity (s : Shared) : Shared :=
  match checked_add64 (activity_revision s) 1 with
  | Some r => set_activity r s
  | None => s
  end.

Definition checked_decrement (s : Shared) : Shared * DecrementOutcome :=
  match checked_sub64 (active s) 1 with
  | Some n => (set_active n s, if active s =? 1 then BecameZero else Remaining)
  | None => (s, AlreadyZero)
  end.

Definition decrement_active (s : Shared) : Shared :=
  match checked_decrement s with
  | (s, AlreadyZero) => s
  | (s, _) => observe_activity s
  end.

(** [try_enter], access by access. *)
Definition try_enter_load (s : Shared) : Shared * Pc :=
  if bool_decide (phase s = Running) then (s, TryEnterIncrement) else (s, Idle).

Definition try_enter_increment (s : Shared) : Shared * Pc :=
  match checked_add64 (active s) 1 with
  | Some n => (set_active n s, TryEnterRecheck)
  | None => (s, Idle)
  end.

Definition try_enter_recheck (s : Shared) : Shared * Pc :=
  if bool_decide (phase s = Running) then (observe_activity s, Guard) else (s, TryEnterRollback).

(** ** Transitions *)

(** [publish_phase]: advance the revision, set the phase under the mutex and
    store it for the readers, replace the watched value. *)
Definition advance_transition_revision (s : Shared) : Shared * bool :=
  match checked_add64 (transition_revision s) 1 with
  | Some r => (set_revision r s, true)
  | None => (s, false)
  end.

Definition publish_revision (p : LifecyclePhase) (k : AfterPublish) (s : Shared) : Shared * Pc :=
  match advance_transition_revision s with
  | (s, true) => (s, PublishStore p k)
  | (s, false) => (s, Unlock (AnswerError TransitionRevisionExhausted))
  end.

Definition publish_store (p : LifecyclePhase) (k : AfterPublish) (s : Shared) : Shared * Pc :=
  (mkShared p (active s) (transition_revision s) (activity_revision s) p (drain_generation s)
     (t_holder s) (watch_phase s) (watch_generation s), PublishWatch p k).

Definition publish_watch (p : LifecyclePhase) (k : AfterPublish) (s : Shared) : Shared * Pc :=
  (mkShared (phase s) (active s) (transition_revision s) (activity_revision s) (t_phase s)
     (drain_generation s) (t_holder s) p (drain_generation s),
   match k with ThenAnswer a => Unlock a | ThenCheckActive => StopCheckActive end).

Definition lock_transition (i : nat) (t : Transition) (s : Shared) : option (Shared * Pc) :=
  match t_holder s with
  | None => Some (set_holder (Some i) s, Locked t)
  | Some _ => None
  end.

Definition mark_running (s : Shared) : Shared * Pc :=
  if bool_decide (t_phase s = Starting) then (s, PublishRevision Running (ThenAnswer AnswerDone))
  else (s, Unlock (AnswerError (InvalidTransition (t_phase s)))).

(** The running case shared by [begin_drain] and [request_stop]: a new drain
    generation, then the draining phase. *)
Definition next_generation (k : Z -> AfterPublish) (s : Shared) : Shared * Pc :=
  match checked_add64 (drain_generation s) 1 with
  | Some g => (set_generation g s, PublishRevision Draining (k g))
  | None => (s, Unlock (AnswerError DrainGenerationExhausted))
  end.

Definition begin_drain (s : Shared) : Shared * Pc :=
  match t_phase s with
  | Starting => (s, Unlock (AnswerError (InvalidTransition (t_phase s))))
  | Running => next_generation (fun g => ThenAnswer (AnswerWait g)) s
  | Draining => (s, Unlock (AnswerWait (drain_generation s)))
  | AwaitingCancellation => (s, DrainCheckActive)
  | Stopping => (s, Unlock (AnswerDrain DrainCompleted))
  end.

Definition drain_check_active (s : Shared) : Shared * Pc :=
  if active s =? 0 then (s, Unlock (AnswerDrain DrainCompleted))
  else (s, Unlock (AnswerDrain TimedOutAwaitingCancellation)).

Definition cancel_drain (s : Shared) : Shared * Pc :=
  match t_phase s with
  | Draining | AwaitingCancellation => (s, PublishRevision Running (ThenAnswer AnswerDone))
  | p => (s, Unlock (AnswerError (InvalidTransition p)))
  end.

Definition request_stop (s : Shared) : Shared * Pc :=
  match t_phase s with
  | Starting => (s, Unlock (AnswerError (InvalidTransition (t_phase s))))
  | Running => next_generation (fun _ => ThenCheckActive) s
  | Draining | AwaitingCancellation => (s, StopCheckActive)
  | Stopping => (s, Unlock AnswerDone)
  end.

Definition stop_check_active (s : Shared) : Shared * Pc :=
  if negb (active s =? 0) then (s, Unlock (AnswerError (ActiveRequestsRemain (active s))))
  else (s, PublishRevision Stopping (ThenAnswer AnswerDone)).

(** One iteration of the loop of [wait_for_drain]: the watched value, then the
    counter. *)
Definition wait_for_drain (generation : Z) (s : Shared) : Shared * Pc :=
  if negb (watch_generation s =? generation) || bool_decide (watch_phase s = Running)
  then (s, Call (FinishDrainWait generation WaitCancelled))
  else match watch_phase s with
       | AwaitingCancellation => (s, Call (FinishDrainWait generation TimedOut))
       | Stopping => (s, Call (FinishDrainWait generation ZeroActive))
       | Starting | Running | Draining => (s, WaitActive generation)
       end.

Definition wait_check_active (generation : Z) (s : Shared) : Shared * Pc :=
  if active s =? 0 then (s, Call (FinishDrainWait generation ZeroActive)) else (s, WaitWatch generation).

(** [finish_drain_wait] reads the counter, under the mutex, unless it has
    already decided. *)
Definition finish_drain_wait (generation : Z) (event : DrainWait) (s : Shared) : Shared * Pc :=
  if bool_decide (t_phase s = Stopping) then (s, Unlock (AnswerDrain DrainCompleted))
  else if negb (drain_generation s =? generation) || bool_decide (t_phase s = Running)
          || bool_decide (event = WaitCancelled)
  then (s, Unlock (AnswerDrain DrainCancelled))
  else if (active s =? 0) || bool_decide (event = ZeroActive)
  then (s, Unlock (AnswerDrain DrainCompleted))
  else match t_phase s with
       | Draining => (s, PublishRevision AwaitingCancellation
                           (ThenAnswer (AnswerDrain TimedOutAwaitingCancellation)))
       | AwaitingCancellation => (s, Unlock (AnswerDrain TimedOutAwaitingCancellation))
       | Starting => (s, Unlock (AnswerError (InvalidTransition (t_phase s))))
       | Running => (s, Unlock (AnswerDrain DrainCancelled))
       | Stopping => (s, Unlock (AnswerDrain DrainCompleted))
       end.

Definition run_locked (t : Transition) (s : Shared) : Shared * Pc :=
  match t with
  | MarkRunning => mark_running s
  | BeginDrain => begin_drain s
  | CancelDrain => cancel_drain s
  | RequestStop => request_stop s
  | FinishDrainWait g e => finish_drain_wait g e s
  end.

Definition unlock (a : Answer) (s : Shared) : Shared * Pc :=
  (set_holder None s, match a with AnswerWait g => WaitWatch g | _ => Answered a end).

(** ** Snapshot *)

Definition snap_compare (revision : Z) (before : LifecyclePhase) (n : Z)
    (seen after : LifecyclePhase) (s : Shared) : Shared * Pc :=
  if (revision =? transition_revision s) && bool_decide (before = after)
  then (s, SnapTaken (mkLifecycleSnapshot after n) seen)
  else (s, SnapRevision).

(** ** The system *)

(** The next access of thread [i]; [None] when it is blocked or at rest. *)
Definition thread_step (i : nat) (s : Shared) (pc : Pc) : option (Shared * Pc) :=
  match pc with
  | Idle | Guard | Answered _ | SnapTaken _ _ => None
  | TryEnter => Some (try_enter_load s)
  | TryEnterIncrement => Some (try_enter_increment s)
  | TryEnterRecheck => Some (try_enter_recheck s)
  | TryEnterRollback | GuardDrop => Some (decrement_active s, Idle)
  | Call t => lock_transition i t s
  | Locked t => Some (run_locked t s)
  | PublishRevision p k => Some (publish_revision p k s)
  | PublishStore p k => Some (publish_store p k s)
  | PublishWatch p k => Some (publish_watch p k s)
  | StopCheckActive => Some (stop_check_active s)
  | DrainCheckActive => Some (drain_check_active s)
  | Unlock a => Some (unlock a s)
  | WaitWatch g => Some (wait_for_drain g s)
  | WaitActive g => Some (wait_check_active g s)
  | SnapRevision => Some (s, SnapPhase (transition_revision s))
  | SnapPhase r => Some (s, SnapActive r (phase s))
  | SnapActive r b => Some (s, SnapPhaseAgain r b (active s) (phase s))
  | SnapPhaseAgain r b n seen => Some (s, SnapRevisionAgain r b n seen (phase s))
  | SnapRevisionAgain r b n seen a => Some (snap_compare r b n seen a s)
  end.

(** What a caller may start; a drain timeout strikes a waiter at any check. *)
Inductive caller_move : Pc -> Pc -> Prop :=
| move_enter pc : pc = Idle \/ (exists a, pc = Answered a) \/ (exists n p, pc = SnapTaken n p) ->
    caller_move pc TryEnter
| move_call pc t : pc = Idle \/ (exists a, pc = Answered a) \/ (exists n p, pc = SnapTaken n p) ->
    (forall g e, t <> FinishDrainWait g e) -> caller_move pc (Call t)
| move_snapshot pc : pc = Idle \/ (exists a, pc = Answered a) \/ (exists n p, pc = SnapTaken n p) ->
    caller_move pc SnapRevision
| move_drop : caller_move Guard GuardDrop
| move_timeout g pc : pc = WaitWatch g \/ pc = WaitActive g ->
    caller_move pc (Call (FinishDrainWait g TimedOut)).

Record System : Type := mkSystem { shared : Shared; threads : list Pc }.

Inductive system_step : System -> System -> Prop :=
| step_thread i pc s ths s' pc' :
    ths !! i = Some pc -> thread_step i s pc = Some (s', pc') ->
    system_step (mkSystem s ths) (mkSystem s' (<[i := pc']> ths))
| step_caller i pc s ths pc' :
    ths !! i = Some pc -> caller_move pc pc' ->
    system_step (mkSystem s ths) (mkSystem s (<[i := pc']> ths)).

Definition initial (n : nat) : System := mkSystem ServiceLifecycle_new (replicate n Idle).

Definition reachable (n : nat) : System -> Prop := rtc system_step (initial n).
