(* ===== verification/LifecycleSpec.v ===== *)
(** * Service lifecycle: invariant and theorems

    One inductive invariant of the interleaved system, preserved by every
    access of every thread, and what follows from it: a stopped or drained
    service has no admitted request, the counter is exact, and snapshots are
    consistent. *)
From S2P Require Import Prelude Lifecycle.

(** ** Summaries of the thread pool *)

(** Threads that have incremented the counter and not yet decremented it. *)
Definition counted (pc : Pc) : bool :=
  match pc with TryEnterRecheck | TryEnterRollback | Guard | GuardDrop => true | _ => false end.

(** Admitted requests: a guard exists until its drop decrements the counter. *)
Definition admitted (pc : Pc) : bool :=
  match pc with Guard | GuardDrop => true | _ => false end.

(** Threads inside the critical section of the transition mutex. *)
Definition critical (pc : Pc) : bool :=
  match pc with
  | Locked _ | PublishRevision _ _ | PublishStore _ _ | PublishWatch _ _ | StopCheckActive
  | DrainCheckActive | Unlock _ => true
  | _ => false
  end.

(** The drain generation a waiter waits for. *)
Definition waits_for (pc : Pc) : option Z :=
  match pc with
  | WaitWatch g | WaitActive g | Call (FinishDrainWait g _) | Locked (FinishDrainWait g _) => Some g
  | _ => None
  end.

Fixpoint count (f : Pc -> bool) (l : list Pc) : Z :=
  match l with
  | [] => 0
  | pc :: l => (if f pc then 1 else 0) + count f l
  end.

(** A phase store is pending: its revision is already advanced. *)
Definition pending (ths : list Pc) : Prop := exists i p k, ths !! i = Some (PublishStore p k).

(** Every waiter waits for an older generation. *)
Definition all_stale (gen : Z) (ths : list Pc) : Prop :=
  forall i pc g, ths !! i = Some pc -> waits_for pc = Some g -> g < gen.

Lemma count_nonneg f l : 0 <= count f l.
Proof. induction l as [|pc l IH]; cbn; [lia|]. destruct (f pc); lia. Qed.

Lemma count_insert f l i pc pc' :
  l !! i = Some pc ->
  count f (<[i := pc']> l) = count f l - (if f pc then 1 else 0) + (if f pc' then 1 else 0).
Proof.
  revert i. induction l as [|x l IH]; intros [|i] Hi; cbn in *; try done.
  - simplify_eq. lia.
  - rewrite IH by done. lia.
Qed.

Lemma count_le f g l : (forall pc, f pc = true -> g pc = true) -> count f l <= count g l.
Proof.
  intros H. induction l as [|pc l IH]; cbn; [lia|].
  destruct (f pc) eqn:E; [rewrite (H _ E); lia|]. destruct (g pc); lia.
Qed.

Lemma count_zero f l i pc : count f l = 0 -> l !! i = Some pc -> f pc = false.
Proof.
  revert i. induction l as [|x l IH]; intros i H Hi; [done|]. cbn in H.
  pose proof (count_nonneg f l). destruct i as [|i]; cbn in Hi.
  - simplify_eq. destruct (f pc); [lia|done].
  - eapply IH; [|exact Hi]. destruct (f x); lia.
Qed.

Lemma count_replicate f n pc : f pc = false -> count f (replicate n pc) = 0.
Proof. intros H. induction n as [|n IH]; cbn; [done|]. by rewrite H, IH. Qed.

Lemma lookup_update (ths : list Pc) i pc' j pc :
  <[i := pc']> ths !! j = Some pc -> (j = i /\ pc = pc') \/ (j <> i /\ ths !! j = Some pc).
Proof.
  intros H. destruct (decide (j = i)) as [->|Hne]; [left|right; by rewrite list_lookup_insert_ne in H].
  split; [done|]. apply list_lookup_insert_Some in H as [(_ & -> & _)|[? _]]; done.
Qed.

(** ** Invariant *)

(** A waiter that saw the counter at zero: as long as its drain lasts, no
    request is admitted. *)
Definition zero_claim (s : Shared) (guards g : Z) : Prop :=
  drain_generation s = g -> phase s <> Running -> guards = 0.

(** What a thread outside the critical section knows. *)
Definition outside_ok (s : Shared) (guards : Z) (pend : Prop) (pc : Pc) : Prop :=
  match pc with
  | WaitWatch g | WaitActive g => g <= drain_generation s
  | Call (FinishDrainWait g e) =>
      g <= drain_generation s /\ (e = ZeroActive -> zero_claim s guards g)
  | SnapPhase r => r <= transition_revision s
  | SnapActive r b =>
      r <= transition_revision s /\ (transition_revision s = r -> phase s = b \/ ~ pend)
  | SnapPhaseAgain r b n seen =>
      r <= transition_revision s /\
      (transition_revision s = r -> (phase s = b /\ seen = b) \/ (phase s <> b /\ ~ pend))
  | SnapRevisionAgain r b n seen a =>
      r <= transition_revision s /\ (transition_revision s = r -> a = b -> seen = b)
  | SnapTaken snap seen => snapshot_phase snap = seen
  | _ => True
  end.

Definition answer_ok (s : Shared) (guards : Z) (a : Answer) : Prop :=
  match a with
  | AnswerWait g => g <= drain_generation s
  | AnswerDrain DrainCompleted => phase s <> Running /\ guards = 0
  | _ => True
  end.

(** What follows a publication of [p]. *)
Definition after_ok (s : Shared) (p : LifecyclePhase) (k : AfterPublish) : Prop :=
  match k with
  | ThenAnswer (AnswerWait g) => g <= drain_generation s
  | ThenAnswer (AnswerDrain DrainCompleted) => False
  | ThenAnswer _ => True
  | ThenCheckActive => p = Draining
  end.

(** The transition diagram. *)
Definition legal (p q : LifecyclePhase) : bool :=
  match p, q with
  | Starting, Running | Running, Draining
  | Draining, Running | Draining, AwaitingCancellation | Draining, Stopping
  | AwaitingCancellation, Running | AwaitingCancellation, Stopping => true
  | _, _ => false
  end.

(** A phase change that is about to happen is legal; one to [Stopping] finds
    no admitted request; one that leaves [Running] finds no current waiter. *)
Definition change_ok (s : Shared) (guards : Z) (stale : Prop) (p : LifecyclePhase) : Prop :=
  legal (phase s) p = true /\ (p = Stopping -> guards = 0) /\ (phase s = Running -> stale).

(** What the holder of the mutex knows. *)
Definition inside_ok (s : Shared) (guards : Z) (stale : Prop) (pc : Pc) : Prop :=
  match pc with
  | Locked (FinishDrainWait g e) =>
      g <= drain_generation s /\ (e = ZeroActive -> zero_claim s guards g)
  | PublishRevision p k | PublishStore p k => change_ok s guards stale p /\ after_ok s p k
  | PublishWatch p k => phase s = p /\ after_ok s p k
  | StopCheckActive => phase s <> Running /\ phase s <> Stopping /\ phase s <> Starting
  | DrainCheckActive => phase s = AwaitingCancellation
  | Unlock a => answer_ok s guards a
  | _ => True
  end.

Record lifecycle_inv (S : System) : Prop := {
  inv_active : active (shared S) = count counted (threads S);
  inv_holder : forall i pc, threads S !! i = Some pc -> critical pc = true ->
    t_holder (shared S) = Some i;
  inv_phase : t_phase (shared S) = phase (shared S);
  inv_watch : watch_phase (shared S) = Stopping -> phase (shared S) = Stopping;
  inv_stopping : phase (shared S) = Stopping -> count admitted (threads S) = 0;
  inv_outside : forall i pc, threads S !! i = Some pc ->
    outside_ok (shared S) (count admitted (threads S)) (pending (threads S)) pc;
  inv_inside : forall i pc, threads S !! i = Some pc ->
    inside_ok (shared S) (count admitted (threads S))
      (all_stale (drain_generation (shared S)) (threads S)) pc
}.

(** ** Stability *)

(** How a step may change what the threads outside the mutex rely on. *)
Record evolves (s s' : Shared) (guards guards' : Z) (pend pend' stale' : Prop) : Prop := {
  ev_revision : transition_revision s <= transition_revision s';
  ev_generation : drain_generation s <= drain_generation s';
  ev_pending : transition_revision s' = transition_revision s -> ~ pend -> ~ pend';
  ev_phase : transition_revision s' = transition_revision s ->
    phase s' = phase s \/ (pend /\ ~ pend' /\ phase s' <> phase s);
  ev_guards : phase s = Running \/ guards' <= guards;
  ev_stale : phase s = Running -> phase s' <> Running -> stale';
  ev_nonneg : 0 <= guards'
}.

Lemma outside_stable s s' G G' pend pend' stale' pc :
  evolves s s' G G' pend pend' stale' ->
  (forall g, stale' -> waits_for pc = Some g -> g < drain_generation s') ->
  outside_ok s G pend pc -> outside_ok s' G' pend' pc.
Proof.
  intros [Hr Hg Hp Hph HG Hst H0] Hold.
  assert (forall g, waits_for pc = Some g -> g <= drain_generation s ->
    zero_claim s G g -> zero_claim s' G' g) as Hclaim.
  { intros g Hw Hle Hz He Hne. destruct (decide (phase s = Running)) as [Hrun|Hrun].
    - specialize (Hold g (Hst Hrun Hne) Hw). lia.
    - destruct HG as [?|HG]; [done|]. assert (G = 0) by (apply Hz; [lia|done]). lia. }
  destruct pc; cbn in *; try done; try lia.
  - destruct t; try done. intros [Hle Hz]. split; [lia|]. intros He. apply Hclaim; auto.
  - intros [Hle Hx]. split; [lia|]. intros He. assert (transition_revision s' = transition_revision s) as He' by lia.
    specialize (Hx ltac:(lia)). specialize (Hp He'). specialize (Hph He').
    destruct Hx as [Hb|Hx]; [|by right; auto].
    destruct Hph as [Hph|(_ & Hn & _)]; [by left; congruence|by right].
  - intros [Hle Hx]. split; [lia|]. intros He. assert (transition_revision s' = transition_revision s) as He' by lia.
    specialize (Hx ltac:(lia)). specialize (Hp He'). specialize (Hph He').
    destruct Hx as [[Hb ->]|[Hb Hx]].
    + destruct Hph as [Hph|(_ & Hn & Hne)]; [left; split; congruence|right; split; [congruence|done]].
    + destruct Hph as [Hph|(? & _)]; [|done]. right. split; [congruence|auto].
  - intros [Hle Hx]. split; [lia|]. intros He. apply Hx. lia.
Qed.

Lemma inside_stable s s' G G' stale stale' pc :
  phase s' = phase s -> drain_generation s' = drain_generation s ->
  (phase s = Running \/ G' <= G) -> 0 <= G' -> (stale -> stale') ->
  inside_ok s G stale pc -> inside_ok s' G' stale' pc.
Proof.
  intros Hph Hg HG H0 Hst.
  assert (phase s <> Running -> G = 0 -> G' = 0) as Hz by (intros; destruct HG; [done|lia]).
  assert (forall p k, after_ok s p k -> after_ok s' p k) as Hk.
  { intros p k. destruct k as [[| | |]|]; cbn; try done. by rewrite Hg. }
  destruct pc; cbn; try done.
  - destruct t; cbn; try done. unfold zero_claim. rewrite Hph, Hg. intros [? Hc]. split; [done|]. auto.
  - unfold change_ok. rewrite Hph. intros [(Hl & Hs & ?) ?]. split_and!; auto.
    intros ->. apply Hz; [by intros He; rewrite He in Hl|auto].
  - unfold change_ok. rewrite Hph. intros [(Hl & Hs & ?) ?]. split_and!; auto.
    intros ->. apply Hz; [by intros He; rewrite He in Hl|auto].
  - rewrite Hph. naive_solver.
  - by rewrite Hph.
  - by rewrite Hph.
  - destruct a as [|[]| |]; cbn; try done; rewrite ?Hph, ?Hg; naive_solver.
Qed.

Lemma inside_trivial s G stale pc : critical pc = false -> inside_ok s G stale pc.
Proof. by destruct pc. Qed.

(** The invariant after a step of thread [i], from what the step changed. *)
Lemma inv_update i pc pc' s s' ths :
  let ths' := <[i := pc']> ths in
  lifecycle_inv (mkSystem s ths) -> ths !! i = Some pc ->
  active s' = active s - (if counted pc then 1 else 0) + (if counted pc' then 1 else 0) ->
  t_phase s' = phase s' -> (watch_phase s' = Stopping -> phase s' = Stopping) ->
  (phase s' = Stopping -> count admitted ths' = 0) ->
  evolves s s' (count admitted ths) (count admitted ths') (pending ths) (pending ths')
    (all_stale (drain_generation s') ths') ->
  outside_ok s' (count admitted ths') (pending ths') pc' ->
  inside_ok s' (count admitted ths') (all_stale (drain_generation s') ths') pc' ->
  (critical pc' = true -> t_holder s' = Some i) ->
  (forall j pcj, j <> i -> ths !! j = Some pcj -> critical pcj = true ->
     t_holder s' = Some j /\
     inside_ok s' (count admitted ths') (all_stale (drain_generation s') ths') pcj) ->
  lifecycle_inv (mkSystem s' ths').
Proof.
  intros ths' [Ha Hh Hp Hw Hst Hout Hin] Hi Hact Htp Hwp Hstop Hev Ho Hn Hcr Hoth.
  constructor; cbn [shared threads] in *; auto.
  - subst ths'. rewrite (count_insert _ _ _ _ _ Hi). lia.
  - intros j pcj [[-> ->]|[Hne Hj]]%lookup_update Hc; [auto|by eapply Hoth].
  - intros j pcj Hj. pose proof Hj as [[-> ->]|[Hne Hj']]%lookup_update; [done|].
    eapply outside_stable; [exact Hev| |by eapply Hout].
    intros g Hs Hg. by eapply Hs.
  - intros j pcj [[-> ->]|[Hne Hj]]%lookup_update; [done|].
    destruct (critical pcj) eqn:Ec; [by eapply Hoth|by apply inside_trivial].
Qed.

Lemma pending_update ths i pc pc' :
  ths !! i = Some pc -> (forall p k, pc' <> PublishStore p k) ->
  pending (<[i := pc']> ths) -> pending ths.
Proof. intros Hi Hne (j & p & k & [[-> He]|[_ Hj]]%lookup_update); [by destruct (Hne p k)|by exists j, p, k]. Qed.

Lemma stale_update ths i pc pc' gen gen' :
  ths !! i = Some pc -> gen <= gen' -> (forall g, waits_for pc' = Some g -> waits_for pc = Some g) ->
  all_stale gen ths -> all_stale gen' (<[i := pc']> ths).
Proof.
  intros Hi Hg Hw Hs j pcj g [[-> ->]|[_ Hj]]%lookup_update Hpc.
  - pose proof (Hs i pc g Hi (Hw g Hpc)). lia.
  - pose proof (Hs j pcj g Hj Hpc). lia.
Qed.

(** What a step outside the critical section leaves alone. *)
Definition same_control (s s' : Shared) : Prop :=
  phase s' = phase s /\ t_phase s' = t_phase s /\ transition_revision s' = transition_revision s /\
  drain_generation s' = drain_generation s /\ t_holder s' = t_holder s /\
  watch_phase s' = watch_phase s.

Lemma inv_outsider i pc pc' s s' ths :
  lifecycle_inv (mkSystem s ths) -> ths !! i = Some pc -> same_control s s' ->
  critical pc = false -> critical pc' = false ->
  active s' = active s - (if counted pc then 1 else 0) + (if counted pc' then 1 else 0) ->
  (phase s = Running \/ (admitted pc' = true -> admitted pc = true)) ->
  (forall g, waits_for pc' = Some g -> waits_for pc = Some g) ->
  (forall G' (pend' : Prop), (pend' <-> pending ths) ->
     (admitted pc' = admitted pc -> G' = count admitted ths) -> outside_ok s' G' pend' pc') ->
  lifecycle_inv (mkSystem s' (<[i := pc']> ths)).
Proof.
  intros Hinv Hi (H1 & H2 & H3 & H4 & H5 & H6) Hc Hc' Ha Hg Hw Hout.
  pose proof Hinv as [Hact Hh Hp Hwt Hst Hout0 Hin]. cbn [shared threads] in *.
  pose proof (count_insert admitted _ _ _ pc' Hi) as HG.
  pose proof (count_nonneg admitted (<[i:=pc']> ths)) as HG0.
  assert (phase s = Running \/ count admitted (<[i:=pc']> ths) <= count admitted ths) as Hle.
  { destruct Hg as [|Hg]; [by left|right]. rewrite HG.
    destruct (admitted pc') eqn:E; [rewrite Hg by done; lia|]. destruct (admitted pc); lia. }
  assert (pending (<[i:=pc']> ths) <-> pending ths) as Hpend.
  { split.
    - apply (pending_update _ _ _ _ Hi). intros p k ->. done.
    - intros (j & p & k & Hj). exists j, p, k. rewrite list_lookup_insert_ne; [done|].
      intros ->. assert (pc = PublishStore p k) by congruence. subst. done. }
  assert (all_stale (drain_generation s) ths -> all_stale (drain_generation s') (<[i:=pc']> ths)) as Hstale.
  { apply (stale_update _ _ _ _ _ _ Hi); [lia|done]. }
  assert (evolves s s' (count admitted ths) (count admitted (<[i:=pc']> ths)) (pending ths)
    (pending (<[i:=pc']> ths)) (all_stale (drain_generation s') (<[i:=pc']> ths))) as Hev.
  { constructor; rewrite ?H1, ?H3, ?H4; auto; try lia.
    - intros _ Hn Hq. by apply Hn, Hpend.
    - done. }
  apply (inv_update i pc pc' s s' ths); auto.
  - congruence.
  - rewrite H6, H1. done.
  - rewrite H1. intros Hs. specialize (Hst Hs). destruct Hle; [congruence|lia].
  - apply Hout; [done|]. intros He. rewrite HG, He. destruct (admitted pc); lia.
  - by apply inside_trivial.
  - congruence.
  - intros j pcj Hne Hj Hcj. rewrite H5. split; [by eapply Hh|].
    eapply inside_stable; [done|done|exact Hle|done|exact Hstale|by eapply Hin].
Qed.

Definition is_store (pc : Pc) : bool := match pc with PublishStore _ _ => true | _ => false end.

Lemma waits_le S i pc g :
  lifecycle_inv S -> threads S !! i = Some pc -> waits_for pc = Some g ->
  g <= drain_generation (shared S).
Proof.
  intros HS Hi Hw. pose proof (inv_outside _ HS i pc Hi) as Ho. pose proof (inv_inside _ HS i pc Hi) as Hn.
  destruct pc; cbn in *; simplify_eq; try done; destruct t; simplify_eq; naive_solver.
Qed.

(** Only the holder of the mutex can be in the critical section. *)
Lemma critical_unique S i pc j pcj :
  lifecycle_inv S -> threads S !! i = Some pc -> critical pc = true ->
  threads S !! j = Some pcj -> critical pcj = true -> j = i.
Proof.
  intros HS Hi Hc Hj Hcj. pose proof (inv_holder _ HS i pc Hi Hc).
  pose proof (inv_holder _ HS j pcj Hj Hcj). congruence.
Qed.

Lemma pending_holder S i pc :
  lifecycle_inv S -> threads S !! i = Some pc -> critical pc = true ->
  pending (threads S) <-> is_store pc = true.
Proof.
  intros HS Hi Hc. split.
  - intros (j & p & k & Hj). assert (j = i) as -> by (by eapply critical_unique). by simplify_eq.
  - destruct pc; try done. intros _. by eexists i, _, _.
Qed.

Lemma inv_holder_step i pc pc' s s' ths :
  let G := count admitted ths in
  lifecycle_inv (mkSystem s ths) -> ths !! i = Some pc -> critical pc = true ->
  counted pc' = false -> active s' = active s ->
  (critical pc' = true -> t_holder s' = t_holder s) ->
  t_phase s' = phase s' -> (watch_phase s' = Stopping -> phase s' = Stopping) ->
  (phase s' = Stopping -> G = 0) ->
  transition_revision s <= transition_revision s' -> drain_generation s <= drain_generation s' ->
  (is_store pc' = true -> transition_revision s < transition_revision s') ->
  (phase s' = phase s \/ is_store pc = true /\ is_store pc' = false /\ phase s' <> phase s /\
     (phase s = Running -> all_stale (drain_generation s) ths)) ->
  (waits_for pc' = None \/ critical pc' = false /\ phase s' = phase s) ->
  outside_ok s' G (is_store pc' = true) pc' ->
  (forall stale' : Prop, (all_stale (drain_generation s) ths -> stale') ->
     (drain_generation s < drain_generation s' -> stale') -> inside_ok s' G stale' pc') ->
  lifecycle_inv (mkSystem s' (<[i := pc']> ths)).
Proof.
  intros G HS Hi Hc Hct Hact Hh Htp Hw Hst Hrev Hgen Hstore Hph Hwait Hout Hin.
  assert (admitted pc = false /\ counted pc = false) as [Hadm Hcnt] by by destruct pc.
  assert (admitted pc' = false) as Hadm' by by destruct pc'.
  assert (count admitted (<[i:=pc']> ths) = G) as HG.
  { rewrite (count_insert _ _ _ _ _ Hi), Hadm, Hadm'. unfold G. lia. }
  assert (pending (<[i:=pc']> ths) <-> is_store pc' = true) as Hpend'.
  { split.
    - intros (j & p & k & [[-> <-]|[Hne Hj]]%lookup_update); [done|].
      destruct Hne. by eapply (critical_unique (mkSystem s ths)).
    - destruct pc'; try done. intros _. eexists i, _, _. apply list_lookup_insert_eq.
      by eapply lookup_lt_Some. }
  pose proof (pending_holder _ _ _ HS Hi Hc) as Hpend. cbn [threads] in Hpend.
  assert (waits_for pc' = None -> all_stale (drain_generation s) ths ->
    all_stale (drain_generation s') (<[i:=pc']> ths)) as Hst1.
  { intros Hn. apply (stale_update _ _ _ _ _ _ Hi); [done|]. intros g. congruence. }
  assert (waits_for pc' = None -> drain_generation s < drain_generation s' ->
    all_stale (drain_generation s') (<[i:=pc']> ths)) as Hst2.
  { intros Hn Hlt j pcj g [[-> ->]|[_ Hj]]%lookup_update Hg; [congruence|].
    pose proof (waits_le _ _ _ _ HS Hj Hg). cbn in *. lia. }
  apply (inv_update i pc pc' s s' ths); auto; rewrite ?HG; auto.
  - rewrite Hcnt, Hct. lia.
  - constructor; auto.
    + intros He _ Hq. apply Hpend', Hstore in Hq. lia.
    + intros He. destruct Hph as [|(H1 & H2 & H3 & _)]; [by left|right]. rewrite Hpend, Hpend', H2. by split_and!.
    + right. unfold G. lia.
    + intros Hr Hn. destruct Hph as [Heq|(_ & _ & _ & H4)]; [congruence|].
      apply Hst1; [|auto]. destruct Hwait as [|[_ ?]]; [done|congruence].
    + by apply count_nonneg.
  - destruct pc'; cbn in *; rewrite ?Hpend'; done.
  - destruct Hwait as [Hn|[Hn _]]; [|by apply inside_trivial]. apply Hin; auto.
  - intros Hcr. rewrite Hh by done. by eapply (inv_holder _ HS).
  - intros j pcj Hne Hj Hcj. destruct Hne. by eapply (critical_unique (mkSystem s ths)).
Qed.

Lemma observe_activity_control s :
  same_control s (observe_activity s) /\ active (observe_activity s) = active s.
Proof. unfold observe_activity. destruct (checked_add64 _ _); by repeat split. Qed.

(** The decrement never finds the counter at zero. *)
Lemma decrement_active_spec s :
  0 < active s -> same_control s (decrement_active s) /\ active (decrement_active s) = active s - 1.
Proof.
  intros Ha. unfold decrement_active, checked_decrement, checked_sub64.
  rewrite (proj2 (Z.leb_le _ _)) by lia.
  set (s1 := set_active (active s - 1) s).
  destruct (observe_activity_control s1) as [Hc H1]. unfold same_control in *.
  destruct (active s =? 1); by rewrite H1.
Qed.

Lemma counted_positive S i pc :
  lifecycle_inv S -> threads S !! i = Some pc -> counted pc = true -> 0 < active (shared S).
Proof.
  intros HS Hi Hc. rewrite (inv_active _ HS).
  pose proof (count_insert counted (threads S) i pc Idle Hi) as Hu. rewrite Hc in Hu. cbn in Hu.
  pose proof (count_nonneg counted (<[i:=Idle]> (threads S))). lia.
Qed.

Lemma same_control_refl s : same_control s s.
Proof. by repeat split. Qed.

(** Steps of the admission path. *)
Lemma inv_admission i pc s s' pc' ths :
  lifecycle_inv (mkSystem s ths) -> ths !! i = Some pc -> thread_step i s pc = Some (s', pc') ->
  match pc with TryEnter | TryEnterIncrement | TryEnterRecheck | TryEnterRollback | GuardDrop => True
              | _ => False end ->
  lifecycle_inv (mkSystem s' (<[i := pc']> ths)).
Proof.
  intros HS Hi Hs Hpc. destruct pc; try done; clear Hpc; cbn in Hs; simplify_eq.
  - unfold try_enter_load in *.
    destruct (bool_decide _); simplify_eq; eapply inv_outsider; eauto using same_control_refl;
      cbn; auto; lia.
  - unfold try_enter_increment, checked_add64 in *. destruct (_ <=? _); simplify_eq;
      eapply inv_outsider; eauto using same_control_refl; cbn; auto; try lia. by repeat split.
  - unfold try_enter_recheck in *. destruct (bool_decide_reflect (phase s = Running)); simplify_eq.
    + destruct (observe_activity_control s) as [Hc Ha].
      eapply inv_outsider; eauto; cbn; auto; rewrite ?Ha; lia.
    + eapply inv_outsider; eauto using same_control_refl; cbn; auto; lia.
  - destruct (decrement_active_spec s) as [Hc Ha]; [by eapply counted_positive in HS|].
    eapply inv_outsider; eauto; cbn; auto; rewrite ?Ha; lia.
  - destruct (decrement_active_spec s) as [Hc Ha]; [by eapply counted_positive in HS|].
    eapply inv_outsider; eauto; cbn; auto; rewrite ?Ha; lia.
Qed.

(** Steps of the waiters and of the snapshot readers. *)
Lemma inv_observer i pc s s' pc' ths :
  lifecycle_inv (mkSystem s ths) -> ths !! i = Some pc -> thread_step i s pc = Some (s', pc') ->
  match pc with
  | WaitWatch _ | WaitActive _ | SnapRevision | SnapPhase _ | SnapActive _ _
  | SnapPhaseAgain _ _ _ _ | SnapRevisionAgain _ _ _ _ _ => True
  | _ => False
  end ->
  lifecycle_inv (mkSystem s' (<[i := pc']> ths)).
Proof.
  intros HS Hi Hs Hpc. pose proof HS as [Hact _ _ Hw Hst Hout _].
  specialize (Hout i pc Hi). cbn [shared threads] in *.
  assert (count admitted ths <= count counted ths) as Hle by (apply count_le; by intros []).
  pose proof (count_nonneg admitted ths) as H0.
  destruct pc; try done; clear Hpc; cbn in Hs, Hout; simplify_eq.
  - unfold wait_for_drain in *.
    destruct (negb _ || _) eqn:Ec; [|destruct (watch_phase s) eqn:Ew]; simplify_eq;
      eapply inv_outsider; eauto using same_control_refl; cbn; auto; try lia.
    all: intros G' pend' _ HG; (split; [done|]); try done.
    intros _ _ _. rewrite HG by done. auto.
  - unfold wait_check_active in *. destruct (active s =? 0) eqn:Ea; simplify_eq;
      eapply inv_outsider; eauto using same_control_refl; cbn; auto; try lia.
    intros G' pend' _ HG. split; [done|]. intros _ _ _. rewrite HG by done. lia.
  - eapply inv_outsider; eauto using same_control_refl; cbn; auto; lia.
  - eapply inv_outsider; eauto using same_control_refl; cbn; auto; lia.
  - eapply inv_outsider; eauto using same_control_refl; cbn; auto; try lia.
    intros G' pend' Hp _. destruct Hout as [? Hx]. split; [done|]. intros He. specialize (Hx He).
    rewrite Hp. destruct (decide (phase s' = before)); [by left|right]. split; [done|]. by destruct Hx.
  - eapply inv_outsider; eauto using same_control_refl; cbn; auto; try lia.
    intros G' pend' Hp _. destruct Hout as [? Hx]. split; [done|]. intros He Hb. specialize (Hx He).
    destruct Hx as [[_ ?]|[? _]]; done.
  - unfold snap_compare in *. destruct (_ && _) eqn:Ec; simplify_eq;
      eapply inv_outsider; eauto using same_control_refl; cbn; auto; try lia.
    intros G' pend' _ _. apply andb_true_iff in Ec as [He%Z.eqb_eq Hb%bool_decide_eq_true].
    destruct Hout as [_ Hx]. symmetry. subst. by apply Hx.
Qed.

Lemma inv_caller i pc s pc' ths :
  lifecycle_inv (mkSystem s ths) -> ths !! i = Some pc -> caller_move pc pc' ->
  lifecycle_inv (mkSystem s (<[i := pc']> ths)).
Proof.
  intros HS Hi Hm. pose proof (inv_outside _ HS i pc Hi) as Hout. cbn [shared threads] in Hout.
  destruct Hm as [pc Hpc|pc t Hpc Ht|pc Hpc| |g pc Hpc].
  - destruct Hpc as [->|[[a ->]|(n & p & ->)]];
      eapply inv_outsider; eauto using same_control_refl; cbn; auto; lia.
  - destruct Hpc as [->|[[a ->]|(n & p & ->)]]; (eapply inv_outsider;
      [exact HS|exact Hi|apply same_control_refl|done|done|cbn; lia|by right| |]);
      destruct t; cbn; try done; by edestruct Ht.
  - destruct Hpc as [->|[[a ->]|(n & p & ->)]];
      eapply inv_outsider; eauto using same_control_refl; cbn; auto; lia.
  - eapply inv_outsider; eauto using same_control_refl; cbn; auto; lia.
  - destruct Hpc as [->| ->]; (eapply inv_outsider;
      [exact HS|exact Hi|apply same_control_refl|done|done|cbn; lia|by right|done|]);
      cbn; intros; split; done.
Qed.

Lemma inv_lock i t s s' pc' ths :
  lifecycle_inv (mkSystem s ths) -> ths !! i = Some (Call t) -> lock_transition i t s = Some (s', pc') ->
  lifecycle_inv (mkSystem s' (<[i := pc']> ths)).
Proof.
  intros HS Hi Hl. unfold lock_transition in Hl. destruct (t_holder s) eqn:Eh; [done|]. simplify_eq.
  pose proof HS as [Hact Hh Hp Hw Hst Hout Hin]. cbn [shared threads] in *.
  pose proof (count_insert admitted _ _ _ (Locked t) Hi) as HG. cbn in HG.
  assert (forall p k j, ths !! j = Some (PublishStore p k) -> False) as Hns.
  { intros p k j Hj. specialize (Hh j _ Hj eq_refl). congruence. }
  assert (~ pending (<[i:=Locked t]> ths)) as Hnp.
  { intros (j & p & k & [[_ ?]|[_ Hj]]%lookup_update); [done|by eapply Hns]. }
  apply (inv_update i (Call t) (Locked t) s _ ths); cbn; auto; try lia.
  - intros Hs. specialize (Hst Hs). lia.
  - constructor; cbn; auto; try lia; [by intros|by apply count_nonneg].
  - specialize (Hout i _ Hi). cbn in Hout. destruct t; try done. unfold zero_claim in *. cbn.
    rewrite HG. replace (count admitted ths - 0 + 0) with (count admitted ths) by lia. done.
  - intros j pcj Hne Hj Hc. specialize (Hh j pcj Hj Hc). congruence.
Qed.

(** Steps inside the critical section. *)

(** A step that only moves the holder on. *)
Lemma inv_holder_same i pc pc' s ths :
  lifecycle_inv (mkSystem s ths) -> ths !! i = Some pc -> critical pc = true ->
  critical pc' = true -> is_store pc' = false -> waits_for pc' = None ->
  (forall stale' : Prop, inside_ok s (count admitted ths) stale' pc') ->
  lifecycle_inv (mkSystem s (<[i := pc']> ths)).
Proof.
  intros HS Hi Hc Hc' Hst Hw Hin. pose proof HS as [_ _ Hp Hwt Hstop _ _]. cbn [shared threads] in *.
  eapply inv_holder_step; eauto; try lia; try done; try by destruct pc'.
Qed.

(** A new drain generation leaves every waiter stale. *)
Lemma inv_next_generation i t k s s' pc' ths :
  lifecycle_inv (mkSystem s ths) -> ths !! i = Some (Locked t) -> phase s = Running ->
  (forall g s', k g = ThenCheckActive \/ k g = ThenAnswer (AnswerWait g) /\
     (drain_generation s' = g -> after_ok s' Draining (k g))) ->
  next_generation k s = (s', pc') -> lifecycle_inv (mkSystem s' (<[i := pc']> ths)).
Proof.
  intros HS Hi Hrun Hk Hn. unfold next_generation, checked_add64 in Hn.
  pose proof HS as [_ _ Hp Hwt Hstop _ _]. cbn [shared threads] in *.
  destruct (_ <=? _); simplify_eq.
  - eapply inv_holder_step; eauto; cbn; try done; try lia; auto.
    intros stale' _ Hlt. unfold change_ok. cbn. rewrite Hrun.
    split; [split_and!; try done; intros _; apply Hlt; lia|].
    destruct (Hk (drain_generation s + 1) (set_generation (drain_generation s + 1) s)) as [-> |[_ Hx]];
      [done|by apply Hx].
  - by eapply inv_holder_same.
Qed.

Lemma inv_run_locked i t s s' pc' ths :
  lifecycle_inv (mkSystem s ths) -> ths !! i = Some (Locked t) -> run_locked t s = (s', pc') ->
  lifecycle_inv (mkSystem s' (<[i := pc']> ths)).
Proof.
  intros HS Hi Hr. pose proof HS as [Hact _ Hp Hw Hst _ Hin]. specialize (Hin i _ Hi).
  cbn [shared threads] in *.
  assert (count admitted ths <= count counted ths) as Hle by (apply count_le; by intros []).
  pose proof (count_nonneg admitted ths) as H0.
  destruct t as [| | | |g e]; cbn in Hr, Hin.
  - unfold mark_running in Hr. case_bool_decide as Es; simplify_eq; eapply inv_holder_same; eauto; try done.
    intros stale'. cbn. unfold change_ok. rewrite <- Hp, Es. done.
  - unfold begin_drain in Hr. destruct (t_phase s) eqn:Ep; simplify_eq.
    + by eapply inv_holder_same.
    + eapply inv_next_generation; [done|done|done| |done].
      intros g s1. right. split; [done|]. intros <-. cbn. lia.
    + eapply inv_holder_same; eauto; try done. intros stale'. cbn. lia.
    + eapply inv_holder_same; eauto; done.
    + eapply inv_holder_same; eauto; try done. intros stale'. cbn. split; [congruence|auto].
  - unfold cancel_drain in Hr. destruct (t_phase s) eqn:Ep; simplify_eq; eapply inv_holder_same; eauto; try done;
      intros stale'; cbn; unfold change_ok; rewrite <- Hp; done.
  - unfold request_stop in Hr. destruct (t_phase s) eqn:Ep; simplify_eq.
    + by eapply inv_holder_same.
    + eapply inv_next_generation; [done|done|done| |done]. intros g s1. by left.
    + eapply inv_holder_same; eauto; try done. intros stale'. cbn. split_and!; congruence.
    + eapply inv_holder_same; eauto; try done. intros stale'. cbn. split_and!; congruence.
    + by eapply inv_holder_same.
  - unfold finish_drain_wait in Hr. destruct Hin as [Hg Hz]. rewrite Hp in Hr.
    case_bool_decide as Es; simplify_eq.
    { eapply inv_holder_same; eauto; try done. intros stale'. cbn. split; [congruence|auto]. }
    destruct (negb _ || _ || _) eqn:Ec; simplify_eq; [by eapply inv_holder_same|].
    rewrite !orb_false_iff, negb_false_iff, Z.eqb_eq, !bool_decide_eq_false in Ec.
    destruct Ec as [[He Hrun] Hev].
    destruct ((active s =? 0) || _) eqn:Ea; simplify_eq.
    { eapply inv_holder_same; eauto; try done. intros stale'. cbn. split; [done|].
      apply orb_true_iff in Ea as [Ea|Ea%bool_decide_eq_true]; [lia|by apply Hz]. }
    destruct (phase s) eqn:Ep; simplify_eq; try (by eapply inv_holder_same).
    eapply inv_holder_same; eauto; try done. intros stale'. cbn. unfold change_ok. rewrite Ep. done.
Qed.

Lemma inv_critical i pc s s' pc' ths :
  lifecycle_inv (mkSystem s ths) -> ths !! i = Some pc -> thread_step i s pc = Some (s', pc') ->
  critical pc = true -> lifecycle_inv (mkSystem s' (<[i := pc']> ths)).
Proof.
  intros HS Hi Hs Hc. pose proof HS as [Hact _ Hp Hw Hst _ Hin]. specialize (Hin i _ Hi).
  cbn [shared threads] in *.
  assert (count admitted ths <= count counted ths) as Hle by (apply count_le; by intros []).
  pose proof (count_nonneg admitted ths) as H0.
  destruct pc; try done; clear Hc; cbn in Hs, Hin; simplify_eq.
  - eapply inv_run_locked; eauto.
  - unfold publish_revision, advance_transition_revision, checked_add64 in *.
    destruct (_ <=? _); simplify_eq; eapply inv_holder_step; eauto; cbn; try done; try lia.
    intros stale' Hs' _. destruct Hin as [(? & Hx & Hy) ?]. unfold change_ok. cbn. split_and!; auto.
  - destruct Hin as [(Hl & Hstop & Hstale) Hk].
    assert (phase s <> p /\ phase s <> Stopping) as [Hne Hns] by (by destruct (phase s), p).
    unfold publish_store in Hs. simplify_eq. eapply inv_holder_step; eauto; cbn; try done; try lia.
    intros ?. exfalso. auto.
  - destruct Hin as [Hph Hk].
    assert (forall stale' : Prop, inside_ok (publish_watch p k s).1 (count admitted ths) stale'
      (publish_watch p k s).2) as Hnext.
    { intros st. cbn. destruct k as [[|[]| |]|]; cbn in *; try done. subst p. rewrite Hk. done. }
    unfold publish_watch in *. simplify_eq.
    eapply inv_holder_step; eauto; try done; try (cbn; lia); destruct k; cbn; try done; try congruence.
    all: by left.
  - unfold stop_check_active in *. destruct (negb (active s =? 0)) eqn:Ea; simplify_eq;
      eapply inv_holder_step; eauto; cbn; try done.
    intros stale' _ _. unfold change_ok. destruct Hin as (? & ? & ?).
    split_and!; [by destruct (phase s')|lia|done|done].
  - unfold drain_check_active in *. destruct (active s =? 0) eqn:Ea; simplify_eq;
      eapply inv_holder_step; eauto; cbn; try done.
    intros stale' _ _. split; [congruence|lia].
  - unfold unlock in Hs. simplify_eq. destruct a as [|o|g|e]; cbn; eapply inv_holder_step; eauto; cbn; try done; try lia.
Qed.

Lemma inv_step S S' : lifecycle_inv S -> system_step S S' -> lifecycle_inv S'.
Proof.
  intros HS Hst. revert HS.
  destruct Hst as [i pc s ths s' pc' Hi Hs|i pc s ths pc' Hi Hm]; intros HS; [|eapply inv_caller; eauto].
  destruct (critical pc) eqn:Ec; [eapply inv_critical; eauto|].
  destruct pc; try done; first [exact (inv_admission _ _ _ _ _ _ HS Hi Hs I)
    | exact (inv_observer _ _ _ _ _ _ HS Hi Hs I) | exact (inv_lock _ _ _ _ _ _ HS Hi Hs)].
Qed.

Lemma inv_initial n : lifecycle_inv (initial n).
Proof.
  assert (forall i pc, replicate n Idle !! i = Some pc -> pc = Idle) as Hidle.
  { intros i pc [? _]%lookup_replicate. done. }
  constructor; cbn; try done.
  - by rewrite count_replicate.
  - intros i pc ->%Hidle. done.
  - intros i pc ->%Hidle. done.
  - intros i pc ->%Hidle. done.
Qed.

Lemma reachable_inv n S : reachable n S -> lifecycle_inv S.
Proof.
  unfold reachable. generalize (inv_initial n). generalize (initial n) as S0. intros S0 H0 Hr.
  induction Hr as [S0|S0 S1 S2 Hs _ IH]; [done|]. apply IH. by eapply inv_step.
Qed.

(** ** Consequences *)

Lemma step_phase_cases S S' :
  lifecycle_inv S -> system_step S S' -> phase (shared S') = phase (shared S) \/
  exists i p k, threads S !! i = Some (PublishStore p k) /\ phase (shared S') = p.
Proof.
  intros HS Hst. revert HS.
  destruct Hst as [j pc1 s ths s' pc' Hi Hs|j pc1 s ths pc' Hi Hm]; intros HS; [|by left].
  cbn [shared threads]. destruct pc1; cbn in Hs; simplify_eq; try (by left).
  - unfold try_enter_load in Hs. repeat case_match; simplify_eq; by left.
  - unfold try_enter_increment in Hs. repeat case_match; simplify_eq; by left.
  - unfold try_enter_recheck in Hs.
    repeat case_match; simplify_eq; left; [apply observe_activity_control|done].
  - left. destruct (decrement_active_spec s) as [Hc _]; [by eapply counted_positive in HS|apply Hc].
  - left. destruct (decrement_active_spec s) as [Hc _]; [by eapply counted_positive in HS|apply Hc].
  - unfold lock_transition in Hs. case_match; simplify_eq. by left.
  - left. unfold run_locked, mark_running, begin_drain, cancel_drain, request_stop, finish_drain_wait,
      next_generation in Hs. repeat case_match; by simplify_eq.
  - unfold publish_revision, advance_transition_revision in Hs. repeat case_match; simplify_eq; by left.
  - unfold publish_store in Hs. simplify_eq. right. by eexists j, _, _.
  - unfold publish_watch in Hs. simplify_eq. by left.
  - unfold stop_check_active in Hs. repeat case_match; simplify_eq; by left.
  - unfold drain_check_active in Hs. repeat case_match; simplify_eq; by left.
  - unfold unlock in Hs. simplify_eq. by left.
  - unfold wait_for_drain in Hs. repeat case_match; simplify_eq; by left.
  - unfold wait_check_active in Hs. repeat case_match; simplify_eq; by left.
  - unfold snap_compare in Hs. repeat case_match; simplify_eq; by left.
Qed.

Lemma phase_step_legal S S' :
  lifecycle_inv S -> system_step S S' ->
  phase (shared S') = phase (shared S) \/ legal (phase (shared S)) (phase (shared S')) = true.
Proof.
  intros HS Hst. destruct (step_phase_cases S S' HS Hst) as [|(i & p & k & Hi & ->)]; [by left|right].
  pose proof (inv_inside _ HS i _ Hi) as [(Hl & _) _]. exact Hl.
Qed.

Lemma no_admitted S i : lifecycle_inv S -> count admitted (threads S) = 0 ->
  threads S !! i <> Some Guard /\ threads S !! i <> Some GuardDrop.
Proof. intros HS H0. split; intros Hi; by pose proof (count_zero _ _ _ _ H0 Hi). Qed.

(** ** Claims *)

(** C3: a stopped service serves nobody, for good.  In every interleaving of
    admissions, drops and transitions by any number of threads, once the phase
    is [Stopping] no thread holds a request guard, and this is so in every
    later state as well. *)
Theorem stopping_has_no_requests n S S' i :
  reachable n S -> phase (shared S) = Stopping -> rtc system_step S S' ->
  phase (shared S') = Stopping /\ threads S' !! i <> Some Guard /\ threads S' !! i <> Some GuardDrop.
Proof.
  intros Hr%reachable_inv Hp Hst. revert Hr Hp.
  induction Hst as [S|S S1 S2 Hs _ IH]; intros HS Hp.
  - split; [done|]. apply no_admitted; [done|]. by apply (inv_stopping _ HS).
  - apply IH; [by eapply inv_step|].
    destruct (phase_step_legal _ _ HS Hs) as [->|Hl]; [done|]. rewrite Hp in Hl. by destruct (phase _).
Qed.

(** A run of one thread through its calls: the pool after [k] of its steps. *)
Fixpoint run_thread (k i : nat) (S : System) : System :=
  match k with
  | O => S
  | Datatypes.S k =>
      match threads S !! i with
      | Some pc => match thread_step i (shared S) pc with
                   | Some (s, pc') => run_thread k i (mkSystem s (<[i := pc']> (threads S)))
                   | None => S
                   end
      | None => S
      end
  end.

Lemma run_thread_steps k i S : rtc system_step S (run_thread k i S).
Proof.
  revert S. induction k as [|k IH]; intros [s ths]; cbn; [constructor|].
  destruct (ths !! i) as [pc|] eqn:Hi; [|constructor].
  destruct (thread_step i s pc) as [[s' pc']|] eqn:Hs; [|constructor].
  eapply rtc_l; [by eapply step_thread|apply IH].
Qed.

(** [mark_running] by thread 0, then [request_stop] by thread 0, to its end. *)
Definition start_call (i : nat) (t : Transition) (S : System) : System :=
  mkSystem (shared S) (<[i := Call t]> (threads S)).

Definition demo_running : System := run_thread 10 0 (start_call 0 MarkRunning (initial 2)).
Definition demo_stopped : System := run_thread 20 0 (start_call 0 RequestStop demo_running).

Lemma demo_running_reachable : reachable 2 demo_running.
Proof.
  eapply rtc_l; [|apply run_thread_steps].
  eapply (step_caller 0 Idle); [reflexivity|]. constructor; [by left|done].
Qed.

Lemma demo_stopped_reachable : reachable 2 demo_stopped.
Proof.
  eapply rtc_trans; [apply demo_running_reachable|].
  eapply rtc_l; [|apply run_thread_steps].
  assert (demo_running = mkSystem (shared demo_running) (threads demo_running)) as -> by reflexivity.
  eapply (step_caller 0 (Answered AnswerDone)); [reflexivity|]. constructor; [right; left; eauto|done].
Qed.

Lemma stopping_has_no_requests_witness :
  phase (shared demo_stopped) = Stopping /\
  threads demo_stopped !! 1%nat <> Some Guard /\ threads demo_stopped !! 1%nat <> Some GuardDrop.
Proof.
  apply (stopping_has_no_requests 2 demo_stopped demo_stopped 1%nat).
  - exact demo_stopped_reachable.
  - vm_compute. reflexivity.
  - constructor.
Defined.

(** C4: a completed drain is quiet.  Whenever [begin_drain] decides, under the
    transition mutex, that the drain is completed, no thread holds a request
    guard and the service is not running, whatever was admitted, cancelled or
    drained again while the call was waiting. *)
Theorem completed_drain_is_quiet n S i j :
  reachable n S -> threads S !! i = Some (Unlock (AnswerDrain DrainCompleted)) ->
  phase (shared S) <> Running /\ threads S !! j <> Some Guard /\ threads S !! j <> Some GuardDrop.
Proof.
  intros HS%reachable_inv Hi. pose proof (inv_inside _ HS i _ Hi) as [Hp H0].
  split; [done|]. by apply no_admitted.
Qed.

Definition demo_drained : System := run_thread 10 0 (start_call 0 BeginDrain demo_running).

Lemma completed_drain_is_quiet_witness :
  phase (shared demo_drained) <> Running /\ threads demo_drained !! 1%nat <> Some Guard /\
  threads demo_drained !! 1%nat <> Some GuardDrop.
Proof.
  apply (completed_drain_is_quiet 2 demo_drained 0 1).
  - eapply rtc_trans; [apply demo_running_reachable|].
    eapply rtc_l; [|apply run_thread_steps].
    assert (demo_running = mkSystem (shared demo_running) (threads demo_running)) as -> by reflexivity.
    eapply (step_caller 0 (Answered AnswerDone)); [reflexivity|]. constructor; [right; left; eauto|done].
  - vm_compute. reflexivity.
Defined.

(** The phases follow the transition diagram and the request counter is
    exact.  In every reachable state the counter equals the number of threads
    between their increment and their decrement, so it covers every guard and
    no decrement underflows; and every step leaves the phase alone or moves it
    along an edge of the diagram. *)
Theorem lifecycle_counter_and_phases n S S' :
  reachable n S -> system_step S S' ->
  active (shared S) = count counted (threads S) /\
  count admitted (threads S) <= active (shared S) /\
  (forall i, threads S !! i = Some TryEnterRollback \/ threads S !! i = Some GuardDrop ->
    (checked_decrement (shared S)).2 <> AlreadyZero) /\
  (phase (shared S') = phase (shared S) \/ legal (phase (shared S)) (phase (shared S')) = true).
Proof.
  intros HS%reachable_inv Hst. split; [apply HS|]. split.
  { rewrite (inv_active _ HS). apply count_le. by intros []. }
  split; [|by apply phase_step_legal].
  intros i Hi. assert (0 < active (shared S)) as Hpos
    by (destruct Hi; by eapply counted_positive).
  unfold checked_decrement, checked_sub64. rewrite (proj2 (Z.leb_le _ _)) by lia.
  by destruct (_ =? _).
Qed.

Lemma lifecycle_counter_and_phases_witness :
  active (shared demo_running) = 0 /\ count admitted (threads demo_running) <= 0.
Proof.
  assert (system_step demo_running (mkSystem (shared demo_running) (<[1%nat := TryEnter]> (threads demo_running))))
    as Hst.
  { assert (demo_running = mkSystem (shared demo_running) (threads demo_running)) as Heq by reflexivity.
    rewrite Heq at 1. eapply (step_caller 1 Idle); [reflexivity|]. constructor. by left. }
  destruct (lifecycle_counter_and_phases 2 _ _ demo_running_reachable Hst) as (H1 & H2 & _).
  split; [exact H1|exact H2].
Defined.

(** Snapshots are consistent.  When [snapshot] returns, the phase it
    reports is the one that was current at the moment it read the number of
    active requests, even if transitions ran during the call. *)
Theorem snapshot_consistent n S i snap seen :
  reachable n S -> threads S !! i = Some (SnapTaken snap seen) -> snapshot_phase snap = seen.
Proof. intros HS%reachable_inv Hi. exact (inv_outside _ HS i _ Hi). Qed.

Definition demo_snapshot : System :=
  run_thread 5 1 (mkSystem (shared demo_running) (<[1%nat := SnapRevision]> (threads demo_running))).

Lemma snapshot_consistent_witness :
  exists snap seen, threads demo_snapshot !! 1%nat = Some (SnapTaken snap seen) /\
    snapshot_phase snap = seen /\ seen = Running.
Proof.
  exists (mkLifecycleSnapshot Running 0), Running.
  split; [vm_compute; reflexivity|]. split; [|reflexivity].
  apply (snapshot_consistent 2 demo_snapshot 1 (mkLifecycleSnapshot Running 0) Running);
    [|vm_compute; reflexivity].
  eapply rtc_trans; [apply demo_running_reachable|].
  eapply rtc_l; [|apply run_thread_steps].
  assert (demo_running = mkSystem (shared demo_running) (threads demo_running)) as Heq by reflexivity.
  rewrite Heq at 1. eapply (step_caller 1 Idle); [reflexivity|]. constructor. by left.
Defined.
