(* ===== verification/Ident.v ===== *)
(** * Identifiers and secret references

    Models [crates/wokcore-core/src/id.rs] (the three identifier types share one
    check) and [crates/wokcore-core/src/secret.rs] (opaque secret references,
    the random one apart, whose only content is the randomness of the [uuid]
    crate).  [uuid] and [sha2] are arguments of the definitions. *)
From stdpp Require Import pretty.
From S2P Require Import Prelude.

Definition MAX_IDENTIFIER_LENGTH : Z := 128.

Definition identifier_byte (b : Z) : bool :=
  is_ascii_lowercase b || is_ascii_digit b || (b =? 46) || (b =? 95) || (b =? 45).

Definition is_valid_identifier (value : string) : bool :=
  negb (str_is_empty value)
  && (str_len value <=? MAX_IDENTIFIER_LENGTH)
  && negb (bool_decide (value = "."%string))
  && negb (bool_decide (value = ".."%string))
  && existsb is_ascii_alphanumeric (str_bytes value)
  && forallb identifier_byte (str_bytes value).

Inductive InvalidId : Set := mkInvalidId.

(** [ProviderId::new], [AccountId::new] and [ClientId::new]: one macro. *)
Definition identifier_new (value : string) : result InvalidId string :=
  if negb (is_valid_identifier value) then Err mkInvalidId else Ok value.

Definition ProviderId_new := identifier_new.
Definition AccountId_new := identifier_new.
Definition ClientId_new := identifier_new.

(** ** Secret references *)
Definition SECRET_REF_PREFIX : string := "secret:".

Inductive InvalidSecretRef : Set := mkInvalidSecretRef.

Inductive SecretPurpose : Set :=
| PurposeApiKey | PurposeOAuthAccess | PurposeOAuthRefresh | PurposeLanToken | PurposeAuxiliary.

#[global] Instance SecretPurpose_eq_dec : EqDecision SecretPurpose.
Proof. solve_decision. Defined.

Record SecretScope : Set := mkSecretScope {
  scope_provider_id : string;
  scope_account_id : option string;
  scope_purpose : SecretPurpose
}.

Definition secret_purpose_code (p : SecretPurpose) : Z :=
  match p with
  | PurposeApiKey => 1
  | PurposeOAuthAccess => 2
  | PurposeOAuthRefresh => 3
  | PurposeLanToken => 4
  | PurposeAuxiliary => 5
  end.

(** The bytes fed to the hash for a scope. *)
Definition scope_domain : list Z :=
  str_bytes "wokcore.provider-secret-scope.v1" ++ [0].

Definition scope_preimage (scope : SecretScope) : list Z :=
  scope_domain
  ++ str_bytes (scope_provider_id scope)
  ++ [0]
  ++ match scope_account_id scope with
     | Some account_id => [1] ++ str_bytes account_id
     | None => [0]
     end
  ++ [0; secret_purpose_code (scope_purpose scope)].

(** The first sixteen digest bytes with the UUID version and variant bits set. *)
Definition scope_uuid_bytes (digest : list Z) : list Z :=
  let bytes := take 16 digest in
  let bytes := alter (fun b => Z.lor (Z.land b 15) 128) 6%nat bytes in
  alter (fun b => Z.lor (Z.land b 63) 128) 8%nat bytes.

Section SecretRef.
Context (sha256 : list Z -> list Z) (uuid_fmt : list Z -> string) (uuid_parse : string -> bool).

Definition SecretRef_parse (value : string) : result InvalidSecretRef string :=
  let? identifier := ok_or (strip_prefix SECRET_REF_PREFIX value) mkInvalidSecretRef in
  check? guard_err (negb (uuid_parse identifier)) mkInvalidSecretRef;
  Ok value.

Definition SecretRef_for_scope (scope : SecretScope) : string :=
  (SECRET_REF_PREFIX +:+ uuid_fmt (scope_uuid_bytes (sha256 (scope_preimage scope))))%string.
End SecretRef.

(** ** Lemmas *)
Lemma identifier_byte_nonzero b : identifier_byte b = true -> b <> 0.
Proof. unfold identifier_byte, is_ascii_lowercase, is_ascii_digit. lia. Qed.

Lemma identifier_new_Ok v u : identifier_new v = Ok u <-> u = v /\ is_valid_identifier v = true.
Proof. unfold identifier_new. destruct (is_valid_identifier v); cbn; naive_solver. Qed.

Lemma valid_identifier_bytes v :
  is_valid_identifier v = true -> Forall (fun b => identifier_byte b = true) (str_bytes v).
Proof.
  unfold is_valid_identifier. rewrite !andb_true_iff. intros [_ H].
  apply list.Forall_forall. intros b Hb. rewrite forallb_forall in H. apply H.
  by apply list_elem_of_In.
Qed.

Definition scope_valid (s : SecretScope) : Prop :=
  is_valid_identifier (scope_provider_id s) = true /\
  from_option (fun a => is_valid_identifier a = true) True (scope_account_id s).

(** Two zero-terminated texts with different remainders: the texts agree. *)
Lemma app_nul_inj (a b k l : list Z) :
  Forall (fun x => x <> 0) a -> Forall (fun x => x <> 0) b ->
  a ++ 0 :: k = b ++ 0 :: l -> a = b /\ k = l.
Proof.
  intros Ha. revert b. induction Ha as [|x a Hx _ IH]; intros b Hb Heq.
  - destruct Hb as [|y b Hy _]; cbn in Heq; [naive_solver|].
    injection Heq as E _. by destruct Hy.
  - destruct Hb as [|y b Hy Hb]; cbn in Heq; injection Heq as E1 E2; [by subst|].
    destruct (IH _ Hb E2) as [-> ->]. by subst.
Qed.

Lemma secret_purpose_code_inj p q : secret_purpose_code p = secret_purpose_code q -> p = q.
Proof. by destruct p, q. Qed.

Lemma valid_identifier_no_nul v :
  is_valid_identifier v = true -> Forall (fun b => b <> 0) (str_bytes v).
Proof.
  intros H%valid_identifier_bytes.
  eapply Forall_impl; [|exact H]. apply identifier_byte_nonzero.
Qed.

(** The preimage determines the scope: identifiers hold no zero byte, so the
    separators cannot be confused with their content. *)
Lemma scope_preimage_inj s t :
  scope_valid s -> scope_valid t -> scope_preimage s = scope_preimage t -> s = t.
Proof.
  destruct s as [p a u], t as [p' a' u']. intros [Hp Ha] [Hp' Ha'] Heq.
  cbn [scope_provider_id scope_account_id from_option] in Hp, Ha, Hp', Ha'.
  unfold scope_preimage in Heq. cbn [scope_provider_id scope_account_id scope_purpose] in Heq.
  apply app_inv_head in Heq.
  apply app_nul_inj in Heq as [E1%str_bytes_inj E2]; [|by apply valid_identifier_no_nul..].
  destruct a as [a|], a' as [a'|]; cbn in E2.
  - injection E2 as E2.
    apply app_nul_inj in E2 as [E2%str_bytes_inj E3]; [|by apply valid_identifier_no_nul..].
    injection E3 as E3%secret_purpose_code_inj. by subst.
  - injection E2 as E2; discriminate.
  - injection E2 as E2; discriminate.
  - injection E2 as E3%secret_purpose_code_inj. by subst.
Qed.

(** A 16-byte array, as [uuid::Uuid::from_bytes] takes. *)
Definition uuid_array (b : list Z) : Prop :=
  length b = 16%nat /\ Forall (fun x => 0 <= x < 256) b.

Lemma masked_byte m b : 0 <= m <= 127 -> 0 <= Z.lor (Z.land b m) 128 < 256.
Proof.
  intros Hm. split.
  { apply Z.lor_nonneg. split; [|lia]. apply Z.land_nonneg. lia. }
  assert (0 <= Z.land b m) by (apply Z.land_nonneg; lia).
  assert (Z.land b m < 2 ^ 7).
  { rewrite <- (Z.mod_small m (2 ^ 7)) by lia.
    rewrite <- (Z.land_ones m 7), Z.land_assoc, Z.land_ones by lia.
    apply Z.mod_pos_bound. lia. }
  assert (Z.log2 (Z.land b m) <= 6).
  { destruct (Z.eq_dec (Z.land b m) 0) as [->|]; [cbn; lia|].
    enough (Z.log2 (Z.land b m) < 7) by lia. apply Z.log2_lt_pow2; lia. }
  change 256 with (2 ^ 8). apply Z.log2_lt_cancel. rewrite Z.log2_lor by lia.
  change (Z.log2 128) with 7. change (Z.log2 (2 ^ 8)) with 8. lia.
Qed.

Lemma Forall_alter {A} (P : A -> Prop) (f : A -> A) i l :
  (forall x, P (f x)) -> Forall P l -> Forall P (alter f i l).
Proof.
  intros Hf Hl. revert i. induction Hl as [|x l Hx Hl IH]; intros [|i]; cbn; constructor; auto.
Qed.

Lemma scope_uuid_bytes_array d :
  length d = 32%nat -> Forall (fun x => 0 <= x < 256) d -> uuid_array (scope_uuid_bytes d).
Proof.
  intros Hl Hd. unfold scope_uuid_bytes. split.
  - rewrite !length_alter, length_take. lia.
  - repeat (apply Forall_alter; [intros; apply masked_byte; lia|]). by apply Forall_take.
Qed.

(** ** Claims *)
Section Claims.
Context (sha256 : list Z -> list Z) (uuid_fmt : list Z -> string) (uuid_parse : string -> bool).

(** A scope's reference parses back as a secret reference, and two
    credential slots share one only if they are the same slot or SHA-256, cut
    down to the 122 bits a version-8 UUID keeps, collides on two different
    inputs.  Assumed of the libraries: SHA-256 returns 32 bytes; the UUID
    printer is injective on 16-byte arrays and its output is accepted by the
    UUID parser. *)
Theorem secret_slots_separated (s t : SecretScope) :
  (forall l, length (sha256 l) = 32%nat /\ Forall (fun x => 0 <= x < 256) (sha256 l)) ->
  (forall b c, uuid_array b -> uuid_array c -> uuid_fmt b = uuid_fmt c -> b = c) ->
  (forall b, uuid_array b -> uuid_parse (uuid_fmt b) = true) ->
  scope_valid s -> scope_valid t ->
  SecretRef_parse uuid_parse (SecretRef_for_scope sha256 uuid_fmt s)
    = Ok (SecretRef_for_scope sha256 uuid_fmt s) /\
  (SecretRef_for_scope sha256 uuid_fmt s = SecretRef_for_scope sha256 uuid_fmt t ->
   s = t \/
   (scope_preimage s <> scope_preimage t /\
    scope_uuid_bytes (sha256 (scope_preimage s)) = scope_uuid_bytes (sha256 (scope_preimage t)))).
Proof.
  intros Hsha Hfmt Hparse Hs Ht.
  assert (forall l, uuid_array (scope_uuid_bytes (sha256 l))) as Harr.
  { intros l. by apply scope_uuid_bytes_array; apply Hsha. }
  split.
  - unfold SecretRef_parse, SecretRef_for_scope.
    rewrite (proj2 (strip_prefix_Some _ _ _) eq_refl). cbn [ok_or result_bind].
    by rewrite Hparse by apply Harr.
  - intros Heq%(inj (String.app SECRET_REF_PREFIX))%Hfmt; [|apply Harr..].
    destruct (decide (scope_preimage s = scope_preimage t)) as [E|E]; [left|by right].
    by apply scope_preimage_inj.
Qed.

End Claims.

(** A hash and a UUID printer for which the assumptions hold. *)
Definition demo_sha256 (l : list Z) : list Z :=
  take 32 ((fun b => b mod 256) <$> reverse l ++ replicate 32 7).
Definition demo_uuid_fmt (b : list Z) : string := pretty (encode b).

Definition demo_scope : SecretScope := mkSecretScope "openai" (Some "work") PurposeApiKey.

Lemma demo_sha256_bytes l :
  length (demo_sha256 l) = 32%nat /\ Forall (fun x => 0 <= x < 256) (demo_sha256 l).
Proof.
  unfold demo_sha256. split.
  - rewrite length_take, length_fmap, length_app, length_replicate. lia.
  - apply Forall_take, list.Forall_fmap, list.Forall_forall. intros x _. cbn.
    apply Z.mod_pos_bound. lia.
Qed.

Lemma secret_slots_separated_witness :
  SecretRef_parse (fun _ => true) (SecretRef_for_scope demo_sha256 demo_uuid_fmt demo_scope)
  = Ok (SecretRef_for_scope demo_sha256 demo_uuid_fmt demo_scope).
Proof.
  apply (secret_slots_separated demo_sha256 demo_uuid_fmt (fun _ => true) demo_scope demo_scope).
  - apply demo_sha256_bytes.
  - intros b c _ _ H. unfold demo_uuid_fmt in H. by apply (inj pretty), (inj encode) in H.
  - done.
  - by split.
  - by split.
Defined.
