(* ===== verification/NetAddr.v ===== *)
(** * Network addresses and URLs

    The address predicates of [std::net] the sources use, the two address
    classifications of the engine ([catalog.rs] decides what a configuration
    may name, [transport.rs] decides what a connection may reach), and the
    interface of the [url] crate.  An IPv4 address is its four octets, an IPv6
    address its eight 16-bit segments. *)
From S2P Require Import Prelude.

Record Ipv4Addr : Set := mkV4 { o0 : Z; o1 : Z; o2 : Z; o3 : Z }.
Record Ipv6Addr : Set := mkV6 {
  s0 : Z; s1 : Z; s2 : Z; s3 : Z; s4 : Z; s5 : Z; s6 : Z; s7 : Z
}.
Inductive IpAddr : Set := V4 (a : Ipv4Addr) | V6 (a : Ipv6Addr).

Definition octet (x : Z) : Prop := 0 <= x <= 255.
Definition segment (x : Z) : Prop := 0 <= x <= 65535.
Definition ipv4_wf (a : Ipv4Addr) : Prop :=
  octet (o0 a) /\ octet (o1 a) /\ octet (o2 a) /\ octet (o3 a).
Definition ipv6_wf (a : Ipv6Addr) : Prop :=
  Forall segment [s0 a; s1 a; s2 a; s3 a; s4 a; s5 a; s6 a; s7 a].
Definition ip_wf (a : IpAddr) : Prop :=
  match a with V4 a => ipv4_wf a | V6 a => ipv6_wf a end.

(** ** [std::net] *)
Definition v4_is_private (a : Ipv4Addr) : bool :=
  (o0 a =? 10) || ((o0 a =? 172) && (16 <=? o1 a) && (o1 a <=? 31))
  || ((o0 a =? 192) && (o1 a =? 168)).
Definition v4_is_loopback (a : Ipv4Addr) : bool := o0 a =? 127.
Definition v4_is_link_local (a : Ipv4Addr) : bool := (o0 a =? 169) && (o1 a =? 254).
Definition v4_is_broadcast (a : Ipv4Addr) : bool :=
  (o0 a =? 255) && (o1 a =? 255) && (o2 a =? 255) && (o3 a =? 255).
Definition v4_is_documentation (a : Ipv4Addr) : bool :=
  ((o0 a =? 192) && (o1 a =? 0) && (o2 a =? 2))
  || ((o0 a =? 198) && (o1 a =? 51) && (o2 a =? 100))
  || ((o0 a =? 203) && (o1 a =? 0) && (o2 a =? 113)).
Definition v4_is_unspecified (a : Ipv4Addr) : bool :=
  (o0 a =? 0) && (o1 a =? 0) && (o2 a =? 0) && (o3 a =? 0).
Definition v4_is_multicast (a : Ipv4Addr) : bool := (224 <=? o0 a) && (o0 a <=? 239).

Definition v6_prefix_zero (a : Ipv6Addr) : bool :=
  (s0 a =? 0) && (s1 a =? 0) && (s2 a =? 0) && (s3 a =? 0) && (s4 a =? 0).
Definition v6_is_loopback (a : Ipv6Addr) : bool :=
  v6_prefix_zero a && (s5 a =? 0) && (s6 a =? 0) && (s7 a =? 1).
Definition v6_is_unspecified (a : Ipv6Addr) : bool :=
  v6_prefix_zero a && (s5 a =? 0) && (s6 a =? 0) && (s7 a =? 0).
Definition v6_is_multicast (a : Ipv6Addr) : bool := Z.land (s0 a) 65280 =? 65280.
Definition v6_octet0 (a : Ipv6Addr) : Z := Z.shiftr (s0 a) 8.
Definition v6_octet1 (a : Ipv6Addr) : Z := Z.land (s0 a) 255.
Definition to_ipv4_mapped (a : Ipv6Addr) : option Ipv4Addr :=
  if v6_prefix_zero a && (s5 a =? 65535)
  then Some (mkV4 (Z.shiftr (s6 a) 8) (Z.land (s6 a) 255)
                  (Z.shiftr (s7 a) 8) (Z.land (s7 a) 255))
  else None.
Definition ip_is_loopback (a : IpAddr) : bool :=
  match a with V4 a => v4_is_loopback a | V6 a => v6_is_loopback a end.

(** ** The [url] crate

    [Host] is the crate's enum; the parser and the accessors are an interface
    the definitions take as an argument. *)
Inductive Host : Set :=
| Domain (domain : string)
| HostIpv4 (a : Ipv4Addr)
| HostIpv6 (a : Ipv6Addr).

Class UrlCrate : Type := {
  Url : Type;
  url_parse : string -> option Url;
  url_scheme : Url -> string;
  url_username : Url -> string;
  url_password : Url -> option string;
  url_host : Url -> option Host;
  url_port : Url -> option Z;
  url_query : Url -> option string;
  url_fragment : Url -> option string
}.

Definition scheme_is_http_or_https (scheme : string) : bool :=
  bool_decide (scheme = "http"%string) || bool_decide (scheme = "https"%string).

(** ** Configuration side: [catalog.rs] *)
Definition is_ipv6_unique_local (a : Ipv6Addr) : bool := Z.land (v6_octet0 a) 254 =? 252.

Definition is_ipv6_link_local (a : Ipv6Addr) : bool :=
  (v6_octet0 a =? 254) && (Z.land (v6_octet1 a) 192 =? 128).

Definition is_private_ipv4 (a : Ipv4Addr) : bool :=
  v4_is_private a || v4_is_loopback a || v4_is_link_local a || v4_is_broadcast a
  || v4_is_documentation a || v4_is_unspecified a || v4_is_multicast a || (o0 a =? 0).

Definition is_private_ip (address : IpAddr) : bool :=
  match address with
  | V4 a => is_private_ipv4 a
  | V6 a =>
      is_some_and is_private_ipv4 (to_ipv4_mapped a)
      || v6_is_loopback a || v6_is_unspecified a || v6_is_multicast a
      || is_ipv6_unique_local a || is_ipv6_link_local a
  end.

Definition is_private_host (host : Host) : bool :=
  match host with
  | Domain domain =>
      let domain := to_ascii_lowercase domain in
      bool_decide (domain = "localhost"%string) || ends_with ".localhost" domain
      || ends_with ".local" domain || ends_with ".internal" domain
  | HostIpv4 a => is_private_ip (V4 a)
  | HostIpv6 a => is_private_ip (V6 a)
  end.

(** ** Connection side: [transport.rs] *)
Definition ipv4_is_public (a : Ipv4Addr) : bool :=
  negb (v4_is_private a) && negb (v4_is_loopback a) && negb (v4_is_link_local a)
  && negb (v4_is_broadcast a) && negb (v4_is_documentation a) && negb (v4_is_unspecified a)
  && negb (v4_is_multicast a) && negb (o0 a =? 0)
  && negb ((o0 a =? 100) && ((64 <=? o1 a) && (o1 a <=? 127)))
  && negb ((o0 a =? 198) && ((o1 a =? 18) || (o1 a =? 19)))
  && (o0 a <? 240).

Definition ipv6_is_public (a : Ipv6Addr) : bool :=
  if v6_is_unspecified a || v6_is_loopback a || v6_is_multicast a
     || (Z.land (s0 a) 65024 =? 64512)
     || (Z.land (s0 a) 65472 =? 65152)
     || (Z.land (s0 a) 65472 =? 65216)
     || ((s0 a =? 8193) && (s1 a =? 3512))
  then false
  else is_none_or ipv4_is_public (to_ipv4_mapped a).

Definition ip_is_public (address : IpAddr) : bool :=
  match address with V4 a => ipv4_is_public a | V6 a => ipv6_is_public a end.

Definition ip_is_connectable (address : IpAddr) : bool :=
  match address with
  | V4 a => negb (v4_is_unspecified a) && negb (v4_is_multicast a)
  | V6 a => negb (v6_is_unspecified a) && negb (v6_is_multicast a)
  end.

Definition host_is_public (host : Host) : bool :=
  match host with
  | Domain domain => negb (eq_ignore_ascii_case domain "localhost")
  | HostIpv4 a => ip_is_public (V4 a)
  | HostIpv6 a => ip_is_public (V6 a)
  end.

Definition host_is_connectable (host : Host) : bool :=
  match host with
  | Domain domain => negb (str_is_empty domain)
  | HostIpv4 a => ip_is_connectable (V4 a)
  | HostIpv6 a => ip_is_connectable (V6 a)
  end.

Definition host_is_loopback (host : Host) : bool :=
  match host with
  | Domain domain => eq_ignore_ascii_case domain "localhost"
  | HostIpv4 a => v4_is_loopback a
  | HostIpv6 a => v6_is_loopback a
  end.

(** ** Lemmas *)

(** A property of all [w]-bit extensions of [x], decided by evaluation. *)
Fixpoint forall_bits (w : nat) (p : Z -> bool) (x : Z) : bool :=
  match w with
  | O => p x
  | S w => forall_bits w p (2 * x) && forall_bits w p (2 * x + 1)
  end.

Lemma forall_bits_spec w p x y :
  forall_bits w p x = true -> x * 2 ^ Z.of_nat w <= y < (x + 1) * 2 ^ Z.of_nat w -> p y = true.
Proof.
  revert x. induction w as [|w IH]; intros x H Hy.
  - cbn in H, Hy. by replace y with x by lia.
  - rewrite Nat2Z.inj_succ, Z.pow_succ_r in Hy by lia.
    cbn [forall_bits] in H. apply andb_true_iff in H as [H0 H1].
    destruct (Z.lt_ge_cases y ((2 * x + 1) * 2 ^ Z.of_nat w)).
    + apply (IH (2 * x) H0). lia.
    + apply (IH (2 * x + 1) H1). lia.
Qed.

Lemma segment_forall (p : Z -> bool) x : forall_bits 16 p 0 = true -> segment x -> p x = true.
Proof. intros H Hx. apply (forall_bits_spec 16 p 0 x H). unfold segment in Hx. lia. Qed.

(** The catalog reads octets where the transport reads segments. *)
Definition unique_local_agree (x : Z) : bool :=
  eqb (Z.land (Z.shiftr x 8) 254 =? 252) (Z.land x 65024 =? 64512).
Definition link_local_agree (x : Z) : bool :=
  eqb ((Z.shiftr x 8 =? 254) && (Z.land (Z.land x 255) 192 =? 128)) (Z.land x 65472 =? 65152).

Lemma unique_local_agree_all : forall_bits 16 unique_local_agree 0 = true.
Proof. vm_compute. reflexivity. Qed.

Lemma link_local_agree_all : forall_bits 16 link_local_agree 0 = true.
Proof. vm_compute. reflexivity. Qed.

Lemma unique_local_segment a :
  segment (s0 a) -> is_ipv6_unique_local a = (Z.land (s0 a) 65024 =? 64512).
Proof.
  intros H. apply eqb_prop.
  exact (segment_forall unique_local_agree (s0 a) unique_local_agree_all H).
Qed.

Lemma link_local_segment a :
  segment (s0 a) -> is_ipv6_link_local a = (Z.land (s0 a) 65472 =? 65152).
Proof.
  intros H. apply eqb_prop.
  exact (segment_forall link_local_agree (s0 a) link_local_agree_all H).
Qed.

Lemma ipv4_public_not_private a : ipv4_is_public a = true -> is_private_ipv4 a = false.
Proof.
  unfold ipv4_is_public, is_private_ipv4. rewrite !andb_true_iff, !negb_true_iff.
  rewrite !orb_false_iff. tauto.
Qed.

Lemma ipv6_public_not_private a :
  segment (s0 a) -> ipv6_is_public a = true -> is_private_ip (V6 a) = false.
Proof.
  intros Hs. cbn [is_private_ip]. unfold ipv6_is_public.
  case_match eqn:E; [done|]. rewrite !orb_false_iff in E. destruct_and!. intros Hm.
  rewrite unique_local_segment, link_local_segment by done.
  rewrite !orb_false_iff. split_and!; try done.
  destruct (to_ipv4_mapped a); [|done]. by apply ipv4_public_not_private.
Qed.

Lemma ip_public_not_private a : ip_wf a -> ip_is_public a = true -> is_private_ip a = false.
Proof.
  destruct a; intros Hwf.
  - apply ipv4_public_not_private.
  - apply ipv6_public_not_private. by apply list.Forall_cons in Hwf as [? _].
Qed.

Lemma v6_loopback_not_public a : v6_is_loopback a = true -> ipv6_is_public a = false.
Proof. intros H. unfold ipv6_is_public. rewrite H. by rewrite !orb_true_r. Qed.

Lemma loopback_not_public a : ip_is_loopback a = true -> ip_is_public a = false.
Proof.
  destruct a; cbn; [|apply v6_loopback_not_public].
  unfold ipv4_is_public. intros ->. cbn. by rewrite andb_false_r.
Qed.

Lemma host_loopback_private h : host_is_loopback h = true -> is_private_host h = true.
Proof.
  destruct h; cbn.
  - unfold eq_ignore_ascii_case. rewrite bool_decide_eq_true. intros ->. reflexivity.
  - unfold is_private_ipv4. intros ->. by rewrite !orb_true_r.
  - intros ->. by rewrite !orb_true_r.
Qed.

#[export] Hint Resolve ip_public_not_private loopback_not_public host_loopback_private : wok.

(** ** A concrete URL library

    Enough of a parser to run the definitions on: the URLs the examples name. *)
Record DemoUrl : Set := mkDemoUrl {
  du_scheme : string; du_host : option Host; du_port : option Z; du_fragment : option string
}.

Definition demo_urls : gmap string DemoUrl := list_to_map [
  ("https://api.example.com/v1"%string, mkDemoUrl "https" (Some (Domain "api.example.com")) None None);
  ("https://placeholder.example.com"%string,
    mkDemoUrl "https" (Some (Domain "placeholder.example.com")) None None);
  ("http://127.0.0.1:11434/v1"%string,
    mkDemoUrl "http" (Some (HostIpv4 (mkV4 127 0 0 1))) (Some 11434) None);
  ("https://10.0.0.8/v1"%string, mkDemoUrl "https" (Some (HostIpv4 (mkV4 10 0 0 8))) None None);
  ("http://192.168.1.9:8080"%string,
    mkDemoUrl "http" (Some (HostIpv4 (mkV4 192 168 1 9))) (Some 8080) None)
].

Definition demo_url_crate : UrlCrate := {|
  Url := DemoUrl;
  url_parse := fun s => demo_urls !! s;
  url_scheme := du_scheme;
  url_username := fun _ => ""%string;
  url_password := fun _ => None;
  url_host := du_host;
  url_port := du_port;
  url_query := fun _ => None;
  url_fragment := du_fragment
|}.
