(* ===== verification/Config.v ===== *)
(** * Provider configuration and its shape check

    Models [crates/wokcore-core/src/config.rs]: the provider, account and
    routing configuration and [validate_provider_configuration_shape], the check
    every configuration passes before it is stored or compiled. *)
From S2P Require Import Prelude Text NetAddr.

Record ProviderInstanceConfig : Set := mkInstance {
  pi_id : string;
  pi_catalog_id : string;
  pi_enabled : bool;
  pi_endpoint : option string;
  pi_allow_private_network : bool
}.

Inductive AccountAuthConfig : Set :=
| AuthForward (credential : string)
| AuthOauth (access : string) (refresh : option string)
| AuthApiKey (secret : string)
| AuthLocal.

#[global] Instance AccountAuthConfig_eq_dec : EqDecision AccountAuthConfig.
Proof. solve_decision. Defined.

Record AccountConfig : Set := mkAccount {
  ac_id : string;
  ac_provider : string;
  ac_enabled : bool;
  ac_auth : AccountAuthConfig
}.

Record ProviderConfig : Set := mkProviderConfig {
  instances : list ProviderInstanceConfig;
  accounts : list AccountConfig
}.

Record RouteTarget : Set := mkTarget { target_provider : string; target_model : string }.

#[global] Instance RouteTarget_eq_dec : EqDecision RouteTarget.
Proof. solve_decision. Defined.

Record ModelAlias : Set := mkAlias { alias_name : string; alias_target : RouteTarget }.

Record RouteRule : Set := mkRule {
  rule_client_id : option string;
  rule_model : option string;
  rule_target : RouteTarget
}.

#[global] Instance RouteRule_eq_dec : EqDecision RouteRule.
Proof. solve_decision. Defined.

Record RoutingConfig : Set := mkRouting {
  aliases : list ModelAlias;
  rules : list RouteRule;
  route_default : option RouteTarget
}.

Definition MAX_PROVIDER_INSTANCES : Z := 64.
Definition MAX_ACCOUNTS : Z := 256.
Definition MAX_MODEL_ALIASES : Z := 1024.
Definition MAX_ROUTE_RULES : Z := 1024.
Definition MAX_MODEL_ID_BYTES : Z := 256.
Definition MAX_ENDPOINT_BYTES : Z := 2048.

Inductive ConfigShapeError : Set :=
| ShapeProviderLimitExceeded | ShapeAccountLimitExceeded | ShapeAliasLimitExceeded
| ShapeRouteRuleLimitExceeded | ShapeDuplicateProvider | ShapeDuplicateAccount
| ShapeUnknownAccountProvider | ShapeInvalidEndpoint | ShapeDuplicateAlias
| ShapeInvalidModel | ShapeUnknownRouteProvider.

Definition open_brace : Ascii.ascii := Ascii.ascii_of_nat 123.
Definition close_brace : Ascii.ascii := Ascii.ascii_of_nat 125.

(** [s.contains(['{', '}'])]. *)
Definition contains_brace (s : string) : bool :=
  str_contains open_brace s || str_contains close_brace s.

Definition validate_model (model : string) : result ConfigShapeError unit :=
  guard_err (is_blank model || (MAX_MODEL_ID_BYTES <? str_len model) || has_control model)
    ShapeInvalidModel.

Definition validate_target (target : RouteTarget) (provider_ids : gset string)
  : result ConfigShapeError unit :=
  check? guard_err (negb (bool_decide (target_provider target ∈ provider_ids)))
    ShapeUnknownRouteProvider;
  validate_model (target_model target).

Section Config.
Context `{UrlCrate}.

Definition validate_endpoint_shape (endpoint : string) : result ConfigShapeError unit :=
  check? guard_err
    (str_is_empty endpoint || (MAX_ENDPOINT_BYTES <? str_len endpoint)
     || str_contains open_brace endpoint || str_contains close_brace endpoint)
    ShapeInvalidEndpoint;
  let? url := ok_or (url_parse endpoint) ShapeInvalidEndpoint in
  guard_err
    (negb (scheme_is_http_or_https (url_scheme url))
     || negb (str_is_empty (url_username url))
     || is_someb (url_password url)
     || is_someb (url_query url)
     || is_someb (url_fragment url)
     || negb (is_someb (url_host url)))
    ShapeInvalidEndpoint.

Definition validate_instance_shape (provider_ids : gset string) (provider : ProviderInstanceConfig)
  : result ConfigShapeError (gset string) :=
  check? guard_err (bool_decide (pi_id provider ∈ provider_ids)) ShapeDuplicateProvider;
  check? match pi_endpoint provider with
         | Some endpoint => validate_endpoint_shape endpoint
         | None => Ok tt
         end;
  Ok ({[pi_id provider]} ∪ provider_ids).

Definition validate_account_shape (provider_ids : gset string) (account_ids : gset string)
  (account : AccountConfig) : result ConfigShapeError (gset string) :=
  check? guard_err (bool_decide (ac_id account ∈ account_ids)) ShapeDuplicateAccount;
  check? guard_err (negb (bool_decide (ac_provider account ∈ provider_ids)))
    ShapeUnknownAccountProvider;
  Ok ({[ac_id account]} ∪ account_ids).

Definition validate_alias_shape (provider_ids : gset string) (seen : gset string)
  (alias : ModelAlias) : result ConfigShapeError (gset string) :=
  check? validate_model (alias_name alias);
  check? guard_err (bool_decide (alias_name alias ∈ seen)) ShapeDuplicateAlias;
  check? validate_target (alias_target alias) provider_ids;
  Ok ({[alias_name alias]} ∪ seen).

Definition validate_rule_shape (provider_ids : gset string) (u : unit) (rule : RouteRule)
  : result ConfigShapeError unit :=
  check? match rule_model rule with
         | Some model => validate_model model
         | None => Ok tt
         end;
  validate_target (rule_target rule) provider_ids.

Definition validate_provider_configuration_shape (providers : ProviderConfig)
  (routing : RoutingConfig) : result ConfigShapeError unit :=
  check? guard_err (MAX_PROVIDER_INSTANCES <? zlen (instances providers)) ShapeProviderLimitExceeded;
  check? guard_err (MAX_ACCOUNTS <? zlen (accounts providers)) ShapeAccountLimitExceeded;
  check? guard_err (MAX_MODEL_ALIASES <? zlen (aliases routing)) ShapeAliasLimitExceeded;
  check? guard_err (MAX_ROUTE_RULES <? zlen (rules routing)) ShapeRouteRuleLimitExceeded;
  let? provider_ids := try_fold validate_instance_shape ∅ (instances providers) in
  check? try_fold (validate_account_shape provider_ids) ∅ (accounts providers);
  check? try_fold (validate_alias_shape provider_ids) ∅ (aliases routing);
  check? try_fold (validate_rule_shape provider_ids) tt (rules routing);
  match route_default routing with
  | Some target => validate_target target provider_ids
  | None => Ok tt
  end.

(** ** What the check promises *)
Definition model_ok (m : string) : Prop :=
  (exists c, c ∈ str_chars m /\ is_whitespace c = false) /\
  str_len m <= MAX_MODEL_ID_BYTES /\
  (forall c, c ∈ str_chars m -> is_control c = false).

Definition endpoint_ok (e : string) : Prop :=
  e <> ""%string /\ str_len e <= MAX_ENDPOINT_BYTES /\
  open_brace ∉ str_ascii e /\ close_brace ∉ str_ascii e /\
  exists url, url_parse e = Some url /\
    (url_scheme url = "http"%string \/ url_scheme url = "https"%string) /\
    url_username url = ""%string /\ url_password url = None /\
    url_query url = None /\ url_fragment url = None /\ is_Some (url_host url).

Definition target_ok (ids : list string) (t : RouteTarget) : Prop :=
  target_provider t ∈ ids /\ model_ok (target_model t).

Record shape_ok (p : ProviderConfig) (r : RoutingConfig) : Prop := {
  so_limits : zlen (instances p) <= MAX_PROVIDER_INSTANCES /\ zlen (accounts p) <= MAX_ACCOUNTS /\
    zlen (aliases r) <= MAX_MODEL_ALIASES /\ zlen (rules r) <= MAX_ROUTE_RULES;
  so_instances : NoDup (pi_id <$> instances p);
  so_endpoints : Forall (fun i => from_option endpoint_ok True (pi_endpoint i)) (instances p);
  so_accounts : NoDup (ac_id <$> accounts p);
  so_account_providers : Forall (fun a => ac_provider a ∈ pi_id <$> instances p) (accounts p);
  so_aliases : NoDup (alias_name <$> aliases r);
  so_alias_targets :
    Forall (fun a => model_ok (alias_name a) /\ target_ok (pi_id <$> instances p) (alias_target a))
      (aliases r);
  so_rules :
    Forall (fun u => from_option model_ok True (rule_model u) /\
                     target_ok (pi_id <$> instances p) (rule_target u)) (rules r);
  so_default : from_option (target_ok (pi_id <$> instances p)) True (route_default r)
}.

(** ** Each check against its promise *)
Lemma is_blank_false m : is_blank m = false <-> exists c, c ∈ str_chars m /\ is_whitespace c = false.
Proof.
  unfold is_blank. induction (str_chars m) as [|c l IH]; cbn; [set_solver|].
  rewrite andb_false_iff, IH. split.
  - intros [Hc|(d & ? & ?)]; [exists c|exists d]; split; set_solver.
  - intros (d & [->|Hd]%elem_of_cons & ?); eauto.
Qed.

Lemma has_control_false m : has_control m = false <-> forall c, c ∈ str_chars m -> is_control c = false.
Proof.
  unfold has_control. induction (str_chars m) as [|c l IH]; cbn; [set_solver|].
  rewrite orb_false_iff, IH. set_solver.
Qed.

Lemma scheme_http_true s :
  scheme_is_http_or_https s = true <-> s = "http"%string \/ s = "https"%string.
Proof. unfold scheme_is_http_or_https. by rewrite orb_true_iff, !bool_decide_eq_true. Qed.

Lemma validate_model_Ok m u : validate_model m = Ok u <-> model_ok m.
Proof.
  unfold validate_model, model_ok.
  rewrite guard_err_Ok, !orb_false_iff, is_blank_false, has_control_false, Z.ltb_ge. tauto.
Qed.

Lemma validate_endpoint_shape_Ok e : validate_endpoint_shape e = Ok tt <-> endpoint_ok e.
Proof.
  unfold validate_endpoint_shape, endpoint_ok.
  rewrite check_Ok, guard_err_Ok, !orb_false_iff, str_is_empty_false, !str_contains_false, Z.ltb_ge.
  destruct (url_parse e) as [url|]; cbn [ok_or result_bind].
  2: { split; [|naive_solver]. intros [_ [=]]. }
  rewrite guard_err_Ok, !orb_false_iff, !negb_false_iff, scheme_http_true, str_is_empty_true,
    !is_someb_false, is_someb_true.
  naive_solver.
Qed.

Lemma validate_target_Ok t ids :
  validate_target t (list_to_set ids) = Ok tt <-> target_ok ids t.
Proof.
  unfold validate_target, target_ok.
  by rewrite check_Ok, guard_err_Ok, negb_false_iff, bool_decide_eq_true, elem_of_list_to_set,
    validate_model_Ok.
Qed.

Lemma validate_instances_Ok l ids :
  try_fold validate_instance_shape ∅ l = Ok ids <->
  NoDup (pi_id <$> l) /\ Forall (fun i => from_option endpoint_ok True (pi_endpoint i)) l /\
  ids = list_to_set (pi_id <$> l).
Proof.
  rewrite (try_fold_dedup _ pi_id (fun i => from_option endpoint_ok True (pi_endpoint i))).
  - rewrite union_empty_r_L. split; [naive_solver|].
    intros (?&?&?). split_and!; try done; intros a _; apply not_elem_of_empty.
  - intros s i s'. unfold validate_instance_shape.
    rewrite !check_Ok, guard_err_Ok, bool_decide_eq_false,
      (optional_check_Ok _ _ _ validate_endpoint_shape_Ok). naive_solver.
Qed.

Lemma validate_account_list_Ok ids l :
  (exists s, try_fold (validate_account_shape (list_to_set ids)) ∅ l = Ok s) <->
  NoDup (ac_id <$> l) /\ Forall (fun a => ac_provider a ∈ ids) l.
Proof.
  setoid_rewrite (try_fold_dedup _ ac_id (fun a => ac_provider a ∈ ids)).
  - split; [naive_solver|]. intros [? ?]. eexists. split_and!; try done; intros a _; apply not_elem_of_empty.
  - intros s1 a s'. unfold validate_account_shape.
    rewrite !check_Ok, !guard_err_Ok, bool_decide_eq_false, negb_false_iff, bool_decide_eq_true,
      elem_of_list_to_set. naive_solver.
Qed.

Lemma validate_alias_list_Ok ids l :
  (exists s, try_fold (validate_alias_shape (list_to_set ids)) ∅ l = Ok s) <->
  NoDup (alias_name <$> l) /\
  Forall (fun a => model_ok (alias_name a) /\ target_ok ids (alias_target a)) l.
Proof.
  setoid_rewrite (try_fold_dedup _ alias_name
    (fun a => model_ok (alias_name a) /\ target_ok ids (alias_target a))).
  - split; [naive_solver|]. intros [? ?]. eexists. split_and!; try done; intros a _; apply not_elem_of_empty.
  - intros s1 a s'. unfold validate_alias_shape.
    rewrite !check_Ok, guard_err_Ok, bool_decide_eq_false, validate_model_Ok, validate_target_Ok.
    naive_solver.
Qed.

Lemma validate_rule_list_Ok ids l :
  try_fold (validate_rule_shape (list_to_set ids)) tt l = Ok tt <->
  Forall (fun u => from_option model_ok True (rule_model u) /\ target_ok ids (rule_target u)) l.
Proof.
  rewrite (try_fold_check _
    (fun u => from_option model_ok True (rule_model u) /\ target_ok ids (rule_target u))).
  - naive_solver.
  - intros [] a []. unfold validate_rule_shape.
    rewrite check_Ok, validate_target_Ok, (optional_check_Ok _ _ _ (fun m => validate_model_Ok m tt)).
    naive_solver.
Qed.

Lemma shape_check_correct p r :
  validate_provider_configuration_shape p r = Ok tt <-> shape_ok p r.
Proof.
  unfold validate_provider_configuration_shape.
  rewrite !check_Ok, !guard_err_Ok, !Z.ltb_ge, result_bind_Ok.
  split.
  - intros (H1 & H2 & H3 & H4 & ids & (Hn & He & ->)%validate_instances_Ok & Hk).
    apply check_loop_Ok in Hk as [(Hn2 & Ha)%validate_account_list_Ok Hk].
    apply check_loop_Ok in Hk as [(Hn3 & Hl)%validate_alias_list_Ok Hk].
    apply check_Ok in Hk as [Hr%validate_rule_list_Ok Hd].
    apply (optional_check_Ok _ _ _ (fun t => validate_target_Ok t _)) in Hd. by split.
  - intros [(?&?&?&?) Hn He Hn2 Ha Hn3 Hl Hr Hd]. split_and!; try done.
    exists (list_to_set (pi_id <$> instances p)). split; [by apply validate_instances_Ok|].
    apply check_loop_Ok. split; [by apply validate_account_list_Ok|].
    apply check_loop_Ok. split; [by apply validate_alias_list_Ok|].
    apply check_Ok. split; [by apply validate_rule_list_Ok|].
    by apply (optional_check_Ok _ _ _ (fun t => validate_target_Ok t _)).
Qed.

(** The shape check accepts a configuration exactly when it is well formed:
    within the four count limits; provider, account and alias names distinct;
    every account, alias, rule and the default naming a configured provider;
    every model name non-blank, bounded and free of control characters; every
    endpoint an http(s) URL with a host and no user info, query, fragment or
    template braces. *)
Theorem shape_check_exact (p : ProviderConfig) (r : RoutingConfig) :
  is_ok (validate_provider_configuration_shape p r) = true <-> shape_ok p r.
Proof.
  rewrite <- shape_check_correct.
  destruct (validate_provider_configuration_shape p r) as [[]|]; cbn; naive_solver.
Qed.
End Config.
