(* ===== verification/Catalog.v ===== *)
(** * Provider catalog

    Models [crates/wokcore-engine/src/catalog.rs]: the bundled catalog's data
    and the validation every catalog passes after TOML decoding (the decoder and
    the JSON serialiser are third-party code).  A [CatalogError] is its code. *)
From S2P Require Import Prelude Text Ident NetAddr.

Inductive AdapterFamily : Set :=
| OpenAiResponses | OpenAiChat | Anthropic | Google | AzureOpenAi | Cursor | Kiro | MimoFree.

#[global] Instance AdapterFamily_eq_dec : EqDecision AdapterFamily.
Proof. solve_decision. Defined.

Inductive AuthKind : Set := KindForward | KindOauth | KindKey | KindLocal.

#[global] Instance AuthKind_eq_dec : EqDecision AuthKind.
Proof. solve_decision. Defined.

Inductive EndpointPolicy : Set := PublicHttps | HttpsTemplate | LoopbackHttp.

#[global] Instance EndpointPolicy_eq_dec : EqDecision EndpointPolicy.
Proof. solve_decision. Defined.

Inductive ModelSourceKind : Set := SourceNone | SourceStatic | SourceLive | SourceHybrid.

#[global] Instance ModelSourceKind_eq_dec : EqDecision ModelSourceKind.
Proof. solve_decision. Defined.

Record ProviderCapabilities : Set := mkCapabilities {
  cap_text : bool;
  cap_streaming : bool;
  cap_tools : bool;
  cap_vision : bool;
  cap_images : bool;
  cap_reasoning : bool;
  cap_count_tokens : bool
}.

Record ProviderDefinition : Type := mkDefinition {
  pd_id : string;
  pd_label : string;
  pd_adapter : AdapterFamily;
  pd_base_url : string;
  pd_auth_kind : AuthKind;
  pd_endpoint_policy : EndpointPolicy;
  pd_model_source : ModelSourceKind;
  pd_aliases : list string;
  pd_models : list string;
  pd_default_model : option string;
  pd_allow_endpoint_override : bool;
  pd_key_optional : bool;
  pd_allow_key_auth_override : bool;
  pd_reasoning_efforts : list string;
  pd_reasoning_effort_map : gmap string string;
  pd_capabilities : ProviderCapabilities
}.

Record CatalogFile : Type := mkCatalogFile {
  file_schema_version : Z;
  file_baseline_commit : string;
  file_providers : list ProviderDefinition
}.

Record ProviderCatalog : Type := mkCatalog {
  schema_version : Z;
  baseline_commit : string;
  providers : list ProviderDefinition
}.

Definition CatalogError : Set := string.

Definition CATALOG_SCHEMA_VERSION : Z := 1.
Definition MAX_PROVIDERS : Z := 256.
Definition MAX_ALIASES_PER_PROVIDER : Z := 32.
Definition MAX_MODELS_PER_PROVIDER : Z := 512.
Definition MAX_LABEL_BYTES : Z := 256.
Definition MAX_MODEL_ID_BYTES : Z := 256.
Definition MAX_ENDPOINT_BYTES : Z := 2048.

(** [ProviderCatalog::provider]. *)
Definition catalog_provider (c : ProviderCatalog) (id : string) : option ProviderDefinition :=
  List.find (fun provider => bool_decide (pd_id provider = id)) (providers c).

Definition validate_models (provider : ProviderDefinition) : result CatalogError unit :=
  check? guard_err (MAX_MODELS_PER_PROVIDER <? zlen (pd_models provider)) "too_many_models"%string;
  check? guard_err
    ((bool_decide (pd_model_source provider = SourceStatic)
      || bool_decide (pd_model_source provider = SourceHybrid))
     && is_emptyb (pd_models provider)) "missing_static_models"%string;
  check? guard_err
    (bool_decide (pd_model_source provider = SourceNone) && negb (is_emptyb (pd_models provider)))
    "unexpected_models"%string;
  let? models := try_fold (fun (models : gset string) model =>
      check? guard_err
        (is_blank model || (MAX_MODEL_ID_BYTES <? str_len model) || has_control model
         || bool_decide (model ∈ models)) "invalid_model"%string;
      Ok ({[model]} ∪ models)) ∅ (pd_models provider) in
  match pd_default_model provider with
  | Some default_model =>
      guard_err
        (negb (bool_decide (default_model ∈ models))
         && negb (bool_decide (pd_model_source provider = SourceLive)))
        "invalid_default_model"%string
  | None => Ok tt
  end.

Definition reasoning_byte (b : Z) : bool :=
  is_ascii_lowercase b || is_ascii_digit b || (b =? 45).

Definition is_safe_reasoning_value (value : string) : bool :=
  negb (str_is_empty value) && (str_len value <=? 32) && forallb reasoning_byte (str_bytes value).

Definition validate_reasoning_metadata (provider : ProviderDefinition) : result CatalogError unit :=
  check? guard_err
    (negb (cap_reasoning (pd_capabilities provider))
     && (negb (is_emptyb (pd_reasoning_efforts provider))
         || negb (bool_decide (pd_reasoning_effort_map provider = ∅))))
    "unexpected_reasoning_metadata"%string;
  check? guard_err
    ((16 <? zlen (pd_reasoning_efforts provider))
     || (32 <? Z.of_nat (size (pd_reasoning_effort_map provider))))
    "too_much_reasoning_metadata"%string;
  check? try_fold (fun (efforts : gset string) effort =>
      check? guard_err (negb (is_safe_reasoning_value effort) || bool_decide (effort ∈ efforts))
        "invalid_reasoning_effort"%string;
      Ok ({[effort]} ∪ efforts)) ∅ (pd_reasoning_efforts provider);
  try_fold (fun _ entry =>
      guard_err (negb (is_safe_reasoning_value entry.1) || negb (is_safe_reasoning_value entry.2))
        "invalid_reasoning_effort_map"%string) tt (btree_iter (pd_reasoning_effort_map provider)).

(** The template scanner reads the text once; [inside] is [None] between
    placeholders and holds the placeholder's name while one is open.  Every
    character it tests for is ASCII, so the bytes of a non-ASCII character are
    copied or rejected together. *)
Definition template_name_byte (b : Z) : bool :=
  is_ascii_alphanumeric b || (b =? 95) || (b =? 45).

Fixpoint expand_chars (inside : option (list Z)) (expanded : list Z) (characters : list Z)
  : result CatalogError (list Z) :=
  match inside, characters with
  | None, [] => Ok expanded
  | None, character :: characters =>
      if character =? 123 then expand_chars (Some []) expanded characters
      else if character =? 125 then Err "invalid_endpoint_template"%string
      else expand_chars None (expanded ++ [character]) characters
  | Some placeholder, [] => Err "invalid_endpoint_template"%string
  | Some placeholder, value :: characters =>
      if value =? 125 then
        if is_emptyb placeholder then Err "invalid_endpoint_template"%string
        else expand_chars None (expanded ++ str_bytes "placeholder") characters
      else if template_name_byte value
      then expand_chars (Some (placeholder ++ [value])) expanded characters
      else Err "invalid_endpoint_template"%string
  end.

Definition bytes_str (l : list Z) : string :=
  String.string_of_list_ascii ((fun b => Ascii.ascii_of_N (Z.to_N b)) <$> l).

Definition expand_endpoint_template (endpoint : string) : result CatalogError string :=
  check? guard_err (negb (starts_with "https://" endpoint)) "unsafe_template_endpoint"%string;
  let? expanded := expand_chars None [] (str_bytes endpoint) in
  Ok (bytes_str expanded).

Section Catalog.
Context `{UrlCrate}.

Definition validate_public_url (endpoint : string) : result CatalogError unit :=
  let? url := ok_or (url_parse endpoint) "invalid_endpoint"%string in
  check? guard_err
    (negb (bool_decide (url_scheme url = "https"%string))
     || negb (str_is_empty (url_username url))
     || is_someb (url_password url)
     || is_someb (url_fragment url)) "unsafe_public_endpoint"%string;
  let? host := ok_or (url_host url) "missing_endpoint_host"%string in
  guard_err (is_private_host host) "private_public_endpoint"%string.

Definition validate_loopback_url (endpoint : string) : result CatalogError unit :=
  let? url := ok_or (url_parse endpoint) "invalid_endpoint"%string in
  check? guard_err
    (negb (scheme_is_http_or_https (url_scheme url))
     || negb (str_is_empty (url_username url))
     || is_someb (url_password url)
     || is_someb (url_fragment url)) "unsafe_loopback_endpoint"%string;
  let? host := ok_or (url_host url) "missing_endpoint_host"%string in
  let is_loopback :=
    match host with
    | Domain domain => eq_ignore_ascii_case domain "localhost"
    | HostIpv4 a => v4_is_loopback a
    | HostIpv6 a => v6_is_loopback a
    end in
  guard_err (negb is_loopback) "non_loopback_endpoint"%string.

Definition validate_endpoint (endpoint : string) (policy : EndpointPolicy)
  : result CatalogError unit :=
  check? guard_err (str_is_empty endpoint || (MAX_ENDPOINT_BYTES <? str_len endpoint))
    "invalid_endpoint"%string;
  match policy with
  | PublicHttps => validate_public_url endpoint
  | HttpsTemplate =>
      let? expanded := expand_endpoint_template endpoint in
      validate_public_url expanded
  | LoopbackHttp => validate_loopback_url endpoint
  end.

Definition validate_alias (canonical_ids : gset string) (aliases : gset string) (alias : string)
  : result CatalogError (gset string) :=
  check? guard_err (negb (is_ok (ProviderId_new alias))) "invalid_alias"%string;
  check? guard_err (bool_decide (alias ∈ canonical_ids) || bool_decide (alias ∈ aliases))
    "alias_collision"%string;
  Ok ({[alias]} ∪ aliases).

Definition validate_provider (canonical_ids : gset string) (aliases : gset string)
  (provider : ProviderDefinition) : result CatalogError (gset string) :=
  check? guard_err (is_blank (pd_label provider) || (MAX_LABEL_BYTES <? str_len (pd_label provider)))
    "invalid_label"%string;
  check? guard_err (MAX_ALIASES_PER_PROVIDER <? zlen (pd_aliases provider))
    "too_many_aliases"%string;
  let? aliases := try_fold (validate_alias canonical_ids) aliases (pd_aliases provider) in
  check? validate_models provider;
  check? validate_endpoint (pd_base_url provider) (pd_endpoint_policy provider);
  check? guard_err
    (negb (cap_text (pd_capabilities provider)) || negb (cap_streaming (pd_capabilities provider)))
    "invalid_capabilities"%string;
  check? validate_reasoning_metadata provider;
  Ok aliases.

Definition collect_canonical_id (canonical_ids : gset string) (provider : ProviderDefinition)
  : result CatalogError (gset string) :=
  check? guard_err (negb (is_ok (ProviderId_new (pd_id provider)))) "invalid_provider_id"%string;
  check? guard_err (bool_decide (pd_id provider ∈ canonical_ids)) "duplicate_provider_id"%string;
  Ok ({[pd_id provider]} ∪ canonical_ids).

Definition baseline_byte (b : Z) : bool := is_ascii_alphanumeric b || (b =? 45).

Definition validate (file : CatalogFile) : result CatalogError ProviderCatalog :=
  check? guard_err (negb (file_schema_version file =? CATALOG_SCHEMA_VERSION))
    "unsupported_schema"%string;
  check? guard_err
    (str_is_empty (file_baseline_commit file)
     || (64 <? str_len (file_baseline_commit file))
     || negb (forallb baseline_byte (str_bytes (file_baseline_commit file))))
    "invalid_baseline"%string;
  check? guard_err (is_emptyb (file_providers file) || (MAX_PROVIDERS <? zlen (file_providers file)))
    "invalid_provider_count"%string;
  let? canonical_ids := try_fold collect_canonical_id ∅ (file_providers file) in
  check? try_fold (validate_provider canonical_ids) ∅ (file_providers file);
  Ok (mkCatalog (file_schema_version file) (file_baseline_commit file) (file_providers file)).
End Catalog.
