(* ===== verification/CatalogSpec.v ===== *)
(** * What a validated catalog guarantees

    The declarative reading of the catalog's validation and the grammar of
    endpoint templates, with the proofs that [Catalog] decides exactly these. *)
From S2P Require Import Prelude Text Ident NetAddr Catalog.

(** ** Endpoint templates

    A template is a sequence of literal bytes and named holes; the text writes a
    hole as its name in braces, the expansion as the word [placeholder]. *)
Inductive Piece : Set := Lit (b : Z) | Hole (name : list Z).

Definition piece_ok (p : Piece) : Prop :=
  match p with
  | Lit b => b <> 123 /\ b <> 125
  | Hole name => name <> [] /\ Forall (fun b => template_name_byte b = true) name
  end.

Definition piece_text (p : Piece) : list Z :=
  match p with Lit b => [b] | Hole name => 123 :: name ++ [125] end.

Definition piece_expansion (p : Piece) : list Z :=
  match p with Lit b => [b] | Hole _ => str_bytes "placeholder" end.

Definition template_text (ps : list Piece) : list Z := ps ≫= piece_text.
Definition template_expansion (ps : list Piece) : list Z := ps ≫= piece_expansion.

(** What is left to read when a hole with name prefix [ph] is open. *)
Definition open_hole_text (ph cs : list Z) (out acc : list Z) : Prop :=
  exists name ps, cs = name ++ 125 :: template_text ps /\
    Forall (fun b => template_name_byte b = true) name /\ ph ++ name <> [] /\
    Forall piece_ok ps /\ out = acc ++ str_bytes "placeholder" ++ template_expansion ps.

Lemma template_name_not_close b : template_name_byte b = true -> b <> 125.
Proof.
  unfold template_name_byte, is_ascii_alphanumeric, is_ascii_lowercase, is_ascii_uppercase,
    is_ascii_digit. lia.
Qed.

Lemma template_expansion_cons p ps :
  template_expansion (p :: ps) = piece_expansion p ++ template_expansion ps.
Proof. done. Qed.

Lemma template_text_cons p ps : template_text (p :: ps) = piece_text p ++ template_text ps.
Proof. done. Qed.

Lemma expand_chars_sound cs :
  (forall acc out, expand_chars None acc cs = Ok out ->
     exists ps, Forall piece_ok ps /\ cs = template_text ps /\ out = acc ++ template_expansion ps) /\
  (forall ph acc out, expand_chars (Some ph) acc cs = Ok out -> open_hole_text ph cs out acc).
Proof.
  induction cs as [|c cs [IH1 IH2]]; split.
  - intros acc out [= ->]. exists []. cbn. rewrite app_nil_r. auto.
  - intros ph acc out [=].
  - intros acc out. cbn. destruct (Z.eqb_spec c 123) as [->|H1].
    { intros (name & ps & -> & Hn & Hne & Hps & ->)%IH2.
      exists (Hole name :: ps). split; [by constructor|].
      rewrite template_text_cons, template_expansion_cons. cbn [piece_text].
      rewrite <- app_comm_cons, <- app_assoc. done. }
    destruct (Z.eqb_spec c 125) as [->|H2]; [done|].
    intros (ps & Hps & -> & ->)%IH1. exists (Lit c :: ps).
    split; [by constructor|]. rewrite template_expansion_cons, <- app_assoc. done.
  - intros ph acc out. cbn. destruct (Z.eqb_spec c 125) as [->|H2].
    { destruct ph as [|x ph]; cbn [is_emptyb]; [done|].
      intros (ps & Hps & -> & ->)%IH1. exists [], ps. rewrite app_nil_r, <- app_assoc.
      split_and!; auto; constructor. }
    destruct (template_name_byte c) eqn:Hc; [|done].
    intros (name & ps & -> & Hn & Hne & Hps & ->)%IH2. exists (c :: name), ps.
    split_and!; auto. rewrite <- app_assoc in Hne. exact Hne.
Qed.

Lemma expand_chars_hole name ph acc cs :
  Forall (fun b => template_name_byte b = true) name -> ph ++ name <> [] ->
  expand_chars (Some ph) acc (name ++ 125 :: cs)
  = expand_chars None (acc ++ str_bytes "placeholder") cs.
Proof.
  intros Hn. revert ph. induction Hn as [|b name Hb _ IH]; intros ph Hne.
  - rewrite app_nil_r in Hne. destruct ph; [done|reflexivity].
  - rewrite <- app_comm_cons. cbn [expand_chars]. rewrite Hb.
    destruct (Z.eqb_spec b 125) as [->|_]; [by apply template_name_not_close in Hb|].
    rewrite IH; [done|]. by destruct ph.
Qed.

Lemma expand_chars_complete ps acc :
  Forall piece_ok ps ->
  expand_chars None acc (template_text ps) = Ok (acc ++ template_expansion ps).
Proof.
  intros Hps. revert acc. induction Hps as [|p ps Hp _ IH]; intros acc.
  - cbn. by rewrite app_nil_r.
  - rewrite template_text_cons, template_expansion_cons. destruct p as [b|name]; cbn [piece_text].
    + destruct Hp as [H1 H2]. cbn [expand_chars app].
      rewrite (proj2 (Z.eqb_neq b 123) H1), (proj2 (Z.eqb_neq b 125) H2), IH, <- app_assoc. done.
    + destruct Hp as [Hne Hn]. rewrite <- app_comm_cons, <- app_assoc.
      cbn [expand_chars app]. rewrite Z.eqb_refl, expand_chars_hole by done.
      rewrite IH, <- app_assoc. done.
Qed.

Lemma byte_val_of_Z b : 0 <= b <= 255 -> byte_val (Ascii.ascii_of_N (Z.to_N b)) = b.
Proof. intros Hb. unfold byte_val. rewrite Ascii.N_ascii_embedding by lia. lia. Qed.

Lemma str_bytes_bytes_str l : Forall (fun b => 0 <= b <= 255) l -> str_bytes (bytes_str l) = l.
Proof.
  intros Hl. unfold str_bytes, bytes_str, str_ascii.
  rewrite String.list_ascii_of_string_of_list_ascii.
  induction Hl as [|b l Hb _ IH]; [done|]. cbn [fmap list_fmap].
  rewrite byte_val_of_Z by done. f_equal. exact IH.
Qed.

Lemma str_bytes_range s : Forall (fun b => 0 <= b <= 255) (str_bytes s).
Proof. unfold str_bytes. apply list.Forall_fmap, list.Forall_true. intros c. apply byte_val_range. Qed.

Lemma bytes_str_inv s : bytes_str (str_bytes s) = s.
Proof. apply str_bytes_inj, str_bytes_bytes_str, str_bytes_range. Qed.

Lemma template_expansion_range ps :
  Forall (fun b => 0 <= b <= 255) (template_text ps) ->
  Forall (fun b => 0 <= b <= 255) (template_expansion ps).
Proof.
  induction ps as [|p ps IH]; [done|]. rewrite template_text_cons, template_expansion_cons.
  rewrite !list.Forall_app. intros [Hp Hps]. split; [|auto].
  destruct p; [done|apply str_bytes_range].
Qed.

(** The expansion of a text is that of its reading as a template. *)
Lemma expand_template_iff e x :
  expand_endpoint_template e = Ok x <->
  starts_with "https://" e = true /\
  exists ps, Forall piece_ok ps /\ str_bytes e = template_text ps /\
    str_bytes x = template_expansion ps.
Proof.
  unfold expand_endpoint_template.
  rewrite check_Ok, guard_err_Ok, negb_false_iff, result_bind_Ok.
  split; intros [Hs H]; (split; [done|]).
  - destruct H as (out & Hout & [= <-]).
    apply (proj1 (expand_chars_sound _)) in Hout as (ps & Hps & He & ->).
    exists ps. split_and!; try done. apply str_bytes_bytes_str, template_expansion_range.
    rewrite <- He. apply str_bytes_range.
  - destruct H as (ps & Hps & He & Hx). exists (template_expansion ps).
    rewrite He, expand_chars_complete by done. split; [done|]. by rewrite <- Hx, bytes_str_inv.
Qed.

Lemma template_expansion_no_brace ps :
  Forall piece_ok ps -> 123 ∉ template_expansion ps /\ 125 ∉ template_expansion ps.
Proof.
  induction 1 as [|p ps Hp _ [IH1 IH2]]; [set_solver|].
  rewrite template_expansion_cons. destruct p as [b|name].
  - destruct Hp. set_solver.
  - assert (123 ∉ str_bytes "placeholder" /\ 125 ∉ str_bytes "placeholder") as [? ?].
    { split; apply (proj1 (bool_decide_eq_false _)); vm_compute; reflexivity. }
    cbn [piece_expansion]. set_solver.
Qed.

(** ** Catalog entries *)
Definition model_name_ok (m : string) : Prop :=
  is_blank m = false /\ str_len m <= MAX_MODEL_ID_BYTES /\ has_control m = false.

Record models_ok (p : ProviderDefinition) : Prop := {
  mo_limit : zlen (pd_models p) <= MAX_MODELS_PER_PROVIDER;
  mo_static : pd_model_source p = SourceStatic \/ pd_model_source p = SourceHybrid ->
    pd_models p <> [];
  mo_none : pd_model_source p = SourceNone -> pd_models p = [];
  mo_distinct : NoDup (pd_models p);
  mo_names : Forall model_name_ok (pd_models p);
  mo_default : forall m, pd_default_model p = Some m ->
    m ∈ pd_models p \/ pd_model_source p = SourceLive
}.

Record reasoning_ok (p : ProviderDefinition) : Prop := {
  re_capable : cap_reasoning (pd_capabilities p) = false ->
    pd_reasoning_efforts p = [] /\ pd_reasoning_effort_map p = ∅;
  re_limit : zlen (pd_reasoning_efforts p) <= 16 /\
    Z.of_nat (size (pd_reasoning_effort_map p)) <= 32;
  re_efforts : NoDup (pd_reasoning_efforts p) /\
    Forall (fun e => is_safe_reasoning_value e = true) (pd_reasoning_efforts p);
  re_map : map_Forall (fun input wire =>
    is_safe_reasoning_value input = true /\ is_safe_reasoning_value wire = true)
    (pd_reasoning_effort_map p)
}.

Lemma guard_and_not_Ok {E} (a b : bool) (e : E) u :
  guard_err (a && b) e = Ok u <-> (a = true -> b = false).
Proof. rewrite guard_err_Ok. destruct a, b; naive_solver. Qed.

Lemma model_list_Ok l s :
  try_fold (fun (models : gset string) model =>
      check? guard_err
        (is_blank model || (MAX_MODEL_ID_BYTES <? str_len model) || has_control model
         || bool_decide (model ∈ models)) "invalid_model"%string;
      Ok ({[model]} ∪ models)) ∅ l = Ok s <->
  NoDup l /\ Forall model_name_ok l /\ s = list_to_set l.
Proof.
  rewrite (try_fold_dedup _ id model_name_ok).
  - rewrite list_fmap_id, union_empty_r_L. split; [naive_solver|].
    intros (?&?&?). split_and!; try done; intros a _; apply not_elem_of_empty.
  - intros s1 m s'. unfold model_name_ok.
    rewrite check_Ok, guard_err_Ok, !orb_false_iff, bool_decide_eq_false, Z.ltb_ge. naive_solver.
Qed.

Lemma validate_models_Ok p : validate_models p = Ok tt <-> models_ok p.
Proof.
  unfold validate_models.
  rewrite !check_Ok, !guard_and_not_Ok, guard_err_Ok, Z.ltb_ge, orb_true_iff, !bool_decide_eq_true,
    is_emptyb_false, negb_false_iff, is_emptyb_true, result_bind_Ok.
  split.
  - intros (Hl & Hst & Hno & s & (Hnd & Hok & ->)%model_list_Ok & Hd). split; try done.
    intros m Hm. rewrite Hm, guard_and_not_Ok, negb_true_iff, negb_false_iff, bool_decide_eq_true,
      bool_decide_eq_false, elem_of_list_to_set in Hd.
    destruct (decide (m ∈ pd_models p)); auto.
  - intros [Hl Hst Hno Hnd Hok Hd]. split_and!; try done. exists (list_to_set (pd_models p)).
    split; [by apply model_list_Ok|]. destruct (pd_default_model p) as [m|]; [|done].
    rewrite guard_and_not_Ok, negb_true_iff, negb_false_iff, bool_decide_eq_true,
      bool_decide_eq_false, elem_of_list_to_set. destruct (Hd m eq_refl); tauto.
Qed.

Lemma effort_list_Ok l :
  (exists s, try_fold (fun (efforts : gset string) effort =>
      check? guard_err (negb (is_safe_reasoning_value effort) || bool_decide (effort ∈ efforts))
        "invalid_reasoning_effort"%string;
      Ok ({[effort]} ∪ efforts)) ∅ l = Ok s) <->
  NoDup l /\ Forall (fun e => is_safe_reasoning_value e = true) l.
Proof.
  setoid_rewrite (try_fold_dedup _ id (fun e => is_safe_reasoning_value e = true)).
  - rewrite list_fmap_id. split; [naive_solver|]. intros [? ?]. eexists.
    split_and!; try done; intros a _; apply not_elem_of_empty.
  - intros s1 e s'. rewrite check_Ok, guard_err_Ok, orb_false_iff, negb_false_iff,
      bool_decide_eq_false. naive_solver.
Qed.

Lemma effort_map_Ok (m : gmap string string) :
  try_fold (fun _ entry =>
      guard_err (negb (is_safe_reasoning_value entry.1) || negb (is_safe_reasoning_value entry.2))
        "invalid_reasoning_effort_map"%string) tt (btree_iter m) = Ok tt <->
  map_Forall (fun input wire =>
    is_safe_reasoning_value input = true /\ is_safe_reasoning_value wire = true) m.
Proof.
  rewrite (try_fold_unit (fun entry : string * string => guard_err _ _)), list.Forall_forall.
  split.
  - intros Hall k v Hkv. specialize (Hall (k, v)). rewrite elem_of_btree_iter in Hall.
    specialize (Hall Hkv). cbn in Hall. rewrite guard_err_Ok, orb_false_iff, !negb_false_iff in Hall.
    done.
  - intros Hm [k v] Hkv%elem_of_btree_iter. apply Hm in Hkv. cbn.
    by rewrite guard_err_Ok, orb_false_iff, !negb_false_iff.
Qed.

Lemma validate_reasoning_Ok p : validate_reasoning_metadata p = Ok tt <-> reasoning_ok p.
Proof.
  unfold validate_reasoning_metadata.
  rewrite check_Ok, check_Ok, check_loop_Ok, effort_list_Ok, effort_map_Ok, guard_and_not_Ok,
    guard_err_Ok, !orb_false_iff, !Z.ltb_ge, !negb_true_iff, !negb_false_iff, is_emptyb_true,
    bool_decide_eq_true.
  split.
  - intros (H1 & H2 & H3 & H4). by split.
  - intros [H1 H2 H3 H4]. done.
Qed.

Section Spec.
Context `{UrlCrate}.

(** ** Endpoints *)
Definition safe_url (scheme_ok : string -> Prop) (url : Url) : Prop :=
  scheme_ok (url_scheme url) /\ url_username url = ""%string /\ url_password url = None /\
  url_fragment url = None.

Definition public_url_ok (e : string) : Prop :=
  exists url host, url_parse e = Some url /\ safe_url (eq "https"%string) url /\
    url_host url = Some host /\ is_private_host host = false.

Definition loopback_url_ok (e : string) : Prop :=
  exists url host, url_parse e = Some url /\
    safe_url (fun s => s = "http"%string \/ s = "https"%string) url /\
    url_host url = Some host /\ host_is_loopback host = true.

Definition base_url_ok (e : string) (policy : EndpointPolicy) : Prop :=
  e <> ""%string /\ str_len e <= MAX_ENDPOINT_BYTES /\
  match policy with
  | PublicHttps => public_url_ok e
  | HttpsTemplate => exists x, expand_endpoint_template e = Ok x /\ public_url_ok x
  | LoopbackHttp => loopback_url_ok e
  end.

Lemma validate_public_url_Ok e : validate_public_url e = Ok tt <-> public_url_ok e.
Proof.
  unfold validate_public_url, public_url_ok, safe_url.
  destruct (url_parse e) as [url|]; cbn [ok_or result_bind].
  2: { split; [intros [=]|naive_solver]. }
  rewrite check_Ok, guard_err_Ok, !orb_false_iff, !negb_false_iff, bool_decide_eq_true,
    str_is_empty_true, !is_someb_false, result_bind_Ok.
  setoid_rewrite ok_or_Ok. setoid_rewrite guard_err_Ok. naive_solver.
Qed.

Lemma validate_loopback_url_Ok e : validate_loopback_url e = Ok tt <-> loopback_url_ok e.
Proof.
  unfold validate_loopback_url, loopback_url_ok, safe_url.
  destruct (url_parse e) as [url|]; cbn [ok_or result_bind].
  2: { split; [intros [=]|naive_solver]. }
  rewrite check_Ok, guard_err_Ok, !orb_false_iff, !negb_false_iff, str_is_empty_true,
    !is_someb_false, result_bind_Ok.
  unfold scheme_is_http_or_https. rewrite orb_true_iff, !bool_decide_eq_true.
  setoid_rewrite ok_or_Ok. setoid_rewrite guard_err_Ok. setoid_rewrite negb_false_iff.
  change (fun host => match host with Domain d => _ | HostIpv4 a => _ | HostIpv6 a => _ end)
    with host_is_loopback. unfold host_is_loopback. naive_solver.
Qed.

Lemma validate_endpoint_Ok e policy : validate_endpoint e policy = Ok tt <-> base_url_ok e policy.
Proof.
  unfold validate_endpoint, base_url_ok.
  rewrite check_Ok, guard_err_Ok, orb_false_iff, str_is_empty_false, Z.ltb_ge.
  destruct policy.
  - rewrite validate_public_url_Ok. tauto.
  - rewrite result_bind_Ok. setoid_rewrite validate_public_url_Ok. tauto.
  - rewrite validate_loopback_url_Ok. tauto.
Qed.

(** ** The catalog *)
Record provider_ok (ids : list string) (p : ProviderDefinition) : Prop := {
  po_label : is_blank (pd_label p) = false /\ str_len (pd_label p) <= MAX_LABEL_BYTES;
  po_alias_limit : zlen (pd_aliases p) <= MAX_ALIASES_PER_PROVIDER;
  po_aliases : Forall (fun a => is_valid_identifier a = true /\ a ∉ ids) (pd_aliases p);
  po_models : models_ok p;
  po_endpoint : base_url_ok (pd_base_url p) (pd_endpoint_policy p);
  po_capabilities : cap_text (pd_capabilities p) = true /\ cap_streaming (pd_capabilities p) = true;
  po_reasoning : reasoning_ok p
}.

Record catalog_ok (f : CatalogFile) : Prop := {
  co_schema : file_schema_version f = CATALOG_SCHEMA_VERSION;
  co_baseline : file_baseline_commit f <> ""%string /\ str_len (file_baseline_commit f) <= 64 /\
    forallb baseline_byte (str_bytes (file_baseline_commit f)) = true;
  co_count : file_providers f <> [] /\ zlen (file_providers f) <= MAX_PROVIDERS;
  co_ids : NoDup (pd_id <$> file_providers f) /\
    Forall (fun p => is_valid_identifier (pd_id p) = true) (file_providers f);
  co_aliases : NoDup (file_providers f ≫= pd_aliases);
  co_providers : Forall (provider_ok (pd_id <$> file_providers f)) (file_providers f)
}.

Lemma ProviderId_new_ok v : is_ok (ProviderId_new v) = true <-> is_valid_identifier v = true.
Proof. unfold ProviderId_new, identifier_new. by destruct (is_valid_identifier v). Qed.

Lemma canonical_ids_Ok l s :
  try_fold collect_canonical_id ∅ l = Ok s <->
  NoDup (pd_id <$> l) /\ Forall (fun p => is_valid_identifier (pd_id p) = true) l /\
  s = list_to_set (pd_id <$> l).
Proof.
  rewrite (try_fold_dedup _ pd_id (fun p => is_valid_identifier (pd_id p) = true)).
  - rewrite union_empty_r_L. split; [naive_solver|].
    intros (?&?&?). split_and!; try done; intros a _; apply not_elem_of_empty.
  - intros s1 p s'. unfold collect_canonical_id.
    rewrite !check_Ok, !guard_err_Ok, negb_false_iff, ProviderId_new_ok, bool_decide_eq_false.
    naive_solver.
Qed.

Lemma alias_list_Ok ids l s s' :
  try_fold (validate_alias (list_to_set ids)) s l = Ok s' <->
  NoDup l /\ (forall a, a ∈ l -> a ∉ s) /\
  Forall (fun a => is_valid_identifier a = true /\ a ∉ ids) l /\ s' = list_to_set l ∪ s.
Proof.
  rewrite (try_fold_dedup _ id (fun a => is_valid_identifier a = true /\ a ∉ ids)).
  - rewrite list_fmap_id. done.
  - intros s1 a s2. unfold validate_alias.
    rewrite !check_Ok, !guard_err_Ok, negb_false_iff, ProviderId_new_ok, orb_false_iff,
      !bool_decide_eq_false, elem_of_list_to_set. naive_solver.
Qed.

Lemma validate_provider_Ok ids s p s' :
  validate_provider (list_to_set ids) s p = Ok s' <->
  NoDup (pd_aliases p) /\ (forall a, a ∈ pd_aliases p -> a ∉ s) /\ provider_ok ids p /\
  s' = list_to_set (pd_aliases p) ∪ s.
Proof.
  unfold validate_provider.
  rewrite !check_Ok, !guard_err_Ok, orb_false_iff, !Z.ltb_ge, result_bind_Ok.
  split.
  - intros (Hl & Hn & a & (Hnd & Hnew & Ha & ->)%alias_list_Ok & Hk).
    rewrite !check_Ok, validate_models_Ok, validate_endpoint_Ok, validate_reasoning_Ok,
      guard_err_Ok, orb_false_iff, !negb_false_iff in Hk.
    destruct Hk as (Hm & He & Hc & Hr & [= <-]). by split_and!.
  - intros (Hnd & Hnew & [Hl Hn Ha Hm He Hc Hr] & ->). split_and!; try tauto.
    exists (list_to_set (pd_aliases p) ∪ s). split; [by apply alias_list_Ok|].
    by rewrite !check_Ok, validate_models_Ok, validate_endpoint_Ok, validate_reasoning_Ok,
      guard_err_Ok, orb_false_iff, !negb_false_iff.
Qed.

Lemma validate_correct f c :
  validate f = Ok c <->
  catalog_ok f /\ c = mkCatalog (file_schema_version f) (file_baseline_commit f) (file_providers f).
Proof.
  unfold validate.
  rewrite !check_Ok, !guard_err_Ok, !orb_false_iff, !negb_false_iff, str_is_empty_false,
    is_emptyb_false, Z.eqb_eq, !Z.ltb_ge, result_bind_Ok.
  setoid_rewrite check_loop_Ok. split.
  - intros (Hv & Hb & Hc & ids & (Hnd & Hid & ->)%canonical_ids_Ok & (s & Hs) & [= <-]).
    split; [|done].
    apply (try_fold_dedup_groups _ pd_aliases (provider_ok (pd_id <$> file_providers f)))
      in Hs as (Ha & _ & Hp & _); [|intros; apply validate_provider_Ok].
    by split; auto; destruct_and!.
  - intros [[Hv Hb Hc Hid Ha Hp] ->]. split_and!; try naive_solver.
    exists (list_to_set (pd_id <$> file_providers f)).
    split; [by apply canonical_ids_Ok; destruct_and!|]. split; [|done].
    exists (list_to_set (file_providers f ≫= pd_aliases) ∪ ∅).
    apply (try_fold_dedup_groups _ pd_aliases (provider_ok (pd_id <$> file_providers f)));
      [intros; apply validate_provider_Ok|].
    split_and!; try done; intros k _; apply not_elem_of_empty.
Qed.

(** Catalog validation accepts a decoded catalog exactly when the supported
    schema, a well-formed baseline and between 1 and 256 providers are there;
    provider ids and all aliases together are valid and unambiguous; each
    provider's models are distinct, non-blank and fit its model source; its base
    URL obeys its endpoint policy (https to a non-private host, the same after
    template expansion, or http(s) to loopback only); and its reasoning metadata
    is bounded and only there when it can reason. *)
Theorem catalog_validation_exact (f : CatalogFile) (c : ProviderCatalog) :
  validate f = Ok c <->
  catalog_ok f /\
  c = mkCatalog (file_schema_version f) (file_baseline_commit f) (file_providers f).
Proof. apply validate_correct. Qed.
End Spec.

(** Expanding an endpoint template succeeds exactly on https texts that read
    as literal bytes and named placeholders; each placeholder becomes the word
    [placeholder], everything else is copied, and no brace is left. *)
Theorem template_expansion_exact (e x : string) :
  expand_endpoint_template e = Ok x <->
  starts_with "https://" e = true /\
  exists ps, Forall piece_ok ps /\ str_bytes e = template_text ps /\
    str_bytes x = template_expansion ps /\ 123 ∉ str_bytes x /\ 125 ∉ str_bytes x.
Proof.
  rewrite expand_template_iff. split; intros (Hs & ps & Hps & He & Hx); (split; [done|]); exists ps.
  - rewrite Hx. split_and!; auto; by apply template_expansion_no_brace.
  - tauto.
Qed.

Example expand_example :
  expand_endpoint_template "https://{resource}.example.com"
  = Ok "https://placeholder.example.com"%string.
Proof. vm_compute. reflexivity. Qed.

Example expand_unclosed :
  expand_endpoint_template "https://{resource.example.com"
  = Err "invalid_endpoint_template"%string.
Proof. vm_compute. reflexivity. Qed.

(** ** A catalog to run on *)
Definition demo_capabilities : ProviderCapabilities :=
  mkCapabilities true true true false false true false.

Definition demo_openai : ProviderDefinition := {|
  pd_id := "openai"; pd_label := "OpenAI"; pd_adapter := OpenAiResponses;
  pd_base_url := "https://api.example.com/v1"; pd_auth_kind := KindKey;
  pd_endpoint_policy := PublicHttps; pd_model_source := SourceHybrid;
  pd_aliases := ["oai"%string]; pd_models := ["gpt-5"%string; "gpt-5-mini"%string];
  pd_default_model := Some "gpt-5"%string; pd_allow_endpoint_override := true;
  pd_key_optional := false; pd_allow_key_auth_override := false;
  pd_reasoning_efforts := ["low"%string; "high"%string];
  pd_reasoning_effort_map := {[ "max"%string := "high"%string ]};
  pd_capabilities := demo_capabilities
|}.

Definition demo_ollama : ProviderDefinition := {|
  pd_id := "ollama"; pd_label := "Ollama"; pd_adapter := OpenAiChat;
  pd_base_url := "http://127.0.0.1:11434/v1"; pd_auth_kind := KindLocal;
  pd_endpoint_policy := LoopbackHttp; pd_model_source := SourceLive;
  pd_aliases := []; pd_models := []; pd_default_model := None;
  pd_allow_endpoint_override := true; pd_key_optional := true;
  pd_allow_key_auth_override := false; pd_reasoning_efforts := [];
  pd_reasoning_effort_map := ∅;
  pd_capabilities := mkCapabilities true true false false false false false
|}.

Definition demo_catalog_file : CatalogFile :=
  mkCatalogFile 1 "baseline-1" [demo_openai; demo_ollama].
Definition demo_catalog : ProviderCatalog :=
  mkCatalog 1 "baseline-1" [demo_openai; demo_ollama].

Example demo_catalog_validates : @validate demo_url_crate demo_catalog_file = Ok demo_catalog.
Proof. vm_compute. reflexivity. Qed.

Example demo_private_base_rejected :
  @validate_endpoint demo_url_crate "https://10.0.0.8/v1" PublicHttps
  = Err "private_public_endpoint"%string.
Proof. vm_compute. reflexivity. Qed.
