(* ===== verification/EngineConfig.v ===== *)
(** * Configuration against the catalog

    Models [crates/wokcore-engine/src/config.rs]: the second stage of
    configuration checking, which knows the catalog: endpoint overrides,
    private-network opt-in, and the match between an account's credentials and
    its provider's authentication kind. *)
From S2P Require Import Prelude Text NetAddr Config Catalog CatalogSpec.

Record ValidatedProviderConfig : Set := mkValidated {
  provider_count : Z;
  account_count : Z;
  route_count : Z
}.

Inductive ProviderConfigError : Set :=
| ProviderLimitExceeded | AccountLimitExceeded | AliasLimitExceeded | RouteRuleLimitExceeded
| DuplicateProvider | UnknownCatalogProvider | DuplicateAccountId | UnknownAccountProvider
| EndpointOverrideNotAllowed | InvalidEndpoint | PrivateNetworkOptInRequired
| InsecurePublicEndpoint | AuthenticationMismatch | DuplicateAlias | InvalidModel
| UnknownRouteProvider.

Definition map_shape_error (e : ConfigShapeError) : ProviderConfigError :=
  match e with
  | ShapeProviderLimitExceeded => ProviderLimitExceeded
  | ShapeAccountLimitExceeded => AccountLimitExceeded
  | ShapeAliasLimitExceeded => AliasLimitExceeded
  | ShapeRouteRuleLimitExceeded => RouteRuleLimitExceeded
  | ShapeDuplicateProvider => DuplicateProvider
  | ShapeDuplicateAccount => DuplicateAccountId
  | ShapeUnknownAccountProvider => UnknownAccountProvider
  | ShapeInvalidEndpoint => InvalidEndpoint
  | ShapeDuplicateAlias => DuplicateAlias
  | ShapeInvalidModel => InvalidModel
  | ShapeUnknownRouteProvider => UnknownRouteProvider
  end.

Inductive EndpointClass : Set := ClassPublic | ClassPrivate.

Definition authentication_matches (provider : ProviderDefinition) (account : AccountAuthConfig)
  : bool :=
  match pd_auth_kind provider, account with
  | KindForward, AuthForward _ => true
  | KindOauth, AuthOauth _ _ => true
  | KindKey, AuthApiKey _ => true
  | KindLocal, AuthLocal => true
  | KindOauth, AuthApiKey _ => pd_allow_key_auth_override provider
  | KindKey, AuthLocal => pd_key_optional provider
  | _, _ => false
  end.

Section EngineConfig.
Context `{UrlCrate}.

Definition classify_endpoint_override (endpoint : string)
  : result ProviderConfigError EndpointClass :=
  check? guard_err
    (str_is_empty endpoint || (Config.MAX_ENDPOINT_BYTES <? str_len endpoint)
     || contains_brace endpoint) InvalidEndpoint;
  let? url := ok_or (url_parse endpoint) InvalidEndpoint in
  check? guard_err
    (negb (str_is_empty (url_username url)) || is_someb (url_password url)
     || is_someb (url_query url) || is_someb (url_fragment url)) InvalidEndpoint;
  let? host := ok_or (url_host url) InvalidEndpoint in
  if is_private_host host then
    check? guard_err (negb (scheme_is_http_or_https (url_scheme url))) InvalidEndpoint;
    Ok ClassPrivate
  else
    check? guard_err (negb (bool_decide (url_scheme url = "https"%string))) InsecurePublicEndpoint;
    Ok ClassPublic.

Definition validate_instance (catalog : ProviderCatalog) (validated : gmap string ProviderDefinition)
  (instance : ProviderInstanceConfig) : result ProviderConfigError (gmap string ProviderDefinition) :=
  let? definition := ok_or (catalog_provider catalog (pi_catalog_id instance)) UnknownCatalogProvider in
  check? match pi_endpoint instance with
         | Some endpoint =>
             check? guard_err (negb (pd_allow_endpoint_override definition))
               EndpointOverrideNotAllowed;
             let? class := classify_endpoint_override endpoint in
             match class with
             | ClassPublic => Ok tt
             | ClassPrivate =>
                 if pi_allow_private_network instance then Ok tt
                 else Err PrivateNetworkOptInRequired
             end
         | None => Ok tt
         end;
  Ok (<[pi_id instance := definition]> validated).

Definition validate_instances (catalog : ProviderCatalog) (l : list ProviderInstanceConfig)
  : result ProviderConfigError (gmap string ProviderDefinition) :=
  try_fold (validate_instance catalog) ∅ l.

Definition validate_accounts (providers : ProviderConfig)
  (instances : gmap string ProviderDefinition) : result ProviderConfigError unit :=
  try_fold (fun _ account =>
    let? definition := ok_or (instances !! ac_provider account) UnknownAccountProvider in
    guard_err (negb (authentication_matches definition (ac_auth account))) AuthenticationMismatch)
    tt (accounts providers).

Definition validate_provider_configuration (catalog : ProviderCatalog) (providers : ProviderConfig)
  (routing : RoutingConfig) : result ProviderConfigError ValidatedProviderConfig :=
  check? map_err map_shape_error (validate_provider_configuration_shape providers routing);
  let? instances := validate_instances catalog (Config.instances providers) in
  check? validate_accounts providers instances;
  Ok (mkValidated (zlen (Config.instances providers)) (zlen (accounts providers))
        (zlen (aliases routing) + zlen (rules routing)
         + (if is_someb (route_default routing) then 1 else 0))).

(** ** What the second stage promises *)
Definition override_ok (definition : ProviderDefinition) (i : ProviderInstanceConfig) (e : string)
  : Prop :=
  pd_allow_endpoint_override definition = true /\
  exists url host, url_parse e = Some url /\ url_host url = Some host /\
    (is_private_host host = true -> pi_allow_private_network i = true) /\
    (is_private_host host = false -> url_scheme url = "https"%string).

Definition instance_ok (catalog : ProviderCatalog) (i : ProviderInstanceConfig) : Prop :=
  exists definition, catalog_provider catalog (pi_catalog_id i) = Some definition /\
    from_option (override_ok definition i) True (pi_endpoint i).

(** The definition behind a configured provider. *)
Definition definition_of (catalog : ProviderCatalog) (p : ProviderConfig) (id : string)
  (definition : ProviderDefinition) : Prop :=
  exists i, i ∈ instances p /\ pi_id i = id /\
    catalog_provider catalog (pi_catalog_id i) = Some definition.

Record config_ok (catalog : ProviderCatalog) (p : ProviderConfig) (r : RoutingConfig) : Prop := {
  ok_shape : shape_ok p r;
  ok_instances : Forall (instance_ok catalog) (instances p);
  ok_accounts : Forall (fun a => exists definition,
    definition_of catalog p (ac_provider a) definition /\
    authentication_matches definition (ac_auth a) = true) (accounts p)
}.

(** ** Proofs *)
Lemma classify_Ok e class :
  endpoint_ok e ->
  classify_endpoint_override e = Ok class <->
  exists url host, url_parse e = Some url /\ url_host url = Some host /\
    (is_private_host host = true /\ class = ClassPrivate \/
     is_private_host host = false /\ class = ClassPublic /\ url_scheme url = "https"%string).
Proof.
  intros (He & Hlen & Ho & Hc & url & Hp & Hs & Hu & Hpw & Hq & Hf & host & Hh).
  unfold classify_endpoint_override.
  rewrite check_Ok, guard_err_Ok, !orb_false_iff, Z.ltb_ge, str_is_empty_false.
  unfold contains_brace. rewrite orb_false_iff, !str_contains_false, Hp.
  cbn [ok_or result_bind]. rewrite check_Ok, guard_err_Ok, !orb_false_iff, negb_false_iff,
    str_is_empty_true, !is_someb_false, Hh. cbn [ok_or result_bind].
  apply scheme_http_true in Hs.
  destruct (is_private_host host) eqn:Epriv; rewrite check_Ok, guard_err_Ok, negb_false_iff.
  - split.
    + intros (_ & _ & _ & [= <-]). exists url, host. auto.
    + intros (url' & host' & [= <-] & Hh' & [[_ ->]|(Hpub & _)]); [done|].
      rewrite Hh in Hh'. injection Hh' as <-. congruence.
  - rewrite bool_decide_eq_true. split.
    + intros (_ & _ & Hhttps & [= <-]). exists url, host. auto 6.
    + intros (url' & host' & [= <-] & Hh' & [[Hpriv _]|(_ & -> & Hhttps)]); [|done].
      rewrite Hh in Hh'. injection Hh' as <-. congruence.
Qed.

Lemma validate_instance_Ok catalog m i m' :
  from_option endpoint_ok True (pi_endpoint i) ->
  validate_instance catalog m i = Ok m' <->
  instance_ok catalog i /\ exists definition,
    catalog_provider catalog (pi_catalog_id i) = Some definition /\ m' = <[pi_id i := definition]> m.
Proof.
  intros Hshape. unfold validate_instance, instance_ok.
  destruct (catalog_provider catalog (pi_catalog_id i)) as [d|]; cbn [ok_or result_bind].
  2: { split; [intros [=]|naive_solver]. }
  rewrite check_Ok. destruct (pi_endpoint i) as [e|]; [|naive_solver].
  cbn in Hshape. rewrite check_Ok, guard_err_Ok, negb_false_iff, result_bind_Ok.
  split.
  - intros [(Hov & class & Hcl & Hk) [= <-]].
    apply classify_Ok in Hcl as (url & host & Hp & Hh & Hcase); [|done].
    split; [|eauto]. exists d. split; [done|]. split; [done|]. exists url, host.
    destruct Hcase as [[Hpr ->]|(Hpr & -> & Hsch)]; rewrite Hpr.
    + destruct (pi_allow_private_network i); naive_solver.
    + naive_solver.
  - intros [(d' & [= <-] & Hov & url & host & Hp & Hh & Hpriv & Hpub) (d'' & [= <-] & ->)].
    split; [|done]. split; [done|].
    exists (if is_private_host host then ClassPrivate else ClassPublic).
    rewrite classify_Ok by done. split.
    + exists url, host. destruct (is_private_host host); naive_solver.
    + destruct (is_private_host host); [|done]. by rewrite Hpriv.
Qed.

(** What [validate_instance] stores for an instance it accepts. *)
Definition stored_definition (catalog : ProviderCatalog) (i : ProviderInstanceConfig)
  (d : ProviderDefinition) : Prop :=
  instance_ok catalog i /\ catalog_provider catalog (pi_catalog_id i) = Some d.

Lemma validate_instance_fill catalog m i m' :
  from_option endpoint_ok True (pi_endpoint i) ->
  validate_instance catalog m i = Ok m' <->
  exists d, stored_definition catalog i d /\ m' = <[pi_id i := d]> m.
Proof.
  intros Hi. rewrite validate_instance_Ok by done. unfold stored_definition. naive_solver.
Qed.

Lemma validate_instances_Ok_iff catalog l m :
  Forall (fun i => from_option endpoint_ok True (pi_endpoint i)) l ->
  (exists m', try_fold (validate_instance catalog) m l = Ok m') <-> Forall (instance_ok catalog) l.
Proof.
  intros Hl. rewrite (try_fold_fill_Ok _ pi_id _ _ (validate_instance_fill catalog)) by done.
  apply Forall_iff. intros i. unfold stored_definition. split; [naive_solver|].
  intros Hok. destruct (id Hok) as (d & Hd & _). eauto.
Qed.

Lemma validate_instances_lookup catalog l m' :
  Forall (fun i => from_option endpoint_ok True (pi_endpoint i)) l ->
  NoDup (pi_id <$> l) -> try_fold (validate_instance catalog) ∅ l = Ok m' ->
  forall id d, m' !! id = Some d <->
    exists i, i ∈ l /\ pi_id i = id /\ catalog_provider catalog (pi_catalog_id i) = Some d.
Proof.
  intros Hl Hnd Hm id d.
  rewrite (try_fold_fill_lookup _ pi_id _ _ (validate_instance_fill catalog) l m' Hl Hnd);
    [|unfold stored_definition; naive_solver congruence|done].
  assert (Forall (instance_ok catalog) l) as Hok by (apply (validate_instances_Ok_iff _ _ ∅); eauto).
  rewrite list.Forall_forall in Hok. unfold stored_definition. naive_solver.
Qed.

Lemma validate_accounts_Ok m p :
  validate_accounts p m = Ok tt <->
  Forall (fun a => exists d, m !! ac_provider a = Some d /\
    authentication_matches d (ac_auth a) = true) (accounts p).
Proof.
  unfold validate_accounts. rewrite (try_fold_unit (fun a => result_bind _ _)).
  apply Forall_iff. intros a. rewrite result_bind_Ok. setoid_rewrite ok_or_Ok.
  setoid_rewrite guard_err_Ok. setoid_rewrite negb_false_iff. done.
Qed.

Lemma config_check_correct catalog p r v :
  validate_provider_configuration catalog p r = Ok v <->
  config_ok catalog p r /\
  v = mkValidated (zlen (instances p)) (zlen (accounts p))
        (zlen (aliases r) + zlen (rules r) + (if is_someb (route_default r) then 1 else 0)).
Proof.
  unfold validate_provider_configuration.
  rewrite check_Ok, map_err_Ok, shape_check_correct, result_bind_Ok. split.
  - intros (Hs & m & Hm & Hk). apply check_Ok in Hk as [Ha%validate_accounts_Ok [= <-]].
    split; [|done]. split; [done| |].
    + apply (validate_instances_Ok_iff _ _ ∅); [apply Hs|]. eauto.
    + eapply Forall_impl; [|exact Ha]. intros a (d & Hd & Hauth). exists d. split; [|done].
      eapply (validate_instances_lookup catalog); [apply Hs..|exact Hm|exact Hd].
  - intros [[Hs Hi Ha] ->]. split; [done|].
    destruct (proj2 (validate_instances_Ok_iff catalog _ ∅ (so_endpoints _ _ Hs)) Hi) as (m & Hm).
    exists m. split; [exact Hm|]. apply check_Ok. split; [|done]. apply validate_accounts_Ok.
    eapply Forall_impl; [|exact Ha]. intros a (d & Hd & Hauth). exists d. split; [|done].
    eapply (validate_instances_lookup catalog); [apply Hs..|exact Hm|exact Hd].
Qed.

(** The engine accepts a configuration exactly when its shape is right, every
    instance names a catalog provider, an endpoint override is only given where
    the provider allows one and is https unless its host is private, a private
    host is only named with the private-network opt-in, and every account's
    credentials fit its provider's authentication kind.  The returned counts are
    those of the configuration. *)
Theorem config_check_exact (catalog : ProviderCatalog) (p : ProviderConfig) (r : RoutingConfig)
    (v : ValidatedProviderConfig) :
  validate_provider_configuration catalog p r = Ok v <->
  config_ok catalog p r /\
  v = mkValidated (zlen (instances p)) (zlen (accounts p))
        (zlen (aliases r) + zlen (rules r) + (if is_someb (route_default r) then 1 else 0)).
Proof. apply config_check_correct. Qed.
End EngineConfig.
