(* ===== verification/Routing.v ===== *)
(** * Routes and their candidates

    Models [crates/wokcore-engine/src/routing.rs]: the compiled provider, the
    routing decision, the iterator over its account candidates and the mapping
    of reasoning efforts. *)
From S2P Require Import Prelude Accounts Config Catalog.

Definition STANDARD_REASONING_EFFORTS : list string :=
  ["none"; "minimal"; "low"; "medium"; "high"; "xhigh"; "max"]%string.

Record RouteRequest : Set := mkRouteRequest {
  req_provider : option string;
  req_model : string;
  req_client_id : option string
}.

Inductive RouteOrigin : Set := OriginExplicit | OriginAlias | OriginRule | OriginDefault.

#[global] Instance RouteOrigin_eq_dec : EqDecision RouteOrigin.
Proof. solve_decision. Defined.

Inductive EndpointAccess : Set := PublicOnly | PrivateAllowed | LoopbackOnly.

#[global] Instance EndpointAccess_eq_dec : EqDecision EndpointAccess.
Proof. solve_decision. Defined.

Definition from_configuration (policy : EndpointPolicy) (allow_private_network : bool)
  : EndpointAccess :=
  if allow_private_network then PrivateAllowed
  else if bool_decide (policy = LoopbackHttp) then LoopbackOnly
  else PublicOnly.

Record RouteAccount : Set := mkRouteAccount { ra_id : string; ra_auth : AccountAuthConfig }.

Definition authentication (a : RouteAccount) : AccountAuthentication :=
  match ra_auth a with
  | AuthForward _ => Forward
  | AuthOauth _ _ => Oauth
  | AuthApiKey _ => ApiKey
  | AuthLocal => Local
  end.

Record RouteProvider : Type := mkRouteProvider {
  rp_id : string;
  rp_catalog_id : string;
  rp_endpoint : string;
  rp_endpoint_access : EndpointAccess;
  rp_adapter : AdapterFamily;
  rp_auth_kind : AuthKind;
  rp_capabilities : ProviderCapabilities;
  rp_accounts : list RouteAccount;
  rp_reasoning_efforts : list string;
  rp_reasoning_effort_map : gmap string string
}.

Record RouteDecision : Type := mkDecision {
  rd_provider : RouteProvider;
  rd_model : string;
  rd_origin : RouteOrigin
}.

Inductive RouteError : Set := NoRoute | ProviderUnavailable | UnsupportedReasoningEffort.

#[global] Instance RouteError_eq_dec : EqDecision RouteError.
Proof. solve_decision. Defined.

Definition map_reasoning_effort (d : RouteDecision) (effort : string) : result RouteError string :=
  if negb (cap_reasoning (rp_capabilities (rd_provider d))) then Err UnsupportedReasoningEffort
  else match rp_reasoning_effort_map (rd_provider d) !! effort with
       | Some mapped => Ok mapped
       | None =>
           let supported :=
             if is_emptyb (rp_reasoning_efforts (rd_provider d))
             then bool_decide (effort ∈ STANDARD_REASONING_EFFORTS)
             else existsb (fun supported => bool_decide (supported = effort))
                    (rp_reasoning_efforts (rd_provider d)) in
           if supported then Ok effort else Err UnsupportedReasoningEffort
       end.

Record RouteCandidate : Type := mkRouteCandidate {
  rc_provider : RouteProvider;
  rc_account : option RouteAccount;
  rc_model : string;
  rc_origin : RouteOrigin
}.

(** ** The candidate iterator *)
Record RouteCandidates : Type := mkCandidates {
  decision : RouteDecision;
  next_account : nat;
  yielded_accountless : bool
}.

Definition candidates (d : RouteDecision) : RouteCandidates := mkCandidates d 0 false.

Definition candidate_of (d : RouteDecision) (account : option RouteAccount) : RouteCandidate :=
  mkRouteCandidate (rd_provider d) account (rd_model d) (rd_origin d).

(** [Iterator::next]: the item, if any, and the iterator after the call. *)
Definition RouteCandidates_next (it : RouteCandidates) : option RouteCandidate * RouteCandidates :=
  let d := decision it in
  let accounts := rp_accounts (rd_provider d) in
  if is_emptyb accounts then
    if yielded_accountless it then (None, it)
    else (Some (candidate_of d None), mkCandidates d (next_account it) true)
  else
    match accounts !! next_account it with
    | None => (None, it)
    | Some account =>
        (Some (candidate_of d (Some account)),
         mkCandidates d (S (next_account it)) (yielded_accountless it))
    end.

Definition RouteCandidates_size_hint (it : RouteCandidates) : Z * option Z :=
  let accounts := rp_accounts (rd_provider (decision it)) in
  let remaining :=
    if is_emptyb accounts then (if yielded_accountless it then 0 else 1)
    else sat_sub (zlen accounts) (Z.of_nat (next_account it)) in
  (remaining, Some remaining).

(** The items of the next [fuel] calls, and whether the iterator ended. *)
Fixpoint collect (fuel : nat) (it : RouteCandidates) : list RouteCandidate * bool :=
  match fuel with
  | O => ([], false)
  | S fuel =>
      match RouteCandidates_next it with
      | (None, _) => ([], true)
      | (Some c, it) => let '(l, e) := collect fuel it in (c :: l, e)
      end
  end.

(** The iterator after [n] calls of [next]. *)
Definition advance (n : nat) (it : RouteCandidates) : RouteCandidates :=
  Nat.iter n (fun it => (RouteCandidates_next it).2) it.

(** ** What the iterator promises *)
Definition expected_candidates (d : RouteDecision) : list RouteCandidate :=
  match rp_accounts (rd_provider d) with
  | [] => [candidate_of d None]
  | accounts => (fun a => candidate_of d (Some a)) <$> accounts
  end.

(** The items an iterator still has to give. *)
Definition remaining_candidates (it : RouteCandidates) : list RouteCandidate :=
  match rp_accounts (rd_provider (decision it)) with
  | [] => if yielded_accountless it then [] else [candidate_of (decision it) None]
  | accounts =>
      (fun a => candidate_of (decision it) (Some a)) <$> drop (next_account it) accounts
  end.

Lemma next_remaining it :
  match RouteCandidates_next it with
  | (None, it') => remaining_candidates it = [] /\ it' = it
  | (Some c, it') => remaining_candidates it = c :: remaining_candidates it'
  end.
Proof.
  unfold RouteCandidates_next, remaining_candidates.
  destruct (rp_accounts (rd_provider (decision it))) as [|a l] eqn:Ea; cbn [is_emptyb].
  - destruct (yielded_accountless it); cbn; [done|]. by rewrite Ea.
  - destruct ((a :: l) !! next_account it) as [x|] eqn:Ex.
    + cbn [decision next_account]. rewrite Ea. by rewrite (drop_S _ _ _ Ex).
    + split; [|done]. rewrite drop_ge; [done|]. by apply lookup_ge_None.
Qed.

Lemma advance_remaining n it :
  remaining_candidates (advance n it) = drop n (remaining_candidates it).
Proof.
  revert it. induction n as [|n IH]; intros it; [done|].
  unfold advance. rewrite Nat.iter_succ. change (Nat.iter n _ it) with (advance n it).
  pose proof (next_remaining (advance n it)) as Hn. rewrite IH in Hn.
  destruct (RouteCandidates_next (advance n it)) as [[c|] it']; cbn [snd].
  - rewrite <- Nat.add_1_r, <- drop_drop, Hn. done.
  - destruct Hn as [Hn ->]. rewrite IH, Hn.
    symmetry. apply drop_ge. apply (f_equal length) in Hn. rewrite length_drop in Hn. cbn in Hn. lia.
Qed.

Lemma size_hint_remaining it :
  RouteCandidates_size_hint it
  = (zlen (remaining_candidates it), Some (zlen (remaining_candidates it))).
Proof.
  unfold RouteCandidates_size_hint, remaining_candidates.
  destruct (rp_accounts (rd_provider (decision it))) as [|a l]; cbn [is_emptyb].
  - by destruct (yielded_accountless it).
  - assert (sat_sub (zlen (a :: l)) (Z.of_nat (next_account it)) =
      zlen ((fun a => candidate_of (decision it) (Some a)) <$> drop (next_account it) (a :: l)))
      as -> by (unfold zlen; rewrite length_fmap, length_drop; unfold sat_sub; lia).
    done.
Qed.

Lemma collect_remaining fuel it :
  collect fuel it =
  (take fuel (remaining_candidates it), bool_decide (length (remaining_candidates it) < fuel)%nat).
Proof.
  revert it. induction fuel as [|fuel IH]; intros it; cbn [collect].
  - f_equal.
  - pose proof (next_remaining it) as Hn. destruct (RouteCandidates_next it) as [[c|] it'].
    + rewrite IH, Hn. cbn. f_equal. apply bool_decide_ext. lia.
    + destruct Hn as [-> _]. reflexivity.
Qed.

(** Iterating a decision's candidates ends, and gives one candidate per
    account in configuration order, or a single accountless one when the
    provider has none.  After any number of calls the size hint is the exact
    number of items still to come. *)
Theorem candidates_complete (d : RouteDecision) (n : nat) :
  collect (S (length (expected_candidates d))) (candidates d) = (expected_candidates d, true) /\
  (collect n (candidates d)).1 = take n (expected_candidates d) /\
  RouteCandidates_size_hint (advance n (candidates d))
  = (zlen (drop n (expected_candidates d)), Some (zlen (drop n (expected_candidates d)))).
Proof.
  assert (remaining_candidates (candidates d) = expected_candidates d) as Hr.
  { unfold remaining_candidates, expected_candidates, candidates. cbn.
    by destruct (rp_accounts (rd_provider d)). }
  split_and!.
  - rewrite collect_remaining, Hr, take_ge by lia. f_equal. apply bool_decide_eq_true. lia.
  - by rewrite collect_remaining, Hr.
  - by rewrite size_hint_remaining, advance_remaining, Hr.
Qed.

Lemma map_reasoning_effort_Ok d effort w :
  map_reasoning_effort d effort = Ok w <->
  cap_reasoning (rp_capabilities (rd_provider d)) = true /\
  (rp_reasoning_effort_map (rd_provider d) !! effort = Some w \/
   rp_reasoning_effort_map (rd_provider d) !! effort = None /\ w = effort /\
   (rp_reasoning_efforts (rd_provider d) = [] /\ effort ∈ STANDARD_REASONING_EFFORTS \/
    rp_reasoning_efforts (rd_provider d) <> [] /\ effort ∈ rp_reasoning_efforts (rd_provider d))).
Proof.
  unfold map_reasoning_effort.
  destruct (cap_reasoning _); cbn [negb]; [|naive_solver].
  destruct (_ !! effort); [naive_solver|].
  assert (forall l : list string,
    existsb (fun s => bool_decide (s = effort)) l = true <-> effort ∈ l) as Hex.
  { intros l. rewrite existsb_exists. setoid_rewrite <- list_elem_of_In.
    setoid_rewrite bool_decide_eq_true. naive_solver. }
  destruct (rp_reasoning_efforts (rd_provider d)) as [|e l] eqn:Ee; cbn [is_emptyb].
  - case_bool_decide; naive_solver.
  - destruct (existsb _ (e :: l)) eqn:Ex.
    + apply Hex in Ex. naive_solver.
    + assert (effort ∉ e :: l) by (rewrite <- Hex; congruence). naive_solver.
Qed.
