(* ===== verification/Snapshot.v ===== *)
(** * Runtime snapshots

    Models [crates/wokcore-engine/src/snapshot.rs] and [models.rs]: compiling a
    validated configuration into the immutable snapshot that routes requests,
    the list of public models, and the publisher that swaps snapshots.  The two
    [expect] calls are modelled as panics; that they never fire is proved.  An
    [Arc] is the value it holds. *)
From S2P Require Import Prelude NetAddr Config Catalog EngineConfig Routing.

Record PublicModelMetadata : Type := mkPublicModel {
  pm_id : string;
  pm_owned_by : string;
  pm_capabilities : ProviderCapabilities
}.

Record CompiledRule : Set := mkCompiledRule {
  cr_client_id : option string;
  cr_model : option string;
  cr_target : RouteTarget
}.

Definition from_config (rule : RouteRule) : CompiledRule :=
  mkCompiledRule (rule_client_id rule) (rule_model rule) (rule_target rule).

Definition specificity (rule : CompiledRule) : Z :=
  (if is_someb (cr_client_id rule) then 1 else 0) + (if is_someb (cr_model rule) then 1 else 0).

Definition matches (request : RouteRequest) (rule : CompiledRule) : bool :=
  is_none_or (fun client_id => bool_decide (req_client_id request = Some client_id))
    (cr_client_id rule)
  && is_none_or (fun model => bool_decide (model = req_model request)) (cr_model rule).

Record RuntimeSnapshot : Type := mkSnapshot {
  snap_providers : gmap string RouteProvider;
  snap_aliases : gmap string RouteTarget;
  snap_rules : list CompiledRule;
  snap_default : option RouteTarget;
  snap_public_models : list PublicModelMetadata
}.

Inductive SnapshotError : Set :=
| SnapshotProviderConfig (e : ProviderConfigError)
| NoEnabledAccount (provider : string)
| UnresolvedEndpointTemplate (provider : string).

(** A build either returns an error or panics in an [expect]. *)
Inductive BuildFailure : Set :=
| Failed (e : SnapshotError)
| Panicked (message : string).

Definition expect {A} (o : option A) (message : string) : result BuildFailure A :=
  ok_or o (Panicked message).

Definition account_is_required (provider : ProviderDefinition) : bool :=
  negb (bool_decide (pd_auth_kind provider = KindLocal)) && negb (pd_key_optional provider).

Definition effective_endpoint (definition : ProviderDefinition) (instance : ProviderInstanceConfig)
  : string :=
  match pi_endpoint instance with
  | Some endpoint => endpoint
  | None => pd_base_url definition
  end.

Definition instance_accounts (providers : ProviderConfig) (instance : ProviderInstanceConfig)
  : list RouteAccount :=
  (fun account => mkRouteAccount (ac_id account) (ac_auth account)) <$>
    List.filter (fun account => ac_enabled account && bool_decide (ac_provider account = pi_id instance))
      (accounts providers).

(** The [RouteProvider::new] call of the loop body. *)
Definition compile_provider (definition : ProviderDefinition) (instance : ProviderInstanceConfig)
  (accounts : list RouteAccount) : RouteProvider := {|
  rp_id := pi_id instance;
  rp_catalog_id := pi_catalog_id instance;
  rp_endpoint := effective_endpoint definition instance;
  rp_endpoint_access :=
    from_configuration (pd_endpoint_policy definition) (pi_allow_private_network instance);
  rp_adapter := pd_adapter definition;
  rp_auth_kind := pd_auth_kind definition;
  rp_capabilities := pd_capabilities definition;
  rp_accounts := accounts;
  rp_reasoning_efforts := pd_reasoning_efforts definition;
  rp_reasoning_effort_map := pd_reasoning_effort_map definition
|}.

Definition build_runtime_provider (catalog : ProviderCatalog) (providers : ProviderConfig)
  (runtime : gmap string RouteProvider) (instance : ProviderInstanceConfig)
  : result BuildFailure (gmap string RouteProvider) :=
  let? definition :=
    expect (catalog_provider catalog (pi_catalog_id instance)) "validated catalog Provider" in
  let endpoint := effective_endpoint definition instance in
  check? guard_err (contains_brace endpoint) (Failed (UnresolvedEndpointTemplate (pi_id instance)));
  let accounts := instance_accounts providers instance in
  check? guard_err (is_emptyb accounts && account_is_required definition)
    (Failed (NoEnabledAccount (pi_id instance)));
  Ok (<[pi_id instance := compile_provider definition instance accounts]> runtime).

Definition build_runtime_providers (catalog : ProviderCatalog) (providers : ProviderConfig)
  : result BuildFailure (gmap string RouteProvider) :=
  try_fold (build_runtime_provider catalog providers) ∅
    (List.filter pi_enabled (instances providers)).

Definition public_model (id : string) (provider : RouteProvider) : PublicModelMetadata :=
  mkPublicModel id (rp_id provider) (rp_capabilities provider).

(** [models.entry(id).or_insert_with(|| public_model(id, provider))]. *)
Definition or_insert_model (provider : RouteProvider) (models : gmap string PublicModelMetadata)
  (id : string) : gmap string PublicModelMetadata :=
  match models !! id with
  | Some _ => models
  | None => <[id := public_model id provider]> models
  end.

Definition add_provider_models (catalog : ProviderCatalog)
  (models : gmap string PublicModelMetadata) (provider : RouteProvider)
  : result BuildFailure (gmap string PublicModelMetadata) :=
  let? definition :=
    expect (catalog_provider catalog (rp_catalog_id provider)) "validated catalog Provider" in
  let models := foldl (or_insert_model provider) models (pd_models definition) in
  Ok match pd_default_model definition with
     | Some default_model => or_insert_model provider models default_model
     | None => models
     end.

Definition add_alias_model (providers : gmap string RouteProvider)
  (models : gmap string PublicModelMetadata) (alias : ModelAlias) : gmap string PublicModelMetadata :=
  match providers !! target_provider (alias_target alias) with
  | Some provider => <[alias_name alias := public_model (alias_name alias) provider]> models
  | None => models
  end.

Definition add_rule_model (providers : gmap string RouteProvider)
  (models : gmap string PublicModelMetadata) (rule : RouteRule) : gmap string PublicModelMetadata :=
  match rule_model rule, providers !! target_provider (rule_target rule) with
  | Some model, Some provider => or_insert_model provider models model
  | _, _ => models
  end.

Definition add_default_model (providers : gmap string RouteProvider)
  (models : gmap string PublicModelMetadata) (default : option RouteTarget)
  : gmap string PublicModelMetadata :=
  match default with
  | Some target =>
      match providers !! target_provider target with
      | Some provider => or_insert_model provider models (target_model target)
      | None => models
      end
  | None => models
  end.

Definition build_public_models (catalog : ProviderCatalog) (providers : gmap string RouteProvider)
  (routing : RoutingConfig) : result BuildFailure (list PublicModelMetadata) :=
  let? models := try_fold (add_provider_models catalog) ∅ (btree_iter providers).*2 in
  let models := foldl (add_alias_model providers) models (aliases routing) in
  let models := foldl (add_rule_model providers) models (rules routing) in
  let models := add_default_model providers models (route_default routing) in
  Ok (btree_iter models).*2.

(** ** Routing a request *)
Definition snapshot_decision (s : RuntimeSnapshot) (target : RouteTarget) (origin : RouteOrigin)
  : result RouteError RouteDecision :=
  let? provider := ok_or (snap_providers s !! target_provider target) ProviderUnavailable in
  Ok (mkDecision provider (target_model target) origin).

Definition route (s : RuntimeSnapshot) (request : RouteRequest) : result RouteError RouteDecision :=
  match req_provider request with
  | Some provider => snapshot_decision s (mkTarget provider (req_model request)) OriginExplicit
  | None =>
      match snap_aliases s !! req_model request with
      | Some target => snapshot_decision s target OriginAlias
      | None =>
          match List.find (matches request) (snap_rules s) with
          | Some rule => snapshot_decision s (cr_target rule) OriginRule
          | None =>
              match snap_default s with
              | Some target => snapshot_decision s target OriginDefault
              | None => Err NoRoute
              end
          end
      end
  end.

Section Build.
Context `{UrlCrate}.

(** [RuntimeSnapshot::build], through [SnapshotBuilder] to [build_validated].
    [Reverse] turns the sort into a descending one. *)
Definition build (catalog : ProviderCatalog) (providers : ProviderConfig) (routing : RoutingConfig)
  : result BuildFailure RuntimeSnapshot :=
  check? map_err (fun e => Failed (SnapshotProviderConfig e))
    (let? _ := validate_provider_configuration catalog providers routing in Ok tt);
  let? runtime_providers := build_runtime_providers catalog providers in
  let aliases :=
    foldl (fun (m : gmap string RouteTarget) alias => <[alias_name alias := alias_target alias]> m)
      ∅ (aliases routing) in
  let rules := sort_by_key (fun rule => - specificity rule) (from_config <$> rules routing) in
  let? public_models := build_public_models catalog runtime_providers routing in
  Ok (mkSnapshot runtime_providers aliases rules (route_default routing) public_models).

(** ** The publisher: the state is the published snapshot. *)
Definition publish (snapshot : RuntimeSnapshot) : st_res RuntimeSnapshot BuildFailure RuntimeSnapshot :=
  do! st_mod (fun _ => snapshot); st_ret snapshot.

Definition rebuild_and_publish (catalog : ProviderCatalog) (providers : ProviderConfig)
  (routing : RoutingConfig) : st_res RuntimeSnapshot BuildFailure RuntimeSnapshot :=
  let! snapshot := st_lift (build catalog providers routing) in
  do! st_mod (fun _ => snapshot); st_ret snapshot.
End Build.
