(* ===== verification/SnapshotSpec.v ===== *)
(** * What a snapshot guarantees

    When a build succeeds, that it never panics, how requests are routed, which
    models are public, and what the publisher keeps. *)
From S2P Require Import Prelude NetAddr Config Catalog CatalogSpec EngineConfig Routing Snapshot.

(** ** Compiled providers *)
Definition compiled (catalog : ProviderCatalog) (p : ProviderConfig) (i : ProviderInstanceConfig)
  (rp : RouteProvider) : Prop :=
  exists d, catalog_provider catalog (pi_catalog_id i) = Some d /\
    contains_brace (effective_endpoint d i) = false /\
    (instance_accounts p i = [] -> account_is_required d = false) /\
    rp = compile_provider d i (instance_accounts p i).

Definition enabled_instance (p : ProviderConfig) (i : ProviderInstanceConfig) : Prop :=
  i ∈ instances p /\ pi_enabled i = true.

(** An enabled instance can be compiled. *)
Definition buildable (catalog : ProviderCatalog) (p : ProviderConfig) : Prop :=
  forall i, enabled_instance p i -> exists rp, compiled catalog p i rp.

Lemma elem_of_enabled p i :
  i ∈ List.filter pi_enabled (instances p) <-> enabled_instance p i.
Proof. unfold enabled_instance. rewrite !list_elem_of_In. apply filter_In. Qed.

Lemma NoDup_fmap_filter {A} (k : A -> string) (q : A -> bool) l :
  NoDup (k <$> l) -> NoDup (k <$> List.filter q l).
Proof.
  induction l as [|a l IH]; [done|]. rewrite fmap_cons, list.NoDup_cons. intros [Ha Hl].
  cbn. destruct (q a); [|auto]. rewrite fmap_cons, list.NoDup_cons. split; [|auto].
  intros Hb. apply Ha. apply list_elem_of_fmap in Hb as (b & -> & Hin).
  apply list_elem_of_fmap. exists b. split; [done|].
  apply list_elem_of_In in Hin. apply filter_In in Hin as [? _]. by apply list_elem_of_In.
Qed.

Lemma NoDup_fmap_eq {A} (k : A -> string) l x y :
  NoDup (k <$> l) -> x ∈ l -> y ∈ l -> k x = k y -> x = y.
Proof.
  induction l as [|a l IH]; [set_solver|]. rewrite fmap_cons, list.NoDup_cons, !elem_of_cons.
  intros [Ha Hl] [->|Hx] [->|Hy] E; auto; destruct Ha; apply list_elem_of_fmap; eauto.
Qed.

Lemma build_runtime_provider_Ok catalog p m i m' :
  True -> build_runtime_provider catalog p m i = Ok m' <->
  exists rp, compiled catalog p i rp /\ m' = <[pi_id i := rp]> m.
Proof.
  intros _. unfold build_runtime_provider, compiled, expect.
  destruct (catalog_provider catalog (pi_catalog_id i)) as [d|]; cbn [ok_or result_bind].
  2: { split; [intros [=]|naive_solver]. }
  rewrite !check_Ok, guard_err_Ok, guard_and_not_Ok, is_emptyb_true. naive_solver.
Qed.

Lemma compiled_unique catalog p i rp rp' :
  compiled catalog p i rp -> compiled catalog p i rp' -> rp = rp'.
Proof. unfold compiled. intros (d & Hd & _ & _ & ->) (d' & Hd' & _ & _ & ->). congruence. Qed.

Lemma build_runtime_providers_total catalog p :
  (exists m, build_runtime_providers catalog p = Ok m) <-> buildable catalog p.
Proof.
  unfold build_runtime_providers.
  rewrite (try_fold_fill_Ok _ pi_id _ _ (build_runtime_provider_Ok catalog p))
    by (by apply list.Forall_true).
  rewrite list.Forall_forall. unfold buildable. setoid_rewrite elem_of_enabled. done.
Qed.

(** The compiled providers are those of the enabled instances. *)
Definition runtime_spec (catalog : ProviderCatalog) (p : ProviderConfig)
  (m : gmap string RouteProvider) : Prop :=
  forall id rp, m !! id = Some rp <->
    exists i, enabled_instance p i /\ pi_id i = id /\ compiled catalog p i rp.

Lemma build_runtime_providers_lookup catalog p m :
  NoDup (pi_id <$> instances p) -> build_runtime_providers catalog p = Ok m ->
  runtime_spec catalog p m.
Proof.
  intros Hnd Hm id rp.
  rewrite (try_fold_fill_lookup _ pi_id _ _ (build_runtime_provider_Ok catalog p) _ m
    ltac:(by apply list.Forall_true) (NoDup_fmap_filter _ _ _ Hnd) (compiled_unique catalog p) Hm).
  setoid_rewrite elem_of_enabled. done.
Qed.

Lemma runtime_spec_id catalog p m id rp : runtime_spec catalog p m -> m !! id = Some rp -> rp_id rp = id.
Proof. intros Hs (i & _ & <- & d & _ & _ & _ & ->)%Hs. done. Qed.

Lemma runtime_spec_catalog catalog p m id rp :
  runtime_spec catalog p m -> m !! id = Some rp ->
  exists d, catalog_provider catalog (rp_catalog_id rp) = Some d.
Proof. intros Hs (i & _ & _ & d & Hd & _ & _ & ->)%Hs. eauto. Qed.

Lemma build_runtime_provider_no_panic catalog p m i msg :
  is_Some (catalog_provider catalog (pi_catalog_id i)) ->
  build_runtime_provider catalog p m i <> Err (Panicked msg).
Proof.
  intros [d Hd]. unfold build_runtime_provider, expect. rewrite Hd. cbn [ok_or result_bind].
  unfold guard_err. repeat case_match; done.
Qed.

(** ** Public models *)
Notation model_map := (gmap string PublicModelMetadata).

(** The map [m'] holds [m] and the new ids [X], whose entries are [public_model]s of
    providers satisfying [R]; entries of [m] are untouched unless [X] may
    override them. *)
Definition extends (m m' : model_map) (X : string -> Prop) (R : string -> RouteProvider -> Prop) :=
  (forall id, is_Some (m' !! id) <-> is_Some (m !! id) \/ X id) /\
  (forall id x, m' !! id = Some x ->
     m !! id = Some x \/ exists rp, R id rp /\ x = public_model id rp).

Lemma extends_refl m (X : string -> Prop) R : (forall id, ~ X id) -> extends m m X R.
Proof. intros HX. split; naive_solver. Qed.

Lemma extends_trans m1 m2 m3 X Y (Z : string -> Prop) R S (T : string -> RouteProvider -> Prop) :
  extends m1 m2 X R -> extends m2 m3 Y S ->
  (forall id, X id \/ Y id <-> Z id) ->
  (forall id rp, R id rp \/ S id rp -> T id rp) -> extends m1 m3 Z T.
Proof.
  intros [Hd1 He1] [Hd2 He2] HZ HT. split.
  - intros id. rewrite Hd2, Hd1, <- HZ. tauto.
  - intros id x [H|(rp & HS & ->)]%He2; [|eauto 6].
    apply He1 in H as [H|(rp & HR & ->)]; eauto 6.
Qed.

(** The same without choosing the sets. *)
Lemma extends_chain m1 m2 m3 X Y R S :
  extends m1 m2 X R -> extends m2 m3 Y S ->
  extends m1 m3 (fun id => X id \/ Y id) (fun id rp => R id rp \/ S id rp).
Proof. intros H1 H2. by eapply extends_trans. Qed.

Lemma or_insert_extends rp m id :
  extends m (or_insert_model rp m id) (eq id) (fun _ rp' => rp' = rp).
Proof.
  unfold or_insert_model. destruct (m !! id) as [y|] eqn:Hm; split.
  - intros k. split; [auto|]. intros [?|<-]; [done|]. by rewrite Hm.
  - auto.
  - intros k. rewrite lookup_insert_is_Some. destruct (decide (id = k)); naive_solver.
  - intros k x [[<- <-]|[_ H]]%lookup_insert_Some; eauto.
Qed.

Lemma or_insert_keeps rp m id k x :
  m !! k = Some x -> or_insert_model rp m id !! k = Some x.
Proof.
  intros Hk. unfold or_insert_model. destruct (m !! id) eqn:Hid; [done|].
  rewrite lookup_insert_ne; [done|]. intros ->. congruence.
Qed.

(** Folding steps that extend. *)
Lemma foldl_extends {A} (step : model_map -> A -> model_map) (X : A -> string -> Prop)
    (R : A -> string -> RouteProvider -> Prop) l m :
  (forall m a, extends m (step m a) (X a) (R a)) ->
  extends m (foldl step m l) (fun id => exists a, a ∈ l /\ X a id)
    (fun id rp => exists a, a ∈ l /\ R a id rp).
Proof.
  intros Hstep. revert m. induction l as [|a l IH]; intros m; cbn.
  - apply extends_refl. set_solver.
  - eapply extends_trans; [apply Hstep|apply IH|..].
    + intros id. setoid_rewrite elem_of_cons. naive_solver.
    + intros id rp. setoid_rewrite elem_of_cons. naive_solver.
Qed.

Lemma foldl_keeps {A} (step : model_map -> A -> model_map) l m k x :
  (forall m a, a ∈ l -> m !! k = Some x -> step m a !! k = Some x) ->
  m !! k = Some x -> foldl step m l !! k = Some x.
Proof.
  revert m. induction l as [|a l IH]; intros m Hs Hm; cbn; [done|].
  apply IH; [|apply Hs; [left|done]]. intros m' b Hb. apply Hs. by right.
Qed.

(** The models a provider's catalog entry lists. *)
Definition lists_model (catalog : ProviderCatalog) (rp : RouteProvider) (id : string) : Prop :=
  exists d, catalog_provider catalog (rp_catalog_id rp) = Some d /\
    (id ∈ pd_models d \/ pd_default_model d = Some id).

Lemma add_provider_models_extends catalog m rp m' :
  add_provider_models catalog m rp = Ok m' ->
  extends m m' (lists_model catalog rp) (fun _ rp' => rp' = rp).
Proof.
  unfold add_provider_models, expect, lists_model.
  destruct (catalog_provider catalog (rp_catalog_id rp)) as [d|]; cbn [ok_or result_bind]; [|done].
  intros [= <-].
  pose proof (foldl_extends (or_insert_model rp) (fun id k => id = k) (fun _ _ rp' => rp' = rp)
    (pd_models d) m (or_insert_extends rp)) as Hfold.
  assert (forall id (D : Prop),
    ((exists a, a ∈ pd_models d /\ a = id) \/ D <->
     exists d', Some d = Some d' /\ (id ∈ pd_models d' \/ pd_default_model d' = Some id)) <->
    (id ∈ pd_models d \/ D <-> id ∈ pd_models d \/ pd_default_model d = Some id)) as Hiff.
  { intros id D. split; intros Hi; split; intros Hx.
    - destruct (proj1 Hi) as (d' & [= <-] & ?); [|done]. naive_solver.
    - destruct (proj2 Hi) as [(x & ? & <-)|?]; eauto.
    - exists d. split; [done|]. apply Hi. naive_solver.
    - destruct Hx as (d' & [= <-] & Hx). apply Hi in Hx as [?|?]; eauto. }
  destruct (pd_default_model d) as [dm|] eqn:Ed.
  - eapply extends_trans; [exact Hfold|apply (or_insert_extends rp)|..].
    + intros id. apply Hiff. split; intros [?|?]; auto; right; congruence.
    + intros id rp' [(? & _ & ?)|?]; done.
  - eapply extends_trans; [exact Hfold|apply (extends_refl _ (fun _ => False) (fun _ _ => False))|..].
    + auto.
    + intros id. apply Hiff. split; intros [?|?]; auto; try done.
    + intros id rp' [(? & _ & ?)|?]; done.
Qed.

Lemma try_fold_provider_extends catalog l m m' :
  try_fold (add_provider_models catalog) m l = Ok m' ->
  extends m m' (fun id => exists rp, rp ∈ l /\ lists_model catalog rp id) (fun _ rp => rp ∈ l).
Proof.
  revert m. induction l as [|rp l IH]; intros m; cbn.
  - intros [= <-]. apply extends_refl. set_solver.
  - intros (m1 & H1%add_provider_models_extends & H2%IH)%result_bind_Ok.
    eapply extends_trans; [exact H1|exact H2|..].
    + intros id. setoid_rewrite elem_of_cons. naive_solver.
    + intros id rp'. rewrite elem_of_cons. naive_solver.
Qed.

Lemma elem_of_values {V} (m : gmap string V) v : v ∈ (btree_iter m).*2 <-> exists k, m !! k = Some v.
Proof.
  rewrite list_elem_of_fmap. split.
  - intros ([k v'] & -> & Hin%elem_of_btree_iter). eauto.
  - intros [k Hk]. exists (k, v). split; [done|]. by apply elem_of_btree_iter.
Qed.

Section Models.
Context (catalog : ProviderCatalog) (ps : gmap string RouteProvider) (r : RoutingConfig).

Lemma add_alias_extends m a :
  extends m (add_alias_model ps m a)
    (fun id => id = alias_name a /\ is_Some (ps !! target_provider (alias_target a)))
    (fun _ rp => ps !! target_provider (alias_target a) = Some rp).
Proof.
  unfold add_alias_model. destruct (ps !! target_provider (alias_target a)) as [rp|].
  - split.
    + intros k. rewrite lookup_insert_is_Some. destruct (decide (alias_name a = k)); naive_solver.
    + intros k x [[<- <-]|[_ H]]%lookup_insert_Some; eauto.
  - apply extends_refl. intros id [_ [? [=]]].
Qed.

Lemma add_rule_extends m u :
  extends m (add_rule_model ps m u)
    (fun id => rule_model u = Some id /\ is_Some (ps !! target_provider (rule_target u)))
    (fun _ rp => ps !! target_provider (rule_target u) = Some rp).
Proof.
  unfold add_rule_model. destruct (rule_model u) as [id|] eqn:Em.
  2: { apply extends_refl. intros k [[=] _]. }
  destruct (ps !! target_provider (rule_target u)) as [rp|].
  - destruct (or_insert_extends rp m id) as [H1 H2]. split.
    + intros k. rewrite H1. split; (intros [?|?]; [auto|right]); [|naive_solver].
      split; [congruence|eauto].
    + intros k x [?|(rp' & -> & ->)]%H2; eauto.
  - apply extends_refl. intros k [_ [? [=]]].
Qed.

Lemma add_default_extends m o :
  extends m (add_default_model ps m o)
    (fun id => exists t, o = Some t /\ target_model t = id /\ is_Some (ps !! target_provider t))
    (fun _ rp => exists t, o = Some t /\ ps !! target_provider t = Some rp).
Proof.
  unfold add_default_model. destruct o as [t|].
  2: { apply extends_refl. naive_solver. }
  destruct (ps !! target_provider t) as [rp|] eqn:Et.
  - destruct (or_insert_extends rp m (target_model t)) as [H1 H2]. split.
    + intros k. rewrite H1. split; (intros [?|Hx]; [auto|right]).
      * exists t. rewrite Et. eauto.
      * by destruct Hx as (t' & [= <-] & ? & _).
    + intros k x [?|(rp' & -> & ->)]%H2; eauto 6.
  - apply extends_refl. intros k (t' & [= <-] & _ & [? Hx]). congruence.
Qed.

(** The model ids a configuration advertises. *)
Definition advertised (id : string) : Prop :=
  (exists k rp, ps !! k = Some rp /\ lists_model catalog rp id) \/
  (exists a, a ∈ aliases r /\ id = alias_name a /\ is_Some (ps !! target_provider (alias_target a))) \/
  (exists u, u ∈ rules r /\ rule_model u = Some id /\ is_Some (ps !! target_provider (rule_target u))) \/
  (exists t, route_default r = Some t /\ target_model t = id /\ is_Some (ps !! target_provider t)).

(** The map behind the public model list. *)
Definition models_map (m0 : model_map) : model_map :=
  add_default_model ps (foldl (add_rule_model ps) (foldl (add_alias_model ps) m0 (aliases r)) (rules r))
    (route_default r).

Lemma models_map_extends m0 :
  try_fold (add_provider_models catalog) ∅ (btree_iter ps).*2 = Ok m0 ->
  (forall id, is_Some (models_map m0 !! id) <-> advertised id) /\
  (forall id x, models_map m0 !! id = Some x -> exists k rp, ps !! k = Some rp /\ x = public_model id rp).
Proof.
  intros H0%try_fold_provider_extends.
  pose proof (foldl_extends _ _ _ (aliases r) m0 add_alias_extends) as H1.
  pose proof (foldl_extends _ _ _ (rules r) (foldl (add_alias_model ps) m0 (aliases r))
    add_rule_extends) as H2.
  pose proof (add_default_extends (foldl (add_rule_model ps)
    (foldl (add_alias_model ps) m0 (aliases r)) (rules r)) (route_default r)) as H3.
  destruct (extends_chain _ _ _ _ _ _ _
    (extends_chain _ _ _ _ _ _ _ (extends_chain _ _ _ _ _ _ _ H0 H1) H2) H3) as [Hd He].
  split.
  - intros id. change (models_map m0 !! id) with
      (add_default_model ps (foldl (add_rule_model ps)
        (foldl (add_alias_model ps) m0 (aliases r)) (rules r)) (route_default r) !! id).
    rewrite Hd, lookup_empty. unfold advertised. setoid_rewrite elem_of_values. split.
    + intros [[? [=]]|[[[(rp & (k & Hk) & ?)|?]|?]|?]]; eauto 10.
    + intros [(k & rp & Hk & ?)|[?|[?|?]]]; right; eauto 10.
  - intros id x [H|(rp & Hrp & ->)]%He; [by rewrite lookup_empty in H|].
    destruct Hrp as [[[Hin|(a & _ & Ha)]|(u & _ & Hu)]|(t & _ & Ht)]; eauto.
    apply elem_of_values in Hin as [k Hk]. eauto.
Qed.

Lemma alias_entry m0 a rp :
  NoDup (alias_name <$> aliases r) -> a ∈ aliases r ->
  ps !! target_provider (alias_target a) = Some rp ->
  models_map m0 !! alias_name a = Some (public_model (alias_name a) rp).
Proof.
  intros Hnd Ha Hrp.
  assert (foldl (add_alias_model ps) m0 (aliases r) !! alias_name a
          = Some (public_model (alias_name a) rp)) as Halias.
  { apply list_elem_of_split in Ha as (l1 & l2 & Hl). rewrite Hl, fmap_app, fmap_cons in Hnd.
    apply list.NoDup_app in Hnd as (_ & _ & [Hnew _]%list.NoDup_cons).
    rewrite Hl, foldl_app. cbn. apply foldl_keeps.
    - intros m b Hb Hm. unfold add_alias_model. case_match; [|done].
      rewrite lookup_insert_ne; [done|]. intros E. apply Hnew, list_elem_of_fmap. eauto.
    - unfold add_alias_model. rewrite Hrp. apply lookup_insert_eq. }
  unfold models_map, add_default_model.
  assert (foldl (add_rule_model ps) (foldl (add_alias_model ps) m0 (aliases r)) (rules r)
          !! alias_name a = Some (public_model (alias_name a) rp)) as Hrules.
  { apply foldl_keeps; [|done]. intros m u _ Hm. unfold add_rule_model.
    repeat case_match; auto using or_insert_keeps. }
  repeat case_match; auto using or_insert_keeps.
Qed.
End Models.

(** ** Routing *)
Definition rule_applies (req : RouteRequest) (u : RouteRule) : Prop :=
  (forall c, rule_client_id u = Some c -> req_client_id req = Some c) /\
  (forall m, rule_model u = Some m -> m = req_model req).

(** How many of its two conditions a rule states. *)
Definition rule_rank (u : RouteRule) : nat :=
  length (option_list (rule_client_id u)) + length (option_list (rule_model u)).

(** The most specific rule that applies, the first of equally specific ones. *)
Definition rule_wins (r : RoutingConfig) (req : RouteRequest) (u : RouteRule) : Prop :=
  exists i, rules r !! i = Some u /\ rule_applies req u /\
    forall j u', rules r !! j = Some u' -> rule_applies req u' ->
      (rule_rank u' < rule_rank u)%nat \/ rule_rank u' = rule_rank u /\ (i <= j)%nat.

Definition is_alias (r : RoutingConfig) (m : string) : Prop :=
  exists a, a ∈ aliases r /\ alias_name a = m.

Inductive routes_to (r : RoutingConfig) (req : RouteRequest) : RouteOrigin -> RouteTarget -> Prop :=
| routes_explicit id :
    req_provider req = Some id -> routes_to r req OriginExplicit (mkTarget id (req_model req))
| routes_alias a :
    req_provider req = None -> a ∈ aliases r -> alias_name a = req_model req ->
    routes_to r req OriginAlias (alias_target a)
| routes_rule u :
    req_provider req = None -> ~ is_alias r (req_model req) -> rule_wins r req u ->
    routes_to r req OriginRule (rule_target u)
| routes_default t :
    req_provider req = None -> ~ is_alias r (req_model req) ->
    (forall u, u ∈ rules r -> ~ rule_applies req u) -> route_default r = Some t ->
    routes_to r req OriginDefault t.

Lemma matches_applies req u : matches req (from_config u) = true <-> rule_applies req u.
Proof.
  unfold matches, rule_applies. destruct u as [[c|] [m|] t]; cbn;
    rewrite ?andb_true_iff, ?bool_decide_eq_true; naive_solver.
Qed.

Lemma specificity_rank u : specificity (from_config u) = Z.of_nat (rule_rank u).
Proof. by destruct u as [[c|] [m|] t]. Qed.

Lemma find_rule_wins r req cr :
  List.find (matches req) (sort_by_key (fun rule => - specificity rule) (from_config <$> rules r))
    = Some cr <-> exists u, cr = from_config u /\ rule_wins r req u.
Proof.
  rewrite find_sort_by_key, first_least_Some. unfold least_at, rule_wins.
  setoid_rewrite list_lookup_fmap_Some. split.
  - intros (i & (u & -> & Hi) & Hm%matches_applies & Hmin). exists u. split; [done|]. exists i.
    split_and!; [done..|]. intros j u' Hj Hu'.
    specialize (Hmin j (from_config u')). rewrite !specificity_rank in Hmin.
    destruct Hmin as [?|[? ?]]; [eauto|by apply matches_applies|lia|lia].
  - intros (u & -> & i & Hi & Hm & Hmin). exists i. split_and!.
    + eauto.
    + by apply matches_applies.
    + intros j y (u' & -> & Hj) Hy%matches_applies. rewrite !specificity_rank.
      destruct (Hmin j u' Hj Hy); lia.
Qed.

Lemma find_rule_none r req :
  List.find (matches req) (sort_by_key (fun rule => - specificity rule) (from_config <$> rules r))
    = None <-> forall u, u ∈ rules r -> ~ rule_applies req u.
Proof.
  rewrite find_sort_by_key, first_least_None. setoid_rewrite list_lookup_fmap_Some. split.
  - intros Hn u [j Hj]%list_elem_of_lookup Hu%matches_applies.
    rewrite (Hn j (from_config u)) in Hu; [done|eauto].
  - intros Hn j y (u & -> & Hj). apply not_true_is_false. rewrite matches_applies.
    apply Hn, list_elem_of_lookup. eauto.
Qed.

Definition alias_map (r : RoutingConfig) : gmap string RouteTarget :=
  foldl (fun (m : gmap string RouteTarget) alias => <[alias_name alias := alias_target alias]> m)
    ∅ (aliases r).

Lemma try_fold_pure {E S A} (g : S -> A -> S) s l :
  try_fold (E := E) (fun s a => Ok (g s a)) s l = Ok (foldl g s l).
Proof. revert s. induction l; intros s; cbn; auto. Qed.

Lemma alias_map_lookup r n t :
  NoDup (alias_name <$> aliases r) ->
  alias_map r !! n = Some t <-> exists a, a ∈ aliases r /\ alias_name a = n /\ alias_target a = t.
Proof.
  intros Hnd. unfold alias_map.
  apply (try_fold_fill_lookup (E := unit)
    (fun m alias => Ok (<[alias_name alias := alias_target alias]> m)) alias_name (fun _ => True)
    (fun a t => alias_target a = t)); [|by apply list.Forall_true|done|congruence|].
  - intros m a m' _. naive_solver.
  - apply (try_fold_pure (E := unit)
      (fun (m : gmap string RouteTarget) alias => <[alias_name alias := alias_target alias]> m)).
Qed.

(** ** Building *)
Section Build.
Context `{UrlCrate}.

(** What a successful build puts together. *)
Definition built_snapshot (r : RoutingConfig) (ps : gmap string RouteProvider) (m0 : model_map)
  : RuntimeSnapshot :=
  mkSnapshot ps (alias_map r)
    (sort_by_key (fun rule => - specificity rule) (from_config <$> rules r))
    (route_default r) (btree_iter (models_map ps r m0)).*2.

Lemma build_Ok c p r s :
  build c p r = Ok s <->
  config_ok c p r /\ exists ps m0, build_runtime_providers c p = Ok ps /\
    try_fold (add_provider_models c) ∅ (btree_iter ps).*2 = Ok m0 /\ s = built_snapshot r ps m0.
Proof.
  unfold build. rewrite check_Ok, map_err_Ok, result_bind_Ok.
  assert ((exists v, validate_provider_configuration c p r = Ok v /\ @Ok ProviderConfigError unit tt = Ok tt)
          <-> config_ok c p r) as ->.
  { setoid_rewrite config_check_correct. naive_solver. }
  rewrite result_bind_Ok. unfold build_public_models. split.
  - intros (Hc & ps & Hps & Hk). split; [done|].
    apply result_bind_Ok in Hk as (l & Hl & [= <-]).
    apply result_bind_Ok in Hl as (m0 & Hm0 & [= <-]). exists ps, m0. done.
  - intros (Hc & ps & m0 & Hps & Hm0 & ->). split; [done|]. exists ps. split; [done|].
    rewrite Hm0. done.
Qed.

Lemma add_models_total c l m :
  (forall rp, rp ∈ l -> is_Some (catalog_provider c (rp_catalog_id rp))) ->
  exists m0, try_fold (add_provider_models c) m l = Ok m0.
Proof.
  revert m. induction l as [|rp l IH]; intros m Hl; cbn; [eauto|].
  destruct (Hl rp) as [d Hd]; [left|]. unfold add_provider_models at 1, expect. rewrite Hd.
  cbn [ok_or result_bind]. apply IH. intros rp' Hin. apply Hl. by right.
Qed.

Lemma runtime_values_catalog c p ps rp :
  runtime_spec c p ps -> rp ∈ (btree_iter ps).*2 -> is_Some (catalog_provider c (rp_catalog_id rp)).
Proof.
  intros Hs [k Hk]%elem_of_values. destruct (runtime_spec_catalog _ _ _ _ _ Hs Hk) as [d Hd]. eauto.
Qed.

Lemma build_spec c p r s :
  build c p r = Ok s ->
  config_ok c p r /\ runtime_spec c p (snap_providers s) /\
  exists m0, try_fold (add_provider_models c) ∅ (btree_iter (snap_providers s)).*2 = Ok m0 /\
    s = built_snapshot r (snap_providers s) m0.
Proof.
  intros (Hc & ps & m0 & Hps & Hm0 & ->)%build_Ok. split_and!; [done| |eauto].
  cbn. apply (build_runtime_providers_lookup c p ps); [apply Hc|done].
Qed.

(** The target [route] looks up, with its origin. *)
Definition pick (s : RuntimeSnapshot) (req : RouteRequest) : option (RouteOrigin * RouteTarget) :=
  match req_provider req with
  | Some id => Some (OriginExplicit, mkTarget id (req_model req))
  | None =>
      match snap_aliases s !! req_model req with
      | Some t => Some (OriginAlias, t)
      | None =>
          match List.find (matches req) (snap_rules s) with
          | Some rule => Some (OriginRule, cr_target rule)
          | None => pair OriginDefault <$> snap_default s
          end
      end
  end.

Lemma route_pick s req :
  route s req = match pick s req with
                | Some (o, t) => snapshot_decision s t o
                | None => Err NoRoute
                end.
Proof. unfold route, pick. repeat case_match; simplify_eq/=; done. Qed.

Lemma alias_map_None r n :
  NoDup (alias_name <$> aliases r) -> alias_map r !! n = None <-> ~ is_alias r n.
Proof.
  intros Hnd. unfold is_alias. split.
  - intros Hn (a & Ha & <-).
    assert (alias_map r !! alias_name a = Some (alias_target a)) as E
      by (apply alias_map_lookup; eauto). congruence.
  - intros Hn. destruct (alias_map r !! n) as [t|] eqn:E; [|done].
    apply alias_map_lookup in E as (a & Ha & Hname & _); [|done]. destruct Hn. eauto.
Qed.

(** [route] looks up the target the configuration's precedence prescribes. *)
Lemma pick_routes_to r ps m0 req o t :
  NoDup (alias_name <$> aliases r) ->
  pick (built_snapshot r ps m0) req = Some (o, t) <-> routes_to r req o t.
Proof.
  intros Hnd. unfold pick. cbn [built_snapshot snap_aliases snap_rules snap_default].
  destruct (req_provider req) as [id|] eqn:Ep.
  { split; [intros [= <- <-]; by constructor|]. destruct 1; congruence. }
  destruct (alias_map r !! req_model req) as [ta|] eqn:Ea.
  { pose proof Ea as (a & Ha & Hn & <-)%alias_map_lookup; [|done].
    assert (is_alias r (req_model req)) by (exists a; done). split.
    - intros [= <- <-]. by constructor.
    - destruct 1 as [|b Hb1 Hb2 Hb3| |]; [congruence| |done..]. do 2 f_equal.
      assert (alias_map r !! req_model req = Some (alias_target b)) as Eb
        by (apply alias_map_lookup; eauto). congruence. }
  apply alias_map_None in Ea; [|done].
  destruct (List.find _ _) as [cr|] eqn:Ef.
  { pose proof Ef as (u & -> & Hu)%find_rule_wins. split.
    - intros [= <- <-]. by constructor.
    - destruct 1 as [|b Hb1 Hb2 Hb3|u' _ _ Hu'|t _ _ Hn _]; [congruence| | |].
      + destruct Ea. exists b. done.
      + assert (List.find (matches req) (sort_by_key (fun rule => - specificity rule)
          (from_config <$> rules r)) = Some (from_config u')) as Eu by (apply find_rule_wins; eauto).
        rewrite Ef in Eu. injection Eu as _ _ E. cbn. by rewrite E.
      + destruct Hu as (i & Hi & Hap & _). destruct (Hn u); [|done].
        apply list_elem_of_lookup. eauto. }
  pose proof (proj1 (find_rule_none r req) Ef) as Hnone. rewrite fmap_Some. split.
  - intros (t' & Ht' & [= -> ->]). by constructor.
  - destruct 1 as [|b Hb1 Hb2 Hb3|u' _ _ (i & Hi & Hap & _)|t _ _ _ Ht]; [congruence| | |eauto].
    + destruct Ea. exists b. done.
    + destruct (Hnone u'); [|done]. apply list_elem_of_lookup. eauto.
Qed.

Lemma decision_Ok s t o d :
  snapshot_decision s t o = Ok d <->
  snap_providers s !! target_provider t = Some (rd_provider d) /\
  rd_model d = target_model t /\ rd_origin d = o.
Proof.
  unfold snapshot_decision. rewrite result_bind_Ok. setoid_rewrite ok_or_Ok. split.
  - intros (rp & Hrp & [= <-]). done.
  - intros (Hrp & Hm & <-). exists (rd_provider d). split; [done|]. rewrite <- Hm. by destruct d.
Qed.

Lemma decision_Err s t o e :
  snapshot_decision s t o = Err e <->
  e = ProviderUnavailable /\ snap_providers s !! target_provider t = None.
Proof.
  unfold snapshot_decision. destruct (snap_providers s !! target_provider t); cbn; naive_solver.
Qed.

(** ** Claims *)

(** Building a snapshot succeeds exactly when the configuration is valid and
    every enabled instance has a resolved endpoint and, where its provider needs
    one, an enabled account; and it never panics, since the [expect]s on the
    catalog lookup are covered by the validation before them. *)
Theorem snapshot_build_total (c : ProviderCatalog) (p : ProviderConfig) (r : RoutingConfig) :
  ((exists s, build c p r = Ok s) <-> config_ok c p r /\ buildable c p) /\
  (forall msg, build c p r <> Err (Panicked msg)).
Proof.
  split.
  - split.
    + intros (s & (Hc & ps & m0 & Hps & _)%build_Ok). split; [done|].
      apply build_runtime_providers_total. eauto.
    + intros [Hc (ps & Hps)%build_runtime_providers_total].
      assert (runtime_spec c p ps) as Hspec
        by (apply build_runtime_providers_lookup; [apply Hc|done]).
      destruct (add_models_total c (btree_iter ps).*2 ∅) as [m0 Hm0].
      { intros rp Hin. eapply runtime_values_catalog; eauto. }
      exists (built_snapshot r ps m0). apply build_Ok. eauto 10.
  - intros msg. unfold build.
    destruct (validate_provider_configuration c p r) as [v|e] eqn:Hv; cbn; [|done].
    apply config_check_correct in Hv as [Hc _].
    destruct (build_runtime_providers c p) as [ps|e] eqn:Hps; cbn.
    + assert (runtime_spec c p ps) as Hspec
        by (apply build_runtime_providers_lookup; [apply Hc|done]).
      destruct (add_models_total c (btree_iter ps).*2 ∅) as [m0 Hm0].
      { intros rp Hin. eapply runtime_values_catalog; eauto. }
      unfold build_public_models. rewrite Hm0. done.
    + intros [= ->]. apply try_fold_Err in Hps as (m & i & [Hi _]%elem_of_enabled & He).
      eapply build_runtime_provider_no_panic; [|exact He].
      pose proof (ok_instances _ _ _ Hc) as Hok. rewrite list.Forall_forall in Hok.
      destruct (Hok i Hi) as (d & Hd & _). eauto.
Qed.

(** C19: a snapshot routes by the configuration's precedence: an explicitly named
    provider; else the alias with the requested model's name; else the most
    specific rule that applies, the earliest of equally specific ones; else the
    default.  The decision carries the target's model and the compiled form of
    the enabled instance with the target's id; [NoRoute] means nothing
    prescribes a target, [ProviderUnavailable] that the prescribed target's
    instance is not enabled. *)
Theorem snapshot_routes (c : ProviderCatalog) (p : ProviderConfig) (r : RoutingConfig)
    (s : RuntimeSnapshot) (req : RouteRequest) :
  build c p r = Ok s ->
  (forall d, route s req = Ok d <->
     exists t i, routes_to r req (rd_origin d) t /\ rd_model d = target_model t /\
       enabled_instance p i /\ pi_id i = target_provider t /\ compiled c p i (rd_provider d)) /\
  (route s req = Err NoRoute <-> forall o t, ~ routes_to r req o t) /\
  (route s req = Err ProviderUnavailable <->
     exists o t, routes_to r req o t /\
       forall i, enabled_instance p i -> pi_id i <> target_provider t).
Proof.
  intros Hb. destruct (build_spec _ _ _ _ Hb) as (Hc & Hspec & m0 & _ & Hs).
  assert (forall o t, pick s req = Some (o, t) <-> routes_to r req o t) as Hpick.
  { intros o t. rewrite Hs. apply pick_routes_to, (ok_shape _ _ _ Hc). }
  assert (buildable c p) as Hbuild.
  { apply build_runtime_providers_total. apply build_Ok in Hb as (_ & ps & _ & Hps & _). eauto. }
  rewrite route_pick. destruct (pick s req) as [[o t]|] eqn:Ep.
  - pose proof (proj1 (Hpick o t) eq_refl) as Ht. split_and!.
    + intros d. rewrite decision_Ok, (Hspec (target_provider t) (rd_provider d)). split.
      * intros ((i & Hi & Hid & Hcomp) & Hm & <-). exists t, i. done.
      * intros (t' & i & Ht'%Hpick & Hm & Hi & Hid & Hcomp). injection Ht' as <- <-.
        split_and!; [|done..]. eauto.
    + rewrite decision_Err. split; [intros [[=] _]|]. intros Hn. by destruct (Hn o t).
    + rewrite decision_Err. split.
      * intros [_ Hnone]. exists o, t. split; [done|]. intros i Hi Hid.
        destruct (Hbuild i Hi) as [rp Hrp].
        assert (snap_providers s !! target_provider t = Some rp) by (apply Hspec; eauto). congruence.
      * intros (o' & t' & Ht'%Hpick & Hn). injection Ht' as <- <-. split; [done|].
        destruct (snap_providers s !! target_provider t) as [rp|] eqn:E; [|done].
        apply Hspec in E as (i & Hi & Hid & _). by destruct (Hn i Hi).
  - assert (forall o t, ~ routes_to r req o t) as Hno.
    { intros o t Ht%Hpick. done. }
    split_and!; [|done|].
    + intros d. split; [intros [=]|]. intros (t & i & Ht & _). by apply Hno in Ht.
    + split; [intros [=]|]. intros (o & t & Ht & _). by apply Hno in Ht.
Qed.

Lemma models_map_ids c ps r m0 :
  try_fold (add_provider_models c) ∅ (btree_iter ps).*2 = Ok m0 ->
  pm_id <$> (btree_iter (models_map ps r m0)).*2 = (btree_iter (models_map ps r m0)).*1.
Proof.
  intros Hm0. rewrite <- list_fmap_compose. apply list_fmap_ext. intros i [k x] Hi. cbn.
  apply list_elem_of_lookup_2 in Hi. apply elem_of_btree_iter in Hi.
  apply (models_map_extends c) in Hi as (k' & rp & _ & ->); done.
Qed.

(** The public model list is sorted by id without repetition; it names
    exactly the models an enabled provider's catalog entry lists, the aliases,
    rule models and default model whose target is enabled; each entry's owner is
    an enabled provider with that provider's capabilities; and an alias is
    always owned by the provider it routes to, whatever else lists its name. *)
Theorem public_models_exact (c : ProviderCatalog) (p : ProviderConfig) (r : RoutingConfig)
    (s : RuntimeSnapshot) :
  build c p r = Ok s ->
  StronglySorted String.le (pm_id <$> snap_public_models s) /\
  NoDup (pm_id <$> snap_public_models s) /\
  (forall m, m ∈ pm_id <$> snap_public_models s <-> advertised c (snap_providers s) r m) /\
  (forall x, x ∈ snap_public_models s -> exists rp,
     snap_providers s !! pm_owned_by x = Some rp /\ pm_capabilities x = rp_capabilities rp) /\
  (forall a rp, a ∈ aliases r -> snap_providers s !! target_provider (alias_target a) = Some rp ->
     public_model (alias_name a) rp ∈ snap_public_models s).
Proof.
  intros Hb. destruct (build_spec _ _ _ _ Hb) as (Hc & Hspec & m0 & Hm0 & Hs).
  set (ps := snap_providers s) in *.
  assert (snap_public_models s = (btree_iter (models_map ps r m0)).*2) as -> by by rewrite Hs.
  destruct (models_map_extends c ps r m0 Hm0) as [Hdom Hent].
  rewrite (models_map_ids c) by done. split_and!.
  - pose proof (Sorted_btree_iter (models_map ps r m0)) as Hsort.
    induction Hsort as [|[k x] l _ IH Hall]; cbn; constructor; [done|].
    rewrite list.Forall_fmap. eapply Forall_impl; [|exact Hall]. done.
  - apply NoDup_fst_btree_iter.
  - intros m. rewrite <- Hdom, list_elem_of_fmap. split.
    + intros ([k x] & -> & Hin%elem_of_btree_iter). eauto.
    + intros [x Hx]. exists (m, x). split; [done|]. by apply elem_of_btree_iter.
  - intros x [k Hk]%elem_of_values. apply Hent in Hk as (k' & rp & Hrp & ->).
    exists rp. cbn. by rewrite (runtime_spec_id _ _ _ _ _ Hspec Hrp).
  - intros a rp Ha Hrp. apply elem_of_values. exists (alias_name a).
    apply alias_entry; [apply (ok_shape _ _ _ Hc)|done..].
Qed.

(** The effort a request asks for reaches an upstream only as a short string
    of lowercase letters, digits and dashes: on a decision of a snapshot built
    from a validated catalog, mapping an effort either fails or gives such a
    value, and it always fails for a provider without reasoning. *)
Theorem effort_values_safe (f : CatalogFile) (c : ProviderCatalog) (p : ProviderConfig)
    (r : RoutingConfig) (s : RuntimeSnapshot) (req : RouteRequest) (d : RouteDecision)
    (effort : string) :
  validate f = Ok c -> build c p r = Ok s -> route s req = Ok d ->
  (forall w, map_reasoning_effort d effort = Ok w -> is_safe_reasoning_value w = true) /\
  (cap_reasoning (rp_capabilities (rd_provider d)) = false ->
   map_reasoning_effort d effort = Err UnsupportedReasoningEffort).
Proof.
  intros [Hf ->]%validate_correct Hb Hr. split.
  2: { intros Hno. unfold map_reasoning_effort. by rewrite Hno. }
  destruct (build_spec _ _ _ _ Hb) as (Hc & Hspec & m0 & _ & _).
  rewrite route_pick in Hr. destruct (pick s req) as [[o t]|]; [|done].
  apply decision_Ok in Hr as (Hlook & _ & _).
  apply Hspec in Hlook as (i & Hi & _ & def & Hdef & _ & _ & Hrp).
  apply find_Some_elem in Hdef as [Hdef _]. cbn in Hdef.
  pose proof (co_providers _ Hf) as Hall. rewrite list.Forall_forall in Hall.
  destruct (po_reasoning _ _ (Hall def Hdef)) as [_ _ [_ Heff] Hmap].
  intros w (_ & Hw)%map_reasoning_effort_Ok. rewrite Hrp in Hw. cbn in Hw.
  destruct Hw as [Hw|(_ & -> & [[_ Hstd]|[_ Hin]])].
  - apply Hmap in Hw. apply Hw.
  - assert (Forall (fun e => is_safe_reasoning_value e = true) STANDARD_REASONING_EFFORTS) as Hst.
    { repeat constructor. }
    rewrite list.Forall_forall in Hst. auto.
  - rewrite list.Forall_forall in Heff. auto.
Qed.

(** One configuration update as the publisher sees it. *)
Definition update : Type := ProviderCatalog * ProviderConfig * RoutingConfig.

Definition apply_update (current : RuntimeSnapshot) (u : update) : RuntimeSnapshot :=
  (rebuild_and_publish u.1.1 u.1.2 u.2 current).1.

Definition update_builds (u : update) (s : RuntimeSnapshot) : Prop := build u.1.1 u.1.2 u.2 = Ok s.

(** After any sequence of updates the published snapshot is the one of the
    last update that built, or the initial one when none did: a rejected
    configuration never replaces or damages what is published. *)
Theorem publisher_keeps_last_good (initial : RuntimeSnapshot) (us : list update) :
  ((forall u s, u ∈ us -> ~ update_builds u s) /\ foldl apply_update initial us = initial) \/
  (exists before u after s, us = before ++ u :: after /\ update_builds u s /\
     (forall u' s', u' ∈ after -> ~ update_builds u' s') /\
     foldl apply_update initial us = s).
Proof.
  induction us as [|u us IH] using rev_ind; [left; split; [set_solver|done]|].
  rewrite foldl_app. cbn. unfold apply_update at 1 3, rebuild_and_publish, st_bind, st_lift.
  destruct (build u.1.1 u.1.2 u.2) as [s|e] eqn:Hu; cbn.
  - right. exists us, u, [], s. split_and!; [done|done|set_solver|done].
  - assert (forall s', ~ update_builds u s') as Hno by (unfold update_builds; congruence).
    destruct IH as [[Hn ->]|(before & v & after & s & -> & Hv & Hafter & ->)].
    + left. split; [|done]. intros v s [Hv| ->%list_elem_of_singleton]%elem_of_app; eauto.
    + right. exists before, v, (after ++ [u]), s. split_and!; [by rewrite <- app_assoc|done| |done].
      intros v' s' [Hv'| ->%list_elem_of_singleton]%elem_of_app; eauto.
Qed.
End Build.

(** ** Witnesses *)
Definition demo_config : ProviderConfig := mkProviderConfig
  [mkInstance "main" "openai" true None false;
   mkInstance "lab" "ollama" true (Some "http://192.168.1.9:8080"%string) true;
   mkInstance "spare" "openai" false None false]
  [mkAccount "work" "main" true (AuthApiKey "secret:1");
   mkAccount "home" "main" true (AuthApiKey "secret:2")].

Definition demo_routing : RoutingConfig := mkRouting
  [mkAlias "fast" (mkTarget "main" "gpt-5-mini")]
  [mkRule None (Some "llama"%string) (mkTarget "lab" "llama3");
   mkRule (Some "cli"%string) (Some "llama"%string) (mkTarget "main" "gpt-5");
   mkRule None (Some "gone"%string) (mkTarget "spare" "gpt-5")]
  None.

Definition demo_build : result BuildFailure RuntimeSnapshot :=
  @build demo_url_crate demo_catalog demo_config demo_routing.

Definition demo_snapshot : RuntimeSnapshot :=
  match demo_build with
  | Ok s => s
  | Err _ => mkSnapshot ∅ ∅ [] None []
  end.

Lemma demo_build_Ok : @build demo_url_crate demo_catalog demo_config demo_routing = Ok demo_snapshot.
Proof.
  assert (is_ok demo_build = true) as Hok by (vm_compute; reflexivity).
  unfold demo_snapshot. change (demo_build = Ok match demo_build with
    | Ok s => s | Err _ => mkSnapshot ∅ ∅ [] None [] end).
  destruct demo_build; [reflexivity|discriminate].
Qed.

Definition demo_request (client : option string) (model : string) : RouteRequest :=
  mkRouteRequest None model client.

Definition demo_routed (client : option string) (model : string) : option string :=
  match route demo_snapshot (demo_request client model) with
  | Ok d => Some (rp_id (rd_provider d))
  | Err _ => None
  end.

Example demo_routes :
  demo_routed None "fast" = Some "main"%string /\
  demo_routed None "llama" = Some "lab"%string /\
  demo_routed (Some "cli"%string) "llama" = Some "main"%string /\
  route demo_snapshot (demo_request None "gone") = Err ProviderUnavailable /\
  route demo_snapshot (demo_request None "other") = Err NoRoute.
Proof. vm_compute. done. Qed.

Lemma snapshot_routes_witness :
  route demo_snapshot (demo_request None "other") = Err NoRoute <->
  forall o t, ~ routes_to demo_routing (demo_request None "other") o t.
Proof.
  apply (@snapshot_routes demo_url_crate demo_catalog demo_config demo_routing demo_snapshot
    (demo_request None "other")). exact demo_build_Ok.
Defined.

Lemma public_models_exact_witness : NoDup (pm_id <$> snap_public_models demo_snapshot).
Proof.
  apply (@public_models_exact demo_url_crate demo_catalog demo_config demo_routing demo_snapshot).
  exact demo_build_Ok.
Defined.

Example demo_public_models :
  pm_id <$> snap_public_models demo_snapshot = ["fast"; "gpt-5"; "gpt-5-mini"; "llama"]%string.
Proof. vm_compute. reflexivity. Qed.

Definition demo_decision : RouteDecision :=
  match route demo_snapshot (demo_request None "fast") with
  | Ok d => d
  | Err _ => mkDecision (mkRouteProvider "" "" "" PublicOnly Google KindKey demo_capabilities [] [] ∅)
      "" OriginAlias
  end.

Lemma effort_values_safe_witness :
  map_reasoning_effort demo_decision "max" = Ok "high"%string /\
  is_safe_reasoning_value "high" = true.
Proof.
  split; [vm_compute; reflexivity|].
  apply (@effort_values_safe demo_url_crate demo_catalog_file demo_catalog demo_config demo_routing
    demo_snapshot (demo_request None "fast") demo_decision "max").
  - exact demo_catalog_validates.
  - exact demo_build_Ok.
  - vm_compute. reflexivity.
  - vm_compute. reflexivity.
Defined.
