(* ===== verification/Transport.v ===== *)
(** * Upstream transport

    Models [crates/wokcore-engine/src/transport.rs]: building a request through
    its allow-lists, the URL and address policy (the guarded DNS resolver
    included), checking a response head, and reading a body within its limit;
    and [crates/wokcore-engine/src/auth.rs], which turns an account's credential
    into the one sensitive header.

    The HTTP client, the resolver and the clock are outside: what they do at
    each [await] is an argument, the outcome of that [await].  [HeaderName] and
    [HeaderValue] are an interface of the [http] crate. *)
From S2P Require Import Prelude NetAddr Config Catalog.

Definition MAX_REQUEST_HEADERS : Z := 16.
Definition MAX_REQUEST_HEADER_BYTES : Z := 16 * 1024.
Definition DEFAULT_REQUEST_BODY_LIMIT : Z := 16 * 1024 * 1024.
Definition DEFAULT_RESPONSE_BODY_LIMIT : Z := 16 * 1024 * 1024.

Definition ORDINARY_REQUEST_HEADERS : list string :=
  ["accept"; "anthropic-beta"; "anthropic-version"; "content-type"; "openai-beta";
   "x-client-request-id"]%string.

Definition SENSITIVE_REQUEST_HEADERS : list string :=
  ["api-key"; "authorization"; "x-api-key"; "x-goog-api-key"]%string.

Definition OBSERVED_RESPONSE_HEADERS : list string :=
  ["apim-request-id"; "content-type"; "request-id"; "retry-after"; "x-goog-request-id";
   "x-request-id"]%string.

Inductive NetworkPolicy : Set := NetPublicOnly | NetPrivateAllowed | NetLoopbackOnly.

#[global] Instance NetworkPolicy_eq_dec : EqDecision NetworkPolicy.
Proof. solve_decision. Defined.

(** Durations in nanoseconds. *)
Record TransportTimeouts : Set := mkTimeouts {
  connect : Z;
  response_headers : Z;
  idle_stream : Z;
  non_stream_total : Z
}.

Record TransportLimits : Set := mkLimits {
  max_request_body_bytes : Z;
  max_response_body_bytes : Z;
  max_response_headers : Z;
  max_response_header_bytes : Z
}.

Definition TransportTimeouts_default : TransportTimeouts :=
  mkTimeouts 10000000000 30000000000 60000000000 120000000000.

Definition TransportLimits_default : TransportLimits :=
  mkLimits (16 * 1024 * 1024) (16 * 1024 * 1024) 128 (64 * 1024).

Inductive TransportErrorKind : Set :=
| ErrInvalidRequest | ErrPolicy | ErrCancelled | ErrConnectTimeout | ErrHeaderTimeout
| ErrIdleTimeout | ErrTotalTimeout | ErrResponseTooLarge | ErrInvalidResponse | ErrTransport.

#[global] Instance TransportErrorKind_eq_dec : EqDecision TransportErrorKind.
Proof. solve_decision. Defined.

Inductive TransportBuildError : Set := mkTransportBuildError.

Definition validate_configuration (timeouts : TransportTimeouts) (limits : TransportLimits)
  : result TransportBuildError unit :=
  guard_err
    ((connect timeouts =? 0) || (response_headers timeouts =? 0) || (idle_stream timeouts =? 0)
     || (non_stream_total timeouts =? 0) || (max_request_body_bytes limits =? 0)
     || (max_response_body_bytes limits =? 0) || (max_response_headers limits =? 0)
     || (max_response_header_bytes limits =? 0)) mkTransportBuildError.

(** A body is its bytes or a stream with a declared length. *)
Inductive TransportRequestBody : Type :=
| BodyBytes (body : list Z)
| BodyStream (content_length : Z).

Definition body_len (b : TransportRequestBody) : Z :=
  match b with
  | BodyBytes body => zlen body
  | BodyStream content_length => content_length
  end.

Record SensitiveHeader : Set := mkSensitive { sensitive_name : string; sensitive_value : string }.

(** ** The [http] crate *)
Class HttpCrate : Type := {
  header_name_valid : string -> bool;
  header_value_valid : string -> bool;
  header_to_str : list Z -> option string
}.

(** ** Address policy of the resolver *)
Definition address_allowed (address : IpAddr) (policy : NetworkPolicy) : bool :=
  match policy with
  | NetPublicOnly => ip_is_public address
  | NetPrivateAllowed => ip_is_connectable address
  | NetLoopbackOnly => ip_is_loopback address
  end.

(** [GuardedDnsResolver::resolve] on the outcome of [lookup_host]: [None] is its
    error. *)
Definition guarded_resolve (policy : NetworkPolicy) (lookup : option (list IpAddr))
  : option (list IpAddr) :=
  match lookup with
  | None => None
  | Some addresses =>
      if is_emptyb addresses
         || existsb (fun address => negb (address_allowed address policy)) addresses
      then None
      else Some addresses
  end.

(** ** Reading a response *)
Record ReqwestError : Set := mkReqwestError { is_timeout : bool; is_connect : bool }.

Definition map_reqwest_error (error : ReqwestError) : TransportErrorKind :=
  if is_timeout error && is_connect error then ErrConnectTimeout
  else if is_timeout error then ErrHeaderTimeout
  else ErrTransport.

(** What one [select!] around [response.chunk()] yields: the biased
    cancellation branch, the timeout, the client's error, the end of the body
    or a chunk. *)
Inductive ReadOutcome : Type :=
| ReadCancelled
| ReadTimedOut
| ReadFailed (error : ReqwestError)
| ReadEnd
| ReadChunk (chunk : list Z).

(** [None]: still waiting after these outcomes. *)
Fixpoint read_complete_body (maximum_body_bytes : Z) (body : list Z) (reads : list ReadOutcome)
  : option (result TransportErrorKind (list Z)) :=
  match reads with
  | [] => None
  | ReadCancelled :: _ => Some (Err ErrCancelled)
  | ReadTimedOut :: _ => Some (Err ErrTotalTimeout)
  | ReadFailed error :: _ => Some (Err (map_reqwest_error error))
  | ReadEnd :: _ => Some (Ok body)
  | ReadChunk chunk :: reads =>
      if maximum_body_bytes <? sat_add64 (zlen body) (zlen chunk)
      then Some (Err ErrResponseTooLarge)
      else read_complete_body maximum_body_bytes (body ++ chunk) reads
  end.

Record Response : Type := mkResponse {
  resp_status : Z;
  resp_headers : list (string * list Z);
  resp_content_length : option Z
}.

Record TransportResponseHead : Type := mkHead {
  head_status : Z;
  head_headers : gmap string string
}.

Definition TransportResponseHead_header (head : TransportResponseHead) (name : string)
  : option string := head_headers head !! to_ascii_lowercase name.

Record StreamingTransportResponse : Type := mkStreaming {
  stream_head : TransportResponseHead;
  stream_open : bool;
  received_bytes : Z;
  maximum_body_bytes : Z
}.

Definition stream_close (s : StreamingTransportResponse) : StreamingTransportResponse :=
  mkStreaming (stream_head s) false (received_bytes s) (maximum_body_bytes s).

Definition is_closed (s : StreamingTransportResponse) : bool := negb (stream_open s).

(** [next_chunk], given what its [select!] yields. *)
Definition next_chunk (read : ReadOutcome)
  : st_res StreamingTransportResponse TransportErrorKind (option (list Z)) := fun s =>
  if negb (stream_open s) then (s, Err ErrInvalidResponse)
  else match read with
       | ReadCancelled => (stream_close s, Err ErrCancelled)
       | ReadTimedOut => (stream_close s, Err ErrIdleTimeout)
       | ReadFailed error => (stream_close s, Err (map_reqwest_error error))
       | ReadEnd => (stream_close s, Ok None)
       | ReadChunk chunk =>
           let received := sat_add64 (received_bytes s) (zlen chunk) in
           let s := mkStreaming (stream_head s) true received (maximum_body_bytes s) in
           if maximum_body_bytes s <? received
           then (stream_close s, Err ErrResponseTooLarge)
           else (s, Ok (Some chunk))
       end.

Inductive TransportResponse : Type :=
| Complete (head : TransportResponseHead) (body : list Z)
| Streaming (response : StreamingTransportResponse).

Section Transport.
Context `{UrlCrate} `{HttpCrate}.

Record TransportRequest : Type := mkTransportRequest {
  tr_url : Url;
  tr_headers : gmap string string;
  tr_sensitive_header : option SensitiveHeader;
  tr_body : TransportRequestBody;
  tr_stream : bool;
  tr_network_policy : NetworkPolicy;
  tr_max_request_body_bytes : Z;
  tr_max_response_body_bytes : Z
}.

Definition TransportRequest_post (url : Url) (body : list Z) (stream : bool) (policy : NetworkPolicy)
  : TransportRequest :=
  mkTransportRequest url ∅ None (BodyBytes body) stream policy DEFAULT_REQUEST_BODY_LIMIT
    DEFAULT_RESPONSE_BODY_LIMIT.

Definition TransportRequest_post_stream (url : Url) (content_length : Z) (stream_response : bool)
  (policy : NetworkPolicy) : result TransportErrorKind TransportRequest :=
  check? guard_err (content_length =? 0) ErrInvalidRequest;
  Ok (mkTransportRequest url ∅ None (BodyStream content_length) stream_response policy
        content_length DEFAULT_RESPONSE_BODY_LIMIT).

Definition with_body_limits (r : TransportRequest) (max_request max_response : Z)
  : result TransportErrorKind TransportRequest :=
  check? guard_err ((max_request =? 0) || (max_response =? 0)) ErrInvalidRequest;
  Ok (mkTransportRequest (tr_url r) (tr_headers r) (tr_sensitive_header r) (tr_body r)
        (tr_stream r) (tr_network_policy r) max_request max_response).

Definition parse_allowed_name (name : string) (allowed : list string)
  : result TransportErrorKind string :=
  let name := to_ascii_lowercase name in
  check? guard_err (negb (bool_decide (name ∈ allowed))) ErrInvalidRequest;
  check? guard_err (negb (header_name_valid name)) ErrInvalidRequest;
  Ok name.

Definition header_bytes (name value : string) : Z := sat_add64 (str_len name) (str_len value).

Definition with_header (r : TransportRequest) (name value : string)
  : result TransportErrorKind TransportRequest :=
  let? name := parse_allowed_name name ORDINARY_REQUEST_HEADERS in
  check? guard_err
    ((MAX_REQUEST_HEADERS <=? Z.of_nat (size (tr_headers r)))
     || is_someb (tr_headers r !! name)
     || (MAX_REQUEST_HEADER_BYTES <? header_bytes name value)) ErrInvalidRequest;
  check? guard_err (negb (header_value_valid value)) ErrInvalidRequest;
  Ok (mkTransportRequest (tr_url r) (<[name := value]> (tr_headers r)) (tr_sensitive_header r)
        (tr_body r) (tr_stream r) (tr_network_policy r) (tr_max_request_body_bytes r)
        (tr_max_response_body_bytes r)).

Definition with_sensitive_header (r : TransportRequest) (name value : string)
  : result TransportErrorKind TransportRequest :=
  let? name := parse_allowed_name name SENSITIVE_REQUEST_HEADERS in
  check? guard_err
    (is_someb (tr_sensitive_header r) || str_is_empty value
     || (MAX_REQUEST_HEADER_BYTES <? header_bytes name value)
     || negb (header_value_valid value)) ErrInvalidRequest;
  Ok (mkTransportRequest (tr_url r) (tr_headers r) (Some (mkSensitive name value)) (tr_body r)
        (tr_stream r) (tr_network_policy r) (tr_max_request_body_bytes r)
        (tr_max_response_body_bytes r)).

Definition validate_url_policy (url : Url) (policy : NetworkPolicy)
  : result TransportErrorKind unit :=
  match url_host url with
  | None => Err ErrInvalidRequest
  | Some host =>
      match policy with
      | NetPublicOnly =>
          guard_err (negb (bool_decide (url_scheme url = "https"%string))
                     || negb (host_is_public host)) ErrPolicy
      | NetPrivateAllowed =>
          guard_err (negb (scheme_is_http_or_https (url_scheme url))
                     || negb (host_is_connectable host)) ErrPolicy
      | NetLoopbackOnly =>
          guard_err (negb (scheme_is_http_or_https (url_scheme url))
                     || negb (host_is_loopback host)) ErrPolicy
      end
  end.

Definition validate_request (request : TransportRequest) (limits : TransportLimits)
  : result TransportErrorKind unit :=
  check? guard_err
    ((Z.min (max_request_body_bytes limits) (tr_max_request_body_bytes request)
        <? body_len (tr_body request))
     || (MAX_REQUEST_HEADERS <? Z.of_nat (size (tr_headers request)))
     || is_someb (tr_headers request !! "accept-encoding"%string)
     || negb (str_is_empty (url_username (tr_url request)))
     || is_someb (url_password (tr_url request))
     || is_someb (url_fragment (tr_url request))
     || bool_decide (url_port (tr_url request) = Some 0)) ErrInvalidRequest;
  validate_url_policy (tr_url request) (tr_network_policy request).

(** ** Response head *)
Definition header_values (response : Response) (name : string) : list (list Z) :=
  (List.filter (fun h => bool_decide (h.1 = name)) (resp_headers response)).*2.

Definition observe_header (response : Response) (observed : gmap string string) (name : string)
  : gmap string string :=
  match header_values response name with
  | value :: _ =>
      match header_to_str value with
      | Some value => <[name := value]> observed
      | None => observed
      end
  | [] => observed
  end.

Definition encoding_rejected (response : Response) : bool :=
  match header_values response "content-encoding" with
  | [] => false
  | encoding :: rest =>
      negb (is_emptyb rest)
      || negb (is_some_and (fun value => eq_ignore_ascii_case value "identity")
                 (header_to_str encoding))
  end.

Definition total_header_bytes (response : Response) : Z :=
  foldl (fun total h => sat_add64 (sat_add64 total (str_len h.1)) (zlen h.2)) 0
    (resp_headers response).

Definition validate_response_head (response : Response) (limits : TransportLimits)
  : result TransportErrorKind TransportResponseHead :=
  check? guard_err (max_response_headers limits <? zlen (resp_headers response)) ErrInvalidResponse;
  check? guard_err (max_response_header_bytes limits <? total_header_bytes response)
    ErrInvalidResponse;
  check? guard_err (encoding_rejected response) ErrInvalidResponse;
  check? guard_err
    (is_some_and (fun length => max_response_body_bytes limits <? length)
       (resp_content_length response)) ErrResponseTooLarge;
  Ok (mkHead (resp_status response)
        (foldl (observe_header response) ∅ OBSERVED_RESPONSE_HEADERS)).

(** ** Executing a request *)

(** The request on the wire: URL, ordinary headers with the two the transport
    adds, and the sensitive header. *)
Record WireRequest : Type := mkWire {
  wire_url : Url;
  wire_policy : NetworkPolicy;
  wire_headers : gmap string string;
  wire_content_length : Z;
  wire_sensitive : option SensitiveHeader
}.

Inductive SendOutcome : Type :=
| SendCancelled
| SendTimedOut
| SendFailed (error : ReqwestError)
| SendResponse (response : Response).

(** The response half of [execute], once the client has answered. *)
Definition receive_response (limits : TransportLimits) (request : TransportRequest)
  (send : SendOutcome) (reads : list ReadOutcome)
  : option (result TransportErrorKind TransportResponse) :=
  let response_body_limit :=
    Z.min (max_response_body_bytes limits) (tr_max_response_body_bytes request) in
  match send with
  | SendCancelled => Some (Err ErrCancelled)
  | SendTimedOut => Some (Err ErrHeaderTimeout)
  | SendFailed error => Some (Err (map_reqwest_error error))
  | SendResponse response =>
      match validate_response_head response limits with
      | Err e => Some (Err e)
      | Ok head =>
          if tr_stream request
          then Some (Ok (Streaming (mkStreaming head true 0 response_body_limit)))
          else match read_complete_body response_body_limit [] reads with
               | None => None
               | Some (Err e) => Some (Err e)
               | Some (Ok body) => Some (Ok (Complete head body))
               end
      end
  end.

Definition wire_request (request : TransportRequest) : WireRequest :=
  mkWire (tr_url request) (tr_network_policy request)
    (<["accept-encoding"%string := "identity"%string]> (tr_headers request))
    (body_len (tr_body request)) (tr_sensitive_header request).

(** [execute]: the request that is sent, if one is, and the result ([None] while
    the body is still arriving). *)
Definition execute_request (limits : TransportLimits) (request : TransportRequest)
  (is_cancelled : bool) (send : SendOutcome) (reads : list ReadOutcome)
  : option WireRequest * option (result TransportErrorKind TransportResponse) :=
  match validate_request request limits with
  | Err e => (None, Some (Err e))
  | Ok _ =>
      if is_cancelled then (None, Some (Err ErrCancelled))
      else if is_some_and (fun sensitive => negb (header_value_valid (sensitive_value sensitive)))
                (tr_sensitive_header request)
      then (None, Some (Err ErrInvalidRequest))
      else (Some (wire_request request), receive_response limits request send reads)
  end.
End Transport.

(** ** Outbound credentials: [auth.rs] *)
Inductive SecretResolutionError : Set := mkSecretResolutionError.

Record ResolvedAuthorization : Set := mkAuthorization { header_name : string; header_value : string }.

Definition api_key_header (adapter : AdapterFamily) : string * bool :=
  match adapter with
  | Anthropic => ("x-api-key"%string, false)
  | Google => ("x-goog-api-key"%string, false)
  | AzureOpenAi => ("api-key"%string, false)
  | OpenAiResponses | OpenAiChat | Cursor | Kiro | MimoFree => ("authorization"%string, true)
  end.

(** The secret, the header it goes into and whether it is a bearer token;
    [None] for an account without credentials. *)
Definition auth_header (auth : AccountAuthConfig) (adapter : AdapterFamily)
  : option (string * string * bool) :=
  match auth with
  | AuthForward credential => Some (credential, "authorization"%string, false)
  | AuthOauth access _ => Some (access, "authorization"%string, true)
  | AuthApiKey secret => let '(name, bearer) := api_key_header adapter in Some (secret, name, bearer)
  | AuthLocal => None
  end.

Definition resolve_outbound_auth (auth : AccountAuthConfig) (adapter : AdapterFamily)
  (resolve : string -> result SecretResolutionError string)
  : result SecretResolutionError (option ResolvedAuthorization) :=
  match auth_header auth adapter with
  | None => Ok None
  | Some (secret_ref, name, bearer) =>
      let? secret := resolve secret_ref in
      check? guard_err (str_is_empty secret) mkSecretResolutionError;
      Ok (Some (mkAuthorization name (if bearer then ("Bearer " +:+ secret)%string else secret)))
  end.
