(* ===== verification/TransportSpec.v ===== *)
(** * What the transport guarantees

    Which addresses a request can reach, what a request can carry, how much of a
    response is read, and how the transport's policy fits what the
    configuration accepts. *)
From S2P Require Import Prelude NetAddr Config Catalog CatalogSpec EngineConfig Routing.
From S2P Require Import Snapshot SnapshotSpec Transport.

(** [network_policy] of [apps/wokcore/src/runtime.rs]. *)
Definition network_policy (access : EndpointAccess) : NetworkPolicy :=
  match access with
  | PublicOnly => NetPublicOnly
  | PrivateAllowed => NetPrivateAllowed
  | LoopbackOnly => NetLoopbackOnly
  end.

(** ** Bodies *)
Lemma read_body_Ok max body reads out :
  0 <= max < u64_max -> zlen body <= max ->
  read_complete_body max body reads = Some (Ok out) <->
  exists chunks rest, reads = (ReadChunk <$> chunks) ++ ReadEnd :: rest /\
    out = body ++ concat chunks /\ zlen out <= max.
Proof.
  intros Hmax. revert body. induction reads as [|rd reads IH]; intros body Hbody.
  - cbn. split; [done|]. intros ([|? ?] & rest & [=] & _).
  - destruct rd as [| |e| |c]; cbn [read_complete_body].
    1-3: split; [intros [=]|intros ([|? ?] & rest & [=] & _)].
    + split.
      * intros [= <-]. exists [], reads. rewrite app_nil_r. done.
      * intros ([|? ?] & rest & [=] & -> & _). by rewrite app_nil_r.
    + pose proof (zlen_nonneg body). pose proof (zlen_nonneg c).
      destruct (Z.ltb_spec max (sat_add64 (zlen body) (zlen c))) as [Hgt|Hle].
      * split; [intros [=]|]. intros ([|c' chunks] & rest & [=] & -> & Hlen). subst c'.
        cbn in Hlen. rewrite !zlen_app in Hlen. pose proof (zlen_nonneg (concat chunks)).
        unfold sat_add64 in Hgt. lia.
      * rewrite IH by (rewrite zlen_app; unfold sat_add64 in Hle; lia). split.
        -- intros (chunks & rest & -> & -> & Hlen). exists (c :: chunks), rest. cbn.
           rewrite <- app_assoc in Hlen |- *. done.
        -- intros ([|c' chunks] & rest & [=] & -> & Hlen). subst. exists chunks, rest.
           cbn in Hlen |- *. rewrite app_assoc in Hlen |- *. done.
Qed.

(** ** Streams *)

(** Successive [next_chunk] calls. *)
Fixpoint stream_run (s : StreamingTransportResponse) (reads : list ReadOutcome)
  : StreamingTransportResponse * list (result TransportErrorKind (option (list Z))) :=
  match reads with
  | [] => (s, [])
  | rd :: reads =>
      let '(s, r) := next_chunk rd s in
      let '(s, rs) := stream_run s reads in (s, r :: rs)
  end.

(** The chunks handed to the caller. *)
Definition delivered (rs : list (result TransportErrorKind (option (list Z)))) : list (list Z) :=
  omap (fun r => match r with Ok (Some c) => Some c | _ => None end) rs.

Lemma stream_run_closed s reads :
  stream_open s = false ->
  stream_run s reads = (s, replicate (length reads) (Err ErrInvalidResponse)).
Proof.
  intros Hs. induction reads as [|rd reads IH]; [done|]. cbn. unfold next_chunk. rewrite Hs. cbn.
  by rewrite IH.
Qed.

Lemma delivered_end last n :
  (last = Ok None \/ exists e, last = Err e) ->
  delivered (last :: replicate n (Err ErrInvalidResponse)) = [].
Proof.
  unfold delivered. intros Hlast.
  assert (omap (fun r : result TransportErrorKind (option (list Z)) =>
    match r with Ok (Some c) => Some c | _ => None end) (replicate n (Err ErrInvalidResponse)) = [])
    as Hn by (induction n; [done|cbn; auto]).
  destruct Hlast as [->|[e ->]]; exact Hn.
Qed.

(** What a run of an open stream looks like: chunks, then at most one other
    result, then only errors on the closed stream. *)
Definition stream_shape (rs : list (result TransportErrorKind (option (list Z)))) : Prop :=
  (exists chunks, rs = Ok ∘ Some <$> chunks) \/
  exists chunks last n, rs = (Ok ∘ Some <$> chunks) ++ last :: replicate n (Err ErrInvalidResponse) /\
    (last = Ok None \/ exists e, last = Err e).

Lemma stream_run_spec s reads :
  stream_open s = true -> 0 <= received_bytes s <= maximum_body_bytes s ->
  maximum_body_bytes s < u64_max ->
  let rs := (stream_run s reads).2 in
  stream_shape rs /\ received_bytes s + zlen (concat (delivered rs)) <= maximum_body_bytes s.
Proof.
  revert s. induction reads as [|rd reads IH]; intros s Hopen Hrec Hmax; cbn.
  { split; [left; by exists []|]. unfold zlen. cbn. lia. }
  assert (forall s' last, stream_open s' = false -> (last = Ok None \/ exists e, last = Err e) ->
    let rs := (let '(s2, rs) := stream_run s' reads in (s2, last :: rs)).2 in
    stream_shape rs /\ received_bytes s + zlen (concat (delivered rs)) <= maximum_body_bytes s)
    as Hend.
  { intros s' last Hs' Hlast. rewrite stream_run_closed by done. cbv zeta. cbn [snd]. split.
    - right. exists [], last, (length reads). done.
    - rewrite delivered_end by done. unfold zlen. cbn. lia. }
  unfold next_chunk. rewrite Hopen. cbn [negb].
  destruct rd as [| |e| |c].
  1-4: apply Hend; [done|]; eauto.
  cbn [maximum_body_bytes]. pose proof (zlen_nonneg c) as Hc.
  destruct (Z.ltb_spec (maximum_body_bytes s) (sat_add64 (received_bytes s) (zlen c))) as [Hgt|Hle].
  { apply Hend; [done|]. eauto. }
  set (s1 := mkStreaming _ _ _ _).
  assert (received_bytes s1 = received_bytes s + zlen c) as Hrec1.
  { cbn. unfold sat_add64 in *. lia. }
  destruct (IH s1) as [Hshape Hsum]; [done| |done|].
  { rewrite Hrec1. cbn. unfold sat_add64 in Hle. lia. }
  destruct (stream_run s1 reads) as [s2 rs]. cbn [snd] in Hshape, Hsum |- *. cbv zeta. split.
  - destruct Hshape as [[chunks ->]|(chunks & last & n & -> & Hlast)].
    + left. by exists (c :: chunks).
    + right. by exists (c :: chunks), last, n.
  - change (delivered (Ok (Some c) :: rs)) with (c :: delivered rs). cbn [concat].
    rewrite zlen_app. rewrite Hrec1 in Hsum. cbn [maximum_body_bytes s1] in Hsum. lia.
Qed.

Section Spec.
Context `{UrlCrate} `{HttpCrate}.

(** ** Requests *)

(** The requests the builder methods can produce. *)
Inductive built : TransportRequest -> Prop :=
| built_post url body stream policy : built (TransportRequest_post url body stream policy)
| built_post_stream url n stream policy r :
    TransportRequest_post_stream url n stream policy = Ok r -> built r
| built_limits r a b r' : built r -> with_body_limits r a b = Ok r' -> built r'
| built_header r name value r' : built r -> with_header r name value = Ok r' -> built r'
| built_sensitive r name value r' : built r -> with_sensitive_header r name value = Ok r' -> built r'.

(** What a built request can carry. *)
Record request_inv (r : TransportRequest) : Prop := {
  ri_names : forall name value, tr_headers r !! name = Some value ->
    name ∈ ORDINARY_REQUEST_HEADERS /\ header_value_valid value = true;
  ri_sensitive : forall h, tr_sensitive_header r = Some h ->
    sensitive_name h ∈ SENSITIVE_REQUEST_HEADERS /\ sensitive_value h <> ""%string /\
    header_value_valid (sensitive_value h) = true
}.

Lemma parse_allowed_name_Ok name allowed n :
  parse_allowed_name name allowed = Ok n <->
  n = to_ascii_lowercase name /\ n ∈ allowed /\ header_name_valid n = true.
Proof.
  unfold parse_allowed_name.
  rewrite !check_Ok, !guard_err_Ok, !negb_false_iff, bool_decide_eq_true. naive_solver.
Qed.

Lemma with_header_inv r name value r' :
  request_inv r -> with_header r name value = Ok r' -> request_inv r'.
Proof.
  intros [Hn Hs]. unfold with_header. rewrite result_bind_Ok.
  intros (n & (-> & Hin & _)%parse_allowed_name_Ok & Hk).
  rewrite !check_Ok, !guard_err_Ok, negb_false_iff in Hk. destruct Hk as (_ & Hv & [= <-]).
  split; [|done]. cbn. intros k v [[<- <-]|[_ Hk]]%lookup_insert_Some; [done|eauto].
Qed.

Lemma with_sensitive_inv r name value r' :
  request_inv r -> with_sensitive_header r name value = Ok r' -> request_inv r'.
Proof.
  intros [Hn Hs]. unfold with_sensitive_header. rewrite result_bind_Ok.
  intros (n & (-> & Hin & _)%parse_allowed_name_Ok & Hk).
  rewrite check_Ok, guard_err_Ok, !orb_false_iff, negb_false_iff, str_is_empty_false in Hk.
  destruct Hk as [Hk [= <-]].
  split; [done|]. cbn [tr_sensitive_header]. intros h [= <-].
  cbn [sensitive_name sensitive_value]. tauto.
Qed.

Lemma built_inv r : built r -> request_inv r.
Proof.
  induction 1 as [url body stream policy|url n stream policy r Hr|r a b r' _ IH Hr|
    r name value r' _ IH Hr|r name value r' _ IH Hr].
  - split; cbn; [|done]. intros k v Hk. by rewrite lookup_empty in Hk.
  - unfold TransportRequest_post_stream in Hr. apply check_Ok in Hr as [_ [= <-]].
    split; cbn; [|done]. intros k v Hk. by rewrite lookup_empty in Hk.
  - unfold with_body_limits in Hr. apply check_Ok in Hr as [_ [= <-]].
    destruct IH as [Hn Hs]. split; done.
  - by eapply with_header_inv.
  - by eapply with_sensitive_inv.
Qed.

Lemma ordinary_not_sensitive name :
  name ∈ ORDINARY_REQUEST_HEADERS -> name ∉ SENSITIVE_REQUEST_HEADERS.
Proof.
  assert (Forall (fun n => n ∉ SENSITIVE_REQUEST_HEADERS) ORDINARY_REQUEST_HEADERS) as Hall.
  { apply (bool_decide_unpack _). vm_compute. exact I. }
  rewrite list.Forall_forall in Hall. apply Hall.
Qed.

Lemma execute_sends limits r cancelled send reads w res :
  execute_request limits r cancelled send reads = (Some w, res) ->
  validate_request r limits = Ok tt /\ cancelled = false /\ w = wire_request r /\
  res = receive_response limits r send reads.
Proof.
  unfold execute_request. destruct (validate_request r limits) as [[]|]; [|done].
  destruct cancelled; [done|]. case_match; [done|]. intros [= <- <-]. done.
Qed.

Lemma validate_request_Ok r limits :
  validate_request r limits = Ok tt <->
  body_len (tr_body r) <= Z.min (max_request_body_bytes limits) (tr_max_request_body_bytes r) /\
  Z.of_nat (size (tr_headers r)) <= MAX_REQUEST_HEADERS /\
  tr_headers r !! "accept-encoding"%string = None /\
  url_username (tr_url r) = ""%string /\ url_password (tr_url r) = None /\
  url_fragment (tr_url r) = None /\ url_port (tr_url r) <> Some 0 /\
  validate_url_policy (tr_url r) (tr_network_policy r) = Ok tt.
Proof.
  unfold validate_request.
  rewrite check_Ok, guard_err_Ok, !orb_false_iff, !Z.ltb_ge, !is_someb_false, negb_false_iff,
    str_is_empty_true, bool_decide_eq_false. tauto.
Qed.

(** An address a request to [url] under [policy] can connect to: the literal
    host, or one the guarded resolver returns for the domain. *)
Definition reaches (url : Url) (policy : NetworkPolicy)
  (lookup : string -> option (list IpAddr)) (a : IpAddr) : Prop :=
  match url_host url with
  | Some (HostIpv4 x) => a = V4 x
  | Some (HostIpv6 x) => a = V6 x
  | Some (Domain d) => exists addrs, guarded_resolve policy (lookup d) = Some addrs /\ a ∈ addrs
  | None => False
  end.

Lemma guarded_resolve_Some policy lookup addrs a :
  guarded_resolve policy lookup = Some addrs -> a ∈ addrs -> address_allowed a policy = true.
Proof.
  unfold guarded_resolve. destruct lookup as [l|]; [|done].
  destruct (is_emptyb l || _) eqn:E; [done|]. intros [= ->] Ha.
  apply orb_false_iff in E as [_ E].
  apply not_true_iff_false in E. rewrite existsb_exists in E.
  destruct (address_allowed a policy) eqn:Ea; [done|]. destruct E. exists a.
  rewrite Ea. split; [by apply list_elem_of_In|done].
Qed.

Lemma url_policy_host url policy :
  validate_url_policy url policy = Ok tt ->
  exists host, url_host url = Some host /\
    match policy with
    | NetPublicOnly => url_scheme url = "https"%string /\ host_is_public host = true
    | NetPrivateAllowed => scheme_is_http_or_https (url_scheme url) = true /\ host_is_connectable host = true
    | NetLoopbackOnly => scheme_is_http_or_https (url_scheme url) = true /\ host_is_loopback host = true
    end.
Proof.
  unfold validate_url_policy. destruct (url_host url) as [host|]; [|done].
  destruct policy; rewrite guard_err_Ok, orb_false_iff, !negb_false_iff, ?bool_decide_eq_true; eauto.
Qed.

Lemma reached_allowed url policy lookup a :
  validate_url_policy url policy = Ok tt -> reaches url policy lookup a ->
  address_allowed a policy = true.
Proof.
  intros (host & Hh & Hpol)%url_policy_host. unfold reaches. rewrite Hh.
  destruct host as [d|x|x].
  - intros (addrs & Hg & Ha). by eapply guarded_resolve_Some.
  - intros ->. destruct policy; cbn in *; tauto.
  - intros ->. destruct policy; cbn in *; tauto.
Qed.

(** ** Claims *)

(** C24: a request that is sent reaches only addresses its network policy allows,
    whether its host is a literal address or a name, and whatever the name
    resolves to: a public-only request is https and reaches no address the
    configuration check would call private; a loopback-only one stays on
    loopback; a private-allowed one reaches no unspecified or multicast
    address. *)
Theorem network_policy_enforced (limits : TransportLimits) (r : TransportRequest)
    (cancelled : bool) (send : SendOutcome) (reads : list ReadOutcome) (w : WireRequest)
    (res : option (result TransportErrorKind TransportResponse))
    (lookup : string -> option (list IpAddr)) (a : IpAddr) :
  execute_request limits r cancelled send reads = (Some w, res) ->
  reaches (wire_url w) (wire_policy w) lookup a -> ip_wf a ->
  match wire_policy w with
  | NetPublicOnly =>
      url_scheme (wire_url w) = "https"%string /\ ip_is_public a = true /\ is_private_ip a = false
  | NetPrivateAllowed => ip_is_connectable a = true
  | NetLoopbackOnly => ip_is_loopback a = true
  end.
Proof.
  intros (Hv%validate_request_Ok & _ & -> & _)%execute_sends. cbn [wire_url wire_policy wire_request].
  destruct Hv as (_ & _ & _ & _ & _ & _ & _ & Hpol). intros Hr Hwf.
  pose proof (reached_allowed _ _ _ _ Hpol Hr) as Ha.
  apply url_policy_host in Hpol as (host & _ & Hhost).
  destruct (tr_network_policy r); cbn in Ha; [|done..]. destruct Hhost as [Hs _].
  auto using ip_public_not_private.
Qed.

(** What a sent request can carry: it came through the builder's allow-lists,
    so its ordinary headers are on the ordinary list, identity encoding aside,
    and none is a credential header; at most one credential header is sent, from
    the sensitive list and with a non-empty value; and the body is within both
    the transport's and the request's limit. *)
Theorem request_headers_confined (limits : TransportLimits) (r : TransportRequest)
    (cancelled : bool) (send : SendOutcome) (reads : list ReadOutcome) (w : WireRequest)
    (res : option (result TransportErrorKind TransportResponse)) :
  built r -> execute_request limits r cancelled send reads = (Some w, res) ->
  wire_headers w !! "accept-encoding"%string = Some "identity"%string /\
  (forall name value, wire_headers w !! name = Some value -> name <> "accept-encoding"%string ->
     name ∈ ORDINARY_REQUEST_HEADERS /\ name ∉ SENSITIVE_REQUEST_HEADERS /\
     header_value_valid value = true) /\
  (forall h, wire_sensitive w = Some h ->
     sensitive_name h ∈ SENSITIVE_REQUEST_HEADERS /\ sensitive_value h <> ""%string) /\
  wire_content_length w <= Z.min (max_request_body_bytes limits) (tr_max_request_body_bytes r).
Proof.
  intros [Hn Hs]%built_inv (Hv%validate_request_Ok & _ & -> & _)%execute_sends. cbn. split_and!.
  - apply lookup_insert_eq.
  - intros name value [[<- _]|[_ Hl]]%lookup_insert_Some Hne; [done|].
    destruct (Hn name value Hl). auto using ordinary_not_sensitive.
  - intros h Hh. destruct (Hs h Hh) as (? & ? & _). done.
  - apply Hv.
Qed.

(** A complete response body is exactly the concatenation of the chunks up
    to the end of the response, delivered if and only if its length is within
    the smaller of the transport's and the request's limit. *)
Theorem complete_body_exact (limits : TransportLimits) (r : TransportRequest)
    (response : Response) (head : TransportResponseHead) (reads : list ReadOutcome)
    (body : list Z) :
  0 <= max_response_body_bytes limits < u64_max -> 0 <= tr_max_response_body_bytes r ->
  validate_response_head response limits = Ok head -> tr_stream r = false ->
  receive_response limits r (SendResponse response) reads = Some (Ok (Complete head body)) <->
  exists chunks rest, reads = (ReadChunk <$> chunks) ++ ReadEnd :: rest /\ body = concat chunks /\
    zlen body <= Z.min (max_response_body_bytes limits) (tr_max_response_body_bytes r).
Proof.
  intros Hl Hr Hhead Hst. unfold receive_response. rewrite Hhead, Hst.
  pose proof (read_body_Ok
    (Z.min (max_response_body_bytes limits) (tr_max_response_body_bytes r)) [] reads body
    ltac:(lia) ltac:(unfold zlen; cbn; lia)) as Hb. cbn [app] in Hb. rewrite <- Hb.
  destruct (read_complete_body _ [] reads) as [[out|e]|]; naive_solver.
Qed.

(** Streaming a response hands out at most the body limit in total, whatever
    the upstream sends; after the first end, error or overrun the stream is
    closed for good and every later call reports an invalid response. *)
Theorem stream_bounded (limits : TransportLimits) (r : TransportRequest) (response : Response)
    (reads chunk_reads : list ReadOutcome) (s : StreamingTransportResponse) :
  0 <= max_response_body_bytes limits < u64_max -> 0 <= tr_max_response_body_bytes r ->
  receive_response limits r (SendResponse response) reads = Some (Ok (Streaming s)) ->
  stream_shape (stream_run s chunk_reads).2 /\
  zlen (concat (delivered (stream_run s chunk_reads).2))
    <= Z.min (max_response_body_bytes limits) (tr_max_response_body_bytes r).
Proof.
  intros Hl Hr. unfold receive_response.
  destruct (validate_response_head response limits) as [head|]; [|done].
  destruct (tr_stream r).
  2: { destruct (read_complete_body _ [] reads) as [[|]|]; done. }
  intros [= <-].
  set (s := mkStreaming head true 0
    (Z.min (max_response_body_bytes limits) (tr_max_response_body_bytes r))).
  destruct (stream_run_spec s chunk_reads) as [Hshape Hsum]; [done|cbn; lia|cbn; lia|].
  split; [done|]. cbn [s received_bytes maximum_body_bytes] in Hsum. lia.
Qed.

(** A resolved credential always fits the request: whatever the account's
    authentication and the adapter, the header chosen for it is on the sensitive
    list, so attaching it to a fresh request fails only for a value that is not
    header text or is too long; an account without credentials adds none. *)
Theorem resolved_auth_attaches (auth : AccountAuthConfig) (adapter : AdapterFamily)
    (resolve : string -> result SecretResolutionError string)
    (o : option ResolvedAuthorization) (r : TransportRequest) :
  (forall name, name ∈ SENSITIVE_REQUEST_HEADERS -> header_name_valid name = true) ->
  tr_sensitive_header r = None ->
  resolve_outbound_auth auth adapter resolve = Ok o ->
  (o = None <-> auth = AuthLocal) /\
  forall a, o = Some a ->
    header_value a <> ""%string /\
    (is_ok (with_sensitive_header r (header_name a) (header_value a)) = true <->
     header_value_valid (header_value a) = true /\
     header_bytes (header_name a) (header_value a) <= MAX_REQUEST_HEADER_BYTES).
Proof.
  intros Hnames Hfresh. unfold resolve_outbound_auth.
  destruct (auth_header auth adapter) as [[[ref name] bearer]|] eqn:Ea.
  2: { intros [= <-]. split; [|done]. destruct auth; cbn in Ea; try done.
       destruct (api_key_header adapter); done. }
  intros (secret & Hsecret & Hk)%result_bind_Ok. apply check_Ok in Hk as [Hne%guard_err_Ok [= <-]].
  assert (name ∈ SENSITIVE_REQUEST_HEADERS /\ to_ascii_lowercase name = name) as [Hin Hlow].
  { assert (name = "authorization"%string \/ name = (api_key_header adapter).1) as [-> | ->].
    { destruct auth; cbn in Ea; simplify_eq; auto. destruct (api_key_header adapter).
      simplify_eq. auto. }
    - split; [apply (bool_decide_unpack _); vm_compute; exact I|reflexivity].
    - destruct adapter; (split; [apply (bool_decide_unpack _); vm_compute; exact I|reflexivity]). }
  split.
  { split; [done|]. intros ->. done. }
  intros a [= <-]. cbn [header_name header_value].
  assert ((if bearer then ("Bearer " +:+ secret)%string else secret) <> ""%string) as Hv.
  { destruct bearer; [done|]. by apply str_is_empty_false. }
  split; [done|]. unfold with_sensitive_header, parse_allowed_name.
  rewrite Hlow, (bool_decide_eq_true_2 _ Hin), (Hnames _ Hin), Hfresh. cbn [negb guard_err result_bind].
  rewrite (proj2 (str_is_empty_false _) Hv). cbn [is_someb orb].
  destruct (Z.ltb_spec MAX_REQUEST_HEADER_BYTES (header_bytes name
    (if bearer then ("Bearer " +:+ secret)%string else secret))) as [Hlong|Hshort]; cbn [orb].
  - cbn. split; [done|lia].
  - destruct (header_value_valid _); cbn; naive_solver.
Qed.
End Spec.

(** ** Configuration meets transport *)
Section Endpoints.
Context `{UrlCrate}.

Lemma not_private_domain_public d : is_private_host (Domain d) = false -> host_is_public (Domain d) = true.
Proof.
  cbn. rewrite !orb_false_iff, negb_true_iff. unfold eq_ignore_ascii_case.
  intros [[[Hl _] _] _]. exact Hl.
Qed.

(** The transport accepts a validated catalog endpoint under the access the
    snapshot derives from its policy: a loopback endpoint under loopback-only,
    and a public endpoint with a domain name under public-only. *)
Theorem catalog_endpoint_accepted (endpoint : string) (policy : EndpointPolicy) (url : Url) :
  validate_endpoint endpoint policy = Ok tt -> url_parse endpoint = Some url ->
  match policy with
  | LoopbackHttp => True
  | PublicHttps => exists d, url_host url = Some (Domain d)
  | HttpsTemplate => False
  end ->
  validate_url_policy url (network_policy (from_configuration policy false)) = Ok tt.
Proof.
  intros (_ & _ & Hok)%validate_endpoint_Ok Hp Hcase.
  destruct policy; cbn in Hok |- *; [|done|]; unfold validate_url_policy.
  - destruct Hok as (url' & host & Hp' & (Hs & _) & Hh & Hpriv). rewrite Hp in Hp'.
    injection Hp' as <-. destruct Hcase as [d Hd]. rewrite Hd in Hh |- *. injection Hh as <-.
    rewrite <- Hs, (not_private_domain_public d Hpriv). done.
  - destruct Hok as (url' & host & Hp' & (Hs & _) & Hh & Hloop). rewrite Hp in Hp'.
    injection Hp' as <-. rewrite Hh, Hloop, (proj2 (scheme_http_true _) Hs). done.
Qed.

(** An endpoint override the configuration accepts can be unusable: where a
    provider's catalog policy is loopback, an override to a public https host
    passes validation without the private-network opt-in, but the compiled
    access is loopback-only, and the transport refuses every URL on that host. *)
Theorem loopback_public_override_refused (c : ProviderCatalog) (p : ProviderConfig)
    (r : RoutingConfig) (s : RuntimeSnapshot) (i : ProviderInstanceConfig)
    (definition : ProviderDefinition) (endpoint : string) (rp : RouteProvider) (url target : Url) :
  build c p r = Ok s -> enabled_instance p i -> pi_endpoint i = Some endpoint ->
  pi_allow_private_network i = false ->
  catalog_provider c (pi_catalog_id i) = Some definition ->
  pd_endpoint_policy definition = LoopbackHttp ->
  snap_providers s !! pi_id i = Some rp ->
  url_parse endpoint = Some url -> url_host target = url_host url ->
  rp_endpoint rp = endpoint /\
  validate_url_policy target (network_policy (rp_endpoint_access rp)) = Err ErrPolicy.
Proof.
  intros Hb Hi He Hpn Hdef Hpol Hrp Hparse Hhost.
  destruct (build_spec _ _ _ _ Hb) as (Hc & Hspec & _).
  apply Hspec in Hrp as (j & Hj & Hid & d & Hd & _ & _ & ->).
  assert (j = i) as ->.
  { apply (NoDup_fmap_eq pi_id (instances p)); [apply (ok_shape _ _ _ Hc)|apply Hj|apply Hi|done]. }
  rewrite Hdef in Hd. injection Hd as <-.
  cbn [rp_endpoint rp_endpoint_access compile_provider]. unfold effective_endpoint.
  rewrite He, Hpn, Hpol. split; [done|].
  pose proof (ok_instances _ _ _ Hc) as Hok. rewrite list.Forall_forall in Hok.
  destruct (Hok i (proj1 Hi)) as (d' & Hd' & Hov). rewrite He in Hov.
  destruct Hov as (_ & url' & host & Hp' & Hh & Hpriv & _).
  rewrite Hparse in Hp'. injection Hp' as <-.
  assert (is_private_host host = false) as Hnp.
  { destruct (is_private_host host); [|done]. rewrite Hpriv in Hpn by done. done. }
  cbn. unfold validate_url_policy. rewrite Hhost, Hh.
  destruct (host_is_loopback host) eqn:Hl.
  - apply host_loopback_private in Hl. congruence.
  - cbn. by rewrite orb_true_r.
Qed.
End Endpoints.

(** ** Witnesses *)
Definition demo_http : HttpCrate := {|
  header_name_valid := fun _ => true;
  header_value_valid := fun v => forallb (fun b => (32 <=? b) && (b <=? 126)) (str_bytes v);
  header_to_str := fun l => Some (bytes_str l)
|}.

Definition demo_public_url : @Url demo_url_crate :=
  mkDemoUrl "https" (Some (Domain "api.example.com")) None None.

Definition demo_post (stream : bool) : @TransportRequest demo_url_crate :=
  @TransportRequest_post demo_url_crate demo_public_url [1; 2] stream NetPublicOnly.

Definition demo_lookup (d : string) : option (list IpAddr) :=
  if bool_decide (d = "api.example.com"%string) then Some [V4 (mkV4 93 184 216 34)] else None.

Definition demo_response : Response :=
  mkResponse 200 [("content-type"%string, str_bytes "application/json")] None.

Lemma network_policy_enforced_witness : is_private_ip (V4 (mkV4 93 184 216 34)) = false.
Proof.
  apply (@network_policy_enforced demo_url_crate demo_http TransportLimits_default (demo_post false)
    false SendTimedOut [] (@wire_request demo_url_crate (demo_post false))
    (Some (Err ErrHeaderTimeout)) demo_lookup (V4 (mkV4 93 184 216 34))).
  - vm_compute. reflexivity.
  - exists [V4 (mkV4 93 184 216 34)]. split; [vm_compute; reflexivity|left].
  - vm_compute. intuition discriminate.
Defined.

Lemma request_headers_confined_witness :
  @wire_content_length demo_url_crate (@wire_request demo_url_crate (demo_post false))
  <= Z.min (max_request_body_bytes TransportLimits_default) DEFAULT_REQUEST_BODY_LIMIT.
Proof.
  apply (@request_headers_confined demo_url_crate demo_http TransportLimits_default (demo_post false)
    false SendTimedOut [] (@wire_request demo_url_crate (demo_post false))
    (Some (Err ErrHeaderTimeout))).
  - constructor.
  - vm_compute. reflexivity.
Defined.

Definition demo_head : TransportResponseHead :=
  mkHead 200 {[ "content-type"%string := "application/json"%string ]}.

Lemma complete_body_exact_witness :
  @receive_response demo_url_crate demo_http TransportLimits_default (demo_post false)
    (SendResponse demo_response) [ReadChunk [1]; ReadChunk [2; 3]; ReadEnd]
  = Some (Ok (Complete demo_head [1; 2; 3])).
Proof.
  apply (@complete_body_exact demo_url_crate demo_http TransportLimits_default (demo_post false)
    demo_response demo_head).
  - vm_compute. split; [discriminate|reflexivity].
  - vm_compute. discriminate.
  - vm_compute. reflexivity.
  - reflexivity.
  - exists [[1]; [2; 3]], []. split_and!; [reflexivity..|]. vm_compute. discriminate.
Defined.

Lemma stream_bounded_witness :
  zlen (concat (delivered (stream_run (mkStreaming demo_head true 0 (16 * 1024 * 1024))
    [ReadChunk [1]; ReadEnd; ReadChunk [2]]).2))
  <= Z.min (max_response_body_bytes TransportLimits_default)
       (@tr_max_response_body_bytes demo_url_crate (demo_post true)).
Proof.
  apply (@stream_bounded demo_url_crate demo_http TransportLimits_default (demo_post true)
    demo_response [] [ReadChunk [1]; ReadEnd; ReadChunk [2]]).
  - vm_compute. split; [discriminate|reflexivity].
  - vm_compute. discriminate.
  - vm_compute. reflexivity.
Defined.

Lemma resolved_auth_attaches_witness :
  is_ok (@with_sensitive_header demo_url_crate demo_http (demo_post false) "authorization" "Bearer k")
  = true.
Proof.
  apply (proj2 (@resolved_auth_attaches demo_url_crate demo_http (AuthApiKey "secret:1") OpenAiChat
    (fun _ => Ok "k"%string) (Some (mkAuthorization "authorization" "Bearer k")) (demo_post false)
    (fun _ _ => eq_refl) eq_refl eq_refl) (mkAuthorization "authorization" "Bearer k") eq_refl).
  split; vm_compute; [reflexivity|discriminate].
Defined.

Lemma catalog_endpoint_accepted_witness :
  @validate_url_policy demo_url_crate demo_public_url
    (network_policy (from_configuration PublicHttps false)) = Ok tt.
Proof.
  apply (@catalog_endpoint_accepted demo_url_crate "https://api.example.com/v1" PublicHttps).
  - vm_compute. reflexivity.
  - vm_compute. reflexivity.
  - exists "api.example.com"%string. reflexivity.
Defined.

(** The bundled Ollama entry's policy with an endpoint on a public host. *)
Definition demo_override : ProviderInstanceConfig :=
  mkInstance "remote" "ollama" true (Some "https://api.example.com/v1"%string) false.

Definition demo_override_config : ProviderConfig := mkProviderConfig [demo_override] [].

Definition demo_override_provider : RouteProvider :=
  compile_provider demo_ollama demo_override [].

Definition demo_override_snapshot : RuntimeSnapshot :=
  match @build demo_url_crate demo_catalog demo_override_config (mkRouting [] [] None) with
  | Ok s => s
  | Err _ => mkSnapshot ∅ ∅ [] None []
  end.

Lemma loopback_public_override_refused_witness :
  @validate_url_policy demo_url_crate demo_public_url
    (network_policy (rp_endpoint_access demo_override_provider)) = Err ErrPolicy.
Proof.
  apply (@loopback_public_override_refused demo_url_crate demo_catalog demo_override_config
    (mkRouting [] [] None) demo_override_snapshot demo_override demo_ollama
    "https://api.example.com/v1" demo_override_provider demo_public_url demo_public_url).
  - vm_compute. reflexivity.
  - split; [left|reflexivity].
  - reflexivity.
  - reflexivity.
  - vm_compute. reflexivity.
  - reflexivity.
  - vm_compute. reflexivity.
  - vm_compute. reflexivity.
  - reflexivity.
Defined.
