(* ===== verification/AuthRegistry.v ===== *)
(** * Client and management tokens

    Models [crates/wokcore-server/src/auth/token.rs] and the token tables of
    [crates/wokcore-storage/src/state/store.rs].  SHA-256 and base64 are an
    interface; entropy is an argument.  A digest is its list of bytes.

    The SQLite tables are finite maps: [client_tokens] by its primary key,
    [client_token_scopes] as the scopes of each token.  A statement fails on a
    violated constraint or when the database does; each operation is one
    transaction, so a failure leaves the tables as they were.  [db_faults] says
    which of the coming operations the database fails. *)
From S2P Require Import Prelude Ident.

Definition ADMIN_PREFIX : string := "wok_admin_v1_".
Definition PROXY_PREFIX : string := "wok_proxy_v1_".
Definition ENTROPY_BYTES : Z := 32.
Definition ENCODED_ENTROPY_BYTES : Z := 43.

Inductive TokenError : Set := EntropyUnavailable.

Notation digest_bytes := (list Z).

(** The [sha2] and [base64] crates. *)
Class CryptoCrate : Type := {
  sha256_digest : string -> digest_bytes;
  base64_encode : list Z -> string;
  base64_decode : string -> option (list Z)
}.

(** What the entropy source fills: 32 bytes. *)
Definition entropy_bytes (l : list Z) : Prop :=
  zlen l = ENTROPY_BYTES /\ Forall (fun b => 0 <= b < 256) l.

(** What the crates document: a digest has 32 bytes, 32 bytes encode without
    padding to 43 characters, and decoding undoes encoding. *)
Class CryptoLaws `{CryptoCrate} : Prop := {
  sha256_length : forall s, length (sha256_digest s) = 32%nat;
  base64_length : forall l, entropy_bytes l -> str_len (base64_encode l) = ENCODED_ENTROPY_BYTES;
  base64_roundtrip : forall l, entropy_bytes l -> base64_decode (base64_encode l) = Some l
}.

Section Tokens.
Context `{CryptoCrate}.

(** [TokenMaterial::generate] with what the entropy source filled in. *)
Definition generate (prefix : string) (entropy : result TokenError (list Z))
  : result TokenError string :=
  let? bytes := entropy in
  Ok (prefix +:+ base64_encode bytes)%string.

Definition generate_admin := generate ADMIN_PREFIX.
Definition generate_proxy := generate PROXY_PREFIX.

Definition has_token_shape (candidate prefix : string) : bool :=
  match strip_prefix prefix candidate with
  | None => false
  | Some encoded =>
      if negb (str_len encoded =? ENCODED_ENTROPY_BYTES) then false
      else match base64_decode encoded with
           | Some decoded => zlen decoded =? ENTROPY_BYTES
           | None => false
           end
  end.

Definition is_admin_token (candidate : string) : bool := has_token_shape candidate ADMIN_PREFIX.
Definition is_proxy_token (candidate : string) : bool := has_token_shape candidate PROXY_PREFIX.

(** [TokenDigest::of] and [constant_time_matches]. *)
Definition TokenDigest_of (candidate : string) : digest_bytes := sha256_digest candidate.
Definition constant_time_matches (a b : digest_bytes) : bool := bool_decide (a = b).
End Tokens.

(** ** Scopes *)
Inductive ClientTokenScope : Set :=
| ProxyUse | SessionsRead | UsageRead | DiagnosticsRead | DiagnosticsExport | ServiceRead
| ServiceControl | ProvidersRead | ProvidersWrite | ClientsManage.

#[global] Instance ClientTokenScope_eq_dec : EqDecision ClientTokenScope.
Proof. solve_decision. Defined.

Definition scope_as_str (s : ClientTokenScope) : string :=
  match s with
  | ProxyUse => "proxy.use"
  | SessionsRead => "sessions.read"
  | UsageRead => "usage.read"
  | DiagnosticsRead => "diagnostics.read"
  | DiagnosticsExport => "diagnostics.export"
  | ServiceRead => "service.read"
  | ServiceControl => "service.control"
  | ProvidersRead => "providers.read"
  | ProvidersWrite => "providers.write"
  | ClientsManage => "clients.manage"
  end.

Definition scope_index (s : ClientTokenScope) : Z :=
  match s with
  | ProxyUse => 0 | SessionsRead => 1 | UsageRead => 2 | DiagnosticsRead => 3
  | DiagnosticsExport => 4 | ServiceRead => 5 | ServiceControl => 6 | ProvidersRead => 7
  | ProvidersWrite => 8 | ClientsManage => 9
  end.

Definition all_scopes : list ClientTokenScope :=
  [ProxyUse; SessionsRead; UsageRead; DiagnosticsRead; DiagnosticsExport; ServiceRead;
   ServiceControl; ProvidersRead; ProvidersWrite; ClientsManage].

Definition scope_from_str (value : string) : option ClientTokenScope :=
  List.find (fun s => bool_decide (scope_as_str s = value)) all_scopes.

(** ** Stored records *)
Record ClientTokenMetadata : Set := mkTokenMetadata {
  tm_token_id : string;
  tm_client_id : string;
  tm_digest : digest_bytes;
  tm_issued_at : string
}.

Record ScopedClientTokenMetadata : Set := mkScoped {
  sm_token : ClientTokenMetadata;
  sm_scopes : list ClientTokenScope
}.

Record RuntimeSecretBinding : Set := mkBinding {
  rb_name : string;
  rb_secret_ref : string;
  rb_revision : Z;
  rb_created_at : string
}.

Inductive StorageError : Set :=
| RevisionConflict (expected actual : Z)
| InvalidConfig (message : string)
| SerializeConfig (message : string)
| IoFailure
| StateDatabaseCorrupt (message : string)
| StateDatabase
| RuntimeSecretBindingConflict (actual : Z)
| InvalidStateRecord (message : string)
| StableRecordConflict (record_kind : string)
| SessionBatchLimitExceeded
| CandidateStateConflict
| StalePageKey
| StateWriterUnavailable
| ReplaySignatureLimitExceeded
| SecretNotFound
| SecretAlreadyExists
| SecretBackendUnavailable
| SecretBackendPlatformFailure
| SecretBackendFailure
| ReadOnlySecretStore
| InvalidHeadlessSecretStoreConfig
| InsecureSecretFilePermissions
| InvalidSecretEncoding
| SecretTooLarge.

#[global] Instance StorageError_eq_dec : EqDecision StorageError.
Proof. solve_decision. Defined.

(** A row of [client_tokens]. *)
Record TokenRow : Set := mkTokenRow {
  row_client_id : string;
  row_digest : digest_bytes;
  row_issued_at : string;
  row_revoked_at : option string
}.

Record StateStore : Type := mkStateStore {
  db_tokens : gmap string TokenRow;
  db_scopes : gmap string (list string);
  db_bindings : gmap string RuntimeSecretBinding;
  db_orphans : gmap string string;
  db_faults : list bool
}.

(** One transaction: the database may fail it, and an error rolls it back. *)
Definition transaction {A} (body : StateStore -> result StorageError (StateStore * A))
  : st_res StateStore StorageError A := fun s =>
  let s' := mkStateStore (db_tokens s) (db_scopes s) (db_bindings s) (db_orphans s) (tail (db_faults s)) in
  if default false (head (db_faults s)) then (s', Err StateDatabase)
  else match body s' with
       | Ok (s'', a) => (s'', Ok a)
       | Err e => (s', Err e)
       end.

(** [mem::replace] of one of the ten flags. *)
Definition scope_seen (seen : list bool) (scope : ClientTokenScope)
  : result StorageError (list bool) :=
  let i := Z.to_nat (scope_index scope) in
  if default false (seen !! i)
  then Err (InvalidStateRecord "client token scopes must be unique")
  else Ok (<[i := true]> seen).

(** INSERT INTO client_tokens: primary key, unique digest, digest length. *)
Definition insert_token (token : ClientTokenMetadata) (tokens : gmap string TokenRow)
  : result StorageError (gmap string TokenRow) :=
  check? guard_err (is_someb (tokens !! tm_token_id token)) StateDatabase;
  check? guard_err
    (existsb (fun entry => bool_decide (row_digest entry.2 = tm_digest token)) (map_to_list tokens))
    StateDatabase;
  check? guard_err (negb (zlen (tm_digest token) =? 32)) StateDatabase;
  Ok (<[tm_token_id token :=
        mkTokenRow (tm_client_id token) (tm_digest token) (tm_issued_at token) None]> tokens).

(** INSERT INTO client_token_scopes: the primary key is the pair. *)
Definition insert_scope (token_id : string) (scopes : gmap string (list string))
  (scope : ClientTokenScope) : result StorageError (gmap string (list string)) :=
  let existing := default [] (scopes !! token_id) in
  check? guard_err (bool_decide (scope_as_str scope ∈ existing)) StateDatabase;
  Ok (<[token_id := existing ++ [scope_as_str scope]]> scopes).

Definition issue_client_token_with_scopes (token : ClientTokenMetadata)
  (scopes : list ClientTokenScope) : st_res StateStore StorageError unit := fun s =>
  if is_emptyb scopes
  then (s, Err (InvalidStateRecord "client token scopes must not be empty"))
  else match try_fold scope_seen (replicate 10 false) scopes with
       | Err e => (s, Err e)
       | Ok _ =>
           transaction (fun s =>
             let? tokens := insert_token token (db_tokens s) in
             let? table := try_fold (insert_scope (tm_token_id token)) (db_scopes s) scopes in
             Ok (mkStateStore tokens table (db_bindings s) (db_orphans s) (db_faults s), tt)) s
       end.

Definition revoke_client_token (client_id token_id revoked_at : string)
  : st_res StateStore StorageError bool :=
  transaction (fun s =>
    match db_tokens s !! token_id with
    | Some row =>
        if bool_decide (row_client_id row = client_id) && negb (is_someb (row_revoked_at row))
        then Ok (mkStateStore
                   (<[token_id := mkTokenRow (row_client_id row) (row_digest row)
                                    (row_issued_at row) (Some revoked_at)]> (db_tokens s))
                   (db_scopes s) (db_bindings s) (db_orphans s) (db_faults s), true)
        else Ok (s, false)
    | None => Ok (s, false)
    end).

(** [StateStore::issue_client_token]: the default scope. *)
Definition issue_client_token_proxy_scope (token : ClientTokenMetadata) : st_res StateStore StorageError unit :=
  issue_client_token_with_scopes token [ProxyUse].

(** The rows that are not revoked, in key order. *)
Definition active_rows (s : StateStore) : list (string * TokenRow) :=
  List.filter (fun entry => negb (is_someb (row_revoked_at entry.2))) (btree_iter (db_tokens s)).

Definition load_row (entry : string * TokenRow) : result StorageError ClientTokenMetadata :=
  let '(token_id, row) := entry in
  check? guard_err (negb (is_ok (ClientId_new (row_client_id row))))
    (StateDatabaseCorrupt "client token metadata contains an invalid client identifier");
  check? guard_err (negb (zlen (row_digest row) =? 32))
    (StateDatabaseCorrupt "client token metadata contains an invalid digest");
  Ok (mkTokenMetadata token_id (row_client_id row) (row_digest row) (row_issued_at row)).

Definition load_active_client_tokens (s : StateStore) : result StorageError (list ClientTokenMetadata) :=
  try_map load_row (active_rows s).

(** The scopes of a token, in the order of the query's CASE. *)
Definition load_scopes (s : StateStore) (token : ClientTokenMetadata)
  : result StorageError ScopedClientTokenMetadata :=
  let stored := default [] (db_scopes s !! tm_token_id token) in
  let? scopes := try_map (fun value =>
    ok_or (scope_from_str value)
      (StateDatabaseCorrupt "client token metadata contains an invalid scope")) stored in
  let scopes := sort_by_key scope_index scopes in
  check? guard_err (is_emptyb scopes)
    (StateDatabaseCorrupt "client token metadata contains no scope");
  Ok (mkScoped token scopes).

(** Reading fails when the database does; the tables are not touched. *)
Definition load_active_scoped_client_tokens
  : st_res StateStore StorageError (list ScopedClientTokenMetadata) :=
  transaction (fun s =>
    let? tokens := load_active_client_tokens s in
    let? scoped := try_map (load_scopes s) tokens in
    Ok (s, scoped)).

(** [uuid_parse] is the UUID parser behind [SecretRef::parse]. *)
Definition runtime_secret_binding (uuid_parse : string -> bool) (name : string)
  : st_res StateStore StorageError (option RuntimeSecretBinding) :=
  transaction (fun s =>
    match db_bindings s !! name with
    | None => Ok (s, None)
    | Some binding =>
        check? guard_err (negb (is_ok (SecretRef_parse uuid_parse (rb_secret_ref binding))))
          (StateDatabaseCorrupt "runtime secret binding contains an invalid reference");
        check? guard_err (rb_revision binding <? 0)
          (StateDatabaseCorrupt "runtime secret binding contains an invalid revision");
        Ok (s, Some binding)
    end).

Definition bind_runtime_secret_if_absent (name secret_ref created_at : string)
  : st_res StateStore StorageError RuntimeSecretBinding :=
  transaction (fun s =>
    match db_bindings s !! name with
    | Some existing =>
        if rb_revision existing <? 0
        then Err (StateDatabaseCorrupt "runtime secret binding contains an invalid revision")
        else Err (RuntimeSecretBindingConflict (rb_revision existing))
    | None =>
        let binding := mkBinding name secret_ref 1 created_at in
        Ok (mkStateStore (db_tokens s) (db_scopes s) (<[name := binding]> (db_bindings s))
              (db_orphans s) (db_faults s), binding)
    end).

Definition record_orphan_secret (secret_ref created_at : string)
  : st_res StateStore StorageError unit :=
  transaction (fun s =>
    Ok (mkStateStore (db_tokens s) (db_scopes s) (db_bindings s)
          (<[secret_ref := created_at]> (db_orphans s)) (db_faults s), tt)).

(** * Authentication registry

    Models [crates/wokcore-server/src/auth/registry.rs]: the in-memory table of
    active client tokens in front of the metadata store, bootstrap of the
    management secret, and the checks every request passes.  The
    [AuthMetadataStore] and [SecretStore] traits are type classes; the mutation
    lock makes issue and revoke atomic with respect to each other, so an
    operation is one step of the registry's state.  Tokio tasks are taken to
    run to completion, which is what spawning them detached is for. *)

Definition MANAGEMENT_BINDING_NAME : string := "management".

Class AuthMetadataStore (M : Type) : Type := {
  store_runtime_secret_binding : string -> st_res M StorageError (option RuntimeSecretBinding);
  store_bind_runtime_secret_if_absent :
    string -> string -> string -> st_res M StorageError RuntimeSecretBinding;
  store_record_orphan_secret : string -> string -> st_res M StorageError unit;
  store_load_active_client_tokens : st_res M StorageError (list ClientTokenMetadata);
  store_issue_client_token : ClientTokenMetadata -> st_res M StorageError unit;
  store_load_active_scoped_client_tokens : st_res M StorageError (list ScopedClientTokenMetadata);
  store_issue_client_token_with_scopes :
    ClientTokenMetadata -> list ClientTokenScope -> st_res M StorageError unit;
  store_revoke_client_token : string -> string -> string -> st_res M StorageError bool
}.

Class SecretStore (S : Type) : Type := {
  secret_put : SecretScope -> string -> st_res S StorageError string;
  secret_get : string -> st_res S StorageError string
}.

Record AuthorizedClient : Set := mkAuthorized { au_token_id : string; au_client_id : string }.

Record ActiveClient : Set := mkActive {
  act_token_id : string;
  act_client_id : string;
  act_scopes : list ClientTokenScope
}.

Inductive AuthSecretStoreFailure : Set := Unavailable | PlatformFailure | OtherFailure.

Definition classify (error : StorageError) : AuthSecretStoreFailure :=
  match error with
  | SecretBackendUnavailable => Unavailable
  | SecretBackendPlatformFailure => PlatformFailure
  | _ => OtherFailure
  end.

Inductive AuthError : Set :=
| AuthStorage (e : StorageError)
| SecretStoreRead (f : AuthSecretStoreFailure)
| SecretStoreWrite (f : AuthSecretStoreFailure)
| InvalidManagementSecret
| BootstrapBinding
| OrphanRecording (orphan_ref : string)
| InvalidScopes
| AuthToken (e : TokenError).

(** [validate_scopes]: sort a copy and look for equal neighbours. *)
Fixpoint has_equal_neighbours (l : list ClientTokenScope) : bool :=
  match l with
  | a :: (b :: _) as rest => bool_decide (a = b) || has_equal_neighbours rest
  | _ => false
  end.

Definition validate_scopes (scopes : list ClientTokenScope) : result AuthError unit :=
  check? guard_err (is_emptyb scopes) InvalidScopes;
  let sorted := sort_by_key scope_index scopes in
  guard_err (has_equal_neighbours sorted) InvalidScopes.

Notation client_table := (gmap digest_bytes ActiveClient).

Definition add_active_client (clients : client_table) (scoped : ScopedClientTokenMetadata)
  : result AuthError client_table :=
  check? validate_scopes (sm_scopes scoped);
  let token := sm_token scoped in
  check? guard_err (is_someb (clients !! tm_digest token))
    (AuthStorage (StateDatabaseCorrupt "active client token metadata contains a duplicate digest"));
  Ok (<[tm_digest token := mkActive (tm_token_id token) (tm_client_id token) (sm_scopes scoped)]>
        clients).

Definition active_client_map (active : list ScopedClientTokenMetadata)
  : result AuthError client_table := try_fold add_active_client ∅ active.

(** Run a computation on a part of the state, with its error mapped. *)
Definition st_zoom {S T E F A} (get : T -> S) (put : S -> T -> T) (f : E -> F) (c : st_res S E A)
  : st_res T F A := fun t =>
  let '(s, r) := c (get t) in (put s t, map_err f r).

Section Registry.
Context {M : Type} `{AuthMetadataStore M} `{CryptoCrate}.

(** [AuthRegistryState]: the digest of the management token, the published
    client table and the store behind it. *)
Record AuthRegistry : Type := mkRegistry {
  management_digest : digest_bytes;
  clients : client_table;
  metadata : M
}.

Definition with_store {A} (c : st_res M StorageError A) : st_res AuthRegistry AuthError A :=
  st_zoom metadata (fun m r => mkRegistry (management_digest r) (clients r) m) AuthStorage c.

Definition store_clients (f : client_table -> client_table) : st_res AuthRegistry AuthError unit :=
  st_mod (fun r => mkRegistry (management_digest r) (f (clients r)) (metadata r)).

(** ** Checking candidates *)
Definition validate_management (r : AuthRegistry) (candidate : string) : bool :=
  if negb (is_admin_token candidate) then false
  else constant_time_matches (management_digest r) (TokenDigest_of candidate).

Definition authorize (active : ActiveClient) : AuthorizedClient :=
  mkAuthorized (act_token_id active) (act_client_id active).

Definition validate_any_client (r : AuthRegistry) (candidate : string) : option AuthorizedClient :=
  if negb (is_proxy_token candidate) then None
  else authorize <$> clients r !! TokenDigest_of candidate.

Definition validate_client_scope (r : AuthRegistry) (candidate : string)
  (required_scope : ClientTokenScope) : option AuthorizedClient :=
  if negb (is_proxy_token candidate) then None
  else match clients r !! TokenDigest_of candidate with
       | None => None
       | Some active =>
           if negb (bool_decide (required_scope ∈ act_scopes active)) then None
           else Some (authorize active)
       end.

Definition validate_client (r : AuthRegistry) (candidate : string) : option AuthorizedClient :=
  validate_client_scope r candidate ProxyUse.

Definition client_token_active (r : AuthRegistry) (client_id token_id : string) : bool :=
  existsb (fun entry => bool_decide (act_client_id entry.2 = client_id)
                        && bool_decide (act_token_id entry.2 = token_id))
    (map_to_list (clients r)).

(** ** Issuing and revoking *)
Definition issue_token (entropy : result TokenError (list Z))
  (token_id client_id issued_at : string) (scopes : list ClientTokenScope)
  : st_res AuthRegistry AuthError string :=
  do! st_lift (validate_scopes scopes);
  let! material := st_lift (map_err AuthToken (generate_proxy entropy)) in
  let digest := TokenDigest_of material in
  do! with_store (store_issue_client_token_with_scopes
        (mkTokenMetadata token_id client_id digest issued_at) scopes);
  do! store_clients (fun clients => <[digest := mkActive token_id client_id scopes]> clients);
  st_ret material.

Definition issue_client_token (entropy : result TokenError (list Z))
  (token_id client_id issued_at : string) : st_res AuthRegistry AuthError string :=
  issue_token entropy token_id client_id issued_at [ProxyUse].

Definition keeps_client (client_id token_id : string) (entry : digest_bytes * ActiveClient) : Prop :=
  act_token_id entry.2 <> token_id \/ act_client_id entry.2 <> client_id.

Definition revoke_token (client_id token_id revoked_at : string)
  : st_res AuthRegistry AuthError bool :=
  let! changed := with_store (store_revoke_client_token client_id token_id revoked_at) in
  do! store_clients (fun clients => filter (keeps_client client_id token_id) clients);
  st_ret changed.

(** ** Bootstrap *)
Context {S : Type} `{SecretStore S}.

Record BootWorld : Type := mkBoot { boot_metadata : M; boot_secrets : S }.

Definition boot_store {A} (c : st_res M StorageError A) : st_res BootWorld AuthError A :=
  st_zoom boot_metadata (fun m w => mkBoot m (boot_secrets w)) AuthStorage c.

Definition read_management (secret_ref : string) : st_res BootWorld AuthError digest_bytes :=
  let! value := st_zoom boot_secrets (fun s w => mkBoot (boot_metadata w) s)
    (fun e => SecretStoreRead (classify e)) (secret_get secret_ref) in
  do! st_lift (guard_err (negb (is_admin_token value)) InvalidManagementSecret);
  st_ret (TokenDigest_of value).

(** A failed binding leaves a stored secret nothing refers to: it is recorded. *)
Definition recover_orphan (secret_ref created_at : string) : st_res BootWorld AuthError RuntimeSecretBinding :=
  fun w =>
    match boot_store (store_record_orphan_secret secret_ref created_at) w with
    | (w, Err _) => (w, Err (OrphanRecording secret_ref))
    | (w, Ok _) => (w, Err BootstrapBinding)
    end.

Definition create_management (entropy : result TokenError (list Z)) (scope : SecretScope)
  (created_at : string) : st_res BootWorld AuthError digest_bytes :=
  let! material := st_lift (map_err AuthToken (generate_admin entropy)) in
  let! secret_ref := st_zoom boot_secrets (fun s w => mkBoot (boot_metadata w) s)
    (fun e => SecretStoreWrite (classify e)) (secret_put scope material) in
  let! binding := fun w =>
    match boot_store (store_bind_runtime_secret_if_absent MANAGEMENT_BINDING_NAME secret_ref created_at) w with
    | (w, Ok binding) => (w, Ok binding)
    | (w, Err _) => recover_orphan secret_ref created_at w
    end in
  read_management (rb_secret_ref binding).

Definition bootstrap (entropy : result TokenError (list Z)) (scope : SecretScope)
  (created_at : string) : st_res BootWorld AuthError (digest_bytes * client_table) :=
  let! binding := boot_store (store_runtime_secret_binding MANAGEMENT_BINDING_NAME) in
  let! management := match binding with
                     | Some binding => read_management (rb_secret_ref binding)
                     | None => create_management entropy scope created_at
                     end in
  let! active := boot_store store_load_active_scoped_client_tokens in
  let! clients := st_lift (active_client_map active) in
  st_ret (management, clients).
End Registry.

(** ** Derived keys *)
Section Derived.
Context (sha256 : list Z -> list Z).

Definition installation_digest (management : digest_bytes) : list Z :=
  sha256 (str_bytes "wokcore.installation-id.v1" ++ management).

Definition session_domain_key (management : digest_bytes) : list Z :=
  sha256 (str_bytes "wokcore.session-domain-key.v1" ++ management).
End Derived.
