(* ===== verification/AuthSpec.v ===== *)
(** * Authentication: what the registry guarantees

    The registry is proved against laws of its metadata store, an interface the
    SQLite store then satisfies.  The in-memory table follows the store through
    any sequence of operations and failures, so a restart accepts exactly the
    same tokens. *)
From S2P Require Import Prelude Ident AuthRegistry.

(** An active token as the store holds it. *)
Record ActiveToken : Set := mkActiveToken {
  at_client_id : string;
  at_digest : digest_bytes;
  at_scopes : list ClientTokenScope
}.

Notation active_table := (gmap string ActiveToken).

Definition token_wf (t : ClientTokenMetadata) : Prop :=
  is_valid_identifier (tm_client_id t) = true /\ zlen (tm_digest t) = 32.

(** A loaded list is the active table, scopes in some order. *)
Definition loads (l : list ScopedClientTokenMetadata) (act : active_table) : Prop :=
  NoDup ((tm_token_id ∘ sm_token) <$> l) /\
  (forall x, x ∈ l -> exists t, act !! tm_token_id (sm_token x) = Some t /\
     at_client_id t = tm_client_id (sm_token x) /\ at_digest t = tm_digest (sm_token x) /\
     sm_scopes x ≡ₚ at_scopes t) /\
  (forall id t, act !! id = Some t -> exists x, x ∈ l /\ tm_token_id (sm_token x) = id).

(** What the registry relies on of its store: an abstract table of active
    tokens, the digests it has ever accepted, and the management binding. *)
Class AuthMetadataLaws (M : Type) `{AuthMetadataStore M} : Type := {
  store_ok : M -> Prop;
  store_active : M -> active_table;
  store_seen : M -> digest_bytes -> Prop;
  store_binding : M -> option string;
  law_active : forall m id t, store_ok m -> store_active m !! id = Some t ->
    store_seen m (at_digest t) /\ NoDup (at_scopes t) /\ at_scopes t <> [] /\
    forall id' t', store_active m !! id' = Some t' -> at_digest t' = at_digest t -> id' = id;
  law_issue : forall m t scopes m' res, store_ok m -> token_wf t ->
    scopes <> [] -> NoDup scopes ->
    store_issue_client_token_with_scopes t scopes m = (m', res) ->
    store_ok m' /\ store_binding m' = store_binding m /\
    match res with
    | Ok _ => store_active m !! tm_token_id t = None /\ ~ store_seen m (tm_digest t) /\
        store_active m' =
          <[tm_token_id t := mkActiveToken (tm_client_id t) (tm_digest t) scopes]> (store_active m) /\
        (forall d, store_seen m' d <-> store_seen m d \/ d = tm_digest t)
    | Err _ => store_active m' = store_active m /\ (forall d, store_seen m' d <-> store_seen m d)
    end;
  law_revoke : forall m client id at_ m' res, store_ok m ->
    store_revoke_client_token client id at_ m = (m', res) ->
    store_ok m' /\ store_binding m' = store_binding m /\
    (forall d, store_seen m' d <-> store_seen m d) /\
    match res with
    | Ok changed =>
        if changed
        then exists t, store_active m !! id = Some t /\ at_client_id t = client /\
               store_active m' = delete id (store_active m)
        else (forall t, store_active m !! id = Some t -> at_client_id t <> client) /\
             store_active m' = store_active m
    | Err _ => store_active m' = store_active m
    end;
  law_load : forall m m' res, store_ok m ->
    store_load_active_scoped_client_tokens m = (m', res) ->
    store_ok m' /\ store_active m' = store_active m /\ store_binding m' = store_binding m /\
    (forall l, res = Ok l -> loads l (store_active m));
  law_binding : forall m name m' res, store_ok m ->
    store_runtime_secret_binding name m = (m', res) ->
    store_ok m' /\ store_active m' = store_active m /\ store_binding m' = store_binding m /\
    (name = MANAGEMENT_BINDING_NAME -> forall b, res = Ok b -> rb_secret_ref <$> b = store_binding m);
  law_bind : forall m ref at_ m' res, store_ok m ->
    store_bind_runtime_secret_if_absent MANAGEMENT_BINDING_NAME ref at_ m = (m', res) ->
    store_ok m' /\ store_active m' = store_active m /\
    (forall b, res = Ok b -> rb_secret_ref b = ref /\ store_binding m' = Some ref)
}.

(** What bootstrap relies on of the secret store: written secrets stay readable. *)
Class SecretStoreLaws (S : Type) `{SecretStore S} : Type := {
  secret_view : S -> gmap string string;
  law_get : forall s ref s' res, secret_get ref s = (s', res) ->
    secret_view s' = secret_view s /\ (forall v, res = Ok v -> secret_view s !! ref = Some v);
  law_put : forall s scope v s' ref, secret_put scope v s = (s', Ok ref) ->
    secret_view s' = <[ref := v]> (secret_view s)
}.

(** ** Scopes *)
Lemma scope_index_inj a b : scope_index a = scope_index b -> a = b.
Proof. by destruct a, b. Qed.

Lemma has_equal_neighbours_sorted l :
  StronglySorted (fun a b => scope_index a <= scope_index b) l ->
  has_equal_neighbours l = false <-> NoDup l.
Proof.
  induction 1 as [|a l Hl IH Ha]; [split; [constructor|done]|].
  destruct l as [|b l]; [split; [intros _; repeat constructor; set_solver|done]|].
  cbn [has_equal_neighbours]. rewrite orb_false_iff, IH, bool_decide_eq_false, (list.NoDup_cons a).
  split.
  - intros [Hab Hnd]. split; [|done]. intros [->|Hin]%elem_of_cons; [done|].
    apply list.NoDup_cons in Hnd as [Hnb _].
    apply StronglySorted_inv in Hl as [_ Hb]. rewrite list.Forall_forall in Hb.
    apply list.Forall_cons in Ha as [Hle _]. specialize (Hb a Hin).
    destruct Hab. apply scope_index_inj. lia.
  - intros [Hn Hnd]. split; [|done]. intros ->. apply Hn. left.
Qed.

Lemma validate_scopes_Ok l : validate_scopes l = Ok tt <-> l <> [] /\ NoDup l.
Proof.
  unfold validate_scopes. rewrite check_Ok, !guard_err_Ok.
  rewrite has_equal_neighbours_sorted by apply sort_by_key_sorted.
  by rewrite sort_by_key_perm, is_emptyb_false.
Qed.

(** ** Tokens *)
Section Tokens.
Context `{HC : CryptoCrate} `{HL : !CryptoLaws}.

Lemma generate_shape prefix bytes :
  entropy_bytes bytes ->
  has_token_shape (prefix +:+ base64_encode bytes)%string prefix = true.
Proof using HL.
  intros Hb. unfold has_token_shape.
  rewrite (proj2 (strip_prefix_Some prefix _ _) eq_refl), base64_length, base64_roundtrip by done.
  rewrite Z.eqb_refl. cbn [negb]. by apply Z.eqb_eq, Hb.
Qed.

Lemma admin_not_proxy c : is_admin_token c = true -> is_proxy_token c = false.
Proof.
  unfold is_admin_token, is_proxy_token, has_token_shape.
  destruct (strip_prefix ADMIN_PREFIX c) as [a|] eqn:Ea; [|done]. intros _.
  destruct (strip_prefix PROXY_PREFIX c) as [p|] eqn:Ep; [|done]. exfalso.
  apply strip_prefix_Some in Ea, Ep. rewrite Ea in Ep. discriminate Ep.
Qed.
End Tokens.

(** ** The table follows the store *)
Definition same_client (a : ActiveClient) (id : string) (t : ActiveToken) : Prop :=
  act_token_id a = id /\ act_client_id a = at_client_id t /\ act_scopes a ≡ₚ at_scopes t.

(** Every client of the table is an active token under its digest, and every
    active token is in the table. *)
Definition sound (cl : client_table) (act : active_table) : Prop :=
  forall d a, cl !! d = Some a -> exists t,
    act !! act_token_id a = Some t /\ at_digest t = d /\ same_client a (act_token_id a) t.

Definition covers (cl : client_table) (act : active_table) : Prop :=
  forall id t, act !! id = Some t -> exists a, cl !! at_digest t = Some a /\ same_client a id t.

(** ** Loading the table *)
Definition active_of (x : ScopedClientTokenMetadata) : ActiveClient :=
  mkActive (tm_token_id (sm_token x)) (tm_client_id (sm_token x)) (sm_scopes x).

Notation digest_of := (fun x => tm_digest (sm_token x)).

Lemma add_active_clients l m :
  Forall (fun x => sm_scopes x <> [] /\ NoDup (sm_scopes x)) l -> NoDup (digest_of <$> l) ->
  (forall x, x ∈ l -> m !! digest_of x = None) ->
  exists cl, try_fold add_active_client m l = Ok cl /\
    forall d a, cl !! d = Some a <->
      (exists x, x ∈ l /\ digest_of x = d /\ a = active_of x) \/ m !! d = Some a.
Proof.
  intros Hl. revert m. induction Hl as [|x l [Hne Hns] _ IH]; intros m Hnd Hnew.
  - exists m. split; [done|]. set_solver.
  - rewrite fmap_cons, list.NoDup_cons in Hnd. destruct Hnd as [Hx Hnd].
    destruct (IH (<[digest_of x := active_of x]> m)) as (cl & Hcl & Hlook); [done| |].
    { intros y Hy. rewrite lookup_insert_ne; [apply Hnew; by right|].
      intros E. apply Hx, list_elem_of_fmap. exists y. done. }
    exists cl. split.
    + cbn [try_fold]. unfold add_active_client at 1.
      rewrite (proj2 (validate_scopes_Ok _) (conj Hne Hns)). cbn [result_bind].
      rewrite (Hnew x) by left. exact Hcl.
    + intros d a. rewrite Hlook, lookup_insert_Some. setoid_rewrite elem_of_cons. split.
      * intros [(y & Hy & Hd & ->)|[[<- <-]|[_ Hm]]]; eauto 6.
      * intros [(y & [->|Hy] & <- & ->)|Hm]; [auto|eauto|].
        right. right. split; [|done]. intros <-. rewrite (Hnew x) in Hm by left. done.
Qed.

Section Registry.
Context {M : Type} `{HM : AuthMetadataStore M} `{HML : !AuthMetadataLaws M}.
Context `{HC : CryptoCrate} `{HL : !CryptoLaws}.

Record reg_inv (r : AuthRegistry (M := M)) : Prop := {
  inv_store : store_ok (metadata r);
  inv_sound : sound (clients r) (store_active (metadata r));
  inv_covers : covers (clients r) (store_active (metadata r))
}.

(** The operations that change a registry; a [ClientId] is a valid identifier
    and entropy fills 32 bytes. *)
Inductive reg_op : Type :=
| OpIssue (entropy : result TokenError (list Z)) (token_id client_id issued_at : string)
    (scopes : list ClientTokenScope)
| OpRevoke (client_id token_id revoked_at : string).

Definition op_wf (op : reg_op) : Prop :=
  match op with
  | OpIssue entropy _ client_id _ _ =>
      is_valid_identifier client_id = true /\ (forall l, entropy = Ok l -> entropy_bytes l)
  | OpRevoke client_id _ _ => is_valid_identifier client_id = true
  end.

Definition run_op (r : AuthRegistry (M := M)) (op : reg_op) : AuthRegistry (M := M) :=
  match op with
  | OpIssue entropy token_id client_id issued_at scopes =>
      (issue_token entropy token_id client_id issued_at scopes r).1
  | OpRevoke client_id token_id revoked_at => (revoke_token client_id token_id revoked_at r).1
  end.

(** What issuing does, by the branch it takes. *)
Lemma issue_token_cases entropy id client at_ scopes r :
  (exists e, issue_token entropy id client at_ scopes r = (r, Err e)) \/
  exists bytes m' res, entropy = Ok bytes /\ scopes <> [] /\ NoDup scopes /\
    let material := (PROXY_PREFIX +:+ base64_encode bytes)%string in
    let token := mkTokenMetadata id client (TokenDigest_of material) at_ in
    store_issue_client_token_with_scopes token scopes (metadata r) = (m', res) /\
    issue_token entropy id client at_ scopes r =
      match res with
      | Ok _ => (mkRegistry (management_digest r)
                   (<[TokenDigest_of material := mkActive id client scopes]> (clients r)) m',
                 Ok material)
      | Err e => (mkRegistry (management_digest r) (clients r) m', Err (AuthStorage e))
      end.
Proof.
  unfold issue_token, st_bind at 1, st_lift at 1.
  destruct (validate_scopes scopes) as [[]|e] eqn:Hs; [|left; eauto].
  apply validate_scopes_Ok in Hs as [Hne Hnd].
  destruct entropy as [bytes|e]; [|left; unfold st_bind, st_lift; cbn; eauto].
  right. cbn zeta. unfold st_bind, st_lift, with_store, st_zoom. cbn [generate_proxy generate result_bind map_err].
  destruct (store_issue_client_token_with_scopes _ scopes (metadata r)) as [m' res] eqn:Hst.
  exists bytes, m', res. split_and!; try done; destruct res as [[]|e]; done.
Qed.

Lemma revoke_token_cases client id at_ r :
  exists m' res, store_revoke_client_token client id at_ (metadata r) = (m', res) /\
    revoke_token client id at_ r =
      match res with
      | Ok changed => (mkRegistry (management_digest r)
                         (filter (keeps_client client id) (clients r)) m', Ok changed)
      | Err e => (mkRegistry (management_digest r) (clients r) m', Err (AuthStorage e))
      end.
Proof.
  unfold revoke_token, st_bind, with_store, st_zoom.
  destruct (store_revoke_client_token client id at_ (metadata r)) as [m' res].
  exists m', res. split; [done|]. by destruct res.
Qed.

Lemma table_issue cl act id (T : ActiveToken) :
  sound cl act -> covers cl act -> act !! id = None ->
  (forall id' t, act !! id' = Some t -> at_digest t <> at_digest T) ->
  let cl' := <[at_digest T := mkActive id (at_client_id T) (at_scopes T)]> cl in
  let act' := <[id := T]> act in
  sound cl' act' /\ covers cl' act'.
Proof.
  intros Hs Hc Hid Hd. cbv zeta. split.
  - intros d a [[<- <-]|[Hne Hl]]%lookup_insert_Some.
    + exists T. split; [apply lookup_insert_eq|]. by split_and!.
    + apply Hs in Hl as (t & Ht & Hdt & Hsame). exists t. split; [|done].
      rewrite lookup_insert_ne; [done|]. intros E. rewrite <- E in Ht. congruence.
  - intros id' t [[<- <-]|[Hne Hl]]%lookup_insert_Some.
    + eexists. split; [apply lookup_insert_eq|]. by split_and!.
    + destruct (Hc _ _ Hl) as (a & Ha & Hsame). exists a. split; [|done].
      rewrite lookup_insert_ne; [done|]. symmetry. by eapply Hd.
Qed.

Lemma table_revoke cl act act' client id :
  sound cl act -> covers cl act ->
  (exists t, act !! id = Some t /\ at_client_id t = client /\ act' = delete id act) \/
  ((forall t, act !! id = Some t -> at_client_id t <> client) /\ act' = act) ->
  sound (filter (keeps_client client id) cl) act' /\ covers (filter (keeps_client client id) cl) act'.
Proof.
  intros Hs Hc Hcase. split.
  - intros d a [Ha Hk]%map_lookup_filter_Some. unfold keeps_client in Hk. cbn in Hk.
    destruct (Hs _ _ Ha) as (t & Ht & Hd & Hsame). exists t. split; [|done].
    destruct Hcase as [(t0 & Ht0 & Hcl & ->)|[_ ->]]; [|done].
    apply lookup_delete_Some. split; [|done]. intros ->. destruct Hk as [Hk|Hk]; [done|].
    destruct Hsame as (_ & Hcl2 & _). congruence.
  - intros id' t Ht.
    assert (act !! id' = Some t /\ (id' <> id \/ at_client_id t <> client)) as [Hact Hne].
    { destruct Hcase as [(t0 & Ht0 & Hcl & ->)|[Hno ->]].
      - apply lookup_delete_Some in Ht as [? ?]. auto.
      - split; [done|]. destruct (decide (id' = id)) as [->|]; eauto. }
    destruct (Hc _ _ Hact) as (a & Ha & Hid & Hcl & Hsc). exists a. split; [|done].
    apply map_lookup_filter_Some. split; [done|]. unfold keeps_client. cbn. subst. rewrite Hcl.
    tauto.
Qed.

Lemma run_op_inv r op : reg_inv r -> op_wf op -> reg_inv (run_op r op).
Proof using HML HL.
  intros [Hst Hs Hc] Hwf. destruct op as [entropy id client at_ scopes|client id at_]; cbn [run_op].
  - destruct (issue_token_cases entropy id client at_ scopes r)
      as [[e ->]|(bytes & m' & res & -> & Hne & Hnd & Hm & ->)]; [done|].
    destruct Hwf as [Hcl Hent]. cbv zeta in *.
    apply law_issue in Hm as (Hst' & _ & Hres); [|done| |done..].
    2: { split; [done|]. unfold zlen, TokenDigest_of. cbn. by rewrite sha256_length. }
    destruct res as [[]|e]; cbn in Hres |- *.
    + destruct Hres as (Hid & Hseen & Hact & _).
      destruct (table_issue _ _ id (mkActiveToken client
        (TokenDigest_of (PROXY_PREFIX +:+ base64_encode bytes)%string) scopes) Hs Hc Hid) as [Hs' Hc'].
      { intros id' t Ht Heq. apply Hseen. cbn in Heq. rewrite <- Heq. by eapply law_active. }
      split; cbn; [done|by rewrite Hact..].
    + destruct Hres as [Hact _]. split; cbn; [done|by rewrite Hact..].
  - destruct (revoke_token_cases client id at_ r) as (m' & res & Hm & ->).
    apply law_revoke in Hm as (Hst' & _ & _ & Hres); [|done].
    destruct res as [changed|e]; cbn in Hres |- *.
    + assert (sound (filter (keeps_client client id) (clients r)) (store_active m') /\
              covers (filter (keeps_client client id) (clients r)) (store_active m')) as [? ?].
      { eapply table_revoke; [done..|]. destruct changed; naive_solver. }
      by split.
    + split; cbn; [done|by rewrite Hres..].
Qed.

Lemma run_ops_inv r ops : reg_inv r -> Forall op_wf ops -> reg_inv (foldl run_op r ops).
Proof using HML HL.
  intros Hr Hops. revert r Hr. induction Hops as [|op ops Hop _ IH]; intros r Hr; cbn; [done|].
  by apply IH, run_op_inv.
Qed.

(** ** Who is let in *)

(** The tokens that open a scope, in terms of the store alone. *)
Definition grants (act : active_table) (candidate : string) (scope : ClientTokenScope)
  (au : AuthorizedClient) : Prop :=
  exists id t, act !! id = Some t /\ at_digest t = TokenDigest_of candidate /\
    scope ∈ at_scopes t /\ au = mkAuthorized id (at_client_id t).

Lemma validate_grants (r : AuthRegistry (M := M)) act candidate scope au :
  sound (clients r) act -> covers (clients r) act ->
  validate_client_scope r candidate scope = Some au <->
  is_proxy_token candidate = true /\ grants act candidate scope au.
Proof.
  intros Hs Hc. unfold validate_client_scope, grants.
  destruct (is_proxy_token candidate); cbn [negb]; [|naive_solver]. split.
  - destruct (clients r !! TokenDigest_of candidate) as [a|] eqn:Ha; [|done].
    case_bool_decide as Hsc; cbn [negb]; [|done]. intros [= <-]. split; [done|].
    destruct (Hs _ _ Ha) as (t & Ht & Hd & (_ & Hcl & Hperm)).
    exists (act_token_id a), t. split_and!; [done..|by rewrite <- Hperm|].
    unfold authorize. by rewrite Hcl.
  - intros (_ & id & t & Ht & Hd & Hsc & ->).
    destruct (Hc _ _ Ht) as (a & Ha & Hid & Hcl & Hperm). rewrite Hd in Ha. rewrite Ha.
    rewrite bool_decide_eq_true_2 by (by rewrite Hperm). cbn [negb].
    unfold authorize. by rewrite Hid, Hcl.
Qed.

Lemma any_client_grants (r : AuthRegistry (M := M)) act candidate au :
  sound (clients r) act -> validate_any_client r candidate = Some au ->
  is_proxy_token candidate = true /\ exists t, act !! au_token_id au = Some t /\
    at_digest t = TokenDigest_of candidate /\ at_client_id t = au_client_id au.
Proof.
  intros Hs. unfold validate_any_client. destruct (is_proxy_token candidate); [|done].
  cbn [negb]. intros (a & Ha & ->)%fmap_Some. split; [done|].
  destruct (Hs _ _ Ha) as (t & Ht & Hd & (_ & Hcl & _)). exists t. done.
Qed.

Lemma loads_table m l :
  store_ok m -> loads l (store_active m) ->
  exists cl, active_client_map l = Ok cl /\ sound cl (store_active m) /\ covers cl (store_active m).
Proof using HML.
  intros Hst (Hnd & Hin & Hout).
  assert (Forall (fun x => sm_scopes x <> [] /\ NoDup (sm_scopes x)) l) as Hsc.
  { apply list.Forall_forall. intros x Hx. destruct (Hin x Hx) as (t & Ht & _ & _ & Hp).
    destruct (law_active _ _ _ Hst Ht) as (_ & Hn & Hne & _). split; [|by rewrite Hp].
    intros E. rewrite E in Hp. apply Permutation_nil in Hp. done. }
  assert (NoDup (digest_of <$> l)) as Hdg.
  { clear Hout Hsc. induction l as [|x l IH]; [constructor|].
    rewrite fmap_cons, list.NoDup_cons. rewrite fmap_cons, list.NoDup_cons in Hnd.
    destruct Hnd as [Hx Hnd]. split.
    - intros (y & Heq & Hy)%list_elem_of_fmap. apply Hx.
      destruct (Hin x) as (t & Ht & _ & Hd & _); [left|].
      destruct (Hin y) as (t' & Ht' & _ & Hd' & _); [by right|].
      destruct (law_active _ _ _ Hst Ht) as (_ & _ & _ & Huniq).
      apply list_elem_of_fmap. exists y. split; [|done]. cbn.
      symmetry. eapply Huniq; [exact Ht'|]. congruence.
    - apply IH; [done|]. intros y Hy. apply Hin. by right. }
  destruct (add_active_clients l ∅ Hsc Hdg) as (cl & Hcl & Hlook).
  { intros x _. apply lookup_empty. }
  exists cl. split; [done|]. split.
  - intros d a [(x & Hx & <- & ->)|Ha]%Hlook; [|by rewrite lookup_empty in Ha].
    destruct (Hin x Hx) as (t & Ht & Hc & Hd & Hp). exists t. split_and!; try done.
  - intros id t Ht. destruct (Hout _ _ Ht) as (x & Hx & <-).
    destruct (Hin x Hx) as (t' & Ht' & Hc & Hd & Hp). rewrite Ht in Ht'. injection Ht' as <-.
    exists (active_of x). split; [|by split_and!]. apply Hlook. left. eauto.
Qed.

(** ** Following one token *)

(** The operation does not succeed in revoking this token. *)
Definition spares (client id : string) (r : AuthRegistry (M := M)) (op : reg_op) : Prop :=
  match op with
  | OpIssue _ _ _ _ _ => True
  | OpRevoke client' id' at_ =>
      client' = client -> id' = id -> is_ok (revoke_token client' id' at_ r).2 = false
  end.

(** No operation of the run does. *)
Fixpoint spared (client id : string) (r : AuthRegistry (M := M)) (ops : list reg_op) : Prop :=
  match ops with
  | [] => True
  | op :: ops => spares client id r op /\ spared client id (run_op r op) ops
  end.

Lemma active_kept r op id T :
  reg_inv r -> op_wf op -> spares (at_client_id T) id r op ->
  store_active (metadata r) !! id = Some T -> store_active (metadata (run_op r op)) !! id = Some T.
Proof using HML HL.
  intros [Hst _ _] Hwf Hsp HT.
  destruct op as [entropy id' client at_ scopes|client id' at_]; cbn [run_op].
  - destruct (issue_token_cases entropy id' client at_ scopes r)
      as [[e ->]|(bytes & m' & res & -> & Hne & Hnd & Hm & ->)]; [done|].
    destruct Hwf as [Hcl Hent]. cbv zeta in *.
    apply law_issue in Hm as (_ & _ & Hres); [|done| |done..].
    2: { split; [done|]. unfold zlen, TokenDigest_of. cbn. by rewrite sha256_length. }
    destruct res as [[]|e]; cbn in Hres |- *.
    + destruct Hres as (Hid & _ & -> & _). rewrite lookup_insert_ne; [done|]. congruence.
    + by destruct Hres as [-> _].
  - cbn in Hsp. destruct (revoke_token_cases client id' at_ r) as (m' & res & Hm & Heq). rewrite Heq in *.
    apply law_revoke in Hm as (_ & _ & _ & Hres); [|done].
    destruct res as [[|]|e]; cbn in Hres, Hsp |- *.
    + destruct Hres as (t & Ht & Hc & ->). apply lookup_delete_Some. split; [|done].
      intros ->. rewrite HT in Ht. injection Ht as <-. by discriminate Hsp.
    + by destruct Hres as [_ ->].
    + by rewrite Hres.
Qed.

(** A digest the store has seen but no active token has never comes back. *)
Definition dead (m : M) (d : digest_bytes) : Prop :=
  store_seen m d /\ forall id t, store_active m !! id = Some t -> at_digest t <> d.

Lemma dead_kept r op d :
  reg_inv r -> op_wf op -> dead (metadata r) d -> dead (metadata (run_op r op)) d.
Proof using HML HL.
  intros [Hst _ _] Hwf [Hseen Hno].
  destruct op as [entropy id' client at_ scopes|client id' at_]; cbn [run_op].
  - destruct (issue_token_cases entropy id' client at_ scopes r)
      as [[e ->]|(bytes & m' & res & -> & Hne & Hnd & Hm & ->)]; [done|].
    destruct Hwf as [Hcl Hent]. cbv zeta in *.
    apply law_issue in Hm as (_ & _ & Hres); [|done| |done..].
    2: { split; [done|]. unfold zlen, TokenDigest_of. cbn. by rewrite sha256_length. }
    destruct res as [[]|e]; cbn in Hres |- *.
    + destruct Hres as (Hid & Hns & Hact & Hsn). split; [apply Hsn; auto|].
      intros id t. rewrite Hact. intros [[<- <-]|[_ Ht]]%lookup_insert_Some; cbn; [|eauto].
      intros E. apply Hns. rewrite E. exact Hseen.
    + destruct Hres as [Hact Hsn]. split; [by apply Hsn|]. rewrite Hact. exact Hno.
  - destruct (revoke_token_cases client id' at_ r) as (m' & res & Hm & ->).
    apply law_revoke in Hm as (_ & _ & Hsn & Hres); [|done].
    destruct res as [[|]|e]; cbn in Hres |- *; (split; [by apply Hsn|]).
    + destruct Hres as (t & _ & _ & ->). intros id t' [_ Ht]%lookup_delete_Some. eauto.
    + by destruct Hres as [_ ->].
    + by rewrite Hres.
Qed.

Lemma active_kept_ops r ops id T :
  reg_inv r -> Forall op_wf ops -> spared (at_client_id T) id r ops ->
  store_active (metadata r) !! id = Some T ->
  store_active (metadata (foldl run_op r ops)) !! id = Some T.
Proof using HML HL.
  intros Hr Hops. revert r Hr. induction Hops as [|op ops Hop _ IH]; intros r Hr Hsp HT; cbn; [done|].
  destruct Hsp. apply IH; [by apply run_op_inv|done|by apply active_kept].
Qed.

Lemma dead_kept_ops r ops d :
  reg_inv r -> Forall op_wf ops -> dead (metadata r) d -> dead (metadata (foldl run_op r ops)) d.
Proof using HML HL.
  intros Hr Hops. revert r Hr. induction Hops as [|op ops Hop _ IH]; intros r Hr Hd; cbn; [done|].
  apply IH; [by apply run_op_inv|by apply dead_kept].
Qed.

Lemma dead_rejected r candidate scope :
  reg_inv r -> dead (metadata r) (TokenDigest_of candidate) ->
  validate_client_scope r candidate scope = None.
Proof.
  intros [_ Hs Hc] [_ Hno].
  destruct (validate_client_scope r candidate scope) as [au|] eqn:E; [|done].
  apply (validate_grants _ _ _ _ _ Hs Hc) in E as (_ & id & t & Ht & Hd & _).
  by apply Hno in Ht.
Qed.

(** ** Bootstrap *)
Context {S : Type} `{HS : SecretStore S} `{HSL : !SecretStoreLaws S}.

(** The management secret behind a digest. *)
Definition management_secret (w : BootWorld (M := M) (S := S)) (md : digest_bytes) : Prop :=
  exists ref v, store_binding (boot_metadata w) = Some ref /\
    secret_view (boot_secrets w) !! ref = Some v /\ is_admin_token v = true /\ md = TokenDigest_of v.

Lemma read_management_Ok ref (w w' : BootWorld (M := M) (S := S)) md :
  read_management ref w = (w', Ok md) ->
  boot_metadata w' = boot_metadata w /\ secret_view (boot_secrets w') = secret_view (boot_secrets w) /\
  exists v, secret_view (boot_secrets w) !! ref = Some v /\ is_admin_token v = true /\
    md = TokenDigest_of v.
Proof using HSL.
  unfold read_management, st_bind, st_zoom.
  destruct (secret_get ref (boot_secrets w)) as [s' res] eqn:Hg.
  apply law_get in Hg as [Hview Hv]. destruct res as [v|e]; cbn; [|done].
  destruct (is_admin_token v) eqn:Ha; cbn; [|done]. intros [= <- <-]. eauto 10.
Qed.

Lemma create_management_Ok entropy scope at_ (w w' : BootWorld (M := M) (S := S)) md :
  store_ok (boot_metadata w) -> create_management entropy scope at_ w = (w', Ok md) ->
  store_ok (boot_metadata w') /\ store_active (boot_metadata w') = store_active (boot_metadata w) /\
  management_secret w' md.
Proof using HML HSL.
  intros Hst. unfold create_management. unfold st_bind at 1, st_lift at 1.
  destruct (map_err AuthToken (generate_admin entropy)) as [material|e]; [|done].
  unfold st_bind at 1, st_zoom at 1.
  destruct (secret_put scope material (boot_secrets w)) as [s1 [ref|e]] eqn:Hput; cbn [map_err]; [|done].
  unfold st_bind at 1. unfold boot_store at 1, st_zoom at 1. cbn [boot_metadata].
  destruct (store_bind_runtime_secret_if_absent MANAGEMENT_BINDING_NAME ref at_ (boot_metadata w))
    as [m1 res] eqn:Hbind. apply law_bind in Hbind as (Hst1 & Hact & Hb); [|done].
  destruct res as [b|e]; cbn [map_err].
  - destruct (Hb b eq_refl) as [Href Hbound].
    intros (Hm & Hview & v & Hv & Hadm & ->)%read_management_Ok. cbn in Hm, Hview, Hv.
    rewrite Hm. split_and!; [done..|]. exists ref, v. rewrite Hm, Hview. rewrite <- Href at 2. done.
  - unfold recover_orphan, boot_store, st_zoom. cbn [boot_metadata].
    destruct (store_record_orphan_secret ref at_ m1) as [m2 [u|e2]]; cbn; done.
Qed.

Lemma bootstrap_Ok entropy scope at_ (w w' : BootWorld (M := M) (S := S)) md cl :
  store_ok (boot_metadata w) -> bootstrap entropy scope at_ w = (w', Ok (md, cl)) ->
  reg_inv (mkRegistry md cl (boot_metadata w')) /\ management_secret w' md /\
  store_active (boot_metadata w') = store_active (boot_metadata w).
Proof using HML HSL.
  intros Hst. unfold bootstrap. intros (w1 & b & Hb & Hk)%st_bind_Ok.
  unfold boot_store, st_zoom in Hb.
  destruct (store_runtime_secret_binding MANAGEMENT_BINDING_NAME (boot_metadata w)) as [m1 res] eqn:Hq.
  apply law_binding in Hq as (Hst1 & Hact1 & Hbind1 & Hb1); [|done].
  destruct res as [ob|e]; cbn in Hb; [|done]. injection Hb as <- <-.
  specialize (Hb1 eq_refl ob eq_refl).
  apply st_bind_Ok in Hk as (w2 & md' & Hmd & Hk).
  assert (store_ok (boot_metadata w2) /\ store_active (boot_metadata w2) = store_active m1 /\
          management_secret w2 md') as (Hst2 & Hact2 & Hms).
  { destruct ob as [b|].
    - apply read_management_Ok in Hmd as (Hm & Hview & v & Hv & Hadm & ->).
      rewrite Hm. cbn. split_and!; [done..|]. exists (rb_secret_ref b), v.
      rewrite Hm, Hview. cbn in *. rewrite Hbind1, <- Hb1. done.
    - by apply create_management_Ok in Hmd. }
  apply st_bind_Ok in Hk as (w3 & l & Hl & Hk). unfold boot_store, st_zoom in Hl.
  destruct (store_load_active_scoped_client_tokens (boot_metadata w2)) as [m3 res3] eqn:Hload.
  apply law_load in Hload as (Hst3 & Hact3 & Hbind3 & Hl3); [|done].
  destruct res3 as [l'|e]; cbn in Hl; [|done]. injection Hl as <- <-.
  apply st_bind_Ok in Hk as (w4 & cl' & Hcl & Hk). unfold st_lift in Hcl. injection Hcl as <- Hcl.
  unfold st_ret in Hk. injection Hk as <- <- <-. cbn [boot_metadata].
  destruct (loads_table m3 l') as (cl2 & Hcl2 & Hs & Hc); [done|rewrite Hact3; by apply Hl3|].
  rewrite Hcl in Hcl2. injection Hcl2 as <-. split_and!.
  - by split.
  - destruct Hms as (ref & v & Hr & Hv & Ha & Hd). exists ref, v. cbn. by rewrite Hbind3.
  - congruence.
Qed.

(** ** Claims *)

(** C29: who a running registry lets in: after bootstrap and any sequence of
    issue and revoke operations, with any store failures in between, a client
    candidate is granted a scope exactly when it has the proxy-token shape and
    the store holds an active token with its digest that carries the scope, and
    then as that token's client; a management token is never taken for a client
    token or the other way round. *)
Theorem client_access_exact (entropy : result TokenError (list Z)) (scope : SecretScope)
    (at_ : string) (w w' : BootWorld (M := M) (S := S)) (md : digest_bytes) (cl : client_table)
    (ops : list reg_op) :
  store_ok (boot_metadata w) -> bootstrap entropy scope at_ w = (w', Ok (md, cl)) ->
  Forall op_wf ops ->
  let r := foldl run_op (mkRegistry md cl (boot_metadata w')) ops in
  (forall candidate s au, validate_client_scope r candidate s = Some au <->
     is_proxy_token candidate = true /\ grants (store_active (metadata r)) candidate s au) /\
  (forall candidate, validate_management r candidate = true ->
     validate_any_client r candidate = None).
Proof using HML HSL HL.
  intros Hst (Hinv & _ & _)%bootstrap_Ok Hops; [|done]. cbv zeta.
  pose proof (run_ops_inv _ _ Hinv Hops) as [Hst' Hs Hc]. split.
  - intros candidate s au. by apply validate_grants.
  - intros candidate. unfold validate_management, validate_any_client.
    destruct (is_admin_token candidate) eqn:Ha; [|done]. by rewrite (admin_not_proxy _ Ha).
Qed.

(** A restart accepts exactly the same client tokens: whatever was issued
    and revoked since bootstrap, and whichever store operations failed, loading
    the active tokens again builds a table without error that answers every
    candidate and scope as the running one does. *)
Theorem restart_accepts_same_tokens (entropy : result TokenError (list Z)) (scope : SecretScope)
    (at_ : string) (w w' : BootWorld (M := M) (S := S)) (md : digest_bytes) (cl : client_table)
    (ops : list reg_op) (m' : M) (l : list ScopedClientTokenMetadata) :
  store_ok (boot_metadata w) -> bootstrap entropy scope at_ w = (w', Ok (md, cl)) ->
  Forall op_wf ops ->
  let r := foldl run_op (mkRegistry md cl (boot_metadata w')) ops in
  store_load_active_scoped_client_tokens (metadata r) = (m', Ok l) ->
  exists cl', active_client_map l = Ok cl' /\
    forall candidate s, validate_client_scope (mkRegistry md cl' m') candidate s
                        = validate_client_scope r candidate s.
Proof using HML HSL HL.
  intros Hst (Hinv & _ & _)%bootstrap_Ok Hops r Hload; [|done].
  destruct (run_ops_inv _ _ Hinv Hops) as [Hst' Hs Hc].
  apply law_load in Hload as (Hst2 & Hact & _ & Hl); [|done].
  destruct (loads_table (metadata r) l) as (cl' & Hcl' & Hs' & Hc'); [done|by apply Hl|].
  exists cl'. split; [done|]. intros candidate s. apply option_eq. intros au.
  rewrite (validate_grants r _ candidate s au Hs Hc).
  by rewrite (validate_grants (mkRegistry md cl' m') (store_active (metadata r)) candidate s au Hs' Hc').
Qed.

(** C33: the life of a client token: once issued it opens exactly the scopes it
    was issued with, through any operations, attempts to revoke it that fail
    included, until a revocation of it succeeds; from then on it opens nothing,
    whatever is issued later, since the store never accepts a digest twice. *)
Theorem token_lifecycle (r r1 : AuthRegistry (M := M)) (entropy : result TokenError (list Z))
    (id client issued_at revoked_at material : string) (scopes : list ClientTokenScope)
    (before after : list reg_op) (r2 : AuthRegistry (M := M)) (changed : bool) :
  reg_inv r -> op_wf (OpIssue entropy id client issued_at scopes) ->
  issue_token entropy id client issued_at scopes r = (r1, Ok material) ->
  Forall op_wf before -> spared client id r1 before -> Forall op_wf after ->
  (forall s, validate_client_scope (foldl run_op r1 before) material s
             = if bool_decide (s ∈ scopes) then Some (mkAuthorized id client) else None) /\
  (revoke_token client id revoked_at (foldl run_op r1 before) = (r2, Ok changed) ->
   forall s, validate_client_scope (foldl run_op r2 after) material s = None).
Proof using HML HL.
  intros Hinv Hwf Hissue Hbefore Hsp Hafter.
  pose proof (run_op_inv r _ Hinv Hwf) as Hinv1. cbn [run_op] in Hinv1. rewrite Hissue in Hinv1.
  cbn [fst] in Hinv1.
  set (T := mkActiveToken client (TokenDigest_of material) scopes).
  assert (is_proxy_token material = true /\ store_active (metadata r1) !! id = Some T /\
          store_seen (metadata r1) (TokenDigest_of material)) as (Hshape & HT & Hseen).
  { destruct (issue_token_cases entropy id client issued_at scopes r)
      as [[e Heq]|(bytes & m' & res & -> & Hne & Hnd & Hm & Heq)]; [congruence|].
    destruct Hwf as [Hcl Hent]. cbv zeta in *. rewrite Heq in Hissue.
    apply law_issue in Hm as (_ & _ & Hres); [|apply Hinv| |done..].
    2: { split; [done|]. unfold zlen, TokenDigest_of. cbn. by rewrite sha256_length. }
    destruct res as [[]|e]; [|done]. injection Hissue as <- <-.
    destruct Hres as (_ & _ & Hact & Hsn). cbn [metadata]. split_and!.
    - apply generate_shape. by apply Hent.
    - rewrite Hact. apply lookup_insert_eq.
    - apply Hsn. by right. }
  pose proof (run_ops_inv _ _ Hinv1 Hbefore) as Hinv2.
  pose proof (active_kept_ops r1 before id T Hinv1 Hbefore Hsp HT) as HT2.
  set (rb := foldl run_op r1 before) in *. split.
  - intros s. apply option_eq. intros au.
    rewrite (validate_grants rb _ material s au (inv_sound _ Hinv2) (inv_covers _ Hinv2)).
    unfold grants. split.
    + intros (_ & id' & t & Ht & Hd & Hs & ->).
      assert (id' = id) as ->.
      { destruct (law_active _ _ _ (inv_store _ Hinv2) HT2) as (_ & _ & _ & Hu).
        eapply Hu; [exact Ht|done]. }
      rewrite HT2 in Ht. injection Ht as <-. by rewrite bool_decide_eq_true_2.
    + case_bool_decide; [|done]. intros [= <-]. split; [done|]. exists id, T. done.
  - intros Hrev s. destruct (revoke_token_cases client id revoked_at rb) as (m' & res & Hm & Heq).
    rewrite Heq in Hrev. apply law_revoke in Hm as (Hst' & _ & Hsn & Hres); [|apply Hinv2].
    assert (reg_inv r2 /\ dead (metadata r2) (TokenDigest_of material)) as [Hinv3 Hdead].
    { split.
      - assert (r2 = run_op rb (OpRevoke client id revoked_at)) as ->
          by (cbn; rewrite Heq, Hrev; done).
        apply run_op_inv; [done|]. destruct Hwf as [Hcl _]. exact Hcl.
      - destruct res as [ch|e]; [|done]. injection Hrev as <- <-. cbn [metadata].
        destruct (law_active _ _ _ (inv_store _ Hinv2) HT2) as (Hseen2 & _ & _ & Hu).
        destruct ch.
        + destruct Hres as (t & Ht & _ & Hact). split; [by apply Hsn|].
          intros id' t' Ht'. rewrite Hact in Ht'. apply lookup_delete_Some in Ht' as [Hne Ht'].
          intros Hd. apply Hne. symmetry. eapply Hu; [exact Ht'|done].
        + destruct Hres as [Hno _]. by destruct (Hno T HT2). }
    apply dead_rejected; [by apply run_ops_inv|]. by apply dead_kept_ops.
Qed.

(** The management token survives restarts: after a successful bootstrap,
    every later bootstrap over the resulting store and secrets that succeeds
    finds the same management digest, whatever entropy it is given. *)
Theorem management_token_stable (entropy entropy2 : result TokenError (list Z))
    (scope scope2 : SecretScope) (at_ at2 : string) (w w1 w2 : BootWorld (M := M) (S := S))
    (md md2 : digest_bytes) (cl cl2 : client_table) :
  store_ok (boot_metadata w) -> bootstrap entropy scope at_ w = (w1, Ok (md, cl)) ->
  bootstrap entropy2 scope2 at2 w1 = (w2, Ok (md2, cl2)) -> md2 = md.
Proof using HML HSL.
  intros Hst (Hinv & Hms & _)%bootstrap_Ok; [|done]. destruct Hms as (ref & v & Hr & Hv & Ha & ->).
  unfold bootstrap. intros (w' & b & Hb & Hk)%st_bind_Ok. unfold boot_store, st_zoom in Hb.
  destruct (store_runtime_secret_binding MANAGEMENT_BINDING_NAME (boot_metadata w1)) as [m1 res] eqn:Hq.
  apply law_binding in Hq as (Hst1 & Hact1 & Hbind1 & Hb1); [|apply Hinv].
  destruct res as [ob|e]; cbn in Hb; [|done]. injection Hb as <- <-.
  specialize (Hb1 eq_refl ob eq_refl). rewrite Hr in Hb1.
  destruct ob as [b|]; [|done]. injection Hb1 as Hb1.
  apply st_bind_Ok in Hk as (w3 & md3 & Hmd & Hk).
  apply read_management_Ok in Hmd as (_ & _ & v' & Hv' & _ & ->). cbn in Hv'.
  rewrite Hb1, Hv in Hv'. injection Hv' as <-.
  apply st_bind_Ok in Hk as (? & ? & _ & Hk). apply st_bind_Ok in Hk as (? & ? & _ & Hk).
  unfold st_ret in Hk. by injection Hk as _ <- _.
Qed.
End Registry.
