(* ===== verification/AuthStore.v ===== *)
(** * The stores behind the registry

    [StateAuthMetadataStore] over the token tables of [AuthRegistry] satisfies the
    laws the registry is proved against, and so does the in-memory secret store
    of [crates/wokcore-storage/src/secrets/memory.rs].  The witnesses of the
    authentication claims run on them. *)
From S2P Require Import Prelude Ident AuthRegistry AuthSpec.

(** ** In-memory secrets

    [SecretRef::new] draws random references: [mem_ref n] is the [n]-th.
    [mem_poisoned] is the lock's poison flag. *)
Record MemorySecretStore : Type := mkMemory {
  mem_secrets : gmap string string;
  mem_ref : nat -> string;
  mem_next : nat;
  mem_poisoned : bool
}.

Definition mem_set (s : MemorySecretStore) (secrets : gmap string string) : MemorySecretStore :=
  mkMemory secrets (mem_ref s) (mem_next s) (mem_poisoned s).

Definition mem_put (_ : SecretScope) (value : string)
  : st_res MemorySecretStore StorageError string := fun s =>
  let secret_ref := mem_ref s (mem_next s) in
  let s := mkMemory (mem_secrets s) (mem_ref s) (S (mem_next s)) (mem_poisoned s) in
  if mem_poisoned s then (s, Err SecretBackendFailure)
  else (mem_set s (<[secret_ref := value]> (mem_secrets s)), Ok secret_ref).

Definition mem_get (secret_ref : string) : st_res MemorySecretStore StorageError string := fun s =>
  if mem_poisoned s then (s, Err SecretBackendFailure)
  else (s, ok_or (mem_secrets s !! secret_ref) SecretNotFound).

Definition mem_put_scoped (for_scope : SecretScope -> string) (scope : SecretScope) (value : string)
  : st_res MemorySecretStore StorageError string := fun s =>
  let secret_ref := for_scope scope in
  if mem_poisoned s then (s, Err SecretBackendFailure)
  else match mem_secrets s !! secret_ref with
       | Some existing =>
           if bool_decide (existing = value) then (s, Ok secret_ref)
           else (s, Err SecretAlreadyExists)
       | None => (mem_set s (<[secret_ref := value]> (mem_secrets s)), Ok secret_ref)
       end.

Definition mem_replace (secret_ref value : string) : st_res MemorySecretStore StorageError unit :=
  fun s =>
  if mem_poisoned s then (s, Err SecretBackendFailure)
  else match mem_secrets s !! secret_ref with
       | None => (s, Err SecretNotFound)
       | Some _ => (mem_set s (<[secret_ref := value]> (mem_secrets s)), Ok tt)
       end.

Definition mem_delete (secret_ref : string) : st_res MemorySecretStore StorageError unit := fun s =>
  if mem_poisoned s then (s, Err SecretBackendFailure)
  else (mem_set s (delete secret_ref (mem_secrets s)), Ok tt).

#[global] Instance memory_secret_store : SecretStore MemorySecretStore := {|
  secret_put := mem_put;
  secret_get := mem_get
|}.

#[global] Instance memory_secret_laws : SecretStoreLaws MemorySecretStore.
Proof.
  refine (Build_SecretStoreLaws _ _ mem_secrets _ _).
  - intros s ref s' res. cbn. unfold mem_get. destruct (mem_poisoned s); intros [= <- <-].
    + done.
    + split; [done|]. intros v. by rewrite ok_or_Ok.
  - intros s scope v s' ref. cbn. unfold mem_put. cbn.
    destruct (mem_poisoned s); [done|]. intros [= <- <-]. done.
Defined.

(** ** The token tables *)
Section StateStore.
Context (uuid_parse : string -> bool).

#[global] Instance state_auth_store : AuthMetadataStore StateStore := {|
  store_runtime_secret_binding := runtime_secret_binding uuid_parse;
  store_bind_runtime_secret_if_absent := bind_runtime_secret_if_absent;
  store_record_orphan_secret := record_orphan_secret;
  store_load_active_client_tokens :=
    transaction (fun s => let? tokens := load_active_client_tokens s in Ok (s, tokens));
  store_issue_client_token := issue_client_token_proxy_scope;
  store_load_active_scoped_client_tokens := load_active_scoped_client_tokens;
  store_issue_client_token_with_scopes := issue_client_token_with_scopes;
  store_revoke_client_token := revoke_client_token
|}.
End StateStore.

(** What the tables keep: well-formed rows with distinct digests, and scopes
    for exactly the tokens there are. *)
Record tables_ok (s : StateStore) : Prop := {
  to_rows : forall id row, db_tokens s !! id = Some row ->
    is_valid_identifier (row_client_id row) = true /\ zlen (row_digest row) = 32 /\
    exists scopes, db_scopes s !! id = Some (scope_as_str <$> scopes) /\ scopes <> [] /\ NoDup scopes;
  to_digests : forall id id' row row', db_tokens s !! id = Some row ->
    db_tokens s !! id' = Some row' -> row_digest row = row_digest row' -> id = id';
  to_scopes : forall id, is_Some (db_scopes s !! id) -> is_Some (db_tokens s !! id)
}.

Definition parsed_scopes (values : list string) : list ClientTokenScope := omap scope_from_str values.

Definition active_entry (s : StateStore) (id : string) (row : TokenRow) : option ActiveToken :=
  match row_revoked_at row with
  | Some _ => None
  | None => Some (mkActiveToken (row_client_id row) (row_digest row)
                    (parsed_scopes (default [] (db_scopes s !! id))))
  end.

Definition tables_active (s : StateStore) : active_table := map_imap (active_entry s) (db_tokens s).

Definition tables_seen (s : StateStore) (d : digest_bytes) : Prop :=
  exists id row, db_tokens s !! id = Some row /\ row_digest row = d.

Definition tables_binding (s : StateStore) : option string :=
  rb_secret_ref <$> db_bindings s !! MANAGEMENT_BINDING_NAME.

Definition tail_faults (s : StateStore) : StateStore :=
  mkStateStore (db_tokens s) (db_scopes s) (db_bindings s) (db_orphans s) (tail (db_faults s)).

Lemma tables_active_lookup s id t :
  tables_active s !! id = Some t <->
  exists row, db_tokens s !! id = Some row /\ row_revoked_at row = None /\
    t = mkActiveToken (row_client_id row) (row_digest row)
          (parsed_scopes (default [] (db_scopes s !! id))).
Proof.
  unfold tables_active. rewrite map_lookup_imap, bind_Some. unfold active_entry. split.
  - intros (row & Hrow & Ht). exists row. destruct (row_revoked_at row); [done|]. by injection Ht as <-.
  - intros (row & Hrow & Hr & ->). exists row. by rewrite Hr.
Qed.

Lemma transaction_cases {A} (body : StateStore -> result StorageError (StateStore * A)) s s' res :
  transaction body s = (s', res) ->
  (exists e, s' = tail_faults s /\ res = Err e) \/
  exists a, body (tail_faults s) = Ok (s', a) /\ res = Ok a.
Proof.
  unfold transaction. fold (tail_faults s). destruct (default false (head (db_faults s))).
  - intros [= <- <-]. left. eauto.
  - destruct (body (tail_faults s)) as [[s1 a]|e]; intros [= <- <-]; eauto.
Qed.

Lemma scope_from_as_str s : scope_from_str (scope_as_str s) = Some s.
Proof. by destruct s. Qed.

Lemma scope_as_str_inj a b : scope_as_str a = scope_as_str b -> a = b.
Proof. intros E. apply (f_equal scope_from_str) in E. rewrite !scope_from_as_str in E. congruence. Qed.

Lemma parsed_as_str scopes : parsed_scopes (scope_as_str <$> scopes) = scopes.
Proof.
  unfold parsed_scopes. induction scopes as [|a l IH]; [done|].
  destruct a; cbn; f_equal; exact IH.
Qed.

Lemma insert_scopes_table id l tbl tbl' :
  l <> [] -> try_fold (insert_scope id) tbl l = Ok tbl' ->
  tbl' = <[id := default [] (tbl !! id) ++ (scope_as_str <$> l)]> tbl.
Proof.
  revert tbl. induction l as [|a l IH]; intros tbl Hne; [done|]. cbn [try_fold].
  intros (t1 & H1 & H2)%result_bind_Ok. unfold insert_scope in H1.
  apply check_Ok in H1 as [_ [= <-]]. destruct l as [|b l].
  - cbn in H2. injection H2 as <-. done.
  - apply IH in H2; [|done]. rewrite H2, lookup_insert_eq. cbn [default Datatypes.id].
    rewrite insert_insert_eq, <- app_assoc. done.
Qed.

Lemma insert_token_Ok t m m' :
  insert_token t m = Ok m' ->
  m !! tm_token_id t = None /\ zlen (tm_digest t) = 32 /\
  (forall id row, m !! id = Some row -> row_digest row <> tm_digest t) /\
  m' = <[tm_token_id t := mkTokenRow (tm_client_id t) (tm_digest t) (tm_issued_at t) None]> m.
Proof.
  unfold insert_token. rewrite !check_Ok, !guard_err_Ok, is_someb_false, negb_false_iff, Z.eqb_eq.
  intros (Hid & Hd & Hl & [= <-]). split_and!; [done..| |done].
  intros id row Hrow Heq. apply not_true_iff_false in Hd. apply Hd, existsb_exists.
  exists (id, row). split; [by apply list_elem_of_In, elem_of_map_to_list|].
  by apply bool_decide_eq_true_2.
Qed.

Lemma tables_ok_tail s : tables_ok s -> tables_ok (tail_faults s).
Proof. by intros [? ? ?]; split. Qed.

Lemma tables_ok_frame s s' :
  db_tokens s' = db_tokens s -> db_scopes s' = db_scopes s -> tables_ok s ->
  tables_ok s' /\ tables_active s' = tables_active s.
Proof.
  intros Ht Hs [H1 H2 H3]. split.
  - split; intros *; rewrite ?Ht, ?Hs; eauto.
  - unfold tables_active, active_entry. by rewrite Ht, Hs.
Qed.

Lemma tables_active_law s id t : tables_ok s -> tables_active s !! id = Some t ->
  tables_seen s (at_digest t) /\ NoDup (at_scopes t) /\ at_scopes t <> [] /\
  forall id' t', tables_active s !! id' = Some t' -> at_digest t' = at_digest t -> id' = id.
Proof.
  intros Hok (row & Hrow & Hr & ->)%tables_active_lookup. cbn [at_digest at_scopes].
  destruct (to_rows _ Hok _ _ Hrow) as (_ & _ & scopes & Hs & Hne & Hnd).
  rewrite Hs. cbn [default Datatypes.id]. rewrite parsed_as_str. split_and!; [by exists id, row|done|done|].
  intros id' t' (row' & Hrow' & _ & ->)%tables_active_lookup. cbn [at_digest].
  intros Hd. by eapply (to_digests _ Hok).
Qed.

Lemma issue_body_Ok s t scopes s' u :
  tables_ok s -> scopes <> [] ->
  (let? tokens := insert_token t (db_tokens s) in
   let? table := try_fold (insert_scope (tm_token_id t)) (db_scopes s) scopes in
   Ok (mkStateStore tokens table (db_bindings s) (db_orphans s) (db_faults s), u)) = Ok (s', tt) ->
  db_tokens s !! tm_token_id t = None /\ zlen (tm_digest t) = 32 /\
  ~ tables_seen s (tm_digest t) /\ db_bindings s' = db_bindings s /\
  db_tokens s' = <[tm_token_id t := mkTokenRow (tm_client_id t) (tm_digest t) (tm_issued_at t) None]>
                   (db_tokens s) /\
  db_scopes s' = <[tm_token_id t := scope_as_str <$> scopes]> (db_scopes s).
Proof.
  intros Hok Hne (tokens & Ht & Hk)%result_bind_Ok.
  apply result_bind_Ok in Hk as (table & Hs & [= <- _]). cbn.
  apply insert_token_Ok in Ht as (Hid & Hl & Hd & ->).
  apply insert_scopes_table in Hs as ->; [|done].
  assert (db_scopes s !! tm_token_id t = None) as ->.
  { apply eq_None_not_Some. intros Hx%(to_scopes _ Hok). rewrite Hid in Hx. by destruct Hx. }
  split_and!; [done..| |done|done|done]. intros (id & row & Hrow & E). by apply (Hd id row).
Qed.

Lemma issued_ok s s' t scopes :
  tables_ok s -> token_wf t -> scopes <> [] -> NoDup scopes ->
  db_tokens s !! tm_token_id t = None -> ~ tables_seen s (tm_digest t) ->
  db_tokens s' = <[tm_token_id t := mkTokenRow (tm_client_id t) (tm_digest t) (tm_issued_at t) None]>
                   (db_tokens s) ->
  db_scopes s' = <[tm_token_id t := scope_as_str <$> scopes]> (db_scopes s) ->
  tables_ok s' /\
  tables_active s' = <[tm_token_id t := mkActiveToken (tm_client_id t) (tm_digest t) scopes]>
                       (tables_active s) /\
  (forall d, tables_seen s' d <-> tables_seen s d \/ d = tm_digest t).
Proof.
  intros [Hrows Hdig Hsc] [Hcl Hlen] Hne Hnd Hid Hns Ht Hs. split_and!.
  - split.
    + intros id row. rewrite Ht, Hs, lookup_insert_Some. intros [[<- <-]|[Hn Hrow]]; cbn.
      * rewrite lookup_insert_eq. eauto 10.
      * rewrite lookup_insert_ne by done. eauto.
    + intros id id' row row'. rewrite Ht, !lookup_insert_Some.
      intros [[<- <-]|[Hn Hr]] [[<- <-]|[Hn' Hr']]; cbn; [done| | |eauto];
        intros E; destruct Hns; unfold tables_seen; eauto.
    + intros id. rewrite Ht, Hs, !lookup_insert_is_Some. naive_solver.
  - apply map_eq. intros id. apply option_eq. intros tok.
    rewrite tables_active_lookup, lookup_insert_Some, tables_active_lookup. rewrite Ht, Hs.
    split.
    + intros (row & [[<- <-]|[Hn Hr]]%lookup_insert_Some & Hrev & ->).
      * left. cbn. rewrite lookup_insert_eq. cbn [default Datatypes.id]. by rewrite parsed_as_str.
      * right. split; [done|]. exists row. by rewrite lookup_insert_ne.
    + intros [[<- <-]|(Hn & row & Hr & Hrev & ->)].
      * eexists. rewrite !lookup_insert_eq. split_and!; [done..|]. cbn [default Datatypes.id].
        by rewrite parsed_as_str.
      * exists row. by rewrite !lookup_insert_ne.
  - intros d. unfold tables_seen. rewrite Ht. split.
    + intros (id & row & [[<- <-]|[Hn Hr]]%lookup_insert_Some & <-); eauto.
    + intros [(id & row & Hr & <-)| ->].
      * exists id, row. split; [|done]. rewrite lookup_insert_ne; [done|]. congruence.
      * do 2 eexists. rewrite lookup_insert_eq. done.
Qed.

Lemma tables_issue_law s t scopes s' res : tables_ok s -> token_wf t ->
  scopes <> [] -> NoDup scopes ->
  issue_client_token_with_scopes t scopes s = (s', res) ->
  tables_ok s' /\ tables_binding s' = tables_binding s /\
  match res with
  | Ok _ => tables_active s !! tm_token_id t = None /\ ~ tables_seen s (tm_digest t) /\
      tables_active s' =
        <[tm_token_id t := mkActiveToken (tm_client_id t) (tm_digest t) scopes]> (tables_active s) /\
      (forall d, tables_seen s' d <-> tables_seen s d \/ d = tm_digest t)
  | Err _ => tables_active s' = tables_active s /\ (forall d, tables_seen s' d <-> tables_seen s d)
  end.
Proof.
  intros Hok Hwf Hne Hnd. unfold issue_client_token_with_scopes.
  rewrite (proj2 (is_emptyb_false scopes)) by done.
  destruct (try_fold scope_seen _ scopes); [|by intros [= <- <-]].
  intros [(e & -> & ->)|([] & Hb & ->)]%transaction_cases.
  - split_and!; [by apply tables_ok_tail|done..].
  - apply issue_body_Ok in Hb as (Hid & Hl & Hns & Hbd & Ht & Hs); [|by apply tables_ok_tail|done].
    cbn in *. destruct (issued_ok s s' t scopes) as (H1 & H2 & H3); [done..|].
    unfold tables_binding. rewrite Hbd. split_and!; [done..| |done|done|done].
    apply eq_None_not_Some. intros [tok Htok].
    apply tables_active_lookup in Htok as (row & Hrow & _). congruence.
Qed.

Lemma revoked_ok s s' id row at_ :
  tables_ok s -> db_tokens s !! id = Some row ->
  db_tokens s' = <[id := mkTokenRow (row_client_id row) (row_digest row) (row_issued_at row)
                            (Some at_)]> (db_tokens s) ->
  db_scopes s' = db_scopes s ->
  tables_ok s' /\ tables_active s' = delete id (tables_active s) /\
  (forall d, tables_seen s' d <-> tables_seen s d).
Proof.
  intros [Hrows Hdig Hsc] Hrow Ht Hs. split_and!.
  - split.
    + intros id' row'. rewrite Ht, Hs, lookup_insert_Some. intros [[<- <-]|[Hn Hr]]; cbn; eauto.
    + intros id1 id2 row1 row2. rewrite Ht, !lookup_insert_Some.
      intros [[<- <-]|[Hn Hr]] [[<- <-]|[Hn' Hr']]; cbn; eauto.
    + intros id'. rewrite Ht, Hs, lookup_insert_is_Some. intros H%Hsc.
      destruct (decide (id = id')); auto.
  - apply map_eq. intros id'. apply option_eq. intros tok.
    rewrite lookup_delete_Some, !tables_active_lookup, Ht, Hs. split.
    + intros (row' & [[<- <-]|[Hn Hr]]%lookup_insert_Some & Hrev & ->); [done|]. eauto.
    + intros (Hn & row' & Hr & Hrev & ->). exists row'. by rewrite lookup_insert_ne.
  - intros d. unfold tables_seen. rewrite Ht. split.
    + intros (id' & row' & [[<- <-]|[Hn Hr]]%lookup_insert_Some & <-); cbn; eauto.
    + intros (id' & row' & Hr & <-). destruct (decide (id = id')) as [<-|Hn].
      * do 2 eexists. rewrite lookup_insert_eq. split; [done|]. cbn. congruence.
      * exists id', row'. by rewrite lookup_insert_ne.
Qed.

Lemma tables_revoke_law s client id at_ s' res : tables_ok s ->
  revoke_client_token client id at_ s = (s', res) ->
  tables_ok s' /\ tables_binding s' = tables_binding s /\
  (forall d, tables_seen s' d <-> tables_seen s d) /\
  match res with
  | Ok changed =>
      if changed
      then exists t, tables_active s !! id = Some t /\ at_client_id t = client /\
             tables_active s' = delete id (tables_active s)
      else (forall t, tables_active s !! id = Some t -> at_client_id t <> client) /\
           tables_active s' = tables_active s
  | Err _ => tables_active s' = tables_active s
  end.
Proof.
  intros Hok. unfold revoke_client_token.
  intros [(e & -> & ->)|(changed & Hb & ->)]%transaction_cases.
  { split_and!; [by apply tables_ok_tail|done..]. }
  cbn in Hb. destruct (db_tokens s !! id) as [row|] eqn:Hrow.
  2: { injection Hb as <- <-. split_and!; [by apply tables_ok_tail|done|done| |done].
       intros t (row & Hr & _)%tables_active_lookup. congruence. }
  destruct (bool_decide_reflect (row_client_id row = client)) as [Hc|Hc];
    destruct (row_revoked_at row) as [r|] eqn:Hr; cbn in Hb; injection Hb as <- <-.
  2: { destruct (revoked_ok s (mkStateStore
         (<[id:=mkTokenRow (row_client_id row) (row_digest row) (row_issued_at row) (Some at_)]>
            (db_tokens s)) (db_scopes s) (db_bindings s) (db_orphans s) (tail (db_faults s)))
         id row at_) as (H1 & H2 & H3); [done..|].
       split_and!; [exact H1|done|exact H3|].
       eexists. split_and!; [apply tables_active_lookup; eauto|exact Hc|exact H2]. }
  all: split_and!; [by apply tables_ok_tail|done|done| |done];
    intros t (row' & Hr' & Hrev & ->)%tables_active_lookup; cbn; congruence.
Qed.

(** ** Loading *)
Lemma active_rows_elem s id row :
  (id, row) ∈ active_rows s <-> db_tokens s !! id = Some row /\ row_revoked_at row = None.
Proof.
  unfold active_rows. rewrite list_elem_of_In, filter_In, <- list_elem_of_In, elem_of_btree_iter.
  cbn. destruct (row_revoked_at row); cbn; naive_solver.
Qed.

Lemma active_rows_nodup s : NoDup (active_rows s).*1.
Proof.
  unfold active_rows. pose proof (NoDup_fst_btree_iter (db_tokens s)) as Hnd. revert Hnd.
  induction (btree_iter (db_tokens s)) as [|[id row] l IH]; [done|].
  cbn [fmap list_fmap fst List.filter]. rewrite list.NoDup_cons. intros [Hn Hnd].
  destruct (negb _); [|by apply IH]. cbn [fmap list_fmap fst]. constructor; [|by apply IH].
  intros ([? ?] & -> & Hin)%list_elem_of_fmap. apply Hn, list_elem_of_fmap.
  apply list_elem_of_In, filter_In in Hin as [Hin%list_elem_of_In _]. eexists; split; [|done]. done.
Qed.

(** One row read back with its scopes. *)
Definition reads_row (s : StateStore) (entry : string * TokenRow) (x : ScopedClientTokenMetadata)
  : Prop :=
  sm_token x = mkTokenMetadata entry.1 (row_client_id entry.2) (row_digest entry.2)
                 (row_issued_at entry.2) /\
  sm_scopes x ≡ₚ parsed_scopes (default [] (db_scopes s !! entry.1)).

Lemma try_map_scopes l scopes :
  try_map (fun value => ok_or (scope_from_str value)
    (StateDatabaseCorrupt "client token metadata contains an invalid scope")) l = Ok scopes ->
  scopes = parsed_scopes l.
Proof.
  rewrite try_map_Ok. unfold parsed_scopes. induction 1 as [|v sc l scs Hv _ IH]; [done|].
  apply ok_or_Ok in Hv. cbn [omap list_omap]. rewrite Hv. by rewrite IH.
Qed.

Lemma load_active_rows s l :
  (let? tokens := load_active_client_tokens s in try_map (load_scopes s) tokens) = Ok l ->
  Forall2 (reads_row s) (active_rows s) l.
Proof.
  intros (tokens & H1 & H2)%result_bind_Ok. apply try_map_Ok in H1, H2.
  revert l H2. induction H1 as [|[id row] tok rows toks Hrow _ IH]; intros l H2;
    inversion H2 as [|? x ? xs Hx Hxs]; subst; constructor; [|by apply IH].
  unfold load_row in Hrow. apply check_Ok in Hrow as [_ Hrow]. apply check_Ok in Hrow as [_ [= <-]].
  unfold load_scopes in Hx. apply result_bind_Ok in Hx as (scopes & Hs & Hx).
  apply check_Ok in Hx as [_ [= <-]]. apply try_map_scopes in Hs as ->.
  split; [done|]. cbn. apply sort_by_key_perm.
Qed.

Lemma reads_rows_load s l :
  tables_ok s -> Forall2 (reads_row s) (active_rows s) l -> loads l (tables_active s).
Proof.
  intros Hok Hl. split_and!.
  - assert ((tm_token_id ∘ sm_token) <$> l = (active_rows s).*1) as ->
      by (induction Hl as [|e x ? ? [E _]]; cbn in *; [done|]; rewrite E; cbn; by f_equal).
    apply active_rows_nodup.
  - intros x Hx. destruct (list_elem_of_lookup_1 _ _ Hx) as [i Hi].
    destruct (Forall2_lookup_r _ _ _ _ _ Hl Hi) as ([id row] & Hrow & Htok & Hsc).
    apply list_elem_of_lookup_2, active_rows_elem in Hrow as [Hrow Hrev].
    rewrite Htok. cbn in *. eexists. rewrite tables_active_lookup. split; [by eauto|]. done.
  - intros id t (row & Hrow & Hrev & ->)%tables_active_lookup.
    assert ((id, row) ∈ active_rows s) as Hin by by apply active_rows_elem.
    destruct (list_elem_of_lookup_1 _ _ Hin) as [i Hi].
    destruct (Forall2_lookup_l _ _ _ _ _ Hl Hi) as (x & Hx & Htok & _).
    exists x. split; [by eapply list_elem_of_lookup_2|]. by rewrite Htok.
Qed.

Lemma tables_load_law s s' res : tables_ok s ->
  load_active_scoped_client_tokens s = (s', res) ->
  tables_ok s' /\ tables_active s' = tables_active s /\ tables_binding s' = tables_binding s /\
  (forall l, res = Ok l -> loads l (tables_active s)).
Proof.
  intros Hok. unfold load_active_scoped_client_tokens.
  intros [(e & -> & ->)|(l & Hb & ->)]%transaction_cases.
  { split_and!; [by apply tables_ok_tail|done..]. }
  apply result_bind_Ok in Hb as (tokens & H1 & Hb). apply result_bind_Ok in Hb as (sc & H2 & [= <- <-]).
  split_and!; [by apply tables_ok_tail|done|done|]. intros l' [= <-].
  apply (reads_rows_load (tail_faults s)); [by apply tables_ok_tail|].
  apply load_active_rows. rewrite H1. exact H2.
Qed.

Lemma tables_binding_law uuid_parse s name s' res : tables_ok s ->
  runtime_secret_binding uuid_parse name s = (s', res) ->
  tables_ok s' /\ tables_active s' = tables_active s /\ tables_binding s' = tables_binding s /\
  (name = MANAGEMENT_BINDING_NAME -> forall b, res = Ok b -> rb_secret_ref <$> b = tables_binding s).
Proof.
  intros Hok. unfold runtime_secret_binding.
  intros [(e & -> & ->)|(ob & Hb & ->)]%transaction_cases.
  { split_and!; [by apply tables_ok_tail|done..]. }
  assert (s' = tail_faults s /\ ob = db_bindings s !! name) as [-> ->].
  { cbn in Hb. destruct (db_bindings s !! name) as [b|]; [|by injection Hb as <- <-].
    apply check_Ok in Hb as [_ Hb]. apply check_Ok in Hb as [_ Hb]. by injection Hb as <- <-. }
  split_and!; [by apply tables_ok_tail|done|done|]. by intros -> b [= <-].
Qed.

Lemma tables_bind_law s ref at_ s' res : tables_ok s ->
  bind_runtime_secret_if_absent MANAGEMENT_BINDING_NAME ref at_ s = (s', res) ->
  tables_ok s' /\ tables_active s' = tables_active s /\
  (forall b, res = Ok b -> rb_secret_ref b = ref /\ tables_binding s' = Some ref).
Proof.
  intros Hok. unfold bind_runtime_secret_if_absent.
  intros [(e & -> & ->)|(b & Hb & ->)]%transaction_cases.
  { split_and!; [by apply tables_ok_tail|done..]. }
  cbn in Hb. destruct (db_bindings s !! _) as [b'|]; [by destruct (rb_revision b' <? 0)|]. injection Hb as <- <-.
  destruct (tables_ok_frame s (mkStateStore (db_tokens s) (db_scopes s)
    (<[MANAGEMENT_BINDING_NAME:=mkBinding MANAGEMENT_BINDING_NAME ref 1 at_]> (db_bindings s))
    (db_orphans s) (tail (db_faults s)))) as [H1 H2]; [done..|].
  split_and!; [exact H1|exact H2|]. intros b [= <-]. split; [done|].
  unfold tables_binding. cbn. by rewrite lookup_insert_eq.
Qed.

(** The token tables satisfy what the registry relies on. *)
#[global] Instance state_auth_laws uuid_parse
  : @AuthMetadataLaws StateStore (state_auth_store uuid_parse).
Proof.
  refine (@Build_AuthMetadataLaws StateStore (state_auth_store uuid_parse)
    tables_ok tables_active tables_seen tables_binding _ _ _ _ _ _).
  - exact tables_active_law.
  - exact tables_issue_law.
  - exact tables_revoke_law.
  - exact tables_load_law.
  - exact (tables_binding_law uuid_parse).
  - exact tables_bind_law.
Defined.

(** ** Witnesses

    A toy digest (the last 32 bytes) and a toy encoding (the bytes themselves
    behind padding) stand for SHA-256 and base64. *)
Definition byte_char (b : Z) : Ascii.ascii := Ascii.ascii_of_N (Z.to_N b).

Definition demo_padding : string := "AAAAAAAAAAA".

#[local] Instance demo_crypto : CryptoCrate := {|
  sha256_digest s := take 32 (reverse (str_bytes s) ++ replicate 32 0);
  base64_encode l := demo_padding +:+ String.string_of_list_ascii (byte_char <$> l);
  base64_decode s := Some (drop 11 (str_bytes s))
|}.

Lemma byte_char_val b : 0 <= b < 256 -> byte_val (byte_char b) = b.
Proof. intros Hb. unfold byte_val, byte_char. rewrite Ascii.N_ascii_embedding; lia. Qed.

Lemma str_bytes_of_list l : Forall (fun b => 0 <= b < 256) l ->
  str_bytes (String.string_of_list_ascii (byte_char <$> l)) = l.
Proof.
  intros Hl. unfold str_bytes, str_ascii. rewrite String.list_ascii_of_string_of_list_ascii.
  rewrite <- list_fmap_compose. induction Hl as [|b l Hb _ IH]; [done|].
  rewrite fmap_cons, IH. f_equal. by apply byte_char_val.
Qed.

Lemma string_of_list_length l : String.length (String.string_of_list_ascii l) = length l.
Proof. induction l as [|a l IH]; cbn; [done|by rewrite IH]. Qed.

#[local] Instance demo_crypto_laws : CryptoLaws.
Proof.
  split.
  - intros s. cbn [sha256_digest demo_crypto]. rewrite length_take, length_app, length_replicate. lia.
  - intros l [Hl _]. unfold str_len, zlen, ENTROPY_BYTES, ENCODED_ENTROPY_BYTES in *.
    change (Z.of_nat (11 + String.length (String.string_of_list_ascii (byte_char <$> l))) = 43).
    rewrite string_of_list_length, length_fmap. lia.
  - intros l [_ Hl]. cbn [base64_encode base64_decode demo_crypto].
    rewrite str_bytes_app, str_bytes_of_list by done. done.
Qed.

Definition demo_uuid (_ : string) : bool := true.
Definition demo_entropy (b : Z) : result TokenError (list Z) := Ok (replicate 32 b).
Definition demo_state : StateStore := mkStateStore ∅ ∅ ∅ ∅ [].
Definition demo_secrets : MemorySecretStore := mkMemory ∅ (fun _ => SECRET_REF_PREFIX) 0 false.

Lemma demo_state_ok : tables_ok demo_state.
Proof. split; intros *; cbn; rewrite ?lookup_empty; [done..|]. by intros []. Qed.

Lemma demo_entropy_ok b l : 0 <= b < 256 -> demo_entropy b = Ok l -> entropy_bytes l.
Proof.
  intros Hb [= <-]. split; [done|]. exact (list.Forall_replicate _ 32 b Hb).
Qed.

(** The registry the witnesses start from: first start, nothing stored. *)
Definition demo_world : BootWorld (M := StateStore) (S := MemorySecretStore) :=
  mkBoot demo_state demo_secrets.
Definition demo_boot :=
  bootstrap (H := state_auth_store demo_uuid) (demo_entropy 7) demo_scope "t0" demo_world.
Definition demo_ops : list reg_op :=
  [OpIssue (demo_entropy 1) "tok-1" "client-1" "t1" [ProxyUse; UsageRead];
   OpIssue (demo_entropy 2) "tok-2" "client-2" "t2" [ProxyUse];
   OpIssue (demo_entropy 2) "tok-3" "client-2" "t3" [ProxyUse];
   OpRevoke "client-2" "tok-2" "t4"].

Lemma demo_ops_wf : Forall op_wf demo_ops.
Proof.
  unfold demo_ops. repeat apply list.Forall_cons_2; [| | | |done];
    try (split; [done|]; intros l; by apply demo_entropy_ok). done.
Qed.

Definition demo_digest : digest_bytes :=
  match snd demo_boot with Ok (md, _) => md | Err _ => [] end.
Definition demo_clients : client_table :=
  match snd demo_boot with Ok (_, cl) => cl | Err _ => ∅ end.

Lemma demo_boot_ok : demo_boot = (fst demo_boot, Ok (demo_digest, demo_clients)).
Proof. vm_compute. reflexivity. Qed.

Abbreviation demo_running :=
  (foldl (run_op (HM := state_auth_store demo_uuid))
     (mkRegistry demo_digest demo_clients (boot_metadata (fst demo_boot))) demo_ops).

Definition demo_material (b : Z) : string := PROXY_PREFIX +:+ base64_encode (replicate 32 b).

Lemma client_access_exact_witness :
  validate_client_scope demo_running (demo_material 1) UsageRead
    = Some (mkAuthorized "tok-1" "client-1") /\
  validate_client_scope demo_running (demo_material 2) ProxyUse = None /\
  (forall candidate s au, validate_client_scope demo_running candidate s = Some au <->
     is_proxy_token candidate = true /\ grants (tables_active (metadata demo_running)) candidate s au) /\
  (forall candidate, validate_management demo_running candidate = true ->
     validate_any_client demo_running candidate = None).
Proof.
  split; [vm_compute; reflexivity|]. split; [vm_compute; reflexivity|].
  apply (client_access_exact (HML := state_auth_laws demo_uuid)
    (demo_entropy 7) demo_scope "t0" demo_world (fst demo_boot) demo_digest demo_clients demo_ops).
  - exact demo_state_ok.
  - exact demo_boot_ok.
  - exact demo_ops_wf.
Defined.

Definition demo_load : StateStore * result StorageError (list ScopedClientTokenMetadata) :=
  store_load_active_scoped_client_tokens (AuthMetadataStore := state_auth_store demo_uuid)
    (metadata demo_running).

Definition demo_loaded : list ScopedClientTokenMetadata :=
  match snd demo_load with Ok l => l | Err _ => [] end.

Lemma demo_load_ok :
  store_load_active_scoped_client_tokens (AuthMetadataStore := state_auth_store demo_uuid)
    (metadata demo_running) = (fst demo_load, Ok demo_loaded).
Proof. vm_compute. reflexivity. Qed.

Lemma restart_accepts_same_tokens_witness :
  length demo_loaded = 1%nat /\
  exists cl', active_client_map demo_loaded = Ok cl' /\
    forall candidate s, validate_client_scope (mkRegistry demo_digest cl' (fst demo_load)) candidate s
                        = validate_client_scope demo_running candidate s.
Proof.
  split; [vm_compute; reflexivity|].
  apply (restart_accepts_same_tokens (HML := state_auth_laws demo_uuid)
    (demo_entropy 7) demo_scope "t0" demo_world (fst demo_boot) demo_digest demo_clients demo_ops
    (fst demo_load) demo_loaded demo_state_ok demo_boot_ok demo_ops_wf).
  exact demo_load_ok.
Defined.

(** The running registry when the second transaction from now will fail. *)
Definition demo_failing : AuthRegistry (M := StateStore) :=
  let s := metadata demo_running in
  mkRegistry (management_digest demo_running) (clients demo_running)
    (mkStateStore (db_tokens s) (db_scopes s) (db_bindings s) (db_orphans s) [false; true]).

Lemma demo_failing_inv : reg_inv (HM := state_auth_store demo_uuid) (HML := state_auth_laws demo_uuid) demo_failing.
Proof.
  assert (reg_inv (HM := state_auth_store demo_uuid) (HML := state_auth_laws demo_uuid) demo_running) as [Hst Hs Hc].
  { apply run_ops_inv; [|exact demo_ops_wf].
    exact (proj1 (bootstrap_Ok (HML := state_auth_laws demo_uuid) _ _ _ demo_world _ _ _
                    demo_state_ok demo_boot_ok)). }
  destruct (tables_ok_frame (metadata demo_running) (metadata demo_failing) eq_refl eq_refl Hst) as [Hok Ha].
  split; [exact Hok| |]; cbn [store_active state_auth_laws]; rewrite Ha; done.
Qed.

Lemma token_lifecycle_witness :
  let r1 := fst (issue_token (H := state_auth_store demo_uuid) (demo_entropy 9) "tok-9" "client-9"
                   "t5" [UsageRead] demo_failing) in
  let before := [OpRevoke "client-9" "tok-9" "t6"; OpRevoke "client-1" "tok-1" "t6"] in
  let after := [OpIssue (demo_entropy 9) "tok-10" "client-9" "t8" [UsageRead]] in
  let rb := foldl (run_op (HM := state_auth_store demo_uuid)) r1 before in
  let r2 := fst (revoke_token (H := state_auth_store demo_uuid) "client-9" "tok-9" "t7" rb) in
  (forall s, validate_client_scope rb (demo_material 9) s
             = if bool_decide (s ∈ [UsageRead]) then Some (mkAuthorized "tok-9" "client-9") else None) /\
  (forall s, validate_client_scope (foldl (run_op (HM := state_auth_store demo_uuid)) r2 after)
               (demo_material 9) s = None).
Proof.
  intros r1 before after rb r2.
  destruct (token_lifecycle (HML := state_auth_laws demo_uuid) demo_failing r1 (demo_entropy 9)
    "tok-9" "client-9" "t5" "t7" (demo_material 9) [UsageRead] before after r2 true) as [Ha Hb].
  - exact demo_failing_inv.
  - split; [done|]. intros l. by apply demo_entropy_ok.
  - vm_compute. reflexivity.
  - by repeat apply list.Forall_cons_2.
  - split; [|split; [|exact I]]; intros Hc Hi; [vm_compute; reflexivity|discriminate Hi].
  - apply list.Forall_singleton. split; [done|]. intros l. by apply demo_entropy_ok.
  - split; [exact Ha|]. apply Hb. vm_compute. reflexivity.
Defined.

Definition demo_again :=
  bootstrap (H := state_auth_store demo_uuid) (demo_entropy 8) demo_scope "t9" (fst demo_boot).

Definition demo_again_digest : digest_bytes :=
  match snd demo_again with Ok (md, _) => md | Err _ => [] end.
Definition demo_again_clients : client_table :=
  match snd demo_again with Ok (_, cl) => cl | Err _ => ∅ end.

Lemma demo_again_ok : demo_again = (fst demo_again, Ok (demo_again_digest, demo_again_clients)).
Proof. vm_compute. reflexivity. Qed.

Lemma management_token_stable_witness : demo_again_digest = demo_digest.
Proof.
  apply (management_token_stable (HML := state_auth_laws demo_uuid)
    (demo_entropy 7) (demo_entropy 8) demo_scope demo_scope "t0" "t9" demo_world (fst demo_boot)
    (fst demo_again) demo_digest demo_again_digest demo_clients demo_again_clients
    demo_state_ok demo_boot_ok demo_again_ok).
Defined.
