(* ===== verification/Json.v ===== *)
(** * JSON values

    What the sources use of [serde_json::Value].  A [Map] is a [gmap]; inside a
    value an object is the list of its entries in ascending key order, the order
    in which the crate keeps and iterates them.  Parsing and printing are
    third-party code and arguments of the definitions that use them. *)
From S2P Require Import Prelude.

Inductive Number : Set :=
| PosInt (n : Z)
| NegInt (n : Z)
| Float (bits : Z).

Inductive Value : Set :=
| VNull
| VBool (b : bool)
| VNumber (n : Number)
| VString (s : string)
| VArray (values : list Value)
| VObject (entries : list (string * Value)).

(** [serde_json::from_str] and [serde_json::to_string]; [from_slice] and
    [to_vec] are the same on bytes. *)
Class JsonCrate : Type := {
  from_str : list Z -> option Value;
  to_string : Value -> string
}.

Abbreviation json_map := (gmap string Value).

(** [Value::Object(map)]. *)
Definition of_map (m : json_map) : Value := VObject (btree_iter m).

(** [json!({...})] with distinct keys. *)
Definition json_object (l : list (string * Value)) : Value := of_map (list_to_map l).

(** [json!] of an integer and of an optional value. *)
Definition json_uint (n : Z) : Value := VNumber (PosInt n).
Definition json_option (v : option Value) : Value := default VNull v.
Definition json_string_option (v : option string) : Value := from_option VString VNull v.

Definition entries_get (key : string) (entries : list (string * Value)) : option Value :=
  snd <$> List.find (fun e => bool_decide (e.1 = key)) entries.

(** [Value::get] with a string index, and the accessors. *)
Definition value_get (v : Value) (key : string) : option Value :=
  match v with VObject entries => entries_get key entries | _ => None end.

Definition as_str (v : Value) : option string :=
  match v with VString s => Some s | _ => None end.

Definition as_u64 (v : Value) : option Z :=
  match v with VNumber (PosInt n) => Some n | _ => None end.

Definition as_array (v : Value) : option (list Value) :=
  match v with VArray values => Some values | _ => None end.

Definition as_object (v : Value) : option json_map :=
  match v with VObject entries => Some (list_to_map entries) | _ => None end.

Definition is_object (v : Value) : bool := match v with VObject _ => true | _ => false end.

(** [v[key] = x] on an object. *)
Definition set_key (v : Value) (key : string) (x : Value) : Value :=
  match v with
  | VObject entries => of_map (<[key := x]> (list_to_map entries))
  | _ => v
  end.

Definition get_str (v : Value) (key : string) : option string := value_get v key ≫= as_str.

(** ** Lemmas *)
Lemma find_key_NoDup (l : list (string * Value)) k v :
  NoDup l.*1 -> (k, v) ∈ l -> List.find (fun e => bool_decide (e.1 = k)) l = Some (k, v).
Proof.
  induction l as [|[k' v'] l IH]; [by rewrite elem_of_nil|]. cbn [fmap list_fmap fst].
  rewrite list.NoDup_cons. intros [Hn Hnd] Hin. cbn [List.find fst].
  case_bool_decide as Hk.
  - subst k'. apply elem_of_cons in Hin as [[= <-]|Hin]; [done|].
    destruct Hn. apply list_elem_of_fmap. by exists (k, v).
  - apply IH; [done|]. by apply elem_of_cons in Hin as [[= <- _]|Hin].
Qed.

Lemma entries_get_iter (m : json_map) k : entries_get k (btree_iter m) = m !! k.
Proof.
  unfold entries_get. destruct (m !! k) as [v|] eqn:Hk.
  - apply elem_of_btree_iter in Hk.
    by rewrite (find_key_NoDup _ k v) by (apply NoDup_fst_btree_iter || done).
  - destruct (List.find _ _) as [[k' v]|] eqn:Hf; [|done]. exfalso.
    apply find_some in Hf as [Hin Hb]. apply bool_decide_eq_true in Hb. cbn in Hb. subst k'.
    apply list_elem_of_In, elem_of_btree_iter in Hin. congruence.
Qed.

Lemma get_of_map m k : value_get (of_map m) k = m !! k.
Proof. apply entries_get_iter. Qed.

Lemma list_to_map_btree_iter (m : json_map) : list_to_map (btree_iter m) = m.
Proof.
  apply map_eq. intros k. apply option_eq. intros v.
  rewrite <- elem_of_list_to_map by apply NoDup_fst_btree_iter. apply elem_of_btree_iter.
Qed.

Lemma set_key_of_map m k x : set_key (of_map m) k x = of_map (<[k := x]> m).
Proof. unfold set_key, of_map at 1. by rewrite list_to_map_btree_iter. Qed.

Lemma as_object_of_map m : as_object (of_map m) = Some m.
Proof. cbn. by rewrite list_to_map_btree_iter. Qed.

(** Reading a key of an object literal. *)
Lemma get_json_object l k : value_get (json_object l) k = (list_to_map l : json_map) !! k.
Proof. apply get_of_map. Qed.

(** The first entry with a key, by evaluation. *)
Fixpoint assoc (k : string) (l : list (string * Value)) : option Value :=
  match l with
  | [] => None
  | (k', v) :: l => if String.eqb k' k then Some v else assoc k l
  end.

Lemma get_json_assoc l k : value_get (json_object l) k = assoc k l.
Proof.
  rewrite get_json_object. induction l as [|[k' v] l IH]; cbn [list_to_map foldr assoc]; [done|].
  destruct (String.eqb_spec k' k) as [->|Hk]; [apply lookup_insert_eq|].
  rewrite <- IH. by apply lookup_insert_ne.
Qed.

(** Evaluate reads of object literals. *)
Ltac json_get :=
  repeat first
    [ progress unfold get_str
    | rewrite get_json_object
    | rewrite get_of_map
    | progress cbn [list_to_map foldr uncurry fst snd mbind option_bind as_str as_u64 as_array
                    json_uint default Datatypes.id from_option]
    | rewrite lookup_insert_eq
    | rewrite lookup_insert_ne by discriminate
    | rewrite lookup_empty ].

(** ** Equality of values *)
#[global] Instance Number_eq_dec : EqDecision Number.
Proof. solve_decision. Defined.

#[global] Instance Value_eq_dec : EqDecision Value.
Proof.
  unfold EqDecision, Decision. fix go 1. intros v w.
  destruct v as [|b|n|s|vs|es], w as [|b'|n'|s'|vs'|es']; try (right; discriminate).
  - by left.
  - destruct (decide (b = b')); [left|right]; congruence.
  - destruct (decide (n = n')); [left|right]; congruence.
  - destruct (decide (s = s')); [left|right]; congruence.
  - destruct (@list_eq_dec _ go vs vs'); [left|right]; congruence.
  - destruct (@list_eq_dec _ (@prod_eq_dec _ _ _ go) es es'); [left|right]; congruence.
Defined.

(** Induction on values through the lists they hold. *)
Lemma value_ind_nested (P : Value -> Prop) :
  P VNull -> (forall b, P (VBool b)) -> (forall n, P (VNumber n)) -> (forall s, P (VString s)) ->
  (forall values, Forall P values -> P (VArray values)) ->
  (forall entries, Forall (fun e => P e.2) entries -> P (VObject entries)) ->
  forall value, P value.
Proof.
  intros Hn Hb Hm Hs Ha Ho. fix IH 1.
  intros [|b|n|s|values|entries]; [exact Hn|apply Hb|apply Hm|apply Hs|apply Ha|apply Ho].
  - induction values; constructor; auto.
  - induction entries as [|[k v] entries]; constructor; auto.
Qed.
