(* ===== verification/Canonical.v ===== *)
(** * Canonical requests, events and errors

    Models [crates/wokcore-protocols/src/canonical/]: the one shape every
    inbound protocol is decoded to and every outbound one is built from.  A
    [Url] is the string it prints as.  [Redacted] only changes how a diagnostic
    is shown; the diagnostic itself is kept. *)
From S2P Require Import Prelude Json.

Inductive ImageDetail : Set := DetailAuto | DetailLow | DetailHigh.

Inductive InputItem : Set :=
| InText (text : string)
| InImageUrl (url : string) (detail : option ImageDetail)
| InToolResult (call_id : string) (output : Value).

Record ToolDefinition : Set := mkTool {
  tool_name : string;
  tool_description : option string;
  tool_input_schema : Value;
  tool_extensions : json_map
}.

Record ReasoningOptions : Set := mkReasoning {
  effort : option string;
  reasoning_extensions : json_map
}.

Record Usage : Set := mkUsage {
  input_tokens : Z;
  output_tokens : Z;
  cached_input_tokens : option Z;
  reasoning_tokens : option Z;
  usage_extensions : json_map
}.

Record CanonicalRequest : Set := mkCanonical {
  cr_request_id : string;
  cr_req_model : string;
  cr_thread_key : option string;
  cr_input : list InputItem;
  cr_tools : list ToolDefinition;
  cr_stream : bool;
  cr_reasoning : option ReasoningOptions;
  cr_extensions : json_map
}.

(** ** Errors *)
Inductive GatewayRetryClass : Set :=
| RetryNever | RefreshCredentials | AfterDelay | BeforeFirstEvent.

Inductive ErrorKind : Set :=
| InvalidRequest
| ModelNotFound
| UnsupportedCapability
| NoExecutor
| UpstreamAuth
| RateLimited (retry_after_seconds : option Z)
| UpstreamStatus (status : Z)
| UpstreamUnavailable
| InternalError.

#[global] Instance ErrorKind_eq_dec : EqDecision ErrorKind.
Proof. solve_decision. Defined.

Record GatewayError : Set := mkGatewayError {
  ge_kind : ErrorKind;
  ge_diagnostic : option string
}.

Definition invalid_request : GatewayError := mkGatewayError InvalidRequest None.
Definition unknown_model : GatewayError := mkGatewayError ModelNotFound None.
Definition unsupported_capability : GatewayError := mkGatewayError UnsupportedCapability None.
Definition no_executor : GatewayError := mkGatewayError NoExecutor None.
Definition upstream_auth (diagnostic : string) : GatewayError :=
  mkGatewayError UpstreamAuth (Some diagnostic).
Definition rate_limited (retry_after_seconds : option Z) : GatewayError :=
  mkGatewayError (RateLimited retry_after_seconds) None.
Definition upstream_5xx (status : Z) : GatewayError := mkGatewayError (UpstreamStatus status) None.
Definition upstream_response (status : Z) (snippet : string) : GatewayError :=
  mkGatewayError (UpstreamStatus status) (Some snippet).
Definition gateway_transport (diagnostic : string) : GatewayError :=
  mkGatewayError UpstreamUnavailable (Some diagnostic).
Definition gateway_internal (diagnostic : string) : GatewayError :=
  mkGatewayError InternalError (Some diagnostic).

Definition error_code (e : GatewayError) : string :=
  match ge_kind e with
  | InvalidRequest => "invalid_request"
  | ModelNotFound => "model_not_found"
  | UnsupportedCapability => "unsupported_capability"
  | NoExecutor => "no_executor"
  | UpstreamAuth => "upstream_auth"
  | RateLimited _ => "rate_limited"
  | UpstreamStatus _ => "upstream_error"
  | UpstreamUnavailable => "upstream_unavailable"
  | InternalError => "internal_error"
  end.

Definition http_status (e : GatewayError) : Z :=
  match ge_kind e with
  | InvalidRequest => 400
  | ModelNotFound => 404
  | UnsupportedCapability => 422
  | NoExecutor => 501
  | RateLimited _ => 429
  | InternalError => 500
  | UpstreamAuth | UpstreamStatus _ | UpstreamUnavailable => 502
  end.

Definition gateway_retry_class (e : GatewayError) : GatewayRetryClass :=
  match ge_kind e with
  | UpstreamAuth => RefreshCredentials
  | RateLimited _ => AfterDelay
  | UpstreamStatus _ | UpstreamUnavailable => BeforeFirstEvent
  | InvalidRequest | ModelNotFound | UnsupportedCapability | NoExecutor | InternalError => RetryNever
  end.

Definition public_message (e : GatewayError) : string :=
  match ge_kind e with
  | InvalidRequest => "The request is invalid."
  | ModelNotFound => "The requested model is not available."
  | UnsupportedCapability => "The requested capability is not supported."
  | NoExecutor => "No executor is configured for the requested operation."
  | UpstreamAuth => "The upstream account needs to be authenticated again."
  | RateLimited _ => "The request was rate limited."
  | UpstreamStatus _ => "The upstream service failed."
  | UpstreamUnavailable => "The upstream service is unavailable."
  | InternalError => "An internal gateway error occurred."
  end.

(** ** Events *)
Inductive CanonicalEvent : Set :=
| EvCreated (response_id : string)
| EvOutputTextDelta (item_id delta : string)
| EvReasoningDelta (item_id delta : string)
| EvToolCallDelta (item_id call_id name delta : string)
| EvUsage (usage : Usage)
| EvCompleted
| EvFailed (error : GatewayError).

(** [valid_chat_function_name] of the crate root. *)
Definition is_name_byte (b : Z) : bool :=
  is_ascii_alphanumeric b || (b =? 95) || (b =? 45).

Definition valid_chat_function_name (value : string) : bool :=
  negb (str_is_empty value) && (str_len value <=? 64) && forallb is_name_byte (str_bytes value).
