(* ===== verification/ChatEncode.v ===== *)
(** * Chat Completions responses

    Models [crates/wokcore-protocols/src/outbound/openai_chat.rs]: the codec
    that turns canonical events into the chunks of a streamed completion, and
    the aggregator that turns them into one completion.  The codec's methods
    run in the state-and-error monad, so the state an error leaves behind is
    modelled.  [to_vec] is the compact serialisation of a value; a map or an
    optional value serialises as the value it converts to. *)
From S2P Require Import Prelude Sse Json Canonical.

Inductive ChatFinishReason : Set :=
| FinishStop | FinishLength | FinishToolCalls | FinishContentFilter | FinishFunctionCall.

Definition finish_as_str (r : ChatFinishReason) : string :=
  match r with
  | FinishStop => "stop"
  | FinishLength => "length"
  | FinishToolCalls => "tool_calls"
  | FinishContentFilter => "content_filter"
  | FinishFunctionCall => "function_call"
  end.

Record ChatResponseTemplate : Set := mkChatTemplate {
  choice_index : Z;
  finish_reason : ChatFinishReason;
  logprobs : option Value;
  include_usage : bool;
  extra : json_map
}.

Record ChatEncodeContext : Set := mkChatContext {
  ctx_model : string;
  ctx_created : Z;
  ctx_response : ChatResponseTemplate
}.

Definition MAX_CHAT_AGGREGATE_BYTES : Z := 16 * 1024 * 1024.
Definition MAX_CHAT_OUTPUT_ITEMS : Z := 4096.
Definition MAX_CHAT_IDENTIFIER_BYTES : Z := 512.
Definition MAX_CHAT_RETAINED_VALUE_BYTES : Z := 1024 * 1024.

Record ChatLimits : Set := mkChatLimits {
  max_output_items : Z;
  max_identifier_bytes : Z;
  max_aggregate_bytes : Z;
  max_value_bytes : Z
}.

Definition ChatLimits_default : ChatLimits :=
  mkChatLimits MAX_CHAT_OUTPUT_ITEMS MAX_CHAT_IDENTIFIER_BYTES MAX_CHAT_AGGREGATE_BYTES
    MAX_CHAT_RETAINED_VALUE_BYTES.

(** ** The registry of output items *)
Inductive OutputIdentity : Set := IdText | IdTool (index : nat).

Record ChatToolIdentity : Set := mkToolIdentity { ti_call_id : string; ti_name : string }.

Record OutputRegistry : Set := mkRegistry {
  identities : gmap string OutputIdentity;
  tools : list ChatToolIdentity
}.

Definition OutputRegistry_default : OutputRegistry := mkRegistry ∅ [].

(** Every rejection of this module is the same error. *)
Definition refuse_if (b : bool) : result GatewayError unit := guard_err b invalid_request.

Definition chat_identifier (l : ChatLimits) (value : string) : result GatewayError unit :=
  refuse_if (str_is_empty value || (max_identifier_bytes l <? str_len value)).

Definition register_text (item_id : string) (l : ChatLimits) (r : OutputRegistry)
  : result GatewayError OutputRegistry :=
  check? chat_identifier l item_id;
  match identities r !! item_id with
  | Some IdText => Ok r
  | Some (IdTool _) => Err invalid_request
  | None =>
      check? refuse_if (max_output_items l <=? Z.of_nat (size (identities r)));
      Ok (mkRegistry (<[item_id := IdText]> (identities r)) (tools r))
  end.

(** Indexing [self.tools] panics out of bounds; the registry's invariant says
    it never does. *)
Definition register_tool (item_id call_id name : string) (l : ChatLimits) (r : OutputRegistry)
  : result GatewayError (OutputRegistry * (nat * bool)) :=
  check? chat_identifier l item_id;
  check? chat_identifier l call_id;
  check? chat_identifier l name;
  check? refuse_if (negb (valid_chat_function_name name));
  match identities r !! item_id with
  | Some IdText => Err invalid_request
  | Some (IdTool tool_index) =>
      match tools r !! tool_index with
      | Some tool =>
          if bool_decide (ti_call_id tool = call_id) && bool_decide (ti_name tool = name)
          then Ok (r, (tool_index, false))
          else Err invalid_request
      | None => Err (gateway_internal "index out of bounds")
      end
  | None =>
      check? refuse_if ((max_output_items l <=? Z.of_nat (size (identities r)))
                        || (max_output_items l <=? zlen (tools r))
                        || existsb (fun tool => bool_decide (ti_call_id tool = call_id)) (tools r));
      let tool_index := length (tools r) in
      Ok (mkRegistry (<[item_id := IdTool tool_index]> (identities r))
                     (tools r ++ [mkToolIdentity call_id name]), (tool_index, true))
  end.

(** ** Usage and errors on the wire *)
Definition usage_details (usage : Usage) (extension_key canonical_key : string) (canonical_value : Z)
  : Value :=
  let details := default ∅ (usage_extensions usage !! extension_key ≫= as_object) in
  of_map (<[canonical_key := json_uint canonical_value]> details).

Definition usage_value (usage : Usage) : Value :=
  let value : json_map := list_to_map
    [("prompt_tokens"%string, json_uint (input_tokens usage));
     ("completion_tokens"%string, json_uint (output_tokens usage));
     ("total_tokens"%string, json_uint (sat_add64 (input_tokens usage) (output_tokens usage)));
     ("prompt_tokens_details"%string,
       usage_details usage "prompt_tokens_details" "cached_tokens"
         (default 0 (cached_input_tokens usage)));
     ("completion_tokens_details"%string,
       usage_details usage "completion_tokens_details" "reasoning_tokens"
         (default 0 (reasoning_tokens usage)))] in
  of_map (value ∪ usage_extensions usage).

Definition error_envelope (error : GatewayError) : Value :=
  json_object
    [("error"%string,
      json_object [("type"%string, VString "gateway_error");
                   ("code"%string, VString (error_code error));
                   ("message"%string, VString (public_message error))])].

Definition chat_reserved : list string :=
  ["id"%string; "object"%string; "created"%string; "model"%string; "choices"%string; "usage"%string].

Definition not_reserved (reserved : list string) (entry : string * Value) : Prop :=
  entry.1 ∉ reserved.

Definition filtered_extra (extra : json_map) (reserved : list string) : json_map :=
  filter (not_reserved reserved) extra.

Section Chat.
Context (to_vec : Value -> list Z).

Definition validate_serialized (l : ChatLimits) (value : Value) : result GatewayError unit :=
  refuse_if (negb (zlen (to_vec value) <=? max_value_bytes l)).

Definition validate_string_map (l : ChatLimits) (values : json_map) : result GatewayError unit :=
  check? refuse_if (max_output_items l <? Z.of_nat (size values));
  check? try_fold (fun _ entry => chat_identifier l entry.1) tt (btree_iter values);
  validate_serialized l (of_map values).

Definition validate_context (l : ChatLimits) (context : ChatEncodeContext) : result GatewayError unit :=
  check? chat_identifier l (ctx_model context);
  check? validate_string_map l (extra (ctx_response context));
  validate_serialized l (json_option (logprobs (ctx_response context))).

Definition validate_usage (l : ChatLimits) (usage : Usage) : result GatewayError Value :=
  check? validate_string_map l (usage_extensions usage);
  let value := usage_value usage in
  check? validate_serialized l value;
  Ok value.

(** ** The streaming codec *)
Record ChatCodec : Set := mkCodec {
  context : ChatEncodeContext;
  limits : ChatLimits;
  context_validated : bool;
  terminal : bool;
  response_id : option string;
  outputs : OutputRegistry;
  usage : option Value
}.

Definition codec_with_limits (context : ChatEncodeContext) (limits : ChatLimits) : ChatCodec :=
  mkCodec context limits false false None OutputRegistry_default None.

Definition codec_new (context : ChatEncodeContext) : ChatCodec :=
  codec_with_limits context ChatLimits_default.

Inductive Transition : Set :=
| TNone
| TChunks (chunks : list Value)
| TFailed (error : Value).

Abbreviation codec_op := (st_res ChatCodec GatewayError).

Definition set_validated (c : ChatCodec) : ChatCodec :=
  mkCodec (context c) (limits c) true (terminal c) (response_id c) (outputs c) (usage c).
Definition set_terminal (c : ChatCodec) : ChatCodec :=
  mkCodec (context c) (limits c) (context_validated c) true (response_id c) (outputs c) (usage c).
Definition set_response_id (id : string) (c : ChatCodec) : ChatCodec :=
  mkCodec (context c) (limits c) (context_validated c) (terminal c) (Some id) (outputs c) (usage c).
Definition set_outputs (r : OutputRegistry) (c : ChatCodec) : ChatCodec :=
  mkCodec (context c) (limits c) (context_validated c) (terminal c) (response_id c) r (usage c).
Definition set_usage (v : Value) (c : ChatCodec) : ChatCodec :=
  mkCodec (context c) (limits c) (context_validated c) (terminal c) (response_id c) (outputs c) (Some v).

Definition require_created (c : ChatCodec) : result GatewayError unit :=
  refuse_if (negb (is_someb (response_id c))).

Definition require_delta_allowed (c : ChatCodec) : result GatewayError unit :=
  check? require_created c;
  refuse_if (is_someb (usage c)).

Definition validate_context_once : codec_op unit :=
  let! c := st_get in
  if context_validated c then st_ret tt
  else do! st_lift (validate_context (limits c) (context c)); st_mod set_validated.

Definition choice (c : ChatCodec) (delta finish : Value) : Value :=
  json_object
    [("index"%string, json_uint (choice_index (ctx_response (context c))));
     ("delta"%string, delta);
     ("logprobs"%string, json_option (logprobs (ctx_response (context c))));
     ("finish_reason"%string, finish)].

Definition chunk (c : ChatCodec) (choices : list Value) (usage : Value) : Value :=
  let fields : json_map := list_to_map
    ([("id"%string, VString (default "" (response_id c)));
      ("object"%string, VString "chat.completion.chunk");
      ("created"%string, json_uint (ctx_created (context c)));
      ("model"%string, VString (ctx_model (context c)));
      ("choices"%string, VArray choices)]
     ++ (if include_usage (ctx_response (context c)) then [("usage"%string, usage)] else [])) in
  of_map (fields ∪ filtered_extra (extra (ctx_response (context c))) chat_reserved).

(** One choice with a delta, the rest of the chunk as the context says. *)
Definition delta_chunk (c : ChatCodec) (delta : Value) : Transition :=
  TChunks [chunk c [choice c delta VNull] VNull].

Definition created (id : string) : codec_op Transition :=
  let! c := st_get in
  if is_someb (response_id c) then st_err invalid_request
  else
    do! st_lift (chat_identifier (limits c) id);
    do! st_mod (set_response_id id);
    let! c := st_get in
    st_ret (delta_chunk c (json_object [("role"%string, VString "assistant")])).

Definition text_delta (item_id delta : string) : codec_op Transition :=
  let! c := st_get in
  do! st_lift (require_delta_allowed c);
  let! r := st_lift (register_text item_id (limits c) (outputs c)) in
  do! st_mod (set_outputs r);
  let! c := st_get in
  st_ret (delta_chunk c (json_object [("content"%string, VString delta)])).

Definition tool_delta_value (tool_index : nat) (is_new : bool) (call_id name delta : string) : Value :=
  if is_new
  then json_object
    [("index"%string, json_uint (Z.of_nat tool_index));
     ("id"%string, VString call_id);
     ("type"%string, VString "function");
     ("function"%string, json_object [("name"%string, VString name);
                                      ("arguments"%string, VString delta)])]
  else json_object
    [("index"%string, json_uint (Z.of_nat tool_index));
     ("function"%string, json_object [("arguments"%string, VString delta)])].

Definition tool_delta (item_id call_id name delta : string) : codec_op Transition :=
  let! c := st_get in
  do! st_lift (require_delta_allowed c);
  let! registered := st_lift (register_tool item_id call_id name (limits c) (outputs c)) in
  let '(r, (tool_index, is_new)) := registered in
  do! st_mod (set_outputs r);
  let! c := st_get in
  let value := tool_delta_value tool_index is_new call_id name delta in
  st_ret (delta_chunk c (json_object [("tool_calls"%string, VArray [value])])).

Definition record_usage (u : Usage) : codec_op Transition :=
  let! c := st_get in
  do! st_lift (require_created c);
  if is_someb (usage c) then st_err invalid_request
  else
    let! value := st_lift (validate_usage (limits c) u) in
    do! st_mod (set_usage value);
    st_ret TNone.

Definition completed : codec_op Transition :=
  let! c := st_get in
  do! st_lift (require_created c);
  let! u := st_lift (ok_or (usage c) invalid_request) in
  let finish := VString (finish_as_str (finish_reason (ctx_response (context c)))) in
  let chunks :=
    chunk c [choice c (json_object []) finish] VNull
    :: (if include_usage (ctx_response (context c)) then [chunk c [] u] else []) in
  do! st_mod set_terminal;
  st_ret (TChunks chunks).

Definition failed (error : GatewayError) : codec_op Transition :=
  do! st_mod set_terminal;
  st_ret (TFailed (error_envelope error)).

Definition transition (event : CanonicalEvent) : codec_op Transition :=
  let! c := st_get in
  if terminal c then st_err invalid_request
  else
    do! validate_context_once;
    match event with
    | EvCreated id => created id
    | EvOutputTextDelta item_id delta => text_delta item_id delta
    | EvReasoningDelta _ _ => st_err unsupported_capability
    | EvToolCallDelta item_id call_id name delta => tool_delta item_id call_id name delta
    | EvUsage u => record_usage u
    | EvCompleted => completed
    | EvFailed error => failed error
    end.

(** [b"data: [DONE]\n\n"]. *)
Definition done_frame : list Z := str_bytes "data: [DONE]" ++ [10; 10].

Definition encode_transition (t : Transition) : list Z :=
  match t with
  | TNone => []
  | TChunks chunks => flat_map (encode_sse to_vec None) chunks
  | TFailed error => encode_sse to_vec None error
  end.

Definition encode_chunk (event : CanonicalEvent) : codec_op (list Z) :=
  let! t := transition event in
  let! c := st_get in
  st_ret (encode_transition t ++ (if terminal c then done_frame else [])).

(** ** The aggregator *)
Record ChatResponseAggregator : Set := mkAggregator {
  agg_context : ChatEncodeContext;
  agg_limits : ChatLimits;
  agg_context_validated : bool;
  agg_terminal : bool;
  agg_failed : option Value;
  agg_response_id : option string;
  agg_outputs : OutputRegistry;
  agg_text : string;
  agg_arguments : list string;
  agg_aggregate_bytes : Z;
  agg_usage : option Value
}.

Definition agg_with_limits (context : ChatEncodeContext) (limits : ChatLimits)
  : ChatResponseAggregator :=
  mkAggregator context limits false false None None OutputRegistry_default "" [] 0 None.

Abbreviation agg_op := (st_res ChatResponseAggregator GatewayError).

Definition agg_set_validated (a : ChatResponseAggregator) : ChatResponseAggregator :=
  mkAggregator (agg_context a) (agg_limits a) true (agg_terminal a) (agg_failed a)
    (agg_response_id a) (agg_outputs a) (agg_text a) (agg_arguments a) (agg_aggregate_bytes a)
    (agg_usage a).

Definition agg_set_terminal (failed : option Value) (a : ChatResponseAggregator)
  : ChatResponseAggregator :=
  mkAggregator (agg_context a) (agg_limits a) (agg_context_validated a) true failed
    (agg_response_id a) (agg_outputs a) (agg_text a) (agg_arguments a) (agg_aggregate_bytes a)
    (agg_usage a).

Definition agg_set_response_id (id : string) (a : ChatResponseAggregator) : ChatResponseAggregator :=
  mkAggregator (agg_context a) (agg_limits a) (agg_context_validated a) (agg_terminal a)
    (agg_failed a) (Some id) (agg_outputs a) (agg_text a) (agg_arguments a)
    (agg_aggregate_bytes a) (agg_usage a).

Definition agg_set_outputs (r : OutputRegistry) (a : ChatResponseAggregator) : ChatResponseAggregator :=
  mkAggregator (agg_context a) (agg_limits a) (agg_context_validated a) (agg_terminal a)
    (agg_failed a) (agg_response_id a) r (agg_text a) (agg_arguments a)
    (agg_aggregate_bytes a) (agg_usage a).

Definition agg_set_payload (text : string) (arguments : list string) (bytes : Z)
  (a : ChatResponseAggregator) : ChatResponseAggregator :=
  mkAggregator (agg_context a) (agg_limits a) (agg_context_validated a) (agg_terminal a)
    (agg_failed a) (agg_response_id a) (agg_outputs a) text arguments bytes (agg_usage a).

Definition agg_set_usage (v : Value) (a : ChatResponseAggregator) : ChatResponseAggregator :=
  mkAggregator (agg_context a) (agg_limits a) (agg_context_validated a) (agg_terminal a)
    (agg_failed a) (agg_response_id a) (agg_outputs a) (agg_text a) (agg_arguments a)
    (agg_aggregate_bytes a) (Some v).

Definition agg_require_created (a : ChatResponseAggregator) : result GatewayError unit :=
  refuse_if (negb (is_someb (agg_response_id a))).

Definition agg_require_delta_allowed (a : ChatResponseAggregator) : result GatewayError unit :=
  check? agg_require_created a;
  refuse_if (is_someb (agg_usage a)).

Definition agg_validate_context_once : agg_op unit :=
  let! a := st_get in
  if agg_context_validated a then st_ret tt
  else do! st_lift (validate_context (agg_limits a) (agg_context a)); st_mod agg_set_validated.

Definition ensure_payload_capacity (a : ChatResponseAggregator) (additional : Z)
  : result GatewayError unit :=
  refuse_if (negb (is_some_and (fun total => total <=? max_aggregate_bytes (agg_limits a))
                     (checked_add64 (agg_aggregate_bytes a) additional))).

Definition agg_created (id : string) : agg_op unit :=
  let! a := st_get in
  if is_someb (agg_response_id a) then st_err invalid_request
  else
    do! st_lift (chat_identifier (agg_limits a) id);
    st_mod (agg_set_response_id id).

Definition agg_text_delta (item_id delta : string) : agg_op unit :=
  let! a := st_get in
  do! st_lift (agg_require_delta_allowed a);
  do! st_lift (ensure_payload_capacity a (str_len delta));
  let! r := st_lift (register_text item_id (agg_limits a) (agg_outputs a)) in
  do! st_mod (agg_set_outputs r);
  st_mod (fun a => agg_set_payload (agg_text a +:+ delta) (agg_arguments a)
                     (agg_aggregate_bytes a + str_len delta) a).

(** [self.arguments[tool_index].push_str(delta)]: as in the registry, the index
    is in range. *)
Definition push_argument (index : nat) (delta : string) (arguments : list string) : list string :=
  alter (fun s => s +:+ delta) index arguments.

Definition agg_tool_delta (item_id call_id name delta : string) : agg_op unit :=
  let! a := st_get in
  do! st_lift (agg_require_delta_allowed a);
  do! st_lift (ensure_payload_capacity a (str_len delta));
  let! registered := st_lift (register_tool item_id call_id name (agg_limits a) (agg_outputs a)) in
  let '(r, (tool_index, is_new)) := registered in
  do! st_mod (agg_set_outputs r);
  do! (if is_new then
         do! st_lift (refuse_if (max_output_items (agg_limits a) <=? zlen (agg_arguments a)));
         st_mod (fun a => agg_set_payload (agg_text a) (agg_arguments a ++ [""%string])
                            (agg_aggregate_bytes a) a)
       else st_ret tt);
  st_mod (fun a => agg_set_payload (agg_text a) (push_argument tool_index delta (agg_arguments a))
                     (agg_aggregate_bytes a + str_len delta) a).

Definition agg_record_usage (u : Usage) : agg_op unit :=
  let! a := st_get in
  do! st_lift (agg_require_created a);
  if is_someb (agg_usage a) then st_err invalid_request
  else
    let! value := st_lift (validate_usage (agg_limits a) u) in
    st_mod (agg_set_usage value).

Definition agg_completed : agg_op unit :=
  let! a := st_get in
  do! st_lift (agg_require_created a);
  if negb (is_someb (agg_usage a)) then st_err invalid_request
  else st_mod (agg_set_terminal (agg_failed a)).

Definition agg_transition (event : CanonicalEvent) : agg_op unit :=
  let! a := st_get in
  if agg_terminal a then st_err invalid_request
  else
    do! agg_validate_context_once;
    match event with
    | EvCreated id => agg_created id
    | EvOutputTextDelta item_id delta => agg_text_delta item_id delta
    | EvReasoningDelta _ _ => st_err unsupported_capability
    | EvToolCallDelta item_id call_id name delta => agg_tool_delta item_id call_id name delta
    | EvUsage u => agg_record_usage u
    | EvCompleted => agg_completed
    | EvFailed error => st_mod (agg_set_terminal (Some (error_envelope error)))
    end.

Definition tool_call_value (entry : ChatToolIdentity * string) : Value :=
  json_object
    [("id"%string, VString (ti_call_id entry.1));
     ("type"%string, VString "function");
     ("function"%string, json_object [("name"%string, VString (ti_name entry.1));
                                      ("arguments"%string, VString entry.2)])].

Definition response_message (a : ChatResponseAggregator) : Value :=
  let message : json_map := list_to_map
    [("role"%string, VString "assistant");
     ("content"%string, if str_is_empty (agg_text a) then VNull else VString (agg_text a))] in
  let tool_calls := zip (tools (agg_outputs a)) (agg_arguments a) in
  of_map (if is_emptyb (tools (agg_outputs a)) then message
          else <["tool_calls"%string := VArray (tool_call_value <$> tool_calls)]> message).

Definition response_value (a : ChatResponseAggregator) (usage : Value) : Value :=
  let choice := json_object
    [("index"%string, json_uint (choice_index (ctx_response (agg_context a))));
     ("message"%string, response_message a);
     ("logprobs"%string, json_option (logprobs (ctx_response (agg_context a))));
     ("finish_reason"%string,
       VString (finish_as_str (finish_reason (ctx_response (agg_context a)))))] in
  let fields : json_map := list_to_map
    [("id"%string, VString (default "" (agg_response_id a)));
     ("object"%string, VString "chat.completion");
     ("created"%string, json_uint (ctx_created (agg_context a)));
     ("model"%string, VString (ctx_model (agg_context a)));
     ("choices"%string, VArray [choice]);
     ("usage"%string, usage)] in
  of_map (fields ∪ filtered_extra (extra (ctx_response (agg_context a))) chat_reserved).

Definition agg_encode (events : list CanonicalEvent) (a : ChatResponseAggregator)
  : result GatewayError Value :=
  match st_fold (fun _ event => agg_transition event) tt events a with
  | (_, Err e) => Err e
  | (a, Ok _) =>
      check? refuse_if (negb (agg_terminal a));
      match agg_failed a with
      | Some error => Ok error
      | None =>
          let? usage := ok_or (agg_usage a) invalid_request in
          Ok (response_value a usage)
      end
  end.

Definition encode_response_with_limits (context : ChatEncodeContext) (events : list CanonicalEvent)
  (limits : ChatLimits) : result GatewayError Value :=
  agg_encode events (agg_with_limits context limits).

Definition encode_response (context : ChatEncodeContext) (events : list CanonicalEvent)
  : result GatewayError Value :=
  encode_response_with_limits context events ChatLimits_default.
End Chat.
