(* ===== verification/ChatEncodeSpec.v ===== *)
(** * Chat Completions: streaming and complete responses agree

    The specification is a client that reads the chunks of a stream and nothing
    else: it demands that every chunk repeats the id, the date, the model and the
    other fields of the first one, and every choice its index and log
    probabilities; it appends text and tool arguments by index, and takes the
    finish reason and the usage from where the stream says them.  A complete
    response is what that client assembles from the streamed one. *)
From S2P Require Import Prelude Sse Json Canonical ChatEncode.

(** ** The client *)
Record Assembly : Set := mkAssembly {
  as_head : option json_map;
  as_choice : option (Value * Value);
  as_role : option string;
  as_text : string;
  as_tools : list (ChatToolIdentity * string);
  as_finish : option string;
  as_usage : option Value;
  as_failed : option Value
}.

Definition assembly_empty : Assembly := mkAssembly None None None "" [] None None None.

Definition insist (b : bool) : option unit := if b then Some tt else None.

Definition apply_tool (tools : list (ChatToolIdentity * string)) (v : Value)
  : option (list (ChatToolIdentity * string)) :=
  index ← value_get v "index" ≫= as_u64;
  f ← value_get v "function";
  arguments ← get_str f "arguments";
  match get_str v "id" with
  | Some id =>
      name ← get_str f "name";
      if index =? zlen tools then Some (tools ++ [(mkToolIdentity id name, arguments)]) else None
  | None =>
      if index <? zlen tools
      then Some (alter (prod_map id (fun s => s +:+ arguments)) (Z.to_nat index) tools)
      else None
  end.

Fixpoint apply_tools (tools : list (ChatToolIdentity * string)) (l : list Value)
  : option (list (ChatToolIdentity * string)) :=
  match l with
  | [] => Some tools
  | v :: l => tools ← apply_tool tools v; apply_tools tools l
  end.

(** What every choice repeats, and what every chunk repeats. *)
Definition choice_head (c : Value) : option (Value * Value) :=
  index ← value_get c "index"; logprobs ← value_get c "logprobs"; Some (index, logprobs).

Definition chunk_head (fields : json_map) : json_map :=
  delete "object"%string (delete "choices"%string (delete "usage"%string fields)).

Definition repeats {A} `{EqDecision A} (told : option A) (x : A) : bool := is_none_or (fun y => bool_decide (y = x)) told.

Definition apply_choice (a : Assembly) (c : Value) : option Assembly :=
  head ← choice_head c;
  _ ← insist (repeats (as_choice a) head && negb (is_someb (as_finish a)));
  delta ← value_get c "delta";
  let role := get_str delta "role" in
  _ ← insist (negb (eqb (is_someb role) (is_someb (as_role a))));
  tools ← apply_tools (as_tools a) (default [] (value_get delta "tool_calls" ≫= as_array));
  Some (mkAssembly (as_head a) (Some head) (match role with Some r => Some r | None => as_role a end)
          (as_text a +:+ default "" (get_str delta "content")) tools
          (get_str c "finish_reason") (as_usage a) (as_failed a)).

Definition apply_chunk (a : Assembly) (v : Value) : option Assembly :=
  fields ← as_object v;
  _ ← insist (bool_decide (fields !! "object"%string = Some (VString "chat.completion.chunk"))
              && repeats (as_head a) (chunk_head fields) && negb (is_someb (as_usage a)));
  let a := mkAssembly (Some (chunk_head fields)) (as_choice a) (as_role a) (as_text a) (as_tools a)
             (as_finish a) (as_usage a) (as_failed a) in
  choices ← fields !! "choices"%string ≫= as_array;
  match choices with
  | [] =>
      usage ← fields !! "usage"%string;
      _ ← insist (is_someb (as_finish a));
      Some (mkAssembly (as_head a) (as_choice a) (as_role a) (as_text a) (as_tools a) (as_finish a)
              (Some usage) (as_failed a))
  | [c] =>
      _ ← insist (bool_decide (default VNull (fields !! "usage"%string) = VNull));
      apply_choice a c
  | _ => None
  end.

Fixpoint apply_chunks (a : Assembly) (l : list Value) : option Assembly :=
  match l with
  | [] => Some a
  | v :: l => a ← apply_chunk a v; apply_chunks a l
  end.

Definition apply_transition (a : Assembly) (t : Transition) : option Assembly :=
  match t with
  | TNone => Some a
  | TChunks chunks => apply_chunks a chunks
  | TFailed error =>
      Some (mkAssembly (as_head a) (as_choice a) (as_role a) (as_text a) (as_tools a) (as_finish a)
              (as_usage a) (Some error))
  end.

Fixpoint assemble (a : Assembly) (l : list Transition) : option Assembly :=
  match l with
  | [] => Some a
  | t :: l => a ← apply_transition a t; assemble a l
  end.

(** The message the client ends up with. *)
Definition assembled_message (a : Assembly) : Value :=
  let message : json_map := list_to_map
    [("role"%string, json_string_option (as_role a));
     ("content"%string, if str_is_empty (as_text a) then VNull else VString (as_text a))] in
  of_map (if is_emptyb (as_tools a) then message
          else <["tool_calls"%string := VArray (tool_call_value <$> as_tools a)]> message).

(** The completion a client builds from what it was told, with the usage. *)
Definition completion (a : Assembly) (usage : option Value) : option Value :=
  match as_failed a with
  | Some error => Some error
  | None =>
      head ← as_head a;
      choice ← as_choice a;
      usage ← usage;
      Some (of_map (list_to_map
        [("object"%string, VString "chat.completion");
         ("choices"%string, VArray [json_object
            [("index"%string, choice.1);
             ("message"%string, assembled_message a);
             ("logprobs"%string, choice.2);
             ("finish_reason"%string, json_string_option (as_finish a))]]);
         ("usage"%string, usage)] ∪ head))
  end.

(** The usage among the events, as it is written. *)
Fixpoint reported_usage (events : list CanonicalEvent) : option Value :=
  match events with
  | [] => None
  | EvUsage u :: _ => Some (usage_value u)
  | _ :: events => reported_usage events
  end.

(** The bytes of text and arguments an event carries. *)
Definition payload (event : CanonicalEvent) : Z :=
  match event with
  | EvOutputTextDelta _ delta | EvToolCallDelta _ _ _ delta => str_len delta
  | _ => 0
  end.

Definition payloads (events : list CanonicalEvent) : Z := foldr (fun e n => payload e + n) 0 events.

(** ** Reading chunks *)
(** What the chunks of a codec repeat. *)
Definition codec_head (c : ChatCodec) : json_map :=
  list_to_map [("id"%string, VString (default "" (response_id c)));
               ("created"%string, json_uint (ctx_created (context c)));
               ("model"%string, VString (ctx_model (context c)))]
  ∪ filtered_extra (extra (ctx_response (context c))) chat_reserved.

Definition codec_choice (c : ChatCodec) : Value * Value :=
  (json_uint (choice_index (ctx_response (context c))), json_option (logprobs (ctx_response (context c)))).

Lemma extra_reserved e k : k ∈ chat_reserved -> filtered_extra e chat_reserved !! k = None.
Proof. intros Hk. unfold filtered_extra. apply map_lookup_filter_None_2. right. by intros v _ Hn. Qed.

Lemma codec_head_id c : codec_head c = delete "object"%string (delete "choices"%string (delete "usage"%string (codec_head c))).
Proof.
  rewrite !delete_id; [done|..]; rewrite ?lookup_delete_ne by done; unfold codec_head;
    (apply lookup_union_None; split; [done|apply extra_reserved; unfold chat_reserved; set_solver]).
Qed.

Lemma chunk_fields c choices u : exists fields, as_object (chunk c choices u) = Some fields /\
  fields !! "object"%string = Some (VString "chat.completion.chunk") /\
  fields !! "choices"%string = Some (VArray choices) /\
  fields !! "usage"%string = (if include_usage (ctx_response (context c)) then Some u else None) /\
  chunk_head fields = codec_head c.
Proof.
  eexists. split; [apply as_object_of_map|]. split_and!.
  - by apply lookup_union_Some_l; destruct (include_usage _).
  - by apply lookup_union_Some_l; destruct (include_usage _).
  - destruct (include_usage _); [by apply lookup_union_Some_l|]. apply lookup_union_None. split; [done|].
    apply extra_reserved. unfold chat_reserved. set_solver.
  - rewrite codec_head_id. unfold chunk_head, codec_head. apply map_eq. intros k.
    destruct (decide (k = "object"%string)) as [->|]; [by rewrite !lookup_delete_eq|]. rewrite !(lookup_delete_ne _ "object"%string) by done.
    destruct (decide (k = "choices"%string)) as [->|]; [by rewrite !lookup_delete_eq|]. rewrite !(lookup_delete_ne _ "choices"%string) by done.
    destruct (decide (k = "usage"%string)) as [->|]; [by rewrite !lookup_delete_eq|]. rewrite !(lookup_delete_ne _ "usage"%string) by done.
    rewrite !lookup_union. f_equal. destruct (include_usage _); cbn [app list_to_map foldr uncurry fst snd];
      rewrite !lookup_insert; repeat case_decide; congruence.
Qed.

Lemma choice_head_eq c d f : choice_head (choice c d f) = Some (codec_choice c).
Proof. unfold choice_head, choice. json_get. done. Qed.

Lemma choice_delta c d f : value_get (choice c d f) "delta" = Some d.
Proof. unfold choice. by rewrite get_json_object. Qed.

Lemma choice_finish c d f : get_str (choice c d f) "finish_reason" = as_str f.
Proof. unfold choice, get_str. by rewrite get_json_object. Qed.

(** What a client has been told by a codec before its end. *)
Record in_step (c : ChatCodec) (a : Assembly) : Prop := {
  is_head : as_head a = (fun _ => codec_head c) <$> response_id c;
  is_choice : as_choice a = (fun _ => codec_choice c) <$> response_id c;
  is_role : as_role a = (fun _ => "assistant"%string) <$> response_id c
}.

Lemma in_step_ext c c' a :
  context c' = context c -> response_id c' = response_id c -> in_step c a -> in_step c' a.
Proof. intros Hx Hr [H1 H2 H3]. split; rewrite Hr; unfold codec_head, codec_choice in *; rewrite ?Hx, ?Hr; done. Qed.

Lemma repeats_self {A} `{EqDecision A} (x : A) : repeats (Some x) x.
Proof. unfold repeats. cbn. by apply Is_true_true, bool_decide_eq_true_2. Qed.

(** The effect of a chunk with one choice. *)
Lemma apply_delta a c d f :
  repeats (as_head a) (codec_head c) -> repeats (as_choice a) (codec_choice c) ->
  as_finish a = None -> as_usage a = None -> is_someb (get_str d "role") = negb (is_someb (as_role a)) ->
  apply_chunk a (chunk c [choice c d f] VNull) =
  (tools ← apply_tools (as_tools a) (default [] (value_get d "tool_calls" ≫= as_array));
   Some (mkAssembly (Some (codec_head c)) (Some (codec_choice c))
           (match get_str d "role" with Some r => Some r | None => as_role a end)
           (as_text a +:+ default "" (get_str d "content")) tools (as_str f) None (as_failed a))).
Proof.
  intros Hh Hc Hf Hu Hr. destruct (chunk_fields c [choice c d f] VNull) as (fields & Hfields & Ho & Hch & Hus & Hhead).
  unfold apply_chunk. rewrite Hfields. cbn [mbind option_bind].
  rewrite (bool_decide_eq_true_2 _ Ho), Hhead, Hu.
  apply Is_true_true in Hh, Hc. rewrite Hh. cbn [andb negb is_someb insist mbind option_bind].
  rewrite Hch. cbn [mbind option_bind as_array]. rewrite Hus.
  replace (default VNull (if include_usage (ctx_response (context c)) then Some VNull else None)) with VNull
    by (by destruct (include_usage _)).
  rewrite (bool_decide_eq_true_2 (VNull = VNull) eq_refl). cbn [insist mbind option_bind].
  unfold apply_choice. rewrite choice_head_eq. cbn [mbind option_bind as_choice as_finish as_role as_tools as_text as_usage as_failed as_head].
  rewrite Hc, Hf. cbn [andb negb is_someb insist mbind option_bind]. rewrite choice_delta, choice_finish.
  cbn [mbind option_bind]. rewrite Hr. by destruct (as_role a).
Qed.

Section Spec.
Context (to_vec : Value -> list Z).

(** Encoding a stream event by event. *)
Fixpoint stream_transitions (events : list CanonicalEvent)
  : st_res ChatCodec GatewayError (list Transition) :=
  match events with
  | [] => st_ret []
  | event :: events =>
      let! t := transition to_vec event in
      let! ts := stream_transitions events in
      st_ret (t :: ts)
  end.

(** The chunks after the first repeat what it said. *)
Lemma apply_later a c id d f :
  in_step c a -> response_id c = Some id -> as_finish a = None -> as_usage a = None -> get_str d "role" = None ->
  apply_chunk a (chunk c [choice c d f] VNull) =
  (tools ← apply_tools (as_tools a) (default [] (value_get d "tool_calls" ≫= as_array));
   Some (mkAssembly (as_head a) (as_choice a) (as_role a)
           (as_text a +:+ default "" (get_str d "content")) tools (as_str f) None (as_failed a))).
Proof.
  intros [H1 H2 H3] Hid Hf Hu Hr. rewrite Hid in H1, H2, H3. cbn in H1, H2, H3.
  rewrite apply_delta; rewrite ?H1, ?H2, ?H3, ?Hr; try done; apply repeats_self.
Qed.

(** ** Simulation *)
Definition registry_ok (r : OutputRegistry) : Prop :=
  forall id i, identities r !! id = Some (IdTool i) -> (i < length (tools r))%nat.

(** What the codec, the aggregator and the client's assembly have in common. *)
Record agrees (c : ChatCodec) (a : ChatResponseAggregator) (m : Assembly) : Prop := {
  ag_context : agg_context a = context c;
  ag_limits : agg_limits a = limits c;
  ag_validated : agg_context_validated a = context_validated c;
  ag_terminal : agg_terminal a = terminal c;
  ag_response_id : agg_response_id a = response_id c;
  ag_outputs : agg_outputs a = outputs c;
  ag_usage : agg_usage a = usage c;
  ag_failed : as_failed m = agg_failed a;
  ag_text : as_text m = agg_text a;
  ag_tools : as_tools m = zip (tools (outputs c)) (agg_arguments a);
  ag_length : length (agg_arguments a) = length (tools (outputs c));
  ag_registry : registry_ok (outputs c);
  ag_step : in_step c m;
  ag_bytes : 0 <= agg_aggregate_bytes a <= max_aggregate_bytes (limits c);
  ag_finish : as_finish m =
    (if terminal c then match agg_failed a with
                        | None => Some (finish_as_str (finish_reason (ctx_response (context c))))
                        | Some _ => None end else None);
  ag_stream_usage : as_usage m =
    (if terminal c && include_usage (ctx_response (context c))
     then match agg_failed a with None => usage c | Some _ => None end else None);
  ag_open : terminal c = false -> agg_failed a = None;
  ag_closed : terminal c = true -> agg_failed a = None -> is_Some (usage c);
  ag_named : terminal c = true -> agg_failed a = None -> is_Some (response_id c)
}.

(** One event: the codec and the aggregator refuse the same events, the
    aggregator also those that exceed its payload limit. *)
Definition simulates (event : CanonicalEvent) (c : ChatCodec) (a : ChatResponseAggregator)
  (m : Assembly) : Prop :=
  match transition to_vec event c with
  | (_, Err _) => exists a' e, agg_transition to_vec event a = (a', Err e)
  | (c', Ok t) =>
      if agg_aggregate_bytes a + payload event <=? max_aggregate_bytes (limits c)
      then exists a' m', agg_transition to_vec event a = (a', Ok tt) /\
             apply_transition m t = Some m' /\ agrees c' a' m' /\ limits c' = limits c /\
             agg_aggregate_bytes a' = agg_aggregate_bytes a + payload event
      else exists a' e, agg_transition to_vec event a = (a', Err e)
  end.

(** What follows the context check. *)
Definition codec_event (event : CanonicalEvent) : st_res ChatCodec GatewayError Transition :=
  match event with
  | EvCreated id => created id
  | EvOutputTextDelta item_id delta => text_delta item_id delta
  | EvReasoningDelta _ _ => st_err unsupported_capability
  | EvToolCallDelta item_id call_id name delta => tool_delta item_id call_id name delta
  | EvUsage u => record_usage to_vec u
  | EvCompleted => completed
  | EvFailed error => failed error
  end.

Definition agg_event (event : CanonicalEvent) : st_res ChatResponseAggregator GatewayError unit :=
  match event with
  | EvCreated id => agg_created id
  | EvOutputTextDelta item_id delta => agg_text_delta item_id delta
  | EvReasoningDelta _ _ => st_err unsupported_capability
  | EvToolCallDelta item_id call_id name delta => agg_tool_delta item_id call_id name delta
  | EvUsage u => agg_record_usage to_vec u
  | EvCompleted => agg_completed
  | EvFailed error => st_mod (agg_set_terminal (Some (error_envelope error)))
  end.

Definition event_simulates (event : CanonicalEvent) (c : ChatCodec) (a : ChatResponseAggregator)
  (m : Assembly) : Prop :=
  match codec_event event c with
  | (_, Err _) => exists a' e, agg_event event a = (a', Err e)
  | (c', Ok t) =>
      if agg_aggregate_bytes a + payload event <=? max_aggregate_bytes (limits c)
      then exists a' m', agg_event event a = (a', Ok tt) /\
             apply_transition m t = Some m' /\ agrees c' a' m' /\ limits c' = limits c /\
             agg_aggregate_bytes a' = agg_aggregate_bytes a + payload event
      else exists a' e, agg_event event a = (a', Err e)
  end.

Lemma agrees_validated c a m :
  agrees c a m -> agrees (set_validated c) (agg_set_validated a) m.
Proof. intros []; split; try done. by apply (in_step_ext c). Qed.

Lemma simulates_event event c a m :
  (forall c a m, max_aggregate_bytes (limits c) <= u64_max -> agrees c a m ->
     terminal c = false -> event_simulates event c a m) ->
  max_aggregate_bytes (limits c) <= u64_max -> agrees c a m -> simulates event c a m.
Proof.
  intros Hev Hmax Hag. unfold simulates.
  assert (forall c, transition to_vec event c =
    if terminal c then (c, Err invalid_request)
    else st_bind (validate_context_once to_vec) (fun _ => codec_event event) c) as Ht
    by (intros x; unfold transition, st_bind, st_get; cbn; by destruct (terminal x)).
  assert (forall a, agg_transition to_vec event a =
    if agg_terminal a then (a, Err invalid_request)
    else st_bind (agg_validate_context_once to_vec) (fun _ => agg_event event) a) as Ha
    by (intros x; unfold agg_transition, st_bind, st_get; cbn; by destruct (agg_terminal x)).
  rewrite Ht, Ha, (ag_terminal _ _ _ Hag). destruct (terminal c) eqn:Hterm; [eauto|].
  unfold st_bind, validate_context_once, agg_validate_context_once, st_bind, st_get.
  rewrite (ag_validated _ _ _ Hag).
  destruct (context_validated c) eqn:Hv; unfold st_ret, st_lift, st_mod.
  - by apply Hev.
  - rewrite (ag_limits _ _ _ Hag), (ag_context _ _ _ Hag).
    destruct (validate_context to_vec (limits c) (context c)) as [[]|e]; [|eauto].
    apply (Hev (set_validated c) (agg_set_validated a) m Hmax (agrees_validated _ _ _ Hag) Hterm).
Qed.

(** An open codec has told no end. *)
Lemma agrees_open c a m : agrees c a m -> terminal c = false -> as_finish m = None /\ as_usage m = None /\ as_failed m = None.
Proof.
  intros Hag Ht. rewrite (ag_finish _ _ _ Hag), (ag_stream_usage _ _ _ Hag), (ag_failed _ _ _ Hag), Ht. split_and!; [done..|].
  by apply (ag_open _ _ _ Hag).
Qed.

Lemma sim_created id c a m :
  agrees c a m -> terminal c = false -> event_simulates (EvCreated id) c a m.
Proof.
  intros Hag Hopen. unfold event_simulates. cbn [codec_event agg_event payload].
  unfold created, agg_created, st_bind, st_get, st_lift, st_mod, st_ret, st_err.
  rewrite (ag_response_id _ _ _ Hag), (ag_limits _ _ _ Hag).
  destruct (response_id c) as [id'|] eqn:Hid; cbn [is_someb]; [eauto|].
  destruct (chat_identifier (limits c) id) as [[]|e]; [|eauto].
  pose proof (ag_bytes _ _ _ Hag). rewrite (proj2 (Z.leb_le _ _)) by lia.
  destruct (agrees_open _ _ _ Hag Hopen) as (Hfin & Hus & Hfail).
  destruct (ag_step _ _ _ Hag) as [H1 H2 H3]. rewrite Hid in H1, H2, H3. cbn in H1, H2, H3.
  set (c' := set_response_id id c). eexists _, (mkAssembly (Some (codec_head c')) (Some (codec_choice c')) (Some "assistant"%string)
    (as_text m) (as_tools m) None None None). split; [done|]. split.
  { cbn [delta_chunk apply_transition apply_chunks]. rewrite apply_delta; rewrite ?H1, ?H2, ?H3; try done.
    unfold get_str. rewrite !get_json_object. cbn. by rewrite str_app_nil_r, Hfail. }
  destruct Hag. split; [|split; [done|cbn; lia]]. split; cbn; first [assumption|reflexivity|congruence|by rewrite Hopen|by split|done].
Qed.

Lemma capacity_false a c n :
  agg_limits a = limits c -> max_aggregate_bytes (limits c) <= u64_max -> 0 <= n ->
  ensure_payload_capacity a n =
  refuse_if (negb (agg_aggregate_bytes a + n <=? max_aggregate_bytes (limits c))).
Proof.
  intros Hl Hmax Hn. unfold ensure_payload_capacity, checked_add64. rewrite Hl.
  destruct (Z.leb_spec (agg_aggregate_bytes a + n) u64_max); cbn [is_some_and]; [done|].
  rewrite (proj2 (Z.leb_gt _ _)) by lia. done.
Qed.

Lemma delta_allowed_agree c a m :
  agrees c a m -> agg_require_delta_allowed a = require_delta_allowed c.
Proof.
  intros Hag. unfold agg_require_delta_allowed, require_delta_allowed, agg_require_created, require_created.
  by rewrite (ag_response_id _ _ _ Hag), (ag_usage _ _ _ Hag).
Qed.

Lemma delta_id c : require_delta_allowed c = Ok tt -> exists id, response_id c = Some id.
Proof.
  unfold require_delta_allowed, require_created, refuse_if. intros [H _]%check_Ok. apply guard_err_Ok, negb_false_iff in H.
  destruct (response_id c); [eauto|done].
Qed.

Lemma register_text_Ok item_id l r r' :
  register_text item_id l r = Ok r' -> tools r' = tools r /\ (registry_ok r -> registry_ok r').
Proof.
  unfold register_text. intros [_ H]%check_Ok.
  destruct (identities r !! item_id) as [[|i]|] eqn:Hi.
  - injection H as <-. done.
  - done.
  - apply check_Ok in H as [_ [= <-]]. split; [done|]. intros Hr id i. cbn.
    intros [[<- ?]|[_ ?]]%lookup_insert_Some; [done|]. by eapply Hr.
Qed.

Lemma sim_text item_id delta c a m :
  max_aggregate_bytes (limits c) <= u64_max ->
  agrees c a m -> terminal c = false -> event_simulates (EvOutputTextDelta item_id delta) c a m.
Proof.
  intros Hmax Hag Hopen. unfold event_simulates. cbn [codec_event agg_event payload].
  unfold text_delta, agg_text_delta, st_bind, st_get, st_lift, st_mod, st_ret.
  rewrite (delta_allowed_agree _ _ _ Hag).
  destruct (require_delta_allowed c) as [[]|e] eqn:Hd; [|eauto].
  rewrite (capacity_false a c) by (apply Hag || done || apply str_len_nonneg).
  rewrite (ag_limits _ _ _ Hag), (ag_outputs _ _ _ Hag).
  unfold refuse_if at 1 2. unfold guard_err.
  destruct (agg_aggregate_bytes a + str_len delta <=? max_aggregate_bytes (limits c)) eqn:Hcap; cbn [negb].
  2: { destruct (register_text item_id (limits c) (outputs c)); eauto. }
  destruct (register_text item_id (limits c) (outputs c)) as [r|e] eqn:Hr; [|eauto].
  apply register_text_Ok in Hr as [Htools Hok].
  destruct (delta_id _ Hd) as [id Hid]. destruct (agrees_open _ _ _ Hag Hopen) as (Hfin & Hus & Hfail).
  eexists _, (mkAssembly (as_head m) (as_choice m) (as_role m) (as_text m +:+ delta) (as_tools m) (as_finish m) (as_usage m) (as_failed m)).
  split; [done|]. split.
  { cbn [delta_chunk apply_transition apply_chunks].
    rewrite (apply_later _ _ id); [|by apply (in_step_ext c), (ag_step _ _ _ Hag)|done..].
    unfold get_str. rewrite !get_json_object. cbn. by rewrite Hfin, Hus. }
  pose proof (str_len_nonneg delta). apply Z.leb_le in Hcap. pose proof (ag_step _ _ _ Hag) as Hstep. destruct Hag. cbn.
  split; [|done]. split; cbn; rewrite ?Htools; try done; try congruence; [by apply Hok|by destruct Hstep; split|lia].
Qed.

Lemma register_tool_Ok item_id call_id name l r r' i is_new :
  register_tool item_id call_id name l r = Ok (r', (i, is_new)) ->
  registry_ok r ->
  registry_ok r' /\
  if is_new
  then i = length (tools r) /\ tools r' = tools r ++ [mkToolIdentity call_id name] /\
       zlen (tools r) < max_output_items l
  else r' = r /\ tools r !! i = Some (mkToolIdentity call_id name).
Proof.
  unfold register_tool. intros H Hr. do 4 apply check_Ok in H as [_ H].
  destruct (identities r !! item_id) as [[|j]|] eqn:Hj; [done| |].
  - destruct (tools r !! j) as [[cid nm]|] eqn:Ht; [|done]. cbn in H.
    destruct (bool_decide_reflect (cid = call_id)) as [->|]; [|done].
    destruct (bool_decide_reflect (nm = name)) as [->|]; [|done].
    injection H as <- <- <-. done.
  - apply check_Ok in H as [Hg H]. apply guard_err_Ok, orb_false_iff in Hg as [Hg _].
    apply orb_false_iff in Hg as [_ Hg]. apply Z.leb_gt in Hg.
    injection H as <- <- <-. split; [|by cbn]. intros id k. cbn.
    rewrite length_app. cbn. intros [[<- [= <-]]|[_ Hk]]%lookup_insert_Some; [lia|].
    apply Hr in Hk. lia.
Qed.

Lemma apply_tool_new l cid nm delta :
  apply_tool l (tool_delta_value (length l) true cid nm delta)
  = Some (l ++ [(mkToolIdentity cid nm, delta)]).
Proof.
  unfold apply_tool, tool_delta_value. json_get. by rewrite Z.eqb_refl.
Qed.

Lemma apply_tool_old l i cid nm delta : (i < length l)%nat ->
  apply_tool l (tool_delta_value i false cid nm delta)
  = Some (alter (prod_map id (fun s => s +:+ delta)) i l).
Proof.
  intros Hi. unfold apply_tool, tool_delta_value. json_get. rewrite (proj2 (Z.ltb_lt _ _)) by (unfold zlen; lia).
  by rewrite Nat2Z.id.
Qed.

Lemma zip_alter_r {A B} (f : B -> B) i (l : list A) (k : list B) :
  zip l (alter f i k) = alter (prod_map id f) i (zip l k).
Proof.
  revert i k. induction l as [|x l IH]; intros i k; [by destruct i|].
  destruct k as [|y k]; [by destruct i|]. destruct i as [|i]; [done|].
  cbn. f_equal. apply IH.
Qed.

Lemma alter_last {A} (f : A -> A) (l : list A) x : alter f (length l) (l ++ [x]) = l ++ [f x].
Proof. induction l as [|y l IH]; cbn; [done|]. f_equal. exact IH. Qed.

Lemma zip_snoc {A B} (l : list A) (k : list B) x y :
  length l = length k -> zip (l ++ [x]) (k ++ [y]) = zip l k ++ [(x, y)].
Proof. intros Hl. by rewrite zip_with_app. Qed.

(** What the client does with a tool delta, and what the aggregator does with
    its arguments. *)
Lemma tool_step r r' i is_new args cid nm delta l item_id lim :
  register_tool item_id cid nm lim r = Ok (r', (i, is_new)) -> registry_ok r ->
  length args = length (tools r) -> l = zip (tools r) args ->
  let args' := push_argument i delta (if is_new then args ++ [""%string] else args) in
  registry_ok r' /\ length args' = length (tools r') /\
  apply_tool l (tool_delta_value i is_new cid nm delta) = Some (zip (tools r') args') /\
  (is_new = true -> zlen args < max_output_items lim).
Proof.
  intros Hreg Hr Hlen ->. destruct (register_tool_Ok _ _ _ _ _ _ _ _ Hreg Hr) as [Hr' Hn].
  split; [done|]. assert (length (zip (tools r) args) = length (tools r)) as Hz.
  { rewrite length_zip_with. lia. }
  destruct is_new; unfold push_argument.
  - destruct Hn as (-> & Ht & Hb). rewrite Ht, <- Hlen, alter_last, !length_app. cbn.
    split_and!; [lia| |intros _; unfold zlen in *; lia].
    rewrite zip_snoc by done. rewrite Hlen, <- Hz. apply apply_tool_new.
  - destruct Hn as [-> Ht]. rewrite length_alter. split_and!; [done| |done].
    rewrite apply_tool_old; [by rewrite zip_alter_r|]. rewrite Hz. by eapply lookup_lt_Some.
Qed.

Lemma sim_tool item_id cid nm delta c a m :
  max_aggregate_bytes (limits c) <= u64_max ->
  agrees c a m -> terminal c = false -> event_simulates (EvToolCallDelta item_id cid nm delta) c a m.
Proof.
  intros Hmax Hag Hopen. unfold event_simulates. cbn [codec_event agg_event payload].
  unfold tool_delta, agg_tool_delta, st_bind, st_get, st_lift, st_mod, st_ret.
  rewrite (delta_allowed_agree _ _ _ Hag).
  destruct (require_delta_allowed c) as [[]|e] eqn:Hd; [|eauto].
  rewrite (capacity_false a c) by (apply Hag || done || apply str_len_nonneg).
  rewrite (ag_limits _ _ _ Hag), (ag_outputs _ _ _ Hag).
  destruct (agg_aggregate_bytes a + str_len delta <=? max_aggregate_bytes (limits c)) eqn:Hcap;
    cbn [negb refuse_if guard_err].
  2: { destruct (register_tool item_id cid nm (limits c) (outputs c)) as [[r [i n]]|]; eauto. }
  destruct (register_tool item_id cid nm (limits c) (outputs c)) as [[r [i is_new]]|e] eqn:Hreg; [|eauto].
  destruct (tool_step _ _ _ _ (agg_arguments a) _ _ delta (as_tools m) _ _ Hreg
              (ag_registry _ _ _ Hag) (ag_length _ _ _ Hag) (ag_tools _ _ _ Hag))
    as (Hr' & Hlen' & Happ & Hb).
  set (args' := push_argument i delta (if is_new then agg_arguments a ++ [""%string]
                                       else agg_arguments a)) in *.
  assert (apply_transition m (delta_chunk (set_outputs r c) (json_object
            [("tool_calls"%string, VArray [tool_delta_value i is_new cid nm delta])]))
    = Some (mkAssembly (as_head m) (as_choice m) (as_role m) (as_text m) (zip (tools r) args') (as_finish m) (as_usage m) (as_failed m)))
    as Hasm.
  { destruct (delta_id _ Hd) as [id Hid]. destruct (agrees_open _ _ _ Hag Hopen) as (Hfin & Hus & Hfail).
    cbn [delta_chunk apply_transition apply_chunks].
    rewrite (apply_later _ _ id); [|by apply (in_step_ext c), (ag_step _ _ _ Hag)|done..|by json_get].
    json_get. cbn [apply_tools]. rewrite Happ. cbn. by rewrite str_app_nil_r, Hfin, Hus. }
  pose proof (str_len_nonneg delta). apply Z.leb_le in Hcap.
  set (a' := agg_set_payload (agg_text a) args' (agg_aggregate_bytes a + str_len delta)
               (agg_set_outputs r a)).
  assert (agrees (set_outputs r c) a'
       (mkAssembly (as_head m) (as_choice m) (as_role m) (as_text m) (zip (tools r) args') (as_finish m) (as_usage m) (as_failed m)))
    as Hagr.
  { pose proof (ag_step _ _ _ Hag) as Hstep. destruct Hag. split; cbn; first [assumption|reflexivity|lia|by destruct Hstep; split]. }
  destruct is_new.
  - rewrite (proj2 (Z.leb_gt _ _)) by (specialize (Hb eq_refl); lia).
    exists a'. eexists. split; [reflexivity|]. split; [exact Hasm|].
    split; [exact Hagr|split; reflexivity].
  - exists a'. eexists. split; [reflexivity|]. split; [exact Hasm|].
    split; [exact Hagr|split; reflexivity].
Qed.

Lemma sim_usage u c a m :
  agrees c a m -> terminal c = false -> event_simulates (EvUsage u) c a m.
Proof.
  intros Hag Hopen. unfold event_simulates. cbn [codec_event agg_event payload].
  unfold record_usage, agg_record_usage, st_bind, st_get, st_lift, st_mod, st_ret, st_err.
  unfold agg_require_created, require_created.
  rewrite (ag_response_id _ _ _ Hag), (ag_usage _ _ _ Hag), (ag_limits _ _ _ Hag).
  destruct (refuse_if (negb (is_someb (response_id c)))) as [[]|e]; [|eauto].
  destruct (is_someb (usage c)); [eauto|].
  destruct (validate_usage to_vec (limits c) u) as [v|e]; [|eauto].
  pose proof (ag_bytes _ _ _ Hag). rewrite (proj2 (Z.leb_le _ _)) by lia.
  exists (agg_set_usage v a), m. split; [done|]. split; [done|].
  destruct Hag. split; [|cbn; split; [done|lia]].
  split; cbn; rewrite ?Hopen in *; first [assumption|reflexivity|by apply (in_step_ext c)|done].
Qed.

Lemma sim_completed c a m :
  agrees c a m -> terminal c = false -> event_simulates EvCompleted c a m.
Proof.
  intros Hag Hopen. unfold event_simulates. cbn [codec_event agg_event payload].
  unfold completed, agg_completed, st_bind, st_get, st_lift, st_mod, st_ret, st_err.
  unfold agg_require_created, require_created.
  rewrite (ag_response_id _ _ _ Hag), (ag_usage _ _ _ Hag).
  destruct (response_id c) as [id|] eqn:Hid; [|cbn; eauto]. cbn [is_someb negb refuse_if guard_err].
  destruct (usage c) as [u|] eqn:Hu; cbn [ok_or is_someb negb]; [|eauto].
  pose proof (ag_bytes _ _ _ Hag) as Hb. rewrite (proj2 (Z.leb_le _ _)) by lia.
  set (fin := Some (finish_as_str (finish_reason (ctx_response (context c))))).
  destruct (agrees_open _ _ _ Hag Hopen) as (Hfin & Hus & Hfail). pose proof (ag_step _ _ _ Hag) as Hstep.
  exists (agg_set_terminal (agg_failed a) a),
    (mkAssembly (as_head m) (as_choice m) (as_role m) (as_text m) (as_tools m) fin
       (if include_usage (ctx_response (context c)) then Some u else None) (as_failed m)).
  split; [done|]. split.
  { cbn [apply_transition apply_chunks]. rewrite (apply_later _ _ id) by (done || by json_get). json_get. cbn [apply_tools as_str].
    rewrite str_app_nil_r. cbn [mbind option_bind].
    destruct (include_usage (ctx_response (context c))) eqn:Hi; cbn [apply_chunks]; [|done].
    destruct (chunk_fields c [] u) as (fields & Hfields & Ho & Hch & Hu' & Hhead).
    unfold apply_chunk. rewrite Hfields. cbn [mbind option_bind as_head as_usage].
    rewrite (bool_decide_eq_true_2 _ Ho), Hhead, (is_head _ _ Hstep), Hid. cbn [fmap option_fmap option_map].
    rewrite (proj1 (Is_true_true _) (repeats_self _)). cbn [andb negb is_someb insist mbind option_bind]. rewrite Hch.
    cbn [mbind option_bind as_array]. rewrite Hu', Hi. done. }
  pose proof (ag_open _ _ _ Hag Hopen) as Hf.
  destruct Hag. split; [|cbn; split; [done|lia]].
  split; cbn; rewrite ?Hf; first [assumption|reflexivity|congruence|by destruct Hstep; split|done|by destruct (include_usage _)].
Qed.

Lemma sim_failed error c a m :
  agrees c a m -> terminal c = false -> event_simulates (EvFailed error) c a m.
Proof.
  intros Hag Hopen. unfold event_simulates. cbn [codec_event agg_event payload].
  unfold failed, st_bind, st_mod, st_ret.
  pose proof (ag_bytes _ _ _ Hag) as Hb. rewrite (proj2 (Z.leb_le _ _)) by lia.
  eexists _, _. split; [done|]. split; [done|].
  destruct Hag. split; [|cbn; split; [done|lia]].
  split; cbn; rewrite ?Hopen in *; first [assumption|reflexivity|by destruct ag_step0; split|done|by destruct (include_usage _)].
Qed.

Lemma event_sim event c a m :
  max_aggregate_bytes (limits c) <= u64_max -> agrees c a m -> simulates event c a m.
Proof.
  apply simulates_event. clear. intros c a m Hmax Hag Hopen. destruct event.
  - by apply sim_created.
  - by apply sim_text.
  - unfold event_simulates. cbn. eauto.
  - by apply sim_tool.
  - by apply sim_usage.
  - by apply sim_completed.
  - by apply sim_failed.
Qed.

Lemma payloads_nonneg events : 0 <= payloads events.
Proof.
  induction events as [|e l IH]; cbn; [lia|].
  assert (0 <= payload e) by (destruct e; cbn; try lia; apply str_len_nonneg). unfold payloads in IH. lia.
Qed.

(** A whole stream. *)
Lemma stream_sim events c a m :
  max_aggregate_bytes (limits c) <= u64_max -> agrees c a m ->
  match stream_transitions events c with
  | (_, Err _) => exists a' e, st_fold (fun _ event => agg_transition to_vec event) tt events a = (a', Err e)
  | (c', Ok ts) =>
      if agg_aggregate_bytes a + payloads events <=? max_aggregate_bytes (limits c)
      then exists a' m', st_fold (fun _ event => agg_transition to_vec event) tt events a = (a', Ok tt) /\
             assemble m ts = Some m' /\ agrees c' a' m'
      else exists a' e, st_fold (fun _ event => agg_transition to_vec event) tt events a = (a', Err e)
  end.
Proof.
  revert c a m. induction events as [|event events IH]; intros c a m Hmax Hag.
  - cbn. pose proof (ag_bytes _ _ _ Hag). rewrite (proj2 (Z.leb_le _ _)) by lia. eauto.
  - cbn [stream_transitions st_fold]. unfold st_bind, st_ret.
    pose proof (event_sim event c a m Hmax Hag) as Hstep. unfold simulates in Hstep.
    pose proof (payloads_nonneg events) as Hp.
    destruct (transition to_vec event c) as [c1 [t|e]].
    2: { destruct Hstep as (a' & e' & ->). eauto. }
    cbn [payloads foldr]. fold (payloads events).
    destruct (Z.leb_spec (agg_aggregate_bytes a + payload event) (max_aggregate_bytes (limits c)))
      as [Hle|Hgt].
    + destruct Hstep as (a1 & m1 & Ha & Hm & Hag1 & Hl & Hb). rewrite Ha.
      specialize (IH c1 a1 m1). rewrite Hl, Hb in IH. specialize (IH Hmax Hag1).
      destruct (stream_transitions events c1) as [c2 [ts|e]]; [|done].
      rewrite Z.add_assoc. destruct (_ <=? _); [|done].
      destruct IH as (a2 & m2 & -> & Hts & Hag2). exists a2, m2. cbn [assemble].
      by rewrite Hm.
    + destruct Hstep as (a1 & e & ->).
      destruct (stream_transitions events c1) as [c2 [ts|e2]]; [|eauto].
      rewrite (proj2 (Z.leb_gt _ _)) by lia. eauto.
Qed.

Lemma agrees_initial ctx l :
  0 <= max_aggregate_bytes l -> agrees (codec_with_limits ctx l) (agg_with_limits ctx l) assembly_empty.
Proof. intros Hl. split; cbn; try done. Qed.

Lemma assembled_message_agrees c a m id :
  agrees c a m -> response_id c = Some id -> assembled_message m = response_message a.
Proof.
  intros Hag Hid. unfold assembled_message, response_message.
  rewrite (is_role _ _ (ag_step _ _ _ Hag)), Hid, (ag_text _ _ _ Hag), (ag_tools _ _ _ Hag), (ag_outputs _ _ _ Hag).
  pose proof (ag_length _ _ _ Hag) as Hl.
  destruct (tools (outputs c)) as [|x l], (agg_arguments a) as [|y k]; cbn in Hl; done.
Qed.

Lemma and_iff_under (P Q R : Prop) : (P -> (Q <-> R)) -> P /\ Q <-> P /\ R.
Proof. tauto. Qed.

(** The usage a codec holds is the one among its events. *)
Lemma transition_usage event c c' t : transition to_vec event c = (c', Ok t) -> context c' = context c /\
  match event with
  | EvUsage u => usage c = None /\ usage c' = Some (usage_value u)
  | _ => usage c' = usage c
  end.
Proof.
  unfold transition. intros (c0 & x & [= <- <-] & H)%st_bind_Ok. destruct (terminal c); [done|].
  apply st_bind_Ok in H as (c1 & [] & Hv & H).
  assert (usage c1 = usage c /\ context c1 = context c) as [Hu Hx].
  { revert Hv. unfold validate_context_once, st_bind, st_get, st_ret, st_lift, st_mod. destruct (context_validated c); [by intros [= <-]|].
    destruct (validate_context _ _ _) as [[]|]; [|done]. by intros [= <-]. }
  rewrite <- Hu, <- Hx. clear Hu Hx Hv. revert H.
  destruct event as [id|it d|it d|it cid nm d|u| |err]; unfold created, text_delta, tool_delta, record_usage, completed, failed, st_bind, st_get, st_lift, st_mod, st_ret, st_err;
    repeat (case_match; try done); intros; simplify_eq; cbn in *; try done.
  split; [done|]. split; [by destruct (usage c1)|].
  match goal with H : validate_usage _ _ _ = Ok _ |- _ => unfold validate_usage in H; apply check_Ok in H as [_ H]; apply check_Ok in H as [_ H] end.
  congruence.
Qed.

Lemma stream_usage events : forall c c' ts, stream_transitions events c = (c', Ok ts) ->
  context c' = context c /\ usage c' = match usage c with Some v => Some v | None => reported_usage events end.
Proof.
  induction events as [|event events IH]; intros c c' ts; cbn [stream_transitions].
  { intros [= <- _]. by destruct (usage c). }
  intros (c1 & t & H1 & (c2 & ts' & H2 & [= <- _])%st_bind_Ok)%st_bind_Ok.
  apply transition_usage in H1 as [Hx H1]. destruct (IH _ _ _ H2) as [-> ->]. split; [done|].
  destruct event; try (rewrite H1; by destruct (usage c)). destruct H1 as [-> ->]. done.
Qed.

(** The fields a client puts together are those of the aggregator. *)
Lemma completion_fields c a u message choices :
  agg_context a = context c -> agg_response_id a = response_id c ->
  list_to_map [("object"%string, message); ("choices"%string, choices); ("usage"%string, u)] ∪ codec_head c =
  (list_to_map
    [("id"%string, VString (default "" (agg_response_id a))); ("object"%string, message);
     ("created"%string, json_uint (ctx_created (agg_context a))); ("model"%string, VString (ctx_model (agg_context a)));
     ("choices"%string, choices); ("usage"%string, u)]
   ∪ filtered_extra (extra (ctx_response (agg_context a))) chat_reserved : json_map).
Proof.
  intros -> ->. unfold codec_head. rewrite (assoc_L (∪)). by f_equal.
Qed.

(** C9: A complete response and a streamed one are the same answer.  A list of
    events encodes to a complete response exactly when the streaming codec
    accepts every event, reaches its end, and the texts and arguments fit the
    aggregation limit.  A client that reads the chunks alone accepts that stream:
    every chunk repeats the same id, date, model and further fields, every choice
    the same index and log probabilities, and nothing follows the finish reason
    but the usage; and the response is what the client assembles from it: the
    same fields, role and text, tool calls in order with their whole arguments,
    and finish reason, with the usage among the events, which the stream tells
    exactly if the context asks for it; or the same error. *)
Theorem stream_matches_complete (ctx : ChatEncodeContext) (l : ChatLimits)
    (events : list CanonicalEvent) (v : Value) :
  0 <= max_aggregate_bytes l <= u64_max ->
  encode_response_with_limits to_vec ctx events l = Ok v <->
  exists c ts m, stream_transitions events (codec_with_limits ctx l) = (c, Ok ts) /\
    terminal c = true /\ payloads events <= max_aggregate_bytes l /\
    assemble assembly_empty ts = Some m /\ completion m (reported_usage events) = Some v /\
    (as_failed m = None -> as_usage m = if include_usage (ctx_response ctx) then reported_usage events else None).
Proof.
  intros Hl. unfold encode_response_with_limits, agg_encode.
  pose proof (stream_sim events (codec_with_limits ctx l) (agg_with_limits ctx l) assembly_empty
                (proj2 Hl) (agrees_initial ctx l (proj1 Hl))) as Hsim.
  pose proof (stream_usage events (codec_with_limits ctx l)) as Hrep.
  destruct (stream_transitions events (codec_with_limits ctx l)) as [c [ts|e]] eqn:Hst.
  2: { destruct Hsim as (a' & e' & ->). split; [done|]. by intros (? & ? & ? & ? & _). }
  destruct (Hrep _ _ eq_refl) as [Hctx Hrep']. clear Hrep. rename Hrep' into Hrep. cbn [usage context codec_with_limits] in Hrep, Hctx.
  cbn [agg_aggregate_bytes agg_with_limits limits codec_with_limits] in Hsim. rewrite Z.add_0_l in Hsim.
  destruct (Z.leb_spec (payloads events) (max_aggregate_bytes l)) as [Hle|Hgt].
  2: { destruct Hsim as (a' & e' & ->). split; [done|].
       intros (c' & ts' & m & _ & _ & Hp & _). lia. }
  destruct Hsim as (a & m & -> & Hm & Hag). rewrite (ag_terminal _ _ _ Hag).
  transitivity (terminal c = true /\ completion m (reported_usage events) = Some v).
  2: { split.
       - intros [Ht Hc]. exists c, ts, m. split_and!; [done..|]. intros Hf. rewrite (ag_failed _ _ _ Hag) in Hf.
         by rewrite (ag_stream_usage _ _ _ Hag), Ht, Hf, Hrep, Hctx.
       - intros (c' & ts' & m' & [= <- <-] & Ht & _ & Hm' & Hc & _). split; [done|]. congruence. }
  rewrite check_Ok. unfold refuse_if. rewrite guard_err_Ok, negb_false_iff.
  apply and_iff_under. intros Ht. unfold completion. rewrite (ag_failed _ _ _ Hag).
  destruct (agg_failed a) as [err|] eqn:Hf; [split; congruence|].
  destruct (ag_closed _ _ _ Hag Ht Hf) as [u Hu]. rewrite (ag_usage _ _ _ Hag), Hu. rewrite Hrep in Hu. rewrite Hu. cbn [ok_or result_bind].
  destruct (ag_named _ _ _ Hag Ht Hf) as [id Hid]. pose proof (ag_step _ _ _ Hag) as Hstep.
  rewrite (is_head _ _ Hstep), (is_choice _ _ Hstep), Hid. cbn [fmap option_fmap option_map mbind option_bind].
  rewrite (ag_finish _ _ _ Hag), Ht, Hf, (assembled_message_agrees _ _ _ _ Hag Hid).
  rewrite (completion_fields c a) by apply Hag. unfold response_value. rewrite (ag_context _ _ _ Hag).
  cbn [codec_choice fst snd json_string_option from_option]. split; congruence.
Qed.

(** ** Well-formed codec states *)
Record registry_wf (l : ChatLimits) (r : OutputRegistry) : Prop := {
  rw_index : registry_ok r;
  rw_inj : forall id id' i, identities r !! id = Some (IdTool i) ->
             identities r !! id' = Some (IdTool i) -> id = id';
  rw_calls : NoDup (ti_call_id <$> tools r);
  rw_names : Forall (fun t => valid_chat_function_name (ti_name t) = true) (tools r);
  rw_size : Z.of_nat (size (identities r)) <= max_output_items l;
  rw_tools : zlen (tools r) <= max_output_items l
}.

Lemma register_text_wf l item_id r r' :
  registry_wf l r -> register_text item_id l r = Ok r' -> registry_wf l r'.
Proof.
  intros [H1 H2 H3 H4 H5 H6] H. pose proof (register_text_Ok _ _ _ _ H) as [Ht Hok].
  unfold register_text in H. apply check_Ok in H as [_ H].
  destruct (identities r !! item_id) as [[|i]|] eqn:Hi; [by injection H as <-|done|].
  apply check_Ok in H as [Hg [= <-]]. apply guard_err_Ok, Z.leb_gt in Hg.
  split; cbn in *; [by apply Hok| |done..| |done].
  - intros id id' i [[<- ?]|[_ ?]]%lookup_insert_Some [[<- ?]|[_ ?]]%lookup_insert_Some; try done.
    by eapply H2.
  - rewrite map_size_insert_None by done. lia.
Qed.

Lemma register_tool_wf l item_id cid nm r r' i is_new :
  registry_wf l r -> register_tool item_id cid nm l r = Ok (r', (i, is_new)) -> registry_wf l r'.
Proof.
  intros [H1 H2 H3 H4 H5 H6] H. pose proof (register_tool_Ok _ _ _ _ _ _ _ _ H H1) as [Hok Hn].
  unfold register_tool in H. do 3 apply check_Ok in H as [_ H]. apply check_Ok in H as [Hname H].
  apply guard_err_Ok, negb_false_iff in Hname.
  destruct (identities r !! item_id) as [[|j]|] eqn:Hj; [done| |].
  { destruct (tools r !! j) as [t|]; [|done].
    destruct (bool_decide _ && bool_decide _); [|done]. by injection H as <- <- <-. }
  apply check_Ok in H as [Hg [= <- <- <-]].
  apply guard_err_Ok in Hg. apply orb_false_iff in Hg as [[Hs Hl]%orb_false_iff Hd].
  apply Z.leb_gt in Hs, Hl. split; cbn in *.
  - exact Hok.
  - intros id id' k [[<- [= <-]]|[_ Hk]]%lookup_insert_Some [[<- E]|[_ Hk']]%lookup_insert_Some;
      [done| |injection E as <-|by eapply H2]; exfalso;
      [apply H1 in Hk'|apply H1 in Hk]; lia.
  - rewrite fmap_app. apply list.NoDup_app. split_and!; [done| |by apply NoDup_singleton].
    cbn. intros x Hx ->%list_elem_of_singleton.
    apply list_elem_of_fmap in Hx as (t & Hx & Ht). apply not_true_iff_false in Hd. apply Hd.
    apply existsb_exists. exists t. split; [by apply list_elem_of_In|]. by apply bool_decide_eq_true_2.
  - apply Forall_app. split; [done|]. by apply list.Forall_singleton.
  - rewrite map_size_insert_None by done. lia.
  - unfold zlen in *. rewrite length_app. cbn. lia.
Qed.

(** Results whose only error is the refusal. *)
Definition refuses {A} (r : result GatewayError A) : Prop := forall e, r = Err e -> e = invalid_request.

Lemma refuses_if b : refuses (refuse_if b).
Proof. intros e. unfold refuse_if, guard_err. destruct b; congruence. Qed.

Lemma refuses_bind {A B} (r : result GatewayError A) (k : A -> result GatewayError B) :
  refuses r -> (forall a, refuses (k a)) -> refuses (result_bind r k).
Proof. intros Hr Hk e. destruct r as [a|e']; cbn; [apply Hk|]. intros [= <-]. by apply Hr. Qed.

Lemma refuses_Ok {A} (a : A) : refuses (Ok a).
Proof. by intros e. Qed.

Lemma refuses_fold {S A} (f : S -> A -> result GatewayError S) l s :
  (forall s a, refuses (f s a)) -> refuses (try_fold f s l).
Proof.
  intros Hf. revert s. induction l as [|a l IH]; intros s; cbn; [apply refuses_Ok|].
  by apply refuses_bind.
Qed.

Lemma refuses_Err {A} : refuses (Err invalid_request : result GatewayError A).
Proof. intros e. congruence. Qed.

#[local] Hint Resolve refuses_if refuses_bind refuses_Ok refuses_Err refuses_fold : refusal.

Lemma refuses_context l ctx : refuses (validate_context to_vec l ctx).
Proof. unfold validate_context, validate_string_map, validate_serialized, chat_identifier. auto 8 with refusal. Qed.

Lemma refuses_usage l u : refuses (validate_usage to_vec l u).
Proof. unfold validate_usage, validate_string_map, validate_serialized, chat_identifier. auto 8 with refusal. Qed.

Lemma refuses_text item_id l r : refuses (register_text item_id l r).
Proof.
  unfold register_text, chat_identifier.
  apply refuses_bind; [auto with refusal|]. intros _.
  destruct (identities r !! item_id) as [[|]|]; auto with refusal.
Qed.

Lemma refuses_tool item_id cid nm l r : registry_ok r -> refuses (register_tool item_id cid nm l r).
Proof.
  intros Hr. unfold register_tool, chat_identifier.
  do 4 (apply refuses_bind; [auto with refusal|]; intros _).
  destruct (identities r !! item_id) as [[|j]|] eqn:Hj; auto with refusal.
  apply Hr in Hj. destruct (lookup_lt_is_Some_2 _ _ Hj) as [x ->].
  destruct (bool_decide _ && bool_decide _); auto with refusal.
Qed.

Record codec_wf (c : ChatCodec) : Prop := {
  cw_registry : registry_wf (limits c) (outputs c);
  cw_usage : is_Some (usage c) -> is_Some (response_id c);
  cw_outputs : outputs c <> OutputRegistry_default -> is_Some (response_id c)
}.

(** A step that keeps the codec well formed and only refuses. *)
Definition keeps_wf (op : st_res ChatCodec GatewayError Transition) : Prop :=
  forall c c' r, codec_wf c -> op c = (c', r) ->
    codec_wf c' /\ limits c' = limits c /\
    (forall e, r = Err e -> e = invalid_request \/ e = unsupported_capability).

Lemma require_created_Ok c : require_created c = Ok tt -> is_Some (response_id c).
Proof.
  unfold require_created, refuse_if. rewrite guard_err_Ok, negb_false_iff.
  destruct (response_id c); [eauto|done].
Qed.

Lemma refuses_delta c : refuses (require_delta_allowed c).
Proof. unfold require_delta_allowed, require_created. auto with refusal. Qed.

Lemma keeps_refused {A} (p : result GatewayError A) e c c' (r : result GatewayError Transition) :
  codec_wf c -> refuses p -> p = Err e -> (c, Err e) = (c', r) ->
  codec_wf c' /\ limits c' = limits c /\
  (forall e, r = Err e -> e = invalid_request \/ e = unsupported_capability).
Proof.
  intros Hc Hp He [= <- <-]. split_and!; [done..|]. intros e' [= <-]. left. by apply Hp.
Qed.

Lemma keeps_event event : keeps_wf (codec_event event).
Proof.
  intros c c' r Hwf. pose proof Hwf as [Hr Hu Ho].
  destruct event as [id|it d|it d|it cid nm d|u| |err]; cbn [codec_event];
    unfold created, text_delta, tool_delta, record_usage, completed, failed,
      st_bind, st_get, st_lift, st_mod, st_ret, st_err.
  - destruct (is_someb (response_id c)); [by apply (keeps_refused _ _ _ _ _ Hwf (@refuses_Err unit))|].
    destruct (chat_identifier (limits c) id) as [[]|e] eqn:He; [|by eapply keeps_refused, He; [|apply refuses_if]].
    intros [= <- <-]. split_and!; [split; cbn; eauto|done|done].
  - destruct (require_delta_allowed c) as [[]|e] eqn:He; [|by eapply keeps_refused, He; [|apply refuses_delta]].
    apply check_Ok in He as [Hc%require_created_Ok _].
    destruct (register_text it (limits c) (outputs c)) as [r'|e] eqn:Hreg;
      [|by eapply keeps_refused, Hreg; [|apply refuses_text]].
    intros [= <- <-]. split_and!; [|done|done]. split; cbn; [by eapply register_text_wf|done|done].
  - intros [= <- <-]. split_and!; [done|done|naive_solver].
  - destruct (require_delta_allowed c) as [[]|e] eqn:He; [|by eapply keeps_refused, He; [|apply refuses_delta]].
    apply check_Ok in He as [Hc%require_created_Ok _].
    destruct (register_tool it cid nm (limits c) (outputs c)) as [[r' [i n]]|e] eqn:Hreg;
      [|by eapply keeps_refused, Hreg; [|apply refuses_tool, Hr]].
    intros [= <- <-]. split_and!; [|done|done]. split; cbn; [by eapply register_tool_wf|done|done].
  - destruct (require_created c) as [[]|e] eqn:He; [|by eapply keeps_refused, He; [|apply refuses_if]].
    apply require_created_Ok in He.
    destruct (is_someb (usage c)); [by apply (keeps_refused _ _ _ _ _ Hwf (@refuses_Err unit))|].
    destruct (validate_usage to_vec (limits c) u) as [v|e] eqn:Hv;
      [|by eapply keeps_refused, Hv; [|apply refuses_usage]].
    intros [= <- <-]. split_and!; [by split|done|done].
  - destruct (require_created c) as [[]|e] eqn:He; [|by eapply keeps_refused, He; [|apply refuses_if]].
    destruct (usage c) as [u|] eqn:Hus; cbn [ok_or];
      [|by apply (keeps_refused _ _ _ _ _ Hwf (@refuses_Err unit))].
    intros [= <- <-]. split_and!; [|done|done]. split; cbn; [done|by rewrite Hus|done].
  - intros [= <- <-]. split_and!; [by split|done|done].
Qed.

Lemma keeps_transition event : keeps_wf (transition to_vec event).
Proof.
  intros c c' r Hwf. unfold transition, validate_context_once, st_bind, st_get, st_err, st_ret, st_lift, st_mod.
  destruct (terminal c); [by apply (keeps_refused _ _ _ _ _ Hwf (@refuses_Err unit))|].
  destruct (context_validated c); [by apply keeps_event|].
  destruct (validate_context to_vec (limits c) (context c)) as [[]|e] eqn:He.
  - apply (keeps_event event (set_validated c)). by destruct Hwf; split.
  - by eapply keeps_refused, He; [|apply refuses_context].
Qed.

(** C39: every state a codec reaches is well formed, after errors too: each item
    keeps one identity, a tool item its own index and each index one item, call
    ids are distinct, the registry stays within its limit, and nothing is
    recorded before the response has an id; no event is answered with an
    internal error (the index into the tools is always in range). *)
Theorem codec_states_wf (ctx : ChatEncodeContext) (l : ChatLimits) (events : list CanonicalEvent) :
  0 <= max_output_items l ->
  let c := foldl (fun c event => fst (transition to_vec event c)) (codec_with_limits ctx l) events in
  codec_wf c /\ limits c = l /\
  forall event e, snd (transition to_vec event c) = Err e ->
    e = invalid_request \/ e = unsupported_capability.
Proof.
  intros Hl.
  assert (forall c, codec_wf c -> limits c = l ->
    let c' := foldl (fun c event => fst (transition to_vec event c)) c events in
    codec_wf c' /\ limits c' = l) as H.
  { induction events as [|event events IH]; intros c Hc Hlc; [done|]. cbn [foldl].
    destruct (transition to_vec event c) as [c1 r] eqn:Ht.
    destruct (keeps_transition event c c1 r Hc Ht) as (Hc1 & Hl1 & _).
    apply IH; [done|]. cbn. congruence. }
  destruct (H (codec_with_limits ctx l)) as [Hwf Hlim]; [|done|].
  { split; cbn; [|by intros []|done]. split; cbn; try done. by constructor. }
  split_and!; [done|done|]. intros event e.
  destruct (transition to_vec event _) as [c1 r] eqn:Ht.
  destruct (keeps_transition event _ c1 r Hwf Ht) as (_ & _ & He). apply He.
Qed.
End Spec.

(** ** Witnesses *)
Definition demo_to_vec (_ : Value) : list Z := [123; 125].

Definition demo_context : ChatEncodeContext :=
  mkChatContext "model" 1 (mkChatTemplate 0 FinishToolCalls None true ∅).

Definition demo_events : list CanonicalEvent :=
  [EvCreated "resp";
   EvOutputTextDelta "text" "Hel"; EvOutputTextDelta "text" "lo";
   EvToolCallDelta "item" "call" "lookup" "{\q"; EvToolCallDelta "item" "call" "lookup" "}";
   EvUsage (mkUsage 3 4 None None ∅); EvCompleted].

Definition demo_complete : result GatewayError Value :=
  encode_response_with_limits demo_to_vec demo_context demo_events ChatLimits_default.

Lemma demo_complete_ok : is_ok demo_complete = true.
Proof. vm_compute. reflexivity. Qed.

Lemma stream_matches_complete_witness :
  exists v c ts m, demo_complete = Ok v /\
    stream_transitions demo_to_vec demo_events (codec_with_limits demo_context ChatLimits_default)
      = (c, Ok ts) /\
    assemble assembly_empty ts = Some m /\ completion m (as_usage m) = Some v /\
    as_text m = "Hello"%string /\ as_tools m = [(mkToolIdentity "call" "lookup", "{\q}"%string)].
Proof.
  destruct demo_complete as [v|e] eqn:E; [|by pose proof demo_complete_ok as H; rewrite E in H].
  destruct (proj1 (stream_matches_complete demo_to_vec demo_context ChatLimits_default demo_events v
    ltac:(vm_compute; split; discriminate)) E) as (c & ts & m & Hst & _ & _ & Hm & Hc & Hu).
  exists v, c, ts, m. split; [reflexivity|]. split; [exact Hst|]. split; [exact Hm|].
  vm_compute in Hst. injection Hst as <- <-. vm_compute in Hm. injection Hm as <-.
  split; [rewrite (Hu eq_refl); exact Hc|]. split; reflexivity.
Defined.

Lemma codec_states_wf_witness :
  let c := foldl (fun c event => fst (transition demo_to_vec event c))
             (codec_with_limits demo_context ChatLimits_default) demo_events in
  codec_wf c /\ zlen (tools (outputs c)) = 1.
Proof.
  split; [|vm_compute; reflexivity].
  apply (codec_states_wf demo_to_vec demo_context ChatLimits_default demo_events).
  vm_compute. discriminate.
Defined.
