(* ===== verification/UpstreamCommon.v ===== *)
(** * What the upstream codecs share

    Models [crates/wokcore-protocols/src/outbound/mod.rs] and the helpers at the
    end of [crates/wokcore-protocols/src/upstream/mod.rs]: limits, identifiers,
    bounded event lists, and the mapping of HTTP errors. *)
From stdpp Require Import pretty.
From S2P Require Import Prelude Text Json Canonical.

Record UpstreamLimits : Set := mkUpstreamLimits {
  ul_max_request_body_bytes : Z;
  ul_max_response_body_bytes : Z;
  ul_max_stream_frame_bytes : Z;
  ul_max_events : Z;
  ul_max_collection_items : Z;
  ul_max_identifier_bytes : Z;
  ul_max_text_delta_bytes : Z;
  ul_max_tool_argument_bytes : Z
}.

Definition UpstreamLimits_default : UpstreamLimits :=
  mkUpstreamLimits (16 * 1024 * 1024) (16 * 1024 * 1024) (1024 * 1024) 4096 256 512 (1024 * 1024)
    (1024 * 1024).

Definition validate_limits (l : UpstreamLimits) : result GatewayError unit :=
  guard_err
    ((ul_max_request_body_bytes l =? 0) || (ul_max_response_body_bytes l =? 0)
     || (ul_max_stream_frame_bytes l =? 0) || (ul_max_events l =? 0)
     || (ul_max_collection_items l =? 0) || (ul_max_identifier_bytes l =? 0)
     || (ul_max_text_delta_bytes l =? 0) || (ul_max_tool_argument_bytes l =? 0))
    invalid_request.

(** [validate_identifier] of [outbound/mod.rs]: ASCII letters, digits and three
    punctuation marks. *)
Definition is_identifier_byte (b : Z) : bool :=
  is_ascii_alphanumeric b || (b =? 45) || (b =? 95) || (b =? 46).

Definition is_dots (value : string) : bool :=
  bool_decide (value = "."%string) || bool_decide (value = ".."%string).

Definition strict_identifier (value : string) (limit : Z) : result GatewayError unit :=
  guard_err
    (str_is_empty value || is_dots value || (limit <? str_len value)
     || negb (forallb is_identifier_byte (str_bytes value)))
    invalid_request.

(** [validate_identifier] of [upstream/mod.rs]: anything without control
    characters. *)
Definition loose_identifier (value : string) (maximum_bytes : Z) : result GatewayError unit :=
  guard_err
    (str_is_empty value || (maximum_bytes <? str_len value) || has_control value || is_dots value)
    invalid_request.

Definition push_event (events : list CanonicalEvent) (event : CanonicalEvent) (l : UpstreamLimits)
  : result GatewayError (list CanonicalEvent) :=
  check? guard_err (ul_max_events l <=? zlen events) invalid_request;
  Ok (events ++ [event]).

Definition account_stream_events (emitted_events added_events : Z) (l : UpstreamLimits)
  : result GatewayError Z :=
  let? total := ok_or (checked_add64 emitted_events added_events) invalid_request in
  check? guard_err (ul_max_events l <? total) invalid_request;
  Ok total.

(** [format!("prefix{n}")]. *)
Definition numbered (prefix : string) (n : Z) : string := prefix +:+ pretty (Z.to_N n).

Definition required_string (value : Value) (key : string) : result GatewayError string :=
  ok_or (get_str value key) invalid_request.

Definition optional_u64 (value : Value) (key : string) : result GatewayError (option Z) :=
  match value_get value key with
  | None => Ok None
  | Some v => let? n := ok_or (as_u64 v) invalid_request in Ok (Some n)
  end.

(** [push_text] and [push_tool] of [upstream/mod.rs]. *)
Definition push_text (events : list CanonicalEvent) (item_id text : string) (reasoning : bool)
  (l : UpstreamLimits) : result GatewayError (list CanonicalEvent) :=
  check? loose_identifier item_id (ul_max_identifier_bytes l);
  check? guard_err (ul_max_text_delta_bytes l <? str_len text) invalid_request;
  push_event events
    (if reasoning then EvReasoningDelta item_id text else EvOutputTextDelta item_id text) l.

Definition push_tool (events : list CanonicalEvent) (item_id call_id name delta : string)
  (l : UpstreamLimits) : result GatewayError (list CanonicalEvent) :=
  check? loose_identifier item_id (ul_max_identifier_bytes l);
  check? loose_identifier call_id (ul_max_identifier_bytes l);
  check? loose_identifier name (ul_max_identifier_bytes l);
  check? guard_err (ul_max_tool_argument_bytes l <? str_len delta) invalid_request;
  push_event events (EvToolCallDelta item_id call_id name delta) l.

(** ** HTTP errors: [retry_after] is the header's parsed value. *)
Definition classify_http_error (status : Z) (retry_after : option Z) (provider : string)
  : GatewayError :=
  if (status =? 401) || (status =? 403) then upstream_auth provider
  else if status =? 429 then rate_limited retry_after
  else if (500 <=? status) && (status <=? 599) then upstream_5xx status
  else upstream_response status provider.

(** ** Shapes of event lists *)
Inductive is_delta : CanonicalEvent -> Prop :=
| delta_text i d : is_delta (EvOutputTextDelta i d)
| delta_reasoning i d : is_delta (EvReasoningDelta i d)
| delta_tool i c n d : is_delta (EvToolCallDelta i c n d).

Lemma push_event_Ok events e l events' :
  push_event events e l = Ok events' -> events' = events ++ [e] /\ zlen events < ul_max_events l.
Proof.
  unfold push_event. intros [Hg [= <-]]%check_Ok. apply guard_err_Ok, Z.leb_gt in Hg. done.
Qed.

Lemma push_text_Ok events i t r l events' :
  push_text events i t r l = Ok events' -> exists e, is_delta e /\ events' = events ++ [e].
Proof.
  unfold push_text. intros [_ H]%check_Ok. apply check_Ok in H as [_ H].
  apply push_event_Ok in H as [-> _]. eexists; split; [|done]. destruct r; constructor.
Qed.

Lemma push_tool_Ok events i c n d l events' :
  push_tool events i c n d l = Ok events' -> exists e, is_delta e /\ events' = events ++ [e].
Proof.
  unfold push_tool. intros H. do 4 apply check_Ok in H as [_ H].
  apply push_event_Ok in H as [-> _]. eexists; split; [|done]. constructor.
Qed.

(** ** Operations that append deltas

    [frame] is what the operation leaves alone in the decoder's state. *)
Definition appends {S} (frame : S -> S -> Prop)
  (op : list CanonicalEvent -> st_res S GatewayError (list CanonicalEvent)) : Prop :=
  forall events d d' events', op events d = (d', Ok events') ->
    frame d d' /\ exists new, events' = events ++ new /\ Forall is_delta new.

Section Appends.
Context {S : Type} {frame : S -> S -> Prop} `{Hrefl : !Reflexive frame} `{Htrans : !Transitive frame}.

Abbreviation events_op := (list CanonicalEvent -> st_res S GatewayError (list CanonicalEvent)).

#[local] Abbreviation appends := (appends frame).

Lemma appends_ret : appends (fun events => st_ret events).
Proof using Hrefl. intros events d d' events' [= <- <-]. split; [done|]. exists []. by rewrite app_nil_r. Qed.

Lemma appends_bind (f g : events_op) :
  appends f -> appends g -> appends (fun events => st_bind (f events) g).
Proof using Htrans.
  intros Hf Hg events d d' events' (d1 & e1 & H1 & H2)%st_bind_Ok.
  apply Hf in H1 as (Hs1 & n1 & -> & Hn1). apply Hg in H2 as (Hs2 & n2 & -> & Hn2).
  split; [by etrans|]. exists (n1 ++ n2). rewrite app_assoc. split; [done|]. by apply Forall_app.
Qed.

Lemma appends_fold {A} (f : list CanonicalEvent -> A -> st_res S GatewayError (list CanonicalEvent)) l :
  (forall a, appends (fun events => f events a)) -> appends (fun events => st_fold f events l).
Proof using Hrefl Htrans.
  intros Hf. induction l as [|a l IH]; [exact appends_ret|]. cbn [st_fold].
  exact (appends_bind (fun events => f events a) (fun events => st_fold f events l) (Hf a) IH).
Qed.

(** A prefix that reads and checks without touching the decoder. *)
Lemma appends_lift {A} (r : result GatewayError A) (k : A -> events_op) :
  (forall a, appends (k a)) -> appends (fun events => st_bind (st_lift r) (fun a => k a events)).
Proof.
  intros Hk events d d' events' (d1 & a & H1 & H2)%st_bind_Ok. unfold st_lift in H1.
  injection H1 as <- _. by apply (Hk a).
Qed.

Lemma appends_get (k : S -> events_op) :
  (forall d, appends (k d)) -> appends (fun events => st_bind st_get (fun d => k d events)).
Proof.
  intros Hk events d d' events' (d1 & d2 & H1 & H2)%st_bind_Ok. unfold st_get in H1.
  injection H1 as <- <-. by apply (Hk d).
Qed.

(** A step that changes the decoder only where the frame allows. *)
Lemma appends_step {A} (s : st_res S GatewayError A) (k : events_op) :
  (forall d d' u, s d = (d', Ok u) -> frame d d') ->
  appends k -> appends (fun events => st_bind s (fun _ => k events)).
Proof using Htrans.
  intros Hs Hk events d d' events' (d1 & u & H1 & H2)%st_bind_Ok.
  apply Hk in H2 as (Hf & new & -> & Hn). split; [etrans; [by eapply Hs|done]|]. eauto.
Qed.

Lemma appends_pure (f : list CanonicalEvent -> result GatewayError (list CanonicalEvent)) :
  (forall events events', f events = Ok events' -> exists e, is_delta e /\ events' = events ++ [e]) ->
  appends (fun events => st_lift (f events)).
Proof using Hrefl.
  intros Hf events d d' events'. unfold st_lift. intros [= <- H].
  apply Hf in H as (e & He & ->). split; [done|]. exists [e]. split; [done|].
  by apply list.Forall_singleton.
Qed.

Lemma appends_push e l : is_delta e -> appends (fun events => st_lift (push_event events e l)).
Proof using Hrefl.
  intros He. apply appends_pure. intros events events' H.
  apply push_event_Ok in H as [-> _]. eauto.
Qed.
End Appends.

(** ** Shapes of streams *)
(** What a decoder has emitted so far. *)
Definition opened (created : bool) (l : list CanonicalEvent) : Prop :=
  if created then exists id deltas, l = EvCreated id :: deltas /\ Forall is_delta deltas else l = [].

Lemma opened_app l new : opened true l -> Forall is_delta new -> opened true (l ++ new).
Proof.
  intros (id & ds & -> & Hds) Hn. exists id, (ds ++ new). split; [done|]. by apply Forall_app.
Qed.

(** The events of a finished stream. *)
Definition complete_stream (l : list CanonicalEvent) : Prop :=
  exists id deltas usage, l = EvCreated id :: deltas ++ usage ++ [EvCompleted] /\
    Forall is_delta deltas /\ (usage = [] \/ exists u, usage = [EvUsage u]).

Lemma complete_stream_close l usage :
  opened true l -> (usage = [] \/ exists u, usage = [EvUsage u]) ->
  complete_stream (l ++ usage ++ [EvCompleted]).
Proof. intros (id & ds & -> & Hds) Hu. by exists id, ds, usage. Qed.
