(* ===== verification/ChatUpstream.v ===== *)
(** * Chat upstreams

    Models the response side of
    [crates/wokcore-protocols/src/outbound/azure.rs], which decodes both OpenAI
    Chat and Azure answers: whole responses and streams.  [from_value] is the
    derived deserialisation of the usage object;
    [Clone] and borrowing leave no trace here. *)
From S2P Require Import Prelude Text Sse Json Canonical UpstreamCommon.

Record AzurePromptTokensDetailsWire : Set := mkPromptDetails {
  pd_cached_tokens : option Z;
  prd_extensions : json_map
}.

Record AzureCompletionTokensDetailsWire : Set := mkCompletionDetails {
  cd_reasoning_tokens : option Z;
  cd_extensions : json_map
}.

Record AzureUsageWire : Set := mkAzureUsage {
  wire_prompt_tokens : option Z;
  wire_completion_tokens : option Z;
  wire_prompt_details : option AzurePromptTokensDetailsWire;
  wire_completion_details : option AzureCompletionTokensDetailsWire;
  wire_extensions : json_map
}.

(** The derived [Deserialize] of the usage object. *)
Class AzureSerde : Type := {
  from_value : Value -> option AzureUsageWire
}.

(** A struct is not deserialised from [null]. *)
Class AzureSerdeLaws `{AzureSerde} : Prop := {
  from_value_null : from_value VNull = None
}.

Record ToolState : Set := mkToolState { ts_item_id : string; ts_call_id : string; ts_name : string }.

Record AzureResponseDecoder : Set := mkAzureResponse {
  az_request_id : string;
  az_limits : UpstreamLimits;
  az_created : bool;
  az_completed : bool;
  az_next_item : Z;
  az_tool_calls : gmap Z ToolState;
  az_pending_usage : option Usage
}.

Definition AzureResponseDecoder_new (request_id : string) (l : UpstreamLimits) : AzureResponseDecoder :=
  mkAzureResponse request_id l false false 0 ∅ None.

Definition az_set_created (d : AzureResponseDecoder) : AzureResponseDecoder :=
  mkAzureResponse (az_request_id d) (az_limits d) true (az_completed d) (az_next_item d)
    (az_tool_calls d) (az_pending_usage d).
Definition az_set_completed (d : AzureResponseDecoder) : AzureResponseDecoder :=
  mkAzureResponse (az_request_id d) (az_limits d) (az_created d) true (az_next_item d)
    (az_tool_calls d) (az_pending_usage d).
Definition az_bump (d : AzureResponseDecoder) : AzureResponseDecoder :=
  mkAzureResponse (az_request_id d) (az_limits d) (az_created d) (az_completed d)
    (az_next_item d + 1) (az_tool_calls d) (az_pending_usage d).
Definition az_set_tools (t : gmap Z ToolState) (d : AzureResponseDecoder) : AzureResponseDecoder :=
  mkAzureResponse (az_request_id d) (az_limits d) (az_created d) (az_completed d)
    (az_next_item d) t (az_pending_usage d).
Definition az_set_usage (u : option Usage) (d : AzureResponseDecoder) : AzureResponseDecoder :=
  mkAzureResponse (az_request_id d) (az_limits d) (az_created d) (az_completed d)
    (az_next_item d) (az_tool_calls d) u.

Abbreviation decoding_op := (st_res AzureResponseDecoder GatewayError).
Abbreviation event_list := (list CanonicalEvent).

(** ** Small readers *)
Definition reject_error (root : Value) : result GatewayError unit :=
  guard_err (is_someb (value_get root "error")) (upstream_response 502 "azure upstream error").

Definition bounded_array (value : Value) (l : UpstreamLimits) : result GatewayError (list Value) :=
  let? values := ok_or (as_array value) invalid_request in
  check? guard_err (ul_max_collection_items l <? zlen values) invalid_request;
  Ok values.

Definition required_bounded_array (root : Value) (key : string) (l : UpstreamLimits)
  : result GatewayError (list Value) :=
  let? value := ok_or (value_get root key) invalid_request in
  bounded_array value l.

(** [value.get(key).and_then(Value::as_object)]: the object itself. *)
Definition required_object (value : Value) (key : string) : result GatewayError Value :=
  let? v := ok_or (value_get value key) invalid_request in
  check? guard_err (negb (is_object v)) invalid_request;
  Ok v.

Section Azure.
Context `{JsonCrate} `{AzureSerde}.

Definition openai_usage (value : Value) (l : UpstreamLimits) : result GatewayError Usage :=
  let? wire := ok_or (from_value value) invalid_request in
  check? guard_err
    ((ul_max_collection_items l <? Z.of_nat (size (wire_extensions wire)))
     || is_some_and (fun d => ul_max_collection_items l <? Z.of_nat (size (prd_extensions d)))
          (wire_prompt_details wire)
     || is_some_and (fun d => ul_max_collection_items l <? Z.of_nat (size (cd_extensions d)))
          (wire_completion_details wire)) invalid_request;
  let extensions := wire_extensions wire in
  let extensions :=
    match wire_prompt_details wire with
    | Some d => if bool_decide (prd_extensions d = ∅) then extensions
                else <["prompt_tokens_details"%string := of_map (prd_extensions d)]> extensions
    | None => extensions
    end in
  let extensions :=
    match wire_completion_details wire with
    | Some d => if bool_decide (cd_extensions d = ∅) then extensions
                else <["completion_tokens_details"%string := of_map (cd_extensions d)]> extensions
    | None => extensions
    end in
  Ok (mkUsage (default 0 (wire_prompt_tokens wire)) (default 0 (wire_completion_tokens wire))
        (wire_prompt_details wire ≫= pd_cached_tokens)
        (wire_completion_details wire ≫= cd_reasoning_tokens) extensions).

(** ** The response decoder: [events] is the list being filled. *)
Definition ensure_created (root : Value) (events : event_list) : decoding_op event_list :=
  let! d := st_get in
  if az_created d then st_ret events
  else
    let response_id := default ("azure_" +:+ az_request_id d) (get_str root "id") in
    do! st_lift (strict_identifier response_id (ul_max_identifier_bytes (az_limits d)));
    let! events := st_lift (push_event events (EvCreated response_id) (az_limits d)) in
    do! st_mod az_set_created;
    st_ret events.

Definition az_push_text (text : string) (reasoning : bool) (events : event_list)
  : decoding_op event_list :=
  let! d := st_get in
  do! st_lift (guard_err (ul_max_text_delta_bytes (az_limits d) <? str_len text) invalid_request);
  let item_id := numbered "azure_item_" (az_next_item d) in
  do! st_mod az_bump;
  st_lift (push_event events
    (if reasoning then EvReasoningDelta item_id text else EvOutputTextDelta item_id text)
    (az_limits d)).

Definition az_register_tool (index : Z) (call_id name : string) : decoding_op unit :=
  let! d := st_get in
  do! st_lift (strict_identifier call_id (ul_max_identifier_bytes (az_limits d)));
  do! st_lift (strict_identifier name (ul_max_identifier_bytes (az_limits d)));
  match az_tool_calls d !! index with
  | Some existing =>
      st_lift (guard_err (negb (bool_decide (ts_call_id existing = call_id))
                          || negb (bool_decide (ts_name existing = name))) invalid_request)
  | None =>
      do! st_mod (az_set_tools
        (<[index := mkToolState (numbered "azure_tool_" (az_next_item d)) call_id name]>
           (az_tool_calls d)));
      st_mod az_bump
  end.

Definition emit_tool (index : Z) (arguments : string) (events : event_list)
  : decoding_op event_list :=
  let! d := st_get in
  do! st_lift (guard_err (ul_max_tool_argument_bytes (az_limits d) <? str_len arguments) invalid_request);
  let! state := st_lift (ok_or (az_tool_calls d !! index) invalid_request) in
  st_lift (push_event events
    (EvToolCallDelta (ts_item_id state) (ts_call_id state) (ts_name state) arguments) (az_limits d)).

Definition push_complete_tool (events : event_list) (entry : Z * Value) : decoding_op event_list :=
  let '(index, call) := entry in
  let! function := st_lift (required_object call "function") in
  let! call_id := st_lift (ok_or (get_str call "id") invalid_request) in
  let! name := st_lift (ok_or (get_str function "name") invalid_request) in
  let! arguments := st_lift (ok_or (get_str function "arguments") invalid_request) in
  do! az_register_tool index call_id name;
  emit_tool index arguments events.

Definition push_tool_delta (events : event_list) (call : Value) : decoding_op event_list :=
  let! d := st_get in
  let! index := st_lift (ok_or (value_get call "index" ≫= as_u64) invalid_request) in
  do! st_lift (guard_err (ul_max_collection_items (az_limits d) <=? index) invalid_request);
  let! function := st_lift (required_object call "function") in
  do! (match get_str call "id", get_str function "name" with
       | Some call_id, Some name => az_register_tool index call_id name
       | _, _ => st_ret tt
       end);
  match get_str function "arguments" with
  | Some arguments => emit_tool index arguments events
  | None => st_ret events
  end.

(** The text and reasoning of a message or of a delta. *)
Definition push_optional_text (part : Value) (key : string) (reasoning : bool) (events : event_list)
  : decoding_op event_list :=
  match get_str part key with
  | Some text => az_push_text text reasoning events
  | None => st_ret events
  end.

Definition decode_message_choice (events : event_list) (choice : Value) : decoding_op event_list :=
  let! d := st_get in
  let! message := st_lift (required_object choice "message") in
  let! events := push_optional_text message "content" false events in
  let! events := push_optional_text message "reasoning_content" true events in
  match value_get message "tool_calls" with
  | Some calls =>
      let! calls := st_lift (bounded_array calls (az_limits d)) in
      st_fold push_complete_tool events (imap (fun i call => (Z.of_nat i, call)) calls)
  | None => st_ret events
  end.

Definition decode_delta_choice (events : event_list) (choice : Value) : decoding_op event_list :=
  let! d := st_get in
  let! delta := st_lift (required_object choice "delta") in
  let! events := push_optional_text delta "content" false events in
  let! events := push_optional_text delta "reasoning_content" true events in
  match value_get delta "tool_calls" with
  | Some calls =>
      let! calls := st_lift (bounded_array calls (az_limits d)) in
      st_fold push_tool_delta events calls
  | None => st_ret events
  end.

Definition record_pending_usage (root : Value) : decoding_op unit :=
  let! d := st_get in
  match value_get root "usage" with
  | Some usage =>
      let! u := st_lift (openai_usage usage (az_limits d)) in
      st_mod (az_set_usage (Some u))
  | None => st_ret tt
  end.

Definition decode_non_stream (root : Value) : decoding_op event_list :=
  let! d := st_get in
  do! st_lift (reject_error root);
  let! events := ensure_created root [] in
  let! choices := st_lift (required_bounded_array root "choices" (az_limits d)) in
  let! events := st_fold decode_message_choice events choices in
  do! record_pending_usage root;
  st_ret events.

Definition decode_stream_chunk (root : Value) : decoding_op event_list :=
  let! d := st_get in
  do! st_lift (reject_error root);
  let! events := ensure_created root [] in
  let! events :=
    match value_get root "choices" with
    | Some choices =>
        let! choices := st_lift (bounded_array choices (az_limits d)) in
        st_fold decode_delta_choice events choices
    | None => st_ret events
    end in
  do! record_pending_usage root;
  st_ret events.

Definition az_finish : decoding_op event_list :=
  let! d := st_get in
  if az_completed d then st_ret []
  else
    let! events :=
      if az_created d then st_ret []
      else
        let! events := st_lift (push_event [] (EvCreated ("azure_" +:+ az_request_id d)) (az_limits d)) in
        do! st_mod az_set_created;
        st_ret events in
    let usage := az_pending_usage d in
    do! st_mod (az_set_usage None);
    let! events :=
      match usage with
      | Some u => st_lift (push_event events (EvUsage u) (az_limits d))
      | None => st_ret events
      end in
    let! events := st_lift (push_event events EvCompleted (az_limits d)) in
    do! st_mod az_set_completed;
    st_ret events.

(** [AzureAdapter::decode_response]: a fresh decoder per response. *)
Definition azure_decode_response (request_id : string) (body : list Z) (l : UpstreamLimits)
  : result GatewayError event_list :=
  check? guard_err (ul_max_response_body_bytes l <? zlen body) invalid_request;
  let? value := ok_or (from_str body) invalid_request in
  snd ((let! events := decode_non_stream value in
        let! emitted := st_lift (account_stream_events 0 (zlen events) l) in
        let! completed := az_finish in
        do! st_lift (account_stream_events emitted (zlen completed) l);
        st_ret (events ++ completed)) (AzureResponseDecoder_new request_id l)).

(** ** The stream decoder *)
Record AzureStreamDecoder : Set := mkAzureStream {
  azs_sse : SseDecoder;
  azs_response : AzureResponseDecoder;
  azs_received_bytes : Z;
  azs_limits : UpstreamLimits;
  azs_failed : bool;
  azs_finished : bool;
  azs_saw_done : bool;
  azs_emitted_events : Z
}.

Definition azure_stream_decoder (request_id : string) (l : UpstreamLimits) : AzureStreamDecoder :=
  mkAzureStream (with_limits (ul_max_stream_frame_bytes l) (ul_max_events l))
    (AzureResponseDecoder_new request_id l) 0 l false false false 0.

Abbreviation stream_op := (st_res AzureStreamDecoder GatewayError).

Definition azs_set_sse (v : SseDecoder) (d : AzureStreamDecoder) : AzureStreamDecoder :=
  mkAzureStream v (azs_response d) (azs_received_bytes d) (azs_limits d) (azs_failed d) (azs_finished d)
    (azs_saw_done d) (azs_emitted_events d).
Definition azs_set_response (v : AzureResponseDecoder) (d : AzureStreamDecoder) : AzureStreamDecoder :=
  mkAzureStream (azs_sse d) v (azs_received_bytes d) (azs_limits d) (azs_failed d) (azs_finished d)
    (azs_saw_done d) (azs_emitted_events d).
Definition azs_set_received (v : Z) (d : AzureStreamDecoder) : AzureStreamDecoder :=
  mkAzureStream (azs_sse d) (azs_response d) v (azs_limits d) (azs_failed d) (azs_finished d)
    (azs_saw_done d) (azs_emitted_events d).
Definition azs_set_failed (d : AzureStreamDecoder) : AzureStreamDecoder :=
  mkAzureStream (azs_sse d) (azs_response d) (azs_received_bytes d) (azs_limits d) true (azs_finished d)
    (azs_saw_done d) (azs_emitted_events d).
Definition azs_set_finished (d : AzureStreamDecoder) : AzureStreamDecoder :=
  mkAzureStream (azs_sse d) (azs_response d) (azs_received_bytes d) (azs_limits d) (azs_failed d) true
    (azs_saw_done d) (azs_emitted_events d).
Definition azs_set_done (d : AzureStreamDecoder) : AzureStreamDecoder :=
  mkAzureStream (azs_sse d) (azs_response d) (azs_received_bytes d) (azs_limits d) (azs_failed d)
    (azs_finished d) true (azs_emitted_events d).
Definition azs_set_emitted (v : Z) (d : AzureStreamDecoder) : AzureStreamDecoder :=
  mkAzureStream (azs_sse d) (azs_response d) (azs_received_bytes d) (azs_limits d) (azs_failed d)
    (azs_finished d) (azs_saw_done d) v.

(** Any error marks the decoder failed. *)
Definition or_fail {A} (r : result GatewayError A) : stream_op A :=
  match r with
  | Ok a => st_ret a
  | Err e => do! st_mod azs_set_failed; st_err e
  end.

Definition on_response {A} (c : decoding_op A) : stream_op A :=
  let! d := st_get in
  let '(response, r) := c (azs_response d) in
  do! st_mod (azs_set_response response);
  or_fail r.

Definition on_sse {A} (c : st_res SseDecoder ProtocolError A) : stream_op A :=
  let! d := st_get in
  let '(sse, r) := c (azs_sse d) in
  do! st_mod (azs_set_sse sse);
  or_fail (map_err (fun _ => invalid_request) r).

Definition account_events (events : event_list) : stream_op unit :=
  let! d := st_get in
  let! total := or_fail (account_stream_events (azs_emitted_events d) (zlen events) (azs_limits d)) in
  st_mod (azs_set_emitted total).

(** [data.trim() == "[DONE]"]. *)
Definition trim_start (l : list Z) : list Z :=
  (fix go l := match l with
               | c :: r => if is_whitespace c then go r else l
               | [] => []
               end) l.

Definition is_done (data : list Z) : bool :=
  bool_decide (reverse (trim_start (reverse (trim_start (chars data)))) = str_bytes "[DONE]").

Definition decode_frame (events : event_list) (frame : SseFrame) : stream_op event_list :=
  let! d := st_get in
  if azs_saw_done d then do! st_mod azs_set_failed; st_err invalid_request
  else if is_done (frame_data frame) then do! st_mod azs_set_done; st_ret events
  else
    let! value := or_fail (ok_or (from_str (frame_data frame)) invalid_request) in
    let! decoded := on_response (decode_stream_chunk value) in
    do! account_events decoded;
    st_ret (events ++ decoded).

Definition azure_push (chunk : list Z) : stream_op event_list :=
  let! d := st_get in
  if azs_failed d || azs_finished d || azs_saw_done d then st_err invalid_request
  else
    do! st_mod (azs_set_received (sat_add64 (azs_received_bytes d) (zlen chunk)));
    let! d := st_get in
    do! or_fail (guard_err (ul_max_response_body_bytes (azs_limits d) <? azs_received_bytes d)
                   invalid_request);
    let! frames := on_sse (push chunk) in
    st_fold decode_frame [] frames.

Definition azure_finish : stream_op event_list :=
  let! d := st_get in
  if azs_failed d || azs_finished d then st_err invalid_request
  else
    do! on_sse finish;
    let! d := st_get in
    do! or_fail (guard_err (negb (azs_saw_done d)) invalid_request);
    let! events := on_response az_finish in
    do! account_events events;
    do! st_mod azs_set_finished;
    st_ret events.
End Azure.

(** * Chat upstreams: what the decoder emits

    The events of a decoded stream have one shape whatever the chunks are; and
    the decoder does not read the streams the gateway itself writes. *)
From S2P Require Import ChatEncode.

Section Spec.
Context `{HJ : JsonCrate} `{HS : AzureSerde}.

(** What the delta operations leave alone. *)
Record same_frame (d d' : AzureResponseDecoder) : Prop := {
  sf_created : az_created d' = az_created d;
  sf_completed : az_completed d' = az_completed d;
  sf_limits : az_limits d' = az_limits d;
  sf_usage : az_pending_usage d' = az_pending_usage d
}.

#[export] Instance same_frame_refl : Reflexive same_frame.
Proof. by split. Qed.

#[export] Instance same_frame_trans : Transitive same_frame.
Proof. intros a b c [] []. split; congruence. Qed.

Abbreviation appends_deltas := (appends same_frame).

Lemma appends_text text reasoning : appends_deltas (az_push_text text reasoning).
Proof.
  unfold az_push_text. apply appends_get. intros d.
  apply (appends_lift (guard_err _ _)). intros _. apply appends_step.
  - intros d1 d2 u. unfold st_mod. by intros [= <- _].
  - apply appends_push. destruct reasoning; constructor.
Qed.

Lemma register_frame index cid nm d d' u : az_register_tool index cid nm d = (d', Ok u) -> same_frame d d'.
Proof.
  unfold az_register_tool. intros (d1 & d2 & H1 & H)%st_bind_Ok. unfold st_get in H1. injection H1 as <- <-.
  do 2 (apply st_bind_Ok in H as (d3 & ? & H3 & H); unfold st_lift in H3; injection H3 as <- _).
  destruct (az_tool_calls d !! index).
  - unfold st_lift in H. by injection H as <- _.
  - apply st_bind_Ok in H as (d4 & ? & H4 & H). unfold st_mod in H4, H.
    injection H4 as <- _. by injection H as <- _.
Qed.

Lemma appends_emit index arguments : appends_deltas (emit_tool index arguments).
Proof.
  unfold emit_tool. apply appends_get. intros d. apply (appends_lift (guard_err _ _)). intros _.
  apply (appends_lift (ok_or _ _)). intros s. apply appends_push. constructor.
Qed.

Lemma appends_optional part key reasoning : appends_deltas (push_optional_text part key reasoning).
Proof.
  unfold push_optional_text. destruct (get_str part key); [apply appends_text|apply appends_ret].
Qed.

Lemma appends_tool_delta call : appends_deltas (fun events => push_tool_delta events call).
Proof.
  unfold push_tool_delta. apply appends_get. intros d. apply (appends_lift (ok_or _ _)). intros i.
  apply (appends_lift (guard_err _ _)). intros _. apply (appends_lift (required_object _ _)). intros f.
  apply appends_step.
  - intros d1 d2 u. destruct (get_str call "id"), (get_str f "name");
      [apply register_frame|unfold st_ret; by intros [= <- _]..].
  - destruct (get_str f "arguments"); [apply appends_emit|apply appends_ret].
Qed.

Lemma appends_complete_tool entry : appends_deltas (fun events => push_complete_tool events entry).
Proof.
  destruct entry as [i call]. unfold push_complete_tool.
  apply (appends_lift (required_object _ _)). intros f. do 3 (apply (appends_lift (ok_or _ _)); intros ?).
  apply appends_step; [intros d d' u; apply register_frame|apply appends_emit].
Qed.

Lemma appends_delta_choice choice : appends_deltas (fun events => decode_delta_choice events choice).
Proof.
  unfold decode_delta_choice. apply appends_get. intros d. apply (appends_lift (required_object _ _)).
  intros delta. apply appends_bind; [apply appends_optional|].
  apply appends_bind; [apply appends_optional|].
  destruct (value_get delta "tool_calls") as [calls|]; [|apply appends_ret].
  apply (appends_lift (bounded_array _ _)). intros l. apply appends_fold. apply appends_tool_delta.
Qed.

Lemma appends_message_choice choice : appends_deltas (fun events => decode_message_choice events choice).
Proof.
  unfold decode_message_choice. apply appends_get. intros d. apply (appends_lift (required_object _ _)).
  intros m. apply appends_bind; [apply appends_optional|].
  apply appends_bind; [apply appends_optional|].
  destruct (value_get m "tool_calls") as [calls|]; [|apply appends_ret].
  apply (appends_lift (bounded_array _ _)). intros l. apply appends_fold. apply appends_complete_tool.
Qed.

(** ** Whole chunks *)
Lemma ensure_created_Ok root sofar d d' events :
  opened (az_created d) sofar -> ensure_created root [] d = (d', Ok events) ->
  opened true (sofar ++ events) /\ az_created d' = true /\ az_completed d' = az_completed d /\
  az_limits d' = az_limits d.
Proof.
  intros Ho. unfold ensure_created, st_bind, st_get, st_lift, st_mod, st_ret.
  destruct (az_created d) eqn:Hc.
  - intros [= <- <-]. by rewrite app_nil_r.
  - destruct (strict_identifier _ _) as [[]|]; [|done].
    destruct (push_event _ _ _) as [l|] eqn:Hp; [|done]. intros [= <- <-].
    apply push_event_Ok in Hp as [-> _]. cbn in Ho. subst sofar. cbn. split_and!; [|done..].
    eexists _, []. done.
Qed.

Lemma record_usage_frame root d d' u :
  record_pending_usage root d = (d', Ok u) ->
  az_created d' = az_created d /\ az_completed d' = az_completed d /\ az_limits d' = az_limits d.
Proof.
  unfold record_pending_usage, st_bind, st_get, st_lift, st_mod, st_ret.
  destruct (value_get root "usage") as [v|]; [|by intros [= <- <-]].
  destruct (openai_usage v _) as [x|]; [|done]. by intros [= <- <-].
Qed.

(** Both decoders of a whole object share this frame. *)
Lemma decode_object_Ok root sofar d d' events
    (body : event_list -> st_res AzureResponseDecoder GatewayError event_list) :
  opened (az_created d) sofar -> appends_deltas body ->
  st_bind (ensure_created root []) (fun events => st_bind (body events) (fun events =>
    st_bind (record_pending_usage root) (fun _ => st_ret events))) d = (d', Ok events) ->
  opened true (sofar ++ events) /\ az_created d' = true /\ az_completed d' = az_completed d /\
  az_limits d' = az_limits d.
Proof.
  intros Ho Hb (d1 & e1 & H1 & H)%st_bind_Ok.
  apply (ensure_created_Ok _ sofar) in H1 as (Ho1 & Hc1 & Hk1 & Hl1); [|done].
  apply st_bind_Ok in H as (d2 & e2 & H2 & H). apply Hb in H2 as ([Hc2 Hk2 Hl2 _] & new & -> & Hn).
  apply st_bind_Ok in H as (d3 & u & H3 & H). apply record_usage_frame in H3 as (Hc3 & Hk3 & Hl3).
  unfold st_ret in H. injection H as <- <-. rewrite app_assoc.
  split_and!; [by apply opened_app|congruence..].
Qed.

Lemma decode_stream_chunk_Ok root sofar d d' events :
  opened (az_created d) sofar -> decode_stream_chunk root d = (d', Ok events) ->
  opened true (sofar ++ events) /\ az_created d' = true /\ az_completed d' = az_completed d /\
  az_limits d' = az_limits d.
Proof.
  intros Ho. unfold decode_stream_chunk. intros (d1 & d2 & H1 & H)%st_bind_Ok.
  unfold st_get in H1. injection H1 as <- <-.
  apply st_bind_Ok in H as (d1 & u & H1 & H). unfold st_lift in H1. injection H1 as <- _.
  revert H. apply (decode_object_Ok root sofar d d' events); [done|].
  destruct (value_get root "choices") as [choices|]; [|apply appends_ret].
  apply (appends_lift (bounded_array _ _)). intros l. apply appends_fold, appends_delta_choice.
Qed.

(** ** Streams *)
Record stream_inv (s : AzureStreamDecoder) (sofar : event_list) : Prop := {
  si_opened : opened (az_created (azs_response s)) sofar;
  si_completed : azs_finished s = false -> az_completed (azs_response s) = false;
  si_emitted : azs_emitted_events s = zlen sofar;
  si_bound : zlen sofar <= ul_max_events (azs_limits s)
}.

Lemma or_fail_Ok {A} (r : result GatewayError A) s s' a :
  or_fail r s = (s', Ok a) -> s' = s /\ r = Ok a.
Proof. destruct r; cbn; [by intros [= <- <-]|done]. Qed.

Lemma on_response_Ok {A} (c : st_res AzureResponseDecoder GatewayError A) s s' a :
  on_response c s = (s', Ok a) ->
  exists r, c (azs_response s) = (r, Ok a) /\ s' = azs_set_response r s.
Proof.
  unfold on_response, st_bind, st_get. destruct (c (azs_response s)) as [r res]. unfold st_mod.
  intros [-> ->]%or_fail_Ok. eauto.
Qed.

Lemma on_sse_Ok {A} (c : st_res SseDecoder ProtocolError A) s s' a :
  on_sse c s = (s', Ok a) -> exists v, s' = azs_set_sse v s.
Proof.
  unfold on_sse, st_bind, st_get. destruct (c (azs_sse s)) as [r res]. unfold st_mod.
  intros [-> _]%or_fail_Ok. eauto.
Qed.

Lemma account_events_Ok events s s' u :
  account_events events s = (s', Ok u) ->
  s' = azs_set_emitted (azs_emitted_events s + zlen events) s /\
  azs_emitted_events s + zlen events <= ul_max_events (azs_limits s).
Proof.
  unfold account_events. intros (s1 & s2 & H1 & H)%st_bind_Ok. unfold st_get in H1. injection H1 as <- <-.
  apply st_bind_Ok in H as (s1 & total & H1 & H). apply or_fail_Ok in H1 as [-> Ha].
  unfold st_mod in H. injection H as <- _. unfold account_stream_events in Ha.
  apply result_bind_Ok in Ha as (n & Hn & Ha). apply ok_or_Ok in Hn.
  apply checked_add64_Some in Hn as [-> _]. apply check_Ok in Ha as [Hg [= <-]].
  apply guard_err_Ok, Z.ltb_ge in Hg. done.
Qed.

Lemma decode_frame_inv frame sofar events s s' events' :
  azs_finished s = false ->
  stream_inv s (sofar ++ events) -> decode_frame events frame s = (s', Ok events') ->
  stream_inv s' (sofar ++ events') /\ azs_finished s' = false /\ azs_limits s' = azs_limits s.
Proof.
  intros Hfin [Ho Hc He Hb]. unfold decode_frame. intros (s1 & s2 & H1 & H)%st_bind_Ok.
  unfold st_get in H1. injection H1 as <- <-.
  destruct (azs_saw_done s); [by apply st_bind_Ok in H as (? & ? & _ & ?)|].
  destruct (is_done _).
  { apply st_bind_Ok in H as (s1 & u & H1 & H). unfold st_mod, st_ret in *.
    injection H1 as <- _. injection H as <- <-. by split. }
  apply st_bind_Ok in H as (s1 & v & H1 & H). apply or_fail_Ok in H1 as [-> _].
  apply st_bind_Ok in H as (s1 & decoded & H1 & H). apply on_response_Ok in H1 as (r & Hr & ->).
  apply st_bind_Ok in H as (s1 & u & H1 & H). apply account_events_Ok in H1 as [-> Hle].
  unfold st_ret in H. injection H as <- <-.
  apply (decode_stream_chunk_Ok _ (sofar ++ events)) in Hr as (Ho' & Hcr & Hk & Hl); [|done].
  cbn in Hle. rewrite app_assoc. split_and!; [|done|done]. split; cbn.
  - by rewrite Hcr.
  - intros _. rewrite Hk. by apply Hc.
  - rewrite He. unfold zlen. rewrite !length_app. lia.
  - unfold zlen in *. rewrite !length_app in *. lia.
Qed.

Lemma decode_frames_inv frames sofar events s s' events' :
  azs_finished s = false ->
  stream_inv s (sofar ++ events) -> st_fold decode_frame events frames s = (s', Ok events') ->
  stream_inv s' (sofar ++ events') /\ azs_finished s' = false /\ azs_limits s' = azs_limits s.
Proof.
  revert events s. induction frames as [|f frames IH]; intros events s Hfin Hi; cbn [st_fold].
  - unfold st_ret. intros [= <- <-]. done.
  - intros (s1 & e1 & H1 & H2)%st_bind_Ok.
    apply (decode_frame_inv _ sofar) in H1 as (Hi1 & Hf1 & Hl1); [|done..].
    apply IH in H2 as (? & ? & ?); [|done..]. by rewrite <- Hl1.
Qed.

Lemma azure_push_inv chunk sofar s s' events :
  stream_inv s sofar -> azure_push chunk s = (s', Ok events) ->
  stream_inv s' (sofar ++ events) /\ azs_finished s' = false /\ azs_limits s' = azs_limits s.
Proof.
  intros [Ho Hc He Hb]. unfold azure_push. intros (s1 & s2 & H1 & H)%st_bind_Ok.
  unfold st_get in H1. injection H1 as <- <-.
  destruct (azs_failed s || azs_finished s || azs_saw_done s) eqn:Hst; [done|].
  apply orb_false_iff in Hst as [[_ Hfin]%orb_false_iff _].
  apply st_bind_Ok in H as (s1 & u & H1 & H). unfold st_mod in H1. injection H1 as <- _.
  apply st_bind_Ok in H as (s1 & s2 & H1 & H). unfold st_get in H1. injection H1 as <- <-.
  apply st_bind_Ok in H as (s1 & u2 & H1 & H). apply or_fail_Ok in H1 as [-> _].
  apply st_bind_Ok in H as (s1 & frames & H1 & H). apply on_sse_Ok in H1 as [v ->].
  apply (decode_frames_inv _ sofar) in H as (? & ? & ?); [done|done|].
  rewrite app_nil_r. by split.
Qed.

Lemma az_finish_Ok sofar d d' events :
  opened (az_created d) sofar -> az_completed d = false -> az_finish d = (d', Ok events) ->
  complete_stream (sofar ++ events).
Proof.
  intros Ho Hc. unfold az_finish. intros (s1 & s2 & H1 & H)%st_bind_Ok.
  unfold st_get in H1. injection H1 as <- <-. rewrite Hc in H.
  apply st_bind_Ok in H as (d1 & e1 & H1 & H).
  assert (opened true (sofar ++ e1)) as Hop.
  { destruct (az_created d).
    - unfold st_ret in H1. injection H1 as _ <-. by rewrite app_nil_r.
    - apply st_bind_Ok in H1 as (d2 & e2 & H1 & H2). unfold st_lift in H1. injection H1 as <- Hp.
      apply push_event_Ok in Hp as [-> _]. apply st_bind_Ok in H2 as (d3 & u & _ & H2).
      unfold st_ret in H2. injection H2 as _ <-. cbn in Ho. subst sofar. eexists _, []. done. }
  apply st_bind_Ok in H as (d2 & u & H2 & H). unfold st_mod in H2. injection H2 as <- _.
  apply st_bind_Ok in H as (d2 & e2 & H2 & H).
  apply st_bind_Ok in H as (d3 & e3 & H3 & H). unfold st_lift in H3. injection H3 as <- Hp.
  apply push_event_Ok in Hp as [-> _].
  apply st_bind_Ok in H as (d4 & u2 & _ & H). unfold st_ret in H. injection H as _ <-.
  destruct (az_pending_usage d) as [us|].
  - unfold st_lift in H2. injection H2 as _ Hp. apply push_event_Ok in Hp as [-> _].
    rewrite <- app_assoc, app_assoc. apply complete_stream_close; [done|eauto].
  - unfold st_ret in H2. injection H2 as _ <-. rewrite app_assoc.
    apply (complete_stream_close _ []); [done|auto].
Qed.

Lemma azure_finish_inv sofar s s' events :
  stream_inv s sofar -> azure_finish s = (s', Ok events) ->
  complete_stream (sofar ++ events) /\ zlen (sofar ++ events) <= ul_max_events (azs_limits s).
Proof.
  intros [Ho Hc He Hb]. unfold azure_finish. intros (s1 & s2 & H1 & H)%st_bind_Ok.
  unfold st_get in H1. injection H1 as <- <-.
  destruct (azs_failed s || azs_finished s) eqn:Hst; [done|].
  apply orb_false_iff in Hst as [_ Hfin].
  apply st_bind_Ok in H as (s1 & u & H1 & H). apply on_sse_Ok in H1 as [v ->].
  apply st_bind_Ok in H as (s1 & s2 & H1 & H). unfold st_get in H1. injection H1 as <- <-.
  apply st_bind_Ok in H as (s1 & u2 & H1 & H). apply or_fail_Ok in H1 as [-> _].
  apply st_bind_Ok in H as (s1 & ev & H1 & H). apply on_response_Ok in H1 as (r & Hr & ->).
  apply st_bind_Ok in H as (s1 & u3 & H1 & H). apply account_events_Ok in H1 as [-> Hle].
  apply st_bind_Ok in H as (s1 & u4 & _ & H). unfold st_ret in H. injection H as _ <-.
  cbn in Hr, Hle. split; [by eapply az_finish_Ok; [..|exact Hr]; [|apply Hc]|].
  unfold zlen in *. rewrite length_app. lia.
Qed.

(** ** The gateway's own streams *)
Context `{HSL : !AzureSerdeLaws}.

Lemma null_usage_rejected root d :
  value_get root "usage" = Some VNull -> exists e, snd (decode_stream_chunk root d) = Err e.
Proof using HSL.
  intros Hu.
  destruct (decode_stream_chunk root d) as [d' [events|e]] eqn:H; [|cbn; eauto]. exfalso.
  unfold decode_stream_chunk in H. do 4 apply st_bind_Ok in H as (? & ? & _ & H).
  apply st_bind_Ok in H as (d1 & u & H1 & _).
  unfold record_pending_usage, st_bind, st_get, st_lift in H1. rewrite Hu in H1.
  unfold openai_usage in H1. by rewrite from_value_null in H1.
Qed.
End Spec.

(** The first chunk of every transition carries a null usage when the codec was
    asked to report usage. *)
Lemma transition_null_usage to_vec event c c' v chunks :
  include_usage (ctx_response (context c)) = true ->
  transition to_vec event c = (c', Ok (TChunks (v :: chunks))) ->
  value_get v "usage" = Some VNull.
Proof.
  intros Hi. assert (forall c choices u, include_usage (ctx_response (context c)) = true ->
    value_get (chunk c choices u) "usage" = Some u) as Hget.
  { intros x choices u Hx. unfold chunk. rewrite get_of_map. apply lookup_union_Some_l. by rewrite Hx. }
  unfold transition. intros (c1 & c2 & H1 & H)%st_bind_Ok. unfold st_get in H1. injection H1 as <- <-.
  destruct (terminal c); [done|]. apply st_bind_Ok in H as (c1 & u & H1 & H).
  assert (include_usage (ctx_response (context c1)) = true) as Hi1.
  { unfold validate_context_once, st_bind, st_get, st_lift, st_mod, st_ret in H1.
    destruct (context_validated c); [by injection H1 as <- _|].
    destruct (validate_context _ _ _); [|done]. by injection H1 as <- _. }
  clear H1 Hi. destruct event; cbn in H;
    unfold created, text_delta, tool_delta, record_usage, completed, failed, delta_chunk,
      st_bind, st_get, st_lift, st_mod, st_ret, st_err in H;
    repeat match type of H with
    | context [match ?x with _ => _ end] => destruct x eqn:?; try done
    end; inversion H; subst; by apply Hget.
Qed.

(** The chat decoder rejects the gateway's own chat streams: every chunk the
    codec writes for an event while it reports usage carries [usage: null] (the
    form the Chat Completions reference documents for all chunks but the last),
    and the decoder answers any such chunk with an error, whatever came before. *)
Theorem own_chat_chunks_rejected `{AzureSerdeLaws} (to_vec : Value -> list Z)
    (event : CanonicalEvent) (c c' : ChatCodec) (v : Value) (chunks : list Value)
    (d : AzureResponseDecoder) :
  include_usage (ctx_response (context c)) = true ->
  transition to_vec event c = (c', Ok (TChunks (v :: chunks))) ->
  exists e, snd (decode_stream_chunk v d) = Err e.
Proof. intros Hi Ht. by eapply null_usage_rejected, transition_null_usage. Qed.

(** ** Witnesses *)
#[local] Instance demo_azure_serde : AzureSerde := {|
  from_value v := match v with
                  | VObject _ => Some (mkAzureUsage (value_get v "prompt_tokens" ≫= as_u64)
                                         (value_get v "completion_tokens" ≫= as_u64) None None ∅)
                  | _ => None end
|}.

#[local] Instance demo_json : JsonCrate := {| to_string _ := ""%string; from_str _ := None |}.

#[local] Instance demo_azure_laws : AzureSerdeLaws.
Proof. by split. Qed.

Definition demo_chat_context : ChatEncodeContext :=
  mkChatContext "model" 1 (mkChatTemplate 0 FinishStop None true ∅).

Definition demo_first : ChatCodec * result GatewayError Transition :=
  transition (fun _ => []) (EvCreated "resp") (codec_new demo_chat_context).
Definition demo_first_chunk : Value :=
  match snd demo_first with Ok (TChunks (v :: _)) => v | _ => VNull end.

Lemma own_chat_chunks_rejected_witness :
  exists e, snd (decode_stream_chunk demo_first_chunk
                   (AzureResponseDecoder_new "req" UpstreamLimits_default)) = Err e.
Proof.
  apply (own_chat_chunks_rejected (fun _ => []) (EvCreated "resp") (codec_new demo_chat_context)
           (fst demo_first) demo_first_chunk []); vm_compute; reflexivity.
Defined.
