(* ===== verification/Upstream.v ===== *)
(** * Responses and Messages upstreams

    Models the decoders of [crates/wokcore-protocols/src/upstream/mod.rs]: whole
    answers and event streams of the OpenAI Responses and Anthropic Messages
    protocols. *)
From S2P Require Import Prelude Text Sse Json Canonical UpstreamCommon.

Abbreviation event_list := (list CanonicalEvent).

Definition empty_usage : Usage := mkUsage 0 0 None None ∅.

(** [value.get(key).map(|d| optional_u64(d, inner)).transpose()?.flatten()]. *)
Definition nested_u64 (value : Value) (key inner : string) : result GatewayError (option Z) :=
  match value_get value key with
  | None => Ok None
  | Some details => optional_u64 details inner
  end.

(** A second index into an optional value. *)
Definition get2 (value : Value) (key inner : string) : option Value :=
  value_get value key ≫= fun v => value_get v inner.

Section Upstream.
Context `{JsonCrate}.

Definition validate_value_size (value : Value) (maximum_bytes : Z) : result GatewayError unit :=
  guard_err (maximum_bytes <? str_len (to_string value)) invalid_request.

Definition openai_responses_usage (value : option Value) (l : UpstreamLimits)
  : result GatewayError Usage :=
  match value with
  | None => Ok empty_usage
  | Some value =>
      check? validate_value_size value (ul_max_response_body_bytes l);
      let? input := optional_u64 value "input_tokens" in
      let? output := optional_u64 value "output_tokens" in
      let? cached := nested_u64 value "input_tokens_details" "cached_tokens" in
      let? reasoning := nested_u64 value "output_tokens_details" "reasoning_tokens" in
      Ok (mkUsage (default 0 input) (default 0 output) cached reasoning ∅)
  end.

Definition anthropic_usage (value : option Value) (l : UpstreamLimits) : result GatewayError Usage :=
  match value with
  | None => Ok empty_usage
  | Some value =>
      check? validate_value_size value (ul_max_response_body_bytes l);
      let? input := optional_u64 value "input_tokens" in
      let? output := optional_u64 value "output_tokens" in
      let? cached := optional_u64 value "cache_read_input_tokens" in
      Ok (mkUsage (default 0 input) (default 0 output) cached None ∅)
  end.

(** ** Whole answers *)
Definition is_output_text (part : Value) : bool :=
  match get_str part "type" with
  | Some kind => bool_decide (kind = "output_text"%string) || bool_decide (kind = "refusal"%string)
  | None => false
  end.

Definition push_message_part (item_id : string) (l : UpstreamLimits) (events : event_list)
  (part : Value) : result GatewayError event_list :=
  match get_str part "text" with
  | Some text => if is_output_text part then push_text events item_id text false l else Ok events
  | None => Ok events
  end.

Definition push_summary_part (item_id : string) (l : UpstreamLimits) (events : event_list)
  (part : Value) : result GatewayError event_list :=
  match get_str part "text" with
  | Some text => push_text events item_id text true l
  | None => Ok events
  end.

Definition decode_responses_output (l : UpstreamLimits) (events : event_list) (entry : Z * Value)
  : result GatewayError event_list :=
  let '(index, item) := entry in
  let? kind := required_string item "type" in
  let item_id := default (numbered "responses_item_" index) (get_str item "id") in
  check? loose_identifier item_id (ul_max_identifier_bytes l);
  if bool_decide (kind = "message"%string) then
    let? content := ok_or (value_get item "content" ≫= as_array) invalid_request in
    try_fold (push_message_part item_id l) events content
  else if bool_decide (kind = "reasoning"%string) then
    match value_get item "summary" ≫= as_array with
    | Some summary => try_fold (push_summary_part item_id l) events summary
    | None => Ok events
    end
  else if bool_decide (kind = "function_call"%string) then
    let? call_id := required_string item "call_id" in
    let? name := required_string item "name" in
    let? arguments := required_string item "arguments" in
    push_tool events item_id call_id name arguments l
  else Ok events.

Definition enumerate {A} (l : list A) : list (Z * A) := imap (fun i a => (Z.of_nat i, a)) l.

Definition decode_responses_complete (request_id : string) (body : list Z) (l : UpstreamLimits)
  : result GatewayError event_list :=
  let? root := ok_or (from_str body) invalid_request in
  check? guard_err (is_someb (value_get root "error")) (upstream_response 502 "responses upstream error");
  let response_id := default request_id (get_str root "id") in
  check? loose_identifier response_id (ul_max_identifier_bytes l);
  let events := [EvCreated response_id] in
  let? output := ok_or (value_get root "output" ≫= as_array) invalid_request in
  check? guard_err (ul_max_collection_items l <? zlen output) invalid_request;
  let? events := try_fold (decode_responses_output l) events (enumerate output) in
  let? usage := openai_responses_usage (value_get root "usage") l in
  let? events := push_event events (EvUsage usage) l in
  push_event events EvCompleted l.

Definition push_anthropic_block (l : UpstreamLimits) (events : event_list) (entry : Z * Value)
  : result GatewayError event_list :=
  let '(index, block) := entry in
  let item_id := numbered "anthropic_item_" index in
  match get_str block "type" with
  | Some kind =>
      if bool_decide (kind = "text"%string) then
        let? text := required_string block "text" in
        push_text events item_id text false l
      else if bool_decide (kind = "thinking"%string) then
        let? text := required_string block "thinking" in
        push_text events item_id text true l
      else if bool_decide (kind = "tool_use"%string) then
        let? call_id := required_string block "id" in
        let? name := required_string block "name" in
        let arguments := to_string (default (VObject []) (value_get block "input")) in
        push_tool events item_id call_id name arguments l
      else Ok events
  | None => Ok events
  end.

Definition decode_anthropic_complete (request_id : string) (body : list Z) (l : UpstreamLimits)
  : result GatewayError event_list :=
  let? root := ok_or (from_str body) invalid_request in
  check? guard_err (bool_decide (get_str root "type" = Some "error"%string)
                    || is_someb (value_get root "error"))
    (upstream_response 502 "anthropic upstream error");
  let response_id := default request_id (get_str root "id") in
  check? loose_identifier response_id (ul_max_identifier_bytes l);
  let events := [EvCreated response_id] in
  let? content := ok_or (value_get root "content" ≫= as_array) invalid_request in
  check? guard_err (ul_max_collection_items l <? zlen content) invalid_request;
  let? events := try_fold (push_anthropic_block l) events (enumerate content) in
  let? usage := anthropic_usage (value_get root "usage") l in
  let? events := push_event events (EvUsage usage) l in
  push_event events EvCompleted l.

(** ** The Responses stream *)
Record ResponsesStreamDecoder : Set := mkResponsesStream {
  rs_sse : SseDecoder;
  rs_request_id : string;
  rs_limits : UpstreamLimits;
  rs_received_bytes : Z;
  rs_emitted_events : Z;
  rs_created : bool;
  rs_completed : bool;
  rs_tools : gmap string (string * string)
}.

Definition ResponsesStreamDecoder_new (request_id : string) (l : UpstreamLimits) : ResponsesStreamDecoder :=
  mkResponsesStream (with_limits (ul_max_stream_frame_bytes l) (ul_max_events l)) request_id l 0 0
    false false ∅.

Definition rs_set_sse (v : SseDecoder) (d : ResponsesStreamDecoder) : ResponsesStreamDecoder :=
  mkResponsesStream v (rs_request_id d) (rs_limits d) (rs_received_bytes d) (rs_emitted_events d)
    (rs_created d) (rs_completed d) (rs_tools d).
Definition rs_set_received (v : Z) (d : ResponsesStreamDecoder) : ResponsesStreamDecoder :=
  mkResponsesStream (rs_sse d) (rs_request_id d) (rs_limits d) v (rs_emitted_events d)
    (rs_created d) (rs_completed d) (rs_tools d).
Definition rs_set_emitted (v : Z) (d : ResponsesStreamDecoder) : ResponsesStreamDecoder :=
  mkResponsesStream (rs_sse d) (rs_request_id d) (rs_limits d) (rs_received_bytes d) v
    (rs_created d) (rs_completed d) (rs_tools d).
Definition rs_set_created (d : ResponsesStreamDecoder) : ResponsesStreamDecoder :=
  mkResponsesStream (rs_sse d) (rs_request_id d) (rs_limits d) (rs_received_bytes d)
    (rs_emitted_events d) true (rs_completed d) (rs_tools d).
Definition rs_set_completed (d : ResponsesStreamDecoder) : ResponsesStreamDecoder :=
  mkResponsesStream (rs_sse d) (rs_request_id d) (rs_limits d) (rs_received_bytes d)
    (rs_emitted_events d) (rs_created d) true (rs_tools d).
Definition rs_set_tools (v : gmap string (string * string)) (d : ResponsesStreamDecoder)
  : ResponsesStreamDecoder :=
  mkResponsesStream (rs_sse d) (rs_request_id d) (rs_limits d) (rs_received_bytes d)
    (rs_emitted_events d) (rs_created d) (rs_completed d) v.

Abbreviation responses_op := (st_res ResponsesStreamDecoder GatewayError).

Definition rs_require_created : responses_op unit :=
  let! d := st_get in
  st_lift (guard_err (negb (rs_created d)) invalid_request).

Definition rs_on_created (value : Value) (events : event_list) : responses_op event_list :=
  let! d := st_get in
  if rs_created d then st_err invalid_request
  else
    let response_id := default (rs_request_id d) (get2 value "response" "id" ≫= as_str) in
    do! st_lift (loose_identifier response_id (ul_max_identifier_bytes (rs_limits d)));
    do! st_mod rs_set_created;
    st_ret (events ++ [EvCreated response_id]).

Definition rs_on_item_added (value : Value) (events : event_list) : responses_op event_list :=
  match value_get value "item" with
  | Some item =>
      if bool_decide (get_str item "type" = Some "function_call"%string) then
        let! d := st_get in
        let! item_id := st_lift (required_string item "id") in
        let! call_id := st_lift (required_string item "call_id") in
        let! name := st_lift (required_string item "name") in
        do! st_mod (rs_set_tools (<[item_id := (call_id, name)]> (rs_tools d)));
        st_ret events
      else st_ret events
  | None => st_ret events
  end.

Definition rs_on_text (reasoning : bool) (value : Value) (events : event_list) : responses_op event_list :=
  let! d := st_get in
  do! rs_require_created;
  let! item_id := st_lift (required_string value "item_id") in
  let! delta := st_lift (required_string value "delta") in
  st_lift (push_text events item_id delta reasoning (rs_limits d)).

Definition rs_on_arguments (value : Value) (events : event_list) : responses_op event_list :=
  let! d := st_get in
  do! rs_require_created;
  let! item_id := st_lift (required_string value "item_id") in
  let! tool := st_lift (ok_or (rs_tools d !! item_id) invalid_request) in
  let! delta := st_lift (required_string value "delta") in
  st_lift (push_tool events item_id tool.1 tool.2 delta (rs_limits d)).

Definition rs_on_completed (value : Value) (events : event_list) : responses_op event_list :=
  let! d := st_get in
  do! rs_require_created;
  let! usage := st_lift (openai_responses_usage (get2 value "response" "usage") (rs_limits d)) in
  do! st_mod rs_set_completed;
  st_ret (events ++ [EvUsage usage; EvCompleted]).

Definition kind_is (kind expected : string) : bool := bool_decide (kind = expected).

Definition rs_decode_event (value : Value) (events : event_list) : responses_op event_list :=
  let! kind := st_lift (required_string value "type") in
  if kind_is kind "response.created" then rs_on_created value events
  else if kind_is kind "response.output_item.added" then rs_on_item_added value events
  else if kind_is kind "response.output_text.delta" then rs_on_text false value events
  else if kind_is kind "response.reasoning_summary_text.delta"
          || kind_is kind "response.reasoning_text.delta" then rs_on_text true value events
  else if kind_is kind "response.function_call_arguments.delta" then rs_on_arguments value events
  else if kind_is kind "response.completed" then rs_on_completed value events
  else if kind_is kind "response.failed" || kind_is kind "error"
  then st_err (upstream_response 502 "responses stream failed")
  else st_ret events.

(** One pass over the frames of a chunk, shared by both streams. *)
Definition decode_frames {D} (decode : Value -> event_list -> st_res D GatewayError event_list)
  (frames : list SseFrame) : st_res D GatewayError event_list :=
  st_fold (fun events frame =>
    let! value := st_lift (ok_or (from_str (frame_data frame)) invalid_request) in
    decode value events) [] frames.

Definition rs_push (chunk : list Z) : responses_op event_list :=
  let! d := st_get in
  if rs_completed d then st_err invalid_request
  else
    do! st_mod (rs_set_received (sat_add64 (rs_received_bytes d) (zlen chunk)));
    let! d := st_get in
    do! st_lift (guard_err (ul_max_response_body_bytes (rs_limits d) <? rs_received_bytes d)
                   invalid_request);
    let! frames := fun d =>
      let '(sse, r) := push chunk (rs_sse d) in
      (rs_set_sse sse d, map_err (fun _ => invalid_request) r) in
    let! events := decode_frames rs_decode_event frames in
    let! d := st_get in
    do! st_mod (rs_set_emitted (sat_add64 (rs_emitted_events d) (zlen events)));
    let! d := st_get in
    do! st_lift (guard_err (ul_max_events (rs_limits d) <? rs_emitted_events d) invalid_request);
    st_ret events.

Definition rs_finish : responses_op event_list :=
  do! (fun d => let '(sse, r) := finish (rs_sse d) in
                (rs_set_sse sse d, map_err (fun _ => invalid_request) r));
  let! d := st_get in
  do! st_lift (guard_err (negb (rs_completed d)) invalid_request);
  st_ret [].

(** ** The Messages stream *)
Inductive AnthropicBlock : Set :=
| BlockText (item_id : string)
| BlockThinking (item_id : string)
| BlockTool (item_id call_id name : string).

Record AnthropicStreamDecoder : Set := mkAnthropicStream {
  an_sse : SseDecoder;
  an_request_id : string;
  an_limits : UpstreamLimits;
  an_received_bytes : Z;
  an_emitted_events : Z;
  an_created : bool;
  an_completed : bool;
  an_input_tokens : Z;
  an_output_tokens : Z;
  an_blocks : gmap Z AnthropicBlock
}.

Definition AnthropicStreamDecoder_new (request_id : string) (l : UpstreamLimits) : AnthropicStreamDecoder :=
  mkAnthropicStream (with_limits (ul_max_stream_frame_bytes l) (ul_max_events l)) request_id l 0 0
    false false 0 0 ∅.

Definition an_set_sse (v : SseDecoder) (d : AnthropicStreamDecoder) : AnthropicStreamDecoder :=
  mkAnthropicStream v (an_request_id d) (an_limits d) (an_received_bytes d) (an_emitted_events d)
    (an_created d) (an_completed d) (an_input_tokens d) (an_output_tokens d) (an_blocks d).
Definition an_set_received (v : Z) (d : AnthropicStreamDecoder) : AnthropicStreamDecoder :=
  mkAnthropicStream (an_sse d) (an_request_id d) (an_limits d) v (an_emitted_events d)
    (an_created d) (an_completed d) (an_input_tokens d) (an_output_tokens d) (an_blocks d).
Definition an_set_emitted (v : Z) (d : AnthropicStreamDecoder) : AnthropicStreamDecoder :=
  mkAnthropicStream (an_sse d) (an_request_id d) (an_limits d) (an_received_bytes d) v
    (an_created d) (an_completed d) (an_input_tokens d) (an_output_tokens d) (an_blocks d).
Definition an_set_created (d : AnthropicStreamDecoder) : AnthropicStreamDecoder :=
  mkAnthropicStream (an_sse d) (an_request_id d) (an_limits d) (an_received_bytes d)
    (an_emitted_events d) true (an_completed d) (an_input_tokens d) (an_output_tokens d) (an_blocks d).
Definition an_set_completed (d : AnthropicStreamDecoder) : AnthropicStreamDecoder :=
  mkAnthropicStream (an_sse d) (an_request_id d) (an_limits d) (an_received_bytes d)
    (an_emitted_events d) (an_created d) true (an_input_tokens d) (an_output_tokens d) (an_blocks d).
Definition an_set_tokens (input output : Z) (d : AnthropicStreamDecoder) : AnthropicStreamDecoder :=
  mkAnthropicStream (an_sse d) (an_request_id d) (an_limits d) (an_received_bytes d)
    (an_emitted_events d) (an_created d) (an_completed d) input output (an_blocks d).
Definition an_set_blocks (v : gmap Z AnthropicBlock) (d : AnthropicStreamDecoder) : AnthropicStreamDecoder :=
  mkAnthropicStream (an_sse d) (an_request_id d) (an_limits d) (an_received_bytes d)
    (an_emitted_events d) (an_created d) (an_completed d) (an_input_tokens d) (an_output_tokens d) v.

Abbreviation anthropic_op := (st_res AnthropicStreamDecoder GatewayError).

Definition an_require_created : anthropic_op unit :=
  let! d := st_get in
  st_lift (guard_err (negb (an_created d)) invalid_request).

Definition required_index (value : Value) (maximum : Z) : result GatewayError Z :=
  let? index := ok_or (value_get value "index" ≫= as_u64) invalid_request in
  check? guard_err (maximum <=? index) invalid_request;
  Ok index.

Definition an_on_start (value : Value) (events : event_list) : anthropic_op event_list :=
  let! d := st_get in
  if an_created d then st_err invalid_request
  else
    let! message := st_lift (ok_or (value_get value "message") invalid_request) in
    let response_id := default (an_request_id d) (get_str message "id") in
    do! st_lift (loose_identifier response_id (ul_max_identifier_bytes (an_limits d)));
    do! (match value_get message "usage" with
         | Some usage =>
             let! input := st_lift (optional_u64 usage "input_tokens") in
             do! st_mod (fun d => an_set_tokens (default 0 input) (an_output_tokens d) d);
             let! output := st_lift (optional_u64 usage "output_tokens") in
             st_mod (fun d => an_set_tokens (an_input_tokens d) (default 0 output) d)
         | None => st_ret tt
         end);
    do! st_mod an_set_created;
    st_ret (events ++ [EvCreated response_id]).

Definition an_on_block_start (value : Value) (events : event_list) : anthropic_op event_list :=
  let! d := st_get in
  do! an_require_created;
  let! index := st_lift (required_index value (ul_max_collection_items (an_limits d))) in
  let! content := st_lift (ok_or (value_get value "content_block") invalid_request) in
  let item_id := numbered "anthropic_item_" index in
  let! kind := st_lift (required_string content "type") in
  let! block :=
    if kind_is kind "text" then st_ret (Some (BlockText item_id))
    else if kind_is kind "thinking" then st_ret (Some (BlockThinking item_id))
    else if kind_is kind "tool_use" then
      let! call_id := st_lift (required_string content "id") in
      let! name := st_lift (required_string content "name") in
      st_ret (Some (BlockTool item_id call_id name))
    else st_ret None in
  match block with
  | None => st_ret events
  | Some block =>
      do! st_mod (an_set_blocks (<[index := block]> (an_blocks d)));
      do! st_lift (guard_err (is_someb (an_blocks d !! index)) invalid_request);
      st_ret events
  end.

Definition an_on_delta (value : Value) (events : event_list) : anthropic_op event_list :=
  let! d := st_get in
  do! an_require_created;
  let! index := st_lift (required_index value (ul_max_collection_items (an_limits d))) in
  let! delta := st_lift (ok_or (value_get value "delta") invalid_request) in
  let! block := st_lift (ok_or (an_blocks d !! index) invalid_request) in
  let! kind := st_lift (required_string delta "type") in
  match block with
  | BlockText item_id =>
      if kind_is kind "text_delta" then
        let! text := st_lift (required_string delta "text") in
        st_lift (push_text events item_id text false (an_limits d))
      else st_err invalid_request
  | BlockThinking item_id =>
      if kind_is kind "thinking_delta" then
        let! text := st_lift (required_string delta "thinking") in
        st_lift (push_text events item_id text true (an_limits d))
      else st_err invalid_request
  | BlockTool item_id call_id name =>
      if kind_is kind "input_json_delta" then
        let! json := st_lift (required_string delta "partial_json") in
        st_lift (push_tool events item_id call_id name json (an_limits d))
      else st_err invalid_request
  end.

Definition an_on_message_delta (value : Value) (events : event_list) : anthropic_op event_list :=
  do! an_require_created;
  match value_get value "usage" with
  | Some usage =>
      let! output := st_lift (optional_u64 usage "output_tokens") in
      do! st_mod (fun d => an_set_tokens (an_input_tokens d) (default (an_output_tokens d) output) d);
      st_ret events
  | None => st_ret events
  end.

Definition an_on_stop (events : event_list) : anthropic_op event_list :=
  let! d := st_get in
  do! an_require_created;
  do! st_mod an_set_completed;
  st_ret (events ++ [EvUsage (mkUsage (an_input_tokens d) (an_output_tokens d) None None ∅); EvCompleted]).

Definition an_decode_event (value : Value) (events : event_list) : anthropic_op event_list :=
  let! kind := st_lift (required_string value "type") in
  if kind_is kind "message_start" then an_on_start value events
  else if kind_is kind "content_block_start" then an_on_block_start value events
  else if kind_is kind "content_block_delta" then an_on_delta value events
  else if kind_is kind "message_delta" then an_on_message_delta value events
  else if kind_is kind "message_stop" then an_on_stop events
  else if kind_is kind "error" then st_err (upstream_response 502 "anthropic stream failed")
  else st_ret events.

Definition an_push (chunk : list Z) : anthropic_op event_list :=
  let! d := st_get in
  if an_completed d then st_err invalid_request
  else
    do! st_mod (an_set_received (sat_add64 (an_received_bytes d) (zlen chunk)));
    let! d := st_get in
    do! st_lift (guard_err (ul_max_response_body_bytes (an_limits d) <? an_received_bytes d)
                   invalid_request);
    let! frames := fun d =>
      let '(sse, r) := push chunk (an_sse d) in
      (an_set_sse sse d, map_err (fun _ => invalid_request) r) in
    let! events := decode_frames an_decode_event frames in
    let! d := st_get in
    do! st_mod (an_set_emitted (sat_add64 (an_emitted_events d) (zlen events)));
    let! d := st_get in
    do! st_lift (guard_err (ul_max_events (an_limits d) <? an_emitted_events d) invalid_request);
    st_ret events.

Definition an_finish : anthropic_op event_list :=
  do! (fun d => let '(sse, r) := finish (an_sse d) in
                (an_set_sse sse d, map_err (fun _ => invalid_request) r));
  let! d := st_get in
  do! st_lift (guard_err (negb (an_completed d)) invalid_request);
  st_ret [].
End Upstream.
