(* ===== verification/RuntimeDiagnostics.v ===== *)
(** * Runtime counters

    Models [crates/wokcore-diagnostics/src/runtime.rs]: the counters shared by
    all requests and all streams, and the observation each request or stream
    holds, which settles its account with the counters exactly once.  The
    counters are atomic and wrap at 64 bits; the microseconds an observation has
    lasted are an argument of the call that reads the clock. *)
From S2P Require Import Prelude.

(** [fetch_add] and [fetch_sub]. *)
Definition fetch_add (counter amount : Z) : Z := wrap64 (counter + amount).
Definition fetch_sub (counter amount : Z) : Z := wrap64 (counter - amount).

(** ** Requests *)
Record RequestRuntimeCounters : Set := mkRequestCounters {
  rq_active : Z;
  rq_completed : Z;
  rq_failed : Z;
  rq_cancelled : Z;
  rq_elapsed_micros : Z
}.

Inductive RequestRuntimeOutcome : Set := RequestCompleted | RequestFailed | RequestCancelled.

Record RequestRuntimeObservation : Set := mkRequestObservation { rq_finished : bool }.

Definition request_start (c : RequestRuntimeCounters)
  : RequestRuntimeCounters * RequestRuntimeObservation :=
  (mkRequestCounters (fetch_add (rq_active c) 1) (rq_completed c) (rq_failed c) (rq_cancelled c)
     (rq_elapsed_micros c), mkRequestObservation false).

Definition request_finish (outcome : RequestRuntimeOutcome) (elapsed : Z)
  (c : RequestRuntimeCounters) (o : RequestRuntimeObservation)
  : RequestRuntimeCounters * RequestRuntimeObservation :=
  if rq_finished o then (c, o)
  else
    let active := fetch_sub (rq_active c) 1 in
    let elapsed := fetch_add (rq_elapsed_micros c) (Z.min elapsed u64_max) in
    (match outcome with
     | RequestCompleted =>
         mkRequestCounters active (fetch_add (rq_completed c) 1) (rq_failed c) (rq_cancelled c) elapsed
     | RequestFailed =>
         mkRequestCounters active (rq_completed c) (fetch_add (rq_failed c) 1) (rq_cancelled c) elapsed
     | RequestCancelled =>
         mkRequestCounters active (rq_completed c) (rq_failed c) (fetch_add (rq_cancelled c) 1) elapsed
     end, mkRequestObservation true).

Definition request_drop (elapsed : Z) (c : RequestRuntimeCounters) (o : RequestRuntimeObservation)
  : RequestRuntimeCounters * RequestRuntimeObservation :=
  request_finish RequestCancelled elapsed c o.

(** ** Streams *)
Record StreamRuntimeCounters : Set := mkStreamCounters {
  st_active : Z;
  st_completed : Z;
  st_protocol_errors : Z;
  st_upstream_errors : Z;
  st_cancelled : Z;
  st_frames : Z;
  st_bytes : Z;
  st_elapsed_micros : Z
}.

Inductive StreamRuntimeOutcome : Set :=
| StreamCompleted | StreamProtocolError | StreamUpstreamError | StreamCancelled.

Record StreamRuntimeObservation : Set := mkStreamObservation {
  obs_frames : Z;
  obs_bytes : Z;
  obs_finished : bool
}.

Definition stream_start (c : StreamRuntimeCounters) : StreamRuntimeCounters * StreamRuntimeObservation :=
  (mkStreamCounters (fetch_add (st_active c) 1) (st_completed c) (st_protocol_errors c)
     (st_upstream_errors c) (st_cancelled c) (st_frames c) (st_bytes c) (st_elapsed_micros c),
   mkStreamObservation 0 0 false).

Definition observe_frame (bytes : Z) (o : StreamRuntimeObservation) : StreamRuntimeObservation :=
  mkStreamObservation (sat_add64 (obs_frames o) 1) (sat_add64 (obs_bytes o) (Z.min bytes u64_max))
    (obs_finished o).

(** The counter of an outcome goes up by one. *)
Definition count_outcome (outcome : StreamRuntimeOutcome) (c : StreamRuntimeCounters)
  : StreamRuntimeCounters :=
  let bump expected old :=
    match outcome, expected with
    | StreamCompleted, StreamCompleted
    | StreamProtocolError, StreamProtocolError
    | StreamUpstreamError, StreamUpstreamError
    | StreamCancelled, StreamCancelled => fetch_add old 1
    | _, _ => old
    end in
  mkStreamCounters (st_active c) (bump StreamCompleted (st_completed c))
    (bump StreamProtocolError (st_protocol_errors c)) (bump StreamUpstreamError (st_upstream_errors c))
    (bump StreamCancelled (st_cancelled c)) (st_frames c) (st_bytes c) (st_elapsed_micros c).

Definition settle (outcome : StreamRuntimeOutcome) (elapsed : Z) (o : StreamRuntimeObservation)
  (c : StreamRuntimeCounters) : StreamRuntimeCounters :=
  count_outcome outcome
    (mkStreamCounters (fetch_sub (st_active c) 1) (st_completed c) (st_protocol_errors c)
       (st_upstream_errors c) (st_cancelled c) (fetch_add (st_frames c) (obs_frames o))
       (fetch_add (st_bytes c) (obs_bytes o)) (fetch_add (st_elapsed_micros c) (Z.min elapsed u64_max))).

Definition observation_finish (outcome : StreamRuntimeOutcome) (elapsed : Z)
  (c : StreamRuntimeCounters) (o : StreamRuntimeObservation)
  : StreamRuntimeCounters * StreamRuntimeObservation :=
  if obs_finished o then (c, o)
  else (settle outcome elapsed o c, mkStreamObservation (obs_frames o) (obs_bytes o) true).

Definition observation_drop (elapsed : Z) (c : StreamRuntimeCounters) (o : StreamRuntimeObservation)
  : StreamRuntimeCounters * StreamRuntimeObservation :=
  observation_finish StreamCancelled elapsed c o.

(** ** Many streams on one set of counters *)
Inductive StreamAction : Set :=
| StartStream (id : Z)
| ObserveFrame (id bytes : Z)
| FinishStream (id : Z) (outcome : StreamRuntimeOutcome) (elapsed : Z)
| DropStream (id : Z) (elapsed : Z).

Record StreamBoard : Set := mkBoard {
  board_counters : StreamRuntimeCounters;
  board_streams : gmap Z StreamRuntimeObservation
}.

Definition counters_zero : StreamRuntimeCounters := mkStreamCounters 0 0 0 0 0 0 0 0.

Definition board_empty : StreamBoard := mkBoard counters_zero ∅.

(** One call on the observation [id], if it exists; a new one for a fresh id. *)
Definition board_update (id : Z)
  (f : StreamRuntimeCounters -> StreamRuntimeObservation -> StreamRuntimeCounters * StreamRuntimeObservation)
  (b : StreamBoard) : StreamBoard :=
  match board_streams b !! id with
  | Some o =>
      let '(c, o') := f (board_counters b) o in
      mkBoard c (<[id := o']> (board_streams b))
  | None => b
  end.

Definition board_act (b : StreamBoard) (a : StreamAction) : StreamBoard :=
  match a with
  | StartStream id =>
      match board_streams b !! id with
      | Some _ => b
      | None =>
          let '(c, o) := stream_start (board_counters b) in
          mkBoard c (<[id := o]> (board_streams b))
      end
  | ObserveFrame id bytes => board_update id (fun c o => (c, observe_frame bytes o)) b
  | FinishStream id outcome elapsed => board_update id (observation_finish outcome elapsed) b
  | DropStream id elapsed => board_update id (observation_drop elapsed) b
  end.

Definition board_run (actions : list StreamAction) : StreamBoard :=
  foldl board_act board_empty actions.

(** How many observations are, or are not, settled. *)
Definition streams_with (settled : bool) (m : gmap Z StreamRuntimeObservation) : gmap Z StreamRuntimeObservation :=
  filter (fun entry => obs_finished entry.2 = settled) m.

Definition count_with (settled : bool) (m : gmap Z StreamRuntimeObservation) : Z :=
  Z.of_nat (size (streams_with settled m)).

Definition outcomes_total (c : StreamRuntimeCounters) : Z :=
  st_completed c + st_protocol_errors c + st_upstream_errors c + st_cancelled c.

Lemma streams_with_insert settled id o m :
  streams_with settled (<[id := o]> m) =
  if bool_decide (obs_finished o = settled) then <[id := o]> (streams_with settled m)
  else delete id (streams_with settled m).
Proof.
  unfold streams_with. case_bool_decide as H.
  - by apply map_filter_insert_True.
  - rewrite map_filter_insert_False by done. apply map_filter_delete.
Qed.

Lemma streams_with_lookup settled id m :
  streams_with settled m !! id =
  (m !! id ≫= fun o => if bool_decide (obs_finished o = settled) then Some o else None).
Proof.
  unfold streams_with. rewrite map_lookup_filter. destruct (m !! id) as [o|]; [|done]. cbn.
  destruct (decide (obs_finished o = settled)) as [H|H].
  - by rewrite option_guard_True, bool_decide_true.
  - by rewrite option_guard_False, bool_decide_false.
Qed.

(** How the number of observations on one side changes when [id] is written. *)
Lemma count_with_insert settled id o m :
  count_with settled (<[id := o]> m) =
  count_with settled m
  - (if bool_decide (is_Some (streams_with settled m !! id)) then 1 else 0)
  + (if bool_decide (obs_finished o = settled) then 1 else 0).
Proof.
  unfold count_with. rewrite streams_with_insert.
  destruct (streams_with settled m !! id) as [o'|] eqn:Hl; cbn [is_Some].
  - rewrite (bool_decide_true (is_Some (Some o'))) by done. case_bool_decide.
    + rewrite map_size_insert_Some by eauto. lia.
    + rewrite map_size_delete_Some by eauto.
      enough (size (streams_with settled m) <> 0)%nat by lia.
      intros H0%map_size_empty_iff. by rewrite H0, lookup_empty in Hl.
  - rewrite (bool_decide_false (is_Some None)) by (by intros [? ?]). case_bool_decide.
    + rewrite map_size_insert_None by done. lia.
    + rewrite delete_id by done. lia.
Qed.

Lemma wrap64_add_l a b : wrap64 (wrap64 a + b) = wrap64 (a + b).
Proof. unfold wrap64. apply Zplus_mod_idemp_l. Qed.

Lemma outcomes_settle outcome elapsed o c :
  wrap64 (outcomes_total (settle outcome elapsed o c)) = wrap64 (outcomes_total c + 1).
Proof.
  assert (Hbump : forall old rest, wrap64 (fetch_add old 1 + rest) = wrap64 (old + rest + 1)).
  { intros. unfold fetch_add. rewrite wrap64_add_l. f_equal. lia. }
  unfold outcomes_total. destruct outcome; cbn [settle count_outcome st_completed st_protocol_errors
    st_upstream_errors st_cancelled].
  - rewrite <-!Z.add_assoc. rewrite Hbump. f_equal. lia.
  - rewrite <-!Z.add_assoc, Z.add_comm, <-!Z.add_assoc. rewrite Hbump. f_equal. lia.
  - rewrite (Z.add_comm (_ + _) (fetch_add _ _)), <-Z.add_assoc, Hbump. f_equal. lia.
  - rewrite (Z.add_comm _ (fetch_add _ _)), Hbump. f_equal. lia.
Qed.

Lemma active_settle outcome elapsed o c :
  st_active (settle outcome elapsed o c) = wrap64 (st_active c - 1).
Proof. by destruct outcome. Qed.

(** The counters agree with the observations they were shared among. *)
Definition board_balanced (b : StreamBoard) : Prop :=
  st_active (board_counters b) = wrap64 (count_with false (board_streams b)) /\
  wrap64 (outcomes_total (board_counters b)) = wrap64 (count_with true (board_streams b)).

Lemma wrap64_sub_l a b : wrap64 (wrap64 a - b) = wrap64 (a - b).
Proof. unfold wrap64. apply Zminus_mod_idemp_l. Qed.

(** Rewriting an unsettled or a settled observation in place. *)
Lemma count_replace settled id o o' m :
  m !! id = Some o ->
  count_with settled (<[id := o']> m) =
  count_with settled m - (if bool_decide (obs_finished o = settled) then 1 else 0)
  + (if bool_decide (obs_finished o' = settled) then 1 else 0).
Proof.
  intros Ho. rewrite count_with_insert, streams_with_lookup, Ho. cbn.
  destruct (bool_decide (obs_finished o = settled)).
  - by rewrite bool_decide_true.
  - by rewrite bool_decide_false by (by intros [? ?]).
Qed.

Lemma count_fresh settled id o m :
  m !! id = None ->
  count_with settled (<[id := o]> m) =
  count_with settled m + (if bool_decide (obs_finished o = settled) then 1 else 0).
Proof.
  intros Ho. rewrite count_with_insert, streams_with_lookup, Ho. cbn [mbind option_bind].
  rewrite (bool_decide_false (is_Some _)) by (by intros [? ?]). lia.
Qed.

Lemma finish_balanced outcome elapsed id b :
  board_balanced b -> board_balanced (board_update id (observation_finish outcome elapsed) b).
Proof.
  intros [Ha Ht]. unfold board_update. destruct (board_streams b !! id) as [o|] eqn:Ho; [|done].
  unfold observation_finish. destruct (obs_finished o) eqn:Hf; [by rewrite insert_id; destruct b|].
  unfold board_balanced. cbn [board_counters board_streams].
  rewrite !(count_replace _ _ _ _ _ Ho), active_settle, outcomes_settle, Ha, Hf. cbn [obs_finished].
  rewrite bool_decide_true, !bool_decide_false, bool_decide_true by done.
  rewrite wrap64_sub_l, Z.add_0_r, Z.sub_0_r. split; [done|].
  by rewrite <-wrap64_add_l, Ht, wrap64_add_l.
Qed.

Lemma act_balanced b a : board_balanced b -> board_balanced (board_act b a).
Proof.
  intros Hb. destruct a as [id|id bytes|id outcome elapsed|id elapsed]; cbn [board_act].
  - destruct (board_streams b !! id) as [o|] eqn:Ho; [done|]. destruct Hb as [Ha Ht].
    unfold board_balanced, stream_start. cbn [board_counters board_streams].
    rewrite !(count_fresh _ _ _ _ Ho). unfold fetch_add, outcomes_total in *. cbn.
    rewrite Ha, wrap64_add_l, Z.add_0_r. by split.
  - unfold board_update. destruct (board_streams b !! id) as [o|] eqn:Ho; [|done].
    unfold board_balanced. cbn [board_counters board_streams].
    rewrite !(count_replace _ _ _ _ _ Ho). cbn [observe_frame obs_finished].
    rewrite !Z.sub_add. exact Hb.
  - by apply finish_balanced.
  - by apply (finish_balanced StreamCancelled).
Qed.

(** However the calls on any number of streams interleave, the shared counters balance: the
    active gauge is the number of streams whose observation has not been settled, and the four
    outcome counters add up to the number of settled ones, so a stream that is finished and then
    dropped, or finished twice, is counted once (all modulo 2^64, as the atomics wrap). *)
Theorem stream_counters_balance (actions : list StreamAction) :
  let b := board_run actions in
  st_active (board_counters b) = wrap64 (count_with false (board_streams b)) /\
  wrap64 (outcomes_total (board_counters b)) = wrap64 (count_with true (board_streams b)).
Proof.
  cbn zeta. change (board_balanced (board_run actions)). unfold board_run.
  assert (Hz : board_balanced board_empty) by by split.
  revert Hz. generalize board_empty.
  induction actions as [|a l IH]; intros b Hb; [done|]. apply IH. by apply act_balanced.
Qed.
