(* ===== verification/DataPlane.v ===== *)
(** * What an upstream execution gives the data plane

    Models the results of [crates/wokcore-server/src/data_plane/execute.rs]: the
    checks an upstream's answer passes before the data plane accepts it, the
    items of a stream, and failures.

    The bytes [serde_json] writes for a value are an interface: [json_writes]
    lists the lengths of the slices it hands to its writer, one after another. *)
From S2P Require Import Prelude Canonical UpstreamCommon Execution.

Definition JSON_BODY_LIMIT : Z := 16 * 1024 * 1024.
Definition MAX_UPSTREAM_REQUEST_ID_BYTES : Z := 256.
Definition MAX_UPSTREAM_EVENTS : Z := 4096.
Definition MAX_UPSTREAM_METADATA_BYTES : Z := 1024 * 1024.
Definition MAX_UPSTREAM_IDENTIFIER_BYTES : Z := 512.
Definition UPSTREAM_STREAM_CHANNEL_CAPACITY : Z := 2.

(** ** Request identifiers of the upstream *)
Inductive InvalidSafeUpstreamRequestId : Set := mkInvalidSafeUpstreamRequestId.

Definition SafeUpstreamRequestId_new (value : string) : result InvalidSafeUpstreamRequestId string :=
  check? guard_err
    (str_is_empty value || (MAX_UPSTREAM_REQUEST_ID_BYTES <? str_len value)
     || negb (forallb is_identifier_byte (str_bytes value))) mkInvalidSafeUpstreamRequestId;
  Ok value.

(** ** Counting the bytes of a value *)
Record BoundedByteCounter : Set := mkCounter { counter_length : Z; counter_limit : Z }.

Inductive WriteError : Set := CountOverflow | CountLimit.

Definition BoundedByteCounter_new (limit : Z) : BoundedByteCounter := mkCounter 0 limit.

Definition counter_write (c : BoundedByteCounter) (bytes : Z) : result WriteError BoundedByteCounter :=
  let? length := ok_or (checked_add64 (counter_length c) bytes) CountOverflow in
  check? guard_err (counter_limit c <? length) CountLimit;
  Ok (mkCounter length (counter_limit c)).

(** [serde_json::to_writer] stops at the first error. *)
Definition counted (writes : list Z) (limit : Z) : result WriteError BoundedByteCounter :=
  try_fold counter_write (BoundedByteCounter_new limit) writes.

Definition json_fits (writes : list Z) (limit : Z) : bool := is_ok (counted writes limit).

Class EventSerde : Type := {
  event_writes : CanonicalEvent -> list Z;
  events_writes : list CanonicalEvent -> list Z;
  request_writes : CanonicalRequest -> list Z
}.

(** The metadata of an answer. *)
Class MetadataSerde : Type := {
  string_writes : string -> list Z;
  signatures_writes : gmap string string -> list Z;
  usage_writes : Usage -> list Z
}.

(** What [serde_json] writes is made of lengths. *)
Class EventSerdeLaws `{EventSerde} : Prop := {
  event_writes_nonneg event : Forall (fun n => 0 <= n) (event_writes event);
  events_writes_nonneg events : Forall (fun n => 0 <= n) (events_writes events);
  request_writes_nonneg request : Forall (fun n => 0 <= n) (request_writes request)
}.

(** ** Failures *)
Inductive UpstreamFailureKind : Set :=
| UpTimeout | UpCancelled | UpMalformedResponse | UpRateLimited | UpServer | UpReset
| UpInvalidCredentials | UpInvalidRequest | UpPolicy | UpTransport.

#[global] Instance UpstreamFailureKind_eq_dec : EqDecision UpstreamFailureKind.
Proof. solve_decision. Defined.

Record UpstreamExecutionFailure : Set := mkFailure {
  uf_kind : UpstreamFailureKind;
  uf_status : option Z;
  uf_retry_after_ms : option Z;
  uf_upstream_request_id : option string
}.

Definition failure_new (kind : UpstreamFailureKind) : UpstreamExecutionFailure :=
  mkFailure kind None None None.

Definition with_status (status : Z) (f : UpstreamExecutionFailure) : UpstreamExecutionFailure :=
  mkFailure (uf_kind f) (if (100 <=? status) && (status <=? 599) then Some status else None)
    (uf_retry_after_ms f) (uf_upstream_request_id f).

Definition with_retry_after_ms (ms : Z) (f : UpstreamExecutionFailure) : UpstreamExecutionFailure :=
  mkFailure (uf_kind f) (uf_status f) (Some ms) (uf_upstream_request_id f).

Definition failure_with_request_id (id : string) (f : UpstreamExecutionFailure)
  : UpstreamExecutionFailure :=
  mkFailure (uf_kind f) (uf_status f) (uf_retry_after_ms f) (Some id).

(** What the retry loop of the engine sees of a failure. *)
Definition map_failure_kind (kind : UpstreamFailureKind) : AttemptFailureKind :=
  match kind with
  | UpTimeout => FailTimeout
  | UpCancelled | UpTransport => FailReset
  | UpMalformedResponse => FailOther
  | UpRateLimited => FailRateLimited
  | UpServer => FailServer
  | UpReset => FailReset
  | UpInvalidCredentials => FailInvalidCredentials
  | UpInvalidRequest => FailInvalidRequest
  | UpPolicy => FailPolicy
  end.

Definition in_5xx (status : Z) : bool := (500 <=? status) && (status <=? 599).

(** [status.filter(|s| (500..=599).contains(s)).unwrap_or(500)]. *)
Definition server_status (status : option Z) : Z :=
  match status with
  | Some s => if in_5xx s then s else 500
  | None => 500
  end.

(** ** Whole answers *)
Inductive UpstreamFinishReason : Set :=
| ReasonStop | ReasonLength | ReasonToolCalls | ReasonContentFilter | ReasonFunctionCall
| ReasonPauseTurn | ReasonRefusal | ReasonModelContextWindowExceeded.

Inductive UpstreamExecutionOutput : Set :=
| OutEvents (events : list CanonicalEvent)
| OutTokenCount (count : Z).

Record UpstreamExecutionResponse : Set := mkUpstreamResponse {
  ur_output : UpstreamExecutionOutput;
  ur_created_at : Z;
  ur_finish_reason : UpstreamFinishReason;
  ur_stop_sequence : option string;
  ur_thinking_signatures : gmap string string;
  ur_upstream_request_id : option string
}.

Inductive InvalidUpstreamExecutionResponse : Set := mkInvalidUpstreamExecutionResponse.

Definition is_created (e : CanonicalEvent) : bool :=
  match e with EvCreated _ => true | _ => false end.
Definition is_usage (e : CanonicalEvent) : bool :=
  match e with EvUsage _ => true | _ => false end.
Definition is_completed (e : CanonicalEvent) : bool :=
  match e with EvCompleted => true | _ => false end.
Definition is_failed (e : CanonicalEvent) : bool :=
  match e with EvFailed _ => true | _ => false end.

Definition count_events (p : CanonicalEvent -> bool) (events : list CanonicalEvent) : Z :=
  zlen (List.filter p events).

Section Serde.
Context `{EventSerde}.

Definition response_events (events : list CanonicalEvent) (created_at : Z)
  : result InvalidUpstreamExecutionResponse UpstreamExecutionResponse :=
  check? guard_err
    ((MAX_UPSTREAM_EVENTS <? zlen events)
     || negb (is_some_and is_created (list.head events))
     || negb (is_some_and is_completed (list.last events))
     || negb (count_events is_created events =? 1)
     || negb (count_events is_usage events =? 1)
     || negb (count_events is_completed events =? 1)
     || existsb is_failed events
     || negb (json_fits (events_writes events) JSON_BODY_LIMIT)) mkInvalidUpstreamExecutionResponse;
  Ok (mkUpstreamResponse (OutEvents events) created_at ReasonStop None ∅ None).

Definition ur_with_upstream_request_id (id : string) (r : UpstreamExecutionResponse)
  : UpstreamExecutionResponse :=
  mkUpstreamResponse (ur_output r) (ur_created_at r) (ur_finish_reason r) (ur_stop_sequence r)
    (ur_thinking_signatures r) (Some id).

Definition ur_with_finish_reason (reason : UpstreamFinishReason) (r : UpstreamExecutionResponse)
  : UpstreamExecutionResponse :=
  mkUpstreamResponse (ur_output r) (ur_created_at r) reason (ur_stop_sequence r)
    (ur_thinking_signatures r) (ur_upstream_request_id r).

Definition ur_with_stop_sequence `{MetadataSerde} (stop_sequence : string) (r : UpstreamExecutionResponse)
  : result InvalidUpstreamExecutionResponse UpstreamExecutionResponse :=
  check? guard_err (negb (json_fits (string_writes stop_sequence) MAX_UPSTREAM_METADATA_BYTES))
    mkInvalidUpstreamExecutionResponse;
  Ok (mkUpstreamResponse (ur_output r) (ur_created_at r) (ur_finish_reason r) (Some stop_sequence)
        (ur_thinking_signatures r) (ur_upstream_request_id r)).

Definition ur_with_thinking_signatures `{MetadataSerde} (signatures : gmap string string)
  (r : UpstreamExecutionResponse) : result InvalidUpstreamExecutionResponse UpstreamExecutionResponse :=
  check? guard_err
    ((MAX_UPSTREAM_EVENTS <? Z.of_nat (size signatures))
     || negb (json_fits (signatures_writes signatures) MAX_UPSTREAM_METADATA_BYTES))
    mkInvalidUpstreamExecutionResponse;
  Ok (mkUpstreamResponse (ur_output r) (ur_created_at r) (ur_finish_reason r) (ur_stop_sequence r)
        signatures (ur_upstream_request_id r)).

Definition response_token_count (input_tokens : Z) : UpstreamExecutionResponse :=
  mkUpstreamResponse (OutTokenCount input_tokens) 0 ReasonStop None ∅ None.

(** ** Streams *)
Inductive UpstreamStreamItem : Set :=
| ItemEvent (event : CanonicalEvent)
| ItemFailure (failure : UpstreamExecutionFailure).

Definition valid_stream_identifier (value : string) : bool :=
  negb (str_is_empty value) && (str_len value <=? MAX_UPSTREAM_IDENTIFIER_BYTES).

Definition stream_event_fits (event : CanonicalEvent) : bool :=
  let identifiers_fit :=
    match event with
    | EvCreated response_id => valid_stream_identifier response_id
    | EvOutputTextDelta item_id _ | EvReasoningDelta item_id _ => valid_stream_identifier item_id
    | EvToolCallDelta item_id call_id name _ =>
        valid_stream_identifier item_id && valid_stream_identifier call_id
        && valid_stream_identifier name
    | EvUsage _ | EvCompleted => true
    | EvFailed _ => false
    end in
  identifiers_fit && json_fits (event_writes event) MAX_UPSTREAM_METADATA_BYTES.

Definition estimate_local_tokens (request : CanonicalRequest) : result GatewayError Z :=
  let? counter := map_err (fun _ => invalid_request) (counted (request_writes request) JSON_BODY_LIMIT) in
  Ok (Z.max ((counter_length counter + 3) / 4) 1).
End Serde.

(** ** What fits: the counter accepts exactly the values of at most [limit] bytes. *)
Definition total (writes : list Z) : Z := foldr Z.add 0 writes.

Lemma total_nonneg writes : Forall (fun n => 0 <= n) writes -> 0 <= total writes.
Proof. unfold total. induction 1; cbn [foldr]; lia. Qed.

Lemma counted_from writes c :
  Forall (fun n => 0 <= n) writes -> counter_length c <= counter_limit c <= u64_max ->
  try_fold counter_write c writes =
  if counter_length c + total writes <=? counter_limit c
  then Ok (mkCounter (counter_length c + total writes) (counter_limit c))
  else try_fold counter_write c writes.
Proof.
  intros Hw. revert c. induction Hw as [|n l Hn Hl IH]; intros c Hc.
  - cbn. rewrite Z.add_0_r. destruct c; cbn in *.
    by rewrite (proj2 (Z.leb_le _ _)) by lia.
  - destruct (Z.leb_spec (counter_length c + total (n :: l)) (counter_limit c)) as [Hle|]; [|done].
    cbn [try_fold total foldr] in *. pose proof (total_nonneg l Hl) as Ht. unfold total in Ht.
    unfold counter_write at 1, checked_add64.
    rewrite (proj2 (Z.leb_le _ _)) by lia. cbn [ok_or result_bind].
    rewrite (proj2 (Z.ltb_ge _ _)) by lia. cbn.
    rewrite IH by (cbn; lia). cbn. unfold total.
    rewrite (proj2 (Z.leb_le _ _)) by lia. do 2 f_equal. lia.
Qed.

Lemma counted_Ok writes c c' :
  try_fold counter_write c writes = Ok c' ->
  counter_length c' = counter_length c + total writes /\ counter_limit c' = counter_limit c /\
  (writes = [] \/ counter_length c' <= counter_limit c).
Proof.
  revert c. induction writes as [|n l IH]; intros c.
  { intros [= <-]. split_and!; [|done|by left]. change (total []) with 0. lia. }
  cbn [try_fold]. intros (c1 & H1 & H2)%result_bind_Ok. apply IH in H2 as (Hl & Hm & Hb).
  unfold counter_write in H1. apply result_bind_Ok in H1 as (len & Hlen%ok_or_Ok & H1).
  apply check_Ok in H1 as [Hg [= <-]]. apply guard_err_Ok, Z.ltb_ge in Hg.
  apply checked_add64_Some in Hlen as [-> _]. cbn [counter_length counter_limit] in *.
  change (total (n :: l)) with (n + total l). split_and!; [lia|done|].
  right. destruct Hb as [->|]; [|lia]. change (total []) with 0 in Hl. lia.
Qed.

Lemma json_fits_spec writes limit :
  Forall (fun n => 0 <= n) writes -> 0 <= limit <= u64_max ->
  json_fits writes limit = (total writes <=? limit).
Proof.
  intros Hw Hl. unfold json_fits, counted. rewrite counted_from by (cbn; done || lia).
  cbn [BoundedByteCounter_new counter_length counter_limit]. rewrite Z.add_0_l.
  destruct (Z.leb_spec (total writes) limit) as [|Hlt]; [done|].
  destruct (try_fold _ _ _) as [c'|] eqn:E; [|done].
  apply counted_Ok in E as (Ht & _ & [->|Hb]); cbn [BoundedByteCounter_new counter_length counter_limit] in *;
    [change (total []) with 0 in Hlt|]; lia.
Qed.
