(* ===== verification/ClientStream.v ===== *)
(** * The stream a client reads

    Models [crates/wokcore-server/src/data_plane/stream.rs]: the body that takes
    canonical events out of a bounded channel and encodes them for the client,
    polled by the HTTP server.  The state has the channel with the task that
    fills it on the other end: [cs_queue] is what the channel holds and
    [cs_closed] says that the sender is gone.  The codec is an interface. *)
From S2P Require Import Prelude Canonical RuntimeDiagnostics DataPlane.

(** [ClientStreamCodec::encode]. *)
Class ClientCodec (C : Type) : Type :=
  codec_encode : CanonicalEvent -> st_res C GatewayError (list Z).

Definition map_stream_failure (f : UpstreamExecutionFailure) : GatewayError :=
  match uf_kind f with
  | UpTimeout | UpCancelled | UpReset | UpTransport => gateway_transport "upstream stream transport"
  | UpMalformedResponse => upstream_response (default 502 (uf_status f)) "malformed stream"
  | UpRateLimited => rate_limited ((fun delay => delay / 1000) <$> uf_retry_after_ms f)
  | UpServer => upstream_5xx (server_status (uf_status f))
  | UpInvalidCredentials => upstream_auth "upstream authentication"
  | UpInvalidRequest => invalid_request
  | UpPolicy => unsupported_capability
  end.

Definition failure_outcome (f : UpstreamExecutionFailure) : StreamRuntimeOutcome :=
  match uf_kind f with
  | UpMalformedResponse => StreamProtocolError
  | UpCancelled => StreamCancelled
  | _ => StreamUpstreamError
  end.

Definition event_outcome (event : CanonicalEvent) : option StreamRuntimeOutcome :=
  match event with
  | EvCompleted => Some StreamCompleted
  | EvFailed _ => Some StreamUpstreamError
  | EvCreated _ | EvOutputTextDelta _ _ | EvReasoningDelta _ _ | EvToolCallDelta _ _ _ _
  | EvUsage _ => None
  end.

Definition malformed_upstream_stream : GatewayError :=
  upstream_response 502 "malformed upstream stream".

(** What a poll returns; [PollSpins] is a loop that never returns, shown
    impossible below. *)
Inductive Poll : Set :=
| PollReady (item : option (list Z))
| PollPending
| PollSpins.

(** [(!bytes.is_empty()).then_some(bytes)]. *)
Definition non_empty (bytes : list Z) : option (list Z) :=
  if is_emptyb bytes then None else Some bytes.

Record CanonicalSseStream (C : Type) : Type := mkClientStream {
  cs_first_event : option CanonicalEvent;
  cs_queue : list UpstreamStreamItem;
  cs_closed : bool;
  cs_codec : C;
  cs_cancelled : bool;
  cs_counters : StreamRuntimeCounters;
  cs_observation : StreamRuntimeObservation;
  cs_finished : bool;
  cs_protocol_error_sent : bool
}.
Arguments mkClientStream {C} _ _ _ _ _ _ _ _ _.
Arguments cs_first_event {C} _.
Arguments cs_queue {C} _.
Arguments cs_closed {C} _.
Arguments cs_codec {C} _.
Arguments cs_cancelled {C} _.
Arguments cs_counters {C} _.
Arguments cs_observation {C} _.
Arguments cs_finished {C} _.
Arguments cs_protocol_error_sent {C} _.

Section ClientStream.
Context {C : Type} `{ClientCodec C}.

Abbreviation stream := (CanonicalSseStream C).

Definition set_first (e : option CanonicalEvent) (s : stream) : stream :=
  mkClientStream e (cs_queue s) (cs_closed s) (cs_codec s) (cs_cancelled s) (cs_counters s)
    (cs_observation s) (cs_finished s) (cs_protocol_error_sent s).
Definition set_channel (queue : list UpstreamStreamItem) (closed : bool) (s : stream) : stream :=
  mkClientStream (cs_first_event s) queue closed (cs_codec s) (cs_cancelled s) (cs_counters s)
    (cs_observation s) (cs_finished s) (cs_protocol_error_sent s).
Definition set_codec (c : C) (s : stream) : stream :=
  mkClientStream (cs_first_event s) (cs_queue s) (cs_closed s) c (cs_cancelled s) (cs_counters s)
    (cs_observation s) (cs_finished s) (cs_protocol_error_sent s).
Definition set_cancelled (s : stream) : stream :=
  mkClientStream (cs_first_event s) (cs_queue s) (cs_closed s) (cs_codec s) true (cs_counters s)
    (cs_observation s) (cs_finished s) (cs_protocol_error_sent s).
Definition set_observed (counters : StreamRuntimeCounters) (o : StreamRuntimeObservation)
  (s : stream) : stream :=
  mkClientStream (cs_first_event s) (cs_queue s) (cs_closed s) (cs_codec s) (cs_cancelled s) counters
    o (cs_finished s) (cs_protocol_error_sent s).
Definition set_finished (s : stream) : stream :=
  mkClientStream (cs_first_event s) (cs_queue s) (cs_closed s) (cs_codec s) (cs_cancelled s)
    (cs_counters s) (cs_observation s) true (cs_protocol_error_sent s).
Definition set_error_sent (s : stream) : stream :=
  mkClientStream (cs_first_event s) (cs_queue s) (cs_closed s) (cs_codec s) (cs_cancelled s)
    (cs_counters s) (cs_observation s) (cs_finished s) true.

(** [encode] of the module, after the codec is built. *)
Definition client_stream (first_event : CanonicalEvent) (codec : C)
  (counters : StreamRuntimeCounters) : stream :=
  let '(counters, observation) := stream_start counters in
  mkClientStream (Some first_event) [] false codec false counters observation false false.

Definition stream_finish (outcome : StreamRuntimeOutcome) (elapsed : Z) (s : stream) : stream :=
  if cs_finished s then s
  else
    let s := set_cancelled (set_finished s) in
    let '(counters, o) := observation_finish outcome elapsed (cs_counters s) (cs_observation s) in
    set_observed counters o s.

(** [if !bytes.is_empty() { self.observation.observe_frame(bytes.len()) }]. *)
Definition observe_bytes (bytes : list Z) (s : stream) : stream :=
  if is_emptyb bytes then s
  else set_observed (cs_counters s) (observe_frame (zlen bytes) (cs_observation s)) s.

Definition emit_error (error : GatewayError) (outcome : StreamRuntimeOutcome) (elapsed : Z)
  (s : stream) : stream * option (list Z) :=
  if cs_finished s || cs_protocol_error_sent s then (s, None)
  else
    let s := set_error_sent s in
    let '(codec, encoded) := codec_encode (EvFailed error) (cs_codec s) in
    let s := set_codec codec s in
    match encoded with
    | Ok bytes => (stream_finish outcome elapsed (observe_bytes bytes s), non_empty bytes)
    | Err _ => (stream_finish outcome elapsed s, None)
    end.

Definition emit_protocol_error (elapsed : Z) (s : stream) : stream * option (list Z) :=
  emit_error malformed_upstream_stream StreamProtocolError elapsed s.

Definition emit_upstream_failure (failure : UpstreamExecutionFailure) (elapsed : Z) (s : stream)
  : stream * option (list Z) :=
  emit_error (map_stream_failure failure) (failure_outcome failure) elapsed s.

Definition encode_event (event : CanonicalEvent) (elapsed : Z) (s : stream)
  : stream * option (list Z) :=
  let '(codec, encoded) := codec_encode event (cs_codec s) in
  let s := set_codec codec s in
  match encoded with
  | Ok bytes =>
      let s := observe_bytes bytes s in
      (match event_outcome event with
       | Some outcome => stream_finish outcome elapsed s
       | None => s
       end, non_empty bytes)
  | Err _ => emit_protocol_error elapsed s
  end.

Definition handle_item (item : option UpstreamStreamItem) (elapsed : Z) (s : stream)
  : stream * option (list Z) :=
  match item with
  | Some (ItemEvent event) => encode_event event elapsed s
  | Some (ItemFailure failure) => emit_upstream_failure failure elapsed s
  | None => emit_protocol_error elapsed s
  end.

(** [if this.finished || encoded.is_some() { return Poll::Ready(encoded) }]. *)
Definition settled (r : stream * option (list Z)) : bool :=
  cs_finished r.1 || is_someb r.2.

(** The loop, once [first_event] is taken: [queue] is what the channel holds. *)
Fixpoint poll_loop (elapsed : Z) (queue : list UpstreamStreamItem) (s : stream) : stream * Poll :=
  match queue with
  | [] =>
      let s := set_channel [] (cs_closed s) s in
      if cs_closed s then
        let r := handle_item None elapsed s in
        if settled r then (r.1, PollReady r.2) else (r.1, PollSpins)
      else (s, PollPending)
  | item :: rest =>
      let r := handle_item (Some item) elapsed (set_channel rest (cs_closed s) s) in
      if settled r then (r.1, PollReady r.2) else poll_loop elapsed rest r.1
  end.

Definition poll_next (elapsed : Z) (s : stream) : stream * Poll :=
  if cs_finished s then (s, PollReady None)
  else if cs_cancelled s then (stream_finish StreamCancelled elapsed s, PollReady None)
  else
    match cs_first_event s with
    | Some event =>
        let r := handle_item (Some (ItemEvent event)) elapsed (set_first None s) in
        if settled r then (r.1, PollReady r.2) else poll_loop elapsed (cs_queue s) r.1
    | None => poll_loop elapsed (cs_queue s) s
    end.

(** Dropping the body: the token is cancelled and the observation settled. *)
Definition stream_drop (elapsed : Z) (s : stream) : stream :=
  let '(counters, o) := observation_drop elapsed (cs_counters s) (cs_observation s) in
  set_observed counters o (set_cancelled s).

(** ** Interleavings

    A run is a sequence of what the sending task, the request's cancellation
    and the client do.  A send waits for room in the channel, so it is no step
    while the channel is full. *)
Inductive Action : Set :=
| ActSend (item : UpstreamStreamItem)
| ActClose
| ActCancel
| ActPoll (elapsed : Z).

Definition act (a : Action) (s : stream) : option (stream * list Poll) :=
  match a with
  | ActSend item =>
      if cs_closed s || (UPSTREAM_STREAM_CHANNEL_CAPACITY <=? zlen (cs_queue s)) then None
      else Some (set_channel (cs_queue s ++ [item]) false s, [])
  | ActClose => Some (set_channel (cs_queue s) true s, [])
  | ActCancel => Some (set_cancelled s, [])
  | ActPoll elapsed => let '(s', p) := poll_next elapsed s in Some (s', [p])
  end.

Fixpoint run (actions : list Action) (s : stream) : option (stream * list Poll) :=
  match actions with
  | [] => Some (s, [])
  | a :: l =>
      '(s1, polls) ← act a s;
      '(s2, rest) ← run l s1;
      Some (s2, polls ++ rest)
  end.
End ClientStream.
