(* ===== verification/ClientStreamSpec.v ===== *)
(** * The stream a client reads: what it delivers

    [delivered] says, without polls, channels or flags, which frames a sequence
    of upstream items turns into and how the stream is accounted for.  The body
    of [ClientStream.v] delivers exactly that under every interleaving of the
    sending task, cancellation and the client's polls, and it ends. *)
From S2P Require Import Prelude Canonical RuntimeDiagnostics DataPlane ClientStream.

Definition frames_of (bytes : list Z) : list (list Z) := option_list (non_empty bytes).

(** ** What a codec promises to the stream *)
Class ClientCodecLaws (C : Type) `{ClientCodec C} : Type := {
  codec_ready : C -> Prop;
  codec_closing : list Z -> Prop;
  (** A codec that has not closed the stream can always report an error, and
      that closes it. *)
  codec_failed c error : codec_ready c ->
    exists c' bytes, codec_encode (EvFailed error) c = (c', Ok bytes) /\
      bytes <> [] /\ codec_closing bytes;
  codec_completed c c' bytes : codec_ready c -> codec_encode EvCompleted c = (c', Ok bytes) ->
    bytes <> [] /\ codec_closing bytes;
  (** Anything else leaves it ready, a refused event included. *)
  codec_running c c' event bytes : codec_ready c -> event_outcome event = None ->
    codec_encode event c = (c', Ok bytes) -> codec_ready c' /\ ~ codec_closing bytes;
  codec_refused c c' event error : codec_ready c ->
    codec_encode event c = (c', Err error) -> codec_ready c'
}.

Section Spec.
Context {C : Type} `{ClientCodec C}.

Abbreviation stream := (CanonicalSseStream C).

Definition error_frames (error : GatewayError) (c : C) : list (list Z) :=
  match codec_encode (EvFailed error) c with
  | (_, Ok bytes) => frames_of bytes
  | (_, Err _) => []
  end.

Fixpoint delivered (items : list UpstreamStreamItem) (closed : bool) (c : C)
  : list (list Z) * option StreamRuntimeOutcome :=
  match items with
  | [] => if closed then (error_frames malformed_upstream_stream c, Some StreamProtocolError) else ([], None)
  | ItemFailure failure :: _ =>
      (error_frames (map_stream_failure failure) c, Some (failure_outcome failure))
  | ItemEvent event :: rest =>
      match codec_encode event c with
      | (c', Err _) => (error_frames malformed_upstream_stream c', Some StreamProtocolError)
      | (c', Ok bytes) =>
          match event_outcome event with
          | Some outcome => (frames_of bytes, Some outcome)
          | None => let '(frames, o) := delivered rest closed c' in (frames_of bytes ++ frames, o)
          end
      end
  end.

Definition prepend (frames : list (list Z)) (r : list (list Z) * option StreamRuntimeOutcome)
  : list (list Z) * option StreamRuntimeOutcome := (frames ++ r.1, r.2).

(** The observation of a stream that has sent these frames. *)
Definition observed (frames : list (list Z)) : StreamRuntimeObservation :=
  foldl (fun o frame => observe_frame (zlen frame) o) (mkStreamObservation 0 0 false) frames.

Definition poll_frames (p : Poll) : list (list Z) :=
  match p with PollReady (Some bytes) => [bytes] | _ => [] end.

Definition frames (polls : list Poll) : list (list Z) := flat_map poll_frames polls.

Definition sent_by (a : Action) : list UpstreamStreamItem :=
  match a with ActSend item => [item] | _ => [] end.

Definition sends (actions : list Action) : list UpstreamStreamItem := flat_map sent_by actions.

(** Items the stream has received and not yet encoded. *)
Definition pending (s : stream) : list UpstreamStreamItem :=
  option_list (ItemEvent <$> cs_first_event s) ++ cs_queue s.

(** Whatever the sending task may still do. *)
Definition later (closed : bool) (more : list UpstreamStreamItem) (closed' : bool) : Prop :=
  closed = true -> more = [] /\ closed' = true.

Definition delivers (c0 : C) (items : list UpstreamStreamItem) (closed : bool)
  (r : list UpstreamStreamItem -> bool -> list (list Z) * option StreamRuntimeOutcome) : Prop :=
  forall more closed', later closed more closed' -> delivered (items ++ more) closed' c0 = r more closed'.

(** Not finished, and accounted for up to the frames [F]. *)
Record unfinished (k : StreamRuntimeCounters) (F : list (list Z)) (s : stream) : Prop := {
  unfinished_flag : cs_finished s = false;
  unfinished_counters : cs_counters s = k;
  unfinished_observation : cs_observation s = observed F
}.

Definition live (k : StreamRuntimeCounters) (F : list (list Z)) (s : stream) : Prop :=
  unfinished k F s /\ cs_protocol_error_sent s = false.

(** Whether the request has been cancelled from outside. *)
Context (cancel_asked : Prop).

(** The three things a stream can have done with the items so far. *)
Inductive tracks (c0 : C) (k : StreamRuntimeCounters) (items : list UpstreamStreamItem)
  (F : list (list Z)) (s : stream) : Prop :=
| tracks_live :
    live k F s ->
    delivers c0 items (cs_closed s)
      (fun more closed' => prepend F (delivered (pending s ++ more) closed' (cs_codec s))) ->
    tracks c0 k items F s
| tracks_done outcome elapsed :
    cs_finished s = true ->
    cs_counters s = settle outcome elapsed (observed F) k ->
    delivers c0 items (cs_closed s) (fun _ _ => (F, Some outcome)) ->
    tracks c0 k items F s
| tracks_cancelled elapsed :
    cs_finished s = true -> cancel_asked ->
    cs_counters s = settle StreamCancelled elapsed (observed F) k ->
    (forall more closed', later (cs_closed s) more closed' ->
       F `prefix_of` (delivered (items ++ more) closed' c0).1) ->
    tracks c0 k items F s.

(** ** One item *)
Lemma observed_snoc F bytes :
  observed (F ++ [bytes]) = observe_frame (zlen bytes) (observed F).
Proof. unfold observed. by rewrite foldl_app. Qed.

Lemma observed_open F : obs_finished (observed F) = false.
Proof. induction F as [|f F IH] using rev_ind; [done|]. by rewrite observed_snoc. Qed.

Lemma observe_bytes_unfinished k F bytes s :
  unfinished k F s -> unfinished k (F ++ frames_of bytes) (observe_bytes bytes s).
Proof.
  intros [Hf Hc Ho]. unfold observe_bytes, frames_of, non_empty.
  destruct (is_emptyb bytes); cbn [option_list]; [by rewrite app_nil_r; split|].
  split; [done..|]. cbn. by rewrite observed_snoc, Ho.
Qed.

Lemma stream_finish_unfinished k F outcome elapsed s :
  unfinished k F s ->
  cs_finished (stream_finish outcome elapsed s) = true /\
  cs_counters (stream_finish outcome elapsed s) = settle outcome elapsed (observed F) k.
Proof.
  intros [Hf Hc Ho]. unfold stream_finish. rewrite Hf. unfold observation_finish. cbn.
  by rewrite Hc, Ho, observed_open.
Qed.

(** The parts of the state that handling an item leaves alone. *)
Definition same_channel (s s' : stream) : Prop :=
  cs_first_event s' = cs_first_event s /\ cs_queue s' = cs_queue s /\ cs_closed s' = cs_closed s.

(** An item either ends the stream, accounted for with what it has sent, or
    the stream goes on with the rest. *)
Definition ends (k : StreamRuntimeCounters) (F : list (list Z)) (elapsed : Z)
  (outcome : StreamRuntimeOutcome) (r : stream * option (list Z)) : Prop :=
  cs_finished r.1 = true /\
  cs_counters r.1 = settle outcome elapsed (observed (F ++ option_list r.2)) k.

Lemma stream_finish_channel outcome elapsed s : same_channel s (stream_finish outcome elapsed s).
Proof.
  unfold stream_finish. destruct (cs_finished s); [done|]. by destruct (observation_finish _ _ _ _).
Qed.

Lemma observe_bytes_channel bytes s : same_channel s (observe_bytes bytes s).
Proof. unfold observe_bytes. by destruct (is_emptyb bytes). Qed.

#[global] Instance same_channel_trans : Transitive same_channel.
Proof. intros s1 s2 s3 (? & ? & ?) (? & ? & ?). unfold same_channel. split_and!; congruence. Qed.

Lemma finish_ends k F outcome elapsed bytes s :
  unfinished k F s ->
  let r := (stream_finish outcome elapsed (observe_bytes bytes s), non_empty bytes) in
  ends k F elapsed outcome r /\ same_channel s r.1.
Proof.
  intros Hl. cbn zeta. pose proof (observe_bytes_unfinished k F bytes s Hl) as Hl'.
  pose proof (stream_finish_unfinished k _ outcome elapsed _ Hl') as (Hf & Hc).
  split; [by split|]. etrans; [apply observe_bytes_channel|apply stream_finish_channel].
Qed.

Lemma emit_error_live k F error outcome elapsed s :
  live k F s ->
  let r := emit_error error outcome elapsed s in
  ends k F elapsed outcome r /\ same_channel s r.1 /\
  option_list r.2 = error_frames error (cs_codec s).
Proof.
  intros [[Hf Hc Ho] He]. unfold emit_error, error_frames. rewrite Hf, He.
  cbn [orb cs_codec set_error_sent].
  destruct (codec_encode (EvFailed error) (cs_codec s)) as [c' [bytes|e]].
  - assert (unfinished k F (set_codec c' (set_error_sent s))) as Hu by by split.
    destruct (finish_ends k F outcome elapsed bytes _ Hu) as [Hends Hch].
    split_and!; [exact Hends|exact Hch|done].
  - assert (unfinished k F (set_codec c' (set_error_sent s))) as Hu by by split.
    destruct (finish_ends k F outcome elapsed [] _ Hu) as [Hends Hch]. by split_and!.
Qed.

(** An item either ends the stream with what [delivered] says, or the stream
    goes on with the rest. *)
Lemma handle_item_live k F item elapsed s :
  live k F s ->
  let r := handle_item (Some item) elapsed s in
  same_channel s r.1 /\
  ((exists outcome, ends k F elapsed outcome r /\
      forall rest closed, delivered (item :: rest) closed (cs_codec s) = (option_list r.2, Some outcome))
   \/ (live k (F ++ option_list r.2) r.1 /\
       forall rest closed, delivered (item :: rest) closed (cs_codec s) =
         prepend (option_list r.2) (delivered rest closed (cs_codec r.1)))).
Proof.
  intros Hl. destruct item as [event|failure]; cbn [handle_item].
  2:{ destruct (emit_error_live k F (map_stream_failure failure) (failure_outcome failure) elapsed s Hl)
        as (Hends & Hch & Hfr).
      split; [done|]. left. exists (failure_outcome failure). split; [done|]. intros. cbn. by rewrite <-Hfr. }
  unfold encode_event. cbn [delivered].
  destruct (codec_encode event (cs_codec s)) as [c' [bytes|e]] eqn:Henc.
  - assert (live k F (set_codec c' s)) as [Hu He] by (destruct Hl as [[] ?]; by repeat split).
    destruct (event_outcome event) as [outcome|] eqn:Ho.
    + destruct (finish_ends k F outcome elapsed bytes _ Hu) as [Hends Hch].
      split; [exact Hch|]. left. exists outcome. by split.
    + split; [exact (observe_bytes_channel bytes (set_codec c' s))|]. right. split.
      * split; [by apply observe_bytes_unfinished|]. unfold observe_bytes. by destruct (is_emptyb bytes).
      * intros rest closed. cbn [fst snd].
        assert (cs_codec (observe_bytes bytes (set_codec c' s)) = c') as ->.
        { unfold observe_bytes. by destruct (is_emptyb bytes). }
        by destruct (delivered rest closed c').
  - assert (live k F (set_codec c' s)) as Hl' by (destruct Hl as [[] ?]; by repeat split).
    destruct (emit_error_live k F malformed_upstream_stream StreamProtocolError elapsed _ Hl')
      as (Hends & Hch & Hfr).
    split; [exact Hch|]. left. exists StreamProtocolError. split; [exact Hends|]. intros.
    unfold emit_protocol_error. by rewrite Hfr.
Qed.

(** ** One poll *)
(** What a poll leaves: it never spins, [None] means the end, and an unfinished
    stream either has nothing to say on an open channel or has fewer items
    left. *)
Record poll_ok (c0 : C) (k : StreamRuntimeCounters) (items : list UpstreamStreamItem)
  (F : list (list Z)) (n : nat) (closed : bool) (s' : stream) (p : Poll) : Prop := {
  poll_tracks : tracks c0 k items (F ++ poll_frames p) s';
  poll_returns : p <> PollSpins;
  poll_none : p = PollReady None -> cs_finished s' = true;
  poll_closed : cs_closed s' = closed;
  poll_pending : (length (pending s') <= n)%nat;
  poll_progress : cs_finished s' = true \/ (p = PollPending /\ closed = false) \/
    (length (pending s') < n)%nat
}.

Lemma prepend_app F G r : prepend (F ++ G) r = prepend F (prepend G r).
Proof. unfold prepend. cbn. by rewrite app_assoc. Qed.

Lemma poll_frames_ready r : poll_frames (PollReady r) = option_list r.
Proof. by destruct r. Qed.

Lemma ends_poll c0 k items F n closed elapsed outcome (r : stream * option (list Z)) :
  ends k F elapsed outcome r -> cs_closed r.1 = closed -> (length (pending r.1) <= n)%nat ->
  delivers c0 items closed (fun _ _ => (F ++ option_list r.2, Some outcome)) ->
  poll_ok c0 k items F n closed r.1 (PollReady r.2).
Proof.
  intros [Hf Hc] Hcl Hq Hd. split; try done; [|by left].
  rewrite poll_frames_ready. apply (tracks_done _ _ _ _ _ outcome elapsed); [done..|].
  by rewrite Hcl.
Qed.

Lemma handle_none_live c0 k items F elapsed s :
  live k F s -> cs_closed s = true -> cs_first_event s = None -> cs_queue s = [] ->
  delivers c0 items true (fun more closed' => prepend F (delivered more closed' (cs_codec s))) ->
  let r := handle_item None elapsed s in
  settled r = true /\ poll_ok c0 k items F 0 true r.1 (PollReady r.2).
Proof.
  intros Hl Hcl Hfirst Hq Hd. cbn [handle_item]. unfold emit_protocol_error.
  destruct (emit_error_live k F malformed_upstream_stream StreamProtocolError elapsed s Hl)
    as (Hends & (Hfi & Hqu & Hch) & Hfr).
  unfold settled. split; [by rewrite (proj1 Hends)|].
  apply (ends_poll _ _ _ _ _ _ elapsed StreamProtocolError); [done|by rewrite <-Hcl| |].
  - unfold pending. by rewrite Hfi, Hfirst, Hqu, Hq.
  - intros more closed' Hlater. rewrite Hd by done. destruct (Hlater eq_refl) as [-> ->].
    by rewrite Hfr.
Qed.

Lemma poll_ok_weaken c0 k items F n m closed s' p :
  (n <= m)%nat -> poll_ok c0 k items F n closed s' p -> poll_ok c0 k items F m closed s' p.
Proof. intros Hle [Ht Hr Hn Hc Hq Hp]. split; try done; [lia|]. destruct Hp as [?|[?|?]]; auto with lia. Qed.

(** The item at the head of what is pending is handled; if the stream goes on
    without a frame, so does the loop. *)
Lemma item_poll c0 k items F elapsed item rest s (next : stream -> stream * Poll) :
  live k F s -> cs_first_event s = None -> cs_queue s = rest ->
  delivers c0 items (cs_closed s)
    (fun more closed' => prepend F (delivered (item :: rest ++ more) closed' (cs_codec s))) ->
  (forall F' s', live k F' s' -> cs_first_event s' = None -> cs_queue s' = rest ->
     cs_closed s' = cs_closed s ->
     delivers c0 items (cs_closed s)
       (fun more closed' => prepend F' (delivered (rest ++ more) closed' (cs_codec s'))) ->
     let '(s2, p) := next s' in poll_ok c0 k items F' (S (length rest)) (cs_closed s) s2 p) ->
  let r := handle_item (Some item) elapsed s in
  let '(s2, p) := if settled r then (r.1, PollReady r.2) else next r.1 in
  poll_ok c0 k items F (S (length rest)) (cs_closed s) s2 p.
Proof.
  intros Hl Hfirst Hq Hd Hnext. cbn zeta.
  destruct (handle_item_live k F item elapsed s Hl) as ((Hf' & Hq' & Hc') & Hr). revert Hr Hf' Hq' Hc'.
  generalize (handle_item (Some item) elapsed s) as r. intros r Hr Hf' Hq' Hc'. unfold settled.
  destruct Hr as [(outcome & Hends & Hdel)|(Hlive & Hdel)].
  - rewrite (proj1 Hends). cbn [orb].
    apply (ends_poll _ _ _ _ _ _ elapsed outcome); [done|done|unfold pending; rewrite Hf', Hfirst, Hq', Hq; cbn; lia|].
    intros more closed' Hlater. rewrite Hd by done. by rewrite Hdel.
  - assert (delivers c0 items (cs_closed s) (fun more closed' =>
      prepend (F ++ option_list r.2) (delivered (rest ++ more) closed' (cs_codec r.1)))) as Hd'.
    { intros more closed' Hlater. rewrite Hd by done. by rewrite Hdel, prepend_app. }
    rewrite (unfinished_flag _ _ _ (proj1 Hlive)). destruct r as [s1 [bytes|]]; cbn [orb is_someb fst snd] in *.
    + split; try done; [|unfold pending; rewrite Hf', Hfirst, Hq', Hq; cbn; lia|].
      * apply tracks_live; [done|]. rewrite Hc'. unfold pending. by rewrite Hf', Hfirst, Hq', Hq.
      * right; right. unfold pending. rewrite Hf', Hfirst, Hq', Hq. cbn. lia.
    + cbn [option_list] in *. rewrite app_nil_r in *. apply Hnext; try done; congruence.
Qed.

Lemma poll_loop_ok c0 k items elapsed queue F s :
  live k F s -> cs_first_event s = None ->
  delivers c0 items (cs_closed s)
    (fun more closed' => prepend F (delivered (queue ++ more) closed' (cs_codec s))) ->
  let '(s', p) := poll_loop elapsed queue s in
  poll_ok c0 k items F (length queue) (cs_closed s) s' p.
Proof.
  revert F s. induction queue as [|item rest IH]; intros F s Hl Hfirst Hd; cbn [poll_loop].
  - destruct (cs_closed s) eqn:Hcl; cbn [cs_closed set_channel].
    + assert (live k F (set_channel [] true s)) as Hl' by (destruct Hl as [[] ?]; by repeat split).
      destruct (handle_none_live c0 k items F elapsed _ Hl' eq_refl Hfirst eq_refl Hd) as [-> Hok]. exact Hok.
    + split; try done; [|unfold pending; cbn; by rewrite Hfirst|by right; left].
      cbn [poll_frames]. rewrite app_nil_r. apply tracks_live.
      * destruct Hl as [[] ?]; by repeat split.
      * unfold pending. cbn [cs_first_event cs_queue set_channel cs_closed cs_codec]. by rewrite Hfirst.
  - assert (live k F (set_channel rest (cs_closed s) s)) as Hl' by (destruct Hl as [[] ?]; by repeat split).
    apply (item_poll c0 k items F elapsed item rest (set_channel rest (cs_closed s) s)
             (poll_loop elapsed rest) Hl' Hfirst eq_refl Hd).
    intros F' s' HlF Hf Hq Hc Hd'. cbn [cs_closed set_channel] in *. rewrite <-Hc in Hd' |- *.
    specialize (IH F' s' HlF Hf Hd'). destruct (poll_loop elapsed rest s') as [s2 p].
    by eapply poll_ok_weaken, IH; lia.
Qed.

(** ** Cancellation *)
(** Until cancellation is asked for, the token is set only by finishing. *)
Definition quiet (s : stream) : Prop := cs_cancelled s = true -> cs_finished s = true.

Lemma stream_finish_quiet outcome elapsed s : quiet s -> quiet (stream_finish outcome elapsed s).
Proof.
  intros Hq. unfold stream_finish. destruct (cs_finished s) eqn:Hf; [by intros _|].
  by destruct (observation_finish _ _ _ _).
Qed.

Lemma observe_bytes_quiet bytes s : quiet s -> quiet (observe_bytes bytes s).
Proof. unfold observe_bytes. by destruct (is_emptyb bytes). Qed.

Lemma emit_error_quiet error outcome elapsed s : quiet s -> quiet (emit_error error outcome elapsed s).1.
Proof.
  intros Hq. unfold emit_error. destruct (_ || _); [done|].
  destruct (codec_encode _ _) as [c' [bytes|e]]; cbn [fst]; apply stream_finish_quiet; [|done].
  by apply observe_bytes_quiet.
Qed.

Lemma handle_item_quiet item elapsed s : quiet s -> quiet (handle_item item elapsed s).1.
Proof.
  intros Hq. destruct item as [[event|failure]|]; [|by apply emit_error_quiet..].
  cbn [handle_item]. unfold encode_event. destruct (codec_encode _ _) as [c' [bytes|e]]; cbn [fst].
  - destruct (event_outcome event); [apply stream_finish_quiet|]; by apply observe_bytes_quiet.
  - by apply emit_error_quiet.
Qed.

Lemma poll_loop_quiet elapsed queue s : quiet s -> quiet (poll_loop elapsed queue s).1.
Proof.
  revert s. induction queue as [|item rest IH]; intros s Hq; cbn [poll_loop].
  - destruct (cs_closed _); [|done]. destruct (settled _); by apply handle_item_quiet.
  - destruct (settled _); [by apply handle_item_quiet|]. by apply IH, handle_item_quiet.
Qed.

Lemma poll_next_quiet elapsed s : quiet s -> quiet (poll_next elapsed s).1.
Proof.
  intros Hq. unfold poll_next. destruct (cs_finished s) eqn:Hf; [done|].
  destruct (cs_cancelled s) eqn:Hc; [by apply stream_finish_quiet|].
  destruct (cs_first_event s); [|by apply poll_loop_quiet].
  destruct (settled _); [|apply poll_loop_quiet]; apply handle_item_quiet; intros Hcan; cbn in *; congruence.
Qed.

Lemma poll_next_ok c0 k items elapsed F s :
  tracks c0 k items F s -> quiet s \/ cancel_asked ->
  let '(s', p) := poll_next elapsed s in
  poll_ok c0 k items F (length (pending s)) (cs_closed s) s' p /\
  (cs_finished s = true -> p = PollReady None).
Proof.
  intros Ht Hquiet. unfold poll_next. destruct (cs_finished s) eqn:Hfin.
  { split; [|done]. split; cbn [poll_frames]; rewrite ?app_nil_r; auto with lia. }
  destruct Ht as [Hl Hd|? ? Hbad|? Hbad]; [|congruence..]. destruct (cs_cancelled s) eqn:Hcan.
  { destruct (stream_finish_unfinished k F StreamCancelled elapsed s (proj1 Hl)) as (Hf & Hc).
    destruct (stream_finish_channel StreamCancelled elapsed s) as (Hfirst & Hq & Hcl).
    split; [|done]. split; [|done|done|done|unfold pending; by rewrite Hfirst, Hq|by left].
    cbn [poll_frames]. rewrite app_nil_r. apply (tracks_cancelled _ _ _ _ _ elapsed); [done| |done|].
    { destruct Hquiet as [Hquiet|]; [|done]. by rewrite Hquiet in Hfin. }
    rewrite Hcl. intros more closed' Hlater. rewrite Hd by done. by eexists. }
  unfold pending in *. destruct (cs_first_event s) as [event|] eqn:Hfirst; cbn [fmap option_fmap option_map option_list app] in *.
  - assert (live k F (set_first None s)) as Hl' by (destruct Hl as [[] ?]; by repeat split).
    pose proof (item_poll c0 k items F elapsed (ItemEvent event) (cs_queue s) (set_first None s)
             (poll_loop elapsed (cs_queue s)) Hl' eq_refl eq_refl Hd) as Hok.
    cbn [cs_closed set_first] in Hok. cbn zeta in Hok.
    destruct (if settled _ then _ else _) as [s' p] in Hok |- *. split; [|done]. apply Hok.
    intros F' s1 HlF Hf Hq Hc Hd'. rewrite <-Hc in Hd' |- *.
    pose proof (poll_loop_ok c0 k items elapsed (cs_queue s) F' s1 HlF Hf Hd') as Hp.
    destruct (poll_loop _ _ _) as [s2 p2]. by eapply poll_ok_weaken, Hp; lia.
  - pose proof (poll_loop_ok c0 k items elapsed (cs_queue s) F s Hl Hfirst Hd) as Hp.
    by destruct (poll_loop _ _ _) as [s2 p2].
Qed.

(** ** Runs *)
Lemma tracks_set_channel c0 k items F s item :
  cs_closed s = false -> tracks c0 k items F s ->
  tracks c0 k (items ++ [item]) F (set_channel (cs_queue s ++ [item]) false s).
Proof.
  intros Hcl Ht. assert (Hlater : forall more closed', later (cs_closed s) more closed').
  { intros more closed'. rewrite Hcl. intros [=]. }
  destruct Ht as [Hl Hd|o e Hf Hc Hd|e Hf Hcan Hc Hp].
  - apply tracks_live; [destruct Hl as [[] ?]; by repeat split|].
    intros more closed' _. rewrite <-app_assoc, Hd by done.
    unfold pending. cbn [cs_first_event cs_queue set_channel cs_codec]. by rewrite <-!app_assoc.
  - apply (tracks_done _ _ _ _ _ o e); [done..|]. intros more closed' _.
    by rewrite <-app_assoc, Hd.
  - apply (tracks_cancelled _ _ _ _ _ e); [done..|]. intros more closed' _.
    rewrite <-app_assoc. by apply Hp.
Qed.

Lemma tracks_close c0 k items F s :
  tracks c0 k items F s -> tracks c0 k items F (set_channel (cs_queue s) true s).
Proof.
  assert (Hlater : forall more closed', later true more closed' -> later (cs_closed s) more closed').
  { unfold later. auto. }
  intros [Hl Hd|o e Hf Hc Hd|e Hf Hcan Hc Hp].
  - apply tracks_live; [destruct Hl as [[] ?]; by repeat split|].
    intros more closed' Hm. cbn in Hm. rewrite Hd by auto. done.
  - apply (tracks_done _ _ _ _ _ o e); [done..|]. intros more closed' Hm. cbn in Hm. by rewrite Hd by auto.
  - apply (tracks_cancelled _ _ _ _ _ e); [done..|]. intros more closed' Hm. cbn in Hm. apply Hp. auto.
Qed.

Lemma tracks_cancel c0 k items F s : tracks c0 k items F s -> tracks c0 k items F (set_cancelled s).
Proof.
  intros [Hl Hd|o e Hf Hc Hd|e Hf Hcan Hc Hp].
  - apply tracks_live; [destruct Hl as [[] ?]; by repeat split|done].
  - by apply (tracks_done _ _ _ _ _ o e).
  - by apply (tracks_cancelled _ _ _ _ _ e).
Qed.

(** The invariant of a run: [3] is the first event and a full channel. *)
Record good (c0 : C) (k : StreamRuntimeCounters) (items : list UpstreamStreamItem)
  (F : list (list Z)) (s : stream) : Prop := {
  good_tracks : tracks c0 k items F s;
  good_quiet : quiet s \/ cancel_asked;
  good_pending : (length (pending s) <= 3)%nat
}.

(** Frames and waits, then nothing but the end. *)
Definition polls_shape (finished_before finished_after : bool) (polls : list Poll) : Prop :=
  exists live n, polls = live ++ replicate n (PollReady None) /\
    Forall (fun p => p <> PollReady None /\ p <> PollSpins) live /\
    (n <> 0%nat -> finished_after = true) /\
    (finished_before = true -> live = [] /\ finished_after = true).

Lemma good_poll c0 k items F elapsed s :
  good c0 k items F s ->
  let '(s', p) := poll_next elapsed s in
  good c0 k items (F ++ poll_frames p) s' /\ p <> PollSpins /\
  (p = PollReady None -> cs_finished s' = true) /\ (cs_finished s = true -> p = PollReady None).
Proof.
  intros [Ht Hq Hp]. pose proof (poll_next_ok c0 k items elapsed F s Ht Hq) as Hok.
  pose proof (poll_next_quiet elapsed s) as Hq'.
  destruct (poll_next elapsed s) as [s' p]. cbn [fst] in Hq'. destruct Hok as [[] Hfin].
  split_and!; try done. split; [done|destruct Hq; auto|lia].
Qed.

Lemma good_send c0 k items F item s :
  cs_closed s = false -> zlen (cs_queue s) < UPSTREAM_STREAM_CHANNEL_CAPACITY ->
  good c0 k items F s -> good c0 k (items ++ [item]) F (set_channel (cs_queue s ++ [item]) false s).
Proof.
  intros Hcl Hcap [Ht Hq Hp]. split; [by apply tracks_set_channel|done|].
  unfold pending. cbn [cs_first_event cs_queue set_channel]. rewrite !length_app. cbn [length].
  unfold zlen, UPSTREAM_STREAM_CHANNEL_CAPACITY in Hcap. destruct (cs_first_event s); cbn; lia.
Qed.

Lemma run_good c0 k actions items F s s' polls :
  (ActCancel ∈ actions -> cancel_asked) -> good c0 k items F s -> run actions s = Some (s', polls) ->
  good c0 k (items ++ sends actions) (F ++ frames polls) s' /\
  polls_shape (cs_finished s) (cs_finished s') polls.
Proof.
  revert items F s polls. induction actions as [|a l IH]; intros items F s polls Hask Hg Hrun; cbn [run] in Hrun.
  { injection Hrun as <- <-. cbn [sends frames flat_map]. rewrite !app_nil_r. split; [done|].
    exists [], 0%nat. by split_and!. }
  apply bind_Some in Hrun as ([s1 ps] & Hact & Hrun). apply bind_Some in Hrun as ([s2 rest] & Hrun & [= -> <-]).
  assert (Hask' : ActCancel ∈ l -> cancel_asked) by (intros; apply Hask; by right).
  destruct a as [item| | |elapsed]; cbn [act] in Hact.
  - destruct (_ || _) eqn:Hen in Hact; [done|]. apply orb_false_iff in Hen as [Hcl Hcap].
    apply Z.leb_gt in Hcap. injection Hact as <- <-.
    apply (good_send _ _ _ _ item _ Hcl Hcap) in Hg.
    destruct (IH _ _ _ _ Hask' Hg Hrun) as [Hg' Hs]. rewrite <-app_assoc in Hg'. by split.
  - injection Hact as <- <-. destruct Hg as [Ht Hq Hp]. apply tracks_close in Ht.
    destruct (IH items F (set_channel (cs_queue s) true s) rest Hask') as [Hg' Hs]; [by split|done|].
    by split.
  - injection Hact as <- <-. destruct Hg as [Ht Hq Hp]. apply tracks_cancel in Ht.
    destruct (IH items F (set_cancelled s) rest Hask') as [Hg' Hs]; [split; [done| |done]|done|by split].
    right. apply Hask. by left.
  - pose proof (good_poll c0 k items F elapsed s Hg) as Hp.
    destruct (poll_next elapsed s) as [s1' p] eqn:Hpoll. injection Hact as -> <-.
    destruct Hp as (Hg1 & Hspin & Hnone & Hfin).
    destruct (IH _ _ _ _ Hask' Hg1 Hrun) as [Hg' (live & n & -> & Hlive & Hn & Hstart)].
    split; [by rewrite <-app_assoc in Hg'|].
    assert (Hcase : p = PollReady None \/ p <> PollReady None) by (destruct p as [[]| |]; by auto).
    destruct Hcase as [->|Hp].
    + destruct (Hstart (Hnone eq_refl)) as [-> Hend]. exists [], (S n). by split_and!.
    + exists (p :: live), n. split_and!; [done|by constructor|done|].
      intros Hf. by rewrite Hfin in Hp.
Qed.

(** ** The end of a stream *)
Lemma finished_stays elapsed s : cs_finished s = true -> poll_next elapsed s = (s, PollReady None).
Proof. intros Hf. unfold poll_next. by rewrite Hf. Qed.

Lemma polls_finish c0 k items F times s :
  good c0 k items F s -> cs_closed s = true -> cs_finished s = true \/ (length (pending s) < length times)%nat ->
  exists s' polls, run (ActPoll <$> times) s = Some (s', polls) /\ cs_finished s' = true.
Proof.
  revert F s. induction times as [|t times IH]; intros F s Hg Hcl Hlen.
  { exists s, []. split; [done|]. destruct Hlen; [done|cbn in *; lia]. }
  pose proof (poll_next_ok c0 k items t F s (good_tracks _ _ _ _ _ Hg) (good_quiet _ _ _ _ _ Hg)) as Hok.
  pose proof (good_poll c0 k items F t s Hg) as Hp. cbn [fmap list_fmap run act].
  destruct (poll_next t s) as [s1 p] eqn:Hpoll. destruct Hok as [[] _], Hp as [Hg1 _].
  destruct (IH _ s1 Hg1) as (s' & polls & Hrun & Hf); [congruence| |].
  2:{ exists s', ([p] ++ polls). split; [|done]. change (list_fmap _ _) with (ActPoll <$> times). cbn [mbind option_bind].
      by rewrite Hrun. }
  destruct Hlen as [Hf|Hlen].
  - left. rewrite finished_stays in Hpoll by done. congruence.
  - destruct poll_progress0 as [?|[[_ ?]|?]]; [by left|congruence|right; cbn in *; lia].
Qed.
End Spec.

(** ** What [delivered] ends with *)

Section Closing.
Context {C : Type} `{ClientCodecLaws C}.

(** Exactly one closing frame, the last. *)
Definition closed_once (F : list (list Z)) : Prop :=
  exists body final, F = body ++ [final] /\ codec_closing final /\ Forall (fun f => ~ codec_closing f) body.

Lemma error_frames_close error c : codec_ready c -> closed_once (error_frames error c).
Proof.
  intros Hr. destruct (codec_failed c error Hr) as (c' & bytes & He & Hne & Hcl).
  unfold error_frames. rewrite He. exists [], bytes. split_and!; [|done|done].
  by destruct bytes.
Qed.

Lemma closed_once_prepend bytes F :
  ~ codec_closing bytes -> closed_once F -> closed_once (frames_of bytes ++ F).
Proof.
  intros Hb (body & final & -> & Hc & Hf). exists (frames_of bytes ++ body), final.
  rewrite app_assoc. split_and!; [done..|]. apply Forall_app. split; [|done].
  unfold frames_of, non_empty. destruct (is_emptyb bytes); repeat constructor. done.
Qed.

Lemma delivered_closes items closed c :
  codec_ready c ->
  match delivered items closed c with
  | (F, Some _) => closed_once F
  | (F, None) => Forall (fun f => ~ codec_closing f) F
  end.
Proof.
  revert c. induction items as [|[event|failure] rest IH]; intros c Hr; cbn [delivered].
  - destruct closed; [by apply error_frames_close|constructor].
  - destruct (codec_encode event c) as [c' [bytes|e]] eqn:He.
    2:{ apply error_frames_close. by eapply codec_refused. }
    destruct (event_outcome event) as [outcome|] eqn:Ho.
    + assert (bytes <> [] /\ codec_closing bytes) as [Hne Hcl].
      { destruct event; try done; [by eapply codec_completed|].
        destruct (codec_failed c error Hr) as (c1 & b1 & He1 & Hb1).
        rewrite He in He1. injection He1 as <- <-. exact Hb1. }
      exists [], bytes. split_and!; [by destruct bytes|done|done].
    + destruct (codec_running c c' event bytes Hr Ho He) as [Hr' Hcl].
      specialize (IH c' Hr'). destruct (delivered rest closed c') as [F [o|]].
      * by apply closed_once_prepend.
      * apply Forall_app. split; [|done]. unfold frames_of, non_empty.
        destruct (is_emptyb bytes); repeat constructor. done.
  - by apply error_frames_close.
Qed.
End Closing.

(** ** The theorems *)
Section Theorems.
Context {C : Type} `{ClientCodec C}.

Lemma client_stream_good (asked : Prop) first codec counters :
  good asked codec (stream_start counters).1 [ItemEvent first] [] (client_stream first codec counters).
Proof.
  split; [|by left|cbn; lia]. apply tracks_live; [by repeat split|].
  intros more closed' _. unfold client_stream, pending. cbn [cs_first_event cs_queue cs_codec].
  unfold prepend. cbn [fmap option_fmap option_map option_list app stream_start cs_queue cs_first_event cs_codec].
  by destruct (delivered _ _ _).
Qed.

(** How what has been delivered relates to [delivered]. *)
Lemma tracks_delivered asked c0 k items F (s : CanonicalSseStream C) :
  tracks asked c0 k items F s ->
  let '(all, end_of) := delivered items (cs_closed s) c0 in
  if cs_finished s then
    exists outcome elapsed, cs_counters s = settle outcome elapsed (observed F) k /\
      ((F = all /\ end_of = Some outcome) \/ (asked /\ outcome = StreamCancelled /\ F `prefix_of` all))
  else cs_counters s = k /\ F `prefix_of` all.
Proof.
  intros Ht. assert (Hlater : later (cs_closed s) [] (cs_closed s)) by (by intros ->).
  destruct (delivered _ _ _) as [all end_of] eqn:Hd.
  destruct Ht as [[[Hf Hc _] _] Hdel|outcome elapsed Hf Hc Hdel|elapsed Hf Hask Hc Hp]; rewrite Hf.
  - specialize (Hdel _ _ Hlater). rewrite app_nil_r, Hd in Hdel. injection Hdel as -> _.
    split; [done|by eexists].
  - specialize (Hdel _ _ Hlater). rewrite app_nil_r, Hd in Hdel. injection Hdel as -> ->. eauto 10.
  - specialize (Hp _ _ Hlater). rewrite app_nil_r, Hd in Hp. eauto 10.
Qed.

(** C5: Under every interleaving of the sending task, cancellation and the client's polls, the
    stream body delivers exactly what the sent items mean.  No poll loops for ever; the polls give
    frames and waits and then only the end; an unfinished body has delivered a prefix of what
    [delivered] says; a finished one all of it with the outcome [delivered] says, or, when the
    request was cancelled, a prefix; and its observation is settled once, with exactly the frames
    delivered. *)
Theorem client_stream_refines (first : CanonicalEvent) (codec : C) (counters : StreamRuntimeCounters)
  (actions : list Action) (s : CanonicalSseStream C) (polls : list Poll) :
  run actions (client_stream first codec counters) = Some (s, polls) ->
  let '(all, end_of) := delivered (ItemEvent first :: sends actions) (cs_closed s) codec in
  polls_shape false (cs_finished s) polls /\
  if cs_finished s then
    exists outcome elapsed,
      cs_counters s = settle outcome elapsed (observed (frames polls)) (stream_start counters).1 /\
      ((frames polls = all /\ end_of = Some outcome)
       \/ (ActCancel ∈ actions /\ outcome = StreamCancelled /\ frames polls `prefix_of` all))
  else cs_counters s = (stream_start counters).1 /\ frames polls `prefix_of` all.
Proof.
  intros Hrun.
  destruct (run_good (ActCancel ∈ actions) codec (stream_start counters).1 actions [ItemEvent first] []
              _ _ _ (fun h => h) (client_stream_good _ _ _ _) Hrun) as [[Ht _ _] Hshape].
  apply tracks_delivered in Ht. cbn [app] in Ht.
  destruct (delivered _ _ _) as [all end_of]. by split.
Qed.

(** C6: The stream body terminates.  Once the sending task is gone, whatever happened before, the
    polls that empty the channel are enough: after as many polls as the channel's capacity plus
    two the body is finished, and every further poll returns the end of the stream. *)
Theorem client_stream_terminates (first : CanonicalEvent) (codec : C) (counters : StreamRuntimeCounters)
  (actions : list Action) (s : CanonicalSseStream C) (polls : list Poll) (times : list Z) :
  run actions (client_stream first codec counters) = Some (s, polls) ->
  cs_closed s = true ->
  UPSTREAM_STREAM_CHANNEL_CAPACITY + 2 <= zlen times ->
  exists s' rest, run (ActPoll <$> times) s = Some (s', rest) /\ cs_finished s' = true /\
    forall elapsed, poll_next elapsed s' = (s', PollReady None).
Proof.
  intros Hrun Hcl Hlen.
  destruct (run_good (ActCancel ∈ actions) codec (stream_start counters).1 actions [ItemEvent first] []
              _ _ _ (fun h => h) (client_stream_good _ _ _ _) Hrun) as [Hg _].
  destruct (polls_finish _ _ _ _ _ times s Hg Hcl) as (s' & rest & Hrest & Hf).
  - right. pose proof (good_pending _ _ _ _ _ _ Hg).
    unfold zlen, UPSTREAM_STREAM_CHANNEL_CAPACITY in Hlen. lia.
  - exists s', rest. split_and!; [done|done|]. intros. by apply finished_stays.
Qed.
End Theorems.
