(* ===== verification/ChatClient.v ===== *)
(** * Chat clients of the data plane

    Models the chat part of [crates/wokcore-server/src/data_plane/chat.rs] and
    shows that the Chat Completions codec keeps the promises the client stream
    relies on, so that a chat client always sees one [DONE] frame, the last. *)
From S2P Require Import Prelude Sse Json Canonical ChatEncode ChatEncodeSpec RuntimeDiagnostics DataPlane.
From S2P Require Import ClientStream.
From S2P Require Import ClientStreamSpec.

Definition chat_finish_reason (reason : UpstreamFinishReason) : ChatFinishReason :=
  match reason with
  | ReasonStop | ReasonPauseTurn | ReasonRefusal => FinishStop
  | ReasonLength | ReasonModelContextWindowExceeded => FinishLength
  | ReasonToolCalls => FinishToolCalls
  | ReasonContentFilter => FinishContentFilter
  | ReasonFunctionCall => FinishFunctionCall
  end.

Definition chat_context (public_model : string) (created_at : Z) (reason : UpstreamFinishReason)
  : ChatEncodeContext :=
  mkChatContext public_model created_at
    (mkChatTemplate 0 (chat_finish_reason reason) None true ∅).

Definition chat_stream_codec (public_model : string) (created_at : Z) (reason : UpstreamFinishReason)
  : ChatCodec := codec_new (chat_context public_model created_at reason).

(** [encode] of a whole answer, up to the bounded JSON response around it. *)
Definition chat_encode (to_vec : Value -> list Z) (public_model : string)
  (response : UpstreamExecutionResponse) : result GatewayError Value :=
  match ur_output response with
  | OutEvents events =>
      encode_response to_vec
        (chat_context public_model (ur_created_at response) (ur_finish_reason response)) events
  | OutTokenCount _ => Err (gateway_internal "unexpected upstream output")
  end.

(** What is used of the serialiser: an object ends with its brace; [{}] and
    [null]. *)
Class ObjectSerializer (to_vec : Value -> list Z) : Prop := {
  object_last entries : list.last (to_vec (VObject entries)) = Some 125;
  object_empty : to_vec (VObject []) = [123; 125];
  null_bytes : to_vec VNull = [110; 117; 108; 108]
}.

Section Chat.
Context (to_vec : Value -> list Z) `{!ObjectSerializer to_vec}.

#[global] Instance chat_client_codec : ClientCodec ChatCodec := encode_chunk to_vec.

Definition chat_ready (c : ChatCodec) : Prop :=
  terminal c = false /\ validate_context to_vec (limits c) (context c) = Ok tt.

Definition ends_with_done (bytes : list Z) : Prop := done_frame `suffix_of` bytes.

(** A transition keeps the context, and ends the codec only on the last events. *)
Definition steps (event : CanonicalEvent) (c c' : ChatCodec) (r : result GatewayError Transition)
  : Prop :=
  context c' = context c /\ limits c' = limits c /\
  match r with
  | Err _ => terminal c' = terminal c
  | Ok t =>
      match event_outcome event with
      | None => terminal c' = terminal c /\
          (t = TNone \/ exists entries, t = TChunks [VObject entries])
      | Some _ => terminal c' = true
      end
  end.

(** Splits the result of a codec method, whatever its checks say. *)
Ltac codec_cases :=
  repeat match goal with
  | |- (_, _) = (_, _) -> _ => intros [= <- <-]
  | |- (let '(_, _) := match ?p with Ok _ => _ | Err _ => _ end in _) = _ -> _ => destruct p as [?|?]
  | |- context [match ?p with Ok _ => _ | Err _ => _ end] => destruct p as [?|?]
  | |- context [if ?b then _ else _] => destruct b
  | |- context [let '(_, _) := ?p in _] => destruct p
  end.

Lemma event_steps event c c' r : codec_event to_vec event c = (c', r) -> steps event c c' r.
Proof.
  unfold steps.
  destruct event; cbn [codec_event event_outcome];
    unfold created, text_delta, tool_delta, record_usage, completed, failed, delta_chunk, chunk, of_map,
      st_bind, st_get, st_lift, st_mod, st_ret, st_err; codec_cases; cbn; eauto 10.
Qed.

Lemma transition_steps event c c' r :
  chat_ready c -> transition to_vec event c = (c', r) -> steps event c c' r.
Proof.
  intros [Ht Hv]. unfold transition, validate_context_once, st_bind, st_get, st_lift, st_mod, st_ret, st_err.
  rewrite Ht, Hv. destruct (context_validated c).
  - apply (event_steps event c).
  - intros H. apply (event_steps event (set_validated c)) in H. exact H.
Qed.

Lemma chat_encode_Ok event c c' bytes :
  encode_chunk to_vec event c = (c', Ok bytes) ->
  exists t, transition to_vec event c = (c', Ok t) /\
    bytes = encode_transition to_vec t ++ (if terminal c' then done_frame else []).
Proof.
  unfold encode_chunk. intros (c1 & t & Ht & H)%st_bind_Ok.
  apply st_bind_Ok in H as (c2 & c3 & [= <- <-] & [= <- <-]). eauto.
Qed.

Lemma chat_encode_Err event c c' e :
  encode_chunk to_vec event c = (c', Err e) -> transition to_vec event c = (c', Err e).
Proof.
  unfold encode_chunk, st_bind, st_get, st_ret.
  destruct (transition to_vec event c) as [c1 [t|e1]]; [done|]. by intros [= <- <-].
Qed.

Lemma done_closes pre : ends_with_done (pre ++ done_frame) /\ pre ++ done_frame <> [].
Proof. split; [by exists pre|]. by destruct pre. Qed.

Lemma object_not_done entries : ~ ends_with_done (encode_sse to_vec None (VObject entries)).
Proof using Type*.
  intros [k Hk]. unfold encode_sse, done_frame in Hk. rewrite !app_assoc in Hk.
  apply app_inj_2 in Hk as [Hk _]; [|done].
  assert (Hl : list.last (k ++ str_bytes "data: [DONE]") = Some 125).
  { rewrite <-Hk. apply last_app_Some. left. apply object_last. }
  assert (Hr : list.last (k ++ str_bytes "data: [DONE]") = Some 93) by (apply last_app_Some; by left).
  congruence.
Qed.

Lemma running_not_done t :
  t = TNone \/ (exists entries, t = TChunks [VObject entries]) ->
  ~ ends_with_done (encode_transition to_vec t ++ []).
Proof using Type*.
  intros [->|[entries ->]]; cbn [encode_transition flat_map]; rewrite !app_nil_r.
  - intros [k Hk]. by destruct k.
  - apply object_not_done.
Qed.

#[global] Program Instance chat_codec_laws : ClientCodecLaws ChatCodec :=
  {| codec_ready := chat_ready; codec_closing := ends_with_done |}.
Next Obligation.
  intros c error Hr. destruct (encode_chunk to_vec (EvFailed error) c) as [c' [bytes|e]] eqn:He.
  - exists c', bytes. split; [exact He|].
    apply chat_encode_Ok in He as (t & Ht & ->). apply (transition_steps _ _ _ _ Hr) in Ht as (_ & _ & Ht).
    cbn in Ht. rewrite Ht. split; apply done_closes.
  - exfalso. apply chat_encode_Err in He. revert He. destruct Hr as [Ht Hv].
    unfold transition, validate_context_once, failed, st_bind, st_get, st_lift, st_mod, st_ret, st_err.
    rewrite Ht, Hv. by destruct (context_validated c).
Qed.
Next Obligation.
  intros c c' bytes Hr He. apply chat_encode_Ok in He as (t & Ht & ->).
  apply (transition_steps _ _ _ _ Hr) in Ht as (_ & _ & Ht). cbn in Ht. rewrite Ht.
  split; apply done_closes.
Qed.
Next Obligation.
  intros c c' event bytes Hr Ho He. apply chat_encode_Ok in He as (t & Ht & ->).
  pose proof (transition_steps _ _ _ _ Hr Ht) as (Hc & Hl & Hs). rewrite Ho in Hs. destruct Hs as [Hter Hshape].
  destruct Hr as [Hopen Hv]. rewrite Hter, Hopen. split; [|by apply running_not_done].
  unfold chat_ready. by rewrite Hter, Hc, Hl.
Qed.
Next Obligation.
  intros c c' event e Hr He. apply chat_encode_Err in He.
  pose proof (transition_steps _ _ _ _ Hr He) as (Hc & Hl & Hs). destruct Hr as [Hopen Hv].
  unfold chat_ready. by rewrite Hs, Hc, Hl.
Qed.

Lemma chat_stream_ready model created_at reason :
  chat_identifier ChatLimits_default model = Ok tt ->
  chat_ready (chat_stream_codec model created_at reason).
Proof using Type*.
  intros Hm. split; [done|]. unfold validate_context. cbn [limits context chat_stream_codec codec_new
    codec_with_limits chat_context ctx_model ctx_response extra logprobs].
  rewrite Hm. unfold validate_string_map, validate_serialized, of_map, json_option. cbn [result_bind].
  change (btree_iter ∅) with (@nil (string * Value)). rewrite object_empty, null_bytes. done.
Qed.

(** A chat client's stream is closed exactly once.  For every model name the codec accepts and
    every interleaving without cancellation, the frames of a finished body are some frames that do
    not end with the [DONE] line and then one that does: whatever the upstream sent (events the
    codec refuses, a failure, an early end), the client is told, and nothing follows. *)
Theorem chat_stream_closed_once (model : string) (created_at : Z) (reason : UpstreamFinishReason)
  (first : CanonicalEvent) counters (actions : list Action) s (polls : list Poll) :
  chat_identifier ChatLimits_default model = Ok tt ->
  run actions (client_stream first (chat_stream_codec model created_at reason) counters) = Some (s, polls) ->
  ActCancel ∉ actions -> cs_finished s = true ->
  exists body final, frames polls = body ++ [final] /\ ends_with_done final /\
    Forall (fun f => ~ ends_with_done f) body.
Proof using Type*.
  intros Hm Hrun Hno Hfin.
  destruct (run_good (ActCancel ∈ actions) _ _ actions [ItemEvent first] []
              _ _ _ (fun h => h) (client_stream_good _ _ _ _) Hrun) as [[Ht _ _] _].
  pose proof (delivered_closes (ItemEvent first :: sends actions) (cs_closed s) _
                (chat_stream_ready model created_at reason Hm)) as Hclose.
  apply tracks_delivered in Ht. cbn [app] in Ht. rewrite Hfin in Ht.
  destruct (delivered _ _ _) as [all end_of].
  destruct Ht as (outcome & elapsed & _ & [[-> ->]|[Hask _]]); [exact Hclose|done].
Qed.
End Chat.

(** ** Witnesses *)
(** Objects as [{}] and everything else as [null]. *)
Definition demo_serializer (v : Value) : list Z :=
  match v with VObject _ => [123; 125] | _ => [110; 117; 108; 108] end.

#[global] Instance demo_serializer_ok : ObjectSerializer demo_serializer.
Proof. by split. Qed.

Definition demo_codec : ChatCodec := chat_stream_codec "gpt" 7 ReasonStop.

Definition demo_usage : CanonicalEvent := EvUsage (mkUsage 3 4 None None ∅).

(** The task sends four items through the channel of two, then ends. *)
Definition demo_actions : list Action :=
  [ActPoll 1; ActSend (ItemEvent (EvOutputTextDelta "i" "hi")); ActSend (ItemEvent demo_usage);
   ActPoll 2; ActPoll 3; ActSend (ItemEvent EvCompleted); ActClose; ActPoll 4; ActPoll 5].

(** A reasoning delta, which a chat client cannot be sent. *)
Definition demo_refused : list Action :=
  [ActPoll 1; ActSend (ItemEvent (EvReasoningDelta "i" "hm")); ActPoll 2; ActPoll 3].

Abbreviation demo_run actions :=
  (@run ChatCodec (chat_client_codec demo_serializer) actions
     (client_stream (EvCreated "resp") demo_codec counters_zero)).

Definition result_counts (r : option (CanonicalSseStream ChatCodec * list Poll)) : option (bool * Z * Z * Z) :=
  match r with
  | Some (s, polls) =>
      Some (cs_finished s, st_completed (cs_counters s), st_protocol_errors (cs_counters s), zlen (frames polls))
  | None => None
  end.

Example demo_counts : result_counts (demo_run demo_actions) = Some (true, 1, 0, 3).
Proof. vm_compute. reflexivity. Qed.

Example demo_refused_counts : result_counts (demo_run demo_refused) = Some (true, 0, 1, 2).
Proof. vm_compute. reflexivity. Qed.

Lemma demo_no_cancel : ActCancel ∉ demo_actions.
Proof.
  unfold demo_actions. intros Hin. do 9 (apply elem_of_cons in Hin as [[=]|Hin]).
  by apply not_elem_of_nil in Hin.
Qed.

Lemma client_stream_refines_witness :
  exists s polls, demo_run demo_refused = Some (s, polls) /\ cs_finished s = true /\
    frames polls =
      (@delivered _ (chat_client_codec demo_serializer)
        [ItemEvent (EvCreated "resp"); ItemEvent (EvReasoningDelta "i" "hm")] (cs_closed s) demo_codec).1.
Proof.
  pose proof demo_refused_counts as Hc. destruct (demo_run demo_refused) as [[s polls]|] eqn:E; [|done].
  pose proof (client_stream_refines _ _ _ _ _ _ E) as H.
  change (sends demo_refused) with [ItemEvent (EvReasoningDelta "i" "hm")] in H.
  exists s, polls. injection Hc as Hf _ _ _. rewrite Hf in H.
  destruct (delivered _ _ _) as [all o]. destruct H as (_ & outcome & elapsed & _ & [[H _]|[Hin _]]).
  - split_and!; [reflexivity|exact Hf|exact H].
  - exfalso. unfold demo_refused in Hin. do 4 (apply elem_of_cons in Hin as [[=]|Hin]).
    by apply not_elem_of_nil in Hin.
Defined.

Lemma client_stream_terminates_witness :
  exists s polls s' rest, demo_run [ActSend (ItemEvent demo_usage); ActSend (ItemEvent EvCompleted); ActClose]
      = Some (s, polls) /\
    @run _ (chat_client_codec demo_serializer) (ActPoll <$> [1; 2; 3; 4]) s = Some (s', rest) /\
    cs_finished s' = true.
Proof.
  destruct (demo_run [ActSend (ItemEvent demo_usage); ActSend (ItemEvent EvCompleted); ActClose])
    as [[s polls]|] eqn:E; [|exfalso; vm_compute in E; discriminate].
  destruct (client_stream_terminates _ _ _ _ _ _ [1; 2; 3; 4] E) as (s' & rest & Hrun & Hf & _).
  - injection E as <- <-. reflexivity.
  - vm_compute. discriminate.
  - exists s, polls, s', rest. split_and!; [reflexivity|exact Hrun|exact Hf].
Defined.

Lemma chat_stream_closed_once_witness :
  exists s polls body final, demo_run demo_actions = Some (s, polls) /\
    frames polls = body ++ [final] /\ ends_with_done final /\ Forall (fun f => ~ ends_with_done f) body.
Proof.
  pose proof demo_counts as Hc. destruct (demo_run demo_actions) as [[s polls]|] eqn:E; [|done].
  injection Hc as Hf _ _ _.
  destruct (chat_stream_closed_once demo_serializer "gpt" 7 ReasonStop _ _ _ _ _ eq_refl E demo_no_cancel Hf)
    as (body & final & H).
  exists s, polls, body, final. split; [reflexivity|exact H].
Defined.
