(* ===== verification/GeminiUpstream.v ===== *)
(** * Gemini upstreams

    Models the response side of
    [crates/wokcore-protocols/src/outbound/gemini.rs]: whole answers and
    streams.  The derived deserialisation of the usage object is an interface. *)
From S2P Require Import Prelude Text Sse Json Canonical UpstreamCommon.

Record GeminiUsageWire : Set := mkGeminiUsage {
  prompt_token_count : option Z;
  candidates_token_count : option Z;
  cached_content_token_count : option Z;
  thoughts_token_count : option Z;
  gemini_extensions : json_map
}.

Class GeminiSerde : Type := gemini_from_value : Value -> option GeminiUsageWire.

Record GeminiResponseDecoder : Set := mkGeminiResponse {
  gm_request_id : string;
  gm_limits : UpstreamLimits;
  gm_created : bool;
  gm_completed : bool;
  gm_next_item : Z;
  gm_pending_usage : option Usage;
  gm_saw_terminal : bool
}.

Definition GeminiResponseDecoder_new (request_id : string) (l : UpstreamLimits) : GeminiResponseDecoder :=
  mkGeminiResponse request_id l false false 0 None false.

Definition gm_set_created (d : GeminiResponseDecoder) : GeminiResponseDecoder :=
  mkGeminiResponse (gm_request_id d) (gm_limits d) true (gm_completed d) (gm_next_item d)
    (gm_pending_usage d) (gm_saw_terminal d).
Definition gm_set_completed (d : GeminiResponseDecoder) : GeminiResponseDecoder :=
  mkGeminiResponse (gm_request_id d) (gm_limits d) (gm_created d) true (gm_next_item d)
    (gm_pending_usage d) (gm_saw_terminal d).
Definition gm_bump (d : GeminiResponseDecoder) : GeminiResponseDecoder :=
  mkGeminiResponse (gm_request_id d) (gm_limits d) (gm_created d) (gm_completed d)
    (gm_next_item d + 1) (gm_pending_usage d) (gm_saw_terminal d).
Definition gm_set_usage (u : option Usage) (d : GeminiResponseDecoder) : GeminiResponseDecoder :=
  mkGeminiResponse (gm_request_id d) (gm_limits d) (gm_created d) (gm_completed d)
    (gm_next_item d) u (gm_saw_terminal d).
Definition gm_set_terminal (b : bool) (d : GeminiResponseDecoder) : GeminiResponseDecoder :=
  mkGeminiResponse (gm_request_id d) (gm_limits d) (gm_created d) (gm_completed d)
    (gm_next_item d) (gm_pending_usage d) b.

Abbreviation gemini_op := (st_res GeminiResponseDecoder GatewayError).
Abbreviation event_list := (list CanonicalEvent).

(** [value.get(key).and_then(Value::as_array)] with the bound on its length. *)
Definition items_of (value : Value) (l : UpstreamLimits) : result GatewayError (list Value) :=
  let? values := ok_or (as_array value) invalid_request in
  check? guard_err (ul_max_collection_items l <? zlen values) invalid_request;
  Ok values.

Definition is_thought (part : Value) : bool :=
  match value_get part "thought" with Some (VBool true) => true | _ => false end.

Section Gemini.
Context `{JsonCrate} `{GeminiSerde}.

Definition gemini_usage (value : Value) (l : UpstreamLimits) : result GatewayError Usage :=
  let? wire := ok_or (gemini_from_value value) invalid_request in
  check? guard_err (ul_max_collection_items l <? Z.of_nat (size (gemini_extensions wire))) invalid_request;
  Ok (mkUsage (default 0 (prompt_token_count wire)) (default 0 (candidates_token_count wire))
        (cached_content_token_count wire) (thoughts_token_count wire) (gemini_extensions wire)).

Definition gm_push_text (part : Value) (text : string) (events : event_list) : gemini_op event_list :=
  let! d := st_get in
  do! st_lift (guard_err (ul_max_text_delta_bytes (gm_limits d) <? str_len text) invalid_request);
  let item_id := numbered "gemini_item_" (gm_next_item d) in
  do! st_mod gm_bump;
  st_lift (push_event events
    (if is_thought part then EvReasoningDelta item_id text else EvOutputTextDelta item_id text)
    (gm_limits d)).

Definition gm_push_call (call : Value) (events : event_list) : gemini_op event_list :=
  let! d := st_get in
  let! name := st_lift (ok_or (get_str call "name") invalid_request) in
  do! st_lift (strict_identifier name (ul_max_identifier_bytes (gm_limits d)));
  let call_id := default (numbered "call_gemini_" (gm_next_item d)) (get_str call "id") in
  do! st_lift (strict_identifier call_id (ul_max_identifier_bytes (gm_limits d)));
  let delta := to_string (default (VObject []) (value_get call "args")) in
  do! st_lift (guard_err (ul_max_tool_argument_bytes (gm_limits d) <? str_len delta) invalid_request);
  let item_id := numbered "gemini_tool_" (gm_next_item d) in
  do! st_mod gm_bump;
  st_lift (push_event events (EvToolCallDelta item_id call_id name delta) (gm_limits d)).

Definition decode_part (events : event_list) (part : Value) : gemini_op event_list :=
  let! events :=
    match get_str part "text" with
    | Some text => gm_push_text part text events
    | None => st_ret events
    end in
  match value_get part "functionCall" with
  | Some call => gm_push_call call events
  | None => st_ret events
  end.

(** One candidate: the events and whether a candidate has finished. *)
Definition decode_candidate (acc : event_list * bool) (candidate : Value)
  : gemini_op (event_list * bool) :=
  let '(events, saw_terminal) := acc in
  let! d := st_get in
  let! saw_terminal :=
    match value_get candidate "finishReason" with
    | Some reason =>
        let! reason := st_lift (ok_or (as_str reason) invalid_request) in
        do! st_lift (guard_err (str_is_empty reason) invalid_request);
        st_ret true
    | None => st_ret saw_terminal
    end in
  match value_get candidate "content" ≫= fun content => value_get content "parts" with
  | Some parts =>
      let! parts := st_lift (items_of parts (gm_limits d)) in
      let! events := st_fold decode_part events parts in
      st_ret (events, saw_terminal)
  | None => st_ret (events, saw_terminal)
  end.

Definition gm_ensure_created (root : Value) : gemini_op event_list :=
  let! d := st_get in
  if gm_created d then st_ret []
  else
    let response_id := default ("gemini_" +:+ gm_request_id d) (get_str root "responseId") in
    do! st_lift (strict_identifier response_id (ul_max_identifier_bytes (gm_limits d)));
    let! events := st_lift (push_event [] (EvCreated response_id) (gm_limits d)) in
    do! st_mod gm_set_created;
    st_ret events.

Definition decode_value (value : Value) : gemini_op event_list :=
  let! d := st_get in
  if gm_saw_terminal d then st_err invalid_request
  else
    do! st_lift (guard_err (negb (is_object value)) invalid_request);
    do! st_lift (guard_err (is_someb (value_get value "error"))
                   (upstream_response 502 "gemini upstream error"));
    let! events := gm_ensure_created value in
    do! (match value_get value "usageMetadata" with
         | Some usage =>
             let! u := st_lift (gemini_usage usage (gm_limits d)) in
             st_mod (gm_set_usage (Some u))
         | None => st_ret tt
         end);
    match value_get value "candidates" with
    | Some candidates =>
        let! candidates := st_lift (items_of candidates (gm_limits d)) in
        let! r := st_fold decode_candidate (events, false) candidates in
        do! st_mod (gm_set_terminal r.2);
        st_ret r.1
    | None => st_ret events
    end.

Definition gm_finish : gemini_op event_list :=
  let! d := st_get in
  if gm_completed d then st_ret []
  else
    let! events :=
      if gm_created d then st_ret []
      else
        let! events := st_lift (push_event [] (EvCreated ("gemini_" +:+ gm_request_id d)) (gm_limits d)) in
        do! st_mod gm_set_created;
        st_ret events in
    let usage := gm_pending_usage d in
    do! st_mod (gm_set_usage None);
    let! events :=
      match usage with
      | Some u => st_lift (push_event events (EvUsage u) (gm_limits d))
      | None => st_ret events
      end in
    let! events := st_lift (push_event events EvCompleted (gm_limits d)) in
    do! st_mod gm_set_completed;
    st_ret events.

Definition gemini_decode_response (request_id : string) (body : list Z) (l : UpstreamLimits)
  : result GatewayError event_list :=
  check? guard_err (ul_max_response_body_bytes l <? zlen body) invalid_request;
  let? value := ok_or (from_str body) invalid_request in
  snd ((let! events := decode_value value in
        let! emitted := st_lift (account_stream_events 0 (zlen events) l) in
        let! completed := gm_finish in
        do! st_lift (account_stream_events emitted (zlen completed) l);
        st_ret (events ++ completed)) (GeminiResponseDecoder_new request_id l)).

(** ** The stream decoder *)
Record GeminiStreamDecoder : Set := mkGeminiStream {
  gms_sse : SseDecoder;
  gms_response : GeminiResponseDecoder;
  gms_received_bytes : Z;
  gms_limits : UpstreamLimits;
  gms_failed : bool;
  gms_finished : bool;
  gms_emitted_events : Z
}.

Definition gemini_stream_decoder (request_id : string) (l : UpstreamLimits) : GeminiStreamDecoder :=
  mkGeminiStream (with_limits (ul_max_stream_frame_bytes l) (ul_max_events l))
    (GeminiResponseDecoder_new request_id l) 0 l false false 0.

Definition gms_set_sse (v : SseDecoder) (d : GeminiStreamDecoder) : GeminiStreamDecoder :=
  mkGeminiStream v (gms_response d) (gms_received_bytes d) (gms_limits d) (gms_failed d) (gms_finished d)
    (gms_emitted_events d).
Definition gms_set_response (v : GeminiResponseDecoder) (d : GeminiStreamDecoder) : GeminiStreamDecoder :=
  mkGeminiStream (gms_sse d) v (gms_received_bytes d) (gms_limits d) (gms_failed d) (gms_finished d)
    (gms_emitted_events d).
Definition gms_set_received (v : Z) (d : GeminiStreamDecoder) : GeminiStreamDecoder :=
  mkGeminiStream (gms_sse d) (gms_response d) v (gms_limits d) (gms_failed d) (gms_finished d)
    (gms_emitted_events d).
Definition gms_set_failed (d : GeminiStreamDecoder) : GeminiStreamDecoder :=
  mkGeminiStream (gms_sse d) (gms_response d) (gms_received_bytes d) (gms_limits d) true (gms_finished d)
    (gms_emitted_events d).
Definition gms_set_finished (d : GeminiStreamDecoder) : GeminiStreamDecoder :=
  mkGeminiStream (gms_sse d) (gms_response d) (gms_received_bytes d) (gms_limits d) (gms_failed d) true
    (gms_emitted_events d).
Definition gms_set_emitted (v : Z) (d : GeminiStreamDecoder) : GeminiStreamDecoder :=
  mkGeminiStream (gms_sse d) (gms_response d) (gms_received_bytes d) (gms_limits d) (gms_failed d)
    (gms_finished d) v.

Abbreviation gemini_stream_op := (st_res GeminiStreamDecoder GatewayError).

(** Any error marks the decoder failed. *)
Definition gms_or_fail {A} (r : result GatewayError A) : gemini_stream_op A :=
  match r with
  | Ok a => st_ret a
  | Err e => do! st_mod gms_set_failed; st_err e
  end.

Definition gms_on_response {A} (c : gemini_op A) : gemini_stream_op A :=
  let! d := st_get in
  let '(response, r) := c (gms_response d) in
  do! st_mod (gms_set_response response);
  gms_or_fail r.

Definition gms_on_sse {A} (c : st_res SseDecoder ProtocolError A) : gemini_stream_op A :=
  let! d := st_get in
  let '(sse, r) := c (gms_sse d) in
  do! st_mod (gms_set_sse sse);
  gms_or_fail (map_err (fun _ => invalid_request) r).

Definition gms_account (events : event_list) : gemini_stream_op unit :=
  let! d := st_get in
  let! total := gms_or_fail (account_stream_events (gms_emitted_events d) (zlen events) (gms_limits d)) in
  st_mod (gms_set_emitted total).

Definition gms_frame (events : event_list) (frame : SseFrame) : gemini_stream_op event_list :=
  let! value := gms_or_fail (ok_or (from_str (frame_data frame)) invalid_request) in
  let! decoded := gms_on_response (decode_value value) in
  do! gms_account decoded;
  st_ret (events ++ decoded).

Definition gemini_push (chunk : list Z) : gemini_stream_op event_list :=
  let! d := st_get in
  if gms_failed d || gms_finished d || gm_saw_terminal (gms_response d) then st_err invalid_request
  else
    do! st_mod (gms_set_received (sat_add64 (gms_received_bytes d) (zlen chunk)));
    let! d := st_get in
    do! gms_or_fail (guard_err (ul_max_response_body_bytes (gms_limits d) <? gms_received_bytes d)
                       invalid_request);
    let! frames := gms_on_sse (push chunk) in
    st_fold gms_frame [] frames.

Definition gemini_finish : gemini_stream_op event_list :=
  let! d := st_get in
  if gms_failed d || gms_finished d then st_err invalid_request
  else
    do! gms_on_sse finish;
    let! d := st_get in
    do! gms_or_fail (guard_err (negb (gm_saw_terminal (gms_response d))) invalid_request);
    let! events := gms_on_response gm_finish in
    do! gms_account events;
    do! st_mod gms_set_finished;
    st_ret events.
End Gemini.

(** * Gemini upstreams: what the decoder emits *)

Section Spec.
Context `{HJ : JsonCrate} `{HS : GeminiSerde}.

(** What decoding a part leaves alone. *)
Record gemini_frame (d d' : GeminiResponseDecoder) : Prop := {
  gf_created : gm_created d' = gm_created d;
  gf_completed : gm_completed d' = gm_completed d;
  gf_limits : gm_limits d' = gm_limits d
}.

#[export] Instance gemini_frame_refl : Reflexive gemini_frame.
Proof. by split. Qed.

#[export] Instance gemini_frame_trans : Transitive gemini_frame.
Proof. intros a b c [] []. split; congruence. Qed.

Lemma bump_frame d d' (u : unit) : st_mod (E := GatewayError) gm_bump d = (d', Ok u) -> gemini_frame d d'.
Proof. unfold st_mod. by intros [= <- _]. Qed.

Lemma gemini_part part : appends gemini_frame (fun events => decode_part events part).
Proof.
  unfold decode_part. apply appends_bind.
  - destruct (get_str part "text") as [text|]; [|apply appends_ret].
    unfold gm_push_text. apply appends_get. intros d. apply (appends_lift (guard_err _ _)). intros _.
    apply appends_step; [apply bump_frame|]. apply appends_push. destruct (is_thought part); constructor.
  - destruct (value_get part "functionCall") as [call|]; [|apply appends_ret].
    unfold gm_push_call. apply appends_get. intros d. apply (appends_lift (ok_or _ _)). intros name.
    do 2 (apply (appends_lift (strict_identifier _ _)); intros _).
    apply (appends_lift (guard_err _ _)). intros _.
    apply appends_step; [apply bump_frame|]. apply appends_push. constructor.
Qed.

(** ** Whole objects *)
Definition keeps_opened (sofar : event_list) (d : GeminiResponseDecoder) (d' : GeminiResponseDecoder)
  (events : event_list) : Prop :=
  opened true (sofar ++ events) /\ gm_created d' = true /\ gm_completed d' = gm_completed d /\
  gm_limits d' = gm_limits d.

Lemma gemini_created root sofar d d' events :
  opened (gm_created d) sofar -> gm_ensure_created root d = (d', Ok events) -> keeps_opened sofar d d' events.
Proof.
  intros Ho. unfold gm_ensure_created, st_bind, st_get, st_lift, st_mod, st_ret, keeps_opened.
  destruct (gm_created d) eqn:Hc.
  - intros [= <- <-]. by rewrite app_nil_r.
  - destruct (strict_identifier _ _) as [[]|]; [|done].
    destruct (push_event _ _ _) as [l|] eqn:Hp; [|done]. intros [= <- <-].
    apply push_event_Ok in Hp as [-> _]. cbn in Ho. subst sofar. cbn. split_and!; [|done..].
    eexists _, []. done.
Qed.

Lemma gemini_candidate acc candidate d d' acc' :
  decode_candidate acc candidate d = (d', Ok acc') ->
  gemini_frame d d' /\ exists new, acc'.1 = acc.1 ++ new /\ Forall is_delta new.
Proof.
  destruct acc as [events saw]. unfold decode_candidate. intros (d1 & d2 & H1 & H)%st_bind_Ok.
  unfold st_get in H1. injection H1 as <- <-.
  apply st_bind_Ok in H as (d1 & saw' & H1 & H).
  assert (d1 = d) as ->.
  { destruct (value_get candidate "finishReason"); [|unfold st_ret in H1; by injection H1 as <- _].
    apply st_bind_Ok in H1 as (d2 & ? & H2 & H1). unfold st_lift in H2. injection H2 as <- _.
    apply st_bind_Ok in H1 as (d2 & ? & H2 & H1). unfold st_lift in H2. injection H2 as <- _.
    unfold st_ret in H1. by injection H1 as <- _. }
  destruct (_ ≫= _) as [parts|].
  2:{ unfold st_ret in H. injection H as <- <-. split; [done|]. exists []. by rewrite app_nil_r. }
  apply st_bind_Ok in H as (d1 & l & H2 & H). unfold st_lift in H2. injection H2 as <- _.
  apply st_bind_Ok in H as (d1 & e1 & H2 & H). unfold st_ret in H. injection H as <- <-.
  by apply (appends_fold (fun events part => decode_part events part) l gemini_part) in H2.
Qed.

Lemma gemini_candidates l acc d d' acc' :
  st_fold decode_candidate acc l d = (d', Ok acc') ->
  gemini_frame d d' /\ exists new, acc'.1 = acc.1 ++ new /\ Forall is_delta new.
Proof.
  revert acc d. induction l as [|c l IH]; intros acc d; cbn [st_fold].
  - unfold st_ret. intros [= <- <-]. split; [done|]. exists []. by rewrite app_nil_r.
  - intros (d1 & a1 & H1 & H2)%st_bind_Ok. apply gemini_candidate in H1 as (Hf1 & n1 & Hn1 & Hd1).
    apply IH in H2 as (Hf2 & n2 & Hn2 & Hd2). split; [by etrans|]. exists (n1 ++ n2).
    rewrite Hn2, Hn1, app_assoc. split; [done|]. by apply Forall_app.
Qed.

Lemma decode_value_Ok value sofar d d' events :
  opened (gm_created d) sofar -> decode_value value d = (d', Ok events) -> keeps_opened sofar d d' events.
Proof.
  intros Ho. unfold decode_value. intros (d1 & d2 & H1 & H)%st_bind_Ok.
  unfold st_get in H1. injection H1 as <- <-. destruct (gm_saw_terminal d); [done|].
  do 2 (apply st_bind_Ok in H as (d1 & ? & H1 & H); unfold st_lift in H1; injection H1 as <- _).
  apply st_bind_Ok in H as (d1 & e1 & H1 & H).
  apply (gemini_created _ sofar) in H1 as (Ho1 & Hc1 & Hk1 & Hl1); [|done].
  apply st_bind_Ok in H as (d2 & u & H1 & H).
  assert (gemini_frame d1 d2) as [Hc2 Hk2 Hl2].
  { destruct (value_get value "usageMetadata"); [|unfold st_ret in H1; by injection H1 as <- _].
    apply st_bind_Ok in H1 as (d3 & ? & H2 & H1). unfold st_lift in H2. injection H2 as <- _.
    unfold st_mod in H1. by injection H1 as <-. }
  destruct (value_get value "candidates").
  2:{ unfold st_ret in H. injection H as <- <-. split_and!; [done|congruence..]. }
  apply st_bind_Ok in H as (d3 & l & H2 & H). unfold st_lift in H2. injection H2 as <- _.
  apply st_bind_Ok in H as (d3 & r & H2 & H). apply gemini_candidates in H2 as ([Hc3 Hk3 Hl3] & new & Hr & Hn).
  apply st_bind_Ok in H as (d4 & u4 & H2 & H). unfold st_mod in H2. injection H2 as <- _.
  unfold st_ret in H. injection H as <- <-. cbn [fst] in Hr. rewrite Hr.
  split_and!; cbn; [rewrite app_assoc; by apply opened_app|congruence..].
Qed.

(** ** Streams *)
Record gemini_inv (s : GeminiStreamDecoder) (sofar : event_list) : Prop := {
  gi_opened : opened (gm_created (gms_response s)) sofar;
  gi_completed : gms_finished s = false -> gm_completed (gms_response s) = false;
  gi_emitted : gms_emitted_events s = zlen sofar;
  gi_bound : zlen sofar <= ul_max_events (gms_limits s)
}.

Lemma gms_or_fail_Ok {A} (r : result GatewayError A) s s' a :
  gms_or_fail r s = (s', Ok a) -> s' = s /\ r = Ok a.
Proof. destruct r; cbn; [by intros [= <- <-]|done]. Qed.

Lemma gms_on_response_Ok {A} (c : st_res GeminiResponseDecoder GatewayError A) s s' a :
  gms_on_response c s = (s', Ok a) ->
  exists r, c (gms_response s) = (r, Ok a) /\ s' = gms_set_response r s.
Proof.
  unfold gms_on_response, st_bind, st_get. destruct (c (gms_response s)) as [r res]. unfold st_mod.
  intros [-> ->]%gms_or_fail_Ok. eauto.
Qed.

Lemma gms_on_sse_Ok {A} (c : st_res SseDecoder ProtocolError A) s s' a :
  gms_on_sse c s = (s', Ok a) -> exists v, s' = gms_set_sse v s.
Proof.
  unfold gms_on_sse, st_bind, st_get. destruct (c (gms_sse s)) as [r res]. unfold st_mod.
  intros [-> _]%gms_or_fail_Ok. eauto.
Qed.

Lemma gms_account_events_Ok events s s' u :
  gms_account events s = (s', Ok u) ->
  s' = gms_set_emitted (gms_emitted_events s + zlen events) s /\
  gms_emitted_events s + zlen events <= ul_max_events (gms_limits s).
Proof.
  unfold gms_account. intros (s1 & s2 & H1 & H)%st_bind_Ok. unfold st_get in H1. injection H1 as <- <-.
  apply st_bind_Ok in H as (s1 & total & H1 & H). apply gms_or_fail_Ok in H1 as [-> Ha].
  unfold st_mod in H. injection H as <- _. unfold account_stream_events in Ha.
  apply result_bind_Ok in Ha as (n & Hn & Ha). apply ok_or_Ok in Hn.
  apply checked_add64_Some in Hn as [-> _]. apply check_Ok in Ha as [Hg [= <-]].
  apply guard_err_Ok, Z.ltb_ge in Hg. done.
Qed.

Lemma gemini_one_frame frame sofar events s s' events' :
  gms_finished s = false ->
  gemini_inv s (sofar ++ events) -> gms_frame events frame s = (s', Ok events') ->
  gemini_inv s' (sofar ++ events') /\ gms_finished s' = false /\ gms_limits s' = gms_limits s.
Proof.
  intros Hfin [Ho Hc He Hb]. unfold gms_frame. intros (s1 & v & H1 & H)%st_bind_Ok.
  apply gms_or_fail_Ok in H1 as [-> _].
  apply st_bind_Ok in H as (s1 & decoded & H1 & H). apply gms_on_response_Ok in H1 as (r & Hr & ->).
  apply st_bind_Ok in H as (s1 & u & H1 & H). apply gms_account_events_Ok in H1 as [-> Hle].
  unfold st_ret in H. injection H as <- <-.
  apply (decode_value_Ok _ (sofar ++ events)) in Hr as (Ho' & Hcr & Hk & Hl); [|done].
  cbn in Hle. rewrite app_assoc. split_and!; [|done|done]. split; cbn.
  - by rewrite Hcr.
  - intros _. rewrite Hk. by apply Hc.
  - rewrite He. unfold zlen. rewrite !length_app. lia.
  - unfold zlen in *. rewrite !length_app in *. lia.
Qed.

Lemma gemini_frames_inv frames sofar events s s' events' :
  gms_finished s = false ->
  gemini_inv s (sofar ++ events) -> st_fold gms_frame events frames s = (s', Ok events') ->
  gemini_inv s' (sofar ++ events') /\ gms_finished s' = false /\ gms_limits s' = gms_limits s.
Proof.
  revert events s. induction frames as [|f frames IH]; intros events s Hfin Hi; cbn [st_fold].
  - unfold st_ret. intros [= <- <-]. done.
  - intros (s1 & e1 & H1 & H2)%st_bind_Ok.
    apply (gemini_one_frame _ sofar) in H1 as (Hi1 & Hf1 & Hl1); [|done..].
    apply IH in H2 as (? & ? & ?); [|done..]. by rewrite <- Hl1.
Qed.

Lemma gemini_push_inv chunk sofar s s' events :
  gemini_inv s sofar -> gemini_push chunk s = (s', Ok events) ->
  gemini_inv s' (sofar ++ events) /\ gms_finished s' = false /\ gms_limits s' = gms_limits s.
Proof.
  intros [Ho Hc He Hb]. unfold gemini_push. intros (s1 & s2 & H1 & H)%st_bind_Ok.
  unfold st_get in H1. injection H1 as <- <-.
  destruct (gms_failed s || gms_finished s || gm_saw_terminal (gms_response s)) eqn:Hst; [done|].
  apply orb_false_iff in Hst as [[_ Hfin]%orb_false_iff _].
  apply st_bind_Ok in H as (s1 & u & H1 & H). unfold st_mod in H1. injection H1 as <- _.
  apply st_bind_Ok in H as (s1 & s2 & H1 & H). unfold st_get in H1. injection H1 as <- <-.
  apply st_bind_Ok in H as (s1 & u2 & H1 & H). apply gms_or_fail_Ok in H1 as [-> _].
  apply st_bind_Ok in H as (s1 & frames & H1 & H). apply gms_on_sse_Ok in H1 as [v ->].
  apply (gemini_frames_inv _ sofar) in H as (? & ? & ?); [done|done|].
  rewrite app_nil_r. by split.
Qed.

Lemma gm_finish_Ok sofar d d' events :
  opened (gm_created d) sofar -> gm_completed d = false -> gm_finish d = (d', Ok events) ->
  complete_stream (sofar ++ events).
Proof.
  intros Ho Hc. unfold gm_finish. intros (s1 & s2 & H1 & H)%st_bind_Ok.
  unfold st_get in H1. injection H1 as <- <-. rewrite Hc in H.
  apply st_bind_Ok in H as (d1 & e1 & H1 & H).
  assert (opened true (sofar ++ e1)) as Hop.
  { destruct (gm_created d).
    - unfold st_ret in H1. injection H1 as _ <-. by rewrite app_nil_r.
    - apply st_bind_Ok in H1 as (d2 & e2 & H1 & H2). unfold st_lift in H1. injection H1 as <- Hp.
      apply push_event_Ok in Hp as [-> _]. apply st_bind_Ok in H2 as (d3 & u & _ & H2).
      unfold st_ret in H2. injection H2 as _ <-. cbn in Ho. subst sofar. eexists _, []. done. }
  apply st_bind_Ok in H as (d2 & u & H2 & H). unfold st_mod in H2. injection H2 as <- _.
  apply st_bind_Ok in H as (d2 & e2 & H2 & H).
  apply st_bind_Ok in H as (d3 & e3 & H3 & H). unfold st_lift in H3. injection H3 as <- Hp.
  apply push_event_Ok in Hp as [-> _].
  apply st_bind_Ok in H as (d4 & u2 & _ & H). unfold st_ret in H. injection H as _ <-.
  destruct (gm_pending_usage d) as [us|].
  - unfold st_lift in H2. injection H2 as _ Hp. apply push_event_Ok in Hp as [-> _].
    rewrite <- app_assoc, app_assoc. apply complete_stream_close; [done|eauto].
  - unfold st_ret in H2. injection H2 as _ <-. rewrite app_assoc.
    apply (complete_stream_close _ []); [done|auto].
Qed.

Lemma gemini_finish_inv sofar s s' events :
  gemini_inv s sofar -> gemini_finish s = (s', Ok events) ->
  complete_stream (sofar ++ events) /\ zlen (sofar ++ events) <= ul_max_events (gms_limits s).
Proof.
  intros [Ho Hc He Hb]. unfold gemini_finish. intros (s1 & s2 & H1 & H)%st_bind_Ok.
  unfold st_get in H1. injection H1 as <- <-.
  destruct (gms_failed s || gms_finished s) eqn:Hst; [done|].
  apply orb_false_iff in Hst as [_ Hfin].
  apply st_bind_Ok in H as (s1 & u & H1 & H). apply gms_on_sse_Ok in H1 as [v ->].
  apply st_bind_Ok in H as (s1 & s2 & H1 & H). unfold st_get in H1. injection H1 as <- <-.
  apply st_bind_Ok in H as (s1 & u2 & H1 & H). apply gms_or_fail_Ok in H1 as [-> _].
  apply st_bind_Ok in H as (s1 & ev & H1 & H). apply gms_on_response_Ok in H1 as (r & Hr & ->).
  apply st_bind_Ok in H as (s1 & u3 & H1 & H). apply gms_account_events_Ok in H1 as [-> Hle].
  apply st_bind_Ok in H as (s1 & u4 & _ & H). unfold st_ret in H. injection H as _ <-.
  cbn in Hr, Hle. split; [by eapply gm_finish_Ok; [..|exact Hr]; [|apply Hc]|].
  unfold zlen in *. rewrite length_app. lia.
Qed.

End Spec.
