(* ===== verification/Pump.v ===== *)
(** * From an upstream's answer to the data plane

    Models [apps/wokcore/src/runtime.rs] from the transport's response on
    (decoding a whole answer, pumping a stream into the client's channel, and
    what each failure becomes), and the dispatch to the protocol's decoder in
    [crates/wokcore-protocols/src/upstream/mod.rs].  Receiving is the
    transport's [next_chunk]; what is sent ends in the channel of
    [ClientStream.v]. *)
From S2P Require Import Prelude Text Json Canonical UpstreamCommon.
From S2P Require Import Upstream ChatUpstream GeminiUpstream.
From S2P Require Import NetAddr Config Catalog Routing.
From S2P Require Import Transport DataPlane.

Inductive UpstreamProtocol : Set :=
| ProtoOpenAiResponses | ProtoOpenAiChat | ProtoAnthropic | ProtoGemini | ProtoAzureOpenAi.

Inductive UpstreamOperation : Set := OpText | OpCountTokens.

#[global] Instance UpstreamOperation_eq_dec : EqDecision UpstreamOperation.
Proof. solve_decision. Defined.

Definition protocol_for (adapter : AdapterFamily) : option UpstreamProtocol :=
  match adapter with
  | OpenAiResponses => Some ProtoOpenAiResponses
  | OpenAiChat => Some ProtoOpenAiChat
  | Anthropic => Some ProtoAnthropic
  | Google => Some ProtoGemini
  | AzureOpenAi => Some ProtoAzureOpenAi
  | Cursor | Kiro | MimoFree => None
  end.

(** ** Failures *)
Definition map_transport_error (kind : TransportErrorKind) : UpstreamExecutionFailure :=
  failure_new
    (match kind with
     | ErrCancelled => UpCancelled
     | ErrConnectTimeout | ErrHeaderTimeout | ErrIdleTimeout | ErrTotalTimeout => UpTimeout
     | ErrResponseTooLarge | ErrInvalidResponse => UpMalformedResponse
     | ErrInvalidRequest => UpInvalidRequest
     | ErrPolicy => UpPolicy
     | ErrTransport => UpTransport
     end).

(** The failure kind of an error by its code, and [fallback] for the codes the
    function does not name. *)
Definition by_code (named : list (string * UpstreamFailureKind)) (fallback : UpstreamFailureKind)
  (error : GatewayError) : UpstreamFailureKind :=
  match list_find (fun entry => entry.1 = error_code error) named with
  | Some (_, entry) => entry.2
  | None =>
      match gateway_retry_class error with
      | RefreshCredentials => UpInvalidCredentials
      | AfterDelay => UpRateLimited
      | BeforeFirstEvent => UpTransport
      | RetryNever => fallback
      end
  end.

Definition map_gateway_error (error : GatewayError) : UpstreamExecutionFailure :=
  failure_new (by_code
    [("upstream_auth"%string, UpInvalidCredentials); ("rate_limited"%string, UpRateLimited);
     ("upstream_error"%string, UpServer); ("upstream_unavailable"%string, UpTransport);
     ("invalid_request"%string, UpMalformedResponse); ("unsupported_capability"%string, UpPolicy);
     ("model_not_found"%string, UpPolicy); ("no_executor"%string, UpPolicy)]
    UpMalformedResponse error).

Definition map_request_error (error : GatewayError) : UpstreamExecutionFailure :=
  failure_new (by_code
    [("invalid_request"%string, UpInvalidRequest); ("unsupported_capability"%string, UpPolicy);
     ("model_not_found"%string, UpPolicy); ("no_executor"%string, UpPolicy)]
    UpInvalidRequest error).

(** [str::parse::<u64>]: an optional plus sign, digits, no overflow. *)
Definition digit_of (c : Z) : option Z := if (48 <=? c) && (c <=? 57) then Some (c - 48) else None.

Fixpoint parse_digits (acc : Z) (l : list Z) : option Z :=
  match l with
  | [] => Some acc
  | c :: l =>
      d ← digit_of c;
      let acc := acc * 10 + d in
      if acc <=? u64_max then parse_digits acc l else None
  end.

Definition parse_u64 (l : list Z) : option Z :=
  match l with
  | [] => None
  | 43 :: l => if is_emptyb l then None else parse_digits 0 l
  | _ => parse_digits 0 l
  end.

(** [value.trim()]. *)
Definition trim (s : string) : list Z :=
  reverse (trim_start (reverse (trim_start (str_chars s)))).

Definition upstream_request_id (head : TransportResponseHead) : option string :=
  let names := ["x-request-id"%string; "request-id"%string; "apim-request-id"%string;
                "x-goog-request-id"%string] in
  value ← list.head (omap (TransportResponseHead_header head) names);
  match SafeUpstreamRequestId_new value with Ok id => Some id | Err _ => None end.

Definition with_failure_request_id (f : UpstreamExecutionFailure) (id : option string)
  : UpstreamExecutionFailure :=
  match id with Some id => failure_with_request_id id f | None => f end.

Definition http_failure (head : TransportResponseHead) (request_id : option string)
  : UpstreamExecutionFailure :=
  let status := head_status head in
  let kind :=
    if (status =? 401) || (status =? 403) then UpInvalidCredentials
    else if (status =? 408) || (status =? 504) then UpTimeout
    else if status =? 429 then UpRateLimited
    else if in_5xx status then UpServer
    else UpInvalidRequest in
  let failure := with_status status (failure_new kind) in
  let failure :=
    if status =? 429 then
      match TransportResponseHead_header head "retry-after" ≫= fun value => parse_u64 (trim value) with
      | Some seconds => with_retry_after_ms (sat_mul64 seconds 1000) failure
      | None => failure
      end
    else failure in
  with_failure_request_id failure request_id.

(** ** Decoders *)
(** What every stream decoder offers. *)
Class StreamDecoder (D : Type) : Type := {
  dec_push : list Z -> st_res D GatewayError (list CanonicalEvent);
  dec_finish : st_res D GatewayError (list CanonicalEvent)
}.

Inductive UpstreamStreamDecoder : Set :=
| DecResponses (d : ResponsesStreamDecoder)
| DecOpenAiChat (d : AzureStreamDecoder)
| DecAnthropic (d : AnthropicStreamDecoder)
| DecGemini (d : GeminiStreamDecoder)
| DecAzure (d : AzureStreamDecoder).

(** Runs an operation on the decoder inside. *)
Definition on_inner {D A} (wrap : D -> UpstreamStreamDecoder) (op : st_res D GatewayError A) (d : D)
  : UpstreamStreamDecoder * result GatewayError A :=
  let '(d', r) := op d in (wrap d', r).

Section Pump.
Context `{JsonCrate} `{AzureSerde} `{GeminiSerde} `{EventSerde}.

Definition upstream_push (chunk : list Z)
  : st_res UpstreamStreamDecoder GatewayError (list CanonicalEvent) := fun d =>
  match d with
  | DecResponses d => on_inner DecResponses (rs_push chunk) d
  | DecOpenAiChat d => on_inner DecOpenAiChat (azure_push chunk) d
  | DecAnthropic d => on_inner DecAnthropic (an_push chunk) d
  | DecGemini d => on_inner DecGemini (gemini_push chunk) d
  | DecAzure d => on_inner DecAzure (azure_push chunk) d
  end.

Definition upstream_finish : st_res UpstreamStreamDecoder GatewayError (list CanonicalEvent) := fun d =>
  match d with
  | DecResponses d => on_inner DecResponses rs_finish d
  | DecOpenAiChat d => on_inner DecOpenAiChat azure_finish d
  | DecAnthropic d => on_inner DecAnthropic an_finish d
  | DecGemini d => on_inner DecGemini gemini_finish d
  | DecAzure d => on_inner DecAzure azure_finish d
  end.

#[global] Instance upstream_stream_decoder : StreamDecoder UpstreamStreamDecoder :=
  {| dec_push := upstream_push; dec_finish := upstream_finish |}.

Definition stream_decoder (protocol : UpstreamProtocol) (l : UpstreamLimits) (request_id : string)
  : UpstreamStreamDecoder :=
  match protocol with
  | ProtoOpenAiResponses => DecResponses (ResponsesStreamDecoder_new request_id l)
  | ProtoOpenAiChat => DecOpenAiChat (azure_stream_decoder request_id l)
  | ProtoAnthropic => DecAnthropic (AnthropicStreamDecoder_new request_id l)
  | ProtoGemini => DecGemini (gemini_stream_decoder request_id l)
  | ProtoAzureOpenAi => DecAzure (azure_stream_decoder request_id l)
  end.

Definition decode_response (protocol : UpstreamProtocol) (l : UpstreamLimits) (request_id : string)
  (body : list Z) : result GatewayError (list CanonicalEvent) :=
  check? guard_err (ul_max_response_body_bytes l <? zlen body) invalid_request;
  match protocol with
  | ProtoOpenAiResponses => decode_responses_complete request_id body l
  | ProtoOpenAiChat | ProtoAzureOpenAi => azure_decode_response request_id body l
  | ProtoAnthropic => decode_anthropic_complete request_id body l
  | ProtoGemini => gemini_decode_response request_id body l
  end.

Definition decode_token_count (protocol : UpstreamProtocol) (l : UpstreamLimits) (body : list Z)
  : result GatewayError Z :=
  check? guard_err
    (negb (match protocol with ProtoAnthropic => true | _ => false end)
     || (ul_max_response_body_bytes l <? zlen body)) unsupported_capability;
  let? value := ok_or (from_str body) invalid_request in
  ok_or (value_get value "input_tokens" ≫= as_u64) invalid_request.

(** ** Pumping a stream *)
(** The events sent before the first that does not fit, and whether that is all
    of them. *)
Fixpoint send_events (events : list CanonicalEvent) : list UpstreamStreamItem * bool :=
  match events with
  | [] => ([], true)
  | event :: rest =>
      if stream_event_fits event
      then let '(items, all) := send_events rest in (ItemEvent event :: items, all)
      else ([], false)
  end.

(** [pump_stream] on a sequence of reads: the items it sends while the client
    listens, and whether it has returned, which closes the channel. *)
Fixpoint pump_stream {D} `{StreamDecoder D} (reads : list ReadOutcome)
  (response : StreamingTransportResponse) (d : D) : list UpstreamStreamItem * bool :=
  match reads with
  | [] => ([], false)
  | read :: reads =>
      match next_chunk read response with
      | (response, Ok (Some chunk)) =>
          match dec_push chunk d with
          | (d, Ok events) =>
              let '(sent, all) := send_events events in
              if all
              then let '(more, returned) := pump_stream reads response d in (sent ++ more, returned)
              else (sent, true)
          | (_, Err error) => ([ItemFailure (map_gateway_error error)], true)
          end
      | (_, Ok None) =>
          match dec_finish d with
          | (_, Ok events) => ((send_events events).1, true)
          | (_, Err error) => ([ItemFailure (map_gateway_error error)], true)
          end
      | (_, Err error) => ([ItemFailure (map_transport_error error)], true)
      end
  end.

(** ** What the transport's response becomes *)
Definition is_success (head : TransportResponseHead) : bool :=
  (200 <=? head_status head) && (head_status head <=? 299).

Definition response_with_request_id (id : option string) (r : UpstreamExecutionResponse)
  : UpstreamExecutionResponse :=
  mkUpstreamResponse (ur_output r) (ur_created_at r) (ur_finish_reason r) (ur_stop_sequence r)
    (ur_thinking_signatures r)
    (match id with Some id => Some id | None => ur_upstream_request_id r end).

(** [execute_inner] on a whole response. *)
Definition complete_result (protocol : UpstreamProtocol) (operation : UpstreamOperation)
  (request_id : string) (now : Z) (head : TransportResponseHead) (body : list Z)
  : result UpstreamExecutionFailure UpstreamExecutionResponse :=
  let id := upstream_request_id head in
  check? guard_err (negb (is_success head)) (http_failure head id);
  match operation with
  | OpCountTokens =>
      let? count := map_err map_gateway_error (decode_token_count protocol UpstreamLimits_default body) in
      Ok (response_with_request_id id (response_token_count count))
  | OpText =>
      let? events := map_err map_gateway_error
        (decode_response protocol UpstreamLimits_default request_id body) in
      let? response := map_err (fun _ => failure_new UpMalformedResponse) (response_events events now) in
      Ok (response_with_request_id id response)
  end.

(** [execute_inner] on a streaming response: the decoder the pump starts with. *)
Definition streaming_result (protocol : UpstreamProtocol) (operation : UpstreamOperation)
  (request_id : string) (head : TransportResponseHead)
  : result UpstreamExecutionFailure UpstreamStreamDecoder :=
  let id := upstream_request_id head in
  check? guard_err (negb (is_success head)) (http_failure head id);
  check? guard_err (bool_decide (operation <> OpText)) (failure_new UpMalformedResponse);
  Ok (stream_decoder protocol UpstreamLimits_default request_id).
End Pump.
