(* ===== verification/UpstreamSpec.v ===== *)
(** * Responses and Messages upstreams: what their decoders emit

    Whole answers become one complete list of events that the data plane
    accepts; streams become events of which the part up to the first completion
    is complete. *)
From S2P Require Import Prelude Text Sse Json Canonical UpstreamCommon Upstream DataPlane.
From S2P Require Import ChatUpstream GeminiUpstream Pump.

(** ** Whole answers *)
Section Complete.
Context `{JsonCrate}.

(** A fold whose steps append at most deltas. *)
Definition adds_deltas {A} (f : event_list -> A -> result GatewayError event_list) : Prop :=
  forall events a events', f events a = Ok events' ->
    exists new, events' = events ++ new /\ Forall is_delta new.

Lemma adds_fold {A} (f : event_list -> A -> result GatewayError event_list) l events events' :
  adds_deltas f -> try_fold f events l = Ok events' ->
  exists new, events' = events ++ new /\ Forall is_delta new.
Proof.
  intros Hf. revert events. induction l as [|a l IH]; intros events; cbn [try_fold].
  - intros [= <-]. exists []. by rewrite app_nil_r.
  - intros (e1 & H1 & H2)%result_bind_Ok. apply Hf in H1 as (n1 & -> & Hn1).
    apply IH in H2 as (n2 & -> & Hn2). exists (n1 ++ n2). rewrite app_assoc. split; [done|].
    by apply Forall_app.
Qed.

Lemma adds_one events events' :
  (exists e, is_delta e /\ events' = events ++ [e]) -> exists new, events' = events ++ new /\ Forall is_delta new.
Proof. intros (e & He & ->). exists [e]. split; [done|]. by apply list.Forall_singleton. Qed.

Lemma adds_nothing events events' :
  (Ok events : result GatewayError event_list) = Ok events' ->
  exists new, events' = events ++ new /\ Forall is_delta new.
Proof. intros [= <-]. exists []. by rewrite app_nil_r. Qed.

Lemma adds_message_part item_id l : adds_deltas (push_message_part item_id l).
Proof.
  intros events part events'. unfold push_message_part.
  destruct (get_str part "text"); [destruct (is_output_text part)|]; try apply adds_nothing.
  intros ?%push_text_Ok. by apply adds_one.
Qed.

Lemma adds_summary_part item_id l : adds_deltas (push_summary_part item_id l).
Proof.
  intros events part events'. unfold push_summary_part.
  destruct (get_str part "text"); [|apply adds_nothing]. intros ?%push_text_Ok. by apply adds_one.
Qed.

Lemma adds_output l : adds_deltas (decode_responses_output l).
Proof.
  intros events [index item] events'. unfold decode_responses_output.
  intros (kind & _ & Hr)%result_bind_Ok. apply check_Ok in Hr as [_ Hr].
  destruct (bool_decide _).
  { apply result_bind_Ok in Hr as (content & _ & Hr). by eapply adds_fold, Hr; apply adds_message_part. }
  destruct (bool_decide _).
  { destruct (_ ≫= _); [|by apply adds_nothing]. by eapply adds_fold, Hr; apply adds_summary_part. }
  destruct (bool_decide _); [|by apply adds_nothing].
  do 3 apply result_bind_Ok in Hr as (? & _ & Hr). apply push_tool_Ok in Hr. by apply adds_one.
Qed.

Lemma adds_block l : adds_deltas (push_anthropic_block l).
Proof.
  intros events [index block] events'. unfold push_anthropic_block.
  destruct (get_str block "type") as [kind|]; [|apply adds_nothing].
  repeat destruct (bool_decide _); [| | |apply adds_nothing]; intros (? & _ & Hr)%result_bind_Ok;
    apply adds_one; [by eapply push_text_Ok..|].
  apply result_bind_Ok in Hr as (? & _ & Hr). by eapply push_tool_Ok.
Qed.

(** A complete list of events with its usage, within the limit. *)
Definition complete_answer (l : UpstreamLimits) (events : event_list) : Prop :=
  (exists id deltas usage, events = EvCreated id :: deltas ++ [EvUsage usage; EvCompleted] /\
     Forall is_delta deltas) /\ zlen events <= ul_max_events l.

Lemma close_answer l id events usage events' :
  (exists new, events = [EvCreated id] ++ new /\ Forall is_delta new) ->
  (let? events := push_event events (EvUsage usage) l in push_event events EvCompleted l) = Ok events' ->
  complete_answer l events'.
Proof.
  intros (new & -> & Hn) (e1 & H1 & H2)%result_bind_Ok.
  apply push_event_Ok in H1 as [-> _]. apply push_event_Ok in H2 as [-> Hlen].
  split; [exists id, new, usage; split; [by rewrite <-!app_assoc|done]|].
  unfold zlen in *. rewrite !length_app in *. cbn [length] in *. lia.
Qed.

Lemma responses_complete_answer request_id body l events :
  decode_responses_complete request_id body l = Ok events -> complete_answer l events.
Proof.
  unfold decode_responses_complete. intros (root & _ & Hr)%result_bind_Ok.
  do 2 apply check_Ok in Hr as [_ Hr]. apply result_bind_Ok in Hr as (output & _ & Hr).
  apply check_Ok in Hr as [_ Hr]. apply result_bind_Ok in Hr as (e1 & Hf & Hr).
  apply result_bind_Ok in Hr as (usage & _ & Hr). apply (adds_fold _ _ _ _ (adds_output l)) in Hf.
  by eapply close_answer.
Qed.

Lemma anthropic_complete_answer request_id body l events :
  decode_anthropic_complete request_id body l = Ok events -> complete_answer l events.
Proof.
  unfold decode_anthropic_complete. intros (root & _ & Hr)%result_bind_Ok.
  do 2 apply check_Ok in Hr as [_ Hr]. apply result_bind_Ok in Hr as (output & _ & Hr).
  apply check_Ok in Hr as [_ Hr]. apply result_bind_Ok in Hr as (e1 & Hf & Hr).
  apply result_bind_Ok in Hr as (usage & _ & Hr). apply (adds_fold _ _ _ _ (adds_block l)) in Hf.
  by eapply close_answer.
Qed.
End Complete.

(** ** The data plane's check of a whole answer *)
Lemma deltas_none (p : CanonicalEvent -> bool) deltas :
  (forall e, is_delta e -> p e = false) -> Forall is_delta deltas -> List.filter p deltas = [].
Proof. intros Hp. induction 1 as [|e l He Hl IH]; [done|]. cbn. by rewrite Hp, IH. Qed.

Lemma count_complete (p : CanonicalEvent -> bool) id deltas usage :
  (forall e, is_delta e -> p e = false) -> Forall is_delta deltas ->
  count_events p (EvCreated id :: deltas ++ [EvUsage usage; EvCompleted]) =
  count_events p [EvCreated id; EvUsage usage; EvCompleted].
Proof.
  intros Hp Hd. unfold count_events. cbn [List.filter].
  rewrite List.filter_app, (deltas_none p deltas Hp Hd). cbn [app List.filter].
  by destruct (p (EvCreated id)).
Qed.

Lemma complete_answer_accepted `{EventSerdeLaws} l events created_at :
  ul_max_events l <= MAX_UPSTREAM_EVENTS -> complete_answer l events ->
  response_events events created_at =
  if total (events_writes events) <=? JSON_BODY_LIMIT
  then Ok (mkUpstreamResponse (OutEvents events) created_at ReasonStop None ∅ None)
  else Err mkInvalidUpstreamExecutionResponse.
Proof.
  intros Hmax [(id & deltas & usage & -> & Hd) Hlen]. unfold response_events.
  set (events := EvCreated id :: _) in *.
  assert (Hlast : list.last events = Some EvCompleted).
  { unfold events. apply (last_app_Some [EvCreated id]). left. apply last_app_Some. by left. }
  assert (Hfailed : existsb is_failed events = false).
  { apply not_true_is_false. intros (e & He & Hf)%existsb_exists. destruct e; try done.
    unfold events in He. destruct He as [[=]|He]. apply in_app_or in He as [He|[[=]|[[=]|[]]]].
    apply list_elem_of_In, (proj1 (list.Forall_forall _ _) Hd) in He. inversion He. }
  assert (Hfits : json_fits (events_writes events) JSON_BODY_LIMIT =
                  (total (events_writes events) <=? JSON_BODY_LIMIT)).
  { apply json_fits_spec; [apply events_writes_nonneg|unfold JSON_BODY_LIMIT, u64_max; lia]. }
  rewrite Hlast, Hfailed, Hfits.
  unfold events at 1 2 3 4 5. rewrite !count_complete by (done || by destruct 1).
  rewrite (proj2 (Z.ltb_ge _ _)) by (unfold events in *; lia). cbn.
  by destruct (total (events_writes events) <=? JSON_BODY_LIMIT).
Qed.

(** ** Streams *)
(** What one upstream frame may emit, by whether the stream is created and
    whether it is completed. *)
Inductive emits : bool * bool -> event_list -> bool * bool -> Prop :=
| emits_none f : emits f [] f
| emits_created b id : emits (false, b) [EvCreated id] (true, b)
| emits_delta b e : is_delta e -> emits (true, b) [e] (true, b)
| emits_done b u : emits (true, b) [EvUsage u; EvCompleted] (true, true).

(** What may still follow the completion in the chunk that carries it: a decoder
    that looks for the completion only between chunks goes on with deltas and
    further completions. *)
Inductive late : event_list -> Prop :=
| late_none : late []
| late_delta e more : is_delta e -> late more -> late (e :: more)
| late_done u more : late more -> late (EvUsage u :: EvCompleted :: more).

Lemma late_app more new : late more -> late new -> late (more ++ new).
Proof. intros Hm Hn. induction Hm; cbn; by try constructor. Qed.

(** Nothing before the created event, one of it, deltas, and with completion a
    complete answer and what is late. *)
Definition stream_shape (f : bool * bool) (E : event_list) : Prop :=
  (f.2 = true -> f.1 = true) /\
  if f.2 then exists id deltas usage more,
      E = (EvCreated id :: deltas ++ [EvUsage usage; EvCompleted]) ++ more /\ Forall is_delta deltas /\ late more
  else opened f.1 E.

Lemma shape_late b E new : stream_shape (b, true) E -> late new -> stream_shape (b, true) (E ++ new).
Proof.
  intros [Hi (id & ds & us & more & -> & Hds & Hm)] Hn. split; [done|].
  exists id, ds, us, (more ++ new). rewrite <-app_assoc. split; [done|]. split; [done|by apply late_app].
Qed.

Lemma shape_emits f f' E new : stream_shape f E -> emits f new f' -> stream_shape f' (E ++ new).
Proof.
  intros Hs He. destruct He as [f|b id|b e Hd|b u].
  - by rewrite app_nil_r.
  - destruct Hs as [Hi Hs]. destruct b; [by discriminate Hi|]. cbn in Hs. subst E. split; [done|]. by exists id, [].
  - destruct b; [by apply shape_late; [|repeat constructor]|].
    split; [done|]. apply opened_app; [apply Hs|by apply list.Forall_singleton].
  - destruct b; [by apply shape_late; [|repeat constructor]|].
    destruct Hs as [_ (id & ds & -> & Hds)]. split; [done|]. exists id, ds, u, [].
    rewrite app_nil_r. by split_and!; [| |constructor].
Qed.

Section Frames.
Context `{JsonCrate} {D : Type} (flags : D -> bool * bool) (keeps : D -> D -> Prop).
Context `{!Reflexive keeps} `{!Transitive keeps}.

Definition emitting (decode : Value -> event_list -> st_res D GatewayError event_list) : Prop :=
  forall value events d d' events', decode value events d = (d', Ok events') ->
    keeps d d' /\ exists new, events' = events ++ new /\ emits (flags d) new (flags d').

Lemma decode_frames_shape decode frames E d d' events :
  emitting decode -> stream_shape (flags d) E -> decode_frames decode frames d = (d', Ok events) ->
  keeps d d' /\ stream_shape (flags d') (E ++ events).
Proof using Type*.
  intros Hdec. unfold decode_frames. rewrite <-(app_nil_r E) at 1. generalize (@nil CanonicalEvent) as acc.
  revert d. induction frames as [|frame frames IH]; intros d acc Hs; cbn [st_fold].
  - intros [= <- <-]. by split.
  - intros (d1 & e1 & Hone & Hrest)%st_bind_Ok.
    apply st_bind_Ok in Hone as (d0 & value & Hv & Hone). unfold st_lift in Hv. injection Hv as <- _.
    apply Hdec in Hone as (Hk & new & -> & He). apply IH in Hrest as [Hk' Hs'].
    + split; [by etrans|done].
    + rewrite app_assoc. by eapply shape_emits.
Qed.
End Frames.

Section Decoders.
Context `{JsonCrate}.

(** Each handler lets its checks pass and then emits. *)
Ltac handler :=
  repeat match goal with
  | H : st_bind (st_lift _) _ _ = (_, Ok _) |- _ =>
      let d := fresh "d" in let a := fresh "a" in let H1 := fresh "Hl" in
      apply st_bind_Ok in H as (d & a & H1 & H); unfold st_lift in H1; injection H1 as <- H1
  | H : st_bind st_get _ _ = (_, Ok _) |- _ =>
      let d := fresh "d" in let a := fresh "a" in let H1 := fresh "Hg" in
      apply st_bind_Ok in H as (d & a & H1 & H); unfold st_get in H1; injection H1 as <- <-
  | H : st_bind (st_mod _) _ _ = (_, Ok _) |- _ =>
      let d := fresh "d" in let a := fresh "a" in let H1 := fresh "Hm" in
      apply st_bind_Ok in H as (d & a & H1 & H); unfold st_mod in H1; injection H1 as <- <-
  | H : st_ret _ _ = (_, Ok _) |- _ =>
      unfold st_ret in H; first [injection H as <- <- | injection H as <-]
  | H : st_err _ _ = (_, Ok _) |- _ => discriminate H
  end.

Definition rs_flags (d : ResponsesStreamDecoder) : bool * bool := (rs_created d, rs_completed d).
Definition rs_keeps (d d' : ResponsesStreamDecoder) : Prop :=
  rs_limits d' = rs_limits d /\ rs_emitted_events d' = rs_emitted_events d.

#[local] Instance rs_keeps_refl : Reflexive rs_keeps.
Proof. done. Qed.
#[local] Instance rs_keeps_trans : Transitive rs_keeps.
Proof. intros d1 d2 d3 [? ?] [? ?]. split; congruence. Qed.

Lemma rs_created_first {B} (k : unit -> st_res ResponsesStreamDecoder GatewayError B) d d' b :
  st_bind rs_require_created k d = (d', Ok b) -> rs_created d = true /\ k tt d = (d', Ok b).
Proof.
  intros (d1 & [] & H1 & H2)%st_bind_Ok. unfold rs_require_created in H1. handler.
  unfold st_lift in H1. injection H1 as <- H1. apply guard_err_Ok, negb_false_iff in H1. done.
Qed.

Lemma pushed_emits events events' b :
  (exists e, is_delta e /\ events' = events ++ [e]) ->
  exists new, events' = events ++ new /\ emits (true, b) new (true, b).
Proof. intros (e & He & ->). exists [e]. split; [done|]. by constructor. Qed.

Lemma nothing_emits (events : event_list) f : exists new, events = events ++ new /\ emits f new f.
Proof. exists []. rewrite app_nil_r. split; [done|constructor]. Qed.

Lemma rs_on_text_emits reasoning value events d d' events' :
  rs_on_text reasoning value events d = (d', Ok events') ->
  rs_keeps d d' /\ exists new, events' = events ++ new /\ emits (rs_flags d) new (rs_flags d').
Proof.
  unfold rs_on_text. intros Hr. handler. apply rs_created_first in Hr as [Hc Hr]. handler.
  unfold st_lift in Hr. injection Hr as <- Hr. split; [done|]. unfold rs_flags. rewrite Hc.
  apply pushed_emits. by eapply push_text_Ok.
Qed.

Lemma rs_emitting : emitting rs_flags rs_keeps rs_decode_event.
Proof.
  intros value events d d' events' Hr. unfold rs_decode_event in Hr. handler.
  destruct (kind_is _ _).
  { unfold rs_on_created in Hr. handler. destruct (rs_created d) eqn:Hc; handler; [].
    split; [done|]. eexists. split; [done|]. unfold rs_flags. rewrite Hc. constructor. }
  destruct (kind_is _ _).
  { unfold rs_on_item_added in Hr. destruct (value_get value "item") as [item|]; [|handler; by split; [|apply nothing_emits]].
    destruct (bool_decide _); handler; (split; [done|]; apply nothing_emits). }
  destruct (kind_is _ _).
  { by apply (rs_on_text_emits _ _ _ _ _ _ Hr). }
  destruct (_ || _).
  { by apply (rs_on_text_emits _ _ _ _ _ _ Hr). }
  destruct (kind_is _ _).
  { unfold rs_on_arguments in Hr. handler. apply rs_created_first in Hr as [Hc Hr]. handler.
    unfold st_lift in Hr. injection Hr as <- Hr. split; [done|]. unfold rs_flags. rewrite Hc.
    apply pushed_emits. by eapply push_tool_Ok. }
  destruct (kind_is _ _).
  { unfold rs_on_completed in Hr. handler. apply rs_created_first in Hr as [Hc Hr]. handler.
    split; [done|]. eexists. split; [done|]. unfold rs_flags. cbn. rewrite Hc. constructor. }
  destruct (_ || _); handler; []. split; [done|]. apply nothing_emits.
Qed.

Definition an_flags (d : AnthropicStreamDecoder) : bool * bool := (an_created d, an_completed d).
Definition an_keeps (d d' : AnthropicStreamDecoder) : Prop :=
  an_limits d' = an_limits d /\ an_emitted_events d' = an_emitted_events d.

#[local] Instance an_keeps_refl : Reflexive an_keeps.
Proof. done. Qed.
#[local] Instance an_keeps_trans : Transitive an_keeps.
Proof. intros d1 d2 d3 [? ?] [? ?]. split; congruence. Qed.

Lemma an_created_first {B} (k : unit -> st_res AnthropicStreamDecoder GatewayError B) d d' b :
  st_bind an_require_created k d = (d', Ok b) -> an_created d = true /\ k tt d = (d', Ok b).
Proof.
  intros (d1 & [] & H1 & H2)%st_bind_Ok. unfold an_require_created in H1. handler.
  unfold st_lift in H1. injection H1 as <- H1. apply guard_err_Ok, negb_false_iff in H1. done.
Qed.

Abbreviation an_emits d d' events events' :=
  (an_keeps d d' /\ exists new, events' = events ++ new /\ emits (an_flags d) new (an_flags d')).

Lemma an_on_start_emits value events d d' events' :
  an_on_start value events d = (d', Ok events') -> an_emits d d' events events'.
Proof.
  unfold an_on_start. intros Hr. handler. destruct (an_created d) eqn:Hc; [handler|]. handler.
  apply st_bind_Ok in Hr as (d1 & [] & Hu & Hr). handler.
  assert (an_keeps d d1 /\ an_completed d1 = an_completed d) as [Hk Hd].
  { destruct (value_get _ "usage"); handler; [unfold st_mod in Hu; injection Hu as <-|]; repeat split. }
  split; [exact Hk|]. eexists. split; [done|]. unfold an_flags. cbn. rewrite Hc, Hd. constructor.
Qed.

Lemma an_on_block_emits value events d d' events' :
  an_on_block_start value events d = (d', Ok events') -> an_emits d d' events events'.
Proof.
  unfold an_on_block_start. intros Hr. handler. apply an_created_first in Hr as [Hc Hr]. handler.
  apply st_bind_Ok in Hr as (d1 & block & Hb & Hr).
  assert (d1 = d) as ->.
  { repeat destruct (kind_is _ _); handler; done. }
  destruct block as [block|]; handler; (split; [done|]; apply nothing_emits).
Qed.

Lemma an_on_delta_emits value events d d' events' :
  an_on_delta value events d = (d', Ok events') -> an_emits d d' events events'.
Proof.
  unfold an_on_delta. intros Hr. handler. apply an_created_first in Hr as [Hc Hr]. handler.
  destruct a1; destruct (kind_is _ _); handler;
    unfold st_lift in Hr; injection Hr as <- Hr; (split; [done|]); unfold an_flags; rewrite Hc;
    apply pushed_emits; [by eapply push_text_Ok..|by eapply push_tool_Ok].
Qed.

Lemma an_emitting : emitting an_flags an_keeps an_decode_event.
Proof.
  intros value events d d' events' Hr. unfold an_decode_event in Hr. handler.
  destruct (kind_is _ _); [by apply (an_on_start_emits _ _ _ _ _ Hr)|].
  destruct (kind_is _ _); [by apply (an_on_block_emits _ _ _ _ _ Hr)|].
  destruct (kind_is _ _); [by apply (an_on_delta_emits _ _ _ _ _ Hr)|].
  destruct (kind_is _ _).
  { unfold an_on_message_delta in Hr. apply an_created_first in Hr as [Hc Hr].
    destruct (value_get value "usage"); handler; (split; [done|]; apply nothing_emits). }
  destruct (kind_is _ _).
  { unfold an_on_stop in Hr. handler. apply an_created_first in Hr as [Hc Hr]. handler.
    split; [done|]. eexists. split; [done|]. unfold an_flags. cbn. rewrite Hc. constructor. }
  destruct (kind_is _ _); handler; []. split; [done|]. apply nothing_emits.
Qed.

(** ** Pushes *)
(** What a decoder has emitted, and that it has counted it. *)
Record decoded (l : UpstreamLimits) (flags : bool * bool) (emitted : Z) (E : event_list) : Prop := {
  decoded_shape : stream_shape flags E;
  decoded_count : emitted = zlen E;
  decoded_bound : zlen E <= ul_max_events l
}.

Lemma decoded_push l flags flags' E events :
  ul_max_events l < u64_max -> decoded l flags (zlen E) E -> stream_shape flags' (E ++ events) ->
  sat_add64 (zlen E) (zlen events) <= ul_max_events l ->
  decoded l flags' (sat_add64 (zlen E) (zlen events)) (E ++ events).
Proof.
  intros Hmax [_ _ Hb] Hs Hle. assert (zlen (E ++ events) = zlen E + zlen events) as Hlen.
  { unfold zlen. rewrite length_app. lia. }
  unfold sat_add64 in *. split; [done|lia|lia].
Qed.

Lemma rs_push_decoded l chunk d d' E events :
  ul_max_events l < u64_max -> rs_limits d = l -> decoded l (rs_flags d) (rs_emitted_events d) E ->
  rs_push chunk d = (d', Ok events) ->
  rs_limits d' = l /\ decoded l (rs_flags d') (rs_emitted_events d') (E ++ events).
Proof.
  intros Hmax <- Hd Hr. unfold rs_push in Hr. handler. destruct (rs_completed d); [handler|]. handler.
  apply st_bind_Ok in Hr as (d1 & frames & Hsse & Hr).
  destruct (push chunk _) as [sse r]. injection Hsse as <- _.
  apply st_bind_Ok in Hr as (d2 & evs & Hframes & Hr). handler.
  eapply (decode_frames_shape rs_flags rs_keeps _ _ E) in Hframes as [[Hlim He] Hs];
    [|apply rs_emitting|exact (decoded_shape _ _ _ _ Hd)]. cbn in Hlim, He.
  rewrite (decoded_count _ _ _ _ Hd) in He.
  apply guard_err_Ok, Z.ltb_ge in Hl0. cbn in Hl0. rewrite He, Hlim in Hl0.
  split; [done|]. cbn. rewrite He. apply (decoded_push _ (rs_flags d)); [done| |done|done].
  rewrite <-(decoded_count _ _ _ _ Hd). exact Hd.
Qed.
Lemma an_push_decoded l chunk d d' E events :
  ul_max_events l < u64_max -> an_limits d = l -> decoded l (an_flags d) (an_emitted_events d) E ->
  an_push chunk d = (d', Ok events) ->
  an_limits d' = l /\ decoded l (an_flags d') (an_emitted_events d') (E ++ events).
Proof.
  intros Hmax <- Hd Hr. unfold an_push in Hr. handler. destruct (an_completed d); [handler|]. handler.
  apply st_bind_Ok in Hr as (d1 & frames & Hsse & Hr).
  destruct (push chunk _) as [sse r]. injection Hsse as <- _.
  apply st_bind_Ok in Hr as (d2 & evs & Hframes & Hr). handler.
  eapply (decode_frames_shape an_flags an_keeps _ _ E) in Hframes as [[Hlim He] Hs];
    [|apply an_emitting|exact (decoded_shape _ _ _ _ Hd)]. cbn in Hlim, He.
  rewrite (decoded_count _ _ _ _ Hd) in He.
  apply guard_err_Ok, Z.ltb_ge in Hl0. cbn in Hl0. rewrite He, Hlim in Hl0.
  split; [done|]. cbn. rewrite He. apply (decoded_push _ (an_flags d)); [done| |done|done].
  rewrite <-(decoded_count _ _ _ _ Hd). exact Hd.
Qed.
End Decoders.
