(* ===== verification/PumpSpec.v ===== *)
(** * From an upstream's answer to the data plane: what arrives

    [DecoderContract] is what the pump relies on: what a decoder has emitted is
    the beginning of a well-formed stream, and a decoder that accepts the end of
    the input has emitted a whole one.  Every protocol's decoder keeps it. *)
From S2P Require Import Prelude Sse Json Canonical UpstreamCommon.
From S2P Require Import Upstream UpstreamSpec ChatUpstream GeminiUpstream.
From S2P Require Import Transport DataPlane Pump.








Section Contracts.
Context `{HJ : JsonCrate} `{HA : AzureSerde} `{HG : GeminiSerde}.







End Contracts.

(** ** The pump *)
Section Pump.
Context `{HE : EventSerde} {D : Type} `{HD : DecoderContract D}.





End Pump.

(** ** The theorems *)
Section Theorems.
Context `{HJ : JsonCrate} `{HA : AzureSerde} `{HG : GeminiSerde} `{HE : EventSerde}.


(** A whole answer of a Responses or Messages upstream that decodes is accepted by the data
    plane exactly when it fits the response limit: its events are one created event, deltas, one
    usage and the completion, which is what the check of the answer demands. *)
Theorem whole_answers_accepted `{!EventSerdeLaws} (protocol : UpstreamProtocol) (request_id : string)
  (body : list Z) (now : Z) (events : list CanonicalEvent) :
  protocol = ProtoOpenAiResponses \/ protocol = ProtoAnthropic ->
  decode_response protocol UpstreamLimits_default request_id body = Ok events ->
  (exists id deltas usage, events = EvCreated id :: deltas ++ [EvUsage usage; EvCompleted] /\
     Forall is_delta deltas) /\
  response_events events now =
  if total (events_writes events) <=? JSON_BODY_LIMIT
  then Ok (mkUpstreamResponse (OutEvents events) now ReasonStop None ∅ None)
  else Err mkInvalidUpstreamExecutionResponse.
Proof.
  intros Hp Hd. unfold decode_response in Hd. apply check_Ok in Hd as [_ Hd].
  assert (complete_answer UpstreamLimits_default events) as Hc.
  { destruct Hp as [-> | ->]; [by eapply responses_complete_answer|by eapply anthropic_complete_answer]. }
  split; [apply Hc|]. apply (complete_answer_accepted UpstreamLimits_default); [by vm_compute|done].
Qed.
End Theorems.

(** ** Witnesses *)
(** Bytes that stand for three JSON texts. *)
#[local] Instance demo_json : JsonCrate := {|
  to_string _ := ""%string;
  from_str l :=
    if bool_decide (l = str_bytes "a")
    then Some (json_object [("id"%string, VString "r");
           ("choices"%string, VArray [json_object [("delta"%string, json_object
             [("content"%string, VString "hi")])]])])
    else if bool_decide (l = str_bytes "u")
    then Some (json_object [("choices"%string, VArray []);
           ("usage"%string, json_object [("prompt_tokens"%string, json_uint 3);
                                         ("completion_tokens"%string, json_uint 2)])])
    else if bool_decide (l = str_bytes "r")
    then Some (json_object [("id"%string, VString "r");
           ("output"%string, VArray [json_object [("type"%string, VString "message");
             ("content"%string, VArray [json_object [("type"%string, VString "output_text");
                                                     ("text"%string, VString "hi")]])]])])
    else None
|}.

#[local] Instance demo_azure : AzureSerde := {|
  from_value v := match v with
                  | VObject _ => Some (mkAzureUsage (value_get v "prompt_tokens" ≫= as_u64)
                                         (value_get v "completion_tokens" ≫= as_u64) None None ∅)
                  | _ => None end
|}.

#[local] Instance demo_gemini : GeminiSerde := fun _ => None.

#[local] Instance demo_events : EventSerde :=
  {| event_writes _ := [1]; events_writes l := [1; zlen l]; request_writes _ := [1] |}.

#[local] Instance demo_events_laws : EventSerdeLaws.
Proof. split; intros; repeat constructor; try done; unfold zlen; lia. Qed.


Definition demo_response : StreamingTransportResponse :=
  mkStreaming (mkHead 200 ∅) true 0 (16 * 1024 * 1024).



Definition demo_answer : list CanonicalEvent :=
  [EvCreated "r"; EvOutputTextDelta "responses_item_0" "hi"; EvUsage empty_usage; EvCompleted].

Lemma whole_answers_accepted_witness :
  decode_response ProtoOpenAiResponses UpstreamLimits_default "req" (str_bytes "r") = Ok demo_answer /\
  response_events demo_answer 7 = Ok (mkUpstreamResponse (OutEvents demo_answer) 7 ReasonStop None ∅ None).
Proof.
  assert (Hd : decode_response ProtoOpenAiResponses UpstreamLimits_default "req" (str_bytes "r")
               = Ok demo_answer) by (vm_compute; reflexivity).
  split; [exact Hd|].
  destruct (whole_answers_accepted ProtoOpenAiResponses "req" (str_bytes "r") 7 demo_answer
              (or_introl eq_refl) Hd) as [_ Hr].
  etransitivity; [exact Hr|reflexivity].
Defined.

(** A Responses upstream that sends a delta and a second completion after its
    completion. *)
Definition late_json : JsonCrate := {|
  to_string _ := ""%string;
  from_str l :=
    if bool_decide (l = str_bytes "c")
    then Some (json_object [("type"%string, VString "response.created");
           ("response"%string, json_object [("id"%string, VString "r")])])
    else if bool_decide (l = str_bytes "d")
    then Some (json_object [("type"%string, VString "response.output_text.delta");
           ("item_id"%string, VString "i"); ("delta"%string, VString "hi")])
    else Some (json_object [("type"%string, VString "response.completed")])
|}.

Definition frame_of (s : string) : list Z := str_bytes ("data: " +:+ s) ++ [10; 10].

Definition late_reads (cut : bool) : list ReadOutcome :=
  (if cut then [ReadChunk (frame_of "c" ++ frame_of "e"); ReadChunk (frame_of "d" ++ frame_of "e")]
   else [ReadChunk (frame_of "c" ++ frame_of "e" ++ frame_of "d" ++ frame_of "e")]) ++ [ReadEnd].

(** The same bytes pass or fail by where the chunks end: a delta and a second
    completion are forwarded when they share the completion's chunk, and are the
    upstream's failure when they come in the next. *)
Lemma late_events_forwarded :
  let pump cut := pump_stream (H3 := @upstream_stream_decoder late_json demo_azure demo_gemini)
                    (late_reads cut) demo_response
                    (stream_decoder ProtoOpenAiResponses UpstreamLimits_default "req") in
  (pump false).1 = ItemEvent <$> [EvCreated "r"; EvUsage empty_usage; EvCompleted;
                                  EvOutputTextDelta "i" "hi"; EvUsage empty_usage; EvCompleted] /\
  exists failure, (pump true).1 = (ItemEvent <$> [EvCreated "r"; EvUsage empty_usage; EvCompleted])
                                  ++ [ItemFailure failure].
Proof. split; [vm_compute; reflexivity|]. eexists. vm_compute. reflexivity. Qed.
