(* ===== verification/Dispatch.v ===== *)
(** * Executing a client's request

    Models the control flow of
    [crates/wokcore-server/src/data_plane/execute.rs]: one attempt at the
    upstream ([RequestAttempt::execute]) and the whole of [execute_canonical],
    which routes the request, maps the reasoning effort, and runs the engine's
    coordinator once per kind of authentication until one takes the request.

    The upstream executor is an interface; what it returns is what the runtime
    of [Pump.v] produces. *)
From S2P Require Import Prelude Json NetAddr Config Catalog.
From S2P Require Import Routing Snapshot.
From S2P Require Import Canonical UpstreamCommon.
From S2P Require Import Accounts Execution.
From S2P Require Import DataPlane Pump.

Definition ACCOUNTLESS_ACCOUNT_ID : string := "accountless".

(** What a stream carries besides its items. *)
Record UpstreamExecutionStream : Set := mkExecutionStream {
  us_created_at : Z;
  us_finish_reason : UpstreamFinishReason;
  us_stop_sequence : option string;
  us_thinking_signatures : gmap string string;
  us_initial_usage : Usage;
  us_upstream_request_id : option string
}.

Inductive InvalidUpstreamExecutionStream : Set := mkInvalidUpstreamExecutionStream.

Definition stream_channel (created_at : Z) : UpstreamExecutionStream :=
  mkExecutionStream created_at ReasonStop None ∅ (mkUsage 0 0 None None ∅) None.

Definition us_with_upstream_request_id (id : string) (s : UpstreamExecutionStream) : UpstreamExecutionStream :=
  mkExecutionStream (us_created_at s) (us_finish_reason s) (us_stop_sequence s) (us_thinking_signatures s)
    (us_initial_usage s) (Some id).

Definition us_with_finish_reason (reason : UpstreamFinishReason) (s : UpstreamExecutionStream)
  : UpstreamExecutionStream :=
  mkExecutionStream (us_created_at s) reason (us_stop_sequence s) (us_thinking_signatures s)
    (us_initial_usage s) (us_upstream_request_id s).

Definition us_with_stop_sequence (stop_sequence : string) (s : UpstreamExecutionStream)
  : result InvalidUpstreamExecutionStream UpstreamExecutionStream :=
  check? guard_err (negb (valid_stream_identifier stop_sequence)) mkInvalidUpstreamExecutionStream;
  Ok (mkExecutionStream (us_created_at s) (us_finish_reason s) (Some stop_sequence)
        (us_thinking_signatures s) (us_initial_usage s) (us_upstream_request_id s)).

Definition signature_invalid (entry : string * string) : bool :=
  negb (valid_stream_identifier entry.1) || str_is_empty entry.2
  || (MAX_UPSTREAM_METADATA_BYTES <? str_len entry.2).

Definition us_with_thinking_signatures `{MetadataSerde} (signatures : gmap string string)
  (s : UpstreamExecutionStream) : result InvalidUpstreamExecutionStream UpstreamExecutionStream :=
  check? guard_err
    ((MAX_UPSTREAM_EVENTS <? Z.of_nat (size signatures))
     || existsb signature_invalid (btree_iter signatures)
     || negb (json_fits (signatures_writes signatures) MAX_UPSTREAM_METADATA_BYTES))
    mkInvalidUpstreamExecutionStream;
  Ok (mkExecutionStream (us_created_at s) (us_finish_reason s) (us_stop_sequence s) signatures
        (us_initial_usage s) (us_upstream_request_id s)).

Definition us_with_initial_usage `{MetadataSerde} (usage : Usage) (s : UpstreamExecutionStream)
  : result InvalidUpstreamExecutionStream UpstreamExecutionStream :=
  check? guard_err (negb (json_fits (usage_writes usage) MAX_UPSTREAM_METADATA_BYTES))
    mkInvalidUpstreamExecutionStream;
  Ok (mkExecutionStream (us_created_at s) (us_finish_reason s) (us_stop_sequence s)
        (us_thinking_signatures s) usage (us_upstream_request_id s)).

(** The outcome of [stream.receive(cancellation)]: an item, or none because the
    channel is closed or because the request is cancelled. *)
Inductive Received : Set :=
| ReceivedItem (item : UpstreamStreamItem)
| ReceivedNone (cancelled : bool).

(** What the executor returns, a stream with what is first received from it. *)
Inductive UpstreamExecutionResult : Set :=
| ExecSucceeded (response : UpstreamExecutionResponse)
| ExecStreaming (stream : UpstreamExecutionStream) (first : Received)
| ExecFailed (failure : UpstreamExecutionFailure).

Record UpstreamExecutionRequest : Set := mkUpstreamRequest {
  uer_request_id : string;
  uer_attempt_ordinal : Z;
  uer_operation : UpstreamOperation;
  uer_provider_id : string;
  uer_account_id : string;
  uer_adapter : AdapterFamily;
  uer_endpoint : string;
  uer_endpoint_access : Routing.EndpointAccess;
  uer_model : string;
  uer_auth : AccountAuthConfig;
  uer_canonical : CanonicalRequest
}.

Inductive AttemptExecutionOutput : Set :=
| OutputComplete (response : UpstreamExecutionResponse)
| OutputStream (first_event : CanonicalEvent) (stream : UpstreamExecutionStream).

Definition failed_attempt (failure : UpstreamExecutionFailure) : AttemptResult AttemptExecutionOutput :=
  AttemptFailed
    (AttemptFailure_new (map_failure_kind (uf_kind failure)) (uf_status failure) (uf_retry_after_ms failure))
    BeforeVisible.

(** ** One attempt *)
(** The request an attempt hands to the executor; [None] when the account is
    not one of the route's. *)
Definition attempt_request (operation : UpstreamOperation) (route : Routing.RouteDecision)
  (canonical : CanonicalRequest) (ctx : AttemptContext) : option UpstreamExecutionRequest :=
  let provider := Routing.rd_provider route in
  let accounts := Routing.rp_accounts provider in
  auth ←
    match List.find (fun a => bool_decide (Routing.ra_id a = ctx_account_id ctx)) accounts with
    | Some account => Some (Routing.ra_auth account)
    | None =>
        if is_emptyb accounts && bool_decide (ctx_account_id ctx = ACCOUNTLESS_ACCOUNT_ID)
        then Some AuthLocal else None
    end;
  Some (mkUpstreamRequest (ctx_request_id ctx) (ordinal (ctx_attempt_id ctx)) operation
    (ctx_provider_id ctx) (ctx_account_id ctx) (Routing.rp_adapter provider)
    (Routing.rp_endpoint provider) (Routing.rp_endpoint_access provider) (ctx_model ctx) auth canonical).

Definition attempt_result (operation : UpstreamOperation) (stream : bool)
  (result : UpstreamExecutionResult) : AttemptResult AttemptExecutionOutput :=
  match result with
  | ExecSucceeded response =>
      if stream then failed_attempt (failure_new UpMalformedResponse)
      else AttemptSucceeded (OutputComplete response) BeforeVisible
  | ExecStreaming us first =>
      if bool_decide (operation <> OpText) || negb stream
      then failed_attempt (failure_new UpMalformedResponse)
      else
        match first with
        | ReceivedItem (ItemEvent event) =>
            if is_created event then AttemptSucceeded (OutputStream event us) Visible
            else failed_attempt (failure_new UpMalformedResponse)
        | ReceivedItem (ItemFailure failure) => failed_attempt failure
        | ReceivedNone true => failed_attempt (failure_new UpCancelled)
        | ReceivedNone false => failed_attempt (failure_new UpMalformedResponse)
        end
  | ExecFailed failure => failed_attempt failure
  end.

Definition request_attempt (executor : UpstreamExecutionRequest -> UpstreamExecutionResult)
  (operation : UpstreamOperation) (route : Routing.RouteDecision) (canonical : CanonicalRequest)
  (ctx : AttemptContext) (body : list Z) : AttemptResult AttemptExecutionOutput :=
  match attempt_request operation route canonical ctx with
  | None => AttemptFailed (AttemptFailure_new FailOther None None) BeforeVisible
  | Some request => attempt_result operation (cr_stream canonical) (executor request)
  end.

(** ** Errors *)
Definition map_route_error (error : Routing.RouteError) : GatewayError :=
  match error with
  | Routing.NoRoute | Routing.ProviderUnavailable => unknown_model
  | Routing.UnsupportedReasoningEffort => unsupported_capability
  end.

Definition map_terminal (terminal : ExecutionTerminal) : GatewayError :=
  match terminal with
  | TerminalCancelled => gateway_transport "cancelled"
  | TerminalRequestBodyTooLarge => invalid_request
  | TerminalNoEligibleAccount => gateway_transport "no eligible account"
  | TerminalUpstream failure _ =>
      match failure_kind failure with
      | FailRateLimited =>
          rate_limited ((fun delay => delay / 1000) <$> failure_retry_after_ms failure)
      | FailServer => upstream_5xx (server_status (failure_status_code failure))
      | FailTimeout | FailReset => gateway_transport "upstream transport"
      | FailInvalidCredentials => upstream_auth "upstream authentication"
      | FailInvalidRequest => invalid_request
      | FailPolicy => unsupported_capability
      | FailOther =>
          upstream_response (default 502 (failure_status_code failure)) "malformed upstream response"
      end
  end.

(** ** The request *)
Record RequestObservationContext : Set := mkObservation {
  ob_attempt_id : option string;
  ob_provider_id : string;
  ob_model : string;
  ob_input_tokens : option Z;
  ob_output_tokens : option Z
}.

Record DataPlaneExecutionError : Set := mkExecutionError {
  de_error : GatewayError;
  de_upstream_request_id : option string;
  de_observation : option RequestObservationContext
}.

Definition execution_error (error : GatewayError) (id : option string) : DataPlaneExecutionError :=
  mkExecutionError error id None.

Definition execution_error_with_observation (error : GatewayError) (id : option string)
  (observation : RequestObservationContext) : DataPlaneExecutionError :=
  mkExecutionError error id (Some observation).

(** What the client asked for, next to the request executed for it. *)
Record PublicRequest : Set := mkPublicRequest {
  pr_model : string;
  pr_request : CanonicalRequest;
  pr_reasoning_effort : option string
}.

Record ExecutedResponse : Set := mkExecutedResponse {
  er_response : UpstreamExecutionResponse;
  er_public : PublicRequest;
  er_observation : RequestObservationContext
}.

Record ExecutedStream : Set := mkExecutedStream {
  es_first_event : option CanonicalEvent;
  es_stream : UpstreamExecutionStream;
  es_public : PublicRequest;
  es_observation : RequestObservationContext
}.

Inductive Executed : Set :=
| ExResponse (executed : ExecutedResponse)
| ExStream (executed : ExecutedStream).

(** [executed_from_attempt]: the answer must be of the kind asked for. *)
Definition executed_from_attempt (output : AttemptExecutionOutput) (public : PublicRequest)
  (observation : RequestObservationContext) : result DataPlaneExecutionError Executed :=
  match cr_stream (pr_request public), output with
  | false, OutputComplete response => Ok (ExResponse (mkExecutedResponse response public observation))
  | true, OutputStream event us => Ok (ExStream (mkExecutedStream (Some event) us public observation))
  | _, _ => Err (execution_error (upstream_response 502 "upstream execution mode mismatch") None)
  end.

Definition usage_of (event : CanonicalEvent) : option Usage :=
  match event with EvUsage usage => Some usage | _ => None end.

(** The name of the last attempt; [None] is the panic of the history's [expect]. *)
Definition final_attempt_id (history : AttemptHistory) : option (option string) :=
  (fun attempts => (fun a => numbered (diag_request_id a +:+ "-a") (ordinal (diag_attempt_id a)))
                     <$> list.last attempts) <$> AttemptHistory_iter history.

Definition request_observation (route : Routing.RouteDecision) (history : AttemptHistory)
  (output : AttemptExecutionOutput) : option RequestObservationContext :=
  let usage :=
    match output with
    | OutputComplete response =>
        match ur_output response with
        | OutEvents events => head (omap usage_of (rev events))
        | OutTokenCount _ => None
        end
    | OutputStream _ stream => Some (us_initial_usage stream)
    end in
  attempt_id ← final_attempt_id history;
  Some (mkObservation attempt_id (Routing.rp_id (Routing.rd_provider route)) (Routing.rd_model route)
          (input_tokens <$> usage) (output_tokens <$> usage)).

Definition request_observation_without_usage (route : Routing.RouteDecision) (history : AttemptHistory)
  : option RequestObservationContext :=
  attempt_id ← final_attempt_id history;
  Some (mkObservation attempt_id (Routing.rp_id (Routing.rd_provider route)) (Routing.rd_model route)
          None None).

(** ** The request id of the last answer *)
(** What an attempt that ran to its end leaves in [last_upstream_request_id]. *)
Definition answered_request_id (operation : UpstreamOperation) (stream : bool)
  (result : UpstreamExecutionResult) : option string :=
  match result with
  | ExecSucceeded response => ur_upstream_request_id response
  | ExecStreaming us first =>
      if bool_decide (operation <> OpText) || negb stream then us_upstream_request_id us
      else
        match first with
        | ReceivedItem (ItemFailure failure) => uf_upstream_request_id failure
        | _ => us_upstream_request_id us
        end
  | ExecFailed failure => uf_upstream_request_id failure
  end.

(** An attempt that was dropped has written the id of its stream if it was
    [waiting] for the first item, and nothing before. *)
Definition remember_request_id (executor : UpstreamExecutionRequest -> UpstreamExecutionResult)
  (operation : UpstreamOperation) (route : Routing.RouteDecision) (canonical : CanonicalRequest)
  (waiting : Z -> bool) (last : option string)
  (call : AttemptContext * option (AttemptResult AttemptExecutionOutput)) : option string :=
  match attempt_request operation route canonical call.1 with
  | None => last
  | Some request =>
      match call.2, executor request with
      | Some _, result => answered_request_id operation (cr_stream canonical) result
      | None, ExecStreaming us _ =>
          if bool_decide (operation = OpText) && cr_stream canonical
             && waiting (ordinal (ctx_attempt_id call.1))
          then us_upstream_request_id us else last
      | None, _ => last
      end
  end.

(** The kinds of authentication of the provider's accounts, in first-seen
    order. *)
Definition authentications (accounts : list Routing.RouteAccount) : list AccountAuthentication :=
  foldl (fun seen account =>
    let a := Routing.authentication account in
    if bool_decide (a ∈ seen) then seen else seen ++ [a]) [] accounts.

(** [canonical.model] and the reasoning effort are rewritten for the route. *)
Definition routed_request (route : Routing.RouteDecision) (canonical : CanonicalRequest)
  : result GatewayError CanonicalRequest :=
  let? reasoning :=
    match cr_reasoning canonical with
    | Some r =>
        match effort r with
        | Some e =>
            let? mapped := map_err map_route_error (Routing.map_reasoning_effort route e) in
            Ok (Some (mkReasoning (Some mapped) (reasoning_extensions r)))
        | None => Ok (Some r)
        end
    | None => Ok None
    end in
  Ok (mkCanonical (cr_request_id canonical) (Routing.rd_model route) (cr_thread_key canonical)
        (cr_input canonical) (cr_tools canonical) (cr_stream canonical) reasoning (cr_extensions canonical)).

(** [RetryPolicy::new(1, 60_000, JSON_BODY_LIMIT)]. *)
Definition data_plane_retry : RetryPolicy := mkRetryPolicy 1 60000 JSON_BODY_LIMIT.

(** Everything around one run of the coordinator but the upstream. *)
Record Surroundings (H : Type) : Type := mkSurroundings {
  sur_cancelled : CancelPoint -> bool;
  sur_now : Z -> Z;
  sur_wait : Z -> bool;
  sur_awaits_first : Z -> bool;
  sur_before_select : Z -> H -> H;
  sur_before_observe : Z -> H -> H
}.
Arguments mkSurroundings {H} _ _ _ _ _ _.
Arguments sur_cancelled {H} _ _.
Arguments sur_now {H} _ _.
Arguments sur_wait {H} _ _.
Arguments sur_awaits_first {H} _ _.
Arguments sur_before_select {H} _ _ _.
Arguments sur_before_observe {H} _ _ _.

Abbreviation call_log := (list (AttemptContext * option (AttemptResult AttemptExecutionOutput))).

Section Dispatch.
Context {H : Type} `{AccountHealth H} `{EventSerde}.
Context (executor : UpstreamExecutionRequest -> UpstreamExecutionResult).

Definition environment (upstream : AttemptContext -> list Z -> AttemptResult AttemptExecutionOutput)
  (s : Surroundings H) : Environment H AttemptExecutionOutput :=
  mkEnvironment (sur_cancelled s) (sur_now s) upstream (sur_wait s) (sur_before_select s)
    (sur_before_observe s).

(** The candidates of one kind of authentication, all of weight one.  [None] is
    the internal error of an invalid candidate. *)
Definition candidates_for (accounts : list Routing.RouteAccount) (a : AccountAuthentication)
  : option (list ExecutionCandidate) :=
  mapM (fun account =>
    match ExecutionCandidate_new (Routing.ra_id account) (Routing.authentication account) 1 with
    | Ok c => Some c
    | Err _ => None
    end)
    (filter (fun account => Routing.authentication account = a) accounts).

(** What an outcome of the coordinator is answered with; [None] is a panic. *)
Definition settle_outcome (route : Routing.RouteDecision) (public : PublicRequest) (last : option string)
  (out : ExecutionOutcome AttemptExecutionOutput) : option (result DataPlaneExecutionError Executed) :=
  match out with
  | ExecutionSucceeded output _ history =>
      observation ← request_observation route history output;
      Some (executed_from_attempt output public observation)
  | ExecutionFailed terminal history =>
      observation ← request_observation_without_usage route history;
      Some (Err (execution_error_with_observation (map_terminal terminal) last observation))
  end.

(** No account was eligible and none was tried: the next kind of
    authentication has its turn. *)
Definition goes_on (out : ExecutionOutcome AttemptExecutionOutput) : bool :=
  match out with
  | ExecutionFailed TerminalNoEligibleAccount history => history_length history =? 0
  | _ => false
  end.

(** The loop over the kinds of authentication; [last] is the remembered request
    id.  [None] is a panic. *)
Fixpoint try_authentications (request_id : string) (operation : UpstreamOperation)
  (route : Routing.RouteDecision) (public : PublicRequest)
  (surroundings : AccountAuthentication -> Surroundings H) (kinds : list AccountAuthentication)
  (last : option string) (h : H)
  : option (result DataPlaneExecutionError Executed) * (call_log * H) :=
  match kinds with
  | [] => (Some (Err (execution_error (gateway_transport "no eligible account") None)), ([], h))
  | a :: kinds =>
      match candidates_for (Routing.rp_accounts (Routing.rd_provider route)) a with
      | None => (Some (Err (execution_error (gateway_internal "candidate") None)), ([], h))
      | Some candidates =>
          let request := ExecutionRequest_new request_id (Routing.rp_id (Routing.rd_provider route))
            (Routing.rd_model route) candidates a None [] in
          let env := environment (request_attempt executor operation route (pr_request public))
            (surroundings a) in
          match execute data_plane_retry env request h with
          | (w, Panic) => (None, (world_calls w, world_health w))
          | (w, Return out) =>
              let last := foldl (remember_request_id executor operation route (pr_request public)
                                   (sur_awaits_first (surroundings a))) last (world_calls w) in
              if goes_on out then
                let '(r, (calls, h)) :=
                  try_authentications request_id operation route public surroundings kinds last
                    (world_health w) in
                (r, (world_calls w ++ calls, h))
              else (settle_outcome route public last out, (world_calls w, world_health w))
          end
      end
  end.

(** A provider without accounts is called under a fixed identity. *)
Definition execute_accountless (request_id : string) (operation : UpstreamOperation)
  (route : Routing.RouteDecision) (public : PublicRequest) (s : Surroundings H) (h : H)
  : option (result DataPlaneExecutionError Executed) * (call_log * H) :=
  let request := new_accountless request_id (Routing.rp_id (Routing.rd_provider route))
    (Routing.rd_model route) ACCOUNTLESS_ACCOUNT_ID [] in
  let env := environment (request_attempt executor operation route (pr_request public)) s in
  match execute data_plane_retry env request h with
  | (w, Panic) => (None, (world_calls w, world_health w))
  | (w, Return out) =>
      let last := foldl (remember_request_id executor operation route (pr_request public)
                           (sur_awaits_first s)) None (world_calls w) in
      (settle_outcome route public last out, (world_calls w, world_health w))
  end.

Definition public_effort (canonical : CanonicalRequest) : option string :=
  cr_reasoning canonical ≫= effort.

(** What comes before the coordinator runs: an answer at once, or the route and
    the request to execute on it. *)
Definition prepare (snapshot : option Snapshot.RuntimeSnapshot) (has_executor : bool) (client_id : string)
  (canonical : CanonicalRequest) (operation : UpstreamOperation)
  : result GatewayError (Executed + Routing.RouteDecision * CanonicalRequest) :=
  let? snapshot := ok_or snapshot no_executor in
  let? _ := map_err (fun _ => invalid_request) (ExecutionRequestId_new (cr_request_id canonical)) in
  let? route := map_err map_route_error
    (Snapshot.route snapshot (Routing.mkRouteRequest None (cr_req_model canonical) (Some client_id))) in
  let capabilities := Routing.rp_capabilities (Routing.rd_provider route) in
  check? guard_err (negb (cap_text capabilities)) unsupported_capability;
  if bool_decide (operation = OpCountTokens) && negb (cap_count_tokens capabilities) then
    let? input_tokens := estimate_local_tokens canonical in
    Ok (inl (ExResponse (mkExecutedResponse (response_token_count input_tokens)
               (mkPublicRequest (cr_req_model canonical) canonical (public_effort canonical))
               (mkObservation None (Routing.rp_id (Routing.rd_provider route)) (Routing.rd_model route)
                  (Some input_tokens) (Some 0)))))
  else
    check? guard_err (negb has_executor) no_executor;
    let? routed := routed_request route canonical in
    Ok (inr (route, routed)).

Definition execute_canonical (snapshot : option Snapshot.RuntimeSnapshot) (has_executor : bool)
  (client_id : string) (canonical : CanonicalRequest) (operation : UpstreamOperation)
  (surroundings : AccountAuthentication -> Surroundings H) (h : H)
  : option (result DataPlaneExecutionError Executed) * (call_log * H) :=
  match prepare snapshot has_executor client_id canonical operation with
  | Err e => (Some (Err (execution_error e None)), ([], h))
  | Ok (inl executed) => (Some (Ok executed), ([], h))
  | Ok (inr (route, routed)) =>
      let public := mkPublicRequest (cr_req_model canonical) routed (public_effort canonical) in
      match authentications (Routing.rp_accounts (Routing.rd_provider route)) with
      | [] => execute_accountless (cr_request_id canonical) operation route public (surroundings Local) h
      | kinds =>
          try_authentications (cr_request_id canonical) operation route public surroundings kinds None h
      end
  end.
End Dispatch.
