(* ===== verification/DispatchSpec.v ===== *)
(** * Executing a client's request: what reaches the upstream

    Proved over the interface of the account health table: how many calls a
    client's request causes, with which credential and to which endpoint; and
    what a provider with one account reports of its failures. *)
From S2P Require Import Prelude Json NetAddr Config Catalog.
From S2P Require Import Routing Snapshot.
From S2P Require Import Canonical.
From S2P Require Import Accounts AccountsSpec Execution ExecutionSpec ExecutionCorrect.
From S2P Require Import DataPlane Pump.
From S2P Require Import Dispatch.

Lemma data_plane_retry_ok : RetryPolicy_new 1 60000 JSON_BODY_LIMIT = Ok data_plane_retry.
Proof. reflexivity. Qed.

Lemma data_plane_retry_policy : retry_policy_ok data_plane_retry.
Proof. by apply (RetryPolicy_new_ok 1 60000 JSON_BODY_LIMIT). Qed.

(** ** Candidates *)
Lemma candidates_for_Some accounts a l :
  candidates_for accounts a = Some l ->
  Forall (fun c => 0 < exec_weight c <= MAX_WEIGHT /\ exec_authentication c = a /\
    exists account, account ∈ accounts /\ Routing.ra_id account = exec_account_id c /\
      Routing.authentication account = a) l.
Proof.
  unfold candidates_for. intros Hm%mapM_Some. apply list.Forall_forall. intros c Hc.
  apply list_elem_of_lookup in Hc as [i Hi].
  destruct (Forall2_lookup_r _ _ _ _ _ Hm Hi) as (account & Ha & Hnew).
  apply list_elem_of_lookup_2, list_elem_of_filter in Ha as [Hauth Hin].
  unfold ExecutionCandidate_new, AccountCandidate_new in Hnew. cbn in Hnew. injection Hnew as <-.
  cbn. unfold MAX_WEIGHT. split_and!; [lia|lia|done|]. by exists account.
Qed.

Lemma candidates_for_total accounts a : is_Some (candidates_for accounts a).
Proof.
  unfold candidates_for. apply mapM_is_Some_2, list.Forall_forall. intros account _.
  unfold ExecutionCandidate_new, AccountCandidate_new. cbn. eauto.
Qed.

Lemma authentications_nil accounts : authentications accounts = [] -> accounts = [].
Proof.
  unfold authentications.
  assert (Hgrow : forall l seen, seen <> [] ->
    foldl (fun seen account => let a := Routing.authentication account in
      if bool_decide (a ∈ seen) then seen else seen ++ [a]) seen l <> []).
  { induction l as [|x l IH]; intros seen Hs; [done|]. cbn [foldl]. apply IH.
    destruct (bool_decide _); [done|]. by destruct seen. }
  destruct accounts as [|x l]; [done|]. cbn [foldl]. intros Hf. exfalso. revert Hf. apply Hgrow.
  by destruct (bool_decide _) eqn:E.
Qed.

(** ** The calls of one run of the coordinator *)
Section Calls.
Context {H : Type} `{AccountHealthLaws H}.

(** Each call of the log is of an account the request allows, and there are at
    most two. *)
Definition calls_of (r : ExecutionRequest) (calls : call_log) : Prop :=
  zlen calls <= MAX_TOTAL_ATTEMPTS /\
  Forall (fun c => exists o a, allowed_account r a /\ c.1 = context_of r o a) calls.

Lemma no_account_no_calls policy (env : Environment H AttemptExecutionOutput) r o past h (calls : call_log) waits hist :
  protocol policy env r o past h calls waits (ExecutionFailed TerminalNoEligibleAccount hist) ->
  history_length hist = 0 -> calls = [].
Proof.
  intros Hp Hlen. pose proof (protocol_history _ _ _ _ _ _ _ _ _ Hp) as Hh. cbn in Hh. subst hist.
  inversion Hp; subst; [done|]. exfalso. revert Hlen.
  unfold history_of, zlen. cbn [history_length]. rewrite length_app. cbn. lia.
Qed.

Lemma execute_calls (env : Environment H AttemptExecutionOutput) r h :
  steady env -> Forall (fun c => 0 < exec_weight c <= MAX_WEIGHT) (Execution.candidates r) ->
  body r = [] -> health_ok h ->
  exists w out, execute data_plane_retry env r h = (w, Return out) /\ calls_of r (world_calls w) /\
    outcome_history out = history_of (omap diagnostic_of (world_calls w)) /\
    (forall hist, out = ExecutionFailed TerminalNoEligibleAccount hist -> history_length hist = 0 ->
       world_calls w = []).
Proof.
  intros Hr Hw Hb Hh.
  destruct (execute_protocol data_plane_retry env r Hr Hw h Hh)
    as (w & out & He & Hp). rewrite Hb in Hp. cbn in Hp.
  exists w, out. split; [done|]. pose proof (protocol_history _ _ _ _ _ _ _ _ _ Hp) as Hhist.
  destruct (protocol_shape _ _ _ _ _ _ _ _ _ data_plane_retry_policy Hp) as (Hn & _ & _ & _ & _ & Hall); [done|].
  split; [split; [unfold MAX_TOTAL_ATTEMPTS in *; lia|]|split; [done|]].
  - eapply list.Forall_impl; [exact Hall|]. intros c (a & Ha & Hc). eauto.
  - intros hist -> Hlen. exact (no_account_no_calls _ _ _ _ _ _ _ _ _ Hp Hlen).
Qed.

(** Whatever happens, the table stays consistent. *)
Lemma choose_account_health (env : Environment H AttemptExecutionOutput) r hist o now (w : World) :
  steady env -> health_ok (world_health w) ->
  health_ok (world_health (choose_account env r hist o now w).1).
Proof.
  intros Hr Hh. unfold choose_account. destruct (accountless_account_id r); [done|].
  destruct (mapM _ _) as [cands|]; [|done]. unfold st_bind, with_health.
  pose proof (health_select_ok cands (Execution.authentication r) (affinity_account r) now
    (env_before_select env o (world_health w)) (steady_select _ Hr _ _ Hh)) as Hok.
  by destruct (health_select _ _ _ _ _) as [[ch|e] h'].
Qed.

Lemma attempt_health (env : Environment H AttemptExecutionOutput) r hist o (w : World) :
  steady env -> health_ok (world_health w) ->
  health_ok (world_health (attempt data_plane_retry env r hist o w).1).
Proof.
  intros Hr Hh. unfold attempt, return_if_cancelled, cancelled.
  destruct (env_cancelled env (AtLoopHead o)); [done|]. unfold st_bind at 1. cbn [st_ret].
  pose proof (choose_account_health env r hist o (env_now env o) w Hr Hh) as Hc. unfold st_bind at 1.
  destruct (choose_account _ _ _ _ _ _) as [w1 [account|e]]; [|done]. cbn [fst] in Hc.
  destruct (env_cancelled env (BeforePoll o)); [done|]. unfold st_bind at 1. cbn [st_ret].
  destruct (env_cancelled env (WhileRunning o)); [done|].
  unfold st_bind at 1, record_call, st_mod.
  destruct (env_upstream _ _ _) as [output b|f b].
  - destruct (accountless_account_id r); [done|]. cbn. apply health_observe_ok, (steady_observe _ Hr), Hc.
  - pose proof (observed_ok env Hr account f o (env_now env o) (world_health w1) Hc) as Ho.
    unfold st_bind, with_health, record_wait, st_mod. cbn [world_health].
    destruct (accountless_account_id r); [|destruct (observe_failure _ _ _ _) as [[] h2]];
      (destruct (if bool_decide _ && _ then _ else _) as [d|]; [|done]);
      (destruct (env_cancelled env (WhileWaiting o)); [done|]); by destruct (_ || _).
Qed.

Lemma execute_health (env : Environment H AttemptExecutionOutput) r h w x :
  steady env -> health_ok h -> execute data_plane_retry env r h = (w, x) -> health_ok (world_health w).
Proof.
  intros Hr Hh. unfold execute, execute_body. destruct (_ <? _); [by intros [= <- _]|].
  rewrite attempt_ordinals_eq. unfold st_bind at 1. cbn [st_fold]. unfold st_bind at 1.
  pose proof (attempt_health env r AttemptHistory_default 1 (mkWorld h [] []) Hr Hh) as Hfirst.
  destruct (attempt _ _ _ _ 1 _) as [w1 [h1|e]]; [|by intros [= <- _]]. unfold st_bind at 1.
  pose proof (attempt_health env r h1 2 w1 Hr Hfirst) as Hsecond.
  destruct (attempt _ _ _ _ 2 _) as [w2 [h2|e]]; unfold st_ret, st_err; by intros [= <- _].
Qed.
End Calls.

(** ** Credentials *)
(** An executor's request carries the credential of an account of the routed
    provider, or none when that provider has no accounts, and goes to that
    provider's endpoint. *)
Definition own_credential (route : Routing.RouteDecision) (request : UpstreamExecutionRequest) : Prop :=
  let provider := Routing.rd_provider route in
  uer_endpoint request = Routing.rp_endpoint provider /\
  uer_endpoint_access request = Routing.rp_endpoint_access provider /\
  uer_provider_id request = Routing.rp_id provider /\
  uer_model request = Routing.rd_model route /\
  ((Routing.rp_accounts provider = [] /\ uer_auth request = AuthLocal) \/
   exists account, account ∈ Routing.rp_accounts provider /\
     Routing.ra_id account = uer_account_id request /\ Routing.ra_auth account = uer_auth request).

Lemma attempt_request_own operation route canonical ctx :
  ctx_provider_id ctx = Routing.rp_id (Routing.rd_provider route) -> ctx_model ctx = Routing.rd_model route ->
  (exists account, account ∈ Routing.rp_accounts (Routing.rd_provider route) /\
     Routing.ra_id account = ctx_account_id ctx) \/
  (Routing.rp_accounts (Routing.rd_provider route) = [] /\ ctx_account_id ctx = ACCOUNTLESS_ACCOUNT_ID) ->
  exists request, attempt_request operation route canonical ctx = Some request /\
    uer_account_id request = ctx_account_id ctx /\ own_credential route request.
Proof.
  intros Hp Hm Ha. unfold attempt_request.
  destruct (List.find _ _) as [account|] eqn:Hf.
  - apply List.find_some in Hf as [Hin Hid%bool_decide_eq_true]. apply list_elem_of_In in Hin.
    eexists. split; [reflexivity|]. split; [done|]. split_and!; try done. right. by exists account.
  - destruct Ha as [(account & Hin & Hid)|[He Hid]].
    + exfalso. apply list_elem_of_In in Hin. pose proof (List.find_none _ _ Hf _ Hin) as Hn.
      by apply bool_decide_eq_false in Hn.
    + rewrite He, Hid. cbn. eexists. split; [reflexivity|]. split; [done|]. split_and!; try done. by left.
Qed.

(** A history of the coordinator can be read, so its outcome has an answer. *)
Lemma settle_outcome_total route public last (out : ExecutionOutcome AttemptExecutionOutput) attempts :
  outcome_history out = history_of attempts -> is_Some (settle_outcome route public last out).
Proof.
  destruct out as [output b hist|terminal hist]; cbn [outcome_history settle_outcome]; intros ->;
    unfold request_observation, request_observation_without_usage, final_attempt_id;
    rewrite history_iter; cbn; eauto.
Qed.

(** ** The loop over the kinds of authentication *)
Section Loop.
Context {H : Type} `{AccountHealthLaws H} `{EventSerde}.
Context (executor : UpstreamExecutionRequest -> UpstreamExecutionResult) (operation : UpstreamOperation)
  (route : Routing.RouteDecision) (public : PublicRequest)
  (surroundings : AccountAuthentication -> Surroundings H) (rid : string).
Abbreviation attempts := (request_attempt executor operation route (pr_request public)).
Hypothesis surroundings_ok : forall a, steady (environment attempts (surroundings a)).

Abbreviation accounts := (Routing.rp_accounts (Routing.rd_provider route)).

(** The calls go to accounts of one kind of authentication. *)
Definition one_kind (calls : call_log) : Prop :=
  zlen calls <= MAX_TOTAL_ATTEMPTS /\
  exists a, Forall (fun c => ctx_provider_id c.1 = Routing.rp_id (Routing.rd_provider route) /\
    ctx_model c.1 = Routing.rd_model route /\
    exists account, account ∈ accounts /\ Routing.ra_id account = ctx_account_id c.1 /\
      Routing.authentication account = a) calls.

Lemma group_calls a l h :
  candidates_for accounts a = Some l -> health_ok h ->
  let r := ExecutionRequest_new rid (Routing.rp_id (Routing.rd_provider route)) (Routing.rd_model route) l a None [] in
  exists w out, execute data_plane_retry (environment attempts (surroundings a)) r h = (w, Return out) /\
    health_ok (world_health w) /\ one_kind (world_calls w) /\
    (goes_on out = true -> world_calls w = []) /\
    (forall last, is_Some (settle_outcome route public last out)).
Proof using surroundings_ok.
  intros Hl Hh r. apply candidates_for_Some in Hl. rename Hl into Hcands.
  destruct (execute_calls _ r h (surroundings_ok a)) as (w & out & He & (Hn & Hall) & Hhist & Hnone); [|done|done|].
  { eapply list.Forall_impl; [exact Hcands|]. by intros c [? _]. }
  exists w, out. split; [done|]. split; [by eapply execute_health|].
  split; [|split; [|intros last; by eapply settle_outcome_total]].
  - split; [done|]. exists a. eapply list.Forall_impl; [exact Hall|]. intros c (o & id & Hal & ->).
    split_and!; [done|done|]. cbn in Hal. destruct Hal as (cand & Hin & Hid & Hau).
    apply (proj1 (list.Forall_forall _ _) Hcands) in Hin as (_ & _ & account & ? & ? & ?).
    exists account. split_and!; [done|cbn; congruence|done].
  - unfold goes_on. destruct out as [output b hist|[| | |f b] hist]; try done.
    intros Hz%Z.eqb_eq. by eapply Hnone.
Qed.

Lemma try_authentications_ok kinds last h :
  health_ok h ->
  exists r calls h', try_authentications executor rid operation route public surroundings kinds last h
    = (Some r, (calls, h')) /\ one_kind calls.
Proof using surroundings_ok.
  assert (Hnil : one_kind []) by (split; [done|]; by exists Local).
  revert last h. induction kinds as [|a kinds IH]; intros last h Hh; cbn [try_authentications]; [by eauto 10|].
  destruct (candidates_for_total accounts a) as [l Hl]. rewrite Hl.
  destruct (group_calls a l h Hl Hh) as (w & out & He & Hh' & Hone & Hnone & Hset). rewrite He.
  set (last' := foldl _ _ _). destruct (goes_on out) eqn:Hgo.
  - destruct (IH last' _ Hh') as (r & calls & h' & -> & Hcalls). rewrite Hnone by done. by eauto 10.
  - destruct (Hset last') as [r ->]. by eauto 10.
Qed.
End Loop.

Section Theorems.
Context {H : Type} `{AccountHealthLaws H} `{EventSerde}.

Lemma accountless_ok (executor : UpstreamExecutionRequest -> UpstreamExecutionResult) operation route
    public (s : Surroundings H) rid h :
  steady (environment (request_attempt executor operation route (pr_request public)) s) -> health_ok h ->
  exists r calls h', execute_accountless executor rid operation route public s h = (Some r, (calls, h')) /\
    zlen calls <= MAX_TOTAL_ATTEMPTS /\
    Forall (fun c => ctx_provider_id c.1 = Routing.rp_id (Routing.rd_provider route) /\
      ctx_model c.1 = Routing.rd_model route /\ ctx_account_id c.1 = ACCOUNTLESS_ACCOUNT_ID) calls.
Proof.
  intros Hr Hh. unfold execute_accountless.
  set (request := new_accountless _ _ _ _ _).
  destruct (execute_calls _ request h Hr) as (w & out & -> & (Hn & Hall) & Hhist & _); [by constructor|done|done|].
  assert (Hf : Forall (fun c => ctx_provider_id c.1 = Routing.rp_id (Routing.rd_provider route) /\
      ctx_model c.1 = Routing.rd_model route /\ ctx_account_id c.1 = ACCOUNTLESS_ACCOUNT_ID) (world_calls w)).
  { eapply list.Forall_impl; [exact Hall|]. intros c (o & id & Hal & ->). cbn in Hal. by subst id. }
  set (last := foldl _ _ _). destruct (settle_outcome_total route public last out _ Hhist) as [answer ->].
  by eauto 10.
Qed.

(** Execution always returns. *)
Lemma dispatch_returns (executor : UpstreamExecutionRequest -> UpstreamExecutionResult) snapshot has_executor
    client_id canonical operation (surroundings : AccountAuthentication -> Surroundings H) h :
  (forall upstream a, steady (environment upstream (surroundings a))) -> health_ok h ->
  exists r calls h', execute_canonical executor snapshot has_executor client_id canonical operation surroundings h
    = (Some r, (calls, h')).
Proof.
  intros Hs Hh. unfold execute_canonical. destruct (prepare _ _ _ _ _) as [[executed|[route routed]]|e]; [by eauto| |by eauto].
  set (public := mkPublicRequest _ _ _). destruct (authentications _) as [|a kinds].
  - destruct (accountless_ok executor operation route public (surroundings Local) (cr_request_id canonical) h
                (Hs _ _) Hh) as (r & calls & h' & -> & _). eauto.
  - destruct (try_authentications_ok executor operation route public surroundings (cr_request_id canonical)
                (fun a => Hs _ a) (a :: kinds) None h Hh) as (r & calls & h' & -> & _). eauto.
Qed.

(** C17: A client's request reaches the upstream at most twice, however many accounts and kinds of
    credential its provider has, and execution always returns, whatever other requests do to the
    health table as long as they leave it consistent, as every operation of the table does
    ([ExecutionCorrect.used_steady]).  Every call is made with the
    credential of an account of the provider the request was routed to (none if the provider has no
    accounts), to that provider's endpoint and for the routed model, so no credential reaches
    another provider; and all calls of a request use accounts of one kind of authentication. *)
Theorem dispatch_calls_confined (executor : UpstreamExecutionRequest -> UpstreamExecutionResult)
  (snapshot : option RuntimeSnapshot) (has_executor : bool) (client_id : string)
  (canonical : CanonicalRequest) (operation : UpstreamOperation)
  (surroundings : AccountAuthentication -> Surroundings H) (h : H) :
  (forall upstream a, steady (environment upstream (surroundings a))) -> health_ok h ->
  exists r calls h',
    execute_canonical executor snapshot has_executor client_id canonical operation surroundings h
      = (Some r, (calls, h')) /\
    zlen calls <= MAX_TOTAL_ATTEMPTS /\
    (calls = [] \/ exists route routed,
       prepare snapshot has_executor client_id canonical operation = Ok (inr (route, routed)) /\
       Forall (fun c => exists request, attempt_request operation route routed c.1 = Some request /\
         own_credential route request) calls /\
       exists kind, Forall (fun c => ctx_account_id c.1 = ACCOUNTLESS_ACCOUNT_ID \/
         exists account, account ∈ Routing.rp_accounts (Routing.rd_provider route) /\
           Routing.ra_id account = ctx_account_id c.1 /\ Routing.authentication account = kind) calls).
Proof.
  intros Hs Hh. unfold execute_canonical.
  destruct (prepare _ _ _ _ _) as [[executed|[route routed]]|e] eqn:Hp;
    [by eexists _, [], h; split_and!; [| |left]| |by eexists _, [], h; split_and!; [| |left]].
  destruct (authentications _) as [|a kinds] eqn:Ha.
  - assert (Hnone : Routing.rp_accounts (Routing.rd_provider route) = []) by by apply authentications_nil.
    destruct (accountless_ok executor operation route (mkPublicRequest (cr_req_model canonical) routed
                (public_effort canonical)) (surroundings Local) (cr_request_id canonical) h
                (Hs _ _) Hh) as (r & calls & h' & -> & Hn & Hall).
    exists r, calls, h'. split_and!; [done|done|]. right. exists route, routed. split_and!; [done| |].
    + eapply list.Forall_impl; [exact Hall|]. intros c (Hpr & Hm & Hid).
      destruct (attempt_request_own operation route routed c.1 Hpr Hm) as (q & ? & _ & ?); [by right|eauto].
    + exists Local. eapply list.Forall_impl; [exact Hall|]. intros c (_ & _ & Hid). by left.
  - destruct (try_authentications_ok executor operation route (mkPublicRequest (cr_req_model canonical) routed
                (public_effort canonical)) surroundings (cr_request_id canonical)
                (fun a => Hs _ a) (a :: kinds) None h Hh) as (r & calls & h' & -> & Hn & kind & Hall).
    exists r, calls, h'. split_and!; [done|done|]. right. exists route, routed. split_and!; [done| |].
    + eapply list.Forall_impl; [exact Hall|]. intros c (Hpr & Hm & account & Hin & Hid & _).
      destruct (attempt_request_own operation route routed c.1 Hpr Hm) as (q & ? & _ & ?); eauto.
    + exists kind. eapply list.Forall_impl; [exact Hall|]. intros c (_ & _ & Hacc). by right.
Qed.
End Theorems.

(** ** A provider with one account *)
Section Lone.
Context {H : Type} `{AccountHealthLaws H} `{EventSerde}.
Context (env : Environment H AttemptExecutionOutput) (r : ExecutionRequest) (c : ExecutionCandidate)
  (f : AttemptFailure).
Hypothesis lone : Execution.candidates r = [c] /\ 0 < exec_weight c <= MAX_WEIGHT /\
  accountless_account_id r = None /\ body r = [].
Hypothesis calm : (forall p, env_cancelled env p = false) /\ (forall o, env_wait env o = true).
Hypothesis failing : forall ctx b, ctx_account_id ctx = exec_account_id c ->
  env_upstream env ctx b = AttemptFailed f BeforeVisible.
Hypothesis retried : retry_class f <> ClassNever.
Hypothesis env_ok : respectful env.

(** An attempt finds no account, or calls the only one and the loop goes on. *)
Lemma failing_attempt hist o (w w' : World) x :
  health_ok (world_health w) -> attempt data_plane_retry env r hist o w = (w', x) ->
  x = Err (Return (ExecutionFailed TerminalNoEligibleAccount hist)) \/
  exists ctx, world_calls w' = world_calls w ++ [(ctx, Some (AttemptFailed f BeforeVisible))] /\
    ctx_account_id ctx = exec_account_id c /\ (o < MAX_TOTAL_ATTEMPTS -> exists hist', x = Ok hist').
Proof using lone calm failing retried env_ok.
  destruct lone as (Hc & Hw & Ha & _), calm as [Hnc Hwait]. intros Hh.
  assert (Hweights : Forall (fun c => 0 < exec_weight c <= MAX_WEIGHT) (Execution.candidates r)).
  { rewrite Hc. by constructor. }
  unfold attempt, return_if_cancelled. rewrite !Hnc. unfold st_bind at 1. cbn [st_ret].
  pose proof (choose_account_spec env r (rely_steady _ env_ok) Hweights hist o w Hh) as Hch.
  unfold st_bind at 1.
  destruct (choose_account env r hist o (env_now env o) w) as [w1 [account|[out|]]]; [| |done].
  2:{ destruct Hch as (-> & _). intros [= <- <-]. by left. }
  destruct Hch as ((Hal & _) & _ & Hcalls & _). unfold allowed_account in Hal. rewrite Ha, Hc in Hal.
  destruct Hal as (c' & ->%list_elem_of_singleton & Hid & _).
  unfold st_bind at 1. cbn [st_ret]. unfold st_bind at 1, record_call, st_mod. rewrite failing by done. rewrite Ha.
  unfold st_bind at 1, with_health. cbn [world_health world_calls world_waits].
  destruct (observe_failure _ _ _ _) as [[] h2]. rewrite Hcalls.
  intros Hx. right. eexists. revert Hx.
  destruct (Z.ltb_spec o MAX_TOTAL_ATTEMPTS) as [Ho|Ho].
  - rewrite bool_decide_true by done. cbn [andb].
    destruct (delay_ms _ _ _) as [d|] eqn:Hd.
    2:{ unfold delay_ms in Hd. by destruct (retry_class f). }
    unfold st_bind, record_wait, st_mod. rewrite Hwait. cbn. intros [= <- <-]. cbn. split_and!; [done|done|eauto].
  - rewrite andb_false_r. unfold st_err. intros [= <- <-]. cbn. split_and!; [done|done|lia].
Qed.

Lemma lone_execute h w x :
  health_ok h -> env_now env 2 < sat_add64 (env_now env 1) (health_cooldown h) ->
  execute data_plane_retry env r h = (w, x) ->
  exists hist, x = Return (ExecutionFailed TerminalNoEligibleAccount hist).
Proof using lone calm failing retried env_ok.
  intros Hh Hnow. unfold execute, execute_body. pose proof lone as (_ & _ & Ha & Hb). rewrite Hb.
  change (maximum_body_bytes data_plane_retry <? zlen []) with false. cbv match.
  rewrite attempt_ordinals_eq. unfold st_bind at 1. cbn [st_fold]. unfold st_bind at 1.
  destruct (attempt _ _ _ _ 1 _) as [w1 x1] eqn:E1.
  destruct (failing_attempt AttemptHistory_default 1 (mkWorld h [] []) w1 x1 Hh E1) as [->|(ctx1 & Hc1 & Hid1 & Hok1)]; [intros [= _ <-]; eauto|].
  destruct Hok1 as [h1 ->]; [done|].
  apply (attempt_account data_plane_retry env r env_ok) in E1; [|done|done].
  destruct E1 as [[_ Hbad]|(d1 & Hd1 & _ & Hcool)]; [by edestruct Hbad|].
  destruct (Hcool h1 eq_refl) as [Hh1 Hunusable]. rewrite Hc1 in Hd1. cbn in Hd1. injection Hd1 as <-.
  unfold st_bind at 1. destruct (attempt _ _ _ _ 2 _) as [w2 x2] eqn:E2.
  destruct (failing_attempt _ _ _ _ _ Hh1 E2) as [->|(ctx2 & Hc2 & Hid2 & _)]; [intros [= _ <-]; eauto|].
  exfalso. apply (attempt_account data_plane_retry env r env_ok) in E2; [|done|done].
  destruct E2 as [[Hsame _]|(d2 & Hd2 & Hu & _)].
  - rewrite Hsame in Hc2. apply (f_equal length) in Hc2. rewrite length_app in Hc2. cbn in Hc2. lia.
  - rewrite Hc2 in Hd2. apply app_inv_head in Hd2. injection Hd2 as <-. cbn in Hu.
    revert Hu. apply (rely_usable _ env_ok). rewrite Hid2, <-Hid1. by apply Hunusable.
Qed.
End Lone.

Section Masked.
Context {H : Type} `{AccountHealthLaws H} `{EventSerde}.

(** A provider with one account never reports why it failed.  When the upstream answers its
    account's call with a retryable failure (a rate limit, a server error, a timeout or a reset) and
    the table's cooldown outlasts the retry delay, the retry finds no account and the client is told
    502 "upstream unavailable": a rate limit is not answered with 429, and the status and the retry
    time of the upstream are lost. *)
Theorem lone_account_failure_masked (executor : UpstreamExecutionRequest -> UpstreamExecutionResult)
  (snapshot : option RuntimeSnapshot) (has_executor : bool) (client_id : string)
  (canonical routed : CanonicalRequest) (operation : UpstreamOperation) (route : Routing.RouteDecision)
  (account : Routing.RouteAccount) (failure : UpstreamExecutionFailure)
  (surroundings : AccountAuthentication -> Surroundings H) (h : H) :
  prepare snapshot has_executor client_id canonical operation = Ok (inr (route, routed)) ->
  Routing.rp_accounts (Routing.rd_provider route) = [account] ->
  (forall request, executor request = ExecFailed failure) ->
  uf_kind failure ∈ [UpRateLimited; UpServer; UpTimeout; UpReset; UpTransport] ->
  let s := surroundings (Routing.authentication account) in
  (forall p, sur_cancelled s p = false) -> (forall o, sur_wait s o = true) ->
  (forall upstream, respectful (environment upstream s)) -> health_ok h ->
  sur_now s 2 < sat_add64 (sur_now s 1) (health_cooldown h) ->
  exists e, (execute_canonical executor snapshot has_executor client_id canonical operation surroundings h).1
    = Some (Err e) /\
  de_error e = gateway_transport "no eligible account" /\ http_status (de_error e) = 502.
Proof.
  intros Hp Hacc Hex Hkind s Hnc Hwait Hs Hh Hnow. unfold execute_canonical. rewrite Hp, Hacc.
  change (authentications [account]) with [Routing.authentication account]. cbn [try_authentications].
  rewrite Hacc.
  assert (Hcand : candidates_for [account] (Routing.authentication account) =
    Some [mkExecutionCandidate (Routing.ra_id account) (Routing.authentication account) 1]).
  { unfold candidates_for. rewrite filter_cons_True by done. reflexivity. }
  rewrite Hcand. set (request := ExecutionRequest_new _ _ _ _ _ _ _).
  set (env := environment _ _).
  set (f := AttemptFailure_new (map_failure_kind (uf_kind failure)) (uf_status failure) (uf_retry_after_ms failure)).
  destruct (execute data_plane_retry env request h) as [w x] eqn:He.
  assert (exists hist, x = Return (ExecutionFailed TerminalNoEligibleAccount hist)) as [hist ->].
  { apply (lone_execute env request (mkExecutionCandidate (Routing.ra_id account)
      (Routing.authentication account) 1) f) with (h := h) (w := w); try done.
    - intros ctx b Hctx. cbn. unfold request_attempt, attempt_request. rewrite Hacc. cbn [List.find].
      rewrite bool_decide_true by done. cbn. by rewrite Hex.
    - unfold f, retry_class, AttemptFailure_new. cbn.
      repeat (apply elem_of_cons in Hkind as [-> |Hkind]; [done|]). by apply not_elem_of_nil in Hkind.
    - exact (Hs _). }
  destruct (execute_calls env request h (rely_steady _ (Hs _))) as (w' & out & He' & _ & Hhist & _); [|done|done|].
  { constructor; [done|constructor]. }
  rewrite He in He'. injection He' as <- <-. cbn [goes_on]. destruct (history_length hist =? 0); [by eexists|].
  set (last := foldl _ _ _). cbn [settle_outcome].
  unfold request_observation_without_usage, final_attempt_id. cbn in Hhist. rewrite Hhist, history_iter.
  by eexists.
Qed.
End Masked.

(** ** Witnesses *)
(** One provider with one account, behind the alias [m]; its upstream answers
    every call with a rate limit. *)
Definition demo_provider : Routing.RouteProvider :=
  Routing.mkRouteProvider "prov" "catalog" "https://upstream.test/" Routing.PublicOnly OpenAiChat KindKey
    (mkCapabilities true true true false false true false)
    [Routing.mkRouteAccount "light" (AuthApiKey "secret:light")] [] ∅.

Definition demo_snapshot : RuntimeSnapshot :=
  Snapshot.mkSnapshot {["prov"%string := demo_provider]} {["m"%string := mkTarget "prov" "model-a"]} [] None [].

Definition demo_canonical : CanonicalRequest := mkCanonical "req-1" "m" None [] [] false None ∅.

Definition demo_executor (_ : UpstreamExecutionRequest) : UpstreamExecutionResult :=
  ExecFailed (with_status 429 (failure_new UpRateLimited)).

Definition demo_surroundings (_ : AccountAuthentication) : Surroundings AccountHealthTable :=
  mkSurroundings (fun _ => false) (fun o => 1000 + o) (fun _ => true) (fun _ => false) (fun _ h => h) (fun _ h => h).

#[local] Instance demo_serde : EventSerde :=
  {| event_writes _ := [1]; events_writes _ := [1]; request_writes _ := [1] |}.

Lemma demo_surroundings_respectful upstream a : respectful (environment upstream (demo_surroundings a)).
Proof. split; [by split|done..]. Qed.

(** The same, while other requests report the account healthy at every moment. *)
Definition busy_surroundings (_ : AccountAuthentication) : Surroundings AccountHealthTable :=
  mkSurroundings (fun _ => false) (fun o => 1000 + o) (fun _ => true) (fun _ => false)
    (fun o h => (observe h "light" Success (1000 + o)).2) (fun _ h => h).

Lemma busy_surroundings_steady upstream a : steady (environment upstream (busy_surroundings a)).
Proof. apply used_steady; intros o t; [|apply used_not]. eapply used_observe, used_not. Qed.

Definition demo_execution :=
  execute_canonical demo_executor (Some demo_snapshot) true "client" demo_canonical OpText
    demo_surroundings demo_table.

(** The retry then goes to the same account. *)
Lemma dispatch_calls_confined_witness :
  exists r calls h', execute_canonical demo_executor (Some demo_snapshot) true "client" demo_canonical OpText
    busy_surroundings demo_table = (Some r, (calls, h')) /\ zlen calls = 2 /\ zlen calls <= MAX_TOTAL_ATTEMPTS.
Proof.
  destruct (dispatch_calls_confined demo_executor (Some demo_snapshot) true "client" demo_canonical OpText
              busy_surroundings demo_table) as (r & calls & h' & H & Hn & _).
  - exact busy_surroundings_steady.
  - exact demo_consistent.
  - assert (zlen (execute_canonical demo_executor (Some demo_snapshot) true "client" demo_canonical OpText
      busy_surroundings demo_table).2.1 = 2) as Htwo by (vm_compute; reflexivity).
    rewrite H in Htwo. exists r, calls, h'. split; [exact H|]. split; [exact Htwo|exact Hn].
Defined.

(** One call is made and its 429 is reported as 502. *)
Lemma lone_account_failure_masked_witness :
  zlen demo_execution.2.1 = 1 /\
  exists e, demo_execution.1 = Some (Err e) /\ de_error e = gateway_transport "no eligible account" /\
    http_status (de_error e) = 502.
Proof.
  split; [vm_compute; reflexivity|].
  eapply (lone_account_failure_masked demo_executor (Some demo_snapshot) true "client" demo_canonical _ OpText
            _ (Routing.mkRouteAccount "light" (AuthApiKey "secret:light")) _ demo_surroundings demo_table).
  - vm_compute. reflexivity.
  - reflexivity.
  - intros request. reflexivity.
  - left.
  - reflexivity.
  - reflexivity.
  - exact (fun upstream => demo_surroundings_respectful upstream _).
  - exact demo_consistent.
  - vm_compute. reflexivity.
Defined.
