(* ===== verification/Inbound.v ===== *)
(** * Decoding client requests: limits and shared steps

    Models [crates/wokcore-protocols/src/inbound/mod.rs] and the helpers that
    [inbound/chat.rs] and [inbound/responses.rs] have in common: the limits on a
    decoded request, the check of image URLs and the insertion of an extension
    next to those the client sent.  URL parsing, base64 and JSON printing are
    parameters. *)
From Stdlib Require Import Ascii.
From stdpp Require Import pretty.
From S2P Require Import Prelude Json Canonical UpstreamCommon NetAddr Text.

(** ** Limits *)
Record InboundLimits : Set := mkInboundLimits {
  il_max_body_bytes : Z;
  il_max_identifier_bytes : Z;
  il_max_input_items : Z;
  il_max_tools : Z;
  il_max_images : Z;
  il_max_extension_fields : Z;
  il_max_retained_value_bytes : Z
}.

Definition InboundLimits_default : InboundLimits :=
  mkInboundLimits (16 * 1024 * 1024) 512 16384 4096 4096 65536 (16 * 1024 * 1024).

Definition inbound_identifier (value : string) (l : InboundLimits) : result GatewayError unit :=
  guard_err (str_is_empty value || (il_max_identifier_bytes l <? str_len value)) invalid_request.

Definition validate_retained_text (value : string) (l : InboundLimits) : result GatewayError unit :=
  guard_err (il_max_retained_value_bytes l <? str_len value) invalid_request.

Definition validate_extension_key (key : string) (l : InboundLimits) : result GatewayError unit :=
  guard_err (str_is_empty key || (il_max_retained_value_bytes l <? str_len key)) invalid_request.

Definition is_semantic_identifier_key (key : string) : bool :=
  bool_decide (key ∈ ["id"%string; "model"%string; "name"%string]) || ends_with "_id" key.

(** [Result::ok] followed by [?] in a function that returns an option. *)
Definition ok {E A} (r : result E A) : option A :=
  match r with Ok a => Some a | Err _ => None end.

(** The checks on an entry of an object before its value is walked. *)
Definition entry_ok (key : string) (value : Value) (l : InboundLimits) : option unit :=
  _ ← ok (validate_extension_key key l);
  if is_semantic_identifier_key key then
    match as_str value with
    | Some identifier => ok (inbound_identifier identifier l)
    | None => Some tt
    end
  else Some tt.

(** [iter.try_fold] in [Option]. *)
Definition opt_fold {S A} (f : S -> A -> option S) : S -> list A -> option S :=
  fix walk (s : S) (items : list A) {struct items} : option S :=
    match items with
    | [] => Some s
    | a :: items => s ← f s a; walk s items
    end.

Fixpoint validate_extension_tree (l : InboundLimits) (value : Value) {struct value} : option Z :=
  match value with
  | VArray values =>
      opt_fold (fun fields v =>
        nested ← validate_extension_tree l v; checked_add64 fields nested) 0 values
  | VObject entries =>
      opt_fold (fun fields '(key, v) =>
        _ ← entry_ok key v l;
        fields ← checked_add64 fields 1;
        nested ← validate_extension_tree l v;
        checked_add64 fields nested) 0 entries
  | VNull | VBool _ | VNumber _ | VString _ => Some 0
  end.

Section Validate.
Context `{HJ : JsonCrate}.

(** [serde_json::to_vec] of a [Value] cannot fail. *)
Definition validate_retained_value (value : Value) (l : InboundLimits) : result GatewayError unit :=
  guard_err (il_max_retained_value_bytes l <? str_len (to_string value)) invalid_request.

Definition validate_extension (l : InboundLimits) (fields : Z) (entry : string * Value)
  : result GatewayError Z :=
  check? validate_extension_key entry.1 l;
  check? validate_retained_value entry.2 l;
  ok_or (fields ← checked_add64 fields 1;
         nested ← validate_extension_tree l entry.2;
         checked_add64 fields nested) invalid_request.

Definition validate_extensions (extensions : json_map) (l : InboundLimits) : result GatewayError Z :=
  try_fold (validate_extension l) 0 (btree_iter extensions).

Definition validate_tool (tool : ToolDefinition) (l : InboundLimits) : result GatewayError unit :=
  check? inbound_identifier (tool_name tool) l;
  check? match tool_description tool with
         | Some description => validate_retained_text description l
         | None => Ok tt
         end;
  validate_retained_value (tool_input_schema tool) l.

Definition validate_item (l : InboundLimits) (image_count : Z) (item : InputItem)
  : result GatewayError Z :=
  match item with
  | InText text => check? validate_retained_text text l; Ok image_count
  | InImageUrl url _ =>
      let? image_count := ok_or (checked_add64 image_count 1) invalid_request in
      check? validate_retained_text url l; Ok image_count
  | InToolResult call_id output =>
      check? inbound_identifier call_id l;
      check? validate_retained_value output l; Ok image_count
  end.

Definition count_tool_extensions (l : InboundLimits) (extension_fields : Z) (tool : ToolDefinition)
  : result GatewayError Z :=
  check? validate_tool tool l;
  let? fields := validate_extensions (tool_extensions tool) l in
  ok_or (checked_add64 extension_fields fields) invalid_request.

Definition count_reasoning_extensions (l : InboundLimits) (extension_fields : Z)
  (reasoning : option ReasoningOptions) : result GatewayError Z :=
  match reasoning with
  | Some reasoning =>
      check? match effort reasoning with
             | Some e => inbound_identifier e l
             | None => Ok tt
             end;
      let? fields := validate_extensions (reasoning_extensions reasoning) l in
      ok_or (checked_add64 extension_fields fields) invalid_request
  | None => Ok extension_fields
  end.

Definition validate_canonical_request (request : CanonicalRequest) (l : InboundLimits)
  : result GatewayError unit :=
  check? inbound_identifier (cr_request_id request) l;
  check? inbound_identifier (cr_req_model request) l;
  check? match cr_thread_key request with
         | Some thread_key => inbound_identifier thread_key l
         | None => Ok tt
         end;
  check? guard_err ((il_max_input_items l <? zlen (cr_input request))
                    || (il_max_tools l <? zlen (cr_tools request))) invalid_request;
  let? image_count := try_fold (validate_item l) 0 (cr_input request) in
  check? guard_err (il_max_images l <? image_count) invalid_request;
  let? extension_fields := validate_extensions (cr_extensions request) l in
  let? extension_fields := try_fold (count_tool_extensions l) extension_fields (cr_tools request) in
  let? extension_fields := count_reasoning_extensions l extension_fields (cr_reasoning request) in
  guard_err (il_max_extension_fields l <? extension_fields) invalid_request.
End Validate.

(** ** Shared steps of the decoders *)
Definition validate_non_empty (value : string) : result GatewayError unit :=
  guard_err (str_is_empty value) invalid_request.

(** [while extensions.contains_key(&nested_key) { .. }]: the first free key of
    [base], [base.2], [base.3] and so on; [None] when the fuel is spent. *)
Fixpoint free_key (fuel : nat) (extensions : json_map) (base nested_key : string) (suffix : Z)
  : option string :=
  match extensions !! nested_key with
  | None => Some nested_key
  | Some _ =>
      match fuel with
      | O => None
      | S fuel => free_key fuel extensions base (numbered (base +:+ ".") suffix) (suffix + 1)
      end
  end.

(** The fuel is the number of keys there are; [free_key_found] shows it is
    never spent. *)
Definition insert_extension_without_collision (extensions : json_map) (key : string) (value : Value)
  : json_map :=
  match extensions !! key with
  | None => <[key := value]> extensions
  | Some _ =>
      let base := key +:+ ".nested" in
      match free_key (size extensions) extensions base base 2 with
      | Some nested_key => <[nested_key := value]> extensions
      | None => extensions
      end
  end.

(** What the sources use of a parsed URL besides [UrlCrate]. *)
Class UrlText `{UrlCrate} : Type := {
  url_as_str : Url -> string
}.

(** [STANDARD.decode] of the base64 crate. *)
Class Base64Crate : Type := {
  standard_decode : list Z -> option (list Z)
}.

(** [value.split_once(',')]. *)
Fixpoint split_once (c : ascii) (s : string) : option (string * string) :=
  match s with
  | EmptyString => None
  | String x s =>
      if bool_decide (x = c) then Some (EmptyString, s)
      else '(before, after) ← split_once c s; Some (String x before, after)
  end.

(** [value.split(c)]: never empty. *)
Fixpoint split_on (c : ascii) (s : string) : list string :=
  match s with
  | EmptyString => [EmptyString]
  | String x s =>
      if bool_decide (x = c) then EmptyString :: split_on c s
      else match split_on c s with
           | field :: fields => String x field :: fields
           | [] => [String x EmptyString]
           end
  end.

(** [value.get(n..)]: [None] past the end or inside a character. *)
Fixpoint str_get_from (n : nat) (s : string) : option string :=
  match n, s with
  | O, EmptyString => Some EmptyString
  | O, String x _ => if utf8_cont (byte_val x) then None else Some s
  | S n, String _ s => str_get_from n s
  | S _, EmptyString => None
  end.

Definition IMAGE_TYPES : list string :=
  ["image/png"%string; "image/jpeg"%string; "image/webp"%string; "image/gif"%string].

Section Images.
Context `{HU : UrlCrate, !UrlText, HB : Base64Crate}.

Definition validate_data_image_url (value : string) : bool :=
  match split_once ","%char value with
  | None => false
  | Some (metadata, payload) =>
      match str_get_from 5 metadata with
      | None => false
      | Some metadata =>
          match split_on ";"%char metadata with
          | [mime; encoding] =>
              bool_decide (to_ascii_lowercase mime ∈ IMAGE_TYPES)
              && eq_ignore_ascii_case encoding "base64"
              && negb (str_is_empty payload)
              && is_some_and (fun decoded => negb (is_emptyb decoded))
                   (standard_decode (str_bytes payload))
          | _ => false
          end
      end
  end.

Definition decode_image_url (value : string) : result GatewayError string :=
  let? url := ok_or (url_parse value) invalid_request in
  let allowed :=
    if scheme_is_http_or_https (url_scheme url) then true
    else if bool_decide (url_scheme url = "data"%string) then validate_data_image_url value
    else false in
  check? guard_err (negb allowed) invalid_request;
  Ok (url_as_str url).
End Images.

(** * What the shared steps of request decoding guarantee

    The search for a free extension key ends, an inserted extension never
    replaces one the client sent, and the limits accept exactly the requests
    within them. *)

(** ** Free keys *)
Lemma numbered_inj prefix n m :
  0 <= n -> 0 <= m -> numbered prefix n = numbered prefix m -> n = m.
Proof.
  unfold numbered. intros ?? H. apply (inj (String.append prefix)) in H.
  apply (inj pretty) in H. lia.
Qed.

(** The keys tried from a suffix on. *)
Definition tried (base : string) (suffix : Z) (n : nat) : list string :=
  (fun i => numbered (base +:+ ".") (suffix + Z.of_nat i)) <$> seq 0 n.

Lemma tried_NoDup base suffix n : 0 <= suffix -> NoDup (tried base suffix n).
Proof.
  intros Hs. unfold tried. apply list.NoDup_fmap_2_strong; [|apply NoDup_seq].
  intros i j _ _ He. apply numbered_inj in He; lia.
Qed.

Lemma tried_S base suffix n :
  tried base suffix (S n) = numbered (base +:+ ".") suffix :: tried base (suffix + 1) n.
Proof.
  unfold tried. cbn [seq fmap list_fmap]. f_equal; [by rewrite Z.add_0_r|].
  rewrite <- fmap_S_seq, <- list_fmap_compose. apply list_fmap_ext. intros i x _. cbn. f_equal. lia.
Qed.

Lemma free_key_None fuel extensions base key suffix :
  free_key fuel extensions base key suffix = None ->
  forall k, k ∈ key :: tried base suffix fuel -> is_Some (extensions !! k).
Proof.
  revert key suffix. induction fuel as [|fuel IH]; intros key suffix; cbn [free_key];
    destruct (extensions !! key) as [v|] eqn:Hk; try discriminate; intros H k Hin.
  - apply list_elem_of_singleton in Hin. subst. eauto.
  - apply elem_of_cons in Hin as [->|Hin]; [eauto|].
    rewrite tried_S in Hin. by eapply IH.
Qed.

Lemma base_not_tried base suffix n : base ∉ tried base suffix n.
Proof.
  unfold tried. rewrite list_elem_of_fmap. intros (i & He & _). unfold numbered in He.
  apply (f_equal str_len) in He. rewrite !str_len_app in He.
  pose proof (str_len_nonneg (pretty (Z.to_N (suffix + Z.of_nat i)))).
  change (str_len ".") with 1 in He. lia.
Qed.

(** More fuel than keys cannot be spent: the tried keys are distinct. *)
Lemma free_key_found extensions base :
  exists k, free_key (size extensions) extensions base base 2 = Some k.
Proof.
  destruct (free_key _ _ _ _ _) as [k|] eqn:Hf; [eauto|exfalso].
  pose proof (free_key_None _ _ _ _ _ Hf) as Hall.
  assert (NoDup (base :: tried base 2 (size extensions))) as Hnd.
  { apply list.NoDup_cons. split; [apply base_not_tried|]. by apply tried_NoDup. }
  assert (list_to_set (base :: tried base 2 (size extensions)) ⊆ dom extensions) as Hsub.
  { intros k Hk. apply elem_of_list_to_set in Hk. by apply elem_of_dom, Hall. }
  apply subseteq_size in Hsub. rewrite size_list_to_set, size_dom in Hsub by done.
  cbn [length] in Hsub. unfold tried in Hsub. rewrite length_fmap, length_seq in Hsub. lia.
Qed.

Lemma free_key_free fuel extensions base key suffix k :
  free_key fuel extensions base key suffix = Some k ->
  extensions !! k = None /\ (k = key \/ exists n, k = numbered (base +:+ ".") n).
Proof.
  revert key suffix. induction fuel as [|fuel IH]; intros key suffix; cbn [free_key];
    destruct (extensions !! key) eqn:Hk; try discriminate; intros H.
  - injection H as <-. auto.
  - apply IH in H as [? [->|?]]; eauto.
  - injection H as <-. auto.
Qed.

Lemma insert_extension_spec extensions key value :
  exists k, extensions !! k = None /\ (extensions !! key = None -> k = key) /\
    insert_extension_without_collision extensions key value = <[k := value]> extensions.
Proof.
  unfold insert_extension_without_collision. destruct (extensions !! key) eqn:Hk; [|eauto].
  destruct (free_key_found extensions (key +:+ ".nested")) as [k Hf]. rewrite Hf.
  apply free_key_free in Hf as [Hn _]. exists k. split_and!; [done|discriminate|done].
Qed.

Lemma insert_extension_mono extensions key value :
  extensions ⊆ insert_extension_without_collision extensions key value.
Proof.
  destruct (insert_extension_spec extensions key value) as (k & Hn & _ & ->). by apply insert_subseteq.
Qed.

(** ** The limits

    The entries of a value are those of its objects at every depth; the number
    the source counts is their number. *)
Fixpoint tree_entries (value : Value) : list (string * Value) :=
  match value with
  | VArray values => concat (tree_entries <$> values)
  | VObject entries => concat ((fun '(k, v) => (k, v) :: tree_entries v) <$> entries)
  | VNull | VBool _ | VNumber _ | VString _ => []
  end.

Definition map_entries (m : json_map) : list (string * Value) := tree_entries (of_map m).

Section Exact.
Context (l : InboundLimits).

Definition identifier_fits (s : string) : Prop := s <> ""%string /\ str_len s <= il_max_identifier_bytes l.
Definition key_fits (s : string) : Prop := s <> ""%string /\ str_len s <= il_max_retained_value_bytes l.

(** An entry inside an extension: its key fits, and an identifier it holds. *)
Definition entry_fits (e : string * Value) : Prop :=
  key_fits e.1 /\
  (is_semantic_identifier_key e.1 = true -> forall s, e.2 = VString s -> identifier_fits s).

Lemma too_long_false s n : str_is_empty s || (n <? str_len s) = false <-> s <> ""%string /\ str_len s <= n.
Proof. rewrite orb_false_iff, str_is_empty_false, Z.ltb_ge. done. Qed.

Lemma inbound_identifier_Ok s u : inbound_identifier s l = Ok u <-> identifier_fits s.
Proof. unfold inbound_identifier. rewrite guard_err_Ok. apply too_long_false. Qed.

Lemma validate_extension_key_Ok s u : validate_extension_key s l = Ok u <-> key_fits s.
Proof. unfold validate_extension_key. rewrite guard_err_Ok. apply too_long_false. Qed.

Lemma ok_Some {E A} (r : result E A) a : ok r = Some a <-> r = Ok a.
Proof. destruct r; cbn; split; congruence. Qed.

Lemma entry_ok_Some k v u : entry_ok k v l = Some u <-> entry_fits (k, v).
Proof.
  unfold entry_ok, entry_fits. cbn [fst snd]. rewrite bind_Some.
  setoid_rewrite ok_Some. setoid_rewrite validate_extension_key_Ok.
  destruct (is_semantic_identifier_key k); [|destruct u; naive_solver].
  destruct v; cbn [as_str]; destruct u; try naive_solver.
  setoid_rewrite ok_Some. setoid_rewrite inbound_identifier_Ok. split; [intros (? & ? & ?)|intros [? H]]; [split; [done|]|].
  - by intros _ ? [= ->].
  - exists tt. eauto.
Qed.

Lemma checked_add64_iff a b c : checked_add64 a b = Some c <-> c = a + b /\ c <= u64_max.
Proof.
  split; [apply checked_add64_Some|]. intros [-> Hle].
  destruct (checked_add64 a b) eqn:Hc; [apply checked_add64_Some in Hc as [-> _]; done|].
  apply checked_add64_None in Hc. lia.
Qed.

(** A fold that checks its items and counts what they hold. *)
Lemma opt_fold_count {A B} (f : Z -> A -> option Z) (P : A -> Prop) (held : A -> list B) items :
  (forall a s s', a ∈ items -> 0 <= s <= u64_max ->
     f s a = Some s' <-> P a /\ s' = s + zlen (held a) /\ s' <= u64_max) ->
  forall s s', 0 <= s <= u64_max ->
    opt_fold f s items = Some s' <->
    Forall P items /\ s' = s + zlen (concat (held <$> items)) /\ s' <= u64_max.
Proof.
  induction items as [|a items IH]; intros Hf s s' Hs; cbn [opt_fold fmap list_fmap concat].
  { change (zlen []) with 0. rewrite Z.add_0_r.
    split; [intros [= <-]; split_and!; [constructor|done|lia]|by intros (_ & -> & _)]. }
  rewrite bind_Some, list.Forall_cons, zlen_app.
  setoid_rewrite (fun s' => Hf a s s' (list_elem_of_here _ _) Hs).
  assert (forall a s s', a ∈ items -> 0 <= s <= u64_max ->
    f s a = Some s' <-> P a /\ s' = s + zlen (held a) /\ s' <= u64_max) as Hf'.
  { intros b s1 s2 Hb. apply Hf. by apply list_elem_of_further. }
  specialize (IH Hf'). split.
  - intros (s1 & (Ha & -> & Hle) & Hw). pose proof (zlen_nonneg (held a)).
    apply IH in Hw as (? & -> & ?); [|lia]. split_and!; [done|done|lia|done].
  - intros ([Ha Hall] & -> & Hle). pose proof (zlen_nonneg (held a)).
    pose proof (zlen_nonneg (concat (held <$> items))).
    eexists. split; [split_and!; [done|reflexivity|lia]|]. apply IH; [lia|]. split_and!; [done|lia|lia].
Qed.

Lemma validate_extension_tree_Some value n :
  validate_extension_tree l value = Some n <->
  Forall entry_fits (tree_entries value) /\ n = zlen (tree_entries value) /\ n <= u64_max.
Proof.
  revert n. induction value as [| | | |values IH|entries IH] using value_ind_nested; intros m;
    cbn [validate_extension_tree tree_entries];
    try (split; [intros [= <-]; split_and!; [constructor|done|done]|by intros (_ & -> & _)]).
  - rewrite (opt_fold_count _ (fun v => Forall entry_fits (tree_entries v)) tree_entries).
    + by rewrite Forall_concat, list.Forall_fmap.
    + intros v s s' Hv Hs. rewrite list.Forall_forall in IH. rewrite bind_Some. setoid_rewrite (IH v Hv).
      setoid_rewrite checked_add64_iff. pose proof (zlen_nonneg (tree_entries v)).
      split; [intros (? & (? & -> & ?) & -> & ?); done|intros (? & -> & ?)].
      eexists. split; [split_and!; [done|reflexivity|lia]|]. lia.
    + done.
  - rewrite (opt_fold_count _ (fun e => Forall entry_fits (e :: tree_entries e.2))
               (fun '(k, v) => (k, v) :: tree_entries v)).
    + rewrite Forall_concat, list.Forall_fmap. rewrite Z.add_0_l.
      f_equiv. apply list.Forall_iff. by intros [k v].
    + intros [k v] s s' Hv Hs. rewrite list.Forall_forall in IH. specialize (IH _ Hv). cbn [snd] in IH |- *.
      rewrite list.Forall_cons, zlen_cons, bind_Some. setoid_rewrite entry_ok_Some.
      do 2 setoid_rewrite bind_Some. setoid_rewrite IH. setoid_rewrite checked_add64_iff.
      pose proof (zlen_nonneg (tree_entries v)). split.
      * intros (_ & ? & ? & [-> ?] & ? & (? & -> & ?) & -> & ?). split_and!; [done|done|lia|lia].
      * intros ([? ?] & -> & ?). exists tt. split; [done|]. eexists. split; [split; [reflexivity|lia]|].
        eexists. split; [split_and!; [done|reflexivity|lia]|]. lia.
    + done.
Qed.

(** The same fold in [Result]. *)
Lemma ok_try_fold {E S A} (f : S -> A -> result E S) items s :
  ok (try_fold f s items) = opt_fold (fun s a => ok (f s a)) s items.
Proof. revert s. induction items as [|a items IH]; intros s; cbn; [done|]. by destruct (f s a); cbn. Qed.

Lemma try_fold_count {E A B} (f : Z -> A -> result E Z) (P : A -> Prop) (held : A -> list B) items s s' :
  (forall a s s', 0 <= s <= u64_max -> f s a = Ok s' <-> P a /\ s' = s + zlen (held a) /\ s' <= u64_max) ->
  0 <= s <= u64_max ->
  try_fold f s items = Ok s' <->
  Forall P items /\ s' = s + zlen (concat (held <$> items)) /\ s' <= u64_max.
Proof.
  intros Hf Hs. rewrite <- ok_Some, ok_try_fold. apply opt_fold_count; [|done].
  intros a r r' _ Hr. rewrite ok_Some. by apply Hf.
Qed.

Context `{HJ : JsonCrate}.

Definition text_fits (s : string) : Prop := str_len s <= il_max_retained_value_bytes l.
Definition value_fits (v : Value) : Prop := text_fits (to_string v).

(** An extension: its own key and size, and the entries inside it. *)
Definition extension_fits (e : string * Value) : Prop :=
  key_fits e.1 /\ value_fits e.2 /\ Forall entry_fits (tree_entries e.2).

Definition extensions_fit (m : json_map) : Prop := Forall extension_fits (btree_iter m).

Lemma retained_text_Ok s u : validate_retained_text s l = Ok u <-> text_fits s.
Proof. unfold validate_retained_text, text_fits. by rewrite guard_err_Ok, Z.ltb_ge. Qed.

Lemma retained_value_Ok v u : validate_retained_value v l = Ok u <-> value_fits v.
Proof. unfold validate_retained_value, value_fits, text_fits. by rewrite guard_err_Ok, Z.ltb_ge. Qed.

Lemma validate_extensions_Ok m n :
  validate_extensions m l = Ok n <-> extensions_fit m /\ n = zlen (map_entries m) /\ n <= u64_max.
Proof.
  unfold validate_extensions, map_entries. cbn [of_map tree_entries].
  rewrite (try_fold_count _ extension_fits (fun '(k, v) => (k, v) :: tree_entries v)); [done| |done].
  intros [k v] s s' Hs. unfold validate_extension, extension_fits. cbn [fst snd].
  rewrite !check_Ok, validate_extension_key_Ok, retained_value_Ok, ok_or_Ok, bind_Some.
  setoid_rewrite bind_Some. setoid_rewrite validate_extension_tree_Some. setoid_rewrite checked_add64_iff.
  rewrite zlen_cons. pose proof (zlen_nonneg (tree_entries v)). split.
  - intros (? & ? & ? & [-> ?] & ? & (? & -> & ?) & -> & ?). split_and!; try done; lia.
  - intros ((? & ? & ?) & -> & ?). split_and!; [done|done|]. eexists. split; [split; [reflexivity|lia]|].
    eexists. split; [split_and!; [done|reflexivity|lia]|]. lia.
Qed.

(** ** Requests within the limits *)
Definition item_fits (item : InputItem) : Prop :=
  match item with
  | InText text => text_fits text
  | InImageUrl url _ => text_fits url
  | InToolResult call_id output => identifier_fits call_id /\ value_fits output
  end.

Definition tool_fits (tool : ToolDefinition) : Prop :=
  identifier_fits (tool_name tool) /\ (forall d, tool_description tool = Some d -> text_fits d) /\
  value_fits (tool_input_schema tool) /\ extensions_fit (tool_extensions tool).

Definition images (item : InputItem) : list InputItem :=
  match item with InImageUrl _ _ => [item] | _ => [] end.

(** All extension fields of a request, at every depth. *)
Definition request_fields (r : CanonicalRequest) : list (string * Value) :=
  map_entries (cr_extensions r) ++
  concat ((fun tool => map_entries (tool_extensions tool)) <$> cr_tools r) ++
  from_option (fun reasoning => map_entries (reasoning_extensions reasoning)) [] (cr_reasoning r).

Record within_limits (r : CanonicalRequest) : Prop := {
  wl_request_id : identifier_fits (cr_request_id r);
  wl_model : identifier_fits (cr_req_model r);
  wl_thread : forall key, cr_thread_key r = Some key -> identifier_fits key;
  wl_input : zlen (cr_input r) <= il_max_input_items l;
  wl_tools : zlen (cr_tools r) <= il_max_tools l;
  wl_items : Forall item_fits (cr_input r);
  wl_images : zlen (concat (images <$> cr_input r)) <= il_max_images l;
  wl_each_tool : Forall tool_fits (cr_tools r);
  wl_extensions : extensions_fit (cr_extensions r);
  wl_reasoning : forall reasoning, cr_reasoning r = Some reasoning ->
    (forall e, effort reasoning = Some e -> identifier_fits e) /\
    extensions_fit (reasoning_extensions reasoning);
  wl_fields : zlen (request_fields r) <= il_max_extension_fields l
}.

Lemma validate_item_Ok item s s' :
  0 <= s <= u64_max ->
  validate_item l s item = Ok s' <-> item_fits item /\ s' = s + zlen (images item) /\ s' <= u64_max.
Proof.
  intros Hs. destruct item; cbn [validate_item item_fits images].
  - rewrite check_Ok, retained_text_Ok. change (zlen []) with 0. split; [|intros (? & -> & ?); split; [done|f_equal; lia]].
    intros [? [= <-]]. split_and!; [done|lia|lia].
  - rewrite result_bind_Ok. setoid_rewrite check_Ok. setoid_rewrite ok_or_Ok.
    setoid_rewrite checked_add64_iff. setoid_rewrite retained_text_Ok.
    rewrite zlen_cons. change (zlen []) with 0. split; [|intros (? & -> & ?)].
    + intros (? & [-> ?] & ? & [= <-]). split_and!; [done|lia|done].
    + eexists. split_and!; [reflexivity|lia|done|]. by f_equal.
  - rewrite !check_Ok, inbound_identifier_Ok, retained_value_Ok. change (zlen []) with 0.
    split; [|intros ([? ?] & -> & ?); split_and!; [done|done|f_equal; lia]].
    intros (? & ? & [= <-]). split_and!; [done|done|lia|lia].
Qed.

Lemma count_tool_extensions_Ok tool s s' :
  0 <= s <= u64_max ->
  count_tool_extensions l s tool = Ok s' <->
  tool_fits tool /\ s' = s + zlen (map_entries (tool_extensions tool)) /\ s' <= u64_max.
Proof.
  intros Hs. unfold count_tool_extensions, validate_tool, tool_fits.
  rewrite !check_Ok, inbound_identifier_Ok, retained_value_Ok, result_bind_Ok,
    (optional_check_Ok _ text_fits) by (intros; apply retained_text_Ok).
  setoid_rewrite validate_extensions_Ok. setoid_rewrite ok_or_Ok. setoid_rewrite checked_add64_iff.
  assert (from_option text_fits True (tool_description tool) <->
    forall d, tool_description tool = Some d -> text_fits d) as ->.
  { destruct (tool_description tool); cbn; naive_solver. }
  pose proof (zlen_nonneg (map_entries (tool_extensions tool))). split.
  - intros ((? & ? & ?) & ? & (? & -> & ?) & -> & ?). done.
  - intros ((? & ? & ? & ?) & -> & ?). split_and!; [done..|]. eexists.
    split; [split_and!; [done|reflexivity|lia]|]. lia.
Qed.

Lemma optional_identifier_Ok o :
  match o with Some s => inbound_identifier s l | None => Ok tt end = Ok tt <->
  (forall s, o = Some s -> identifier_fits s).
Proof.
  rewrite (optional_check_Ok _ identifier_fits) by (intros; apply inbound_identifier_Ok).
  destruct o; cbn; naive_solver.
Qed.

Definition reasoning_fits (o : option ReasoningOptions) : Prop :=
  forall reasoning, o = Some reasoning ->
    (forall e, effort reasoning = Some e -> identifier_fits e) /\
    extensions_fit (reasoning_extensions reasoning).

Lemma count_reasoning_extensions_Ok o s s' :
  0 <= s <= u64_max ->
  count_reasoning_extensions l s o = Ok s' <->
  reasoning_fits o /\
  s' = s + zlen (from_option (fun reasoning => map_entries (reasoning_extensions reasoning)) [] o) /\
  s' <= u64_max.
Proof.
  intros Hs. unfold reasoning_fits. destruct o as [o|]; cbn [count_reasoning_extensions from_option].
  - rewrite check_Ok, optional_identifier_Ok, result_bind_Ok. setoid_rewrite validate_extensions_Ok.
    setoid_rewrite ok_or_Ok. setoid_rewrite checked_add64_iff.
    pose proof (zlen_nonneg (map_entries (reasoning_extensions o))). split.
    + intros (? & ? & (? & -> & ?) & -> & ?). split_and!; [by intros ? [= <-]|done|done].
    + intros (H1 & -> & ?). destruct (H1 o eq_refl). split; [done|]. eexists.
      split; [split_and!; [done|reflexivity|lia]|]. lia.
  - change (zlen []) with 0. split; [intros [= <-]; split_and!; [done|lia|lia]|].
    intros (_ & -> & _). f_equal. lia.
Qed.

Lemma tool_fields_Ok tools s s' :
  0 <= s <= u64_max ->
  try_fold (count_tool_extensions l) s tools = Ok s' <->
  Forall tool_fits tools /\
  s' = s + zlen (concat ((fun tool => map_entries (tool_extensions tool)) <$> tools)) /\ s' <= u64_max.
Proof. intros Hs. apply try_fold_count; [|done]. intros. by apply count_tool_extensions_Ok. Qed.

Lemma validate_canonical_request_Ok r :
  il_max_images l <= u64_max -> il_max_extension_fields l <= u64_max ->
  validate_canonical_request r l = Ok tt <-> within_limits r.
Proof.
  intros Hi Hm. unfold validate_canonical_request.
  rewrite !check_Ok, !inbound_identifier_Ok, optional_identifier_Ok, guard_err_Ok, orb_false_iff, !Z.ltb_ge.
  rewrite result_bind_Ok. setoid_rewrite check_Ok. setoid_rewrite guard_err_Ok. setoid_rewrite Z.ltb_ge.
  setoid_rewrite result_bind_Ok. setoid_rewrite validate_extensions_Ok.
  setoid_rewrite (try_fold_count _ item_fits images); [|intros; by apply validate_item_Ok|done].
  split.
  - intros (? & ? & ? & [? ?] & n & (? & -> & ?) & ? & fields & (? & -> & ?) & Hrest).
    pose proof (zlen_nonneg (map_entries (cr_extensions r))).
    apply result_bind_Ok in Hrest as (f1 & Hf1 & Hrest). apply result_bind_Ok in Hrest as (f2 & Hf2 & Hf3).
    apply tool_fields_Ok in Hf1 as (? & -> & ?); [|lia].
    pose proof (zlen_nonneg (concat ((fun tool => map_entries (tool_extensions tool)) <$> cr_tools r))).
    apply count_reasoning_extensions_Ok in Hf2 as (? & -> & ?); [|lia].
    apply guard_err_Ok, Z.ltb_ge in Hf3.
    constructor; try done. unfold request_fields. rewrite !zlen_app. lia.
  - intros [? ? ? ? ? ? ? ? ? ? Hf]. unfold request_fields in Hf. rewrite !zlen_app in Hf.
    pose proof (zlen_nonneg (map_entries (cr_extensions r))).
    pose proof (zlen_nonneg (concat ((fun tool => map_entries (tool_extensions tool)) <$> cr_tools r))).
    pose proof (zlen_nonneg (from_option
      (fun reasoning => map_entries (reasoning_extensions reasoning)) [] (cr_reasoning r))).
    split_and!; try done. eexists. split_and!; [done|reflexivity|lia|lia|]. eexists.
    split; [split_and!; [done|reflexivity|lia]|].
    apply result_bind_Ok. eexists. split; [apply tool_fields_Ok; [lia|split_and!; [done|reflexivity|lia]]|].
    apply result_bind_Ok. eexists.
    split; [apply count_reasoning_extensions_Ok; [lia|split_and!; [done|reflexivity|lia]]|].
    apply guard_err_Ok, Z.ltb_ge. lia.
Qed.
End Exact.
