(* ===== verification/ChatDecode.v ===== *)
(** * Decoding chat completions requests

    Models [crates/wokcore-protocols/src/inbound/chat.rs].  The wire structs are
    what [serde] derives them from; their deserializer is the parameter
    [chat_from_slice].  A [#[serde(flatten)]] map holds only keys that are not
    fields of its struct ([message_ok] in ChatDecodeSpec states what of this is used). *)
From S2P Require Import Prelude Json Canonical UpstreamCommon NetAddr Inbound.

Definition MESSAGES_EXTENSION_KEY : string := "chat.messages".
Definition PARALLEL_TOOLS_EXTENSION_KEY : string := "chat.parallel_tool_calls".
Definition STREAM_OPTIONS_EXTENSION_KEY : string := "chat.stream_options".
Definition TOOL_WRAPPER_EXTENSION_KEY : string := "chat.wrapper".

(** ** Wire structs *)
Inductive ChatTextPart : Set := TextPart (text : string) (extra : json_map).

Inductive ChatTextContent : Set :=
| TextContentText (text : string)
| TextContentParts (parts : list ChatTextPart).

Record ChatImageUrl : Set := mkChatImageUrl {
  ciu_url : string;
  ciu_detail : option ImageDetail;
  ciu_extra : json_map
}.

Inductive ChatUserPart : Set :=
| UserPartText (text : string) (extra : json_map)
| UserPartImage (image_url : ChatImageUrl) (extra : json_map).

Inductive ChatUserContent : Set :=
| UserContentText (text : string)
| UserContentParts (parts : list ChatUserPart).

Inductive ChatAssistantPart : Set :=
| AssistantPartText (text : string) (extra : json_map)
| AssistantPartRefusal (refusal : string) (extra : json_map).

Inductive ChatAssistantContent : Set :=
| AssistantContentText (text : string)
| AssistantContentParts (parts : list ChatAssistantPart).

Record ChatCalledFunction : Set := mkCalledFunction {
  cf_name : string;
  cf_arguments : string;
  cf_extra : json_map
}.

Record ChatToolCall : Set := mkToolCall {
  tc_id : string;
  tc_kind : string;
  tc_function : ChatCalledFunction;
  tc_extra : json_map
}.

Inductive ChatMessage : Set :=
| MsgSystem (content : ChatTextContent) (name : option string) (extra : json_map)
| MsgDeveloper (content : ChatTextContent) (name : option string) (extra : json_map)
| MsgUser (content : ChatUserContent) (name : option string) (extra : json_map)
| MsgAssistant (content : option ChatAssistantContent) (tool_calls : list ChatToolCall)
    (name refusal : option string) (extra : json_map)
| MsgTool (content : ChatTextContent) (tool_call_id : string) (extra : json_map).

Record ChatFunction : Set := mkChatFunction {
  fn_name : string;
  fn_description : option string;
  fn_parameters : option Value;
  fn_extra : json_map
}.

Record ChatTool : Set := mkChatTool {
  ct_kind : string;
  ct_function : ChatFunction;
  ct_extra : json_map
}.

Record ChatStreamOptions : Set := mkStreamOptions {
  so_include_usage : option bool;
  so_extra : json_map
}.

Record ChatRequest : Set := mkChatRequest {
  chr_model : string;
  chr_messages : list ChatMessage;
  chr_tools : list ChatTool;
  chr_parallel_tool_calls : option bool;
  chr_stream : bool;
  chr_stream_options : option ChatStreamOptions;
  chr_reasoning_effort : option string;
  chr_extra : json_map
}.

Class ChatWire : Type := {
  chat_from_slice : list Z -> option ChatRequest
}.

(** ** Pieces of an extension *)
Definition chat_insert_name (name : option string) (extension : json_map)
  : result GatewayError json_map :=
  match name with
  | Some name => check? validate_non_empty name; Ok (<["name"%string := VString name]> extension)
  | None => Ok extension
  end.

(** [json!({"index": index, "extra": extra})]. *)
Definition indexed_extra (index : Z) (extra : json_map) : Value :=
  json_object [("index"%string, json_uint index); ("extra"%string, of_map extra)].

Definition push_part_extra (values : list Value) (index : Z) (extra : json_map) : list Value :=
  if bool_decide (extra = ∅) then values else values ++ [indexed_extra index extra].

Definition insert_values (key : string) (values : list Value) (extension : json_map) : json_map :=
  if is_emptyb values then extension else <[key := VArray values]> extension.

Definition insert_map (key : string) (m extension : json_map) : json_map :=
  if bool_decide (m = ∅) then extension else <[key := of_map m]> extension.

(** A loop over parts that pushes items and the parts' extensions. *)
Definition decode_parts {P} (f : P -> Z -> list InputItem -> list Value
    -> result GatewayError (list InputItem * list Value))
  (parts : list P) (input : list InputItem) : result GatewayError (list InputItem * list Value) :=
  try_fold (fun acc entry => f entry.2 entry.1 acc.1 acc.2) (input, [])
    (zip (Z.of_nat <$> seq 0 (length parts)) parts).

(** The two forms of a message's content. *)
Definition content_text (text : string) (input : list InputItem) (extension : json_map)
  : list InputItem * json_map :=
  (input ++ [InText text], <["content_form"%string := VString "text"]> extension).

Definition content_parts {P} (f : P -> Z -> list InputItem -> list Value
    -> result GatewayError (list InputItem * list Value))
  (parts : list P) (input : list InputItem) (extension : json_map)
  : result GatewayError (list InputItem * json_map) :=
  check? guard_err (is_emptyb parts) invalid_request;
  let extension := <["content_form"%string := VString "parts"]> extension in
  let? decoded := decode_parts f parts input in
  Ok (decoded.1, insert_values "content_extra" decoded.2 extension).

Definition text_part (part : ChatTextPart) (index : Z) (input : list InputItem) (content_extra : list Value)
  : result GatewayError (list InputItem * list Value) :=
  match part with
  | TextPart text extra => Ok (input ++ [InText text], push_part_extra content_extra index extra)
  end.

Definition decode_text_content (content : ChatTextContent) (input : list InputItem) (extension : json_map)
  : result GatewayError (list InputItem * json_map) :=
  match content with
  | TextContentText text => Ok (content_text text input extension)
  | TextContentParts parts => content_parts text_part parts input extension
  end.

Definition refusal_extra (index : Z) (extra : json_map) : Value :=
  of_map (insert_map "extra" extra
    (list_to_map [("index"%string, json_uint index); ("type"%string, VString "refusal")])).

Definition assistant_part (part : ChatAssistantPart) (index : Z) (input : list InputItem)
  (content_extra : list Value) : result GatewayError (list InputItem * list Value) :=
  match part with
  | AssistantPartText text extra =>
      Ok (input ++ [InText text], push_part_extra content_extra index extra)
  | AssistantPartRefusal refusal extra =>
      Ok (input ++ [InText refusal], content_extra ++ [refusal_extra index extra])
  end.

Definition decode_assistant_content (content : ChatAssistantContent) (input : list InputItem)
  (extension : json_map) : result GatewayError (list InputItem * json_map) :=
  match content with
  | AssistantContentText text => Ok (content_text text input extension)
  | AssistantContentParts parts => content_parts assistant_part parts input extension
  end.

(** [map.extend(extra)]: the added entries win. *)
Definition text_part_value (part : ChatTextPart) : Value :=
  match part with
  | TextPart text extra =>
      of_map (extra ∪ list_to_map [("type"%string, VString "text"); ("text"%string, VString text)])
  end.

Definition tool_content_value (content : ChatTextContent) : result GatewayError (string * Value) :=
  match content with
  | TextContentText text => Ok ("text"%string, VString text)
  | TextContentParts parts =>
      check? guard_err (is_emptyb parts) invalid_request;
      Ok ("parts"%string, VArray (text_part_value <$> parts))
  end.

(** ** Tool calls and tools *)
Definition chat_tool_call_value (call : ChatToolCall) : Value :=
  let function := cf_extra (tc_function call) ∪
    list_to_map [("name"%string, VString (cf_name (tc_function call)));
                 ("arguments"%string, VString (cf_arguments (tc_function call)))] in
  of_map (tc_extra call ∪
    list_to_map [("id"%string, VString (tc_id call)); ("type"%string, VString "function");
                 ("function"%string, of_map function)]).

Definition decode_tool_call (acc : gset string * list Value) (call : ChatToolCall)
  : result GatewayError (gset string * list Value) :=
  let '(ids, values) := acc in
  check? guard_err
    (negb (bool_decide (tc_kind call = "function"%string)) || str_is_empty (tc_id call)
     || negb (valid_chat_function_name (cf_name (tc_function call)))
     || bool_decide (tc_id call ∈ ids)) invalid_request;
  Ok ({[tc_id call]} ∪ ids, values ++ [chat_tool_call_value call]).

Definition decode_tool_calls (tool_calls : list ChatToolCall) : result GatewayError Value :=
  let? decoded := try_fold decode_tool_call (∅, []) tool_calls in
  Ok (VArray decoded.2).

Definition chat_decode_tool (wire : ChatTool) : result GatewayError ToolDefinition :=
  let function := ct_function wire in
  let parameters := default (json_object []) (fn_parameters function) in
  check? guard_err
    (negb (bool_decide (ct_kind wire = "function"%string))
     || negb (valid_chat_function_name (fn_name function)) || negb (is_object parameters))
    invalid_request;
  let extensions :=
    if bool_decide (ct_extra wire = ∅) then fn_extra function
    else insert_extension_without_collision (fn_extra function) TOOL_WRAPPER_EXTENSION_KEY
           (of_map (ct_extra wire)) in
  Ok (mkTool (fn_name function) (fn_description function) parameters extensions).

Definition chat_collect_tool (acc : gset string * list ToolDefinition) (tool : ChatTool)
  : result GatewayError (gset string * list ToolDefinition) :=
  let '(names, tools) := acc in
  let? decoded := chat_decode_tool tool in
  check? guard_err (bool_decide (tool_name decoded ∈ names)) invalid_request;
  Ok ({[tool_name decoded]} ∪ names, tools ++ [decoded]).

Definition chat_decode_tools (tools : list ChatTool) : result GatewayError (list ToolDefinition) :=
  let? decoded := try_fold chat_collect_tool (∅, []) tools in
  Ok decoded.2.

Definition stream_options_value (options : ChatStreamOptions) : Value :=
  of_map (match so_include_usage options with
          | Some include_usage => <["include_usage"%string := VBool include_usage]> (so_extra options)
          | None => so_extra options
          end).

(** ** Messages *)
Section Decode.
Context `{HU : UrlCrate, !UrlText, HB : Base64Crate}.

Definition user_part (part : ChatUserPart) (index : Z) (input : list InputItem) (content_extra : list Value)
  : result GatewayError (list InputItem * list Value) :=
  match part with
  | UserPartText text extra => Ok (input ++ [InText text], push_part_extra content_extra index extra)
  | UserPartImage image_url extra =>
      let? url := decode_image_url (ciu_url image_url) in
      let combined :=
        if bool_decide (ciu_extra image_url = ∅) then extra
        else <["image_url"%string := of_map (ciu_extra image_url)]> extra in
      Ok (input ++ [InImageUrl url (ciu_detail image_url)], push_part_extra content_extra index combined)
  end.

Definition decode_user_content (content : ChatUserContent) (input : list InputItem) (extension : json_map)
  : result GatewayError (list InputItem * json_map) :=
  match content with
  | UserContentText text => Ok (content_text text input extension)
  | UserContentParts parts => content_parts user_part parts input extension
  end.

(** The tail every message but a tool's ends with. *)
Definition named_extra (name : option string) (extra : json_map) (decoded : list InputItem * json_map)
  : result GatewayError (list InputItem * json_map) :=
  let? extension := chat_insert_name name decoded.2 in
  Ok (decoded.1, insert_map "extra" extra extension).

Definition decode_assistant (content : option ChatAssistantContent) (tool_calls : list ChatToolCall)
  (name refusal : option string) (extra : json_map) (input : list InputItem) (extension : json_map)
  : result GatewayError (list InputItem * json_map) :=
  let input_start := length input in
  let extension := <["role"%string := VString "assistant"]> extension in
  let? decoded :=
    match content with
    | Some content => decode_assistant_content content input extension
    | None => Ok (input, <["content_form"%string := VString "null"]> extension)
    end in
  let? decoded :=
    match refusal with
    | Some refusal =>
        check? validate_non_empty refusal;
        Ok (decoded.1 ++ [InText refusal], <["refusal"%string := VString refusal]> decoded.2)
    | None => Ok decoded
    end in
  check? guard_err
    (is_emptyb tool_calls && bool_decide (length decoded.1 = input_start)
     && negb (is_someb (decoded.2 !! "refusal"%string))) invalid_request;
  let? extension :=
    if is_emptyb tool_calls then Ok decoded.2
    else let? calls := decode_tool_calls tool_calls in
         Ok (<["tool_calls"%string := calls]> decoded.2) in
  named_extra name extra (decoded.1, extension).

Definition decode_message_body (message : ChatMessage) (input : list InputItem) (extension : json_map)
  : result GatewayError (list InputItem * json_map) :=
  match message with
  | MsgSystem content name extra =>
      let? decoded := decode_text_content content input (<["role"%string := VString "system"]> extension) in
      named_extra name extra decoded
  | MsgDeveloper content name extra =>
      let? decoded := decode_text_content content input
        (<["role"%string := VString "developer"]> extension) in
      named_extra name extra decoded
  | MsgUser content name extra =>
      let? decoded := decode_user_content content input (<["role"%string := VString "user"]> extension) in
      named_extra name extra decoded
  | MsgAssistant content tool_calls name refusal extra =>
      decode_assistant content tool_calls name refusal extra input extension
  | MsgTool content tool_call_id extra =>
      check? validate_non_empty tool_call_id;
      let extension := <["tool_call_id"%string := VString tool_call_id]>
        (<["role"%string := VString "tool"]> extension) in
      let? tool := tool_content_value content in
      let extension := <["content_form"%string := VString tool.1]> extension in
      Ok (input ++ [InToolResult tool_call_id tool.2], insert_map "extra" extra extension)
  end.

Definition decode_message (message : ChatMessage) (index : Z) (input : list InputItem)
  : result GatewayError (list InputItem * Value) :=
  let? decoded := decode_message_body message input {["index"%string := json_uint index]} in
  Ok (decoded.1,
      of_map (<["input_end"%string := json_uint (zlen decoded.1)]>
        (<["input_start"%string := json_uint (zlen input)]> decoded.2))).

Definition decode_next_message (acc : list InputItem * list Value) (entry : Z * ChatMessage)
  : result GatewayError (list InputItem * list Value) :=
  let? decoded := decode_message entry.2 entry.1 acc.1 in
  Ok (decoded.1, acc.2 ++ [decoded.2]).

Definition decode_messages (messages : list ChatMessage)
  : result GatewayError (list InputItem * list Value) :=
  try_fold decode_next_message ([], []) (zip (Z.of_nat <$> seq 0 (length messages)) messages).

(** ** The request *)
Definition insert_optional (key : string) (value : option Value) (extensions : json_map) : json_map :=
  match value with
  | Some value => insert_extension_without_collision extensions key value
  | None => extensions
  end.

Definition decode_chat_request (request_id : string) (wire : ChatRequest)
  : result GatewayError CanonicalRequest :=
  check? validate_non_empty (chr_model wire);
  check? guard_err (is_emptyb (chr_messages wire)
                    || (is_someb (chr_stream_options wire) && negb (chr_stream wire))) invalid_request;
  let? messages := decode_messages (chr_messages wire) in
  let? tools := chat_decode_tools (chr_tools wire) in
  let? reasoning :=
    match chr_reasoning_effort wire with
    | Some e => check? validate_non_empty e; Ok (Some (mkReasoning (Some e) ∅))
    | None => Ok None
    end in
  let extensions := insert_extension_without_collision (chr_extra wire) MESSAGES_EXTENSION_KEY
    (VArray messages.2) in
  let extensions := insert_optional PARALLEL_TOOLS_EXTENSION_KEY
    (VBool <$> chr_parallel_tool_calls wire) extensions in
  let extensions := insert_optional STREAM_OPTIONS_EXTENSION_KEY
    (stream_options_value <$> chr_stream_options wire) extensions in
  Ok (mkCanonical request_id (chr_model wire) None messages.1 tools (chr_stream wire) reasoning extensions).

Definition chat_decode_request `{ChatWire} (request_id : string) (json : list Z)
  : result GatewayError CanonicalRequest :=
  let? wire := ok_or (chat_from_slice json) invalid_request in
  decode_chat_request request_id wire.
End Decode.
