(* ===== verification/ResponsesDecode.v ===== *)
(** * Decoding Responses requests

    Models [crates/wokcore-protocols/src/inbound/responses.rs]; the wire
    structs' deserializer is the parameter [responses_from_slice]. *)
From S2P Require Import Prelude Json Canonical UpstreamCommon NetAddr Inbound ChatDecode.

Definition INPUT_EXTENSIONS_KEY : string := "responses.input_extensions".

(** ** Wire structs *)
Inductive ResponsesRole : Set := RoleUser | RoleAssistant | RoleSystem | RoleDeveloper.

Definition role_as_str (role : ResponsesRole) : string :=
  match role with
  | RoleUser => "user"
  | RoleAssistant => "assistant"
  | RoleSystem => "system"
  | RoleDeveloper => "developer"
  end.

Inductive ResponsesContentPart : Set :=
| ContentPartText (text : string) (extra : json_map)
| ContentPartImage (image_url : string) (detail : option ImageDetail) (extra : json_map).

Inductive ResponsesMessageContent : Set :=
| MessageContentText (text : string)
| MessageContentParts (parts : list ResponsesContentPart).

Record ResponsesMessage : Set := mkResponsesMessage {
  rm_kind : option string;
  rm_role : ResponsesRole;
  rm_content : ResponsesMessageContent;
  rm_extra : json_map
}.

Record ResponsesTextItem : Set := mkResponsesTextItem {
  rti_kind : string;
  rti_text : string;
  rti_extra : json_map
}.

Record ResponsesImageItem : Set := mkResponsesImageItem {
  rii_kind : string;
  rii_image_url : string;
  rii_detail : option ImageDetail;
  rii_extra : json_map
}.

Record ResponsesToolResult : Set := mkResponsesToolResult {
  rtr_kind : string;
  rtr_call_id : string;
  rtr_output : Value;
  rtr_extra : json_map
}.

Inductive ResponsesInputItem : Set :=
| ItemMessage (message : ResponsesMessage)
| ItemText (text : ResponsesTextItem)
| ItemImage (image : ResponsesImageItem)
| ItemToolResult (result : ResponsesToolResult).

Inductive ResponsesInput : Set :=
| InputText (text : string)
| InputItems (items : list ResponsesInputItem).

Record ResponsesTool : Set := mkResponsesTool {
  rt_kind : string;
  rt_name : string;
  rt_description : option string;
  rt_parameters : Value;
  rt_extra : json_map
}.

Record ResponsesReasoning : Set := mkResponsesReasoning {
  rr_effort : option string;
  rr_extra : json_map
}.

Record ResponsesRequest : Set := mkResponsesRequest {
  rq_model : string;
  rq_input : ResponsesInput;
  rq_tools : list ResponsesTool;
  rq_stream : bool;
  rq_reasoning : option ResponsesReasoning;
  rq_previous_response_id : option string;
  rq_extra : json_map
}.

Class ResponsesWire : Type := {
  responses_from_slice : list Z -> option ResponsesRequest
}.

(** ** Decoding *)
Definition responses_decode_tool (wire : ResponsesTool) : result GatewayError ToolDefinition :=
  check? guard_err (negb (bool_decide (rt_kind wire = "function"%string)) || str_is_empty (rt_name wire)
                    || negb (is_object (rt_parameters wire))) invalid_request;
  Ok (mkTool (rt_name wire) (rt_description wire) (rt_parameters wire) (rt_extra wire)).

Section Decode.
Context `{HU : UrlCrate, !UrlText, HB : Base64Crate}.

Definition content_part (part : ResponsesContentPart) (index : Z) (input : list InputItem)
  (extensions : list Value) : result GatewayError (list InputItem * list Value) :=
  match part with
  | ContentPartText text extra => Ok (input ++ [InText text], push_part_extra extensions index extra)
  | ContentPartImage image_url detail extra =>
      let? url := decode_image_url image_url in
      Ok (input ++ [InImageUrl url detail], push_part_extra extensions index extra)
  end.

Definition decode_message_content (wire : ResponsesMessageContent) (input : list InputItem)
  : result GatewayError (list InputItem * list Value) :=
  match wire with
  | MessageContentText text => Ok (input ++ [InText text], [])
  | MessageContentParts parts => decode_parts content_part parts input
  end.

(** [decode_input_item]; [push_item_extension] is [push_part_extra] of the chat
    decoder. *)
Definition decode_input_item (index : Z) (wire : ResponsesInputItem) (input : list InputItem)
  (extensions : list Value) : result GatewayError (list InputItem * list Value) :=
  match wire with
  | ItemMessage message =>
      check? guard_err (is_some_and (fun kind => negb (bool_decide (kind = "message"%string)))
                          (rm_kind message)) invalid_request;
      let message_extension : json_map := {["role"%string := VString (role_as_str (rm_role message))]} in
      let message_extension := insert_map "message" (rm_extra message) message_extension in
      let? decoded := decode_message_content (rm_content message) input in
      let message_extension := insert_values "content" decoded.2 message_extension in
      Ok (decoded.1, extensions ++ [of_map (<["index"%string := json_uint index]> message_extension)])
  | ItemText text =>
      check? guard_err (negb (bool_decide (rti_kind text = "input_text"%string))) invalid_request;
      Ok (input ++ [InText (rti_text text)], push_part_extra extensions index (rti_extra text))
  | ItemImage image =>
      check? guard_err (negb (bool_decide (rii_kind image = "input_image"%string))) invalid_request;
      let? url := decode_image_url (rii_image_url image) in
      Ok (input ++ [InImageUrl url (rii_detail image)], push_part_extra extensions index (rii_extra image))
  | ItemToolResult r =>
      check? guard_err (negb (bool_decide (rtr_kind r = "function_call_output"%string))
                        || str_is_empty (rtr_call_id r)) invalid_request;
      Ok (input ++ [InToolResult (rtr_call_id r) (rtr_output r)],
          push_part_extra extensions index (rtr_extra r))
  end.

Definition decode_input (wire : ResponsesInput) : result GatewayError (list InputItem * list Value) :=
  match wire with
  | InputText text => Ok ([InText text], [])
  | InputItems items =>
      try_fold (fun acc entry => decode_input_item entry.1 entry.2 acc.1 acc.2) ([], [])
        (zip (Z.of_nat <$> seq 0 (length items)) items)
  end.

Definition decode_responses_request (request_id : string) (wire : ResponsesRequest)
  : result GatewayError CanonicalRequest :=
  check? validate_non_empty (rq_model wire);
  let? input := decode_input (rq_input wire) in
  let? tools := try_map responses_decode_tool (rq_tools wire) in
  let reasoning := (fun r => mkReasoning (rr_effort r) (rr_extra r)) <$> rq_reasoning wire in
  let? thread_key :=
    match rq_previous_response_id wire with
    | Some value => check? validate_non_empty value; Ok (Some value)
    | None => Ok None
    end in
  let extensions :=
    if is_emptyb input.2 then rq_extra wire
    else insert_extension_without_collision (rq_extra wire) INPUT_EXTENSIONS_KEY (VArray input.2) in
  Ok (mkCanonical request_id (rq_model wire) thread_key input.1 tools (rq_stream wire) reasoning extensions).

Definition responses_decode_request `{ResponsesWire} (request_id : string) (json : list Z)
  : result GatewayError CanonicalRequest :=
  let? wire := ok_or (responses_from_slice json) invalid_request in
  decode_responses_request request_id wire.
End Decode.
