(* ===== verification/AnthropicDecode.v ===== *)
(** * Decoding Messages requests

    Models [crates/wokcore-protocols/src/inbound/anthropic.rs].  The wire
    structs' deserializer and serializer are parameters; the whole request is
    also kept as the value it was sent as. *)
From S2P Require Import Prelude Json Canonical UpstreamCommon NetAddr Inbound.

Definition REQUEST_EXTENSION_KEY : string := "anthropic.request".
Definition ANTHROPIC_KNOWN_BLOCKS_EXTENSION_KEY : string := "anthropic.known_blocks".

Record AnthropicInboundLimits : Set := mkAnthropicLimits {
  al_max_request_bytes : Z;
  al_max_messages : Z;
  al_max_content_blocks : Z;
  al_max_tools : Z;
  al_max_identifier_bytes : Z;
  al_max_opaque_payload_bytes : Z;
  al_max_retained_value_bytes : Z
}.

Definition AnthropicInboundLimits_default : AnthropicInboundLimits :=
  mkAnthropicLimits (16 * 1024 * 1024) 4096 16384 4096 512 (16 * 1024 * 1024) (16 * 1024 * 1024).

(** ** Wire structs *)
Inductive AnthropicRole : Set := AnthropicUser | AnthropicAssistant.
Inductive ContentContext : Set := ContextSystem | ContextUser | ContextAssistant.

Inductive AnthropicSource : Set :=
| SourceBase64 (media_type data : string) (extra : json_map)
| SourceUrl (url : string) (extra : json_map)
| SourceUnknown (value : Value).

Inductive AnthropicKnownContentBlock : Set :=
| KnownText (text : string) (extra : json_map)
| KnownImage (source : AnthropicSource) (extra : json_map)
| KnownDocument (source : AnthropicSource) (extra : json_map)
| KnownToolUse (id name : string) (input : Value) (extra : json_map)
| KnownToolResult (tool_use_id : string) (content : option Value) (is_error : option bool) (extra : json_map)
| KnownThinking (thinking : string) (signature : option string) (extra : json_map)
| KnownRedactedThinking (data : string) (extra : json_map).

Inductive AnthropicContentBlock : Set :=
| BlockKnown (block : AnthropicKnownContentBlock)
| BlockUnknown (value : Value).

Inductive AnthropicContent : Set :=
| ContentText (text : string)
| ContentBlocks (blocks : list AnthropicContentBlock).

Record AnthropicMessage : Set := mkAnthropicMessage {
  am_role : AnthropicRole;
  am_content : AnthropicContent;
  am_extra : json_map
}.

Record AnthropicTool : Set := mkAnthropicTool {
  at_name : string;
  at_description : option string;
  at_input_schema : Value;
  at_extra : json_map
}.

Inductive AnthropicToolWire : Set :=
| ToolClient (tool : AnthropicTool)
| ToolUnsupported (value : Value).

Inductive AnthropicToolChoice : Set :=
| ChoiceAuto (disable_parallel_tool_use : option bool) (extra : json_map)
| ChoiceAny (disable_parallel_tool_use : option bool) (extra : json_map)
| ChoiceTool (name : string) (disable_parallel_tool_use : option bool) (extra : json_map)
| ChoiceNone (extra : json_map).

Inductive AnthropicToolChoiceWire : Set :=
| ChoiceKnown (choice : AnthropicToolChoice)
| ChoiceUnknown (value : Value).

Record AnthropicThinkingConfig : Set := mkThinkingConfig {
  th_kind : string;
  th_budget_tokens : option Z;
  th_extra : json_map
}.

Record AnthropicRequest : Set := mkAnthropicRequest {
  ar_model : string;
  ar_messages : list AnthropicMessage;
  ar_max_tokens : option Z;
  ar_system : option AnthropicContent;
  ar_tools : list AnthropicToolWire;
  ar_tool_choice : option AnthropicToolChoiceWire;
  ar_stream : bool;
  ar_thinking : option AnthropicThinkingConfig;
  ar_extra : json_map
}.

(** [from_slice] of the request and [to_value] of a block and a source. *)
Class AnthropicWire : Type := {
  anthropic_from_slice : list Z -> option AnthropicRequest;
  block_to_value : AnthropicKnownContentBlock -> Value;
  source_to_value : AnthropicSource -> Value
}.

(** ** Checks *)
Definition raw_type (value : Value) : option string :=
  object ← as_object value; (object !! "type"%string) ≫= as_str.

(** The classifiers of what the wire structs do not know: a broken known kind is
    invalid, another kind unsupported. *)
Definition classify_unknown (known : list string) (value : Value) : GatewayError :=
  match raw_type value with
  | Some kind => if bool_decide (kind ∈ known) then invalid_request else unsupported_capability
  | None => invalid_request
  end.

Definition classify_unknown_block (value : Value) : GatewayError :=
  classify_unknown
    ["text"%string; "image"%string; "document"%string; "tool_use"%string; "tool_result"%string;
     "thinking"%string; "redacted_thinking"%string] value.

Definition classify_unknown_source (value : Value) : GatewayError :=
  classify_unknown ["base64"%string; "url"%string] value.

Definition classify_unknown_tool (value : Value) : GatewayError := classify_unknown [] value.

Definition al_identifier (l : AnthropicInboundLimits) (value : string) : result GatewayError unit :=
  guard_err (str_is_empty value || (al_max_identifier_bytes l <? str_len value)) invalid_request.

Definition al_opaque_payload (l : AnthropicInboundLimits) (value : string) : result GatewayError unit :=
  guard_err (str_is_empty value || (al_max_opaque_payload_bytes l <? str_len value)) invalid_request.

Definition has_key (key : string) (m : json_map) : bool := is_someb (m !! key).

Definition validate_tool_choice (choice : AnthropicToolChoiceWire) (l : AnthropicInboundLimits)
  : result GatewayError unit :=
  match choice with
  | ChoiceKnown (ChoiceTool name _ extra) =>
      check? al_identifier l name; guard_err (has_key "name" extra) invalid_request
  | ChoiceKnown (ChoiceAuto _ extra) | ChoiceKnown (ChoiceAny _ extra) =>
      guard_err (has_key "name" extra) invalid_request
  | ChoiceKnown (ChoiceNone extra) =>
      guard_err (has_key "name" extra || has_key "disable_parallel_tool_use" extra) invalid_request
  | ChoiceUnknown value =>
      Err (classify_unknown ["auto"%string; "any"%string; "tool"%string; "none"%string] value)
  end.

Definition validate_thinking (thinking : AnthropicThinkingConfig) (max_tokens : option Z)
  (require_max_tokens : bool) : result GatewayError unit :=
  if bool_decide (th_kind thinking = "enabled"%string) then
    let? budget := ok_or (th_budget_tokens thinking) invalid_request in
    guard_err ((budget <? 1024)
               || (require_max_tokens && is_some_and (fun max => max <=? budget) max_tokens)) invalid_request
  else if bool_decide (th_kind thinking ∈ ["adaptive"%string; "disabled"%string]) then
    guard_err (is_someb (th_budget_tokens thinking)) invalid_request
  else Err unsupported_capability.

Section Decode.
Context `{HU : UrlCrate, !UrlText, HB : Base64Crate, HJ : JsonCrate, HW : AnthropicWire}.

Definition al_value (l : AnthropicInboundLimits) (value : Value) : result GatewayError unit :=
  guard_err (al_max_retained_value_bytes l <? str_len (to_string value)) invalid_request.

Definition validate_source (source : AnthropicSource) (document : bool) (l : AnthropicInboundLimits)
  : result GatewayError unit :=
  check?
    match source with
    | SourceBase64 media_type data _ =>
        let allowed :=
          if document then eq_ignore_ascii_case media_type "application/pdf"
                           || eq_ignore_ascii_case media_type "text/plain"
          else bool_decide (to_ascii_lowercase media_type ∈ IMAGE_TYPES) in
        guard_err (negb allowed || str_is_empty data || negb (is_someb (standard_decode (str_bytes data))))
          invalid_request
    | SourceUrl url _ =>
        let? parsed := ok_or (url_parse url) invalid_request in
        guard_err (negb (scheme_is_http_or_https (url_scheme parsed))) invalid_request
    | SourceUnknown value => Err (classify_unknown_source value)
    end;
  al_value l (source_to_value source).

Definition validate_block (l : AnthropicInboundLimits) (context : ContentContext)
  (block : AnthropicContentBlock) : result GatewayError unit :=
  match block, context with
  | BlockKnown (KnownText _ _), _ => Ok tt
  | BlockKnown (KnownImage source _), ContextUser => validate_source source false l
  | BlockKnown (KnownDocument source _), ContextUser => validate_source source true l
  | BlockKnown (KnownToolUse id name input _), ContextAssistant =>
      check? al_identifier l id;
      check? al_identifier l name;
      check? guard_err (negb (is_object input)) invalid_request;
      al_value l input
  | BlockKnown (KnownToolResult tool_use_id content _ _), ContextUser =>
      check? al_identifier l tool_use_id;
      match content with Some content => al_value l content | None => Ok tt end
  | BlockKnown (KnownThinking _ signature _), ContextAssistant =>
      match signature with Some signature => al_opaque_payload l signature | None => Ok tt end
  | BlockKnown (KnownRedactedThinking data _), ContextAssistant => al_opaque_payload l data
  | BlockUnknown value, _ => Err (classify_unknown_block value)
  | BlockKnown _, _ => Err invalid_request
  end.

Definition validate_content (content : AnthropicContent) (l : AnthropicInboundLimits)
  (context : ContentContext) : result GatewayError Z :=
  match content with
  | ContentText _ => Ok 1
  | ContentBlocks blocks =>
      check? guard_err (is_emptyb blocks) invalid_request;
      check? try_fold (fun _ block => validate_block l context block) tt blocks;
      Ok (zlen blocks)
  end.

Definition role_context (role : AnthropicRole) : ContentContext :=
  match role with AnthropicUser => ContextUser | AnthropicAssistant => ContextAssistant end.

Definition count_message_blocks (l : AnthropicInboundLimits) (block_count : Z) (message : AnthropicMessage)
  : result GatewayError Z :=
  let? blocks := validate_content (am_content message) l (role_context (am_role message)) in
  Ok (sat_add64 block_count blocks).

Definition validate_tool_wire (l : AnthropicInboundLimits) (tool : AnthropicToolWire)
  : result GatewayError unit :=
  match tool with
  | ToolClient tool =>
      check? al_identifier l (at_name tool);
      check? guard_err (negb (is_object (at_input_schema tool))) invalid_request;
      al_value l (at_input_schema tool)
  | ToolUnsupported value => Err (classify_unknown_tool value)
  end.

Definition anthropic_validate_request (wire : AnthropicRequest) (l : AnthropicInboundLimits)
  (require_max_tokens : bool) : result GatewayError unit :=
  check? al_identifier l (ar_model wire);
  check? guard_err
    (is_emptyb (ar_messages wire) || (al_max_messages l <? zlen (ar_messages wire))
     || (require_max_tokens && is_none_or (fun tokens => tokens =? 0) (ar_max_tokens wire))
     || (negb require_max_tokens && is_someb (ar_max_tokens wire))
     || (negb require_max_tokens && ar_stream wire)) invalid_request;
  let? block_count :=
    match ar_system wire with
    | Some system =>
        let? blocks := validate_content system l ContextSystem in Ok (sat_add64 0 blocks)
    | None => Ok 0
    end in
  let? block_count := try_fold (count_message_blocks l) block_count (ar_messages wire) in
  check? guard_err ((al_max_content_blocks l <? block_count)
                    || (al_max_tools l <? zlen (ar_tools wire))) invalid_request;
  check? try_fold (fun _ tool => validate_tool_wire l tool) tt (ar_tools wire);
  check? match ar_tool_choice wire with
         | Some choice => validate_tool_choice choice l
         | None => Ok tt
         end;
  match ar_thinking wire with
  | Some thinking => validate_thinking thinking (ar_max_tokens wire) require_max_tokens
  | None => Ok tt
  end.

(** ** Extraction *)
Definition source_url (source : AnthropicSource) : result GatewayError string :=
  match source with
  | SourceBase64 media_type data _ =>
      let? url := ok_or (url_parse ("data:" +:+ media_type +:+ ";base64," +:+ data)) invalid_request in
      Ok (url_as_str url)
  | SourceUrl url _ => let? url := ok_or (url_parse url) invalid_request in Ok (url_as_str url)
  | SourceUnknown _ => Err unsupported_capability
  end.

Definition anthropic_role_str (role : AnthropicRole) : string :=
  match role with AnthropicUser => "user" | AnthropicAssistant => "assistant" end.

(** A block kept whole, with its place; a system prompt has no place for one. *)
Definition known_block_value (place : option (Z * AnthropicRole)) (block_index : Z)
  (block : AnthropicKnownContentBlock) : result GatewayError Value :=
  let? place := ok_or place invalid_request in
  Ok (json_object
    [("message_index"%string, json_uint place.1); ("block_index"%string, json_uint block_index);
     ("role"%string, VString (anthropic_role_str place.2)); ("block"%string, block_to_value block)]).

Definition extract_block (place : option (Z * AnthropicRole)) (acc : list InputItem * list Value)
  (entry : Z * AnthropicContentBlock) : result GatewayError (list InputItem * list Value) :=
  let '(input, known_blocks) := acc in
  match entry.2 with
  | BlockKnown (KnownText text _) => Ok (input ++ [InText text], known_blocks)
  | BlockKnown (KnownImage source _) =>
      let? url := source_url source in Ok (input ++ [InImageUrl url None], known_blocks)
  | BlockKnown (KnownToolResult tool_use_id content _ _) =>
      Ok (input ++ [InToolResult tool_use_id (default (VString "") content)], known_blocks)
  | BlockKnown known =>
      let? value := known_block_value place entry.1 known in Ok (input, known_blocks ++ [value])
  | BlockUnknown _ => Err unsupported_capability
  end.

Definition extract_content (content : AnthropicContent) (place : option (Z * AnthropicRole))
  (acc : list InputItem * list Value) (l : AnthropicInboundLimits)
  : result GatewayError (list InputItem * list Value) :=
  let? acc :=
    match content with
    | ContentText text => Ok (acc.1 ++ [InText text], acc.2)
    | ContentBlocks blocks =>
        try_fold (extract_block place) acc (zip (Z.of_nat <$> seq 0 (length blocks)) blocks)
    end in
  check? guard_err (al_max_content_blocks l <? zlen acc.1) invalid_request;
  Ok acc.

Definition extract_message (l : AnthropicInboundLimits) (acc : list InputItem * list Value)
  (entry : Z * AnthropicMessage) : result GatewayError (list InputItem * list Value) :=
  extract_content (am_content entry.2) (Some (entry.1, am_role entry.2)) acc l.

Definition client_tool (tool : AnthropicToolWire) : option ToolDefinition :=
  match tool with
  | ToolClient tool =>
      Some (mkTool (at_name tool) (at_description tool) (at_input_schema tool) (at_extra tool))
  | ToolUnsupported _ => None
  end.

Definition thinking_options (thinking : AnthropicThinkingConfig) : ReasoningOptions :=
  mkReasoning (Some (th_kind thinking))
    (from_option (fun budget => {["budget_tokens"%string := json_uint budget]}) ∅
       (th_budget_tokens thinking)).

(** [retained] is the request parsed as a plain value. *)
Definition decode_anthropic_request (request_id : string) (wire : AnthropicRequest) (retained : option Value)
  (l : AnthropicInboundLimits) (require_max_tokens : bool) : result GatewayError CanonicalRequest :=
  check? anthropic_validate_request wire l require_max_tokens;
  let? retained := ok_or retained invalid_request in
  check? al_value l retained;
  let? acc :=
    match ar_system wire with
    | Some system => extract_content system None ([], []) l
    | None => Ok ([], [])
    end in
  let? acc := try_fold (extract_message l) acc
    (zip (Z.of_nat <$> seq 0 (length (ar_messages wire))) (ar_messages wire)) in
  let extensions : json_map := {[REQUEST_EXTENSION_KEY := retained]} in
  let? extensions :=
    if is_emptyb acc.2 then Ok extensions
    else
      check? al_value l (VArray acc.2);
      Ok (<[ANTHROPIC_KNOWN_BLOCKS_EXTENSION_KEY := VArray acc.2]> extensions) in
  Ok (mkCanonical request_id (ar_model wire) None acc.1 (omap client_tool (ar_tools wire)) (ar_stream wire)
        (thinking_options <$> ar_thinking wire) extensions).

Definition decode_message_with_limits (request_id : string) (json : list Z) (l : AnthropicInboundLimits)
  (require_max_tokens : bool) : result GatewayError CanonicalRequest :=
  check? guard_err (al_max_request_bytes l <? zlen json) invalid_request;
  let? wire := ok_or (anthropic_from_slice json) invalid_request in
  decode_anthropic_request request_id wire (from_str json) l require_max_tokens.

Definition anthropic_decode_message (request_id : string) (json : list Z) :=
  decode_message_with_limits request_id json AnthropicInboundLimits_default true.

Definition anthropic_decode_count_tokens (request_id : string) (json : list Z) :=
  decode_message_with_limits request_id json AnthropicInboundLimits_default false.
End Decode.
