(* ===== verification/ChatDecodeSpec.v ===== *)
(** * A decoded chat request keeps the whole conversation

    The canonical request flattens the messages of a conversation to a list of
    input items and keeps what the items do not say under an extension key.
    [rebuild_message] reads a message back from both; decoding followed by
    rebuilding is the identity, up to the form of image URLs. *)
From S2P Require Import Prelude Json Canonical UpstreamCommon NetAddr Inbound ChatDecode.

(** ** Reading the conversation back *)
Definition extra_of (v : Value) : json_map := default ∅ (value_get v "extra" ≫= as_object).

(** The extension of the part at an index. *)
Definition extra_at (content_extra : list Value) (index : Z) : option Value :=
  List.find (fun v => bool_decide (value_get v "index" ≫= as_u64 = Some index)) content_extra.

Definition rebuild_parts {P} (back : InputItem -> option Value -> option P) (items : list InputItem)
  (content_extra : list Value) : option (list P) :=
  mapM (fun '(i, item) => back item (extra_at content_extra i))
    (zip (Z.of_nat <$> seq 0 (length items)) items).

Definition rebuild_text_part (item : InputItem) (extra : option Value) : option ChatTextPart :=
  match item with
  | InText text => Some (TextPart text (from_option extra_of ∅ extra))
  | _ => None
  end.

Definition rebuild_user_part (item : InputItem) (extra : option Value) : option ChatUserPart :=
  let combined := from_option extra_of ∅ extra in
  match item with
  | InText text => Some (UserPartText text combined)
  | InImageUrl url detail =>
      let image_extra := default ∅ ((combined !! "image_url"%string) ≫= as_object) in
      Some (UserPartImage (mkChatImageUrl url detail image_extra) (delete "image_url"%string combined))
  | InToolResult _ _ => None
  end.

Definition rebuild_assistant_part (item : InputItem) (extra : option Value) : option ChatAssistantPart :=
  match item with
  | InText text =>
      let rest := from_option extra_of ∅ extra in
      if is_someb (extra ≫= fun v => value_get v "type") then Some (AssistantPartRefusal text rest)
      else Some (AssistantPartText text rest)
  | _ => None
  end.

Definition rebuild_content {P C} (back : InputItem -> option Value -> option P) (text : string -> C)
  (parts : list P -> C) (form : string) (items : list InputItem) (content_extra : list Value) : option C :=
  if bool_decide (form = "text"%string) then
    match items with [InText t] => Some (text t) | _ => None end
  else parts <$> rebuild_parts back items content_extra.

(** The entries of an object besides those of a struct's fields. *)
Definition other_entries (fields : list string) (v : Value) : json_map :=
  foldr delete (default ∅ (as_object v)) fields.

Definition rebuild_tool_call (v : Value) : option ChatToolCall :=
  id ← get_str v "id";
  kind ← get_str v "type";
  function ← value_get v "function";
  name ← get_str function "name";
  arguments ← get_str function "arguments";
  Some (mkToolCall id kind
    (mkCalledFunction name arguments (other_entries ["name"%string; "arguments"%string] function))
    (other_entries ["id"%string; "type"%string; "function"%string] v)).

Definition rebuild_tool_part (v : Value) : option ChatTextPart :=
  text ← get_str v "text";
  Some (TextPart text (other_entries ["type"%string; "text"%string] v)).

Definition rebuild_tool_content (output : Value) : option ChatTextContent :=
  match output with
  | VString text => Some (TextContentText text)
  | VArray values => TextContentParts <$> mapM rebuild_tool_part values
  | _ => None
  end.

(** The items of a message. *)
Definition message_items (input : list InputItem) (v : Value) : option (list InputItem) :=
  first ← value_get v "input_start" ≫= as_u64;
  last ← value_get v "input_end" ≫= as_u64;
  Some (take (Z.to_nat (last - first)) (drop (Z.to_nat first) input)).

Definition rebuild_assistant (v : Value) (form : string) (items : list InputItem) (content_extra : list Value)
  : option ChatMessage :=
  let refusal := get_str v "refusal" in
  let items := if is_someb refusal then take (pred (length items)) items else items in
  content ←
    (if bool_decide (form = "null"%string) then Some None
     else Some <$> rebuild_content rebuild_assistant_part AssistantContentText AssistantContentParts
                     form items content_extra);
  calls ← mapM rebuild_tool_call (default [] (value_get v "tool_calls" ≫= as_array));
  Some (MsgAssistant content calls (get_str v "name") refusal (extra_of v)).

Definition rebuild_message (input : list InputItem) (v : Value) : option ChatMessage :=
  items ← message_items input v;
  role ← get_str v "role";
  form ← get_str v "content_form";
  let content_extra := default [] (value_get v "content_extra" ≫= as_array) in
  let name := get_str v "name" in
  let text := rebuild_content rebuild_text_part TextContentText TextContentParts form items content_extra in
  if bool_decide (role = "system"%string) then c ← text; Some (MsgSystem c name (extra_of v))
  else if bool_decide (role = "developer"%string) then c ← text; Some (MsgDeveloper c name (extra_of v))
  else if bool_decide (role = "user"%string) then
    c ← rebuild_content rebuild_user_part UserContentText UserContentParts form items content_extra;
    Some (MsgUser c name (extra_of v))
  else if bool_decide (role = "assistant"%string) then rebuild_assistant v form items content_extra
  else
    match items with
    | [InToolResult call_id output] =>
        c ← rebuild_tool_content output;
        Some (MsgTool c call_id (extra_of v))
    | _ => None
    end.

(** ** Parts *)
Section Parts.
Context {P : Type} (item : P -> result GatewayError InputItem) (ext : P -> Z -> option Value).
Context (f : P -> Z -> list InputItem -> list Value -> result GatewayError (list InputItem * list Value)).

(** A decoder of parts pushes one item and at most one extension per part. *)
Hypothesis f_spec : forall p i input cx,
  f p i input cx = let? it := item p in Ok (input ++ [it], cx ++ from_option (fun v => [v]) [] (ext p i)).
Hypothesis ext_index : forall p i v, ext p i = Some v -> value_get v "index" ≫= as_u64 = Some i.

Definition parts_extra (start : nat) (parts : list P) : list Value :=
  concat ((fun '(i, p) => from_option (fun v => [v]) [] (ext p i)) <$>
    zip (Z.of_nat <$> seq start (length parts)) parts).

Lemma decode_parts_Ok parts input out :
  decode_parts f parts input = Ok out ->
  exists items, Forall2 (fun p it => item p = Ok it) parts items /\
    out = (input ++ items, parts_extra 0 parts).
Proof using f_spec.
  unfold decode_parts, parts_extra.
  cut (forall start acc, try_fold (fun acc entry => f entry.2 entry.1 acc.1 acc.2) acc
         (zip (Z.of_nat <$> seq start (length parts)) parts) = Ok out ->
       exists items, Forall2 (fun p it => item p = Ok it) parts items /\
         out = (acc.1 ++ items, acc.2 ++ parts_extra start parts)).
  { intros H Hd. destruct (H _ _ Hd) as (items & ? & ->). by exists items. }
  unfold parts_extra. clear input. induction parts as [|p parts IH]; intros start acc; cbn [length seq fmap
    list_fmap zip zip_with try_fold concat].
  - intros [= <-]. exists []. rewrite !app_nil_r. by destruct acc.
  - rewrite f_spec. cbn [fst snd]. destruct (item p) as [it|] eqn:Hp; cbn [result_bind]; [|done].
    intros H. apply IH in H as (items & HF & ->). exists (it :: items). split; [by constructor|].
    cbn [fst snd]. by rewrite <- !app_assoc.
Qed.

Lemma extra_at_later start parts i :
  (i < Z.of_nat start) -> extra_at (parts_extra start parts) i = None.
Proof using ext_index.
  unfold extra_at. intros Hi. destruct (List.find _ _) as [v|] eqn:Hf; [exfalso|done].
  apply find_some in Hf as [Hin Hb]. apply bool_decide_eq_true in Hb.
  apply in_concat in Hin as (vs & Hin & Hv). apply list_elem_of_In in Hin, Hv.
  apply list_elem_of_fmap in Hin as ([j p] & -> & Hz).
  apply elem_of_zip_l, list_elem_of_fmap in Hz as (n & -> & Hn). apply elem_of_seq in Hn.
  destruct (ext p (Z.of_nat n)) as [w|] eqn:He; cbn in Hv; [|by apply not_elem_of_nil in Hv].
  apply list_elem_of_singleton in Hv as ->. apply ext_index in He. rewrite He in Hb. injection Hb as Hb. lia.
Qed.

Lemma extra_at_parts parts start j p :
  parts !! j = Some p ->
  extra_at (parts_extra start parts) (Z.of_nat (start + j)) = ext p (Z.of_nat (start + j)).
Proof using ext_index.
  revert start j. induction parts as [|q parts IH]; intros start j; [by rewrite lookup_nil|].
  unfold parts_extra. cbn [length seq fmap list_fmap zip zip_with concat].
  fold (parts_extra (S start) parts). unfold extra_at.
  destruct j as [|j]; cbn [lookup list_lookup]; intros Hj;
    destruct (ext q (Z.of_nat start)) as [v|] eqn:He; cbn [from_option app List.find];
    rewrite ?(ext_index _ _ _ He).
  - injection Hj as <-. rewrite Nat.add_0_r, He. by rewrite bool_decide_true.
  - injection Hj as <-. rewrite Nat.add_0_r, He. apply extra_at_later. lia.
  - rewrite Nat.add_succ_r, bool_decide_false by (intros [= ?]; lia). by apply (IH (S start)).
  - rewrite Nat.add_succ_r. by apply (IH (S start)).
Qed.

(** What reads a part back from its item and extension reads all of them. *)
Lemma rebuild_parts_Ok (back : InputItem -> option Value -> option P) (norm : P -> P) parts items :
  (forall p it i, p ∈ parts -> item p = Ok it -> back it (ext p i) = Some (norm p)) ->
  Forall2 (fun p it => item p = Ok it) parts items ->
  rebuild_parts back items (parts_extra 0 parts) = Some (norm <$> parts).
Proof using ext_index.
  intros Hback HF. apply mapM_Some, Forall2_fmap_r.
  pose proof (Forall2_length HF) as Hlen.
  apply Forall2_same_length_lookup. split; [by rewrite length_zip, length_fmap, length_seq, Nat.min_id|].
  intros j [i it] p Hz Hp. apply lookup_zip_Some in Hz as [Hi Hit].
  rewrite list_lookup_fmap in Hi. apply fmap_Some in Hi as (n & Hn & ->).
  apply lookup_seq in Hn as [-> _]. cbn [Nat.add].
  pose proof (extra_at_parts parts 0 j p Hp) as He. cbn [Nat.add] in He. rewrite He.
  apply Hback; [by eapply list_elem_of_lookup_2|]. by eapply (Forall2_lookup_lr _ _ _ _ _ _ HF).
Qed.
End Parts.

(** ** Reading the extension of a message *)
Lemma lookup_insert_map_ne k k' m (e : json_map) : k <> k' -> insert_map k m e !! k' = e !! k'.
Proof. intros. unfold insert_map. case_bool_decide; [done|]. by rewrite lookup_insert_ne. Qed.

Lemma lookup_insert_values_ne k k' vs (e : json_map) : k <> k' -> insert_values k vs e !! k' = e !! k'.
Proof. intros. unfold insert_values. destruct (is_emptyb vs); [done|]. by rewrite lookup_insert_ne. Qed.

Lemma insert_map_get k m (e : json_map) :
  e !! k = None -> default ∅ ((insert_map k m e !! k) ≫= as_object) = m.
Proof.
  intros Hn. unfold insert_map. case_bool_decide as Hm; [by rewrite Hn|].
  rewrite lookup_insert_eq. cbn [mbind option_bind]. by rewrite as_object_of_map.
Qed.

Lemma insert_values_get k vs (e : json_map) :
  e !! k = None -> default [] ((insert_values k vs e !! k) ≫= as_array) = vs.
Proof.
  intros Hn. unfold insert_values. destruct vs as [|v vs]; cbn [is_emptyb]; [by rewrite Hn|].
  by rewrite lookup_insert_eq.
Qed.

Lemma chat_insert_name_Ok name (e e' : json_map) :
  chat_insert_name name e = Ok e' -> e !! "name"%string = None ->
  (e' !! "name"%string) ≫= as_str = name /\ forall k, k <> "name"%string -> e' !! k = e !! k.
Proof.
  destruct name as [name|]; cbn [chat_insert_name]; intros He Hn.
  - apply check_Ok in He as [_ [= <-]]. rewrite lookup_insert_eq. split; [done|].
    intros k Hk. by rewrite lookup_insert_ne.
  - injection He as <-. by rewrite Hn.
Qed.

(** Evaluate reads of a message's extension. *)
Ltac ext_get :=
  repeat match goal with
  | |- context [<[?k := ?v]> ?m !! ?k] => rewrite (lookup_insert_eq m k v)
  | |- context [<[?k := ?v]> ?m !! ?k'] => rewrite (lookup_insert_ne m k k' v) by discriminate
  | |- context [insert_map ?k ?m ?e !! ?k'] => rewrite (lookup_insert_map_ne k k' m e) by discriminate
  | |- context [insert_values ?k ?vs ?e !! ?k'] =>
      rewrite (lookup_insert_values_ne k k' vs e) by discriminate
  | |- context [{[?k := ?v]} !! ?k'] => rewrite (lookup_singleton_ne k k' v) by discriminate
  | |- context [∅ !! ?k] => rewrite (lookup_empty k)
  end.

Definition part_ext (extra : json_map) (index : Z) : option Value :=
  if bool_decide (extra = ∅) then None else Some (indexed_extra index extra).

Lemma push_part_extra_ext cx i extra :
  push_part_extra cx i extra = cx ++ from_option (fun v => [v]) [] (part_ext extra i).
Proof. unfold push_part_extra, part_ext. case_bool_decide; cbn; by rewrite ?app_nil_r. Qed.

Lemma part_ext_index extra i v : part_ext extra i = Some v -> value_get v "index" ≫= as_u64 = Some i.
Proof. unfold part_ext. case_bool_decide; [done|]. intros [= <-]. unfold indexed_extra. by json_get. Qed.

Lemma part_ext_extra extra i : from_option extra_of ∅ (part_ext extra i) = extra.
Proof.
  unfold part_ext. case_bool_decide as He; cbn [from_option]; [done|].
  unfold extra_of, indexed_extra. rewrite get_json_object. cbn [list_to_map foldr uncurry fst snd].
  ext_get. cbn [mbind option_bind]. by rewrite as_object_of_map.
Qed.

Lemma part_ext_type extra i : part_ext extra i ≫= (fun v => value_get v "type") = None.
Proof.
  unfold part_ext. case_bool_decide; cbn [mbind option_bind]; [done|].
  unfold indexed_extra. by json_get.
Qed.

(** ** Contents *)
Definition text_item (p : ChatTextPart) : result GatewayError InputItem :=
  match p with TextPart text _ => Ok (InText text) end.
Definition text_ext (p : ChatTextPart) : Z -> option Value :=
  match p with TextPart _ extra => part_ext extra end.

Definition assistant_item (p : ChatAssistantPart) : result GatewayError InputItem :=
  match p with
  | AssistantPartText text _ | AssistantPartRefusal text _ => Ok (InText text)
  end.
Definition assistant_ext (p : ChatAssistantPart) (i : Z) : option Value :=
  match p with
  | AssistantPartText _ extra => part_ext extra i
  | AssistantPartRefusal _ extra => Some (refusal_extra i extra)
  end.

Lemma refusal_extra_reads i extra :
  value_get (refusal_extra i extra) "index" ≫= as_u64 = Some i /\
  is_someb (value_get (refusal_extra i extra) "type") = true /\ extra_of (refusal_extra i extra) = extra.
Proof.
  unfold refusal_extra, extra_of. rewrite !get_of_map. cbn [list_to_map foldr uncurry fst snd].
  rewrite insert_map_get by by ext_get. by ext_get.
Qed.

(** What a decoded content is: its items, its form and its parts' extensions. *)
Definition reads_content {P C} (back : InputItem -> option Value -> option P) (text : string -> C)
  (parts : list P -> C) (c : C) (input : list InputItem) (extension : json_map)
  (out : list InputItem * json_map) : Prop :=
  exists items cx form, form <> "null"%string /\
    out = (input ++ items,
           insert_values "content_extra" cx (<["content_form"%string := VString form]> extension)) /\
    rebuild_content back text parts form items cx = Some c.

Lemma content_text_reads {P C} (back : InputItem -> option Value -> option P) (text : string -> C) parts
    t input extension :
  reads_content back text parts (text t) input extension (content_text t input extension).
Proof. by exists [InText t], [], "text"%string. Qed.

Lemma content_parts_reads {P C} (back : InputItem -> option Value -> option P) (norm : P -> P)
    (text : string -> C) (make : list P -> C) item ext f parts input extension out :
  (forall p i input cx, f p i input cx =
     let? it := item p in Ok (input ++ [it], cx ++ from_option (fun v => [v]) [] (ext p i))) ->
  (forall p i v, ext p i = Some v -> value_get v "index" ≫= as_u64 = Some i) ->
  (forall p it i, p ∈ parts -> item p = Ok it -> back it (ext p i) = Some (norm p)) ->
  content_parts f parts input extension = Ok out ->
  reads_content back text make (make (norm <$> parts)) input extension out.
Proof.
  intros Hf Hi Hb Hc. unfold content_parts in Hc. apply check_Ok in Hc as [_ Hc].
  apply result_bind_Ok in Hc as (d & Hd & [= <-]).
  apply (decode_parts_Ok item ext f Hf) in Hd as (items & HF & ->).
  exists items, (parts_extra ext 0 parts), "parts"%string. split_and!; [done|done|].
  unfold rebuild_content. rewrite bool_decide_false by done.
  by rewrite (rebuild_parts_Ok item ext Hi back norm parts items).
Qed.

Lemma decode_text_content_reads c input extension out :
  decode_text_content c input extension = Ok out ->
  reads_content rebuild_text_part TextContentText TextContentParts c input extension out.
Proof.
  destruct c as [t|parts]; cbn [decode_text_content].
  - intros [= <-]. apply content_text_reads.
  - intros H. rewrite <- (list_fmap_id parts).
    apply (content_parts_reads _ _ _ _ text_item text_ext text_part); [| | |done].
    + intros [t e] i inp cx. cbn. by rewrite push_part_extra_ext.
    + intros [t e] i v. apply part_ext_index.
    + intros [t e] it i _ [= <-]. cbn. by rewrite part_ext_extra.
Qed.

Lemma decode_assistant_content_reads c input extension out :
  decode_assistant_content c input extension = Ok out ->
  reads_content rebuild_assistant_part AssistantContentText AssistantContentParts c input extension out.
Proof.
  destruct c as [t|parts]; cbn [decode_assistant_content].
  - intros [= <-]. apply content_text_reads.
  - intros H. rewrite <- (list_fmap_id parts).
    apply (content_parts_reads _ _ _ _ assistant_item assistant_ext assistant_part); [| | |done].
    + intros [t e|t e] i inp cx; cbn; by rewrite ?push_part_extra_ext.
    + intros [t e|t e] i v; cbn [assistant_ext]; [apply part_ext_index|].
      intros [= <-]. apply refusal_extra_reads.
    + intros [t e|t e] it i _ [= <-]; cbn [rebuild_assistant_part assistant_ext].
      * by rewrite part_ext_type, part_ext_extra.
      * cbn [mbind option_bind from_option].
        destruct (refusal_extra_reads i e) as (_ & -> & ->). done.
Qed.

(** ** Objects made from a struct and the other entries *)
Definition lacks (fields : list string) (m : json_map) : Prop := Forall (fun k => m !! k = None) fields.

Lemma lacks_lookup fields m k : lacks fields m -> k ∈ fields -> m !! k = None.
Proof. unfold lacks. rewrite list.Forall_forall. auto. Qed.

Lemma other_entries_union fields (m known : json_map) :
  lacks fields m -> dom known ⊆ list_to_set fields ->
  other_entries fields (of_map (m ∪ known)) = m.
Proof.
  intros Hl Hd. unfold other_entries. rewrite as_object_of_map. cbn [from_option Datatypes.id].
  apply map_eq. intros k.
  assert (forall (fs : list string) (x : json_map),
    foldr delete x fs !! k = if bool_decide (k ∈ fs) then None else x !! k) as Hfold.
  { intros fs x. induction fs as [|f fs IH]; cbn [foldr].
    - by rewrite bool_decide_false by apply not_elem_of_nil.
    - destruct (decide (f = k)) as [->|Hne].
      + rewrite lookup_delete_eq, bool_decide_true by apply list_elem_of_here. done.
      + rewrite lookup_delete_ne, IH by done. case_bool_decide as Hin; case_bool_decide as Hin'; try done.
        * destruct Hin'. by apply list_elem_of_further.
        * by apply elem_of_cons in Hin' as [->|?]. }
  rewrite Hfold. unfold lacks in Hl. rewrite list.Forall_forall in Hl. case_bool_decide as Hin.
  - symmetry. by apply Hl.
  - rewrite lookup_union_l; [done|]. apply not_elem_of_dom. intros Hk. apply Hd in Hk.
    by apply elem_of_list_to_set in Hk.
Qed.

Lemma get_union_known (m known : json_map) k v :
  m !! k = None -> known !! k = Some v -> value_get (of_map (m ∪ known)) k = Some v.
Proof. intros Hm Hk. rewrite get_of_map. by rewrite lookup_union_r. Qed.

Definition call_ok (c : ChatToolCall) : Prop :=
  lacks ["id"%string; "type"%string; "function"%string] (tc_extra c) /\
  lacks ["name"%string; "arguments"%string] (cf_extra (tc_function c)).

Definition text_part_ok (p : ChatTextPart) : Prop :=
  match p with TextPart _ extra => lacks ["type"%string; "text"%string] extra end.

(** Read the field of a struct back from its object. *)
Ltac field_get Hl key v :=
  rewrite (get_union_known _ _ key v) by first [ apply (lacks_lookup _ _ _ Hl); set_solver | done ].

Lemma rebuild_tool_call_value c :
  tc_kind c = "function"%string -> call_ok c -> rebuild_tool_call (chat_tool_call_value c) = Some c.
Proof.
  destruct c as [id kind [name arguments fe] e]. cbn [tc_kind]. intros -> [He Hf]. cbn in He, Hf.
  unfold rebuild_tool_call, chat_tool_call_value, get_str. cbn [tc_id tc_function tc_extra cf_name cf_arguments cf_extra].
  field_get He "id"%string (VString id). field_get He "type"%string (VString "function").
  field_get He "function"%string (of_map (fe ∪
    list_to_map [("name"%string, VString name); ("arguments"%string, VString arguments)])).
  cbn [mbind option_bind as_str].
  field_get Hf "name"%string (VString name). field_get Hf "arguments"%string (VString arguments).
  cbn [mbind option_bind as_str]. rewrite !other_entries_union by (done || set_solver). done.
Qed.

Lemma decode_tool_calls_reads calls v :
  Forall call_ok calls -> decode_tool_calls calls = Ok v ->
  exists vs, v = VArray vs /\ mapM rebuild_tool_call vs = Some calls.
Proof.
  unfold decode_tool_calls. intros Hok Hd. apply result_bind_Ok in Hd as ([ids vs] & Hd & [= <-]).
  exists vs. split; [done|]. cbn [snd] in *.
  cut (exists vs', vs = [] ++ vs' /\ mapM rebuild_tool_call vs' = Some calls); [by intros (? & -> & ?)|].
  revert Hd. generalize (∅ : gset string), ([] : list Value).
  induction Hok as [|c calls Hc _ IH]; intros seen acc; cbn [try_fold].
  - intros [= <- <-]. exists []. by rewrite app_nil_r.
  - intros Hd. apply result_bind_Ok in Hd as (acc' & Hc' & Hd). unfold decode_tool_call in Hc'.
    apply check_Ok in Hc' as [Hg [= <-]]. apply guard_err_Ok in Hg.
    rewrite !orb_false_iff, negb_false_iff, bool_decide_eq_true in Hg. destruct Hg as [[[Hk _] _] _].
    apply IH in Hd as (vs' & -> & Hm). exists (chat_tool_call_value c :: vs').
    split; [by rewrite <- app_assoc|]. cbn [mapM]. by rewrite rebuild_tool_call_value, Hm.
Qed.

Lemma tool_content_value_reads c form v :
  match c with TextContentParts parts => Forall text_part_ok parts | _ => True end ->
  tool_content_value c = Ok (form, v) -> rebuild_tool_content v = Some c.
Proof.
  destruct c as [t|parts]; cbn [tool_content_value]; intros Hok.
  - by intros [= <- <-].
  - intros H. apply check_Ok in H as [_ [= <- <-]]. cbn [rebuild_tool_content].
    replace (mapM rebuild_tool_part (text_part_value <$> parts)) with (Some parts); [done|].
    symmetry. apply mapM_Some, Forall2_fmap_l, Forall_Forall2_diag. eapply list.Forall_impl; [exact Hok|].
    intros [t e] Hl. cbn in Hl. unfold rebuild_tool_part, text_part_value, get_str, compose.
    field_get Hl "text"%string (VString t). cbn [mbind option_bind as_str].
    by rewrite other_entries_union by (done || set_solver).
Qed.

(** ** User contents, up to the form of image URLs *)
Section Messages.
Context `{HU : UrlCrate, !UrlText, HB : Base64Crate}.

Definition norm_image (url : string) : string :=
  match decode_image_url url with Ok u => u | Err _ => url end.

Definition norm_user_part (p : ChatUserPart) : ChatUserPart :=
  match p with
  | UserPartText text extra => UserPartText text extra
  | UserPartImage image extra =>
      UserPartImage (mkChatImageUrl (norm_image (ciu_url image)) (ciu_detail image) (ciu_extra image)) extra
  end.

Definition norm_user (c : ChatUserContent) : ChatUserContent :=
  match c with
  | UserContentText text => UserContentText text
  | UserContentParts parts => UserContentParts (norm_user_part <$> parts)
  end.

Definition norm_message (m : ChatMessage) : ChatMessage :=
  match m with MsgUser c name extra => MsgUser (norm_user c) name extra | m => m end.

Definition user_part_ok (p : ChatUserPart) : Prop :=
  match p with UserPartImage _ extra => extra !! "image_url"%string = None | _ => True end.

(** A flattened map has no key that is a field of its struct. *)
Definition message_ok (m : ChatMessage) : Prop :=
  match m with
  | MsgUser (UserContentParts parts) _ _ => Forall user_part_ok parts
  | MsgAssistant _ calls _ _ _ => Forall call_ok calls
  | MsgTool (TextContentParts parts) _ _ => Forall text_part_ok parts
  | _ => True
  end.

Definition user_item (p : ChatUserPart) : result GatewayError InputItem :=
  match p with
  | UserPartText text _ => Ok (InText text)
  | UserPartImage image _ =>
      let? url := decode_image_url (ciu_url image) in Ok (InImageUrl url (ciu_detail image))
  end.
Definition user_ext (p : ChatUserPart) : Z -> option Value :=
  match p with
  | UserPartText _ extra => part_ext extra
  | UserPartImage image extra => part_ext (insert_map "image_url" (ciu_extra image) extra)
  end.

Lemma decode_user_content_reads c input extension out :
  match c with UserContentParts parts => Forall user_part_ok parts | _ => True end ->
  decode_user_content c input extension = Ok out ->
  reads_content rebuild_user_part UserContentText UserContentParts (norm_user c) input extension out.
Proof.
  destruct c as [t|parts]; cbn [decode_user_content norm_user]; intros Hok.
  - intros [= <-]. apply content_text_reads.
  - intros Hc. apply (content_parts_reads _ _ _ _ user_item user_ext user_part); [| | |done].
    + intros [t e|[u d ie] e] i inp cx; cbn; [by rewrite push_part_extra_ext|].
      destruct (decode_image_url u); cbn; [|done]. by rewrite push_part_extra_ext.
    + intros [t e|[u d ie] e] i v; apply part_ext_index.
    + rewrite list.Forall_forall in Hok.
      intros [t e|[u d ie] e] it i Hin; cbn [user_item user_ext ciu_url ciu_detail ciu_extra].
      * intros [= <-]. cbn. by rewrite part_ext_extra.
      * intros Hu. apply result_bind_Ok in Hu as (u' & Hu & [= <-]). apply Hok in Hin. cbn in Hin.
        cbn [rebuild_user_part norm_user_part]. rewrite part_ext_extra, insert_map_get by done.
        unfold norm_image. cbn [ciu_url ciu_detail ciu_extra]. rewrite Hu. do 2 f_equal.
        unfold insert_map. case_bool_decide; [by apply delete_id|].
        by rewrite delete_insert_eq, delete_id.
Qed.

(** ** Messages *)
Lemma message_items_app (input items more : list InputItem) v first last :
  value_get v "input_start" ≫= as_u64 = Some first -> value_get v "input_end" ≫= as_u64 = Some last ->
  first = zlen input -> last = zlen (input ++ items) ->
  message_items (input ++ items ++ more) v = Some items.
Proof.
  intros Hf Hl -> ->. unfold message_items. rewrite Hf, Hl. cbn [mbind option_bind]. f_equal.
  rewrite zlen_app. unfold zlen. rewrite Nat2Z.id, drop_app_length.
  replace (Z.to_nat _) with (length items) by lia. by rewrite take_app_length.
Qed.

(** What decoding a message leaves: its items at the end of the input, and an
    extension from which, with any later input, it is read back. *)
Definition reads_message (m : ChatMessage) (input : list InputItem) (out : list InputItem * Value) : Prop :=
  exists items, out.1 = input ++ items /\
    forall more, rebuild_message (out.1 ++ more) out.2 = Some (norm_message m).

(** The final extension of a message. *)
Definition finished (input items : list InputItem) (extension : json_map) : Value :=
  of_map (<["input_end"%string := json_uint (zlen (input ++ items))]>
    (<["input_start"%string := json_uint (zlen input)]> extension)).

Lemma finished_items input items extension more :
  message_items ((input ++ items) ++ more) (finished input items extension) = Some items.
Proof.
  rewrite <- app_assoc. unfold finished.
  eapply message_items_app; [| |reflexivity|reflexivity]; rewrite get_of_map; by ext_get.
Qed.

Lemma finished_get input items extension k :
  k <> "input_start"%string -> k <> "input_end"%string ->
  value_get (finished input items extension) k = extension !! k.
Proof. intros ? ?. unfold finished. rewrite get_of_map. by rewrite !lookup_insert_ne. Qed.

(** A message of a role whose content, name and extra were decoded. *)
Lemma named_reads {P C} (back : InputItem -> option Value -> option P) (text : string -> C)
    (parts : list P -> C) (c : C) index role input name extra decoded out :
  reads_content back text parts c input (<["role"%string := VString role]> {["index"%string := json_uint index]})
    decoded ->
  named_extra name extra decoded = Ok out ->
  exists items cx form, out.1 = input ++ items /\
    rebuild_content back text parts form items cx = Some c /\
    let v := finished input items out.2 in
    get_str v "role" = Some role /\ get_str v "content_form" = Some form /\
    default [] (value_get v "content_extra" ≫= as_array) = cx /\ get_str v "name" = name /\ extra_of v = extra.
Proof.
  intros (items & cx & form & _ & -> & Hc) Hn. unfold named_extra in Hn. cbn [fst snd] in Hn.
  apply result_bind_Ok in Hn as (e & He & [= <-]).
  apply chat_insert_name_Ok in He as [Hname Hrest]; [|by ext_get].
  exists items, cx, form. cbn [fst snd]. split_and!; [done|done|..]; unfold get_str, extra_of;
    rewrite finished_get by done.
  - ext_get. rewrite Hrest by done. by ext_get.
  - ext_get. rewrite Hrest by done. by ext_get.
  - ext_get. rewrite Hrest by done. rewrite insert_values_get; [done|by ext_get].
  - by ext_get.
  - rewrite insert_map_get; [done|]. rewrite Hrest by done. by ext_get.
Qed.

(** A body that was decoded reads back, if its finished extension does. *)
Definition reads_body (m : ChatMessage) (input : list InputItem) (decoded : list InputItem * json_map) : Prop :=
  exists items, decoded.1 = input ++ items /\
    forall more, rebuild_message ((input ++ items) ++ more) (finished input items decoded.2)
      = Some (norm_message m).

Lemma named_body {P C} (back : InputItem -> option Value -> option P) (text : string -> C)
    (parts : list P -> C) (c : C) (make : C -> option string -> json_map -> ChatMessage)
    m index role input name extra decoded out :
  (forall v items form cx, get_str v "role" = Some role -> get_str v "content_form" = Some form ->
     default [] (value_get v "content_extra" ≫= as_array) = cx ->
     rebuild_content back text parts form items cx = Some c ->
     forall all, message_items all v = Some items ->
     rebuild_message all v = Some (make c (get_str v "name") (extra_of v))) ->
  norm_message m = make c name extra ->
  reads_content back text parts c input (<["role"%string := VString role]> {["index"%string := json_uint index]})
    decoded ->
  named_extra name extra decoded = Ok out -> reads_body m input out.
Proof.
  intros Hm Hnorm Hr Hn. unfold reads_body. rewrite Hnorm. destruct (named_reads _ _ _ _ _ _ _ _ _ _ _ Hr Hn)
    as (items & cx & form & Hout & Hc & Hrole & Hform & Hcx & Hname & Hextra).
  exists items. split; [done|]. intros more.
  rewrite (Hm _ items form cx Hrole Hform Hcx Hc); [|apply finished_items]. by rewrite Hname, Hextra.
Qed.

Ltac role_rebuild :=
  let Hi := fresh in let Hrole := fresh in let Hform := fresh in let Hcx := fresh in
  let Hcontent := fresh in
  intros ???? Hrole Hform Hcx Hcontent ? Hi; unfold rebuild_message;
  rewrite Hi, Hrole, Hform; cbn [mbind option_bind]; rewrite Hcx;
  repeat first [rewrite bool_decide_true by done | rewrite bool_decide_false by done];
  by rewrite Hcontent.

Lemma tool_body content call_id extra index input out :
  message_ok (MsgTool content call_id extra) ->
  decode_message_body (MsgTool content call_id extra) input {["index"%string := json_uint index]} = Ok out ->
  reads_body (MsgTool content call_id extra) input out.
Proof.
  intros Hok Hd. cbn [decode_message_body] in Hd. apply check_Ok in Hd as [_ Hd].
  apply result_bind_Ok in Hd as ([form v] & Hv & [= <-]). cbn [fst snd].
  exists [InToolResult call_id v]. split; [done|]. intros more. cbn [snd]. unfold rebuild_message.
  rewrite finished_items. unfold get_str, extra_of. rewrite !finished_get by done. ext_get.
  rewrite insert_map_get by by ext_get. cbn [mbind option_bind as_str].
  repeat rewrite bool_decide_false by done. 
  rewrite (tool_content_value_reads content form v); [done|by destruct content|done].
Qed.

(** The optional content of an assistant's message. *)
Lemma assistant_content_reads content input extension out :
  match content with
  | Some content => decode_assistant_content content input extension
  | None => Ok (input, <["content_form"%string := VString "null"]> extension)
  end = Ok out ->
  exists items cx form,
    out = (input ++ items,
           insert_values "content_extra" cx (<["content_form"%string := VString form]> extension)) /\
    (if bool_decide (form = "null"%string) then Some None
     else Some <$> rebuild_content rebuild_assistant_part AssistantContentText AssistantContentParts
                     form items cx) = Some content.
Proof.
  destruct content as [c|]; intros Hd.
  - apply decode_assistant_content_reads in Hd as (items & cx & form & Hn & -> & Hr).
    exists items, cx, form. split; [done|]. by rewrite bool_decide_false, Hr.
  - injection Hd as <-. exists [], [], "null"%string. rewrite app_nil_r. done.
Qed.

Lemma refusal_reads refusal (d out : list InputItem * json_map) :
  d.2 !! "refusal"%string = None ->
  match refusal with
  | Some refusal =>
      check? validate_non_empty refusal;
      Ok (d.1 ++ [InText refusal], <["refusal"%string := VString refusal]> d.2)
  | None => Ok d
  end = Ok out ->
  exists more, out.1 = d.1 ++ more /\ (out.2 !! "refusal"%string) ≫= as_str = refusal /\
    (forall k, k <> "refusal"%string -> out.2 !! k = d.2 !! k) /\
    forall items : list InputItem,
      (if is_someb refusal then take (pred (length (items ++ more))) (items ++ more) else items ++ more) = items.
Proof.
  intros Hn. destruct refusal as [r|]; intros Hd.
  - apply check_Ok in Hd as [_ [= <-]]. exists [InText r]. cbn [fst snd]. rewrite lookup_insert_eq.
    split_and!; [done|done|intros; by rewrite lookup_insert_ne|]. intros items. cbn [is_someb].
    rewrite length_app, Nat.add_comm. cbn. by rewrite take_app_length.
  - injection Hd as <-. exists []. rewrite app_nil_r, Hn. split_and!; try done. intros. by rewrite app_nil_r.
Qed.

Lemma calls_reads calls (e out : json_map) :
  Forall call_ok calls -> e !! "tool_calls"%string = None ->
  (if is_emptyb calls then Ok e
   else let? v := decode_tool_calls calls in Ok (<["tool_calls"%string := v]> e)) = Ok out ->
  mapM rebuild_tool_call (default [] ((out !! "tool_calls"%string) ≫= as_array)) = Some calls /\
  forall k, k <> "tool_calls"%string -> out !! k = e !! k.
Proof.
  intros Hok Hn Hd. destruct calls as [|c calls]; cbn [is_emptyb] in Hd.
  - injection Hd as <-. by rewrite Hn.
  - apply result_bind_Ok in Hd as (v & Hv & [= <-]).
    destruct (decode_tool_calls_reads _ _ Hok Hv) as (vs & -> & Hm).
    rewrite lookup_insert_eq. split; [exact Hm|]. intros. by rewrite lookup_insert_ne.
Qed.

Lemma decode_assistant_reads content calls name refusal extra index input out :
  Forall call_ok calls ->
  decode_assistant content calls name refusal extra input {["index"%string := json_uint index]} = Ok out ->
  reads_body (MsgAssistant content calls name refusal extra) input out.
Proof.
  intros Hok Hd. unfold decode_assistant in Hd.
  apply result_bind_Ok in Hd as (d1 & Hd1 & Hd). apply result_bind_Ok in Hd as (d2 & Hd2 & Hd).
  apply check_Ok in Hd as [_ Hd]. apply result_bind_Ok in Hd as (e3 & Hd3 & Hd).
  apply assistant_content_reads in Hd1 as (items & cx & form & -> & Hcontent).
  apply refusal_reads in Hd2 as (more & Hd2 & Href & Hsame & Hitems); [|cbn [snd]; by ext_get].
  cbn [fst snd] in Hd2, Hsame.
  apply calls_reads in Hd3 as [Hcalls Hsame3]; [|done|rewrite Hsame by done; by ext_get].
  unfold named_extra in Hd. apply result_bind_Ok in Hd as (e4 & He4 & [= <-]). cbn [fst snd] in *.
  apply chat_insert_name_Ok in He4 as [Hname Hsame4];
    [|rewrite Hsame3, Hsame by done; by ext_get].
  exists (items ++ more). split; [by rewrite Hd2, app_assoc|]. intros later. cbn [snd].
  assert (forall k, k <> "input_start"%string -> k <> "input_end"%string -> "extra"%string <> k ->
    k <> "name"%string -> k <> "tool_calls"%string -> k <> "refusal"%string ->
    value_get (finished input (items ++ more) (insert_map "extra" extra e4)) k =
    insert_values "content_extra" cx (<["content_form"%string := VString form]>
      (<["role"%string := VString "assistant"]> {["index"%string := json_uint index]})) !! k) as Hget.
  { intros. by rewrite finished_get, lookup_insert_map_ne, Hsame4, Hsame3, Hsame. }
  unfold rebuild_message. rewrite finished_items. unfold get_str. cbn [mbind option_bind].
  rewrite (Hget "role"%string), (Hget "content_form"%string), (Hget "content_extra"%string) by done.
  rewrite insert_values_get by by ext_get. ext_get. cbn [mbind option_bind as_str].
  repeat first [rewrite bool_decide_true by done | rewrite bool_decide_false by done].
  unfold rebuild_assistant, get_str, extra_of. rewrite !finished_get by done.
  rewrite insert_map_get by (rewrite Hsame4, Hsame3, Hsame by done; by ext_get).
  rewrite !lookup_insert_map_ne by done. rewrite Hname.
  rewrite (Hsame4 "refusal"%string), (Hsame3 "refusal"%string), Href, Hitems by done.
  rewrite (Hsame4 "tool_calls"%string), Hcontent by done. cbn [mbind option_bind]. by rewrite Hcalls.
Qed.

Lemma decode_message_reads m index input out :
  message_ok m -> decode_message m index input = Ok out -> reads_message m input out.
Proof.
  intros Hok Hd. unfold decode_message in Hd. apply result_bind_Ok in Hd as (d & Hd & [= <-]).
  cut (reads_body m input d).
  { intros (items & Heq & Hr). exists items. cbn [fst snd]. rewrite Heq. by split. }
  destruct m as [c name e|c name e|c name e|c calls name refusal e|c id e]; cbn [decode_message_body] in Hd.
  - apply result_bind_Ok in Hd as (d' & Hc & Hn). apply decode_text_content_reads in Hc.
    eapply (named_body _ _ _ _ MsgSystem); [| |exact Hc|exact Hn]; [role_rebuild|done].
  - apply result_bind_Ok in Hd as (d' & Hc & Hn). apply decode_text_content_reads in Hc.
    eapply (named_body _ _ _ _ MsgDeveloper); [| |exact Hc|exact Hn]; [role_rebuild|done].
  - apply result_bind_Ok in Hd as (d' & Hc & Hn). apply decode_user_content_reads in Hc; [|by destruct c].
    eapply (named_body _ _ _ _ MsgUser); [| |exact Hc|exact Hn]; [role_rebuild|done].
  - by eapply decode_assistant_reads.
  - by eapply tool_body.
Qed.

Lemma decode_messages_reads ms out :
  Forall message_ok ms -> decode_messages ms = Ok out ->
  mapM (rebuild_message out.1) out.2 = Some (norm_message <$> ms).
Proof.
  intros Hok. unfold decode_messages.
  cut (forall start acc read,
    (forall more, mapM (rebuild_message (acc.1 ++ more)) acc.2 = Some read) ->
    try_fold decode_next_message acc (zip (Z.of_nat <$> seq start (length ms)) ms) = Ok out ->
    mapM (rebuild_message out.1) out.2 = Some (read ++ (norm_message <$> ms))).
  { intros H1 Hd. by apply (H1 0%nat ([], []) []). }
  induction Hok as [|m ms Hm _ IH]; intros start acc read Hacc;
    cbn [length seq fmap list_fmap zip zip_with try_fold].
  - intros [= <-]. specialize (Hacc []). by rewrite app_nil_r in *.
  - intros Hd. apply result_bind_Ok in Hd as (acc' & Hm' & Hd). unfold decode_next_message in Hm'.
    apply result_bind_Ok in Hm' as (d & Hdm & [= <-]). cbn [fst snd] in Hdm.
    apply decode_message_reads in Hdm as (items & Hitems & Hread); [|done].
    apply (IH (S start) _ (read ++ [norm_message m])) in Hd; [by rewrite <- app_assoc in Hd|].
    intros more. cbn [fst snd]. apply mapM_Some.
    apply Forall2_app; [|constructor; [apply Hread|constructor]].
    rewrite Hitems, <- app_assoc. by apply mapM_Some, Hacc.
Qed.

(** C13: Decoding a chat request loses nothing of the conversation.  Of every request the decoder
    accepts, all messages can be read back from the canonical request: role, content in its
    form, every part, names, refusals, tool calls, tool results and unknown fields, with image URLs
    in their parsed form; and no extension the client sent is replaced by what the decoder adds. *)
Theorem chat_conversation_kept (request_id : string) (wire : ChatRequest) (r : CanonicalRequest) :
  Forall message_ok (chr_messages wire) ->
  decode_chat_request request_id wire = Ok r ->
  chr_extra wire ⊆ cr_extensions r /\
  exists key values, cr_extensions r !! key = Some (VArray values) /\ chr_extra wire !! key = None /\
    (chr_extra wire !! MESSAGES_EXTENSION_KEY = None -> key = MESSAGES_EXTENSION_KEY) /\
    mapM (rebuild_message (cr_input r)) values = Some (norm_message <$> chr_messages wire).
Proof.
  intros Hok Hd. unfold decode_chat_request in Hd. rewrite !check_Ok in Hd. destruct Hd as (_ & _ & Hd).
  apply result_bind_Ok in Hd as ([input values] & Hm & Hd). apply result_bind_Ok in Hd as (tools & _ & Hd).
  apply result_bind_Ok in Hd as (reasoning & _ & [= <-]). cbn [cr_extensions cr_input fst snd].
  apply decode_messages_reads in Hm; [|done].
  assert (forall key v m, m ⊆ insert_optional key v m) as Hopt.
  { intros key [v|] m; [apply insert_extension_mono|done]. }
  destruct (insert_extension_spec (chr_extra wire) MESSAGES_EXTENSION_KEY (VArray values))
    as (key & Hfree & Hkey & Hins).
  split.
  - etransitivity; [|apply Hopt]. etransitivity; [|apply Hopt]. apply insert_extension_mono.
  - exists key, values. split_and!; [|done|done|exact Hm].
    do 2 (eapply lookup_weaken; [|apply Hopt]). rewrite Hins. apply lookup_insert_eq.
Qed.
End Messages.

(** ** A concrete conversation *)
#[local] Instance talk_url_text : @UrlText demo_url_crate := @Build_UrlText demo_url_crate (fun _ => ""%string).
#[local] Instance talk_base64 : Base64Crate := {| standard_decode := Some |}.

Definition talk : ChatRequest :=
  mkChatRequest "m"
    [MsgSystem (TextContentText "be brief") None ∅;
     MsgUser (UserContentParts [UserPartText "weather?" {["cache"%string := VBool true]}]) (Some "ann"%string) ∅;
     MsgAssistant None [mkToolCall "c1" "function" (mkCalledFunction "weather" "{}" ∅) ∅] None None ∅;
     MsgTool (TextContentText "sunny") "c1" ∅] [] None false None None {["user"%string := VString "u"]}.

Definition talk_decoded : result GatewayError CanonicalRequest :=
  @decode_chat_request demo_url_crate talk_url_text talk_base64 "req" talk.

Lemma chat_conversation_kept_witness :
  exists r, talk_decoded = Ok r /\ chr_extra talk ⊆ cr_extensions r.
Proof.
  eexists. split; [vm_compute; reflexivity|].
  eapply (@chat_conversation_kept demo_url_crate talk_url_text talk_base64 "req" talk);
    [|vm_compute; reflexivity].
  repeat constructor.
Defined.
