(* ===== verification/RequestBuild.v ===== *)
(** * Building upstream requests

    Models the request builders of
    [crates/wokcore-protocols/src/upstream/mod.rs], [outbound/gemini.rs],
    [outbound/azure.rs] and the URL helpers of [outbound/mod.rs].  A canonical
    request becomes a URL under the configured base, two or three headers and a
    JSON body.  The [url] crate is a parameter; [UrlBuildLaws] states the part of
    its documentation that is relied on. *)
From S2P Require Import Prelude Text Json Canonical UpstreamCommon Upstream NetAddr Inbound Pump.

Definition DEFAULT_AZURE_API_VERSION : string := "2024-10-21".
Definition ANTHROPIC_API_VERSION : string := "2023-06-01".
Definition DEFAULT_ANTHROPIC_MAX_TOKENS : Z := 4096.
Definition TOOL_NAMES_EXTENSION : string := "gemini.tool_names".

(** What the builders use of a [Url] besides [UrlCrate]. *)
Class UrlBuild `{HU : UrlCrate} : Type := {
  url_host_str : Url -> option string;
  url_path : Url -> string;
  url_port_or_known_default : Url -> option Z;
  url_join : Url -> string -> option Url;
  url_set_path : Url -> string -> Url;
  (** [query_pairs_mut().append_pair(k, v)] *)
  url_append_pair : Url -> string -> string -> Url;
  (** [path_segments_mut()?.pop_if_empty().push(segment)] *)
  url_push_segment : Url -> string -> option Url
}.

(** Where a URL points, but for its path and query. *)
Definition same_origin `{UrlBuild} (u v : Url) : Prop :=
  url_scheme u = url_scheme v /\ url_host_str u = url_host_str v /\
  url_port_or_known_default u = url_port_or_known_default v.

Class UrlBuildLaws `{UrlBuild} : Prop := {
  set_path_origin u p : same_origin (url_set_path u p) u;
  (** a parsed path has no dot segment left to resolve, and none comes with a [/] at its end *)
  set_path_slash u : scheme_is_http_or_https (url_scheme u) = true ->
    url_path (url_set_path u (url_path u +:+ "/")) = url_path u +:+ "/";
  append_pair_origin u k v : same_origin (url_append_pair u k v) u;
  append_pair_path u k v : url_path (url_append_pair u k v) = url_path u;
  push_segment_origin u s v : url_push_segment u s = Some v -> same_origin v u
}.

Section Build.
Context `{HB : UrlBuild, HT : !UrlText, HJ : JsonCrate}.

(** ** URLs *)
Definition base_url_ok (url : Url) : bool :=
  scheme_is_http_or_https (url_scheme url) && is_someb (url_host_str url)
  && str_is_empty (url_username url) && negb (is_someb (url_password url))
  && negb (is_someb (url_query url)) && negb (is_someb (url_fragment url)).

Definition normalize_base_url (url : Url) : result GatewayError Url :=
  check? guard_err (negb (base_url_ok url)) invalid_request;
  Ok (if ends_with "/" (url_path url) then url else url_set_path url (url_path url +:+ "/")).

(** The check both joins end with. *)
Definition stays_within (base joined : Url) : bool :=
  bool_decide (url_scheme joined = url_scheme base)
  && bool_decide (url_host_str joined = url_host_str base)
  && bool_decide (url_port_or_known_default joined = url_port_or_known_default base)
  && starts_with (url_path base) (url_path joined).

Definition join_within (base : Url) (relative : string) : result GatewayError Url :=
  check? guard_err (starts_with "/" relative
                    || existsb (fun b => (b =? 63) || (b =? 35) || (b =? 92)) (str_bytes relative))
    invalid_request;
  let? joined := ok_or (url_join base relative) invalid_request in
  check? guard_err (negb (stays_within base joined)) invalid_request;
  Ok joined.

Definition validate_base_url (url : Url) : result GatewayError unit :=
  guard_err (negb (base_url_ok url) || negb (ends_with "/" (url_path url))) invalid_request.

Definition checked_join (base : Url) (relative : string) : result GatewayError Url :=
  check? validate_base_url base;
  let? joined := ok_or (url_join base relative) invalid_request in
  check? guard_err (negb (stays_within base joined)) invalid_request;
  Ok joined.

(** ** Requests *)
Record UpstreamRequest : Type := mkUpstreamReq {
  ur_url : Url;
  ur_headers : gmap string string;
  ur_body : list Z;
  ur_stream : bool
}.

Record UpstreamAdapter : Type := mkAdapter {
  ua_protocol : UpstreamProtocol;
  ua_base_url : Url;
  ua_limits : UpstreamLimits
}.

Definition UpstreamAdapter_new (protocol : UpstreamProtocol) (base_url : Url) (l : UpstreamLimits)
  : result GatewayError UpstreamAdapter :=
  let? base_url := normalize_base_url base_url in
  check? validate_limits l;
  Ok (mkAdapter protocol base_url l).

(** The scheme of an image URL, which the canonical request keeps as text. *)
Definition image_scheme_ok (url : string) : bool :=
  match url_parse url with
  | Some u => scheme_is_http_or_https (url_scheme u) || bool_decide (url_scheme u = "data"%string)
  | None => false
  end.

Definition validate_request_item (l : UpstreamLimits) (item : InputItem) : result GatewayError unit :=
  match item with
  | InText text => guard_err (ul_max_text_delta_bytes l <? str_len text) invalid_request
  | InToolResult call_id output =>
      check? loose_identifier call_id (ul_max_identifier_bytes l);
      validate_value_size output (ul_max_tool_argument_bytes l)
  | InImageUrl url _ => guard_err (negb (image_scheme_ok url)) unsupported_capability
  end.

Definition too_many_items (request : CanonicalRequest) (l : UpstreamLimits) : bool :=
  (ul_max_collection_items l <? zlen (cr_input request))
  || (ul_max_collection_items l <? zlen (cr_tools request)).

Definition build_validate_request (request : CanonicalRequest) (l : UpstreamLimits)
  : result GatewayError unit :=
  check? loose_identifier (cr_req_model request) (ul_max_identifier_bytes l);
  check? guard_err (too_many_items request l) invalid_request;
  try_fold (fun _ item => validate_request_item l item) tt (cr_input request).

Definition expected_accept (stream : bool) : string :=
  if stream then "text/event-stream" else "application/json".

Definition json_request (l : UpstreamLimits) (url : Url) (body : Value) (stream : bool)
  : result GatewayError UpstreamRequest :=
  let body := str_bytes (to_string body) in
  check? guard_err (ul_max_request_body_bytes l <? zlen body) invalid_request;
  Ok (mkUpstreamReq url
        (list_to_map [("accept"%string, expected_accept stream);
                      ("content-type"%string, "application/json"%string)]) body stream).

(** ** Pieces of a body *)
(** Every builder checks a tool and a tool result before it writes them. *)
Definition checked_tool (l : UpstreamLimits) (write : ToolDefinition -> Value) (tool : ToolDefinition)
  : result GatewayError Value :=
  check? loose_identifier (tool_name tool) (ul_max_identifier_bytes l);
  check? validate_value_size (tool_input_schema tool) (ul_max_request_body_bytes l);
  Ok (write tool).

Definition checked_result (l : UpstreamLimits) (call_id : string) (output value : Value)
  : result GatewayError Value :=
  check? loose_identifier call_id (ul_max_identifier_bytes l);
  check? validate_value_size output (ul_max_tool_argument_bytes l);
  Ok value.

Definition image_detail (detail : option ImageDetail) : string :=
  match detail with
  | None | Some DetailAuto => "auto"
  | Some DetailLow => "low"
  | Some DetailHigh => "high"
  end.

Definition encode_reasoning (request : CanonicalRequest) : result GatewayError (option Value) :=
  match cr_reasoning request with
  | None => Ok None
  | Some reasoning =>
      let? e := ok_or (effort reasoning) unsupported_capability in
      check? loose_identifier e 32;
      Ok (Some (json_object [("effort"%string, VString e)]))
  end.

Definition user_message (content : Value) : Value :=
  json_object [("role"%string, VString "user"); ("content"%string, content)].

Definition encode_responses_item (l : UpstreamLimits) (item : InputItem) : result GatewayError Value :=
  match item with
  | InText text =>
      Ok (user_message (VArray [json_object
        [("type"%string, VString "input_text"); ("text"%string, VString text)]]))
  | InImageUrl url detail =>
      Ok (user_message (VArray [json_object
        [("type"%string, VString "input_image"); ("image_url"%string, VString url);
         ("detail"%string, VString (image_detail detail))]]))
  | InToolResult call_id output =>
      checked_result l call_id output (json_object
        [("type"%string, VString "function_call_output"); ("call_id"%string, VString call_id);
         ("output"%string, output)])
  end.

Definition encode_responses_input (request : CanonicalRequest) (l : UpstreamLimits)
  : result GatewayError (list Value) := try_map (encode_responses_item l) (cr_input request).

Definition responses_tool_value (tool : ToolDefinition) : Value :=
  json_object
    [("type"%string, VString "function"); ("name"%string, VString (tool_name tool));
     ("description"%string, json_string_option (tool_description tool));
     ("parameters"%string, tool_input_schema tool); ("strict"%string, VBool false)].

Definition encode_responses_tools (request : CanonicalRequest) (l : UpstreamLimits)
  : result GatewayError (list Value) := try_map (checked_tool l responses_tool_value) (cr_tools request).

(** [if !tools.is_empty() { body["tools"] = tools }], and an optional key. *)
Definition with_tools (tools : list Value) (body : Value) : Value :=
  if is_emptyb tools then body else set_key body "tools" (VArray tools).
Definition with_optional (key : string) (value : option Value) (body : Value) : Value :=
  match value with Some v => set_key body key v | None => body end.

Definition build_openai_responses (a : UpstreamAdapter) (request : CanonicalRequest)
  : result GatewayError UpstreamRequest :=
  let? input := encode_responses_input request (ua_limits a) in
  let? tools := encode_responses_tools request (ua_limits a) in
  let? reasoning := encode_reasoning request in
  let body := json_object
    [("model"%string, VString (cr_req_model request)); ("input"%string, VArray input);
     ("stream"%string, VBool (cr_stream request))] in
  let body := with_optional "reasoning" reasoning (with_tools tools body) in
  let? url := join_within (ua_base_url a) "responses" in
  json_request (ua_limits a) url body (cr_stream request).

(** ** Chat bodies *)
Definition encode_chat_item (l : UpstreamLimits) (item : InputItem) : result GatewayError Value :=
  match item with
  | InText text => Ok (user_message (VString text))
  | InImageUrl url detail =>
      Ok (user_message (VArray [json_object
        [("type"%string, VString "image_url");
         ("image_url"%string, json_object
            [("url"%string, VString url); ("detail"%string, VString (image_detail detail))])]]))
  | InToolResult call_id output =>
      checked_result l call_id output (json_object
        [("role"%string, VString "tool"); ("tool_call_id"%string, VString call_id);
         ("content"%string, VString (to_string output))])
  end.

Definition chat_tool_value (tool : ToolDefinition) : Value :=
  json_object
    [("type"%string, VString "function");
     ("function"%string, json_object
        [("name"%string, VString (tool_name tool));
         ("description"%string, json_string_option (tool_description tool));
         ("parameters"%string, tool_input_schema tool)])].

Definition encode_chat_body (request : CanonicalRequest) (l : UpstreamLimits)
  : result GatewayError Value :=
  let? messages := try_map (encode_chat_item l) (cr_input request) in
  let? tools := try_map (checked_tool l chat_tool_value) (cr_tools request) in
  let body := json_object
    [("model"%string, VString (cr_req_model request)); ("messages"%string, VArray messages);
     ("stream"%string, VBool (cr_stream request))] in
  let body :=
    if cr_stream request
    then set_key body "stream_options" (json_object [("include_usage"%string, VBool true)]) else body in
  let body := with_tools tools body in
  match cr_reasoning request with
  | None => Ok body
  | Some reasoning =>
      let? e := ok_or (effort reasoning) unsupported_capability in
      check? loose_identifier e 32;
      Ok (set_key body "reasoning_effort" (VString e))
  end.

Definition build_openai_chat (a : UpstreamAdapter) (request : CanonicalRequest)
  : result GatewayError UpstreamRequest :=
  let? body := encode_chat_body request (ua_limits a) in
  let? url := join_within (ua_base_url a) "chat/completions" in
  json_request (ua_limits a) url body (cr_stream request).

(** [trim_end_matches('/')] followed by [ends_with("/openai")]. *)
Fixpoint trim_end_slashes (l : list Ascii.ascii) : list Ascii.ascii :=
  match l with
  | c :: l => if byte_val c =? 47 then trim_end_slashes l else c :: l
  | [] => []
  end.

Definition is_openai_path (path : string) : bool :=
  ends_with "/openai" (String.string_of_list_ascii (reverse (trim_end_slashes (reverse (str_ascii path))))).

Definition build_azure (a : UpstreamAdapter) (request : CanonicalRequest)
  : result GatewayError UpstreamRequest :=
  check? loose_identifier (cr_req_model request) (ul_max_identifier_bytes (ua_limits a));
  let tail := "deployments/" +:+ cr_req_model request +:+ "/chat/completions" in
  let relative := if is_openai_path (url_path (ua_base_url a)) then tail else "openai/" +:+ tail in
  let? url := join_within (ua_base_url a) relative in
  let url := url_append_pair url "api-version" DEFAULT_AZURE_API_VERSION in
  let? body := encode_chat_body request (ua_limits a) in
  json_request (ua_limits a) url body (cr_stream request).

(** ** Messages bodies *)
Definition encode_anthropic_item (l : UpstreamLimits) (item : InputItem) : result GatewayError Value :=
  match item with
  | InText text => Ok (json_object [("type"%string, VString "text"); ("text"%string, VString text)])
  | InImageUrl url _ =>
      Ok (json_object
        [("type"%string, VString "image");
         ("source"%string, json_object [("type"%string, VString "url"); ("url"%string, VString url)])])
  | InToolResult call_id output =>
      checked_result l call_id output (json_object
        [("type"%string, VString "tool_result"); ("tool_use_id"%string, VString call_id);
         ("content"%string, output)])
  end.

Definition plain_tool_value (schema_key : string) (tool : ToolDefinition) : Value :=
  json_object
    [("name"%string, VString (tool_name tool));
     ("description"%string, json_string_option (tool_description tool));
     (schema_key, tool_input_schema tool)].

(** [.and_then(Value::as_u64).filter(|value| *value > 0).unwrap_or(fallback)]. *)
Definition positive_or (fallback : Z) (v : option Value) : Z :=
  match v ≫= as_u64 with
  | Some n => if 0 <? n then n else fallback
  | None => fallback
  end.

Definition anthropic_max_tokens (request : CanonicalRequest) : Z :=
  positive_or DEFAULT_ANTHROPIC_MAX_TOKENS (cr_extensions request !! "max_output_tokens"%string).

Definition anthropic_thinking_budget (request : CanonicalRequest) : Z :=
  positive_or 1024 (cr_reasoning request ≫= fun r => reasoning_extensions r !! "budget_tokens"%string).

Definition encode_anthropic_body (request : CanonicalRequest) (operation : UpstreamOperation)
  (l : UpstreamLimits) : result GatewayError Value :=
  let? content := try_map (encode_anthropic_item l) (cr_input request) in
  let? tools := try_map (checked_tool l (plain_tool_value "input_schema")) (cr_tools request) in
  let body := json_object
    [("model"%string, VString (cr_req_model request));
     ("messages"%string, VArray [user_message (VArray content)])] in
  let body :=
    if bool_decide (operation = OpText) then
      set_key (set_key body "max_tokens" (json_uint (anthropic_max_tokens request)))
        "stream" (VBool (cr_stream request))
    else body in
  let body := with_tools tools body in
  Ok (if is_someb (cr_reasoning request) then
        set_key body "thinking" (json_object
          [("type"%string, VString "enabled");
           ("budget_tokens"%string, json_uint (anthropic_thinking_budget request))])
      else body).

Definition build_anthropic (a : UpstreamAdapter) (request : CanonicalRequest)
  (operation : UpstreamOperation) : result GatewayError UpstreamRequest :=
  let? body := encode_anthropic_body request operation (ua_limits a) in
  let relative :=
    match operation with
    | OpText => "v1/messages"%string
    | OpCountTokens => "v1/messages/count_tokens"%string
    end in
  let? url := join_within (ua_base_url a) relative in
  let? outbound := json_request (ua_limits a) url body
    (bool_decide (operation = OpText) && cr_stream request) in
  Ok (mkUpstreamReq (ur_url outbound)
        (<["anthropic-version"%string := ANTHROPIC_API_VERSION]> (ur_headers outbound))
        (ur_body outbound) (ur_stream outbound)).

(** ** Gemini *)
Definition gemini_part (l : UpstreamLimits) (tool_names : option json_map) (item : InputItem)
  : result GatewayError Value :=
  match item with
  | InText text =>
      check? guard_err (ul_max_text_delta_bytes l <? str_len text) invalid_request;
      Ok (json_object [("text"%string, VString text)])
  | InImageUrl url _ =>
      check? guard_err (negb (image_scheme_ok url)) unsupported_capability;
      Ok (json_object [("fileData"%string, json_object [("fileUri"%string, VString url)])])
  | InToolResult call_id output =>
      check? strict_identifier call_id (ul_max_identifier_bytes l);
      check? validate_value_size output (ul_max_tool_argument_bytes l);
      let? name := ok_or (names ← tool_names; value ← names !! call_id; as_str value) unsupported_capability in
      check? strict_identifier name (ul_max_identifier_bytes l);
      Ok (json_object
        [("functionResponse"%string, json_object
            [("id"%string, VString call_id); ("name"%string, VString name);
             ("response"%string, json_object [("result"%string, output)])])])
  end.

Definition gemini_tool (l : UpstreamLimits) (tool : ToolDefinition) : result GatewayError Value :=
  check? strict_identifier (tool_name tool) (ul_max_identifier_bytes l);
  check? validate_value_size (tool_input_schema tool) (ul_max_request_body_bytes l);
  Ok (plain_tool_value "parameters" tool).

Definition gemini_body (request : CanonicalRequest) (l : UpstreamLimits) : result GatewayError Value :=
  let tool_names := (cr_extensions request !! TOOL_NAMES_EXTENSION) ≫= as_object in
  let? parts := try_map (gemini_part l tool_names) (cr_input request) in
  let body : json_map :=
    {["contents"%string := VArray [json_object
        [("role"%string, VString "user"); ("parts"%string, VArray parts)]]]} in
  let? body :=
    if is_emptyb (cr_tools request) then Ok body
    else
      let? declarations := try_map (gemini_tool l) (cr_tools request) in
      Ok (<["tools"%string := VArray [json_object
              [("functionDeclarations"%string, VArray declarations)]]]> body) in
  let? body :=
    if is_someb (cr_reasoning request) then
      let? thinking := ok_or (cr_extensions request !! "gemini.thinking_config"%string)
        unsupported_capability in
      check? validate_value_size thinking (ul_max_request_body_bytes l);
      Ok (<["generationConfig"%string := json_object [("thinkingConfig"%string, thinking)]]> body)
    else Ok body in
  Ok (of_map body).

Definition gemini_url (base : Url) (request : CanonicalRequest) : result GatewayError Url :=
  let method := if cr_stream request then "streamGenerateContent"%string else "generateContent"%string in
  let? directory := checked_join base "v1beta/models/" in
  let? url := ok_or (url_push_segment directory (cr_req_model request +:+ ":" +:+ method)) invalid_request in
  check? guard_err
    (negb (bool_decide (url_scheme url = url_scheme base))
     || negb (bool_decide (url_host_str url = url_host_str base))
     || negb (starts_with (url_path directory) (url_path url))) invalid_request;
  Ok (if cr_stream request then url_append_pair url "alt" "sse" else url).

Definition encode_bounded (value : Value) (limit : Z) : result GatewayError (list Z) :=
  let body := str_bytes (to_string value) in
  check? guard_err (limit <? zlen body) invalid_request;
  Ok body.

(** [GeminiAdapter::build_request]. *)
Definition gemini_build_request (base : Url) (api_key : string) (l : UpstreamLimits)
  (request : CanonicalRequest) : result GatewayError UpstreamRequest :=
  check? strict_identifier (cr_req_model request) (ul_max_identifier_bytes l);
  check? guard_err (too_many_items request l) invalid_request;
  let? url := gemini_url base request in
  let? body := gemini_body request l in
  let? body := encode_bounded body (ul_max_request_body_bytes l) in
  Ok (mkUpstreamReq url
        (list_to_map [("content-type"%string, "application/json"%string); ("x-goog-api-key"%string, api_key)])
        body (cr_stream request)).

Definition PLACEHOLDER_KEY : string := "credential-injected-by-transport".

Definition with_thinking_config (request : CanonicalRequest) : CanonicalRequest :=
  if is_someb (cr_reasoning request)
     && negb (is_someb (cr_extensions request !! "gemini.thinking_config"%string)) then
    mkCanonical (cr_request_id request) (cr_req_model request) (cr_thread_key request) (cr_input request)
      (cr_tools request) (cr_stream request) (cr_reasoning request)
      (<["gemini.thinking_config"%string :=
           json_object [("thinkingBudget"%string, json_uint (anthropic_thinking_budget request))]]>
         (cr_extensions request))
  else request.

Definition build_gemini (a : UpstreamAdapter) (request : CanonicalRequest)
  : result GatewayError UpstreamRequest :=
  let request := with_thinking_config request in
  check? validate_base_url (ua_base_url a);
  let? outbound := gemini_build_request (ua_base_url a) PLACEHOLDER_KEY (ua_limits a) request in
  Ok (mkUpstreamReq (ur_url outbound)
        (<["accept"%string := expected_accept (cr_stream request)]>
           (delete "x-goog-api-key"%string (ur_headers outbound)))
        (ur_body outbound) (ur_stream outbound)).

(** ** Dispatch *)
Definition build_request (a : UpstreamAdapter) (request : CanonicalRequest) (operation : UpstreamOperation)
  : result GatewayError UpstreamRequest :=
  check? build_validate_request request (ua_limits a);
  match ua_protocol a, operation with
  | ProtoOpenAiResponses, OpText => build_openai_responses a request
  | ProtoOpenAiChat, OpText => build_openai_chat a request
  | ProtoAnthropic, operation => build_anthropic a request operation
  | ProtoGemini, OpText => build_gemini a request
  | ProtoAzureOpenAi, OpText => build_azure a request
  | _, _ => Err unsupported_capability
  end.
End Build.

(** * Where built requests go

    Every builder keeps its URL on the origin and under the path of the
    configured base, sends only its own headers and bounds the body. *)

Lemma starts_with_iff p s : starts_with p s = true <-> exists r, s = (p +:+ r)%string.
Proof.
  unfold starts_with. rewrite is_someb_true. unfold is_Some. by setoid_rewrite strip_prefix_Some.
Qed.

Lemma starts_with_refl p : starts_with p p = true.
Proof. apply starts_with_iff. exists ""%string. by rewrite str_app_nil_r. Qed.

Lemma starts_with_trans p q r : starts_with p q = true -> starts_with q r = true -> starts_with p r = true.
Proof.
  rewrite !starts_with_iff. intros [x ->] [y ->]. exists (x +:+ y)%string. by rewrite str_app_assoc.
Qed.

Lemma starts_with_app p s : starts_with p (p +:+ s)%string = true.
Proof. apply starts_with_iff. eauto. Qed.

Definition BUILT_HEADERS : list string := ["accept"%string; "content-type"%string; "anthropic-version"%string].

Section Spec.
Context `{HB : UrlBuild, HL : !UrlBuildLaws, HT : !UrlText, HJ : JsonCrate}.

#[export] Instance same_origin_equiv : Equivalence same_origin.
Proof.
  split; unfold same_origin; [intros u; done|intros u v (-> & -> & ->); done|].
  intros u v w (-> & -> & ->) (-> & -> & ->). done.
Qed.

(** On the origin of a base URL and under its path. *)
Definition within (base u : Url) : Prop :=
  same_origin u base /\ starts_with (url_path base) (url_path u) = true.

Lemma within_trans a b c : within a b -> within b c -> within a c.
Proof. intros [H1 P1] [H2 P2]. split; [by rewrite H2|by eapply starts_with_trans]. Qed.

Lemma stays_within_true base u : stays_within base u = true -> within base u.
Proof.
  unfold stays_within. rewrite !andb_true_iff, !bool_decide_eq_true. intros [[[? ?] ?] ?]. by split.
Qed.

Lemma normalize_base_url_within url base : normalize_base_url url = Ok base -> within url base.
Proof using HL.
  unfold normalize_base_url. intros H. apply check_Ok in H as [Hb [= <-]].
  destruct (ends_with _ _); [by split; [|apply starts_with_refl]|].
  split; [apply set_path_origin|]. rewrite set_path_slash; [apply starts_with_app|].
  apply guard_err_Ok, negb_false_iff in Hb. unfold base_url_ok in Hb. rewrite !andb_true_iff in Hb. apply Hb.
Qed.

Lemma join_within_within base relative u : join_within base relative = Ok u -> within base u.
Proof.
  unfold join_within. intros H. apply check_Ok in H as [_ H].
  apply result_bind_Ok in H as (j & _ & H). apply check_Ok in H as [H [= <-]].
  apply guard_err_Ok, negb_false_iff in H. by apply stays_within_true.
Qed.

Lemma checked_join_within base relative u : checked_join base relative = Ok u -> within base u.
Proof.
  unfold checked_join. intros H. apply check_Ok in H as [_ H].
  apply result_bind_Ok in H as (j & _ & H). apply check_Ok in H as [H [= <-]].
  apply guard_err_Ok, negb_false_iff in H. by apply stays_within_true.
Qed.

Lemma append_pair_within u k v : within u (url_append_pair u k v).
Proof using HL.
  split; [apply append_pair_origin|]. rewrite append_pair_path. apply starts_with_refl.
Qed.

Lemma gemini_url_within base request u : gemini_url base request = Ok u -> within base u.
Proof using HL.
  unfold gemini_url. intros H. apply result_bind_Ok in H as (directory & Hd & H).
  apply result_bind_Ok in H as (url & Hu & H). apply check_Ok in H as [Hg [= <-]].
  apply ok_or_Ok in Hu. apply checked_join_within in Hd.
  apply guard_err_Ok in Hg. rewrite !orb_false_iff, !negb_false_iff in Hg. destruct Hg as [_ Hp].
  assert (within base url) as Hw.
  { eapply within_trans; [exact Hd|]. split; [by eapply push_segment_origin|done]. }
  destruct (cr_stream request); [|done]. eapply within_trans; [exact Hw|apply append_pair_within].
Qed.

(** What every built request is. *)
Record built (a : UpstreamAdapter) (stream : bool) (out : UpstreamRequest) : Prop := {
  built_within : within (ua_base_url a) (ur_url out);
  built_body : zlen (ur_body out) <= ul_max_request_body_bytes (ua_limits a);
  built_headers : forall name, is_Some (ur_headers out !! name) -> name ∈ BUILT_HEADERS;
  built_accept : ur_headers out !! "accept"%string = Some (expected_accept stream);
  built_stream : ur_stream out = stream
}.

Lemma json_request_built a url body stream out :
  within (ua_base_url a) url -> json_request (ua_limits a) url body stream = Ok out -> built a stream out.
Proof using HL.
  intros Hw H. unfold json_request in H. apply check_Ok in H as [Hl [= <-]].
  apply guard_err_Ok, Z.ltb_ge in Hl. split; cbn [ur_url ur_body ur_headers ur_stream]; try done.
  intros name Hn. cbn [list_to_map foldr uncurry fst snd] in Hn. unfold BUILT_HEADERS.
  rewrite !lookup_insert_is_Some, lookup_empty in Hn.
  destruct Hn as [<-|[_ [<-|[_ [? ?]]]]]; [set_solver|set_solver|done].
Qed.

Lemma gemini_built a request out :
  build_gemini a request = Ok out -> built a (cr_stream request) out.
Proof using HL.
  unfold build_gemini. intros H. apply check_Ok in H as [_ H]. apply result_bind_Ok in H as (g & Hg & [= <-]).
  assert (cr_stream (with_thinking_config request) = cr_stream request) as Hs.
  { unfold with_thinking_config. by destruct (_ && _). }
  unfold gemini_build_request in Hg. rewrite !check_Ok in Hg. destruct Hg as (_ & _ & Hg).
  apply result_bind_Ok in Hg as (url & Hu & Hg). apply result_bind_Ok in Hg as (body & _ & Hg).
  apply result_bind_Ok in Hg as (bytes & Hb & [= <-]). unfold encode_bounded in Hb.
  apply check_Ok in Hb as [Hl [= <-]]. apply guard_err_Ok, Z.ltb_ge in Hl. apply gemini_url_within in Hu.
  rewrite Hs. split; cbn [ur_url ur_body ur_headers ur_stream list_to_map foldr uncurry fst snd]; try done.
  intros name Hn. unfold BUILT_HEADERS. apply lookup_insert_is_Some in Hn as [<-|[_ Hn]]; [set_solver|].
  apply lookup_delete_is_Some in Hn as [Hne Hn]. rewrite !lookup_insert_is_Some, lookup_empty in Hn.
  destruct Hn as [<-|[_ [<-|[_ [? ?]]]]]; [set_solver|done|done].
Qed.

(** Take a build apart to the URL and the request made of it. *)
Ltac build_inv H :=
  repeat lazymatch type of H with
  | result_bind _ _ = Ok _ => apply result_bind_Ok in H as (? & ? & H)
  end.

Lemma anthropic_built a request operation out :
  build_anthropic a request operation = Ok out ->
  built a (bool_decide (operation = OpText) && cr_stream request) out.
Proof using HL.
  unfold build_anthropic. intros H. apply result_bind_Ok in H as (body & _ & H).
  apply result_bind_Ok in H as (url & Hu & H). apply result_bind_Ok in H as (o & Ho & [= <-]).
  apply join_within_within in Hu. apply json_request_built in Ho as [? ? Hh ? ?]; [|done].
  split; cbn [ur_url ur_body ur_headers ur_stream]; try done.
  - intros name Hn. apply lookup_insert_is_Some in Hn as [<-|[_ Hn]]; [|by apply Hh].
    unfold BUILT_HEADERS. set_solver.
  - by rewrite lookup_insert_ne.
Qed.

Lemma build_request_built a request operation out :
  build_request a request operation = Ok out ->
  built a (bool_decide (operation = OpText) && cr_stream request) out.
Proof using HL.
  unfold build_request. intros H. apply check_Ok in H as [_ H].
  destruct (ua_protocol a), operation; try discriminate H; try (by apply anthropic_built in H);
    rewrite (bool_decide_true (OpText = OpText)) by done; cbn [andb].
  - unfold build_openai_responses in H. build_inv H. eapply json_request_built; [|exact H].
    by eapply join_within_within.
  - unfold build_openai_chat in H. build_inv H. eapply json_request_built; [|exact H].
    by eapply join_within_within.
  - by apply gemini_built.
  - unfold build_azure in H. build_inv H. eapply json_request_built; [|exact H].
    eapply within_trans; [by eapply join_within_within|apply append_pair_within].
Qed.

Lemma UpstreamAdapter_new_within protocol endpoint l a :
  UpstreamAdapter_new protocol endpoint l = Ok a -> within endpoint (ua_base_url a) /\ ua_limits a = l.
Proof using HL.
  unfold UpstreamAdapter_new. intros H. apply result_bind_Ok in H as (base & Hn & H).
  apply check_Ok in H as [_ [= <-]]. split; [by apply normalize_base_url_within|done].
Qed.
End Spec.
