(* ===== verification/Executor.v ===== *)
(** * The request an execution sends

    Models the first half of [execute_inner] in [apps/wokcore/src/runtime.rs]:
    from an execution request to the transport request, with the account's
    credential attached; the second half is [Pump.complete_result] and
    [Pump.streaming_result].  [executor_request_confined] composes the request
    builders, the outbound authorization and the transport's header checks. *)
From S2P Require Import Prelude Text Json Canonical UpstreamCommon Upstream.
From S2P Require Import NetAddr Inbound Pump RequestBuild.
From S2P Require Import Config Catalog Routing Transport TransportSpec DataPlane Dispatch.

Section Executor.
Context `{HB : UrlBuild, HT : !UrlText, HJ : JsonCrate, HH : HttpCrate}.

Definition attach_header (r : TransportRequest) (entry : string * string)
  : result UpstreamExecutionFailure TransportRequest :=
  map_err map_transport_error (with_header r entry.1 entry.2).

Definition attach_authorization (r : TransportRequest) (authorization : option ResolvedAuthorization)
  : result UpstreamExecutionFailure TransportRequest :=
  match authorization with
  | Some a => map_err map_transport_error (with_sensitive_header r (header_name a) (header_value a))
  | None => Ok r
  end.

Definition transport_request (resolve : string -> result SecretResolutionError string)
  (request : UpstreamExecutionRequest) : result UpstreamExecutionFailure TransportRequest :=
  let? protocol := ok_or (protocol_for (uer_adapter request)) (failure_new UpPolicy) in
  let? endpoint := ok_or (url_parse (uer_endpoint request)) (failure_new UpPolicy) in
  let? adapter := map_err (fun _ => failure_new UpPolicy)
    (UpstreamAdapter_new protocol endpoint UpstreamLimits_default) in
  let? outbound := map_err map_request_error
    (build_request adapter (uer_canonical request) (uer_operation request)) in
  let r := TransportRequest_post (ur_url outbound) (ur_body outbound) (ur_stream outbound)
    (network_policy (uer_endpoint_access request)) in
  let? r := try_fold attach_header r (btree_iter (ur_headers outbound)) in
  let? authorization := map_err (fun _ => failure_new UpInvalidCredentials)
    (resolve_outbound_auth (uer_auth request) (uer_adapter request) resolve) in
  attach_authorization r authorization.
End Executor.

(** * What leaves the gateway

    The transport request of an execution goes to the account's endpoint, carries
    the headers its builder wrote and the account's own credential, and nothing
    else. *)

Section Spec.
Context `{HB : UrlBuild, HL : !UrlBuildLaws, HT : !UrlText, HJ : JsonCrate, HH : HttpCrate}.

(** Attaching a header changes nothing else. *)
Definition same_but_headers (r r' : TransportRequest) : Prop :=
  tr_url r' = tr_url r /\ tr_body r' = tr_body r /\ tr_stream r' = tr_stream r /\
  tr_network_policy r' = tr_network_policy r /\ tr_sensitive_header r' = tr_sensitive_header r.

Lemma attach_header_Ok r e r' :
  attach_header r e = Ok r' ->
  same_but_headers r r' /\ tr_headers r' = <[to_ascii_lowercase e.1 := e.2]> (tr_headers r).
Proof.
  unfold attach_header, with_header. intros H. apply map_err_Ok in H.
  apply result_bind_Ok in H as (name & Hn & H). rewrite !check_Ok in H. destruct H as (_ & _ & [= <-]).
  unfold parse_allowed_name in Hn. rewrite !check_Ok in Hn. destruct Hn as (_ & _ & [= <-]). done.
Qed.

Lemma attach_headers_Ok entries r r' :
  try_fold attach_header r entries = Ok r' ->
  same_but_headers r r' /\
  forall name, is_Some (tr_headers r' !! name) ->
    is_Some (tr_headers r !! name) \/ exists e, e ∈ entries /\ name = to_ascii_lowercase e.1.
Proof.
  revert r. induction entries as [|e entries IH]; intros r; cbn [try_fold].
  - intros [= <-]. split; [done|auto].
  - intros H. apply result_bind_Ok in H as (r1 & H1 & H). apply attach_header_Ok in H1 as [S1 Hh].
    apply IH in H as [S2 Hr]. split.
    { unfold same_but_headers in *. naive_solver congruence. }
    intros name Hn. apply Hr in Hn as [Hn|(e' & Hin & ->)].
    + rewrite Hh in Hn. apply lookup_insert_is_Some in Hn as [<-|[_ Hn]]; [|auto].
      right. exists e. split; [apply list_elem_of_here|done].
    + right. exists e'. split; [by apply list_elem_of_further|done].
Qed.

(** The credential a request carries: none for a local account, otherwise the
    account's secret in the one header its kind uses. *)
Definition own_authorization (resolve : string -> result SecretResolutionError string)
  (request : UpstreamExecutionRequest) (sensitive : option SensitiveHeader) : Prop :=
  match auth_header (uer_auth request) (uer_adapter request) with
  | None => sensitive = None
  | Some (secret_ref, name, bearer) =>
      exists secret, resolve secret_ref = Ok secret /\
        sensitive = Some (mkSensitive (to_ascii_lowercase name)
          (if bearer then ("Bearer " +:+ secret)%string else secret))
  end.

Lemma attach_authorization_Ok resolve request authorization r r' :
  resolve_outbound_auth (uer_auth request) (uer_adapter request) resolve = Ok authorization ->
  tr_sensitive_header r = None -> attach_authorization r authorization = Ok r' ->
  tr_url r' = tr_url r /\ tr_body r' = tr_body r /\ tr_stream r' = tr_stream r /\
  tr_network_policy r' = tr_network_policy r /\ tr_headers r' = tr_headers r /\
  own_authorization resolve request (tr_sensitive_header r').
Proof.
  unfold resolve_outbound_auth, own_authorization. intros Ha Hn H.
  destruct (auth_header _ _) as [[[secret_ref name] bearer]|].
  - apply result_bind_Ok in Ha as (secret & Hs & Ha). apply check_Ok in Ha as [_ [= <-]].
    cbn [attach_authorization header_name header_value] in H. apply map_err_Ok in H.
    unfold with_sensitive_header in H. apply result_bind_Ok in H as (low & Hlow & H).
    apply check_Ok in H as [_ [= <-]]. unfold parse_allowed_name in Hlow. rewrite !check_Ok in Hlow.
    destruct Hlow as (_ & _ & [= <-]). split_and!; try done. by exists secret.
  - injection Ha as <-. injection H as <-. done.
Qed.

(** C18: An execution sends its request to the account's endpoint and nowhere else: same scheme, host
    and port, under the endpoint's path, with the network policy of its route; the headers are those
    the builder writes, the body is within the limit, and the only credential is the account's own
    secret, resolved from its reference, in the header of its kind. *)
Theorem executor_request_confined (resolve : string -> result SecretResolutionError string)
  (request : UpstreamExecutionRequest) (r : TransportRequest) :
  transport_request resolve request = Ok r ->
  exists endpoint, url_parse (uer_endpoint request) = Some endpoint /\
    same_origin (tr_url r) endpoint /\ starts_with (url_path endpoint) (url_path (tr_url r)) = true /\
    tr_network_policy r = network_policy (uer_endpoint_access request) /\
    (exists body, tr_body r = BodyBytes body /\
       zlen body <= ul_max_request_body_bytes UpstreamLimits_default) /\
    tr_stream r = bool_decide (uer_operation request = OpText) && cr_stream (uer_canonical request) /\
    (forall name, is_Some (tr_headers r !! name) -> name ∈ BUILT_HEADERS) /\
    own_authorization resolve request (tr_sensitive_header r).
Proof using HL.
  unfold transport_request. intros H. apply result_bind_Ok in H as (protocol & _ & H).
  apply result_bind_Ok in H as (endpoint & He & H). apply ok_or_Ok in He.
  apply result_bind_Ok in H as (a & Ha & H). apply map_err_Ok in Ha.
  apply UpstreamAdapter_new_within in Ha as [Hw Hl].
  apply result_bind_Ok in H as (out & Hout & H). apply map_err_Ok in Hout.
  apply build_request_built in Hout as [Hin Hbody Hheaders _ Hstream].
  apply result_bind_Ok in H as (r1 & Hr1 & H). apply attach_headers_Ok in Hr1 as [Hsame Hnames].
  destruct Hsame as (Hurl & Hb & Hst & Hp & Hs). cbn in Hurl, Hb, Hst, Hp, Hs.
  destruct (within_trans _ _ _ Hw Hin) as [Horigin Hpath].
  apply result_bind_Ok in H as (authorization & Hauth & H). apply map_err_Ok in Hauth.
  exists endpoint.
  apply (attach_authorization_Ok resolve request) in H as (-> & Hb' & -> & -> & -> & ?); [|done|done].
  rewrite Hurl, Hst, Hp. rewrite Hb' in *.
  rewrite Hl in Hbody. split_and!; try done; [by eauto|].
  intros name Hn. apply Hnames in Hn as [[? Hn]|([k v] & Hin' & ->)]; [cbn in Hn; by rewrite lookup_empty in Hn|].
  apply elem_of_btree_iter in Hin'. specialize (Hheaders k (mk_is_Some _ _ Hin')).
  cbn [fst]. unfold BUILT_HEADERS in *. set_unfold in Hheaders. destruct Hheaders as [->|[->|[->|[]]]]; vm_compute; set_solver.
Qed.
End Spec.

(** ** A concrete run *)
Record PathUrl : Set := mkPathUrl {
  pu_scheme : string; pu_host : string; pu_port : option Z; pu_path : string; pu_query : option string
}.

#[local] Instance path_urls : UrlCrate := {|
  Url := PathUrl;
  url_parse := fun s =>
    if bool_decide (s = "https://api.example.com/v1"%string)
    then Some (mkPathUrl "https" "api.example.com" None "/v1" None) else None;
  url_scheme := pu_scheme;
  url_username := fun _ => ""%string;
  url_password := fun _ => None;
  url_host := fun u => Some (Domain (pu_host u));
  url_port := pu_port;
  url_query := pu_query;
  url_fragment := fun _ => None
|}.

#[local] Instance path_url_build : @UrlBuild path_urls :=
  @Build_UrlBuild path_urls
    (fun u => Some (pu_host u))
    pu_path
    (fun u => Some (default 443 (pu_port u)))
    (fun u s => Some (mkPathUrl (pu_scheme u) (pu_host u) (pu_port u) (pu_path u +:+ s) None))
    (fun u p => mkPathUrl (pu_scheme u) (pu_host u) (pu_port u) p (pu_query u))
    (fun u k v => mkPathUrl (pu_scheme u) (pu_host u) (pu_port u) (pu_path u)
       (Some (default ""%string (pu_query u) +:+ k +:+ "=" +:+ v)))
    (fun u s => Some (mkPathUrl (pu_scheme u) (pu_host u) (pu_port u) (pu_path u +:+ s) (pu_query u))).

#[local] Instance path_url_laws : @UrlBuildLaws path_urls path_url_build.
Proof. split; try done. intros u s v [= <-]. done. Qed.

#[local] Instance path_url_text : @UrlText path_urls := @Build_UrlText path_urls pu_path.
#[local] Instance path_json : JsonCrate := {| from_str := fun _ => None; to_string := fun _ => "{}"%string |}.

Definition chat_execution : UpstreamExecutionRequest :=
  mkUpstreamRequest "req" 1 OpText "provider" "account" OpenAiChat "https://api.example.com/v1"
    PublicOnly "model" (AuthApiKey "ref")
    (mkCanonical "req" "model" None [InText "hi"] [] true None ∅).

Definition chat_resolver (secret_ref : string) : result SecretResolutionError string :=
  if bool_decide (secret_ref = "ref"%string) then Ok "key"%string else Err mkSecretResolutionError.

Definition chat_sent : result UpstreamExecutionFailure TransportRequest :=
  @transport_request path_urls path_url_build path_json demo_http chat_resolver chat_execution.

Lemma executor_request_confined_witness :
  exists r, chat_sent = Ok r /\ url_path (tr_url r) = "/v1/chat/completions"%string /\
    tr_sensitive_header r = Some (mkSensitive "authorization" "Bearer key") /\
    own_authorization chat_resolver chat_execution (tr_sensitive_header r).
Proof.
  eexists. split; [vm_compute; reflexivity|]. split; [vm_compute; reflexivity|]. split; [vm_compute; reflexivity|].
  destruct (@executor_request_confined path_urls path_url_build path_url_laws path_json demo_http
    chat_resolver chat_execution _ ltac:(vm_compute; reflexivity)) as (? & ? & ? & ? & ? & ? & ? & ? & H).
  exact H.
Defined.
