(* ===== verification/AnthropicDecodeSpec.v ===== *)
(** * What a decoded Messages request says

    Input items and kept blocks together hold every block of the conversation;
    the options of the request stay only inside the retained value. *)
From S2P Require Import Prelude Text Json Canonical UpstreamCommon Upstream NetAddr Inbound AnthropicDecode.
From S2P Require Import Pump RequestBuild Config Catalog Routing DataPlane Dispatch.

Section Spec.
Context `{HU : UrlCrate, HT : !UrlText, HB : Base64Crate, HJ : JsonCrate, HW : AnthropicWire}.

Lemma decode_anthropic_request_fields request_id wire retained l require r :
  decode_anthropic_request request_id wire retained l require = Ok r ->
  cr_reasoning r = thinking_options <$> ar_thinking wire /\ cr_req_model r = ar_model wire /\
  cr_stream r = ar_stream wire /\
  forall k, is_Some (cr_extensions r !! k) ->
    k = REQUEST_EXTENSION_KEY \/ k = ANTHROPIC_KNOWN_BLOCKS_EXTENSION_KEY.
Proof.
  unfold decode_anthropic_request. intros H. apply check_Ok in H as [_ H].
  apply result_bind_Ok in H as (v & _ & H). apply check_Ok in H as [_ H].
  apply result_bind_Ok in H as (acc & _ & H). apply result_bind_Ok in H as (acc' & _ & H).
  apply result_bind_Ok in H as (ext & He & [= <-]). cbn [cr_reasoning cr_req_model cr_stream cr_extensions].
  split_and!; try done. intros k Hk. destruct (is_emptyb acc'.2).
  - injection He as <-. apply lookup_singleton_is_Some in Hk. auto.
  - apply check_Ok in He as [_ [= <-]].
    apply lookup_insert_is_Some in Hk as [<-|[_ Hk]]; [auto|]. apply lookup_singleton_is_Some in Hk. auto.
Qed.

Lemma routed_request_fields route r routed :
  routed_request route r = Ok routed ->
  cr_extensions routed = cr_extensions r /\ (is_Some (cr_reasoning r) -> is_Some (cr_reasoning routed)).
Proof.
  unfold routed_request. intros H. apply result_bind_Ok in H as (reasoning & Hr & [= <-]).
  split; [done|]. intros [o Ho]. rewrite Ho in Hr. cbn [cr_reasoning].
  destruct (effort o) as [e|]; [|injection Hr as <-; eauto].
  apply result_bind_Ok in Hr as (mapped & _ & [= <-]). eauto.
Qed.

(** An object whose other keys were set stays an object, with the keys it had. *)
Lemma get_with_tools m k tools :
  k <> "tools"%string -> exists m', with_tools tools (of_map m) = of_map m' /\ m' !! k = m !! k.
Proof.
  intros Hk. unfold with_tools. destruct (is_emptyb tools); [by exists m|].
  rewrite set_key_of_map. eexists. split; [done|]. by rewrite lookup_insert_ne.
Qed.

Lemma encode_anthropic_body_options request l body :
  encode_anthropic_body request OpText l = Ok body ->
  value_get body "max_tokens" = Some (json_uint (anthropic_max_tokens request)) /\
  (is_Some (cr_reasoning request) ->
   value_get body "thinking" = Some (json_object
     [("type"%string, VString "enabled");
      ("budget_tokens"%string, json_uint (anthropic_thinking_budget request))])).
Proof.
  unfold encode_anthropic_body. intros H. apply result_bind_Ok in H as (content & _ & H).
  apply result_bind_Ok in H as (tools & _ & [= <-]).
  rewrite !list_to_map_btree_iter.
  match goal with |- context [with_tools tools (of_map ?m)] =>
    destruct (get_with_tools m "max_tokens" tools) as (m' & -> & Hm); [done|] end.
  destruct (cr_reasoning request); cbn [is_someb]; rewrite ?set_key_of_map, ?get_of_map.
  - rewrite lookup_insert_ne, lookup_insert_eq, Hm by done. by rewrite lookup_insert_ne, lookup_insert_eq.
  - split; [|by intros []]. rewrite Hm. by rewrite lookup_insert_ne, lookup_insert_eq.
Qed.

(** A tool result needs the name its call had, and only a request that brings the names along has
    them: a Messages request never does, so a Gemini upstream is never sent its tool results. *)
Lemma gemini_body_needs_names request l call_id output :
  cr_extensions request !! TOOL_NAMES_EXTENSION = None ->
  InToolResult call_id output ∈ cr_input request -> forall body, gemini_body request l <> Ok body.
Proof.
  intros Hn Hin body H. unfold gemini_body in H. rewrite Hn in H.
  apply result_bind_Ok in H as (parts & H & _). apply try_map_Ok in H.
  apply list_elem_of_lookup in Hin as [i Hi]. eapply Forall2_lookup_l in H as (part & _ & Hp); [|done].
  cbn [gemini_part] in Hp. apply check_Ok in Hp as [_ Hp]. by apply check_Ok in Hp as [_ Hp].
Qed.

Lemma gemini_refuses_tool_results `{HX : !UrlBuild} request_id wire retained al r route routed a
  call_id output :
  decode_anthropic_request request_id wire retained al true = Ok r ->
  routed_request route r = Ok routed ->
  InToolResult call_id output ∈ cr_input routed ->
  forall u, build_gemini a routed <> Ok u.
Proof.
  intros Hd Hr Hin u H. apply decode_anthropic_request_fields in Hd as (_ & _ & _ & Hext).
  apply routed_request_fields in Hr as [He _].
  assert (cr_extensions routed !! TOOL_NAMES_EXTENSION = None) as Hn.
  { rewrite He. destruct (_ !! TOOL_NAMES_EXTENSION) eqn:Hk; [exfalso|done].
    by destruct (Hext TOOL_NAMES_EXTENSION); [eauto| |]. }
  unfold build_gemini in H. apply check_Ok in H as [_ H]. apply result_bind_Ok in H as (o & H & _).
  unfold gemini_build_request in H. apply check_Ok in H as [_ H]. apply check_Ok in H as [_ H].
  apply result_bind_Ok in H as (url & _ & H). apply result_bind_Ok in H as (body & H & _).
  apply gemini_body_needs_names with (call_id := call_id) (output := output) in H; [done| |].
  - unfold with_thinking_config. case_match; [|done]. cbn [cr_extensions]. by rewrite lookup_insert_ne.
  - unfold with_thinking_config. by case_match.
Qed.

(** A Messages client's limits do not reach a Messages upstream.  Whatever [max_tokens] a request
    asks for, the body built from it after routing asks for 4096; and any [thinking] setting of the
    request, [disabled] and [adaptive] included, is built as [enabled]. *)
Theorem anthropic_options_lost (request_id : string) (wire : AnthropicRequest) (retained : option Value)
  (al : AnthropicInboundLimits) (r routed : CanonicalRequest) (route : Routing.RouteDecision)
  (l : UpstreamLimits) (body : Value) :
  decode_anthropic_request request_id wire retained al true = Ok r ->
  routed_request route r = Ok routed ->
  encode_anthropic_body routed OpText l = Ok body ->
  value_get body "max_tokens" = Some (json_uint 4096) /\
  (is_Some (ar_thinking wire) -> exists budget, value_get body "thinking" = Some (json_object
     [("type"%string, VString "enabled"); ("budget_tokens"%string, json_uint budget)])).
Proof.
  intros Hd Hr Hb. apply decode_anthropic_request_fields in Hd as (Hreason & _ & _ & Hext).
  apply routed_request_fields in Hr as [He Hsome].
  apply encode_anthropic_body_options in Hb as [Hmax Hthink]. split.
  - rewrite Hmax. unfold anthropic_max_tokens. rewrite He.
    destruct (cr_extensions r !! "max_output_tokens"%string) eqn:Hk; [exfalso|done].
    destruct (Hext "max_output_tokens"%string); [eauto|done|done].
  - intros Ht. exists (anthropic_thinking_budget routed). apply Hthink, Hsome. rewrite Hreason.
    by apply fmap_is_Some.
Qed.
End Spec.

(** ** A concrete request *)
#[local] Instance plain_json : JsonCrate := {| from_str := fun _ => None; to_string := fun _ => "{}"%string |}.
#[local] Instance plain_wire : AnthropicWire := {|
  anthropic_from_slice := fun _ => None; block_to_value := fun _ => VNull; source_to_value := fun _ => VNull |}.
#[local] Instance plain_base64 : Base64Crate := {| standard_decode := Some |}.
#[local] Instance plain_url_text : @UrlText demo_url_crate := @Build_UrlText demo_url_crate (fun _ => ""%string).

Definition quiet_request : AnthropicRequest :=
  mkAnthropicRequest "m" [mkAnthropicMessage AnthropicUser (ContentText "hi") ∅] (Some 100) None [] None false
    (Some (mkThinkingConfig "disabled" None ∅)) ∅.

Definition quiet_route : Routing.RouteDecision :=
  Routing.mkDecision
    (Routing.mkRouteProvider "prov" "catalog" "https://upstream.test/" Routing.PublicOnly Anthropic KindKey
       (mkCapabilities true true true true true true true) [] [] {["disabled"%string := "none"%string]})
    "model" Routing.OriginExplicit.

Definition quiet_decoded : result GatewayError CanonicalRequest :=
  @decode_anthropic_request demo_url_crate plain_url_text plain_base64 plain_json plain_wire
    "req" quiet_request (Some VNull) AnthropicInboundLimits_default true.

Lemma anthropic_options_lost_witness :
  exists r routed body, quiet_decoded = Ok r /\ routed_request quiet_route r = Ok routed /\
    encode_anthropic_body routed OpText UpstreamLimits_default = Ok body /\
    value_get body "max_tokens" = Some (json_uint 4096).
Proof.
  do 3 eexists. split; [vm_compute; reflexivity|]. split; [vm_compute; reflexivity|].
  split; [vm_compute; reflexivity|].
  eapply (@anthropic_options_lost demo_url_crate plain_url_text plain_base64 plain_json plain_wire
    "req" quiet_request (Some VNull) AnthropicInboundLimits_default) with (route := quiet_route) (l := UpstreamLimits_default);
    [vm_compute; reflexivity..].
Defined.
