(* ===== verification/InboundCodec.v ===== *)
(** * Decoding a client request ([wokcore-protocols/src/inbound/mod.rs])

    The codec chosen by the route decodes the body and the result is checked
    against the limits.  A request is accepted exactly when its decoder accepts
    it and it is within the limits, and a refused one is always the client's
    error. *)
From S2P Require Import Prelude Text Json Canonical NetAddr Inbound.
From S2P Require Import ChatDecode ResponsesDecode AnthropicDecode.

Inductive InboundCodecV1 : Set :=
| OpenAiResponsesIn | OpenAiChatCompletionsIn | AnthropicMessagesIn | AnthropicCountTokensIn.

Section Codec.
Context `{HU : UrlCrate, HT : !UrlText, HB : Base64Crate, HJ : JsonCrate}.
Context `{HC : ChatWire, HR : ResponsesWire, HW : AnthropicWire}.

(** The dialect's own decoder. *)
Definition codec_decode (codec : InboundCodecV1) (request_id : string) (json : list Z)
  : result GatewayError CanonicalRequest :=
  match codec with
  | OpenAiResponsesIn => responses_decode_request request_id json
  | OpenAiChatCompletionsIn => chat_decode_request request_id json
  | AnthropicMessagesIn => anthropic_decode_message request_id json
  | AnthropicCountTokensIn => anthropic_decode_count_tokens request_id json
  end.

Definition inbound_decode (codec : InboundCodecV1) (request_id : string) (json : list Z)
  (l : InboundLimits) : result GatewayError CanonicalRequest :=
  check? guard_err (il_max_body_bytes l <? zlen json) invalid_request;
  let? request := codec_decode codec request_id json in
  check? validate_canonical_request request l;
  Ok request.

(** ** Refusals

    The errors a decoder may answer with, and that its combinators answer with
    no others. *)
Definition client_error (e : GatewayError) : Prop := e = invalid_request \/ e = unsupported_capability.
Definition refuses {A} (r : result GatewayError A) : Prop := forall e, r = Err e -> client_error e.

Lemma client_error_invalid : client_error invalid_request. Proof. by left. Qed.
Lemma client_error_unsupported : client_error unsupported_capability. Proof. by right. Qed.

Lemma client_error_classify known value : client_error (classify_unknown known value).
Proof. unfold classify_unknown. repeat case_match; (by left) || by right. Qed.

Lemma refuses_value {A} (a : A) : refuses (Ok a). Proof. discriminate. Qed.

Lemma refuses_error {A} e : client_error e -> refuses (@Err _ A e). Proof. by intros H e' [= <-]. Qed.

Lemma refuses_guard b e : client_error e -> refuses (guard_err b e).
Proof. destruct b; [apply refuses_error|intros _; apply refuses_value]. Qed.

Lemma refuses_ok_or {A} (o : option A) e : client_error e -> refuses (ok_or o e).
Proof. destruct o; [intros _; apply refuses_value|apply refuses_error]. Qed.

Lemma refuses_step {A B} (c : result GatewayError A) (k : A -> result GatewayError B) :
  refuses c -> (forall a, refuses (k a)) -> refuses (result_bind c k).
Proof. intros Hc Hk. destruct c; [apply Hk|]. intros e' [= <-]. by apply Hc. Qed.

Lemma refuses_try_fold {S A} (f : S -> A -> result GatewayError S) s l :
  (forall s a, refuses (f s a)) -> refuses (try_fold f s l).
Proof. intros Hf e H. apply try_fold_Err in H as (s' & a & _ & H). by apply (Hf s' a). Qed.

Lemma refuses_try_map {A B} (f : A -> result GatewayError B) l :
  (forall a, refuses (f a)) -> refuses (try_map f l).
Proof.
  intros Hf. induction l as [|a l IH]; cbn [try_map]; [apply refuses_value|].
  apply refuses_step; [done|]. intros b. by apply refuses_step.
Qed.
End Codec.

Create HintDb refuse discriminated.
#[export] Hint Resolve client_error_invalid client_error_unsupported client_error_classify
  refuses_value refuses_error refuses_guard refuses_ok_or : refuse.

(** Walks a decoder: a bind, a loop or a case at a time. *)
Ltac refuse :=
  repeat first
    [ solve [eauto with refuse]
    | match goal with
      | |- forall _, _ => intro
      | |- refuses (result_bind _ _) => apply refuses_step
      | |- refuses (try_fold _ _ _) => apply refuses_try_fold
      | |- refuses (try_map _ _) => apply refuses_try_map
      | |- refuses (match ?x with _ => _ end) => destruct x
      | |- refuses (let '_ := ?x in _) => destruct x
      end ].

Section Refusals.
Context `{HU : UrlCrate, HT : !UrlText, HB : Base64Crate, HJ : JsonCrate}.
Context `{HC : ChatWire, HR : ResponsesWire, HW : AnthropicWire}.

Lemma refuses_decode_image_url value : refuses (decode_image_url value).
Proof. unfold decode_image_url. refuse. Qed.

Lemma refuses_content_parts {P} f (parts : list P) input extension :
  (forall p i inp ext, refuses (f p i inp ext)) -> refuses (content_parts f parts input extension).
Proof. intros Hf. unfold content_parts, decode_parts. refuse. Qed.

Lemma refuses_chat wire request_id : refuses (decode_chat_request request_id wire).
Proof.
  unfold decode_chat_request, validate_non_empty, decode_messages, decode_next_message, decode_message,
    decode_message_body, decode_assistant, decode_text_content, decode_user_content,
    decode_assistant_content, named_extra, chat_insert_name, tool_content_value, decode_tool_calls,
    decode_tool_call, chat_decode_tools, chat_collect_tool, chat_decode_tool, validate_non_empty.
  refuse; try (apply refuses_content_parts; intros p ? ? ?; destruct p; cbn; refuse);
    apply refuses_decode_image_url.
Qed.

Lemma refuses_responses wire request_id : refuses (decode_responses_request request_id wire).
Proof.
  unfold decode_responses_request, validate_non_empty, decode_input, decode_input_item,
    decode_message_content, decode_parts, content_part, responses_decode_tool.
  refuse; apply refuses_decode_image_url.
Qed.

Lemma refuses_anthropic_validate wire l require : refuses (anthropic_validate_request wire l require).
Proof.
  unfold anthropic_validate_request, count_message_blocks, validate_content, validate_block, validate_source,
    validate_tool_wire, validate_tool_choice, validate_thinking, al_identifier, al_value, al_opaque_payload,
    classify_unknown_block, classify_unknown_source, classify_unknown_tool.
  refuse.
Qed.

Lemma refuses_anthropic wire request_id retained l require :
  refuses (decode_anthropic_request request_id wire retained l require).
Proof.
  unfold decode_anthropic_request. apply refuses_step; [apply refuses_anthropic_validate|intros _].
  unfold extract_message, extract_content, extract_block, source_url, known_block_value, al_value. refuse.
Qed.

Lemma refuses_codec codec request_id json : refuses (codec_decode codec request_id json).
Proof.
  destruct codec; cbn [codec_decode]; unfold responses_decode_request, chat_decode_request,
    anthropic_decode_message, anthropic_decode_count_tokens, decode_message_with_limits; refuse.
  all: first [apply refuses_responses | apply refuses_chat | apply refuses_anthropic].
Qed.

Lemma refuses_validate request l : refuses (validate_canonical_request request l).
Proof.
  unfold validate_canonical_request, validate_item, count_tool_extensions, count_reasoning_extensions,
    validate_extensions, validate_extension, validate_tool, inbound_identifier, validate_retained_text,
    validate_retained_value, validate_extension_key. refuse.
Qed.

(** C34: A client request is accepted exactly when its body fits, its dialect's decoder accepts it and
    what that decoder returns is within the limits, at every depth of its extensions; it is passed on
    unchanged.  A refused request is always answered as the client's error: invalid, or a capability
    that is not supported. *)
Theorem inbound_decode_exact (codec : InboundCodecV1) (request_id : string) (json : list Z)
  (l : InboundLimits) :
  il_max_images l <= u64_max -> il_max_extension_fields l <= u64_max ->
  (forall r, inbound_decode codec request_id json l = Ok r <->
     zlen json <= il_max_body_bytes l /\ codec_decode codec request_id json = Ok r /\ within_limits l r) /\
  (forall e, inbound_decode codec request_id json l = Err e ->
     e = invalid_request \/ e = unsupported_capability).
Proof.
  intros Hi Hf. split.
  - intros r. unfold inbound_decode. rewrite check_Ok, guard_err_Ok, Z.ltb_ge, result_bind_Ok.
    setoid_rewrite check_Ok. setoid_rewrite validate_canonical_request_Ok; [|done..].
    split; [intros (? & ? & ? & ? & [= ->]); done|intros (? & ? & ?); eauto].
  - change (refuses (inbound_decode codec request_id json l)). unfold inbound_decode.
    refuse; [apply refuses_codec|apply refuses_validate].
Qed.
End Refusals.

(** ** A concrete request *)
#[local] Instance text_json : JsonCrate := {| from_str := fun _ => None; to_string := fun _ => "{}"%string |}.
#[local] Instance text_chat : ChatWire := {| chat_from_slice := fun _ => None |}.
#[local] Instance text_base64 : Base64Crate := {| standard_decode := Some |}.
#[local] Instance text_anthropic : AnthropicWire := {|
  anthropic_from_slice := fun _ => None; block_to_value := fun _ => VNull; source_to_value := fun _ => VNull |}.
#[local] Instance text_url_text : @UrlText demo_url_crate := @Build_UrlText demo_url_crate (fun _ => ""%string).
#[local] Instance text_responses : ResponsesWire := {|
  responses_from_slice := fun _ =>
    Some (mkResponsesRequest "model" (InputText "hello") [] false None None ∅) |}.

Definition text_decoded : result GatewayError CanonicalRequest :=
  @inbound_decode demo_url_crate text_url_text text_base64 text_json text_chat text_responses text_anthropic
    OpenAiResponsesIn "req" [1] InboundLimits_default.

Lemma inbound_decode_exact_witness :
  exists r, text_decoded = Ok r /\ within_limits InboundLimits_default r.
Proof.
  eexists. split; [vm_compute; reflexivity|].
  eapply (@inbound_decode_exact demo_url_crate text_url_text text_base64 text_json text_chat text_responses
    text_anthropic OpenAiResponsesIn "req" [1] InboundLimits_default); [done|done|vm_compute; reflexivity].
Defined.
