(* ===== verification/ResponsesEncode.v ===== *)
(** * The Responses client codec ([wokcore-protocols/src/outbound/openai_responses.rs])

    Canonical events become the named, numbered events of the Responses
    protocol; the codec keeps the text of every output item, to report it whole
    when the response completes.  A complete response is what the last event of
    that stream carries. *)
From S2P Require Import Prelude Sse Json Canonical ChatEncode.

Record ResponsesResponseTemplate : Set := mkResponsesTemplate {
  rt_completed_at : option Z;
  rt_error : option Value;
  rt_incomplete_details : option Value;
  rt_instructions : option Value;
  rt_max_output_tokens : option Z;
  rt_metadata : json_map;
  rt_parallel_tool_calls : bool;
  rt_previous_response_id : option string;
  rt_reasoning : Value;
  rt_store : bool;
  rt_temperature : option Value;
  rt_text : Value;
  rt_tool_choice : Value;
  rt_tools : list Value;
  rt_top_p : option Value;
  rt_truncation : Value;
  rt_user : option string
}.

Record ResponsesEncodeContext : Set := mkResponsesContext {
  rx_model : string;
  rx_created_at : Z;
  rx_response : ResponsesResponseTemplate
}.

Record ResponsesLimits : Set := mkResponsesLimits {
  rl_max_output_items : Z;
  rl_max_identifier_bytes : Z;
  rl_max_aggregate_bytes : Z;
  rl_max_value_bytes : Z
}.

Definition ResponsesLimits_default : ResponsesLimits :=
  mkResponsesLimits 4096 512 (16 * 1024 * 1024) (1024 * 1024).

Inductive ResponsesOutput : Set :=
| OutText (item_id text : string)
| OutReasoning (item_id text : string)
| OutTool (item_id call_id name arguments : string).

Definition output_item_id (output : ResponsesOutput) : string :=
  match output with
  | OutText item_id _ | OutReasoning item_id _ | OutTool item_id _ _ _ => item_id
  end.

Definition output_text_part (text : string) : Value :=
  json_object [("type"%string, VString "output_text"); ("text"%string, VString text);
               ("annotations"%string, VArray [])].

Definition summary_text_part (text : string) : Value :=
  json_object [("type"%string, VString "summary_text"); ("text"%string, VString text)].

(** [ResponsesOutput::value]. *)
Definition output_value (output : ResponsesOutput) : Value :=
  match output with
  | OutText item_id text => json_object
      [("id"%string, VString item_id); ("type"%string, VString "message");
       ("role"%string, VString "assistant"); ("status"%string, VString "completed");
       ("content"%string, VArray [output_text_part text])]
  | OutReasoning item_id text => json_object
      [("id"%string, VString item_id); ("type"%string, VString "reasoning");
       ("status"%string, VString "completed"); ("summary"%string, VArray [summary_text_part text])]
  | OutTool item_id call_id name arguments => json_object
      [("id"%string, VString item_id); ("type"%string, VString "function_call");
       ("call_id"%string, VString call_id); ("name"%string, VString name);
       ("arguments"%string, VString arguments); ("status"%string, VString "completed")]
  end.

(** The item as it is announced, before any of its text. *)
Definition added_item (output : ResponsesOutput) : Value :=
  match output with
  | OutText item_id _ => json_object
      [("id"%string, VString item_id); ("type"%string, VString "message");
       ("role"%string, VString "assistant"); ("status"%string, VString "in_progress");
       ("content"%string, VArray [])]
  | OutReasoning item_id _ => json_object
      [("id"%string, VString item_id); ("type"%string, VString "reasoning");
       ("status"%string, VString "in_progress"); ("summary"%string, VArray [])]
  | OutTool item_id call_id name _ => json_object
      [("id"%string, VString item_id); ("type"%string, VString "function_call");
       ("call_id"%string, VString call_id); ("name"%string, VString name);
       ("arguments"%string, VString ""); ("status"%string, VString "in_progress")]
  end.

Definition responses_usage_value (usage : Usage) : Value :=
  let value : json_map := list_to_map
    [("input_tokens"%string, json_uint (input_tokens usage));
     ("input_tokens_details"%string,
       json_object [("cached_tokens"%string, json_uint (default 0 (cached_input_tokens usage)))]);
     ("output_tokens"%string, json_uint (output_tokens usage));
     ("output_tokens_details"%string,
       json_object [("reasoning_tokens"%string, json_uint (default 0 (reasoning_tokens usage)))]);
     ("total_tokens"%string, json_uint (sat_add64 (input_tokens usage) (output_tokens usage)))] in
  of_map (value ∪ usage_extensions usage).

Definition rl_identifier (l : ResponsesLimits) (value : string) : result GatewayError unit :=
  refuse_if (str_is_empty value || (rl_max_identifier_bytes l <? str_len value)).

(** [ResponsesEvent] flattened: the kind, the fields, no two with one key. *)
Definition wire_event (kind : string) (fields : list (string * Value)) : Value :=
  json_object (("type"%string, VString kind) :: fields).

(** A named event, [(&'static str, Value)]. *)
Abbreviation WireEvent := (string * Value)%type.

Section Responses.
Context (to_vec : Value -> list Z).

Definition rl_serialized (l : ResponsesLimits) (value : Value) : result GatewayError unit :=
  refuse_if (negb (zlen (to_vec value) <=? rl_max_value_bytes l)).

Definition rl_string_map (l : ResponsesLimits) (values : json_map) : result GatewayError unit :=
  check? refuse_if (rl_max_output_items l <? Z.of_nat (size values));
  check? try_fold (fun _ entry => rl_identifier l entry.1) tt (btree_iter values);
  rl_serialized l (of_map values).

Definition rl_usage (l : ResponsesLimits) (usage : Usage) : result GatewayError Value :=
  check? rl_string_map l (usage_extensions usage);
  let value := responses_usage_value usage in
  check? rl_serialized l value;
  Ok value.

Definition rl_context (l : ResponsesLimits) (context : ResponsesEncodeContext) : result GatewayError unit :=
  let t := rx_response context in
  check? rl_identifier l (rx_model context);
  check? match rt_previous_response_id t with
         | Some previous_response_id => rl_identifier l previous_response_id
         | None => Ok tt
         end;
  check? rl_string_map l (rt_metadata t);
  check? refuse_if (rl_max_output_items l <? zlen (rt_tools t));
  check? rl_serialized l (json_option (rt_error t));
  check? rl_serialized l (json_option (rt_incomplete_details t));
  check? rl_serialized l (json_option (rt_instructions t));
  check? rl_serialized l (rt_reasoning t);
  check? rl_serialized l (rt_text t);
  check? rl_serialized l (rt_tool_choice t);
  check? rl_serialized l (VArray (rt_tools t));
  check? rl_serialized l (rt_truncation t);
  rl_serialized l (json_string_option (rt_user t)).

(** ** The codec *)
Record ResponsesCodec : Set := mkResponsesCodec {
  rc_context : ResponsesEncodeContext;
  rc_limits : ResponsesLimits;
  rc_context_validated : bool;
  rc_terminal : bool;
  rc_sequence_number : Z;
  rc_response_id : option string;
  rc_output : list ResponsesOutput;
  rc_aggregate_bytes : Z;
  rc_usage : option Value
}.

Definition responses_with_limits (context : ResponsesEncodeContext) (l : ResponsesLimits) : ResponsesCodec :=
  mkResponsesCodec context l false false 1 None [] 0 None.

Definition responses_new (context : ResponsesEncodeContext) : ResponsesCodec :=
  responses_with_limits context ResponsesLimits_default.

Abbreviation rc_op := (st_res ResponsesCodec GatewayError).

Definition rc_set_validated (c : ResponsesCodec) : ResponsesCodec :=
  mkResponsesCodec (rc_context c) (rc_limits c) true (rc_terminal c) (rc_sequence_number c) (rc_response_id c)
    (rc_output c) (rc_aggregate_bytes c) (rc_usage c).
Definition rc_set_terminal (c : ResponsesCodec) : ResponsesCodec :=
  mkResponsesCodec (rc_context c) (rc_limits c) (rc_context_validated c) true (rc_sequence_number c)
    (rc_response_id c) (rc_output c) (rc_aggregate_bytes c) (rc_usage c).
Definition rc_next_number (c : ResponsesCodec) : ResponsesCodec :=
  mkResponsesCodec (rc_context c) (rc_limits c) (rc_context_validated c) (rc_terminal c)
    (wrap64 (rc_sequence_number c + 1)) (rc_response_id c) (rc_output c) (rc_aggregate_bytes c) (rc_usage c).
Definition rc_set_response_id (id : string) (c : ResponsesCodec) : ResponsesCodec :=
  mkResponsesCodec (rc_context c) (rc_limits c) (rc_context_validated c) (rc_terminal c)
    (rc_sequence_number c) (Some id) (rc_output c) (rc_aggregate_bytes c) (rc_usage c).
Definition rc_set_output (output : list ResponsesOutput) (aggregate_bytes : Z) (c : ResponsesCodec)
  : ResponsesCodec :=
  mkResponsesCodec (rc_context c) (rc_limits c) (rc_context_validated c) (rc_terminal c)
    (rc_sequence_number c) (rc_response_id c) output aggregate_bytes (rc_usage c).
Definition rc_set_usage (value : Value) (c : ResponsesCodec) : ResponsesCodec :=
  mkResponsesCodec (rc_context c) (rc_limits c) (rc_context_validated c) (rc_terminal c)
    (rc_sequence_number c) (rc_response_id c) (rc_output c) (rc_aggregate_bytes c) (Some value).

Definition rc_require_created (c : ResponsesCodec) : result GatewayError unit :=
  refuse_if (negb (is_someb (rc_response_id c))).

Definition rc_require_delta_allowed (c : ResponsesCodec) : result GatewayError unit :=
  check? rc_require_created c;
  refuse_if (is_someb (rc_usage c)).

Definition rc_validate_context_once : rc_op unit :=
  let! c := st_get in
  if rc_context_validated c then st_ret tt
  else do! st_lift (rl_context (rc_limits c) (rc_context c)); st_mod rc_set_validated.

Definition checked_aggregate_bytes (c : ResponsesCodec) (additional : Z) : result GatewayError Z :=
  ok_or (total ← checked_add64 (rc_aggregate_bytes c) additional;
         if total <=? rl_max_aggregate_bytes (rc_limits c) then Some total else None) invalid_request.

(** [position] of the item with this id. *)
Definition find_output (c : ResponsesCodec) (item_id : string) : option nat :=
  fst <$> list_find (fun output => output_item_id output = item_id) (rc_output c).

(** What an [append] is about: the new item, and how a delta joins an item of
    its kind ([None] for another kind or another call). *)
Definition text_joins (delta : string) (existing : ResponsesOutput) : option ResponsesOutput :=
  match existing with
  | OutText item_id text => Some (OutText item_id (text +:+ delta))
  | _ => None
  end.

Definition reasoning_joins (delta : string) (existing : ResponsesOutput) : option ResponsesOutput :=
  match existing with
  | OutReasoning item_id text => Some (OutReasoning item_id (text +:+ delta))
  | _ => None
  end.

Definition tool_joins (call_id name delta : string) (existing : ResponsesOutput) : option ResponsesOutput :=
  match existing with
  | OutTool item_id existing_call_id existing_name arguments =>
      if bool_decide (existing_call_id = call_id) && bool_decide (existing_name = name)
      then Some (OutTool item_id existing_call_id existing_name (arguments +:+ delta))
      else None
  | _ => None
  end.

Definition has_call (call_id : string) (output : ResponsesOutput) : bool :=
  match output with OutTool _ existing _ _ => bool_decide (existing = call_id) | _ => false end.

(** The common course of [append_text], [append_reasoning] and [append_tool];
    [clash] is what else refuses a new item. *)
Definition append_output (item_id : string) (additional : Z) (joins : ResponsesOutput -> option ResponsesOutput)
  (fresh : ResponsesOutput) (clash : list ResponsesOutput -> bool) : rc_op (nat * bool) :=
  let! c := st_get in
  match find_output c item_id with
  | Some output_index =>
      let! joined := st_lift (ok_or ((rc_output c !! output_index) ≫= joins) invalid_request) in
      let! aggregate_bytes := st_lift (checked_aggregate_bytes c additional) in
      do! st_mod (rc_set_output (<[output_index := joined]> (rc_output c)) aggregate_bytes);
      st_ret (output_index, false)
  | None =>
      do! st_lift (refuse_if ((rl_max_output_items (rc_limits c) <=? zlen (rc_output c))
                              || clash (rc_output c)));
      let! aggregate_bytes := st_lift (checked_aggregate_bytes c additional) in
      do! st_mod (rc_set_output (rc_output c ++ [fresh]) aggregate_bytes);
      st_ret (length (rc_output c), true)
  end.

Definition append_text (item_id delta : string) : rc_op (nat * bool) :=
  let! c := st_get in
  do! st_lift (rl_identifier (rc_limits c) item_id);
  append_output item_id (str_len delta) (text_joins delta) (OutText item_id delta) (fun _ => false).

Definition append_reasoning (item_id delta : string) : rc_op (nat * bool) :=
  let! c := st_get in
  do! st_lift (rl_identifier (rc_limits c) item_id);
  append_output item_id (str_len delta) (reasoning_joins delta) (OutReasoning item_id delta) (fun _ => false).

Definition append_tool (item_id call_id name delta : string) : rc_op (nat * bool) :=
  let! c := st_get in
  do! st_lift (rl_identifier (rc_limits c) item_id);
  do! st_lift (rl_identifier (rc_limits c) call_id);
  do! st_lift (rl_identifier (rc_limits c) name);
  append_output item_id (str_len delta) (tool_joins call_id name delta) (OutTool item_id call_id name delta)
    (existsb (has_call call_id)).

(** ** Wire events *)
Definition rc_wire (kind : string) (fields : list (string * Value)) : rc_op WireEvent :=
  let! c := st_get in
  do! st_mod rc_next_number;
  st_ret (kind, wire_event kind
            (fields ++ [("sequence_number"%string, json_uint (rc_sequence_number c))])).

Definition rc_response_value (c : ResponsesCodec) (status : string) (output : list Value) (usage : Value)
  : Value :=
  let t := rx_response (rc_context c) in
  let completed_at :=
    if bool_decide (status = "completed"%string) then from_option json_uint VNull (rt_completed_at t)
    else VNull in
  json_object
    [("id"%string, VString (default ""%string (rc_response_id c)));
     ("object"%string, VString "response");
     ("created_at"%string, json_uint (rx_created_at (rc_context c)));
     ("status"%string, VString status);
     ("completed_at"%string, completed_at);
     ("error"%string, json_option (rt_error t));
     ("incomplete_details"%string, json_option (rt_incomplete_details t));
     ("instructions"%string, json_option (rt_instructions t));
     ("max_output_tokens"%string, from_option json_uint VNull (rt_max_output_tokens t));
     ("model"%string, VString (rx_model (rc_context c)));
     ("output"%string, VArray output);
     ("parallel_tool_calls"%string, VBool (rt_parallel_tool_calls t));
     ("previous_response_id"%string, json_string_option (rt_previous_response_id t));
     ("reasoning"%string, rt_reasoning t);
     ("store"%string, VBool (rt_store t));
     ("temperature"%string, json_option (rt_temperature t));
     ("text"%string, rt_text t);
     ("tool_choice"%string, rt_tool_choice t);
     ("tools"%string, VArray (rt_tools t));
     ("top_p"%string, json_option (rt_top_p t));
     ("truncation"%string, rt_truncation t);
     ("usage"%string, usage);
     ("user"%string, json_string_option (rt_user t));
     ("metadata"%string, of_map (rt_metadata t))].

(** The places a text or a summary has in its item. *)
Definition content_place (item_id : string) (output_index : nat) (part_key : string)
  : list (string * Value) :=
  [("item_id"%string, VString item_id); ("output_index"%string, json_uint (Z.of_nat output_index));
   (part_key, json_uint 0)].

Definition item_added (output_index : nat) (fresh : ResponsesOutput) : rc_op WireEvent :=
  rc_wire "response.output_item.added"
    [("output_index"%string, json_uint (Z.of_nat output_index)); ("item"%string, added_item fresh)].

Definition encode_created (response_id : string) : rc_op (list WireEvent) :=
  let! c := st_get in
  if is_someb (rc_response_id c) then st_err invalid_request
  else
    do! st_lift (rl_identifier (rc_limits c) response_id);
    do! st_mod (rc_set_response_id response_id);
    let! c := st_get in
    let! wire := rc_wire "response.created"
      [("response"%string, rc_response_value c "in_progress" [] VNull)] in
    st_ret [wire].

Definition encode_text_delta (item_id delta : string) : rc_op (list WireEvent) :=
  let! c := st_get in
  do! st_lift (rc_require_delta_allowed c);
  let! appended := append_text item_id delta in
  let '(output_index, is_new) := appended in
  let! added :=
    if is_new then
      let! item := item_added output_index (OutText item_id "") in
      let! part := rc_wire "response.content_part.added"
        (content_place item_id output_index "content_index" ++ [("part"%string, output_text_part "")]) in
      st_ret [item; part]
    else st_ret [] in
  let! wire := rc_wire "response.output_text.delta"
    (content_place item_id output_index "content_index" ++ [("delta"%string, VString delta)]) in
  st_ret (added ++ [wire]).

Definition encode_reasoning_delta (item_id delta : string) : rc_op (list WireEvent) :=
  let! c := st_get in
  do! st_lift (rc_require_delta_allowed c);
  let! appended := append_reasoning item_id delta in
  let '(output_index, is_new) := appended in
  let! added :=
    if is_new then
      let! item := item_added output_index (OutReasoning item_id "") in
      let! part := rc_wire "response.reasoning_summary_part.added"
        (content_place item_id output_index "summary_index" ++ [("part"%string, summary_text_part "")]) in
      st_ret [item; part]
    else st_ret [] in
  let! wire := rc_wire "response.reasoning_summary_text.delta"
    (content_place item_id output_index "summary_index" ++ [("delta"%string, VString delta)]) in
  st_ret (added ++ [wire]).

Definition encode_tool_delta (item_id call_id name delta : string) : rc_op (list WireEvent) :=
  let! c := st_get in
  do! st_lift (rc_require_delta_allowed c);
  let! appended := append_tool item_id call_id name delta in
  let '(output_index, is_new) := appended in
  let! added :=
    if is_new then
      let! item := item_added output_index (OutTool item_id call_id name "") in st_ret [item]
    else st_ret [] in
  let! wire := rc_wire "response.function_call_arguments.delta"
    [("item_id"%string, VString item_id); ("output_index"%string, json_uint (Z.of_nat output_index));
     ("delta"%string, VString delta)] in
  st_ret (added ++ [wire]).

Definition encode_usage (usage : Usage) : rc_op (list WireEvent) :=
  let! c := st_get in
  do! st_lift (rc_require_created c);
  if is_someb (rc_usage c) then st_err invalid_request
  else
    let! value := st_lift (rl_usage (rc_limits c) usage) in
    do! st_mod (rc_set_usage value);
    st_ret [].

Definition item_done (output_index : nat) (item : ResponsesOutput) : rc_op WireEvent :=
  rc_wire "response.output_item.done"
    [("output_index"%string, json_uint (Z.of_nat output_index)); ("item"%string, output_value item)].

(** The events that close one item. *)
Definition close_item (output_index : nat) (item : ResponsesOutput) : rc_op (list WireEvent) :=
  match item with
  | OutText item_id text =>
      let! d := rc_wire "response.output_text.done"
        (content_place item_id output_index "content_index" ++ [("text"%string, VString text)]) in
      let! part := rc_wire "response.content_part.done"
        (content_place item_id output_index "content_index" ++ [("part"%string, output_text_part text)]) in
      let! whole := item_done output_index item in
      st_ret [d; part; whole]
  | OutReasoning item_id text =>
      let! d := rc_wire "response.reasoning_summary_text.done"
        (content_place item_id output_index "summary_index" ++ [("text"%string, VString text)]) in
      let! part := rc_wire "response.reasoning_summary_part.done"
        (content_place item_id output_index "summary_index" ++ [("part"%string, summary_text_part text)]) in
      let! whole := item_done output_index item in
      st_ret [d; part; whole]
  | OutTool item_id _ name arguments =>
      let! d := rc_wire "response.function_call_arguments.done"
        [("item_id"%string, VString item_id); ("name"%string, VString name);
         ("output_index"%string, json_uint (Z.of_nat output_index));
         ("arguments"%string, VString arguments)] in
      let! whole := item_done output_index item in
      st_ret [d; whole]
  end.

Definition close_next (events : list WireEvent) (entry : nat * ResponsesOutput) : rc_op (list WireEvent) :=
  let! closed := close_item entry.1 entry.2 in st_ret (events ++ closed).

Definition encode_completed : rc_op (list WireEvent) :=
  let! c := st_get in
  do! st_lift (rc_require_created c);
  let! usage := st_lift (ok_or (rc_usage c) invalid_request) in
  let output := rc_output c in
  let! events := st_fold close_next [] (zip (seq 0 (length output)) output) in
  let '(status, event_name) :=
    if is_someb (rt_incomplete_details (rx_response (rc_context c)))
    then ("incomplete"%string, "response.incomplete"%string)
    else ("completed"%string, "response.completed"%string) in
  let! c := st_get in
  let response := rc_response_value c status (output_value <$> output) usage in
  let! wire := rc_wire event_name [("response"%string, response)] in
  do! st_mod rc_set_terminal;
  st_ret (events ++ [wire]).

Definition encode_failed (error : GatewayError) : rc_op (list WireEvent) :=
  do! st_mod rc_set_terminal;
  let! wire := rc_wire "error"
    [("code"%string, VString (error_code error)); ("message"%string, VString (public_message error));
     ("param"%string, VNull)] in
  st_ret [wire].

Definition encode_event_values (event : CanonicalEvent) : rc_op (list WireEvent) :=
  let! c := st_get in
  if rc_terminal c then st_err invalid_request
  else
    do! rc_validate_context_once;
    match event with
    | EvCreated response_id => encode_created response_id
    | EvOutputTextDelta item_id delta => encode_text_delta item_id delta
    | EvReasoningDelta item_id delta => encode_reasoning_delta item_id delta
    | EvToolCallDelta item_id call_id name delta => encode_tool_delta item_id call_id name delta
    | EvUsage usage => encode_usage usage
    | EvCompleted => encode_completed
    | EvFailed error => encode_failed error
    end.

(** [encode_event]: the frames of the wire events. *)
Definition encode_wires (wires : list WireEvent) : list Z :=
  flat_map (fun wire => encode_sse to_vec (Some (str_bytes wire.1)) wire.2) wires.

Definition responses_encode_event (event : CanonicalEvent) : rc_op (list Z) :=
  let! wires := encode_event_values event in st_ret (encode_wires wires).

(** ** The complete response *)
Definition failed_response (error : GatewayError) : Value :=
  json_object
    [("error"%string, json_object
        [("type"%string, VString "gateway_error"); ("code"%string, VString (error_code error));
         ("message"%string, VString (public_message error))])].

Definition collect_response (response : option Value) (event : CanonicalEvent) : rc_op (option Value) :=
  let! wires := encode_event_values event in
  st_ret match event with
         | EvCompleted => list.last wires ≫= (fun wire => value_get wire.2 "response")
         | EvFailed error => Some (failed_response error)
         | _ => response
         end.

Definition responses_encode_with_limits (context : ResponsesEncodeContext) (events : list CanonicalEvent)
  (l : ResponsesLimits) : result GatewayError Value :=
  match st_fold collect_response None events (responses_with_limits context l) with
  | (codec, Ok response) =>
      check? refuse_if (negb (rc_terminal codec));
      ok_or response invalid_request
  | (_, Err e) => Err e
  end.

Definition responses_encode_response (context : ResponsesEncodeContext) (events : list CanonicalEvent)
  : result GatewayError Value :=
  responses_encode_with_limits context events ResponsesLimits_default.
End Responses.
