(* ===== verification/ResponsesEncodeSpec.v ===== *)
(** * What a Responses client reads

    A reference client reads the wire events alone: it checks their numbers,
    collects each item's deltas, compares every repetition of a text with what
    it collected, and at the end compares the response with the items it was
    given.  It accepts every stream the codec writes, and the response it ends
    with is the one a client without streaming gets. *)
From S2P Require Import Prelude Sse Json Canonical ChatEncode ResponsesEncode.

(** ** The reference client *)
Record ClientItem : Set := mkClientItem {
  ci_item : Value;
  ci_text : string;
  ci_whole : option Value
}.

Record ClientView : Set := mkClientView {
  cv_next : Z;
  cv_response : option Value;
  cv_items : list ClientItem;
  cv_closed : bool
}.

Definition client_new : ClientView := mkClientView 1 None [] false.

Inductive WireKind : Set :=
| WireCreated | WireItemAdded | WirePartAdded | WireDelta | WireDone (key : string) | WirePartDone
| WireItemDone | WireEnd | WireError.

Definition WIRE_KINDS : list (string * WireKind) :=
  [("response.created"%string, WireCreated);
   ("response.output_item.added"%string, WireItemAdded);
   ("response.content_part.added"%string, WirePartAdded);
   ("response.reasoning_summary_part.added"%string, WirePartAdded);
   ("response.output_text.delta"%string, WireDelta);
   ("response.reasoning_summary_text.delta"%string, WireDelta);
   ("response.function_call_arguments.delta"%string, WireDelta);
   ("response.output_text.done"%string, WireDone "text");
   ("response.reasoning_summary_text.done"%string, WireDone "text");
   ("response.function_call_arguments.done"%string, WireDone "arguments");
   ("response.content_part.done"%string, WirePartDone);
   ("response.reasoning_summary_part.done"%string, WirePartDone);
   ("response.output_item.done"%string, WireItemDone);
   ("response.completed"%string, WireEnd);
   ("response.incomplete"%string, WireEnd);
   ("error"%string, WireError)].

Definition wire_kind (name : string) : option WireKind :=
  snd <$> List.find (fun entry => String.eqb entry.1 name) WIRE_KINDS.

(** The text an item holds, by its type. *)
Definition first_part_text (item : Value) (key : string) : option string :=
  parts ← value_get item key ≫= as_array;
  match parts with [part] => get_str part "text" | _ => None end.

Definition item_text (item : Value) : option string :=
  kind ← get_str item "type";
  if String.eqb kind "message" then first_part_text item "content"
  else if String.eqb kind "reasoning" then first_part_text item "summary"
  else if String.eqb kind "function_call" then get_str item "arguments"
  else None.

Definition demand (b : bool) : option unit := if b then Some tt else None.

Definition set_items (items : list ClientItem) (v : ClientView) : ClientView :=
  mkClientView (cv_next v) (cv_response v) items (cv_closed v).

(** Changes the item an event is about, if the event names it by its own id. *)
Definition on_item (v : ClientView) (index : option Value) (id : option string)
  (f : ClientItem -> option ClientItem) : option ClientView :=
  index ← index ≫= as_u64;
  item ← cv_items v !! Z.to_nat index;
  _ ← demand (bool_decide (get_str (ci_item item) "id" = id) && is_someb id);
  item ← f item;
  Some (set_items (<[Z.to_nat index := item]> (cv_items v)) v).

Definition same_text (item : ClientItem) (text : option string) : option ClientItem :=
  _ ← demand (bool_decide (text = Some (ci_text item))); Some item.

Definition client_event (kind : WireKind) (wire : Value) (v : ClientView) : option ClientView :=
  let index := value_get wire "output_index" in
  let id := get_str wire "item_id" in
  match kind with
  | WireCreated =>
      response ← value_get wire "response";
      _ ← demand (negb (is_someb (cv_response v)) && is_emptyb (cv_items v));
      Some (mkClientView (cv_next v) (Some response) [] (cv_closed v))
  | WireItemAdded =>
      item ← value_get wire "item";
      _ ← demand (bool_decide (index = Some (json_uint (zlen (cv_items v)))) && is_someb (cv_response v));
      Some (set_items (cv_items v ++ [mkClientItem item "" None]) v)
  | WirePartAdded =>
      part ← value_get wire "part";
      on_item v index id (fun item => _ ← demand (str_is_empty (ci_text item)); same_text item (get_str part "text"))
  | WireDelta =>
      delta ← get_str wire "delta";
      on_item v index id (fun item => Some (mkClientItem (ci_item item) (ci_text item +:+ delta) (ci_whole item)))
  | WireDone key => on_item v index id (fun item => same_text item (get_str wire key))
  | WirePartDone =>
      part ← value_get wire "part";
      on_item v index id (fun item => same_text item (get_str part "text"))
  | WireItemDone =>
      whole ← value_get wire "item";
      on_item v index (get_str whole "id") (fun item =>
        _ ← demand (bool_decide (get_str whole "type" = get_str (ci_item item) "type")
                    && negb (is_someb (ci_whole item)));
        item ← same_text item (item_text whole);
        Some (mkClientItem (ci_item item) (ci_text item) (Some whole)))
  | WireEnd =>
      response ← value_get wire "response";
      wholes ← mapM ci_whole (cv_items v);
      _ ← demand (bool_decide (value_get response "output" = Some (VArray wholes)) && is_someb (cv_response v));
      Some (mkClientView (cv_next v) (Some response) (cv_items v) true)
  | WireError => Some (mkClientView (cv_next v) (cv_response v) (cv_items v) true)
  end.

Definition client_step (v : ClientView) (wire : string * Value) : option ClientView :=
  kind ← wire_kind wire.1;
  _ ← demand (negb (cv_closed v) && bool_decide (get_str wire.2 "type" = Some wire.1)
              && bool_decide (value_get wire.2 "sequence_number" = Some (json_uint (cv_next v))));
  v ← client_event kind wire.2 v;
  Some (mkClientView (wrap64 (cv_next v + 1)) (cv_response v) (cv_items v) (cv_closed v)).

Fixpoint client_run (v : ClientView) (wires : list (string * Value)) : option ClientView :=
  match wires with
  | [] => Some v
  | wire :: wires => v ← client_step v wire; client_run v wires
  end.

Lemma client_run_app v ws ws' : client_run v (ws ++ ws') = client_run v ws ≫= fun v => client_run v ws'.
Proof. revert v. induction ws as [|w ws IH]; intros v; cbn [client_run app]; [done|].
  destruct (client_step v w); cbn [mbind option_bind]; [apply IH|done].
Qed.

(** ** The codec and the client *)
Section Spec.
Context (to_vec : Value -> list Z).

(** An output item as the client sees it while it grows, and once it is closed. *)
Definition output_text (output : ResponsesOutput) : string :=
  match output with OutText _ text | OutReasoning _ text | OutTool _ _ _ text => text end.

Definition growing (output : ResponsesOutput) : ClientItem :=
  mkClientItem (added_item output) (output_text output) None.

Definition closed_item (output : ResponsesOutput) : ClientItem :=
  mkClientItem (added_item output) (output_text output) (Some (output_value output)).

Record follows (c : ResponsesCodec) (v : ClientView) : Prop := {
  fo_next : cv_next v = rc_sequence_number c;
  fo_items : cv_items v = growing <$> rc_output c;
  fo_created : is_someb (cv_response v) = is_someb (rc_response_id c);
  fo_empty : rc_response_id c = None -> rc_output c = [];
  fo_open : cv_closed v = false;
  fo_running : rc_terminal c = false
}.

Definition advance (v : ClientView) : ClientView :=
  mkClientView (wrap64 (cv_next v + 1)) (cv_response v) (cv_items v) (cv_closed v).

Lemma demand_true b : b = true -> demand b = Some tt.
Proof. by intros ->. Qed.

(** A wire event passes the client's checks of its header. *)
Lemma client_step_wire v kind k fields :
  wire_kind kind = Some k -> cv_closed v = false ->
  assoc "sequence_number" fields = Some (json_uint (cv_next v)) ->
  client_step v (kind, wire_event kind fields) = advance <$> client_event k (wire_event kind fields) v.
Proof.
  intros Hk Hopen Hf. unfold client_step. cbn [fst snd]. rewrite Hk. cbn [mbind option_bind].
  rewrite demand_true.
  - cbn [mbind option_bind]. by destruct (client_event _ _ v).
  - unfold wire_event, get_str. rewrite !get_json_assoc, Hopen. cbn [assoc String.eqb Ascii.eqb Bool.eqb].
    rewrite Hf. cbn [mbind option_bind as_str]. by rewrite !bool_decide_eq_true_2.
Qed.

(** ** What the client makes of each kind of event *)
Lemma on_item_at v i it id f it' :
  cv_items v !! i = Some it -> get_str (ci_item it) "id" = Some id -> f it = Some it' ->
  on_item v (Some (json_uint (Z.of_nat i))) (Some id) f = Some (set_items (<[i := it']> (cv_items v)) v).
Proof.
  intros Hi Hid Hf. unfold on_item. cbn [mbind option_bind as_u64 json_uint]. rewrite Nat2Z.id, Hi.
  cbn [mbind option_bind]. rewrite Hid, bool_decide_eq_true_2 by done. cbn [andb is_someb demand mbind option_bind].
  by rewrite Hf.
Qed.

Lemma same_text_Some it : same_text it (Some (ci_text it)) = Some it.
Proof. unfold same_text. by rewrite bool_decide_eq_true_2. Qed.

Lemma set_items_same v i it : cv_items v !! i = Some it -> set_items (<[i := it]> (cv_items v)) v = v.
Proof. intros Hi. rewrite list_insert_id by done. by destruct v. Qed.

Section Events.
Context (v : ClientView) (wire : Value) (i : nat) (id : string) (it : ClientItem).

Definition about_item : Prop :=
  value_get wire "output_index" = Some (json_uint (Z.of_nat i)) /\ cv_items v !! i = Some it /\
  get_str (ci_item it) "id" = Some id.

Lemma ev_item_added item :
  value_get wire "output_index" = Some (json_uint (zlen (cv_items v))) ->
  value_get wire "item" = Some item -> is_someb (cv_response v) = true ->
  client_event WireItemAdded wire v = Some (set_items (cv_items v ++ [mkClientItem item "" None]) v).
Proof.
  intros Hi Hitem Hr. cbn [client_event]. rewrite Hi, Hitem, Hr. cbn [mbind option_bind].
  by rewrite bool_decide_eq_true_2.
Qed.

Lemma ev_part_added part :
  about_item -> get_str wire "item_id" = Some id -> value_get wire "part" = Some part ->
  get_str part "text" = Some ""%string -> ci_text it = ""%string ->
  client_event WirePartAdded wire v = Some v.
Proof.
  intros (Hi & Hit & Hid) Hwid Hp Ht He. cbn [client_event]. rewrite Hi, Hwid, Hp. cbn [mbind option_bind].
  rewrite (on_item_at _ _ it _ _ it); [by rewrite set_items_same|done|done|].
  rewrite demand_true by (by rewrite He). cbn [mbind option_bind]. rewrite Ht, <- He. apply same_text_Some.
Qed.

Lemma ev_delta delta :
  about_item -> get_str wire "item_id" = Some id -> get_str wire "delta" = Some delta ->
  client_event WireDelta wire v =
  Some (set_items (<[i := mkClientItem (ci_item it) (ci_text it +:+ delta) (ci_whole it)]> (cv_items v)) v).
Proof.
  intros (Hi & Hit & Hid) Hwid Hd. cbn [client_event]. rewrite Hi, Hwid, Hd. cbn [mbind option_bind].
  by apply (on_item_at _ _ it).
Qed.

Lemma ev_done key :
  about_item -> get_str wire "item_id" = Some id -> get_str wire key = Some (ci_text it) ->
  client_event (WireDone key) wire v = Some v.
Proof.
  intros (Hi & Hit & Hid) Hwid Ht. cbn [client_event]. rewrite Hi, Hwid, Ht.
  rewrite (on_item_at _ _ it _ _ it); [by rewrite set_items_same|done|done|]. apply same_text_Some.
Qed.

Lemma ev_part_done part :
  about_item -> get_str wire "item_id" = Some id -> value_get wire "part" = Some part ->
  get_str part "text" = Some (ci_text it) -> client_event WirePartDone wire v = Some v.
Proof.
  intros (Hi & Hit & Hid) Hwid Hp Ht. cbn [client_event]. rewrite Hi, Hwid, Hp. cbn [mbind option_bind].
  rewrite Ht. rewrite (on_item_at _ _ it _ _ it); [by rewrite set_items_same|done|done|]. apply same_text_Some.
Qed.

Lemma ev_item_done whole :
  about_item -> value_get wire "item" = Some whole -> get_str whole "id" = Some id ->
  get_str whole "type" = get_str (ci_item it) "type" -> item_text whole = Some (ci_text it) ->
  ci_whole it = None ->
  client_event WireItemDone wire v =
  Some (set_items (<[i := mkClientItem (ci_item it) (ci_text it) (Some whole)]> (cv_items v)) v).
Proof.
  intros (Hi & Hit & Hid) Hw Hwid Htype Ht Hnone. cbn [client_event]. rewrite Hi, Hw. cbn [mbind option_bind].
  rewrite Hwid. apply (on_item_at _ _ it); [done|done|].
  rewrite Htype, bool_decide_eq_true_2, Hnone by done. cbn [andb negb is_someb demand mbind option_bind].
  by rewrite Ht, same_text_Some.
Qed.
End Events.

(** Reads fields of wire events and items, which are object literals. *)
Ltac wire_read :=
  unfold wire_event, content_place, added_item, output_value, output_text_part, summary_text_part,
    item_text, first_part_text, get_str;
  repeat first
    [ rewrite !get_json_assoc
    | progress cbn [assoc app String.eqb Ascii.eqb Bool.eqb mbind option_bind as_str as_array as_u64] ];
  try reflexivity.

Lemma added_item_id output : get_str (added_item output) "id" = Some (output_item_id output).
Proof. destruct output; wire_read. Qed.

Lemma whole_id output : get_str (output_value output) "id" = Some (output_item_id output).
Proof. destruct output; wire_read. Qed.

Lemma whole_type output :
  get_str (output_value output) "type" = get_str (added_item output) "type".
Proof. destruct output; wire_read. Qed.

Lemma whole_text output : item_text (output_value output) = Some (output_text output).
Proof. destruct output; wire_read. Qed.

(** ** What the deltas say

    The items of a list of events: one for each item id, in the order of their
    first deltas, with all its deltas joined. *)
Fixpoint gather (id delta : string) (items : list (string * string)) : list (string * string) :=
  match items with
  | [] => [(id, delta)]
  | (k, text) :: items =>
      if bool_decide (k = id) then (k, text +:+ delta) :: items else (k, text) :: gather id delta items
  end.

Definition event_delta (event : CanonicalEvent) : option (string * string) :=
  match event with
  | EvOutputTextDelta id delta | EvReasoningDelta id delta | EvToolCallDelta id _ _ delta => Some (id, delta)
  | EvCreated _ | EvUsage _ | EvCompleted | EvFailed _ => None
  end.

Definition gather_event (items : list (string * string)) (event : CanonicalEvent) : list (string * string) :=
  match event_delta event with Some (id, delta) => gather id delta items | None => items end.

Definition said (events : list CanonicalEvent) : list (string * string) := foldl gather_event [] events.

Definition pair_of (out : ResponsesOutput) : string * string := (output_item_id out, output_text out).

Lemma gather_found id delta outs i old joined :
  list_find (fun out => output_item_id out = id) outs = Some (i, old) ->
  pair_of joined = (output_item_id old, output_text old +:+ delta) ->
  gather id delta (pair_of <$> outs) = pair_of <$> <[i := joined]> outs.
Proof.
  revert i. induction outs as [|out outs IH]; intros i; cbn [list_find fmap list_fmap gather pair_of]; [discriminate|].
  destruct (decide (output_item_id out = id)) as [Hid|Hid].
  - intros [= <- <-] Hj. rewrite bool_decide_eq_true_2 by done. cbn. by rewrite Hj.
  - intros H Hj. apply fmap_Some in H as ([i' old'] & Hf & [= -> ->]). rewrite bool_decide_eq_false_2 by done.
    cbn. by rewrite (IH _ Hf Hj).
Qed.

Lemma gather_fresh id delta (outs : list ResponsesOutput) :
  list_find (fun out => output_item_id out = id) outs = None ->
  gather id delta (pair_of <$> outs) = (pair_of <$> outs) ++ [(id, delta)].
Proof.
  induction outs as [|out outs IH]; cbn [list_find fmap list_fmap gather pair_of app]; [done|].
  destruct (decide (output_item_id out = id)) as [Hid|Hid]; [discriminate|].
  rewrite bool_decide_eq_false_2 by done. intros H. rewrite IH; [done|]. by destruct (list_find _ outs).
Qed.

(** ** The codec's steps, followed by the client *)
Lemma run_wire v v1 kind k fields ws :
  wire_kind kind = Some k -> cv_closed v = false ->
  assoc "sequence_number" fields = Some (json_uint (cv_next v)) ->
  client_event k (wire_event kind fields) v = Some v1 ->
  client_run v ((kind, wire_event kind fields) :: ws) = client_run (advance v1) ws.
Proof.
  intros Hk Hopen Hf He. cbn [client_run]. rewrite (client_step_wire v kind k) by done. by rewrite He.
Qed.

Lemma append_output_Ok id n joins fresh clash c c' i is_new :
  append_output id n joins fresh clash c = (c', Ok (i, is_new)) ->
  (is_new = false /\ exists old joined agg,
     list_find (fun out => output_item_id out = id) (rc_output c) = Some (i, old) /\ rc_output c !! i = Some old /\ output_item_id old = id /\
     joins old = Some joined /\ c' = rc_set_output (<[i := joined]> (rc_output c)) agg c) \/
  (is_new = true /\ list_find (fun out => output_item_id out = id) (rc_output c) = None /\
     i = length (rc_output c) /\ exists agg, c' = rc_set_output (rc_output c ++ [fresh]) agg c).
Proof.
  unfold append_output. intros (c0 & ? & [= <- <-] & H)%st_bind_Ok.
  destruct (find_output c id) as [j|] eqn:Hf.
  - left. apply st_bind_Ok in H as (c1 & joined & [= <- Hj] & H). apply ok_or_Ok, bind_Some in Hj as (old & Ho & Hj).
    apply st_bind_Ok in H as (c2 & agg & [= <- Hagg] & H). apply st_bind_Ok in H as (c3 & [] & [= <-] & [= <- <- <-]).
    unfold find_output in Hf. apply fmap_Some in Hf as ([j' old'] & Hf & ->).
    pose proof Hf as Hfind. apply list_find_Some in Hf as (Ho' & Hid & _). cbn [fst] in Ho. rewrite Ho' in Ho. injection Ho as <-.
    split; [done|]. exists old', joined, agg. done.
  - right. apply st_bind_Ok in H as (c1 & [] & [= <- _] & H).
    apply st_bind_Ok in H as (c2 & agg & [= <- Hagg] & H). apply st_bind_Ok in H as (c3 & [] & [= <-] & [= <- <- <-]).
    unfold find_output in Hf. apply fmap_None in Hf. eauto 6.
Qed.

Lemma growing_eq out : growing out = mkClientItem (added_item out) (output_text out) None.
Proof. done. Qed.

(** The wires of a delta, for a client that has the items [outs]. *)
Section Deltas.
Context (v : ClientView) (outs : list ResponsesOutput) (kind : string) (fields : list (string * Value)).
Context (ws : list (string * Value)).
Hypothesis Hopen : cv_closed v = false.
Hypothesis Hitems : cv_items v = growing <$> outs.
Hypothesis Hnumber : assoc "sequence_number" fields = Some (json_uint (cv_next v)).

Lemma run_added fresh :
  wire_kind kind = Some WireItemAdded -> is_someb (cv_response v) = true -> output_text fresh = ""%string ->
  assoc "output_index" fields = Some (json_uint (Z.of_nat (length outs))) ->
  assoc "item" fields = Some (added_item fresh) ->
  client_run v ((kind, wire_event kind fields) :: ws) =
  client_run (advance (set_items (growing <$> outs ++ [fresh]) v)) ws.
Proof using Hitems Hnumber Hopen.
  intros Hk Hr Ht Hi Hf.
  erewrite run_wire; [|done|done|done|apply (ev_item_added _ _ (added_item fresh))].
  - rewrite fmap_app, Hitems. cbn [fmap list_fmap]. by rewrite (growing_eq fresh), Ht.
  - unfold wire_event. rewrite get_json_assoc. cbn [assoc String.eqb Ascii.eqb Bool.eqb].
    rewrite Hi, Hitems. unfold zlen. by rewrite length_fmap.
  - unfold wire_event. by rewrite get_json_assoc.
  - done.
Qed.

Context (i : nat) (old : ResponsesOutput).
Hypothesis Hold : outs !! i = Some old.
Hypothesis Hindex : assoc "output_index" fields = Some (json_uint (Z.of_nat i)).
Hypothesis Hid : assoc "item_id" fields = Some (VString (output_item_id old)).

Lemma wire_about : about_item v (wire_event kind fields) i (output_item_id old) (growing old).
Proof using Hold Hindex Hitems.
  unfold about_item, wire_event. rewrite get_json_assoc, Hitems, list_lookup_fmap, Hold. split_and!; [done|done|].
  apply added_item_id.
Qed.

Lemma wire_names_item : get_str (wire_event kind fields) "item_id" = Some (output_item_id old).
Proof using Hid. unfold wire_event, get_str. rewrite get_json_assoc. cbn [assoc String.eqb Ascii.eqb Bool.eqb]. by rewrite Hid. Qed.

Lemma run_part part :
  wire_kind kind = Some WirePartAdded -> output_text old = ""%string ->
  assoc "part" fields = Some part -> get_str part "text" = Some ""%string ->
  client_run v ((kind, wire_event kind fields) :: ws) = client_run (advance v) ws.
Proof using Hid Hindex Hitems Hnumber Hold Hopen.
  intros Hk Ht Hp Hpt. apply (run_wire _ _ _ WirePartAdded); [done|done|done|].
  apply (ev_part_added _ _ _ _ _ part wire_about wire_names_item); [|done|done].
  unfold wire_event. by rewrite get_json_assoc.
Qed.

Lemma run_delta delta joined :
  wire_kind kind = Some WireDelta -> assoc "delta" fields = Some (VString delta) ->
  added_item joined = added_item old -> output_text joined = output_text old +:+ delta ->
  client_run v ((kind, wire_event kind fields) :: ws) =
  client_run (advance (set_items (growing <$> <[i := joined]> outs) v)) ws.
Proof using Hid Hindex Hitems Hnumber Hold Hopen.
  intros Hk Hd Ha Ht. apply (run_wire _ _ _ WireDelta); [done|done|done|].
  rewrite (ev_delta _ _ _ _ _ delta wire_about wire_names_item).
  - rewrite Hitems, list_fmap_insert. by rewrite (growing_eq joined), Ha, Ht.
  - unfold wire_event, get_str. rewrite get_json_assoc. cbn [assoc String.eqb Ascii.eqb Bool.eqb]. by rewrite Hd.
Qed.
End Deltas.

(** The wires of a sequence of events, computed. *)
Ltac emitted H :=
  unfold item_added, item_done, rc_wire, st_bind, st_get, st_mod, st_ret in H; cbn beta iota zeta in H;
  injection H as <- <-.

(** Settles what a wire's fields say, and the fields of the two states. *)
Ltac state_fields :=
  cbn [cv_next advance set_items cv_closed cv_response cv_items rc_next_number rc_set_output rc_set_usage
       rc_set_response_id rc_set_terminal rc_sequence_number rc_output rc_response_id rc_terminal rc_context
       rc_usage rc_limits rc_context_validated output_item_id output_text].
Ltac wire_says := state_fields; wire_read; try done; try congruence.

Lemma delta_allowed_Ok c u : rc_require_delta_allowed c = Ok u -> is_someb (rc_response_id c) = true.
Proof.
  unfold rc_require_delta_allowed, rc_require_created, refuse_if. rewrite check_Ok, guard_err_Ok, negb_false_iff.
  by intros [].
Qed.

(** A delta of an item the client knows. *)
Ltac follow_joined c v j before after :=
  eexists; split;
  [erewrite (run_delta v (rc_output c)) with (i := j) (old := before) (joined := after);
     [reflexivity|wire_says..]
  |split; [split; wire_says; intros E; congruence|];
   state_fields; symmetry; by apply (gather_found _ _ _ _ before)].

(** The delta that starts an item, announced first. *)
Ltac wire_says_new := wire_says; try apply list_lookup_middle; try reflexivity.
Ltac follow_delta_new c empty fresh :=
  erewrite run_delta with (outs := rc_output c ++ [empty]) (i := length (rc_output c)) (old := empty)
    (joined := fresh); [reflexivity|wire_says_new..].
Ltac follow_started :=
  split; wire_says; first [by rewrite insert_app_r_alt, Nat.sub_diag by done|intros E; congruence].

Lemma not_created_ne c : is_someb (rc_response_id c) = true -> rc_response_id c <> None.
Proof. by destruct (rc_response_id c). Qed.

Lemma follow_text c v c' ws id delta :
  follows c v -> encode_text_delta id delta c = (c', Ok ws) ->
  exists v', client_run v ws = Some v' /\ follows c' v' /\
    pair_of <$> rc_output c' = gather id delta (pair_of <$> rc_output c).
Proof.
  intros [Hn Hi Hc He Ho Hr]. unfold encode_text_delta. intros (c0 & ? & [= <- <-] & H)%st_bind_Ok.
  apply st_bind_Ok in H as (c1 & [] & [= <- Hreq] & H). apply delta_allowed_Ok in Hreq.
  pose proof (not_created_ne _ Hreq). apply st_bind_Ok in H as (c2 & [i is_new] & Ha & H).
  unfold append_text in Ha. apply st_bind_Ok in Ha as (c3 & ? & [= <- <-] & Ha).
  apply st_bind_Ok in Ha as (c4 & [] & [= <- _] & Ha).
  apply append_output_Ok in Ha as [(-> & old & joined & agg & Hfind & Hold & Hid & Hj & ->)|(-> & Hfind & -> & agg & ->)];
    emitted H.
  - destruct old as [oid otext| |]; try discriminate. injection Hj as <-. cbn in Hid. subst oid.
    follow_joined c v i (OutText id otext) (OutText id (otext +:+ delta)).
  - eexists. split.
    + erewrite (run_added v (rc_output c)) with (fresh := OutText id ""); [|wire_says..].
      erewrite run_part with (outs := rc_output c ++ [OutText id ""]) (i := length (rc_output c))
        (old := OutText id ""); [|wire_says_new..].
      follow_delta_new c (OutText id "") (OutText id delta).
    + split; [follow_started|]. state_fields. by rewrite fmap_app, (gather_fresh _ _ _ Hfind).
Qed.

Lemma follow_reasoning c v c' ws id delta :
  follows c v -> encode_reasoning_delta id delta c = (c', Ok ws) ->
  exists v', client_run v ws = Some v' /\ follows c' v' /\
    pair_of <$> rc_output c' = gather id delta (pair_of <$> rc_output c).
Proof.
  intros [Hn Hi Hc He Ho Hr]. unfold encode_reasoning_delta. intros (c0 & ? & [= <- <-] & H)%st_bind_Ok.
  apply st_bind_Ok in H as (c1 & [] & [= <- Hreq] & H). apply delta_allowed_Ok in Hreq.
  pose proof (not_created_ne _ Hreq). apply st_bind_Ok in H as (c2 & [i is_new] & Ha & H).
  unfold append_reasoning in Ha. apply st_bind_Ok in Ha as (c3 & ? & [= <- <-] & Ha).
  apply st_bind_Ok in Ha as (c4 & [] & [= <- _] & Ha).
  apply append_output_Ok in Ha as [(-> & old & joined & agg & Hfind & Hold & Hid & Hj & ->)|(-> & Hfind & -> & agg & ->)];
    emitted H.
  - destruct old as [|oid otext|]; try discriminate. injection Hj as <-. cbn in Hid. subst oid.
    follow_joined c v i (OutReasoning id otext) (OutReasoning id (otext +:+ delta)).
  - eexists. split.
    + erewrite (run_added v (rc_output c)) with (fresh := OutReasoning id ""); [|wire_says..].
      erewrite run_part with (outs := rc_output c ++ [OutReasoning id ""]) (i := length (rc_output c))
        (old := OutReasoning id ""); [|wire_says_new..].
      follow_delta_new c (OutReasoning id "") (OutReasoning id delta).
    + split; [follow_started|]. state_fields. by rewrite fmap_app, (gather_fresh _ _ _ Hfind).
Qed.

Lemma follow_tool c v c' ws id call name delta :
  follows c v -> encode_tool_delta id call name delta c = (c', Ok ws) ->
  exists v', client_run v ws = Some v' /\ follows c' v' /\
    pair_of <$> rc_output c' = gather id delta (pair_of <$> rc_output c).
Proof.
  intros [Hn Hi Hc He Ho Hr]. unfold encode_tool_delta. intros (c0 & ? & [= <- <-] & H)%st_bind_Ok.
  apply st_bind_Ok in H as (c1 & [] & [= <- Hreq] & H). apply delta_allowed_Ok in Hreq.
  pose proof (not_created_ne _ Hreq). apply st_bind_Ok in H as (c2 & [i is_new] & Ha & H).
  unfold append_tool in Ha. apply st_bind_Ok in Ha as (c3 & ? & [= <- <-] & Ha).
  do 3 apply st_bind_Ok in Ha as (? & [] & [= <- _] & Ha).
  apply append_output_Ok in Ha as [(-> & old & joined & agg & Hfind & Hold & Hid & Hj & ->)|(-> & Hfind & -> & agg & ->)];
    emitted H.
  - destruct old as [| |oid ocall oname otext]; try discriminate. cbn [tool_joins] in Hj. cbn in Hid. subst oid.
    destruct (bool_decide (ocall = call) && _) eqn:Hb; [|discriminate]. injection Hj as <-.
    follow_joined c v i (OutTool id ocall oname otext) (OutTool id ocall oname (otext +:+ delta)).
  - eexists. split.
    + erewrite (run_added v (rc_output c)) with (fresh := OutTool id call name ""); [|wire_says..].
      follow_delta_new c (OutTool id call name "") (OutTool id call name delta).
    + split; [follow_started|]. state_fields. by rewrite fmap_app, (gather_fresh _ _ _ Hfind).
Qed.

Lemma follow_created c v c' ws id :
  follows c v -> encode_created id c = (c', Ok ws) ->
  exists v', client_run v ws = Some v' /\ follows c' v' /\ rc_output c' = rc_output c.
Proof.
  intros [Hn Hi Hc He Ho Hr]. unfold encode_created. intros (c0 & ? & [= <- <-] & H)%st_bind_Ok.
  destruct (rc_response_id c) eqn:Hid; [discriminate|]. specialize (He eq_refl). cbn [is_someb] in *.
  apply st_bind_Ok in H as (c1 & [] & [= <- _] & H). emitted H. rewrite He in Hi.
  eexists. split.
  - erewrite run_wire; [reflexivity|reflexivity|done|wire_says|]. cbn [client_event snd].
    rewrite Hc, Hi.
    unfold wire_event. rewrite get_json_assoc. reflexivity.
  - split; [split; state_fields; try done; [congruence|by rewrite He]|done].
Qed.

Lemma follow_usage c v c' ws u :
  follows c v -> encode_usage to_vec u c = (c', Ok ws) ->
  exists v', client_run v ws = Some v' /\ follows c' v' /\ rc_output c' = rc_output c.
Proof.
  intros [Hn Hi Hc He Ho Hr]. unfold encode_usage. intros (c0 & ? & [= <- <-] & H)%st_bind_Ok.
  apply st_bind_Ok in H as (c1 & [] & [= <- _] & H). destruct (is_someb (rc_usage c)); [discriminate|].
  apply st_bind_Ok in H as (c2 & value & [= <- _] & H). emitted H. exists v. split; [done|]. by split.
Qed.

(** ** Closing the items *)
Record closes (c : ResponsesCodec) (v : ClientView) (done_items rest : list ResponsesOutput) : Prop := {
  cl_next : cv_next v = rc_sequence_number c;
  cl_items : cv_items v = (closed_item <$> done_items) ++ (growing <$> rest);
  cl_created : is_someb (cv_response v) = true;
  cl_open : cv_closed v = false
}.

Lemma closing_about c v pre out post wire :
  closes c v pre (out :: post) ->
  value_get wire "output_index" = Some (json_uint (zlen pre)) ->
  about_item v wire (length pre) (output_item_id out) (growing out).
Proof.
  intros [_ Hi _ _] Hw. split_and!; [done| |apply added_item_id].
  rewrite Hi. cbn [fmap list_fmap]. rewrite <- (length_fmap closed_item pre). apply list_lookup_middle. done.
Qed.

(** A wire that repeats a text, or a part, of the next item. *)
Lemma closing_repeat c v pre out post kind k fields ws :
  closes c v pre (out :: post) -> wire_kind kind = Some k -> k = WirePartDone \/ (exists key, k = WireDone key /\
    get_str (wire_event kind fields) key = Some (output_text out)) ->
  (k = WirePartDone -> exists part, assoc "part" fields = Some part /\ get_str part "text" = Some (output_text out)) ->
  assoc "sequence_number" fields = Some (json_uint (rc_sequence_number c)) ->
  assoc "output_index" fields = Some (json_uint (zlen pre)) ->
  assoc "item_id" fields = Some (VString (output_item_id out)) ->
  client_run v ((kind, wire_event kind fields) :: ws) = client_run (advance v) ws /\
  closes (rc_next_number c) (advance v) pre (out :: post).
Proof.
  intros Hcl Hk Hkind Hpart Hnum Hidx Hid. pose proof Hcl as [Hn Hi Hc Ho].
  assert (value_get (wire_event kind fields) "output_index" = Some (json_uint (zlen pre))) as Hw.
  { unfold wire_event. by rewrite get_json_assoc. }
  assert (get_str (wire_event kind fields) "item_id" = Some (output_item_id out)) as Hwid.
  { unfold wire_event, get_str. rewrite get_json_assoc. cbn [assoc String.eqb Ascii.eqb Bool.eqb]. by rewrite Hid. }
  pose proof (closing_about _ _ _ _ _ _ Hcl Hw) as Habout. split.
  - apply (run_wire _ _ _ k); [done|done|by rewrite Hn|]. destruct Hkind as [->|(key & -> & Hkey)].
    + destruct Hpart as (part & Hp & Hpt); [done|].
      apply (ev_part_done _ _ _ _ _ part Habout Hwid); [unfold wire_event; by rewrite get_json_assoc|done].
    + by apply (ev_done _ _ _ _ _ key Habout Hwid).
  - split; state_fields; [by rewrite Hn|done..].
Qed.

(** The wire that gives the whole item. *)
Lemma closing_whole c v pre out post fields ws :
  closes c v pre (out :: post) ->
  assoc "sequence_number" fields = Some (json_uint (rc_sequence_number c)) ->
  assoc "output_index" fields = Some (json_uint (zlen pre)) ->
  assoc "item" fields = Some (output_value out) ->
  exists v', client_run v (("response.output_item.done"%string, wire_event "response.output_item.done" fields) :: ws)
             = client_run v' ws /\
    closes (rc_next_number c) v' (pre ++ [out]) post.
Proof.
  intros Hcl Hnum Hidx Hitem. pose proof Hcl as [Hn Hi Hc Ho].
  eexists. split.
  - erewrite run_wire; [reflexivity|reflexivity|done|by rewrite Hn|].
    apply (ev_item_done _ _ (length pre) (output_item_id out) (growing out) (output_value out)).
    + apply (closing_about _ _ _ _ _ _ Hcl). unfold wire_event. by rewrite get_json_assoc.
    + unfold wire_event. by rewrite get_json_assoc.
    + apply whole_id.
    + apply whole_type.
    + apply whole_text.
    + done.
  - split; state_fields; [by rewrite Hn| |done|done]. rewrite Hi. cbn [fmap list_fmap].
    rewrite <- (length_fmap closed_item pre), insert_app_r_alt, Nat.sub_diag, fmap_app by done.
    cbn. by rewrite <- app_assoc.
Qed.

Ltac closing_wire Hcl k :=
  match goal with
  | |- context [client_run _ ((?kind, wire_event _ ?fields) :: ?ws)] =>
      edestruct (closing_repeat _ _ _ _ _ kind k fields ws Hcl eq_refl) as [-> ?];
      [first [by left|right; eexists; split; [reflexivity|wire_read]]
      |first [discriminate|intros _; eexists; split; [reflexivity|wire_read]]
      |wire_read..|]
  end.

Lemma follow_close_item c v pre out post c' ws :
  closes c v pre (out :: post) -> close_item (length pre) out c = (c', Ok ws) ->
  exists v', client_run v ws = Some v' /\ closes c' v' (pre ++ [out]) post.
Proof.
  intros Hcl H. destruct out as [id text|id text|id call name text]; cbn [close_item] in H; emitted H.
  1, 2: closing_wire Hcl (WireDone "text").
  1, 2: match goal with Hcl : closes _ _ _ _ |- _ => closing_wire Hcl WirePartDone end.
  3: closing_wire Hcl (WireDone "arguments").
  all: match goal with
       | Hcl : closes _ _ _ _ |- context [client_run _ ((_, wire_event _ ?fields) :: ?ws)] =>
           edestruct (closing_whole _ _ _ _ _ fields ws Hcl) as (v' & -> & Hcl'); [wire_read..|by exists v']
       end.
Qed.

Lemma close_item_next i out c c' ws :
  close_item i out c = (c', Ok ws) ->
  exists n, c' = mkResponsesCodec (rc_context c) (rc_limits c) (rc_context_validated c) (rc_terminal c) n
    (rc_response_id c) (rc_output c) (rc_aggregate_bytes c) (rc_usage c).
Proof. intros H. destruct out; cbn [close_item] in H; emitted H; by eexists. Qed.

Lemma follow_close_all pre post acc c v c' ws :
  closes c v pre post -> st_fold close_next acc (zip (seq (length pre) (length post)) post) c = (c', Ok ws) ->
  exists ws' v' n, ws = acc ++ ws' /\ client_run v ws' = Some v' /\ closes c' v' (pre ++ post) [] /\
    c' = mkResponsesCodec (rc_context c) (rc_limits c) (rc_context_validated c) (rc_terminal c) n
      (rc_response_id c) (rc_output c) (rc_aggregate_bytes c) (rc_usage c).
Proof.
  revert pre acc c v. induction post as [|out post IH]; intros pre acc c v Hcl; cbn [length seq zip st_fold].
  - intros [= <- <-]. exists [], v, (rc_sequence_number c). rewrite !app_nil_r. split_and!; [done|done|done|by destruct c].
  - intros (c1 & acc1 & H1 & H)%st_bind_Ok. unfold close_next in H1. cbn [fst snd] in H1.
    apply st_bind_Ok in H1 as (c2 & ws1 & H1 & [= <- <-]).
    destruct (follow_close_item _ _ _ _ _ _ _ Hcl H1) as (v1 & Hr1 & Hcl1).
    apply close_item_next in H1 as [n ->].
    replace (S (length pre)) with (length (pre ++ [out])) in H by (rewrite length_app; cbn; lia).
    destruct (IH _ _ _ _ Hcl1 H) as (ws' & v' & n' & -> & Hr & Hcl' & ->).
    exists (ws1 ++ ws'), v', n'. rewrite <- !app_assoc in *. split_and!; [done| |done|done].
    rewrite client_run_app, Hr1. exact Hr.
Qed.

Lemma wholes_of (outs : list ResponsesOutput) : mapM ci_whole (closed_item <$> outs) = Some (output_value <$> outs).
Proof. induction outs as [|out outs IH]; [done|]. cbn. by rewrite IH. Qed.

(** The state of a client that has read the end. *)
Record read_whole (c : ResponsesCodec) (v : ClientView) (wire : Value) : Prop := {
  rw_items : cv_items v = closed_item <$> rc_output c;
  rw_closed : cv_closed v = true;
  rw_response : is_Some (cv_response v) /\ value_get wire "response" = cv_response v;
  rw_output : forall response, cv_response v = Some response ->
    value_get response "output" = Some (VArray (output_value <$> rc_output c))
}.

Lemma follow_completed c v c' ws :
  follows c v -> encode_completed c = (c', Ok ws) ->
  exists v' wire, client_run v ws = Some v' /\ snd <$> list.last ws = Some wire /\ read_whole c' v' wire /\
    rc_terminal c' = true /\ rc_output c' = rc_output c.
Proof.
  intros [Hn Hi Hc He Ho Hr]. unfold encode_completed. intros (c0 & ? & [= <- <-] & H)%st_bind_Ok.
  apply st_bind_Ok in H as (c1 & [] & [= <- Hreq] & H).
  apply st_bind_Ok in H as (c2 & usage & [= <- Hu] & H).
  apply st_bind_Ok in H as (c3 & events & Hfold & H).
  assert (closes c v [] (rc_output c)) as Hcl.
  { split; try done. rewrite Hc. unfold rc_require_created in Hreq. apply guard_err_Ok in Hreq.
    by apply negb_false_iff in Hreq. }
  destruct (follow_close_all _ _ _ _ _ _ _ Hcl Hfold) as (ws' & v' & n & -> & Hrun & [Hn' Hi' Hc' Ho'] & ->).
  cbn [app rc_sequence_number] in *. rewrite app_nil_r in Hi'.
  destruct (is_someb (rt_incomplete_details _)); emitted H.
  all: eexists _, _; split_and!; [|by rewrite last_snoc| |done|done].
  1, 3: rewrite client_run_app, Hrun; cbn [mbind option_bind];
    erewrite run_wire; [reflexivity|reflexivity|done|wire_says|]; cbn [client_event snd];
    unfold wire_event; rewrite get_json_assoc; cbn [assoc String.eqb Ascii.eqb Bool.eqb mbind option_bind];
    rewrite Hi', wholes_of; cbn [mbind option_bind];
    rewrite bool_decide_eq_true_2 by (unfold rc_response_value; by rewrite get_json_assoc);
    rewrite Hc'; reflexivity.
  all: split; state_fields; [done|done|split; [eauto|cbn [snd]; unfold wire_event; by rewrite get_json_assoc]|].
  all: intros response [= <-]; unfold rc_response_value; by rewrite get_json_assoc.
Qed.

Lemma follow_failed c v c' ws error :
  follows c v -> encode_failed error c = (c', Ok ws) ->
  exists v', client_run v ws = Some v' /\ cv_closed v' = true /\ rc_terminal c' = true /\
    cv_items v' = cv_items v /\ rc_output c' = rc_output c.
Proof.
  intros [Hn Hi Hc He Ho Hr] H. unfold encode_failed in H. emitted H. eexists. split.
  - erewrite run_wire; [reflexivity|reflexivity|done|wire_says|]. reflexivity.
  - done.
Qed.


(** ** A whole stream *)
Definition stream_next (wires : list (string * Value)) (event : CanonicalEvent)
  : st_res ResponsesCodec GatewayError (list (string * Value)) :=
  let! more := encode_event_values to_vec event in st_ret (wires ++ more).

Lemma event_values_Ok event c c' ws :
  encode_event_values to_vec event c = (c', Ok ws) ->
  rc_terminal c = false /\ exists c1, rc_response_id c1 = rc_response_id c /\ rc_output c1 = rc_output c /\
    rc_sequence_number c1 = rc_sequence_number c /\ rc_terminal c1 = rc_terminal c /\
    match event with
    | EvCreated id => encode_created id
    | EvOutputTextDelta id delta => encode_text_delta id delta
    | EvReasoningDelta id delta => encode_reasoning_delta id delta
    | EvToolCallDelta id call name delta => encode_tool_delta id call name delta
    | EvUsage u => encode_usage to_vec u
    | EvCompleted => encode_completed
    | EvFailed error => encode_failed error
    end c1 = (c', Ok ws).
Proof.
  unfold encode_event_values. intros (c0 & ? & [= <- <-] & H)%st_bind_Ok.
  destruct (rc_terminal c) eqn:Ht; [discriminate|]. split; [done|].
  apply st_bind_Ok in H as (c1 & [] & Hv & H). exists c1. split_and!; [..|done].
  all: unfold rc_validate_context_once in Hv; apply st_bind_Ok in Hv as (? & ? & [= <- <-] & Hv);
    destruct (rc_context_validated c); [by injection Hv as <-|];
    apply st_bind_Ok in Hv as (? & [] & [= <- _] & [= <-]); done.
Qed.

(** The client after the events so far: still reading, told of a failure, or at
    the end of the whole response. *)
Definition heard (c : ResponsesCodec) (v : ClientView) (events : list CanonicalEvent) (ws : list (string * Value))
  : Prop :=
  (fun it => (get_str (ci_item it) "id", ci_text it)) <$> cv_items v =
    (fun entry => (Some entry.1, entry.2)) <$> said events /\
  pair_of <$> rc_output c = said events /\ cv_closed v = rc_terminal c /\
  (rc_terminal c = false -> follows c v) /\
  (list.last events = Some EvCompleted -> exists wire, snd <$> list.last ws = Some wire /\ read_whole c v wire) /\
  (rc_terminal c = true -> list.last events = Some EvCompleted \/ exists error, list.last events = Some (EvFailed error)).

Lemma items_said {B} (f : B -> ClientItem) (g : B -> string * string) (outs : list B) events :
  (forall b, get_str (ci_item (f b)) "id" = Some (g b).1 /\ ci_text (f b) = (g b).2) ->
  g <$> outs = said events ->
  (fun it => (get_str (ci_item it) "id", ci_text it)) <$> (f <$> outs) =
  (fun entry => (Some entry.1, entry.2)) <$> said events.
Proof.
  intros Hf <-. rewrite <- !list_fmap_compose. apply list_fmap_ext. intros _ b _. cbn.
  destruct (Hf b) as [-> ->]. done.
Qed.

Lemma said_snoc events event : said (events ++ [event]) = gather_event (said events) event.
Proof. unfold said. by rewrite foldl_app. Qed.

Lemma growing_said out : get_str (ci_item (growing out)) "id" = Some (pair_of out).1 /\ ci_text (growing out) = (pair_of out).2.
Proof. split; [apply added_item_id|done]. Qed.

Lemma closed_said out :
  get_str (ci_item (closed_item out)) "id" = Some (pair_of out).1 /\ ci_text (closed_item out) = (pair_of out).2.
Proof. split; [apply added_item_id|done]. Qed.

Lemma heard_following c v events ws :
  follows c v -> pair_of <$> rc_output c = said events -> list.last events <> Some EvCompleted ->
  heard c v events ws.
Proof.
  intros Hf Hs Hl. pose proof Hf as [_ Hi _ _ Ho Hr]. split_and!; try done; try congruence.
  rewrite Hi. by apply (items_said _ pair_of), Hs; intros; apply growing_said.
Qed.

Lemma heard_next c v events ws event c' more :
  heard c v events ws -> encode_event_values to_vec event c = (c', Ok more) ->
  exists v', client_run v more = Some v' /\ heard c' v' (events ++ [event]) (ws ++ more).
Proof.
  intros (_ & Hs & _ & Hrun & _) H.
  apply event_values_Ok in H as (Hterm & c1 & Hid & Hout & Hnum & Ht & H). specialize (Hrun Hterm).
  assert (follows c1 v) as Hf by (destruct Hrun; split; by rewrite ?Hid, ?Hout, ?Hnum, ?Ht).
  rewrite <- Hout in Hs.
  destruct event as [id|id delta|id delta|id call name delta|u| |error].
  - destruct (follow_created _ _ _ _ _ Hf H) as (v' & Hv & Hf' & Hg). exists v'. split; [done|].
    apply heard_following; [done| |by rewrite last_snoc]. by rewrite said_snoc, <- Hs, Hg.
  - destruct (follow_text _ _ _ _ _ _ Hf H) as (v' & Hv & Hf' & Hg). exists v'. split; [done|].
    apply heard_following; [done| |by rewrite last_snoc]. by rewrite said_snoc, <- Hs, Hg.
  - destruct (follow_reasoning _ _ _ _ _ _ Hf H) as (v' & Hv & Hf' & Hg). exists v'. split; [done|].
    apply heard_following; [done| |by rewrite last_snoc]. by rewrite said_snoc, <- Hs, Hg.
  - destruct (follow_tool _ _ _ _ _ _ _ _ Hf H) as (v' & Hv & Hf' & Hg). exists v'. split; [done|].
    apply heard_following; [done| |by rewrite last_snoc]. by rewrite said_snoc, <- Hs, Hg.
  - destruct (follow_usage _ _ _ _ _ Hf H) as (v' & Hv & Hf' & Hg). exists v'. split; [done|].
    apply heard_following; [done| |by rewrite last_snoc]. by rewrite said_snoc, <- Hs, Hg.
  - destruct (follow_completed _ _ _ _ Hf H) as (v' & wire & Hv & Hl & Hw & Hterm' & Hout').
    exists v'. split; [done|]. pose proof Hw as [Hi Hcl _ _].
    unfold heard. rewrite said_snoc, !last_snoc. cbn [gather_event event_delta].
    split_and!; try congruence; [| |eauto].
    + rewrite Hi. apply (items_said _ pair_of); [intros; apply closed_said|congruence].
    + intros _. exists wire. split; [|done]. rewrite last_app. by destruct (list.last more).
  - destruct (follow_failed _ _ _ _ _ Hf H) as (v' & Hv & Hcl & Hterm' & Hi & Hout').
    exists v'. split; [done|]. unfold heard. rewrite said_snoc, !last_snoc. cbn [gather_event event_delta].
    split_and!; try congruence; [|eauto]. destruct Hf as [_ Hi' _ _ _ _]. rewrite Hi, Hi'.
    apply (items_said _ pair_of); [intros; apply growing_said|congruence].
Qed.

Lemma heard_all events pre c v ws c' ws' :
  heard c v pre ws -> client_run client_new ws = Some v ->
  st_fold stream_next ws events c = (c', Ok ws') ->
  exists v', client_run client_new ws' = Some v' /\ heard c' v' (pre ++ events) ws'.
Proof.
  revert pre c v ws. induction events as [|event events IH]; intros pre c v ws Hh Hr; cbn [st_fold].
  - intros [= <- <-]. exists v. by rewrite app_nil_r.
  - intros (c1 & ws1 & H1 & H)%st_bind_Ok. unfold stream_next in H1.
    apply st_bind_Ok in H1 as (c2 & more & H1 & [= <- <-]).
    destruct (heard_next _ _ _ _ _ _ _ Hh H1) as (v1 & Hv1 & Hh1).
    destruct (IH _ _ _ _ Hh1 ltac:(by rewrite client_run_app, Hr) H) as (v' & Hv' & Hh').
    exists v'. by rewrite <- app_assoc in Hh'.
Qed.

Lemma heard_start context l : heard (responses_with_limits context l) client_new [] [].
Proof. apply heard_following; [by split|done|done]. Qed.

(** The aggregator takes the same steps. *)
Lemma collect_steps events ws c c' ws' response :
  st_fold stream_next ws events c = (c', Ok ws') ->
  exists response', st_fold (collect_response to_vec) response events c = (c', Ok response').
Proof.
  revert ws c response. induction events as [|event events IH]; intros ws c response; cbn [st_fold].
  - intros [= <- <-]. by eexists.
  - intros (c1 & ws1 & H1 & H)%st_bind_Ok. apply st_bind_Ok in H1 as (c2 & more & H1 & [= <- <-]).
    edestruct IH as [response' Hr]; [exact H|]. exists response'. apply st_bind_Ok.
    eexists c2, _. split; [|exact Hr]. apply st_bind_Ok. eexists c2, more. split; [exact H1|reflexivity].
Qed.

Lemma collect_completed events c c' ws :
  st_fold stream_next [] (events ++ [EvCompleted]) c = (c', Ok ws) ->
  rc_terminal c' = true /\
  st_fold (collect_response to_vec) None (events ++ [EvCompleted]) c =
    (c', Ok (list.last ws ≫= (fun wire => value_get wire.2 "response"))).
Proof.
  rewrite !st_fold_app. intros (c1 & ws1 & H1 & H)%st_bind_Ok.
  destruct (collect_steps _ _ _ _ _ None H1) as [response Hr]. cbn [st_fold] in H.
  apply st_bind_Ok in H as (c2 & ws2 & H2 & [= <- <-]). apply st_bind_Ok in H2 as (c3 & more & H2 & [= <- <-]).
  assert (is_Some (list.last more) /\ rc_terminal c3 = true) as [[wire Hw] Hterm].
  { apply event_values_Ok in H2 as (_ & c4 & _ & _ & _ & _ & H2). unfold encode_completed in H2.
    apply st_bind_Ok in H2 as (? & ? & _ & H2). apply st_bind_Ok in H2 as (? & ? & _ & H2).
    apply st_bind_Ok in H2 as (? & ? & _ & H2). apply st_bind_Ok in H2 as (? & events' & _ & H2).
    destruct (is_someb _); emitted H2; split; [rewrite last_snoc; eauto|done|rewrite last_snoc; eauto|done]. }
  split; [done|]. apply st_bind_Ok. eexists c1, response. split; [done|]. cbn [st_fold].
  apply st_bind_Ok. eexists c3, _. split; [|reflexivity]. apply st_bind_Ok.
  eexists c3, more. split; [done|]. unfold st_ret. by rewrite last_app, Hw.
Qed.

(** C10: A Responses stream says what the upstream said, and ends in the response a client without
    streaming gets.  Of every list of events the codec accepts, a client that checks the numbers of
    the wire events, joins the deltas of each item by its index, and compares every repeated text,
    part and item with what it joined, accepts all wire events; it holds one item per item id, in
    the order of the first deltas, with exactly the upstream's deltas joined; and it knows the
    stream is over exactly when the codec does.  If the events end with the completion, the last
    wire event carries the very response of the complete encoder, whose output is those items. *)
Theorem responses_stream_assembles (context : ResponsesEncodeContext) (l : ResponsesLimits)
  (events : list CanonicalEvent) (c : ResponsesCodec) (wires : list (string * Value)) :
  st_fold stream_next [] events (responses_with_limits context l) = (c, Ok wires) ->
  exists view, client_run client_new wires = Some view /\ cv_closed view = rc_terminal c /\
    (fun it => (get_str (ci_item it) "id", ci_text it)) <$> cv_items view =
      (fun entry => (Some entry.1, entry.2)) <$> said events /\
    (list.last events = Some EvCompleted ->
     exists response outputs, responses_encode_with_limits to_vec context events l = Ok response /\
       cv_response view = Some response /\ mapM ci_whole (cv_items view) = Some outputs /\
       value_get response "output" = Some (VArray outputs)).
Proof.
  intros H. pose proof H as Hrun.
  apply (heard_all _ _ _ _ _ _ _ (heard_start context l) eq_refl) in Hrun as (view & Hv & Hh).
  cbn [app] in Hh. destruct Hh as (Hitems & _ & Hcl & _ & Hend & _). exists view. split_and!; try done.
  intros Hlast. destruct (Hend Hlast) as (wire & Hw & [Hi _ [[response Hr] Hwr] Hout]).
  apply last_Some in Hlast as [pre ->]. apply collect_completed in H as [Hterm Hcollect].
  exists response, (output_value <$> rc_output c). split_and!; [|done|by rewrite Hi, wholes_of|by apply Hout].
  unfold responses_encode_with_limits. rewrite Hcollect, Hterm. cbn [negb refuse_if guard_err result_bind].
  apply fmap_Some in Hw as (last & -> & ->). cbn [mbind option_bind]. by rewrite Hwr, Hr.
Qed.
End Spec.

(** ** A concrete stream *)
Definition demo_responses_context : ResponsesEncodeContext :=
  mkResponsesContext "model" 7
    (mkResponsesTemplate (Some 7) None None None None ∅ false None VNull false None VNull VNull [] None VNull None).

Definition demo_responses_events : list CanonicalEvent :=
  [EvCreated "resp"; EvReasoningDelta "think" "hm"; EvOutputTextDelta "text" "he";
   EvToolCallDelta "tool" "call" "lookup" "{}"; EvOutputTextDelta "text" "llo";
   EvUsage (mkUsage 3 4 None None ∅); EvCompleted].

Lemma responses_stream_assembles_witness :
  exists response view outputs,
    responses_encode_with_limits (fun _ => []) demo_responses_context demo_responses_events ResponsesLimits_default
      = Ok response /\
    mapM ci_whole (cv_items view) = Some outputs /\ value_get response "output" = Some (VArray outputs) /\
    ci_text <$> cv_items view = ["hm"; "hello"; "{}"]%string.
Proof.
  destruct (st_fold (stream_next (fun _ => [])) [] demo_responses_events
              (responses_with_limits demo_responses_context ResponsesLimits_default)) as [c [wires|e]] eqn:Hs.
  2: { exfalso. apply (f_equal snd) in Hs. vm_compute in Hs. discriminate. }
  destruct (responses_stream_assembles (fun _ => []) demo_responses_context ResponsesLimits_default
              demo_responses_events c wires Hs) as (view & _ & _ & Hitems & Hend).
  destruct (Hend eq_refl) as (response & outputs & Hr & _ & Hm & Ho).
  exists response, view, outputs. split_and!; [exact Hr|exact Hm|exact Ho|].
  apply (f_equal (fmap snd)) in Hitems. rewrite <- !list_fmap_compose in Hitems. exact Hitems.
Defined.
