(* ===== verification/AnthropicEncode.v ===== *)
(** * The Messages client codec ([wokcore-protocols/src/outbound/anthropic.rs])

    Canonical events become the blocks of the Messages protocol: one block is
    open at a time, and is closed before the next one starts.  The aggregator
    builds the message of a client without streaming from the same events, on
    its own. *)
From S2P Require Import Prelude Sse Json Canonical ChatEncode.

Inductive AnthropicStopReason : Set :=
| StopEndTurn | StopMaxTokens | StopSequence | StopToolUse | StopPauseTurn | StopRefusal
| StopModelContextWindowExceeded.

Definition stop_as_str (reason : AnthropicStopReason) : string :=
  match reason with
  | StopEndTurn => "end_turn"
  | StopMaxTokens => "max_tokens"
  | StopSequence => "stop_sequence"
  | StopToolUse => "tool_use"
  | StopPauseTurn => "pause_turn"
  | StopRefusal => "refusal"
  | StopModelContextWindowExceeded => "model_context_window_exceeded"
  end.

Record AnthropicResponseTemplate : Set := mkAnthropicTemplate {
  at_stop_reason : AnthropicStopReason;
  at_stop_sequence : option string;
  at_thinking_signatures : gmap string string;
  at_response_extra : json_map
}.

Record AnthropicEncodeContext : Set := mkAnthropicContext {
  ax_request_id : string;
  ax_model : string;
  ax_initial_usage : Usage;
  ax_response : AnthropicResponseTemplate
}.

Record AnthropicLimits : Set := mkAnthropicEncodeLimits {
  ao_max_output_items : Z;
  ao_max_identifier_bytes : Z;
  ao_max_opaque_payload_bytes : Z;
  ao_max_value_bytes : Z;
  ao_max_aggregate_bytes : Z
}.

Definition AnthropicLimits_default : AnthropicLimits :=
  mkAnthropicEncodeLimits 4096 512 (1024 * 1024) (1024 * 1024) (16 * 1024 * 1024).

Inductive ActiveBlock : Set :=
| ActiveText (item_id : string) (index : Z)
| ActiveReasoning (item_id : string) (index : Z)
| ActiveTool (item_id call_id name : string) (index : Z).

Definition active_index (active : ActiveBlock) : Z :=
  match active with ActiveText _ index | ActiveReasoning _ index | ActiveTool _ _ _ index => index end.

Inductive AggregateOutput : Set :=
| AggText (item_id text : string)
| AggReasoning (item_id thinking : string)
| AggTool (item_id call_id name partial_json : string).

(** ** Values on the wire *)
Definition an_wire (kind : string) (fields : list (string * Value)) : string * Value :=
  (kind, of_map (list_to_map fields ∪ {["type"%string := VString kind]})).

Definition anthropic_usage_value (usage : Usage) : Value :=
  let extensions := usage_extensions usage in
  let cache_creation := default 0 ((extensions !! "cache_creation_input_tokens"%string) ≫= as_u64) in
  let cache_read :=
    default 0 (match (extensions !! "cache_read_input_tokens"%string) ≫= as_u64 with
               | Some tokens => Some tokens
               | None => cached_input_tokens usage
               end) in
  let value : json_map := list_to_map
    [("input_tokens"%string, json_uint (input_tokens usage));
     ("cache_creation_input_tokens"%string, json_uint cache_creation);
     ("cache_read_input_tokens"%string, json_uint cache_read);
     ("output_tokens"%string, json_uint (output_tokens usage))] in
  let value :=
    match reasoning_tokens usage with
    | Some tokens =>
        let details := default ∅ ((extensions !! "output_tokens_details"%string) ≫= as_object) in
        <["output_tokens_details"%string := of_map (<["thinking_tokens"%string := json_uint tokens]> details)]> value
    | None => value
    end in
  of_map (value ∪ extensions).

Definition initial_usage_value (usage : Usage) : Value :=
  set_key (anthropic_usage_value usage) "output_tokens" (json_uint (output_tokens usage)).

Definition is_output_key (entry : string * Value) : Prop := starts_with "output_" entry.1 = true.

Definition final_usage_value (usage : Usage) : Value :=
  let value : json_map := {["output_tokens"%string := json_uint (output_tokens usage)]} in
  let value :=
    match reasoning_tokens usage with
    | Some tokens =>
        <["output_tokens_details"%string :=
            json_object [("thinking_tokens"%string, json_uint tokens)]]> value
    | None => value
    end in
  of_map (value ∪ filter is_output_key (usage_extensions usage)).

Definition anthropic_error_type (error : GatewayError) : string :=
  let code := error_code error in
  if bool_decide (code ∈ ["invalid_request"%string; "unsupported_capability"%string])
  then "invalid_request_error"
  else if bool_decide (code = "upstream_auth"%string) then "authentication_error"
  else if bool_decide (code = "rate_limited"%string) then "rate_limit_error"
  else if bool_decide (code = "upstream_unavailable"%string) then "overloaded_error"
  else if bool_decide (code = "model_not_found"%string) then "not_found_error"
  else "api_error".

Definition anthropic_error_wire (error : GatewayError) : string * Value :=
  an_wire "error"
    [("error"%string, json_object
        [("type"%string, VString (anthropic_error_type error)); ("message"%string, VString (public_message error))])].

Definition error_value_with_request_id (error : GatewayError) (request_id : string) : Value :=
  set_key (anthropic_error_wire error).2 "request_id" (VString request_id).

Definition ao_identifier (l : AnthropicLimits) (value : string) : result GatewayError unit :=
  refuse_if (str_is_empty value || (ao_max_identifier_bytes l <? str_len value)).

Definition ao_opaque_payload (l : AnthropicLimits) (value : string) : result GatewayError unit :=
  refuse_if (str_is_empty value || (ao_max_opaque_payload_bytes l <? str_len value)).

(** The blocks as they are started. *)
Definition text_block (text : string) : Value :=
  json_object [("type"%string, VString "text"); ("text"%string, VString text)].

Definition thinking_block (thinking signature : string) : Value :=
  json_object [("type"%string, VString "thinking"); ("thinking"%string, VString thinking);
               ("signature"%string, VString signature)].

Definition tool_block (call_id name : string) (input : Value) : Value :=
  json_object [("type"%string, VString "tool_use"); ("id"%string, VString call_id);
               ("name"%string, VString name); ("input"%string, input)].

Definition block_start (index : Z) (block : Value) : string * Value :=
  an_wire "content_block_start" [("index"%string, json_uint index); ("content_block"%string, block)].

Definition block_delta (index : Z) (kind key delta : string) : string * Value :=
  an_wire "content_block_delta"
    [("index"%string, json_uint index);
     ("delta"%string, json_object [("type"%string, VString kind); (key, VString delta)])].

Definition block_stop (index : Z) : string * Value :=
  an_wire "content_block_stop" [("index"%string, json_uint index)].

Section Anthropic.
Context (to_vec : Value -> list Z).

Definition ao_value (l : AnthropicLimits) (value : Value) : result GatewayError unit :=
  refuse_if (negb (zlen (to_vec value) <=? ao_max_value_bytes l)).

(** The check of the context, the same in the codec and in the aggregator. *)
Definition ao_context (l : AnthropicLimits) (context : AnthropicEncodeContext) : result GatewayError unit :=
  let t := ax_response context in
  check? ao_identifier l (ax_model context);
  check? ao_identifier l (ax_request_id context);
  check? match at_stop_sequence t with
         | Some stop_sequence => ao_identifier l stop_sequence
         | None => Ok tt
         end;
  check? ao_value l (initial_usage_value (ax_initial_usage context));
  check? ao_value l (of_map (at_response_extra t));
  check? refuse_if (ao_max_output_items l <? Z.of_nat (size (at_thinking_signatures t)));
  try_fold (fun _ entry => check? ao_identifier l entry.1; ao_opaque_payload l entry.2) tt
    (btree_iter (at_thinking_signatures t)).

(** ** The streaming codec *)
Record AnthropicCodec : Set := mkAnthropicCodec {
  ac_context : AnthropicEncodeContext;
  ac_limits : AnthropicLimits;
  ac_context_validated : bool;
  ac_terminal : bool;
  ac_response_id : option string;
  ac_active : option ActiveBlock;
  ac_seen_items : gset string;
  ac_call_ids : gset string;
  ac_next_index : Z;
  ac_usage : option Usage
}.

Definition anthropic_with_limits (context : AnthropicEncodeContext) (l : AnthropicLimits) : AnthropicCodec :=
  mkAnthropicCodec context l false false None None ∅ ∅ 0 None.

Definition anthropic_new (context : AnthropicEncodeContext) : AnthropicCodec :=
  anthropic_with_limits context AnthropicLimits_default.

Abbreviation ac_op := (st_res AnthropicCodec GatewayError).
Abbreviation AnWire := (string * Value)%type.

Definition ac_set_validated (c : AnthropicCodec) : AnthropicCodec :=
  mkAnthropicCodec (ac_context c) (ac_limits c) true (ac_terminal c) (ac_response_id c) (ac_active c)
    (ac_seen_items c) (ac_call_ids c) (ac_next_index c) (ac_usage c).
Definition ac_set_terminal (c : AnthropicCodec) : AnthropicCodec :=
  mkAnthropicCodec (ac_context c) (ac_limits c) (ac_context_validated c) true (ac_response_id c) (ac_active c)
    (ac_seen_items c) (ac_call_ids c) (ac_next_index c) (ac_usage c).
Definition ac_set_response_id (id : string) (c : AnthropicCodec) : AnthropicCodec :=
  mkAnthropicCodec (ac_context c) (ac_limits c) (ac_context_validated c) (ac_terminal c) (Some id)
    (ac_active c) (ac_seen_items c) (ac_call_ids c) (ac_next_index c) (ac_usage c).
Definition ac_set_active (active : option ActiveBlock) (c : AnthropicCodec) : AnthropicCodec :=
  mkAnthropicCodec (ac_context c) (ac_limits c) (ac_context_validated c) (ac_terminal c) (ac_response_id c)
    active (ac_seen_items c) (ac_call_ids c) (ac_next_index c) (ac_usage c).
Definition ac_register (item_id : string) (c : AnthropicCodec) : AnthropicCodec :=
  mkAnthropicCodec (ac_context c) (ac_limits c) (ac_context_validated c) (ac_terminal c) (ac_response_id c)
    (ac_active c) ({[item_id]} ∪ ac_seen_items c) (ac_call_ids c) (ac_next_index c + 1) (ac_usage c).
Definition ac_add_call (call_id : string) (c : AnthropicCodec) : AnthropicCodec :=
  mkAnthropicCodec (ac_context c) (ac_limits c) (ac_context_validated c) (ac_terminal c) (ac_response_id c)
    (ac_active c) (ac_seen_items c) ({[call_id]} ∪ ac_call_ids c) (ac_next_index c) (ac_usage c).
Definition ac_set_usage (usage : Usage) (c : AnthropicCodec) : AnthropicCodec :=
  mkAnthropicCodec (ac_context c) (ac_limits c) (ac_context_validated c) (ac_terminal c) (ac_response_id c)
    (ac_active c) (ac_seen_items c) (ac_call_ids c) (ac_next_index c) (Some usage).

Definition ac_require_created (c : AnthropicCodec) : result GatewayError unit :=
  refuse_if (negb (is_someb (ac_response_id c))).

Definition ac_require_delta_allowed (c : AnthropicCodec) : result GatewayError unit :=
  check? ac_require_created c;
  refuse_if (is_someb (ac_usage c)).

Definition ac_validate_context_once : ac_op unit :=
  let! c := st_get in
  if ac_context_validated c then st_ret tt
  else do! st_lift (ao_context (ac_limits c) (ac_context c)); st_mod ac_set_validated.

Definition signature_of (c : AnthropicCodec) (item_id : string) : option string :=
  at_thinking_signatures (ax_response (ac_context c)) !! item_id.

Definition close_active : ac_op (list AnWire) :=
  let! c := st_get in
  match ac_active c with
  | None => st_ret []
  | Some active =>
      do! st_mod (ac_set_active None);
      let! signed :=
        match active with
        | ActiveReasoning item_id index =>
            let! signature := st_lift (ok_or (signature_of c item_id) unsupported_capability) in
            st_ret [block_delta index "signature_delta" "signature" signature]
        | _ => st_ret []
        end in
      st_ret (signed ++ [block_stop (active_index active)])
  end.

Definition ac_register_item (item_id : string) : ac_op Z :=
  let! c := st_get in
  do! st_lift (ao_identifier (ac_limits c) item_id);
  do! st_lift (refuse_if ((ao_max_output_items (ac_limits c) <=? Z.of_nat (size (ac_seen_items c)))
                          || bool_decide (item_id ∈ ac_seen_items c)));
  do! st_mod (ac_register item_id);
  st_ret (ac_next_index c).

Definition start_text (item_id : string) : ac_op (list AnWire) :=
  let! wires := close_active in
  let! index := ac_register_item item_id in
  do! st_mod (ac_set_active (Some (ActiveText item_id index)));
  st_ret (wires ++ [block_start index (text_block "")]).

Definition activate_text (item_id : string) : ac_op (list AnWire) :=
  let! c := st_get in
  match ac_active c with
  | Some (ActiveText active _) =>
      if bool_decide (active = item_id) then st_ret [] else start_text item_id
  | _ => start_text item_id
  end.

Definition start_reasoning (item_id : string) : ac_op (list AnWire) :=
  let! c := st_get in
  let! signature := st_lift (ok_or (signature_of c item_id) unsupported_capability) in
  do! st_lift (ao_opaque_payload (ac_limits c) signature);
  let! wires := close_active in
  let! index := ac_register_item item_id in
  do! st_mod (ac_set_active (Some (ActiveReasoning item_id index)));
  st_ret (wires ++ [block_start index (thinking_block "" "")]).

Definition activate_reasoning (item_id : string) : ac_op (list AnWire) :=
  let! c := st_get in
  match ac_active c with
  | Some (ActiveReasoning active _) =>
      if bool_decide (active = item_id) then st_ret [] else start_reasoning item_id
  | _ => start_reasoning item_id
  end.

Definition start_tool (item_id call_id name : string) : ac_op (list AnWire) :=
  let! c := st_get in
  do! st_lift (ao_identifier (ac_limits c) call_id);
  do! st_lift (ao_identifier (ac_limits c) name);
  let! wires := close_active in
  do! st_lift (refuse_if (bool_decide (call_id ∈ ac_call_ids c)));
  let! index := ac_register_item item_id in
  do! st_mod (ac_add_call call_id);
  do! st_mod (ac_set_active (Some (ActiveTool item_id call_id name index)));
  st_ret (wires ++ [block_start index (tool_block call_id name (json_object []))]).

Definition activate_tool (item_id call_id name : string) : ac_op (list AnWire) :=
  let! c := st_get in
  match ac_active c with
  | Some (ActiveTool active_item active_call active_name _) =>
      if bool_decide (active_item = item_id) && bool_decide (active_call = call_id)
         && bool_decide (active_name = name)
      then st_ret [] else start_tool item_id call_id name
  | _ => start_tool item_id call_id name
  end.

(** [self.active.as_ref().expect("active block").index()]. *)
Definition push_delta (kind key delta : string) (wires : list AnWire) : ac_op (list AnWire) :=
  let! c := st_get in
  match ac_active c with
  | Some active => st_ret (wires ++ [block_delta (active_index active) kind key delta])
  | None => st_err (gateway_internal "active block")
  end.

Definition ac_created (response_id : string) : ac_op (list AnWire) :=
  let! c := st_get in
  if is_someb (ac_response_id c) then st_err invalid_request
  else
    do! st_lift (ao_identifier (ac_limits c) response_id);
    do! st_mod (ac_set_response_id response_id);
    let message : json_map := list_to_map
      [("id"%string, VString response_id); ("type"%string, VString "message");
       ("role"%string, VString "assistant"); ("content"%string, VArray []);
       ("model"%string, VString (ax_model (ac_context c))); ("stop_reason"%string, VNull);
       ("stop_sequence"%string, VNull);
       ("usage"%string, initial_usage_value (ax_initial_usage (ac_context c)))] in
    st_ret [an_wire "message_start"
              [("message"%string, of_map (message ∪ at_response_extra (ax_response (ac_context c))))]].

Definition ac_text_delta (item_id delta : string) : ac_op (list AnWire) :=
  let! c := st_get in
  do! st_lift (ac_require_delta_allowed c);
  do! st_lift (ao_value (ac_limits c) (VString delta));
  let! wires := activate_text item_id in
  push_delta "text_delta" "text" delta wires.

Definition ac_reasoning_delta (item_id delta : string) : ac_op (list AnWire) :=
  let! c := st_get in
  do! st_lift (ac_require_delta_allowed c);
  do! st_lift (ao_value (ac_limits c) (VString delta));
  let! wires := activate_reasoning item_id in
  push_delta "thinking_delta" "thinking" delta wires.

Definition ac_tool_delta (item_id call_id name delta : string) : ac_op (list AnWire) :=
  let! c := st_get in
  do! st_lift (ac_require_delta_allowed c);
  do! st_lift (ao_value (ac_limits c) (VString delta));
  let! wires := activate_tool item_id call_id name in
  push_delta "input_json_delta" "partial_json" delta wires.

Definition ac_record_usage (usage : Usage) : ac_op (list AnWire) :=
  let! c := st_get in
  do! st_lift (ac_require_created c);
  if is_someb (ac_usage c) then st_err invalid_request
  else
    do! st_lift (ao_value (ac_limits c) (anthropic_usage_value usage));
    let! wires := close_active in
    do! st_mod (ac_set_usage usage);
    let t := ax_response (ac_context c) in
    st_ret (wires ++ [an_wire "message_delta"
      [("delta"%string, json_object
          [("stop_reason"%string, VString (stop_as_str (at_stop_reason t)));
           ("stop_sequence"%string, json_string_option (at_stop_sequence t))]);
       ("usage"%string, final_usage_value usage)]]).

Definition ac_completed : ac_op (list AnWire) :=
  let! c := st_get in
  do! st_lift (ac_require_created c);
  do! st_lift (refuse_if (negb (is_someb (ac_usage c)) || is_someb (ac_active c)));
  do! st_mod ac_set_terminal;
  st_ret [an_wire "message_stop" []].

Definition ac_failed (error : GatewayError) : ac_op (list AnWire) :=
  do! st_mod ac_set_terminal;
  st_ret [anthropic_error_wire error].

(** The wires of one event; [encode_event] writes their frames. *)
Definition anthropic_event_wires (event : CanonicalEvent) : ac_op (list AnWire) :=
  let! c := st_get in
  if ac_terminal c then st_err invalid_request
  else
    do! ac_validate_context_once;
    match event with
    | EvCreated response_id => ac_created response_id
    | EvOutputTextDelta item_id delta => ac_text_delta item_id delta
    | EvReasoningDelta item_id delta => ac_reasoning_delta item_id delta
    | EvToolCallDelta item_id call_id name delta => ac_tool_delta item_id call_id name delta
    | EvUsage usage => ac_record_usage usage
    | EvCompleted => ac_completed
    | EvFailed error => ac_failed error
    end.

Definition anthropic_encode_event (event : CanonicalEvent) : ac_op (list Z) :=
  let! wires := anthropic_event_wires event in
  st_ret (flat_map (fun wire => encode_sse to_vec (Some (str_bytes wire.1)) wire.2) wires).

(** ** The aggregator *)
Record AnthropicResponseAggregator : Set := mkAnthropicAggregator {
  aa_context : AnthropicEncodeContext;
  aa_limits : AnthropicLimits;
  aa_terminal : bool;
  aa_failed : option Value;
  aa_response_id : option string;
  aa_outputs : list AggregateOutput;
  aa_seen_items : gset string;
  aa_call_ids : gset string;
  aa_aggregate_bytes : Z;
  aa_usage : option Usage
}.

Definition aggregator_new (context : AnthropicEncodeContext) (l : AnthropicLimits)
  : AnthropicResponseAggregator :=
  mkAnthropicAggregator context l false None None [] ∅ ∅ 0 None.

Definition aa_require_created (a : AnthropicResponseAggregator) : result GatewayError unit :=
  refuse_if (negb (is_someb (aa_response_id a))).

Definition aa_require_delta_allowed (a : AnthropicResponseAggregator) : result GatewayError unit :=
  check? aa_require_created a;
  refuse_if (is_someb (aa_usage a)).

Definition ensure_payload_capacity (a : AnthropicResponseAggregator) (additional : Z)
  : result GatewayError unit :=
  refuse_if (negb (is_some_and (fun total => total <=? ao_max_aggregate_bytes (aa_limits a))
                     (checked_add64 (aa_aggregate_bytes a) additional))).

(** [register_item]: the items with this one, if it is new and there is room. *)
Definition aa_register_item (a : AnthropicResponseAggregator) (item_id : string)
  : result GatewayError (gset string) :=
  check? ao_identifier (aa_limits a) item_id;
  check? refuse_if ((ao_max_output_items (aa_limits a) <=? Z.of_nat (size (aa_seen_items a)))
                    || bool_decide (item_id ∈ aa_seen_items a));
  Ok ({[item_id]} ∪ aa_seen_items a).

(** [text.push_str(delta)] on the last output, or a new output. *)
Definition aa_grow (outputs : list AggregateOutput) (seen_items call_ids : gset string) (additional : Z)
  (a : AnthropicResponseAggregator) : AnthropicResponseAggregator :=
  mkAnthropicAggregator (aa_context a) (aa_limits a) (aa_terminal a) (aa_failed a) (aa_response_id a)
    outputs seen_items call_ids (aa_aggregate_bytes a + additional) (aa_usage a).

Definition replace_last (outputs : list AggregateOutput) (output : AggregateOutput) : list AggregateOutput :=
  removelast outputs ++ [output].

Definition aa_append_text (item_id delta : string) (a : AnthropicResponseAggregator)
  : result GatewayError AnthropicResponseAggregator :=
  check? aa_require_delta_allowed a;
  check? ensure_payload_capacity a (str_len delta);
  let start :=
    let? seen_items := aa_register_item a item_id in
    Ok (aa_grow (aa_outputs a ++ [AggText item_id delta]) seen_items (aa_call_ids a) (str_len delta) a) in
  match list.last (aa_outputs a) with
  | Some (AggText active text) =>
      if bool_decide (active = item_id)
      then Ok (aa_grow (replace_last (aa_outputs a) (AggText active (text +:+ delta))) (aa_seen_items a)
                 (aa_call_ids a) (str_len delta) a)
      else start
  | _ => start
  end.

Definition aa_append_reasoning (item_id delta : string) (a : AnthropicResponseAggregator)
  : result GatewayError AnthropicResponseAggregator :=
  check? aa_require_delta_allowed a;
  check? ensure_payload_capacity a (str_len delta);
  check? guard_err (negb (is_someb (at_thinking_signatures (ax_response (aa_context a)) !! item_id)))
           unsupported_capability;
  let start :=
    let? seen_items := aa_register_item a item_id in
    Ok (aa_grow (aa_outputs a ++ [AggReasoning item_id delta]) seen_items (aa_call_ids a) (str_len delta) a) in
  match list.last (aa_outputs a) with
  | Some (AggReasoning active thinking) =>
      if bool_decide (active = item_id)
      then Ok (aa_grow (replace_last (aa_outputs a) (AggReasoning active (thinking +:+ delta)))
                 (aa_seen_items a) (aa_call_ids a) (str_len delta) a)
      else start
  | _ => start
  end.

Definition aa_append_tool (item_id call_id name delta : string) (a : AnthropicResponseAggregator)
  : result GatewayError AnthropicResponseAggregator :=
  check? aa_require_delta_allowed a;
  check? ensure_payload_capacity a (str_len delta);
  check? ao_identifier (aa_limits a) call_id;
  check? ao_identifier (aa_limits a) name;
  let start :=
    let? seen_items := aa_register_item a item_id in
    check? refuse_if (bool_decide (call_id ∈ aa_call_ids a));
    Ok (aa_grow (aa_outputs a ++ [AggTool item_id call_id name delta]) seen_items
          ({[call_id]} ∪ aa_call_ids a) (str_len delta) a) in
  match list.last (aa_outputs a) with
  | Some (AggTool active_item active_call active_name partial_json) =>
      if bool_decide (active_item = item_id) && bool_decide (active_call = call_id)
         && bool_decide (active_name = name)
      then Ok (aa_grow (replace_last (aa_outputs a)
                          (AggTool active_item active_call active_name (partial_json +:+ delta)))
                 (aa_seen_items a) (aa_call_ids a) (str_len delta) a)
      else start
  | _ => start
  end.

Definition aa_created (response_id : string) (a : AnthropicResponseAggregator)
  : result GatewayError AnthropicResponseAggregator :=
  check? refuse_if (is_someb (aa_response_id a));
  check? ao_identifier (aa_limits a) response_id;
  Ok (mkAnthropicAggregator (aa_context a) (aa_limits a) (aa_terminal a) (aa_failed a) (Some response_id)
        (aa_outputs a) (aa_seen_items a) (aa_call_ids a) (aa_aggregate_bytes a) (aa_usage a)).

Definition aa_set_usage (usage : Usage) (a : AnthropicResponseAggregator)
  : result GatewayError AnthropicResponseAggregator :=
  check? aa_require_created a;
  check? refuse_if (is_someb (aa_usage a));
  check? ao_value (aa_limits a) (anthropic_usage_value usage);
  Ok (mkAnthropicAggregator (aa_context a) (aa_limits a) (aa_terminal a) (aa_failed a) (aa_response_id a)
        (aa_outputs a) (aa_seen_items a) (aa_call_ids a) (aa_aggregate_bytes a) (Some usage)).

Definition aa_set_terminal (failed : option Value) (a : AnthropicResponseAggregator)
  : AnthropicResponseAggregator :=
  mkAnthropicAggregator (aa_context a) (aa_limits a) true failed (aa_response_id a) (aa_outputs a)
    (aa_seen_items a) (aa_call_ids a) (aa_aggregate_bytes a) (aa_usage a).

Definition aa_completed (a : AnthropicResponseAggregator) : result GatewayError AnthropicResponseAggregator :=
  check? aa_require_created a;
  check? refuse_if (negb (is_someb (aa_usage a)) || is_emptyb (aa_outputs a));
  Ok (aa_set_terminal (aa_failed a) a).

Definition aa_transition (a : AnthropicResponseAggregator) (event : CanonicalEvent)
  : result GatewayError AnthropicResponseAggregator :=
  check? refuse_if (aa_terminal a);
  match event with
  | EvCreated response_id => aa_created response_id a
  | EvOutputTextDelta item_id delta => aa_append_text item_id delta a
  | EvReasoningDelta item_id delta => aa_append_reasoning item_id delta a
  | EvToolCallDelta item_id call_id name delta => aa_append_tool item_id call_id name delta a
  | EvUsage usage => aa_set_usage usage a
  | EvCompleted => aa_completed a
  | EvFailed error =>
      Ok (aa_set_terminal (Some (error_value_with_request_id error (ax_request_id (aa_context a)))) a)
  end.

Section Response.
(** [serde_json::from_str]. *)
Context (parse : list Z -> option Value).

Definition aa_content (context : AnthropicEncodeContext) (output : AggregateOutput)
  : result GatewayError Value :=
  match output with
  | AggText _ text => Ok (text_block text)
  | AggReasoning item_id thinking =>
      let? signature := ok_or (at_thinking_signatures (ax_response context) !! item_id)
        unsupported_capability in
      Ok (thinking_block thinking signature)
  | AggTool _ call_id name partial_json =>
      let? input := ok_or (parse (str_bytes partial_json)) invalid_request in
      check? refuse_if (negb (is_object input));
      Ok (tool_block call_id name input)
  end.

Definition aa_response_value (a : AnthropicResponseAggregator) : result GatewayError Value :=
  let? response_id := ok_or (aa_response_id a) invalid_request in
  let? usage := ok_or (aa_usage a) invalid_request in
  let? content := try_map (aa_content (aa_context a)) (aa_outputs a) in
  let t := ax_response (aa_context a) in
  let response : json_map := list_to_map
    [("id"%string, VString response_id); ("type"%string, VString "message");
     ("role"%string, VString "assistant"); ("content"%string, VArray content);
     ("model"%string, VString (ax_model (aa_context a)));
     ("stop_reason"%string, VString (stop_as_str (at_stop_reason t)));
     ("stop_sequence"%string, json_string_option (at_stop_sequence t));
     ("usage"%string, anthropic_usage_value usage)] in
  Ok (of_map (response ∪ at_response_extra t)).

Definition anthropic_encode_with_limits (context : AnthropicEncodeContext) (events : list CanonicalEvent)
  (l : AnthropicLimits) : result GatewayError Value :=
  check? ao_context l context;
  let? a := try_fold aa_transition (aggregator_new context l) events in
  check? refuse_if (negb (aa_terminal a));
  match aa_failed a with
  | Some error => Ok error
  | None => aa_response_value a
  end.

Definition anthropic_encode_response (context : AnthropicEncodeContext) (events : list CanonicalEvent)
  : result GatewayError Value :=
  anthropic_encode_with_limits context events AnthropicLimits_default.
End Response.
End Anthropic.
