(* ===== verification/AnthropicEncodeSpec.v ===== *)
(** * What a Messages client reads

    A reference client reads the wire events alone: blocks start in order, one
    is open at a time, every delta belongs to the open block and to its type.
    The message it assembles is the one the aggregator builds from the same
    events, and it gets to the end exactly when the aggregator accepts them. *)
From S2P Require Import Prelude Sse Json Canonical ChatEncode AnthropicEncode.

(** ** The reference client *)
Record ReadBlock : Set := mkReadBlock {
  rb_start : Value;
  rb_text : string;
  rb_signature : string;
  rb_stopped : bool
}.

Record ReadMessage : Set := mkReadMessage {
  rm_start : option Value;
  rm_blocks : list ReadBlock;
  rm_delta : option Value;
  rm_closed : bool
}.

Definition reader_new : ReadMessage := mkReadMessage None [] None false.

Definition require (b : bool) : option unit := if b then Some tt else None.

Definition open_block (v : ReadMessage) (index : option Value) : option (list ReadBlock * ReadBlock) :=
  block ← list.last (rm_blocks v);
  _ ← require (negb (rb_stopped block) && bool_decide (index = Some (json_uint (zlen (rm_blocks v) - 1))));
  Some (removelast (rm_blocks v), block).

Definition all_stopped (v : ReadMessage) : bool :=
  match list.last (rm_blocks v) with Some block => rb_stopped block | None => true end.

(** A delta joins the open block if its type fits the block's. *)
Definition joined_delta (block : ReadBlock) (delta : Value) : option ReadBlock :=
  kind ← get_str delta "type";
  of_type ← get_str (rb_start block) "type";
  let grow key := text ← get_str delta key;
    Some (mkReadBlock (rb_start block) (rb_text block +:+ text) (rb_signature block) (rb_stopped block)) in
  if String.eqb kind "text_delta" && String.eqb of_type "text" then grow "text"%string
  else if String.eqb kind "thinking_delta" && String.eqb of_type "thinking" then grow "thinking"%string
  else if String.eqb kind "input_json_delta" && String.eqb of_type "tool_use" then grow "partial_json"%string
  else if String.eqb kind "signature_delta" && String.eqb of_type "thinking" then
    signature ← get_str delta "signature";
    Some (mkReadBlock (rb_start block) (rb_text block) (rb_signature block +:+ signature) (rb_stopped block))
  else None.

Definition set_blocks (blocks : list ReadBlock) (v : ReadMessage) : ReadMessage :=
  mkReadMessage (rm_start v) blocks (rm_delta v) (rm_closed v).

Definition reader_event (kind : string) (wire : Value) (v : ReadMessage) : option ReadMessage :=
  let index := value_get wire "index" in
  if String.eqb kind "message_start" then
    message ← value_get wire "message";
    _ ← require (negb (is_someb (rm_start v)));
    Some (mkReadMessage (Some message) (rm_blocks v) (rm_delta v) (rm_closed v))
  else if String.eqb kind "content_block_start" then
    block ← value_get wire "content_block";
    _ ← require (is_someb (rm_start v) && negb (is_someb (rm_delta v)) && all_stopped v
                 && bool_decide (index = Some (json_uint (zlen (rm_blocks v)))));
    Some (set_blocks (rm_blocks v ++ [mkReadBlock block "" "" false]) v)
  else if String.eqb kind "content_block_delta" then
    delta ← value_get wire "delta";
    '(before, block) ← open_block v index;
    block ← joined_delta block delta;
    Some (set_blocks (before ++ [block]) v)
  else if String.eqb kind "content_block_stop" then
    '(before, block) ← open_block v index;
    Some (set_blocks (before ++ [mkReadBlock (rb_start block) (rb_text block) (rb_signature block) true]) v)
  else if String.eqb kind "message_delta" then
    delta ← value_get wire "delta";
    _ ← require (is_someb (rm_start v) && negb (is_someb (rm_delta v)) && all_stopped v);
    Some (mkReadMessage (rm_start v) (rm_blocks v) (Some delta) (rm_closed v))
  else if String.eqb kind "message_stop" then
    _ ← require (is_someb (rm_delta v) && all_stopped v);
    Some (mkReadMessage (rm_start v) (rm_blocks v) (rm_delta v) true)
  else if String.eqb kind "error" then
    Some (mkReadMessage (rm_start v) (rm_blocks v) (rm_delta v) true)
  else None.

Definition reader_step (v : ReadMessage) (wire : string * Value) : option ReadMessage :=
  _ ← require (negb (rm_closed v) && bool_decide (get_str wire.2 "type" = Some wire.1));
  reader_event wire.1 wire.2 v.

Fixpoint reader_run (v : ReadMessage) (wires : list (string * Value)) : option ReadMessage :=
  match wires with
  | [] => Some v
  | wire :: wires => v ← reader_step v wire; reader_run v wires
  end.

Lemma reader_run_app v ws ws' : reader_run v (ws ++ ws') = reader_run v ws ≫= fun v => reader_run v ws'.
Proof.
  revert v. induction ws as [|w ws IH]; intros v; cbn [reader_run app]; [done|].
  destruct (reader_step v w); cbn [mbind option_bind]; [apply IH|done].
Qed.

(** The block a client makes of what it read. *)
Definition finished_block (parse : list Z -> option Value) (block : ReadBlock) : option Value :=
  of_type ← get_str (rb_start block) "type";
  if String.eqb of_type "text" then Some (text_block (rb_text block))
  else if String.eqb of_type "thinking" then Some (thinking_block (rb_text block) (rb_signature block))
  else if String.eqb of_type "tool_use" then
    id ← get_str (rb_start block) "id";
    name ← get_str (rb_start block) "name";
    input ← parse (str_bytes (rb_text block));
    _ ← require (is_object input);
    Some (tool_block id name input)
  else None.

(** ** Reading wire events *)
Lemma an_wire_get kind fields key :
  value_get (an_wire kind fields).2 key =
  match assoc key fields with
  | Some v => Some v
  | None => if String.eqb "type" key then Some (VString kind) else None
  end.
Proof.
  unfold an_wire. cbn [snd]. rewrite get_of_map, <- get_json_assoc, get_json_object.
  destruct (list_to_map fields !! key) as [v|] eqn:Hk.
  - by apply lookup_union_Some_l.
  - rewrite lookup_union_r by done.
    destruct (String.eqb_spec "type" key) as [<-|Hne]; [apply lookup_singleton_eq|by apply lookup_singleton_ne].
Qed.

Lemma reader_step_wire v kind fields :
  rm_closed v = false -> assoc "type" fields = None ->
  reader_step v (an_wire kind fields) = reader_event kind (an_wire kind fields).2 v.
Proof.
  intros Hopen Hf. unfold reader_step, get_str. rewrite an_wire_get, Hf, Hopen. cbn [String.eqb Ascii.eqb Bool.eqb].
  cbn [mbind option_bind as_str]. change (an_wire kind fields).1 with kind.
  by rewrite bool_decide_eq_true_2.
Qed.

Section Reads.
Context (v : ReadMessage).
Hypothesis Hopen : rm_closed v = false.

(** The last block, of an open message. *)
Lemma open_block_snoc before block index :
  rm_blocks v = before ++ [block] -> rb_stopped block = false -> index = zlen before ->
  open_block v (Some (json_uint index)) = Some (before, block).
Proof.
  intros Hb Hs ->. unfold open_block. rewrite Hb, last_snoc. cbn [mbind option_bind]. rewrite Hs.
  rewrite bool_decide_eq_true_2; [cbn; by rewrite removelast_last|].
  rewrite zlen_app. do 2 f_equal. change (zlen [block]) with 1. lia.
Qed.

Lemma read_block_start index block :
  is_someb (rm_start v) = true -> rm_delta v = None -> all_stopped v = true -> index = zlen (rm_blocks v) ->
  reader_step v (block_start index block) =
  Some (set_blocks (rm_blocks v ++ [mkReadBlock block "" "" false]) v).
Proof using Hopen.
  intros Hs Hd Ha ->. unfold block_start. rewrite reader_step_wire by done. unfold reader_event.
  rewrite !an_wire_get. cbn [assoc String.eqb Ascii.eqb Bool.eqb mbind option_bind].
  rewrite Hs, Hd, Ha. cbn [is_someb negb andb]. by rewrite bool_decide_eq_true_2.
Qed.

Lemma read_block_delta before block index kind key delta block' :
  rm_blocks v = before ++ [block] -> rb_stopped block = false -> index = zlen before ->
  joined_delta block (json_object [("type"%string, VString kind); (key, VString delta)]) = Some block' ->
  reader_step v (block_delta index kind key delta) = Some (set_blocks (before ++ [block']) v).
Proof using Hopen.
  intros Hb Hs Hi Hj. unfold block_delta. rewrite reader_step_wire by done. unfold reader_event.
  rewrite !an_wire_get. cbn [assoc String.eqb Ascii.eqb Bool.eqb mbind option_bind].
  rewrite (open_block_snoc _ _ _ Hb Hs Hi). cbn [mbind option_bind]. by rewrite Hj.
Qed.

Lemma read_block_stop before block index :
  rm_blocks v = before ++ [block] -> rb_stopped block = false -> index = zlen before ->
  reader_step v (block_stop index) =
  Some (set_blocks (before ++ [mkReadBlock (rb_start block) (rb_text block) (rb_signature block) true]) v).
Proof using Hopen.
  intros Hb Hs Hi. unfold block_stop. rewrite reader_step_wire by done. unfold reader_event.
  rewrite !an_wire_get. cbn [assoc String.eqb Ascii.eqb Bool.eqb mbind option_bind].
  by rewrite (open_block_snoc _ _ _ Hb Hs Hi).
Qed.
End Reads.

(** ** The three states side by side *)
Section Spec.
Context (to_vec : Value -> list Z) (parse : list Z -> option Value).
Context (context : AnthropicEncodeContext) (l : AnthropicLimits).

Definition signature_for (item_id : string) : string :=
  default ""%string (at_thinking_signatures (ax_response context) !! item_id).

(** An output as the client holds it; a signature comes when the block stops. *)
Definition block_of (stopped : bool) (out : AggregateOutput) : ReadBlock :=
  match out with
  | AggText _ text => mkReadBlock (text_block "") text "" stopped
  | AggReasoning item_id thinking =>
      mkReadBlock (thinking_block "" "") thinking (if stopped then signature_for item_id else "") stopped
  | AggTool _ call_id name partial_json =>
      mkReadBlock (tool_block call_id name (json_object [])) partial_json "" stopped
  end.

Definition active_of (index : Z) (out : AggregateOutput) : ActiveBlock :=
  match out with
  | AggText item_id _ => ActiveText item_id index
  | AggReasoning item_id _ => ActiveReasoning item_id index
  | AggTool item_id call_id name _ => ActiveTool item_id call_id name index
  end.

Definition active_at (outs : list AggregateOutput) : option ActiveBlock :=
  active_of (zlen outs - 1) <$> list.last outs.

Definition blocks_open (outs : list AggregateOutput) : list ReadBlock :=
  match list.last outs with
  | Some out => (block_of true <$> removelast outs) ++ [block_of false out]
  | None => []
  end.

Definition signed (out : AggregateOutput) : Prop :=
  match out with
  | AggReasoning item_id _ => is_Some (at_thinking_signatures (ax_response context) !! item_id)
  | _ => True
  end.

(** What the client knows of the message itself. *)
Definition start_says (id : string) (message : Value) : Prop :=
  value_get message "id" = Some (VString id) /\ value_get message "model" = Some (VString (ax_model context)) /\
  value_get message "type" = Some (VString "message") /\ value_get message "role" = Some (VString "assistant").

Definition delta_says (delta : Value) : Prop :=
  value_get delta "stop_reason" = Some (VString (stop_as_str (at_stop_reason (ax_response context)))) /\
  value_get delta "stop_sequence" = Some (json_string_option (at_stop_sequence (ax_response context))).

Definition knows {A} (P : A -> Value -> Prop) (o : option A) (v : option Value) : Prop :=
  match o, v with
  | Some a, Some v => P a v
  | None, None => True
  | _, _ => False
  end.

Record sim (c : AnthropicCodec) (a : AnthropicResponseAggregator) (v : ReadMessage) : Prop := {
  s_context : ac_context c = context /\ aa_context a = context;
  s_limits : ac_limits c = l /\ aa_limits a = l;
  s_running : ac_terminal c = false /\ aa_terminal a = false /\ aa_failed a = None;
  s_id : ac_response_id c = aa_response_id a;
  s_usage : ac_usage c = aa_usage a;
  s_seen : ac_seen_items c = aa_seen_items a;
  s_calls : ac_call_ids c = aa_call_ids a;
  s_index : ac_next_index c = zlen (aa_outputs a);
  s_active : ac_active c = if aa_usage a then None else active_at (aa_outputs a);
  s_signed : Forall signed (aa_outputs a);
  s_calls_ok : Forall (fun out => match out with
      | AggTool _ call_id name _ => ao_identifier l call_id = Ok tt /\ ao_identifier l name = Ok tt
      | _ => True end) (aa_outputs a);
  s_none : aa_response_id a = None -> aa_outputs a = [] /\ aa_usage a = None;
  s_blocks : rm_blocks v = if aa_usage a then block_of true <$> aa_outputs a else blocks_open (aa_outputs a);
  s_start : knows start_says (aa_response_id a) (rm_start v);
  s_delta : knows (fun _ => delta_says) (aa_usage a) (rm_delta v);
  s_open : rm_closed v = false
}.

Lemma blocks_open_snoc pre out : blocks_open (pre ++ [out]) = (block_of true <$> pre) ++ [block_of false out].
Proof. unfold blocks_open. by rewrite last_snoc, removelast_last. Qed.

Lemma active_at_snoc pre out : active_at (pre ++ [out]) = Some (active_of (zlen pre) out).
Proof.
  unfold active_at. rewrite last_snoc, zlen_app. cbn [fmap option_fmap option_map].
  change (zlen [out]) with 1. do 2 f_equal. lia.
Qed.

Lemma active_index_of index out : active_index (active_of index out) = index.
Proof. by destruct out. Qed.

Lemma all_stopped_closed v outs : rm_blocks v = block_of true <$> outs -> all_stopped v = true.
Proof.
  intros Hb. unfold all_stopped. rewrite Hb, fmap_last.
  destruct (list.last outs) as [out|]; cbn; [|done]. by destruct out.
Qed.

(** The text of an output, grown by a delta of its kind. *)
Definition grown (out : AggregateOutput) (delta : string) : AggregateOutput :=
  match out with
  | AggText item_id text => AggText item_id (text +:+ delta)
  | AggReasoning item_id text => AggReasoning item_id (text +:+ delta)
  | AggTool item_id call_id name text => AggTool item_id call_id name (text +:+ delta)
  end.

Definition delta_kind (out : AggregateOutput) : string * string :=
  match out with
  | AggText _ _ => ("text_delta", "text")
  | AggReasoning _ _ => ("thinking_delta", "thinking")
  | AggTool _ _ _ _ => ("input_json_delta", "partial_json")
  end.

Lemma joined_grown out delta :
  joined_delta (block_of false out)
    (json_object [("type"%string, VString (delta_kind out).1); ((delta_kind out).2, VString delta)]) =
  Some (block_of false (grown out delta)).
Proof.
  destruct out; unfold joined_delta, get_str, block_of, text_block, thinking_block, tool_block;
    cbn [rb_start delta_kind fst snd]; rewrite !get_json_assoc; reflexivity.
Qed.

Lemma read_grown v pre out delta :
  rm_closed v = false -> rm_blocks v = (block_of true <$> pre) ++ [block_of false out] ->
  reader_step v (block_delta (zlen pre) (delta_kind out).1 (delta_kind out).2 delta) =
  Some (set_blocks ((block_of true <$> pre) ++ [block_of false (grown out delta)]) v).
Proof.
  intros Ho Hb. eapply read_block_delta; [done|exact Hb|by destruct out| |apply joined_grown].
  unfold zlen. by rewrite length_fmap.
Qed.

(** Closing the open block, if there is one. *)
Lemma close_active_reads c a v :
  sim c a v -> aa_usage a = None ->
  exists ws, close_active c = (ac_set_active None c, Ok ws) /\
    reader_run v ws = Some (set_blocks (block_of true <$> aa_outputs a) v).
Proof.
  intros [Hc Hl Hr Hid Hu Hseen Hcalls Hidx Hact Hsig _ _ Hb _ _ Ho] Hnone. rewrite Hnone in *.
  unfold close_active, st_bind, st_get, st_mod, st_lift, st_ret. rewrite Hact.
  destruct (list.last (aa_outputs a)) as [out|] eqn:Hlast;
    [apply last_Some in Hlast as [pre Hp]|apply last_None in Hlast as Hp]; rewrite Hp in *; clear Hp; cycle 1.
  - exists []. cbn [active_at list.last fmap option_fmap option_map]. split.
    + f_equal. destruct c; cbn in *. by subst.
    + cbn. cbn in Hb. f_equal. destruct v; cbn in *. by subst.
  - rewrite active_at_snoc, active_index_of. rewrite blocks_open_snoc in Hb.
    assert (zlen pre = zlen (block_of true <$> pre)) as Hlen by (unfold zlen; by rewrite length_fmap).
    rewrite list.Forall_app, list.Forall_singleton in Hsig. destruct Hsig as [_ Hsig].
    rewrite fmap_app. cbn [fmap list_fmap].
    destruct out as [id text|id text|id call name text]; cbn [active_of].
    + eexists. split; [reflexivity|]. cbn [app reader_run].
      rewrite (read_block_stop v Ho _ _ _ Hb eq_refl Hlen). reflexivity.
    + cbn [signed] in Hsig. destruct Hsig as [signature Hs]. cbn [block_of]. unfold signature_for, signature_of. destruct Hc as [-> _].
      rewrite Hs. cbn [ok_or default].
      eexists. split; [reflexivity|]. cbn [app reader_run].
      rewrite (read_block_delta v Ho _ _ _ _ _ _ (mkReadBlock (thinking_block "" "") text signature false)
                 Hb eq_refl Hlen).
      * cbn [mbind option_bind]. by rewrite (read_block_stop (set_blocks _ v) Ho (block_of true <$> pre)
          (mkReadBlock (thinking_block "" "") text signature false) (zlen pre)).
      * unfold joined_delta, get_str, block_of, thinking_block. cbn [rb_start]. rewrite !get_json_assoc. reflexivity.
    + eexists. split; [reflexivity|]. cbn [app reader_run].
      rewrite (read_block_stop v Ho _ _ _ Hb eq_refl Hlen). reflexivity.
Qed.

(** ** One event *)
(** The codec and the aggregator both refuse, or both accept and the client
    follows. *)
Definition agree (ra : result GatewayError AnthropicResponseAggregator)
  (rc : AnthropicCodec * result GatewayError (list (string * Value))) (v : ReadMessage) : Prop :=
  match ra, rc with
  | Ok a', (c', Ok ws) => exists v', reader_run v ws = Some v' /\ sim c' a' v'
  | Err _, (_, Err _) => True
  | _, _ => False
  end.

Lemma allowed_same c a v : sim c a v -> aa_require_delta_allowed a = ac_require_delta_allowed c.
Proof.
  intros Hs. unfold aa_require_delta_allowed, ac_require_delta_allowed, aa_require_created, ac_require_created.
  by rewrite (s_id _ _ _ Hs), (s_usage _ _ _ Hs).
Qed.

Lemma allowed_Ok c a v u :
  sim c a v -> ac_require_delta_allowed c = Ok u -> is_Some (aa_response_id a) /\ aa_usage a = None.
Proof.
  intros Hs. unfold ac_require_delta_allowed, ac_require_created. rewrite check_Ok. unfold refuse_if.
  rewrite !guard_err_Ok, (s_id _ _ _ Hs), (s_usage _ _ _ Hs).
  destruct (aa_response_id a), (aa_usage a); cbn; intros []; try discriminate. eauto.
Qed.

Lemma register_agree c0 a id :
  ac_limits c0 = aa_limits a -> ac_seen_items c0 = aa_seen_items a ->
  match aa_register_item a id with
  | Ok seen => ac_register_item id c0 = (ac_register id c0, Ok (ac_next_index c0)) /\
               seen = {[id]} ∪ aa_seen_items a
  | Err e => ac_register_item id c0 = (c0, Err e)
  end.
Proof.
  intros Hl Hs. unfold aa_register_item, ac_register_item, st_bind, st_get, st_lift, st_mod, st_ret. rewrite Hl, Hs.
  destruct (ao_identifier (aa_limits a) id); [|done]. cbn [result_bind]. by destruct (refuse_if _).
Qed.

(** A new block and its first delta, for a client with all blocks stopped. *)
Lemma begin_reads v ws outs start out0 delta :
  rm_closed v = false -> is_someb (rm_start v) = true -> rm_delta v = None ->
  reader_run v ws = Some (set_blocks (block_of true <$> outs) v) ->
  block_of false out0 = mkReadBlock start "" "" false ->
  reader_run v ((ws ++ [block_start (zlen outs) start]) ++
    [block_delta (zlen outs) (delta_kind out0).1 (delta_kind out0).2 delta]) =
  Some (set_blocks (blocks_open (outs ++ [grown out0 delta])) v).
Proof.
  intros Ho Hstart Hd Hws Hb. rewrite <- app_assoc, reader_run_app, Hws. cbn [mbind option_bind app reader_run].
  rewrite read_block_start; [|done|done|done| |].
  - cbn [mbind option_bind]. rewrite (read_grown _ outs out0); [|done|cbn [set_blocks rm_blocks]; by rewrite Hb].
    cbn [mbind option_bind]. by rewrite blocks_open_snoc.
  - by apply (all_stopped_closed _ outs).
  - unfold zlen. cbn [set_blocks rm_blocks]. by rewrite length_fmap.
Qed.

Lemma knows_Some {A} (P : A -> Value -> Prop) o v : knows P o v -> is_Some o -> is_someb v = true.
Proof. destruct o, v; cbn; [done|done|by intros _ []..]. Qed.

Lemma knows_None {A} (P : A -> Value -> Prop) v : knows P None v -> v = None.
Proof. by destruct v. Qed.

(** The fields of the three states. *)
Ltac fields3 :=
  cbn [aa_grow aa_context aa_limits aa_terminal aa_failed aa_response_id aa_outputs aa_seen_items aa_call_ids
       aa_aggregate_bytes aa_usage ac_context ac_limits ac_context_validated ac_terminal ac_response_id ac_active
       ac_seen_items ac_call_ids ac_next_index ac_usage ac_set_active ac_register ac_add_call ac_set_response_id
       ac_set_usage ac_set_validated aa_set_terminal ac_set_terminal set_blocks rm_start rm_blocks rm_delta
       rm_closed].

(** The states after a new block. *)
Lemma sim_begun c a v out seen calls delta :
  sim c a v -> aa_usage a = None -> is_Some (aa_response_id a) -> signed out ->
  (match out with
   | AggTool _ call_id name _ => ao_identifier l call_id = Ok tt /\ ao_identifier l name = Ok tt
   | _ => True end) ->
  sim (mkAnthropicCodec (ac_context c) (ac_limits c) (ac_context_validated c) (ac_terminal c) (ac_response_id c)
         (Some (active_of (ac_next_index c) out)) seen calls (ac_next_index c + 1) (ac_usage c))
      (aa_grow (aa_outputs a ++ [out]) seen calls delta a)
      (set_blocks (blocks_open (aa_outputs a ++ [out])) v).
Proof.
  intros [Hc Hl Hr Hid Hu Hseen Hcalls Hidx Hact Hsig Hids Hnone Hb Hst Hd Ho] Hn [id Hi] Hs Hcall.
  split; fields3; try done; rewrite ?Hn.
  - rewrite Hidx, zlen_app. done.
  - by rewrite active_at_snoc, Hidx.
  - apply list.Forall_app. split; [done|by apply list.Forall_singleton].
  - apply list.Forall_app. split; [done|by apply list.Forall_singleton].
  - by rewrite Hi.
  - done.
Qed.

(** The states after a delta of the open block. *)
Lemma grow_reads c a v pre out delta :
  sim c a v -> aa_usage a = None -> is_Some (aa_response_id a) -> aa_outputs a = pre ++ [out] ->
  reader_run v [block_delta (zlen pre) (delta_kind out).1 (delta_kind out).2 delta] =
    Some (set_blocks (blocks_open (pre ++ [grown out delta])) v) /\
  sim c (aa_grow (replace_last (aa_outputs a) (grown out delta)) (aa_seen_items a) (aa_call_ids a)
           (str_len delta) a) (set_blocks (blocks_open (pre ++ [grown out delta])) v).
Proof.
  intros [Hc Hl Hr Hid Hu Hseen Hcalls Hidx Hact Hsig Hids Hnone Hb Hst Hd Ho] Hn [id Hi] Hout.
  rewrite Hn, Hout, blocks_open_snoc in Hb. split.
  - cbn [reader_run]. rewrite (read_grown _ pre out) by done. cbn [mbind option_bind]. by rewrite blocks_open_snoc.
  - unfold replace_last. rewrite Hout, removelast_last.
    rewrite Hout, !list.Forall_app, !list.Forall_singleton in *. rewrite Hn in *.
    split; fields3; try done; rewrite ?Hn.
    + done.
    + by rewrite Hidx, !zlen_app.
    + rewrite Hact, !active_at_snoc. by destruct out.
    + rewrite list.Forall_app, list.Forall_singleton. split; [apply Hsig|]. by destruct out; apply Hsig.
    + rewrite list.Forall_app, list.Forall_singleton. split; [apply Hids|]. by destruct out; apply Hids.
    + by rewrite Hi.
    + done.
    + done.
Qed.

Lemma limits_same c a v : sim c a v -> ac_limits c = aa_limits a.
Proof. intros Hs. destruct (s_limits _ _ _ Hs) as [-> ->]. done. Qed.

(** How the codec starts a block, and the aggregator an output: [call] is the
    call id a tool brings. *)
Definition begin (call : option string) (id : string) (active : Z -> ActiveBlock) (start : Value)
  : st_res AnthropicCodec GatewayError (list (string * Value)) :=
  let! c := st_get in
  let! wires := close_active in
  do! match call with
      | Some call_id => st_lift (refuse_if (bool_decide (call_id ∈ ac_call_ids c)))
      | None => st_ret tt
      end;
  let! index := ac_register_item id in
  do! match call with Some call_id => st_mod (ac_add_call call_id) | None => st_ret tt end;
  do! st_mod (ac_set_active (Some (active index)));
  st_ret (wires ++ [block_start index start]).

Definition begin_output (call : option string) (id : string) (out : AggregateOutput) (delta : Z)
  (a : AnthropicResponseAggregator) : result GatewayError AnthropicResponseAggregator :=
  let? seen_items := aa_register_item a id in
  check? match call with
         | Some call_id => refuse_if (bool_decide (call_id ∈ aa_call_ids a))
         | None => Ok tt
         end;
  Ok (aa_grow (aa_outputs a ++ [out]) seen_items
        (match call with Some call_id => {[call_id]} ∪ aa_call_ids a | None => aa_call_ids a end) delta a).

Definition then_push (k : string * string) (delta : string)
  (r : AnthropicCodec * result GatewayError (list (string * Value)))
  : AnthropicCodec * result GatewayError (list (string * Value)) :=
  match r with (c, Ok ws) => push_delta k.1 k.2 delta ws c | (c, Err e) => (c, Err e) end.

Lemma begin_agrees c a v call id out0 start delta :
  sim c a v -> aa_usage a = None -> is_Some (aa_response_id a) ->
  block_of false out0 = mkReadBlock start "" "" false -> signed (grown out0 delta) ->
  (match out0 with
   | AggTool _ call_id name _ => ao_identifier l call_id = Ok tt /\ ao_identifier l name = Ok tt
   | _ => True end) ->
  agree (begin_output call id (grown out0 delta) (str_len delta) a)
    (then_push (delta_kind out0) delta (begin call id (fun n => active_of n out0) start c)) v.
Proof.
  intros Hs Hnone Hid Hb Hsig Hcall.
  destruct (close_active_reads _ _ _ Hs Hnone) as (ws & Hclose & Hws).
  unfold begin, begin_output, st_bind, st_get. rewrite Hclose, (s_calls _ _ _ Hs).
  pose proof (register_agree (ac_set_active None c) a id (limits_same _ _ _ Hs) (s_seen _ _ _ Hs)) as Hreg.
  assert (forall calls, exists v', reader_run v ((ws ++ [block_start (zlen (aa_outputs a)) start]) ++
      [block_delta (zlen (aa_outputs a)) (delta_kind out0).1 (delta_kind out0).2 delta]) = Some v' /\
    sim (mkAnthropicCodec (ac_context c) (ac_limits c) (ac_context_validated c) (ac_terminal c) (ac_response_id c)
           (Some (active_of (ac_next_index c) out0)) ({[id]} ∪ aa_seen_items a) calls (ac_next_index c + 1)
           (ac_usage c))
        (aa_grow (aa_outputs a ++ [grown out0 delta]) ({[id]} ∪ aa_seen_items a) calls (str_len delta) a) v')
    as Hgo.
  { intros calls. eexists. split.
    - apply begin_reads; [apply Hs| | |done|done].
      + by eapply knows_Some; [apply Hs|].
      + eapply knows_None. rewrite <- Hnone. apply Hs.
    - replace (active_of (ac_next_index c) out0) with (active_of (ac_next_index c) (grown out0 delta))
        by (by destruct out0).
      apply sim_begun; [done..|]. by destruct out0. }
  pose proof (s_seen _ _ _ Hs) as Hseen. pose proof (s_calls _ _ _ Hs) as Hcalls. pose proof (s_index _ _ _ Hs) as Hidx.
  destruct call as [call_id|].
  - unfold st_lift, st_ret. destruct (bool_decide (call_id ∈ aa_call_ids a)); cbn [refuse_if guard_err].
    + destruct (aa_register_item a id); [done|done].
    + destruct (aa_register_item a id) as [seen|e]; cbn [result_bind]; [|by rewrite Hreg].
      destruct Hreg as [-> ->]. unfold st_mod, then_push, push_delta, st_bind, st_get, st_ret. fields3.
      rewrite active_index_of. destruct (Hgo ({[call_id]} ∪ aa_call_ids a)) as (v' & Hr & Hsim).
      exists v'. split; [by rewrite Hidx|]. unfold ac_set_active, ac_add_call, ac_register. fields3.
      by rewrite Hseen, Hcalls.
  - unfold st_ret. destruct (aa_register_item a id) as [seen|e]; cbn [result_bind]; [|by rewrite Hreg].
    destruct Hreg as [-> ->]. unfold st_mod, then_push, push_delta, st_bind, st_get, st_ret. fields3.
    rewrite active_index_of. destruct (Hgo (aa_call_ids a)) as (v' & Hr & Hsim).
    exists v'. split; [by rewrite Hidx|]. unfold ac_set_active, ac_register. fields3. by rewrite Hseen, Hcalls.
Qed.

Lemma start_text_begin id c : start_text id c = begin None id (ActiveText id) (text_block "") c.
Proof.
  unfold start_text, begin, st_bind, st_get, st_ret. destruct (close_active c) as [c1 [ws|e]]; [|done].
  by destruct (ac_register_item id c1) as [c2 [n|e]].
Qed.

Lemma start_reasoning_begin id signature c :
  signature_of c id = Some signature -> ao_opaque_payload (ac_limits c) signature = Ok tt ->
  start_reasoning id c = begin None id (ActiveReasoning id) (thinking_block "" "") c.
Proof.
  intros Hs Ho. unfold start_reasoning, begin, st_bind, st_get, st_ret, st_lift. rewrite Hs. cbn [ok_or]. rewrite Ho.
  destruct (close_active c) as [c1 [ws|e]]; [|done]. by destruct (ac_register_item id c1) as [c2 [n|e]].
Qed.

Lemma start_tool_begin id call name c :
  ao_identifier (ac_limits c) call = Ok tt -> ao_identifier (ac_limits c) name = Ok tt ->
  start_tool id call name c = begin (Some call) id (ActiveTool id call name) (tool_block call name (json_object [])) c.
Proof.
  intros Hcall Hname. unfold start_tool, begin, st_bind, st_get, st_ret, st_lift. rewrite Hcall, Hname.
  destruct (close_active c) as [c1 [ws|e]]; [|done]. destruct (refuse_if _); [|done].
  by destruct (ac_register_item id c1) as [c2 [n|e]].
Qed.

(** A delta for the open block. *)
Lemma grow_agrees c a v pre out delta :
  sim c a v -> aa_usage a = None -> is_Some (aa_response_id a) -> aa_outputs a = pre ++ [out] ->
  agree (Ok (aa_grow (replace_last (aa_outputs a) (grown out delta)) (aa_seen_items a) (aa_call_ids a)
               (str_len delta) a))
    (then_push (delta_kind out) delta (c, Ok [])) v.
Proof.
  intros Hs Hnone Hid Hout. destruct (grow_reads _ _ _ _ _ delta Hs Hnone Hid Hout) as [Hr Hsim].
  unfold then_push, push_delta, st_bind, st_get, st_ret. rewrite (s_active _ _ _ Hs), Hnone, Hout, active_at_snoc.
  rewrite active_index_of. eexists. split; [exact Hr|]. by rewrite Hout in Hsim.
Qed.


(** Both sides check that a delta is allowed and fits, then look at the item. *)
Lemma delta_agrees c a v delta k (op : st_res AnthropicCodec GatewayError (list (string * Value)))
  (rest : result GatewayError AnthropicResponseAggregator) :
  sim c a v -> ao_value to_vec l (VString delta) = Ok tt -> ensure_payload_capacity a (str_len delta) = Ok tt ->
  (aa_usage a = None -> is_Some (aa_response_id a) -> agree rest (then_push k delta (op c)) v) ->
  agree (check? aa_require_delta_allowed a; check? ensure_payload_capacity a (str_len delta); rest)
    ((let! c := st_get in
      do! st_lift (ac_require_delta_allowed c);
      do! st_lift (ao_value to_vec (ac_limits c) (VString delta));
      let! wires := op in
      push_delta k.1 k.2 delta wires) c) v.
Proof.
  intros Hs Hval Hcap Hrest. rewrite (allowed_same _ _ _ Hs), Hcap. unfold st_bind, st_get, st_lift.
  destruct (ac_require_delta_allowed c) as [u|e] eqn:Hreq; [|done]. cbn [result_bind].
  destruct (allowed_Ok _ _ _ _ Hs Hreq) as [Hid Hnone]. rewrite (proj1 (s_limits _ _ _ Hs)), Hval.
  specialize (Hrest Hnone Hid). unfold then_push in Hrest. by destruct (op c) as [c1 [ws|e]].
Qed.

(** The last output and the open block. *)
Lemma last_cases c a v :
  sim c a v -> aa_usage a = None ->
  (list.last (aa_outputs a) = None /\ ac_active c = None) \/
  exists pre out, aa_outputs a = pre ++ [out] /\ list.last (aa_outputs a) = Some out /\
    ac_active c = Some (active_of (zlen pre) out).
Proof.
  intros Hs Hnone. pose proof (s_active _ _ _ Hs) as Hact. rewrite Hnone in Hact.
  destruct (list.last (aa_outputs a)) as [out|] eqn:Hlast.
  - pose proof Hlast as Hl. apply last_Some in Hl as [pre Hp]. right. exists pre, out.
    split_and!; [done|done|]. by rewrite Hact, Hp, active_at_snoc.
  - left. split; [done|]. apply last_None in Hlast as Hp. by rewrite Hact, Hp.
Qed.

Lemma agree_text c a v id delta :
  sim c a v -> ao_value to_vec l (VString delta) = Ok tt -> ensure_payload_capacity a (str_len delta) = Ok tt ->
  agree (aa_append_text id delta a) (ac_text_delta to_vec id delta c) v.
Proof.
  intros Hs Hval Hcap. apply (delta_agrees c a v delta ("text_delta", "text")%string (activate_text id)); [done..|].
  intros Hnone Hid.
  pose proof (begin_agrees c a v None id (AggText id "") _ delta Hs Hnone Hid eq_refl I I) as Hbegin.
  cbn [delta_kind grown] in Hbegin. change (fun n => active_of n (AggText id "")) with (ActiveText id) in Hbegin.
  rewrite <- start_text_begin in Hbegin.
  unfold activate_text, st_bind, st_get.
  destruct (last_cases _ _ _ Hs Hnone) as [[Hlast ->]|(pre & out & Hp & Hlast & ->)].
  - by rewrite Hlast.
  - rewrite Hlast. destruct out as [active text| |]; cbn [active_of]; [|done|done].
    case_bool_decide as Heq; [|done]. subst active.
    apply (grow_agrees _ _ _ pre (AggText id text) delta Hs Hnone Hid Hp).
Qed.

Lemma signature_checked : ao_context to_vec l context = Ok tt ->
  forall id signature, at_thinking_signatures (ax_response context) !! id = Some signature ->
  ao_opaque_payload l signature = Ok tt.
Proof.
  unfold ao_context. rewrite !check_Ok, try_fold_unit. intros (_ & _ & _ & _ & _ & _ & H) id signature Hs.
  rewrite list.Forall_forall in H. apply elem_of_btree_iter in Hs. specialize (H _ Hs). cbn [fst snd] in H.
  by apply check_Ok in H as [_ H].
Qed.

Lemma agree_reasoning c a v id delta :
  ao_context to_vec l context = Ok tt ->
  sim c a v -> ao_value to_vec l (VString delta) = Ok tt -> ensure_payload_capacity a (str_len delta) = Ok tt ->
  agree (aa_append_reasoning id delta a) (ac_reasoning_delta to_vec id delta c) v.
Proof.
  intros Hctx Hs Hval Hcap.
  apply (delta_agrees c a v delta ("thinking_delta", "thinking")%string (activate_reasoning id)); [done..|].
  intros Hnone Hid. destruct (s_context _ _ _ Hs) as [Hcc Hca]. rewrite Hca.
  destruct (at_thinking_signatures (ax_response context) !! id) as [signature|] eqn:Hsig; cbn [is_someb negb guard_err result_bind].
  - pose proof (begin_agrees c a v None id (AggReasoning id "") _ delta Hs Hnone Hid eq_refl) as Hbegin.
    cbn [delta_kind grown signed] in Hbegin. specialize (Hbegin (ex_intro _ _ Hsig) I).
    change (fun n => active_of n (AggReasoning id "")) with (ActiveReasoning id) in Hbegin.
    rewrite <- (start_reasoning_begin id signature) in Hbegin.
    2: { unfold signature_of. by rewrite Hcc. }
    2: { rewrite (proj1 (s_limits _ _ _ Hs)). by apply (signature_checked Hctx id). }
    unfold activate_reasoning, st_bind, st_get.
    destruct (last_cases _ _ _ Hs Hnone) as [[Hlast ->]|(pre & out & Hp & Hlast & ->)].
    + by rewrite Hlast.
    + rewrite Hlast. destruct out as [|active text|]; cbn [active_of]; [done| |done].
      case_bool_decide as Heq; [|done]. subst active.
      apply (grow_agrees _ _ _ pre (AggReasoning id text) delta Hs Hnone Hid Hp).
  - unfold activate_reasoning, st_bind, st_get.
    assert (then_push ("thinking_delta", "thinking")%string delta (start_reasoning id c) = (c, Err unsupported_capability))
      as Hstart.
    { unfold start_reasoning, st_bind, st_get, st_lift, signature_of. by rewrite Hcc, Hsig. }
    destruct (last_cases _ _ _ Hs Hnone) as [[Hlast ->]|(pre & out & Hp & Hlast & ->)]; [by rewrite Hstart|].
    destruct out as [|active text|]; cbn [active_of]; [by rewrite Hstart| |by rewrite Hstart].
    case_bool_decide as Heq; [|by rewrite Hstart]. subst active. exfalso.
    pose proof (s_signed _ _ _ Hs) as Hall. rewrite Hp, list.Forall_app, list.Forall_singleton in Hall.
    destruct Hall as [_ [? Hall]]. congruence.
Qed.

Lemma agree_tool c a v id call name delta :
  sim c a v -> ao_value to_vec l (VString delta) = Ok tt -> ensure_payload_capacity a (str_len delta) = Ok tt ->
  agree (aa_append_tool id call name delta a) (ac_tool_delta to_vec id call name delta c) v.
Proof.
  intros Hs Hval Hcap.
  apply (delta_agrees c a v delta ("input_json_delta", "partial_json")%string (activate_tool id call name)); [done..|].
  intros Hnone Hid. destruct (s_limits _ _ _ Hs) as [Hlc Hla]. rewrite Hla.
  assert (forall e, (let? _ := ao_identifier l call in ao_identifier l name) = Err e ->
    exists e', then_push ("input_json_delta", "partial_json")%string delta (start_tool id call name c) = (c, Err e')) as Hbad.
  { intros e. unfold start_tool, st_bind, st_get, st_lift. rewrite Hlc.
    destruct (ao_identifier l call); cbn [result_bind]; [|eauto]. destruct (ao_identifier l name); [done|eauto]. }
  unfold activate_tool, st_bind, st_get.
  destruct (ao_identifier l call) as [[]|e] eqn:Hcall; cbn [result_bind] in *.
  destruct (ao_identifier l name) as [[]|e] eqn:Hname; cbn [result_bind] in *.
  { pose proof (begin_agrees c a v (Some call) id (AggTool id call name "") _ delta Hs Hnone Hid eq_refl I
                  (conj Hcall Hname)) as Hbegin.
    cbn [delta_kind grown] in Hbegin.
    change (fun n => active_of n (AggTool id call name "")) with (ActiveTool id call name) in Hbegin.
    rewrite <- start_tool_begin in Hbegin; [|by rewrite Hlc..].
    destruct (last_cases _ _ _ Hs Hnone) as [[Hlast ->]|(pre & out & Hp & Hlast & ->)].
    + by rewrite Hlast.
    + rewrite Hlast. destruct out as [| |active acall aname text]; cbn [active_of]; [done|done|].
      destruct (bool_decide (active = id) && bool_decide (acall = call) && bool_decide (aname = name)) eqn:Heq; [|done].
      rewrite !andb_true_iff, !bool_decide_eq_true in Heq. destruct Heq as [[-> ->] ->].
      apply (grow_agrees _ _ _ pre (AggTool id call name text) delta Hs Hnone Hid Hp). }
  all: destruct (Hbad _ eq_refl) as [e' Hstart];
    destruct (last_cases _ _ _ Hs Hnone) as [[Hlast ->]|(pre & out & Hp & Hlast & ->)]; [by rewrite Hstart|];
    destruct out as [| |active acall aname text]; cbn [active_of]; [by rewrite Hstart..|];
    destruct (bool_decide (active = id) && bool_decide (acall = call) && bool_decide (aname = name)) eqn:Heq;
    [|by rewrite Hstart]; exfalso;
    rewrite !andb_true_iff, !bool_decide_eq_true in Heq; destruct Heq as [[-> ->] ->];
    pose proof (s_calls_ok _ _ _ Hs) as Hall; rewrite Hp, list.Forall_app, list.Forall_singleton in Hall;
    destruct Hall as [_ [? Hall]]; congruence.
Qed.

(** A field the template's extras cannot replace. *)
Lemma get_base fields extra key value :
  assoc key fields = Some value -> value_get (of_map (list_to_map fields ∪ extra)) key = Some value.
Proof.
  intros H. rewrite get_of_map. apply lookup_union_Some_l. by rewrite <- get_json_object, get_json_assoc.
Qed.

Lemma agree_created c a v id : sim c a v -> agree (aa_created id a) (ac_created id c) v.
Proof.
  intros Hs. pose proof Hs as [Hc Hl Hr Hid Hu Hseen Hcalls Hidx Hact Hsig Hids Hnone Hb Hst Hd Ho].
  unfold aa_created, ac_created, st_bind, st_get, st_lift, st_mod, st_ret, st_err. rewrite Hid.
  destruct (aa_response_id a) as [old|] eqn:Hold; [done|]. destruct (Hnone eq_refl) as [Houts Husage].
  rewrite (limits_same _ _ _ Hs). cbn [is_someb refuse_if guard_err result_bind].
  destruct (ao_identifier (aa_limits a) id); [|done]. cbn [result_bind agree].
  cbn [knows] in Hst. destruct (rm_start v) eqn:Hstart; [done|]. eexists. split.
  - cbn [reader_run]. rewrite reader_step_wire by done. unfold reader_event. rewrite !an_wire_get.
    cbn [assoc String.eqb Ascii.eqb Bool.eqb mbind option_bind]. rewrite Hstart.
    cbn [is_someb negb require mbind option_bind]. reflexivity.
  - split; fields3; try done. destruct Hc as [-> _]. cbn [knows].
    split_and!; by apply get_base.
Qed.

Lemma agree_usage c a v u : sim c a v -> agree (aa_set_usage to_vec u a) (ac_record_usage to_vec u c) v.
Proof.
  intros Hs. pose proof Hs as [Hc Hl Hr Hid Hu Hseen Hcalls Hidx Hact Hsig Hids Hnone Hb Hst Hd Ho].
  unfold aa_set_usage, ac_record_usage, aa_require_created, ac_require_created.
  unfold st_bind at 1, st_get at 1. rewrite Hid, Hu, (limits_same _ _ _ Hs).
  unfold st_bind at 1, st_lift at 1. destruct (aa_response_id a) as [id|] eqn:Hold; [|done].
  cbn [is_someb negb refuse_if guard_err result_bind].
  destruct (aa_usage a) eqn:Husage; [done|]. cbn [is_someb guard_err result_bind].
  unfold st_bind at 1, st_lift at 1. destruct (ao_value to_vec (aa_limits a) _); [|done]. cbn [result_bind agree].
  destruct (close_active_reads _ _ _ Hs Husage) as (ws & Hclose & Hws).
  unfold st_bind, st_mod, st_ret. rewrite Hclose. cbn [agree knows] in Hst, Hd |- *.
  destruct (rm_start v) as [message|] eqn:Hstart; [|done]. destruct (rm_delta v) eqn:Hdelta; [done|]. eexists. split.
  - rewrite reader_run_app, Hws. cbn [mbind option_bind reader_run]. rewrite reader_step_wire by done.
    unfold reader_event. rewrite !an_wire_get. cbn [assoc String.eqb Ascii.eqb Bool.eqb mbind option_bind].
    cbn [set_blocks rm_start rm_delta].
    rewrite (all_stopped_closed _ (aa_outputs a)), Hstart, Hdelta by done.
    cbn [is_someb negb andb require mbind option_bind]. reflexivity.
  - split; fields3; try done; try by rewrite Hold. cbn [knows]. destruct Hc as [-> _].
    unfold delta_says. by rewrite !get_json_assoc.
Qed.

(** ** The end of the message *)
Record whole (a : AnthropicResponseAggregator) (v : ReadMessage) : Prop := {
  w_context : aa_context a = context;
  w_terminal : aa_terminal a = true /\ aa_failed a = None;
  w_id : exists id message, aa_response_id a = Some id /\ rm_start v = Some message /\ start_says id message;
  w_usage : exists u delta, aa_usage a = Some u /\ rm_delta v = Some delta /\ delta_says delta;
  w_signed : Forall signed (aa_outputs a);
  w_blocks : rm_blocks v = block_of true <$> aa_outputs a;
  w_closed : rm_closed v = true
}.

Lemma completed_agrees c a v :
  sim c a v ->
  match ac_completed c with
  | (_, Ok ws) => exists a' v', reader_run v ws = Some v' /\ whole a' v' /\
      aa_completed a = (if is_emptyb (aa_outputs a') then Err invalid_request else Ok a')
  | (_, Err _) => exists e, aa_completed a = Err e
  end.
Proof.
  intros Hs. pose proof Hs as [Hc Hl Hr Hid Hu Hseen Hcalls Hidx Hact Hsig Hids Hnone Hb Hst Hd Ho].
  unfold ac_completed, aa_completed, aa_require_created, ac_require_created, st_bind, st_get, st_lift, st_mod, st_ret.
  rewrite Hid, Hu, Hact. destruct (aa_response_id a) as [id|] eqn:Hi; [|by eexists].
  destruct (aa_usage a) as [u|] eqn:Hus; [|by eexists]. cbn [is_someb negb orb refuse_if guard_err result_bind].
  cbn [knows] in Hst, Hd. destruct (rm_start v) as [message|] eqn:Hstart; [|done].
  destruct (rm_delta v) as [delta|] eqn:Hdelta; [|done].
  exists (aa_set_terminal (aa_failed a) a). eexists. split.
  - cbn [reader_run]. rewrite reader_step_wire by done. unfold reader_event. rewrite !an_wire_get.
    cbn [assoc String.eqb Ascii.eqb Bool.eqb mbind option_bind]. rewrite Hdelta, (all_stopped_closed _ (aa_outputs a)) by done.
    cbn [is_someb andb require mbind option_bind]. reflexivity.
  - split.
    + split; fields3; try done.
      * apply Hc.
      * split; [done|apply Hr].
      * exists id, message. by rewrite Hstart.
      * exists u, delta. done.
    + cbn [aa_outputs aa_set_terminal]. by destruct (aa_outputs a).
Qed.

(** ** A list of events *)
Definition event_payload (event : CanonicalEvent) : Z :=
  match event with
  | EvOutputTextDelta _ delta | EvReasoningDelta _ delta | EvToolCallDelta _ _ _ delta => str_len delta
  | _ => 0
  end.

Definition payload (events : list CanonicalEvent) : Z := foldr (fun event n => event_payload event + n) 0 events.

(** Each delta is within the limit of a single value. *)
Definition delta_fits (event : CanonicalEvent) : Prop :=
  match event with
  | EvOutputTextDelta _ delta | EvReasoningDelta _ delta | EvToolCallDelta _ _ _ delta =>
      ao_value to_vec l (VString delta) = Ok tt
  | _ => True
  end.

Definition messages_next (wires : list (string * Value)) (event : CanonicalEvent)
  : st_res AnthropicCodec GatewayError (list (string * Value)) :=
  let! more := anthropic_event_wires to_vec event in st_ret (wires ++ more).

Lemma payload_nonneg events : 0 <= payload events.
Proof.
  induction events as [|event events IH]; cbn [payload foldr]; [done|].
  assert (0 <= event_payload event) by (destruct event; cbn; try apply str_len_nonneg; done).
  unfold payload in IH. lia.
Qed.

Lemma sim_validated c a v : sim c a v -> sim (ac_set_validated c) a v.
Proof. intros []. by split. Qed.

(** The events that do not end the message. *)
Definition goes_on (event : CanonicalEvent) : bool :=
  match event with EvCompleted | EvFailed _ => false | _ => true end.

Hypothesis Hctx : ao_context to_vec l context = Ok tt.
Hypothesis Hmax : ao_max_aggregate_bytes l <= u64_max.

(** After the checks every event starts with, the codec handles it in a state
    that is still the aggregator's. *)
Lemma event_wires_checked event c a v :
  sim c a v -> exists c1, sim c1 a v /\
  anthropic_event_wires to_vec event c =
    match event with
    | EvCreated response_id => ac_created response_id
    | EvOutputTextDelta item_id delta => ac_text_delta to_vec item_id delta
    | EvReasoningDelta item_id delta => ac_reasoning_delta to_vec item_id delta
    | EvToolCallDelta item_id call_id name delta => ac_tool_delta to_vec item_id call_id name delta
    | EvUsage usage => ac_record_usage to_vec usage
    | EvCompleted => ac_completed
    | EvFailed error => ac_failed error
    end c1.
Proof using Hctx.
  intros Hs. unfold anthropic_event_wires, ac_validate_context_once, st_bind, st_get, st_ret, st_lift, st_mod.
  rewrite (proj1 (s_running _ _ _ Hs)). destruct (ac_context_validated c); [by exists c|].
  rewrite (proj1 (s_limits _ _ _ Hs)), (proj1 (s_context _ _ _ Hs)), Hctx. exists (ac_set_validated c).
  split; [by apply sim_validated|done].
Qed.

Lemma capacity_Ok c a v n :
  sim c a v -> 0 <= aa_aggregate_bytes a -> 0 <= n -> aa_aggregate_bytes a + n <= ao_max_aggregate_bytes l ->
  ensure_payload_capacity a n = Ok tt.
Proof using Hmax.
  intros Hs Ha Hn Hle. unfold ensure_payload_capacity, refuse_if. apply guard_err_Ok, negb_false_iff.
  rewrite (proj2 (s_limits _ _ _ Hs)).
  destruct (checked_add64 (aa_aggregate_bytes a) n) as [total|] eqn:Ht.
  - apply checked_add64_Some in Ht as [-> _]. cbn. by apply Z.leb_le.
  - apply checked_add64_None in Ht. lia.
Qed.

Lemma agree_event c a v event :
  sim c a v -> goes_on event = true -> delta_fits event -> 0 <= aa_aggregate_bytes a ->
  aa_aggregate_bytes a + event_payload event <= ao_max_aggregate_bytes l ->
  agree (aa_transition to_vec a event) (anthropic_event_wires to_vec event c) v.
Proof using Hctx Hmax.
  intros Hs Hgo Hfit Ha Hle. destruct (event_wires_checked event c a v Hs) as (c1 & Hs1 & ->).
  unfold aa_transition. destruct (s_running _ _ _ Hs) as (_ & -> & _). cbn [refuse_if guard_err result_bind].
  destruct event as [id|id delta|id delta|id call name delta|u| |error]; try discriminate; cbn [event_payload delta_fits] in *.
  - by apply agree_created.
  - apply agree_text; [done|done|]. eapply capacity_Ok; [done|done|apply str_len_nonneg|done].
  - apply agree_reasoning; [done|done|done|]. eapply capacity_Ok; [done|done|apply str_len_nonneg|done].
  - apply agree_tool; [done|done|]. eapply capacity_Ok; [done|done|apply str_len_nonneg|done].
  - by apply agree_usage.
Qed.

Lemma transition_payload a event a' :
  aa_transition to_vec a event = Ok a' -> aa_aggregate_bytes a' = aa_aggregate_bytes a + event_payload event.
Proof.
  unfold aa_transition. intros (_ & H)%check_Ok. destruct event; cbn [event_payload] in *; rewrite ?Z.add_0_r.
  all: unfold aa_created, aa_append_text, aa_append_reasoning, aa_append_tool, aa_set_usage, aa_completed in H.
  all: repeat lazymatch type of H with
    | result_bind (A:=unit) _ _ = Ok _ => apply check_Ok in H as [_ H]
    | result_bind _ _ = Ok _ => apply result_bind_Ok in H as (? & _ & H)
    | match ?x with _ => _ end = Ok _ => destruct x
    | Ok _ = Ok _ => injection H as <-
    end; done.
Qed.

(** Nothing follows the end. *)
Lemma terminal_codec c ws rest :
  ac_terminal c = true -> st_fold messages_next ws (rest ++ [EvCompleted]) c = (c, Err invalid_request).
Proof.
  intros Ht. destruct rest; cbn [app st_fold]; unfold messages_next, anthropic_event_wires, st_bind, st_get;
    by rewrite Ht.
Qed.

Lemma terminal_aggregator a rest :
  aa_terminal a = true -> try_fold (aa_transition to_vec) a (rest ++ [EvCompleted]) = Err invalid_request.
Proof. intros Ht. destruct rest; cbn [app try_fold]; unfold aa_transition; by rewrite Ht. Qed.

Lemma completed_terminal c c' ws : ac_completed c = (c', Ok ws) -> ac_terminal c' = true.
Proof.
  unfold ac_completed. intros (? & ? & [= <- <-] & H)%st_bind_Ok. apply st_bind_Ok in H as (? & ? & _ & H).
  apply st_bind_Ok in H as (? & ? & _ & H). by apply st_bind_Ok in H as (? & ? & [= <- <-] & [= <- <-]).
Qed.

Lemma aggregator_completed_terminal a a' : aa_completed a = Ok a' -> aa_terminal a' = true.
Proof. unfold aa_completed. rewrite !check_Ok. by intros (_ & _ & [= <-]). Qed.

Definition both_end (ws0 : list (string * Value)) (v : ReadMessage)
  (rc : AnthropicCodec * result GatewayError (list (string * Value)))
  (ra : result GatewayError AnthropicResponseAggregator) : Prop :=
  match rc with
  | (_, Ok ws) => exists more a' v', ws = ws0 ++ more /\ reader_run v more = Some v' /\ whole a' v' /\
      ra = (if is_emptyb (aa_outputs a') then Err invalid_request else Ok a')
  | (_, Err _) => exists e, ra = Err e
  end.

Lemma fold_agrees events c a v ws0 :
  sim c a v -> Forall delta_fits events -> 0 <= aa_aggregate_bytes a ->
  aa_aggregate_bytes a + payload events <= ao_max_aggregate_bytes l ->
  both_end ws0 v (st_fold messages_next ws0 (events ++ [EvCompleted]) c)
    (try_fold (aa_transition to_vec) a (events ++ [EvCompleted])).
Proof using Hctx Hmax.
  revert c a v ws0. induction events as [|event events IH]; intros c a v ws0 Hs Hfit Ha Hle.
  - cbn [app st_fold try_fold]. unfold messages_next, st_bind, st_ret.
    destruct (event_wires_checked EvCompleted c a v Hs) as (c1 & Hs1 & ->).
    unfold aa_transition. destruct (s_running _ _ _ Hs) as (_ & -> & _). cbn [refuse_if guard_err result_bind].
    pose proof (completed_agrees _ _ _ Hs1) as Hc. destruct (ac_completed c1) as [c2 [ws|e]].
    + destruct Hc as (a' & v' & Hr & Hw & ->). exists ws, a', v'. split_and!; try done.
      by destruct (is_emptyb (aa_outputs a')).
    + destruct Hc as [e' ->]. by exists e'.
  - apply list.Forall_cons in Hfit as [Hf Hfit]. pose proof (payload_nonneg events) as Hpos.
    assert (payload (event :: events) = event_payload event + payload events) as Hpay by done. rewrite Hpay in Hle.
    assert (0 <= event_payload event) by (destruct event; cbn; try apply str_len_nonneg; done).
    cbn [app st_fold try_fold]. unfold st_bind at 1, messages_next at 1. destruct (goes_on event) eqn:Hgo.
    + pose proof (agree_event c a v event Hs Hgo Hf Ha ltac:(lia)) as Hag. unfold st_bind at 1.
      destruct (aa_transition to_vec a event) as [a1|e1] eqn:Ht;
        destruct (anthropic_event_wires to_vec event c) as [c1 [ws|e2]]; try done; cbn [result_bind].
      * destruct Hag as (v1 & Hr1 & Hs1). apply transition_payload in Ht.
        specialize (IH c1 a1 v1 (ws0 ++ ws) Hs1 Hfit ltac:(lia) ltac:(lia)). unfold st_ret.
        unfold both_end in IH |- *. destruct (st_fold messages_next (ws0 ++ ws) _ c1) as [c2 [ws2|e2]]; [|done].
        destruct IH as (more & a' & v' & -> & Hr & Hw & Hra). exists (ws ++ more), a', v'.
        rewrite <- app_assoc. split_and!; [done| |done|done]. by rewrite reader_run_app, Hr1.
      * unfold both_end. by exists e1.
    + destruct (event_wires_checked event c a v Hs) as (c1 & Hs1 & Hw). unfold st_bind at 1. rewrite Hw.
      unfold aa_transition at 1. destruct (s_running _ _ _ Hs) as (_ & -> & _). cbn [refuse_if guard_err result_bind].
      destruct event as [| | | | | |error]; try discriminate.
      * pose proof (completed_agrees _ _ _ Hs1) as Hc. destruct (ac_completed c1) as [c2 [ws|e]] eqn:Hcomp.
        -- apply completed_terminal in Hcomp. unfold st_ret. rewrite terminal_codec by done.
           destruct (aa_completed a) as [a1|e1] eqn:Hac; cbn [result_bind]; [|by exists e1].
           apply aggregator_completed_terminal in Hac. rewrite terminal_aggregator by done. by exists invalid_request.
        -- destruct Hc as [e' ->]. by exists e'.
      * cbn [result_bind]. rewrite terminal_aggregator by done. unfold ac_failed, st_bind, st_mod, st_ret.
        rewrite terminal_codec by done. by exists invalid_request.
Qed.

Lemma finished_output out content :
  signed out -> finished_block parse (block_of true out) = Some content <-> aa_content parse context out = Ok content.
Proof.
  intros Hs. destruct out as [id text|id text|id call name text]; unfold finished_block, get_str, block_of;
    cbn [rb_start rb_text rb_signature aa_content]; unfold text_block, thinking_block, tool_block;
    rewrite !get_json_assoc; cbn [assoc String.eqb Ascii.eqb Bool.eqb mbind option_bind as_str].
  - split; by intros [= <-].
  - destruct Hs as [signature Hs]. unfold signature_for. rewrite Hs. cbn. split; by intros [= <-].
  - destruct (parse (str_bytes text)) as [input|]; cbn [mbind option_bind ok_or result_bind]; [|done].
    destruct (is_object input); cbn; [split; by intros [= <-]|done].
Qed.

Lemma finished_content outs content :
  Forall signed outs ->
  mapM (finished_block parse) (block_of true <$> outs) = Some content <->
  try_map (aa_content parse context) outs = Ok content.
Proof.
  intros Hs. revert content. induction Hs as [|out outs Hout _ IH]; intros content;
    cbn [fmap list_fmap mapM try_map]; [split; by intros [= <-]|].
  rewrite bind_Some, result_bind_Ok. split; intros (value & Hv & Hrest).
  - apply bind_Some in Hrest as (rest & Hr & [= <-]). exists value. split; [by apply finished_output|].
    apply result_bind_Ok. exists rest. split; [by apply IH|done].
  - apply result_bind_Ok in Hrest as (rest & Hr & [= <-]). exists value. split; [by apply finished_output|].
    apply bind_Some. exists rest. split; [by apply IH|done].
Qed.
End Spec.

Section Whole.
Context (to_vec : Value -> list Z) (parse : list Z -> option Value).
Context (context : AnthropicEncodeContext) (l : AnthropicLimits).

Lemma sim_start : sim context l (anthropic_with_limits context l) (aggregator_new context l) reader_new.
Proof. split; done. Qed.

(** A response repeats what the client was told. *)
Definition repeats (response : Value) (view : ReadMessage) (content : list Value) : Prop :=
  value_get response "content" = Some (VArray content) /\
  exists message delta, rm_start view = Some message /\ rm_delta view = Some delta /\
    (forall key, key ∈ ["id"; "type"; "role"; "model"]%string -> value_get response key = value_get message key) /\
    (forall key, key ∈ ["stop_reason"; "stop_sequence"]%string -> value_get response key = value_get delta key).

Lemma response_repeats a v content :
  whole context a v -> try_map (aa_content parse (aa_context a)) (aa_outputs a) = Ok content ->
  exists response, aa_response_value parse a = Ok response /\ repeats response v content.
Proof.
  intros [Hc _ (id & message & Hid & Hm & Hs1 & Hs2 & Hs3 & Hs4) (u & delta & Hu & Hd & Hd1 & Hd2) _ _ _] Hcontent.
  unfold aa_response_value. rewrite Hid, Hu, Hcontent. cbn [ok_or result_bind]. eexists. split; [reflexivity|].
  rewrite Hc. split; [by apply get_base|]. exists message, delta. split_and!; [done|done| |].
  - intros key Hk. repeat (apply elem_of_cons in Hk as [->|Hk]; [rewrite ?Hs1, ?Hs2, ?Hs3, ?Hs4; by apply get_base|]).
    by apply not_elem_of_nil in Hk.
  - intros key Hk. repeat (apply elem_of_cons in Hk as [->|Hk]; [rewrite ?Hd1, ?Hd2; by apply get_base|]).
    by apply not_elem_of_nil in Hk.
Qed.

Lemma context_refused events :
  (forall u, ao_context to_vec l context <> Ok u) ->
  exists c e, st_fold (messages_next to_vec) [] (events ++ [EvCompleted]) (anthropic_with_limits context l) = (c, Err e).
Proof.
  intros Hbad. destruct events as [|event events]; cbn [app st_fold]; unfold messages_next, anthropic_event_wires,
    ac_validate_context_once, st_bind, st_get, st_lift, anthropic_with_limits; cbn [ac_terminal ac_context_validated ac_limits ac_context].
  all: destruct (ao_context to_vec l context) as [u|e]; [by destruct (Hbad u)|]; by eexists _, _.
Qed.

(** C11: A Messages client is told the same with and without streaming.  Take any events whose deltas
    fit the limits, followed by the completion.  If the streaming codec accepts them, a client that
    keeps one block open at a time, checks indices and joins each delta to a block of its type reads
    the stream to its end; the complete encoder accepts the same events exactly when the codec does
    and the blocks that client assembles are a message (there is one, and the arguments of every tool
    call parse to an object); and the message it returns repeats the id, model, blocks and stop
    reason the client was told. *)
Theorem messages_stream_matches_complete (events : list CanonicalEvent) :
  ao_max_aggregate_bytes l <= u64_max -> Forall (delta_fits to_vec l) events ->
  payload events <= ao_max_aggregate_bytes l ->
  let stream := st_fold (messages_next to_vec) [] (events ++ [EvCompleted]) (anthropic_with_limits context l) in
  let complete := anthropic_encode_with_limits to_vec parse context (events ++ [EvCompleted]) l in
  (forall c wires, stream = (c, Ok wires) ->
     exists view, reader_run reader_new wires = Some view /\ rm_closed view = true) /\
  (forall response, complete = Ok response ->
     exists c wires view content, stream = (c, Ok wires) /\ reader_run reader_new wires = Some view /\
       mapM (finished_block parse) (rm_blocks view) = Some content /\ content <> [] /\
       repeats response view content) /\
  (forall c wires view content, stream = (c, Ok wires) -> reader_run reader_new wires = Some view ->
     mapM (finished_block parse) (rm_blocks view) = Some content -> content <> [] ->
     exists response, complete = Ok response).
Proof.
  intros Hmax Hfit Hpay stream complete.
  destruct (ao_context to_vec l context) as [[]|e] eqn:Hctx.
  2: { destruct (context_refused events) as (c & e' & Hs); [by rewrite Hctx|]. subst stream complete.
       unfold anthropic_encode_with_limits. rewrite Hs, Hctx. cbn [result_bind]. naive_solver. }
  pose proof (fold_agrees to_vec context l Hctx Hmax events _ _ _ [] sim_start Hfit ltac:(done) ltac:(done)) as Hend.
  subst complete. unfold anthropic_encode_with_limits. rewrite Hctx. cbn [result_bind]. fold stream in Hend.
  destruct stream as [c [ws|e]]; cbn [both_end] in Hend.
  2: { destruct Hend as [e' ->]. cbn [result_bind]. naive_solver. }
  destruct Hend as (more & a' & v' & Hws & Hrun & Hwhole & ->). cbn [app] in Hws. subst more.
  destruct (w_terminal _ _ _ Hwhole) as [Hterm Hnf]. pose proof (w_context _ _ _ Hwhole) as Hca.
  pose proof (finished_content parse context (aa_outputs a')) as Hfin.
  assert (forall content, mapM (finished_block parse) (rm_blocks v') = Some content <->
    try_map (aa_content parse (aa_context a')) (aa_outputs a') = Ok content) as Hcontent.
  { intros content. rewrite (w_blocks _ _ _ Hwhole), Hca. apply Hfin, Hwhole. }
  split_and!.
  - intros ? ? [= <- <-]. exists v'. split; [done|apply Hwhole].
  - intros response. destruct (is_emptyb (aa_outputs a')) eqn:Hempty; cbn [result_bind]; [discriminate|].
    rewrite Hterm, Hnf. cbn [negb refuse_if guard_err result_bind]. intros Hresp.
    assert (exists content, try_map (aa_content parse (aa_context a')) (aa_outputs a') = Ok content) as [content Hc].
    { unfold aa_response_value in Hresp. apply result_bind_Ok in Hresp as (? & _ & Hresp).
      apply result_bind_Ok in Hresp as (? & _ & Hresp). apply result_bind_Ok in Hresp as (content & Hc & _). eauto. }
    destruct (response_repeats _ _ _ Hwhole Hc) as (response' & Hr & Hrep).
    rewrite Hr in Hresp. injection Hresp as <-. exists c, ws, v', content. split_and!; [done|done|by apply Hcontent| |done].
    intros ->. apply try_map_Ok, Forall2_nil_inv_r in Hc. by rewrite Hc in Hempty.
  - intros ? ? view content [= <- <-] Hview Hm Hne. rewrite Hrun in Hview. injection Hview as <-.
    apply Hcontent in Hm as Hc. destruct (is_emptyb (aa_outputs a')) eqn:Hempty.
    { destruct (aa_outputs a'); [|done]. cbn in Hc. congruence. }
    cbn [result_bind]. rewrite Hterm, Hnf. cbn [negb refuse_if guard_err result_bind].
    destruct (response_repeats _ _ _ Hwhole Hc) as (response & -> & _). by eexists.
Qed.
End Whole.

(** ** A concrete message *)
Definition demo_message_context : AnthropicEncodeContext :=
  mkAnthropicContext "req" "model" (mkUsage 3 0 None None ∅)
    (mkAnthropicTemplate StopToolUse None {["think"%string := "sig"%string]} ∅).

Definition demo_message_events : list CanonicalEvent :=
  [EvCreated "msg"; EvReasoningDelta "think" "hm"; EvOutputTextDelta "text" "he"; EvOutputTextDelta "text" "llo";
   EvToolCallDelta "tool" "call" "lookup" "{}"; EvUsage (mkUsage 3 4 None None ∅)].

Definition demo_parse (bytes : list Z) : option Value := Some (json_object []).

Definition demo_complete : result GatewayError Value :=
  anthropic_encode_with_limits (fun _ => []) demo_parse demo_message_context
    (demo_message_events ++ [EvCompleted]) AnthropicLimits_default.

Lemma messages_stream_matches_complete_witness :
  exists response view content, demo_complete = Ok response /\
    mapM (finished_block demo_parse) (rm_blocks view) = Some content /\ repeats response view content.
Proof.
  destruct demo_complete as [response|e] eqn:Hc; [|exfalso; vm_compute in Hc; discriminate].
  destruct (messages_stream_matches_complete (fun _ => []) demo_parse demo_message_context AnthropicLimits_default
              demo_message_events) as (_ & H & _).
  - vm_compute. discriminate.
  - repeat constructor.
  - vm_compute. discriminate.
  - destruct (H response Hc) as (c & wires & view & content & _ & _ & Hm & _ & Hr).
    exists response, view, content. split_and!; [reflexivity|exact Hm|exact Hr].
Defined.
