(* ===== verification/DataRegistry.v ===== *)
(** * Data-plane protocols and responses

    Models [crates/wokcore-server/src/data_plane/registry.rs], [models.rs] and
    [response.rs], and the bounds and names of [body.rs]: which dialect a path
    speaks, and the HTTP responses the data plane builds.  A response is its
    status, its headers (names in lower case), its body and the observation its
    extensions carry; a body is bytes or, for a type [S], a stream.

    [serde_json] hands its writer one slice after another: [json_slices].  A
    serialised struct is an object with its fields in the order of the struct.
    A [SafeUpstreamRequestId] is the string it holds. *)
From S2P Require Import Prelude Text Json Canonical UpstreamCommon NetAddr Inbound.
From S2P Require Import ChatDecode ResponsesDecode AnthropicDecode InboundCodec.
From S2P Require Import DataPlane Dispatch.

(** ** registry.rs *)
Inductive ClientProtocol : Set :=
| OpenAiResponses | OpenAiChatCompletions | AnthropicMessages | AnthropicCountTokens
| OpenAiModels | OpenAiImageGenerations | OpenAiImageEdits.

#[global] Instance ClientProtocol_eq_dec : EqDecision ClientProtocol.
Proof. solve_decision. Defined.

Inductive RequestBodyKind : Set := BodyNone | BodyJson | BodyMultipartFormData.

#[global] Instance RequestBodyKind_eq_dec : EqDecision RequestBodyKind.
Proof. solve_decision. Defined.

Definition request_body_kind (protocol : ClientProtocol) : RequestBodyKind :=
  match protocol with
  | OpenAiModels => BodyNone
  | OpenAiImageEdits => BodyMultipartFormData
  | OpenAiResponses | OpenAiChatCompletions | AnthropicMessages | AnthropicCountTokens
  | OpenAiImageGenerations => BodyJson
  end.

Definition expects_json_body (protocol : ClientProtocol) : bool :=
  bool_decide (request_body_kind protocol = BodyJson).

Definition is_anthropic (protocol : ClientProtocol) : bool :=
  match protocol with AnthropicMessages | AnthropicCountTokens => true | _ => false end.

Definition inbound_codec (protocol : ClientProtocol) : option InboundCodecV1 :=
  match protocol with
  | OpenAiResponses => Some OpenAiResponsesIn
  | OpenAiChatCompletions => Some OpenAiChatCompletionsIn
  | AnthropicMessages => Some AnthropicMessagesIn
  | AnthropicCountTokens => Some AnthropicCountTokensIn
  | OpenAiModels | OpenAiImageGenerations | OpenAiImageEdits => None
  end.

(** [ProtocolRegistry::resolve]. *)
Definition data_plane_paths : list (string * ClientProtocol) :=
  [("/v1/responses", OpenAiResponses); ("/v1/chat/completions", OpenAiChatCompletions);
   ("/v1/messages", AnthropicMessages); ("/v1/messages/count_tokens", AnthropicCountTokens);
   ("/v1/models", OpenAiModels); ("/v1/images/generations", OpenAiImageGenerations);
   ("/v1/images/edits", OpenAiImageEdits)]%string.

Definition resolve (path : string) : option ClientProtocol :=
  snd <$> List.find (fun entry => String.eqb entry.1 path) data_plane_paths.

Inductive DataPlaneRequestError : Set :=
| UnsupportedProtocol | UnsupportedMediaType | InvalidBody | UnsupportedCapabilityBody.

Definition request_error_code (error : DataPlaneRequestError) : string :=
  match error with
  | UnsupportedProtocol => "unsupported_protocol"
  | UnsupportedMediaType => "unsupported_media_type"
  | InvalidBody => "invalid_body"
  | UnsupportedCapabilityBody => "unsupported_capability"
  end.

(** [str::trim], on the characters. *)
Fixpoint trim_start (l : list Z) : list Z :=
  match l with
  | c :: r => if is_whitespace c then trim_start r else l
  | [] => []
  end.

Definition trim_chars (l : list Z) : list Z := rev (trim_start (rev (trim_start l))).

(** [str::to_ascii_lowercase], on the characters. *)
Definition lower_char (c : Z) : Z := if (65 <=? c) && (c <=? 90) then c + 32 else c.

Definition is_json_content_type (content_type : option string) : bool :=
  is_some_and (fun content_type =>
    let value := lower_char <$> trim_chars (str_chars content_type) in
    bool_decide (value = str_bytes "application/json")
    || bool_decide (value = str_bytes "application/json; charset=utf-8")) content_type.

(** ** models.rs *)
Record DataPlaneRequest : Set := mkDataPlaneRequest {
  dp_protocol : ClientProtocol;
  dp_canonical : CanonicalRequest
}.

Record DataPlaneRequestSummary : Set := mkSummary {
  su_protocol : ClientProtocol;
  su_request_id : string;
  su_model : string;
  su_stream : bool;
  su_input_items : Z;
  su_image_items : Z;
  su_tools : Z;
  su_extension_fields : Z
}.

Definition is_image_item (item : InputItem) : bool :=
  match item with InImageUrl _ _ => true | _ => false end.

Definition request_summary (request : DataPlaneRequest) : DataPlaneRequestSummary :=
  let c := dp_canonical request in
  mkSummary (dp_protocol request) (cr_request_id c) (cr_req_model c) (cr_stream c)
    (zlen (cr_input c)) (zlen (List.filter is_image_item (cr_input c))) (zlen (cr_tools c))
    (Z.of_nat (size (cr_extensions c))).

Section DecodeJson.
Context `{HU : UrlCrate, HT : !UrlText, HB : Base64Crate, HJ : JsonCrate}.
Context `{HC : ChatWire, HR : ResponsesWire, HW : AnthropicWire}.

(** [ProtocolRegistry::decode_json]. *)
Definition decode_json (path request_id : string) (content_type : option string) (body : list Z)
  : result DataPlaneRequestError DataPlaneRequest :=
  let? protocol := ok_or (resolve path) UnsupportedProtocol in
  let? codec := ok_or (inbound_codec protocol) UnsupportedProtocol in
  check? guard_err (negb (is_json_content_type content_type)) UnsupportedMediaType;
  let? canonical := map_err (fun error =>
      if bool_decide (error_code error = "unsupported_capability"%string)
      then UnsupportedCapabilityBody else InvalidBody)
    (inbound_decode codec request_id body InboundLimits_default) in
  Ok (mkDataPlaneRequest protocol canonical).
End DecodeJson.

(** ** response.rs *)
Inductive ResponseBody (S : Type) : Type :=
| BodyBytes (bytes : list Z)
| BodyStream (stream : S).
Arguments BodyBytes {S} _.
Arguments BodyStream {S} _.

Record Response (S : Type) : Type := mkResponse {
  rsp_status : Z;
  rsp_headers : gmap string string;
  rsp_body : ResponseBody S;
  rsp_observation : option RequestObservationContext
}.
Arguments mkResponse {S} _ _ _ _.
Arguments rsp_status {S} _.
Arguments rsp_headers {S} _.
Arguments rsp_body {S} _.
Arguments rsp_observation {S} _.

(** [Response::new]. *)
Definition response_new {S} (body : ResponseBody S) : Response S := mkResponse 200 ∅ body None.

Definition insert_header {S} (name value : string) (r : Response S) : Response S :=
  mkResponse (rsp_status r) (<[name := value]> (rsp_headers r)) (rsp_body r) (rsp_observation r).

Class JsonWriter : Type := json_slices : Value -> list (list Z).

Section Responses.
Context `{JsonWriter} {S : Type}.

Definition json_bytes (value : Value) : list Z := concat (json_slices value).

(** [(status, Json(value)).into_response()]. *)
Definition json_response (status : Z) (value : Value) : Response S :=
  mkResponse status {["content-type"%string := "application/json"%string]} (BodyBytes (json_bytes value)) None.

(** [AnthropicErrorEnvelope] and [OpenAiErrorEnvelope]. *)
Definition error_envelope (protocol : ClientProtocol) (code message request_id : string) : Value :=
  if is_anthropic protocol then
    VObject [("type"%string, VString "error");
             ("error"%string, VObject [("type"%string, VString code); ("message"%string, VString message)]);
             ("request_id"%string, VString request_id)]
  else
    VObject [("error"%string,
      VObject [("type"%string, VString "gateway_error"); ("code"%string, VString code);
               ("message"%string, VString message); ("request_id"%string, VString request_id)])].

Definition public_error_response (status : Z) (code message request_id : string)
  (protocol : ClientProtocol) : Response S :=
  let response := json_response status (error_envelope protocol code message request_id) in
  if status =? 401 then insert_header "www-authenticate" "Bearer" response else response.

(** [HeaderValue::from_str] accepts every byte of a safe request id. *)
Definition attach_upstream_request_id (response : Response S) (upstream_request_id : option string)
  : Response S :=
  match upstream_request_id with
  | Some id => insert_header "x-upstream-request-id" id response
  | None => response
  end.

(** [StatusCode::from_u16] accepts 100 to 999. *)
Definition status_code (status : Z) : option Z :=
  if (100 <=? status) && (status <? 1000) then Some status else None.

Definition gateway_error_response (error : GatewayError) (request_id : string)
  (protocol : ClientProtocol) (upstream_request_id : option string) : Response S :=
  let status := default 500 (status_code (http_status error)) in
  attach_upstream_request_id
    (public_error_response status (error_code error) (public_message error) request_id protocol)
    upstream_request_id.

Record BoundedJsonWriter : Set := mkJsonWriter { jw_bytes : list Z; jw_limit : Z }.

Definition json_write (w : BoundedJsonWriter) (bytes : list Z) : result WriteError BoundedJsonWriter :=
  let? length := ok_or (checked_add64 (zlen (jw_bytes w)) (zlen bytes)) CountOverflow in
  check? guard_err (jw_limit w <? length) CountLimit;
  Ok (mkJsonWriter (jw_bytes w ++ bytes) (jw_limit w)).

Definition bounded_json_response (value : Value) (upstream_request_id : option string)
  : result GatewayError (Response S) :=
  let? encoded := map_err (fun _ => gateway_internal "response encoding")
    (try_fold json_write (mkJsonWriter [] JSON_BODY_LIMIT) (json_slices value)) in
  let response := insert_header "content-type" "application/json"
    (response_new (BodyBytes (jw_bytes encoded))) in
  Ok (attach_upstream_request_id response upstream_request_id).

Definition payload_too_large (request_id : string) (protocol : ClientProtocol) : Response S :=
  public_error_response 413 "payload_too_large" "The request body exceeds the configured limit."
    request_id protocol.

Definition invalid_request_response (request_id : string) (protocol : ClientProtocol) : Response S :=
  public_error_response 400 "invalid_request" "The request is invalid." request_id protocol.

Definition invalid_body (request_id : string) (protocol : ClientProtocol) : Response S :=
  public_error_response 400 "invalid_body" "The request body could not be read." request_id protocol.

(** ** body.rs *)
(** What reading a body gives: its bytes, or the status of the refusal. *)
Definition validated_json_body (body : result Z (list Z)) (request_id : string)
  (protocol : ClientProtocol) : result (Response S) (list Z) :=
  match body with
  | Ok bytes => Ok bytes
  | Err status =>
      Err (if status =? 413 then payload_too_large request_id protocol
           else invalid_body request_id protocol)
  end.

Definition validated_empty_body (body : result Z (list Z)) (request_id : string)
  (protocol : ClientProtocol) : result (Response S) unit :=
  match body with
  | Ok bytes => if is_emptyb bytes then Ok tt else Err (invalid_request_response request_id protocol)
  | Err _ => Err (invalid_body request_id protocol)
  end.
End Responses.

Definition IMAGE_PART_BODY_LIMIT : Z := 20 * 1024 * 1024.
Definition IMAGE_MULTIPART_BODY_LIMIT : Z := 50 * 1024 * 1024.

Definition account_chunk (chunk_bytes field_bytes total_bytes : Z) : bool * (Z * Z) :=
  let field_bytes := sat_add64 field_bytes chunk_bytes in
  let total_bytes := sat_add64 total_bytes chunk_bytes in
  ((field_bytes <=? IMAGE_PART_BODY_LIMIT) && (total_bytes <=? IMAGE_MULTIPART_BODY_LIMIT),
   (field_bytes, total_bytes)).

Definition normalize_file_field (name : string) : string :=
  if bool_decide (name = "image[]"%string) then "image"%string else name.

(** The part of [value] after its last slash or backslash. *)
Fixpoint leaf (l : list Z) : list Z :=
  match l with
  | [] => []
  | c :: r => if existsb (fun b => (b =? 47) || (b =? 92)) l then leaf r else l
  end.

Definition file_name_char (c : Z) : bool :=
  (33 <=? c) && (c <=? 126) && negb ((c =? 34) || (c =? 92)).

(** [sanitize_file_name], on characters; what is left is ASCII. *)
Definition sanitize_file_name (value : list Z) : list Z :=
  let name := match leaf value with [] => str_bytes "image" | name => name end in
  match take 128 (List.filter file_name_char name) with
  | [] => str_bytes "image"
  | sanitized => sanitized
  end.

(** ** What the responses are *)
Section Spec.
Context `{JsonWriter} {S : Type}.

Lemma json_write_Ok w bytes w' :
  json_write w bytes = Ok w' -> jw_bytes w' = jw_bytes w ++ bytes /\ jw_limit w' = jw_limit w /\
    zlen (jw_bytes w') <= jw_limit w.
Proof.
  unfold json_write. intros (n & Hn%ok_or_Ok & [Hg [= <-]]%check_Ok)%result_bind_Ok.
  apply guard_err_Ok, Z.ltb_ge in Hg. apply checked_add64_Some in Hn as [-> _].
  cbn [jw_bytes jw_limit]. rewrite zlen_app. split_and!; [done|done|lia].
Qed.

Lemma json_writes_Ok slices w w' :
  try_fold json_write w slices = Ok w' -> zlen (jw_bytes w) <= jw_limit w ->
  jw_bytes w' = jw_bytes w ++ concat slices /\ zlen (jw_bytes w') <= jw_limit w.
Proof.
  revert w. induction slices as [|s slices IH]; intros w; cbn [try_fold concat].
  - intros [= <-] Hw. by rewrite app_nil_r.
  - intros (w1 & (Hb & Hl & Hf)%json_write_Ok & Hw')%result_bind_Ok _.
    apply IH in Hw' as [Hb' Hf']; [|by rewrite Hl]. rewrite Hb', Hb, <-app_assoc. split; [done|].
    rewrite Hb', Hb, <-app_assoc, Hl in Hf'. done.
Qed.

Lemma json_writes_fit slices w :
  jw_limit w <= u64_max -> zlen (jw_bytes w ++ concat slices) <= jw_limit w ->
  exists w', try_fold json_write w slices = Ok w'.
Proof.
  revert w. induction slices as [|s slices IH]; intros w Hl Hw; cbn [try_fold concat] in *; [eauto|].
  rewrite app_assoc, zlen_app, zlen_app in Hw. pose proof (zlen_nonneg (concat slices)) as Hz.
  unfold json_write at 1, checked_add64. rewrite (proj2 (Z.leb_le _ _)) by lia. cbn [ok_or result_bind].
  rewrite (proj2 (Z.ltb_ge _ _)) by lia. cbn [guard_err result_bind].
  apply IH; cbn [jw_bytes jw_limit]; [done|]. rewrite !zlen_app. lia.
Qed.

Definition json_ok (value : Value) (id : option string) : Response S :=
  attach_upstream_request_id (json_response 200 value) id.

(** A complete answer is written whole, or refused when it is over the limit. *)
Lemma bounded_json_response_spec (value : Value) id :
  bounded_json_response value id =
    if zlen (json_bytes value) <=? JSON_BODY_LIMIT then Ok (json_ok value id)
    else Err (gateway_internal "response encoding").
Proof.
  unfold bounded_json_response, json_bytes. destruct (try_fold _ _ _) as [w|e] eqn:E.
  - apply json_writes_Ok in E as [Hb Hf]; [|done]. cbn [jw_bytes jw_limit app] in Hb, Hf.
    rewrite Hb in Hf. rewrite (proj2 (Z.leb_le _ _)) by lia. cbn [map_err result_bind]. by rewrite Hb.
  - destruct (Z.leb_spec (zlen (concat (json_slices value))) JSON_BODY_LIMIT) as [Hle|]; [|done].
    destruct (json_writes_fit (json_slices value) (mkJsonWriter [] JSON_BODY_LIMIT)) as [w Hw]; [done|done|].
    congruence.
Qed.

(** A gateway error's status is a status code. *)
Lemma gateway_status error : default 500 (status_code (http_status error)) = http_status error.
Proof. unfold http_status. by destruct (ge_kind error). Qed.
End Spec.

(** A safe request id is a header value. *)
Definition header_value_byte (b : Z) : bool := (b =? 9) || ((32 <=? b) && negb (b =? 127)).

Lemma safe_id_header_value value id :
  SafeUpstreamRequestId_new value = Ok id -> forallb header_value_byte (str_bytes id) = true.
Proof.
  unfold SafeUpstreamRequestId_new. intros [Hg [= <-]]%check_Ok. apply guard_err_Ok in Hg.
  apply orb_false_iff in Hg as [_ Hb]. apply negb_false_iff in Hb. revert Hb.
  rewrite !forallb_forall. intros Hb b Hin. specialize (Hb b Hin). revert Hb.
  unfold is_identifier_byte, header_value_byte, is_ascii_alphanumeric, is_ascii_lowercase,
    is_ascii_uppercase, is_ascii_digit. lia.
Qed.

Lemma leaf_no_separator l : Forall (fun c => c <> 47 /\ c <> 92) (leaf l).
Proof.
  induction l as [|c r IH]; [constructor|]. cbn [leaf].
  destruct (existsb _ (c :: r)) eqn:E; [done|]. apply list.Forall_forall. intros b Hb%list_elem_of_In.
  assert (Hn : ((b =? 47) || (b =? 92)) = false).
  { destruct (_ || _) eqn:Hb'; [|done]. rewrite <-E. symmetry. apply existsb_exists. by exists b. }
  lia.
Qed.

(** A sanitised file name is never empty, short, and free of separators, quotes
    and anything that is not a visible ASCII character. *)
Lemma sanitize_file_name_safe value :
  let name := sanitize_file_name value in
  name <> [] /\ zlen name <= 128 /\
  Forall (fun c => 33 <= c <= 126 /\ c <> 34 /\ c <> 92 /\ c <> 47) name.
Proof.
  assert (Himage : Forall (fun c => 33 <= c <= 126 /\ c <> 34 /\ c <> 92 /\ c <> 47) (str_bytes "image"))
    by (change (str_bytes "image") with [105; 109; 97; 103; 101]; rewrite !list.Forall_cons; by split_and!).
  unfold sanitize_file_name.
  assert (Hname : Forall (fun c => c <> 47 /\ c <> 92)
            (match leaf value with [] => str_bytes "image" | name => name end)).
  { pose proof (leaf_no_separator value) as Hl. destruct (leaf value); [|done].
    eapply list.Forall_impl; [exact Himage|]. cbn. lia. }
  set (name := match leaf value with [] => _ | _ => _ end) in *.
  set (kept := take 128 _).
  assert (Hkept : zlen kept <= 128 /\ Forall (fun c => 33 <= c <= 126 /\ c <> 34 /\ c <> 92 /\ c <> 47) kept).
  { subst kept. split; [unfold zlen; rewrite length_take; lia|]. apply Forall_take.
    rewrite list.Forall_forall in Hname |- *. intros c Hc%list_elem_of_In.
    apply List.filter_In in Hc as [Hin Hc]. apply list_elem_of_In in Hin. specialize (Hname c Hin).
    unfold file_name_char in Hc. lia. }
  destruct kept as [|c rest]; [by split_and!|]. by split_and!; try apply Hkept.
Qed.
