(* ===== verification/ClientCodecs.v ===== *)
(** * The data plane's client dialects

    Models [crates/wokcore-server/src/data_plane/responses.rs], [anthropic.rs],
    the whole answers of [chat.rs] and [encode] of [stream.rs]: what a codec is
    told about a request and its answer, and the response around what it writes.

    An [f64] is its 64 bits; JSON has finite numbers only. *)
From S2P Require Import Prelude Sse Json Canonical ChatEncode ResponsesEncode AnthropicEncode.
From S2P Require Import RuntimeDiagnostics DataPlane ClientStream ClientStreamSpec ChatClient.
From S2P Require Import Dispatch DataRegistry.

(** ** Numbers *)
(** [n as f64] of an unsigned integer: to the nearest, ties to even. *)
Definition f64_of_u64 (n : Z) : Z :=
  if n =? 0 then 0
  else
    let e := Z.log2 n in
    let exponent := Z.shiftl (e + 1023) 52 in
    if e <=? 52 then exponent + (Z.shiftl n (52 - e) - 2 ^ 52)
    else
      let s := e - 52 in
      let q := Z.shiftr n s in
      let r := n - Z.shiftl q s in
      let half := Z.shiftl 1 (s - 1) in
      let q := if (half <? r) || ((r =? half) && Z.odd q) then q + 1 else q in
      exponent + (q - 2 ^ 52).

Definition f64_of_i64 (n : Z) : Z := if n <? 0 then 2 ^ 63 + f64_of_u64 (- n) else f64_of_u64 n.

Definition as_f64 (v : Value) : option Z :=
  match v with
  | VNumber (PosInt n) => Some (f64_of_u64 n)
  | VNumber (NegInt n) => Some (f64_of_i64 n)
  | VNumber (Float bits) => Some bits
  | _ => None
  end.

(** [(0.0..=hi).contains(&x)]: non-negative numbers are ordered as their bits,
    and [-0.0] equals [0.0]. *)
Definition zero_to (hi x : Z) : bool := (x =? 2 ^ 63) || ((0 <=? x) && (x <=? hi)).

Definition f64_one : Z := 4607182418800017408.
Definition f64_two : Z := 4611686018427387904.

Example f64_of_small : (f64_of_u64 1, f64_of_u64 2) = (f64_one, f64_two).
Proof. reflexivity. Qed.

(** 2^53 + 1 lies between two doubles and goes to the even one, as does 2^53 + 3; 2^64 - 1 rounds up
    to a power of two. *)
Example f64_rounds :
  f64_of_u64 (2 ^ 53 + 1) = f64_of_u64 (2 ^ 53) /\ f64_of_u64 (2 ^ 53 + 3) = f64_of_u64 (2 ^ 53 + 4) /\
  f64_of_u64 u64_max = Z.shiftl (64 + 1023) 52.
Proof. vm_compute. done. Qed.

(** ** responses.rs *)
Definition is_null (v : Value) : bool := match v with VNull => true | _ => false end.
Definition is_string (v : Value) : bool := match v with VString _ => true | _ => false end.
Definition is_boolean (v : Value) : bool := match v with VBool _ => true | _ => false end.

Definition validate_extension_value (request : CanonicalRequest) (key : string) (valid : Value -> bool)
  : result GatewayError unit :=
  match cr_extensions request !! key with
  | None => Ok tt
  | Some value => guard_err (negb (is_null value || valid value)) invalid_request
  end.

(** What each extension of a Responses request may be. *)
Definition responses_rules : list (string * (Value -> bool)) :=
  [("instructions"%string, is_string);
   ("max_output_tokens"%string, fun value => is_some_and (fun limit => 0 <? limit) (as_u64 value));
   ("metadata"%string, is_object);
   ("parallel_tool_calls"%string, is_boolean);
   ("store"%string, is_boolean);
   ("temperature"%string, fun value => is_some_and (zero_to f64_two) (as_f64 value));
   ("text"%string, is_object);
   ("tool_choice"%string, fun value => is_string value || is_object value);
   ("top_p"%string, fun value => is_some_and (zero_to f64_one) (as_f64 value));
   ("truncation"%string,
      fun value => bool_decide (value = VString "auto") || bool_decide (value = VString "disabled"));
   ("user"%string, is_string)].

Definition responses_validate_request (request : CanonicalRequest) : result GatewayError unit :=
  try_fold (fun _ rule => validate_extension_value request rule.1 rule.2) tt responses_rules.

(** [extension::<T>] with the deserializer of [T]. *)
Definition extension {T} (from_value : Value -> option T) (request : CanonicalRequest) (key : string)
  : result GatewayError (option T) :=
  match cr_extensions request !! key with
  | None | Some VNull => Ok None
  | Some value => let? v := ok_or (from_value value) invalid_request in Ok (Some v)
  end.

Definition as_bool (v : Value) : option bool := match v with VBool b => Some b | _ => None end.

Definition incomplete_details (reason : UpstreamFinishReason) : option Value :=
  match reason with
  | ReasonLength | ReasonModelContextWindowExceeded =>
      Some (json_object [("reason"%string, VString "max_output_tokens")])
  | ReasonContentFilter => Some (json_object [("reason"%string, VString "content_filter")])
  | ReasonStop | ReasonToolCalls | ReasonFunctionCall | ReasonPauseTurn | ReasonRefusal => None
  end.

Definition template_reasoning (request : CanonicalRequest) (public_effort : option string) : Value :=
  match cr_reasoning request with
  | None => json_object [("effort"%string, VNull); ("summary"%string, VNull)]
  | Some reasoning =>
      of_map (<["effort"%string := json_string_option public_effort]> (reasoning_extensions reasoning)
              ∪ {["summary"%string := VNull]})
  end.

Definition template_tool (tool : ToolDefinition) : Value :=
  of_map (<["parameters"%string := tool_input_schema tool]>
            (<["description"%string := json_string_option (tool_description tool)]>
               (<["name"%string := VString (tool_name tool)]>
                  (<["type"%string := VString "function"]> (tool_extensions tool))))).

Definition default_text : Value :=
  json_object [("format"%string, json_object [("type"%string, VString "text")]);
               ("verbosity"%string, VString "medium")].

Definition response_template_from_parts (request : CanonicalRequest) (public_effort : option string)
  (created_at : Z) (reason : UpstreamFinishReason) : result GatewayError ResponsesResponseTemplate :=
  let details := incomplete_details reason in
  let extensions := cr_extensions request in
  let? max_output_tokens := extension as_u64 request "max_output_tokens" in
  let? metadata := extension as_object request "metadata" in
  let? parallel_tool_calls := extension as_bool request "parallel_tool_calls" in
  let? store := extension as_bool request "store" in
  let? temperature := extension as_f64 request "temperature" in
  let? top_p := extension as_f64 request "top_p" in
  let? user := extension as_str request "user" in
  Ok (mkResponsesTemplate
        (if is_someb details then None else Some created_at) None details
        (extensions !! "instructions"%string) max_output_tokens (default ∅ metadata)
        (default false parallel_tool_calls) (cr_thread_key request)
        (template_reasoning request public_effort) (default false store)
        ((fun bits => VNumber (Float bits)) <$> temperature)
        (default default_text (extensions !! "text"%string))
        (default (VString "auto") (extensions !! "tool_choice"%string))
        (template_tool <$> cr_tools request)
        ((fun bits => VNumber (Float bits)) <$> top_p)
        (default (VString "disabled") (extensions !! "truncation"%string)) user).

Definition response_template (executed : ExecutedResponse) : result GatewayError ResponsesResponseTemplate :=
  response_template_from_parts (pr_request (er_public executed)) (pr_reasoning_effort (er_public executed))
    (ur_created_at (er_response executed)) (ur_finish_reason (er_response executed)).

Definition responses_stream_codec (executed : ExecutedStream) : result GatewayError ResponsesCodec :=
  let? template := response_template_from_parts (pr_request (es_public executed))
    (pr_reasoning_effort (es_public executed)) (us_created_at (es_stream executed))
    (us_finish_reason (es_stream executed)) in
  Ok (responses_new (mkResponsesContext (pr_model (es_public executed)) (us_created_at (es_stream executed))
        template)).

(** ** anthropic.rs *)
Definition stop_reason (reason : UpstreamFinishReason) : AnthropicStopReason :=
  match reason with
  | ReasonStop | ReasonContentFilter | ReasonFunctionCall => StopEndTurn
  | ReasonLength => StopMaxTokens
  | ReasonToolCalls => StopToolUse
  | ReasonPauseTurn => StopPauseTurn
  | ReasonRefusal => StopRefusal
  | ReasonModelContextWindowExceeded => StopModelContextWindowExceeded
  end.

Definition initial_usage (events : list CanonicalEvent) : Usage :=
  let usage := head (omap usage_of events) in
  mkUsage (from_option input_tokens 0 usage) 0 (usage ≫= cached_input_tokens) None ∅.

Definition anthropic_stream_codec (executed : ExecutedStream) : AnthropicCodec :=
  let stream := es_stream executed in
  anthropic_new (mkAnthropicContext (cr_request_id (pr_request (es_public executed)))
    (pr_model (es_public executed)) (us_initial_usage stream)
    (mkAnthropicTemplate (stop_reason (us_finish_reason stream)) (us_stop_sequence stream)
       (us_thinking_signatures stream) ∅)).

(** ** The codecs behind a stream *)
Inductive ClientStreamCodec : Set :=
| CodecResponses (codec : ResponsesCodec)
| CodecChat (codec : ChatCodec)
| CodecAnthropic (codec : AnthropicCodec).

Section Codecs.
Context `{HW : JsonWriter, HJ : JsonCrate}.

(** [ClientStreamCodec::encode]. *)
Definition on_codec {C} (wrap : C -> ClientStreamCodec) (r : C * result GatewayError (list Z))
  : ClientStreamCodec * result GatewayError (list Z) := (wrap r.1, r.2).

#[global] Instance client_stream_codec : ClientCodec ClientStreamCodec :=
  fun event codec =>
    match codec with
    | CodecResponses c => on_codec CodecResponses (responses_encode_event json_bytes event c)
    | CodecChat c => on_codec CodecChat (encode_chunk json_bytes event c)
    | CodecAnthropic c => on_codec CodecAnthropic (anthropic_encode_event json_bytes event c)
    end.

Abbreviation body_stream := (CanonicalSseStream ClientStreamCodec).
Abbreviation response := (Response body_stream).

(** The codec of a dialect; the others have no streams. *)
Definition stream_codec (protocol : ClientProtocol) (executed : ExecutedStream)
  : result GatewayError ClientStreamCodec :=
  match protocol with
  | OpenAiResponses => let? c := responses_stream_codec executed in Ok (CodecResponses c)
  | OpenAiChatCompletions =>
      Ok (CodecChat (chat_stream_codec (pr_model (es_public executed)) (us_created_at (es_stream executed))
            (us_finish_reason (es_stream executed))))
  | AnthropicMessages => Ok (CodecAnthropic (anthropic_stream_codec executed))
  | AnthropicCountTokens | OpenAiModels | OpenAiImageGenerations | OpenAiImageEdits =>
      Err unsupported_capability
  end.

(** [encode] of stream.rs; [counters] are the stream diagnostics. *)
Definition stream_encode (executed : ExecutedStream) (protocol : ClientProtocol)
  (counters : StreamRuntimeCounters) : result GatewayError response :=
  let? codec := stream_codec protocol executed in
  let? first_event := ok_or (es_first_event executed)
    (upstream_response 502 "missing initial stream event") in
  let body := client_stream first_event codec counters in
  Ok (attach_upstream_request_id
        (insert_header "x-accel-buffering" "no"
           (insert_header "content-type" "text/event-stream" (response_new (BodyStream body))))
        (us_upstream_request_id (es_stream executed))).

(** ** Whole answers *)
Definition unexpected_output : GatewayError := gateway_internal "unexpected upstream output".

Definition responses_encode (executed : ExecutedResponse) : result GatewayError response :=
  let answer := er_response executed in
  match ur_output answer with
  | OutTokenCount _ => Err unexpected_output
  | OutEvents events =>
      let? template := response_template executed in
      let? value := responses_encode_response json_bytes
        (mkResponsesContext (pr_model (er_public executed)) (ur_created_at answer) template) events in
      bounded_json_response value (ur_upstream_request_id answer)
  end.

Definition chat_encode_answer (executed : ExecutedResponse) : result GatewayError response :=
  let? value := chat_encode json_bytes (pr_model (er_public executed)) (er_response executed) in
  bounded_json_response value (ur_upstream_request_id (er_response executed)).

(** [encode_message]. *)
Definition anthropic_encode_answer (executed : ExecutedResponse) (request_id : string)
  : result GatewayError response :=
  let answer := er_response executed in
  match ur_output answer with
  | OutTokenCount _ => Err unexpected_output
  | OutEvents events =>
      let? value := anthropic_encode_response json_bytes from_str
        (mkAnthropicContext request_id (pr_model (er_public executed)) (initial_usage events)
           (mkAnthropicTemplate (stop_reason (ur_finish_reason answer)) (ur_stop_sequence answer)
              (ur_thinking_signatures answer) ∅)) events in
      bounded_json_response value (ur_upstream_request_id answer)
  end.

Definition encode_token_count (executed : ExecutedResponse) : result GatewayError response :=
  let answer := er_response executed in
  match ur_output answer with
  | OutEvents _ => Err unexpected_output
  | OutTokenCount input_tokens =>
      bounded_json_response (json_object [("input_tokens"%string, json_uint input_tokens)])
        (ur_upstream_request_id answer)
  end.
End Codecs.
