(* ===== verification/ClientCodecsSpec.v ===== *)
(** * The data plane's client dialects: what a client is told

    Each dialect's codec keeps the promises of [ClientStreamSpec], so that every
    stream is closed exactly once; the Responses request checks make the
    response template total; and a codec whose context is over its limits says
    nothing at all. *)
From S2P Require Import Prelude Sse SseSpec SseCorrect Json Canonical ChatEncode ChatEncodeSpec ResponsesEncode AnthropicEncode.
From S2P Require Import RuntimeDiagnostics DataPlane ClientStream ClientStreamSpec ChatClient.
From S2P Require Import Dispatch DataRegistry ClientCodecs.

(** ** Methods that keep part of their state, and what they return *)
Section Methods.
Context {S E K : Type} (key : S -> K).

Definition keeps {A} (op : st_res S E A) : Prop := forall s, key (op s).1 = key s.

Definition yields {A} (op : st_res S E A) (Q : A -> Prop) : Prop := forall s s' a, op s = (s', Ok a) -> Q a.

Lemma keeps_ret {A} (a : A) : keeps (st_ret a). Proof. done. Qed.
Lemma keeps_get : keeps st_get. Proof. done. Qed.
Lemma keeps_err {A} (e : E) : keeps (A := A) (st_err e). Proof. done. Qed.
Lemma keeps_lift {A} (r : result E A) : keeps (st_lift r). Proof. intros s. unfold st_lift. by destruct r. Qed.
Lemma keeps_mod (f : S -> S) : (forall s, key (f s) = key s) -> keeps (st_mod f).
Proof. intros Hf s. apply Hf. Qed.

Lemma keeps_bind {A B} (op : st_res S E A) (k : A -> st_res S E B) :
  keeps op -> (forall a, keeps (k a)) -> keeps (st_bind op k).
Proof.
  intros Hop Hk s. specialize (Hop s). unfold st_bind. destruct (op s) as [s1 [a|e]]; [|done].
  by rewrite Hk, <- Hop.
Qed.

Lemma keeps_fold {A B} (f : A -> B -> st_res S E A) l : (forall a b, keeps (f a b)) ->
  forall a, keeps (st_fold f a l).
Proof. intros Hf. induction l as [|b l IH]; intros a; [apply keeps_ret|]. by apply keeps_bind. Qed.

Lemma yields_ret {A} (a : A) (Q : A -> Prop) : Q a -> yields (st_ret a) Q.
Proof. by intros HQ s s' b [= <- <-]. Qed.

Lemma yields_err {A} (e : E) (Q : A -> Prop) : yields (st_err e) Q.
Proof. by intros s s' b [=]. Qed.

Lemma yields_any {A} (op : st_res S E A) : yields op (fun _ => True).
Proof. done. Qed.

Lemma yields_bind {A B} (op : st_res S E A) (k : A -> st_res S E B) P Q :
  yields op P -> (forall a, P a -> yields (k a) Q) -> yields (st_bind op k) Q.
Proof. intros Hop Hk s s' b (s1 & a & Ha & Hb)%st_bind_Ok. by eapply Hk; [eapply Hop|]. Qed.

Lemma yields_fold {A B} (f : A -> B -> st_res S E A) l (P : A -> Prop) :
  (forall a b, P a -> yields (f a b) P) -> forall a, P a -> yields (st_fold f a l) P.
Proof.
  intros Hf. induction l as [|b l IH]; intros a Ha; [by apply yields_ret|]. eapply yields_bind; [by apply Hf|done].
Qed.

Lemma yields_then {A B} (op : st_res S E A) (k : A -> st_res S E B) Q :
  (forall a, yields (k a) Q) -> yields (st_bind op k) Q.
Proof. intros Hk. eapply yields_bind; [apply yields_any|]. auto. Qed.

(** A refusal leaves that part of the state alone. *)
Definition fails_clean {A} (op : st_res S E A) : Prop :=
  forall s s' e, op s = (s', Err e) -> key s' = key s.

Lemma keeps_clean {A} (op : st_res S E A) : keeps op -> fails_clean op.
Proof. intros Hop s s' e H. specialize (Hop s). by rewrite H in Hop. Qed.

Lemma clean_bind {A B} (op : st_res S E A) (k : A -> st_res S E B) :
  keeps op -> (forall a, fails_clean (k a)) -> fails_clean (st_bind op k).
Proof.
  intros Hop Hk s s' e. specialize (Hop s). unfold st_bind. destruct (op s) as [s1 [a|e1]].
  - cbn in Hop. rewrite <- Hop. apply Hk.
  - cbn in Hop. by intros [= <- <-].
Qed.

Lemma clean_then_ret {A} (f : S -> S) (a : A) : fails_clean (st_bind (st_mod f) (fun _ => st_ret a)).
Proof. by intros s s' e [=]. Qed.
End Methods.

Create HintDb methods discriminated.
#[export] Hint Resolve keeps_ret keeps_get keeps_err keeps_lift keeps_mod : methods.

(** Walks a method, splitting what it decides on. *)
Ltac method_step :=
  match goal with
  | |- keeps _ (st_bind _ _) => apply keeps_bind; [|intros ?]
  | |- keeps _ (st_fold _ _ _) => apply keeps_fold; intros ? ?
  | |- keeps _ (if ?b then _ else _) => destruct b
  | |- keeps _ (match ?x with _ => _ end) => destruct x
  | |- keeps _ (let '(_, _) := ?x in _) => destruct x
  | |- keeps _ (st_mod _) => apply keeps_mod; intros ?; reflexivity
  | |- keeps _ _ => solve [eauto with methods]
  end.
Ltac method := repeat method_step.

(** ** Named events *)
Section Named.
Context (to_vec : Value -> list Z).

Abbreviation wires_bytes ws := (flat_map (fun wire => encode_sse to_vec (Some (str_bytes wire.1)) wire.2) ws).

(** The last event a client reads in [bytes] has one of these names. *)
Definition last_named (names : list string) (bytes : list Z) : Prop :=
  exists f name, list.last (stream_frames bytes) = Some f /\ frame_event f = Some (str_bytes name) /\ name ∈ names.

Hypothesis to_vec_line : forall v, has_line_break (to_vec v) = false.

Definition plain_name (wire : string * Value) : Prop := has_line_break (str_bytes wire.1) = false.

Definition wire_frame (wire : string * Value) : SseFrame :=
  mkSseFrame (Some (str_bytes wire.1)) (to_vec wire.2).

Lemma run_wires ws skip start :
  Forall plain_name ws ->
  exists skip' start', pos_run (mkPosition skip [] start empty_block) (wires_bytes ws) =
    (mkPosition skip' [] start' empty_block, wire_frame <$> ws).
Proof using to_vec_line.
  intros Hws. revert skip start. induction Hws as [|wire ws Hw _ IH]; intros skip start; [by eexists _, _|].
  cbn [flat_map]. rewrite pos_run_app.
  change (encode_sse to_vec (Some (str_bytes wire.1)) wire.2)
    with (sent_bytes to_vec (Some (str_bytes wire.1), wire.2)).
  rewrite sent_bytes_lines, pos_run_app.
  destruct (pos_run_sent to_vec to_vec_line (Some (str_bytes wire.1), wire.2) skip start) as (p & -> & Hp).
  cbn [pos_run]. unfold pos_step, pos_taken. cbn [pos_skip pos_line pos_start pos_block andb orb Z.eqb Pos.eqb].
  cbn [block_line]. rewrite Hp. destruct (IH false false) as (skip' & start' & ->).
  exists skip', start'. unfold sent_frame, sent_event, wire_frame. cbn [fst snd fmap list_fmap app]. by rewrite Hw.
Qed.

Lemma frames_wires ws : Forall plain_name ws -> stream_frames (wires_bytes ws) = wire_frame <$> ws.
Proof using to_vec_line.
  intros Hws. rewrite <- pos_run_stream.
  destruct (run_wires ws false true Hws) as (skip & start & H).
  exact (f_equal snd H).
Qed.

Lemma wires_nonempty ws wire : wires_bytes (ws ++ [wire]) <> [].
Proof.
  rewrite flat_map_app. cbn [flat_map]. rewrite app_nil_r. intros H%app_eq_nil. destruct H as [_ H].
  unfold encode_sse in H. apply (f_equal length) in H. rewrite !length_app in H. cbn in H. lia.
Qed.
(** The last of these wires has one of the names. *)
Definition ends_named (names : list string) (ws : list (string * Value)) : Prop :=
  exists pre wire, ws = pre ++ [wire] /\ Forall plain_name ws /\ wire.1 ∈ names.

Lemma ends_named_one names kind wire :
  wire.1 = kind -> has_line_break (str_bytes kind) = false -> existsb (String.eqb kind) names = true ->
  forall pre, Forall plain_name pre -> ends_named names (pre ++ [wire]).
Proof.
  intros Hk Hp Hn pre Hpre. exists pre, wire. split_and!; [done| |].
  - apply list.Forall_app. split; [done|]. constructor; [|constructor]. unfold plain_name. by rewrite Hk.
  - apply existsb_exists in Hn as (x & Hx%list_elem_of_In & <-%String.eqb_eq). by rewrite Hk.
Qed.

Lemma ends_named_bytes names ws : ends_named names ws -> wires_bytes ws <> [] /\ last_named names (wires_bytes ws).
Proof using to_vec_line.
  intros (pre & wire & -> & Hws & Hin). split; [apply wires_nonempty|]. exists (wire_frame wire), wire.1. rewrite frames_wires by done.
  rewrite fmap_app. cbn [fmap list_fmap]. by rewrite last_snoc.
Qed.

(** A wire whose name is not one of these. *)
Definition other_wire (names : list string) (wire : string * Value) : Prop :=
  plain_name wire /\ wire.1 ∉ names.

Lemma literal_other names kind wire :
  wire.1 = kind -> has_line_break (str_bytes kind) || existsb (String.eqb kind) names = false ->
  other_wire names wire.
Proof.
  intros Hk [Hp Hn]%orb_false_iff. unfold other_wire, plain_name. rewrite Hk. split; [done|].
  intros Hin%list_elem_of_In. assert (existsb (String.eqb kind) names = true); [|congruence].
  apply existsb_exists. exists kind. split; [done|apply String.eqb_refl].
Qed.

Lemma last_named_not names ws :
  Forall (other_wire names) ws -> ~ last_named names (wires_bytes ws).
Proof using to_vec_line.
  intros Hws (f & name & Hl & He & Hin). rewrite frames_wires in Hl by (eapply list.Forall_impl; [done|by intros ? []]).
  rewrite fmap_last in Hl. apply fmap_Some in Hl as (wire & Hl & ->). cbn in He.
  injection He as He%str_bytes_inj. subst name.
  apply list.last_Some_elem_of in Hl. rewrite list.Forall_forall in Hws. by destruct (Hws _ Hl).
Qed.

End Named.

(** ** Codecs of named events *)
Section WireCodec.
Context {C : Type} (to_vec : Value -> list Z).
Hypothesis to_vec_line : forall v, has_line_break (to_vec v) = false.
Context (wires : CanonicalEvent -> st_res C GatewayError (list (string * Value))) (names : list string)
  (ready : C -> Prop).

Definition wire_codec : ClientCodec C :=
  fun event => let! ws := wires event in
    st_ret (flat_map (fun wire => encode_sse to_vec (Some (str_bytes wire.1)) wire.2) ws).

(** What is left to show of a codec that writes named events. *)
Record wire_laws : Prop := {
  wire_failed c error : ready c -> exists c' ws, wires (EvFailed error) c = (c', Ok ws) /\ ends_named names ws;
  wire_completed : yields (wires EvCompleted) (ends_named names);
  wire_running event : event_outcome event = None -> yields (wires event) (Forall (other_wire names));
  wire_ready c c' event r : event_outcome event = None -> ready c -> wires event c = (c', r) -> ready c';
  wire_refused c c' error : ready c -> wires EvCompleted c = (c', Err error) -> ready c'
}.

Hypothesis laws : wire_laws.

Lemma wire_codec_Ok event c c' bytes :
  wire_codec event c = (c', Ok bytes) ->
  exists ws, wires event c = (c', Ok ws) /\
    bytes = flat_map (fun wire => encode_sse to_vec (Some (str_bytes wire.1)) wire.2) ws.
Proof. unfold wire_codec. intros (c1 & ws & Hw & [= <- <-])%st_bind_Ok. eauto. Qed.

Lemma wire_codec_Err event c c' e : wire_codec event c = (c', Err e) -> wires event c = (c', Err e).
Proof.
  unfold wire_codec, st_bind, st_ret. destruct (wires event c) as [c1 [ws|e1]]; [done|]. by intros [= <- <-].
Qed.

Program Definition wire_codec_laws : @ClientCodecLaws C wire_codec :=
  {| codec_ready := ready; codec_closing := last_named names |}.
Next Obligation.
  intros c error Hr. destruct (wire_failed laws c error Hr) as (c' & ws & Hw & He).
  eexists c', _. split; [|by eapply ends_named_bytes]. unfold codec_encode, wire_codec, st_bind. by rewrite Hw.
Qed.
Next Obligation.
  intros c c' bytes Hr (ws & Hw & ->)%wire_codec_Ok. eapply ends_named_bytes; [done|].
  by eapply (wire_completed laws).
Qed.
Next Obligation.
  intros c c' event bytes Hr Ho (ws & Hw & ->)%wire_codec_Ok. split; [by eapply (wire_ready laws)|].
  eapply last_named_not; [done|]. by eapply (wire_running laws).
Qed.
Next Obligation.
  intros c c' event error Hr He%wire_codec_Err. destruct (event_outcome event) as [o|] eqn:Ho.
  - destruct event; try discriminate Ho; [by eapply (wire_refused laws)|].
    destruct (wire_failed laws c error0 Hr) as (c1 & ws & Hw & _). congruence.
  - by eapply (wire_ready laws).
Qed.
End WireCodec.

(** ** The Responses codec *)
Definition responses_closing : list string := ["response.completed"; "response.incomplete"; "error"]%string.

Section Responses.
Context (to_vec : Value -> list Z).
Hypothesis to_vec_line : forall v, has_line_break (to_vec v) = false.

Abbreviation rc_key := (fun c : ResponsesCodec => (rc_context c, rc_limits c, rc_terminal c)).
Abbreviation running := (Forall (other_wire responses_closing)).

Lemma keeps_append item_id n joins fresh refused : keeps rc_key (append_output item_id n joins fresh refused).
Proof. unfold append_output. method. Qed.

Lemma keeps_rc_wire kind fields : keeps rc_key (rc_wire kind fields).
Proof. unfold rc_wire. method. Qed.

#[local] Hint Resolve keeps_append keeps_rc_wire : methods.

Lemma codec_keeps_event event : event_outcome event = None -> keeps rc_key (encode_event_values to_vec event).
Proof.
  unfold encode_event_values, rc_validate_context_once. intros Hev. apply keeps_bind; [method|]. intros c.
  destruct (rc_terminal c); [method|]. apply keeps_bind; [method|]. intros _.
  destruct event; try discriminate Hev;
    unfold encode_created, encode_text_delta, encode_reasoning_delta, encode_tool_delta, encode_usage,
      append_text, append_reasoning, append_tool, item_added; method.
Qed.

Lemma yields_rc_wire kind fields : yields (rc_wire kind fields) (fun wire => wire.1 = kind).
Proof. unfold rc_wire. do 2 (apply yields_then; intros ?). by apply yields_ret. Qed.

Ltac wires_step :=
  match goal with
  | |- yields (st_bind (rc_wire _ _) _) _ =>
      eapply yields_bind; [apply yields_rc_wire|let H := fresh in intros ? H; cbv beta in H]
  | |- yields (st_bind (if _ then _ else _) _) _ => eapply (yields_bind _ _ running); [|intros ? ?]
  | |- yields (st_bind _ _) _ => apply yields_then; intros ?
  | |- yields (if ?b then _ else _) _ => destruct b
  | |- yields (let '(_, _) := ?x in _) _ => destruct x
  | |- yields (st_err _) _ => apply yields_err
  | |- yields (st_ret _) _ => apply yields_ret
  | |- Forall _ (_ ++ _) => apply list.Forall_app; split
  | |- Forall _ [] => constructor
  | |- Forall _ (_ :: _) => constructor
  | H : ?w.1 = _ |- other_wire _ ?w => apply (literal_other _ _ _ H); reflexivity
  | |- _ => assumption
  end.

Lemma yields_event event : event_outcome event = None -> yields (encode_event_values to_vec event) running.
Proof.
  unfold encode_event_values. intros Hev. apply yields_then. intros c.
  destruct (rc_terminal c); [apply yields_err|]. apply yields_then. intros _.
  destruct event; try discriminate Hev;
    unfold encode_created, encode_text_delta, encode_reasoning_delta, encode_tool_delta, encode_usage, item_added;
    repeat wires_step.
Qed.

Definition plain_wire (wire : string * Value) : Prop := other_wire [] wire.

Lemma yields_close_item n item : yields (close_item n item) (Forall plain_name).
Proof.
  unfold close_item, item_done. destruct item; repeat wires_step;
    match goal with H : ?w.1 = _ |- plain_name ?w => unfold plain_name; by rewrite H end.
Qed.

Lemma yields_completed : yields (encode_event_values to_vec EvCompleted) (ends_named responses_closing).
Proof.
  unfold encode_event_values, encode_completed. apply yields_then. intros c.
  destruct (rc_terminal c); [apply yields_err|]. do 4 (apply yields_then; intros ?).
  eapply yields_bind.
  { eapply (yields_fold _ _ (Forall plain_name)); [|constructor]. intros ws [n item] Hws. unfold close_next.
    eapply yields_bind; [apply yields_close_item|]. intros closed Hc. apply yields_ret.
    by apply list.Forall_app. }
  intros ws Hws. destruct (is_someb _); apply yields_then; intros ?;
    (eapply yields_bind; [apply yields_rc_wire|intros wire Hw; cbv beta in Hw]); apply yields_then; intros _;
    apply yields_ret; by eapply ends_named_one.
Qed.

Lemma clean_completed : fails_clean rc_key (encode_event_values to_vec EvCompleted).
Proof.
  unfold encode_event_values, encode_completed, rc_validate_context_once, close_next, close_item, item_done.
  apply clean_bind; [method|]. intros c. destruct (rc_terminal c); [apply keeps_clean; method|].
  do 4 (apply clean_bind; [method|]; intros ?). apply clean_bind; [method|]. intros ws.
  destruct (is_someb _); do 2 (apply clean_bind; [method|]; intros ?); apply clean_then_ret.
Qed.

Definition responses_ready (c : ResponsesCodec) : Prop :=
  rc_terminal c = false /\ rl_context to_vec (rc_limits c) (rc_context c) = Ok tt.

Lemma responses_ready_key c c' : rc_key c' = rc_key c -> responses_ready c -> responses_ready c'.
Proof. unfold responses_ready. by intros [= -> -> ->]. Qed.

Lemma responses_wire_laws : wire_laws (encode_event_values to_vec) responses_closing responses_ready.
Proof.
  split.
  - intros c error [Ht Hv].
    unfold encode_event_values, encode_failed, rc_validate_context_once, rc_wire, st_bind, st_get, st_lift, st_mod, st_ret.
    rewrite Ht, Hv. destruct (rc_context_validated c); cbn; eexists _, [_]; (split; [reflexivity|]);
      by apply (ends_named_one _ "error") with (pre := []).
  - exact yields_completed.
  - intros event Ho. by apply yields_event.
  - intros c c' event r Ho Hr Hw. eapply responses_ready_key; [|exact Hr].
    pose proof (codec_keeps_event event Ho c) as Hk. by rewrite Hw in Hk.
  - intros c c' e Hr Hw. eapply responses_ready_key; [|exact Hr]. by eapply clean_completed.
Qed.

#[global] Instance responses_client_codec : ClientCodec ResponsesCodec := responses_encode_event to_vec.

#[global] Instance responses_codec_laws : ClientCodecLaws ResponsesCodec :=
  wire_codec_laws to_vec to_vec_line (encode_event_values to_vec) responses_closing responses_ready
    responses_wire_laws.
End Responses.

(** ** The Messages codec *)
Definition messages_closing : list string := ["message_stop"; "error"]%string.

Section Messages.
Context (to_vec : Value -> list Z).
Hypothesis to_vec_line : forall v, has_line_break (to_vec v) = false.

Abbreviation ac_key := (fun c : AnthropicCodec => (ac_context c, ac_limits c, ac_terminal c)).
Abbreviation running := (Forall (other_wire messages_closing)).

Lemma keeps_close_active : keeps ac_key close_active.
Proof. unfold close_active. method. Qed.

Lemma keeps_register_item item_id : keeps ac_key (ac_register_item item_id).
Proof. unfold ac_register_item. method. Qed.

#[local] Hint Resolve keeps_close_active keeps_register_item : methods.

Lemma keeps_message_event event :
  event_outcome event = None -> keeps ac_key (anthropic_event_wires to_vec event).
Proof.
  unfold anthropic_event_wires, ac_validate_context_once. intros Hev. apply keeps_bind; [method|]. intros c.
  destruct (ac_terminal c); [method|]. apply keeps_bind; [method|]. intros _.
  destruct event; try discriminate Hev;
    unfold ac_created, ac_text_delta, ac_reasoning_delta, ac_tool_delta, ac_record_usage, activate_text,
      activate_reasoning, activate_tool, start_text, start_reasoning, start_tool, push_delta; method.
Qed.

Ltac blocks_step :=
  match goal with
  | |- yields (st_bind ?op _) _ =>
      lazymatch type of op with
      | st_res _ _ (list (string * Value)) => eapply (yields_bind _ _ running); [|intros ? ?]
      | _ => apply yields_then; intros ?
      end
  | |- yields (if ?b then _ else _) _ => destruct b
  | |- yields (match ?x with _ => _ end) _ => destruct x
  | |- yields (st_err _) _ => apply yields_err
  | |- yields (st_ret _) _ => apply yields_ret
  | |- Forall _ (_ ++ _) => apply list.Forall_app; split
  | |- Forall _ [] => constructor
  | |- Forall _ (_ :: _) => constructor
  | |- other_wire _ _ => by eapply literal_other
  | |- _ => assumption
  end.

Lemma yields_close_active : yields close_active running.
Proof. unfold close_active. repeat blocks_step. Qed.

Lemma yields_message_event event :
  event_outcome event = None -> yields (anthropic_event_wires to_vec event) running.
Proof.
  unfold anthropic_event_wires. intros Hev. apply yields_then. intros c.
  destruct (ac_terminal c); [apply yields_err|]. apply yields_then. intros _.
  destruct event; try discriminate Hev;
    unfold ac_created, ac_text_delta, ac_reasoning_delta, ac_tool_delta, ac_record_usage, activate_text,
      activate_reasoning, activate_tool, start_text, start_reasoning, start_tool, push_delta;
    repeat first [apply yields_close_active | blocks_step].
Qed.

Lemma clean_message_completed : fails_clean ac_key (anthropic_event_wires to_vec EvCompleted).
Proof.
  unfold anthropic_event_wires, ac_completed, ac_validate_context_once.
  apply clean_bind; [method|]. intros c. destruct (ac_terminal c); [apply keeps_clean; method|].
  do 4 (apply clean_bind; [method|]; intros ?). apply clean_then_ret.
Qed.

Definition messages_ready (c : AnthropicCodec) : Prop :=
  ac_terminal c = false /\ ao_context to_vec (ac_limits c) (ac_context c) = Ok tt.

Lemma messages_ready_key c c' : ac_key c' = ac_key c -> messages_ready c -> messages_ready c'.
Proof. unfold messages_ready. by intros [= -> -> ->]. Qed.

Lemma messages_wire_laws : wire_laws (anthropic_event_wires to_vec) messages_closing messages_ready.
Proof.
  split.
  - intros c error [Ht Hv].
    unfold anthropic_event_wires, ac_failed, ac_validate_context_once, st_bind, st_get, st_lift, st_mod, st_ret.
    rewrite Ht, Hv. destruct (ac_context_validated c); cbn; eexists _, [_]; (split; [reflexivity|]);
      by apply (ends_named_one _ "error") with (pre := []).
  - unfold anthropic_event_wires, ac_completed. apply yields_then. intros c.
    destruct (ac_terminal c); [apply yields_err|]. do 5 (apply yields_then; intros ?). apply yields_ret.
    by apply (ends_named_one _ "message_stop") with (pre := []).
  - intros event Ho. by apply yields_message_event.
  - intros c c' event r Ho Hr Hw. eapply messages_ready_key; [|exact Hr].
    pose proof (keeps_message_event event Ho c) as Hk. by rewrite Hw in Hk.
  - intros c c' e Hr Hw. eapply messages_ready_key; [|exact Hr]. by eapply clean_message_completed.
Qed.

#[global] Instance messages_client_codec : ClientCodec AnthropicCodec := anthropic_encode_event to_vec.

#[global] Instance messages_codec_laws : ClientCodecLaws AnthropicCodec :=
  wire_codec_laws to_vec to_vec_line (anthropic_event_wires to_vec) messages_closing messages_ready
    messages_wire_laws.
End Messages.

(** ** Streams of any dialect *)
(** What is used of [serde_json]'s compact printer. *)
Class CompactJson `{JsonWriter} : Prop := {
  compact_objects :: ObjectSerializer json_bytes;
  compact_line v : has_line_break (json_bytes v) = false
}.

Section Dialects.
Context `{HW : JsonWriter}.

Definition dialect_ready (codec : ClientStreamCodec) : Prop :=
  match codec with
  | CodecResponses c => responses_ready json_bytes c
  | CodecChat c => chat_ready json_bytes c
  | CodecAnthropic c => messages_ready json_bytes c
  end.

(** The frame after which a client of the dialect knows the stream is over. *)
Definition dialect_closing (codec : ClientStreamCodec) (bytes : list Z) : Prop :=
  match codec with
  | CodecResponses _ => last_named responses_closing bytes
  | CodecChat _ => ends_with_done bytes
  | CodecAnthropic _ => last_named messages_closing bytes
  end.

(** A stream of the sum delivers what a stream of the dialect delivers. *)
Lemma delivered_wrap {C} `{ClientCodec C} (wrap : C -> ClientStreamCodec) items closed c :
  (forall event c, codec_encode event (wrap c) = on_codec wrap (codec_encode event c)) ->
  delivered items closed (wrap c) = delivered items closed c.
Proof.
  intros Hw. revert c. unfold delivered, error_frames. induction items as [|[event|failure] items IH]; intros c;
    rewrite Hw; destruct (codec_encode _ c) as [c' [bytes|e]]; cbn [on_codec fst snd]; try done.
  - destruct (event_outcome event); [done|]. by rewrite IH.
  - rewrite Hw. by destruct (codec_encode _ c') as [c2 [bytes|e2]].
Qed.

Lemma finished_delivers codec first counters actions (s : CanonicalSseStream ClientStreamCodec) polls :
  run actions (client_stream first codec counters) = Some (s, polls) ->
  ActCancel ∉ actions -> cs_finished s = true ->
  exists outcome, delivered (ItemEvent first :: sends actions) (cs_closed s) codec = (frames polls, Some outcome).
Proof.
  intros Hrun Hno Hfin.
  destruct (run_good (ActCancel ∈ actions) _ _ actions [ItemEvent first] []
              _ _ _ (fun h => h) (client_stream_good _ _ _ _) Hrun) as [[Ht _ _] _].
  apply tracks_delivered in Ht. cbn [app] in Ht. rewrite Hfin in Ht.
  destruct (delivered _ _ _) as [all end_of].
  destruct Ht as (outcome & elapsed & _ & [[-> ->]|[Hask _]]); [by exists outcome|done].
Qed.

Lemma delivered_dialect `{!CompactJson} codec items closed F o :
  dialect_ready codec -> delivered items closed codec = (F, Some o) ->
  exists body final, F = body ++ [final] /\ dialect_closing codec final /\
    Forall (fun f => ~ dialect_closing codec f) body.
Proof.
  destruct codec as [c|c|c]; cbn [dialect_ready dialect_closing]; intros Hr Hd.
  - pose proof (delivered_closes (H0 := responses_codec_laws json_bytes compact_line) items closed c Hr) as Hc.
    rewrite (delivered_wrap (H := responses_client_codec json_bytes) CodecResponses) in Hd by done.
    by rewrite Hd in Hc.
  - pose proof (delivered_closes (H0 := chat_codec_laws json_bytes) items closed c Hr) as Hc.
    rewrite (delivered_wrap (H := chat_client_codec json_bytes) CodecChat) in Hd by done.
    by rewrite Hd in Hc.
  - pose proof (delivered_closes (H0 := messages_codec_laws json_bytes compact_line) items closed c Hr) as Hc.
    rewrite (delivered_wrap (H := messages_client_codec json_bytes) CodecAnthropic) in Hd by done.
    by rewrite Hd in Hc.
Qed.

(** C25: A client's stream is closed exactly once, in its dialect.  For every codec whose context is
    within its limits, every first event and every interleaving without cancellation, the frames of a
    finished body are some frames that do not close the stream and then one that does (a [DONE] line
    for chat clients, a response.completed, response.incomplete or error event for Responses clients,
    a message_stop or error event for Messages clients): whatever the upstream sent, events the codec
    refuses, a failure or an early end, the client is told, and nothing follows. *)
Theorem every_stream_closed_once `{!CompactJson} (codec : ClientStreamCodec) (first : CanonicalEvent)
  (counters : StreamRuntimeCounters) (actions : list Action)
  (s : CanonicalSseStream ClientStreamCodec) (polls : list Poll) :
  dialect_ready codec -> run actions (client_stream first codec counters) = Some (s, polls) ->
  ActCancel ∉ actions -> cs_finished s = true ->
  exists body final, frames polls = body ++ [final] /\ dialect_closing codec final /\
    Forall (fun f => ~ dialect_closing codec f) body.
Proof.
  intros Hr Hrun Hno Hfin. destruct (finished_delivers _ _ _ _ _ _ Hrun Hno Hfin) as [o Hd].
  by eapply delivered_dialect.
Qed.

(** ** A context over the limits *)
Lemma unready_ends context l first counters elapsed e :
  rl_context json_bytes l context = Err e ->
  exists s, poll_next elapsed (client_stream first (CodecResponses (responses_with_limits context l)) counters)
    = (s, PollReady None) /\ cs_finished s = true.
Proof.
  intros Hv.
  assert (Herr : forall event, codec_encode event (CodecResponses (responses_with_limits context l)) =
    (CodecResponses (responses_with_limits context l), Err e)).
  { intros event. unfold codec_encode, client_stream_codec, responses_encode_event, encode_event_values,
      rc_validate_context_once, st_bind, st_get, st_lift, on_codec. cbn [rc_terminal rc_context_validated
      rc_limits rc_context responses_with_limits]. by rewrite Hv. }
  unfold client_stream. destruct (stream_start counters) as [k o].
  assert (Hitem : forall s, cs_codec s = CodecResponses (responses_with_limits context l) ->
    cs_finished s = false -> cs_protocol_error_sent s = false ->
    exists s', handle_item (Some (ItemEvent first)) elapsed s = (s', None) /\ cs_finished s' = true).
  { intros s Hc Hf Hp. unfold handle_item, encode_event. rewrite Hc, Herr.
    unfold emit_protocol_error, emit_error. destruct s as [fe q cl co ca k1 o1 fi pe].
    cbn [set_codec set_error_sent cs_finished cs_protocol_error_sent cs_codec] in *. subst. cbn [orb].
    rewrite Herr. eexists. split; [reflexivity|]. unfold stream_finish. by destruct (observation_finish _ _ _ _). }
  unfold poll_next. cbn [cs_finished cs_cancelled cs_first_event].
  edestruct Hitem as (s' & Hs & Hf); [| | |rewrite Hs]; [reflexivity..|].
  exists s'. unfold settled. cbn [fst snd]. by rewrite Hf.
Qed.

Lemma rl_context_instructions l context :
  rl_context json_bytes l context = Ok tt ->
  zlen (json_bytes (json_option (rt_instructions (rx_response context)))) <= rl_max_value_bytes l.
Proof.
  unfold rl_context. do 6 (intros [_ H]%check_Ok; revert H). intros [H _]%check_Ok. revert H.
  unfold rl_serialized, refuse_if. intros H%guard_err_Ok. lia.
Qed.

Lemma rl_context_refuses l context : refuses (rl_context json_bytes l context).
Proof.
  unfold rl_context, rl_string_map, rl_serialized, rl_identifier.
  repeat (apply refuses_bind; [|intros []]); try apply refuses_if; try (apply refuses_fold; intros; apply refuses_if).
  destruct (rt_previous_response_id _); [apply refuses_if|apply refuses_Ok].
Qed.

(** ** Responses requests *)
Lemma validated_rule request i key valid value :
  responses_validate_request request = Ok tt -> responses_rules !! i = Some (key, valid) ->
  cr_extensions request !! key = Some value -> is_null value || valid value = true.
Proof.
  intros Hv Hi Hk. unfold responses_validate_request in Hv. rewrite try_fold_unit in Hv.
  pose proof (Forall_lookup_1 _ _ _ _ Hv Hi) as Hr. cbn [fst snd] in Hr.
  unfold validate_extension_value in Hr. rewrite Hk in Hr. apply guard_err_Ok in Hr.
  by destruct (is_null value || valid value).
Qed.

Lemma extension_total {T} (from_value : Value -> option T) request i key valid :
  responses_validate_request request = Ok tt -> responses_rules !! i = Some (key, valid) ->
  (forall value, valid value = true -> is_Some (from_value value)) ->
  exists o, extension from_value request key = Ok o.
Proof.
  intros Hv Hi Hf. unfold extension. destruct (cr_extensions request !! key) as [value|] eqn:Hk; [|eauto].
  pose proof (validated_rule _ _ _ _ _ Hv Hi Hk) as Hr. destruct value; try (by eauto);
    destruct (Hf _ Hr) as [v ->]; cbn; eauto.
Qed.

(** A request that passed the checks has a response template, whatever the upstream answered. *)
Lemma template_total request effort created_at reason :
  responses_validate_request request = Ok tt ->
  exists template, response_template_from_parts request effort created_at reason = Ok template.
Proof.
  intros Hv. unfold response_template_from_parts.
  destruct (extension_total as_u64 request 1 _ _ Hv eq_refl) as [max ->];
    [intros v; by destruct (as_u64 v)|]. cbn [result_bind].
  destruct (extension_total as_object request 2 _ _ Hv eq_refl) as [metadata ->]; [by intros []|].
  destruct (extension_total as_bool request 3 _ _ Hv eq_refl) as [parallel ->]; [by intros []|].
  destruct (extension_total as_bool request 4 _ _ Hv eq_refl) as [store ->]; [by intros []|].
  destruct (extension_total as_f64 request 5 _ _ Hv eq_refl) as [temperature ->];
    [intros v; by destruct (as_f64 v)|].
  destruct (extension_total as_f64 request 8 _ _ Hv eq_refl) as [top_p ->];
    [intros v; by destruct (as_f64 v)|].
  destruct (extension_total as_str request 10 _ _ Hv eq_refl) as [user ->]; [by intros []|].
  cbn [result_bind]. eauto.
Qed.

Lemma template_instructions request effort created_at reason template :
  response_template_from_parts request effort created_at reason = Ok template ->
  rt_instructions template = cr_extensions request !! "instructions"%string.
Proof.
  unfold response_template_from_parts. do 7 (intros (? & _ & H)%result_bind_Ok; revert H).
  by intros [= <-].
Qed.

(** An answer whose template repeats more than one MiB of instructions: the
    stream has a body that ends at its first poll, without a frame, *)
Lemma long_instructions_stream instructions executed codec first counters elapsed :
  1024 * 1024 < zlen (json_bytes instructions) ->
  cr_extensions (pr_request (es_public executed)) !! "instructions"%string = Some instructions ->
  stream_codec OpenAiResponses executed = Ok codec ->
  exists s, poll_next elapsed (client_stream first codec counters) = (s, PollReady None) /\ cs_finished s = true.
Proof.
  intros Hlong Hi. unfold stream_codec, responses_stream_codec.
  intros (c & Hc & [= <-])%result_bind_Ok. apply result_bind_Ok in Hc as (template & Ht & [= <-]).
  apply template_instructions in Ht. rewrite Hi in Ht.
  set (context := mkResponsesContext _ _ _).
  destruct (rl_context json_bytes ResponsesLimits_default context) as [[]|e] eqn:Hctx; [|by eapply unready_ends].
  apply rl_context_instructions in Hctx. subst context. cbn in Hctx. rewrite Ht in Hctx. cbn in Hctx. lia.
Qed.

(** and the complete answer is refused as the client's error. *)
Lemma long_instructions_refused instructions executed template events :
  1024 * 1024 < zlen (json_bytes instructions) ->
  cr_extensions (pr_request (er_public executed)) !! "instructions"%string = Some instructions ->
  response_template executed = Ok template -> events <> [] ->
  exists e, responses_encode_response json_bytes
      (mkResponsesContext (pr_model (er_public executed)) (ur_created_at (er_response executed)) template) events = Err e /\
    http_status e = 400.
Proof.
  intros Hlong Hi Ht Hne. set (context := mkResponsesContext _ _ _).
  destruct (rl_context json_bytes ResponsesLimits_default context) as [[]|e] eqn:Hctx.
  { apply rl_context_instructions in Hctx. subst context. cbn in Hctx.
    rewrite (template_instructions _ _ _ _ _ Ht), Hi in Hctx. cbn in Hctx. lia. }
  exists e. split; [|by rewrite (rl_context_refuses _ _ _ Hctx)].
  destruct events as [|event events]; [done|].
  unfold responses_encode_response, responses_encode_with_limits, collect_response, encode_event_values,
    rc_validate_context_once. cbn [st_fold]. unfold st_bind, st_get, st_lift.
  cbn [rc_terminal rc_context_validated rc_limits rc_context responses_with_limits]. by rewrite Hctx.
Qed.
End Dialects.

(** ** Witnesses *)
(** The slices of [demo_serializer], but a string as [n] slices of a KiB. *)
#[local] Instance demo_writer (n : nat) : JsonWriter :=
  fun v => match v with VString _ => replicate n (replicate 1024 32) | _ => [demo_serializer v] end.

Lemma demo_writer_compact n : @CompactJson (demo_writer n).
Proof.
  split; [by split|]. intros v. unfold json_bytes, json_slices, demo_writer.
  destruct v; try reflexivity. induction n as [|n IH]; [done|].
  change (replicate (S n) (replicate 1024 32)) with (replicate 1024 32 :: replicate n (replicate 1024 32)).
  cbn [concat]. rewrite has_line_break_app, IH. vm_compute. reflexivity.
Qed.

Definition demo_public (extensions : json_map) : PublicRequest :=
  mkPublicRequest "claude" (mkCanonical "req-1" "claude" None [] [] true None extensions) None.

Definition demo_executed_stream (extensions : json_map) : ExecutedStream :=
  mkExecutedStream (Some (EvCreated "resp")) (stream_channel 7) (demo_public extensions)
    (mkObservation None "p" "m" None None).

Definition demo_messages_codec : ClientStreamCodec := CodecAnthropic (anthropic_stream_codec (demo_executed_stream ∅)).

Abbreviation demo_messages_run :=
  (@run _ (@client_stream_codec (demo_writer 2)) demo_actions
     (client_stream (EvCreated "resp") demo_messages_codec counters_zero)).

Lemma every_stream_closed_once_witness :
  exists s polls body final, demo_messages_run = Some (s, polls) /\ frames polls = body ++ [final] /\
    last_named messages_closing final /\ Forall (fun f => ~ last_named messages_closing f) body.
Proof.
  assert (Hc : is_someb demo_messages_run = true /\ (fun r => cs_finished r.1) <$> demo_messages_run = Some true)
    by (vm_compute; done).
  destruct demo_messages_run as [[s polls]|] eqn:E; [|by destruct Hc]. destruct Hc as [_ [= Hf]].
  destruct (every_stream_closed_once (HW := demo_writer 2) (H := demo_writer_compact 2)
              demo_messages_codec (EvCreated "resp") counters_zero demo_actions s polls)
    as (body & final & H1 & H2 & H3).
  - split; [reflexivity|vm_compute; reflexivity].
  - exact E.
  - exact demo_no_cancel.
  - exact Hf.
  - exists s, polls, body, final. split_and!; [reflexivity|exact H1|exact H2|exact H3].
Defined.

Lemma demo_long_bytes : 1024 * 1024 < zlen (@json_bytes (demo_writer 1025) (VString "long")).
Proof.
  assert (forall n, zlen (concat (replicate n (replicate 1024 32))) = 1024 * Z.of_nat n) as Hz.
  { induction n as [|n IH]; [done|].
    change (concat (replicate (S n) (replicate 1024 32)))
      with (replicate 1024 32 ++ concat (replicate n (replicate 1024 32))).
    rewrite zlen_app, IH. unfold zlen. rewrite length_replicate. lia. }
  unfold json_bytes, json_slices, demo_writer. rewrite Hz. lia.
Qed.
