(* ===== verification/DataRoutes.v ===== *)
(** * The data-plane routes

    Models [crates/wokcore-server/src/data_plane/routes.rs] (the text routes)
    and [models_endpoint.rs]: a body is decoded in the dialect of its path,
    executed, and answered in that dialect.  The handlers run on what the
    server's state has of them: the published snapshot, whether there is an
    executor, and the stream counters. *)
From S2P Require Import Prelude Json Canonical NetAddr Inbound.
From S2P Require Import ChatDecode ResponsesDecode AnthropicDecode InboundCodec.
From S2P Require Import Accounts Execution RuntimeDiagnostics DataPlane ClientStream.
From S2P Require Import Routing Snapshot.
From S2P Require Import AccountsSpec ExecutionSpec ExecutionCorrect ChatEncode ResponsesEncode AnthropicEncode ChatClient DispatchSpec ClientCodecsSpec.
From S2P Require Import Pump Dispatch DataRegistry ClientCodecs.

Record ServerState : Type := mkServerState {
  ss_snapshot : option RuntimeSnapshot;
  ss_has_executor : bool;
  ss_stream_diagnostics : StreamRuntimeCounters
}.

Abbreviation body_stream := (CanonicalSseStream ClientStreamCodec).
Abbreviation response := (Response body_stream).

Definition attach_request_observation (r : response) (observation : RequestObservationContext) : response :=
  mkResponse (rsp_status r) (rsp_headers r) (rsp_body r) (Some observation).

Definition attach_optional_request_observation (r : response) (observation : option RequestObservationContext)
  : response :=
  match observation with
  | Some observation => attach_request_observation r observation
  | None => r
  end.

Definition mode_mismatch : GatewayError := gateway_internal "upstream execution mode mismatch".

Section Answers.
Context `{HW : JsonWriter}.

Definition encode_stream (state : ServerState) (executed : ExecutedStream) (request_id : string)
  (protocol : ClientProtocol) : response :=
  match stream_encode executed protocol (ss_stream_diagnostics state) with
  | Ok r => attach_request_observation r (es_observation executed)
  | Err error =>
      attach_request_observation
        (gateway_error_response error request_id protocol (us_upstream_request_id (es_stream executed)))
        (es_observation executed)
  end.

(** [match encode(&executed) { .. }] of the handlers. *)
Definition encode_response_with (encode : ExecutedResponse -> result GatewayError response)
  (executed : ExecutedResponse) (request_id : string) (protocol : ClientProtocol) : response :=
  match encode executed with
  | Ok r => attach_request_observation r (er_observation executed)
  | Err error =>
      attach_request_observation
        (gateway_error_response error request_id protocol (ur_upstream_request_id (er_response executed)))
        (er_observation executed)
  end.

Definition execution_error_response (error : DataPlaneExecutionError) (request_id : string)
  (protocol : ClientProtocol) : response :=
  attach_optional_request_observation
    (gateway_error_response (de_error error) request_id protocol (de_upstream_request_id error))
    (de_observation error).

(** [match execute_canonical(..).await { .. }] of the text handlers. *)
Definition answer_text (state : ServerState) (streaming : bool)
  (encode : ExecutedResponse -> result GatewayError response) (request_id : string)
  (protocol : ClientProtocol) (r : result DataPlaneExecutionError Executed) : response :=
  match r, streaming with
  | Ok (ExResponse executed), false => encode_response_with encode executed request_id protocol
  | Ok (ExStream executed), true => encode_stream state executed request_id protocol
  | Ok _, _ => gateway_error_response mode_mismatch request_id protocol None
  | Err error, _ => execution_error_response error request_id protocol
  end.
End Answers.

Section Routes.
Context {H : Type} `{AccountHealth H} `{EventSerde} `{HW : JsonWriter}.
Context `{HU : UrlCrate, HT : !UrlText, HB : Base64Crate, HJ : JsonCrate}.
Context `{HC : ChatWire, HR : ResponsesWire, HA : AnthropicWire}.
Context (executor : UpstreamExecutionRequest -> UpstreamExecutionResult).

Definition decode (protocol : ClientProtocol) (request_id : string) (bytes : list Z)
  : result GatewayError CanonicalRequest :=
  let? codec := ok_or (inbound_codec protocol) unsupported_capability in
  inbound_decode codec request_id bytes InboundLimits_default.

(** What a handler returns: its response ([None] is a panic) and what it did. *)
Abbreviation handled := (option response * (call_log * H))%type.

Definition execute_state (state : ServerState) (client_id : string) (canonical : CanonicalRequest)
  (operation : UpstreamOperation) (surroundings : AccountAuthentication -> Surroundings H) (h : H)
  : option (result DataPlaneExecutionError Executed) * (call_log * H) :=
  execute_canonical executor (ss_snapshot state) (ss_has_executor state) client_id canonical operation
    surroundings h.

Definition respond (answer : result DataPlaneExecutionError Executed -> response)
  (r : option (result DataPlaneExecutionError Executed) * (call_log * H)) : handled :=
  (answer <$> r.1, r.2).

Definition execute_text (state : ServerState) (client_id request_id : string) (protocol : ClientProtocol)
  (bytes : list Z) (validate : CanonicalRequest -> result GatewayError unit)
  (encode : ExecutedResponse -> result GatewayError response)
  (surroundings : AccountAuthentication -> Surroundings H) (h : H) : handled :=
  match decode protocol request_id bytes with
  | Err error => (Some (gateway_error_response error request_id protocol None), ([], h))
  | Ok canonical =>
      match validate canonical with
      | Err error => (Some (gateway_error_response error request_id protocol None), ([], h))
      | Ok _ =>
          respond (answer_text state (cr_stream canonical) encode request_id protocol)
            (execute_state state client_id canonical OpText surroundings h)
      end
  end.

Definition responses_handler (state : ServerState) (client_id request_id : string) (protocol : ClientProtocol)
  (bytes : list Z) (surroundings : AccountAuthentication -> Surroundings H) (h : H) : handled :=
  execute_text state client_id request_id protocol bytes responses_validate_request responses_encode
    surroundings h.

Definition chat_handler (state : ServerState) (client_id request_id : string) (protocol : ClientProtocol)
  (bytes : list Z) (surroundings : AccountAuthentication -> Surroundings H) (h : H) : handled :=
  execute_text state client_id request_id protocol bytes (fun _ => Ok tt) chat_encode_answer surroundings h.

Definition anthropic_handler (state : ServerState) (client_id request_id : string) (protocol : ClientProtocol)
  (bytes : list Z) (surroundings : AccountAuthentication -> Surroundings H) (h : H) : handled :=
  match decode protocol request_id bytes with
  | Err error => (Some (gateway_error_response error request_id protocol None), ([], h))
  | Ok canonical =>
      respond (answer_text state (cr_stream canonical)
                 (fun executed => anthropic_encode_answer executed request_id) request_id protocol)
        (execute_state state client_id canonical OpText surroundings h)
  end.

Definition answer_count (request_id : string) (protocol : ClientProtocol)
  (r : result DataPlaneExecutionError Executed) : response :=
  match r with
  | Ok (ExResponse executed) => encode_response_with encode_token_count executed request_id protocol
  | Ok (ExStream _) => gateway_error_response mode_mismatch request_id protocol None
  | Err error => execution_error_response error request_id protocol
  end.

Definition count_tokens_handler (state : ServerState) (client_id request_id : string)
  (protocol : ClientProtocol) (bytes : list Z) (surroundings : AccountAuthentication -> Surroundings H)
  (h : H) : handled :=
  match decode protocol request_id bytes with
  | Err error => (Some (gateway_error_response error request_id protocol None), ([], h))
  | Ok canonical =>
      respond (answer_count request_id protocol)
        (execute_state state client_id canonical OpCountTokens surroundings h)
  end.

(** The handler the router runs for a path of the text protocols. *)
Definition text_handler (protocol : ClientProtocol) :=
  match protocol with
  | OpenAiResponses => Some responses_handler
  | OpenAiChatCompletions => Some chat_handler
  | AnthropicMessages => Some anthropic_handler
  | AnthropicCountTokens => Some count_tokens_handler
  | OpenAiModels | OpenAiImageGenerations | OpenAiImageEdits => None
  end.
End Routes.

(** ** models_endpoint.rs *)
Section Models.
Context `{HW : JsonWriter}.

Definition model_value (model : PublicModelMetadata) : Value :=
  VObject [("id"%string, VString (pm_id model)); ("object"%string, VString "model");
           ("created"%string, json_uint 0); ("owned_by"%string, VString (pm_owned_by model))].

Definition models_handler (snapshot : option RuntimeSnapshot) (request_id : string)
  (protocol : ClientProtocol) : response :=
  match snapshot with
  | None => gateway_error_response no_executor request_id protocol None
  | Some snapshot =>
      let value := VObject [("object"%string, VString "list");
        ("data"%string, VArray (model_value <$> snap_public_models snapshot))] in
      match bounded_json_response value None with
      | Ok r => r
      | Err error => gateway_error_response error request_id protocol None
      end
  end.
End Models.

(** * The data-plane routes: every request is answered

    Whatever a client sends and whatever the upstream does, a text route
    returns one response, of the kind the client asked for, in its dialect. *)

(** ** What an execution returns *)
(** The answer is of the kind the executed request asked for. *)
Definition of_kind (public : PublicRequest) (executed : Executed) : Prop :=
  match executed with
  | ExResponse e => cr_stream (pr_request public) = false /\ er_public e = public
  | ExStream e => cr_stream (pr_request public) = true /\ es_public e = public /\ is_Some (es_first_event e)
  end.

Lemma executed_from_attempt_kind output public observation executed :
  executed_from_attempt output public observation = Ok executed -> of_kind public executed.
Proof.
  unfold executed_from_attempt. destruct (cr_stream (pr_request public)) eqn:Hs, output; intros [= <-]; cbn; eauto.
Qed.

Lemma settle_outcome_kind route public last out executed :
  settle_outcome route public last out = Some (Ok executed) -> of_kind public executed.
Proof.
  destruct out as [output b hist|terminal hist]; cbn [settle_outcome].
  - destruct (request_observation _ _ _); cbn; [|done]. intros [= H]. by eapply executed_from_attempt_kind.
  - by destruct (request_observation_without_usage _ _); cbn.
Qed.

Section Kinds.
Context {H : Type} `{AccountHealth H} `{EventSerde}.
Context (executor : UpstreamExecutionRequest -> UpstreamExecutionResult).

Lemma try_authentications_kind rid operation route public surroundings kinds last h executed :
  (try_authentications executor rid operation route public surroundings kinds last h).1 = Some (Ok executed) ->
  of_kind public executed.
Proof.
  revert last h. induction kinds as [|a kinds IH]; intros last h; cbn [try_authentications]; [done|].
  destruct (candidates_for _ a) as [l|]; [|done].
  destruct (execute _ _ _ _) as [w [out|]]; [|done]. destruct (goes_on out).
  - set (last' := foldl _ _ _). specialize (IH last' (world_health w)).
    by destruct (try_authentications _ _ _ _ _ _ _ _ _) as [r [calls h']].
  - apply settle_outcome_kind.
Qed.

Lemma execute_kind snapshot has_executor client_id canonical surroundings h executed :
  (execute_canonical executor snapshot has_executor client_id canonical OpText surroundings h).1
    = Some (Ok executed) ->
  exists public, of_kind public executed /\ cr_stream (pr_request public) = cr_stream canonical /\
    cr_extensions (pr_request public) = cr_extensions canonical /\ pr_model public = cr_req_model canonical.
Proof.
  unfold execute_canonical. destruct (prepare _ _ _ _ _) as [[ex|[route routed]]|e] eqn:Hp; [| |done].
  - exfalso. revert Hp. unfold prepare.
    intros (snap & _ & Hp)%result_bind_Ok. apply result_bind_Ok in Hp as (? & _ & Hp).
    apply result_bind_Ok in Hp as (route & _ & Hp). apply check_Ok in Hp as [_ Hp].
    rewrite bool_decide_false in Hp by done. cbn [andb] in Hp. apply check_Ok in Hp as [_ Hp].
    by apply result_bind_Ok in Hp as (? & _ & Hp).
  - assert (Hrouted : cr_stream routed = cr_stream canonical /\ cr_extensions routed = cr_extensions canonical).
    { revert Hp. unfold prepare.
      intros (snap & _ & Hp)%result_bind_Ok. apply result_bind_Ok in Hp as (? & _ & Hp).
      apply result_bind_Ok in Hp as (route' & _ & Hp). apply check_Ok in Hp as [_ Hp].
      rewrite bool_decide_false in Hp by done. cbn [andb] in Hp. apply check_Ok in Hp as [_ Hp].
      apply result_bind_Ok in Hp as (routed' & Hr & [= -> ->]). unfold routed_request in Hr.
      by apply result_bind_Ok in Hr as (? & _ & [= <-]). }
    set (public := mkPublicRequest _ _ _). intros Hr. exists public. split; [|by destruct Hrouted].
    destruct (authentications _) as [|a kinds]; [|by eapply try_authentications_kind].
    revert Hr. unfold execute_accountless. destruct (execute _ _ _ _) as [w [out|]]; [|done].
    apply settle_outcome_kind.
Qed.
End Kinds.

(** ** What a response says *)
Section Told.
Context `{HW : JsonWriter, HJ : JsonCrate}.

(** The public part of an error, in the dialect: its status, code and message, and nothing of its
    diagnostic. *)
Record tells_error (protocol : ClientProtocol) (request_id : string) (error : GatewayError) (r : response)
  : Prop := {
  te_status : rsp_status r = http_status error;
  te_type : rsp_headers r !! "content-type"%string = Some "application/json"%string;
  te_body : rsp_body r = BodyBytes (json_bytes
    (error_envelope protocol (error_code error) (public_message error) request_id))
}.

Record tells_value (value : Value) (r : response) : Prop := {
  tv_status : rsp_status r = 200;
  tv_type : rsp_headers r !! "content-type"%string = Some "application/json"%string;
  tv_body : rsp_body r = BodyBytes (json_bytes value);
  tv_size : zlen (json_bytes value) <= JSON_BODY_LIMIT
}.

Record tells_stream (stream : body_stream) (r : response) : Prop := {
  ts_status : rsp_status r = 200;
  ts_type : rsp_headers r !! "content-type"%string = Some "text/event-stream"%string;
  ts_body : rsp_body r = BodyStream stream
}.

(** The value of a whole answer in the dialect. *)
Definition answer_value (protocol : ClientProtocol) (request_id : string) (e : ExecutedResponse)
  : result GatewayError Value :=
  match protocol, ur_output (er_response e) with
  | AnthropicCountTokens, OutTokenCount n => Ok (json_object [("input_tokens"%string, json_uint n)])
  | AnthropicCountTokens, OutEvents _ | _, OutTokenCount _ => Err unexpected_output
  | OpenAiResponses, OutEvents events =>
      let? template := response_template e in
      responses_encode_response json_bytes
        (mkResponsesContext (pr_model (er_public e)) (ur_created_at (er_response e)) template) events
  | OpenAiChatCompletions, OutEvents _ => chat_encode json_bytes (pr_model (er_public e)) (er_response e)
  | _, OutEvents events =>
      anthropic_encode_response json_bytes from_str
        (mkAnthropicContext request_id (pr_model (er_public e)) (initial_usage events)
           (mkAnthropicTemplate (stop_reason (ur_finish_reason (er_response e)))
              (ur_stop_sequence (er_response e)) (ur_thinking_signatures (er_response e)) ∅)) events
  end.

(** A whole answer: the value, if it fits a body, or an error. *)
Definition tells_answer (protocol : ClientProtocol) (request_id : string) (e : ExecutedResponse) (r : response)
  : Prop :=
  match answer_value protocol request_id e with
  | Ok value => if zlen (json_bytes value) <=? JSON_BODY_LIMIT then tells_value value r
                else tells_error protocol request_id (gateway_internal "response encoding") r
  | Err error => tells_error protocol request_id error r
  end.

Lemma attached_header (r : response) id name :
  name <> "x-upstream-request-id"%string ->
  rsp_headers (attach_upstream_request_id r id) !! name = rsp_headers r !! name.
Proof. intros Hn. destruct id; [|done]. cbn. by rewrite lookup_insert_ne. Qed.

Lemma attached_rest (r : response) id :
  rsp_status (attach_upstream_request_id r id) = rsp_status r /\
  rsp_body (attach_upstream_request_id r id) = rsp_body r.
Proof. by destruct id. Qed.

Lemma error_told error request_id protocol id :
  tells_error protocol request_id error (gateway_error_response error request_id protocol id).
Proof.
  unfold gateway_error_response. rewrite gateway_status.
  assert (http_status error =? 401 = false) as H401 by (unfold http_status; by destruct (ge_kind error)).
  split; rewrite ?attached_header by done; rewrite ?(proj1 (attached_rest _ _)), ?(proj2 (attached_rest _ _));
    unfold public_error_response; by rewrite H401.
Qed.

Lemma value_told value id : zlen (json_bytes value) <= JSON_BODY_LIMIT -> tells_value value (json_ok value id).
Proof.
  intros Hf. unfold json_ok.
  split; rewrite ?attached_header by done; by rewrite ?(proj1 (attached_rest _ _)), ?(proj2 (attached_rest _ _)).
Qed.

(** Observations do not change what a client is told. *)
Lemma observed_error protocol request_id error r o :
  tells_error protocol request_id error r -> tells_error protocol request_id error (attach_request_observation r o).
Proof. by intros [? ? ?]. Qed.

Lemma observed_value value r o : tells_value value r -> tells_value value (attach_request_observation r o).
Proof. by intros [? ? ? ?]. Qed.

Lemma answer_told protocol request_id e encode :
  encode e = (let? value := answer_value protocol request_id e in
              bounded_json_response value (ur_upstream_request_id (er_response e))) ->
  tells_answer protocol request_id e (encode_response_with encode e request_id protocol).
Proof.
  intros He. unfold encode_response_with, tells_answer. rewrite He.
  destruct (answer_value protocol request_id e) as [value|error]; cbn [result_bind];
    [|apply observed_error, error_told].
  rewrite bounded_json_response_spec. destruct (Z.leb_spec (zlen (json_bytes value)) JSON_BODY_LIMIT).
  - by apply observed_value, value_told.
  - apply observed_error, error_told.
Qed.

Lemma stream_told executed protocol request_id state first codec :
  stream_codec protocol executed = Ok codec -> es_first_event executed = Some first ->
  tells_stream (client_stream first codec (ss_stream_diagnostics state))
    (encode_stream state executed request_id protocol).
Proof.
  intros Hc Hf. unfold encode_stream, stream_encode. rewrite Hc, Hf. cbn [ok_or result_bind].
  split; cbn [attach_request_observation rsp_status rsp_headers rsp_body];
    rewrite ?attached_header by done; by rewrite ?(proj1 (attached_rest _ _)), ?(proj2 (attached_rest _ _)).
Qed.
End Told.

(** ** The routes *)
Definition text_protocols : list ClientProtocol := [OpenAiResponses; OpenAiChatCompletions; AnthropicMessages].

Definition request_check (protocol : ClientProtocol) (canonical : CanonicalRequest) : result GatewayError unit :=
  match protocol with OpenAiResponses => responses_validate_request canonical | _ => Ok tt end.

Lemma request_check_extensions protocol c c' :
  cr_extensions c = cr_extensions c' -> request_check protocol c = request_check protocol c'.
Proof.
  intros He. destruct protocol; try done. cbn [request_check]. unfold responses_validate_request, validate_extension_value.
  by rewrite He.
Qed.

(** The stream of a checked request has a codec. *)
Lemma stream_codec_total protocol executed :
  protocol ∈ text_protocols -> request_check protocol (pr_request (es_public executed)) = Ok tt ->
  exists codec, stream_codec protocol executed = Ok codec.
Proof.
  intros Hp Hc. repeat (apply elem_of_cons in Hp as [->|Hp]); [| | |by apply not_elem_of_nil in Hp];
    cbn [stream_codec]; [|by eauto..]. unfold responses_stream_codec.
  destruct (template_total _ (pr_reasoning_effort (es_public executed)) (us_created_at (es_stream executed))
              (us_finish_reason (es_stream executed)) Hc) as [template ->]. cbn. eauto.
Qed.

Section Routes.
Context {H : Type} `{AccountHealthLaws H} `{EventSerde} `{HW : JsonWriter}.
Context `{HU : UrlCrate, HT : !UrlText, HB : Base64Crate, HJ : JsonCrate}.
Context `{HC : ChatWire, HR : ResponsesWire, HA : AnthropicWire}.
Context (executor : UpstreamExecutionRequest -> UpstreamExecutionResult).

(** The three handlers run the request the same way. *)
Lemma text_handler_run protocol handler state client_id request_id bytes surroundings (h : H) :
  protocol ∈ text_protocols -> text_handler executor protocol = Some handler ->
  exists encode,
    (forall e, encode e = (let? value := answer_value protocol request_id e in
                           bounded_json_response value (ur_upstream_request_id (er_response e)))) /\
    handler state client_id request_id protocol bytes surroundings h =
      execute_text executor state client_id request_id protocol bytes (request_check protocol) encode surroundings h.
Proof.
  intros Hp. repeat (apply elem_of_cons in Hp as [->|Hp]); [| | |by apply not_elem_of_nil in Hp]; intros [= <-].
  - exists responses_encode. split; [|done]. intros e. unfold responses_encode, answer_value.
    destruct (ur_output (er_response e)); [|done]. by destruct (response_template e).
  - exists chat_encode_answer. split; [|done]. intros e. unfold chat_encode_answer, answer_value, chat_encode.
    by destruct (ur_output (er_response e)).
  - exists (fun e => anthropic_encode_answer e request_id). split; [|done]. intros e.
    unfold anthropic_encode_answer, answer_value. by destruct (ur_output (er_response e)).
Qed.

(** C7: Every request of a text client is answered, once and in its dialect.  Whatever the bytes of the
    body, whatever the executor and the clock do, and whatever other requests do to the health table
    as long as they leave it consistent (every operation of the table does,
    [ExecutionCorrect.used_steady]), the route returns a response.  A
    body the dialect's decoder or checks refuse is answered with that error, without a call to an
    upstream.  Otherwise the answer is that of the execution: an error with its public status, code
    and message; for a request without streaming the complete answer of the dialect's encoder, if it
    is within the body limit; for a streaming request, and only for one, the dialect's event stream,
    once the upstream has produced its first event. *)
Theorem text_routes_answer (protocol : ClientProtocol) (handler : ServerState -> string -> string ->
    ClientProtocol -> list Z -> (AccountAuthentication -> Surroundings H) -> H -> option response * (call_log * H))
  (state : ServerState) (client_id request_id : string) (bytes : list Z)
  (surroundings : AccountAuthentication -> Surroundings H) (h : H) :
  protocol ∈ text_protocols -> text_handler executor protocol = Some handler ->
  (forall upstream a, steady (environment upstream (surroundings a))) -> health_ok h ->
  exists r calls h', handler state client_id request_id protocol bytes surroundings h = (Some r, (calls, h')) /\
    match decode protocol request_id bytes with
    | Err error => tells_error protocol request_id error r /\ calls = []
    | Ok canonical =>
        match request_check protocol canonical with
        | Err error => tells_error protocol request_id error r /\ calls = []
        | Ok _ =>
            let run := execute_state executor state client_id canonical OpText surroundings h in
            run.2 = (calls, h') /\
            match run.1 with
            | None => False
            | Some (Err error) => tells_error protocol request_id (de_error error) r
            | Some (Ok (ExResponse e)) => cr_stream canonical = false /\ tells_answer protocol request_id e r
            | Some (Ok (ExStream e)) =>
                cr_stream canonical = true /\ exists first codec, es_first_event e = Some first /\
                  stream_codec protocol e = Ok codec /\
                  tells_stream (client_stream first codec (ss_stream_diagnostics state)) r
            end
        end
    end.
Proof.
  intros Hp Hh Hs Hok. destruct (text_handler_run _ _ state client_id request_id bytes surroundings h Hp Hh)
    as (encode & Hencode & ->). unfold execute_text.
  destruct (decode protocol request_id bytes) as [canonical|error].
  2: { eexists _, [], h. split_and!; [reflexivity|apply error_told|done]. }
  destruct (request_check protocol canonical) as [[]|error] eqn:Hc.
  2: { eexists _, [], h. split_and!; [reflexivity|apply error_told|done]. }
  unfold respond, execute_state.
  destruct (dispatch_returns executor (ss_snapshot state) (ss_has_executor state) client_id canonical OpText
              surroundings h Hs Hok) as (r & calls & h' & Hrun).
  rewrite Hrun. cbn [fst snd fmap option_fmap option_map]. eexists _, calls, h'. split; [reflexivity|].
  split; [done|]. destruct r as [executed|error].
  2: { cbn [answer_text]. unfold execution_error_response. destruct (de_observation error);
         [apply observed_error|]; apply error_told. }
  destruct (execute_kind executor (ss_snapshot state) (ss_has_executor state) client_id canonical surroundings h executed)
    as (public & Hk & Hstream & Hext & _); [by rewrite Hrun|].
  destruct executed as [e|e]; cbn [of_kind] in Hk.
  - destruct Hk as [Hkind _]. rewrite <-Hstream, Hkind. split; [done|]. by apply answer_told.
  - destruct Hk as (Hkind & Hpub & [first Hfirst]). rewrite <-Hstream, Hkind. split; [done|].
    destruct (stream_codec_total protocol e Hp) as [codec Hcodec].
    { rewrite Hpub. by rewrite (request_check_extensions _ _ _ Hext). }
    exists first, codec. split_and!; [done|done|]. by apply stream_told.
Qed.

(** C40: Long instructions lose the whole answer.  A Responses request the route's decoder and checks
    accept, whose instructions take more than one MiB of JSON although the body is inside its 16 MiB,
    is executed like any other.  When the execution succeeds, so that the upstream has done its
    work, a streaming client gets status 200 and a body that ends at its first poll with no
    frame at all, neither an event nor an error, and a client without streaming whose answer has any
    event is told with status 400 that its request was invalid. *)
Theorem long_instructions_lose_answer (state : ServerState) (client_id request_id : string) (bytes : list Z)
  (surroundings : AccountAuthentication -> Surroundings H) (h : H) (canonical : CanonicalRequest)
  (instructions : Value) (executed : Executed) :
  decode OpenAiResponses request_id bytes = Ok canonical -> responses_validate_request canonical = Ok tt ->
  cr_extensions canonical !! "instructions"%string = Some instructions ->
  1024 * 1024 < zlen (json_bytes instructions) ->
  let run := execute_state executor state client_id canonical OpText surroundings h in
  run.1 = Some (Ok executed) ->
  zlen bytes <= 16 * 1024 * 1024 /\
  exists r, responses_handler executor state client_id request_id OpenAiResponses bytes surroundings h = (Some r, run.2) /\
    match executed with
    | ExStream e =>
        cr_stream canonical = true /\ rsp_status r = 200 /\ exists body, rsp_body r = BodyStream body /\
          forall elapsed, exists s, poll_next elapsed body = (s, PollReady None) /\ cs_finished s = true
    | ExResponse e =>
        cr_stream canonical = false /\
        forall events, ur_output (er_response e) = OutEvents events -> events <> [] ->
          rsp_status r = 400 /\ exists error, tells_error OpenAiResponses request_id error r
    end.
Proof.
  intros Hd Hc Hi Hlong run Hrun. split.
  { unfold decode in Hd. apply result_bind_Ok in Hd as (codec & _ & [Hg _]%check_Ok).
    apply guard_err_Ok, Z.ltb_ge in Hg. exact Hg. }
  unfold responses_handler, execute_text. rewrite Hd, Hc. unfold respond. fold run. rewrite Hrun.
  eexists. split; [reflexivity|].
  destruct (execute_kind executor (ss_snapshot state) (ss_has_executor state) client_id canonical surroundings h executed Hrun)
    as (public & Hk & Hstream & Hext & _).
  assert (Hchk : responses_validate_request (pr_request public) = Ok tt)
    by (etrans; [exact (request_check_extensions OpenAiResponses _ _ Hext)|exact Hc]).
  rewrite <-Hext in Hi. destruct executed as [e|e]; cbn [of_kind] in Hk.
  - destruct Hk as [Hkind <-]. rewrite <-Hstream, Hkind. split; [done|]. intros events Hev Hne.
    cbn [answer_text]. unfold encode_response_with, responses_encode. rewrite Hev.
    destruct (template_total _ (pr_reasoning_effort (er_public e)) (ur_created_at (er_response e))
                (ur_finish_reason (er_response e)) Hchk) as [template Ht].
    assert (Ht' : response_template e = Ok template) by exact Ht. rewrite Ht'. cbn [result_bind].
    destruct (long_instructions_refused _ _ _ events Hlong Hi Ht' Hne) as (error & -> & Herr). cbn [result_bind].
    pose proof (error_told error request_id OpenAiResponses (ur_upstream_request_id (er_response e))) as Htold.
    split; [|exists error; by apply observed_error].
    cbn [attach_request_observation rsp_status]. by rewrite (te_status _ _ _ _ Htold).
  - destruct Hk as (Hkind & <- & [first Hfirst]). rewrite <-Hstream, Hkind. split; [done|]. cbn [answer_text].
    destruct (stream_codec_total OpenAiResponses e) as [codec Hcodec]; [left|done|].
    destruct (stream_told e OpenAiResponses request_id state first codec Hcodec Hfirst) as [Hs _ Hb].
    split; [done|]. eexists. split; [exact Hb|]. intros elapsed. by eapply long_instructions_stream.
Qed.
End Routes.

(** ** Witness *)
(** A streaming Responses request for the model of [demo_snapshot]. *)
#[local] Instance route_responses : ResponsesWire := {|
  responses_from_slice := fun _ => Some (mkResponsesRequest "m" (InputText "hello") [] true None None ∅) |}.
#[local] Instance route_serde : EventSerde :=
  {| event_writes _ := [1]; events_writes _ := [1]; request_writes _ := [1] |}.
#[local] Instance route_writer : JsonWriter := fun v => [demo_serializer v].

Definition route_executor (_ : UpstreamExecutionRequest) : UpstreamExecutionResult :=
  ExecStreaming (stream_channel 7) (ReceivedItem (ItemEvent (EvCreated "resp"))).

Definition route_state : ServerState := mkServerState (Some demo_snapshot) true counters_zero.

Definition route_handler :=
  @responses_handler AccountHealthTable _ route_serde route_writer demo_url_crate text_url_text text_base64 text_json
    text_chat route_responses text_anthropic route_executor.

Lemma text_routes_answer_witness :
  exists r calls h' stream,
    route_handler route_state "client" "req" OpenAiResponses [1] busy_surroundings demo_table = (Some r, (calls, h')) /\
    zlen calls = 1 /\ rsp_status r = 200 /\ rsp_body r = BodyStream stream.
Proof.
  destruct (@text_routes_answer AccountHealthTable _ _ route_serde route_writer demo_url_crate text_url_text text_base64
              text_json text_chat route_responses text_anthropic route_executor OpenAiResponses route_handler
              route_state "client" "req" [1] busy_surroundings demo_table) as (r & calls & h' & Hrun & Hanswer).
  - left.
  - reflexivity.
  - exact busy_surroundings_steady.
  - exact demo_consistent.
  - assert (Hcalls : zlen calls = 1).
    { assert (Hn : zlen (route_handler route_state "client" "req" OpenAiResponses [1] busy_surroundings demo_table).2.1 = 1)
        by (vm_compute; reflexivity). by rewrite Hrun in Hn. }
    destruct (decode OpenAiResponses "req" [1]) as [canonical|error] eqn:Hd; [|by destruct Hanswer as [_ ->]].
    destruct (request_check OpenAiResponses canonical) as [[]|error]; [|by destruct Hanswer as [_ ->]].
    destruct Hanswer as [_ Hanswer].
    assert (Hex : match (execute_state route_executor route_state "client" canonical OpText busy_surroundings demo_table).1
                  with Some (Ok (ExStream _)) => true | _ => false end = true).
    { vm_compute in Hd. injection Hd as <-. vm_compute. reflexivity. }
    destruct (execute_state _ _ _ _ _ _ _).1 as [[[e|e]|error]|]; [done| |done|done].
    destruct Hanswer as (_ & first & codec & _ & _ & [Hs _ Hb]).
    eexists r, calls, h', _. split_and!; [exact Hrun|exact Hcalls|exact Hs|exact Hb].
Defined.

(** The same request with instructions, which the writer writes as 1025 KiB. *)
#[local] Instance long_responses : ResponsesWire := {|
  responses_from_slice := fun _ => Some (mkResponsesRequest "m" (InputText "hello") [] true None None
    {["instructions"%string := VString "long"]}) |}.

Definition long_canonical : result GatewayError CanonicalRequest :=
  @decode demo_url_crate text_url_text text_base64 text_json text_chat long_responses text_anthropic
    OpenAiResponses "req" [1].

Lemma long_instructions_lose_answer_witness :
  exists r log body s,
    @responses_handler AccountHealthTable _ route_serde (demo_writer 1025) demo_url_crate text_url_text text_base64
      text_json text_chat long_responses text_anthropic route_executor route_state "client" "req" OpenAiResponses [1]
      busy_surroundings demo_table = (Some r, log) /\
    rsp_status r = 200 /\ rsp_body r = BodyStream body /\
    @poll_next _ (@client_stream_codec (demo_writer 1025)) 1 body = (s, PollReady None).
Proof.
  assert (Hok : is_ok long_canonical = true) by (vm_compute; reflexivity).
  destruct long_canonical as [canonical|error] eqn:Hd; [clear Hok|discriminate Hok].
  assert (Hcheck : responses_validate_request canonical = Ok tt /\
                   cr_extensions canonical !! "instructions"%string = Some (VString "long")).
  { vm_compute in Hd. injection Hd as <-. split; vm_compute; reflexivity. }
  destruct Hcheck as [Hc Hi].
  assert (Hex : match (@execute_state AccountHealthTable _ route_serde route_executor route_state "client" canonical
                         OpText busy_surroundings demo_table).1
                with Some (Ok (ExStream _)) => true | _ => false end = true).
  { vm_compute in Hd. injection Hd as <-. vm_compute. reflexivity. }
  destruct (@execute_state AccountHealthTable _ route_serde route_executor route_state "client" canonical OpText
              busy_surroundings demo_table).1 as [[executed|error]|] eqn:Hrun.
  2, 3: discriminate Hex.
  destruct (@long_instructions_lose_answer AccountHealthTable _ route_serde (demo_writer 1025) demo_url_crate
              text_url_text text_base64 text_json text_chat long_responses text_anthropic route_executor route_state
              "client" "req" [1] busy_surroundings demo_table canonical (VString "long") executed
              Hd Hc Hi demo_long_bytes Hrun) as (_ & r & Hr & Ha).
  destruct executed as [e|e].
  - discriminate Hex.
  - destruct Ha as (_ & Hs & body & Hbody & Hend). destruct (Hend 1) as (s & Hp & _).
    eexists r, _, body, s. split_and!; [exact Hr|exact Hs|exact Hbody|exact Hp].
Defined.
