(* ===== verification/Security.v ===== *)
(** * Errors of the management API ([wokcore-server/src/api/error.rs])

    Every error of the API is one of these constants with the id of its request;
    its response carries the status, the code and the message in one envelope,
    and the component diagnostics blame. *)
From S2P Require Import Prelude Json DataRegistry.
From S2P Require Import Text Ident AuthRegistry Lifecycle DataPlane.

Inductive DiagnosticComponent : Set :=
| ComponentCore | ComponentRouter | ComponentProvider | ComponentStorage | ComponentSessions
| ComponentDiagnostics | ComponentPlatform.

Record ApiError : Set := mkApiError {
  api_status : Z;
  api_code : string;
  api_message : string;
  api_component : DiagnosticComponent
}.

Definition api_invalid_authority : ApiError :=
  mkApiError 400 "invalid_authority" "request authority is invalid" ComponentCore.

Definition api_origin_not_allowed : ApiError :=
  mkApiError 403 "origin_not_allowed" "browser origins are not allowed" ComponentCore.

Definition api_not_found : ApiError :=
  mkApiError 404 "not_found" "route was not found" ComponentCore.

Definition api_method_not_allowed : ApiError :=
  mkApiError 405 "method_not_allowed" "method is not allowed" ComponentCore.

Definition api_unauthorized : ApiError :=
  mkApiError 401 "unauthorized" "bearer authentication is required" ComponentCore.

Definition api_insufficient_scope : ApiError :=
  mkApiError 403 "insufficient_scope" "client token does not grant the required scope" ComponentCore.

Definition api_invalid_request_body : ApiError :=
  mkApiError 400 "invalid_request_body" "request body is invalid" ComponentCore.

Definition api_unsupported_media_type : ApiError :=
  mkApiError 415 "unsupported_media_type" "request content type is not supported" ComponentCore.

Definition api_provider_runtime_unavailable : ApiError :=
  mkApiError 503 "provider_runtime_unavailable" "Provider runtime is unavailable" ComponentProvider.

Definition api_provider_config_invalid : ApiError :=
  mkApiError 400 "provider_config_invalid" "Provider configuration is invalid" ComponentProvider.

Definition api_provider_config_revision_conflict : ApiError :=
  mkApiError 409 "provider_config_revision_conflict" "Provider configuration revision conflicts" ComponentProvider.

Definition api_provider_secret_not_found : ApiError :=
  mkApiError 404 "provider_secret_not_found" "Provider secret was not found" ComponentProvider.

Definition api_provider_secret_already_exists : ApiError :=
  mkApiError 409 "provider_secret_already_exists" "a different Provider secret already exists for this credential scope" ComponentProvider.

Definition api_provider_secret_in_use : ApiError :=
  mkApiError 409 "provider_secret_in_use" "Provider secret is referenced by the active configuration" ComponentProvider.

Definition api_provider_secret_protected : ApiError :=
  mkApiError 403 "provider_secret_protected" "secret reference is reserved for WokCore runtime authentication" ComponentProvider.

Definition api_provider_secret_store_read_only : ApiError :=
  mkApiError 409 "provider_secret_store_read_only" "Provider secret store is read-only" ComponentProvider.

Definition api_provider_storage_failure : ApiError :=
  mkApiError 500 "internal_error" "Provider management storage operation failed" ComponentStorage.

Definition api_provider_internal_failure : ApiError :=
  mkApiError 500 "internal_error" "Provider management operation failed" ComponentProvider.

Definition api_invalid_query : ApiError :=
  mkApiError 400 "invalid_query" "query parameters are invalid" ComponentCore.

Definition api_limit_out_of_range : ApiError :=
  mkApiError 400 "limit_out_of_range" "query count limit is out of range" ComponentCore.

Definition api_response_limit_out_of_range : ApiError :=
  mkApiError 400 "response_limit_out_of_range" "response byte limit is out of range" ComponentCore.

Definition api_export_limit_out_of_range : ApiError :=
  mkApiError 400 "export_limit_out_of_range" "diagnostic export byte limit is out of range" ComponentCore.

Definition api_invalid_time_range : ApiError :=
  mkApiError 400 "invalid_time_range" "query time range is invalid" ComponentCore.

Definition api_invalid_cursor : ApiError :=
  mkApiError 400 "invalid_cursor" "pagination cursor is invalid" ComponentCore.

Definition api_query_busy : ApiError :=
  mkApiError 503 "query_busy" "query service is busy" ComponentCore.

Definition api_query_timeout : ApiError :=
  mkApiError 503 "query_timeout" "query deadline elapsed" ComponentCore.

Definition api_session_not_found : ApiError :=
  mkApiError 404 "session_not_found" "Session was not found" ComponentSessions.

Definition api_session_unavailable : ApiError :=
  mkApiError 410 "session_unavailable" "Session source is unavailable" ComponentSessions.

Definition api_session_cursor_stale : ApiError :=
  mkApiError 409 "session_cursor_stale" "Session cursor no longer matches the source generation" ComponentSessions.

Definition api_diagnostics_export_busy : ApiError :=
  mkApiError 429 "diagnostics_export_busy" "another diagnostic export is already running" ComponentDiagnostics.

Definition api_payload_too_large : ApiError :=
  mkApiError 413 "payload_too_large" "request body exceeds the allowed size" ComponentCore.

Definition api_service_maintenance : ApiError :=
  mkApiError 409 "service_maintenance" "service is in maintenance" ComponentCore.

Definition api_lifecycle_conflict : ApiError :=
  mkApiError 409 "lifecycle_conflict" "service lifecycle transition is unavailable" ComponentCore.

Definition api_invalid_client_id : ApiError :=
  mkApiError 400 "invalid_client_id" "client identifier is invalid" ComponentCore.

Definition api_invalid_path_parameters : ApiError :=
  mkApiError 400 "invalid_path_parameters" "path parameters are invalid" ComponentCore.

Definition api_storage_failure : ApiError :=
  mkApiError 500 "internal_error" "authentication metadata operation failed" ComponentStorage.

Definition api_internal_failure : ApiError :=
  mkApiError 500 "internal_error" "control-plane request failed" ComponentCore.

(** The response with the component its extensions carry. *)
Record ApiResponse (S : Type) : Type := mkApiResponse {
  ar_response : Response S;
  ar_component : option DiagnosticComponent
}.
Arguments mkApiResponse {S} _ _.
Arguments ar_response {S} _.
Arguments ar_component {S} _.

(** [IntoResponse for ApiError]. *)
Definition api_error_response `{JsonWriter} {S} (error : ApiError) (request_id : string) : ApiResponse S :=
  let value := VObject [("error"%string,
    VObject [("code"%string, VString (api_code error)); ("message"%string, VString (api_message error));
             ("request_id"%string, VString request_id)])] in
  let response := json_response (api_status error) value in
  mkApiResponse
    (if api_status error =? 401 then insert_header "www-authenticate" "Bearer" response else response)
    (Some (api_component error)).

(** * The security middleware ([wokcore-server/src/api/security.rs])

    Every request passes here before a handler sees it: the authority it was
    sent to, browser origins, the class of its route, its bearer token, the form
    of a data-plane request, and admission.  [enforce_request_security] decides,
    the limit of a management body included, and hands on what the handler gets.

    Header names are in lower case, a header value is the string of its bytes,
    and a header may occur more than once.  The registry of tokens is the
    interface [Access]; whether admission lets the request in and the lifecycle
    phase are what the lifecycle answers at that moment. *)

Inductive Method : Set := GET | HEAD | POST | PUT | PATCH | DELETE | OtherMethod (name : string).

#[global] Instance Method_eq_dec : EqDecision Method.
Proof. solve_decision. Defined.

Record Request : Type := mkRequest {
  rq_method : Method;
  rq_path : string;
  rq_authority : option string;
  rq_headers : list (string * string);
  rq_body : option (list Z);
  rq_authorized : option AuthorizedClient;
  rq_protocol : option ClientProtocol
}.

(** [headers().get_all(name)]. *)
Definition get_all (request : Request) (name : string) : list string :=
  snd <$> List.filter (fun h => String.eqb h.1 name) (rq_headers request).

(** The value of a header that occurs exactly once. *)
Definition single_header (request : Request) (name : string) : option string :=
  match get_all request name with [value] => Some value | _ => None end.

(** [HeaderValue::to_str]: visible ASCII, spaces and tabs. *)
Definition header_to_str (value : string) : option string :=
  if forallb (fun b => (b =? 9) || ((32 <=? b) && (b <? 127))) (str_bytes value) then Some value else None.

Definition bearer_candidate (request : Request) : option string :=
  value ← single_header request "authorization";
  text ← header_to_str value;
  strip_prefix "Bearer " text.

(** ** Routes *)
Inductive RouteAuthClass : Set :=
| ClassPublic
| ClassManagement
| ClassManagementOrClientScope (scope : ClientTokenScope)
| ClassClientScope (scope : ClientTokenScope).

#[global] Instance RouteAuthClass_eq_dec : EqDecision RouteAuthClass.
Proof. solve_decision. Defined.

(** [str::split] on one byte. *)
Fixpoint split_at (sep : Z) (cur l : list Z) : list (list Z) :=
  match l with
  | [] => [cur]
  | b :: r => if b =? sep then cur :: split_at sep [] r else split_at sep (cur ++ [b]) r
  end.

Definition split_bytes (sep : Z) (l : list Z) : list (list Z) := split_at sep [] l.

Definition path_segments (path : string) : list (list Z) := split_bytes 47 (str_bytes path).

Definition is_client_token_path (path : string) : bool :=
  match strip_prefix "/wokcore/v1/clients/" path with
  | Some rest =>
      match path_segments rest with
      | [client_id; tokens; token_id] =>
          bool_decide (tokens = str_bytes "tokens") && negb (is_emptyb client_id) && negb (is_emptyb token_id)
      | _ => false
      end
  | None => false
  end.

Definition is_provider_secret_path (path : string) : bool :=
  match strip_prefix "/wokcore/v1/provider-secrets/" path with
  | Some secret_ref => negb (str_is_empty secret_ref) && negb (existsb (Z.eqb 47) (str_bytes secret_ref))
  | None => false
  end.

Definition is_session_messages_path (path : string) : bool :=
  match strip_prefix "/wokcore/v1/sessions/" path with
  | Some rest =>
      match path_segments rest with
      | [session_key; messages] =>
          bool_decide (messages = str_bytes "messages") && negb (is_emptyb session_key)
      | _ => false
      end
  | None => false
  end.

Definition one_of (paths : list string) (path : string) : bool := existsb (String.eqb path) paths.

Definition is_method (m : Method) (method : Method) : bool := bool_decide (method = m).

Definition classify_route (method : Method) (path : string) : RouteAuthClass :=
  if one_of ["/wokcore/v1/health"; "/wokcore/v1/capabilities"] path then ClassPublic
  else if is_method GET method && one_of ["/wokcore/v1/service/status"] path
  then ClassManagementOrClientScope ServiceRead
  else if is_method POST method
       && one_of ["/wokcore/v1/service/drain"; "/wokcore/v1/service/drain/cancel";
                  "/wokcore/v1/service/stop"] path
  then ClassManagementOrClientScope ServiceControl
  else if is_method GET method
       && one_of ["/wokcore/v1/providers/catalog"; "/wokcore/v1/providers/runtime";
                  "/wokcore/v1/providers/models"] path
  then ClassManagementOrClientScope ProvidersRead
  else if (is_method POST method && one_of ["/wokcore/v1/providers/config/validate"] path)
       || (is_method PUT method && one_of ["/wokcore/v1/providers/config"] path)
       || (is_method POST method && one_of ["/wokcore/v1/providers/reload"] path)
       || (is_method POST method && one_of ["/wokcore/v1/provider-secrets"] path)
       || ((is_method PUT method || is_method DELETE method) && is_provider_secret_path path)
  then ClassManagementOrClientScope ProvidersWrite
  else if (is_method POST method && one_of ["/wokcore/v1/clients/authorize"] path)
       || ((is_method GET method || is_method DELETE method) && is_client_token_path path)
  then ClassManagementOrClientScope ClientsManage
  else if is_method GET method && (one_of ["/wokcore/v1/sessions"] path || is_session_messages_path path)
  then ClassManagementOrClientScope SessionsRead
  else if is_method GET method && one_of ["/wokcore/v1/usage"] path
  then ClassManagementOrClientScope UsageRead
  else if is_method GET method && one_of ["/wokcore/v1/logs"] path
  then ClassManagementOrClientScope DiagnosticsRead
  else if is_method GET method && one_of ["/wokcore/v1/diagnostics/export"] path
  then ClassManagementOrClientScope DiagnosticsExport
  else if starts_with "/wokcore/v1/" path then ClassManagement
  else if starts_with "/v1/" path then ClassClientScope ProxyUse
  else ClassPublic.

Definition is_metadata_mutation (method : Method) (path : string) : bool :=
  (is_method POST method && one_of ["/wokcore/v1/clients/authorize"] path)
  || (is_method PUT method && one_of ["/wokcore/v1/providers/config"] path)
  || (is_method POST method && one_of ["/wokcore/v1/providers/reload"] path)
  || (is_method POST method && one_of ["/wokcore/v1/provider-secrets"] path)
  || ((is_method PUT method || is_method DELETE method) && starts_with "/wokcore/v1/provider-secrets/" path)
  || (is_method DELETE method && is_client_token_path path).

Definition requires_bounded_body (method : Method) : bool :=
  match method with POST | PUT | PATCH | DELETE => true | _ => false end.

Definition allowed_during_maintenance (path : string) : bool :=
  one_of ["/wokcore/v1/service/status"; "/wokcore/v1/service/drain/cancel"; "/wokcore/v1/service/stop"] path.

(** ** The form of a data-plane request *)
Record DataPlaneSecurityFailure : Set := mkSecurityFailure {
  sf_status : Z;
  sf_code : string;
  sf_message : string
}.

Definition eq_ignore_case (l : list Z) (s : string) : bool :=
  bool_decide (lower_char <$> l = lower_char <$> str_bytes s).

(** [split_once('=')]. *)
Fixpoint split_once (sep : Z) (l : list Z) : option (list Z * list Z) :=
  match l with
  | [] => None
  | b :: r => if b =? sep then Some ([], r) else '(x, y) ← split_once sep r; Some (b :: x, y)
  end.

(** [strip_prefix('"')] and then [strip_suffix('"')], or the value itself. *)
Definition unquote (l : list Z) : list Z :=
  match l with
  | 34 :: r => match rev r with 34 :: inner => rev inner | _ => l end
  | _ => l
  end.

Definition is_multipart_form_data (value : string) : bool :=
  match split_bytes 59 (str_bytes value) with
  | [media_type; parameter] =>
      eq_ignore_case (trim_chars media_type) "multipart/form-data"
      && match split_once 61 (trim_chars parameter) with
         | Some (name, boundary) =>
             eq_ignore_case (trim_chars name) "boundary" && negb (is_emptyb (unquote (trim_chars boundary)))
         | None => false
         end
  | _ => false
  end.

Definition validate_data_plane_request (request : Request) (protocol : ClientProtocol)
  : option DataPlaneSecurityFailure :=
  let expected_method := if bool_decide (protocol = OpenAiModels) then GET else POST in
  if negb (is_method expected_method (rq_method request)) then
    Some (mkSecurityFailure 405 "method_not_allowed" "The request method is not allowed.")
  else
    match request_body_kind protocol with
    | BodyNone =>
        if negb (is_emptyb (get_all request "content-type"))
        then Some (mkSecurityFailure 415 "unsupported_media_type" "This endpoint does not accept a request body.")
        else None
    | BodyJson =>
        if is_some_and (fun value => is_some_and (fun value => is_json_content_type (Some value))
                                       (header_to_str value)) (single_header request "content-type")
        then None
        else Some (mkSecurityFailure 415 "unsupported_media_type" "Content-Type must be application/json.")
    | BodyMultipartFormData =>
        if is_some_and is_multipart_form_data (single_header request "content-type" ≫= header_to_str)
        then None
        else Some (mkSecurityFailure 415 "unsupported_media_type"
                     "Content-Type must be multipart/form-data with a boundary.")
    end.

(** ** The middleware *)
(** What the token registry answers. *)
Class Access (R : Type) : Type := {
  access_management : R -> string -> bool;
  access_scope : R -> string -> ClientTokenScope -> option AuthorizedClient;
  access_any : R -> string -> option AuthorizedClient
}.

(** How a request that passes is run: as it is; with its body read first;
    admitted until the response's body ends; or both admitted and read first. *)
Inductive Passage : Set := PassPlain | PassBounded | PassAdmitted | PassMutation.

Definition set_authorized (client : AuthorizedClient) (r : Request) : Request :=
  mkRequest (rq_method r) (rq_path r) (rq_authority r) (rq_headers r) (rq_body r) (Some client) (rq_protocol r).

(** The token does not go further than this, and handlers learn the dialect. *)
Definition set_data_plane (protocol : ClientProtocol) (r : Request) : Request :=
  mkRequest (rq_method r) (rq_path r) (rq_authority r)
    (List.filter (fun h => negb (String.eqb h.1 "authorization")) (rq_headers r)) (rq_body r)
    (rq_authorized r) (Some protocol).

Section Middleware.
Context {R : Type} `{Access R} `{JsonWriter} {S : Type}.

Abbreviation api_response := (ApiResponse S).

(** A response without the marker of an API error. *)
Definition plain (r : Response S) : api_response := mkApiResponse r None.

Definition public_error (status : Z) (code message request_id : string) (protocol : ClientProtocol)
  : api_response := plain (public_error_response status code message request_id protocol).

Definition protocol_auth_error (protocol : option ClientProtocol) (request_id : string) (status : Z)
  (code message : string) : api_response :=
  match protocol with
  | Some protocol => public_error status code message request_id protocol
  | None =>
      if status =? 403 then api_error_response api_insufficient_scope request_id
      else api_error_response api_unauthorized request_id
  end.

(** The token check of a route's class; [Ok] is the request a handler gets. *)
Definition authenticate (auth : R) (class : RouteAuthClass) (protocol : option ClientProtocol)
  (request_id : string) (request : Request) : result api_response Request :=
  let candidate := bearer_candidate request in
  match class with
  | ClassPublic => Ok request
  | ClassManagement =>
      if is_some_and (access_management auth) candidate then Ok request
      else Err (api_error_response api_unauthorized request_id)
  | ClassManagementOrClientScope scope =>
      match candidate with
      | None => Err (api_error_response api_unauthorized request_id)
      | Some candidate =>
          if negb (access_management auth candidate) && negb (is_someb (access_scope auth candidate scope)) then
            if is_someb (access_any auth candidate)
            then Err (api_error_response api_insufficient_scope request_id)
            else Err (api_error_response api_unauthorized request_id)
          else Ok request
      end
  | ClassClientScope scope =>
      match candidate with
      | None => Err (protocol_auth_error protocol request_id 401 "unauthorized" "The request is not authorized.")
      | Some candidate =>
          match access_scope auth candidate scope with
          | Some authorized => Ok (set_authorized authorized request)
          | None =>
              if is_someb (access_any auth candidate)
              then Err (protocol_auth_error protocol request_id 403 "insufficient_scope"
                          "The client token does not grant proxy.use.")
              else Err (protocol_auth_error protocol request_id 401 "unauthorized"
                          "The request is not authorized.")
          end
      end
  end.

(** What the lifecycle answers: whether it admits a request, and its phase. *)
Record Moment : Set := mkMoment { mo_admits : bool; mo_phase : LifecyclePhase }.

Definition authority_valid (authority : string) (request : Request) : bool :=
  bool_decide (single_header request "host" = Some authority)
  && match rq_authority request with Some a => bool_decide (a = authority) | None => true end.

(** [run_bounded_request]: [to_bytes] with 16 KiB, and the rest only if it succeeds. *)
Definition bounded_body (request : Request) : bool :=
  is_some_and (fun body => zlen body <=? 16 * 1024) (rq_body request).

Definition run_bounded_request (passage : Passage) (request_id : string) (request : Request)
  : result api_response (Passage * Request) :=
  if bounded_body request then Ok (passage, request) else Err (api_error_response api_payload_too_large request_id).

(** What follows the token check. *)
Definition admit_request (moment : Moment) (protocol : option ClientProtocol) (request_id : string) (request : Request)
  : result api_response (Passage * Request) :=
  match protocol with
  | Some protocol =>
      match validate_data_plane_request request protocol with
      | Some f => Err (public_error (sf_status f) (sf_code f) (sf_message f) request_id protocol)
      | None =>
          let request := set_data_plane protocol request in
          if mo_admits moment then Ok (PassAdmitted, request)
          else Err (public_error 503 "service_maintenance" "The service is temporarily unavailable."
                      request_id protocol)
      end
  | None =>
      if is_metadata_mutation (rq_method request) (rq_path request) then
        if mo_admits moment then run_bounded_request PassMutation request_id request
        else Err (api_error_response api_service_maintenance request_id)
      else if is_method GET (rq_method request) && negb (bool_decide (mo_phase moment = Running))
              && negb (allowed_during_maintenance (rq_path request))
      then Err (api_error_response api_service_maintenance request_id)
      else if requires_bounded_body (rq_method request) then run_bounded_request PassBounded request_id request
      else Ok (PassPlain, request)
  end.

(** The middleware up to [next.run]: the response it refuses a request with, or
    the request it runs. *)
Definition enforce_request_security (authority : string) (auth : R) (moment : Moment) (request_id : string)
  (request : Request) : result api_response (Passage * Request) :=
  let protocol := resolve (rq_path request) in
  check?
    if authority_valid authority request then Ok tt
    else Err (match protocol with
              | Some protocol => public_error 400 "invalid_authority" "The request authority is invalid."
                                   request_id protocol
              | None => api_error_response api_invalid_authority request_id
              end);
  check?
    if is_emptyb (get_all request "origin") then Ok tt
    else Err (match protocol with
              | Some protocol => public_error 403 "origin_not_allowed" "Browser origins are not allowed."
                                   request_id protocol
              | None => api_error_response api_origin_not_allowed request_id
              end);
  let class := classify_route (rq_method request) (rq_path request) in
  if bool_decide (class = ClassPublic) then Ok (PassPlain, request)
  else
    let? request := authenticate auth class protocol request_id request in
    admit_request moment protocol request_id request.

Definition secured (next : Request -> api_response) (authority : string) (auth : R) (moment : Moment)
  (request_id : string) (request : Request) : api_response :=
  match enforce_request_security authority auth moment request_id request with
  | Err r => r
  | Ok (_, request) => next request
  end.
End Middleware.

#[global] Instance registry_access {M} `{CryptoCrate} : Access (AuthRegistry (M := M)) := {|
  access_management := validate_management;
  access_scope := validate_client_scope;
  access_any := validate_any_client
|}.

(** * The router ([build_router] of [wokcore-server/src/api/mod.rs])

    The table of routes, and a request's way through the security middleware to
    its handler.  Which route of the table a path and a method select is the
    router crate's; [RouterLaws] states what it documents. *)

(** The handlers, by the names of their functions. *)
Inductive Handler : Set :=
| h_health | h_capabilities | h_service_status | h_drain | h_cancel_drain | h_stop | h_authorize
| h_list_sessions | h_session_messages | h_usage | h_logs | h_diagnostics_export
| h_catalog | h_runtime_status | h_models | h_validate_configuration | h_commit_configuration | h_reload
| h_create_secret | h_replace_secret | h_delete_secret | h_client_token_status | h_revoke
| h_responses | h_chat | h_anthropic | h_count_tokens | h_models_endpoint
| h_images_generation | h_images_edit
| h_not_found | h_method_not_allowed.

#[global] Instance Handler_eq_dec : EqDecision Handler.
Proof. solve_decision. Defined.

(** A route's path: literal text and [{parameters}]. *)
Inductive Piece : Set := Lit (text : string) | Param (name : string).

Record Route : Set := mkRoute {
  route_path : list Piece;
  route_methods : list (Method * Handler)
}.

Definition literal (path : string) (methods : list (Method * Handler)) : Route := mkRoute [Lit path] methods.

(** [on(GET, handler).on(HEAD, method_not_allowed)]. *)
Definition get_only (handler : Handler) : list (Method * Handler) :=
  [(GET, handler); (HEAD, h_method_not_allowed)].

Definition build_router : list Route := [
  literal "/wokcore/v1/health" (get_only h_health);
  literal "/wokcore/v1/capabilities" (get_only h_capabilities);
  literal "/wokcore/v1/service/status" (get_only h_service_status);
  literal "/wokcore/v1/service/drain" [(POST, h_drain)];
  literal "/wokcore/v1/service/drain/cancel" [(POST, h_cancel_drain)];
  literal "/wokcore/v1/service/stop" [(POST, h_stop)];
  literal "/wokcore/v1/clients/authorize" [(POST, h_authorize)];
  literal "/wokcore/v1/sessions" (get_only h_list_sessions);
  mkRoute [Lit "/wokcore/v1/sessions/"; Param "session_key"; Lit "/messages"] (get_only h_session_messages);
  literal "/wokcore/v1/usage" (get_only h_usage);
  literal "/wokcore/v1/logs" (get_only h_logs);
  literal "/wokcore/v1/diagnostics/export" (get_only h_diagnostics_export);
  literal "/wokcore/v1/providers/catalog" (get_only h_catalog);
  literal "/wokcore/v1/providers/runtime" (get_only h_runtime_status);
  literal "/wokcore/v1/providers/models" (get_only h_models);
  literal "/wokcore/v1/providers/config/validate" [(POST, h_validate_configuration)];
  literal "/wokcore/v1/providers/config" [(PUT, h_commit_configuration)];
  literal "/wokcore/v1/providers/reload" [(POST, h_reload)];
  literal "/wokcore/v1/provider-secrets" [(POST, h_create_secret)];
  mkRoute [Lit "/wokcore/v1/provider-secrets/"; Param "secret_ref"]
    [(PUT, h_replace_secret); (DELETE, h_delete_secret)];
  mkRoute [Lit "/wokcore/v1/clients/"; Param "client_id"; Lit "/tokens/"; Param "token_id"]
    [(GET, h_client_token_status); (DELETE, h_revoke)];
  literal "/v1/responses" [(POST, h_responses)];
  literal "/v1/chat/completions" [(POST, h_chat)];
  literal "/v1/messages" [(POST, h_anthropic)];
  literal "/v1/messages/count_tokens" [(POST, h_count_tokens)];
  literal "/v1/models" [(GET, h_models_endpoint)];
  literal "/v1/images/generations" [(POST, h_images_generation)];
  literal "/v1/images/edits" [(POST, h_images_edit)]
].

(** ** The router crate *)
Class RouterCrate : Type := {
  (** the handler a method and a path select, with the parameters; an error
      says whether the path itself has a route *)
  select_route : list Route -> Method -> string -> result bool (Handler * list string)
}.

(** A path's text, its parameters filled in. *)
Fixpoint fill (pieces : list Piece) (params : list string) : option string :=
  match pieces, params with
  | [], [] => Some ""%string
  | Lit text :: pieces, _ => rest ← fill pieces params; Some (text ++ rest)%string
  | Param _ :: pieces, p :: params => rest ← fill pieces params; Some (p ++ rest)%string
  | _, _ => None
  end.

(** What a parameter may stand for: a segment that is not empty. *)
Definition segment (p : string) : Prop := p <> ""%string /\ 47 ∉ str_bytes p.

(** A [GET] route also serves [HEAD], unless [HEAD] has a handler of its own. *)
Definition serves (methods : list (Method * Handler)) (method : Method) (h : Handler) : Prop :=
  (method, h) ∈ methods
  \/ (method = HEAD /\ (GET, h) ∈ methods /\ HEAD ∉ methods.*1).

Class RouterLaws `{RouterCrate} : Prop := {
  select_route_sound : forall routes method path h params,
    select_route routes method path = Ok (h, params) ->
    exists r, r ∈ routes /\ fill (route_path r) params = Some path /\ Forall segment params
              /\ serves (route_methods r) method h
}.

(** [fallback] and [method_not_allowed_fallback]. *)
Definition dispatch `{RouterCrate} (method : Method) (path : string) : Handler * list string :=
  match select_route build_router method path with
  | Ok selected => selected
  | Err true => (h_method_not_allowed, [])
  | Err false => (h_not_found, [])
  end.

(** The service: the middleware before the router's handlers. *)
Definition serve `{RouterCrate} {R} `{Access R} `{JsonWriter} {S}
  (handle : Handler -> list string -> Request -> ApiResponse S) (authority : string) (auth : R)
  (moment : Moment) (request_id : string) : Request -> ApiResponse S :=
  secured (fun request => let '(h, params) := dispatch (rq_method request) (rq_path request) in
                          handle h params request)
    authority auth moment request_id.
