(* ===== verification/SecuritySpec.v ===== *)
(** * What stands between a request and a handler

    For every route of the router: the requests the middleware lets through to
    its handler, and what the handler is given of them. *)
From S2P Require Import Prelude Text Json Ident AuthRegistry Lifecycle DataPlane DataRegistry.
From S2P Require Import Security.

(** ** What a handler asks of a request *)
Inductive Requirement : Set :=
| Open
| NeedsManagement
| NeedsScope (scope : ClientTokenScope)
| NeedsProxy (protocol : ClientProtocol).

Definition scope_of (h : Handler) : Requirement :=
  match h with
  | h_health | h_capabilities | h_not_found | h_method_not_allowed => Open
  | h_service_status => NeedsScope ServiceRead
  | h_drain | h_cancel_drain | h_stop => NeedsScope ServiceControl
  | h_authorize | h_client_token_status | h_revoke => NeedsScope ClientsManage
  | h_list_sessions | h_session_messages => NeedsScope SessionsRead
  | h_usage => NeedsScope UsageRead
  | h_logs => NeedsScope DiagnosticsRead
  | h_diagnostics_export => NeedsScope DiagnosticsExport
  | h_catalog | h_runtime_status | h_models => NeedsScope ProvidersRead
  | h_validate_configuration | h_commit_configuration | h_reload
  | h_create_secret | h_replace_secret | h_delete_secret => NeedsScope ProvidersWrite
  | h_responses => NeedsProxy OpenAiResponses
  | h_chat => NeedsProxy OpenAiChatCompletions
  | h_anthropic => NeedsProxy AnthropicMessages
  | h_count_tokens => NeedsProxy AnthropicCountTokens
  | h_models_endpoint => NeedsProxy OpenAiModels
  | h_images_generation => NeedsProxy OpenAiImageGenerations
  | h_images_edit => NeedsProxy OpenAiImageEdits
  end.

(** A scope does not extend to [HEAD]. *)
Definition required (method : Method) (h : Handler) : Requirement :=
  match scope_of h with
  | NeedsScope scope => if bool_decide (method = HEAD) then NeedsManagement else NeedsScope scope
  | r => r
  end.

(** The handlers that change what is stored. *)
Definition mutates (h : Handler) : bool :=
  match h with
  | h_authorize | h_revoke | h_commit_configuration | h_reload
  | h_create_secret | h_replace_secret | h_delete_secret => true
  | _ => false
  end.

(** When the service lets a handler run. *)
Definition in_service (moment : Moment) (method : Method) (h : Handler) : Prop :=
  match scope_of h with
  | Open => True
  | NeedsProxy _ => mo_admits moment = true
  | _ => if mutates h then mo_admits moment = true
         else method = GET -> h = h_service_status \/ mo_phase moment = Running
  end.

(** The bodies a handler of the management API is given: of the methods that
    have one, read whole and within 16 KiB. *)
Definition body_fits (method : Method) (h : Handler) (request : Request) : Prop :=
  match scope_of h with
  | Open | NeedsProxy _ => True
  | _ => requires_bounded_body method = true ->
         exists body, rq_body request = Some body /\ zlen body <= 16 * 1024
  end.

(** The requests a handler is open to, with the request it is given. *)
Definition granted {R} `{Access R} (auth : R) (need : Requirement) (request given : Request) : Prop :=
  match need with
  | Open => given = request
  | NeedsManagement =>
      given = request /\ exists token, bearer_candidate request = Some token
        /\ access_management auth token = true
  | NeedsScope scope =>
      given = request /\ exists token, bearer_candidate request = Some token
        /\ (access_management auth token = true \/ is_Some (access_scope auth token scope))
  | NeedsProxy protocol =>
      exists token client, bearer_candidate request = Some token
        /\ access_scope auth token ProxyUse = Some client
        /\ validate_data_plane_request request protocol = None
        /\ given = set_data_plane protocol (set_authorized client request)
  end.

(** ** The paths of a route *)
Lemma split_at_free sep cur l : sep ∉ l -> split_at sep cur l = [cur ++ l].
Proof.
  revert cur. induction l as [|b l IH]; intros cur Hl; cbn; [by rewrite app_nil_r|].
  apply not_elem_of_cons in Hl as [Hb Hl]. rewrite (proj2 (Z.eqb_neq _ _)) by congruence.
  rewrite IH by done. by rewrite <- app_assoc.
Qed.

Lemma split_at_cut sep cur l r : sep ∉ l -> split_at sep cur (l ++ sep :: r) = (cur ++ l) :: split_at sep [] r.
Proof.
  revert cur. induction l as [|b l IH]; intros cur Hl; cbn; [by rewrite Z.eqb_refl, app_nil_r|].
  apply not_elem_of_cons in Hl as [Hb Hl]. rewrite (proj2 (Z.eqb_neq _ _)) by congruence.
  rewrite IH by done. by rewrite <- app_assoc.
Qed.

Lemma strip_prefix_app p s : strip_prefix p (p +:+ s)%string = Some s.
Proof. by apply strip_prefix_Some. Qed.

Lemma segment_bytes p : segment p -> is_emptyb (str_bytes p) = false.
Proof. intros [Hp _]. destruct p; [done|]. done. Qed.

Lemma token_path client token : segment client -> segment token ->
  is_client_token_path ("/wokcore/v1/clients/" +:+ client +:+ "/tokens/" +:+ token)%string = true.
Proof.
  intros Hc Ht. unfold is_client_token_path. rewrite strip_prefix_app. unfold path_segments, split_bytes.
  rewrite !str_bytes_app. change (str_bytes "/tokens/") with (47 :: str_bytes "tokens" ++ [47]).
  cbn [app]. rewrite split_at_cut by apply Hc. rewrite <- app_assoc. cbn [app].
  rewrite split_at_cut by (by vm_compute; set_solver). rewrite split_at_free by apply Ht.
  cbn [app]. rewrite bool_decide_true, !segment_bytes by done. done.
Qed.

Lemma messages_path key : segment key ->
  is_session_messages_path ("/wokcore/v1/sessions/" +:+ key +:+ "/messages")%string = true.
Proof.
  intros Hk. unfold is_session_messages_path. rewrite strip_prefix_app. unfold path_segments, split_bytes.
  rewrite !str_bytes_app. change (str_bytes "/messages") with (47 :: str_bytes "messages").
  rewrite split_at_cut by apply Hk. rewrite split_at_free by (by vm_compute; set_solver).
  cbn [app]. rewrite bool_decide_true, segment_bytes by done. done.
Qed.

Lemma secret_path ref : segment ref ->
  is_provider_secret_path ("/wokcore/v1/provider-secrets/" +:+ ref)%string = true.
Proof.
  intros [Hr Hs]. unfold is_provider_secret_path. rewrite strip_prefix_app.
  rewrite (proj2 (str_is_empty_false _) Hr). cbn. apply negb_true_iff, not_true_is_false.
  intros (b & Hb & E%Z.eqb_eq)%existsb_exists. subst b. apply Hs. by apply list_elem_of_In.
Qed.

(** ** What the middleware takes a route for *)
Definition class_of (need : Requirement) : RouteAuthClass :=
  match need with
  | Open => ClassPublic
  | NeedsManagement => ClassManagement
  | NeedsScope scope => ClassManagementOrClientScope scope
  | NeedsProxy _ => ClassClientScope ProxyUse
  end.

Definition protocol_of (need : Requirement) : option ClientProtocol :=
  match need with NeedsProxy protocol => Some protocol | _ => None end.

Record taken_for (method : Method) (path : string) (h : Handler) : Prop := {
  tf_class : classify_route method path = class_of (required method h);
  tf_protocol : resolve path = protocol_of (required method h);
  tf_mutation : is_metadata_mutation method path = mutates h;
  tf_maintenance : method = GET -> allowed_during_maintenance path = bool_decide (h = h_service_status)
}.

(** The methods and handlers a route's list serves, one goal each. *)
Ltac served :=
  match goal with
  | Hs : serves _ ?m _ |- _ =>
      destruct Hs as [Hs|(Hm & Hs & Hh)]; [|subst m];
      unfold get_only in Hs; repeat (apply elem_of_cons in Hs as [Hs|Hs]; [|]);
      try (exfalso; by apply elem_of_nil in Hs); simplify_eq;
      try (exfalso; apply Hh; by vm_compute; set_solver)
  end.

Lemma taken_for_token method client token h : segment client -> segment token ->
  serves [(GET, h_client_token_status); (DELETE, h_revoke)] method h ->
  taken_for method ("/wokcore/v1/clients/" +:+ client +:+ "/tokens/" +:+ token)%string h.
Proof.
  intros Hc Ht Hs. pose proof (token_path client token Hc Ht) as Hp.
  served; split; unfold classify_route, is_metadata_mutation; rewrite ?Hp; clear; by lazy.
Qed.

Lemma taken_for_messages method key h : segment key ->
  serves (get_only h_session_messages) method h -> h <> h_method_not_allowed ->
  taken_for method ("/wokcore/v1/sessions/" +:+ key +:+ "/messages")%string h.
Proof.
  intros Hk Hs Hn. pose proof (messages_path key Hk) as Hp.
  served; try done; split; unfold classify_route, is_metadata_mutation; rewrite ?Hp; clear; by lazy.
Qed.

Lemma taken_for_secret method ref h : segment ref ->
  serves [(PUT, h_replace_secret); (DELETE, h_delete_secret)] method h ->
  taken_for method ("/wokcore/v1/provider-secrets/" +:+ ref)%string h.
Proof.
  intros Hr Hs. pose proof (secret_path ref Hr) as Hp.
  served; split; unfold classify_route, is_metadata_mutation; rewrite ?Hp; clear; by lazy.
Qed.

(** A route without parameters is taken for what it is, by computation. *)
Lemma taken_for_literal path methods params p method h :
  literal path methods ∈ build_router -> fill [Lit path] params = Some p ->
  serves methods method h -> h <> h_method_not_allowed -> taken_for method p h.
Proof.
  intros Hin Hf Hs Hn. destruct params as [|x params]; [|by destruct params].
  cbn in Hf. rewrite str_app_nil_r in Hf. injection Hf as <-.
  unfold build_router in Hin.
  repeat (apply elem_of_cons in Hin as [Hin|Hin]); try (exfalso; by apply elem_of_nil in Hin).
  all: unfold literal in Hin; simplify_eq; served; try done; split; clear; by lazy.
Qed.

(** The routes of the table: without parameters, or one of three with. *)
Lemma build_router_cases r : r ∈ build_router ->
  (exists path, route_path r = [Lit path]) \/
  r ∈ [mkRoute [Lit "/wokcore/v1/sessions/"; Param "session_key"; Lit "/messages"] (get_only h_session_messages);
       mkRoute [Lit "/wokcore/v1/provider-secrets/"; Param "secret_ref"]
         [(PUT, h_replace_secret); (DELETE, h_delete_secret)];
       mkRoute [Lit "/wokcore/v1/clients/"; Param "client_id"; Lit "/tokens/"; Param "token_id"]
         [(GET, h_client_token_status); (DELETE, h_revoke)]].
Proof.
  intros Hr. unfold build_router in Hr.
  repeat (apply elem_of_cons in Hr as [->|Hr]); try (exfalso; by apply elem_of_nil in Hr).
  all: try (left; by eexists).
  all: right; rewrite !elem_of_cons; auto.
Qed.

(** What a parameter's value is. *)
Lemma fill_one a b params p : fill [Lit a; Param b] params = Some p -> Forall segment params ->
  exists x, segment x /\ p = (a +:+ x)%string.
Proof.
  destruct params as [|x [|y params]]; cbn; intros [= <-] [Hx _]%list.Forall_cons.
  exists x. by rewrite str_app_nil_r.
Qed.

Lemma fill_middle a b c params p : fill [Lit a; Param b; Lit c] params = Some p -> Forall segment params ->
  exists x, segment x /\ p = (a +:+ x +:+ c)%string.
Proof.
  destruct params as [|x [|y params]]; cbn; intros [= <-] [Hx _]%list.Forall_cons.
  exists x. by rewrite str_app_nil_r.
Qed.

Lemma fill_two a b c d params p : fill [Lit a; Param b; Lit c; Param d] params = Some p ->
  Forall segment params ->
  exists x y, segment x /\ segment y /\ p = (a +:+ x +:+ c +:+ y)%string.
Proof.
  destruct params as [|x [|y [|z params]]]; cbn; intros [= <-] [Hx [Hy _]%list.Forall_cons]%list.Forall_cons.
  exists x, y. by rewrite str_app_nil_r.
Qed.

Section Guard.
Context {R : Type} `{HA : Access R} `{HW : JsonWriter} {S : Type} `{HR : RouterCrate} `{HL : !RouterLaws}.
Implicit Types (auth : R) (request given : Request).

Lemma dispatched method path h params :
  dispatch method path = (h, params) -> h <> h_not_found -> h <> h_method_not_allowed ->
  taken_for method path h.
Proof using HL.
  unfold dispatch. intros Hd Hn Hm. destruct (select_route build_router method path) as [[h' ps]|[]] eqn:E; simplify_eq.
  apply select_route_sound in E as (r & Hr & Hf & Hs & Hm').
  destruct (build_router_cases r Hr) as [(text & Hp)|Hc].
  - destruct r as [pieces methods]. cbn in *. subst. eapply taken_for_literal; eauto.
  - repeat (apply elem_of_cons in Hc as [->|Hc]); try (exfalso; by apply elem_of_nil in Hc); cbn [route_path route_methods] in *.
    + destruct (fill_middle _ _ _ _ _ Hf Hs) as (x & Hx & ->). by apply taken_for_messages.
    + destruct (fill_one _ _ _ _ Hf Hs) as (x & Hx & ->). by apply taken_for_secret.
    + destruct (fill_two _ _ _ _ _ _ Hf Hs) as (x & y & Hx & Hy & ->). by apply taken_for_token.
Qed.

Lemma authority_valid_true authority request : authority_valid authority request = true <->
  single_header request "host" = Some authority /\
  (forall a, rq_authority request = Some a -> a = authority).
Proof.
  unfold authority_valid. rewrite andb_true_iff, bool_decide_eq_true.
  destruct (rq_authority request) as [a|]; [rewrite bool_decide_eq_true|]; naive_solver.
Qed.

(** The token check alone. *)
Definition token_granted auth (need : Requirement) request given : Prop :=
  match need with
  | NeedsProxy _ => exists token client, bearer_candidate request = Some token
      /\ access_scope auth token ProxyUse = Some client /\ given = set_authorized client request
  | need => granted auth need request given
  end.

Lemma authenticate_Ok auth need protocol request_id request given :
  authenticate (S := S) auth (class_of need) protocol request_id request = Ok given <->
  token_granted auth need request given.
Proof.
  unfold authenticate. destruct need as [| |scope|p]; cbn [class_of token_granted granted].
  { naive_solver. }
  all: destruct (bearer_candidate request) as [t|]; cbn [is_some_and]; [|naive_solver].
  - destruct (access_management auth t) eqn:E; split; intros H; simplify_eq; eauto.
    all: destruct H as (-> & ? & [= <-] & ?); congruence.
  - destruct (access_management auth t) eqn:Em; cbn; [split; intros H; simplify_eq; naive_solver|].
    destruct (access_scope auth t scope) as [c|] eqn:Es; cbn.
    + split; intros H; simplify_eq; [split; [done|]; exists t; rewrite Es; eauto|by destruct H as [-> _]].
    + destruct (is_someb _); split; try done; intros (_ & t' & [= <-] & [H|[c H]]); congruence.
  - destruct (access_scope auth t ProxyUse) as [c|] eqn:Es.
    + split; [intros [= <-]; eauto|]. intros (? & ? & [= <-] & ? & ->). congruence.
    + destruct (is_someb _); split; try done; intros (? & ? & [= <-] & ? & ->); congruence.
Qed.

(** What follows the token check, on a route of the table. *)
Lemma admit_proxy moment p request_id request given :
  (exists passage, admit_request (S := S) moment (Some p) request_id request = Ok (passage, given)) <->
  mo_admits moment = true /\ validate_data_plane_request request p = None /\ given = set_data_plane p request.
Proof.
  unfold admit_request. destruct (validate_data_plane_request request p); [naive_solver|].
  destruct (mo_admits moment); naive_solver.
Qed.

Lemma bounded_body_true request : bounded_body request = true <->
  exists body, rq_body request = Some body /\ zlen body <= 16 * 1024.
Proof.
  unfold bounded_body. destruct (rq_body request) as [body|]; cbn [is_some_and]; [rewrite Z.leb_le|]; naive_solver.
Qed.

Lemma bounded_Ok passage request_id request p given :
  run_bounded_request (S := S) passage request_id request = Ok (p, given) <->
  p = passage /\ given = request /\ exists body, rq_body request = Some body /\ zlen body <= 16 * 1024.
Proof. rewrite <- bounded_body_true. unfold run_bounded_request. destruct (bounded_body request); naive_solver. Qed.

Lemma mutation_bounded method path : is_metadata_mutation method path = true -> requires_bounded_body method = true.
Proof. unfold is_metadata_mutation, is_method. destruct method; done. Qed.

Lemma admit_management moment request_id h request given scope :
  scope_of h = NeedsScope scope -> taken_for (rq_method request) (rq_path request) h ->
  (exists passage, admit_request (S := S) moment None request_id request = Ok (passage, given)) <->
  (if mutates h then mo_admits moment = true
   else rq_method request = GET -> h = h_service_status \/ mo_phase moment = Running) /\
  body_fits (rq_method request) h request /\ given = request.
Proof.
  intros Hscope [_ _ Hmut Hmt]. unfold admit_request, body_fits. rewrite Hmut, Hscope. destruct (mutates h).
  { apply mutation_bounded in Hmut. destruct (mo_admits moment); [|naive_solver]. setoid_rewrite bounded_Ok. naive_solver. }
  assert (forall (P : Prop), (P <-> True) ->
    (exists passage, (if requires_bounded_body (rq_method request) then run_bounded_request (S := S) PassBounded request_id request
       else Ok (PassPlain, request)) = Ok (passage, given)) <->
    P /\ (requires_bounded_body (rq_method request) = true -> exists body, rq_body request = Some body /\ zlen body <= 16 * 1024)
    /\ given = request) as Hrest.
  { intros P HP. destruct (requires_bounded_body (rq_method request)); [setoid_rewrite bounded_Ok|]; naive_solver. }
  unfold is_method. destruct (decide (rq_method request = GET)) as [Hg|Hg].
  - rewrite Hmt, (bool_decide_true _ Hg) by done. cbn [andb].
    destruct (bool_decide_reflect (mo_phase moment = Running)), (bool_decide_reflect (h = h_service_status));
      cbn [andb negb]; [apply Hrest; tauto..|]. split; [by intros (? & ?)|]. intros [H _]. by destruct (H Hg).
  - rewrite (bool_decide_false _ Hg). cbn [andb]. apply Hrest. tauto.
Qed.

(** The part of the gate after the authority and origin checks. *)
Definition let_through auth moment request_id (need : Requirement) request passage given : Prop :=
  match need with
  | Open => passage = PassPlain /\ given = request
  | _ => exists checked, token_granted auth need request checked /\
      admit_request (S := S) moment (resolve (rq_path request)) request_id checked = Ok (passage, given)
  end.

Lemma enforce_Ok authority auth moment request_id request passage given need :
  classify_route (rq_method request) (rq_path request) = class_of need ->
  enforce_request_security (S := S) authority auth moment request_id request = Ok (passage, given) <->
  authority_valid authority request = true /\ get_all request "origin" = [] /\
  let_through auth moment request_id need request passage given.
Proof.
  intros Hc. unfold enforce_request_security, let_through. rewrite Hc, !check_Ok.
  destruct (authority_valid authority request); [|naive_solver].
  rewrite <- is_emptyb_true. destruct (is_emptyb (get_all request "origin")); [|naive_solver].
  destruct need; cbn [class_of].
  { rewrite bool_decide_true by done. naive_solver. }
  all: rewrite bool_decide_false by done; rewrite result_bind_Ok.
  all: match goal with |- context [token_granted _ ?n _ _] =>
         setoid_rewrite (authenticate_Ok auth n); naive_solver end.
Qed.

Lemma checked_exact auth moment request_id request given h :
  taken_for (rq_method request) (rq_path request) h -> h <> h_not_found -> h <> h_method_not_allowed ->
  (exists passage, let_through auth moment request_id (required (rq_method request) h) request passage given) <->
  in_service moment (rq_method request) h /\ body_fits (rq_method request) h request /\
  granted auth (required (rq_method request) h) request given.
Proof.
  intros Htf Hn Hm. unfold let_through. rewrite (tf_protocol _ _ _ Htf). unfold in_service.
  destruct (scope_of h) as [| |scope|p] eqn:Es; unfold required; rewrite Es; [|by destruct h| |].
  - unfold body_fits. rewrite Es. cbn. split; [intros (? & _ & ->); by split|intros (_ & _ & ->); eauto].
  - pose proof (fun given => admit_management moment request_id h request given scope Es Htf) as Ha.
    case_bool_decide; cbn [protocol_of token_granted granted]; split;
      (intros (passage & checked & [-> Ht] & Hk) || intros (Hk & Hb & -> & Ht)).
    all: try (destruct (proj1 (Ha given) ltac:(eauto)) as (Hi & Hb & ->); eauto).
    all: destruct (proj2 (Ha request) ltac:(eauto)) as [passage Hp]; eauto 6.
  - pose proof (admit_proxy moment p request_id) as Ha. cbn [protocol_of token_granted granted]. split.
    + intros (passage & checked & (t & c & Ht & Hs & ->) & Hk).
      destruct (proj1 (Ha (set_authorized c request) given) ltac:(eauto)) as (Hi & Hv & ->). unfold body_fits. rewrite Es. eauto 10.
    + intros (Hi & _ & t & c & Ht & Hs & Hv & ->).
      destruct (proj2 (Ha (set_authorized c request) _) ltac:(eauto)) as [passage Hp]. eauto 8.
Qed.

Lemma guard_decides authority auth moment request_id request given h params :
  dispatch (rq_method request) (rq_path request) = (h, params) ->
  h <> h_not_found -> h <> h_method_not_allowed ->
  (exists passage, enforce_request_security (S := S) authority auth moment request_id request
                   = Ok (passage, given)) <->
  single_header request "host" = Some authority /\
  (forall a, rq_authority request = Some a -> a = authority) /\
  get_all request "origin" = [] /\
  in_service moment (rq_method request) h /\
  body_fits (rq_method request) h request /\
  granted auth (required (rq_method request) h) request given.
Proof using HL.
  intros Hd Hn Hm. pose proof (dispatched _ _ _ _ Hd Hn Hm) as Htf.
  setoid_rewrite (enforce_Ok _ _ _ _ _ _ _ _ (tf_class _ _ _ Htf)).
  pose proof (checked_exact auth moment request_id request given h Htf Hn Hm) as Hc.
  pose proof (authority_valid_true authority request) as Ha. split.
  - intros (passage & [Hh Ht]%Ha & Ho & Hp). refine (conj Hh (conj Ht (conj Ho _))). apply Hc. eauto.
  - intros (Hh & Ht & Ho & Hs). apply Hc in Hs as [passage Hp]. exists passage. split_and!; [by apply Ha|done|done].
Qed.

(** C15: On a request the router takes to a handler, the security middleware
    runs the handler on exactly the requests that name the service's authority,
    carry no browser origin, arrive while the service runs that handler, and show
    a token that grants what the handler needs: the management token or a client
    token with the handler's scope and, where the method has a body, a body that
    is read within 16 KiB; on the data plane a client token with [proxy.use] and
    the method and the media type of the dialect.  A management handler gets the
    request as it came, a data-plane handler gets it without its token, with the
    client and the dialect. *)
Theorem guard_exact authority auth moment request_id request given h params :
  dispatch (rq_method request) (rq_path request) = (h, params) ->
  h <> h_not_found -> h <> h_method_not_allowed ->
  (exists passage, enforce_request_security (S := S) authority auth moment request_id request
                   = Ok (passage, given)) <->
  single_header request "host" = Some authority /\
  (forall a, rq_authority request = Some a -> a = authority) /\
  get_all request "origin" = [] /\
  in_service moment (rq_method request) h /\
  body_fits (rq_method request) h request /\
  granted auth (required (rq_method request) h) request given.
Proof using HL. apply guard_decides. Qed.
End Guard.

(** ** Witness *)
(** A router that tries the routes in order. *)
Fixpoint segment_split (s : string) : string * string :=
  match s with
  | EmptyString => (""%string, ""%string)
  | String c r =>
      if byte_val c =? 47 then (""%string, s)
      else let '(a, b) := segment_split r in (String c a, b)
  end.

Fixpoint unfill (pieces : list Piece) (path : string) : option (list string) :=
  match pieces with
  | [] => if str_is_empty path then Some [] else None
  | Lit text :: pieces => rest ← strip_prefix text path; unfill pieces rest
  | Param _ :: pieces =>
      let '(value, rest) := segment_split path in
      if str_is_empty value then None else params ← unfill pieces rest; Some (value :: params)
  end.

Definition method_handler (methods : list (Method * Handler)) (method : Method) : option Handler :=
  snd <$> List.find (fun entry => bool_decide (entry.1 = method)) methods.

Definition route_handler (methods : list (Method * Handler)) (method : Method) : option Handler :=
  match method_handler methods method, method with
  | None, HEAD => method_handler methods GET
  | h, _ => h
  end.

Fixpoint first_route (routes : list Route) (method : Method) (path : string)
  : result bool (Handler * list string) :=
  match routes with
  | [] => Err false
  | r :: routes =>
      match unfill (route_path r) path with
      | Some params =>
          match route_handler (route_methods r) method with
          | Some h => Ok (h, params)
          | None => Err true
          end
      | None => first_route routes method path
      end
  end.

#[local] Instance ordered_router : RouterCrate := {| select_route := first_route |}.

Lemma segment_split_spec s a b : segment_split s = (a, b) -> s = (a +:+ b)%string /\ 47 ∉ str_bytes a.
Proof.
  revert a b. induction s as [|c s IH]; cbn; intros a b; [intros [= <- <-]; by split; [|apply not_elem_of_nil]|].
  destruct (byte_val c =? 47) eqn:E; [intros [= <- <-]; by split; [|apply not_elem_of_nil]|].
  destruct (segment_split s) as [a' b'] eqn:Es. intros [= <- <-]. destruct (IH _ _ eq_refl) as [-> Hn].
  split; [done|]. change (47 ∉ byte_val c :: str_bytes a'). apply not_elem_of_cons.
  apply Z.eqb_neq in E. by split; [congruence|].
Qed.

Lemma unfill_fill pieces path params : unfill pieces path = Some params ->
  fill pieces params = Some path /\ Forall segment params.
Proof.
  revert path params. induction pieces as [|[text|name] pieces IH]; cbn; intros path params.
  - destruct (str_is_empty path) eqn:E; [|done]. apply str_is_empty_true in E as ->. by intros [= <-].
  - destruct (strip_prefix text path) as [rest|] eqn:E; cbn; [|done]. intros [Hf Hs]%IH.
    apply strip_prefix_Some in E as ->. by rewrite Hf.
  - destruct (segment_split path) as [value rest] eqn:E. apply segment_split_spec in E as [-> Hn].
    destruct (str_is_empty value) eqn:Ev; [done|]. apply str_is_empty_false in Ev.
    destruct (unfill pieces rest) as [ps|] eqn:Eu; cbn; [|done]. intros [= <-].
    destruct (IH _ _ Eu) as [Hf Hs]. rewrite Hf. split; [done|]. by constructor.
Qed.

Lemma method_handler_in methods method h : method_handler methods method = Some h -> (method, h) ∈ methods.
Proof.
  unfold method_handler. intros ([m h'] & [Hin Hm]%find_some & ->)%fmap_Some.
  cbn in Hm. apply bool_decide_eq_true in Hm as ->. by apply list_elem_of_In.
Qed.

Lemma method_handler_none methods method : method_handler methods method = None -> method ∉ methods.*1.
Proof.
  unfold method_handler. intros Hf%fmap_None ([m h] & -> & Hin)%list_elem_of_fmap.
  apply list_elem_of_In in Hin. pose proof (find_none _ _ Hf _ Hin) as Hn. cbn in Hn.
  by apply bool_decide_eq_false in Hn.
Qed.

Lemma route_handler_serves methods method h : route_handler methods method = Some h -> serves methods method h.
Proof.
  unfold route_handler, serves. destruct (method_handler methods method) as [h'|] eqn:E.
  - intros [= ->]. left. by apply method_handler_in.
  - destruct method; try done. intros Hg. right. split; [done|].
    split; [by apply method_handler_in|by apply method_handler_none].
Qed.

#[local] Instance ordered_router_laws : RouterLaws.
Proof.
  split. intros routes method path h params. cbn.
  induction routes as [|r routes IH]; cbn; [done|].
  destruct (unfill (route_path r) path) as [ps|] eqn:E.
  - destruct (route_handler (route_methods r) method) as [h'|] eqn:Eh; [|done]. intros [= -> ->].
    exists r. destruct (unfill_fill _ _ _ E). split_and!; [left|done|done|by apply route_handler_serves].
  - intros (r' & Hin & ?)%IH. exists r'. split; [by right|done].
Qed.

#[local] Instance demo_access : Access unit := {|
  access_management _ token := String.eqb token "admin";
  access_scope _ token scope :=
    if String.eqb token "client" && bool_decide (scope = ProxyUse) then Some (mkAuthorized "t1" "codex") else None;
  access_any _ token := if String.eqb token "client" then Some (mkAuthorized "t1" "codex") else None |}.
#[local] Instance demo_json_writer : JsonWriter := fun _ => [].

Definition demo_call (token : string) (method : Method) (path : string) : Request :=
  mkRequest method path None
    [("host", "127.0.0.1:10101"); ("authorization", "Bearer " +:+ token); ("content-type", "application/json")]%string
    (Some []) None None.

(** A client token opens a chat completion, and not a provider secret. *)
Lemma guard_exact_witness :
  (exists passage, enforce_request_security (S := unit) "127.0.0.1:10101" tt (mkMoment true Running) "r"
     (demo_call "client" POST "/v1/chat/completions")
   = Ok (passage, set_data_plane OpenAiChatCompletions
       (set_authorized (mkAuthorized "t1" "codex") (demo_call "client" POST "/v1/chat/completions")))) /\
  ~ (exists passage given, enforce_request_security (S := unit) "127.0.0.1:10101" tt (mkMoment true Running) "r"
       (demo_call "client" DELETE "/wokcore/v1/provider-secrets/wok-secret:1") = Ok (passage, given)).
Proof.
  split.
  - apply (guard_exact (S := unit) "127.0.0.1:10101" tt (mkMoment true Running) "r"
      (demo_call "client" POST "/v1/chat/completions") _ h_chat []); [reflexivity|done|done|].
    split; [reflexivity|]. split; [done|]. split; [reflexivity|]. split; [reflexivity|]. split; [exact I|].
    exists "client"%string, (mkAuthorized "t1" "codex"). split_and!; reflexivity.
  - intros (passage & given & He).
    destruct (proj1 (guard_exact (S := unit) (HR := ordered_router) "127.0.0.1:10101" tt (mkMoment true Running) "r"
      (demo_call "client" DELETE "/wokcore/v1/provider-secrets/wok-secret:1") given h_delete_secret
      ["wok-secret:1"%string] ltac:(vm_compute; reflexivity) ltac:(done) ltac:(done)) (ex_intro _ passage He))
      as (_ & _ & _ & _ & _ & _ & token & Ht & [Hm|[c Hc]]).
    all: vm_compute in Ht; injection Ht as <-; discriminate.
Defined.

(** A management body of more than 16 KiB is refused before its handler. *)
Lemma large_body_refused :
  enforce_request_security (S := unit) "127.0.0.1:10101" tt (mkMoment true Running) "r"
    (mkRequest POST "/wokcore/v1/service/stop" None
       [("host", "127.0.0.1:10101"); ("authorization", "Bearer admin")]%string (Some (replicate 16385 0)) None None)
  = Err (api_error_response api_payload_too_large "r").
Proof. vm_compute. reflexivity. Qed.
