(* ===== verification/ConfigStore.v ===== *)
(** * The configuration file ([wokcore-storage/src/config])

    Models [config/model.rs] and [config/store.rs]: the versioned configuration,
    [ConfigStore::load] and the optimistic, locked and atomic
    [ConfigStore::commit].

    The disk is the text of the file and a list of faults: every call of the
    file system takes the next one and fails if it is [true].  The document
    format is the [toml_edit] crate's ([TomlCrate]). *)
From S2P Require Import Prelude NetAddr Config AuthRegistry.

#[global] Instance ProviderInstanceConfig_eq_dec : EqDecision ProviderInstanceConfig.
Proof. solve_decision. Defined.
#[global] Instance AccountConfig_eq_dec : EqDecision AccountConfig.
Proof. solve_decision. Defined.
#[global] Instance ProviderConfig_eq_dec : EqDecision ProviderConfig.
Proof. solve_decision. Defined.
#[global] Instance ModelAlias_eq_dec : EqDecision ModelAlias.
Proof. solve_decision. Defined.
#[global] Instance RoutingConfig_eq_dec : EqDecision RoutingConfig.
Proof. solve_decision. Defined.

(** ** The model *)
Record ServerConfig : Set := mkServerConfig { server_port : Z }.

#[global] Instance ServerConfig_eq_dec : EqDecision ServerConfig.
Proof. solve_decision. Defined.

Record AppConfig : Set := mkAppConfig {
  cfg_server : ServerConfig;
  cfg_providers : ProviderConfig;
  cfg_routing : RoutingConfig
}.

#[global] Instance AppConfig_eq_dec : EqDecision AppConfig.
Proof. solve_decision. Defined.

Record VersionedConfig : Set := mkVersioned { vc_revision : Z; vc_config : AppConfig }.

Record PersistedConfig : Set := mkPersisted {
  per_revision : Z;
  per_server : ServerConfig;
  per_providers : ProviderConfig;
  per_routing : RoutingConfig
}.

Definition AppConfig_default : AppConfig :=
  mkAppConfig (mkServerConfig 10101) (mkProviderConfig [] []) (mkRouting [] [] None).

(** [toml_edit]'s reader and writer for [PersistedConfig]: what is written is
    read back as it was. *)
Class TomlCrate : Type := {
  toml_from_str : string -> option PersistedConfig;
  toml_to_string : PersistedConfig -> option string
}.

Class TomlLaws `{TomlCrate} : Prop := {
  toml_round_trip : forall p document, toml_to_string p = Some document -> toml_from_str document = Some p
}.

(** ** The disk *)
Record Disk : Set := mkDisk { disk_document : option string; disk_faults : list bool }.

(** One call of the file system. *)
Definition io : st_res Disk StorageError unit := fun d =>
  match disk_faults d with
  | [] => (d, Ok tt)
  | true :: faults => (mkDisk (disk_document d) faults, Err IoFailure)
  | false :: faults => (mkDisk (disk_document d) faults, Ok tt)
  end.

(** [fs::read_to_string]; no document when the file is not found. *)
Definition read_document : st_res Disk StorageError (option string) :=
  do! io; fun d => (d, Ok (disk_document d)).

(** [replace_file]: a rename, which happens or does not. *)
Definition replace_file (document : string) : st_res Disk StorageError unit :=
  do! io; st_mod (fun d => mkDisk (Some document) (disk_faults d)).

(** A temporary file is created, written and synced, renamed over the
    configuration, and the directory is synced. *)
Definition replace_atomically (document : string) : st_res Disk StorageError unit :=
  do! io;
  do! (do! io; io);
  do! replace_file document;
  io.

Section Store.
Context `{UrlCrate} `{TomlCrate}.

Definition validate_config (config : AppConfig) : result StorageError unit :=
  check? guard_err (server_port (cfg_server config) =? 0) (InvalidConfig "server port must be non-zero");
  map_err (fun _ => InvalidConfig "Provider or routing configuration has an invalid shape")
    (validate_provider_configuration_shape (cfg_providers config) (cfg_routing config)).

Definition versioned_of (persisted : PersistedConfig) : VersionedConfig :=
  mkVersioned (per_revision persisted)
    (mkAppConfig (per_server persisted) (per_providers persisted) (per_routing persisted)).

Definition load : st_res Disk StorageError VersionedConfig :=
  let! document := read_document in
  match document with
  | None => st_ret (mkVersioned 0 AppConfig_default)
  | Some document =>
      let! persisted := st_lift (ok_or (toml_from_str document)
        (InvalidConfig "configuration document does not match the supported schema")) in
      let loaded := versioned_of persisted in
      do! st_lift (validate_config (vc_config loaded));
      st_ret loaded
  end.

Definition commit_locked (expected_revision : Z) (candidate : AppConfig)
  : st_res Disk StorageError VersionedConfig :=
  let! current := load in
  do! st_lift (guard_err (negb (expected_revision =? vc_revision current))
                 (RevisionConflict expected_revision (vc_revision current)));
  let! revision := st_lift (ok_or (checked_add64 (vc_revision current) 1)
    (InvalidConfig "configuration revision cannot exceed u64::MAX")) in
  let! document := st_lift (ok_or
    (toml_to_string (mkPersisted revision (cfg_server candidate) (cfg_providers candidate) (cfg_routing candidate)))
    (SerializeConfig "configuration could not be encoded")) in
  do! replace_atomically document;
  st_ret (mkVersioned revision candidate).

(** The lock file is opened, locked, and unlocked whatever happened. *)
Definition commit (expected_revision : Z) (candidate : AppConfig)
  : st_res Disk StorageError VersionedConfig :=
  do! st_lift (validate_config candidate);
  do! io;
  do! io;
  fun d =>
    let '(d, committed) := commit_locked expected_revision candidate d in
    let '(d, unlocked) := io d in
    (d, match committed, unlocked with
        | Ok committed, Ok _ => Ok committed
        | Err error, _ => Err error
        | Ok _, Err error => Err error
        end).
End Store.

(** ** What a commit leaves behind *)
Section Facts.
Context `{HU : UrlCrate} `{HT : TomlCrate} `{HL : !TomlLaws}.

Lemma io_document d : disk_document (io d).1 = disk_document d.
Proof. unfold io. by destruct (disk_faults d) as [|[] ?]. Qed.

(** A computation that does not write. *)
Definition reads {A} (c : st_res Disk StorageError A) : Prop :=
  forall d, disk_document (c d).1 = disk_document d.

Lemma reads_bind {A B} (c : st_res Disk StorageError A) (k : A -> st_res Disk StorageError B) :
  reads c -> (forall a, reads (k a)) -> reads (st_bind c k).
Proof.
  intros Hc Hk d. unfold st_bind. specialize (Hc d). destruct (c d) as [d' [a|e]]; cbn in *; [|done].
  by rewrite Hk.
Qed.

Lemma reads_io : reads io.
Proof. intros d. apply io_document. Qed.

Lemma reads_lift {A} (r : result StorageError A) : reads (st_lift r).
Proof. by intros d. Qed.

Lemma reads_document : reads read_document.
Proof. apply reads_bind; [apply reads_io|]. by intros a d. Qed.

Lemma reads_load : reads load.
Proof.
  apply reads_bind; [apply reads_document|]. intros [document|]; [|by intros d].
  apply reads_bind; [apply reads_lift|]. intros p. apply reads_bind; [apply reads_lift|]. by intros ? d.
Qed.

(** What the file says, no fault in the way. *)
Definition stored (d : Disk) : result StorageError VersionedConfig := (load (mkDisk (disk_document d) [])).2.

Lemma stored_document d d' : disk_document d = disk_document d' -> stored d = stored d'.
Proof. unfold stored. by intros ->. Qed.

Lemma load_eq d : (load d).2 = (check? (io d).2; stored d).
Proof.
  unfold stored, load, read_document, st_bind, st_lift, io. destruct (disk_faults d) as [|[] fs]; cbn; [| done |].
  all: destruct (disk_document d) as [document|]; cbn; [|done].
  all: destruct (toml_from_str document); cbn; [|done].
  all: by destruct (validate_config _).
Qed.

Lemma load_stored d v : (load d).2 = Ok v -> stored d = Ok v.
Proof. rewrite load_eq, check_Ok. by intros []. Qed.

Lemma io_result d : (io d).2 = Ok tt \/ (io d).2 = Err IoFailure.
Proof. unfold io. destruct (disk_faults d) as [|[] ?]; auto. Qed.

Lemma load_refused d e : (load d).2 = Err e -> e = IoFailure \/ stored d = Err e.
Proof. rewrite load_eq. destruct (io_result d) as [->| ->]; cbn; naive_solver. Qed.

(** A written configuration is one that is read back. *)
Lemma written_stored revision candidate document d :
  validate_config candidate = Ok tt ->
  toml_to_string (mkPersisted revision (cfg_server candidate) (cfg_providers candidate) (cfg_routing candidate))
    = Some document ->
  disk_document d = Some document -> stored d = Ok (mkVersioned revision candidate).
Proof using HL.
  intros Hv Ht Hd. unfold stored, load, read_document, st_bind, io. cbn. rewrite Hd. cbn.
  rewrite (toml_round_trip _ _ Ht). cbn. destruct candidate as [sv pv rt]. cbn in *. by rewrite Hv.
Qed.

Lemma replace_atomically_outcome document d d' r :
  replace_atomically document d = (d', r) ->
  (disk_document d' = Some document \/ disk_document d' = disk_document d /\ r = Err IoFailure)
  /\ (r = Ok tt \/ r = Err IoFailure).
Proof.
  unfold replace_atomically, replace_file, st_bind, st_mod, io. destruct d as [doc fs]; cbn.
  destruct fs as [|[] [|[] [|[] [|[] [|[] fs]]]]]; cbn; intros [= <- <-]; cbn; auto.
Qed.

(** What [commit] does to the file, by its outcome: what it returns is stored
    from then on; a refusal other than an I/O failure leaves the file as it
    was, and an I/O failure leaves it as it was or with the new document. *)
Lemma commit_locked_outcome expected candidate d d' r :
  validate_config candidate = Ok tt ->
  commit_locked expected candidate d = (d', r) ->
  match r with
  | Ok v => v = mkVersioned (expected + 1) candidate /\ stored d' = Ok v
            /\ (exists c, stored d = Ok c /\ vc_revision c = expected) /\ expected + 1 <= u64_max
  | Err IoFailure => disk_document d' = disk_document d
            \/ (stored d' = Ok (mkVersioned (expected + 1) candidate)
                /\ exists c, stored d = Ok c /\ vc_revision c = expected)
  | Err _ => disk_document d' = disk_document d
  end.
Proof using HL.
  intros Hv. unfold commit_locked, st_bind, st_lift, st_ret, guard_err, checked_add64. pose proof (reads_load d) as Hd.
  pose proof (load_stored d) as Hs. destruct (load d) as [d1 [current|e]]; cbn [fst snd] in *.
  2: { intros [= <- <-]. destruct e; auto. }
  destruct (expected =? vc_revision current) eqn:He; cbn [negb].
  2: { intros [= <- <-]. done. }
  apply Z.eqb_eq in He.
  destruct (vc_revision current + 1 <=? u64_max) eqn:Hmax; cbn [ok_or].
  2: { intros [= <- <-]. done. }
  apply Z.leb_le in Hmax.
  destruct (toml_to_string _) as [document|] eqn:Ht; cbn [ok_or].
  2: { intros [= <- <-]. done. }
  destruct (replace_atomically document d1) as [d2 r2] eqn:Hr.
  apply replace_atomically_outcome in Hr as [Hdoc Hres].
  specialize (Hs current eq_refl). subst expected.
  destruct Hres as [-> | ->]; intros [= <- <-].
  - destruct Hdoc as [Hdoc|[_ ?]]; [|done]. split_and!; try done; [|eauto].
    by eapply written_stored.
  - destruct Hdoc as [Hdoc|[Hdoc _]]; [right|left; congruence].
    split; [by eapply written_stored|eauto].
Qed.

Definition committed_from (d : Disk) (expected : Z) (candidate : AppConfig) (d' : Disk) : Prop :=
  stored d' = Ok (mkVersioned (expected + 1) candidate) /\
  exists c, stored d = Ok c /\ vc_revision c = expected.

Lemma commit_outcome expected candidate d d' r :
  commit expected candidate d = (d', r) ->
  match r with
  | Ok v => v = mkVersioned (expected + 1) candidate /\ committed_from d expected candidate d'
            /\ expected + 1 <= u64_max
  | Err IoFailure => disk_document d' = disk_document d \/ committed_from d expected candidate d'
  | Err _ => disk_document d' = disk_document d
  end.
Proof using HL.
  unfold commit, st_bind, st_lift. destruct (validate_config candidate) as [[]|e] eqn:Hv.
  2: { intros [= <- <-]. destruct e; auto. }
  pose proof (io_document d) as H1. destruct (io_result d) as [E|E];
    destruct (io d) as [d1 r1]; cbn in E, H1; subst r1.
  2: { intros [= <- <-]. auto. }
  pose proof (io_document d1) as H2. destruct (io_result d1) as [E|E];
    destruct (io d1) as [d2 r2]; cbn in E, H2; subst r2.
  2: { intros [= <- <-]. left. congruence. }
  destruct (commit_locked expected candidate d2) as [d3 r3] eqn:Hc.
  apply commit_locked_outcome in Hc; [|done].
  pose proof (io_document d3) as H4. pose proof (io_result d3) as E4.
  destruct (io d3) as [d4 r4]; cbn in E4, H4. intros [= <- <-].
  assert (Hsd : stored d2 = stored d) by (apply stored_document; congruence).
  unfold committed_from. rewrite (stored_document d4 d3), <- Hsd by done.
  assert (Hdd : disk_document d2 = disk_document d) by congruence. rewrite <- Hdd, H4.
  destruct r3 as [v|e].
  - destruct Hc as (-> & Hst & Hcur & Hmax). destruct E4 as [-> | ->]; eauto.
  - destruct e; auto.
Qed.
End Facts.
