(* ===== verification/Providers.v ===== *)
(** * The provider control plane ([wokcore-server/src/providers.rs])

    [ProviderManagement] keeps the active configuration, what the data plane runs
    on (the compiled snapshot and the account health table), the references no
    client may use, the configuration file and the secret store.  Every method
    that changes something holds the [mutation] lock from its first read to its
    last write, so a method is one step on the whole state.

    A method runs in a task of its own: an [expect] that fails ends the task,
    and the caller sees a storage failure ([await_owned]); what the task did
    before stays done.  The clock is an argument of the methods that read it. *)
From S2P Require Import Prelude NetAddr Config Catalog Routing Snapshot Accounts Ident AuthRegistry AuthStore ConfigStore.

Record ProviderCandidate : Set := mkProviderCandidate {
  pc_providers : ProviderConfig;
  pc_routing : RoutingConfig
}.

Record ProviderValidation : Type := mkProviderValidation {
  pv_provider_count : Z;
  pv_models : list PublicModelMetadata
}.

Inductive ReloadStatus : Set := ReloadReady | ReloadFailed.

#[global] Instance ReloadStatus_eq_dec : EqDecision ReloadStatus.
Proof. solve_decision. Defined.

Record ProviderRuntimeStatus : Type := mkRuntimeStatus {
  rs_revision : Z;
  rs_snapshot_revision : Z;
  rs_reload_status : ReloadStatus;
  rs_provider_count : Z;
  rs_models : list PublicModelMetadata;
  rs_providers : ProviderConfig;
  rs_routing : RoutingConfig
}.

Record ProviderCommit : Type := mkProviderCommit {
  co_revision : Z;
  co_snapshot_revision : Z;
  co_provider_count : Z;
  co_models : list PublicModelMetadata
}.

Record ActiveConfiguration : Set := mkActiveConfiguration {
  act_revision : Z;
  act_snapshot_revision : Z;
  act_metadata_updated_at_ms : Z;
  act_reload_status : ReloadStatus;
  act_server : ServerConfig;
  act_candidate : ProviderCandidate
}.

Record ProviderExecutionSnapshot : Type := mkExecutionSnapshot {
  px_snapshot : RuntimeSnapshot;
  px_account_health : AccountHealthTable
}.

Inductive ProviderManagementError : Set :=
| InvalidCatalog | InvalidConfiguration | RevisionConflicts | SecretMissing | SecretExists
| SecretInUse | SecretProtected | SecretStoreReadOnly | StorageFailure.

#[global] Instance ProviderManagementError_eq_dec : EqDecision ProviderManagementError.
Proof. solve_decision. Defined.

(** How a task ends: with an error, or in a panic. *)
Inductive TaskFailure : Set := Refused (error : ProviderManagementError) | TaskPanicked (message : string).

(** ** Errors *)
Definition map_config_load_error (error : StorageError) : ProviderManagementError :=
  match error with
  | InvalidConfig _ | SerializeConfig _ => InvalidConfiguration
  | _ => StorageFailure
  end.

Definition map_commit_error (error : StorageError) : ProviderManagementError :=
  match error with
  | RevisionConflict _ _ => RevisionConflicts
  | InvalidConfig _ | SerializeConfig _ => InvalidConfiguration
  | _ => StorageFailure
  end.

Definition map_secret_error (error : StorageError) : ProviderManagementError :=
  match error with
  | SecretNotFound => SecretMissing
  | SecretAlreadyExists => SecretExists
  | ReadOnlySecretStore => SecretStoreReadOnly
  | _ => StorageFailure
  end.

(** ** References of accounts *)
Definition auth_references_any (auth : AccountAuthConfig) (protected : list string) : bool :=
  match auth with
  | AuthForward credential => bool_decide (credential ∈ protected)
  | AuthOauth access refresh =>
      bool_decide (access ∈ protected) || is_some_and (fun r => bool_decide (r ∈ protected)) refresh
  | AuthApiKey secret => bool_decide (secret ∈ protected)
  | AuthLocal => false
  end.

Definition auth_references (auth : AccountAuthConfig) (secret_ref : string) : bool :=
  match auth with
  | AuthForward credential => bool_decide (credential = secret_ref)
  | AuthOauth access refresh =>
      bool_decide (access = secret_ref) || bool_decide (refresh = Some secret_ref)
  | AuthApiKey secret => bool_decide (secret = secret_ref)
  | AuthLocal => false
  end.

Definition active_account_ids (candidate : ProviderCandidate) : list string :=
  ac_id <$> List.filter ac_enabled (accounts (pc_providers candidate)).

Definition default_account_health_policy : AccountHealthPolicy := mkPolicy 1000 60000.

Definition provider_count (snapshot : RuntimeSnapshot) : Z := Z.of_nat (size (snap_providers snapshot)).

(** The rest of the [SecretStore] trait. *)
Class ProviderSecrets (S : Type) : Type := {
  secrets_put_scoped : SecretScope -> string -> st_res S StorageError string;
  secrets_get : string -> st_res S StorageError string;
  secrets_replace : string -> string -> st_res S StorageError unit;
  secrets_delete : string -> st_res S StorageError unit
}.

Section Management.
Context `{UrlCrate} `{TomlCrate} {S : Type} `{ProviderSecrets S}.

Record ProviderManagement : Type := mkManagement {
  pm_catalog : ProviderCatalog;
  pm_disk : Disk;
  pm_secrets : S;
  pm_execution : ProviderExecutionSnapshot;
  pm_active : ActiveConfiguration;
  pm_protected : list string
}.

Abbreviation task := (st_res ProviderManagement TaskFailure).

Definition set_disk (d : Disk) (m : ProviderManagement) : ProviderManagement :=
  mkManagement (pm_catalog m) d (pm_secrets m) (pm_execution m) (pm_active m) (pm_protected m).
Definition set_secrets (s : S) (m : ProviderManagement) : ProviderManagement :=
  mkManagement (pm_catalog m) (pm_disk m) s (pm_execution m) (pm_active m) (pm_protected m).
Definition set_execution (e : ProviderExecutionSnapshot) (m : ProviderManagement) : ProviderManagement :=
  mkManagement (pm_catalog m) (pm_disk m) (pm_secrets m) e (pm_active m) (pm_protected m).
Definition set_active_configuration (a : ActiveConfiguration) (m : ProviderManagement) : ProviderManagement :=
  mkManagement (pm_catalog m) (pm_disk m) (pm_secrets m) (pm_execution m) a (pm_protected m).
Definition set_protected (p : list string) (m : ProviderManagement) : ProviderManagement :=
  mkManagement (pm_catalog m) (pm_disk m) (pm_secrets m) (pm_execution m) (pm_active m) p.

Definition refuse {A} (error : ProviderManagementError) : task A := st_err (Refused error).

(** A call of the store; its outcome is a value of the task. *)
Definition on_disk {A} (c : st_res Disk StorageError A) : task (result StorageError A) := fun m =>
  let '(d, r) := c (pm_disk m) in (set_disk d m, Ok r).

Definition on_secrets {A} (c : st_res S StorageError A) : task A := fun m =>
  let '(s, r) := c (pm_secrets m) in (set_secrets s m, map_err (fun e => Refused (map_secret_error e)) r).

Definition build_snapshot (catalog : ProviderCatalog) (candidate : ProviderCandidate)
  : result TaskFailure RuntimeSnapshot :=
  map_err (fun failure => match failure with
                          | Failed _ => Refused InvalidConfiguration
                          | Panicked message => TaskPanicked message
                          end)
    (build catalog (pc_providers candidate) (pc_routing candidate)).

Definition candidate_of (config : AppConfig) : ProviderCandidate :=
  mkProviderCandidate (cfg_providers config) (cfg_routing config).

(** [from_loaded], with the bundled catalog. *)
Definition from_loaded (catalog : result CatalogError ProviderCatalog) (disk : Disk) (secrets : S)
  (loaded : VersionedConfig) (now : Z) : result TaskFailure ProviderManagement :=
  let? catalog := map_err (fun _ => Refused InvalidCatalog) catalog in
  let candidate := candidate_of (vc_config loaded) in
  let? snapshot := build_snapshot catalog candidate in
  let? account_health := map_err (fun _ => Refused InvalidConfiguration)
    (AccountHealthTable_new default_account_health_policy (active_account_ids candidate)) in
  Ok (mkManagement catalog disk secrets (mkExecutionSnapshot snapshot account_health)
        (mkActiveConfiguration (vc_revision loaded) (vc_revision loaded) now ReloadReady
           (cfg_server (vc_config loaded)) candidate)
        []).

Definition open (catalog : result CatalogError ProviderCatalog) (disk : Disk) (secrets : S) (now : Z)
  : Disk * result TaskFailure ProviderManagement :=
  let '(disk, loaded) := load disk in
  (disk,
   let? loaded := map_err (fun e => Refused (map_config_load_error e)) loaded in
   from_loaded catalog disk secrets loaded now).

(** ** References the clients may not use *)
Definition secret_is_referenced (m : ProviderManagement) (secret_ref : string) : bool :=
  existsb (fun account => auth_references (ac_auth account) secret_ref)
    (accounts (pc_providers (act_candidate (pm_active m)))).

Definition secret_is_protected (m : ProviderManagement) (secret_ref : string) : bool :=
  bool_decide (secret_ref ∈ pm_protected m).

Definition reject_protected_candidate (m : ProviderManagement) (candidate : ProviderCandidate)
  : result TaskFailure unit :=
  guard_err (existsb (fun account => auth_references_any (ac_auth account) (pm_protected m))
               (accounts (pc_providers candidate)))
    (Refused SecretProtected).

Definition protect_secret_ref_owned (secret_ref : string) : task unit :=
  let! m := st_get in
  if secret_is_referenced m secret_ref then refuse SecretProtected
  else st_mod (fun m => if secret_is_protected m secret_ref then m
                        else set_protected (pm_protected m ++ [secret_ref]) m).

(** ** Installing a configuration *)
(** [install]: the health table is carried over, the snapshot and the table are
    published, then the active configuration is replaced. *)
Definition install (loaded : VersionedConfig) (candidate : ProviderCandidate) (reload_status : ReloadStatus)
  (snapshot : RuntimeSnapshot) (now updated : Z) : task RuntimeSnapshot :=
  let! m := st_get in
  let current := pm_execution m in
  let '(next, table) := reconfigured (px_account_health current) (active_account_ids candidate) now in
  do! st_mod (set_execution (mkExecutionSnapshot (px_snapshot current) table));
  match next with
  | Err _ => st_err (TaskPanicked "validated Provider accounts fit the health table")
  | Ok account_health =>
      do! st_mod (set_execution (mkExecutionSnapshot snapshot account_health));
      do! st_mod (set_active_configuration
            (mkActiveConfiguration (vc_revision loaded) (vc_revision loaded) updated reload_status
               (cfg_server (vc_config loaded)) candidate));
      st_ret snapshot
  end.

Definition mark_reload_failed : task unit := st_mod (fun m =>
  let a := pm_active m in
  set_active_configuration
    (mkActiveConfiguration (act_revision a) (act_snapshot_revision a) (act_metadata_updated_at_ms a)
       ReloadFailed (act_server a) (act_candidate a)) m).

Definition commit_answer (revision : Z) (published : RuntimeSnapshot) : ProviderCommit :=
  mkProviderCommit revision revision (provider_count published) (snap_public_models published).

(** After an I/O failure: did the commit reach the file? *)
Definition reconcile_indeterminate_commit (committed_revision : Z) (config : AppConfig) : task VersionedConfig :=
  let! loaded := on_disk load in
  match loaded with
  | Ok loaded =>
      if (vc_revision loaded =? committed_revision) && bool_decide (vc_config loaded = config)
      then st_ret loaded else refuse StorageFailure
  | Err _ => refuse StorageFailure
  end.

Definition commit_owned (expected_revision : Z) (candidate : ProviderCandidate) (now updated : Z) : task ProviderCommit :=
  let! m := st_get in
  let! snapshot := st_lift (build_snapshot (pm_catalog m) candidate) in
  do! st_lift (reject_protected_candidate m candidate);
  do! st_lift (guard_err (negb (act_revision (pm_active m) =? expected_revision)) (Refused RevisionConflicts));
  let config := mkAppConfig (act_server (pm_active m)) (pc_providers candidate) (pc_routing candidate) in
  let! committed_revision := st_lift (ok_or (checked_add64 expected_revision 1) (Refused InvalidConfiguration)) in
  let! commit_result := on_disk (ConfigStore.commit expected_revision config) in
  let! committed :=
    match commit_result with
    | Ok committed => st_ret committed
    | Err IoFailure => reconcile_indeterminate_commit committed_revision config
    | Err error => refuse (map_commit_error error)
    end in
  let revision := vc_revision committed in
  let! published := install committed candidate ReloadReady snapshot now updated in
  st_ret (commit_answer revision published).

(** [inspect_err(|_| self.mark_reload_failed())?]. *)
Definition or_mark_failed {A} (r : result TaskFailure A) : task A :=
  match r with
  | Ok a => st_ret a
  | Err failure => do! mark_reload_failed; st_err failure
  end.

Definition reload_owned (now updated : Z) : task ProviderCommit :=
  let! loaded := on_disk load in
  let! loaded := or_mark_failed (map_err (fun e => Refused (map_config_load_error e)) loaded) in
  let candidate := candidate_of (vc_config loaded) in
  let! m := st_get in
  do! or_mark_failed (reject_protected_candidate m candidate);
  let! snapshot := match build_snapshot (pm_catalog m) candidate with
                   | Err (TaskPanicked message) => st_err (TaskPanicked message)
                   | r => or_mark_failed r
                   end in
  let revision := vc_revision loaded in
  let! published := install loaded candidate ReloadReady snapshot now updated in
  st_ret (commit_answer revision published).

(** ** Secrets *)
Definition create_secret_owned (scope : SecretScope) (value : string) : task string :=
  if bool_decide (scope_provider_id scope = "wokcore-runtime"%string) then refuse SecretProtected
  else on_secrets (secrets_put_scoped scope value).

Definition replace_secret_owned (secret_ref value : string) : task string :=
  let! m := st_get in
  if secret_is_protected m secret_ref then refuse SecretProtected
  else
    do! on_secrets (secrets_replace secret_ref value);
    st_ret secret_ref.

Definition delete_secret_owned (secret_ref : string) : task string :=
  let! m := st_get in
  if secret_is_protected m secret_ref then refuse SecretProtected
  else if secret_is_referenced m secret_ref then refuse SecretInUse
  else
    do! on_secrets (secrets_get secret_ref);
    do! on_secrets (secrets_delete secret_ref);
    st_ret secret_ref.

(** ** The methods, as their callers see them *)
Definition await_owned {A} (c : task A) : st_res ProviderManagement ProviderManagementError A := fun m =>
  let '(m, r) := c m in
  (m, map_err (fun failure => match failure with
                              | Refused error => error
                              | TaskPanicked _ => StorageFailure
                              end) r).

Definition protect_secret_ref (secret_ref : string) := await_owned (protect_secret_ref_owned secret_ref).
Definition commit (expected_revision : Z) (candidate : ProviderCandidate) (now updated : Z) :=
  await_owned (commit_owned expected_revision candidate now updated).
Definition reload (now updated : Z) := await_owned (reload_owned now updated).
Definition create_secret (scope : SecretScope) (value : string) := await_owned (create_secret_owned scope value).
Definition replace_secret (secret_ref value : string) := await_owned (replace_secret_owned secret_ref value).
Definition delete_secret (secret_ref : string) := await_owned (delete_secret_owned secret_ref).

(** ** Reading *)
Definition runtime_status (m : ProviderManagement) : ProviderRuntimeStatus :=
  let active := pm_active m in
  let snapshot := px_snapshot (pm_execution m) in
  mkRuntimeStatus (act_revision active) (act_snapshot_revision active) (act_reload_status active)
    (provider_count snapshot) (snap_public_models snapshot)
    (pc_providers (act_candidate active)) (pc_routing (act_candidate active)).

Definition models (m : ProviderManagement) : list PublicModelMetadata :=
  snap_public_models (px_snapshot (pm_execution m)).

Definition validate_candidate (m : ProviderManagement) (candidate : ProviderCandidate)
  : result TaskFailure ProviderValidation :=
  check? reject_protected_candidate m candidate;
  let? snapshot := build_snapshot (pm_catalog m) candidate in
  Ok (mkProviderValidation (provider_count snapshot) (snap_public_models snapshot)).

(** [attach_account_health]: a restored table is used as it is when its accounts
    are the active ones, else carried over to them. *)
Definition attach_account_health (account_health : AccountHealthTable) (now : Z) : task unit :=
  let! m := st_get in
  let account_ids := active_account_ids (act_candidate (pm_active m)) in
  let '(snaps, table) := snapshots account_health now in
  let publish table := st_mod (set_execution (mkExecutionSnapshot (px_snapshot (pm_execution m)) table)) in
  if (zlen snaps =? zlen account_ids)
     && forallb (fun id => existsb (fun s => bool_decide (snap_account_id s = id)) snaps) account_ids
  then publish table
  else match (reconfigured table account_ids now).1 with
       | Ok table => publish table
       | Err _ => st_err (TaskPanicked "validated Provider accounts fit the health table")
       end.
End Management.

Definition memory_provider_secrets (for_scope : SecretScope -> string) : ProviderSecrets MemorySecretStore := {|
  secrets_put_scoped := mem_put_scoped for_scope;
  secrets_get := mem_get;
  secrets_replace := mem_replace;
  secrets_delete := mem_delete
|}.
