(* ===== verification/ProvidersSpec.v ===== *)
(** * What the provider control plane guarantees

    What every method does to the active configuration, the published snapshot,
    the account table, the file and the secrets; the invariant they keep
    together; and what a failed hand-over of the account table leaves behind. *)
From S2P Require Import Prelude NetAddr Config Catalog CatalogSpec EngineConfig Routing Snapshot SnapshotSpec.
From S2P Require Import Accounts AccountsSpec AccountsRestore Ident AuthRegistry AuthStore ConfigStore Providers.

Lemma st_bind_assoc {S E A B C} (c : st_res S E A) (k : A -> st_res S E B) (h : B -> st_res S E C) s :
  st_bind (st_bind c k) h s = st_bind c (fun x => st_bind (k x) h) s.
Proof. unfold st_bind. by destruct (c s) as [? []]. Qed.

(** ** References *)
Lemma auth_references_any_true auth protected :
  auth_references_any auth protected = true <-> exists ref, ref ∈ protected /\ auth_references auth ref = true.
Proof.
  destruct auth as [c|a r|s|]; cbn.
  - rewrite bool_decide_eq_true. setoid_rewrite bool_decide_eq_true. naive_solver.
  - rewrite orb_true_iff, bool_decide_eq_true. setoid_rewrite orb_true_iff. setoid_rewrite bool_decide_eq_true.
    destruct r as [r|]; cbn; [rewrite bool_decide_eq_true|]; naive_solver.
  - rewrite bool_decide_eq_true. setoid_rewrite bool_decide_eq_true. naive_solver.
  - naive_solver.
Qed.

(** The configuration refers to none of the references. *)
Definition avoids (candidate : ProviderCandidate) (refs : list string) : Prop :=
  forall account ref, account ∈ accounts (pc_providers candidate) -> ref ∈ refs ->
    auth_references (ac_auth account) ref = false.

Lemma existsb_false_iff {A} (f : A -> bool) l : existsb f l = false <-> forall a, a ∈ l -> f a = false.
Proof.
  induction l as [|a l IH]; cbn; [split; [intros _ b Hb; by apply elem_of_nil in Hb|done]|].
  rewrite orb_false_iff, IH. setoid_rewrite elem_of_cons. naive_solver.
Qed.

(** ** Handing the account table over *)
Lemma reconfigured_decides t accounts now :
  table_inv t -> NoDup accounts -> zlen accounts <= Accounts.MAX_ACCOUNTS ->
  (exists t', (reconfigured t accounts now).1 = Ok t') <->
  (forall id s, id ∈ accounts -> view now t id = Some s -> persistable s).
Proof.
  intros Hi Hnd Hlen. split.
  - intros [t' Ht] id s Hid Hv. destruct (decide (consecutive_failures s <= 64)) as [Hf|Hf].
    2: { rewrite (reconfigured_rejects t accounts now id s) in Ht; [done..|]. left. lia. }
    destruct (decide (selection_count s <= last_selected_sequence s)) as [Hn|Hn].
    2: { rewrite (reconfigured_rejects t accounts now id s) in Ht; [done..|]. right. right. lia. }
    split_and!; [done| |done]. intros Hq. destruct (cooldown_until_ms s) eqn:Hc; [|done].
    rewrite (reconfigured_rejects t accounts now id s) in Ht; [done..|]. right. left. by rewrite Hc.
  - intros Hp. destruct (reconfigured_preserves t accounts now Hi Hnd Hlen Hp) as (t' & Ht & _). eauto.
Qed.

Lemma reconfigured_Ok t accounts now t' :
  table_inv t -> NoDup accounts -> zlen accounts <= Accounts.MAX_ACCOUNTS ->
  (reconfigured t accounts now).1 = Ok t' ->
  table_inv t' /\ forall id, get_state t' id =
    if decide (id ∈ accounts) then Some (default AccountState_default (view now t id)) else None.
Proof.
  intros Hi Hnd Hlen Hr.
  destruct (reconfigured_preserves t accounts now Hi Hnd Hlen) as (t'' & Ht & ? & ?).
  - apply reconfigured_decides; eauto.
  - rewrite Ht in Hr. by injection Hr as <-.
Qed.

Lemma reconfigured_snd t accounts now : (reconfigured t accounts now).2 = normalize_all t now.
Proof. done. Qed.

Section Management.
Context `{HU : UrlCrate} `{HT : TomlCrate} `{HL : !TomlLaws} {S : Type} `{HS : ProviderSecrets S}.
Implicit Types (m : ProviderManagement (S := S)) (candidate : ProviderCandidate).

Lemma reject_protected_Ok m candidate :
  reject_protected_candidate m candidate = Ok tt <-> avoids candidate (pm_protected m).
Proof.
  unfold reject_protected_candidate, avoids. rewrite guard_err_Ok, existsb_false_iff.
  split; intros Hx.
  - intros account ref Ha Hr. apply not_true_is_false. intros Ht.
    specialize (Hx account Ha). apply not_true_iff_false in Hx. apply Hx, auth_references_any_true. eauto.
  - intros account Ha. apply not_true_is_false. intros (ref & Hr & Ht)%auth_references_any_true.
    rewrite (Hx account ref Ha Hr) in Ht. done.
Qed.

Lemma secret_is_referenced_false m ref :
  secret_is_referenced m ref = false <-> avoids (act_candidate (pm_active m)) [ref].
Proof.
  unfold secret_is_referenced, avoids. rewrite existsb_false_iff. setoid_rewrite list_elem_of_singleton. naive_solver.
Qed.

Lemma build_snapshot_Ok catalog candidate snapshot :
  build_snapshot catalog candidate = Ok snapshot <->
  build catalog (pc_providers candidate) (pc_routing candidate) = Ok snapshot.
Proof. unfold build_snapshot. by rewrite map_err_Ok. Qed.

Lemma build_snapshot_refused catalog candidate e :
  build_snapshot catalog candidate = Err e -> e = Refused InvalidConfiguration.
Proof.
  unfold build_snapshot.
  destruct (snapshot_build_total catalog (pc_providers candidate) (pc_routing candidate)) as [_ Hp].
  destruct (build _ _ _) as [|[]] eqn:E; cbn; [done| |].
  - by intros [= <-].
  - by destruct (Hp message).
Qed.

(** The accounts of a configuration that builds fit a health table. *)
Lemma active_ids_fit catalog candidate snapshot :
  build catalog (pc_providers candidate) (pc_routing candidate) = Ok snapshot ->
  NoDup (active_account_ids candidate) /\ zlen (active_account_ids candidate) <= Accounts.MAX_ACCOUNTS.
Proof.
  intros (Hc & _)%build_Ok. destruct (ok_shape _ _ _ Hc). unfold active_account_ids. split.
  - by apply NoDup_fmap_filter.
  - destruct so_limits as (_ & Hn & _). unfold zlen in *. rewrite length_fmap.
    assert (length (List.filter ac_enabled (accounts (pc_providers candidate)))
            <= length (accounts (pc_providers candidate)))%nat by apply filter_length_le.
    unfold Config.MAX_ACCOUNTS, Accounts.MAX_ACCOUNTS in *. lia.
Qed.

(** ** The invariant *)
Record management_ok m : Prop := {
  mg_snapshot : build (pm_catalog m) (pc_providers (act_candidate (pm_active m)))
    (pc_routing (act_candidate (pm_active m))) = Ok (px_snapshot (pm_execution m));
  mg_health : table_inv (px_account_health (pm_execution m));
  mg_accounts : forall id, is_Some (get_state (px_account_health (pm_execution m)) id) <->
    id ∈ active_account_ids (act_candidate (pm_active m));
  mg_protected : avoids (act_candidate (pm_active m)) (pm_protected m);
  mg_revision : act_snapshot_revision (pm_active m) = act_revision (pm_active m)
}.

Lemma management_ok_disk m d : management_ok m -> management_ok (set_disk d m).
Proof. by intros []. Qed.

Lemma management_ok_secrets m s : management_ok m -> management_ok (set_secrets s m).
Proof. by intros []. Qed.

(** A table of the same accounts may take the place of the current one. *)
Lemma management_ok_table m t : management_ok m -> table_inv t ->
  (forall id, is_Some (get_state t id) <-> is_Some (get_state (px_account_health (pm_execution m)) id)) ->
  management_ok (set_execution (mkExecutionSnapshot (px_snapshot (pm_execution m)) t) m).
Proof. intros [] Ht Hd. split; cbn; try done. intros id. by rewrite Hd. Qed.

Lemma normalized_accounts t now id : is_Some (get_state (normalize_all t now) id) <-> is_Some (get_state t id).
Proof. rewrite get_state_normalize_all. by rewrite fmap_is_Some. Qed.

(** ** [install] *)
Definition installed (loaded : VersionedConfig) candidate (snapshot : RuntimeSnapshot)
  (t : AccountHealthTable) (status : ReloadStatus) (updated : Z) m : ProviderManagement :=
  set_active_configuration
    (mkActiveConfiguration (vc_revision loaded) (vc_revision loaded) updated status
       (cfg_server (vc_config loaded)) candidate)
    (set_execution (mkExecutionSnapshot snapshot t) m).

Definition normalized (now : Z) m : ProviderManagement :=
  set_execution (mkExecutionSnapshot (px_snapshot (pm_execution m))
    (normalize_all (px_account_health (pm_execution m)) now)) m.

Lemma install_outcome loaded candidate status snapshot now updated m :
  install loaded candidate status snapshot now updated m =
  match (reconfigured (px_account_health (pm_execution m)) (active_account_ids candidate) now).1 with
  | Ok t => (installed loaded candidate snapshot t status updated m, Ok snapshot)
  | Err _ => (normalized now m, Err (TaskPanicked "validated Provider accounts fit the health table"))
  end.
Proof.
  unfold install, st_bind, st_get, st_mod. destruct (reconfigured _ _ _) as [r t'] eqn:E.
  assert (t' = normalize_all (px_account_health (pm_execution m)) now) as -> by (by rewrite <- (reconfigured_snd _ (active_account_ids candidate)), E).
  by destruct r.
Qed.

Lemma normalized_ok m now : management_ok m -> management_ok (normalized now m).
Proof.
  intros Hm. apply management_ok_table; [done|apply normalize_all_inv, Hm|]. intros id. apply normalized_accounts.
Qed.

Lemma installed_ok m loaded candidate snapshot t status now updated :
  management_ok m -> avoids candidate (pm_protected m) ->
  build (pm_catalog m) (pc_providers candidate) (pc_routing candidate) = Ok snapshot ->
  (reconfigured (px_account_health (pm_execution m)) (active_account_ids candidate) now).1 = Ok t ->
  management_ok (installed loaded candidate snapshot t status updated m).
Proof.
  intros Hm Ha Hb Hr. destruct (active_ids_fit _ _ _ Hb) as [Hnd Hlen].
  destruct (reconfigured_Ok _ _ _ _ (mg_health _ Hm) Hnd Hlen Hr) as [Hi Hg].
  split; cbn; try done. intros id. rewrite Hg. case_decide; naive_solver.
Qed.

(** ** [commit] *)
(** The file a commit of [candidate] writes. *)
Definition config_with m candidate : AppConfig :=
  mkAppConfig (act_server (pm_active m)) (pc_providers candidate) (pc_routing candidate).

(** What the checks before the store let through. *)
Definition accepted m (expected : Z) candidate (snapshot : RuntimeSnapshot) : Prop :=
  build (pm_catalog m) (pc_providers candidate) (pc_routing candidate) = Ok snapshot /\
  avoids candidate (pm_protected m) /\ act_revision (pm_active m) = expected.

(** The file goes from [d] to [d'], and says that the commit has happened. *)
Definition on_record m (expected : Z) candidate (d d' : Disk) : Prop :=
  stored d' = Ok (mkVersioned (expected + 1) (config_with m candidate)) /\
  exists c, stored d = Ok c /\
    (vc_revision c = expected \/ c = mkVersioned (expected + 1) (config_with m candidate)).

Definition answer_commit (expected : Z) candidate snapshot now updated m
  : st_res (ProviderManagement (S := S)) TaskFailure ProviderCommit :=
  let! published := install (mkVersioned (expected + 1) (config_with m candidate)) candidate ReloadReady
                      snapshot now updated in
  st_ret (commit_answer (expected + 1) published).

(** The store's part of a commit: the task is refused with the file as it was or
    with the new document in it, or it goes on with the commit on record. *)
Lemma store_outcome m expected candidate :
  expected + 1 <= u64_max ->
  exists d r, (let! commit_result := on_disk (ConfigStore.commit expected (config_with m candidate)) in
      match commit_result with
      | Ok committed => st_ret committed
      | Err IoFailure => reconcile_indeterminate_commit (expected + 1) (config_with m candidate)
      | Err error => refuse (map_commit_error error)
      end) m = (set_disk d m, r) /\
  match r with
  | Ok committed => committed = mkVersioned (expected + 1) (config_with m candidate)
      /\ on_record m expected candidate (pm_disk m) d
  | Err failure => exists e, failure = Refused e /\ e <> SecretProtected /\
      (disk_document d = disk_document (pm_disk m)
       \/ (e = StorageFailure /\ on_record m expected candidate (pm_disk m) d))
  end.
Proof using HL.
  intros Hmax. unfold st_bind, on_disk.
  destruct (ConfigStore.commit expected (config_with m candidate) (pm_disk m)) as [d r] eqn:Hc.
  apply commit_outcome in Hc. destruct r as [v|e].
  { destruct Hc as (-> & (Hst & c & Hcur & Hrev) & _). exists d. eexists. split; [reflexivity|].
    split; [done|]. split; eauto. }
  destruct (decide (e = IoFailure)) as [->|He].
  2: { exists d, (Err (Refused (map_commit_error e))). split; [by destruct e|].
       eexists. split; [done|]. split; [by destruct e|]. left. by destruct e. }
  unfold reconcile_indeterminate_commit, st_bind, on_disk. cbn [pm_disk set_disk].
  pose proof (reads_load d) as Hd. pose proof (load_stored d) as Hl. destruct (load d) as [d' [v|e]]; cbn in Hd, Hl.
  - specialize (Hl v eq_refl). assert (stored d' = Ok v) as Hs' by (by rewrite (stored_document d' d)).
    destruct ((vc_revision v =? expected + 1) && bool_decide (vc_config v = config_with m candidate)) eqn:E.
    + apply andb_true_iff in E as [Er%Z.eqb_eq Ec%bool_decide_eq_true].
      assert (v = mkVersioned (expected + 1) (config_with m candidate)) as -> by (destruct v; cbn in *; congruence).
      exists d'. eexists. split; [reflexivity|]. split; [done|]. split; [done|].
      destruct Hc as [Hdoc|(_ & c & Hcur & Hrev)]; [|eauto].
      eexists. split; [|by right]. by rewrite <- (stored_document d).
    + exists d', (Err (Refused StorageFailure)). split; [done|]. eexists. split; [done|]. split; [done|].
      destruct Hc as [Hdoc|(Hst & _)]; [left; congruence|]. exfalso. rewrite Hl in Hst. injection Hst as ->.
      cbn in E. rewrite Z.eqb_refl, bool_decide_true in E by done. done.
  - exists d', (Err (Refused StorageFailure)). split; [done|]. eexists. split; [done|]. split; [done|].
    destruct Hc as [Hdoc|(Hst & c & Hcur & Hrev)]; [left; congruence|right]. split; [done|].
    split; [by rewrite (stored_document d' d)|eauto].
Qed.

Lemma commit_cases m expected candidate now updated m' r :
  commit_owned expected candidate now updated m = (m', r) ->
  (m' = m /\ exists e, r = Err (Refused e) /\ e <> StorageFailure) \/
  exists snapshot d, accepted m expected candidate snapshot /\
    ((m' = set_disk d m /\ exists e, r = Err (Refused e) /\
        (disk_document d = disk_document (pm_disk m)
         \/ (e = StorageFailure /\ on_record m expected candidate (pm_disk m) d)))
     \/ (on_record m expected candidate (pm_disk m) d /\
         answer_commit expected candidate snapshot now updated m (set_disk d m) = (m', r))).
Proof using HL.
  unfold commit_owned. unfold st_bind at 1, st_get. unfold st_bind at 1, st_lift.
  destruct (build_snapshot (pm_catalog m) candidate) as [snapshot|e] eqn:Hb.
  2: { intros [= <- <-]. apply build_snapshot_refused in Hb as ->. left. eauto. }
  apply build_snapshot_Ok in Hb. unfold st_bind at 1.
  destruct (reject_protected_candidate m candidate) as [[]|e] eqn:Hp.
  2: { intros [= <- <-]. left. split; [done|]. unfold reject_protected_candidate, guard_err in Hp.
       destruct (existsb _ _); [|done]. injection Hp as <-. eauto. }
  apply reject_protected_Ok in Hp. unfold st_bind at 1, guard_err.
  destruct (act_revision (pm_active m) =? expected) eqn:He; cbn [negb].
  2: { intros [= <- <-]. left. eauto. }
  apply Z.eqb_eq in He. unfold st_bind at 1, checked_add64.
  destruct (expected + 1 <=? u64_max) eqn:Hmax; cbn [ok_or].
  2: { intros [= <- <-]. left. eauto. }
  apply Z.leb_le in Hmax. destruct (store_outcome m expected candidate Hmax) as (d & res & Hrun & Hres).
  intros Hc. right. exists snapshot, d. split; [by split_and!|]. revert Hc.
  change (mkAppConfig (act_server (pm_active m)) (pc_providers candidate) (pc_routing candidate))
    with (config_with m candidate).
  rewrite <- st_bind_assoc. unfold st_bind at 1. rewrite Hrun. destruct res as [committed|failure].
  - destruct Hres as [-> Hrec]. intros Hc. right. by split.
  - destruct Hres as (e & -> & _ & Hdoc). intros [= <- <-]. left. eauto.
Qed.

(** ** [reload] *)
Definition marked m : ProviderManagement := (mark_reload_failed m).1.

Lemma marked_ok m : management_ok m -> management_ok (marked m).
Proof. by intros []. Qed.

Lemma or_mark_failed_Err {A} e m : or_mark_failed (A := A) (Err e) m = (marked m, Err e).
Proof. done. Qed.

Definition answer_reload (loaded : VersionedConfig) snapshot now updated
  : st_res (ProviderManagement (S := S)) TaskFailure ProviderCommit :=
  let! published := install loaded (candidate_of (vc_config loaded)) ReloadReady snapshot now updated in
  st_ret (commit_answer (vc_revision loaded) published).

Lemma reload_cases m now updated m' r :
  reload_owned now updated m = (m', r) ->
  exists d, disk_document d = disk_document (pm_disk m) /\
  ((m' = marked (set_disk d m) /\ exists e, r = Err (Refused e)) \/
   exists loaded snapshot, stored (pm_disk m) = Ok loaded /\
     build (pm_catalog m) (cfg_providers (vc_config loaded)) (cfg_routing (vc_config loaded)) = Ok snapshot /\
     avoids (candidate_of (vc_config loaded)) (pm_protected m) /\
     answer_reload loaded snapshot now updated (set_disk d m) = (m', r)).
Proof.
  unfold reload_owned. unfold st_bind at 1, on_disk.
  pose proof (reads_load (pm_disk m)) as Hd. pose proof (load_stored (pm_disk m)) as Hl.
  destruct (load (pm_disk m)) as [d loaded]. cbn [fst snd] in Hd, Hl. intros Hr. exists d. split; [done|].
  revert Hr. unfold st_bind at 1. destruct loaded as [loaded|e]; cbn [map_err].
  2: { rewrite or_mark_failed_Err. intros [= <- <-]. eauto. }
  specialize (Hl loaded eq_refl). cbn [or_mark_failed st_ret]. unfold st_bind at 1, st_get. unfold st_bind at 1.
  destruct (reject_protected_candidate (set_disk d m) (candidate_of (vc_config loaded))) as [[]|e] eqn:Hp.
  2: { rewrite or_mark_failed_Err. intros [= <- <-]. left. split; [done|].
       unfold reject_protected_candidate, guard_err in Hp. destruct (existsb _ _); naive_solver. }
  apply reject_protected_Ok in Hp. cbn [or_mark_failed st_ret]. unfold st_bind at 1.
  destruct (build_snapshot (pm_catalog (set_disk d m)) (candidate_of (vc_config loaded))) as [snapshot|e] eqn:Hb.
  2: { apply build_snapshot_refused in Hb as ->. intros [= <- <-]. eauto. }
  apply build_snapshot_Ok in Hb. intros Hr. right. exists loaded, snapshot. by split_and!.
Qed.

Lemma answer_ok m loaded candidate snapshot now updated m' (r : result TaskFailure ProviderCommit) :
  management_ok m -> avoids candidate (pm_protected m) ->
  build (pm_catalog m) (pc_providers candidate) (pc_routing candidate) = Ok snapshot ->
  (let! published := install loaded candidate ReloadReady snapshot now updated in
   st_ret (commit_answer (vc_revision loaded) published)) m = (m', r) ->
  management_ok m'.
Proof.
  intros Hm Ha Hb. unfold st_bind. rewrite install_outcome.
  destruct (reconfigured _ _ _).1 as [t|e] eqn:Hr; intros [= <- <-].
  - by eapply installed_ok.
  - by apply normalized_ok.
Qed.

Lemma commit_ok m expected candidate now updated :
  management_ok m -> management_ok (commit_owned expected candidate now updated m).1.
Proof using HL.
  intros Hm. destruct (commit_owned _ _ _ _ m) as [m' r] eqn:Hc. cbn.
  apply commit_cases in Hc as [(-> & _)|(snapshot & d & (Hb & Ha & _) & [(-> & _)|(_ & Hr)])].
  - done.
  - by apply management_ok_disk.
  - eapply (answer_ok (set_disk d m)); [by apply management_ok_disk|done|done|exact Hr].
Qed.

Lemma reload_ok m now updated : management_ok m -> management_ok (reload_owned now updated m).1.
Proof.
  intros Hm. destruct (reload_owned _ _ m) as [m' r] eqn:Hc. cbn.
  apply reload_cases in Hc as (d & _ & [(-> & _)|(loaded & snapshot & _ & Hb & Ha & Hr)]).
  - by apply marked_ok, management_ok_disk.
  - eapply (answer_ok (set_disk d m)); [by apply management_ok_disk|exact Ha|exact Hb|exact Hr].
Qed.

Lemma protect_ok m ref : management_ok m -> management_ok (protect_secret_ref_owned ref m).1.
Proof.
  intros Hm. unfold protect_secret_ref_owned, st_bind, st_get.
  destruct (secret_is_referenced m ref) eqn:E; [done|]. cbn.
  destruct (secret_is_protected m ref); [done|]. destruct Hm. split; cbn; try done.
  intros account r Ha [Hr|Hr]%elem_of_app; [eauto|]. apply secret_is_referenced_false in E. eauto.
Qed.

Lemma attach_ok m t now : management_ok m -> table_inv t ->
  management_ok (attach_account_health t now m).1.
Proof.
  intros Hm Ht. unfold attach_account_health, st_bind, st_get.
  pose proof (snapshots_complete t now (ti_wf _ Ht)) as (Hin & Hnd & _).
  assert (Hn : table_inv (normalize_all t now)) by (by apply normalize_all_inv).
  change (snapshots t now) with ((snapshots t now).1, normalize_all t now). cbv iota beta.
  set (snaps := (snapshots t now).1) in *.
  destruct (active_ids_fit _ _ _ (mg_snapshot _ Hm)) as [Hids Hlen].
  destruct ((zlen snaps =? _) && _) eqn:E.
  - apply andb_true_iff in E as [El%Z.eqb_eq Ef]. apply management_ok_table; [done|done|].
    intros id. rewrite (mg_accounts _ Hm), normalized_accounts.
    assert (snap_account_id <$> snaps ≡ₚ active_account_ids (act_candidate (pm_active m))) as Hperm.
    { symmetry. apply submseteq_length_Permutation.
      - apply NoDup_submseteq; [done|]. intros x Hx. rewrite forallb_forall in Ef.
        specialize (Ef x). rewrite <- list_elem_of_In in Ef. specialize (Ef Hx).
        apply existsb_exists in Ef as (s & Hs & <-%bool_decide_eq_true).
        apply list_elem_of_fmap_2. by apply list_elem_of_In.
      - rewrite length_fmap. unfold zlen in El. lia. }
    rewrite <- Hperm, list_elem_of_fmap. setoid_rewrite Hin. split.
    + intros [s Hs]. exists (snapshot_of id (normalize s now)). eauto.
    + intros (? & -> & id' & s & Hs & ->). by exists s.
  - destruct (reconfigured _ _ _).1 as [t'|e] eqn:Hr; [|done].
    destruct (reconfigured_Ok _ _ _ _ Hn Hids Hlen Hr) as [Hi Hg]. apply management_ok_table; [done|done|].
    intros id. rewrite (mg_accounts _ Hm), Hg. case_decide; naive_solver.
Qed.

(** ** Runs *)
(** The calls of the API, what the data plane does to the published table, one
    locked access at a time, and the file's changes from outside. *)
Inductive management_step m : ProviderManagement -> Prop :=
| step_protect ref : management_step m (protect_secret_ref ref m).1
| step_commit expected candidate now updated : management_step m (commit expected candidate now updated m).1
| step_reload now updated : management_step m (reload now updated m).1
| step_create scope value : management_step m (create_secret scope value m).1
| step_replace ref value : management_step m (replace_secret ref value m).1
| step_delete ref : management_step m (delete_secret ref m).1
| step_attach t now : table_reached t -> management_step m (attach_account_health t now m).1
| step_health t : table_step (px_account_health (pm_execution m)) t ->
    management_step m (set_execution (mkExecutionSnapshot (px_snapshot (pm_execution m)) t) m)
| step_outside d : management_step m (set_disk d m).

Lemma await_fst {A} (c : st_res ProviderManagement TaskFailure A) m : (await_owned c m).1 = (c m).1.
Proof. unfold await_owned. by destruct (c m). Qed.

(** A method that touches nothing but the secrets. *)
Definition secrets_only m m' : Prop := exists s, m' = set_secrets s m.

Lemma on_secrets_only {A} (c : st_res S StorageError A) m : secrets_only m (on_secrets c m).1.
Proof. unfold on_secrets. destruct (c (pm_secrets m)). by eexists. Qed.

Lemma secrets_only_refl m : secrets_only m m.
Proof. exists (pm_secrets m). by destruct m. Qed.

Lemma secrets_only_bind {A B} (c : st_res ProviderManagement TaskFailure A)
  (k : A -> st_res ProviderManagement TaskFailure B) m :
  secrets_only m (c m).1 -> (forall a m1, secrets_only m1 (k a m1).1) -> secrets_only m (st_bind c k m).1.
Proof.
  intros Hc Hk. unfold st_bind. destruct (c m) as [m1 [a|e]]; [|done]. cbn in Hc.
  destruct Hc as [s ->], (Hk a (set_secrets s m)) as [s' ->]. by exists s'.
Qed.

Lemma create_secrets_only scope value m : secrets_only m (create_secret_owned scope value m).1.
Proof. unfold create_secret_owned. case_bool_decide; [apply secrets_only_refl|apply on_secrets_only]. Qed.

Lemma replace_secrets_only ref value m : secrets_only m (replace_secret_owned ref value m).1.
Proof.
  unfold replace_secret_owned, st_bind at 1, st_get. destruct (secret_is_protected m ref); [apply secrets_only_refl|].
  apply secrets_only_bind; [apply on_secrets_only|]. intros. apply secrets_only_refl.
Qed.

Lemma delete_secrets_only ref m : secrets_only m (delete_secret_owned ref m).1.
Proof.
  unfold delete_secret_owned, st_bind at 1, st_get. destruct (secret_is_protected m ref); [apply secrets_only_refl|].
  destruct (secret_is_referenced m ref); [apply secrets_only_refl|].
  apply secrets_only_bind; [apply on_secrets_only|]. intros _ m1.
  apply secrets_only_bind; [apply on_secrets_only|]. intros. apply secrets_only_refl.
Qed.

Lemma secrets_only_ok m m' : secrets_only m m' -> management_ok m -> management_ok m'.
Proof. intros [s ->]. apply management_ok_secrets. Qed.

Lemma step_ok m m' : management_step m m' -> management_ok m -> management_ok m'.
Proof using HL.
  intros Hs Hm. destruct Hs;
    unfold protect_secret_ref, commit, reload, create_secret, replace_secret, delete_secret; rewrite ?await_fst.
  - by apply protect_ok.
  - by apply commit_ok.
  - by apply reload_ok.
  - by eapply secrets_only_ok; [apply create_secrets_only|].
  - by eapply secrets_only_ok; [apply replace_secrets_only|].
  - by eapply secrets_only_ok; [apply delete_secrets_only|].
  - by apply attach_ok, table_reached_inv.
  - pose proof (mg_health _ Hm). apply management_ok_table; [done|by eapply table_step_inv|].
    intros id. apply table_step_domain; [done|by apply ti_wf].
  - by apply management_ok_disk.
Qed.

Lemma from_loaded_ok catalog disk (secrets : S) loaded now m :
  from_loaded catalog disk secrets loaded now = Ok m -> management_ok m.
Proof.
  unfold from_loaded. rewrite !result_bind_Ok. setoid_rewrite result_bind_Ok. setoid_rewrite result_bind_Ok.
  intros (c & _ & snapshot & Hb%build_snapshot_Ok & t & Ht & [= <-]). apply map_err_Ok in Ht.
  split; cbn; try done.
  - eapply new_inv; [|done]. unfold policy_ok, MAX_COOLDOWN_MS. cbn. lia.
  - intros id. destruct (new_get_state _ _ _ Ht) as (_ & _ & _ & ->). case_decide; naive_solver.
  - by intros account ref _ ?%elem_of_nil.
Qed.

(** C20: the control plane is consistent in every state it reaches, whatever the
    calls, the faults of the disk, the changes of the file from outside, and what
    the data plane does to the published account table, down to the separate
    halves of crossing marks: the published snapshot is the one the active
    configuration compiles to, the published account table is well-formed (every
    account in its shard, its counters and times in their machine ranges) and
    has exactly that configuration's enabled accounts, no account of it uses a
    protected secret, and the reported revisions agree. *)
Theorem management_consistent catalog disk (secrets : S) loaded now m0 m :
  from_loaded catalog disk secrets loaded now = Ok m0 -> rtc management_step m0 m ->
  build (pm_catalog m) (pc_providers (act_candidate (pm_active m))) (pc_routing (act_candidate (pm_active m)))
    = Ok (px_snapshot (pm_execution m)) /\
  table_inv (px_account_health (pm_execution m)) /\
  (forall id, is_Some (get_state (px_account_health (pm_execution m)) id) <->
     id ∈ active_account_ids (act_candidate (pm_active m))) /\
  avoids (act_candidate (pm_active m)) (pm_protected m) /\
  rs_snapshot_revision (runtime_status m) = rs_revision (runtime_status m).
Proof using HL.
  intros Hl%from_loaded_ok Hr. assert (management_ok m) as [] by (induction Hr; eauto using step_ok).
  by split_and!.
Qed.

(** ** What a commit does *)
Lemma commit_owned_of expected candidate now updated m m' r :
  commit expected candidate now updated m = (m', r) ->
  exists r0, commit_owned expected candidate now updated m = (m', r0) /\
    match r0 with Ok a => r = Ok a | Err (Refused e) => r = Err e | Err (TaskPanicked _) => r = Err StorageFailure end.
Proof.
  unfold commit, await_owned. destruct (commit_owned _ _ _ _ m) as [m1 [a|[e|msg]]]; intros [= <- <-];
    eexists; (split; [reflexivity|done]).
Qed.

Lemma answer_commit_run expected candidate snapshot now updated m d m' r :
  answer_commit expected candidate snapshot now updated m (set_disk d m) = (m', r) ->
  (exists t, (reconfigured (px_account_health (pm_execution m)) (active_account_ids candidate) now).1 = Ok t /\
     r = Ok (commit_answer (expected + 1) snapshot) /\
     m' = installed (mkVersioned (expected + 1) (config_with m candidate)) candidate snapshot t ReloadReady updated
            (set_disk d m)) \/
  ((exists e, (reconfigured (px_account_health (pm_execution m)) (active_account_ids candidate) now).1 = Err e) /\
   (exists msg, r = Err (TaskPanicked msg)) /\ m' = normalized now (set_disk d m)).
Proof.
  unfold answer_commit, st_bind. rewrite install_outcome. cbn [pm_execution set_disk].
  destruct (reconfigured _ _ _).1 as [t|e]; intros [= <- <-]; eauto 10.
Qed.

(** C21: a commit is all or nothing on what the service runs.  If it answers, the
    request named the active revision, the file now holds the new configuration
    under the next revision (over that revision, or over the very same commit),
    and the service runs it: the active configuration is the candidate, the
    snapshot its compilation, and every retained account keeps its state.  If it
    is refused, the service runs what it ran before, no secret or protected
    reference has changed, and the file is as it was, unless a storage failure
    is reported: then it may hold the new configuration. *)
Theorem commit_exact m expected candidate now updated m' r :
  management_ok m -> commit expected candidate now updated m = (m', r) ->
  pm_secrets m' = pm_secrets m /\ pm_protected m' = pm_protected m /\
  match r with
  | Ok answer =>
      act_revision (pm_active m) = expected /\ co_revision answer = expected + 1 /\
      on_record m expected candidate (pm_disk m) (pm_disk m') /\
      pm_active m' = mkActiveConfiguration (expected + 1) (expected + 1) updated ReloadReady
                       (act_server (pm_active m)) candidate /\
      build (pm_catalog m) (pc_providers candidate) (pc_routing candidate) = Ok (px_snapshot (pm_execution m')) /\
      avoids candidate (pm_protected m) /\
      (forall id, get_state (px_account_health (pm_execution m')) id =
         if decide (id ∈ active_account_ids candidate)
         then Some (default AccountState_default (view now (px_account_health (pm_execution m)) id)) else None)
  | Err e =>
      pm_active m' = pm_active m /\ px_snapshot (pm_execution m') = px_snapshot (pm_execution m) /\
      (forall id, view now (px_account_health (pm_execution m')) id = view now (px_account_health (pm_execution m)) id) /\
      (disk_document (pm_disk m') = disk_document (pm_disk m)
       \/ (e = StorageFailure /\ on_record m expected candidate (pm_disk m) (pm_disk m')))
  end.
Proof using HL.
  intros Hm (r0 & Hc & Hr)%commit_owned_of.
  apply commit_cases in Hc as [(-> & e & -> & _)|(snapshot & d & (Hb & Ha & Hrev) & [(-> & e & -> & Hd)|(Hrec & Hrun)])].
  - subst r. split_and!; auto.
  - subst r. split_and!; auto.
  - destruct (answer_commit_run _ _ _ _ _ _ _ _ _ Hrun)
      as [(t & Ht & -> & ->)|((e & He) & (msg & ->) & ->)]; cbn in Hr; subst r.
    + destruct (active_ids_fit _ _ _ Hb) as [Hnd Hlen].
      destruct (reconfigured_Ok _ _ _ _ (mg_health _ Hm) Hnd Hlen Ht) as [_ Hg]. by split_and!.
    + split_and!; auto. intros id. unfold view. cbn. rewrite get_state_normalize_all.
      destruct (get_state _ id); cbn; [|done]. by rewrite normalize_idem.
Qed.

(** The service can take a commit: the disk works, the file says what the
    service runs, the candidate compiles and can be written. *)
Record committable m (expected : Z) candidate : Prop := {
  cm_faults : disk_faults (pm_disk m) = [];
  cm_stored : exists c, stored (pm_disk m) = Ok c /\ vc_revision c = expected;
  cm_bound : expected + 1 <= u64_max;
  cm_accepted : exists snapshot, accepted m expected candidate snapshot;
  cm_port : server_port (act_server (pm_active m)) <> 0;
  cm_written : is_Some (toml_to_string (mkPersisted (expected + 1) (act_server (pm_active m))
    (pc_providers candidate) (pc_routing candidate)))
}.

Lemma io_works d : disk_faults d = [] -> io d = (d, Ok tt).
Proof. unfold io. by intros ->. Qed.

Lemma load_works d : disk_faults d = [] -> load d = (d, stored d).
Proof.
  destruct d as [document faults]. cbn. intros ->. unfold stored. cbn [disk_document].
  assert ((load (mkDisk document [])).1 = mkDisk document []) as H1.
  { unfold load, read_document, st_bind, st_lift, io. cbn. destruct document as [document|]; [|done]. cbn.
    destruct (toml_from_str document); [|done]. cbn. by destruct (validate_config _). }
  by destruct (load _); cbn in *; subst.
Qed.

Lemma config_with_valid m candidate snapshot :
  server_port (act_server (pm_active m)) <> 0 ->
  build (pm_catalog m) (pc_providers candidate) (pc_routing candidate) = Ok snapshot ->
  validate_config (config_with m candidate) = Ok tt.
Proof.
  intros Hport (Hok & _)%build_Ok. unfold validate_config, config_with; cbn.
  rewrite (proj2 (Z.eqb_neq _ _) Hport). apply map_err_Ok, shape_check_correct, Hok.
Qed.

Lemma store_commit_works m expected candidate :
  committable m expected candidate ->
  exists document, ConfigStore.commit expected (config_with m candidate) (pm_disk m) =
    (mkDisk (Some document) [], Ok (mkVersioned (expected + 1) (config_with m candidate))).
Proof.
  intros [Hf (c & Hc & Hrev) Hmax (snapshot & Hb & _ & _) Hport [document Hw]]. exists document.
  pose proof (config_with_valid _ _ _ Hport Hb) as Hv.
  unfold ConfigStore.commit, st_bind at 1, st_lift. rewrite Hv.
  unfold st_bind. rewrite io_works by done. rewrite io_works by done.
  unfold commit_locked, st_bind, st_lift, checked_add64. rewrite load_works, Hc, Hrev by done.
  rewrite Z.eqb_refl. cbn [negb guard_err]. rewrite (proj2 (Z.leb_le _ _) Hmax). cbn [ok_or].
  unfold config_with at 1; cbn. rewrite Hw. cbn [ok_or].
  destruct (pm_disk m) as [doc faults]. cbn in Hf. subst faults. done.
Qed.

Lemma commit_run m expected candidate now updated :
  committable m expected candidate ->
  exists snapshot document, accepted m expected candidate snapshot /\
    on_record m expected candidate (pm_disk m) (mkDisk (Some document) []) /\
    commit_owned expected candidate now updated m =
    answer_commit expected candidate snapshot now updated m (set_disk (mkDisk (Some document) []) m).
Proof using HL.
  intros Hcm. destruct (store_commit_works _ _ _ Hcm) as [document Hs].
  pose proof (commit_outcome _ _ _ _ _ Hs) as (_ & (Hst & c & Hc & Hrev) & _).
  destruct (cm_accepted _ _ _ Hcm) as (snapshot & Hacc). destruct Hacc as (Hb & Ha & He).
  exists snapshot, document. split; [by split_and!|]. split; [split; eauto|].
  unfold commit_owned, st_bind at 1, st_get, st_bind at 1, st_lift. rewrite (proj2 (build_snapshot_Ok _ _ _) Hb).
  unfold st_bind at 1. rewrite (proj2 (reject_protected_Ok _ _) Ha).
  unfold st_bind at 1. rewrite He, Z.eqb_refl. cbn [negb guard_err].
  unfold st_bind at 1, checked_add64. rewrite (proj2 (Z.leb_le _ _) (cm_bound _ _ _ Hcm)). cbn [ok_or].
  unfold st_bind at 1, on_disk. change (mkAppConfig _ _ _) with (config_with m candidate). by rewrite Hs.
Qed.

(** Another commit against a revision the file has gone past. *)
Lemma stale_commit_conflicts m expected candidate snapshot now updated c :
  disk_faults (pm_disk m) = [] -> stored (pm_disk m) = Ok c -> vc_revision c <> expected ->
  expected + 1 <= u64_max -> server_port (act_server (pm_active m)) <> 0 ->
  accepted m expected candidate snapshot ->
  (commit expected candidate now updated m).2 = Err RevisionConflicts.
Proof.
  intros Hf Hc Hne Hmax Hport (Hb & Ha & He). unfold commit, await_owned.
  unfold commit_owned, st_bind at 1, st_get, st_bind at 1, st_lift. rewrite (proj2 (build_snapshot_Ok _ _ _) Hb).
  unfold st_bind at 1. rewrite (proj2 (reject_protected_Ok _ _) Ha).
  unfold st_bind at 1. rewrite He, Z.eqb_refl. cbn [negb guard_err].
  unfold st_bind at 1, checked_add64. rewrite (proj2 (Z.leb_le _ _) Hmax). cbn [ok_or].
  unfold st_bind at 1, on_disk. change (mkAppConfig _ _ _) with (config_with m candidate).
  assert (ConfigStore.commit expected (config_with m candidate) (pm_disk m)
          = (pm_disk m, Err (RevisionConflict expected (vc_revision c)))) as ->; [|done].
  pose proof (config_with_valid _ _ _ Hport Hb) as Hv.
  unfold ConfigStore.commit, st_bind at 1, st_lift. rewrite Hv.
  unfold st_bind. rewrite !io_works by done.
  unfold commit_locked, st_bind, st_lift. rewrite load_works, Hc by done.
  rewrite (proj2 (Z.eqb_neq _ _)) by congruence. cbn. by rewrite io_works.
Qed.

(** C37: a candidate that compiles, against the right revision on a disk that
    works, is always written to the file; but it is only taken over if every
    retained account is in a state [restore] accepts.  Otherwise (an account
    both quarantined and cooling down, with more than 64 failures, or selected
    more often than its last sequence says, as crossed marks leave it) the
    hand-over of the account table panics after the write: the caller is told
    of a storage failure, the service goes on with the old configuration under
    the old revision, and every further commit against the revision it reports
    is refused as a conflict with the file. *)
Theorem commit_split m expected candidate now updated m' r :
  management_ok m -> committable m expected candidate ->
  commit expected candidate now updated m = (m', r) ->
  stored (pm_disk m') = Ok (mkVersioned (expected + 1) (config_with m candidate)) /\
  ((exists answer, r = Ok answer) <->
   forall id s, id ∈ active_account_ids candidate ->
     view now (px_account_health (pm_execution m)) id = Some s -> persistable s) /\
  (forall e, r = Err e -> e = StorageFailure /\ rs_revision (runtime_status m') = expected /\
     pm_active m' = pm_active m /\
     forall candidate' snapshot' now' updated', accepted m' expected candidate' snapshot' ->
       (commit expected candidate' now' updated' m').2 = Err RevisionConflicts).
Proof using HL.
  intros Hm Hcm (r0 & Hc & Hr)%commit_owned_of.
  destruct (commit_run _ _ _ now updated Hcm) as (snapshot & document & (Hb & Ha & He) & (Hst & _) & Hrun).
  rewrite Hrun in Hc. destruct (active_ids_fit _ _ _ Hb) as [Hnd Hlen].
  pose proof (reconfigured_decides _ _ now (mg_health _ Hm) Hnd Hlen) as Hdec.
  destruct (answer_commit_run _ _ _ _ _ _ _ _ _ Hc) as [(t & Ht & -> & ->)|((e & Hre) & (msg & ->) & ->)];
    cbn in Hr; subst r.
  - split; [done|]. split; [split; [intros _; apply Hdec; eauto|eauto]|done].
  - split; [done|]. split.
    { split; [by intros [? ?]|]. intros Hp. apply Hdec in Hp as [t Ht]. congruence. }
    intros e' [= <-]. split_and!; [done|done|done|]. intros candidate' snapshot' now' updated' Hacc.
    eapply (stale_commit_conflicts _ _ _ snapshot'); [done|exact Hst|cbn; lia|apply Hcm|apply Hcm|done].
Qed.
End Management.

(** ** Secrets *)
(** What the store keeps: a new slot leaves the others, reading leaves all, and
    replacing or deleting a secret concerns that secret only. *)
Class SecretsLaws (S : Type) `{ProviderSecrets S} : Type := {
  secrets_view : S -> gmap string string;
  put_scoped_keeps : forall scope value s, secrets_view s ⊆ secrets_view (secrets_put_scoped scope value s).1;
  get_keeps : forall ref s, secrets_view (secrets_get ref s).1 = secrets_view s;
  replace_keeps : forall ref value s other, other <> ref ->
    secrets_view (secrets_replace ref value s).1 !! other = secrets_view s !! other;
  replace_present : forall ref value s, is_Some (secrets_view s !! ref) ->
    is_Some (secrets_view (secrets_replace ref value s).1 !! ref);
  delete_keeps : forall ref s other, other <> ref ->
    secrets_view (secrets_delete ref s).1 !! other = secrets_view s !! other
}.

Section Secrets.
Context `{HU : UrlCrate} `{HT : TomlCrate} `{HL : !TomlLaws} {S : Type} `{HS : ProviderSecrets S}
  `{HW : !SecretsLaws S}.
Implicit Types m : ProviderManagement (S := S).

Definition kept m (ref : string) : option string := secrets_view (pm_secrets m) !! ref.

Lemma commit_owned_secrets m expected candidate now updated :
  pm_secrets (commit_owned expected candidate now updated m).1 = pm_secrets m /\
  pm_protected (commit_owned expected candidate now updated m).1 = pm_protected m.
Proof using HL.
  destruct (commit_owned _ _ _ _ m) as [m' r] eqn:Hc.
  apply commit_cases in Hc as [(-> & _)|(snapshot & d & _ & [(-> & _)|(_ & Hrun)])]; try done.
  by apply answer_commit_run in Hrun as [(? & _ & _ & ->)|(_ & _ & ->)].
Qed.

Lemma reload_owned_secrets m now updated :
  pm_secrets (reload_owned now updated m).1 = pm_secrets m /\
  pm_protected (reload_owned now updated m).1 = pm_protected m.
Proof.
  destruct (reload_owned _ _ m) as [m' r] eqn:Hc.
  apply reload_cases in Hc as (d & _ & [(-> & _)|(loaded & snapshot & _ & _ & _ & Hrun)]); [done|].
  revert Hrun. unfold answer_reload, st_bind. rewrite install_outcome.
  by destruct (reconfigured _ _ _).1; intros [= <- <-].
Qed.

Lemma on_secrets_view {A} (c : st_res S StorageError A) m :
  secrets_view (pm_secrets (on_secrets c m).1) = secrets_view (c (pm_secrets m)).1.
Proof. unfold on_secrets. by destruct (c (pm_secrets m)). Qed.

Lemma on_secrets_fst {A} (c : st_res S StorageError A) m : pm_secrets (on_secrets c m).1 = (c (pm_secrets m)).1.
Proof. unfold on_secrets. by destruct (c (pm_secrets m)). Qed.

Lemma create_kept scope value m ref v : kept m ref = Some v -> kept (create_secret_owned scope value m).1 ref = Some v.
Proof.
  unfold kept, create_secret_owned. case_bool_decide; [done|]. rewrite on_secrets_view.
  intros Hv. by eapply lookup_weaken, put_scoped_keeps.
Qed.

Lemma replace_kept target value m ref v : kept m ref = Some v ->
  (ref ∈ pm_protected m -> kept (replace_secret_owned target value m).1 ref = Some v) /\
  is_Some (kept (replace_secret_owned target value m).1 ref).
Proof.
  unfold kept, replace_secret_owned, st_bind, st_get. intros Hv.
  destruct (secret_is_protected m target) eqn:Hp; [cbn; eauto|].
  pose proof (on_secrets_view (secrets_replace target value) m) as Hw.
  assert (forall x, (let (m1, r) := on_secrets (secrets_replace target value) m in
      match r with Ok _ => st_ret target m1 | Err e => (m1, Err e) end).1 = x ->
      pm_secrets x = pm_secrets (on_secrets (secrets_replace target value) m).1) as Hx.
  { intros x <-. by destruct (on_secrets _ m) as [? []]. }
  rewrite (Hx _ eq_refl), Hw. destruct (decide (ref = target)) as [->|Hn].
  - split; [|apply replace_present; eauto]. intros Hin. apply bool_decide_eq_false in Hp. done.
  - rewrite replace_keeps, Hv by done. eauto.
Qed.

Lemma delete_kept target m ref v : kept m ref = Some v ->
  ref ∈ pm_protected m \/ secret_is_referenced m ref = true ->
  kept (delete_secret_owned target m).1 ref = Some v.
Proof.
  unfold kept, delete_secret_owned, st_bind, st_get. intros Hv Hor.
  destruct (secret_is_protected m target) eqn:Hp; [done|].
  destruct (secret_is_referenced m target) eqn:Hr; [done|].
  assert (ref <> target) as Hn.
  { intros ->. destruct Hor as [Hin|Hin]; [|congruence]. by apply bool_decide_eq_false in Hp. }
  pose proof (on_secrets_view (secrets_get target) m) as Hg. rewrite get_keeps in Hg.
  destruct (on_secrets (secrets_get target) m) as [m1 [x|e]]; cbn in Hg; cbn [fst]; [|by rewrite Hg].
  pose proof (on_secrets_view (secrets_delete target) m1) as Hd.
  destruct (on_secrets (secrets_delete target) m1) as [m2 [[]|e]]; cbn in Hd; cbn [fst st_ret];
    rewrite Hd, delete_keeps, Hg by done; done.
Qed.

Lemma attach_secrets m t now :
  pm_secrets (attach_account_health t now m).1 = pm_secrets m /\
  pm_protected (attach_account_health t now m).1 = pm_protected m.
Proof.
  unfold attach_account_health, st_bind, st_get. destruct (snapshots t now) as [snaps t'].
  destruct (_ && _); [done|]. by destruct (reconfigured _ _ _).1.
Qed.

Lemma secrets_only_protected m m' : secrets_only m m' -> pm_protected m' = pm_protected m.
Proof. by intros [s ->]. Qed.

Lemma protect_secrets m ref :
  pm_secrets (protect_secret_ref_owned ref m).1 = pm_secrets m /\
  pm_protected m ⊆ pm_protected (protect_secret_ref_owned ref m).1.
Proof.
  unfold protect_secret_ref_owned, st_bind, st_get. destruct (secret_is_referenced m ref); [done|]. cbn.
  destruct (secret_is_protected m ref); [done|]. cbn. split; [done|].
  intros x Hx. apply elem_of_app. by left.
Qed.

(** One step, on the references it may not touch. *)
Lemma step_kept m m' ref v : management_step m m' -> kept m ref = Some v ->
  pm_protected m ⊆ pm_protected m' /\
  (ref ∈ pm_protected m -> kept m' ref = Some v) /\
  (secret_is_referenced m ref = true -> is_Some (kept m' ref)).
Proof using HL.
  intros Hs Hv. assert (Hsame : forall x, pm_secrets x = pm_secrets m -> kept x ref = Some v) by
    (intros x Hx; unfold kept; by rewrite Hx).
  destruct Hs; unfold protect_secret_ref, commit, reload, create_secret, replace_secret, delete_secret;
    rewrite ?await_fst.
  - destruct (protect_secrets m ref0) as [Hp Hq]. rewrite (Hsame _ Hp). eauto.
  - destruct (commit_owned_secrets m expected candidate now updated) as [Hp ->]. rewrite (Hsame _ Hp). eauto.
  - destruct (reload_owned_secrets m now updated) as [Hp ->]. rewrite (Hsame _ Hp). eauto.
  - rewrite (secrets_only_protected m _ (create_secrets_only scope value m)). rewrite (create_kept _ _ _ _ _ Hv). eauto.
  - rewrite (secrets_only_protected m _ (replace_secrets_only ref0 value m)).
    destruct (replace_kept ref0 value m ref v Hv) as [H1 H2]. eauto.
  - rewrite (secrets_only_protected m _ (delete_secrets_only ref0 m)). split; [done|].
    split; intros Hc; rewrite (delete_kept ref0 m ref v Hv); eauto.
  - destruct (attach_secrets m t now) as [Hp ->]. rewrite (Hsame _ Hp). eauto.
  - rewrite Hsame by done. eauto.
  - rewrite Hsame by done. eauto.
Qed.

(** C27: no call of the management API takes a credential away: whatever is done,
    a protected secret keeps its value for good, and a secret the active
    configuration refers to stays in the store as long as it is referred to. *)
Theorem secrets_guarded m ref v :
  kept m ref = Some v ->
  (forall m', ref ∈ pm_protected m -> rtc management_step m m' -> kept m' ref = Some v) /\
  (forall m', rtc (fun a b => management_step a b /\ secret_is_referenced a ref = true) m m' ->
     is_Some (kept m' ref)).
Proof using HL.
  intros Hv. split.
  - intros m' Hin Hr. induction Hr as [m|m m1 m' Hs Hr IH]; [done|].
    destruct (step_kept _ _ _ _ Hs Hv) as (Hp & Hk & _). auto.
  - intros m' Hr. revert v Hv. induction Hr as [m|m m1 m' [Hs Href] Hr IH]; intros v Hv; [eauto|].
    destruct (step_kept _ _ _ _ Hs Hv) as (_ & _ & Hk). destruct (Hk Href) as [v' Hv']. eauto.
Qed.
End Secrets.

(** ** Witnesses *)
(** A configuration with two accounts, and a candidate that drops one. *)
Definition demo_active : ProviderCandidate := mkProviderCandidate demo_config demo_routing.

Definition demo_candidate : ProviderCandidate := mkProviderCandidate
  (mkProviderConfig (instances demo_config) [mkAccount "work" "main" true (AuthApiKey "secret:1")]) demo_routing.

Definition demo_persisted (revision : Z) (candidate : ProviderCandidate) : PersistedConfig :=
  mkPersisted revision (mkServerConfig 10101) (pc_providers candidate) (pc_routing candidate).

#[local] Instance PersistedConfig_eq_dec : EqDecision PersistedConfig.
Proof. solve_decision. Defined.

(** A format that can write the two documents of the example. *)
#[local] Instance demo_toml : TomlCrate := {|
  toml_from_str document :=
    if bool_decide (document = "one"%string) then Some (demo_persisted 1 demo_active)
    else if bool_decide (document = "two"%string) then Some (demo_persisted 2 demo_candidate) else None;
  toml_to_string p :=
    if bool_decide (p = demo_persisted 1 demo_active) then Some "one"%string
    else if bool_decide (p = demo_persisted 2 demo_candidate) then Some "two"%string else None |}.

#[local] Instance demo_toml_laws : TomlLaws.
Proof.
  split. intros p document. cbn. case_bool_decide as H1; [intros [= <-]; by subst|].
  case_bool_decide as H2; [intros [= <-]; by subst|done].
Qed.

#[local] Instance demo_secrets : ProviderSecrets MemorySecretStore := memory_provider_secrets (fun _ => "secret:9"%string).

#[local] Instance memory_secrets_laws : SecretsLaws MemorySecretStore.
Proof.
  refine {| secrets_view := mem_secrets |}.
  - intros scope value s. cbn. unfold mem_put_scoped. destruct (mem_poisoned s); [done|].
    destruct (mem_secrets s !! "secret:9"%string) as [e|] eqn:E; [by case_bool_decide|]. by apply insert_subseteq.
  - intros ref s. cbn. unfold mem_get. by destruct (mem_poisoned s).
  - intros ref value s other Hn. cbn. unfold mem_replace. destruct (mem_poisoned s); [done|].
    destruct (mem_secrets s !! ref); [|done]. cbn. by rewrite lookup_insert_ne.
  - intros ref value s Hs. cbn. unfold mem_replace. destruct (mem_poisoned s); [done|].
    destruct (mem_secrets s !! ref); [|done]. cbn. rewrite lookup_insert_eq. eauto.
  - intros ref s other Hn. cbn. unfold mem_delete. destruct (mem_poisoned s); [done|]. cbn. by rewrite lookup_delete_ne.
Defined.

Definition demo_store : MemorySecretStore :=
  mkMemory {["secret:1" := "key"; "secret:7" := "admin"]}%string (fun _ => "secret:8"%string) 0 false.

Definition demo_health : AccountHealthTable :=
  match AccountHealthTable_new default_account_health_policy ["work"; "home"]%string with
  | Ok t => t
  | Err _ => mkTable default_account_health_policy [] 0
  end.

Definition demo_management : ProviderManagement (S := MemorySecretStore) :=
  mkManagement demo_catalog (mkDisk (Some "one"%string) []) demo_store
    (mkExecutionSnapshot demo_snapshot demo_health)
    (mkActiveConfiguration 1 1 5 ReloadReady (mkServerConfig 10101) demo_active) [].

Lemma demo_health_new :
  AccountHealthTable_new default_account_health_policy (active_account_ids demo_active) = Ok demo_health.
Proof. vm_compute. reflexivity. Qed.

Lemma demo_loaded :
  @from_loaded demo_url_crate _ (Ok demo_catalog) (mkDisk (Some "one"%string) []) demo_store
    (mkVersioned 1 (mkAppConfig (mkServerConfig 10101) demo_config demo_routing)) 5 = Ok demo_management.
Proof.
  unfold from_loaded. cbn [map_err result_bind].
  change (candidate_of _) with demo_active.
  rewrite (proj2 (build_snapshot_Ok demo_catalog demo_active demo_snapshot) demo_build_Ok).
  cbn [result_bind]. by rewrite demo_health_new.
Qed.

Lemma demo_management_ok : @management_ok demo_url_crate _ demo_management.
Proof. eapply from_loaded_ok, demo_loaded. Qed.

Lemma management_consistent_witness :
  let m := (@commit demo_url_crate demo_toml _ 1 demo_candidate 7 8 demo_management).1 in
  @build demo_url_crate demo_catalog (pc_providers demo_candidate) demo_routing = Ok (px_snapshot (pm_execution m)).
Proof.
  destruct (@management_consistent demo_url_crate demo_toml _ _ _ (Ok demo_catalog) (mkDisk (Some "one"%string) [])
    demo_store (mkVersioned 1 (mkAppConfig (mkServerConfig 10101) demo_config demo_routing)) 5 demo_management
    (@commit demo_url_crate demo_toml _ 1 demo_candidate 7 8 demo_management).1 demo_loaded) as (Hb & _).
  - apply rtc_once. constructor.
  - assert (E : act_candidate (pm_active (@commit demo_url_crate demo_toml _ 1 demo_candidate 7 8 demo_management).1)
                = demo_candidate) by (vm_compute; reflexivity).
    rewrite E in Hb. exact Hb.
Defined.

Lemma commit_exact_witness :
  exists answer m', @commit demo_url_crate demo_toml _ 1 demo_candidate 7 8 demo_management = (m', Ok answer) /\
    co_revision answer = 2 /\ @stored demo_url_crate demo_toml (pm_disk m') =
      Ok (mkVersioned 2 (mkAppConfig (mkServerConfig 10101) (pc_providers demo_candidate) demo_routing)).
Proof.
  destruct (@commit demo_url_crate demo_toml _ 1 demo_candidate 7 8 demo_management) as [m' r] eqn:Hc.
  pose proof (@commit_exact demo_url_crate demo_toml _ _ demo_management 1 demo_candidate 7 8 m' r
    demo_management_ok Hc) as (_ & _ & Hr).
  assert (is_ok r = true) as Hok.
  { change r with (m', r).2. rewrite <- Hc. vm_compute. reflexivity. }
  destruct r as [answer|]; [|discriminate]. destruct Hr as (_ & Hrev & (Hst & _) & _). eauto.
Defined.

Lemma observe_domain t id o now id' : table_wf t ->
  is_Some (get_state (observe t id o now).2 id') <-> is_Some (get_state t id').
Proof.
  intros Hwf. unfold observe. destruct (get_state t id) as [s|] eqn:E; [|done]. cbn.
  destruct (decide (id' = id)) as [->|Hn]; [rewrite get_set_eq, E by done; split; eauto|].
  by rewrite get_set_ne.
Qed.

(** The account of the candidate is refused once with its key, then limited. *)
Definition demo_raced : ProviderManagement (S := MemorySecretStore) :=
  set_execution (mkExecutionSnapshot demo_snapshot
    (observe (observe demo_health "work" InvalidCredentials 10).2 "work" (RateLimited None) 11).2) demo_management.

Lemma demo_raced_ok : @management_ok demo_url_crate _ demo_raced.
Proof.
  apply (management_ok_table demo_management); [exact demo_management_ok| |].
  - apply observe_inv; [|done|ulia]. apply observe_inv; [|done|ulia]. exact (mg_health _ demo_management_ok).
  - intros id. assert (table_inv demo_health) as Hi by exact (mg_health _ demo_management_ok).
    rewrite !observe_domain; [done|apply Hi|]. eapply ti_wf, observe_inv; [done|done|ulia].
Qed.

Lemma demo_committable : @committable demo_url_crate demo_toml _ demo_raced 1 demo_candidate.
Proof.
  split; try done.
  - exists (mkVersioned 1 (mkAppConfig (mkServerConfig 10101) demo_config demo_routing)). split; [|done].
    vm_compute. reflexivity.
  - destruct (@build demo_url_crate demo_catalog (pc_providers demo_candidate) demo_routing) as [snapshot|e] eqn:E.
    + exists snapshot. split; [exact E|]. split; [|reflexivity].
      intros account ref _ Hr. change (ref ∈ @nil string) in Hr. exfalso. exact (proj1 (elem_of_nil _) Hr).
    + assert (Hok : is_ok (@build demo_url_crate demo_catalog (pc_providers demo_candidate) demo_routing) = true)
        by (vm_compute; reflexivity). by rewrite E in Hok.
Qed.

Lemma commit_split_witness :
  exists m', @commit demo_url_crate demo_toml _ 1 demo_candidate 12 13 demo_raced = (m', Err StorageFailure) /\
    @stored demo_url_crate demo_toml (pm_disk m') =
      Ok (mkVersioned 2 (mkAppConfig (mkServerConfig 10101) (pc_providers demo_candidate) demo_routing)) /\
    rs_revision (runtime_status m') = 1.
Proof.
  destruct (@commit demo_url_crate demo_toml _ 1 demo_candidate 12 13 demo_raced) as [m' r] eqn:Hc.
  destruct (@commit_split demo_url_crate demo_toml _ _ demo_raced 1 demo_candidate 12 13 m' r
    demo_raced_ok demo_committable Hc) as (Hst & Hiff & Herr).
  assert (Hno : is_ok r = false).
  { change r with (m', r).2. rewrite <- Hc. vm_compute. reflexivity. }
  destruct r as [answer|e]; [discriminate|]. destruct (Herr e eq_refl) as (-> & Hrev & _). eauto.
Defined.

Lemma secrets_guarded_witness :
  let m := (@protect_secret_ref MemorySecretStore "secret:7" demo_management).1 in
  @kept _ _ memory_secrets_laws (@delete_secret _ demo_secrets "secret:7" (@delete_secret _ demo_secrets "secret:1" m).1).1
    "secret:7" = Some "admin"%string.
Proof.
  apply (@secrets_guarded demo_url_crate demo_toml _ _ _ memory_secrets_laws
    (@protect_secret_ref MemorySecretStore "secret:7" demo_management).1 "secret:7" "admin").
  - vm_compute. reflexivity.
  - vm_compute. apply list_elem_of_here.
  - eapply rtc_l; [apply step_delete|]. apply rtc_once. apply step_delete.
Defined.
