(* ===== verification/ManagementApi.v ===== *)
(** * The management handlers ([api/routes.rs], [api/model.rs], [api/providers.rs])

    The handlers behind the management routes: health, capabilities, the
    lifecycle, client tokens, and the provider control plane.  A body arrives
    parsed, or as the status of the framework's rejection; a path parameter
    arrives decoded, or not at all.  What the lifecycle answers at the moments a
    handler asks it is an argument of the handler. *)
From S2P Require Import Prelude Json Ident NetAddr Config Catalog Routing Snapshot Accounts Lifecycle.
From S2P Require Import AuthRegistry DataRegistry Security ConfigStore Providers.
From S2P Require Import AuthSpec AuthStore DataPlane SecuritySpec.

(** A rejected body, by its status. *)
Record JsonRejection : Set := mkJsonRejection { rejection_status : Z }.

(** ** Health and capabilities *)
Record HealthResponse : Set := mkHealth { hr_status : string; hr_instance_id : string }.

Definition health (instance_id : string) : HealthResponse := mkHealth "ok" instance_id.

Record CapabilitiesResponse : Set := mkCapabilitiesResponse {
  cr_wokcore_version : string;
  cr_management_api_major : Z;
  cr_minimum_management_api_major : Z;
  cr_maximum_management_api_major : Z;
  cr_provider_protocols : list string;
  cr_capabilities : list string;
  cr_instance_id : string;
  cr_installation_id : string
}.

Definition CAPABILITIES : list string :=
  ["client_token.issue"; "client_token.inspect"; "client_token.revoke"; "diagnostics.events.v1";
   "diagnostics.export.v1"; "discovery.v1"; "provider.catalog.v1"; "provider.config.v1";
   "provider.models.v1"; "provider.secrets.v1"; "service.drain"; "service.status";
   "sessions.index.v1"; "sessions.messages.v1"; "usage.session.v1"]%string.

Definition IMPLEMENTED_PROVIDER_PROTOCOLS : list string :=
  ["anthropic.messages.v1"; "azure.openai.v1"; "cursor.connect.v1"; "google.gemini.v1";
   "openai.chat_completions.v1"; "openai.responses.v1"]%string.

Definition capabilities (version instance_id installation_id : string) : CapabilitiesResponse :=
  mkCapabilitiesResponse version 1 1 1 IMPLEMENTED_PROVIDER_PROTOCOLS CAPABILITIES instance_id installation_id.

(** ** Lifecycle *)
Record LifecycleResponse : Set := mkLifecycleResponse { lr_phase : string; lr_active_requests : Z }.

Definition lifecycle_phase_name (phase : LifecyclePhase) : string :=
  match phase with
  | Starting => "starting"
  | Running => "running"
  | Draining => "draining"
  | AwaitingCancellation => "awaiting_cancellation"
  | Stopping => "stopping"
  end.

Definition lifecycle_response (snapshot : LifecycleSnapshot) : LifecycleResponse :=
  mkLifecycleResponse (lifecycle_phase_name (snapshot_phase snapshot)) (snapshot_active snapshot).

Definition service_status (snapshot : LifecycleSnapshot) : LifecycleResponse := lifecycle_response snapshot.

Inductive StateTransition : Set :=
| StartingToReady | ReadyToDegraded | DegradedToReady | ReadyToDraining
| DrainingToAwaitingCancellation | DrainingToReady | ReadyToStopping | StoppingToStopped.

#[global] Instance StateTransition_eq_dec : EqDecision StateTransition.
Proof. solve_decision. Defined.

(** An answer with the transition it records, if it does. *)
Definition lifecycle_answer : Type := result ApiError LifecycleResponse * option StateTransition.

Definition drain (before : LifecyclePhase) (begun : result LifecycleError unit) (after : LifecyclePhase)
  (final : LifecycleSnapshot) : lifecycle_answer :=
  match begun with
  | Err _ => (Err api_lifecycle_conflict, None)
  | Ok _ =>
      (Ok (lifecycle_response final),
       if bool_decide (before = Running) then
         Some (if bool_decide (after = AwaitingCancellation) then DrainingToAwaitingCancellation else ReadyToDraining)
       else None)
  end.

Definition cancel_drain (before : LifecyclePhase) (cancelled : result LifecycleError LifecycleSnapshot)
  : lifecycle_answer :=
  match cancelled with
  | Err _ => (Err api_lifecycle_conflict, None)
  | Ok snapshot =>
      (Ok (lifecycle_response snapshot),
       match before with Draining | AwaitingCancellation => Some DrainingToReady | _ => None end)
  end.

(** The last component says whether the process is asked to shut down. *)
Definition stop (before : LifecyclePhase) (stopped : result LifecycleError LifecycleSnapshot)
  : lifecycle_answer * bool :=
  match stopped with
  | Err _ => ((Err api_lifecycle_conflict, None), false)
  | Ok snapshot =>
      ((Ok (lifecycle_response snapshot), if bool_decide (before = Stopping) then None else Some ReadyToStopping),
       true)
  end.

(** ** Client tokens *)
Record AuthorizeRequest : Set := mkAuthorizeRequest {
  aq_client_id : string;
  aq_token_id : option string;
  aq_scopes : option (list string)
}.

Record AuthorizeResponse : Set := mkAuthorizeResponse {
  ap_client_id : string;
  ap_token_id : string;
  ap_token : string;
  ap_scopes : list string
}.

(** [Vec::dedup]. *)
Fixpoint dedup (l : list ClientTokenScope) : list ClientTokenScope :=
  match l with
  | a :: (b :: _) as rest => if bool_decide (a = b) then dedup rest else a :: dedup rest
  | l => l
  end.

Definition parse_authorize_scopes (scopes : option (list string)) : option (list ClientTokenScope) :=
  let scopes := default [scope_as_str ProxyUse] scopes in
  if is_emptyb scopes then None
  else
    parsed ← mapM scope_from_str scopes;
    let original_len := zlen parsed in
    let parsed := dedup (sort_by_key scope_index parsed) in
    if zlen parsed =? original_len then Some parsed else None.

Section Tokens.
Context {M : Type} `{AuthMetadataStore M} `{CryptoCrate}.

(** [map_err(|_| ..)?] on a step of the registry. *)
Definition or_api {A E} (error : ApiError) (c : st_res (AuthRegistry (M := M)) E A)
  : st_res (AuthRegistry (M := M)) ApiError A := fun r =>
  let '(r, a) := c r in (r, map_err (fun _ => error) a).

(** [authorize]: [new_token_id] and [now] are what the metadata source answers,
    [entropy] what the entropy source does. *)
Definition authorize_handler (body : result JsonRejection AuthorizeRequest) (new_token_id now : option string)
  (entropy : result TokenError (list Z)) : st_res (AuthRegistry (M := M)) ApiError AuthorizeResponse :=
  let! request := st_lift (match body with
    | Ok request => Ok request
    | Err rejection =>
        if rejection_status rejection =? 413 then Err api_payload_too_large else Err api_invalid_request_body
    end) in
  let! scopes := st_lift (ok_or (parse_authorize_scopes (aq_scopes request)) api_invalid_request_body) in
  let! token_id := st_lift (match aq_token_id request with
    | Some token_id => Ok token_id
    | None => ok_or new_token_id api_internal_failure
    end) in
  let! issued_at := st_lift (ok_or now api_internal_failure) in
  let! material := or_api api_storage_failure
    (issue_token entropy token_id (aq_client_id request) issued_at scopes) in
  st_ret (mkAuthorizeResponse (aq_client_id request) token_id material (scope_as_str <$> scopes)).

(** The two parameters of a token's path. *)
Definition token_path_ids (path : option (string * string)) : result ApiError (string * string) :=
  let? '(client_id, token_id) := ok_or path api_invalid_path_parameters in
  let? client_id := map_err (fun _ => api_invalid_client_id) (ClientId_new client_id) in
  Ok (client_id, token_id).

Definition client_token_status (path : option (string * string)) (r : AuthRegistry (M := M)) : result ApiError bool :=
  let? '(client_id, token_id) := token_path_ids path in
  Ok (client_token_active r client_id token_id).

Definition revoke (path : option (string * string)) (now : option string)
  : st_res (AuthRegistry (M := M)) ApiError bool :=
  let! ids := st_lift (token_path_ids path) in
  let! revoked_at := st_lift (ok_or now api_internal_failure) in
  or_api api_storage_failure (revoke_token ids.1 ids.2 revoked_at).
End Tokens.

(** ** Providers *)
Definition json_body {T} (body : result JsonRejection T) : result ApiError T :=
  match body with
  | Ok body => Ok body
  | Err rejection =>
      if rejection_status rejection =? 413 then Err api_payload_too_large
      else if rejection_status rejection =? 415 then Err api_unsupported_media_type
      else Err api_invalid_request_body
  end.

Definition secret_ref_path (uuid_parse : string -> bool) (path : option string) : result ApiError string :=
  let? value := ok_or path api_invalid_path_parameters in
  map_err (fun _ => api_invalid_path_parameters) (SecretRef_parse uuid_parse value).

Definition require_empty_body (request : Request) : result ApiError unit :=
  check? guard_err (negb (is_emptyb (get_all request "content-type"))) api_unsupported_media_type;
  guard_err (negb (is_emptyb (default [] (rq_body request)))) api_invalid_request_body.

Definition map_provider_error (error : ProviderManagementError) : ApiError :=
  match error with
  | InvalidCatalog => api_provider_internal_failure
  | StorageFailure => api_provider_storage_failure
  | InvalidConfiguration => api_provider_config_invalid
  | RevisionConflicts => api_provider_config_revision_conflict
  | SecretMissing => api_provider_secret_not_found
  | SecretExists => api_provider_secret_already_exists
  | SecretInUse => api_provider_secret_in_use
  | SecretProtected => api_provider_secret_protected
  | SecretStoreReadOnly => api_provider_secret_store_read_only
  end.

Definition SCHEMA_VERSION : Z := 1.

Record CatalogResponse : Type := mkCatalogResponse {
  cat_schema_version : Z;
  cat_catalog_schema_version : Z;
  cat_baseline_commit : string;
  cat_providers : list ProviderDefinition
}.

Record RuntimeResponse : Type := mkRuntimeResponse { rt_schema_version : Z; rt_runtime : ProviderRuntimeStatus }.
Record ModelsResponse : Type := mkModelsResponse { mr_schema_version : Z; mr_models : list PublicModelMetadata }.
Record ValidationResponse : Type := mkValidationResponse {
  vr_schema_version : Z;
  vr_valid : bool;
  vr_validation : ProviderValidation
}.
Record CommitRequest : Set := mkCommitRequest { cq_expected_revision : Z; cq_candidate : ProviderCandidate }.
Record CommitResponse : Type := mkCommitResponse { cp_schema_version : Z; cp_commit : ProviderCommit }.
Record CreateSecretRequest : Set := mkCreateSecretRequest {
  cs_provider_id : string;
  cs_account_id : option string;
  cs_purpose : SecretPurpose;
  cs_secret : string
}.
Record SecretResponse : Set := mkSecretResponse { sr_schema_version : Z; sr_operation : string; sr_secret_ref : string }.

Section Providers.
Context `{UrlCrate} `{TomlCrate} {S : Type} `{ProviderSecrets S}.

Abbreviation management := (ProviderManagement (S := S)).

(** The server's control plane, if it has one. *)
Definition provider_management (state : option management) : result ApiError management :=
  ok_or state api_provider_runtime_unavailable.

(** A method of the control plane, its error mapped. *)
Definition on_management {A} (c : st_res management ProviderManagementError A)
  : st_res (option management) ApiError A := fun state =>
  match state with
  | None => (None, Err api_provider_runtime_unavailable)
  | Some m => let '(m, r) := c m in (Some m, map_err map_provider_error r)
  end.

Definition catalog_handler (state : option management) : result ApiError CatalogResponse :=
  let? providers := provider_management state in
  let c := pm_catalog providers in
  Ok (mkCatalogResponse SCHEMA_VERSION (schema_version c) (baseline_commit c) (Catalog.providers c)).

Definition runtime_status_handler (state : option management) : result ApiError RuntimeResponse :=
  let? providers := provider_management state in Ok (mkRuntimeResponse SCHEMA_VERSION (runtime_status providers)).

Definition models_handler (state : option management) : result ApiError ModelsResponse :=
  let? providers := provider_management state in Ok (mkModelsResponse SCHEMA_VERSION (models providers)).

(** A panic of the check would end the handler: [None]. *)
Definition validate_configuration (body : result JsonRejection ProviderCandidate) (state : option management)
  : option (result ApiError ValidationResponse) :=
  match json_body body with
  | Err e => Some (Err e)
  | Ok candidate =>
      match provider_management state with
      | Err e => Some (Err e)
      | Ok providers =>
          match validate_candidate providers candidate with
          | Ok validation => Some (Ok (mkValidationResponse SCHEMA_VERSION true validation))
          | Err (Refused error) => Some (Err (map_provider_error error))
          | Err (TaskPanicked _) => None
          end
      end
  end.

Definition commit_configuration (body : result JsonRejection CommitRequest) (now updated : Z)
  : st_res (option management) ApiError CommitResponse :=
  let! request := st_lift (json_body body) in
  let! answer := on_management (commit (cq_expected_revision request) (cq_candidate request) now updated) in
  st_ret (mkCommitResponse SCHEMA_VERSION answer).

Definition reload_handler (request : Request) (now updated : Z) : st_res (option management) ApiError CommitResponse :=
  do! st_lift (require_empty_body request);
  let! answer := on_management (reload now updated) in
  st_ret (mkCommitResponse SCHEMA_VERSION answer).

Definition create_secret_handler (body : result JsonRejection CreateSecretRequest)
  : st_res (option management) ApiError SecretResponse :=
  let! request := st_lift (json_body body) in
  do! st_lift (guard_err (str_is_empty (cs_secret request)) api_invalid_request_body);
  let! ref := on_management (create_secret
    (mkSecretScope (cs_provider_id request) (cs_account_id request) (cs_purpose request)) (cs_secret request)) in
  st_ret (mkSecretResponse SCHEMA_VERSION "created" ref).

Definition replace_secret_handler (uuid_parse : string -> bool) (path : option string)
  (body : result JsonRejection string) : st_res (option management) ApiError SecretResponse :=
  let! secret_ref := st_lift (secret_ref_path uuid_parse path) in
  let! secret := st_lift (json_body body) in
  do! st_lift (guard_err (str_is_empty secret) api_invalid_request_body);
  let! ref := on_management (replace_secret secret_ref secret) in
  st_ret (mkSecretResponse SCHEMA_VERSION "replaced" ref).

Definition delete_secret_handler (uuid_parse : string -> bool) (path : option string) (request : Request)
  : st_res (option management) ApiError SecretResponse :=
  do! st_lift (require_empty_body request);
  let! secret_ref := st_lift (secret_ref_path uuid_parse path) in
  let! ref := on_management (delete_secret secret_ref) in
  st_ret (mkSecretResponse SCHEMA_VERSION "deleted" ref).
End Providers.

(** * What the management handlers grant

    The scopes a client asks for and gets, and what its token then opens, from
    the authorize call to the gate. *)

(** ** Scopes *)
Lemma scope_from_str_Some name s : scope_from_str name = Some s <-> scope_as_str s = name.
Proof.
  unfold scope_from_str. split.
  - intros [_ H]%find_some. by apply bool_decide_eq_true in H.
  - intros <-. by destruct s.
Qed.

Lemma dedup_cons a b l : dedup (a :: b :: l) = if bool_decide (a = b) then dedup (b :: l) else a :: dedup (b :: l).
Proof. done. Qed.

Lemma dedup_length l : zlen (dedup l) <= zlen l.
Proof.
  induction l as [|a [|b l] IH]; [done..|]. rewrite dedup_cons. unfold zlen in *.
  case_bool_decide; cbn [length] in *; lia.
Qed.

(** [dedup] that drops nothing was not needed. *)
Lemma dedup_same l : zlen (dedup l) = zlen l -> dedup l = l /\ has_equal_neighbours l = false.
Proof.
  induction l as [|a [|b l] IH]; [done..|]. rewrite dedup_cons.
  change (has_equal_neighbours (a :: b :: l)) with (bool_decide (a = b) || has_equal_neighbours (b :: l)).
  pose proof (dedup_length (b :: l)) as Hle. unfold zlen in *. case_bool_decide as Hab.
  - subst. intros He. exfalso. cbn [length] in *. lia.
  - intros He. destruct IH as [-> ->]; [cbn [length] in *; lia|]. done.
Qed.

Lemma parse_authorize_scopes_Some asked scopes : parse_authorize_scopes asked = Some scopes ->
  scopes <> [] /\ NoDup scopes /\
  forall s, s ∈ scopes <-> scope_as_str s ∈ default [scope_as_str ProxyUse] asked.
Proof.
  unfold parse_authorize_scopes. set (names := default _ asked).
  destruct (is_emptyb names) eqn:Hn; [done|]. intros (parsed & Hp & Hif)%bind_Some.
  destruct (_ =? _) eqn:Hl; [|done]. injection Hif as <-. apply Z.eqb_eq in Hl.
  assert (Hperm : sort_by_key scope_index parsed ≡ₚ parsed) by apply sort_by_key_perm.
  destruct (dedup_same (sort_by_key scope_index parsed)) as [-> Hne].
  { rewrite Hl. unfold zlen. by rewrite Hperm. }
  apply mapM_Some in Hp.
  assert (Hmap : names = scope_as_str <$> parsed).
  { clear -Hp. induction Hp as [|name s names parsed Hs Hp IH]; [done|].
    apply scope_from_str_Some in Hs. cbn. by rewrite Hs, IH. }
  split; [|split].
  - intros Hnil. rewrite Hnil in Hperm. apply Permutation_nil in Hperm. subst parsed. cbn in Hmap. by rewrite Hmap in Hn.
  - assert (validate_scopes parsed = Ok tt) as Hv; [|by apply validate_scopes_Ok in Hv as [_ Hv]; rewrite Hperm].
    unfold validate_scopes. cbv zeta. rewrite Hne.
    destruct parsed; [by rewrite Hmap in Hn|done].
  - intros s. rewrite Hperm, Hmap, list_elem_of_fmap. split; [eauto|].
    intros (s' & He & Hin). apply (f_equal scope_from_str) in He.
    rewrite !(proj2 (scope_from_str_Some _ _) eq_refl) in He. by injection He as <-.
Qed.

(** ** The token an authorization answers with *)
Section Tokens.
Context {M : Type} `{HM : AuthMetadataStore M} `{HC : CryptoCrate} `{HCL : !CryptoLaws}.

Lemma authorize_issued body new_token_id now entropy (r r' : AuthRegistry (M := M)) answer :
  authorize_handler body new_token_id now entropy r = (r', Ok answer) ->
  exists request scopes issued_at, body = Ok request /\
    parse_authorize_scopes (aq_scopes request) = Some scopes /\ ap_scopes answer = scope_as_str <$> scopes /\
    ap_client_id answer = aq_client_id request /\
    issue_token entropy (ap_token_id answer) (aq_client_id request) issued_at scopes r = (r', Ok (ap_token answer)).
Proof.
  unfold authorize_handler, or_api, st_lift. intros (r0 & request & Hb & Hk)%st_bind_Ok.
  assert (r0 = r /\ body = Ok request) as [-> ->].
  { destruct body as [q|rej]; [by injection Hb as <- <-|]. by destruct (rejection_status rej =? 413). }
  apply st_bind_Ok in Hk as (r0 & scopes & Hs & Hk). injection Hs as <- Hs%ok_or_Ok.
  apply st_bind_Ok in Hk as (r0 & token_id & Ht & Hk). injection Ht as <- Ht.
  apply st_bind_Ok in Hk as (r0 & issued_at & Hn & Hk). injection Hn as <- Hn.
  apply st_bind_Ok in Hk as (r1 & material & Hi & Hk). injection Hk as <- <-.
  destruct (issue_token _ _ _ _ _ r) as [r2 [x|e]] eqn:Hi'; [|done]. injection Hi as <- <-.
  exists request, scopes, issued_at. by split_and!.
Qed.

(** A client token opens its scopes, and never the management interface. *)
Lemma issued_opens entropy id client at_ scopes (r r' : AuthRegistry (M := M)) material :
  (forall l, entropy = Ok l -> entropy_bytes l) ->
  issue_token entropy id client at_ scopes r = (r', Ok material) ->
  validate_management r' material = false /\
  forall s, validate_client_scope r' material s =
    if bool_decide (s ∈ scopes) then Some (mkAuthorized id client) else None.
Proof using HCL.
  intros Hent Hi. destruct (issue_token_cases entropy id client at_ scopes r)
    as [[e Heq]|(bytes & m' & res & -> & _ & _ & _ & Heq)]; [congruence|].
  rewrite Heq in Hi. destruct res; [|done]. injection Hi as <- <-. split.
  - by unfold validate_management.
  - intros s. unfold validate_client_scope, is_proxy_token. rewrite generate_shape by auto. cbn [negb clients].
    rewrite lookup_insert_eq. cbn [act_scopes]. by case_bool_decide.
Qed.

(** ** From the authorize call to the gate *)
Context `{HR : RouterCrate} `{HRL : !RouterLaws} `{HW : JsonWriter} {S : Type}.

(** What the client of an authorization may call. *)
Definition reachable_with (granted_scopes : list string) (request : Request) (need : Requirement) : Prop :=
  match need with
  | Open => True
  | NeedsManagement => False
  | NeedsScope scope => scope_as_str scope ∈ granted_scopes
  | NeedsProxy protocol => scope_as_str ProxyUse ∈ granted_scopes /\ validate_data_plane_request request protocol = None
  end.

(** C28: an authorization grants what was asked, and no more.  When the authorize
    handler answers, the scopes of the answer are those asked for ([proxy.use]
    if none were named), each once; and a request that carries the answered
    token as its bearer reaches, among the handlers of the router, exactly those
    whose scope is among them (on the data plane, in the dialect's form), under
    the checks every request undergoes (authority, origin, the service's state and
    the limit of a management body), and never one that needs the management
    token. *)
Theorem authorized_client_reach body new_token_id now entropy (r r' : AuthRegistry (M := M)) answer :
  (forall l, entropy = Ok l -> entropy_bytes l) ->
  authorize_handler body new_token_id now entropy r = (r', Ok answer) ->
  (exists request, body = Ok request /\ ap_client_id answer = aq_client_id request /\ NoDup (ap_scopes answer) /\
     forall s, scope_as_str s ∈ ap_scopes answer <->
               scope_as_str s ∈ default [scope_as_str ProxyUse] (aq_scopes request)) /\
  forall authority moment request_id request h params,
    bearer_candidate request = Some (ap_token answer) ->
    dispatch (rq_method request) (rq_path request) = (h, params) ->
    h <> h_not_found -> h <> h_method_not_allowed ->
    (exists passage given, enforce_request_security (S := S) authority r' moment request_id request
                           = Ok (passage, given)) <->
    single_header request "host" = Some authority /\
    (forall a, rq_authority request = Some a -> a = authority) /\
    get_all request "origin" = [] /\
    in_service moment (rq_method request) h /\
    body_fits (rq_method request) h request /\
    reachable_with (ap_scopes answer) request (required (rq_method request) h).
Proof using HCL HRL.
  intros Hent (q & scopes & at_ & -> & Hp & Hs & Hc & Hi)%authorize_issued.
  apply parse_authorize_scopes_Some in Hp as (_ & Hnd & Hin). apply issued_opens in Hi as [Hm Hv]; [|done].
  assert (Hname : forall s, scope_as_str s ∈ ap_scopes answer <-> s ∈ scopes).
  { intros s. rewrite Hs, list_elem_of_fmap. split; [|eauto]. intros (s' & He & ?).
    apply (f_equal scope_from_str) in He. rewrite !(proj2 (scope_from_str_Some _ _) eq_refl) in He. by injection He as ->. }
  split.
  { exists q. split_and!; [done|done| |]; [|intros s; by rewrite Hname, Hin].
    rewrite Hs. apply NoDup_fmap_2; [|done]. intros a b He. apply (f_equal scope_from_str) in He.
    rewrite !(proj2 (scope_from_str_Some _ _) eq_refl) in He. by injection He. }
  intros authority moment request_id request h params Hb Hd Hn Hn'.
  pose proof (fun given => guard_decides (S := S) authority r' moment request_id request given h params Hd Hn Hn') as Hg.
  assert (Hreach : (exists given, granted r' (required (rq_method request) h) request given) <->
                   reachable_with (ap_scopes answer) request (required (rq_method request) h)).
  { destruct (required (rq_method request) h) as [| |scope|protocol]; cbn [granted reachable_with].
    - naive_solver.
    - rewrite Hb. cbn. split; [|done]. intros (? & _ & t & [= <-] & Ht). congruence.
    - rewrite Hb, Hname. cbn. split.
      + intros (? & _ & t & [= <-] & [Ht|Ht]); [congruence|]. rewrite Hv in Ht. case_bool_decide; [done|by destruct Ht].
      + intros Hsc. exists request. split; [done|]. exists (ap_token answer). split; [done|]. right.
        rewrite Hv, bool_decide_true by done. eauto.
    - rewrite Hb, Hname. cbn. split.
      + intros (? & t & c & [= <-] & Ht & Hf & _). rewrite Hv in Ht. by case_bool_decide.
      + intros [Hsc Hf]. eexists _, (ap_token answer), _. split; [done|]. rewrite Hv, bool_decide_true by done.
        split; [done|]. split; [done|reflexivity]. }
  rewrite <- Hreach. split.
  - intros (passage & given & He). destruct (proj1 (Hg given)) as (? & ? & ? & ? & ? & ?); [eauto|]. eauto 12.
  - intros (H1 & H2 & H3 & H4 & Hbody & given & H5). destruct (proj2 (Hg given)) as [passage He]; [by split_and!|]. eauto.
Qed.
End Tokens.

(** ** Witness *)
#[local] Existing Instance demo_crypto.
#[local] Existing Instance demo_crypto_laws.
#[local] Existing Instance ordered_router.
#[local] Existing Instance ordered_router_laws.
#[local] Instance api_writer : JsonWriter := fun _ => [].

Definition demo_authorized :=
  authorize_handler (H := state_auth_store demo_uuid) (Ok (mkAuthorizeRequest "client-9" None (Some ["usage.read"%string])))
    (Some "tok-9"%string) (Some "t5"%string) (demo_entropy 9) demo_running.

Definition demo_answer : AuthorizeResponse :=
  match demo_authorized.2 with Ok answer => answer | Err _ => mkAuthorizeResponse "" "" "" [] end.

Lemma demo_authorized_Ok : demo_authorized = (demo_authorized.1, Ok demo_answer).
Proof. vm_compute. reflexivity. Qed.

(** A client authorized to read usage reaches the usage route and no session. *)
Lemma authorized_client_reach_witness :
  let call path := enforce_request_security (S := unit) "127.0.0.1:10101" demo_authorized.1 (mkMoment true Running) "r"
                     (demo_call (ap_token demo_answer) GET path) in
  (exists passage given, call "/wokcore/v1/usage" = Ok (passage, given)) /\
  ~ (exists passage given, call "/wokcore/v1/sessions/s1/messages" = Ok (passage, given)).
Proof.
  intros call.
  destruct (@authorized_client_reach StateStore (state_auth_store demo_uuid) demo_crypto demo_crypto_laws ordered_router
    ordered_router_laws api_writer unit (Ok (mkAuthorizeRequest "client-9" None (Some ["usage.read"%string])))
    (Some "tok-9"%string) (Some "t5"%string) (demo_entropy 9) demo_running demo_authorized.1 demo_answer)
    as [_ Hreach].
  - intros l. by apply demo_entropy_ok.
  - transitivity demo_authorized; [unfold demo_authorized; reflexivity|exact demo_authorized_Ok].
  - split.
    + apply (Hreach "127.0.0.1:10101"%string (mkMoment true Running) "r"%string
        (demo_call (ap_token demo_answer) GET "/wokcore/v1/usage") h_usage []).
      * vm_compute. reflexivity.
      * vm_compute. reflexivity.
      * done.
      * done.
      * split; [vm_compute; reflexivity|]. split; [done|]. split; [vm_compute; reflexivity|].
        split; [by right|]. split; [intros Hm; vm_compute in Hm; discriminate Hm|]. vm_compute. apply list_elem_of_here.
    + intros Hp. apply (Hreach "127.0.0.1:10101"%string (mkMoment true Running) "r"%string
        (demo_call (ap_token demo_answer) GET "/wokcore/v1/sessions/s1/messages") h_session_messages ["s1"%string]) in Hp.
      * destruct Hp as (_ & _ & _ & _ & _ & Hin).
        change ("sessions.read"%string ∈ ap_scopes demo_answer) in Hin.
        apply (bool_decide_pack _) in Hin. vm_compute in Hin. exact Hin.
      * vm_compute. reflexivity.
      * vm_compute. reflexivity.
      * done.
      * done.
Defined.
