(* ===== verification/Calendar.v ===== *)
(** * Dates and timestamps

    Models the time functions of [wokcore-server/src/runtime.rs] and of
    [wokcore-sessions/src/codex.rs], and [UtcTimestamp::parse] of
    [wokcore-diagnostics/src/event.rs].  A text is the string of its bytes; [/]
    and [%] on [i64] round towards zero ([Z.quot], [Z.rem]), [div_euclid] and
    [rem_euclid] by a positive number are [Z.div] and [Z.modulo]. *)
From S2P Require Import Prelude Catalog.

Definition i64_max : Z := 9223372036854775807.
Definition i64_min : Z := -9223372036854775808.

Definition checked_i64 (x : Z) : option Z := if (i64_min <=? x) && (x <=? i64_max) then Some x else None.

(** ** The calendar *)
Definition civil_from_days (days : Z) : Z * Z * Z :=
  let days := days + 719468 in
  let era := Z.quot (if days >=? 0 then days else days - 146096) 146097 in
  let day_of_era := days - era * 146097 in
  let year_of_era :=
    Z.quot (day_of_era - Z.quot day_of_era 1460 + Z.quot day_of_era 36524 - Z.quot day_of_era 146096) 365 in
  let year := year_of_era + era * 400 in
  let day_of_year := day_of_era - (365 * year_of_era + Z.quot year_of_era 4 - Z.quot year_of_era 100) in
  let month_prime := Z.quot (5 * day_of_year + 2) 153 in
  let day := day_of_year - Z.quot (153 * month_prime + 2) 5 + 1 in
  let month := month_prime + (if month_prime <? 10 then 3 else -9) in
  let year := year + (if month <=? 2 then 1 else 0) in
  (year, month, day).

Definition days_from_civil (year month day : Z) : Z :=
  let year := year - (if month <=? 2 then 1 else 0) in
  let era := Z.quot (if year >=? 0 then year else year - 399) 400 in
  let year_of_era := year - era * 400 in
  let adjusted_month := month + (if month >? 2 then -3 else 9) in
  let day_of_year := Z.quot (153 * adjusted_month + 2) 5 + day - 1 in
  let day_of_era := year_of_era * 365 + Z.quot year_of_era 4 - Z.quot year_of_era 100 + day_of_year in
  era * 146097 + day_of_era - 719468.

Definition is_leap (year : Z) : bool :=
  (Z.rem year 4 =? 0) && (negb (Z.rem year 100 =? 0) || (Z.rem year 400 =? 0)).

(** The last day of a month; 0 for what is no month. *)
Definition days_in_month (year month : Z) : Z :=
  if existsb (Z.eqb month) [1; 3; 5; 7; 8; 10; 12] then 31
  else if existsb (Z.eqb month) [4; 6; 9; 11] then 30
  else if month =? 2 then (if is_leap year then 29 else 28)
  else 0.

(** [valid_date] of [codex.rs]. *)
Definition valid_date (year month day : Z) : bool :=
  if days_in_month year month =? 0 then false
  else (1 <=? year) && (1 <=? day) && (day <=? days_in_month year month).

(** ** Text *)
(** [{value:0width$}] of a number that is not negative. *)
Fixpoint decimal (fuel : nat) (n : Z) (acc : list Z) : list Z :=
  match fuel with
  | O => acc
  | S fuel =>
      let acc := (48 + n mod 10) :: acc in
      if n / 10 =? 0 then acc else decimal fuel (n / 10) acc
  end.

Definition padded (width : nat) (n : Z) : list Z :=
  let digits := decimal 20 n [] in replicate (width - length digits) 48 ++ digits.

Definition timestamp_text (year month day hour minute second : Z) : string :=
  bytes_str (padded 4 year ++ [45] ++ padded 2 month ++ [45] ++ padded 2 day ++ [84]
             ++ padded 2 hour ++ [58] ++ padded 2 minute ++ [58] ++ padded 2 second ++ [90]).

(** The common part of the two writers, on a number of seconds. *)
Definition format_seconds (seconds : Z) : option string :=
  let days := seconds / 86400 in
  let second_of_day := seconds mod 86400 in
  let '(year, month, day) := civil_from_days days in
  if negb ((1 <=? year) && (year <=? 9999)) then None
  else
    let hour := Z.quot second_of_day 3600 in
    let minute := Z.quot (Z.rem second_of_day 3600) 60 in
    let second := Z.rem second_of_day 60 in
    Some (timestamp_text year month day hour minute second).

Definition utc_timestamp_from_epoch_seconds (seconds : Z) : option string :=
  seconds ← (if seconds <=? i64_max then Some seconds else None);
  format_seconds seconds.

(** [str::get] of a range: the slice, if both ends are between characters. *)
Definition char_boundary (l : list Z) (index : nat) : bool :=
  match l !! index with
  | Some b => negb ((128 <=? b) && (b <=? 191))
  | None => (index =? length l)%nat
  end.

Definition str_get (l : list Z) (from until : nat) : option (list Z) :=
  if char_boundary l from && char_boundary l until then Some (take (until - from) (drop from l)) else None.

Definition digits_value (l : list Z) : Z := fold_left (fun value byte => value * 10 + (byte - 48)) l 0.

(** [str::parse::<i64>]: an optional sign and digits. *)
Definition parse_i64 (l : list Z) : option Z :=
  let unsigned l := if is_emptyb l || negb (forallb is_ascii_digit l) then None else Some (digits_value l) in
  match l with
  | 43 :: r => n ← unsigned r; checked_i64 n
  | 45 :: r => n ← unsigned r; checked_i64 (- n)
  | l => n ← unsigned l; checked_i64 n
  end.

(** ** [UtcTimestamp::parse] *)
Definition fixed_at (l : list Z) (index : nat) (byte : Z) : bool := bool_decide (l !! index = Some byte).

Definition timestamp_form (l : list Z) : bool :=
  (length l =? 20)%nat
  && fixed_at l 4 45 && fixed_at l 7 45 && fixed_at l 10 84 && fixed_at l 13 58 && fixed_at l 16 58 && fixed_at l 19 90
  && forallb (fun entry => existsb (Nat.eqb entry.1) [4; 7; 10; 13; 16; 19]%nat || is_ascii_digit entry.2)
       (zip (seq 0 (length l)) l).

Definition slice (l : list Z) (from len : nat) : list Z := take len (drop from l).

(** The slices are all digits here, so [parse::<u32>] reads them. *)
Definition UtcTimestamp_parse (value : string) : option string :=
  let bytes := str_bytes value in
  if negb (timestamp_form bytes) then None
  else
    let number from len := digits_value (slice bytes from len) in
    let year := number 0%nat 4%nat in
    let month := number 5%nat 2%nat in
    let day := number 8%nat 2%nat in
    let hour := number 11%nat 2%nat in
    let minute := number 14%nat 2%nat in
    let second := number 17%nat 2%nat in
    if (year =? 0) || negb ((1 <=? day) && (day <=? days_in_month year month))
       || (23 <? hour) || (59 <? minute) || (59 <? second)
    then None else Some value.

Definition utc_epoch_seconds (value : string) : option Z :=
  let bytes := str_bytes value in
  if negb (zlen bytes =? 20) then None
  else
    let number from until := str_get bytes from until ≫= parse_i64 in
    year ← number 0%nat 4%nat;
    month ← number 5%nat 7%nat;
    day ← number 8%nat 10%nat;
    hour ← number 11%nat 13%nat;
    minute ← number 14%nat 16%nat;
    second ← number 17%nat 19%nat;
    _ ← UtcTimestamp_parse value;
    let days := days_from_civil year month day in
    seconds ← checked_i64 (days * 86400);
    hours ← checked_i64 (hour * 3600);
    seconds ← checked_i64 (seconds + hours);
    minutes ← checked_i64 (minute * 60);
    seconds ← checked_i64 (seconds + minutes);
    seconds ← checked_i64 (seconds + second);
    if 0 <=? seconds then Some seconds else None.

(** ** Timestamps of session files ([codex.rs]) *)
Definition parse_digits (bytes : list Z) (start len : nat) : option Z :=
  if (start + len <=? length bytes)%nat then
    let slice := slice bytes start len in
    if forallb is_ascii_digit slice then Some (digits_value slice) else None
  else None.

(** The index after the digits that start at [index]. *)
Fixpoint skip_digits (l : list Z) : nat :=
  match l with
  | b :: r => if is_ascii_digit b then S (skip_digits r) else O
  | [] => O
  end.

Definition timezone_at (bytes : list Z) : option nat :=
  if fixed_at bytes 19 46 then
    let digits := skip_digits (drop 20 bytes) in
    if (digits =? 0)%nat then None else Some (20 + digits)%nat
  else Some 19%nat.

Definition timezone_offset (bytes : list Z) (index : nat) : option Z :=
  match bytes !! index with
  | Some 90 => if (index + 1 =? length bytes)%nat then Some 0 else None
  | Some sign =>
      if ((sign =? 43) || (sign =? 45)) && (index + 6 =? length bytes)%nat && fixed_at bytes (index + 3) 58 then
        offset_hour ← parse_digits bytes (index + 1) 2;
        offset_minute ← parse_digits bytes (index + 4) 2;
        if (23 <? offset_hour) || (59 <? offset_minute) then None
        else
          let seconds := offset_hour * 3600 + offset_minute * 60 in
          Some (if sign =? 43 then seconds else - seconds)
      else None
  | None => None
  end.

Definition parse_rfc3339_seconds (value : string) : option Z :=
  let bytes := str_bytes value in
  if (zlen bytes <? 20) || negb (fixed_at bytes 4 45) || negb (fixed_at bytes 7 45) || negb (fixed_at bytes 10 84)
     || negb (fixed_at bytes 13 58) || negb (fixed_at bytes 16 58)
  then None
  else
    year ← parse_digits bytes 0 4;
    month ← parse_digits bytes 5 2;
    day ← parse_digits bytes 8 2;
    hour ← parse_digits bytes 11 2;
    minute ← parse_digits bytes 14 2;
    second ← parse_digits bytes 17 2;
    if negb (valid_date year month day) || (23 <? hour) || (59 <? minute) || (59 <? second) then None
    else
      timezone_index ← timezone_at bytes;
      offset ← timezone_offset bytes timezone_index;
      let days := days_from_civil year month day in
      base ← checked_i64 (days * 86400);
      local ← checked_i64 (base + (hour * 3600 + minute * 60 + second));
      checked_i64 (local - offset).

Definition normalize_integer_epoch (raw : Z) : Z :=
  let magnitude := Z.abs raw in
  if magnitude <? 100000000000 then raw
  else if magnitude <? 100000000000000 then Z.quot raw 1000
  else if magnitude <? 100000000000000000 then Z.quot raw 1000000
  else Z.quot raw 1000000000.

Definition format_epoch_seconds (seconds : Z) : option string := format_seconds seconds.

(** The JSON value of a timestamp: a text, an [i64], or anything else. *)
Inductive TimestampValue : Set := TimestampText (value : string) | TimestampNumber (raw : Z) | TimestampOther.

Definition parse_timestamp_utc (value : TimestampValue) : option string :=
  seconds ← match value with
            | TimestampText value => parse_rfc3339_seconds value
            | TimestampNumber raw => Some (normalize_integer_epoch raw)
            | TimestampOther => None
            end;
  format_epoch_seconds seconds.

(** ** [generate_uuid_v4]: the first sixteen bytes of the entropy, marked *)
Definition generate_uuid_v4 (entropy : list Z) : list Z :=
  let bytes := take 16 entropy in
  let bytes := alter (fun b => Z.lor (Z.land b 15) 64) 6%nat bytes in
  alter (fun b => Z.lor (Z.land b 63) 128) 8%nat bytes.
