(* ===== verification/CalendarSpec.v ===== *)
(** * The calendar is the calendar

    [civil_from_days] steps through the Gregorian calendar day by day, and the
    timestamps that are written are read back as the seconds they stand for. *)
From S2P Require Import Prelude Catalog CatalogSpec Calendar.

(** ** Years of an era

    An era is 400 years that begin with a March.  [year_start y] is the first day
    of the era's [y]-th year; the last year ends with the era's leap day. *)
Definition year_start (y : Z) : Z := if y =? 400 then 146097 else 365 * y + y / 4 - y / 100.

(** The quotient by which [civil_from_days] finds the year. *)
Definition year_of (doe : Z) : Z := (doe - doe / 1460 + doe / 36524 - doe / 146096) / 365.

Lemma year_of_mono a b : 0 <= a <= b -> year_of a <= year_of b.
Proof.
  intros Hab. unfold year_of. apply Z.div_le_mono; [lia|].
  assert (forall x, 0 <= x -> x / 146096 = x / 36524 / 4) as Hq by (intros; by rewrite Z.div_div by lia).
  rewrite !Hq by lia. assert (a / 36524 <= b / 36524) by (apply Z.div_le_mono; lia).
  set (p := b / 36524) in *. set (q := a / 36524) in *. clearbody p q.
  assert (q - q / 4 <= p - p / 4) by (zify; Z.to_euclidean_division_equations; lia).
  assert (a - a / 1460 <= b - b / 1460) by (zify; Z.to_euclidean_division_equations; lia). lia.
Qed.

(** Its value at the first and the last day of every year of an era. *)
Lemma year_of_ends : forallb (fun n => let y := Z.of_nat n in
  (year_of (year_start y) =? y) && (year_of (year_start (y + 1) - 1) =? y)
  && (year_start y <? year_start (y + 1))) (seq 0 400) = true.
Proof. vm_compute. reflexivity. Qed.

Lemma year_of_start y doe : 0 <= y < 400 -> year_start y <= doe < year_start (y + 1) -> year_of doe = y.
Proof.
  intros Hy Hd. pose proof year_of_ends as He. rewrite forallb_forall in He.
  specialize (He (Z.to_nat y)). rewrite in_seq in He. specialize (He ltac:(lia)).
  rewrite Z2Nat.id in He by lia. apply andb_true_iff in He as [[E1%Z.eqb_eq E2%Z.eqb_eq]%andb_true_iff E3].
  assert (0 <= year_start y) as H0.
  { unfold year_start. rewrite (proj2 (Z.eqb_neq _ _)) by lia. zify; Z.to_euclidean_division_equations; lia. }
  pose proof (year_of_mono (year_start y) doe ltac:(lia)).
  pose proof (year_of_mono doe (year_start (y + 1) - 1) ltac:(lia)). lia.
Qed.

Lemma year_exists doe : 0 <= doe < 146097 -> exists y, 0 <= y < 400 /\ year_start y <= doe < year_start (y + 1).
Proof.
  intros Hd. assert (forall n, doe < year_start (Z.of_nat n) ->
    exists y, 0 <= y < Z.of_nat n /\ year_start y <= doe < year_start (y + 1)) as Hn.
  { induction n as [|n IH]; intros Hn; [change (year_start (Z.of_nat 0)) with 0 in Hn; lia|].
    destruct (Z.lt_ge_cases doe (year_start (Z.of_nat n))) as [Hlt|Hge].
    - destruct (IH Hlt) as (y & ? & ?). exists y. lia.
    - exists (Z.of_nat n). rewrite Nat2Z.inj_succ in *. unfold Z.succ in *. lia. }
  destruct (Hn 400%nat) as (y & Hy & ?); [change (year_start (Z.of_nat 400)) with 146097; lia|]. exists y. split; [|done].
  change (Z.of_nat 400) with 400 in Hy. lia.
Qed.

(** ** Days of a year *)
Definition month_of (doy : Z) : Z :=
  let m := (5 * doy + 2) / 153 in m + (if m <? 10 then 3 else -9).
Definition day_of (doy : Z) : Z := doy - (153 * ((5 * doy + 2) / 153) + 2) / 5 + 1.

(** The date of day [doy] of the year [y] of era [era]. *)
Definition date (era y doy : Z) : Z * Z * Z :=
  (y + era * 400 + (if month_of doy <=? 2 then 1 else 0), month_of doy, day_of doy).

Lemma euclid_quot d n : 0 < n -> Z.quot (if d >=? 0 then d else d - (n - 1)) n = d / n.
Proof.
  intros Hn. destruct (d >=? 0) eqn:E.
  - apply Z.quot_div_nonneg; lia.
  - assert (d < 0) by lia. assert (0 <= - (d - (n - 1)) - (n - 1) * 1) by lia.
    rewrite <- (Z.opp_involutive (d - (n - 1))), Z.quot_opp_l by lia. rewrite Z.quot_div_nonneg by lia.
    assert (d / n = - ((- (d - (n - 1))) / n)); [|lia].
    symmetry. apply Z.div_unique with (r := d + n * ((- (d - (n - 1))) / n)); [|lia].
    left. pose proof (Z.div_mod (- (d - (n - 1))) n ltac:(lia)). pose proof (Z.mod_pos_bound (- (d - (n - 1))) n Hn). lia.
Qed.

(** Day [doy] of year [y] of an era. *)
Definition in_year (y doy : Z) : Prop := 0 <= y < 400 /\ 0 <= doy < year_start (y + 1) - year_start y.

Definition day_number (era y doy : Z) : Z := era * 146097 + year_start y + doy - 719468.

Lemma year_start_nonneg y : 0 <= y < 400 -> 0 <= year_start y /\ year_start y = 365 * y + y / 4 - y / 100.
Proof.
  intros Hy. unfold year_start. rewrite (proj2 (Z.eqb_neq _ _)) by lia.
  split; [zify; Z.to_euclidean_division_equations; lia|done].
Qed.

Lemma year_length y : 0 <= y < 400 ->
  year_start (y + 1) - year_start y =
  if ((y + 1) mod 4 =? 0) && (negb ((y + 1) mod 100 =? 0) || (y =? 399)) then 366 else 365.
Proof.
  intros Hy. unfold year_start. rewrite (proj2 (Z.eqb_neq y 400)) by lia.
  destruct (y + 1 =? 400) eqn:E.
  - assert (y = 399) as -> by lia. reflexivity.
  - assert (y =? 399 = false) as -> by lia. rewrite orb_false_r.
    destruct ((y + 1) mod 4 =? 0) eqn:E4, ((y + 1) mod 100 =? 0) eqn:E100; cbn;
      zify; Z.to_euclidean_division_equations; lia.
Qed.

Lemma year_start_bound y : 0 <= y < 400 -> year_start (y + 1) <= 146097.
Proof.
  intros Hy. unfold year_start. destruct (y + 1 =? 400) eqn:E; [lia|].
  zify; Z.to_euclidean_division_equations; lia.
Qed.

Lemma in_year_doy y doy : in_year y doy -> 0 <= doy <= 365.
Proof. intros [Hy Hd]. rewrite year_length in Hd by done. destruct (_ && _); lia. Qed.

Lemma civil_day era y doy : in_year y doy -> civil_from_days (day_number era y doy) = date era y doy.
Proof.
  intros Hin. pose proof (in_year_doy _ _ Hin) as Hdoy. destruct Hin as [Hy Hd].
  destruct (year_start_nonneg y Hy) as [H0 Hs]. pose proof (year_start_bound y Hy) as Hb.
  unfold civil_from_days, day_number. cbv zeta.
  replace (era * 146097 + year_start y + doy - 719468 + 719468) with (year_start y + doy + era * 146097) by lia.
  pose proof (euclid_quot (year_start y + doy + era * 146097) 146097 ltac:(lia)) as He.
  change (146097 - 1) with 146096 in He. rewrite He. clear He.
  rewrite Z.div_add, (Z.div_small (year_start y + doy)) by lia.
  replace (year_start y + doy + era * 146097 - (0 + era) * 146097) with (year_start y + doy) by lia.
  set (doe := year_start y + doy).
  assert (Hyo : Z.quot (doe - Z.quot doe 1460 + Z.quot doe 36524 - Z.quot doe 146096) 365 = y).
  { rewrite !(Z.quot_div_nonneg doe) by lia. rewrite Z.quot_div_nonneg.
    - apply year_of_start; [done|]. unfold doe. lia.
    - zify; Z.to_euclidean_division_equations; lia.
    - lia. }
  rewrite Hyo. rewrite (Z.quot_div_nonneg y 4), (Z.quot_div_nonneg y 100) by lia.
  replace (doe - (365 * y + y / 4 - y / 100)) with doy by (unfold doe; lia).
  rewrite (Z.quot_div_nonneg (5 * doy + 2)) by lia.
  rewrite (Z.quot_div_nonneg (153 * _ + 2)) by (zify; Z.to_euclidean_division_equations; lia).
  by rewrite Z.add_0_l.
Qed.

Lemma day_exists d : exists era y doy, in_year y doy /\ d = day_number era y doy.
Proof.
  pose proof (Z.div_mod (d + 719468) 146097 ltac:(lia)) as Hdm.
  pose proof (Z.mod_pos_bound (d + 719468) 146097 ltac:(lia)) as Hm.
  destruct (year_exists _ Hm) as (y & Hy & Hs).
  exists ((d + 719468) / 146097), y, ((d + 719468) mod 146097 - year_start y). unfold in_year, day_number. lia.
Qed.

(** ** The calendar, day by day *)
Definition next_day (d : Z * Z * Z) : Z * Z * Z :=
  let '(year, month, day) := d in
  if day <? days_in_month year month then (year, month, day + 1)
  else if month <? 12 then (year, month + 1, 1)
  else (year + 1, 1, 1).

(** The days of a year, from March to February: all but the last two by
    computation, whatever the year. *)
Lemma days_of_year : forallb (fun n => let doy := Z.of_nat n in
  let m := month_of doy in let d := day_of doy in
  (1 <=? m) && (m <=? 12) && (1 <=? d)
  && (if m =? 2 then (day_of (doy + 1) =? d + 1) && (month_of (doy + 1) =? 2) && (d <? 28)
      else if d <? days_in_month 1 m
      then (day_of (doy + 1) =? d + 1) && (month_of (doy + 1) =? m)
      else (day_of (doy + 1) =? 1) && (month_of (doy + 1) =? (if m =? 12 then 1 else m + 1)))) (seq 0 364) = true.
Proof. vm_compute. reflexivity. Qed.

Lemma days_in_month_other year month : month <> 2 -> days_in_month year month = days_in_month 1 month.
Proof. intros Hm. unfold days_in_month. rewrite (proj2 (Z.eqb_neq _ _) Hm). done. Qed.

Lemma days_in_february year : days_in_month year 2 = if is_leap year then 29 else 28.
Proof. done. Qed.

Lemma next_in_year era y doy : 0 <= doy < 364 -> next_day (date era y doy) = date era y (doy + 1).
Proof.
  intros Hd. pose proof days_of_year as Ht. rewrite forallb_forall in Ht. specialize (Ht (Z.to_nat doy)).
  rewrite in_seq in Ht. specialize (Ht ltac:(lia)). cbv zeta in Ht. rewrite Z2Nat.id in Ht by lia.
  unfold date, next_day. generalize dependent (month_of (doy + 1)). generalize dependent (day_of (doy + 1)).
  generalize dependent (day_of doy). generalize dependent (month_of doy). intros m d d' m' Ht.
  apply andb_true_iff in Ht as [[[Hm1 Hm2]%andb_true_iff Hd1]%andb_true_iff Ht].
  destruct (m =? 2) eqn:E2.
  - apply Z.eqb_eq in E2 as ->. apply andb_true_iff in Ht as [[->%Z.eqb_eq ->%Z.eqb_eq]%andb_true_iff Hlt].
    rewrite days_in_february. cbn [Z.leb].
    rewrite (proj2 (Z.ltb_lt _ _)); [done|]. destruct (is_leap _); lia.
  - rewrite days_in_month_other by lia. destruct (d <? days_in_month 1 m).
    + by apply andb_true_iff in Ht as [->%Z.eqb_eq ->%Z.eqb_eq].
    + apply andb_true_iff in Ht as [->%Z.eqb_eq ->%Z.eqb_eq].
      destruct (m =? 12) eqn:E12.
      * apply Z.eqb_eq in E12 as ->. cbn. f_equal. f_equal. lia.
      * rewrite (proj2 (Z.ltb_lt m 12)) by lia. f_equal. f_equal.
        destruct (m <=? 2) eqn:El, (m + 1 <=? 2) eqn:El'; try lia.
Qed.

Lemma rem_mod_0 x n : n <> 0 -> (Z.rem x n =? 0) = (x mod n =? 0).
Proof.
  intros Hn. pose proof (Z.rem_mod_eq_0 x n Hn) as H.
  destruct (Z.eqb_spec (Z.rem x n) 0), (Z.eqb_spec (x mod n) 0); naive_solver.
Qed.

(** The leap years of an era. *)
Lemma is_leap_era era y : 0 <= y < 400 ->
  is_leap (y + era * 400 + 1) = ((y + 1) mod 4 =? 0) && (negb ((y + 1) mod 100 =? 0) || (y =? 399)).
Proof.
  intros Hy. unfold is_leap. rewrite !rem_mod_0 by lia.
  replace (y + era * 400 + 1) with (y + 1 + era * 100 * 4) at 1 by lia. rewrite Z_mod_plus_full.
  replace (y + era * 400 + 1) with (y + 1 + era * 4 * 100) at 1 by lia. rewrite Z_mod_plus_full.
  replace (y + era * 400 + 1) with (y + 1 + era * 400) by lia. rewrite Z_mod_plus_full. do 2 f_equal.
  destruct (Z.eqb_spec y 399) as [->|Hn]; [done|]. rewrite Z.mod_small by lia. lia.
Qed.

Lemma year_length_leap era y : 0 <= y < 400 ->
  year_start (y + 1) - year_start y = if is_leap (y + era * 400 + 1) then 366 else 365.
Proof. intros Hy. by rewrite year_length, (is_leap_era era) by done. Qed.

(** The first day after a year. *)
Lemma next_year era y : 0 <= y < 400 ->
  civil_from_days (era * 146097 + year_start (y + 1) - 719468) = (y + 1 + era * 400, 3, 1).
Proof.
  intros Hy. destruct (decide (y = 399)) as [->|Hn].
  - change (year_start (399 + 1)) with 146097.
    replace (era * 146097 + 146097 - 719468) with (day_number (era + 1) 0 0)
      by (unfold day_number; change (year_start 0) with 0; lia).
    rewrite civil_day by (unfold in_year; change (year_start (0 + 1)) with 365; change (year_start 0) with 0; lia).
    unfold date. change (month_of 0) with 3. change (day_of 0) with 1. cbn [Z.leb]. f_equal. f_equal. cbn. lia.
  - replace (era * 146097 + year_start (y + 1) - 719468) with (day_number era (y + 1) 0) by (unfold day_number; lia).
    rewrite civil_day.
    + unfold date. change (month_of 0) with 3. change (day_of 0) with 1. f_equal. f_equal. cbn. lia.
    + split; [lia|]. rewrite year_length by lia. destruct (_ && _); lia.
Qed.

Lemma civil_step d : civil_from_days (d + 1) = next_day (civil_from_days d).
Proof.
  destruct (day_exists d) as (era & y & doy & Hin & ->). rewrite (civil_day era y doy Hin).
  pose proof Hin as [Hy Hd]. rewrite (year_length_leap era y Hy) in Hd.
  destruct (decide (doy < 364)) as [Hlt|Hge].
  { rewrite next_in_year by lia. rewrite <- civil_day; [f_equal; unfold day_number; lia|].
    split; [done|]. rewrite (year_length_leap era y Hy). destruct (is_leap _); lia. }
  assert (Hfeb : forall k, date era y (364 + k) = (y + era * 400 + 1, 2, 28 + k) \/ (k <> 0 /\ k <> 1)).
  { intros k. destruct (decide (k = 0)) as [->|]; [left|destruct (decide (k = 1)) as [->|]; [left|by right]].
    all: unfold date; change (month_of (364 + _)) with 2; f_equal. }
  pose proof (Hfeb 0) as [E0|[]]; [|done]. pose proof (Hfeb 1) as [E1|[? []]]; [|done].
  change (364 + 0) with 364 in E0. change (364 + 1) with 365 in E1.
  destruct (decide (doy = 364)) as [->|Hne].
  - rewrite E0. unfold next_day. rewrite days_in_february. destruct (is_leap (y + era * 400 + 1)) eqn:El.
    + cbn. replace (day_number era y 364 + 1) with (day_number era y 365) by (unfold day_number; lia).
      rewrite civil_day, E1; [done|]. split; [done|]. rewrite (year_length_leap era y Hy), El. lia.
    + cbn. pose proof (next_year era y Hy) as Hn. pose proof (year_length_leap era y Hy) as Hl. rewrite El in Hl.
      replace (day_number era y 364 + 1) with (era * 146097 + year_start (y + 1) - 719468)
        by (unfold day_number; lia). rewrite Hn. f_equal. f_equal. lia.
  - destruct (is_leap (y + era * 400 + 1)) eqn:El; [|lia]. assert (doy = 365) as -> by lia.
    rewrite E1. unfold next_day. rewrite days_in_february, El. cbn.
    pose proof (next_year era y Hy) as Hn. pose proof (year_length_leap era y Hy) as Hl. rewrite El in Hl.
    replace (day_number era y 365 + 1) with (era * 146097 + year_start (y + 1) - 719468)
      by (unfold day_number; lia). rewrite Hn. f_equal. f_equal. lia.
Qed.

(** ** There and back *)
(** A date of the calendar. *)
Definition calendar_date (year month day : Z) : Prop :=
  1 <= month <= 12 /\ 1 <= day <= days_in_month year month.

(** The first day of the month [mp], counted from March. *)
Definition month_start (mp : Z) : Z := (153 * mp + 2) / 5.
Definition month_name (mp : Z) : Z := mp + (if mp <? 10 then 3 else -9).

Lemma month_start_exact mp doy : month_start mp <= doy < month_start (mp + 1) <-> (5 * doy + 2) / 153 = mp.
Proof. unfold month_start. zify; Z.to_euclidean_division_equations; lia. Qed.

(** The months but February, and February. *)
Lemma month_lengths : forallb (fun n => let mp := Z.of_nat n in
  (days_in_month 1 (month_name mp) =? month_start (mp + 1) - month_start mp) && (1 <=? month_name mp)
  && (month_name mp <=? 12) && negb (month_name mp =? 2)) (seq 0 11) = true.
Proof. vm_compute. reflexivity. Qed.

Lemma month_length year mp : 0 <= mp < 11 ->
  days_in_month year (month_name mp) = month_start (mp + 1) - month_start mp /\
  1 <= month_name mp <= 12 /\ month_name mp <> 2.
Proof.
  intros Hm. pose proof month_lengths as Ht. rewrite forallb_forall in Ht. specialize (Ht (Z.to_nat mp)).
  rewrite in_seq in Ht. specialize (Ht ltac:(lia)). cbv zeta in Ht. rewrite Z2Nat.id in Ht by lia.
  apply andb_true_iff in Ht as [[[He%Z.eqb_eq H1]%andb_true_iff H2]%andb_true_iff H3].
  rewrite days_in_month_other by lia. lia.
Qed.

Lemma date_month era y doy : date era y doy =
  let mp := (5 * doy + 2) / 153 in
  (y + era * 400 + (if month_name mp <=? 2 then 1 else 0), month_name mp, doy - month_start mp + 1).
Proof. done. Qed.

Lemma date_calendar era y doy : in_year y doy ->
  let '(year, month, day) := date era y doy in calendar_date year month day.
Proof.
  intros Hin. pose proof (in_year_doy _ _ Hin) as Hd. destruct Hin as [Hy Hl].
  rewrite (year_length_leap era y Hy) in Hl. rewrite date_month. cbv zeta. unfold calendar_date.
  pose proof (proj2 (month_start_exact ((5 * doy + 2) / 153) doy) eq_refl) as Hs.
  assert (Hmp : 0 <= (5 * doy + 2) / 153 <= 11) by (zify; Z.to_euclidean_division_equations; lia).
  set (mp := (5 * doy + 2) / 153) in *. clearbody mp.
  destruct (decide (mp = 11)) as [->|Hn].
  - change (month_start 11) with 337 in *. change (month_name 11) with 2. cbn [Z.leb]. rewrite days_in_february.
    change (2 <=? 2) with true. cbv iota. destruct (is_leap _); lia.
  - destruct (month_length (y + era * 400 + (if month_name mp <=? 2 then 1 else 0)) mp) as (-> & ? & _); lia.
Qed.

Lemma days_of_date era y doy : in_year y doy ->
  let '(year, month, day) := date era y doy in days_from_civil year month day = day_number era y doy.
Proof.
  intros Hin. pose proof (in_year_doy _ _ Hin) as Hd. destruct Hin as [Hy _].
  rewrite date_month. cbv zeta. unfold days_from_civil. cbv zeta.
  assert (Hmp : 0 <= (5 * doy + 2) / 153 <= 11) by (zify; Z.to_euclidean_division_equations; lia).
  set (mp := (5 * doy + 2) / 153) in *. clearbody mp.
  assert (Ha : month_name mp + (if month_name mp >? 2 then -3 else 9) = mp).
  { unfold month_name. destruct (mp <? 10) eqn:E; [destruct (mp + 3 >? 2) eqn:E'|destruct (mp + -9 >? 2) eqn:E']; lia. }
  rewrite Ha. replace (y + era * 400 + _ - _) with (y + era * 400) by lia.
  pose proof (euclid_quot (y + era * 400) 400 ltac:(lia)) as He. change (400 - 1) with 399 in He. rewrite He.
  rewrite Z_div_plus_full, (Z.div_small y) by lia.
  replace (y + era * 400 - (0 + era) * 400) with y by lia. rewrite !Z.quot_div_nonneg by lia.
  fold (month_start mp). destruct (year_start_nonneg y Hy) as [_ Hs]. unfold day_number. lia.
Qed.

Lemma calendar_exists year month day : calendar_date year month day ->
  exists era y doy, in_year y doy /\ date era y doy = (year, month, day).
Proof.
  intros [Hm Hd]. set (mp := if month >? 2 then month - 3 else month + 9).
  assert (Hmp : 0 <= mp <= 11 /\ month_name mp = month /\ (month <=? 2) = (10 <=? mp)).
  { unfold mp, month_name. destruct (month >? 2) eqn:E.
    - rewrite (proj2 (Z.ltb_lt _ _)) by lia. split_and!; [lia..|]. lia.
    - rewrite (proj2 (Z.ltb_ge _ _)) by lia. split_and!; [lia..|]. lia. }
  destruct Hmp as (Hmp & Hname & Hle). clearbody mp. subst month.
  set (yy := year - (if month_name mp <=? 2 then 1 else 0)).
  pose proof (Z.div_mod yy 400 ltac:(lia)) as Hdm. pose proof (Z.mod_pos_bound yy 400 ltac:(lia)) as Hmod.
  exists (yy / 400), (yy mod 400), (month_start mp + day - 1).
  assert (Hyear : year = yy mod 400 + yy / 400 * 400 + (if month_name mp <=? 2 then 1 else 0)) by (unfold yy in *; lia).
  assert (Hin : month_start mp <= month_start mp + day - 1 < month_start (mp + 1) /\
                (mp = 11 -> day <= if is_leap (yy mod 400 + yy / 400 * 400 + 1) then 29 else 28)).
  { destruct (decide (mp = 11)) as [->|Hn].
    - change (month_name 11) with 2 in *. cbn [Z.leb] in Hyear. change (2 <=? 2) with true in Hyear. cbv iota in Hyear.
      rewrite days_in_february, Hyear in Hd. change (month_start 11) with 337. change (month_start (11 + 1)) with 367.
      destruct (is_leap _); lia.
    - destruct (month_length year mp) as (He & _); lia. }
  destruct Hin as [Hs Hfeb]. split.
  - split; [done|]. rewrite (year_length_leap (yy / 400)) by done.
    assert (0 <= month_start mp) by (unfold month_start; zify; Z.to_euclidean_division_equations; lia).
    split; [lia|]. destruct (decide (mp = 11)) as [->|Hn].
    + specialize (Hfeb eq_refl). change (month_start 11) with 337 in *. destruct (is_leap _); lia.
    + assert (month_start (mp + 1) <= 337) by (unfold month_start; zify; Z.to_euclidean_division_equations; lia).
      destruct (is_leap _); lia.
  - rewrite date_month. cbv zeta. rewrite (proj1 (month_start_exact mp _) Hs), <- Hyear. f_equal. lia.
Qed.

Lemma civil_calendar_date d : let '(year, month, day) := civil_from_days d in
  calendar_date year month day /\ days_from_civil year month day = d.
Proof.
  destruct (day_exists d) as (era & y & doy & Hin & ->). rewrite (civil_day era y doy Hin).
  pose proof (date_calendar era y doy Hin) as H1. pose proof (days_of_date era y doy Hin) as H2.
  by destruct (date era y doy) as [[year month] day].
Qed.

Lemma civil_of_days year month day : calendar_date year month day ->
  civil_from_days (days_from_civil year month day) = (year, month, day).
Proof.
  intros (era & y & doy & Hin & Hd)%calendar_exists. pose proof (days_of_date era y doy Hin) as H2.
  rewrite Hd in H2. by rewrite H2, civil_day.
Qed.

(** [civil_from_days] is the Gregorian calendar: day 0 is 1 January 1970, a
    day's successor is the calendar's next day (the next of the month, else the
    first of the next month, else 1 January), every day has a date of the
    calendar, and [days_from_civil] is its inverse on the dates. *)
Theorem civil_is_gregorian :
  civil_from_days 0 = (1970, 1, 1) /\
  (forall d, civil_from_days (d + 1) = next_day (civil_from_days d)) /\
  (forall d, let '(year, month, day) := civil_from_days d in
     calendar_date year month day /\ days_from_civil year month day = d) /\
  (forall year month day, calendar_date year month day ->
     civil_from_days (days_from_civil year month day) = (year, month, day)).
Proof.
  split; [reflexivity|]. split; [exact civil_step|]. split; [exact civil_calendar_date|exact civil_of_days].
Qed.

Lemma civil_is_gregorian_witness : civil_from_days (days_from_civil 2000 2 29 + 1) = (2000, 3, 1).
Proof.
  destruct civil_is_gregorian as (_ & Hn & _ & Hi). rewrite Hn, Hi; [reflexivity|]. split; [lia|].
  change (days_in_month 2000 2) with 29. lia.
Defined.

(** * Timestamps are read back as they were written *)

(** ** Digits *)
Lemma is_ascii_digit_true b : is_ascii_digit b = true <-> 48 <= b <= 57.
Proof. unfold is_ascii_digit. rewrite andb_true_iff, !Z.leb_le. done. Qed.

Lemma digits_value_bound l : forallb is_ascii_digit l = true -> (length l <= 4)%nat -> 0 <= digits_value l <= 9999.
Proof.
  intros Hd Hlen. destruct l as [|a [|b [|c [|d [|e l]]]]]; [| | | | |cbn in Hlen; lia];
    cbn [forallb] in Hd; rewrite ?andb_true_iff, ?is_ascii_digit_true in Hd;
    unfold digits_value; cbn [fold_left]; lia.
Qed.

Lemma parse_i64_digits l : l <> [] -> forallb is_ascii_digit l = true -> (length l <= 4)%nat ->
  parse_i64 l = Some (digits_value l).
Proof.
  intros Hne Hd Hlen. assert (Hp : parse_i64 l = checked_i64 (digits_value l)).
  { destruct l as [|b l]; [done|]. cbn [forallb] in Hd. pose proof Hd as [Hb _]%andb_true_iff.
    apply is_ascii_digit_true in Hb.
    assert (b = 48 \/ b = 49 \/ b = 50 \/ b = 51 \/ b = 52 \/ b = 53 \/ b = 54 \/ b = 55 \/ b = 56 \/ b = 57) as Hc by lia.
    unfold parse_i64. destruct Hc as [->|[->|[->|[->|[->|[->|[->|[->|[->| ->]]]]]]]]];
      cbn [is_emptyb orb forallb]; cbn [forallb] in Hd; rewrite Hd; done. }
  rewrite Hp. unfold checked_i64, i64_min, i64_max. pose proof (digits_value_bound l Hd Hlen).
  rewrite (proj2 (Z.leb_le _ _)), (proj2 (Z.leb_le _ _)) by lia. done.
Qed.

Lemma digits2 a b : digits_value [48 + a; 48 + b] = 10 * a + b.
Proof. unfold digits_value. cbn [fold_left]. lia. Qed.

Lemma digits4 a b c d : digits_value [48 + a; 48 + b; 48 + c; 48 + d] = 1000 * a + 100 * b + 10 * c + d.
Proof. unfold digits_value. cbn [fold_left]. lia. Qed.

(** The text of a number in the width it is given. *)
Lemma decimal_step fuel n acc : decimal (S fuel) n acc =
  if n / 10 =? 0 then (48 + n mod 10) :: acc else decimal fuel (n / 10) ((48 + n mod 10) :: acc).
Proof. done. Qed.

Lemma padded2 n : 0 <= n <= 99 -> padded 2 n = [48 + n / 10; 48 + n mod 10].
Proof.
  intros Hn. unfold padded. change 20%nat with (S (S 18)). rewrite decimal_step.
  destruct (n / 10 =? 0) eqn:E.
  - apply Z.eqb_eq in E. rewrite E. done.
  - rewrite decimal_step. rewrite (Z.div_small (n / 10)) by (zify; Z.to_euclidean_division_equations; lia).
    rewrite Z.eqb_refl. rewrite (Z.mod_small (n / 10)) by (zify; Z.to_euclidean_division_equations; lia). done.
Qed.

Lemma padded4 n : 0 <= n <= 9999 ->
  padded 4 n = [48 + n / 1000; 48 + n / 100 mod 10; 48 + n / 10 mod 10; 48 + n mod 10].
Proof.
  intros Hn. unfold padded. change 20%nat with (S (S (S (S 16)))).
  assert (E100 : n / 10 / 10 = n / 100) by (by rewrite Z.div_div by lia).
  assert (E1000 : n / 100 / 10 = n / 1000) by (by rewrite Z.div_div by lia).
  assert (H3 : n / 1000 <= 9) by (zify; Z.to_euclidean_division_equations; lia).
  assert (H3' : 0 <= n / 1000) by (apply Z.div_pos; lia).
  rewrite decimal_step. destruct (Z.eqb_spec (n / 10) 0) as [E|E].
  { assert (n / 100 = 0 /\ n / 1000 = 0) as [-> ->] by (rewrite <- E1000, <- E100, E; done). rewrite E. done. }
  rewrite decimal_step, E100. destruct (Z.eqb_spec (n / 100) 0) as [E'|E'].
  { assert (n / 1000 = 0) as -> by (rewrite <- E1000, E'; done). rewrite E'. done. }
  rewrite decimal_step, E1000. destruct (Z.eqb_spec (n / 1000) 0) as [E''|E''].
  { rewrite E''. done. }
  rewrite decimal_step, (Z.div_small (n / 1000)) by lia. rewrite Z.eqb_refl, (Z.mod_small (n / 1000)) by lia. done.
Qed.

(** ** The twenty bytes of a timestamp *)
Definition stamp (y0 y1 y2 y3 m0 m1 d0 d1 h0 h1 i0 i1 s0 s1 : Z) : list Z :=
  [y0; y1; y2; y3; 45; m0; m1; 45; d0; d1; 84; h0; h1; 58; i0; i1; 58; s0; s1; 90].

Definition stamp_of (year month day hour minute second : Z) : list Z :=
  stamp (48 + year / 1000) (48 + year / 100 mod 10) (48 + year / 10 mod 10) (48 + year mod 10)
    (48 + month / 10) (48 + month mod 10) (48 + day / 10) (48 + day mod 10) (48 + hour / 10) (48 + hour mod 10)
    (48 + minute / 10) (48 + minute mod 10) (48 + second / 10) (48 + second mod 10).

(** The fields of a timestamp, in their ranges. *)
Record fields (year month day hour minute second : Z) : Prop := {
  f_year : 1 <= year <= 9999;
  f_date : calendar_date year month day;
  f_hour : 0 <= hour <= 23;
  f_minute : 0 <= minute <= 59;
  f_second : 0 <= second <= 59
}.

Lemma days_in_month_le year month : days_in_month year month <= 31.
Proof. unfold days_in_month. repeat case_match; lia. Qed.

Lemma fields_day year month day hour minute second :
  fields year month day hour minute second -> 1 <= month <= 12 /\ 1 <= day <= 31.
Proof. intros [_ [Hm Hd] _ _ _]. pose proof (days_in_month_le year month). lia. Qed.

Lemma timestamp_text_bytes year month day hour minute second :
  fields year month day hour minute second ->
  str_bytes (timestamp_text year month day hour minute second) = stamp_of year month day hour minute second.
Proof.
  intros Hf. pose proof (fields_day _ _ _ _ _ _ Hf) as [Hm Hd]. destruct Hf as [Hy _ Hh Hi Hs].
  unfold timestamp_text. rewrite padded4, !padded2 by lia. cbn [app]. apply str_bytes_bytes_str.
  repeat (apply list.Forall_cons; split; [zify; Z.to_euclidean_division_equations; lia|]). done.
Qed.

Lemma civil_days_bound year month day : 0 <= year <= 9999 -> 1 <= month <= 12 -> 1 <= day <= 31 ->
  -1000000 <= days_from_civil year month day <= 4000000.
Proof.
  intros Hy Hm Hd.
  unfold days_from_civil. cbv zeta. destruct (month <=? 2) eqn:Em, (month >? 2) eqn:Em';
    [lia| | |lia]; destruct (_ >=? 0) eqn:Ey; try lia; zify; Z.to_euclidean_division_equations; lia.
Qed.

Lemma checked_small x : -1000000000000 <= x <= 1000000000000 -> checked_i64 x = Some x.
Proof.
  intros Hx. unfold checked_i64, i64_min, i64_max.
  rewrite (proj2 (Z.leb_le _ _)), (proj2 (Z.leb_le _ _)) by lia. done.
Qed.

Section Stamp.
Context (y0 y1 y2 y3 m0 m1 d0 d1 h0 h1 i0 i1 s0 s1 : Z).
Let l := stamp y0 y1 y2 y3 m0 m1 d0 d1 h0 h1 i0 i1 s0 s1.
Let digits := [y0; y1; y2; y3; m0; m1; d0; d1; h0; h1; i0; i1; s0; s1].

Hypothesis Hdigits : forallb is_ascii_digit digits = true.

Let year := digits_value [y0; y1; y2; y3].
Let month := digits_value [m0; m1].
Let day := digits_value [d0; d1].
Let hour := digits_value [h0; h1].
Let minute := digits_value [i0; i1].
Let second := digits_value [s0; s1].

Lemma stamp_form : timestamp_form l = true.
Proof using Hdigits.
  unfold digits in Hdigits. cbn [forallb] in Hdigits. rewrite !andb_true_iff in Hdigits.
  destruct Hdigits as (E1 & E2 & E3 & E4 & E5 & E6 & E7 & E8 & E9 & E10 & E11 & E12 & E13 & E14 & _).
  unfold timestamp_form. change (length l =? 20)%nat with true.
  change (fixed_at l 4 45) with true. change (fixed_at l 7 45) with true. change (fixed_at l 10 84) with true.
  change (fixed_at l 13 58) with true. change (fixed_at l 16 58) with true. change (fixed_at l 19 90) with true.
  unfold l, stamp. cbn [andb length seq zip zip_with forallb existsb fst snd Nat.eqb orb].
  by rewrite E1, E2, E3, E4, E5, E6, E7, E8, E9, E10, E11, E12, E13, E14.
Qed.

Lemma stamp_number from until b c : l !! from = Some b -> l !! until = Some c ->
  0 <= b <= 127 -> 0 <= c <= 127 -> str_get l from until = Some (take (until - from) (drop from l)).
Proof.
  intros Hb Hc Hb' Hc'. unfold str_get, char_boundary. rewrite Hb, Hc.
  rewrite (proj2 (Z.leb_gt 128 b)), (proj2 (Z.leb_gt 128 c)) by lia. done.
Qed.

Lemma digits_ascii b : b ∈ digits -> 48 <= b <= 57.
Proof using Hdigits.
  intros Hb. rewrite forallb_forall in Hdigits. apply is_ascii_digit_true, Hdigits. by apply list_elem_of_In.
Qed.

(** The check of the fields, shared by the three readers. *)
Definition fields_valid : bool :=
  negb ((year =? 0) || negb ((1 <=? day) && (day <=? days_in_month year month))
        || (23 <? hour) || (59 <? minute) || (59 <? second)).

Lemma stamp_parse value : str_bytes value = l -> UtcTimestamp_parse value = if fields_valid then Some value else None.
Proof using Hdigits.
  intros Hv. unfold UtcTimestamp_parse. cbv zeta. rewrite Hv, stamp_form. cbn [negb].
  change (slice l 0 4) with [y0; y1; y2; y3]. change (slice l 5 2) with [m0; m1]. change (slice l 8 2) with [d0; d1].
  change (slice l 11 2) with [h0; h1]. change (slice l 14 2) with [i0; i1]. change (slice l 17 2) with [s0; s1].
  unfold fields_valid. fold year month day hour minute second. by destruct (_ || _).
Qed.

Lemma stamp_i64 from until part b c : l !! from = Some b -> l !! until = Some c -> b ∈ digits -> 0 <= c <= 127 ->
  take (until - from) (drop from l) = part -> part <> [] -> forallb is_ascii_digit part = true -> (length part <= 4)%nat ->
  str_get l from until ≫= parse_i64 = Some (digits_value part).
Proof using Hdigits.
  intros Hb Hc Hin Hc' <- Hne Hd Hlen. pose proof (digits_ascii b Hin).
  rewrite (stamp_number from until b c) by (done || lia). cbn [mbind option_bind]. by apply parse_i64_digits.
Qed.

Lemma days_bound : fields_valid = true -> -1000000 <= days_from_civil year month day <= 4000000 /\
  fields year month day hour minute second.
Proof using Hdigits.
  unfold fields_valid. rewrite negb_true_iff, !orb_false_iff, negb_false_iff, andb_true_iff.
  rewrite Z.eqb_neq, !Z.leb_le, !Z.ltb_ge. intros ((((Hy & Hd1 & Hd2) & Hh) & Hi) & Hs).
  pose proof Hdigits as H. unfold digits in H. cbn [forallb] in H. rewrite !andb_true_iff in H.
  destruct H as (E1 & E2 & E3 & E4 & E5 & E6 & E7 & E8 & E9 & E10 & E11 & E12 & E13 & E14 & _).
  assert (0 <= year <= 9999) by (apply digits_value_bound; [cbn; by rewrite E1, E2, E3, E4|cbn; lia]).
  assert (0 <= month <= 9999) by (apply digits_value_bound; [cbn; by rewrite E5, E6|cbn; lia]).
  assert (0 <= hour <= 9999) by (apply digits_value_bound; [cbn; by rewrite E9, E10|cbn; lia]).
  assert (0 <= minute <= 9999) by (apply digits_value_bound; [cbn; by rewrite E11, E12|cbn; lia]).
  assert (0 <= second <= 9999) by (apply digits_value_bound; [cbn; by rewrite E13, E14|cbn; lia]).
  pose proof (days_in_month_le year month) as Hle.
  assert (1 <= month <= 12) as Hm.
  { assert (Hn : days_in_month year month <> 0) by lia. unfold days_in_month in Hn. cbn [existsb] in Hn.
    rewrite !orb_false_r in Hn. repeat case_match; try lia;
    repeat match goal with H : (_ || _) = true |- _ => apply orb_true_iff in H as [H|H] end; lia. }
  clearbody year month day hour minute second. split; [apply civil_days_bound; lia|split; unfold calendar_date; lia].
Qed.

(** The seconds a timestamp stands for. *)
Definition stamp_seconds : Z := days_from_civil year month day * 86400 + hour * 3600 + minute * 60 + second.

Ltac part :=
  match goal with
  | |- _ ∈ _ => unfold digits; rewrite !elem_of_cons; auto 20
  | |- forallb _ _ = true => cbn [forallb]; rewrite !andb_true_iff; auto 10
  | |- (_ <= _)%nat => cbn; lia
  | |- _ => first [reflexivity | discriminate | lia]
  end.

Lemma stamp_epoch value : str_bytes value = l ->
  utc_epoch_seconds value = if fields_valid && (0 <=? stamp_seconds) then Some stamp_seconds else None.
Proof using Hdigits.
  intros Hv. unfold utc_epoch_seconds. cbv zeta. rewrite Hv. change (zlen l =? 20) with true. cbn [negb].
  pose proof Hdigits as H. unfold digits in H. cbn [forallb] in H. rewrite !andb_true_iff in H.
  destruct H as (E1 & E2 & E3 & E4 & E5 & E6 & E7 & E8 & E9 & E10 & E11 & E12 & E13 & E14 & _).
  rewrite (stamp_i64 0 4 [y0; y1; y2; y3] y0 45); [|part..].
  rewrite (stamp_i64 5 7 [m0; m1] m0 45); [|part..].
  rewrite (stamp_i64 8 10 [d0; d1] d0 84); [|part..].
  rewrite (stamp_i64 11 13 [h0; h1] h0 58); [|part..].
  rewrite (stamp_i64 14 16 [i0; i1] i0 58); [|part..].
  rewrite (stamp_i64 17 19 [s0; s1] s0 90); [|part..].
  cbn [mbind option_bind]. rewrite (stamp_parse value Hv). destruct fields_valid eqn:Hf; [|done].
  destruct (days_bound Hf) as [Hb [? ? ? ? ?]]. cbn [mbind option_bind andb].
  change (digits_value [y0; y1; y2; y3]) with year. change (digits_value [m0; m1]) with month.
  change (digits_value [d0; d1]) with day. change (digits_value [h0; h1]) with hour.
  change (digits_value [i0; i1]) with minute. change (digits_value [s0; s1]) with second.
  unfold stamp_seconds. clearbody year month day hour minute second.
  repeat (rewrite checked_small by lia; cbn [mbind option_bind]). done.
Qed.
End Stamp.

(** ** Writing, then reading *)
Lemma digit_of_range x : 0 <= x <= 9 -> is_ascii_digit (48 + x) = true.
Proof. rewrite is_ascii_digit_true. lia. Qed.

Ltac digit := apply digit_of_range; zify; Z.to_euclidean_division_equations; lia.

Lemma fields_digits year month day hour minute second : fields year month day hour minute second ->
  forallb is_ascii_digit
    [48 + year / 1000; 48 + year / 100 mod 10; 48 + year / 10 mod 10; 48 + year mod 10;
     48 + month / 10; 48 + month mod 10; 48 + day / 10; 48 + day mod 10; 48 + hour / 10; 48 + hour mod 10;
     48 + minute / 10; 48 + minute mod 10; 48 + second / 10; 48 + second mod 10] = true.
Proof.
  intros Hf. pose proof (fields_day _ _ _ _ _ _ Hf) as [Hm Hd]. destruct Hf as [Hy _ Hh Hi Hs].
  cbn [forallb]. rewrite !andb_true_iff. split_and!; try digit. done.
Qed.

Lemma year_digits n : 0 <= n <= 9999 ->
  digits_value [48 + n / 1000; 48 + n / 100 mod 10; 48 + n / 10 mod 10; 48 + n mod 10] = n.
Proof. intros Hn. rewrite digits4. zify; Z.to_euclidean_division_equations; lia. Qed.

Lemma pair_digits n : 0 <= n <= 99 -> digits_value [48 + n / 10; 48 + n mod 10] = n.
Proof. intros Hn. rewrite digits2. zify; Z.to_euclidean_division_equations; lia. Qed.

Lemma fields_check year month day hour minute second : fields year month day hour minute second ->
  negb ((year =? 0) || negb ((1 <=? day) && (day <=? days_in_month year month))
        || (23 <? hour) || (59 <? minute) || (59 <? second)) = true.
Proof.
  intros [Hy [_ Hd] Hh Hi Hs]. rewrite negb_true_iff, !orb_false_iff, negb_false_iff, andb_true_iff.
  rewrite Z.eqb_neq, !Z.leb_le, !Z.ltb_ge. lia.
Qed.

(** The fields of a number of seconds. *)
Lemma format_seconds_fields s t : format_seconds s = Some t ->
  exists year month day hour minute second, fields year month day hour minute second /\
    t = timestamp_text year month day hour minute second /\
    s = days_from_civil year month day * 86400 + hour * 3600 + minute * 60 + second.
Proof.
  unfold format_seconds. pose proof (civil_calendar_date (s / 86400)) as Hc.
  destruct (civil_from_days (s / 86400)) as [[year month] day]. destruct Hc as [Hcal Hdays].
  destruct ((1 <=? year) && (year <=? 9999)) eqn:E; [|done]. cbn [negb]. intros [= <-].
  pose proof (Z.mod_pos_bound s 86400 ltac:(lia)) as Hm. pose proof (Z.div_mod s 86400 ltac:(lia)) as Hdm.
  set (sod := s mod 86400) in *. eexists year, month, day, _, _, _. split; [|split; [reflexivity|]].
  - split; [lia|done| | |]; zify; Z.to_euclidean_division_equations; lia.
  - rewrite Hdays, Hdm at 1. clearbody sod. clear -Hm. zify; Z.to_euclidean_division_equations; lia.
Qed.

Lemma stamp_fields year month day hour minute second t :
  fields year month day hour minute second -> str_bytes t = stamp_of year month day hour minute second ->
  UtcTimestamp_parse t = Some t /\
  utc_epoch_seconds t =
    let s := days_from_civil year month day * 86400 + hour * 3600 + minute * 60 + second in
    if 0 <=? s then Some s else None.
Proof.
  intros Hf Ht. pose proof (fields_digits _ _ _ _ _ _ Hf) as Hd. pose proof (fields_check _ _ _ _ _ _ Hf) as Hv.
  pose proof (fields_day _ _ _ _ _ _ Hf) as [Hm Hday]. destruct Hf as [Hy _ Hh Hi Hs].
  unfold stamp_of in Ht.
  rewrite (stamp_parse _ _ _ _ _ _ _ _ _ _ _ _ _ _ Hd t Ht), (stamp_epoch _ _ _ _ _ _ _ _ _ _ _ _ _ _ Hd t Ht).
  unfold fields_valid, stamp_seconds. rewrite year_digits, !pair_digits by lia. rewrite Hv. done.
Qed.

(** ** Reading, then writing *)
Lemma timestamp_form_inv l : timestamp_form l = true ->
  exists y0 y1 y2 y3 m0 m1 d0 d1 h0 h1 i0 i1 s0 s1, l = stamp y0 y1 y2 y3 m0 m1 d0 d1 h0 h1 i0 i1 s0 s1 /\
    forallb is_ascii_digit [y0; y1; y2; y3; m0; m1; d0; d1; h0; h1; i0; i1; s0; s1] = true.
Proof.
  unfold timestamp_form. rewrite !andb_true_iff.
  intros (((((((Hlen%Nat.eqb_eq & F4) & F7) & F10) & F13) & F16) & F19) & Hd).
  do 20 (destruct l as [|? l]; [discriminate|]). destruct l; [|discriminate].
  unfold fixed_at in *. apply bool_decide_eq_true in F4, F7, F10, F13, F16, F19. cbn in F4, F7, F10, F13, F16, F19.
  simplify_eq. cbn [length seq zip zip_with forallb existsb fst snd Nat.eqb orb] in Hd. rewrite !andb_true_iff in Hd.
  do 14 eexists. split; [reflexivity|]. cbn [forallb]. rewrite !andb_true_iff. tauto.
Qed.

Lemma undigits2 a b : 48 <= a <= 57 -> 48 <= b <= 57 ->
  48 + digits_value [a; b] / 10 = a /\ 48 + digits_value [a; b] mod 10 = b.
Proof. intros. unfold digits_value. cbn [fold_left]. zify; Z.to_euclidean_division_equations; lia. Qed.

Lemma undigits4 a b c d : 48 <= a <= 57 -> 48 <= b <= 57 -> 48 <= c <= 57 -> 48 <= d <= 57 ->
  let n := digits_value [a; b; c; d] in
  48 + n / 1000 = a /\ 48 + n / 100 mod 10 = b /\ 48 + n / 10 mod 10 = c /\ 48 + n mod 10 = d.
Proof. intros. unfold n, digits_value. cbn [fold_left]. split_and!; zify; Z.to_euclidean_division_equations; lia. Qed.

Lemma stamp_of_digits y0 y1 y2 y3 m0 m1 d0 d1 h0 h1 i0 i1 s0 s1 :
  forallb is_ascii_digit [y0; y1; y2; y3; m0; m1; d0; d1; h0; h1; i0; i1; s0; s1] = true ->
  stamp_of (digits_value [y0; y1; y2; y3]) (digits_value [m0; m1]) (digits_value [d0; d1]) (digits_value [h0; h1])
    (digits_value [i0; i1]) (digits_value [s0; s1]) = stamp y0 y1 y2 y3 m0 m1 d0 d1 h0 h1 i0 i1 s0 s1.
Proof.
  cbn [forallb]. rewrite !andb_true_iff, !is_ascii_digit_true. intros Hd. unfold stamp_of.
  destruct (undigits4 y0 y1 y2 y3) as (-> & -> & -> & ->); [lia..|].
  destruct (undigits2 m0 m1) as [-> ->]; [lia..|]. destruct (undigits2 d0 d1) as [-> ->]; [lia..|].
  destruct (undigits2 h0 h1) as [-> ->]; [lia..|]. destruct (undigits2 i0 i1) as [-> ->]; [lia..|].
  destruct (undigits2 s0 s1) as [-> ->]; [lia..|]. done.
Qed.

(** What the writer makes of the fields' seconds. *)
Lemma format_of_fields year month day hour minute second :
  fields year month day hour minute second ->
  format_seconds (days_from_civil year month day * 86400 + hour * 3600 + minute * 60 + second)
  = Some (timestamp_text year month day hour minute second).
Proof.
  intros [Hy Hd Hh Hi Hs]. unfold format_seconds.
  set (sod := hour * 3600 + minute * 60 + second).
  replace (days_from_civil year month day * 86400 + hour * 3600 + minute * 60 + second)
    with (sod + days_from_civil year month day * 86400) by (unfold sod; lia).
  rewrite Z_div_plus_full, Z_mod_plus_full by lia. rewrite (Z.div_small sod), (Z.mod_small sod) by (unfold sod; lia).
  rewrite Z.add_0_l, civil_of_days by done.
  rewrite (proj2 (Z.leb_le 1 year)), (proj2 (Z.leb_le year 9999)) by lia. cbn [andb negb].
  assert (Z.quot sod 3600 = hour) as -> by (unfold sod; zify; Z.to_euclidean_division_equations; lia).
  assert (Z.rem sod 60 = second) as -> by (unfold sod; zify; Z.to_euclidean_division_equations; lia).
  assert (Z.quot (Z.rem sod 3600) 60 = minute) as ->
    by (unfold sod; zify; Z.to_euclidean_division_equations; lia).
  done.
Qed.

Lemma fields_seconds_bound year month day hour minute second : fields year month day hour minute second ->
  -1000000000000 <= days_from_civil year month day * 86400 + hour * 3600 + minute * 60 + second <= 1000000000000.
Proof.
  intros Hf. pose proof (fields_day _ _ _ _ _ _ Hf) as [Hm Hday]. destruct Hf as [Hy _ Hh Hi Hs].
  pose proof (civil_days_bound year month day ltac:(lia) Hm Hday). lia.
Qed.

Lemma utc_epoch_seconds_inv t s : utc_epoch_seconds t = Some s ->
  exists year month day hour minute second, fields year month day hour minute second /\
    str_bytes t = stamp_of year month day hour minute second /\ 0 <= s /\
    s = days_from_civil year month day * 86400 + hour * 3600 + minute * 60 + second.
Proof.
  intros Hs. destruct (timestamp_form (str_bytes t)) eqn:Hform.
  - apply timestamp_form_inv in Hform as (y0 & y1 & y2 & y3 & m0 & m1 & d0 & d1 & h0 & h1 & i0 & i1 & s0 & s1 & Hb & Hd).
    rewrite (stamp_epoch _ _ _ _ _ _ _ _ _ _ _ _ _ _ Hd t Hb) in Hs.
    destruct (fields_valid _ _ _ _ _ _ _ _ _ _ _ _ _ _) eqn:Hv; [|done]. cbn [andb] in Hs.
    destruct (days_bound _ _ _ _ _ _ _ _ _ _ _ _ _ _ Hd Hv) as [_ Hf].
    destruct (0 <=? _) eqn:H0; [|done]. injection Hs as <-. apply Z.leb_le in H0.
    eexists _, _, _, _, _, _. split; [exact Hf|]. rewrite (stamp_of_digits _ _ _ _ _ _ _ _ _ _ _ _ _ _ Hd).
    split; [done|]. split; [done|reflexivity].
  - exfalso. unfold utc_epoch_seconds in Hs. cbv zeta in Hs. destruct (negb _); [done|].
    repeat (apply bind_Some in Hs as (? & ? & Hs)).
    match goal with H : UtcTimestamp_parse t = Some _ |- _ => unfold UtcTimestamp_parse in H; cbv zeta in H;
      rewrite Hform in H; discriminate H end.
Qed.

(** ** Session timestamps *)
Lemma rfc3339_of_fields year month day hour minute second t :
  fields year month day hour minute second -> str_bytes t = stamp_of year month day hour minute second ->
  parse_rfc3339_seconds t = Some (days_from_civil year month day * 86400 + hour * 3600 + minute * 60 + second).
Proof.
  intros Hf Ht. pose proof (fields_digits _ _ _ _ _ _ Hf) as Hd. pose proof (fields_seconds_bound _ _ _ _ _ _ Hf) as Hb.
  pose proof (fields_day _ _ _ _ _ _ Hf) as [Hm Hday]. pose proof Hf as [Hy [_ Hdm] Hh Hi Hs].
  pose proof (civil_days_bound year month day ltac:(lia) Hm Hday) as Hcb.
  unfold parse_rfc3339_seconds. cbv zeta. rewrite Ht. unfold stamp_of.
  cbn [forallb] in Hd. rewrite !andb_true_iff in Hd.
  destruct Hd as (E1 & E2 & E3 & E4 & E5 & E6 & E7 & E8 & E9 & E10 & E11 & E12 & E13 & E14 & _).
  set (l := stamp _ _ _ _ _ _ _ _ _ _ _ _ _ _).
  change (zlen l <? 20) with false. change (fixed_at l 4 45) with true. change (fixed_at l 7 45) with true.
  change (fixed_at l 10 84) with true. change (fixed_at l 13 58) with true. change (fixed_at l 16 58) with true.
  cbn [orb negb].
  assert (P0 : parse_digits l 0 4 = Some year).
  { unfold parse_digits. change (0 + 4 <=? length l)%nat with true. cbv iota zeta.
    change (slice l 0 4) with [48 + year / 1000; 48 + year / 100 mod 10; 48 + year / 10 mod 10; 48 + year mod 10].
    cbn [forallb]. rewrite E1, E2, E3, E4. cbn [andb]. by rewrite year_digits by lia. }
  assert (P : forall start n, (start + 2 <=? length l)%nat = true -> slice l start 2 = [48 + n / 10; 48 + n mod 10] ->
    is_ascii_digit (48 + n / 10) = true -> is_ascii_digit (48 + n mod 10) = true -> 0 <= n <= 99 ->
    parse_digits l start 2 = Some n).
  { intros start n Hlen Hsl Ea Eb Hn. unfold parse_digits. rewrite Hlen. cbv zeta. rewrite Hsl. cbn [forallb].
    rewrite Ea, Eb. cbn [andb]. by rewrite pair_digits. }
  rewrite P0, (P 5%nat month), (P 8%nat day), (P 11%nat hour), (P 14%nat minute), (P 17%nat second) by (done || lia).
  cbn [mbind option_bind]. unfold valid_date. rewrite (proj2 (Z.eqb_neq (days_in_month year month) 0)) by lia.
  rewrite (proj2 (Z.leb_le 1 year)), (proj2 (Z.leb_le 1 day)), (proj2 (Z.leb_le day _)) by lia. cbn [andb negb orb].
  rewrite (proj2 (Z.ltb_ge 23 hour)), (proj2 (Z.ltb_ge 59 minute)), (proj2 (Z.ltb_ge 59 second)) by lia. cbn [orb].
  change (timezone_at l) with (Some 19%nat). cbn [mbind option_bind].
  change (timezone_offset l 19) with (Some 0). cbn [mbind option_bind].
  repeat (rewrite checked_small by lia; cbn [mbind option_bind]). f_equal. lia.
Qed.

(** Timestamps and seconds are two ways to write the same thing: the text
    written for a number of seconds is a valid [UtcTimestamp] and is read back
    as that number; a text that is read as a number of seconds is exactly the
    text written for it; and every timestamp of a session file, whatever its
    form, fraction or offset, is brought into that one form, which is read
    again as itself. *)
Theorem timestamps_round_trip :
  (forall s t, 0 <= s -> utc_timestamp_from_epoch_seconds s = Some t ->
     UtcTimestamp_parse t = Some t /\ utc_epoch_seconds t = Some s) /\
  (forall t s, utc_epoch_seconds t = Some s -> utc_timestamp_from_epoch_seconds s = Some t) /\
  (forall v t, parse_timestamp_utc v = Some t ->
     UtcTimestamp_parse t = Some t /\ parse_timestamp_utc (TimestampText t) = Some t).
Proof.
  split; [|split].
  - intros s t Hs (s' & Hle & Ht)%bind_Some. destruct (s <=? i64_max); [|done]. injection Hle as <-.
    apply format_seconds_fields in Ht as (year & month & day & hour & minute & second & Hf & -> & Heq).
    destruct (stamp_fields _ _ _ _ _ _ _ Hf (timestamp_text_bytes _ _ _ _ _ _ Hf)) as [Hp He].
    split; [done|]. rewrite He, <- Heq. cbv zeta. by rewrite (proj2 (Z.leb_le _ _) Hs).
  - intros t s (year & month & day & hour & minute & second & Hf & Ht & H0 & ->)%utc_epoch_seconds_inv.
    unfold utc_timestamp_from_epoch_seconds. pose proof (fields_seconds_bound _ _ _ _ _ _ Hf).
    rewrite (proj2 (Z.leb_le _ i64_max)) by (unfold i64_max; lia). cbn [mbind option_bind].
    rewrite format_of_fields by done. f_equal. apply str_bytes_inj. by rewrite Ht, timestamp_text_bytes.
  - intros v t (s & _ & Ht)%bind_Some. unfold format_epoch_seconds in Ht.
    apply format_seconds_fields in Ht as (year & month & day & hour & minute & second & Hf & -> & Heq).
    pose proof (timestamp_text_bytes _ _ _ _ _ _ Hf) as Hb.
    split; [by apply (stamp_fields _ _ _ _ _ _ _ Hf Hb)|].
    cbn [parse_timestamp_utc]. unfold parse_timestamp_utc. rewrite (rfc3339_of_fields _ _ _ _ _ _ _ Hf Hb).
    cbn [mbind option_bind]. unfold format_epoch_seconds. by apply format_of_fields.
Qed.

Lemma timestamps_round_trip_witness :
  utc_epoch_seconds "2000-02-29T00:00:00Z" = Some 951782400 /\
  utc_timestamp_from_epoch_seconds 951782400 = Some "2000-02-29T00:00:00Z"%string.
Proof.
  destruct timestamps_round_trip as (Hw & Hr & _). split.
  - apply Hw; [lia|]. vm_compute. reflexivity.
  - apply Hr. vm_compute. reflexivity.
Defined.
