(* ===== verification/DiagnosticEvent.v ===== *)
(** * Diagnostic events

    Models [crates/wokcore-diagnostics/src/event.rs] and [redaction.rs]: the
    validated parts of an event, the structural summaries, the encoding of an
    event as a JSON template whose sequence number is patched in later, and the
    decoder.  [serde_json], the UUID crate and Unicode's alphanumeric class are
    parameters; what [derive(Serialize)] and [derive(Deserialize)] generate is
    written out over the document. *)
From S2P Require Import Prelude Ring Text Json Ident Catalog AuthRegistry Security ManagementApi Calendar.

Definition MAX_ERROR_SOURCE_CHAIN : Z := 4.
Definition MAX_EVENT_SUMMARIES : Z := 4.
Definition MAX_SAFE_SUMMARY_BYTES : Z := 8192.
Definition SEQUENCE_DIGITS : nat := 20.
Definition MAX_SENSITIVE_VALUES : Z := 64.
Definition MAX_STRUCTURAL_OBSERVATIONS : Z := 256.

Inductive DiagnosticDecodeError : Set := DecodeInvalid.

(** ** Third-party code *)
(** [char::is_alphanumeric], [Uuid::parse_str] and [Uuid::hyphenated]. *)
Class DiagnosticCrates : Type := {
  char_alphanumeric : Z -> bool;
  uuid_parse_str : string -> option (list Z);
  uuid_hyphenated : list Z -> string
}.

(** [serde_json::to_vec], and the document [serde_json::from_slice] reads: the
    entries of an object as they stand, in order and with repetitions. *)
Class DiagnosticJson : Type := {
  diagnostic_to_vec : Value -> list Z;
  diagnostic_document : list Z -> option Value
}.

(** ** Closed codes *)
Inductive DiagnosticLevel : Set := LevelTrace | LevelDebug | LevelInfo | LevelWarn | LevelError.
Inductive DiagnosticEventCode : Set :=
| EventLifecycleTransition | EventRequestCompleted | EventRequestFailed | EventRetryDecision
| EventFailoverDecision | EventDiagnosticDrop.
Inductive ProviderProtocol : Set := ProtoOpenAiResponses | ProtoOpenAiChat | ProtoAnthropicMessages | ProtoGemini.
Inductive RetryDecision : Set := RetryNotApplicable | RetryNotRetried | RetryScheduled | RetryExhausted.
Inductive FailoverDecision : Set :=
| FailoverNotApplicable | FailoverNotSelected | FailoverSelected | FailoverExhausted.
Inductive StageCode : Set := StageAdmission | StageRouting | StageUpstream | StageResponse.
Inductive ErrorCode : Set :=
| ErrUpstreamTimeout | ErrUpstreamUnavailable | ErrInvalidResponse | ErrInternalInvariant | ErrResourceLimit.
Inductive ErrorSourceCode : Set := SourceRouter | SourceProvider | SourceProtocol | SourcePlatform | SourceStorage.
Inductive PlatformCategory : Set :=
| PlatformNone | PlatformNetwork | PlatformPermission | PlatformFilesystem | PlatformProcess.

#[global] Instance DiagnosticEventCode_eq_dec : EqDecision DiagnosticEventCode.
Proof. solve_decision. Defined.

(** The codes the enums are written as ([closed_code!]). *)
Definition level_code (value : DiagnosticLevel) : string :=
  match value with
  | LevelTrace => "trace" | LevelDebug => "debug" | LevelInfo => "info" | LevelWarn => "warn" | LevelError => "error"
  end.

Definition component_code (value : DiagnosticComponent) : string :=
  match value with
  | ComponentCore => "core" | ComponentRouter => "router" | ComponentProvider => "provider"
  | ComponentStorage => "storage" | ComponentSessions => "sessions" | ComponentDiagnostics => "diagnostics"
  | ComponentPlatform => "platform"
  end.

Definition event_code (value : DiagnosticEventCode) : string :=
  match value with
  | EventLifecycleTransition => "lifecycle_transition"
  | EventRequestCompleted => "request_completed"
  | EventRequestFailed => "request_failed"
  | EventRetryDecision => "retry_decision"
  | EventFailoverDecision => "failover_decision"
  | EventDiagnosticDrop => "diagnostics.events_dropped"
  end.

Definition protocol_code (value : ProviderProtocol) : string :=
  match value with
  | ProtoOpenAiResponses => "open_ai_responses" | ProtoOpenAiChat => "open_ai_chat"
  | ProtoAnthropicMessages => "anthropic_messages" | ProtoGemini => "gemini"
  end.

Definition transition_code (value : StateTransition) : string :=
  match value with
  | StartingToReady => "starting_to_ready"
  | ReadyToDegraded => "ready_to_degraded"
  | DegradedToReady => "degraded_to_ready"
  | ReadyToDraining => "ready_to_draining"
  | DrainingToAwaitingCancellation => "draining_to_awaiting_cancellation"
  | DrainingToReady => "draining_to_ready"
  | ReadyToStopping => "ready_to_stopping"
  | StoppingToStopped => "stopping_to_stopped"
  end.

Definition retry_code (value : RetryDecision) : string :=
  match value with
  | RetryNotApplicable => "not_applicable" | RetryNotRetried => "not_retried"
  | RetryScheduled => "scheduled" | RetryExhausted => "exhausted"
  end.

Definition failover_code (value : FailoverDecision) : string :=
  match value with
  | FailoverNotApplicable => "not_applicable" | FailoverNotSelected => "not_selected"
  | FailoverSelected => "selected" | FailoverExhausted => "exhausted"
  end.

Definition stage_code (value : StageCode) : string :=
  match value with
  | StageAdmission => "admission" | StageRouting => "routing" | StageUpstream => "upstream"
  | StageResponse => "response"
  end.

Definition diagnostic_error_code (value : ErrorCode) : string :=
  match value with
  | ErrUpstreamTimeout => "upstream_timeout" | ErrUpstreamUnavailable => "upstream_unavailable"
  | ErrInvalidResponse => "invalid_response" | ErrInternalInvariant => "internal_invariant"
  | ErrResourceLimit => "resource_limit"
  end.

Definition error_source_code (value : ErrorSourceCode) : string :=
  match value with
  | SourceRouter => "router" | SourceProvider => "provider" | SourceProtocol => "protocol"
  | SourcePlatform => "platform" | SourceStorage => "storage"
  end.

Definition platform_code (value : PlatformCategory) : string :=
  match value with
  | PlatformNone => "none" | PlatformNetwork => "network" | PlatformPermission => "permission"
  | PlatformFilesystem => "filesystem" | PlatformProcess => "process"
  end.

(** [decode_code!]. *)
Definition decode_code {A} (table : list (string * A)) (value : string) : result DiagnosticDecodeError A :=
  match List.find (fun entry => bool_decide (entry.1 = value)) table with
  | Some entry => Ok entry.2
  | None => Err DecodeInvalid
  end.

Definition decode_level := decode_code
  [("trace", LevelTrace); ("debug", LevelDebug); ("info", LevelInfo); ("warn", LevelWarn); ("error", LevelError)]%string.

Definition decode_component := decode_code
  [("core", ComponentCore); ("router", ComponentRouter); ("provider", ComponentProvider);
   ("storage", ComponentStorage); ("sessions", ComponentSessions); ("diagnostics", ComponentDiagnostics);
   ("platform", ComponentPlatform)]%string.

Definition decode_event_code := decode_code
  [("lifecycle_transition", EventLifecycleTransition); ("request_completed", EventRequestCompleted);
   ("request_failed", EventRequestFailed); ("retry_decision", EventRetryDecision);
   ("failover_decision", EventFailoverDecision); ("diagnostics.events_dropped", EventDiagnosticDrop)]%string.

Definition decode_protocol := decode_code
  [("open_ai_responses", ProtoOpenAiResponses); ("open_ai_chat", ProtoOpenAiChat);
   ("anthropic_messages", ProtoAnthropicMessages); ("gemini", ProtoGemini)]%string.

Definition decode_transition := decode_code
  [("starting_to_ready", StartingToReady); ("ready_to_degraded", ReadyToDegraded);
   ("degraded_to_ready", DegradedToReady); ("ready_to_draining", ReadyToDraining);
   ("draining_to_awaiting_cancellation", DrainingToAwaitingCancellation);
   ("draining_to_ready", DrainingToReady); ("ready_to_stopping", ReadyToStopping);
   ("stopping_to_stopped", StoppingToStopped)]%string.

Definition decode_retry := decode_code
  [("not_applicable", RetryNotApplicable); ("not_retried", RetryNotRetried); ("scheduled", RetryScheduled);
   ("exhausted", RetryExhausted)]%string.

Definition decode_failover := decode_code
  [("not_applicable", FailoverNotApplicable); ("not_selected", FailoverNotSelected);
   ("selected", FailoverSelected); ("exhausted", FailoverExhausted)]%string.

Definition decode_stage := decode_code
  [("admission", StageAdmission); ("routing", StageRouting); ("upstream", StageUpstream);
   ("response", StageResponse)]%string.

Definition decode_error_code := decode_code
  [("upstream_timeout", ErrUpstreamTimeout); ("upstream_unavailable", ErrUpstreamUnavailable);
   ("invalid_response", ErrInvalidResponse); ("internal_invariant", ErrInternalInvariant);
   ("resource_limit", ErrResourceLimit)]%string.

Definition decode_error_source := decode_code
  [("router", SourceRouter); ("provider", SourceProvider); ("protocol", SourceProtocol);
   ("platform", SourcePlatform); ("storage", SourceStorage)]%string.

Definition decode_platform := decode_code
  [("none", PlatformNone); ("network", PlatformNetwork); ("permission", PlatformPermission);
   ("filesystem", PlatformFilesystem); ("process", PlatformProcess)]%string.

(** ** Validated text *)
(** The directional marks no text may carry. *)
Definition is_bidi_mark (c : Z) : bool :=
  (c =? 1564) || (c =? 8206) || (c =? 8207) || ((8234 <=? c) && (c <=? 8238)) || ((8294 <=? c) && (c <=? 8297)).

Section Values.
Context `{DiagnosticCrates}.

Definition identifier_char (c : Z) : bool :=
  negb (is_whitespace c) && negb (is_control c)
  && (char_alphanumeric c || (c =? 95) || (c =? 45) || (c =? 46)) && negb (is_bidi_mark c).

Definition valid_identifier (value : string) (maximum : Z) : bool :=
  negb (is_emptyb (str_bytes value)) && (zlen (str_bytes value) <=? maximum)
  && forallb identifier_char (str_chars value).

(** [validated_identifier!]: the eight identifiers and their bounds. *)
Definition identifier_parse (maximum : Z) (value : string) : result DiagnosticBuildError string :=
  if valid_identifier value maximum then Ok value else Err DiagnosticInvalidValue.

Definition RequestId_parse := identifier_parse 64.
Definition TraceId_parse := identifier_parse 64.
Definition AttemptId_parse := identifier_parse 64.
Definition ClientId_parse := identifier_parse 64.
Definition OpaqueSessionId_parse := identifier_parse 96.
Definition ModelId_parse := identifier_parse 128.
Definition RouteId_parse := identifier_parse 64.
Definition OpaqueAccountId_parse := identifier_parse 96.

Definition EventId_parse (value : string) : result DiagnosticBuildError (list Z) :=
  let? parsed := ok_or (uuid_parse_str value) DiagnosticInvalidValue in
  if bool_decide (uuid_hyphenated parsed = value) then Ok parsed else Err DiagnosticInvalidValue.

Definition timestamp_parse (value : string) : result DiagnosticBuildError string :=
  ok_or (UtcTimestamp_parse value) DiagnosticInvalidValue.

(** [hex_value], and the value of a pair of digits. *)
Definition hex_value (value : Z) : result DiagnosticBuildError Z :=
  if (48 <=? value) && (value <=? 57) then Ok (value - 48)
  else if (97 <=? value) && (value <=? 102) then Ok (value - 97 + 10)
  else Err DiagnosticInvalidValue.

Definition hex_pair (high low : Z) : result DiagnosticBuildError Z :=
  let? high := hex_value high in
  let? low := hex_value low in
  Ok (Z.lor (Z.shiftl high 4) low).

(** [chunks_exact(2)] into bytes. *)
Fixpoint hex_bytes (l : list Z) : result DiagnosticBuildError (list Z) :=
  match l with
  | high :: low :: l =>
      let? byte := hex_pair high low in
      let? bytes := hex_bytes l in
      Ok (byte :: bytes)
  | _ => Ok []
  end.

(** [HexDisplay]. *)
Definition hex_digit (d : Z) : Z := if d <? 10 then 48 + d else 87 + d.
Definition hex_display (bytes : list Z) : string :=
  bytes_str (flat_map (fun b => [hex_digit (b / 16); hex_digit (b mod 16)]) bytes).

Definition GitCommit_parse (value : string) : result DiagnosticBuildError (list Z) :=
  let bytes := str_bytes value in
  if negb (zlen bytes =? 40) || negb (forallb (fun b => is_ascii_digit b || ((97 <=? b) && (b <=? 102))) bytes)
  then Err DiagnosticInvalidValue
  else hex_bytes bytes.

Definition valid_version_number (value : list Z) : bool :=
  negb (is_emptyb value) && forallb is_ascii_digit value
  && (bool_decide (value = [48]) || negb (bool_decide (head value = Some 48))).

Definition valid_version_suffix (value : list Z) (reject_numeric_leading_zero : bool) : bool :=
  negb (is_emptyb value)
  && forallb (fun identifier =>
       negb (is_emptyb identifier)
       && forallb (fun b => is_ascii_alphanumeric b || (b =? 45)) identifier
       && (negb reject_numeric_leading_zero || negb (forallb is_ascii_digit identifier)
           || bool_decide (identifier = [48]) || negb (bool_decide (head identifier = Some 48))))
       (split_bytes 46 value).

Definition valid_semantic_version (value : list Z) : bool :=
  let core_version core :=
    match split_bytes 46 core with
    | [major; minor; patch] => forallb valid_version_number [major; minor; patch]
    | _ => false
    end in
  let with_pre core_and_pre :=
    match split_bytes 45 core_and_pre with
    | [core] => core_version core
    | [core; pre] => valid_version_suffix pre true && core_version core
    | _ => false
    end in
  match split_bytes 43 value with
  | [core_and_pre] => with_pre core_and_pre
  | [core_and_pre; build] => valid_version_suffix build false && with_pre core_and_pre
  | _ => false
  end.

Definition WokcoreVersion_parse (value : string) : result DiagnosticBuildError string :=
  let bytes := str_bytes value in
  if is_emptyb bytes || (32 <? zlen bytes)
     || negb (forallb (fun b => is_ascii_alphanumeric b || (b =? 46) || (b =? 45) || (b =? 43)) bytes)
     || negb (valid_semantic_version bytes)
  then Err DiagnosticInvalidValue else Ok value.
End Values.

(** ** The parts of an event *)
Record BuildIdentity : Set := mkBuildIdentity {
  bi_wokcore_version : string;
  bi_git_commit : list Z;
  bi_api_major : Z;
  bi_capability_version : Z
}.

Record Correlations : Set := mkCorrelations {
  co_request_id : option string;
  co_trace_id : option string;
  co_attempt_id : option string;
  co_client_id : option string;
  co_parent_event_id : option (list Z);
  co_opaque_session_id : option string
}.

Record ProviderContext : Set := mkProviderContext {
  pv_protocol : ProviderProtocol;
  pv_model : option string;
  pv_route : option string;
  pv_opaque_account_id : option string
}.

Definition ProviderContext_new (protocol : ProviderProtocol) : ProviderContext :=
  mkProviderContext protocol None None None.
Definition with_model (model : string) (p : ProviderContext) : ProviderContext :=
  mkProviderContext (pv_protocol p) (Some model) (pv_route p) (pv_opaque_account_id p).
Definition with_route (route : string) (p : ProviderContext) : ProviderContext :=
  mkProviderContext (pv_protocol p) (pv_model p) (Some route) (pv_opaque_account_id p).
Definition with_opaque_account (account : string) (p : ProviderContext) : ProviderContext :=
  mkProviderContext (pv_protocol p) (pv_model p) (pv_route p) (Some account).

Record DiagnosticDecision : Set := mkDecision {
  de_state_transition : StateTransition;
  de_retry : RetryDecision;
  de_failover : FailoverDecision
}.

Record TokenCounts : Set := mkTokenCounts { tc_input : Z; tc_output : Z; tc_cached : Z; tc_reasoning : Z }.

Record Measurements : Set := mkMeasurements {
  me_stage : StageCode;
  me_duration_micros : Z;
  me_request_bytes : Z;
  me_response_bytes : Z;
  me_tokens : TokenCounts
}.

Record DiagnosticDropCounts : Set := mkDropCounts {
  dc_ingress_full : Z;
  dc_ingress_closed : Z;
  dc_writer_failures : Z;
  dc_invalid_events : Z;
  dc_oversized_events : Z
}.

Definition drop_total (c : DiagnosticDropCounts) : Z :=
  sat_add64 (sat_add64 (sat_add64 (sat_add64 (dc_ingress_full c) (dc_ingress_closed c)) (dc_writer_failures c))
               (dc_invalid_events c)) (dc_oversized_events c).

Record DiagnosticError : Set := mkDiagnosticError {
  er_code : ErrorCode;
  er_source_chain : list ErrorSourceCode;
  er_platform : PlatformCategory
}.

Definition DiagnosticError_new (code : ErrorCode) (source_chain : list ErrorSourceCode) (platform : PlatformCategory)
  : result DiagnosticBuildError DiagnosticError :=
  if MAX_ERROR_SOURCE_CHAIN <? zlen source_chain then Err CollectionLimit
  else Ok (mkDiagnosticError code source_chain platform).

Record SafeSummary : Set := mkSafeSummary {
  su_text : string;
  su_truncated : bool;
  su_original_safe_utf8_bytes : Z;
  su_full_safe_sha256 : list Z
}.

Record RedactionCounts : Set := mkRedactionCounts {
  rc_authorization_values_removed : Z;
  rc_cookie_values_removed : Z;
  rc_body_values_removed : Z;
  rc_path_values_removed : Z;
  rc_token_values_removed : Z;
  rc_credential_values_removed : Z
}.

Definition saturating_merge (a b : RedactionCounts) : RedactionCounts :=
  mkRedactionCounts
    (sat_add64 (rc_authorization_values_removed a) (rc_authorization_values_removed b))
    (sat_add64 (rc_cookie_values_removed a) (rc_cookie_values_removed b))
    (sat_add64 (rc_body_values_removed a) (rc_body_values_removed b))
    (sat_add64 (rc_path_values_removed a) (rc_path_values_removed b))
    (sat_add64 (rc_token_values_removed a) (rc_token_values_removed b))
    (sat_add64 (rc_credential_values_removed a) (rc_credential_values_removed b)).

(** [while !value.is_char_boundary(retained) { retained -= 1 }]. *)
Fixpoint retreat (l : list Z) (retained : nat) : nat :=
  match retained with
  | O => O
  | S r => if char_boundary l retained then retained else retreat l r
  end.

Definition from_already_safe `{CryptoCrate} (value : string) : result DiagnosticBuildError SafeSummary :=
  if existsb (fun c => is_control c || is_bidi_mark c) (str_chars value) then Err DiagnosticInvalidValue
  else
    let bytes := str_bytes value in
    if 4294967295 <? zlen bytes then Err DiagnosticInvalidValue
    else
      let retained := retreat bytes (Z.to_nat (Z.min (zlen bytes) MAX_SAFE_SUMMARY_BYTES)) in
      Ok (mkSafeSummary (bytes_str (take retained bytes)) (negb (retained =? length bytes)%nat) (zlen bytes)
            (sha256_digest value)).

(** ** Structural summaries ([redaction.rs]) *)
Inductive StructuralObservation : Set :=
| AdmissionAccepted | RouteSelected | CacheHit | CacheMiss | JsonShape | LocalizedCategory | EmojiCategory.

Record StructuralSummaryInput : Set := mkSummaryInput {
  si_protocol : ProviderProtocol;
  si_stage : StageCode;
  si_retry : RetryDecision;
  si_failover : FailoverDecision;
  si_streaming : bool;
  si_platform : PlatformCategory;
  si_model : option string;
  si_observations : list StructuralObservation
}.

Definition push_observation (l : list StructuralObservation) (o : StructuralObservation)
  : result DiagnosticBuildError (list StructuralObservation) :=
  if zlen l =? MAX_STRUCTURAL_OBSERVATIONS then Err CollectionLimit else Ok (l ++ [o]).

Inductive SensitiveCategory : Set := SensAuthorization | SensCookie | SensBody | SensPath | SensToken | SensCredential.

(** The material of a sensitive value is never read. *)
Definition push_sensitive (l : list SensitiveCategory) (v : SensitiveCategory)
  : result DiagnosticBuildError (list SensitiveCategory) :=
  if zlen l =? MAX_SENSITIVE_VALUES then Err CollectionLimit else Ok (l ++ [v]).

Definition count_sensitive (counts : RedactionCounts) (category : SensitiveCategory) : RedactionCounts :=
  saturating_merge counts
    match category with
    | SensAuthorization => mkRedactionCounts 1 0 0 0 0 0
    | SensCookie => mkRedactionCounts 0 1 0 0 0 0
    | SensBody => mkRedactionCounts 0 0 1 0 0 0
    | SensPath => mkRedactionCounts 0 0 0 1 0 0
    | SensToken => mkRedactionCounts 0 0 0 0 1 0
    | SensCredential => mkRedactionCounts 0 0 0 0 0 1
    end.

Definition quote_mark : string := String (Ascii.ascii_of_N 34) EmptyString.
Definition backslash : string := String (Ascii.ascii_of_N 92) EmptyString.
Definition quoted (text : string) : string := quote_mark +:+ text +:+ quote_mark.

(** The text of the JSON-shape observation, with its quotes and escapes. *)
Definition shape_text : string :=
  "shape={" +:+ quoted "event" +:+ ":" +:+ quoted "provider_response" +:+ "," +:+ quoted "fields" +:+ ":["
  +:+ quoted "status" +:+ "," +:+ quoted "duration" +:+ "," +:+ quoted "tokens" +:+ "]," +:+ quoted "escaped" +:+ ":"
  +:+ quote_mark +:+ backslash +:+ backslash +:+ backslash +:+ quote_mark +:+ quote_mark +:+ "}".

Definition observation_code (value : StructuralObservation) : string :=
  match value with
  | AdmissionAccepted => "admission_accepted"
  | RouteSelected => "route_selected"
  | CacheHit => "cache_hit"
  | CacheMiss => "cache_miss"
  | JsonShape => shape_text
  | LocalizedCategory => "category=结构化诊断"
  | EmojiCategory => "category=stream_🧪_👩‍💻"
  end.

Fixpoint join_observations (l : list StructuralObservation) : string :=
  match l with
  | [] => EmptyString
  | [o] => observation_code o
  | o :: l => observation_code o +:+ "|" +:+ join_observations l
  end.

Definition summary_header (input : StructuralSummaryInput) : string :=
  "protocol=" +:+ protocol_code (si_protocol input) +:+ ";stage=" +:+ stage_code (si_stage input)
  +:+ ";retry=" +:+ retry_code (si_retry input) +:+ ";failover=" +:+ failover_code (si_failover input)
  +:+ ";streaming=" +:+ (if si_streaming input then "true" else "false")
  +:+ ";platform=" +:+ platform_code (si_platform input)
  +:+ ";model=" +:+ default "unavailable"%string (si_model input).

Definition summary_text (input : StructuralSummaryInput) : string :=
  summary_header input +:+ ";observations="
  +:+ (if is_emptyb (si_observations input) then "none"%string else join_observations (si_observations input)).

Record RedactedSummary : Set := mkRedactedSummary { rd_summary : SafeSummary; rd_counts : RedactionCounts }.

Definition no_redactions : RedactionCounts := mkRedactionCounts 0 0 0 0 0 0.

Definition build_structural_summary `{CryptoCrate} (input : StructuralSummaryInput)
  (sensitive : list SensitiveCategory) : result DiagnosticBuildError RedactedSummary :=
  let counts := foldl count_sensitive no_redactions sensitive in
  let? summary := from_already_safe (summary_text input) in
  Ok (mkRedactedSummary summary counts).

(** [RedactedSummaries::push] and [into_event_parts]. *)
Definition push_summary (l : list RedactedSummary) (value : RedactedSummary)
  : result DiagnosticBuildError (list RedactedSummary) :=
  if zlen l =? MAX_EVENT_SUMMARIES then Err CollectionLimit else Ok (l ++ [value]).

Definition into_event_parts (l : list RedactedSummary) : list SafeSummary * RedactionCounts :=
  (rd_summary <$> l, foldl (fun counts value => saturating_merge counts (rd_counts value)) no_redactions l).

(** ** Events and drafts *)
Record DiagnosticEvent : Set := mkEvent {
  ev_schema_version : Z;
  ev_sequence : Z;
  ev_event_id : list Z;
  ev_occurred_at : string;
  ev_level : DiagnosticLevel;
  ev_component : DiagnosticComponent;
  ev_code : DiagnosticEventCode;
  ev_correlations : option Correlations;
  ev_build : BuildIdentity;
  ev_provider : option ProviderContext;
  ev_decision : option DiagnosticDecision;
  ev_measurements : option Measurements;
  ev_error : option DiagnosticError;
  ev_diagnostic_drop : option DiagnosticDropCounts;
  ev_summaries : list SafeSummary;
  ev_redaction_counts : RedactionCounts
}.

Definition DiagnosticEvent_new (sequence : Z) (event_id : list Z) (occurred_at : string) (level : DiagnosticLevel)
  (component : DiagnosticComponent) (code : DiagnosticEventCode) (build : BuildIdentity) : DiagnosticEvent :=
  mkEvent 1 sequence event_id occurred_at level component code None build None None None None None [] no_redactions.

Definition DiagnosticEventDraft_new := DiagnosticEvent_new 0.

Definition with_correlations (c : Correlations) (e : DiagnosticEvent) : DiagnosticEvent :=
  mkEvent (ev_schema_version e) (ev_sequence e) (ev_event_id e) (ev_occurred_at e) (ev_level e) (ev_component e)
    (ev_code e) (Some c) (ev_build e) (ev_provider e) (ev_decision e) (ev_measurements e) (ev_error e)
    (ev_diagnostic_drop e) (ev_summaries e) (ev_redaction_counts e).

Definition with_provider (p : ProviderContext) (e : DiagnosticEvent) : DiagnosticEvent :=
  mkEvent (ev_schema_version e) (ev_sequence e) (ev_event_id e) (ev_occurred_at e) (ev_level e) (ev_component e)
    (ev_code e) (ev_correlations e) (ev_build e) (Some p) (ev_decision e) (ev_measurements e) (ev_error e)
    (ev_diagnostic_drop e) (ev_summaries e) (ev_redaction_counts e).

Definition with_decision (d : DiagnosticDecision) (e : DiagnosticEvent) : DiagnosticEvent :=
  mkEvent (ev_schema_version e) (ev_sequence e) (ev_event_id e) (ev_occurred_at e) (ev_level e) (ev_component e)
    (ev_code e) (ev_correlations e) (ev_build e) (ev_provider e) (Some d) (ev_measurements e) (ev_error e)
    (ev_diagnostic_drop e) (ev_summaries e) (ev_redaction_counts e).

Definition with_measurements (m : Measurements) (e : DiagnosticEvent) : DiagnosticEvent :=
  mkEvent (ev_schema_version e) (ev_sequence e) (ev_event_id e) (ev_occurred_at e) (ev_level e) (ev_component e)
    (ev_code e) (ev_correlations e) (ev_build e) (ev_provider e) (ev_decision e) (Some m) (ev_error e)
    (ev_diagnostic_drop e) (ev_summaries e) (ev_redaction_counts e).

Definition with_error (err : DiagnosticError) (e : DiagnosticEvent) : DiagnosticEvent :=
  mkEvent (ev_schema_version e) (ev_sequence e) (ev_event_id e) (ev_occurred_at e) (ev_level e) (ev_component e)
    (ev_code e) (ev_correlations e) (ev_build e) (ev_provider e) (ev_decision e) (ev_measurements e) (Some err)
    (ev_diagnostic_drop e) (ev_summaries e) (ev_redaction_counts e).

Definition with_diagnostic_drop_counts (c : DiagnosticDropCounts) (e : DiagnosticEvent) : DiagnosticEvent :=
  mkEvent (ev_schema_version e) (ev_sequence e) (ev_event_id e) (ev_occurred_at e) (ev_level e) (ev_component e)
    (ev_code e) (ev_correlations e) (ev_build e) (ev_provider e) (ev_decision e) (ev_measurements e) (ev_error e)
    (Some c) (ev_summaries e) (ev_redaction_counts e).

Definition with_redacted_summaries (l : list RedactedSummary) (e : DiagnosticEvent) : DiagnosticEvent :=
  let '(summaries, counts) := into_event_parts l in
  mkEvent (ev_schema_version e) (ev_sequence e) (ev_event_id e) (ev_occurred_at e) (ev_level e) (ev_component e)
    (ev_code e) (ev_correlations e) (ev_build e) (ev_provider e) (ev_decision e) (ev_measurements e) (ev_error e)
    (ev_diagnostic_drop e) summaries counts.

Definition at_sequence (sequence : Z) (e : DiagnosticEvent) : DiagnosticEvent :=
  mkEvent (ev_schema_version e) sequence (ev_event_id e) (ev_occurred_at e) (ev_level e) (ev_component e)
    (ev_code e) (ev_correlations e) (ev_build e) (ev_provider e) (ev_decision e) (ev_measurements e) (ev_error e)
    (ev_diagnostic_drop e) (ev_summaries e) (ev_redaction_counts e).

(** ** Writing *)
Section Codec.
Context `{HD : DiagnosticCrates, HJ : DiagnosticJson, HC : CryptoCrate}.

Definition optional {A} (write : A -> Value) (o : option A) : Value := from_option write VNull o.

Definition correlations_value (c : Correlations) : Value := VObject [
  ("request_id"%string, optional VString (co_request_id c));
  ("trace_id"%string, optional VString (co_trace_id c));
  ("attempt_id"%string, optional VString (co_attempt_id c));
  ("client_id"%string, optional VString (co_client_id c));
  ("parent_event_id"%string, optional (fun id => VString (uuid_hyphenated id)) (co_parent_event_id c));
  ("opaque_session_id"%string, optional VString (co_opaque_session_id c))].

Definition build_value (b : BuildIdentity) : Value := VObject [
  ("wokcore_version"%string, VString (bi_wokcore_version b));
  ("git_commit"%string, VString (hex_display (bi_git_commit b)));
  ("api_major"%string, json_uint (bi_api_major b));
  ("capability_version"%string, json_uint (bi_capability_version b))].

Definition provider_value (p : ProviderContext) : Value := VObject [
  ("protocol"%string, VString (protocol_code (pv_protocol p)));
  ("model"%string, optional VString (pv_model p));
  ("route"%string, optional VString (pv_route p));
  ("opaque_account_id"%string, optional VString (pv_opaque_account_id p))].

Definition decision_value (d : DiagnosticDecision) : Value := VObject [
  ("state_transition"%string, VString (transition_code (de_state_transition d)));
  ("retry"%string, VString (retry_code (de_retry d)));
  ("failover"%string, VString (failover_code (de_failover d)))].

Definition tokens_value (t : TokenCounts) : Value := VObject [
  ("input"%string, json_uint (tc_input t)); ("output"%string, json_uint (tc_output t));
  ("cached"%string, json_uint (tc_cached t)); ("reasoning"%string, json_uint (tc_reasoning t))].

Definition measurements_value (m : Measurements) : Value := VObject [
  ("stage"%string, VString (stage_code (me_stage m)));
  ("duration_micros"%string, json_uint (me_duration_micros m));
  ("request_bytes"%string, json_uint (me_request_bytes m));
  ("response_bytes"%string, json_uint (me_response_bytes m));
  ("tokens"%string, tokens_value (me_tokens m))].

Definition error_value (e : DiagnosticError) : Value := VObject [
  ("code"%string, VString (diagnostic_error_code (er_code e)));
  ("source_chain"%string, VArray ((fun s => VString (error_source_code s)) <$> er_source_chain e));
  ("platform"%string, VString (platform_code (er_platform e)))].

Definition drop_value (c : DiagnosticDropCounts) : Value := VObject [
  ("ingress_full"%string, json_uint (dc_ingress_full c));
  ("ingress_closed"%string, json_uint (dc_ingress_closed c));
  ("writer_failures"%string, json_uint (dc_writer_failures c));
  ("invalid_events"%string, json_uint (dc_invalid_events c));
  ("oversized_events"%string, json_uint (dc_oversized_events c))].

Definition summary_value (s : SafeSummary) : Value := VObject [
  ("text"%string, VString (su_text s));
  ("truncated"%string, VBool (su_truncated s));
  ("original_safe_utf8_bytes"%string, json_uint (su_original_safe_utf8_bytes s));
  ("full_safe_sha256"%string, VString (hex_display (su_full_safe_sha256 s)))].

Definition redaction_value (r : RedactionCounts) : Value := VObject [
  ("authorization_values_removed"%string, json_uint (rc_authorization_values_removed r));
  ("cookie_values_removed"%string, json_uint (rc_cookie_values_removed r));
  ("body_values_removed"%string, json_uint (rc_body_values_removed r));
  ("path_values_removed"%string, json_uint (rc_path_values_removed r));
  ("token_values_removed"%string, json_uint (rc_token_values_removed r));
  ("credential_values_removed"%string, json_uint (rc_credential_values_removed r))].

(** [SequenceWire]: twenty digits. *)
Definition sequence_text (sequence : Z) : string := bytes_str (padded SEQUENCE_DIGITS sequence).

(** The fields after the sequence number. *)
Definition event_rest (e : DiagnosticEvent) : list (string * Value) := [
  ("event_id"%string, VString (uuid_hyphenated (ev_event_id e)));
  ("occurred_at"%string, VString (ev_occurred_at e));
  ("level"%string, VString (level_code (ev_level e)));
  ("component"%string, VString (component_code (ev_component e)));
  ("code"%string, VString (event_code (ev_code e)));
  ("correlations"%string, optional correlations_value (ev_correlations e));
  ("build"%string, build_value (ev_build e));
  ("provider"%string, optional provider_value (ev_provider e));
  ("decision"%string, optional decision_value (ev_decision e));
  ("measurements"%string, optional measurements_value (ev_measurements e));
  ("error"%string, optional error_value (ev_error e));
  ("diagnostic_drop"%string, optional drop_value (ev_diagnostic_drop e));
  ("summaries"%string, VArray (summary_value <$> ev_summaries e));
  ("redaction_counts"%string, redaction_value (ev_redaction_counts e))].

Definition event_value (e : DiagnosticEvent) : Value :=
  VObject (("schema_version"%string, json_uint (ev_schema_version e))
           :: ("sequence"%string, VString (sequence_text (ev_sequence e))) :: event_rest e).

(** ** Templates *)
(** The number a UUID is, the way the ring orders events. *)
Definition uuid_number (id : list Z) : Z := foldl (fun n byte => n * 256 + byte) 0 id.

Record DiagnosticEventTemplate : Set := mkTemplate {
  te_event_id : list Z;
  te_encoded : list Z;
  te_sequence_offset : nat
}.

Definition marker : list Z :=
  str_bytes (quoted "sequence" +:+ ":" +:+ quote_mark) ++ replicate SEQUENCE_DIGITS 48 ++ [34].

(** [windows(marker.len()).position(..)]. *)
Fixpoint position_of (needle l : list Z) : option nat :=
  if bool_decide (needle `prefix_of` l) then Some O
  else match l with [] => None | _ :: r => S <$> position_of needle r end.

Definition drop_consistent (code : DiagnosticEventCode) (drop : option DiagnosticDropCounts) : bool :=
  eqb (bool_decide (code = EventDiagnosticDrop)) (is_some_and (fun c => negb (drop_total c =? 0)) drop).

Definition prepare_template (draft : DiagnosticEvent) : result DiagnosticBuildError DiagnosticEventTemplate :=
  if negb (drop_consistent (ev_code draft) (ev_diagnostic_drop draft)) then Err DiagnosticInvalidValue
  else
    let encoded := diagnostic_to_vec (event_value draft) in
    if MAX_PREPARED_EVENT_BYTES <? zlen encoded then Err EventTooLarge
    else
      let? marker_start := ok_or (position_of marker encoded) Serialization in
      Ok (mkTemplate (ev_event_id draft) encoded
            (marker_start + length (str_bytes (quoted "sequence" +:+ ":" +:+ quote_mark)))%nat).

(** One step of the loop that writes the digits from the last to the first. *)
Definition write_digit (state : list Z * Z) (index : nat) : list Z * Z :=
  (<[index := 48 + state.2 mod 10]> state.1, state.2 / 10).

Definition finalize (t : DiagnosticEventTemplate) (sequence : Z)
  : result DiagnosticBuildError PreparedDiagnosticEvent :=
  if sequence =? 0 then Err DiagnosticInvalidValue
  else
    let '(encoded, remaining) :=
      foldl write_digit (te_encoded t, sequence) (rev (seq (te_sequence_offset t) SEQUENCE_DIGITS)) in
    if negb (remaining =? 0) then Err DiagnosticInvalidValue
    else Ok (mkPreparedEvent sequence (uuid_number (te_event_id t)) encoded).

(** ** Reading *)
(** [derive(Deserialize)] with [deny_unknown_fields]: an object with known and
    distinct fields, in any order, or an array of all fields in order. *)
Definition read_struct (names : list string) (v : Value) : option (list (option Value)) :=
  match v with
  | VObject entries =>
      if forallb (fun k => bool_decide (k ∈ names)) entries.*1 && bool_decide (NoDup entries.*1)
      then Some ((fun name => entries_get name entries) <$> names)
      else None
  | VArray values => if (length values =? length names)%nat then Some (Some <$> values) else None
  | _ => None
  end.

(** A field that must be there, and one that may be missing or null. *)
Definition required {A} (read : Value -> option A) (field : option Value) : option A := field ≫= read.

Definition nullable {A} (read : Value -> option A) (field : option Value) : option (option A) :=
  match field with
  | None | Some VNull => Some None
  | Some v => Some <$> read v
  end.

Definition read_uint (maximum : Z) (v : Value) : option Z :=
  n ← as_u64 v; if n <=? maximum then Some n else None.

Definition read_u64 : Value -> option Z := read_uint 18446744073709551615.
Definition read_bool (v : Value) : option bool := match v with VBool b => Some b | _ => None end.

(** [BoundedSequence]. *)
Definition bounded_sequence {A} (maximum : Z) (read : Value -> option A) (v : Value) : option (list A) :=
  values ← as_array v; if zlen values <=? maximum then mapM read values else None.

Record DecodeCorrelations : Set := mkDecodeCorrelations {
  dco_request_id : option string;
  dco_trace_id : option string;
  dco_attempt_id : option string;
  dco_client_id : option string;
  dco_parent_event_id : option string;
  dco_opaque_session_id : option string
}.

Definition read_correlations (v : Value) : option DecodeCorrelations :=
  fields ← read_struct ["request_id"; "trace_id"; "attempt_id"; "client_id"; "parent_event_id"; "opaque_session_id"]%string v;
  match fields with
  | [a; b; c; d; e; f] =>
      a ← nullable as_str a; b ← nullable as_str b; c ← nullable as_str c; d ← nullable as_str d;
      e ← nullable as_str e; f ← nullable as_str f; Some (mkDecodeCorrelations a b c d e f)
  | _ => None
  end.

Record DecodeBuild : Set := mkDecodeBuild {
  db_wokcore_version : string;
  db_git_commit : string;
  db_api_major : Z;
  db_capability_version : Z
}.

Definition read_build (v : Value) : option DecodeBuild :=
  fields ← read_struct ["wokcore_version"; "git_commit"; "api_major"; "capability_version"]%string v;
  match fields with
  | [a; b; c; d] =>
      a ← required as_str a; b ← required as_str b; c ← required (read_uint 65535) c;
      d ← required (read_uint 4294967295) d; Some (mkDecodeBuild a b c d)
  | _ => None
  end.

Record DecodeProvider : Set := mkDecodeProvider {
  dp_protocol : string;
  dp_model : option string;
  dp_route : option string;
  dp_opaque_account_id : option string
}.

Definition read_provider (v : Value) : option DecodeProvider :=
  fields ← read_struct ["protocol"; "model"; "route"; "opaque_account_id"]%string v;
  match fields with
  | [a; b; c; d] =>
      a ← required as_str a; b ← nullable as_str b; c ← nullable as_str c; d ← nullable as_str d;
      Some (mkDecodeProvider a b c d)
  | _ => None
  end.

Record DecodeDecision : Set := mkDecodeDecision { dd_state_transition : string; dd_retry : string; dd_failover : string }.

Definition read_decision (v : Value) : option DecodeDecision :=
  fields ← read_struct ["state_transition"; "retry"; "failover"]%string v;
  match fields with
  | [a; b; c] =>
      a ← required as_str a; b ← required as_str b; c ← required as_str c; Some (mkDecodeDecision a b c)
  | _ => None
  end.

(** [DecodeTokenCounts], with the fields of [TokenCounts]. *)
Definition read_tokens (v : Value) : option TokenCounts :=
  fields ← read_struct ["input"; "output"; "cached"; "reasoning"]%string v;
  match fields with
  | [a; b; c; d] =>
      a ← required read_u64 a; b ← required read_u64 b; c ← required read_u64 c; d ← required read_u64 d;
      Some (mkTokenCounts a b c d)
  | _ => None
  end.

Record DecodeMeasurements : Set := mkDecodeMeasurements {
  dm_stage : string;
  dm_duration_micros : Z;
  dm_request_bytes : Z;
  dm_response_bytes : Z;
  dm_tokens : TokenCounts
}.

Definition read_measurements (v : Value) : option DecodeMeasurements :=
  fields ← read_struct ["stage"; "duration_micros"; "request_bytes"; "response_bytes"; "tokens"]%string v;
  match fields with
  | [a; b; c; d; e] =>
      a ← required as_str a; b ← required read_u64 b; c ← required read_u64 c; d ← required read_u64 d;
      e ← required read_tokens e; Some (mkDecodeMeasurements a b c d e)
  | _ => None
  end.

Record DecodeError : Set := mkDecodeError {
  der_code : string;
  der_source_chain : list string;
  der_platform : string
}.

Definition read_error (v : Value) : option DecodeError :=
  fields ← read_struct ["code"; "source_chain"; "platform"]%string v;
  match fields with
  | [a; b; c] =>
      a ← required as_str a; b ← required (bounded_sequence MAX_ERROR_SOURCE_CHAIN as_str) b;
      c ← required as_str c; Some (mkDecodeError a b c)
  | _ => None
  end.

(** [DecodeDiagnosticDropCounts], with the fields of [DiagnosticDropCounts]. *)
Definition read_drop (v : Value) : option DiagnosticDropCounts :=
  fields ← read_struct ["ingress_full"; "ingress_closed"; "writer_failures"; "invalid_events"; "oversized_events"]%string v;
  match fields with
  | [a; b; c; d; e] =>
      a ← required read_u64 a; b ← required read_u64 b; c ← required read_u64 c; d ← required read_u64 d;
      e ← required read_u64 e; Some (mkDropCounts a b c d e)
  | _ => None
  end.

Record DecodeSummary : Set := mkDecodeSummary {
  dsu_text : string;
  dsu_truncated : bool;
  dsu_original_safe_utf8_bytes : Z;
  dsu_full_safe_sha256 : string
}.

Definition read_summary (v : Value) : option DecodeSummary :=
  fields ← read_struct ["text"; "truncated"; "original_safe_utf8_bytes"; "full_safe_sha256"]%string v;
  match fields with
  | [a; b; c; d] =>
      a ← required as_str a; b ← required read_bool b; c ← required (read_uint 4294967295) c;
      d ← required as_str d; Some (mkDecodeSummary a b c d)
  | _ => None
  end.

(** [DecodeRedactionCounts], with the fields of [RedactionCounts]. *)
Definition read_redaction (v : Value) : option RedactionCounts :=
  fields ← read_struct ["authorization_values_removed"; "cookie_values_removed"; "body_values_removed";
                        "path_values_removed"; "token_values_removed"; "credential_values_removed"]%string v;
  match fields with
  | [a; b; c; d; e; f] =>
      a ← required read_u64 a; b ← required read_u64 b; c ← required read_u64 c; d ← required read_u64 d;
      e ← required read_u64 e; f ← required read_u64 f; Some (mkRedactionCounts a b c d e f)
  | _ => None
  end.

Record DecodeEvent : Set := mkDecodeEvent {
  dev_schema_version : Z;
  dev_sequence : string;
  dev_event_id : string;
  dev_occurred_at : string;
  dev_level : string;
  dev_component : string;
  dev_code : string;
  dev_correlations : option DecodeCorrelations;
  dev_build : DecodeBuild;
  dev_provider : option DecodeProvider;
  dev_decision : option DecodeDecision;
  dev_measurements : option DecodeMeasurements;
  dev_error : option DecodeError;
  dev_diagnostic_drop : option DiagnosticDropCounts;
  dev_summaries : list DecodeSummary;
  dev_redaction_counts : RedactionCounts
}.

Definition event_fields : list string :=
  ["schema_version"; "sequence"; "event_id"; "occurred_at"; "level"; "component"; "code"; "correlations"; "build";
   "provider"; "decision"; "measurements"; "error"; "diagnostic_drop"; "summaries"; "redaction_counts"]%string.

Definition read_event (v : Value) : option DecodeEvent :=
  fields ← read_struct event_fields v;
  match fields with
  | [f1; f2; f3; f4; f5; f6; f7; f8; f9; f10; f11; f12; f13; f14; f15; f16] =>
      f1 ← required (read_uint 255) f1; f2 ← required as_str f2; f3 ← required as_str f3; f4 ← required as_str f4;
      f5 ← required as_str f5; f6 ← required as_str f6; f7 ← required as_str f7;
      f8 ← nullable read_correlations f8; f9 ← required read_build f9; f10 ← nullable read_provider f10;
      f11 ← nullable read_decision f11; f12 ← nullable read_measurements f12; f13 ← nullable read_error f13;
      f14 ← nullable read_drop f14; f15 ← required (bounded_sequence MAX_EVENT_SUMMARIES read_summary) f15;
      f16 ← required read_redaction f16;
      Some (mkDecodeEvent f1 f2 f3 f4 f5 f6 f7 f8 f9 f10 f11 f12 f13 f14 f15 f16)
  | _ => None
  end.

(** ** From the wire to an event *)
Definition decode_invalid {A} (r : result DiagnosticBuildError A) : result DiagnosticDecodeError A :=
  map_err (fun _ => DecodeInvalid) r.

Definition transpose {E A B} (f : A -> result E B) (o : option A) : result E (option B) :=
  match o with None => Ok None | Some a => let? b := f a in Ok (Some b) end.

Definition parse_optional (parse : string -> result DiagnosticBuildError string) (value : option string)
  : result DiagnosticDecodeError (option string) := transpose (fun v => decode_invalid (parse v)) value.

Definition correlations_of (wire : DecodeCorrelations) : result DiagnosticDecodeError Correlations :=
  let? request_id := parse_optional RequestId_parse (dco_request_id wire) in
  let? trace_id := parse_optional TraceId_parse (dco_trace_id wire) in
  let? attempt_id := parse_optional AttemptId_parse (dco_attempt_id wire) in
  let? client_id := parse_optional ClientId_parse (dco_client_id wire) in
  let? parent := transpose (fun v => decode_invalid (EventId_parse v)) (dco_parent_event_id wire) in
  let? session := parse_optional OpaqueSessionId_parse (dco_opaque_session_id wire) in
  Ok (mkCorrelations request_id trace_id attempt_id client_id parent session).

Definition build_of (wire : DecodeBuild) : result DiagnosticDecodeError BuildIdentity :=
  let? version := decode_invalid (WokcoreVersion_parse (db_wokcore_version wire)) in
  let? commit := decode_invalid (GitCommit_parse (db_git_commit wire)) in
  Ok (mkBuildIdentity version commit (db_api_major wire) (db_capability_version wire)).

Definition provider_of_wire (wire : DecodeProvider) : result DiagnosticDecodeError ProviderContext :=
  let? protocol := decode_protocol (dp_protocol wire) in
  let provider := ProviderContext_new protocol in
  let? provider := match dp_model wire with
                   | Some model => let? m := decode_invalid (ModelId_parse model) in Ok (with_model m provider)
                   | None => Ok provider end in
  let? provider := match dp_route wire with
                   | Some route => let? r := decode_invalid (RouteId_parse route) in Ok (with_route r provider)
                   | None => Ok provider end in
  match dp_opaque_account_id wire with
  | Some account => let? a := decode_invalid (OpaqueAccountId_parse account) in Ok (with_opaque_account a provider)
  | None => Ok provider
  end.

Definition decision_of (wire : DecodeDecision) : result DiagnosticDecodeError DiagnosticDecision :=
  let? transition := decode_transition (dd_state_transition wire) in
  let? retry := decode_retry (dd_retry wire) in
  let? failover := decode_failover (dd_failover wire) in
  Ok (mkDecision transition retry failover).

Definition measurements_of (wire : DecodeMeasurements) : result DiagnosticDecodeError Measurements :=
  let? stage := decode_stage (dm_stage wire) in
  Ok (mkMeasurements stage (dm_duration_micros wire) (dm_request_bytes wire) (dm_response_bytes wire) (dm_tokens wire)).

Definition error_of (wire : DecodeError) : result DiagnosticDecodeError DiagnosticError :=
  let? sources := try_map decode_error_source (der_source_chain wire) in
  let? code := decode_error_code (der_code wire) in
  let? platform := decode_platform (der_platform wire) in
  Ok (mkDiagnosticError code sources platform).

Definition decode_digest (value : string) : result DiagnosticDecodeError (list Z) :=
  if negb (zlen (str_bytes value) =? 64) then Err DecodeInvalid
  else decode_invalid (hex_bytes (str_bytes value)).

Definition decode_sequence (value : string) : result DiagnosticDecodeError Z :=
  let bytes := str_bytes value in
  if negb (length bytes =? SEQUENCE_DIGITS)%nat || negb (forallb is_ascii_digit bytes) then Err DecodeInvalid
  else
    let sequence := digits_value bytes in
    if 18446744073709551615 <? sequence then Err DecodeInvalid
    else if (sequence =? 0) || negb (bool_decide (sequence_text sequence = value)) then Err DecodeInvalid
    else Ok sequence.

(** ** Summaries *)
Definition observation_texts : list string :=
  ["admission_accepted"; "route_selected"; "cache_hit"; "cache_miss"; shape_text; "category=结构化诊断";
   "category=stream_🧪_👩‍💻"]%string.

Definition valid_structural_observations (value : list Z) : bool :=
  if bool_decide (value = str_bytes "none") then true
  else
    let parts := split_bytes 124 value in
    (zlen parts <=? MAX_STRUCTURAL_OBSERVATIONS)
    && forallb (fun part => existsb (fun text => bool_decide (part = str_bytes text)) observation_texts) parts.

Definition valid_structural_observations_prefix (value : list Z) : bool :=
  let known := "none"%string :: observation_texts in
  let parts := split_bytes 124 value in
  (zlen parts <=? MAX_STRUCTURAL_OBSERVATIONS)
  && forallb (fun part => existsb (fun text => bool_decide (part = str_bytes text)) known) (removelast parts)
  && existsb (fun text => bool_decide (List.last parts [] `prefix_of` str_bytes text)) known.

Fixpoint strip_bytes (prefix l : list Z) : option (list Z) :=
  match prefix, l with
  | [], l => Some l
  | p :: prefix, b :: l => if p =? b then strip_bytes prefix l else None
  | _ :: _, [] => None
  end.

(** A part of the summary with its name taken off. *)
Definition field_part (name : string) (part : list Z) : option string := bytes_str <$> strip_bytes (str_bytes name) part.

Definition valid_structural_summary (value : list Z) : bool :=
  match split_bytes 59 value with
  | [a; b; c; d; e; f; g; h] =>
      match field_part "protocol=" a, field_part "stage=" b, field_part "retry=" c, field_part "failover=" d,
            field_part "streaming=" e, field_part "platform=" f, field_part "model=" g,
            strip_bytes (str_bytes "observations=") h with
      | Some protocol, Some stage, Some retry, Some failover, Some streaming, Some platform, Some model,
        Some observations =>
          is_ok (decode_protocol protocol) && is_ok (decode_stage stage) && is_ok (decode_retry retry)
          && is_ok (decode_failover failover) && bool_decide (streaming ∈ ["true"; "false"]%string)
          && is_ok (decode_platform platform)
          && (bool_decide (model = "unavailable"%string) || is_ok (ModelId_parse model))
          && valid_structural_observations observations
      | _, _, _, _, _, _, _, _ => false
      end
  | _ => false
  end.

(** [str::split_once] on a pattern. *)
Definition split_once_text (pattern l : list Z) : option (list Z * list Z) :=
  start ← position_of pattern l; Some (take start l, drop (start + length pattern) l).

Definition valid_structural_summary_prefix (value : list Z) : bool :=
  match split_once_text (str_bytes ";observations=") value with
  | None => false
  | Some (header, observations) =>
      valid_structural_summary (header ++ str_bytes ";observations=none")
      && valid_structural_observations_prefix observations
  end.

Definition decode_summary (allow_truncated : bool) (wire : DecodeSummary)
  : result DiagnosticDecodeError SafeSummary :=
  let? digest := decode_digest (dsu_full_safe_sha256 wire) in
  let text := str_bytes (dsu_text wire) in
  if dsu_truncated wire then
    if negb allow_truncated || (MAX_SAFE_SUMMARY_BYTES <? zlen text)
       || (dsu_original_safe_utf8_bytes wire <=? zlen text) || negb (valid_structural_summary_prefix text)
    then Err DecodeInvalid
    else Ok (mkSafeSummary (dsu_text wire) true (dsu_original_safe_utf8_bytes wire) digest)
  else if negb (valid_structural_summary text) then Err DecodeInvalid
  else
    let? summary := decode_invalid (from_already_safe (dsu_text wire)) in
    if negb (su_original_safe_utf8_bytes summary =? dsu_original_safe_utf8_bytes wire)
       || negb (bool_decide (su_full_safe_sha256 summary = digest))
    then Err DecodeInvalid else Ok summary.

Definition decode_event_wire (wire : DecodeEvent) (allow_truncated_summary : bool)
  : result DiagnosticDecodeError DiagnosticEvent :=
  let? sequence := decode_sequence (dev_sequence wire) in
  check? guard_err (negb (dev_schema_version wire =? 1)) DecodeInvalid;
  let? correlations := transpose correlations_of (dev_correlations wire) in
  let? provider := transpose provider_of_wire (dev_provider wire) in
  let? decision := transpose decision_of (dev_decision wire) in
  let? measurements := transpose measurements_of (dev_measurements wire) in
  let? error := transpose error_of (dev_error wire) in
  let? code := decode_event_code (dev_code wire) in
  check? guard_err (negb (drop_consistent code (dev_diagnostic_drop wire))) DecodeInvalid;
  let? summaries := try_map (decode_summary allow_truncated_summary) (dev_summaries wire) in
  let? event_id := decode_invalid (EventId_parse (dev_event_id wire)) in
  let? occurred_at := decode_invalid (timestamp_parse (dev_occurred_at wire)) in
  let? level := decode_level (dev_level wire) in
  let? component := decode_component (dev_component wire) in
  let? build := build_of (dev_build wire) in
  Ok (mkEvent 1 sequence event_id occurred_at level component code correlations build provider decision
        measurements error (dev_diagnostic_drop wire) summaries (dev_redaction_counts wire)).

Definition decode_event (encoded : list Z) (allow_truncated_summary : bool)
  : result DiagnosticDecodeError DiagnosticEvent :=
  if is_emptyb encoded || (MAX_PREPARED_EVENT_BYTES <? zlen encoded) then Err DecodeInvalid
  else
    let? wire := ok_or (diagnostic_document encoded ≫= read_event) DecodeInvalid in
    decode_event_wire wire allow_truncated_summary.

Definition DiagnosticEvent_decode (encoded : list Z) : result DiagnosticDecodeError DiagnosticEvent :=
  decode_event encoded false.

Definition decode_trusted_prepared_encoding (encoded : list Z) : result DiagnosticDecodeError DiagnosticEvent :=
  decode_event encoded true.
End Codec.
