(* ===== verification/DiagnosticSpec.v ===== *)
(** * What the encoding of diagnostic events keeps

    Every event built through the constructors of [event.rs] and [redaction.rs]
    is read back from its patched template as it was, with the sequence number
    it was given. *)
From S2P Require Import Prelude Ring Text Json Ident Catalog CatalogSpec AuthRegistry Security SecuritySpec ManagementApi.
From S2P Require Import Calendar CalendarSpec DiagnosticEvent.

Lemma strip_bytes_app p l : strip_bytes p (p ++ l) = Some l.
Proof. induction p as [|b p IH]; [done|]. cbn. by rewrite Z.eqb_refl. Qed.

(** ** Decimal digits *)
(** The last [k] digits of a number. *)
Fixpoint dig (k : nat) (n : Z) : list Z :=
  match k with O => [] | S k => dig k (n / 10) ++ [48 + n mod 10] end.

Lemma dig_length k n : length (dig k n) = k.
Proof. revert n. induction k as [|k IH]; intros n; [done|]. cbn. rewrite length_app, IH. cbn. lia. Qed.

Lemma dig_zero k : dig k 0 = replicate k 48.
Proof. induction k as [|k IH]; [done|]. cbn [dig]. change (0 / 10) with 0. by rewrite IH, replicate_S_end. Qed.

Lemma dig_digits k n : Forall (fun b => is_ascii_digit b = true) (dig k n).
Proof.
  revert n. induction k as [|k IH]; intros n; [constructor|]. cbn [dig]. apply list.Forall_app. split; [apply IH|].
  constructor; [|constructor]. unfold is_ascii_digit. pose proof (Z.mod_pos_bound n 10). lia.
Qed.

Lemma pow10_S k : 10 ^ Z.of_nat (S k) = 10 * 10 ^ Z.of_nat k.
Proof. rewrite Nat2Z.inj_succ, Z.pow_succ_r by lia. done. Qed.

Lemma dig_value k n : 0 <= n < 10 ^ Z.of_nat k -> digits_value (dig k n) = n.
Proof.
  revert n. induction k as [|k IH]; intros n Hn; [cbn in *; lia|]. rewrite pow10_S in Hn.
  unfold digits_value in *. cbn [dig]. rewrite fold_left_app. cbn [fold_left].
  rewrite IH; [pose proof (Z.div_mod n 10); lia|]. split; [apply Z.div_pos; lia|apply Z.div_lt_upper_bound; lia].
Qed.

Lemma decimal_acc fuel n acc : decimal fuel n acc = decimal fuel n [] ++ acc.
Proof.
  revert n acc. induction fuel as [|fuel IH]; intros n acc; [done|]. cbn [decimal]. case_match; [done|].
  rewrite IH, (IH (n / 10) [_]), <- app_assoc. done.
Qed.

Lemma decimal_dig k fuel n : (k <= fuel)%nat -> (0 < k)%nat -> 0 <= n < 10 ^ Z.of_nat k ->
  (length (decimal fuel n []) <= k)%nat /\
  replicate (k - length (decimal fuel n [])) 48 ++ decimal fuel n [] = dig k n.
Proof.
  revert fuel n. induction k as [|k IH]; intros fuel n Hf Hk Hn; [lia|]. destruct fuel as [|fuel]; [lia|].
  cbn [decimal dig]. rewrite pow10_S in Hn. destruct (Z.eqb_spec (n / 10) 0) as [E|E].
  - rewrite E, dig_zero. cbn [length]. split; [lia|]. by rewrite Nat.sub_succ, Nat.sub_0_r.
  - rewrite decimal_acc, length_app. cbn [length]. destruct k as [|k].
    { cbn in Hn. rewrite Z.div_small in E by lia. done. }
    destruct (IH fuel (n / 10)) as [Hl Heq]; [lia|lia|split; [apply Z.div_pos; lia|apply Z.div_lt_upper_bound; lia]|].
    split; [lia|]. rewrite <- Heq, <- app_assoc. do 2 f_equal. lia.
Qed.

Lemma padded_dig n : 0 <= n <= 18446744073709551615 -> padded SEQUENCE_DIGITS n = dig 20 n.
Proof. intros Hn. unfold padded, SEQUENCE_DIGITS. apply (decimal_dig 20 20 n); [lia|lia|]. cbn. lia. Qed.

(** The loop writes the digits over whatever is there. *)
Lemma write_digits pre w suf n k : length w = k ->
  foldl write_digit (pre ++ w ++ suf, n) (rev (seq (length pre) k)) = (pre ++ dig k n ++ suf, n / 10 ^ Z.of_nat k).
Proof.
  revert w suf n. induction k as [|k IH]; intros w suf n Hw.
  - destruct w; [|done]. cbn. by rewrite Z.div_1_r.
  - destruct w as [|x w _] using rev_ind; [done|]. rewrite length_app in Hw. cbn in Hw.
    rewrite seq_S, rev_app_distr. cbn [rev app foldl]. unfold write_digit at 2. cbn [fst snd].
    replace (pre ++ (w ++ [x]) ++ suf) with ((pre ++ w) ++ x :: suf) by (rewrite <- !app_assoc; done).
    rewrite insert_app_r_alt by (rewrite length_app; lia).
    replace (length pre + k - length (pre ++ w))%nat with 0%nat by (rewrite length_app; lia). cbn [list_insert].
    replace ((pre ++ w) ++ <[0%nat:=48 + n mod 10]> (x :: suf)) with (pre ++ w ++ ((48 + n mod 10) :: suf))
      by (rewrite <- app_assoc; done).
    rewrite IH by lia. cbn [dig]. rewrite <- !app_assoc. f_equal.
    rewrite pow10_S, Z.div_div by (try apply Z.pow_pos_nonneg; lia). done.
Qed.

(** ** Hexadecimal text *)
(** A fact about the numbers below a bound, by evaluation. *)
Lemma below_by_cases (n : nat) (p : Z -> bool) :
  forallb p (Z.of_nat <$> seq 0 n) = true -> forall b, 0 <= b < Z.of_nat n -> p b = true.
Proof.
  rewrite forallb_forall. intros H b Hb. apply H, list_elem_of_In, list_elem_of_fmap. exists (Z.to_nat b).
  split; [lia|]. apply elem_of_seq. lia.
Qed.

Lemma hex_pair_digits b : 0 <= b < 256 -> hex_pair (hex_digit (b / 16)) (hex_digit (b mod 16)) = Ok b.
Proof.
  intros Hb. pose proof (below_by_cases 256 (fun b => match hex_pair (hex_digit (b / 16)) (hex_digit (b mod 16)) with
    | Ok c => c =? b | Err _ => false end) ltac:(vm_compute; reflexivity) b Hb) as H. cbn beta in H.
  destruct (hex_pair _ _) as [c|]; [|done]. apply Z.eqb_eq in H. by subst.
Qed.

Lemma hex_bytes_display bytes : Forall (fun b => 0 <= b < 256) bytes ->
  hex_bytes (flat_map (fun b => [hex_digit (b / 16); hex_digit (b mod 16)]) bytes) = Ok bytes.
Proof. induction 1 as [|b l Hb _ IH]; [done|]. cbn [flat_map app hex_bytes]. by rewrite hex_pair_digits, IH. Qed.

Lemma hex_digit_range d : 0 <= d < 16 -> (48 <= hex_digit d <= 57) \/ (97 <= hex_digit d <= 102).
Proof. intros Hd. unfold hex_digit. destruct (Z.ltb_spec d 10); lia. Qed.

Lemma hex_text bytes : Forall (fun b => 0 <= b < 256) bytes ->
  let text := flat_map (fun b => [hex_digit (b / 16); hex_digit (b mod 16)]) bytes in
  str_bytes (hex_display bytes) = text /\ length text = (2 * length bytes)%nat /\
  forallb (fun b => is_ascii_digit b || ((97 <=? b) && (b <=? 102))) text = true.
Proof.
  intros Hb text. assert (Forall (fun b => (48 <= b <= 57) \/ (97 <= b <= 102)) text) as Hr.
  { subst text. induction Hb as [|b l Hb _ IH]; [constructor|]. cbn [flat_map app].
    repeat (apply list.Forall_cons; split); [apply hex_digit_range; split; [apply Z.div_pos; lia|apply Z.div_lt_upper_bound; lia]
      |apply hex_digit_range, Z.mod_pos_bound; lia|done]. }
  split_and!.
  - apply str_bytes_bytes_str. eapply list.Forall_impl; [exact Hr|]. cbn. intros. lia.
  - subst text. clear Hr. induction Hb as [|b l Hb _ IH]; [done|]. cbn. cbn in IH. rewrite IH. lia.
  - apply forallb_forall. intros b Hin. rewrite list.Forall_forall in Hr. apply list_elem_of_In in Hin.
    specialize (Hr b Hin). unfold is_ascii_digit. lia.
Qed.

(** A parsed commit is 20 bytes, and is read back from its text. *)
Lemma hex_value_range a h : hex_value a = Ok h -> 0 <= h < 16.
Proof. unfold hex_value. intros H. repeat case_match; try done; injection H as <-; lia. Qed.

Lemma hex_pair_range a b c : hex_pair a b = Ok c -> 0 <= c < 256.
Proof.
  unfold hex_pair. rewrite result_bind_Ok. intros (h & Hh%hex_value_range & (l & Hl%hex_value_range & [= <-])%result_bind_Ok).
  assert (forallb (fun h => forallb (fun l => (0 <=? Z.lor (Z.shiftl h 4) l) && (Z.lor (Z.shiftl h 4) l <? 256))
    (Z.of_nat <$> seq 0 16)) (Z.of_nat <$> seq 0 16) = true) as Hall by (vm_compute; reflexivity).
  pose proof (below_by_cases 16 _ (below_by_cases 16 _ Hall h Hh) l Hl) as Hc. cbn beta in Hc. lia.
Qed.

Lemma hex_bytes_range l bytes : hex_bytes l = Ok bytes -> Forall (fun b => 0 <= b < 256) bytes.
Proof.
  revert l bytes. fix IH 1. intros [|a [|b l]] bytes; cbn [hex_bytes]; [intros [= <-]; constructor..|].
  intros (c & Hc%hex_pair_range & (cs & Hcs%IH & [= <-])%result_bind_Ok)%result_bind_Ok. by constructor.
Qed.

Lemma hex_bytes_length l bytes n : hex_bytes l = Ok bytes -> length l = (2 * n)%nat -> length bytes = n.
Proof.
  revert l bytes. induction n as [|n IH]; intros l bytes H Hl; [destruct l; [|done]; by injection H as <-|].
  destruct l as [|a [|b l]]; [cbn in Hl; lia..|]. cbn [hex_bytes] in H.
  apply result_bind_Ok in H as (c & _ & (cs & Hcs & [= <-])%result_bind_Ok). cbn in Hl |- *. f_equal.
  apply (IH l); [done|lia].
Qed.

Definition commit_bytes (c : list Z) : Prop := length c = 20%nat /\ Forall (fun b => 0 <= b < 256) c.

Lemma GitCommit_parsed value c : GitCommit_parse value = Ok c -> commit_bytes c.
Proof.
  unfold GitCommit_parse. destruct (_ || _) eqn:E; [done|]. intros H.
  rewrite orb_false_iff, !negb_false_iff, Z.eqb_eq in E. destruct E as [Hl _]. split; [|by eapply hex_bytes_range].
  eapply hex_bytes_length; [exact H|]. unfold zlen in Hl. lia.
Qed.

Lemma GitCommit_display c : commit_bytes c -> GitCommit_parse (hex_display c) = Ok c.
Proof.
  intros [Hl Hb]. destruct (hex_text c Hb) as (Ht & Hlen & Hd). unfold GitCommit_parse.
  rewrite Ht, Hd. unfold zlen. rewrite Hlen, Hl. cbn [negb orb Z.eqb]. by rewrite hex_bytes_display.
Qed.

Lemma digest_display d : length d = 32%nat -> Forall (fun b => 0 <= b < 256) d -> decode_digest (hex_display d) = Ok d.
Proof.
  intros Hl Hb. destruct (hex_text d Hb) as (Ht & Hlen & _). unfold decode_digest.
  rewrite Ht. unfold zlen. rewrite Hlen, Hl. cbn [negb Z.eqb]. unfold decode_invalid. by rewrite hex_bytes_display.
Qed.

(** ** Sequence numbers *)
Lemma sequence_bytes n : 0 <= n <= 18446744073709551615 -> str_bytes (sequence_text n) = dig 20 n.
Proof.
  intros Hn. unfold sequence_text. rewrite padded_dig by done. apply str_bytes_bytes_str.
  eapply list.Forall_impl; [apply dig_digits|]. unfold is_ascii_digit. intros. lia.
Qed.

Lemma decode_sequence_text n : 0 < n <= 18446744073709551615 -> decode_sequence (sequence_text n) = Ok n.
Proof.
  intros Hn. unfold decode_sequence. rewrite sequence_bytes by lia. rewrite dig_length, dig_value by (cbn; lia).
  assert (forallb is_ascii_digit (dig 20 n) = true) as ->.
  { apply forallb_forall. intros b Hb. apply list_elem_of_In in Hb. revert b Hb. apply list.Forall_forall, dig_digits. }
  cbn [negb orb]. rewrite (proj2 (Z.ltb_ge _ _)), (proj2 (Z.eqb_neq n 0)) by lia.
  by rewrite bool_decide_eq_true_2.
Qed.

(** ** Codes *)
Lemma decode_level_code x : decode_level (level_code x) = Ok x.
Proof. by destruct x. Qed.
Lemma decode_component_code x : decode_component (component_code x) = Ok x.
Proof. by destruct x. Qed.
Lemma decode_event_code_code x : decode_event_code (event_code x) = Ok x.
Proof. by destruct x. Qed.
Lemma decode_protocol_code x : decode_protocol (protocol_code x) = Ok x.
Proof. by destruct x. Qed.
Lemma decode_transition_code x : decode_transition (transition_code x) = Ok x.
Proof. by destruct x. Qed.
Lemma decode_retry_code x : decode_retry (retry_code x) = Ok x.
Proof. by destruct x. Qed.
Lemma decode_failover_code x : decode_failover (failover_code x) = Ok x.
Proof. by destruct x. Qed.
Lemma decode_stage_code x : decode_stage (stage_code x) = Ok x.
Proof. by destruct x. Qed.
Lemma decode_error_code_code x : decode_error_code (diagnostic_error_code x) = Ok x.
Proof. by destruct x. Qed.
Lemma decode_error_source_code x : decode_error_source (error_source_code x) = Ok x.
Proof. by destruct x. Qed.
Lemma decode_platform_code x : decode_platform (platform_code x) = Ok x.
Proof. by destruct x. Qed.

Create HintDb codes.
#[export] Hint Rewrite decode_level_code decode_component_code decode_event_code_code decode_protocol_code
  decode_transition_code decode_retry_code decode_failover_code decode_stage_code decode_error_code_code
  decode_error_source_code decode_platform_code : codes.

(** ** Structures *)
Lemma read_struct_exact names entries : entries.*1 = names -> NoDup names ->
  read_struct names (VObject entries) = Some (Some <$> entries.*2).
Proof.
  intros <- Hnd. cbn. rewrite bool_decide_eq_true_2, andb_true_r by done.
  assert (forallb (fun k => bool_decide (k ∈ entries.*1)) entries.*1 = true) as ->.
  { apply forallb_forall. intros k Hk. apply bool_decide_eq_true. by apply list_elem_of_In. }
  f_equal. assert (forall l, (forall e, e ∈ l -> e ∈ entries) ->
    (fun name => entries_get name entries) <$> l.*1 = Some <$> l.*2) as Hgen; [|by apply Hgen].
  induction l as [|[k v] l IH]; intros Hl; [done|]. cbn. f_equal.
  - unfold entries_get. rewrite (find_key_NoDup entries k v); [done|done|]. apply Hl. by left.
  - apply IH. intros e He. apply Hl. by right.
Qed.

(** Reading a structure the writer wrote. *)
Ltac read_written :=
  rewrite read_struct_exact;
  [ cbn [fmap list_fmap fst snd mbind option_bind]
  | reflexivity | apply (bool_decide_unpack _); vm_compute; exact I ].

Lemma required_Some {A} (read : Value -> option A) v a : read v = Some a -> required read (Some v) = Some a.
Proof. done. Qed.

Lemma required_text text : required as_str (Some (VString text)) = Some text.
Proof. done. Qed.

Lemma read_uint_Some maximum n : n <= maximum -> read_uint maximum (json_uint n) = Some n.
Proof. intros Hn. unfold read_uint. cbn. by rewrite (proj2 (Z.leb_le _ _)). Qed.

Definition u64 (n : Z) : Prop := 0 <= n <= 18446744073709551615.

Lemma read_u64_Some n : u64 n -> read_u64 (json_uint n) = Some n.
Proof. intros [_ Hn]. by apply read_uint_Some. Qed.

(** A field written for an option is read as one, if what is written is not null. *)
Lemma nullable_optional {A B} (read : Value -> option B) (write : A -> Value) (f : A -> B) o :
  (forall a, o = Some a -> read (write a) = Some (f a)) -> (forall a, write a <> VNull) ->
  nullable read (Some (optional write o)) = Some (f <$> o).
Proof.
  intros Hr Hn. destruct o as [a|]; cbn; [|done]. specialize (Hr a eq_refl). specialize (Hn a).
  destruct (write a); try done; cbn; by rewrite Hr.
Qed.

Lemma nullable_text o : nullable as_str (Some (optional VString o)) = Some o.
Proof. by destruct o. Qed.

Section Decoding.
Context `{HD : DiagnosticCrates, HJ : DiagnosticJson, HC : CryptoCrate}.

(** What the wire structures hold of each part. *)
Definition wire_correlations (c : Correlations) : DecodeCorrelations :=
  mkDecodeCorrelations (co_request_id c) (co_trace_id c) (co_attempt_id c) (co_client_id c)
    (uuid_hyphenated <$> co_parent_event_id c) (co_opaque_session_id c).

Lemma read_correlations_value c : read_correlations (correlations_value c) = Some (wire_correlations c).
Proof.
  unfold read_correlations, correlations_value. read_written. rewrite !nullable_text. cbn [mbind option_bind].
  rewrite (nullable_optional as_str _ uuid_hyphenated); [|done|done]. by destruct c.
Qed.

Definition build_ok (b : BuildIdentity) : Prop :=
  WokcoreVersion_parse (bi_wokcore_version b) = Ok (bi_wokcore_version b) /\ commit_bytes (bi_git_commit b) /\
  0 <= bi_api_major b <= 65535 /\ 0 <= bi_capability_version b <= 4294967295.

Definition wire_build (b : BuildIdentity) : DecodeBuild :=
  mkDecodeBuild (bi_wokcore_version b) (hex_display (bi_git_commit b)) (bi_api_major b) (bi_capability_version b).

Lemma read_build_value b : build_ok b -> read_build (build_value b) = Some (wire_build b).
Proof.
  intros (_ & _ & Ha & Hc). unfold read_build, build_value. read_written.
  rewrite (required_Some (read_uint 65535) _ (bi_api_major b)), (required_Some (read_uint 4294967295) _ (bi_capability_version b))
    by (apply read_uint_Some; lia). done.
Qed.

Lemma build_of_wire b : build_ok b -> build_of (wire_build b) = Ok b.
Proof.
  intros (Hv & Hg & _). unfold build_of, wire_build. cbn [db_wokcore_version db_git_commit db_api_major db_capability_version].
  rewrite Hv, GitCommit_display by done. by destruct b.
Qed.

Definition wire_provider (p : ProviderContext) : DecodeProvider :=
  mkDecodeProvider (protocol_code (pv_protocol p)) (pv_model p) (pv_route p) (pv_opaque_account_id p).

Lemma read_provider_value p : read_provider (provider_value p) = Some (wire_provider p).
Proof.
  unfold read_provider, provider_value. read_written. rewrite !nullable_text. done.
Qed.

Definition wire_decision (d : DiagnosticDecision) : DecodeDecision :=
  mkDecodeDecision (transition_code (de_state_transition d)) (retry_code (de_retry d)) (failover_code (de_failover d)).

Lemma read_decision_value d : read_decision (decision_value d) = Some (wire_decision d).
Proof. unfold read_decision, decision_value. by read_written. Qed.

Lemma decision_of_wire d : decision_of (wire_decision d) = Ok d.
Proof. destruct d. unfold decision_of, wire_decision. cbn. by autorewrite with codes. Qed.

Definition tokens_ok (t : TokenCounts) : Prop :=
  u64 (tc_input t) /\ u64 (tc_output t) /\ u64 (tc_cached t) /\ u64 (tc_reasoning t).

Ltac read_counts :=
  repeat (erewrite (required_Some read_u64) by (apply read_u64_Some; eassumption); cbn [mbind option_bind]).

Lemma read_tokens_value t : tokens_ok t -> read_tokens (tokens_value t) = Some t.
Proof. intros (? & ? & ? & ?). unfold read_tokens, tokens_value. read_written. read_counts. by destruct t. Qed.

Definition measurements_ok (m : Measurements) : Prop :=
  u64 (me_duration_micros m) /\ u64 (me_request_bytes m) /\ u64 (me_response_bytes m) /\ tokens_ok (me_tokens m).

Definition wire_measurements (m : Measurements) : DecodeMeasurements :=
  mkDecodeMeasurements (stage_code (me_stage m)) (me_duration_micros m) (me_request_bytes m) (me_response_bytes m) (me_tokens m).

Lemma read_measurements_value m : measurements_ok m -> read_measurements (measurements_value m) = Some (wire_measurements m).
Proof.
  intros (? & ? & ? & ?). unfold read_measurements, measurements_value. read_written.
  rewrite required_text. cbn [mbind option_bind]. read_counts.
  by erewrite (required_Some read_tokens) by (apply read_tokens_value; eassumption).
Qed.

Lemma measurements_of_wire m : measurements_of (wire_measurements m) = Ok m.
Proof. destruct m. unfold measurements_of, wire_measurements. cbn. by autorewrite with codes. Qed.

Definition drop_ok (c : DiagnosticDropCounts) : Prop :=
  u64 (dc_ingress_full c) /\ u64 (dc_ingress_closed c) /\ u64 (dc_writer_failures c) /\ u64 (dc_invalid_events c) /\
  u64 (dc_oversized_events c).

Lemma read_drop_value c : drop_ok c -> read_drop (drop_value c) = Some c.
Proof. intros (? & ? & ? & ? & ?). unfold read_drop, drop_value. read_written. read_counts. by destruct c. Qed.

Definition redaction_ok (r : RedactionCounts) : Prop :=
  u64 (rc_authorization_values_removed r) /\ u64 (rc_cookie_values_removed r) /\ u64 (rc_body_values_removed r) /\
  u64 (rc_path_values_removed r) /\ u64 (rc_token_values_removed r) /\ u64 (rc_credential_values_removed r).

Lemma read_redaction_value r : redaction_ok r -> read_redaction (redaction_value r) = Some r.
Proof. intros (? & ? & ? & ? & ? & ?). unfold read_redaction, redaction_value. read_written. read_counts. by destruct r. Qed.

(** A bounded list of written values is read element by element. *)
Lemma bounded_sequence_written {A B} maximum (read : Value -> option B) (write : A -> Value) (f : A -> B) l :
  zlen l <= maximum -> Forall (fun a => read (write a) = Some (f a)) l ->
  bounded_sequence maximum read (VArray (write <$> l)) = Some (f <$> l).
Proof.
  intros Hl Hr. unfold bounded_sequence. cbn [as_array mbind option_bind]. unfold zlen in *. rewrite length_fmap.
  rewrite (proj2 (Z.leb_le _ _)) by done. induction Hr as [|a l Ha _ IH]; [done|].
  cbn in *. rewrite Ha. cbn. rewrite IH by lia. done.
Qed.

Definition error_ok (e : DiagnosticError) : Prop := zlen (er_source_chain e) <= MAX_ERROR_SOURCE_CHAIN.

Definition wire_error (e : DiagnosticError) : DecodeError :=
  mkDecodeError (diagnostic_error_code (er_code e)) (error_source_code <$> er_source_chain e) (platform_code (er_platform e)).

Lemma read_error_value e : error_ok e -> read_error (error_value e) = Some (wire_error e).
Proof.
  intros He. unfold read_error, error_value. read_written.
  rewrite required_text. cbn [mbind option_bind].
  rewrite (required_Some _ _ _ (bounded_sequence_written _ as_str (fun s => VString (error_source_code s)) error_source_code
    (er_source_chain e) He ltac:(by apply list.Forall_true))). done.
Qed.

Lemma error_of_wire e : error_of (wire_error e) = Ok e.
Proof.
  destruct e as [code chain platform]. unfold error_of, wire_error. cbn [der_source_chain der_code der_platform er_code er_source_chain er_platform].
  assert (try_map decode_error_source (error_source_code <$> chain) = Ok chain) as ->.
  { induction chain as [|s chain IH]; [done|]. cbn. autorewrite with codes. by rewrite IH. }
  cbn. by autorewrite with codes.
Qed.
End Decoding.

(** ** Bytes and characters *)
Definition rust_str (s : string) : Prop := utf8_valid (str_bytes s) = true.

(** Valid text, character by character. *)
Inductive utf8_text : list Z -> Prop :=
| text_nil : utf8_text []
| text_one b r : 0 <= b < 128 -> utf8_text r -> utf8_text (b :: r)
| text_two b c r : 194 <= b <= 223 -> utf8_cont c = true -> utf8_text r -> utf8_text (b :: c :: r)
| text_three b c d r : 224 <= b <= 239 -> utf8_second3 b c = true -> utf8_cont d = true -> utf8_text r ->
    utf8_text (b :: c :: d :: r)
| text_four b c d e r : 240 <= b <= 244 -> utf8_second4 b c = true -> utf8_cont d = true -> utf8_cont e = true ->
    utf8_text r -> utf8_text (b :: c :: d :: e :: r).

Lemma utf8_valid_text : forall l, utf8_valid l = true -> utf8_text l.
Proof.
  fix IH 1. intros [|b r]; [constructor|]. cbn [utf8_valid].
  destruct ((0 <=? b) && (b <? 128)) eqn:E1; [intros H; apply text_one; [lia|by apply IH]|].
  destruct ((194 <=? b) && (b <=? 223)) eqn:E2.
  { destruct r as [|c r]; [done|]. intros [Hc Hr]%andb_true_iff. apply text_two; [lia|done|by apply IH]. }
  destruct ((224 <=? b) && (b <=? 239)) eqn:E3.
  { destruct r as [|c [|d r]]; [done..|]. intros [[Hc Hd]%andb_true_iff Hr]%andb_true_iff.
    apply text_three; [lia|done..|by apply IH]. }
  destruct ((240 <=? b) && (b <=? 244)) eqn:E4; [|done].
  destruct r as [|c [|d [|e r]]]; [done..|]. intros [[[Hc Hd]%andb_true_iff He]%andb_true_iff Hr]%andb_true_iff.
  apply text_four; [lia|done..|by apply IH].
Qed.

Lemma utf8_cont_range b : utf8_cont b = true -> 128 <= b <= 191.
Proof. unfold utf8_cont. lia. Qed.

(** An ASCII byte of a text is a character of it. *)
Lemma ascii_char_at l b : utf8_valid l = true -> 0 <= b < 128 -> b ∈ l -> b ∈ chars l.
Proof.
  intros Hl%utf8_valid_text Hb. induction Hl; intros Hin; [by apply elem_of_nil in Hin|..]; cbn [chars];
    repeat match goal with
    | H : utf8_second3 _ _ = true |- _ => apply utf8_second3_cont in H
    | H : utf8_second4 _ _ = true |- _ => apply utf8_second4_cont in H
    end;
    repeat match goal with H : utf8_cont _ = true |- _ => apply utf8_cont_range in H end;
    repeat (rewrite elem_of_cons in Hin); repeat (case_match; try lia); apply elem_of_cons;
    repeat match type of Hin with _ \/ _ => destruct Hin as [Hin|Hin] end; try lia; auto.
Qed.

(** A text cut between two characters is a text. *)
Lemma utf8_take l n : utf8_valid l = true -> char_boundary l n = true -> utf8_valid (take n l) = true.
Proof.
  intros Hl%utf8_valid_text. unfold char_boundary.
  revert n. induction Hl as [|b r ? ? IH|b c r Hb Hc ? IH|b c d r Hb Hc Hd ? IH|b c d e r Hb Hc Hd He ? IH]; intros n Hn.
  - by destruct n.
  - destruct n as [|n]; [done|]. cbn [take]. rewrite utf8_valid_ascii_cons by (unfold is_ascii_byte; lia). by apply IH.
  - destruct n as [|[|n]]; [done|cbn in Hn; unfold utf8_cont in *; lia|].
    cbn [take utf8_valid]. rewrite Hc, IH by done. repeat case_match; try done; lia.
  - pose proof (utf8_second3_cont _ _ Hc). destruct n as [|[|[|n]]]; [done|cbn in Hn; unfold utf8_cont in *; lia..|].
    cbn [take utf8_valid]. rewrite Hc, Hd, IH by done. repeat case_match; try done; lia.
  - pose proof (utf8_second4_cont _ _ Hc). destruct n as [|[|[|[|n]]]]; [done|cbn in Hn; unfold utf8_cont in *; lia..|].
    cbn [take utf8_valid]. rewrite Hc, Hd, He, IH by done. repeat case_match; try done; lia.
Qed.

Lemma retreat_spec l n : char_boundary l 0 = true ->
  (retreat l n <= n)%nat /\ char_boundary l (retreat l n) = true /\
  (forall p, (p <= n)%nat -> char_boundary l p = true -> (p <= retreat l n)%nat).
Proof.
  intros H0. induction n as [|n (Hle & Hc & Hlow)]; cbn [retreat]; [split_and!; [lia|done|lia]|].
  destruct (char_boundary l (S n)) eqn:E; [split_and!; [lia|done|lia]|]. split_and!; [lia|done|].
  intros p Hp Hpc. destruct (decide (p = S n)) as [->|]; [congruence|]. apply Hlow; [lia|done].
Qed.

(** ** Parts separated by a byte *)
Fixpoint joined (sep : Z) (parts : list (list Z)) : list Z :=
  match parts with
  | [] => []
  | [p] => p
  | p :: parts => p ++ sep :: joined sep parts
  end.

Lemma split_joined sep parts : parts <> [] -> Forall (fun p => sep ∉ p) parts ->
  split_bytes sep (joined sep parts) = parts.
Proof.
  unfold split_bytes. induction parts as [|p parts IH]; intros Hne Hf; [done|]. inversion_clear Hf as [|?? Hp Hps].
  destruct parts as [|q parts]; [cbn [joined]; by rewrite split_at_free|].
  change (joined sep (p :: q :: parts)) with (p ++ sep :: joined sep (q :: parts)).
  rewrite split_at_cut by done. cbn [app]. by rewrite IH.
Qed.

Lemma joined_snoc sep parts p : parts <> [] -> joined sep (parts ++ [p]) = joined sep parts ++ sep :: p.
Proof.
  induction parts as [|q parts IH]; intros Hne; [done|]. destruct parts as [|r parts]; [done|].
  change (joined sep ((q :: r :: parts) ++ [p])) with (q ++ sep :: joined sep ((r :: parts) ++ [p])).
  rewrite IH by done. change (joined sep (q :: r :: parts)) with (q ++ sep :: joined sep (r :: parts)).
  by rewrite <- app_assoc.
Qed.

(** What is left of the parts when their text is cut. *)
Lemma split_cut sep parts n : parts <> [] -> Forall (fun p => sep ∉ p) parts ->
  exists whole p k, whole ++ [p] `prefix_of` parts /\ split_bytes sep (take n (joined sep parts)) = whole ++ [take k p].
Proof.
  intros Hne Hf. revert n. induction parts as [|q parts IH]; intros n; [done|]. inversion_clear Hf as [|?? Hq Hps].
  assert (forall k, sep ∉ take k q) as Htake by (intros k Hin; apply Hq; rewrite <- (take_drop k q); apply elem_of_app; by left).
  destruct parts as [|r parts].
  - exists [], q, n. split; [by exists []|]. cbn [joined]. unfold split_bytes. by rewrite split_at_free.
  - change (joined sep (q :: r :: parts)) with (q ++ sep :: joined sep (r :: parts)).
    destruct (decide (n <= length q)%nat) as [Hn|Hn].
    + exists [], q, n. split; [by exists (r :: parts)|]. rewrite take_app_le by done. unfold split_bytes. by rewrite split_at_free.
    + destruct (IH ltac:(done) Hps (n - length q - 1)%nat) as (whole & p & k & [more Hpre] & Heq).
      exists (q :: whole), p, k. split; [exists more; by rewrite Hpre|].
      rewrite take_app_ge by lia. replace (n - length q)%nat with (S (n - length q - 1)) by lia. cbn [take].
      unfold split_bytes in *. rewrite split_at_cut by done. cbn [app]. by rewrite Heq.
Qed.

Lemma position_skip needle x l : ~ needle `prefix_of` x :: l -> position_of needle (x :: l) = S <$> position_of needle l.
Proof. intros H. cbn [position_of]. by rewrite bool_decide_eq_false_2. Qed.

Lemma position_free b o a l : b ∉ a -> position_of (b :: o) (a ++ l) = Nat.add (length a) <$> position_of (b :: o) l.
Proof.
  induction a as [|x a IH]; intros Hf; [cbn [app length]; by destruct (position_of (b :: o) l)|]. rewrite not_elem_of_cons in Hf.
  cbn [app]. rewrite position_skip, IH by (try (intros [? [=]]); naive_solver).
  by destruct (position_of _ l).
Qed.

Lemma position_at needle l : position_of needle (needle ++ l) = Some 0%nat.
Proof. destruct (needle ++ l) as [|x r] eqn:E; cbn [position_of]; by rewrite bool_decide_eq_true_2 by (rewrite <- E; by exists l). Qed.

(** The last separator is found, whatever the parts before it hold. *)
Lemma position_joined b c o parts l : parts <> [] -> Forall (fun p => b ∉ p) parts ->
  Forall (fun p => exists x q, p = x :: q /\ x <> c) (tail parts) ->
  position_of (b :: c :: o) (joined b parts ++ (b :: c :: o) ++ l) = Some (length (joined b parts)).
Proof.
  induction parts as [|p parts IH]; intros Hne Hf Ht; [done|]. inversion_clear Hf as [|?? Hp Hps]. cbn [tail] in Ht.
  destruct parts as [|q parts].
  - cbn [joined]. rewrite position_free, position_at by done. cbn. f_equal. lia.
  - change (joined b (p :: q :: parts)) with (p ++ b :: joined b (q :: parts)).
    rewrite <- app_assoc, position_free by done. rewrite <- app_comm_cons, position_skip.
    + rewrite IH; [|done|done|by inversion Ht]. cbn. rewrite length_app. cbn. by f_equal.
    + inversion_clear Ht as [|?? (x & q' & -> & Hx) Hts]. destruct parts; cbn; intros [? [=]]; congruence.
Qed.

Definition uuid_bytes (id : list Z) : Prop := length id = 16%nat /\ Forall (fun b => 0 <= b < 256) id.

(** What the crates document: a character below 128 is alphanumeric if it is an
    ASCII letter or digit, a UUID is read back from its hyphenated text, and a
    digest is 32 bytes. *)
Class DiagnosticLaws `{DiagnosticCrates, CryptoCrate} : Prop := {
  alphanumeric_ascii : forall c, 0 <= c < 128 -> char_alphanumeric c = is_ascii_alphanumeric c;
  uuid_round_trip : forall id, uuid_bytes id -> uuid_parse_str (uuid_hyphenated id) = Some id;
  uuid_text : forall id, uuid_bytes id -> rust_str (uuid_hyphenated id);
  sha256_bytes : forall s, length (sha256_digest s) = 32%nat /\ Forall (fun b => 0 <= b < 256) (sha256_digest s)
}.

(** ** Structural summaries *)
Section Summaries.
Context `{HD : DiagnosticCrates, HJ : DiagnosticJson, HC : CryptoCrate, HL : !DiagnosticLaws}.

Definition identifier_ok (maximum : Z) (s : string) : Prop := identifier_parse maximum s = Ok s /\ rust_str s.

Lemma identifier_free maximum s : identifier_ok maximum s -> 59 ∉ str_bytes s.
Proof using HC HD HL.
  intros [Hp Hu] Hin. unfold identifier_parse in Hp. destruct (valid_identifier s maximum) eqn:E; [|done].
  unfold valid_identifier in E. apply andb_true_iff in E as [_ Hall]. rewrite forallb_forall in Hall.
  assert (identifier_char 59 = true) as Hc by (apply Hall, list_elem_of_In, ascii_char_at; [done|lia|done]).
  unfold identifier_char in Hc. rewrite alphanumeric_ascii in Hc by lia. by vm_compute in Hc.
Qed.

Definition input_ok (input : StructuralSummaryInput) : Prop :=
  zlen (si_observations input) <= MAX_STRUCTURAL_OBSERVATIONS /\
  forall m, si_model input = Some m -> identifier_ok 128 m.

(** The parts of a summary before its observations. *)
Definition header_parts (input : StructuralSummaryInput) : list string :=
  ["protocol=" +:+ protocol_code (si_protocol input); "stage=" +:+ stage_code (si_stage input);
   "retry=" +:+ retry_code (si_retry input); "failover=" +:+ failover_code (si_failover input);
   "streaming=" +:+ (if si_streaming input then "true" else "false");
   "platform=" +:+ platform_code (si_platform input); "model=" +:+ default "unavailable"%string (si_model input)].

Definition observation_parts (l : list StructuralObservation) : list (list Z) :=
  if is_emptyb l then [str_bytes "none"] else (fun o => str_bytes (observation_code o)) <$> l.

Lemma header_bytes input : str_bytes (summary_header input) = joined 59 (str_bytes <$> header_parts input).
Proof. unfold summary_header, header_parts. cbn [fmap list_fmap joined]. rewrite !str_bytes_app, <- ?app_assoc. done. Qed.

Lemma observations_bytes l :
  str_bytes (if is_emptyb l then "none"%string else join_observations l) = joined 124 (observation_parts l).
Proof.
  destruct l as [|o l]; [done|]. unfold observation_parts. cbn [is_emptyb]. revert o.
  induction l as [|q l IH]; intros o; [done|]. change (join_observations (o :: q :: l))
    with (observation_code o +:+ "|" +:+ join_observations (q :: l)).
  rewrite !str_bytes_app, IH. done.
Qed.

Lemma summary_bytes input : str_bytes (summary_text input) =
  joined 59 (str_bytes <$> header_parts input) ++ str_bytes ";observations=" ++ joined 124 (observation_parts (si_observations input)).
Proof. unfold summary_text. by rewrite !str_bytes_app, header_bytes, observations_bytes. Qed.

Lemma observation_parts_plain l : observation_parts l <> [] /\
  Forall (fun p => 124 ∉ p /\ 59 ∉ p /\ (p = str_bytes "none" \/ p ∈ str_bytes <$> observation_texts)) (observation_parts l) /\
  (l <> [] -> Forall (fun p => p ∈ str_bytes <$> observation_texts) (observation_parts l)).
Proof.
  assert (forall o, 124 ∉ str_bytes (observation_code o) /\ 59 ∉ str_bytes (observation_code o) /\
    str_bytes (observation_code o) ∈ str_bytes <$> observation_texts) as Hcode.
  { intros o. split_and!; [destruct o; apply (bool_decide_unpack _); vm_compute; exact I..|].
    apply list_elem_of_fmap. exists (observation_code o). split; [done|].
    destruct o; unfold observation_texts; cbn [observation_code]; repeat (first [by left|right]). }
  unfold observation_parts. destruct l as [|o l].
  - split_and!; [done| |done]. apply list.Forall_singleton.
    split_and!; [apply (bool_decide_unpack _); vm_compute; exact I..|by left].
  - cbn [is_emptyb]. split_and!; [done|apply list.Forall_fmap, list.Forall_true; intros q; cbn; naive_solver|].
    intros _. apply list.Forall_fmap, list.Forall_true. intros q. cbn. naive_solver.
Qed.

Lemma joined_free sep b parts : b <> sep -> Forall (fun p => b ∉ p) parts -> b ∉ joined sep parts.
Proof.
  intros Hb. induction 1 as [|p parts Hp _ IH]; [by apply not_elem_of_nil|]. destruct parts as [|q parts]; [done|].
  change (joined sep (p :: q :: parts)) with (p ++ sep :: joined sep (q :: parts)).
  rewrite elem_of_app, elem_of_cons. naive_solver.
Qed.

Lemma header_parts_plain input : input_ok input ->
  Forall (fun p => 59 ∉ p) (str_bytes <$> header_parts input) /\
  Forall (fun p => exists x q, p = x :: q /\ x <> 111) (tail (str_bytes <$> header_parts input)).
Proof using HC HD HL.
  intros [_ Hm]. assert (59 ∉ str_bytes (default "unavailable"%string (si_model input))) as Hfree.
  { destruct (si_model input) as [m|]; [by eapply identifier_free, Hm|]. apply (bool_decide_unpack _); vm_compute; exact I. }
  unfold header_parts. cbn [fmap list_fmap tail]. rewrite !str_bytes_app. split.
  - repeat apply list.Forall_cons_2; [..|apply list.Forall_nil_2]; (rewrite not_elem_of_app; split;
      [apply (bool_decide_unpack _); vm_compute; exact I|]); [..|done];
      repeat match goal with |- context [?f input] => destruct (f input) end;
      apply (bool_decide_unpack _); vm_compute; exact I.
  - repeat apply list.Forall_cons_2; [..|apply list.Forall_nil_2]; (eexists _, _; split; [reflexivity|done]).
Qed.
Lemma field_part_app name text : field_part name (str_bytes (name +:+ text)) = Some text.
Proof.
  unfold field_part. rewrite str_bytes_app. assert (strip_bytes (str_bytes name) (str_bytes name ++ str_bytes text) = Some (str_bytes text)) as ->.
  { induction (str_bytes name) as [|b l IH]; [done|]. cbn. by rewrite Z.eqb_refl. }
  cbn. by rewrite bytes_str_inv.
Qed.

Lemma summary_with input rest : input_ok input -> 59 ∉ rest -> valid_structural_observations rest = true ->
  valid_structural_summary (joined 59 (str_bytes <$> header_parts input) ++ str_bytes ";observations=" ++ rest) = true.
Proof using HC HD HL.
  intros Hok Hfree Hrest. pose proof (header_parts_plain input Hok) as [Hparts _]. unfold valid_structural_summary.
  change (str_bytes ";observations=" ++ rest) with (59 :: (str_bytes "observations=" ++ rest)).
  rewrite <- joined_snoc, split_joined;
    [|by destruct (header_parts input)| |done].
  2: { apply list.Forall_app. split; [done|]. apply list.Forall_singleton. rewrite not_elem_of_app. split; [|done].
       apply (bool_decide_unpack _); vm_compute; exact I. }
  unfold header_parts. cbn [fmap list_fmap app]. rewrite !field_part_app.
  change (strip_bytes (str_bytes "observations=") (str_bytes "observations=" ++ rest)) with (Some rest).
  autorewrite with codes. rewrite Hrest, andb_true_r. cbn [is_ok andb].
  rewrite bool_decide_eq_true_2 by (destruct (si_streaming input); set_solver). cbn [andb].
  destruct Hok as [_ Hm]. destruct (si_model input) as [m|]; [|done]. cbn [default from_option].
  destruct (Hm m eq_refl) as [Hp _]. unfold ModelId_parse. change (id m) with m.
  rewrite Hp. apply orb_true_r.
Qed.

Lemma observation_parts_length l : 0 < zlen (observation_parts l) <= Z.max 1 (zlen l).
Proof. unfold observation_parts, zlen. destruct l; cbn; rewrite ?length_fmap; lia. Qed.

Lemma known_part part texts : part ∈ str_bytes <$> texts ->
  existsb (fun text => bool_decide (part = str_bytes text)) texts = true.
Proof.
  intros (t & -> & Ht)%list_elem_of_fmap. apply existsb_exists. exists t. split; [by apply list_elem_of_In|].
  by rewrite bool_decide_eq_true_2.
Qed.

Lemma observations_valid l : zlen l <= MAX_STRUCTURAL_OBSERVATIONS ->
  valid_structural_observations (joined 124 (observation_parts l)) = true.
Proof.
  intros Hl. destruct (observation_parts_plain l) as (Hne & Hall & Hknown). unfold valid_structural_observations.
  case_bool_decide as E; [done|]. rewrite split_joined; [|done|by eapply list.Forall_impl; [exact Hall|naive_solver]].
  pose proof (observation_parts_length l). unfold MAX_STRUCTURAL_OBSERVATIONS in *.
  rewrite (proj2 (Z.leb_le _ _)) by lia. cbn [andb]. apply forallb_forall. intros p Hp. apply known_part.
  destruct l as [|o l]; [by destruct E|]. specialize (Hknown ltac:(done)). rewrite list.Forall_forall in Hknown.
  by apply Hknown, list_elem_of_In.
Qed.

Lemma observations_prefix_valid l n : zlen l <= MAX_STRUCTURAL_OBSERVATIONS ->
  valid_structural_observations_prefix (take n (joined 124 (observation_parts l))) = true.
Proof.
  intros Hl. destruct (observation_parts_plain l) as (Hne & Hall & _). unfold valid_structural_observations_prefix.
  destruct (split_cut 124 (observation_parts l) n Hne) as (whole & p & k & [more Hpre] & ->);
    [by eapply list.Forall_impl; [exact Hall|naive_solver]|].
  pose proof (observation_parts_length l) as Hlen. rewrite Hpre in Hlen, Hall. unfold zlen, MAX_STRUCTURAL_OBSERVATIONS in *.
  rewrite !length_app in *. cbn [length] in *. rewrite (proj2 (Z.leb_le _ _)) by lia.
  rewrite removelast_last, List.last_last. rewrite !list.Forall_app, list.Forall_singleton in Hall.
  destruct Hall as [[Hwhole (_ & _ & Hp)] _].
  assert (forall q, q = str_bytes "none" \/ q ∈ str_bytes <$> observation_texts ->
    q ∈ str_bytes <$> ("none"%string :: observation_texts)) as Hin by (intros q; rewrite fmap_cons, elem_of_cons; done).
  apply andb_true_iff. split; [apply andb_true_iff; split; [done|]|].
  - apply forallb_forall. intros q Hq. apply known_part, Hin. rewrite list.Forall_forall in Hwhole.
    apply (Hwhole q). by apply list_elem_of_In.
  - apply Hin, list_elem_of_fmap in Hp as (t & -> & Ht). apply existsb_exists. exists t.
    split; [by apply list_elem_of_In|]. apply bool_decide_eq_true. apply prefix_take.
Qed.
Lemma identifier_length maximum s : identifier_ok maximum s -> zlen (str_bytes s) <= maximum.
Proof.
  intros [Hp _]. unfold identifier_parse in Hp. destruct (valid_identifier s maximum) eqn:E; [|done].
  unfold valid_identifier in E. rewrite !andb_true_iff in E. destruct E as [[_ E] _]. by apply Z.leb_le.
Qed.

Lemma header_length input : input_ok input ->
  Z.of_nat (length (joined 59 (str_bytes <$> header_parts input))) <= 400.
Proof using HC HD HL.
  intros [_ Hm].
  assert (zlen (str_bytes (default "unavailable"%string (si_model input))) <= 128) as Hmodel.
  { destruct (si_model input) as [m|]; [by apply identifier_length, Hm|]. by vm_compute. }
  unfold header_parts, zlen in *. cbn [fmap list_fmap joined]. rewrite !str_bytes_app.
  repeat (rewrite length_app; cbn [length]).
  assert (length (str_bytes (protocol_code (si_protocol input))) <= 18)%nat by (destruct (si_protocol input); vm_compute; lia).
  assert (length (str_bytes (stage_code (si_stage input))) <= 18)%nat by (destruct (si_stage input); vm_compute; lia).
  assert (length (str_bytes (retry_code (si_retry input))) <= 18)%nat by (destruct (si_retry input); vm_compute; lia).
  assert (length (str_bytes (failover_code (si_failover input))) <= 18)%nat by (destruct (si_failover input); vm_compute; lia).
  assert (length (str_bytes (if si_streaming input then "true" else "false")) <= 18)%nat by (destruct (si_streaming input); vm_compute; lia).
  assert (length (str_bytes (platform_code (si_platform input))) <= 18)%nat by (destruct (si_platform input); vm_compute; lia).
  assert (forall name, name ∈ ["protocol="; "stage="; "retry="; "failover="; "streaming="; "platform="; "model="]%string ->
    (length (str_bytes name) <= 10)%nat) as Hn.
  { apply list.Forall_forall. repeat apply list.Forall_cons_2; [vm_compute; lia..|apply list.Forall_nil_2]. }
  pose proof (Hn "protocol="%string ltac:(set_solver)). pose proof (Hn "stage="%string ltac:(set_solver)).
  pose proof (Hn "retry="%string ltac:(set_solver)). pose proof (Hn "failover="%string ltac:(set_solver)).
  pose proof (Hn "streaming="%string ltac:(set_solver)). pose proof (Hn "platform="%string ltac:(set_solver)).
  pose proof (Hn "model="%string ltac:(set_solver)). lia.
Qed.

(** Where the observations of a summary start. *)
Definition observations_start (input : StructuralSummaryInput) : nat :=
  (length (joined 59 (str_bytes <$> header_parts input)) + length (str_bytes ";observations="))%nat.

Lemma cut_summary_valid input n : input_ok input -> (observations_start input <= n)%nat ->
  valid_structural_summary_prefix (take n (str_bytes (summary_text input))) = true.
Proof using HC HD HL.
  intros Hok Hn. pose proof (header_parts_plain input Hok) as [Hparts Htail]. unfold observations_start in Hn.
  set (h := joined 59 (str_bytes <$> header_parts input)) in *. set (m := str_bytes ";observations=") in *.
  rewrite summary_bytes. fold h m. rewrite take_app_ge by lia. rewrite take_app_ge by lia.
  set (rest := take _ _). unfold valid_structural_summary_prefix, split_once_text. fold m.
  assert (position_of m (h ++ m ++ rest) = Some (length h)) as ->.
  { apply (position_joined 59 111 (drop 2 m)); done. }
  cbn [mbind option_bind]. rewrite take_app_length.
  rewrite (app_assoc h m rest), drop_app_length' by (by rewrite length_app).
  apply andb_true_iff. split; [|by apply observations_prefix_valid, Hok].
  apply (summary_with input (str_bytes "none")); [done| |done]. apply (bool_decide_unpack _); vm_compute; exact I.
Qed.

Lemma joined_utf8 sep parts : is_ascii_byte sep = true -> Forall (fun p => utf8_valid p = true) parts ->
  utf8_valid (joined sep parts) = true.
Proof.
  intros Hs. induction 1 as [|p parts Hp _ IH]; [done|]. destruct parts as [|q parts]; [done|].
  change (joined sep (p :: q :: parts)) with (p ++ sep :: joined sep (q :: parts)).
  apply utf8_valid_app; [done|]. by rewrite utf8_valid_ascii_cons.
Qed.

Lemma summary_rust_str input : input_ok input -> rust_str (summary_text input).
Proof.
  intros [_ Hm]. unfold rust_str. rewrite summary_bytes. apply utf8_valid_app; [|apply utf8_valid_app; [done|]].
  - apply joined_utf8; [done|]. unfold header_parts. cbn [fmap list_fmap]. rewrite !str_bytes_app.
    repeat apply list.Forall_cons_2; [..|apply list.Forall_nil_2]; (apply utf8_valid_app; [done|]);
      [repeat match goal with |- context [?f input] => destruct (f input) end; done..|].
    destruct (si_model input) as [m|]; [|done]. by destruct (Hm m eq_refl).
  - apply joined_utf8; [done|]. unfold observation_parts. destruct (si_observations input) as [|o l]; [by repeat constructor|].
    cbn [is_emptyb]. apply list.Forall_fmap, list.Forall_true. intros []; done.
Qed.

Lemma observations_head l : exists x r, joined 124 (observation_parts l) = x :: r /\ 0 <= x < 128.
Proof.
  unfold observation_parts. destruct l as [|o l]; [eexists _, _; split; [reflexivity|done]|]. cbn [is_emptyb].
  destruct l as [|q l]; destruct o; eexists _, _; (split; [reflexivity|done]).
Qed.
(** A summary built from a structural input. *)
Definition summary_ok (s : SafeSummary) : Prop :=
  exists input, input_ok input /\ from_already_safe (summary_text input) = Ok s.

Lemma from_already_safe_Ok text s : from_already_safe text = Ok s ->
  let retained := retreat (str_bytes text) (Z.to_nat (Z.min (zlen (str_bytes text)) MAX_SAFE_SUMMARY_BYTES)) in
  s = mkSafeSummary (bytes_str (take retained (str_bytes text))) (negb (retained =? length (str_bytes text))%nat)
        (zlen (str_bytes text)) (sha256_digest text) /\ zlen (str_bytes text) <= 4294967295.
Proof.
  unfold from_already_safe. destruct (existsb _ _); [done|]. destruct (Z.ltb_spec 4294967295 (zlen (str_bytes text))); [done|].
  intros [= <-]. split; [done|lia].
Qed.

(** The bytes kept of a summary. *)
Lemma summary_kept input s : input_ok input -> from_already_safe (summary_text input) = Ok s ->
  exists n, str_bytes (su_text s) = take n (str_bytes (summary_text input)) /\
    (observations_start input <= n <= length (str_bytes (summary_text input)))%nat /\ Z.of_nat n <= MAX_SAFE_SUMMARY_BYTES /\
    char_boundary (str_bytes (summary_text input)) n = true /\
    su_truncated s = negb (n =? length (str_bytes (summary_text input)))%nat.
Proof using HC HD HL.
  intros Hok [Hs Hlen]%from_already_safe_Ok. pose proof (header_length input Hok) as Hh.
  set (bytes := str_bytes (summary_text input)) in *. set (most := Z.to_nat (Z.min (zlen bytes) MAX_SAFE_SUMMARY_BYTES)) in *.
  assert (Hb : bytes = joined 59 (str_bytes <$> header_parts input) ++ str_bytes ";observations="
    ++ joined 124 (observation_parts (si_observations input))) by apply summary_bytes.
  destruct (observations_head (si_observations input)) as (x & r & Hx & Hrange). rewrite Hx in Hb.
  assert (bytes !! observations_start input = Some x) as Hlook.
  { rewrite Hb. unfold observations_start. rewrite lookup_app_r, lookup_app_r by lia.
    replace (_ - _ - _)%nat with 0%nat by lia. done. }
  assert (char_boundary bytes 0 = true) as H0.
  { rewrite Hb. unfold header_parts. cbn [fmap list_fmap joined]. by rewrite str_bytes_app. }
  destruct (retreat_spec bytes most H0) as (Hle & Hbound & Hlow).
  assert (Hstart : (observations_start input < length bytes)%nat) by (by eapply lookup_lt_Some).
  exists (retreat bytes most). assert ((most <= length bytes)%nat /\ Z.of_nat most <= MAX_SAFE_SUMMARY_BYTES) as [Hm1 Hm2]
    by (unfold most, zlen, MAX_SAFE_SUMMARY_BYTES in *; lia).
  split_and!.
  - rewrite Hs. cbn [su_text]. apply str_bytes_bytes_str. apply list.Forall_take, str_bytes_range.
  - apply Hlow; [|unfold char_boundary; rewrite Hlook; lia].
    assert (observations_start input <= 414)%nat by (unfold observations_start; change (length (str_bytes ";observations=")) with 14%nat; lia).
    unfold most, zlen, MAX_SAFE_SUMMARY_BYTES in *. lia.
  - lia.
  - lia.
  - done.
  - by rewrite Hs.
Qed.

Lemma summary_text_rust s : summary_ok s -> rust_str (su_text s).
Proof using HC HD HL.
  intros (input & Hok & Hs). destruct (summary_kept input s Hok Hs) as (n & Hn & _ & _ & Hb & _).
  unfold rust_str. rewrite Hn. apply utf8_take; [|done]. by apply summary_rust_str.
Qed.

Definition wire_summary (s : SafeSummary) : DecodeSummary :=
  mkDecodeSummary (su_text s) (su_truncated s) (su_original_safe_utf8_bytes s) (hex_display (su_full_safe_sha256 s)).

(** A built summary is accepted as it is; the public decoder refuses a cut one. *)
Lemma decode_summary_written allow s : summary_ok s ->
  decode_summary allow (wire_summary s) = if su_truncated s && negb allow then Err DecodeInvalid else Ok s.
Proof using HC HD HL.
  intros (input & Hok & Hs). destruct (summary_kept input s Hok Hs) as (n & Hn & [Hlow Hhigh] & Hmax & _ & Ht).
  pose proof (from_already_safe_Ok _ _ Hs) as [Heq _]. set (bytes := str_bytes (summary_text input)) in *.
  assert (su_original_safe_utf8_bytes s = zlen bytes) as Horig by (by rewrite Heq).
  assert (su_full_safe_sha256 s = sha256_digest (summary_text input)) as Hsha by (by rewrite Heq). clear Heq.
  destruct (sha256_bytes (summary_text input)) as [H32 H256].
  unfold decode_summary, wire_summary. cbn [dsu_text dsu_truncated dsu_original_safe_utf8_bytes dsu_full_safe_sha256].
  rewrite Hsha, digest_display by done. cbn [result_bind]. rewrite Hn. destruct (su_truncated s) eqn:Etr.
  - symmetry in Ht. apply negb_true_iff, Nat.eqb_neq in Ht.
    assert (valid_structural_summary_prefix (take n bytes) = true) as -> by (by apply cut_summary_valid).
    assert (zlen (take n bytes) = Z.of_nat n) as -> by (unfold zlen; rewrite length_take; lia).
    rewrite Horig, (proj2 (Z.ltb_ge _ _)), (proj2 (Z.leb_gt _ _)) by (unfold zlen; lia).
    cbn [orb negb andb]. rewrite !orb_false_r. destruct allow; cbn; [|done].
    do 2 f_equal. destruct s; cbn in *; congruence.
  - symmetry in Ht. apply negb_false_iff, Nat.eqb_eq in Ht. rewrite take_ge by lia. cbn [andb].
    unfold bytes at 1. rewrite summary_bytes, summary_with; [|done| |by apply observations_valid, Hok].
    2: { apply joined_free; [done|]. eapply list.Forall_impl; [exact (proj1 (proj2 (observation_parts_plain _)))|]. by intros q (_ & Hq & _). }
    cbn [negb]. assert (su_text s = summary_text input) as -> by (apply str_bytes_inj; rewrite Hn, take_ge by lia; done).
    rewrite Hs. cbn [decode_invalid map_err result_bind]. rewrite Horig, Hsha, Z.eqb_refl, bool_decide_eq_true_2 by done. done.
Qed.
End Summaries.

(** ** Whole events *)
Section Events.
Context `{HD : DiagnosticCrates, HJ : DiagnosticJson, HC : CryptoCrate, HL : !DiagnosticLaws}.

Lemma EventId_written id : uuid_bytes id -> EventId_parse (uuid_hyphenated id) = Ok id.
Proof using HL. intros Hid. unfold EventId_parse. rewrite uuid_round_trip by done. cbn. by rewrite bool_decide_eq_true_2. Qed.

Definition optional_ok {A} (P : A -> Prop) (o : option A) : Prop := forall a, o = Some a -> P a.

Record correlations_ok (c : Correlations) : Prop := {
  ok_request_id : optional_ok (identifier_ok 64) (co_request_id c);
  ok_trace_id : optional_ok (identifier_ok 64) (co_trace_id c);
  ok_attempt_id : optional_ok (identifier_ok 64) (co_attempt_id c);
  ok_client_id : optional_ok (identifier_ok 64) (co_client_id c);
  ok_parent_event_id : optional_ok uuid_bytes (co_parent_event_id c);
  ok_opaque_session_id : optional_ok (identifier_ok 96) (co_opaque_session_id c)
}.

Lemma parse_optional_ok maximum o : optional_ok (identifier_ok maximum) o -> parse_optional (identifier_parse maximum) o = Ok o.
Proof.
  intros Ho. destruct o as [s|]; [|done]. destruct (Ho s eq_refl) as [Hp _]. unfold parse_optional. cbn.
  by rewrite Hp.
Qed.

Lemma correlations_of_wire c : correlations_ok c -> correlations_of (wire_correlations c) = Ok c.
Proof using HC HD HL.
  intros [H1 H2 H3 H4 H5 H6]. destruct c as [c1 c2 c3 c4 c5 c6]. cbn in H1, H2, H3, H4, H5, H6.
  unfold correlations_of, wire_correlations, RequestId_parse, TraceId_parse, AttemptId_parse, ClientId_parse, OpaqueSessionId_parse.
  cbn [dco_request_id dco_trace_id dco_attempt_id dco_client_id dco_parent_event_id dco_opaque_session_id
       co_request_id co_trace_id co_attempt_id co_client_id co_parent_event_id co_opaque_session_id].
  rewrite !parse_optional_ok by done. cbn [result_bind].
  destruct c5 as [id|]; cbn; [rewrite EventId_written by auto; cbn|]; done.
Qed.

Record provider_ok (p : ProviderContext) : Prop := {
  ok_model : optional_ok (identifier_ok 128) (pv_model p);
  ok_route : optional_ok (identifier_ok 64) (pv_route p);
  ok_account : optional_ok (identifier_ok 96) (pv_opaque_account_id p)
}.

Lemma provider_of_wire_ok p : provider_ok p -> provider_of_wire (wire_provider p) = Ok p.
Proof.
  intros [H1 H2 H3]. destruct p as [protocol model route account]. cbn in H1, H2, H3. unfold provider_of_wire, wire_provider.
  cbn [dp_protocol dp_model dp_route dp_opaque_account_id pv_protocol pv_model pv_route pv_opaque_account_id].
  autorewrite with codes. cbn [result_bind]. unfold ModelId_parse, RouteId_parse, OpaqueAccountId_parse.
  destruct model as [m|]; [destruct (H1 m eq_refl) as [-> _]|]; cbn;
    (destruct route as [r|]; [destruct (H2 r eq_refl) as [-> _]|]; cbn;
     (destruct account as [a|]; [destruct (H3 a eq_refl) as [-> _]|]; done)).
Qed.

Lemma read_summary_value s : summary_ok s -> read_summary (summary_value s) = Some (wire_summary s).
Proof.
  intros (input & _ & Hs). destruct (from_already_safe_Ok _ _ Hs) as [Heq Hlen].
  assert (su_original_safe_utf8_bytes s <= 4294967295) by (by rewrite Heq).
  unfold read_summary, summary_value. read_written.
  rewrite (required_Some (read_uint 4294967295) _ (su_original_safe_utf8_bytes s)) by (by apply read_uint_Some). done.
Qed.

Record event_ok (e : DiagnosticEvent) : Prop := {
  ok_schema : ev_schema_version e = 1;
  ok_event_id : uuid_bytes (ev_event_id e);
  ok_occurred_at : timestamp_parse (ev_occurred_at e) = Ok (ev_occurred_at e) /\ rust_str (ev_occurred_at e);
  ok_build : build_ok (ev_build e) /\ rust_str (bi_wokcore_version (ev_build e));
  ok_correlations : optional_ok correlations_ok (ev_correlations e);
  ok_provider : optional_ok provider_ok (ev_provider e);
  ok_measurements : optional_ok measurements_ok (ev_measurements e);
  ok_error : optional_ok error_ok (ev_error e);
  ok_drop : optional_ok drop_ok (ev_diagnostic_drop e);
  ok_summaries : zlen (ev_summaries e) <= MAX_EVENT_SUMMARIES /\ Forall summary_ok (ev_summaries e);
  ok_redaction : redaction_ok (ev_redaction_counts e)
}.

Definition event_on_wire (e : DiagnosticEvent) : DecodeEvent :=
  mkDecodeEvent (ev_schema_version e) (sequence_text (ev_sequence e)) (uuid_hyphenated (ev_event_id e)) (ev_occurred_at e)
    (level_code (ev_level e)) (component_code (ev_component e)) (event_code (ev_code e))
    (wire_correlations <$> ev_correlations e) (wire_build (ev_build e)) (wire_provider <$> ev_provider e)
    (wire_decision <$> ev_decision e) (wire_measurements <$> ev_measurements e) (wire_error <$> ev_error e)
    (ev_diagnostic_drop e) (wire_summary <$> ev_summaries e) (ev_redaction_counts e).

Ltac read_next := repeat (rewrite required_text; cbn [mbind option_bind]).

Lemma read_event_value e : event_ok e -> read_event (event_value e) = Some (event_on_wire e).
Proof using HC HD HL.
  intros [Hschema _ _ [Hb _] Hc Hp Hm He Hd [Hn Hs] Hr]. unfold read_event, event_value, event_rest.
  rewrite read_struct_exact; [|reflexivity|apply (bool_decide_unpack _); vm_compute; exact I].
  cbn [fmap list_fmap fst snd mbind option_bind].
  rewrite (required_Some (read_uint 255) _ (ev_schema_version e)) by (apply read_uint_Some; lia). cbn [mbind option_bind].
  read_next.
  rewrite (nullable_optional _ _ wire_correlations); [|intros; apply read_correlations_value|done]. cbn [mbind option_bind].
  rewrite (required_Some read_build _ _ (read_build_value _ Hb)). cbn [mbind option_bind].
  rewrite (nullable_optional _ _ wire_provider); [|intros; apply read_provider_value|done]. cbn [mbind option_bind].
  rewrite (nullable_optional _ _ wire_decision); [|intros; apply read_decision_value|done]. cbn [mbind option_bind].
  rewrite (nullable_optional _ _ wire_measurements); [|intros; apply read_measurements_value; auto|done]. cbn [mbind option_bind].
  rewrite (nullable_optional _ _ wire_error); [|intros; apply read_error_value; auto|done]. cbn [mbind option_bind].
  rewrite (nullable_optional _ _ id); [|intros; apply read_drop_value; auto|done]. cbn [mbind option_bind].
  rewrite (required_Some _ _ _ (bounded_sequence_written _ read_summary summary_value wire_summary _ Hn
    ltac:(by eapply list.Forall_impl; [exact Hs|apply read_summary_value]))). cbn [mbind option_bind].
  rewrite (required_Some read_redaction _ _ (read_redaction_value _ Hr)). cbn [mbind option_bind].
  rewrite option_fmap_id. done.
Qed.
Lemma transpose_written {A B} (f : A -> B) (g : B -> result DiagnosticDecodeError A) o :
  (forall a, o = Some a -> g (f a) = Ok a) -> transpose g (f <$> o) = Ok o.
Proof. intros H. destruct o as [a|]; [|done]. cbn. by rewrite H. Qed.

Lemma decode_summaries_written allow l : Forall summary_ok l ->
  try_map (decode_summary allow) (wire_summary <$> l) =
  if existsb su_truncated l && negb allow then Err DecodeInvalid else Ok l.
Proof using HC HD HL.
  induction 1 as [|s l Hs _ IH]; [done|]. cbn [fmap list_fmap try_map existsb]. rewrite decode_summary_written by done.
  change (list_fmap SafeSummary DecodeSummary wire_summary l) with (wire_summary <$> l). rewrite IH.
  by destruct (su_truncated s), (existsb su_truncated l), allow.
Qed.

(** What is written of an event is accepted, cut summaries by the trusted decoder only. *)
Lemma decode_written e allow : event_ok e -> 0 < ev_sequence e <= 18446744073709551615 ->
  drop_consistent (ev_code e) (ev_diagnostic_drop e) = true ->
  decode_event_wire (event_on_wire e) allow =
  if existsb su_truncated (ev_summaries e) && negb allow then Err DecodeInvalid else Ok e.
Proof using HC HD HL.
  intros [Hschema Hid [Hat _] [Hb _] Hc Hp Hm He Hd [_ Hs] Hr] Hseq Hdrop. unfold decode_event_wire, event_on_wire.
  cbn [dev_schema_version dev_sequence dev_event_id dev_occurred_at dev_level dev_component dev_code dev_correlations dev_build
       dev_provider dev_decision dev_measurements dev_error dev_diagnostic_drop dev_summaries dev_redaction_counts].
  rewrite decode_sequence_text, Hschema by done. cbn [result_bind guard_err negb Z.eqb].
  rewrite transpose_written by (intros; apply correlations_of_wire; auto). cbn [result_bind].
  rewrite transpose_written by (intros; apply provider_of_wire_ok; auto). cbn [result_bind].
  rewrite transpose_written by (intros; apply decision_of_wire). cbn [result_bind].
  rewrite transpose_written by (intros; apply measurements_of_wire). cbn [result_bind].
  rewrite transpose_written by (intros; apply error_of_wire). cbn [result_bind].
  autorewrite with codes. cbn [result_bind]. rewrite Hdrop. cbn [result_bind guard_err negb].
  rewrite decode_summaries_written by done. destruct (existsb _ _ && _); [done|]. cbn [result_bind].
  rewrite EventId_written, Hat, build_of_wire by done. cbn [decode_invalid map_err result_bind].
  autorewrite with codes. cbn [result_bind]. destruct e; cbn in *; congruence.
Qed.

(** ** Values the writer is given *)
(** Text is UTF-8 and integers are unsigned 64-bit. *)
Fixpoint writable (v : Value) : bool :=
  match v with
  | VNull | VBool _ => true
  | VNumber (PosInt n) => (0 <=? n) && (n <=? 18446744073709551615)
  | VNumber _ => false
  | VString s => utf8_valid (str_bytes s)
  | VArray l => forallb writable l
  | VObject l => forallb (fun entry => utf8_valid (str_bytes (fst entry)) && writable (snd entry)) l
  end.

Lemma ascii_utf8 l : Forall (fun b => 0 <= b < 128) l -> utf8_valid l = true.
Proof. induction 1 as [|b l Hb _ IH]; [done|]. by rewrite utf8_valid_ascii_cons by (unfold is_ascii_byte; lia). Qed.

Lemma hex_display_utf8 bytes : Forall (fun b => 0 <= b < 256) bytes -> utf8_valid (str_bytes (hex_display bytes)) = true.
Proof.
  intros Hb. destruct (hex_text bytes Hb) as (-> & _ & Hd). apply ascii_utf8. rewrite forallb_forall in Hd.
  apply list.Forall_forall. intros b Hin%list_elem_of_In%Hd. unfold is_ascii_digit in Hin. lia.
Qed.

Lemma optional_writable {A} (write : A -> Value) o : optional_ok (fun a => writable (write a) = true) o ->
  writable (optional write o) = true.
Proof. destruct o as [a|]; [|done]. intros H. by apply H. Qed.

Lemma identifier_writable maximum o : optional_ok (identifier_ok maximum) o -> writable (optional VString o) = true.
Proof. intros H. apply optional_writable. intros a Ha. by destruct (H a Ha). Qed.

Lemma count_writable n : u64 n -> writable (json_uint n) = true.
Proof. unfold u64. cbn. lia. Qed.

(** An object of fields with plain names, field by field. *)
Lemma object_writable entries : forallb (fun e => utf8_valid (str_bytes (fst e))) entries = true ->
  Forall (fun e => writable (snd e) = true) entries -> writable (VObject entries) = true.
Proof.
  intros Hk Hv. cbn [writable]. induction Hv as [|e l He _ IH]; [done|]. cbn in Hk |- *.
  apply andb_true_iff in Hk as [-> Hk]. rewrite He. by apply IH.
Qed.

Ltac write_fields :=
  apply object_writable; [vm_compute; reflexivity|];
  repeat apply list.Forall_cons_2; [..|apply list.Forall_nil_2]; cbn [snd];
  try (first [apply count_writable; assumption | eapply identifier_writable; eassumption]).

Lemma correlations_writable c : correlations_ok c -> writable (correlations_value c) = true.
Proof using HC HD HL.
  intros []. write_fields. apply optional_writable. intros id Hid. cbn. apply uuid_text. eauto.
Qed.

Lemma build_writable b : build_ok b -> rust_str (bi_wokcore_version b) -> writable (build_value b) = true.
Proof.
  intros (_ & [_ Hc] & Ha & Hv) Hs. write_fields; cbn; [done|by apply hex_display_utf8|lia..].
Qed.

Lemma provider_writable p : provider_ok p -> writable (provider_value p) = true.
Proof. intros []. write_fields. by destruct (pv_protocol p). Qed.

Lemma decision_writable d : writable (decision_value d) = true.
Proof. destruct d as [[] [] []]; reflexivity. Qed.

Lemma tokens_writable t : tokens_ok t -> writable (tokens_value t) = true.
Proof. intros (? & ? & ? & ?). write_fields. Qed.

Lemma measurements_writable m : measurements_ok m -> writable (measurements_value m) = true.
Proof. intros (? & ? & ? & ?). write_fields; [by destruct (me_stage m)|by apply tokens_writable]. Qed.

Lemma drop_writable c : drop_ok c -> writable (drop_value c) = true.
Proof. intros (? & ? & ? & ? & ?). write_fields. Qed.

Lemma redaction_writable r : redaction_ok r -> writable (redaction_value r) = true.
Proof. intros (? & ? & ? & ? & ? & ?). write_fields. Qed.

Lemma error_writable e : writable (error_value e) = true.
Proof.
  write_fields; [by destruct (er_code e)| |by destruct (er_platform e)]. cbn [writable].
  induction (er_source_chain e) as [|s l IH]; [done|]. cbn. rewrite IH. by destruct s.
Qed.

Lemma summary_writable s : summary_ok s -> writable (summary_value s) = true.
Proof using HC HD HL.
  intros Hs. pose proof (summary_text_rust s Hs) as Ht. destruct Hs as (input & _ & Hs).
  destruct (from_already_safe_Ok _ _ Hs) as [Heq Hlen]. destruct (sha256_bytes (summary_text input)) as [_ Hsha].
  write_fields.
  - done.
  - done.
  - apply count_writable. rewrite Heq. cbn. unfold u64, zlen in *. lia.
  - cbn. apply hex_display_utf8. by rewrite Heq.
Qed.

Lemma event_rest_writable e : event_ok e -> writable (VObject (event_rest e)) = true.
Proof using HC HD HL.
  intros [Hschema Hid [_ Hat] [Hb Hv] Hc Hp Hm He Hd [_ Hs] Hr]. write_fields; cbn [writable].
  - by apply uuid_text.
  - done.
  - by destruct (ev_level e).
  - by destruct (ev_component e).
  - by destruct (ev_code e).
  - apply optional_writable. intros c Hec. by apply correlations_writable, Hc.
  - by apply build_writable.
  - apply optional_writable. intros c Hec. by apply provider_writable, Hp.
  - apply optional_writable. intros c Hec. by apply decision_writable.
  - apply optional_writable. intros c Hec. by apply measurements_writable, Hm.
  - apply optional_writable. intros c Hec. by apply error_writable.
  - apply optional_writable. intros c Hec. by apply drop_writable, Hd.
  - apply forallb_forall. intros v Hin%list_elem_of_In. apply list_elem_of_fmap in Hin as (s & -> & Hin).
    apply summary_writable. rewrite list.Forall_forall in Hs. by apply Hs.
  - by apply redaction_writable.
Qed.
End Events.

(** The text before the sequence number. *)
Definition event_lead : list Z :=
  str_bytes ("{" +:+ quoted "schema_version" +:+ ":1," +:+ quoted "sequence" +:+ ":" +:+ quote_mark).

(** What [serde_json] documents: a written document is read back, and the fields
    of a structure are written in their order, without spaces, digits as they are. *)
Class DiagnosticJsonLaws `{DiagnosticJson} : Prop := {
  document_to_vec : forall v, writable v = true -> diagnostic_document (diagnostic_to_vec v) = Some v;
  to_vec_sequence : forall rest, exists after, forall digits,
    length digits = SEQUENCE_DIGITS -> Forall (fun b => is_ascii_digit b = true) digits ->
    diagnostic_to_vec (VObject (("schema_version"%string, json_uint 1)
      :: ("sequence"%string, VString (bytes_str digits)) :: rest)) = event_lead ++ digits ++ 34 :: after
}.

(** ** Templates *)
Section Templates.
Context `{HD : DiagnosticCrates, HJ : DiagnosticJson, HC : CryptoCrate, HL : !DiagnosticLaws, HW : !DiagnosticJsonLaws}.

Lemma event_written e : event_ok e -> exists after, forall sequence, u64 sequence ->
  diagnostic_to_vec (event_value (at_sequence sequence e)) = event_lead ++ dig 20 sequence ++ 34 :: after.
Proof using HW.
  intros He. destruct (to_vec_sequence (event_rest e)) as [after Hafter]. exists after. intros sequence Hs.
  unfold event_value, at_sequence. cbn [ev_schema_version ev_sequence]. rewrite (ok_schema _ He).
  unfold sequence_text. rewrite padded_dig by done. apply Hafter; [apply dig_length|apply dig_digits].
Qed.

Lemma marker_found after : position_of marker (event_lead ++ dig 20 0 ++ 34 :: after) = Some 20%nat.
Proof. vm_compute. reflexivity. Qed.

Lemma at_same_sequence e : at_sequence (ev_sequence e) e = e.
Proof. by destruct e. Qed.

Lemma at_sequence_ok sequence e : event_ok e -> event_ok (at_sequence sequence e).
Proof. by intros []. Qed.

(** The template is the encoding at sequence 0, with the place of its digits. *)
Lemma prepared_template e t : event_ok e -> ev_sequence e = 0 -> prepare_template e = Ok t ->
  drop_consistent (ev_code e) (ev_diagnostic_drop e) = true /\
  exists after, zlen (te_encoded t) <= MAX_PREPARED_EVENT_BYTES /\ te_event_id t = ev_event_id e /\
    te_encoded t = event_lead ++ dig 20 0 ++ 34 :: after /\ te_sequence_offset t = length event_lead /\
    forall sequence, u64 sequence ->
      diagnostic_to_vec (event_value (at_sequence sequence e)) = event_lead ++ dig 20 sequence ++ 34 :: after.
Proof using HC HD HL HW.
  intros He H0. destruct (event_written e He) as [after Hafter]. unfold prepare_template.
  destruct (drop_consistent _ _) eqn:Hdrop; [|done]. cbn [negb].
  assert (diagnostic_to_vec (event_value e) = event_lead ++ dig 20 0 ++ 34 :: after) as ->.
  { rewrite <- (at_same_sequence e), H0. apply Hafter. unfold u64. lia. }
  destruct (Z.ltb_spec MAX_PREPARED_EVENT_BYTES (zlen (event_lead ++ dig 20 0 ++ 34 :: after))) as [|Hlen]; [done|].
  rewrite marker_found. intros [= <-]. split; [done|]. exists after. cbn [te_encoded te_event_id te_sequence_offset]. by split_and!.
Qed.

Lemma finalized e t sequence : event_ok e -> ev_sequence e = 0 -> prepare_template e = Ok t ->
  0 < sequence <= 18446744073709551615 ->
  finalize t sequence = Ok (mkPreparedEvent sequence (uuid_number (ev_event_id e)) (diagnostic_to_vec (event_value (at_sequence sequence e)))).
Proof using HC HD HL HW.
  intros He H0 Ht Hs. destruct (prepared_template e t He H0 Ht) as (_ & after & _ & Hid & Henc & Hoff & Hvec).
  unfold finalize. rewrite (proj2 (Z.eqb_neq sequence 0)) by lia. rewrite Henc, Hoff.
  unfold SEQUENCE_DIGITS. rewrite write_digits by apply dig_length.
  rewrite Z.div_small by (change (10 ^ Z.of_nat 20) with 100000000000000000000; lia). cbn [negb Z.eqb].
  rewrite Hid, Hvec by (unfold u64; lia). done.
Qed.

(** What was written at a sequence number is read by [decode_event]. *)
Lemma decode_finalized e t sequence allow : event_ok e -> ev_sequence e = 0 -> prepare_template e = Ok t ->
  0 < sequence <= 18446744073709551615 ->
  decode_event (diagnostic_to_vec (event_value (at_sequence sequence e))) allow =
  if existsb su_truncated (ev_summaries e) && negb allow then Err DecodeInvalid else Ok (at_sequence sequence e).
Proof using HC HD HL HW.
  intros He H0 Ht Hs. destruct (prepared_template e t He H0 Ht) as (Hdrop & after & Hlen & _ & Henc & _ & Hvec).
  pose proof (at_sequence_ok sequence e He) as He'.
  assert (writable (event_value (at_sequence sequence e)) = true) as Hw.
  { unfold event_value. pose proof (event_rest_writable _ He') as Hrest. cbn [writable forallb fst snd json_uint] in Hrest |- *.
    rewrite Hrest. rewrite (ok_schema _ He'), sequence_bytes by (cbn; lia).
    rewrite (ascii_utf8 (dig 20 _)); [vm_compute; reflexivity|].
    eapply list.Forall_impl; [apply dig_digits|]. cbn. unfold is_ascii_digit. intros. lia. }
  unfold decode_event. rewrite (document_to_vec _ Hw), Hvec by (unfold u64; lia).
  assert (zlen (event_lead ++ dig 20 sequence ++ 34 :: after) = zlen (te_encoded t)) as ->.
  { rewrite Henc. unfold zlen. rewrite !length_app, !dig_length. done. }
  rewrite (proj2 (Z.ltb_ge _ _)) by done. cbn [is_emptyb orb mbind option_bind ok_or result_bind event_lead].
  rewrite read_event_value by done. cbn [ok_or result_bind].
  rewrite decode_written; [done|done|cbn; lia|done].
Qed.
End Templates.

(** ** Drafts *)
Section Drafts.
Context `{HD : DiagnosticCrates, HJ : DiagnosticJson, HC : CryptoCrate}.

(** The summaries gathered for an event, by [build_structural_summary] and [push]. *)
Inductive gathered : list RedactedSummary -> Prop :=
| gathered_none : gathered []
| gathered_push l input sensitive value l' : gathered l -> input_ok input ->
    build_structural_summary input sensitive = Ok value -> push_summary l value = Ok l' -> gathered l'.

(** The drafts the constructors and the [with_] methods build from validated parts. *)
Inductive drafted : DiagnosticEvent -> Prop :=
| drafted_new id text at_ level component code build : uuid_bytes id -> timestamp_parse text = Ok at_ -> rust_str text ->
    build_ok build -> rust_str (bi_wokcore_version build) ->
    drafted (DiagnosticEventDraft_new id at_ level component code build)
| drafted_correlations e c : drafted e -> correlations_ok c -> drafted (with_correlations c e)
| drafted_provider e p : drafted e -> provider_ok p -> drafted (with_provider p e)
| drafted_decision e d : drafted e -> drafted (with_decision d e)
| drafted_measurements e m : drafted e -> measurements_ok m -> drafted (with_measurements m e)
| drafted_error e code chain platform err : drafted e -> DiagnosticError_new code chain platform = Ok err ->
    drafted (with_error err e)
| drafted_drop e c : drafted e -> drop_ok c -> drafted (with_diagnostic_drop_counts c e)
| drafted_summaries e l : drafted e -> gathered l -> drafted (with_redacted_summaries l e).

Lemma merge_ok a b : redaction_ok a -> redaction_ok b -> redaction_ok (saturating_merge a b).
Proof. unfold redaction_ok, u64, saturating_merge, sat_add64, u64_max. cbn. lia. Qed.

Lemma count_sensitive_ok counts l : redaction_ok counts -> redaction_ok (foldl count_sensitive counts l).
Proof.
  revert counts. induction l as [|c l IH]; intros counts Hc; [done|]. apply IH, merge_ok; [done|].
  destruct c; unfold redaction_ok, u64; cbn; lia.
Qed.

Lemma no_redactions_ok : redaction_ok no_redactions.
Proof. unfold redaction_ok, u64. cbn. lia. Qed.

Lemma gathered_ok l : gathered l ->
  zlen l <= MAX_EVENT_SUMMARIES /\ Forall (fun v => summary_ok (rd_summary v) /\ redaction_ok (rd_counts v)) l.
Proof.
  induction 1 as [|l input sensitive value l' _ [IHn IH] Hin Hb Hp]; [done|]. unfold push_summary in Hp.
  destruct (Z.eqb_spec (zlen l) MAX_EVENT_SUMMARIES) as [|Hne]; [done|]. injection Hp as <-.
  split; [unfold zlen, MAX_EVENT_SUMMARIES in *; rewrite length_app; cbn; lia|].
  apply list.Forall_app. split; [done|]. apply list.Forall_singleton. unfold build_structural_summary in Hb.
  apply result_bind_Ok in Hb as (s & Hs & [= <-]). cbn. split; [by exists input|]. apply count_sensitive_ok, no_redactions_ok.
Qed.

Lemma event_parts_ok l : gathered l -> let parts := into_event_parts l in
  (zlen parts.1 <= MAX_EVENT_SUMMARIES /\ Forall summary_ok parts.1) /\ redaction_ok parts.2.
Proof.
  intros [Hn Hall]%gathered_ok. cbn. split; [split; [unfold zlen in *; by rewrite length_fmap|]|].
  - apply list.Forall_fmap. eapply list.Forall_impl; [exact Hall|]. by intros v [].
  - clear Hn. pose proof no_redactions_ok as H0. revert H0. generalize no_redactions.
    induction Hall as [|v l [_ Hv] _ IH]; intros r Hr; [done|]. by apply IH, merge_ok.
Qed.

Lemma drafted_ok e : drafted e -> event_ok e /\ ev_sequence e = 0.
Proof.
  induction 1 as [id text at_ level component code build Hid Hat Hs Hb Hv|e c _ [[] H0] Hc|e p _ [[] H0] Hp|e d _ [[] H0]
    |e m _ [[] H0] Hm|e code chain platform err _ [[] H0] He|e c _ [[] H0] Hc|e l _ [[] H0] Hg].
  - split; [|done]. unfold timestamp_parse in *.
    assert (at_ = text) as -> by (destruct (UtcTimestamp_parse text) as [v|] eqn:E; [|done]; injection Hat as <-;
      revert E; unfold UtcTimestamp_parse; repeat case_match; by intros [=]).
    by split.
  - split; [|done]. split; try done. by intros ? [= <-].
  - split; [|done]. split; try done. by intros ? [= <-].
  - split; [|done]. split; done.
  - split; [|done]. split; try done. by intros ? [= <-].
  - split; [|done]. split; try done. intros ? [= <-]. unfold DiagnosticError_new in He.
    destruct (Z.ltb_spec MAX_ERROR_SOURCE_CHAIN (zlen chain)); [done|]. by injection He as <-.
  - split; [|done]. split; try done. by intros ? [= <-].
  - split; [|done]. destruct (event_parts_ok l Hg) as [Hs Hr]. by split.
Qed.

(** C35: an event put together by the constructors of [event.rs] and
    [redaction.rs] and prepared as a template is finalized at every sequence
    number except 0, which is refused.  The twenty patched digits give exactly
    the encoding of the event at that number; the trusted decoder reads the event
    back with all its parts, and so does the public one unless a summary had to
    be cut, which it refuses. *)
Theorem events_survive `{HL : !DiagnosticLaws, HW : !DiagnosticJsonLaws} e t :
  drafted e -> prepare_template e = Ok t ->
  finalize t 0 = Err DiagnosticInvalidValue /\
  forall sequence, 0 < sequence <= 18446744073709551615 ->
    exists encoded, finalize t sequence = Ok (mkPreparedEvent sequence (uuid_number (ev_event_id e)) encoded) /\
      encoded = diagnostic_to_vec (event_value (at_sequence sequence e)) /\
      decode_trusted_prepared_encoding encoded = Ok (at_sequence sequence e) /\
      DiagnosticEvent_decode encoded =
        (if existsb su_truncated (ev_summaries e) then Err DecodeInvalid else Ok (at_sequence sequence e)).
Proof.
  intros [He H0]%drafted_ok Ht. split; [done|]. intros sequence Hs.
  exists (diagnostic_to_vec (event_value (at_sequence sequence e))). split; [by apply finalized|]. split; [done|].
  unfold decode_trusted_prepared_encoding, DiagnosticEvent_decode.
  rewrite !(decode_finalized e t) by done. cbn [negb]. by rewrite andb_false_r, andb_true_r.
Qed.
End Drafts.

(** ** Instances for the witness
    A prefix code stands for JSON: a tag, the number of elements and the elements. *)
Module Demo.
Definition write_text (s : string) : list Z := zlen (str_bytes s) :: str_bytes s.

Fixpoint write (v : Value) : list Z :=
  match v with
  | VNull => [0]
  | VBool b => [1; if b then 1 else 0]
  | VNumber (PosInt n) => [2; n]
  | VNumber (NegInt n) => [6; n]
  | VNumber (Float n) => [7; n]
  | VString s => 3 :: write_text s
  | VArray l => 4 :: zlen l :: flat_map write l
  | VObject l => 5 :: zlen l :: flat_map (fun e => write_text (fst e) ++ write (snd e)) l
  end.

Definition read_text (l : list Z) : option (string * list Z) :=
  match l with
  | n :: r => Some (bytes_str (take (Z.to_nat n) r), drop (Z.to_nat n) r)
  | [] => None
  end.

Fixpoint read_many {A} (read : list Z -> option (A * list Z)) (n : nat) (l : list Z) : option (list A * list Z) :=
  match n with
  | O => Some ([], l)
  | S n => '(a, l) ← read l; '(values, l) ← read_many read n l; Some (a :: values, l)
  end.

Definition read_entry (read : list Z -> option (Value * list Z)) (l : list Z) : option (string * Value * list Z) :=
  '(k, l) ← read_text l; '(v, l) ← read l; Some ((k, v), l).

Fixpoint read (fuel : nat) (l : list Z) : option (Value * list Z) :=
  match fuel with
  | O => None
  | S fuel =>
      match l with
      | 0 :: r => Some (VNull, r)
      | 1 :: b :: r => Some (VBool (b =? 1), r)
      | 2 :: n :: r => Some (VNumber (PosInt n), r)
      | 6 :: n :: r => Some (VNumber (NegInt n), r)
      | 7 :: n :: r => Some (VNumber (Float n), r)
      | 3 :: r => '(s, r) ← read_text r; Some (VString s, r)
      | 4 :: n :: r => '(values, r) ← read_many (read fuel) (Z.to_nat n) r; Some (VArray values, r)
      | 5 :: n :: r => '(entries, r) ← read_many (read_entry (read fuel)) (Z.to_nat n) r; Some (VObject entries, r)
      | _ => None
      end
  end.

Lemma read_text_write s r : read_text (write_text s ++ r) = Some (s, r).
Proof.
  unfold write_text. cbn [app read_text]. unfold zlen. rewrite Nat2Z.id, take_app_length, drop_app_length.
  by rewrite bytes_str_inv.
Qed.

Lemma read_many_write {A} (rd : list Z -> option (A * list Z)) (wr : A -> list Z) l r :
  Forall (fun a => forall r, rd (wr a ++ r) = Some (a, r)) l ->
  read_many rd (length l) (flat_map wr l ++ r) = Some (l, r).
Proof.
  induction 1 as [|a l Ha _ IH]; [done|]. cbn [length flat_map read_many]. rewrite <- app_assoc, Ha.
  cbn [mbind option_bind]. by rewrite IH.
Qed.

Lemma write_length {A} (wr : A -> list Z) l a : a ∈ l -> (length (wr a) <= length (flat_map wr l))%nat.
Proof. induction 1; cbn; rewrite length_app; lia. Qed.

Lemma read_write v : forall fuel r, (length (write v) <= fuel)%nat -> read fuel (write v ++ r) = Some (v, r).
Proof.
  induction v as [|b|n|s|values IH|entries IH] using value_ind_nested; intros [|fuel] r Hf; try (cbn in Hf; lia).
  - done.
  - by destruct b.
  - destruct n; cbn in Hf; lia.
  - by destruct n.
  - cbn [write app read]. by rewrite read_text_write.
  - cbn [write app read]. unfold zlen. rewrite Nat2Z.id, (read_many_write _ write); [done|].
    rewrite list.Forall_forall in IH |- *. intros v Hv r'. apply IH; [done|].
    pose proof (write_length write values v Hv). cbn [write length] in Hf. lia.
  - cbn [write app read]. unfold zlen.
    rewrite Nat2Z.id, (read_many_write _ (fun e => write_text (fst e) ++ write (snd e))); [done|].
    rewrite list.Forall_forall in IH |- *. intros [k v] Hv r'. unfold read_entry.
    rewrite <- app_assoc, read_text_write. cbn [mbind option_bind fst snd]. rewrite (IH (k, v)); [done|done|].
    pose proof (write_length (fun e => write_text (fst e) ++ write (snd e)) entries (k, v) Hv) as Hl.
    cbn [write length fst snd] in Hf, Hl |- *. rewrite length_app in Hl. lia.
Qed.

Definition digits20 (s : string) : bool :=
  (length (str_bytes s) =? SEQUENCE_DIGITS)%nat && forallb is_ascii_digit (str_bytes s).

(** An event starts the way [serde_json] starts it. *)
Definition to_vec (v : Value) : list Z :=
  match v with
  | VObject ((k1, VNumber (PosInt n)) :: (k2, VString s) :: rest) =>
      if (n =? 1) && bool_decide (k1 = "schema_version"%string) && bool_decide (k2 = "sequence"%string) && digits20 s
      then event_lead ++ str_bytes s ++ 34 :: write (VObject rest)
      else write v
  | _ => write v
  end.

Definition document (l : list Z) : option Value :=
  match strip_bytes event_lead l with
  | Some r =>
      match read (length r) (drop 21 r) with
      | Some (VObject rest, _) =>
          Some (VObject (("schema_version"%string, json_uint 1)
            :: ("sequence"%string, VString (bytes_str (take 20 r))) :: rest))
      | _ => None
      end
  | None => fst <$> read (length l) l
  end.

Lemma document_write v : document (write v) = Some v.
Proof.
  unfold document. assert (strip_bytes event_lead (write v) = None) as -> by (by destruct v as [| |[]| | |]).
  rewrite <- (app_nil_r (write v)) at 2. rewrite read_write by done. done.
Qed.

Lemma document_lead s rest : length (str_bytes s) = 20%nat ->
  document (event_lead ++ str_bytes s ++ 34 :: write (VObject rest)) =
  Some (VObject (("schema_version"%string, json_uint 1) :: ("sequence"%string, VString s) :: rest)).
Proof.
  intros Hs. unfold document. rewrite strip_bytes_app.
  assert (drop 21 (str_bytes s ++ 34 :: write (VObject rest)) = write (VObject rest)) as ->.
  { rewrite drop_app_ge, Hs by lia. done. }
  rewrite <- (app_nil_r (write (VObject rest))) at 2. rewrite read_write by (rewrite length_app; cbn; lia).
  rewrite take_app_length' by done. by rewrite bytes_str_inv.
Qed.

Lemma document_to_vec_demo v : document (to_vec v) = Some v.
Proof.
  assert (to_vec v = write v \/ exists s rest, length (str_bytes s) = 20%nat /\
    v = VObject (("schema_version"%string, json_uint 1) :: ("sequence"%string, VString s) :: rest) /\
    to_vec v = event_lead ++ str_bytes s ++ 34 :: write (VObject rest)) as [->|(s & rest & Hs & -> & ->)];
    [|apply document_write|by apply document_lead].
  destruct v as [| | | | |[|[k1 v1] [|[k2 v2] rest]]]; try (by left); [destruct v1 as [| |[]| | |]; by left|].
  destruct v1 as [| |[n| |]| | |]; try (by left). destruct v2 as [| | |s| |]; try (by left). cbn [to_vec].
  destruct (_ && _) eqn:E; [|by left]. right. exists s, rest.
  rewrite !andb_true_iff, !bool_decide_eq_true, Z.eqb_eq in E. destruct E as [[[-> ->] ->] Hs].
  unfold digits20 in Hs. rewrite andb_true_iff, Nat.eqb_eq in Hs. by destruct Hs.
Qed.

#[local] Instance crates : DiagnosticCrates := {|
  char_alphanumeric := is_ascii_alphanumeric;
  uuid_parse_str s := match hex_bytes (str_bytes s) with Ok bytes => Some bytes | Err _ => None end;
  uuid_hyphenated := hex_display
|}.

#[local] Instance crypto : CryptoCrate := {|
  sha256_digest _ := replicate 32 7;
  base64_encode _ := EmptyString;
  base64_decode _ := None
|}.

#[local] Instance json : DiagnosticJson := {| diagnostic_to_vec := to_vec; diagnostic_document := document |}.

#[local] Instance laws : DiagnosticLaws.
Proof.
  split; [done|..].
  - intros id [_ Hid]. cbn [uuid_parse_str uuid_hyphenated crates]. destruct (hex_text id Hid) as (-> & _). by rewrite hex_bytes_display.
  - intros id [_ Hid]. unfold rust_str; cbn [uuid_hyphenated crates]. by apply hex_display_utf8.
  - intros s. split; [done|]. by apply list.Forall_replicate.
Qed.

#[local] Instance json_laws : DiagnosticJsonLaws.
Proof.
  split; [intros; apply document_to_vec_demo|]. intros rest. exists (write (VObject rest)). intros digits Hl Hd.
  assert (str_bytes (bytes_str digits) = digits) as Hb.
  { apply str_bytes_bytes_str. eapply list.Forall_impl; [exact Hd|]. unfold is_ascii_digit. cbn. intros. lia. }
  cbn [diagnostic_to_vec json to_vec json_uint]. unfold digits20. rewrite Hb, Hl.
  assert (forallb is_ascii_digit digits = true) as ->; [|done].
  apply forallb_forall. intros b Hin. apply list_elem_of_In in Hin. by eapply list.Forall_forall in Hd.
Qed.

Definition input : StructuralSummaryInput :=
  mkSummaryInput ProtoOpenAiChat StageUpstream RetryScheduled FailoverNotSelected true PlatformNetwork
    (Some "gpt-4.1"%string) [RouteSelected; JsonShape; EmojiCategory].

Definition summaries : list RedactedSummary :=
  match build_structural_summary input [SensAuthorization; SensToken] with Ok s => [s] | Err _ => [] end.

Definition event : DiagnosticEvent :=
  with_provider (with_model "gpt-4.1" (ProviderContext_new ProtoOpenAiChat))
    (with_measurements (mkMeasurements StageUpstream 1500 20 0 (mkTokenCounts 7 0 0 0))
      (with_error (mkDiagnosticError ErrUpstreamTimeout [SourceProvider; SourceRouter] PlatformNetwork)
        (with_redacted_summaries summaries
          (DiagnosticEventDraft_new (replicate 16 171) "2026-01-02T03:04:05Z" LevelError ComponentProvider
             EventRequestFailed (mkBuildIdentity "0.1.0" (replicate 20 202) 1 3))))).

Lemma input_accepted : input_ok input.
Proof. split; [by vm_compute|]. intros m [= <-]. split; by vm_compute. Qed.

Lemma summaries_gathered : gathered summaries.
Proof.
  unfold summaries. destruct (build_structural_summary input _) as [s|] eqn:E; [|apply gathered_none].
  by eapply (gathered_push [] input); [apply gathered_none|apply input_accepted|exact E|].
Qed.

Lemma event_drafted : drafted event.
Proof.
  apply drafted_provider; [apply drafted_measurements; [apply (drafted_error _ ErrUpstreamTimeout [SourceProvider; SourceRouter] PlatformNetwork); [eapply drafted_summaries;
    [apply (drafted_new _ "2026-01-02T03:04:05Z")|]|]|]|].
  - split; [done|]. by apply list.Forall_replicate.
  - by vm_compute.
  - by vm_compute.
  - split_and!; [by vm_compute|split; [done|by apply list.Forall_replicate]|vm_compute; done..].
  - by vm_compute.
  - apply summaries_gathered.
  - by vm_compute.
  - by vm_compute.
  - split; intros a; cbn; [intros [= <-]; split; by vm_compute|done..].
Qed.

(** The event is prepared, finalized at number 42 and read back by both decoders. *)
Lemma events_survive_witness : length (ev_summaries event) = 1%nat /\ exists t, prepare_template event = Ok t /\
  exists encoded, finalize t 42 = Ok (mkPreparedEvent 42 (uuid_number (ev_event_id event)) encoded) /\
    DiagnosticEvent_decode encoded = Ok (at_sequence 42 event).
Proof.
  split; [vm_compute; reflexivity|].
  destruct (prepare_template event) as [t|] eqn:Ht; [|exfalso; vm_compute in Ht; discriminate Ht].
  exists t. split; [done|].
  destruct (proj2 (events_survive event t event_drafted Ht) 42 ltac:(lia)) as (encoded & Hf & _ & _ & Hd).
  exists encoded. split; [exact Hf|exact Hd].
Defined.
End Demo.
