(* ===== verification/Segments.v ===== *)
(** * Durable diagnostic segments

    Models [crates/wokcore-diagnostics/src/segment.rs] (batches, the segment
    writer, the scan that finds the end of a log) and [retention.rs], over the
    diagnostic directory of [crates/wokcore-platform/src/diagnostics.rs].

    A directory is the list of its visible files in the order of their names.
    Every call of the directory takes the next outcome of the operating system:
    it fails with the error the outcome names, and what had reached the disk by
    then is part of the outcome too (a torn append, a file created or removed by
    a call that then fails).  The checks against other processes (links, locks,
    replaced files, tombstones of interrupted removals) appear as such errors. *)
From S2P Require Import Prelude Ring Text Json Ident Catalog AuthRegistry Security ManagementApi Calendar DiagnosticEvent.

Definition MAX_BATCH_EVENTS : Z := 128.
Definition MAX_BATCH_EVENT_BYTES : Z := 256 * 1024.
Definition MAX_SEGMENT_BYTES : Z := 4 * 1024 * 1024.
Definition RECOVERY_PAGE_ENTRIES : nat := 128.
Definition RETENTION_PAGE_ENTRIES : nat := 128.
(** Durations and times are nanoseconds. *)
Definition MAX_RETENTION_AGE : Z := 7 * 24 * 60 * 60 * 1000000000.
Definition MAX_CLOSED_SEGMENT_BYTES : Z := 64 * 1024 * 1024.
Definition newline : Z := 10.

(** ** The diagnostic directory *)
Inductive DiagnosticStoreError : Set :=
| StoreUnsafePath | StoreEnumerationLimitExceeded | StoreSizeLimitExceeded | StoreCleanupLimitExceeded
| StoreChanged | StoreUnavailable | StoreIo.

(** The order of names, byte by byte. *)
Fixpoint bytes_ltb (a b : list Z) : bool :=
  match a, b with
  | _, [] => false
  | [], _ :: _ => true
  | x :: a, y :: b => if x <? y then true else if x =? y then bytes_ltb a b else false
  end.

Record DiagnosticNode : Set := mkNode {
  nd_name : list Z;
  nd_contents : list Z;
  nd_identity : Z;
  nd_modified : option Z
}.

(** What a listing, or an open handle, knows of a file. *)
Record DiagnosticEntry : Set := mkEntry {
  de_name : list Z;
  de_len : Z;
  de_identity : Z;
  de_modified : option Z
}.

#[global] Instance DiagnosticEntry_eq_dec : EqDecision DiagnosticEntry.
Proof. solve_decision. Defined.

Definition entry_of (n : DiagnosticNode) : DiagnosticEntry :=
  mkEntry (nd_name n) (zlen (nd_contents n)) (nd_identity n) (nd_modified n).

(** What the operating system does at a call: fail or not, how much of the
    change reached the disk, the identity and the time stamp of a changed file. *)
Record StoreOutcome : Set := mkOutcome {
  oc_error : option DiagnosticStoreError;
  oc_reached : nat;
  oc_identity : Z;
  oc_modified : option Z
}.

Record DiagnosticStore : Set := mkStore {
  ds_nodes : list DiagnosticNode;
  ds_outcomes : list StoreOutcome
}.

Record DiagnosticFile : Set := mkFile { df_snapshot : DiagnosticEntry; df_maximum_size : Z }.

Definition store_op (A : Type) : Type := st_res DiagnosticStore DiagnosticStoreError A.

(** The next outcome; once the list is used up every call succeeds. *)
Definition next_outcome : store_op StoreOutcome := fun s =>
  match ds_outcomes s with
  | [] => (s, Ok (mkOutcome None O 0 None))
  | outcome :: outcomes => (mkStore (ds_nodes s) outcomes, Ok outcome)
  end.

Definition set_nodes (nodes : list DiagnosticNode) : store_op unit :=
  st_mod (fun s => mkStore nodes (ds_outcomes s)).

(** A call that changes nothing. *)
Definition os_check : store_op unit :=
  let! outcome := next_outcome in
  match oc_error outcome with Some e => st_err e | None => st_ret tt end.

Definition find_node (name : list Z) (nodes : list DiagnosticNode) : option DiagnosticNode :=
  find (fun n => bool_decide (nd_name n = name)) nodes.

Definition replace_node (node : DiagnosticNode) (nodes : list DiagnosticNode) : list DiagnosticNode :=
  (fun n => if bool_decide (nd_name n = nd_name node) then node else n) <$> nodes.

Definition delete_node (name : list Z) (nodes : list DiagnosticNode) : list DiagnosticNode :=
  List.filter (fun n => negb (bool_decide (nd_name n = name))) nodes.

Fixpoint insert_node (node : DiagnosticNode) (nodes : list DiagnosticNode) : list DiagnosticNode :=
  match nodes with
  | [] => [node]
  | n :: rest => if bytes_ltb (nd_name n) (nd_name node) then n :: insert_node node rest else node :: nodes
  end.

Definition is_export_temporary (name : list Z) : bool :=
  utf8_valid name && bool_decide (str_bytes ".wokcore-diagnostics-export-" `prefix_of` name).

Definition is_delete_tombstone (name : list Z) : bool :=
  utf8_valid name && bool_decide (str_bytes ".wokcore-diagnostic-delete-" `prefix_of` name).

Definition hidden_name (name : list Z) : bool := is_export_temporary name || is_delete_tombstone name.

(** [validate_child_name]: a single normal component of a path. *)
Definition validate_diagnostic_name (name : list Z) : result DiagnosticStoreError unit :=
  if is_emptyb name || bool_decide (47 ∈ name) || bool_decide (name = [46]) || bool_decide (name = [46; 46])
     || hidden_name name
  then Err StoreUnsafePath else Ok tt.

Definition DiagnosticDirectory_open : store_op unit := os_check.

(** The entries after a name, and the name the next page starts after.  The scan
    stops at one visible entry more than the page holds, so it has seen more than
    the page exactly when another visible entry follows; hidden names that follow
    are scanned to the end and do not count.  That too many of those are
    tombstones is among the failures of [os_check]. *)
Definition entries_page (after : option (list Z)) (maximum_entries : nat)
  : store_op (list DiagnosticEntry * option (list Z)) :=
  if (maximum_entries =? 0)%nat then st_err StoreEnumerationLimitExceeded
  else
    do! os_check;
    let! s := st_get in
    let visible := List.filter (fun n => is_none_or (fun a => bytes_ltb a (nd_name n)) after
                                    && negb (hidden_name (nd_name n))) (ds_nodes s) in
    let entries : list DiagnosticEntry := entry_of <$> take maximum_entries visible in
    let next_after : option (list Z) := if (maximum_entries <? length visible)%nat then de_name <$> list.last entries else None in
    st_ret (entries, next_after).

(** [open_pinned] at an entry of a listing. *)
Definition open_entry (entry : DiagnosticEntry) (maximum_size : Z) : store_op DiagnosticFile :=
  do! os_check;
  let! s := st_get in
  match find_node (de_name entry) (ds_nodes s) with
  | None => st_err StoreUnavailable
  | Some n =>
      if (maximum_size <? zlen (nd_contents n)) || negb (bool_decide (entry_of n = entry)) then st_err StoreUnsafePath
      else st_ret (mkFile (entry_of n) maximum_size)
  end.

(** The file behind a handle, unless it changed since. *)
Definition revalidate (file : DiagnosticFile) : store_op DiagnosticNode :=
  let! s := st_get in
  match find_node (de_name (df_snapshot file)) (ds_nodes s) with
  | Some n => if bool_decide (entry_of n = df_snapshot file) then st_ret n else st_err StoreChanged
  | None => st_err StoreUnavailable
  end.

Definition read_range (file : DiagnosticFile) (offset maximum_bytes : Z) : store_op (list Z) :=
  do! os_check;
  let! n := revalidate file in
  if (de_len (df_snapshot file) <=? offset) || (maximum_bytes =? 0) then st_ret []
  else st_ret (take (Z.to_nat (Z.min maximum_bytes (de_len (df_snapshot file) - offset)))
                 (drop (Z.to_nat offset) (nd_contents n))).

(** A change of the contents of an open file; [partial] is what is there when
    the call fails. *)
Definition write_contents (file : DiagnosticFile) (complete : list Z -> list Z) (partial : nat -> list Z -> list Z)
  : store_op DiagnosticFile :=
  let! n := revalidate file in
  let! s := st_get in
  let! outcome := next_outcome in
  let written contents := mkNode (nd_name n) contents (nd_identity n) (oc_modified outcome) in
  match oc_error outcome with
  | Some e =>
      do! set_nodes (replace_node (written (partial (oc_reached outcome) (nd_contents n))) (ds_nodes s));
      st_err e
  | None =>
      let node := written (complete (nd_contents n)) in
      do! set_nodes (replace_node node (ds_nodes s));
      st_ret (mkFile (entry_of node) (df_maximum_size file))
  end.

Definition DiagnosticFile_append (file : DiagnosticFile) (bytes : list Z) : store_op DiagnosticFile :=
  let! next_size := st_lift (ok_or (checked_add64 (de_len (df_snapshot file)) (zlen bytes)) StoreSizeLimitExceeded) in
  if df_maximum_size file <? next_size then st_err StoreSizeLimitExceeded
  else write_contents file (fun contents => contents ++ bytes) (fun reached contents => contents ++ take reached bytes).

Definition DiagnosticFile_truncate (file : DiagnosticFile) (length : Z) : store_op DiagnosticFile :=
  if (de_len (df_snapshot file) <? length) || (df_maximum_size file <? length) then st_err StoreSizeLimitExceeded
  else write_contents file (take (Z.to_nat length))
         (fun reached contents => if (reached =? 0)%nat then contents else take (Z.to_nat length) contents).

(** Creates a file under a temporary name and publishes it, unless the name exists. *)
Definition create_new (name contents : list Z) (maximum_size : Z) : store_op DiagnosticFile :=
  do! st_lift (validate_diagnostic_name name);
  if maximum_size <? zlen contents then st_err StoreSizeLimitExceeded
  else
    let! s := st_get in
    if is_someb (find_node name (ds_nodes s)) then st_err StoreUnsafePath
    else
      let! outcome := next_outcome in
      let node := mkNode name contents (oc_identity outcome) (oc_modified outcome) in
      match oc_error outcome with
      | Some e =>
          do! (if (oc_reached outcome =? 0)%nat then st_ret tt else set_nodes (insert_node node (ds_nodes s)));
          st_err e
      | None => do! set_nodes (insert_node node (ds_nodes s)); st_ret (mkFile (entry_of node) maximum_size)
      end.

Definition remove (entry : DiagnosticEntry) : store_op unit :=
  let! file := open_entry entry u64_max in
  let! n := revalidate file in
  let! s := st_get in
  let! outcome := next_outcome in
  match oc_error outcome with
  | Some e =>
      do! (if (oc_reached outcome =? 0)%nat then st_ret tt else set_nodes (delete_node (nd_name n) (ds_nodes s)));
      st_err e
  | None => set_nodes (delete_node (nd_name n) (ds_nodes s))
  end.

Definition st_map_err {S E F A} (f : E -> F) (c : st_res S E A) : st_res S F A :=
  fun s => let '(s, r) := c s in (s, map_err f r).

(** The loop over the pages of a directory; a page holds at least one entry
    more than the page before, so the number of files bounds the pages. *)
Fixpoint for_pages {E X} (fuel page : nat) (store_error : DiagnosticStoreError -> E) (exhausted : E)
    (visit : X -> DiagnosticEntry -> st_res DiagnosticStore E X) (after : option (list Z)) (x : X) (pages : Z)
  : st_res DiagnosticStore E (X * Z) :=
  match fuel with
  | O => st_err exhausted
  | S fuel =>
      let! p := st_map_err store_error (entries_page after page) in
      let pages := sat_add64 pages 1 in
      let! x := st_fold visit x (fst p) in
      match snd p with
      | None => st_ret (x, pages)
      | Some next => for_pages fuel page store_error exhausted visit (Some next) x pages
      end
  end.

Definition over_pages {E X} (page : nat) (store_error : DiagnosticStoreError -> E) (exhausted : E)
    (visit : X -> DiagnosticEntry -> st_res DiagnosticStore E X) (x : X) : st_res DiagnosticStore E (X * Z) := fun s =>
  for_pages (S (length (ds_nodes s))) page store_error exhausted visit None x 0 s.

(** ** Batches *)
Inductive BatchLimit : Set := LimitEventCount | LimitEventBytes.
Inductive BatchConfigurationError : Set := InvalidLimits.

Record DurableBatch : Set := mkBatch {
  ba_events : list PreparedDiagnosticEvent;
  ba_event_bytes : Z;
  ba_max_events : Z;
  ba_max_event_bytes : Z
}.

Definition DurableBatch_new : DurableBatch := mkBatch [] 0 MAX_BATCH_EVENTS MAX_BATCH_EVENT_BYTES.

Definition DurableBatch_with_limits (max_events max_event_bytes : Z) : result BatchConfigurationError DurableBatch :=
  if (max_events =? 0) || (MAX_BATCH_EVENTS <? max_events) || (max_event_bytes =? 0)
     || (MAX_BATCH_EVENT_BYTES <? max_event_bytes)
  then Err InvalidLimits
  else Ok (mkBatch [] 0 max_events max_event_bytes).

Definition batch_try_push (b : DurableBatch) (event : PreparedDiagnosticEvent) : result BatchLimit DurableBatch :=
  if ba_max_events b <=? zlen (ba_events b) then Err LimitEventCount
  else
    let? next_bytes := ok_or (checked_add64 (ba_event_bytes b) (encoded_len event)) LimitEventBytes in
    if ba_max_event_bytes b <? next_bytes then Err LimitEventBytes
    else Ok (mkBatch (ba_events b ++ [event]) next_bytes (ba_max_events b) (ba_max_event_bytes b)).

Definition batch_is_empty (b : DurableBatch) : bool := is_emptyb (ba_events b).
Definition event_count (b : DurableBatch) : Z := zlen (ba_events b).

(** ** Segments *)
Inductive SegmentRecoveryOperation : Set :=
| OpenDirectory | Enumerate | OpenSegment | ScanSegment | CreateSegment | TruncateSegment.
Inductive SegmentRecoveryFailure : Set := RecoveryInvalidBoundary | RecoveryIo.
Inductive SegmentError : Set :=
| InvalidLimit | EventExceedsSegment | InvalidData
| SegmentRecovery (operation : SegmentRecoveryOperation) (failure : SegmentRecoveryFailure) | SegmentIo.

Inductive FlushOutcome : Set := FlushNoop | FlushWritten | FlushRotated (count active_segment : Z).

Definition rotation_count (o : FlushOutcome) : Z := match o with FlushRotated count _ => count | _ => 0 end.
Definition outcome_active_segment (o : FlushOutcome) : option Z :=
  match o with FlushRotated _ active => Some active | _ => None end.

Record RecoveryReport : Set := mkRecoveryReport {
  rr_truncated_bytes : Z;
  rr_active_segment : Z;
  rr_last_sequence : Z;
  rr_last_event_id : option Z
}.

Inductive SegmentScanStatus : Set := ScanComplete | ScanTornTail | ScanCorrupt.

#[global] Instance SegmentScanStatus_eq_dec : EqDecision SegmentScanStatus.
Proof. solve_decision. Defined.

Record SegmentScan : Set := mkScan {
  sc_valid_len : Z;
  sc_first_sequence : option Z;
  sc_last_sequence : option Z;
  sc_last_event_id : option Z;
  sc_status : SegmentScanStatus
}.

Definition map_segment_error (e : DiagnosticStoreError) : SegmentError :=
  match e with
  | StoreUnsafePath | StoreChanged | StoreUnavailable | StoreSizeLimitExceeded => InvalidData
  | _ => SegmentIo
  end.

Definition map_recovery_error (operation : SegmentRecoveryOperation) (e : DiagnosticStoreError) : SegmentError :=
  SegmentRecovery operation
    (match e with
     | StoreUnsafePath | StoreChanged | StoreUnavailable | StoreSizeLimitExceeded => RecoveryInvalidBoundary
     | StoreEnumerationLimitExceeded | StoreCleanupLimitExceeded | StoreIo => RecoveryIo
     end).

Definition segment_prefix : list Z := str_bytes "segment-".
Definition segment_suffix : list Z := str_bytes ".jsonl".

(** [format!("segment-{index:020}.jsonl")]. *)
Definition segment_name (index : Z) : list Z := segment_prefix ++ padded 20 index ++ segment_suffix.

Definition strip_suffix_bytes (suffix l : list Z) : option (list Z) := reverse <$> strip_bytes (reverse suffix) (reverse l).

Definition parse_segment_index (name : list Z) : option Z :=
  value ← strip_bytes segment_prefix name ≫= strip_suffix_bytes segment_suffix;
  if negb (length value =? 20)%nat || negb (forallb is_ascii_digit value) then None
  else
    let index := digits_value value in
    if (index <=? u64_max) && negb (index =? 0) then Some index else None.

(** [name().to_str().and_then(parse_segment_index)]. *)
Definition entry_index (entry : DiagnosticEntry) : option Z :=
  if utf8_valid (de_name entry) then parse_segment_index (de_name entry) else None.

(** ** Scanning *)
Section Segments.
Context `{HD : DiagnosticCrates, HJ : DiagnosticJson, HC : CryptoCrate}.

(** The locals of the scan. *)
Record ScanState : Set := mkScanState {
  ss_valid_len : Z;
  ss_first_sequence : option Z;
  ss_last_sequence : option Z;
  ss_last_event_id : option Z;
  ss_line : list Z;
  ss_oversized : bool
}.

Definition scan_start : ScanState := mkScanState 0 None None None [] false.

Definition scan_with (st : ScanState) (status : SegmentScanStatus) : SegmentScan :=
  mkScan (ss_valid_len st) (ss_first_sequence st) (ss_last_sequence st) (ss_last_event_id st) status.

(** The body of the loop over the bytes of a chunk; [Err] leaves the function. *)
Definition scan_byte (maximum_line_bytes chunk_start index : Z) (st : ScanState) (byte : Z)
  : result (result SegmentError SegmentScan) ScanState :=
  if negb (byte =? newline) then
    Ok (if ss_oversized st then st
        else if zlen (ss_line st) =? maximum_line_bytes
             then mkScanState (ss_valid_len st) (ss_first_sequence st) (ss_last_sequence st) (ss_last_event_id st)
                    (ss_line st) true
             else mkScanState (ss_valid_len st) (ss_first_sequence st) (ss_last_sequence st) (ss_last_event_id st)
                    (ss_line st ++ [byte]) false)
  else if ss_oversized st then Err (Ok (scan_with st ScanCorrupt))
  else
    match decode_trusted_prepared_encoding (ss_line st) with
    | Err _ => Err (Ok (scan_with st ScanCorrupt))
    | Ok event =>
        if is_some_and (fun l => ev_sequence event <=? l) (ss_last_sequence st) then Err (Ok (scan_with st ScanCorrupt))
        else
          let? valid_len := ok_or (checked_add64 chunk_start (sat_add64 index 1)) (Err InvalidData) in
          Ok (mkScanState valid_len
                (Some (default (ev_sequence event) (ss_first_sequence st))) (Some (ev_sequence event))
                (Some (uuid_number (ev_event_id event))) [] false)
    end.

Fixpoint scan_bytes (maximum_line_bytes chunk_start index : Z) (st : ScanState) (bytes : list Z)
  : result (result SegmentError SegmentScan) ScanState :=
  match bytes with
  | [] => Ok st
  | byte :: bytes =>
      let? st := scan_byte maximum_line_bytes chunk_start index st byte in
      scan_bytes maximum_line_bytes chunk_start (index + 1) st bytes
  end.

Definition scan_end (st : ScanState) : SegmentScan :=
  if negb (is_emptyb (ss_line st)) || ss_oversized st
  then scan_with st (if ss_valid_len st =? 0 then ScanCorrupt else ScanTornTail)
  else scan_with st ScanComplete.

(** The loop over the chunks; a chunk is never empty, so the length bounds them. *)
Fixpoint scan_chunks {S} (fuel : nat) (file_len read_chunk_bytes maximum_line_bytes : Z)
    (read : Z -> Z -> st_res S SegmentError (list Z)) (read_offset : Z) (st : ScanState)
  : st_res S SegmentError SegmentScan :=
  match fuel with
  | O => st_err InvalidData
  | S fuel =>
      if file_len <=? read_offset then st_ret (scan_end st)
      else
        let requested := Z.min read_chunk_bytes (sat_sub file_len read_offset) in
        let! bytes := read read_offset requested in
        if is_emptyb bytes || (requested <? zlen bytes) then st_err InvalidData
        else
          let! next := st_lift (ok_or (checked_add64 read_offset (zlen bytes)) InvalidData) in
          match scan_bytes maximum_line_bytes read_offset 0 st bytes with
          | Err (Ok scan) => st_ret scan
          | Err (Err e) => st_err e
          | Ok st => scan_chunks fuel file_len read_chunk_bytes maximum_line_bytes read next st
          end
  end.

Definition scan_segment_with_reader {S} (file_len read_chunk_bytes maximum_line_bytes : Z)
    (read : Z -> Z -> st_res S SegmentError (list Z)) : st_res S SegmentError SegmentScan :=
  if (read_chunk_bytes =? 0) || (maximum_line_bytes =? 0) then st_err InvalidData
  else scan_chunks (Datatypes.S (Z.to_nat file_len)) file_len read_chunk_bytes maximum_line_bytes read 0 scan_start.

Definition scan_segment (file : DiagnosticFile) : st_res DiagnosticStore SegmentError SegmentScan :=
  scan_segment_with_reader (de_len (df_snapshot file)) MAX_PREPARED_EVENT_BYTES MAX_PREPARED_EVENT_BYTES
    (fun offset maximum_bytes => st_map_err (map_recovery_error ScanSegment) (read_range file offset maximum_bytes)).

Definition validate_line (range : option Z * option Z) (line : list Z) : option (option Z * option Z) :=
  if is_emptyb line then None
  else
    match decode_trusted_prepared_encoding line with
    | Err _ => None
    | Ok event =>
        if is_some_and (fun previous => ev_sequence event <=? previous) (snd range) then None
        else Some (Some (default (ev_sequence event) (fst range)), Some (ev_sequence event))
    end.

Fixpoint validate_lines (range : option Z * option Z) (lines : list (list Z)) : option (option Z * option Z) :=
  match lines with
  | [] => Some range
  | line :: lines => range ← validate_line range line; validate_lines range lines
  end.

Definition validate_complete_segment_bytes (bytes : list Z) : option (Z * Z) :=
  if is_emptyb bytes || (MAX_SEGMENT_BYTES <? zlen bytes) || negb (bool_decide (list.last bytes = Some newline)) then None
  else
    range ← validate_lines (None, None) (split_bytes newline (take (length bytes - 1) bytes));
    first ← fst range; lst ← snd range; Some (first, lst).

(** ** The writer *)
Record SegmentWriter : Set := mkWriter {
  sw_segment_limit : Z;
  sw_directory : bool;
  sw_active : option DiagnosticFile;
  sw_active_len : Z;
  sw_last_sequence : Z;
  sw_last_event_id : option Z;
  sw_next_segment : Z;
  sw_initialized : bool
}.

Definition SegmentWriter_new : SegmentWriter := mkWriter MAX_SEGMENT_BYTES false None 0 0 None 1 false.

Definition with_segment_limit (segment_limit : Z) : result SegmentError SegmentWriter :=
  if (segment_limit =? 0) || (MAX_SEGMENT_BYTES <? segment_limit) then Err InvalidLimit
  else Ok (mkWriter segment_limit false None 0 0 None 1 false).

(** A writer and the directory it writes to. *)
Record SegmentDisk : Set := mkDisk { sd_store : DiagnosticStore; sd_writer : SegmentWriter }.

Definition segment_op (A : Type) : Type := st_res SegmentDisk SegmentError A.

Definition on_store {A} (c : st_res DiagnosticStore SegmentError A) : segment_op A := fun d =>
  let '(s, r) := c (sd_store d) in (mkDisk s (sd_writer d), r).

Definition writer_mod (f : SegmentWriter -> SegmentWriter) : segment_op unit :=
  st_mod (fun d => mkDisk (sd_store d) (f (sd_writer d))).

(** What recovery carries from segment to segment: the last one with its scan,
    and the end of the ones before it. *)
Record RecoveryState : Set := mkRecoveryState {
  rs_pending : option (Z * DiagnosticFile * SegmentScan);
  rs_immutable_last_sequence : Z;
  rs_immutable_last_event_id : option Z
}.

Definition recover_entry (maximum_size : Z) (rs : RecoveryState) (entry : DiagnosticEntry)
  : st_res DiagnosticStore SegmentError RecoveryState :=
  match entry_index entry with
  | None => st_ret rs
  | Some index =>
      let! file := st_map_err (map_recovery_error OpenSegment) (open_entry entry maximum_size) in
      let! scan := scan_segment file in
      match rs_pending rs with
      | None =>
          st_ret (mkRecoveryState (Some (index, file, scan)) (rs_immutable_last_sequence rs) (rs_immutable_last_event_id rs))
      | Some (_, _, previous_scan) =>
          if negb (bool_decide (sc_status previous_scan = ScanComplete)) then st_err InvalidData
          else
            let! previous_last := st_lift (ok_or (sc_last_sequence previous_scan) InvalidData) in
            if is_some_and (fun first => first <=? previous_last) (sc_first_sequence scan) then st_err InvalidData
            else st_ret (mkRecoveryState (Some (index, file, scan)) previous_last (sc_last_event_id previous_scan))
      end
  end.

Definition recover : segment_op RecoveryReport :=
  do! on_store (st_map_err (map_recovery_error OpenDirectory) DiagnosticDirectory_open);
  let! d := st_get in
  let maximum_size := sw_segment_limit (sd_writer d) in
  let! found := on_store (over_pages RECOVERY_PAGE_ENTRIES (map_recovery_error Enumerate) InvalidData
                            (recover_entry maximum_size) (mkRecoveryState None 0 None)) in
  let rs := fst found in
  let! last :=
    match rs_pending rs with
    | Some last => st_ret last
    | None =>
        let! active := on_store (st_map_err (map_recovery_error CreateSegment) (create_new (segment_name 1) [] maximum_size)) in
        st_ret (1, active, mkScan 0 None None None ScanComplete)
    end in
  let '(active_index, active, scan) := last in
  let truncated_bytes :=
    if negb (bool_decide (sc_status scan = ScanComplete)) then sat_sub (de_len (df_snapshot active)) (sc_valid_len scan)
    else 0 in
  let! active :=
    (if negb (truncated_bytes =? 0)
     then on_store (st_map_err (map_recovery_error TruncateSegment) (DiagnosticFile_truncate active (sc_valid_len scan)))
     else st_ret active) in
  let! next_segment := st_lift (ok_or (checked_add64 active_index 1) InvalidData) in
  let last_sequence := default (rs_immutable_last_sequence rs) (sc_last_sequence scan) in
  let last_event_id := match sc_last_event_id scan with Some id => Some id | None => rs_immutable_last_event_id rs end in
  do! writer_mod (fun w => mkWriter (sw_segment_limit w) true (Some active) (de_len (df_snapshot active))
                             last_sequence last_event_id next_segment true);
  st_ret (mkRecoveryReport truncated_bytes active_index last_sequence last_event_id).

Definition reset_after_failure (w : SegmentWriter) : SegmentWriter :=
  mkWriter (sw_segment_limit w) false None 0 0 None (sw_next_segment w) false.

(** [if result.is_err() { self.reset_after_failure() }]. *)
Definition resetting {A} (c : segment_op A) : segment_op A := fun d =>
  let '(d, r) := c d in
  (match r with Ok _ => d | Err _ => mkDisk (sd_store d) (reset_after_failure (sd_writer d)) end, r).

Definition append (bytes : list Z) : segment_op unit :=
  if is_emptyb bytes then st_ret tt
  else resetting (
    let! d := st_get in
    let! active := st_lift (ok_or (sw_active (sd_writer d)) InvalidData) in
    let! active := on_store (st_map_err map_segment_error (DiagnosticFile_append active bytes)) in
    let! active_len := st_lift (ok_or (checked_add64 (sw_active_len (sd_writer d)) (zlen bytes)) InvalidData) in
    writer_mod (fun w => mkWriter (sw_segment_limit w) (sw_directory w) (Some active) active_len
                           (sw_last_sequence w) (sw_last_event_id w) (sw_next_segment w) (sw_initialized w))).

Definition rotate : segment_op unit :=
  let! d := st_get in
  if sw_active_len (sd_writer d) =? 0 then st_ret tt
  else resetting (
    do! st_lift (ok_or (sw_active (sd_writer d)) InvalidData);
    do! writer_mod (fun w => mkWriter (sw_segment_limit w) (sw_directory w) None (sw_active_len w)
                               (sw_last_sequence w) (sw_last_event_id w) (sw_next_segment w) (sw_initialized w));
    do! st_lift (if sw_directory (sd_writer d) then Ok tt else Err InvalidData);
    let! active := on_store (st_map_err map_segment_error
      (create_new (segment_name (sw_next_segment (sd_writer d))) [] (sw_segment_limit (sd_writer d)))) in
    let! next_segment := st_lift (ok_or (checked_add64 (sw_next_segment (sd_writer d)) 1) InvalidData) in
    writer_mod (fun w => mkWriter (sw_segment_limit w) (sw_directory w) (Some active) 0
                           (sw_last_sequence w) (sw_last_event_id w) next_segment (sw_initialized w))).

(** The loop that checks the sequence numbers of a batch. *)
Definition check_sequence (last : Z * option Z) (event : PreparedDiagnosticEvent) : result SegmentError (Z * option Z) :=
  if sequence event <=? fst last then Err InvalidData else Ok (sequence event, Some (event_id event)).

(** The loop that fills the segments: the bytes not yet appended, and the rotations. *)
Definition flush_event (acc : list Z * Z) (event : PreparedDiagnosticEvent) : segment_op (list Z * Z) :=
  let '(pending, rotations) := acc in
  let! d := st_get in
  let! line_len := st_lift (ok_or (checked_add64 (encoded_len event) 1) InvalidData) in
  if sw_segment_limit (sd_writer d) <? line_len then st_err EventExceedsSegment
  else
    let! next_len := st_lift (ok_or (length ← checked_add64 (sw_active_len (sd_writer d)) (zlen pending);
                                     checked_add64 length line_len) InvalidData) in
    let! acc :=
      (if sw_segment_limit (sd_writer d) <? next_len
       then do! append pending; do! rotate; st_ret ([], sat_add64 rotations 1)
       else st_ret (pending, rotations)) in
    st_ret (fst acc ++ encoded event ++ [newline], snd acc).

Definition flush (batch : DurableBatch) : segment_op FlushOutcome :=
  if batch_is_empty batch then st_ret FlushNoop
  else
    let! d := st_get in
    do! (if sw_initialized (sd_writer d) then st_ret tt else let! _ := recover in st_ret tt);
    let! d := st_get in
    let! final := st_lift (try_fold check_sequence (sw_last_sequence (sd_writer d), sw_last_event_id (sd_writer d))
                             (ba_events batch)) in
    do! st_lift (ok_or (checked_add64 (ba_event_bytes batch) (event_count batch)) InvalidData);
    let! acc := st_fold flush_event ([], 0) (ba_events batch) in
    do! append (fst acc);
    do! writer_mod (fun w => mkWriter (sw_segment_limit w) (sw_directory w) (sw_active w) (sw_active_len w)
                               (fst final) (snd final) (sw_next_segment w) (sw_initialized w));
    let! d := st_get in
    st_ret (if snd acc =? 0 then FlushWritten
            else FlushRotated (snd acc) (sat_sub (sw_next_segment (sd_writer d)) 1)).

(** ** Retention *)
Inductive RetentionTrigger : Set := TriggerStartup | TriggerRotation | TriggerBatchFlush | TriggerIdleTick | TriggerQuery.

Definition performs_retention (t : RetentionTrigger) : bool :=
  match t with TriggerStartup | TriggerRotation => true | _ => false end.

Inductive RetentionError : Set := RetentionInvalidPolicy | UnsafeBoundary | RetentionIo | EntryLimit.

Record RetentionPolicy : Set := mkPolicy { rp_max_age : Z; rp_max_bytes : Z }.

Definition RetentionPolicy_standard : RetentionPolicy := mkPolicy MAX_RETENTION_AGE MAX_CLOSED_SEGMENT_BYTES.

Definition RetentionPolicy_with_limits (max_age max_bytes : Z) : result RetentionError RetentionPolicy :=
  if (MAX_RETENTION_AGE <? max_age) || (MAX_CLOSED_SEGMENT_BYTES <? max_bytes) then Err RetentionInvalidPolicy
  else Ok (mkPolicy max_age max_bytes).

Record RetentionReport : Set := mkRetentionReport {
  rt_noop : bool;
  rt_removed_files : Z;
  rt_removed_bytes : Z;
  rt_pages_scanned : Z
}.

Definition RetentionReport_default : RetentionReport := mkRetentionReport false 0 0 0.

Definition map_retention_error (e : DiagnosticStoreError) : RetentionError :=
  match e with
  | StoreUnsafePath | StoreChanged | StoreUnavailable | StoreSizeLimitExceeded => UnsafeBoundary
  | StoreEnumerationLimitExceeded => EntryLimit
  | _ => RetentionIo
  end.

Definition retention_op (A : Type) : Type := st_res DiagnosticStore RetentionError A.

Definition read_owned_segment (file : DiagnosticFile) : retention_op (list Z) :=
  let length := de_len (df_snapshot file) in
  if (length =? 0) || (MAX_SEGMENT_BYTES <? length) then st_err UnsafeBoundary
  else
    let! bytes := st_map_err map_retention_error (read_range file 0 length) in
    if negb (zlen bytes =? length) then st_err UnsafeBoundary else st_ret bytes.

(** [ClosedSegmentLease::open]; the lease is known by the identity of its file. *)
Definition ClosedSegmentLease_open (entry : DiagnosticEntry) : retention_op Z :=
  let! file := st_map_err map_retention_error (open_entry entry u64_max) in
  if negb (utf8_valid (de_name (df_snapshot file))) || negb (is_someb (parse_segment_index (de_name (df_snapshot file))))
  then st_err UnsafeBoundary
  else
    let! bytes := read_owned_segment file in
    do! st_lift (ok_or (validate_complete_segment_bytes bytes) UnsafeBoundary);
    st_ret (de_identity (df_snapshot file)).

(** The body of [scan_owned]: the last sequence number and the highest index so far. *)
Definition owned_entry (active_segment : option Z) (acc : Z * Z) (entry : DiagnosticEntry) : retention_op (Z * Z) :=
  match entry_index entry with
  | None => st_ret acc
  | Some index =>
      let '(last_sequence, highest_index) := acc in
      let highest_index := Z.max highest_index index in
      if bool_decide (active_segment = Some index) then st_ret (last_sequence, highest_index)
      else
        let! file := st_map_err map_retention_error (open_entry entry MAX_SEGMENT_BYTES) in
        let! bytes := read_owned_segment file in
        let! range := st_lift (ok_or (validate_complete_segment_bytes bytes) UnsafeBoundary) in
        if fst range <=? last_sequence then st_err UnsafeBoundary else st_ret (snd range, highest_index)
  end.

Definition scan_owned (active_segment : option Z) : retention_op (Z * Z) :=
  let! found := over_pages RETENTION_PAGE_ENTRIES map_retention_error UnsafeBoundary (owned_entry active_segment) (0, 0) in
  st_ret (snd found, snd (fst found)).

(** [scan_canonical_metadata]: a candidate is an entry with its index. *)
Definition scan_canonical_metadata {X} (visit : X -> DiagnosticEntry -> Z -> retention_op X) (x : X)
  : retention_op (X * Z) :=
  over_pages RETENTION_PAGE_ENTRIES map_retention_error UnsafeBoundary
    (fun x entry => match entry_index entry with None => st_ret x | Some index => visit x entry index end) x.

Definition expired_by_age (modified : option Z) (now maximum_age : Z) : bool :=
  is_some_and (fun m => (m <=? now) && (maximum_age <? now - m)) modified.

Definition is_leased (identity : Z) (leases : list Z) : bool := existsb (fun l => l =? identity) leases.

Definition revalidate_candidate_for_removal (entry : DiagnosticEntry) : retention_op unit :=
  let! file := st_map_err map_retention_error (open_entry entry MAX_SEGMENT_BYTES) in
  let! bytes := read_owned_segment file in
  do! st_lift (ok_or (validate_complete_segment_bytes bytes) UnsafeBoundary);
  st_ret tt.

Definition remove_candidate (entry : DiagnosticEntry) (report : RetentionReport) : retention_op RetentionReport :=
  do! st_map_err map_retention_error (remove entry);
  st_ret (mkRetentionReport (rt_noop report) (sat_add64 (rt_removed_files report) 1)
            (sat_add64 (rt_removed_bytes report) (de_len entry)) (rt_pages_scanned report)).

Definition add_pages (report : RetentionReport) (pages : Z) : RetentionReport :=
  mkRetentionReport (rt_noop report) (rt_removed_files report) (rt_removed_bytes report)
    (sat_add64 (rt_pages_scanned report) pages).

(** The first pass: what is too old goes, the rest is counted. *)
Definition age_candidate (policy : RetentionPolicy) (now highest_index : Z) (leases : list Z)
    (acc : Z * RetentionReport) (entry : DiagnosticEntry) (index : Z) : retention_op (Z * RetentionReport) :=
  let '(retained, report) := acc in
  if index =? highest_index then st_ret acc
  else if expired_by_age (de_modified entry) now (rp_max_age policy) && negb (is_leased (de_identity entry) leases)
  then
    do! revalidate_candidate_for_removal entry;
    let! report := remove_candidate entry report in
    st_ret (retained, report)
  else st_ret (sat_add64 retained (de_len entry), report).

(** The second pass: the oldest go until the rest fits. *)
Definition size_candidate (policy : RetentionPolicy) (highest_index : Z) (leases : list Z)
    (acc : Z * RetentionReport) (entry : DiagnosticEntry) (index : Z) : retention_op (Z * RetentionReport) :=
  let '(retained, report) := acc in
  if retained <=? rp_max_bytes policy then st_ret acc
  else if (index =? highest_index) || is_leased (de_identity entry) leases then st_ret acc
  else
    do! revalidate_candidate_for_removal entry;
    let! report := remove_candidate entry report in
    st_ret (sat_sub retained (de_len entry), report).

(** The two passes over an open directory. *)
Definition enforce_open (policy : RetentionPolicy) (now : Z) (leases : list Z) (active_segment : option Z)
  : retention_op RetentionReport :=
  let! owned := scan_owned active_segment in
  let '(validation_pages, discovered_active) := owned in
  let report := add_pages RetentionReport_default validation_pages in
  if is_some_and (fun active => negb (active =? discovered_active)) active_segment then st_err UnsafeBoundary
  else
    let highest_index := default discovered_active active_segment in
    let! aged := scan_canonical_metadata (age_candidate policy now highest_index leases) (0, report) in
    let '(retained, report, pages) := aged in
    let report := add_pages report pages in
    if rp_max_bytes policy <? retained then
      let! sized := scan_canonical_metadata (size_candidate policy highest_index leases) (retained, report) in
      let '(_, report, pages) := sized in
      st_ret (add_pages report pages)
    else st_ret report.

(** [RetentionManager]: whether its directory is open already. *)
Record RetentionManager : Set := mkRetention { rm_policy : RetentionPolicy; rm_directory : bool }.

Definition RetentionManager_with_policy (policy : RetentionPolicy) : RetentionManager := mkRetention policy false.
Definition RetentionManager_new : RetentionManager := RetentionManager_with_policy RetentionPolicy_standard.

Definition enforce_with_active (trigger : RetentionTrigger) (now : Z) (leases : list Z) (active_segment : option Z)
    (m : RetentionManager) (s : DiagnosticStore)
  : DiagnosticStore * RetentionManager * result RetentionError RetentionReport :=
  if negb (performs_retention trigger) then (s, m, Ok (mkRetentionReport true 0 0 0))
  else
    let '(s, opened) := (if rm_directory m then (s, Ok tt) else DiagnosticDirectory_open s) in
    match opened with
    | Err StoreUnavailable => (s, m, Ok RetentionReport_default)
    | Err e => (s, m, Err (map_retention_error e))
    | Ok _ =>
        let '(s, r) := enforce_open (rm_policy m) now leases active_segment s in
        (s, mkRetention (rm_policy m) true, r)
    end.

Definition enforce (trigger : RetentionTrigger) (now : Z) (leases : list Z) (m : RetentionManager) (s : DiagnosticStore)
  : DiagnosticStore * RetentionManager * result RetentionError RetentionReport :=
  enforce_with_active trigger now leases None m s.
End Segments.
