(* ===== verification/SegmentsSpec.v ===== *)
(** * What the durable log of diagnostics keeps

    Whatever the file system does, a flush adds its whole batch to the log on
    disk or a prefix of it, recovery keeps every complete line, and retention
    only removes whole closed segments. *)
From S2P Require Import Prelude Ring Text Json Ident Catalog CatalogSpec AuthRegistry Security SecuritySpec ManagementApi Calendar.
From S2P Require Import DiagnosticEvent DiagnosticSpec Segments.

Lemma zlen_nil {A} : zlen (@nil A) = 0.
Proof. done. Qed.

(** ** Names *)
Lemma bytes_ltb_irrefl a : bytes_ltb a a = false.
Proof. induction a as [|x a IH]; [done|]. cbn. rewrite Z.ltb_irrefl, Z.eqb_refl. done. Qed.

Lemma bytes_ltb_trans a b c : bytes_ltb a b = true -> bytes_ltb b c = true -> bytes_ltb a c = true.
Proof.
  revert b c. induction a as [|x a IH]; intros [|y b] [|z c]; cbn; try done.
  repeat case_match; naive_solver lia || eauto.
Qed.

Lemma bytes_ltb_total a b : bytes_ltb a b = false -> a <> b -> bytes_ltb b a = true.
Proof.
  revert b. induction a as [|x a IH]; intros [|y b]; cbn; try done.
  destruct (Z.ltb_spec x y), (Z.eqb_spec x y), (Z.ltb_spec y x), (Z.eqb_spec y x); try lia; try done.
  intros Hlt Hne. subst. apply IH; [done|]. congruence.
Qed.

Lemma bytes_ltb_app p a b : bytes_ltb (p ++ a) (p ++ b) = bytes_ltb a b.
Proof. induction p as [|x p IH]; [done|]. cbn. by rewrite Z.ltb_irrefl, Z.eqb_refl. Qed.

Lemma bytes_ltb_app_r a b s t : length a = length b -> bytes_ltb a b = true -> bytes_ltb (a ++ s) (b ++ t) = true.
Proof.
  revert b. induction a as [|x a IH]; intros [|y b]; cbn; try done. intros [= Hl].
  destruct (x <? y); [done|]. destruct (x =? y); [|done]. auto.
Qed.

Lemma digits_value_cons b l : digits_value (b :: l) = (b - 48) * 10 ^ zlen l + digits_value l.
Proof.
  assert (forall n, fold_left (fun n b => n * 10 + (b - 48)) l n = n * 10 ^ zlen l + digits_value l) as H.
  { unfold digits_value. induction l as [|x l IH]; intros n; [cbn; change (10 ^ zlen []) with 1; lia|]. cbn [fold_left].
    rewrite IH, (IH (0 * 10 + _)), zlen_cons, Z.pow_add_r by (try lia; apply zlen_nonneg). rewrite Z.pow_1_r. ring. }
  unfold digits_value at 1. cbn [fold_left]. rewrite H. lia.
Qed.

Lemma digits_value_range l : Forall (fun b => is_ascii_digit b = true) l -> 0 <= digits_value l < 10 ^ zlen l.
Proof.
  induction 1 as [|b l Hb _ IH]; [done|]. rewrite digits_value_cons, zlen_cons, Z.pow_add_r by (try lia; apply zlen_nonneg).
  unfold is_ascii_digit in Hb. assert (0 <= b - 48 <= 9) by lia. nia.
Qed.

Lemma digits_value_lt a b : length a = length b ->
  Forall (fun b => is_ascii_digit b = true) a -> Forall (fun b => is_ascii_digit b = true) b ->
  digits_value a < digits_value b -> bytes_ltb a b = true.
Proof.
  revert b. induction a as [|x a IH]; intros [|y b]; try done. intros [= Hl] [Hx Ha]%list.Forall_cons [Hy Hb]%list.Forall_cons.
  rewrite !digits_value_cons. pose proof (digits_value_range a Ha). pose proof (digits_value_range b Hb).
  assert (zlen a = zlen b) as Hz by (unfold zlen; lia). rewrite Hz in *. cbn. intros Hlt.
  destruct (Z.ltb_spec x y); [done|]. destruct (Z.eqb_spec x y) as [->|]; [apply IH; [done..|lia]|]. nia.
Qed.

Lemma digits_value_inj a b : length a = length b ->
  Forall (fun b => is_ascii_digit b = true) a -> Forall (fun b => is_ascii_digit b = true) b ->
  digits_value a = digits_value b -> a = b.
Proof.
  revert b. induction a as [|x a IH]; intros [|y b]; try done. intros [= Hl] [Hx Ha]%list.Forall_cons [Hy Hb]%list.Forall_cons.
  rewrite !digits_value_cons. pose proof (digits_value_range a Ha). pose proof (digits_value_range b Hb).
  assert (zlen a = zlen b) as Hz by (unfold zlen; lia). rewrite Hz in *. intros Heq.
  assert (x = y) as -> by nia. f_equal. apply IH; [done..|lia].
Qed.

Lemma strip_bytes_Some p l r : strip_bytes p l = Some r -> l = p ++ r.
Proof.
  revert l. induction p as [|x p IH]; intros [|y l]; cbn; try done; try congruence.
  destruct (Z.eqb_spec x y) as [->|]; [|done]. intros Hs. f_equal. auto.
Qed.

(** A segment's name is its index in twenty digits. *)
Lemma parse_segment_name name i : parse_segment_index name = Some i ->
  exists v, name = segment_prefix ++ v ++ segment_suffix /\ length v = 20%nat /\
    Forall (fun b => is_ascii_digit b = true) v /\ digits_value v = i /\ 0 < i <= u64_max.
Proof.
  unfold parse_segment_index, strip_suffix_bytes. destruct (strip_bytes segment_prefix name) as [r|] eqn:E; [|done].
  apply strip_bytes_Some in E as ->. cbn [mbind option_bind].
  destruct (strip_bytes (reverse segment_suffix) (reverse r)) as [v|] eqn:E; [|done].
  apply strip_bytes_Some in E. apply (f_equal reverse) in E. rewrite reverse_involutive, reverse_app, reverse_involutive in E.
  subst r. cbn [fmap option_fmap option_map mbind option_bind].
  destruct (Nat.eqb_spec (length (reverse v)) 20); [|done]. destruct (forallb is_ascii_digit (reverse v)) eqn:Hd; [|done]. cbn [negb orb].
  rewrite forallb_forall in Hd.
  intros H. exists (reverse v).
  assert (Forall (fun b => is_ascii_digit b = true) (reverse v)) as Hf by (apply list.Forall_forall; intros; by apply Hd, list_elem_of_In).
  pose proof (digits_value_range _ Hf). case_match; simplify_eq. split_and!; try done; lia.
Qed.

Lemma parse_of_name i : 0 < i <= u64_max -> parse_segment_index (segment_name i) = Some i.
Proof.
  intros Hi. unfold parse_segment_index, segment_name, strip_suffix_bytes.
  rewrite strip_bytes_app. cbn [mbind option_bind]. rewrite reverse_app, strip_bytes_app.
  cbn [fmap option_fmap option_map mbind option_bind]. rewrite reverse_involutive.
  unfold u64_max in *. assert (padded 20 i = dig 20 i) as -> by (apply padded_dig; lia).
  rewrite dig_length, Nat.eqb_refl. assert (forallb is_ascii_digit (dig 20 i) = true) as ->.
  { apply forallb_forall. intros b Hb. eapply (proj1 (list.Forall_forall _ _) (dig_digits 20 i)), list_elem_of_In, Hb. }
  rewrite dig_value by (cbn; lia). cbn [negb orb]. rewrite (proj2 (Z.leb_le _ _)), (proj2 (Z.eqb_neq _ _)) by lia. done.
Qed.

Lemma name_lt_index a b i j : parse_segment_index a = Some i -> parse_segment_index b = Some j ->
  i < j -> bytes_ltb a b = true.
Proof.
  intros (v & -> & Hl & Hv & <- & _)%parse_segment_name (w & -> & Hl' & Hw & <- & _)%parse_segment_name Hlt.
  rewrite bytes_ltb_app. apply bytes_ltb_app_r; [lia|]. apply digits_value_lt; [lia|done..].
Qed.

Lemma name_of_index a b i : parse_segment_index a = Some i -> parse_segment_index b = Some i -> a = b.
Proof.
  intros (v & -> & Hl & Hv & Ei & _)%parse_segment_name (w & -> & Hl' & Hw & Ej & _)%parse_segment_name.
  do 2 f_equal. apply digits_value_inj; [lia|done|done|lia].
Qed.

Lemma index_lt_name a b i j : parse_segment_index a = Some i -> parse_segment_index b = Some j ->
  bytes_ltb a b = true -> i < j.
Proof.
  intros Ha Hb Hlt. destruct (Z.lt_trichotomy i j) as [|[->|Hgt]]; [done|..].
  - rewrite (name_of_index a b j Ha Hb), bytes_ltb_irrefl in Hlt. done.
  - pose proof (bytes_ltb_trans _ _ _ Hlt (name_lt_index b a j i Hb Ha Hgt)) as H. by rewrite bytes_ltb_irrefl in H.
Qed.

(** ** The directory *)
Definition name_lt (a b : DiagnosticNode) : Prop := bytes_ltb (nd_name a) (nd_name b) = true.
Definition sorted_nodes : list DiagnosticNode -> Prop := StronglySorted name_lt.

Definition node_index (n : DiagnosticNode) : option Z := entry_index (entry_of n).
Definition is_segment (n : DiagnosticNode) : bool := is_someb (node_index n).

(** The segments of a directory, in order. *)
Definition seg_nodes (nodes : list DiagnosticNode) : list DiagnosticNode := List.filter is_segment nodes.

Lemma sorted_app l k : sorted_nodes (l ++ k) <->
  sorted_nodes l /\ sorted_nodes k /\ forall a b, a ∈ l -> b ∈ k -> name_lt a b.
Proof. unfold sorted_nodes. rewrite StronglySorted_app. naive_solver. Qed.

Lemma name_lt_ne a b : name_lt a b -> nd_name a <> nd_name b.
Proof. unfold name_lt. intros H E. rewrite E, bytes_ltb_irrefl in H. done. Qed.

Lemma name_lt_asym a b : name_lt a b -> bytes_ltb (nd_name b) (nd_name a) = false.
Proof.
  unfold name_lt. intros H. destruct (bytes_ltb (nd_name b) _) eqn:E; [|done].
  pose proof (bytes_ltb_trans _ _ _ H E) as F. by rewrite bytes_ltb_irrefl in F.
Qed.

Lemma find_node_elem nodes n : sorted_nodes nodes -> n ∈ nodes -> find_node (nd_name n) nodes = Some n.
Proof.
  intros Hs Hn. apply list_elem_of_split in Hn as (l & k & ->). apply sorted_app in Hs as (_ & _ & Hl).
  unfold find_node. induction l as [|x l IH]; cbn; [by rewrite bool_decide_true by done|].
  rewrite bool_decide_false by (apply name_lt_ne, Hl; set_solver). apply IH. intros. apply Hl; set_solver.
Qed.

Lemma find_node_Some nodes name n : find_node name nodes = Some n -> n ∈ nodes /\ nd_name n = name.
Proof. intros [Hn Hb]%find_some. split; [by apply list_elem_of_In|by apply bool_decide_eq_true in Hb]. Qed.

Lemma sorted_filter p nodes : sorted_nodes nodes -> sorted_nodes (List.filter p nodes).
Proof.
  unfold sorted_nodes. induction 1 as [|n nodes _ IH Hf]; [constructor|]. cbn. case_match; [|done]. constructor; [done|].
  apply list.Forall_forall. intros m [Hm _]%list_elem_of_In%filter_In. by apply (proj1 (list.Forall_forall _ _) Hf), list_elem_of_In.
Qed.

Lemma is_segment_name n m : nd_name n = nd_name m -> is_segment n = is_segment m.
Proof. unfold is_segment, node_index, entry_index, entry_of. cbn. by intros ->. Qed.

Lemma replace_names node nodes : nd_name <$> replace_node node nodes = nd_name <$> nodes.
Proof.
  unfold replace_node. rewrite <- list_fmap_compose. apply list_fmap_ext. intros i n _. cbn. case_bool_decide; done.
Qed.

Lemma sorted_names l k : nd_name <$> l = nd_name <$> k -> sorted_nodes l -> sorted_nodes k.
Proof.
  revert k. induction l as [|a l IH]; intros [|b k]; try done. cbn [fmap list_fmap]. intros [= Hn Ht] [Hs Hf]%StronglySorted_inv.
  constructor; [by apply IH|]. assert (Forall (fun m => bytes_ltb (nd_name b) m = true) (nd_name <$> k)) as H.
  { rewrite <- Ht, list.Forall_fmap. eapply list.Forall_impl; [done|]. unfold name_lt. cbn. intros x. by rewrite Hn. }
  by rewrite list.Forall_fmap in H.
Qed.

Lemma segs_replace node nodes : seg_nodes (replace_node node nodes) = replace_node node (seg_nodes nodes).
Proof.
  unfold seg_nodes, replace_node. induction nodes as [|n nodes IH]; [done|]. cbn.
  assert (is_segment (if bool_decide (nd_name n = nd_name node) then node else n) = is_segment n) as ->.
  { case_bool_decide; [|done]. by apply is_segment_name. }
  destruct (is_segment n); cbn; by rewrite IH.
Qed.

Lemma replace_fresh node nodes : (forall n, n ∈ nodes -> nd_name n <> nd_name node) -> replace_node node nodes = nodes.
Proof.
  intros H. unfold replace_node. rewrite <- (list_fmap_id nodes) at 2. apply list_fmap_ext.
  intros i n Hn. rewrite bool_decide_false; [done|]. apply H. by eapply list_elem_of_lookup_2.
Qed.

Lemma replace_last l n node : sorted_nodes (l ++ [n]) -> nd_name n = nd_name node -> replace_node node (l ++ [n]) = l ++ [node].
Proof.
  intros (_ & _ & Hl)%sorted_app Hn. unfold replace_node. rewrite fmap_app. f_equal.
  - apply replace_fresh. intros m Hm. rewrite <- Hn. apply name_lt_ne, Hl; [done|set_solver].
  - cbn. by rewrite bool_decide_true.
Qed.

Lemma insert_sorted node nodes : sorted_nodes nodes -> find_node (nd_name node) nodes = None -> sorted_nodes (insert_node node nodes).
Proof.
  unfold sorted_nodes. induction 1 as [|n nodes Hs IH Hf]; intros Hn; [by repeat constructor|]. cbn.
  unfold find_node in Hn. cbn in Hn. case_bool_decide as Hne; [done|]. destruct (bytes_ltb (nd_name n) (nd_name node)) eqn:E.
  - constructor; [by apply IH|]. clear IH Hn Hne. induction nodes as [|m nodes IHn]; cbn; [by repeat constructor|].
    apply list.Forall_cons in Hf as [Hm Hf]. apply StronglySorted_inv in Hs as [Hs _]. case_match; repeat (constructor; auto).
  - assert (name_lt node n) as Hlt by (by apply bytes_ltb_total). constructor; [by constructor|]. constructor; [done|].
    eapply list.Forall_impl; [done|]. intros m Hm. by eapply bytes_ltb_trans.
Qed.

Lemma segs_insert node nodes : sorted_nodes nodes -> is_segment node = true ->
  (forall n, n ∈ seg_nodes nodes -> name_lt n node) -> seg_nodes (insert_node node nodes) = seg_nodes nodes ++ [node].
Proof.
  intros Hs Hseg. induction Hs as [|n nodes Hs IH Hf]; intros Hlt; cbn; [by rewrite Hseg|].
  destruct (bytes_ltb (nd_name n) (nd_name node)) eqn:E.
  - unfold seg_nodes in *. cbn. destruct (is_segment n) eqn:En; cbn in *; rewrite ?En in *.
    + f_equal. apply IH. intros m Hm. apply Hlt. set_solver.
    + by apply IH.
  - assert (seg_nodes (n :: nodes) = []) as Hnone.
    { apply elem_of_nil_inv. intros m Hm. pose proof (Hlt m Hm) as Hmn. unfold seg_nodes in Hm.
      apply list_elem_of_In, filter_In in Hm as [[->|Hm]%list_elem_of_In%elem_of_cons _]; [by rewrite Hmn in E|].
      pose proof (proj1 (list.Forall_forall _ _) Hf m Hm) as Hnm. unfold name_lt in Hnm.
      by rewrite (bytes_ltb_trans _ _ _ Hnm Hmn) in E. }
    unfold seg_nodes in *. cbn [List.filter] in *. by rewrite Hseg, Hnone.
Qed.

Lemma segs_delete name nodes : seg_nodes (delete_node name nodes) = delete_node name (seg_nodes nodes).
Proof.
  unfold seg_nodes, delete_node. induction nodes as [|n nodes IH]; [done|]. cbn.
  destruct (bool_decide _) eqn:E, (is_segment n) eqn:F; cbn; rewrite ?E, ?F; cbn; congruence.
Qed.

(** The files a listing shows after a name. *)
Definition visible (after : option (list Z)) (nodes : list DiagnosticNode) : list DiagnosticNode :=
  List.filter (fun n => is_none_or (fun a => bytes_ltb a (nd_name n)) after && negb (hidden_name (nd_name n))) nodes.

Lemma visible_step after nodes n rest : sorted_nodes nodes -> visible after nodes = n :: rest ->
  visible (Some (nd_name n)) nodes = rest.
Proof.
  unfold visible. intros Hs. induction Hs as [|m nodes Hs IH Hf]; [done|]. cbn [List.filter is_none_or] in *.
  destruct (is_none_or _ after && negb (hidden_name (nd_name m))) eqn:Hm.
  - intros [= -> <-]. rewrite bytes_ltb_irrefl. cbn. apply filter_ext_in. intros x Hx%list_elem_of_In.
    pose proof (proj1 (list.Forall_forall _ _) Hf x Hx) as Hlt. unfold name_lt in Hlt. rewrite Hlt. cbn.
    apply andb_true_iff in Hm as [Hafter _]. destruct after as [a|]; [|done]. cbn in *.
    by rewrite (bytes_ltb_trans _ _ _ Hafter Hlt).
  - intros Hn. assert (n ∈ nodes) as Hin.
    { apply list_elem_of_In. eapply (proj1 (filter_In _ n nodes)). rewrite Hn. left. done. }
    pose proof (proj1 (list.Forall_forall _ _) Hf n Hin) as Hlt. rewrite (name_lt_asym _ _ Hlt). cbn. by apply IH.
Qed.

Lemma visible_delete n nodes : visible (Some (nd_name n)) (delete_node (nd_name n) nodes) = visible (Some (nd_name n)) nodes.
Proof.
  unfold visible, delete_node. induction nodes as [|m nodes IH]; [done|]. cbn [List.filter].
  case_bool_decide as E; cbn [negb List.filter is_none_or]; [rewrite E, bytes_ltb_irrefl; apply IH|].
  by destruct (_ && _); [f_equal|].
Qed.

(** ** Calls of the directory *)
Definition popped (s : DiagnosticStore) : DiagnosticStore := mkStore (ds_nodes s) (tail (ds_outcomes s)).

(** The calls that only look: the files are the same, and an error is the
    operating system's. *)
Definition looked {E A} (c : st_res DiagnosticStore E A) (s : DiagnosticStore) (Q : A -> Prop) : Prop :=
  ds_nodes (fst (c s)) = ds_nodes s /\ (ds_outcomes s = [] -> ds_outcomes (fst (c s)) = []) /\
  match snd (c s) with Ok a => Q a | Err _ => ds_outcomes s <> [] end.

Lemma looked_ret {E A} (a : A) s (Q : A -> Prop) : Q a -> looked (E := E) (st_ret a) s Q.
Proof. done. Qed.

Lemma looked_get {E} s (Q : DiagnosticStore -> Prop) : Q s -> looked (E := E) st_get s Q.
Proof. done. Qed.

Lemma looked_bind {E A B} (c : st_res DiagnosticStore E A) (k : A -> st_res DiagnosticStore E B) s Q R :
  looked c s Q -> (forall a s', Q a -> ds_nodes s' = ds_nodes s -> looked (k a) s' R) -> looked (st_bind c k) s R.
Proof.
  unfold looked, st_bind. intros (Hn & Ho & Hr) Hk. destruct (c s) as [s' [a|e]]; cbn in *; [|done].
  destruct (Hk a s' Hr Hn) as (Hn' & Ho' & Hr'). split_and!; [congruence|auto|].
  destruct (snd (k a s')); [done|]. intros Hz. auto.
Qed.

Lemma looked_map_err {E F A} (f : E -> F) (c : st_res DiagnosticStore E A) s Q : looked c s Q -> looked (st_map_err f c) s Q.
Proof. unfold looked, st_map_err. destruct (c s) as [s' [a|e]]; done. Qed.

Lemma looked_weaken {E A} (c : st_res DiagnosticStore E A) s (Q R : A -> Prop) : looked c s Q -> (forall a, Q a -> R a) -> looked c s R.
Proof. unfold looked. intros (Hn & Ho & Hr) HQ. split_and!; [done..|]. destruct (snd (c s)); auto. Qed.

Lemma next_outcome_popped s : exists o, next_outcome s = (popped s, Ok o) /\ (oc_error o <> None -> ds_outcomes s <> []).
Proof. unfold next_outcome, popped. destruct s as [nodes [|o outs]]; cbn; eexists; done. Qed.

Lemma os_check_looked s : looked os_check s (fun _ => True).
Proof.
  unfold looked, os_check, st_bind. destruct (next_outcome_popped s) as (o & -> & Ho).
  destruct (oc_error o) eqn:E; cbn; split_and!; try done; try (by intros ->); auto.
Qed.

(** A handle on a file as it is. *)
Definition handle (limit : Z) (n : DiagnosticNode) : DiagnosticFile := mkFile (entry_of n) limit.

Lemma revalidate_looked limit n s : sorted_nodes (ds_nodes s) -> n ∈ ds_nodes s -> looked (revalidate (handle limit n)) s (fun m => m = n).
Proof.
  intros Hs Hn. unfold revalidate. eapply looked_bind; [by apply (looked_get s (fun x => x = s))|]. intros ? s' -> Hs'. cbn.
  rewrite find_node_elem by done. rewrite bool_decide_true by done. by apply looked_ret.
Qed.

Lemma open_entry_looked limit n s : sorted_nodes (ds_nodes s) -> n ∈ ds_nodes s -> zlen (nd_contents n) <= limit ->
  looked (open_entry (entry_of n) limit) s (fun f => f = handle limit n).
Proof.
  intros Hs Hn Hl. unfold open_entry. eapply looked_bind; [apply os_check_looked|]. intros _ s1 _ H1.
  eapply looked_bind; [by apply (looked_get s1 (fun x => x = s1))|]. intros ? s2 -> H2. cbn [de_name entry_of]. rewrite H1.
  rewrite find_node_elem by done. rewrite (proj2 (Z.ltb_ge _ _)), bool_decide_true by done. by apply looked_ret.
Qed.

Lemma read_range_looked limit n s offset count : sorted_nodes (ds_nodes s) -> n ∈ ds_nodes s ->
  0 <= offset < zlen (nd_contents n) -> 0 < count <= zlen (nd_contents n) - offset ->
  looked (read_range (handle limit n) offset count) s
    (fun bytes => bytes = take (Z.to_nat count) (drop (Z.to_nat offset) (nd_contents n))).
Proof.
  intros Hs Hn Ho Hc. unfold read_range. eapply looked_bind; [apply os_check_looked|]. intros _ s1 _ H1.
  eapply looked_bind; [apply revalidate_looked; by rewrite H1|]. intros ? s2 -> H2. cbn [df_snapshot handle de_len entry_of].
  rewrite (proj2 (Z.leb_gt _ _)), (proj2 (Z.eqb_neq _ _)) by lia. cbn [orb].
  rewrite Z.min_l by lia. by apply looked_ret.
Qed.

(** The loop over the pages visits the files in order, also when the visitor
    removes the file it is at; it ends with no file left or with an error of a visit. *)
Section Pages.
Context {E X : Type} (page : nat) (store_error : DiagnosticStoreError -> E) (exhausted : E).
Context (visit : X -> DiagnosticEntry -> st_res DiagnosticStore E X).
Context (I : option (list Z) -> DiagnosticStore -> X -> Prop) (Q : DiagnosticStore -> Prop).
Hypothesis page_positive : (0 < page)%nat.
Hypothesis I_popped : forall c s x, I c s x -> I c (popped s) x.
Hypothesis I_failed : forall c s x, I c s x -> ds_outcomes s <> [] -> Q (popped s).
Hypothesis I_visit : forall c s x n rest, visible c (ds_nodes s) = n :: rest -> I c s x ->
  match visit x (entry_of n) s with
  | (s', Ok x') => visible (Some (nd_name n)) (ds_nodes s') = rest /\ I (Some (nd_name n)) s' x'
  | (s', Err _) => Q s'
  end.

Lemma visits_run l : forall c s x rest, visible c (ds_nodes s) = l ++ rest -> I c s x ->
  match st_fold visit x (entry_of <$> l) s with
  | (s', Ok x') => let c' := match list.last l with Some m => Some (nd_name m) | None => c end in
                   visible c' (ds_nodes s') = rest /\ I c' s' x'
  | (s', Err _) => Q s'
  end.
Proof using I_visit.
  induction l as [|n l IH]; intros c s x rest Hv HI; [done|]. cbn [fmap list_fmap st_fold]. unfold st_bind.
  pose proof (I_visit c s x n (l ++ rest) Hv HI) as Hn. destruct (visit x (entry_of n) s) as [s' [x'|e]]; [|done].
  destruct Hn as [Hv' HI']. pose proof (IH _ _ _ _ Hv' HI') as Hl. destruct (st_fold _ _ _ _) as [s'' [x''|e]]; [|done].
  rewrite last_cons. by destruct (list.last l).
Qed.

Lemma pages_run fuel : forall c s x pages, (length (visible c (ds_nodes s)) < fuel)%nat -> I c s x ->
  match for_pages fuel page store_error exhausted visit c x pages s with
  | (s', Ok (x', _)) => exists c', visible c' (ds_nodes s') = [] /\ I c' s' x'
  | (s', Err _) => Q s'
  end.
Proof using I_failed I_popped I_visit page_positive.
  induction fuel as [|fuel IH]; intros c s x pages Hf HI; [lia|]. cbn [for_pages]. unfold st_map_err, entries_page, st_bind at 1.
  rewrite (proj2 (Nat.eqb_neq page 0)) by lia. unfold os_check, st_bind, st_get, st_ret, st_err.
  destruct (next_outcome_popped s) as (o & -> & Ho). destruct (oc_error o) as [e|].
  { eapply I_failed; [done|]. by apply Ho. }
  cbn [ds_nodes popped map_err fst snd]. fold (visible c (ds_nodes s)).
  pose proof (visits_run (take page (visible c (ds_nodes s))) c (popped s) x (drop page (visible c (ds_nodes s)))) as Hrun.
  rewrite take_drop in Hrun. specialize (Hrun eq_refl (I_popped _ _ _ HI)). unfold popped in Hrun.
  destruct (st_fold _ _ _ _) as [s' [x'|e]]; [|done]. destruct Hrun as [Hv HI'].
  destruct (Nat.ltb_spec page (length (visible c (ds_nodes s)))) as [Hlt|Hge].
  - rewrite fmap_last. destruct (list.last (take page (visible c (ds_nodes s)))) as [m|] eqn:Hm.
    + cbn [fmap option_fmap option_map de_name entry_of]. cbn in Hv, HI'. apply IH; [|done]. rewrite Hv, length_drop. lia.
    + apply last_None in Hm. apply (f_equal length) in Hm. rewrite length_take in Hm. cbn in Hm. lia.
  - rewrite drop_ge in Hv by lia. eauto.
Qed.

Lemma over_pages_run s x : I None s x ->
  match over_pages page store_error exhausted visit x s with
  | (s', Ok (x', _)) => exists c', visible c' (ds_nodes s') = [] /\ I c' s' x'
  | (s', Err _) => Q s'
  end.
Proof using I_failed I_popped I_visit page_positive.
  intros HI. unfold over_pages. apply pages_run; [|done]. unfold visible.
  pose proof (List.filter_length_le (fun n => is_none_or (fun a => bytes_ltb a (nd_name n)) None && negb (hidden_name (nd_name n)))
                (ds_nodes s)). lia.
Qed.
End Pages.

(** ** Lines *)
Section Log.
Context `{HD : DiagnosticCrates, HJ : DiagnosticJson, HC : CryptoCrate}.

(** An event as [finalize] hands it out: one line that decodes to it. *)
Definition stored_ok (e : PreparedDiagnosticEvent) : Prop :=
  newline ∉ encoded e /\ exists ev, decode_trusted_prepared_encoding (encoded e) = Ok ev /\
    ev_sequence ev = sequence e /\ uuid_number (ev_event_id ev) = event_id e.

Definition segment_bytes (evs : list PreparedDiagnosticEvent) : list Z := flat_map (fun e => encoded e ++ [newline]) evs.

Definition increasing : list PreparedDiagnosticEvent -> Prop := StronglySorted (fun a b => sequence a < sequence b).

Lemma stored_len e : stored_ok e -> 0 < zlen (encoded e) <= MAX_PREPARED_EVENT_BYTES.
Proof.
  intros (_ & ev & Hd & _). unfold decode_trusted_prepared_encoding, decode_event in Hd.
  destruct (is_emptyb (encoded e)) eqn:He; [done|]. cbn [orb] in Hd. case_match eqn:Hl; [done|]. apply Z.ltb_ge in Hl.
  apply is_emptyb_false in He. destruct (encoded e); [done|]. rewrite zlen_cons in *. pose proof (zlen_nonneg l). lia.
Qed.

Lemma stored_sequence e : stored_ok e -> 0 < sequence e <= u64_max.
Proof.
  intros (_ & ev & Hd & <- & _). unfold decode_trusted_prepared_encoding, decode_event in Hd. case_match; [done|].
  apply result_bind_Ok in Hd as (wire & _ & Hw). unfold decode_event_wire in Hw. apply result_bind_Ok in Hw as (sq & Hsq & Hw).
  assert (ev_sequence ev = sq) as ->.
  { repeat (apply result_bind_Ok in Hw as (? & _ & Hw)). by injection Hw as <-. }
  unfold decode_sequence in Hsq. destruct (negb (length _ =? _)%nat || _) eqn:H1; [done|].
  destruct (_ <? digits_value _) eqn:H2; [done|]. destruct ((digits_value _ =? 0) || _) eqn:H3; [done|]. injection Hsq as <-.
  apply orb_false_iff in H1 as [_ H1%negb_false_iff], H3 as [H3 _]. rewrite forallb_forall in H1.
  assert (0 <= digits_value (str_bytes (dev_sequence wire))); [|unfold u64_max; lia].
  apply digits_value_range, list.Forall_forall. intros b Hb. by apply H1, list_elem_of_In.
Qed.

Lemma segment_bytes_app a b : segment_bytes (a ++ b) = segment_bytes a ++ segment_bytes b.
Proof. apply flat_map_app. Qed.

Lemma segment_bytes_empty evs : segment_bytes evs = [] -> evs = [].
Proof. destruct evs; [done|]. cbn. by destruct (encoded p). Qed.

(** A torn write of lines leaves whole lines and a piece without an end. *)
Lemma torn_lines evs k : Forall stored_ok evs ->
  exists j tail, take k (segment_bytes evs) = segment_bytes (take j evs) ++ tail /\ newline ∉ tail.
Proof.
  revert k. induction evs as [|e evs IH]; intros k Hall; [exists O, []; split; [by destruct k|set_solver]|].
  apply list.Forall_cons in Hall as [He Hall]. cbn [segment_bytes flat_map].
  destruct (decide (k < length (encoded e ++ [newline]))%nat) as [Hk|Hk].
  - exists O, (take k (encoded e)). rewrite take_app_le by lia. rewrite length_app in Hk. cbn in Hk.
    split; [by rewrite take_app_le by lia|]. intros Hin. destruct He as [He _]. apply He.
    by eapply subseteq_take.
  - destruct (IH (k - length (encoded e ++ [newline]))%nat Hall) as (j & tail & Hj & Ht). exists (S j), tail.
    rewrite take_app_ge by lia. cbn [take flat_map]. unfold segment_bytes in *. rewrite Hj, app_assoc. done.
Qed.

(** ** Scanning *)
Lemma scan_bytes_app m cs i st a b :
  scan_bytes m cs i st (a ++ b) = let? st := scan_bytes m cs i st a in scan_bytes m cs (i + zlen a) st b.
Proof.
  revert i st. induction a as [|x a IH]; intros i st; [cbn; by rewrite Z.add_0_r|]. cbn [app scan_bytes].
  destruct (scan_byte m cs i st x) as [st'|e]; cbn [result_bind]; [|done]. rewrite IH, zlen_cons.
  by replace (i + 1 + zlen a) with (i + (1 + zlen a)) by lia.
Qed.

(** The offsets only count from the start of the file. *)
Lemma scan_bytes_at m cs i st a : 0 <= cs -> 0 <= i -> cs + i + zlen a <= u64_max ->
  scan_bytes m cs i st a = scan_bytes m 0 (cs + i) st a.
Proof.
  intros Hcs. revert i st. induction a as [|x a IH]; intros i st Hi Hb; [done|]. rewrite zlen_cons in Hb. pose proof (zlen_nonneg a).
  cbn [scan_bytes]. assert (scan_byte m cs i st x = scan_byte m 0 (cs + i) st x) as ->.
  { unfold scan_byte, checked_add64, sat_add64. rewrite !Z.min_l by lia. by rewrite Z.add_0_l, Z.add_assoc. }
  destruct (scan_byte m 0 (cs + i) st x); cbn [result_bind]; [|done]. rewrite IH by lia. by rewrite Z.add_assoc.
Qed.

Lemma scan_bytes_error m i st a e : 0 <= i -> i + zlen a <= u64_max -> scan_bytes m 0 i st a <> Err (Err e).
Proof.
  revert i st. induction a as [|x a IH]; intros i st Hi Hb; [done|]. rewrite zlen_cons in Hb. pose proof (zlen_nonneg a).
  cbn [scan_bytes]. destruct (scan_byte m 0 i st x) as [st'|[sc|e']] eqn:E; cbn [result_bind]; [apply IH; lia|done|].
  exfalso. unfold scan_byte, checked_add64, sat_add64 in E. rewrite Z.min_l in E by lia.
  rewrite (proj2 (Z.leb_le _ _)) in E by lia. cbn [ok_or result_bind] in E. repeat case_match; done.
Qed.

(** What a scan of a whole file finds. *)
Definition scan_all (contents : list Z) : SegmentScan :=
  match scan_bytes MAX_PREPARED_EVENT_BYTES 0 0 scan_start contents with
  | Ok st => scan_end st
  | Err (Ok scan) => scan
  | Err (Err _) => scan_with scan_start ScanCorrupt
  end.

Lemma scan_chunks_looked limit n fuel : forall o st s, sorted_nodes (ds_nodes s) -> n ∈ ds_nodes s ->
  zlen (nd_contents n) <= u64_max -> 0 <= o <= zlen (nd_contents n) -> (Z.to_nat (zlen (nd_contents n) - o) < fuel)%nat ->
  scan_bytes MAX_PREPARED_EVENT_BYTES 0 0 scan_start (take (Z.to_nat o) (nd_contents n)) = Ok st ->
  looked (scan_chunks fuel (zlen (nd_contents n)) MAX_PREPARED_EVENT_BYTES MAX_PREPARED_EVENT_BYTES
    (fun offset maximum => st_map_err (map_recovery_error ScanSegment) (read_range (handle limit n) offset maximum)) o st) s
    (fun scan => scan = scan_all (nd_contents n)).
Proof.
  induction fuel as [|fuel IH]; intros o st s Hs Hn Hmax Ho Hf Hst; [lia|]. cbn [scan_chunks].
  set (c := nd_contents n) in *. destruct (Z.leb_spec (zlen c) o) as [Hend|Hlt].
  { apply looked_ret. unfold scan_all. rewrite firstn_all2 in Hst by (unfold zlen in *; lia). by rewrite Hst. }
  set (requested := Z.min MAX_PREPARED_EVENT_BYTES (sat_sub (zlen c) o)).
  assert (0 < requested <= zlen c - o) as Hreq by (unfold requested, sat_sub, MAX_PREPARED_EVENT_BYTES; lia).
  eapply looked_bind; [apply looked_map_err, read_range_looked; try done; fold c; lia|]. cbn beta. intros bytes s1 -> H1. fold c.
  set (bytes := take (Z.to_nat requested) (drop (Z.to_nat o) c)).
  assert (zlen bytes = requested) as Hlen by (unfold bytes, zlen in *; rewrite length_take, length_drop; lia).
  assert (is_emptyb bytes = false) as -> by (apply is_emptyb_false; intros E; rewrite E in Hlen; change (zlen (@nil Z)) with 0 in Hlen; lia).
  rewrite Hlen, Z.ltb_irrefl. cbn [orb]. unfold checked_add64. rewrite (proj2 (Z.leb_le _ _)) by lia.
  cbn [ok_or]. eapply looked_bind; [by apply (looked_ret (o + requested) s1 (fun x => x = o + requested))|].
  intros ? s2 -> H2. rewrite scan_bytes_at, Z.add_0_r by (try lia).
  assert (take (Z.to_nat (o + requested)) c = take (Z.to_nat o) c ++ bytes) as Htake.
  { unfold bytes. rewrite Z2Nat.inj_add by lia. by rewrite take_take_drop. }
  assert (scan_bytes MAX_PREPARED_EVENT_BYTES 0 0 scan_start (take (Z.to_nat (o + requested)) c)
          = scan_bytes MAX_PREPARED_EVENT_BYTES 0 o st bytes) as Hnext.
  { rewrite Htake, scan_bytes_app, Hst. cbn [result_bind]. f_equal. unfold zlen in *. rewrite length_take. lia. }
  destruct (scan_bytes MAX_PREPARED_EVENT_BYTES 0 o st bytes) as [st'|[sc|e]] eqn:E.
  - apply IH; [congruence|congruence|done|lia|lia|done].
  - apply looked_ret. unfold scan_all. rewrite <- (take_drop (Z.to_nat (o + requested)) c), scan_bytes_app, Hnext. done.
  - by apply scan_bytes_error in E; [|lia..].
Qed.

Lemma scan_segment_looked limit n s : sorted_nodes (ds_nodes s) -> n ∈ ds_nodes s -> zlen (nd_contents n) <= u64_max ->
  looked (scan_segment (handle limit n)) s (fun scan => scan = scan_all (nd_contents n)).
Proof.
  intros Hs Hn Hmax. pose proof (zlen_nonneg (nd_contents n)). unfold scan_segment, scan_segment_with_reader.
  rewrite (proj2 (Z.eqb_neq MAX_PREPARED_EVENT_BYTES 0)) by done. apply scan_chunks_looked; [done..|lia|cbn; lia|done].
Qed.

(** The bytes of a line are collected, or the line is too long. *)
Lemma scan_plain m bs : 0 < m -> newline ∉ bs -> forall i st, exists st',
  scan_bytes m 0 i st bs = Ok st' /\ (forall status, scan_with st' status = scan_with st status) /\
  (ss_oversized st = false -> zlen (ss_line st) + zlen bs <= m -> ss_line st' = ss_line st ++ bs /\ ss_oversized st' = false) /\
  (bs <> [] \/ ss_line st <> [] \/ ss_oversized st = true -> ss_line st' <> [] \/ ss_oversized st' = true).
Proof.
  intros Hm. induction bs as [|b bs IH]; intros Hb i st.
  { exists st. split_and!; try done; [by rewrite app_nil_r|]. by intros [?|?]. }
  apply not_elem_of_cons in Hb as [Hb Hbs]. cbn [scan_bytes]. unfold scan_byte. rewrite (proj2 (Z.eqb_neq b newline)) by done.
  cbn [negb result_bind].
  match goal with |- context [scan_bytes m 0 (i + 1) ?x bs] => set (st1 := x) end.
  destruct (IH Hbs (i + 1) st1) as (st' & Hrun & Hsame & Hline & Hne). exists st'. pose proof (zlen_nonneg bs). split_and!; [done|..].
  - intros status. rewrite Hsame. unfold st1. by repeat case_match.
  - intros Hov Hlen. rewrite zlen_cons in Hlen. unfold st1 in Hline. rewrite Hov in Hline.
    rewrite (proj2 (Z.eqb_neq _ _)) in Hline by lia. cbn [ss_line ss_oversized] in Hline. rewrite zlen_app in Hline.
    destruct Hline as [-> ->]; [done|cbn in *; change (zlen [b]) with 1; lia|]. by rewrite <- app_assoc.
  - intros _. apply Hne. right. unfold st1. destruct (ss_oversized st) eqn:E; [by right|].
    case_match; [by right|left]. cbn. by destruct (ss_line st).
Qed.

Lemma increasing_app a b : increasing (a ++ b) <->
  increasing a /\ increasing b /\ forall x y, x ∈ a -> y ∈ b -> sequence x < sequence y.
Proof. unfold increasing. rewrite StronglySorted_app. naive_solver. Qed.

Lemma increasing_snoc evs e : increasing (evs ++ [e]) -> increasing evs /\ Forall (fun x => sequence x < sequence e) evs.
Proof. intros (Hs & _ & Hl)%increasing_app. split; [done|]. apply list.Forall_forall. set_solver. Qed.

Lemma scan_lines evs : Forall stored_ok evs -> increasing evs -> zlen (segment_bytes evs) <= u64_max ->
  scan_bytes MAX_PREPARED_EVENT_BYTES 0 0 scan_start (segment_bytes evs) =
  Ok (mkScanState (zlen (segment_bytes evs)) (sequence <$> list.head evs) (sequence <$> list.last evs)
        (event_id <$> list.last evs) [] false).
Proof.
  induction evs as [|e evs IH] using rev_ind; intros Hall Hinc Hlen; [done|].
  apply list.Forall_app in Hall as [Hall [He _]%list.Forall_cons]. apply increasing_snoc in Hinc as [Hinc Hlt].
  rewrite segment_bytes_app in *. cbn [segment_bytes flat_map] in *. fold (segment_bytes evs) in *. rewrite app_nil_r in *.
  rewrite zlen_app in Hlen. pose proof (zlen_nonneg (encoded e ++ [newline])). pose proof (zlen_nonneg (segment_bytes evs)).
  rewrite scan_bytes_app, (IH Hall Hinc) by lia. cbn [result_bind]. rewrite Z.add_0_l, scan_bytes_app.
  destruct (stored_len e He). destruct He as (Hnl & ev & Hd & Hseq & Hid).
  match goal with |- context [scan_bytes _ 0 _ ?st (encoded e)] =>
    destruct (scan_plain MAX_PREPARED_EVENT_BYTES (encoded e) ltac:(done) Hnl (zlen (segment_bytes evs)) st)
      as (st' & -> & Hsame & Hline & _) end.
  destruct Hline as [Hl Ho]; [done|cbn [ss_line]; rewrite zlen_nil; lia|]. cbn [ss_line app] in Hl. cbn [result_bind scan_bytes]. unfold scan_byte. rewrite Z.eqb_refl, Ho, Hl, Hd. cbn [negb].
  specialize (Hsame ScanComplete). unfold scan_with in Hsame. injection Hsame as Hv Hf Hls Hli. cbn [ss_line app] in *.
  assert (is_some_and (fun l => ev_sequence ev <=? l) (ss_last_sequence st') = false) as ->.
  { rewrite Hls, Hseq. cbn. destruct (list.last evs) as [x|] eqn:Hlast; [|done]. cbn. apply Z.leb_gt.
    apply (proj1 (list.Forall_forall _ _) Hlt). apply last_Some in Hlast as [? ->]. set_solver. }
  unfold checked_add64, sat_add64. rewrite zlen_app in Hlen. change (zlen [newline]) with 1 in Hlen.
  rewrite Z.min_l, Z.add_0_l, (proj2 (Z.leb_le _ _)) by lia. cbn [ok_or result_bind].
  rewrite last_snoc, Hf, Hseq, Hid. cbn. rewrite !zlen_app. change (zlen [newline]) with 1.
  destruct evs; cbn; do 2 f_equal; lia.
Qed.

Lemma scan_segment_bytes evs tail : Forall stored_ok evs -> increasing evs -> newline ∉ tail ->
  zlen (segment_bytes evs) <= u64_max ->
  scan_all (segment_bytes evs ++ tail) =
  mkScan (zlen (segment_bytes evs)) (sequence <$> list.head evs) (sequence <$> list.last evs) (event_id <$> list.last evs)
    (if is_emptyb tail then ScanComplete else if is_emptyb evs then ScanCorrupt else ScanTornTail).
Proof.
  intros Hall Hinc Ht Hlen. unfold scan_all. rewrite scan_bytes_app, (scan_lines evs) by done. cbn [result_bind].
  match goal with |- context [scan_bytes ?m 0 ?i ?st tail] =>
    destruct (scan_plain m tail ltac:(done) Ht i st) as (st' & -> & Hsame & Hline & Hne) end.
  unfold scan_end. destruct tail as [|b tail].
  - destruct Hline as [-> ->]; [done|done|]. cbn [ss_line app is_emptyb negb orb]. by rewrite Hsame.
  - assert (negb (is_emptyb (ss_line st')) || ss_oversized st' = true) as ->.
    { apply orb_true_iff. destruct Hne as [Hl| ->]; [by left|left|by right]. by destruct (ss_line st'). }
    cbn [is_emptyb]. specialize (Hsame ScanComplete) as Hv. unfold scan_with in Hv. injection Hv as Hv _ _ _. cbn in Hv.
    rewrite Hsame, Hv. unfold scan_with. cbn. f_equal. destruct evs as [|e evs]; [done|].
    rewrite (proj2 (Z.eqb_neq _ _)); [done|]. unfold segment_bytes. cbn [flat_map]. rewrite !zlen_app. change (zlen [newline]) with 1.
    pose proof (zlen_nonneg (encoded e)). pose proof (zlen_nonneg (segment_bytes evs)). unfold segment_bytes in *. lia.
Qed.

(** ** The log on disk *)
(** The lines of a file that have an end. *)
Definition complete_lines (contents : list Z) : list (list Z) := removelast (split_bytes newline contents).

(** The complete lines of all segments, in order. *)
Definition disk_log (nodes : list DiagnosticNode) : list (list Z) :=
  flat_map (fun n => complete_lines (nd_contents n)) (seg_nodes nodes).

Lemma split_at_nonempty sep cur l : split_at sep cur l <> [].
Proof. revert cur. induction l as [|b l IH]; intros cur; cbn; [done|]. case_match; [done|apply IH]. Qed.

Lemma complete_lines_segment evs tail : Forall stored_ok evs -> newline ∉ tail ->
  complete_lines (segment_bytes evs ++ tail) = encoded <$> evs.
Proof.
  intros Hall Ht. unfold complete_lines, split_bytes. induction Hall as [|e evs [He _] _ IH].
  - cbn [segment_bytes flat_map app]. by rewrite split_at_free.
  - cbn [segment_bytes flat_map]. rewrite <- !app_assoc. cbn [app]. rewrite split_at_cut by done. cbn [app fmap list_fmap].
    fold (segment_bytes evs). rewrite <- IH. cbn [removelast].
    pose proof (split_at_nonempty newline [] (segment_bytes evs ++ tail)). by destruct (split_at _ _ _).
Qed.

Definition open_part : Type := option (DiagnosticNode * list PreparedDiagnosticEvent * list Z).
Definition open_nodes (o : open_part) : list DiagnosticNode := match o with Some (n, _, _) => [n] | None => [] end.
Definition open_events (o : open_part) : list PreparedDiagnosticEvent := match o with Some (_, evs, _) => evs | None => [] end.

(** The events in the segments. *)
Definition events_in (closed : list (DiagnosticNode * list PreparedDiagnosticEvent)) (open : open_part)
  : list PreparedDiagnosticEvent := concat closed.*2 ++ open_events open.

(** Closed segments of whole lines, and one that may end in a torn line. *)
Record segments (limit : Z) (nodes : list DiagnosticNode)
    (closed : list (DiagnosticNode * list PreparedDiagnosticEvent)) (open : open_part) : Prop := {
  sg_sorted : sorted_nodes nodes;
  sg_nodes : seg_nodes nodes = closed.*1 ++ open_nodes open;
  sg_closed : Forall (fun p => nd_contents p.1 = segment_bytes p.2 /\ p.2 <> []) closed;
  sg_open : match open with
            | Some (n, evs, tail) => nd_contents n = segment_bytes evs ++ tail /\ newline ∉ tail
            | None => closed = []
            end;
  sg_stored : Forall stored_ok (events_in closed open);
  sg_increasing : increasing (events_in closed open);
  sg_size : Forall (fun n => zlen (nd_contents n) <= limit) (seg_nodes nodes)
}.

Lemma disk_log_events limit nodes closed open : segments limit nodes closed open ->
  disk_log nodes = encoded <$> events_in closed open.
Proof.
  intros [_ Hn Hc Ho Hst _ _]. unfold disk_log, events_in in *. rewrite Hn, flat_map_app, fmap_app.
  apply list.Forall_app in Hst as [Hst Hso]. f_equal.
  - clear Hn Ho Hso. induction Hc as [|[n evs] closed [Hb _] _ IH]; [done|]. cbn [fmap list_fmap concat flat_map fst snd] in *.
    apply list.Forall_app in Hst as [Hevs Hst]. rewrite fmap_app, <- IH, Hb by done. f_equal.
    rewrite <- (app_nil_r (segment_bytes evs)). apply complete_lines_segment; [done|set_solver].
  - destruct open as [[[n evs] tail]|]; [|done]. destruct Ho as [Hb Ht]. cbn in *. rewrite Hb, app_nil_r.
    by apply complete_lines_segment.
Qed.

(** ** Recovery *)
(** What recovery knows after some segments. *)
Definition rs_of (limit : Z) (done : list DiagnosticNode) : RecoveryState :=
  match reverse done with
  | [] => mkRecoveryState None 0 None
  | n :: before =>
      let end_of := scan_all ∘ nd_contents <$> list.head before in
      mkRecoveryState (Some (default 0 (node_index n), handle limit n, scan_all (nd_contents n)))
        (default 0 (end_of ≫= sc_last_sequence)) (end_of ≫= sc_last_event_id)
  end.

(** Segments that follow each other. *)
Definition chained (l : list DiagnosticNode) : Prop := forall done m n rest, l = done ++ m :: n :: rest ->
  sc_status (scan_all (nd_contents m)) = ScanComplete /\
  exists a, sc_last_sequence (scan_all (nd_contents m)) = Some a /\
    is_some_and (fun first => first <=? a) (sc_first_sequence (scan_all (nd_contents n))) = false.

Lemma recover_entry_looked limit s done n rest : sorted_nodes (ds_nodes s) -> n ∈ ds_nodes s ->
  chained (done ++ n :: rest) -> is_segment n = true -> zlen (nd_contents n) <= limit -> limit <= u64_max ->
  looked (recover_entry limit (rs_of limit done) (entry_of n)) s (fun rs => rs = rs_of limit (done ++ [n])).
Proof.
  intros Hs Hn Hch Hseg Hl Hmax. unfold recover_entry. unfold is_segment in Hseg.
  destruct (node_index n) as [i|] eqn:Hi; [|done]. unfold node_index in Hi. rewrite Hi.
  eapply looked_bind; [apply looked_map_err, (open_entry_looked limit n); done|]. intros ? s1 -> H1.
  eapply looked_bind; [apply (scan_segment_looked limit n); [by rewrite H1..|lia]|]. intros ? s2 -> H2.
  unfold rs_of. rewrite reverse_snoc. unfold node_index. rewrite Hi.
  destruct done as [|m done _] using rev_ind; [by apply looked_ret|]. rewrite reverse_snoc. cbn [rs_pending].
  rewrite <- app_assoc in Hch. destruct (Hch done m n rest eq_refl) as (Hc & a & Ha & Hf).
  rewrite Hc, Ha. cbn [bool_decide negb ok_or]. eapply looked_bind; [by apply (looked_ret a s2 (fun x => x = a))|].
  intros ? s3 -> H3. rewrite Hf. apply looked_ret. cbn. by rewrite Ha.
Qed.

Lemma hidden_segment name i : parse_segment_index name = Some i -> hidden_name name = false.
Proof.
  intros (v & -> & _)%parse_segment_name. unfold hidden_name, is_export_temporary, is_delete_tombstone.
  apply orb_false_iff. split; apply andb_false_iff; right; apply bool_decide_eq_false; intros [k Hk]; vm_compute in Hk; done.
Qed.

Lemma segs_visible nodes : seg_nodes (visible None nodes) = seg_nodes nodes.
Proof.
  unfold seg_nodes, visible in *. induction nodes as [|n nodes IH]; [done|]. cbn [List.filter].
  destruct (is_none_or _ None && negb (hidden_name (nd_name n))) eqn:Hh; cbn [List.filter].
  { destruct (is_segment n); [by f_equal|apply IH]. }
  destruct (is_segment n) eqn:Hs; [|apply IH]. exfalso. cbn in Hh.
  unfold is_segment, node_index, entry_index in Hs. cbn in Hs. destruct (utf8_valid (nd_name n)); [|done].
  apply is_someb_true in Hs as [i Hi]. by rewrite (hidden_segment _ _ Hi) in Hh.
Qed.

(** The segments are read in order, and nothing is changed. *)
Lemma recover_scan_looked limit s : sorted_nodes (ds_nodes s) -> chained (seg_nodes (ds_nodes s)) ->
  Forall (fun n => zlen (nd_contents n) <= limit) (seg_nodes (ds_nodes s)) -> limit <= u64_max ->
  looked (over_pages RECOVERY_PAGE_ENTRIES (map_recovery_error Enumerate) InvalidData (recover_entry limit)
    (mkRecoveryState None 0 None)) s (fun r => fst r = rs_of limit (seg_nodes (ds_nodes s))).
Proof.
  intros Hs Hch Hsize Hmax. set (nodes := ds_nodes s) in *. set (outs := ds_outcomes s).
  pose proof (over_pages_run RECOVERY_PAGE_ENTRIES (map_recovery_error Enumerate) InvalidData (recover_entry limit)
    (fun c s x => ds_nodes s = nodes /\ (outs = [] -> ds_outcomes s = []) /\
       exists done, seg_nodes nodes = done ++ seg_nodes (visible c nodes) /\ x = rs_of limit done)
    (fun s => ds_nodes s = nodes /\ outs <> [] )) as Hrun.
  specialize (Hrun ltac:(unfold RECOVERY_PAGE_ENTRIES; lia)).
  assert (forall (s : DiagnosticStore), (outs = [] -> ds_outcomes s = []) -> outs = [] -> ds_outcomes (popped s) = []) as Hpop.
  { intros x Hx Ho. unfold popped. cbn. by rewrite (Hx Ho). }
  unfold looked. fold nodes outs. specialize (Hrun ltac:(cbn; naive_solver) ltac:(cbn; naive_solver)).
  match type of Hrun with ?A -> _ => assert A as Hvisit end.
  { intros c s' x n rest Hv (Hnodes & Ho & done & Hdone & ->). rewrite Hnodes in Hv.
    pose proof (visible_step c nodes n rest Hs Hv) as Hnext.
    assert (n ∈ nodes) as Hn by (apply list_elem_of_In; eapply (proj1 (filter_In _ n nodes)); unfold visible in Hv; rewrite Hv; by left).
    rewrite Hv in Hdone. unfold seg_nodes at 2 in Hdone. cbn [List.filter] in Hdone. fold (seg_nodes rest) in Hdone.
    destruct (is_segment n) eqn:Hseg.
    - assert (zlen (nd_contents n) <= limit) as Hl by (apply (proj1 (list.Forall_forall _ _) Hsize); rewrite Hdone; set_solver).
      destruct (recover_entry_looked limit s' done n (seg_nodes rest)) as (H1 & H2 & H3); try done; [by rewrite Hnodes..|by rewrite <- Hdone|].
      destruct (recover_entry _ _ _ _) as [s'' [x'|e]]; cbn in *; [|split; [congruence|naive_solver]].
      rewrite H1, Hnodes, Hnext. split_and!; [done|done|auto|]. exists (done ++ [n]). by rewrite <- app_assoc.
    - unfold recover_entry. unfold is_segment, node_index in Hseg. destruct (entry_index _); [done|]. cbn.
      rewrite Hnodes, Hnext. split_and!; [done|done|done|]. by exists done. }
  specialize (Hrun Hvisit s (mkRecoveryState None 0 None)).
  match type of Hrun with ?A -> _ => assert A as Hstart end.
  { split_and!; [done|done|]. exists []. by rewrite segs_visible. }
  specialize (Hrun Hstart). destruct (over_pages _ _ _ _ _ _) as [s' [[x p]|e]]; cbn.
  - destruct Hrun as (c & Hv & Hn & Ho & done & Hd & ->). rewrite Hn in Hv. rewrite Hv, app_nil_r in Hd. split_and!; [done|done|]. by rewrite Hd.
  - destruct Hrun as [Hn Ho]. split_and!; [done|done|done].
Qed.

(** ** The shape of the disk *)
Lemma closed_scan p : nd_contents p.1 = segment_bytes p.2 -> Forall stored_ok p.2 -> increasing p.2 ->
  zlen (nd_contents p.1) <= u64_max ->
  scan_all (nd_contents p.1) =
  mkScan (zlen (segment_bytes p.2)) (sequence <$> list.head p.2) (sequence <$> list.last p.2) (event_id <$> list.last p.2) ScanComplete.
Proof.
  intros Hb Hs Hi Hl. rewrite Hb in *. rewrite <- (app_nil_r (segment_bytes p.2)) at 1.
  rewrite scan_segment_bytes; [done..|set_solver|done].
Qed.

(** The parts of the disk in one list. *)
Definition parts (closed : list (DiagnosticNode * list PreparedDiagnosticEvent)) (open : open_part)
  : list (DiagnosticNode * list PreparedDiagnosticEvent * list Z) :=
  ((fun p => (p.1, p.2, [])) <$> closed) ++ option_list open.

Lemma parts_nodes closed open : (fun p => p.1.1) <$> parts closed open = closed.*1 ++ open_nodes open.
Proof.
  unfold parts. rewrite fmap_app, <- list_fmap_compose. f_equal. by destruct open as [[[n evs] tail]|].
Qed.

Lemma parts_events closed open : concat ((fun p => p.1.2) <$> parts closed open) = events_in closed open.
Proof.
  unfold parts, events_in. rewrite fmap_app, concat_app, <- list_fmap_compose. f_equal.
  destruct open as [[[n evs] tail]|]; [|done]. cbn. by rewrite app_nil_r.
Qed.

Lemma parts_contents limit nodes closed open p : segments limit nodes closed open -> p ∈ parts closed open ->
  nd_contents p.1.1 = segment_bytes p.1.2 ++ p.2 /\ newline ∉ p.2 /\ zlen (nd_contents p.1.1) <= limit.
Proof.
  intros Hsg Hp. assert (zlen (nd_contents p.1.1) <= limit) as Hz.
  { apply (proj1 (list.Forall_forall _ _) (sg_size _ _ _ _ Hsg)). rewrite (sg_nodes _ _ _ _ Hsg), <- parts_nodes.
    by apply (list_elem_of_fmap_2 (fun p => p.1.1)). }
  unfold parts in Hp. apply elem_of_app in Hp as [(q & -> & Hq)%list_elem_of_fmap|Hp].
  - apply (proj1 (list.Forall_forall _ _) (sg_closed _ _ _ _ Hsg)) in Hq as [Hq _]. cbn. rewrite app_nil_r. split_and!; [done|set_solver|done].
  - pose proof (sg_open _ _ _ _ Hsg) as Ho. destruct open as [q|]; cbn in Hp; [|set_solver].
    apply list_elem_of_singleton in Hp as ->. by destruct q as [[n evs] tail], Ho.
Qed.

Lemma parts_closed limit nodes closed open done p q rest : segments limit nodes closed open ->
  parts closed open = done ++ p :: q :: rest -> p.2 = [] /\ p.1.2 <> [].
Proof.
  intros Hsg Hp. assert (exists c, c ∈ closed /\ p = (c.1, c.2, [])) as (c & Hc & ->).
  { assert ((done ++ p :: q :: rest) !! length done = Some p) as Hl by (by rewrite list_lookup_middle).
    rewrite <- Hp in Hl. unfold parts in *. apply (f_equal length) in Hp. rewrite !length_app in Hp. cbn in Hp.
    assert (length (option_list open) <= 1)%nat by (destruct open; cbn; lia).
    rewrite lookup_app_l in Hl by lia. apply list_elem_of_lookup_2, list_elem_of_fmap in Hl as (c & -> & Hc). eauto. }
  by apply (proj1 (list.Forall_forall _ _) (sg_closed _ _ _ _ Hsg)) in Hc as [_ Hc].
Qed.

Lemma segments_chained limit nodes closed open : segments limit nodes closed open -> limit <= u64_max ->
  chained (seg_nodes nodes).
Proof.
  intros Hsg Hlim done m n rest. rewrite (sg_nodes _ _ _ _ Hsg), <- parts_nodes. intros Heq.
  apply fmap_app_inv in Heq as (pd & pr & -> & Hpr & Hp). symmetry in Hpr.
  apply fmap_cons_inv in Hpr as (p & pr' & Hm & Hpr & ->). symmetry in Hpr.
  apply fmap_cons_inv in Hpr as (q & pr & Hn & _ & ->).
  destruct (parts_closed _ _ _ _ _ _ _ _ Hsg Hp) as [Hp2 Hpe].
  destruct (parts_contents _ _ _ _ p Hsg) as (Hpc & _ & Hpl); [rewrite Hp; set_solver|].
  destruct (parts_contents _ _ _ _ q Hsg) as (Hqc & Hqt & Hql); [rewrite Hp; set_solver|].
  pose proof (sg_stored _ _ _ _ Hsg) as Hst. pose proof (sg_increasing _ _ _ _ Hsg) as Hinc.
  rewrite <- parts_events, Hp, fmap_app, concat_app in Hst, Hinc. cbn [fmap list_fmap concat] in Hst, Hinc.
  apply list.Forall_app in Hst as [_ [Hsp [Hsq _]%list.Forall_app]%list.Forall_app].
  apply increasing_app in Hinc as (_ & (Hip & (Hiq & _)%increasing_app & Hpq)%increasing_app & _).
  rewrite Hp2, app_nil_r in Hpc. subst m n. rewrite (closed_scan p.1) by (done || lia). rewrite Hqc in *.
  rewrite scan_segment_bytes; [|done|done|done|rewrite zlen_app in Hql; pose proof (zlen_nonneg q.2); lia]. cbn [sc_status sc_last_sequence sc_first_sequence].
  split; [done|]. destruct (list.last p.1.2) as [a|] eqn:Ha; [|by apply last_None in Ha]. exists (sequence a). split; [done|].
  destruct (list.head q.1.2) as [b|] eqn:Hb; [|done]. cbn. apply Z.leb_gt. apply Hpq.
  - apply last_Some in Ha as [? ->]. set_solver.
  - destruct q.1.2 as [|? ?] eqn:E; [done|]. injection Hb as ->. set_solver.
Qed.

(** The last segment rewritten. *)
Lemma segments_rewrite limit nodes closed n evs tail n' evs' tail' : segments limit nodes closed (Some (n, evs, tail)) ->
  nd_name n' = nd_name n -> nd_contents n' = segment_bytes evs' ++ tail' -> newline ∉ tail' -> zlen (nd_contents n') <= limit ->
  Forall stored_ok evs' -> increasing (concat closed.*2 ++ evs') ->
  segments limit (replace_node n' nodes) closed (Some (n', evs', tail')).
Proof.
  intros [Hs Hn Hc Ho Hst Hi Hz] Hname Hcont Ht Hlen Hst' Hi'. unfold events_in in *. cbn [open_nodes open_events] in *.
  pose proof (sorted_filter is_segment _ Hs) as Hss. fold (seg_nodes nodes) in Hss. rewrite Hn in Hss, Hz.
  assert (seg_nodes (replace_node n' nodes) = closed.*1 ++ [n']) as Hsegs by (rewrite segs_replace, Hn; by apply replace_last).
  split; [|done|done|done| |done|].
  - eapply sorted_names; [|exact Hs]. symmetry. apply replace_names.
  - apply list.Forall_app in Hst as [Hst _]. unfold events_in. apply list.Forall_app. by split.
  - rewrite Hsegs. apply list.Forall_app in Hz as [Hz _]. apply list.Forall_app. split; [done|by constructor].
Qed.

(** ** New segments *)
Lemma node_index_name n i : node_index n = Some i -> parse_segment_index (nd_name n) = Some i.
Proof. unfold node_index, entry_index. cbn. by destruct (utf8_valid (nd_name n)). Qed.

Lemma segment_name_ascii i : 0 < i <= u64_max -> Forall (fun b => 0 <= b < 128 /\ b <> 47) (segment_name i).
Proof.
  intros Hi. unfold segment_name, u64_max in *. assert (padded 20 i = dig 20 i) as -> by (apply padded_dig; lia).
  rewrite !list.Forall_app.   let x := eval vm_compute in segment_prefix in change segment_prefix with x.
  let x := eval vm_compute in segment_suffix in change segment_suffix with x.
  split_and!; [repeat (constructor; [lia|]); constructor| |repeat (constructor; [lia|]); constructor].
  eapply list.Forall_impl; [apply dig_digits|]. unfold is_ascii_digit. cbn. lia.
Qed.

Lemma named_index i contents identity modified : 0 < i <= u64_max ->
  node_index (mkNode (segment_name i) contents identity modified) = Some i.
Proof.
  intros Hi. unfold node_index, entry_index. cbn [de_name entry_of nd_name].
  rewrite ascii_utf8, parse_of_name; [done|done|]. eapply list.Forall_impl; [by apply segment_name_ascii|]. naive_solver.
Qed.

Lemma segment_name_valid i : 0 < i <= u64_max -> validate_diagnostic_name (segment_name i) = Ok tt.
Proof.
  intros Hi. unfold validate_diagnostic_name. rewrite (hidden_segment _ i) by (by apply parse_of_name).
  rewrite (bool_decide_false (47 ∈ _)); [done|]. intros Hin.
  by apply (proj1 (list.Forall_forall _ _) (segment_name_ascii i Hi)) in Hin as [_ Hin].
Qed.

(** The segments before the last have lower numbers. *)
Lemma last_index nodes l n i : sorted_nodes nodes -> seg_nodes nodes = l ++ [n] -> node_index n = Some i ->
  forall m, m ∈ seg_nodes nodes -> exists j, node_index m = Some j /\ j <= i.
Proof.
  intros Hs Hn Hi m Hm. pose proof (sorted_filter is_segment _ Hs) as Hss. fold (seg_nodes nodes) in Hss.
  assert (is_Some (node_index m)) as [j Hj].
  { unfold seg_nodes in Hm. apply list_elem_of_In, filter_In in Hm as [_ Hm]. by apply is_someb_true in Hm. }
  exists j. split; [done|]. rewrite Hn in Hss, Hm. apply sorted_app in Hss as (_ & _ & Hlt).
  apply elem_of_app in Hm as [Hm|Hm%list_elem_of_singleton]; [|subst; simplify_eq; lia].
  assert (j < i); [|lia]. eapply index_lt_name; [by apply node_index_name..|]. apply Hlt; [done|set_solver].
Qed.

Definition closing (open : open_part) : list (DiagnosticNode * list PreparedDiagnosticEvent) :=
  match open with Some (n, evs, _) => [(n, evs)] | None => [] end.

Definition may_close (open : open_part) : Prop :=
  match open with Some (_, evs, tail) => evs <> [] /\ tail = [] | None => True end.

Lemma segments_insert limit nodes closed open i identity modified : segments limit nodes closed open -> may_close open ->
  0 <= limit -> 0 < i <= u64_max -> (forall m, m ∈ seg_nodes nodes -> exists j, node_index m = Some j /\ j < i) ->
  let node := mkNode (segment_name i) [] identity modified in
  find_node (nd_name node) nodes = None /\ segments limit (insert_node node nodes) (closed ++ closing open) (Some (node, [], [])).
Proof.
  intros Hsg Hclose Hlim Hi Hlow node. destruct Hsg as [Hs Hn Hc Ho Hst Hinc Hz].
  pose proof (named_index i [] identity modified Hi) as Hidx. fold node in Hidx.
  assert (find_node (nd_name node) nodes = None) as Hfind.
  { destruct (find_node _ nodes) as [m|] eqn:E; [|done]. apply find_node_Some in E as [Hm Hname]. exfalso.
    assert (is_segment m = true) as Hseg by (rewrite (is_segment_name _ node) by done; unfold is_segment; by rewrite Hidx).
    destruct (Hlow m) as (j & Hj & Hlt); [by apply list_elem_of_In, filter_In; split; [apply list_elem_of_In|]|].
    apply node_index_name in Hj, Hidx. rewrite Hname in Hj. simplify_eq. lia. }
  assert (seg_nodes (insert_node node nodes) = seg_nodes nodes ++ [node]) as Hsegs.
  { apply segs_insert; [done|by unfold is_segment; rewrite Hidx|]. intros m Hm. destruct (Hlow m Hm) as (j & Hj & Hlt).
    eapply name_lt_index; [by apply node_index_name..|done]. }
  assert (concat (closed ++ closing open).*2 ++ [] = events_in closed open) as Hev.
  { unfold events_in. rewrite app_nil_r, fmap_app, concat_app. f_equal. destruct open as [[[n evs] tail]|]; [|done]. cbn. by rewrite app_nil_r. }
  split; [done|]. split.
  - by apply insert_sorted.
  - rewrite Hsegs, Hn, fmap_app. f_equal. by destruct open as [[[n evs] tail]|].
  - apply list.Forall_app. split; [done|]. destruct open as [[[n evs] tail]|]; [|constructor]. destruct Ho as [Hb _], Hclose as [He ->].
    constructor; [|constructor]. cbn. by rewrite app_nil_r in Hb.
  - cbn. split; [done|set_solver].
  - unfold events_in in *. cbn [open_events]. by rewrite Hev.
  - unfold events_in in *. cbn [open_events]. by rewrite Hev.
  - rewrite Hsegs. apply list.Forall_app. split; [done|]. by constructor.
Qed.

(** What a change of a file may leave. *)
Lemma write_contents_run limit n complete partial s : sorted_nodes (ds_nodes s) -> n ∈ ds_nodes s ->
  exists o, (oc_error o <> None -> ds_outcomes s <> []) /\
    let node contents := mkNode (nd_name n) contents (nd_identity n) (oc_modified o) in
    let changed := match oc_error o with None => complete (nd_contents n) | Some _ => partial (oc_reached o) (nd_contents n) end in
    write_contents (handle limit n) complete partial s =
      (mkStore (replace_node (node changed) (ds_nodes s)) (tail (ds_outcomes s)),
       match oc_error o with None => Ok (handle limit (node changed)) | Some e => Err e end).
Proof.
  intros Hs Hn. destruct (next_outcome_popped s) as (o & Hnext & Ho). exists o. split; [done|].
  unfold write_contents, revalidate, st_bind, st_get. cbn [de_name df_snapshot handle entry_of].
  rewrite find_node_elem by done. rewrite bool_decide_true by done. unfold st_ret. rewrite Hnext.
  destruct (oc_error o); done.
Qed.

Lemma create_run limit i s : 0 <= limit -> 0 < i <= u64_max -> find_node (segment_name i) (ds_nodes s) = None ->
  exists o, (oc_error o <> None -> ds_outcomes s <> []) /\
    let node := mkNode (segment_name i) [] (oc_identity o) (oc_modified o) in
    create_new (segment_name i) [] limit s =
      (mkStore (if is_someb (oc_error o) && (oc_reached o =? 0)%nat then ds_nodes s else insert_node node (ds_nodes s)) (tail (ds_outcomes s)),
       match oc_error o with None => Ok (handle limit node) | Some e => Err e end).
Proof.
  intros Hl Hi Hfind. destruct (next_outcome_popped s) as (o & Hnext & Ho). exists o. split; [done|].
  unfold create_new, st_bind, st_lift, st_get. rewrite segment_name_valid by done.
  rewrite (proj2 (Z.ltb_ge _ _)) by done. rewrite Hfind. cbn [is_someb]. rewrite Hnext.
  destruct (oc_error o); cbn; [by destruct (oc_reached o)|done].
Qed.

(** ** The writer and its disk *)
(** Between calls the writer holds the last segment, which ends with a whole
    line, or it holds nothing and starts with a recovery. *)
Definition writer_ok (limit : Z) (w : SegmentWriter) (open : open_part) : Prop :=
  sw_segment_limit w = limit /\
  (sw_initialized w = true -> exists n evs i, open = Some (n, evs, []) /\ node_index n = Some i /\ i < u64_max /\
     sw_directory w = true /\ sw_active w = Some (handle limit n) /\ sw_active_len w = zlen (nd_contents n) /\
     sw_next_segment w = i + 1).

Definition disk_ok (limit : Z) (d : SegmentDisk) (evs : list PreparedDiagnosticEvent) : Prop :=
  exists closed open, segments limit (ds_nodes (sd_store d)) closed open /\ evs = events_in closed open /\
    writer_ok limit (sd_writer d) open.

(** No event is past the last number the writer knows. *)
Definition numbered_ok (w : SegmentWriter) (evs : list PreparedDiagnosticEvent) : Prop :=
  sw_initialized w = true -> Forall (fun e => sequence e <= sw_last_sequence w) evs.

(** The last segment has the highest number there is. *)
Definition numbers_used_up (nodes : list DiagnosticNode) : Prop := exists n, n ∈ seg_nodes nodes /\ node_index n = Some u64_max.

Lemma on_store_bind {A B} (c : st_res DiagnosticStore SegmentError A) (k : A -> segment_op B) d Q
    (P : SegmentDisk * result SegmentError B -> Prop) :
  looked c (sd_store d) Q ->
  (forall s' e, ds_nodes s' = ds_nodes (sd_store d) -> ds_outcomes (sd_store d) <> [] -> P (mkDisk s' (sd_writer d), Err e)) ->
  (forall s' a, Q a -> ds_nodes s' = ds_nodes (sd_store d) -> (ds_outcomes (sd_store d) = [] -> ds_outcomes s' = []) ->
     P (k a (mkDisk s' (sd_writer d)))) ->
  P (st_bind (on_store c) k d).
Proof.
  intros (Hn & Ho & Hr) Herr Hok. unfold st_bind, on_store. destruct (c (sd_store d)) as [s' [a|e]]; cbn in *; auto.
Qed.

(** The end of the log, from the last two segments. *)
Lemma recovered_end limit closed n evs tail nodes : segments limit nodes closed (Some (n, evs, tail)) -> limit <= u64_max ->
  let rs := rs_of limit (closed.*1 ++ [n]) in let scan := scan_all (nd_contents n) in
  let log := events_in closed (Some (n, evs, tail)) in
  default (rs_immutable_last_sequence rs) (sc_last_sequence scan) = default 0 (sequence <$> list.last log) /\
  match sc_last_event_id scan with Some id => Some id | None => rs_immutable_last_event_id rs end = event_id <$> list.last log.
Proof.
  intros Hsg Hlim rs scan log. pose proof Hsg as [Hs Hn Hc [Hb Ht] Hst Hinc Hz]. rewrite Hn in Hz.
  apply list.Forall_app in Hz as [Hzc [Hzn _]%list.Forall_cons]. unfold log, events_in in *. cbn [open_events open_nodes] in *.
  apply list.Forall_app in Hst as [Hst Hse]. apply increasing_app in Hinc as (Hic & Hie & _).
  assert (zlen (segment_bytes evs) <= u64_max) as Hze by (rewrite Hb, zlen_app in Hzn; pose proof (zlen_nonneg tail); lia).
  unfold scan. rewrite Hb, scan_segment_bytes by done. cbn [sc_last_sequence sc_last_event_id].
  destruct evs as [|e evs _] using rev_ind; [|by rewrite app_assoc, !last_snoc]. cbn [list.last fmap option_fmap option_map default].
  rewrite app_nil_r. unfold rs, rs_of. rewrite reverse_snoc. cbn [rs_immutable_last_sequence rs_immutable_last_event_id].
  destruct closed as [|p closed _] using rev_ind; [done|]. rewrite fmap_app. cbn [fmap list_fmap]. rewrite reverse_snoc. cbn.
  apply list.Forall_app in Hc as [_ [[Hpb Hpe] _]%list.Forall_cons].
  rewrite fmap_app, concat_app in Hst, Hic. cbn in Hst, Hic. rewrite app_nil_r in Hst, Hic.
  apply list.Forall_app in Hst as [_ Hst]. apply increasing_app in Hic as (_ & Hic & _).
  rewrite fmap_app in Hzc. apply list.Forall_app in Hzc as [_ [Hzp _]%list.Forall_cons]. cbn in Hzp.
  rewrite (closed_scan p) by (done || lia). cbn. rewrite fmap_app, concat_app. cbn. rewrite app_nil_r, last_app.
  destruct (list.last p.2) eqn:E; [done|]. by apply last_None in E.
Qed.

(** What recovery does to a writer and its disk. *)
Definition recovered (limit : Z) (d : SegmentDisk) (evs : list PreparedDiagnosticEvent)
    (p : SegmentDisk * result SegmentError RecoveryReport) : Prop :=
  disk_ok limit p.1 evs /\ (ds_outcomes (sd_store d) = [] -> ds_outcomes (sd_store p.1) = []) /\
  match p.2 with
  | Ok report => sw_initialized (sd_writer p.1) = true /\
      sw_last_sequence (sd_writer p.1) = default 0 (sequence <$> list.last evs) /\
      rr_last_sequence report = default 0 (sequence <$> list.last evs) /\ rr_last_event_id report = event_id <$> list.last evs /\
      sw_next_segment (sd_writer p.1) = rr_active_segment report + 1
  | Err _ => sd_writer p.1 = sd_writer d /\ (ds_outcomes (sd_store d) <> [] \/ numbers_used_up (ds_nodes (sd_store d)))
  end.

Lemma recovered_err limit d evs s e : disk_ok limit d evs -> ds_nodes s = ds_nodes (sd_store d) ->
  ds_outcomes (sd_store d) <> [] -> recovered limit d evs (mkDisk s (sd_writer d), Err e).
Proof.
  intros (closed & open & Hsg & -> & Hw) Hn Ho. split; [|split; [done|]]; [|by split; [|left]].
  exists closed, open. cbn. by rewrite Hn.
Qed.

(** The end of [recover]: the writer takes hold of the last segment. *)
Definition recover_finish (active_index : Z) (rs : RecoveryState) (scan : SegmentScan) (truncated_bytes : Z) (active : DiagnosticFile)
  : segment_op RecoveryReport :=
  let! next_segment := st_lift (ok_or (checked_add64 active_index 1) InvalidData) in
  let last_sequence := default (rs_immutable_last_sequence rs) (sc_last_sequence scan) in
  let last_event_id := match sc_last_event_id scan with Some id => Some id | None => rs_immutable_last_event_id rs end in
  do! writer_mod (fun w => mkWriter (sw_segment_limit w) true (Some active) (de_len (df_snapshot active))
                             last_sequence last_event_id next_segment true);
  st_ret (mkRecoveryReport truncated_bytes active_index last_sequence last_event_id).

Lemma recover_finish_run limit d0 d closed n evs i rs scan truncated :
  disk_ok limit d0 (events_in closed (Some (n, evs, []))) ->
  segments limit (ds_nodes (sd_store d)) closed (Some (n, evs, [])) -> node_index n = Some i -> i <= u64_max ->
  (i = u64_max -> numbers_used_up (ds_nodes (sd_store d0))) ->
  (ds_outcomes (sd_store d0) = [] -> ds_outcomes (sd_store d) = []) ->
  sd_writer d = sd_writer d0 -> (sw_initialized (sd_writer d0) = true -> i < u64_max) ->
  default (rs_immutable_last_sequence rs) (sc_last_sequence scan) = default 0 (sequence <$> list.last (events_in closed (Some (n, evs, [])))) ->
  match sc_last_event_id scan with Some id => Some id | None => rs_immutable_last_event_id rs end
    = event_id <$> list.last (events_in closed (Some (n, evs, []))) ->
  recovered limit d0 (events_in closed (Some (n, evs, []))) (recover_finish i rs scan truncated (handle limit n) d).
Proof.
  intros (cl & op & _ & _ & Hlimit & _) Hsg Hi Hmax Hused Ho Hw Hinit Hseq Hid. unfold recover_finish, st_bind, st_lift, checked_add64.
  destruct (Z.leb_spec (i + 1) u64_max) as [Hle|Hgt]; cbn [ok_or].
  - unfold writer_mod, st_mod, st_ret. rewrite Hseq, Hid. split; [|split; [done|]]; [|done]. exists closed, (Some (n, evs, [])). split; [done|].
    split; [done|]. split; [cbn; by rewrite Hw|]. intros _. exists n, evs, i. cbn. split_and!; try done. lia.
  - split; [|split; [done|]]; [|split; [done|right; apply Hused; lia]]. exists closed, (Some (n, evs, [])). split; [done|]. split; [done|].
    split; [cbn; by rewrite Hw|]. cbn. rewrite Hw. intros Hin. apply Hinit in Hin. lia.
Qed.

Lemma node_index_same a b : nd_name a = nd_name b -> node_index a = node_index b.
Proof. unfold node_index, entry_index, entry_of. cbn. by intros ->. Qed.

Lemma last_segment limit nodes closed n evs tail : segments limit nodes closed (Some (n, evs, tail)) ->
  seg_nodes nodes = closed.*1 ++ [n] /\ n ∈ nodes /\ n ∈ seg_nodes nodes /\ zlen (nd_contents n) <= limit /\
  exists i, node_index n = Some i /\ 0 < i <= u64_max.
Proof.
  intros [Hs Hn _ _ _ _ Hz]. cbn in Hn. assert (n ∈ seg_nodes nodes) as Hin by (rewrite Hn; set_solver).
  pose proof Hin as Hseg. unfold seg_nodes in Hseg. apply list_elem_of_In, filter_In in Hseg as [Hnode Hseg].
  apply is_someb_true in Hseg as [i Hi]. split_and!; [done|by apply list_elem_of_In|done|by apply (proj1 (list.Forall_forall _ _) Hz)|].
  exists i. split; [done|]. apply node_index_name, parse_segment_name in Hi as (? & _ & _ & _ & _ & Hi). done.
Qed.

(** Recovery on a directory without segments. *)
Lemma recover_create limit d0 d : disk_ok limit d0 [] -> segments limit (ds_nodes (sd_store d0)) [] None -> 0 <= limit ->
  ds_nodes (sd_store d) = ds_nodes (sd_store d0) -> (ds_outcomes (sd_store d0) = [] -> ds_outcomes (sd_store d) = []) ->
  sd_writer d = sd_writer d0 -> sw_initialized (sd_writer d0) = false ->
  recovered limit d0 []
    ((let! active := on_store (st_map_err (map_recovery_error CreateSegment) (create_new (segment_name 1) [] limit)) in
      recover_finish 1 (mkRecoveryState None 0 None) (mkScan 0 None None None ScanComplete) 0 active) d).
Proof.
  intros Hd0 Hsg Hl Hn Ho Hw Hinit. rewrite <- Hn in Hsg.
  pose proof (fun id modified => segments_insert limit _ [] None 1 id modified Hsg I Hl ltac:(unfold u64_max; lia)) as Hins.
  assert (forall m, m ∈ seg_nodes (ds_nodes (sd_store d)) -> exists j, node_index m = Some j /\ j < 1) as Hlow.
  { rewrite (sg_nodes _ _ _ _ Hsg). set_solver. }
  destruct (create_run limit 1 (sd_store d)) as (o & Herr & Hrun); [done|unfold u64_max; lia|by apply (Hins 0 None)|].
  unfold st_bind, on_store, st_map_err. rewrite Hrun. clear Hrun. destruct (Hins (oc_identity o) (oc_modified o) Hlow) as [_ Hsg'].
  destruct (oc_error o) as [e|] eqn:He; cbn [map_err is_someb andb].
  - split; [|split; [cbn; intros H; by rewrite (Ho H)|]]; cycle 1.
    { cbn. split; [done|]. left. intros H. by apply Herr, Ho. }
    destruct (oc_reached o =? 0)%nat; cbn; eexists _, _; (split; [done|]); (split; [done|]); cbn; rewrite Hw;
      destruct Hd0 as (? & ? & _ & _ & Hlim & _); (split; [done|]); by rewrite Hinit.
  - cbn [app closing] in Hsg'. apply (recover_finish_run limit d0
      (mkDisk (mkStore (insert_node (mkNode (segment_name 1) [] (oc_identity o) (oc_modified o)) (ds_nodes (sd_store d)))
                 (tail (ds_outcomes (sd_store d)))) (sd_writer d)) [] _ [] 1 (mkRecoveryState None 0 None)
      (mkScan 0 None None None ScanComplete) 0 Hd0 Hsg'); try done.
    cbn. intros H. by rewrite (Ho H).
Qed.

Lemma recover_truncate limit d0 d closed n evs tail i : limit <= u64_max ->
  disk_ok limit d0 (events_in closed (Some (n, evs, tail))) ->
  segments limit (ds_nodes (sd_store d0)) closed (Some (n, evs, tail)) -> node_index n = Some i -> i <= u64_max ->
  ds_nodes (sd_store d) = ds_nodes (sd_store d0) -> (ds_outcomes (sd_store d0) = [] -> ds_outcomes (sd_store d) = []) ->
  sd_writer d = sd_writer d0 -> (sw_initialized (sd_writer d0) = true -> tail = [] /\ i < u64_max) ->
  let rs := rs_of limit (closed.*1 ++ [n]) in let scan := scan_all (nd_contents n) in
  recovered limit d0 (events_in closed (Some (n, evs, tail)))
    ((let truncated := if negb (bool_decide (sc_status scan = ScanComplete)) then sat_sub (de_len (df_snapshot (handle limit n))) (sc_valid_len scan) else 0 in
      let! active := (if negb (truncated =? 0)
                      then on_store (st_map_err (map_recovery_error TruncateSegment) (DiagnosticFile_truncate (handle limit n) (sc_valid_len scan)))
                      else st_ret (handle limit n)) in
      recover_finish i rs scan truncated active) d).
Proof.
  intros Hlim Hd0 Hsg Hi Hmax Hn Ho Hw Hinit rs scan.
  destruct (last_segment _ _ _ _ _ _ Hsg) as (Hsegs & Hin & Hins & Hlen & _).
  destruct (recovered_end limit closed n evs tail _ Hsg Hlim) as [Hseq Hid]. fold rs scan in Hseq, Hid.
  pose proof Hsg as [Hs _ _ [Hb Ht] Hst Hinc _]. unfold events_in in Hst, Hinc. cbn [open_events] in Hst, Hinc.
  apply list.Forall_app in Hst as [_ Hse]. pose proof Hinc as (_ & Hie & _)%increasing_app.
  pose proof (zlen_nonneg tail) as Hpos. rewrite Hb, zlen_app in Hlen.
  assert (scan = mkScan (zlen (segment_bytes evs)) (sequence <$> list.head evs) (sequence <$> list.last evs) (event_id <$> list.last evs)
    (if is_emptyb tail then ScanComplete else if is_emptyb evs then ScanCorrupt else ScanTornTail)) as Hscan.
  { unfold scan. rewrite Hb. apply scan_segment_bytes; done || lia. }
  assert (i = u64_max -> numbers_used_up (ds_nodes (sd_store d0))) as Hused by (intros ->; by exists n).
  destruct tail as [|b tail].
  - assert (sc_status scan = ScanComplete) as -> by (by rewrite Hscan). cbn [bool_decide negb Z.eqb].
    unfold st_bind, st_ret. apply recover_finish_run; try done; [by rewrite Hn|]. intros H. by apply Hinit in H as [_ H].
  - assert (sw_initialized (sd_writer d0) = false) as Hinit' by (destruct (sw_initialized _); [by destruct Hinit|done]).
    assert (bool_decide (sc_status scan = ScanComplete) = false) as -> by (apply bool_decide_eq_false; rewrite Hscan; by destruct evs).
    assert (sc_valid_len scan = zlen (segment_bytes evs)) as Hvalid by (by rewrite Hscan).
    cbn [negb de_len df_snapshot handle entry_of]. rewrite Hvalid, Hb, zlen_app. unfold sat_sub. rewrite zlen_cons in Hpos |- *.
    pose proof (zlen_nonneg tail). rewrite (proj2 (Z.eqb_neq _ 0)) by lia. cbn [negb].
    unfold st_bind, on_store, st_map_err, DiagnosticFile_truncate. cbn [de_len df_snapshot handle entry_of df_maximum_size].
    rewrite Hb, zlen_app, zlen_cons. pose proof (zlen_nonneg (segment_bytes evs)). rewrite zlen_cons in Hlen.
    rewrite !(proj2 (Z.ltb_ge _ _)) by lia. cbn [orb]. fold (handle limit n).
    destruct (write_contents_run limit n (take (Z.to_nat (zlen (segment_bytes evs))))
      (fun reached contents => if (reached =? 0)%nat then contents else take (Z.to_nat (zlen (segment_bytes evs))) contents) (sd_store d))
      as (o & Herr & Hrun); [by rewrite Hn..|]. rewrite Hrun. clear Hrun.
    assert (take (Z.to_nat (zlen (segment_bytes evs))) (nd_contents n) = segment_bytes evs) as Htake.
    { rewrite Hb. unfold zlen. rewrite Nat2Z.id. apply take_app_length. }
    assert (forall keep, segments limit (replace_node (mkNode (nd_name n) (segment_bytes evs ++ if keep : bool then b :: tail else [])
        (nd_identity n) (oc_modified o)) (ds_nodes (sd_store d))) closed
        (Some (mkNode (nd_name n) (segment_bytes evs ++ if keep then b :: tail else []) (nd_identity n) (oc_modified o), evs,
               if keep then b :: tail else []))) as Hnew.
    { intros keep. rewrite Hn. eapply segments_rewrite; try done; [destruct keep; [done|set_solver]|].
      cbn. rewrite zlen_app. destruct keep; rewrite ?zlen_cons, ?zlen_nil; lia. }
    destruct (oc_error o) as [e|] eqn:He; cbn [map_err].
    + assert (exists keep, (if (oc_reached o =? 0)%nat then nd_contents n else take (Z.to_nat (zlen (segment_bytes evs))) (nd_contents n))
        = segment_bytes evs ++ (if keep : bool then b :: tail else [])) as [keep ->].
      { destruct (oc_reached o =? 0)%nat; [exists true; by rewrite Hb|exists false; by rewrite Htake, app_nil_r]. }
      split; [|split; [cbn; intros H'; by rewrite (Ho H')|]]; cycle 1.
      { cbn. split; [done|]. left. intros H'. apply Herr; [done|]. by apply Ho. }
      eexists closed, _. cbn. split; [apply (Hnew keep)|]. split; [done|].
      destruct Hd0 as (? & ? & _ & _ & Hlim' & _). rewrite Hw. split; [done|]. by rewrite Hinit'.
    + rewrite Htake. specialize (Hnew false). cbn in Hnew. rewrite app_nil_r in Hnew.
      eapply (recover_finish_run limit d0 _ closed (mkNode (nd_name n) (segment_bytes evs) (nd_identity n) (oc_modified o)) evs i); try done.
      * cbn. intros H'. by rewrite (Ho H').
      * by rewrite Hinit'.
Qed.

Lemma recover_run limit d evs : disk_ok limit d evs -> 0 <= limit <= u64_max -> recovered limit d evs (recover d).
Proof.
  intros Hd Hlim. pose proof Hd as (closed & open & Hsg & -> & Hlimit & Hinit). unfold recover.
  eapply on_store_bind; [apply looked_map_err, os_check_looked|intros; by apply recovered_err|]. intros s1 [] _ H1 Ho1.
  unfold st_bind at 1, st_get. cbn [sd_writer]. rewrite Hlimit.
  eapply (on_store_bind _ _ (mkDisk s1 (sd_writer d))).
  { cbn [sd_store]. apply recover_scan_looked; try rewrite H1; [apply Hsg|by eapply segments_chained, Hlim|apply Hsg|lia]. }
  { cbn. intros s2 e H2 Ho2. apply recovered_err; [done|congruence|]. intros H. by apply Ho2, Ho1. }
  cbn [sd_store sd_writer]. intros s2 [rs pages] Hrs H2 Ho2. cbn [sd_store] in H2, Ho2. cbn [fst sd_store] in Hrs |- *. rewrite H1 in Hrs. rewrite Hrs, (sg_nodes _ _ _ _ Hsg). clear rs Hrs.
  assert (ds_nodes s2 = ds_nodes (sd_store d)) as Hn by congruence.
  destruct open as [[[n evs] tail]|].
  - destruct (last_segment _ _ _ _ _ _ Hsg) as (_ & _ & _ & _ & i & Hi & Hmax). cbn [open_nodes].
    unfold rs_of at 1. rewrite reverse_snoc. cbn [rs_pending]. rewrite Hi. cbn [default].
    unfold st_bind at 1, st_ret at 1. apply recover_truncate; cbn; try done; [lia|lia|auto|].
    intros H. destruct (Hinit H) as (? & ? & j & ? & Hj & Hlt & _). simplify_eq. done.
  - pose proof (sg_open _ _ _ _ Hsg) as ->. cbn [fmap list_fmap app open_nodes rs_of reverse rev_append rs_pending].
    pose proof (recover_create limit d (mkDisk s2 (sd_writer d)) Hd Hsg ltac:(lia) Hn ltac:(cbn; auto) eq_refl) as Hrun.
    assert (sw_initialized (sd_writer d) = false) as Hni.
    { destruct (sw_initialized _); [|done]. by destruct Hinit as (? & ? & ? & ? & _). }
    specialize (Hrun Hni). unfold st_bind, st_ret in *. destruct (on_store _ _) as [d' [active|e]]; [|exact Hrun].
    cbn [sc_status bool_decide]. exact Hrun.
Qed.

(** ** Writing *)
Definition ready (limit : Z) (d : SegmentDisk) (evs : list PreparedDiagnosticEvent) : Prop :=
  disk_ok limit d evs /\ sw_initialized (sd_writer d) = true.

(** The parts of the writer an append or a rotation leaves alone. *)
Definition same_end (w w' : SegmentWriter) : Prop :=
  sw_last_sequence w' = sw_last_sequence w /\ sw_last_event_id w' = sw_last_event_id w /\ sw_segment_limit w' = sw_segment_limit w.

Lemma append_run limit d evs ps : ready limit d evs -> Forall stored_ok ps -> increasing (evs ++ ps) ->
  sw_active_len (sd_writer d) + zlen (segment_bytes ps) <= limit -> limit <= u64_max ->
  match append (segment_bytes ps) d with
  | (d', Ok _) => ready limit d' (evs ++ ps) /\ same_end (sd_writer d) (sd_writer d') /\
      (ds_outcomes (sd_store d) = [] -> ds_outcomes (sd_store d') = []) /\
      sw_active_len (sd_writer d') = sw_active_len (sd_writer d) + zlen (segment_bytes ps) /\
      sw_next_segment (sd_writer d') = sw_next_segment (sd_writer d)
  | (d', Err _) => ds_outcomes (sd_store d) <> [] /\ sw_initialized (sd_writer d') = false /\
      exists k, disk_ok limit d' (evs ++ take k ps)
  end.
Proof.
  intros [Hd Hinit] Hps Hinc Hfit Hlim. pose proof Hd as (closed & open & Hsg & -> & Hlimit & Hw).
  destruct (Hw Hinit) as (n & evs & i & -> & Hi & Hmax & Hdir & Hact & Hlen & Hnext).
  destruct ps as [|p ps].
  { change (append (segment_bytes []) d) with (d, Ok (E := SegmentError) tt). change (zlen (segment_bytes [])) with 0.
    rewrite !app_nil_r. by rewrite Z.add_0_r. }
  set (all := p :: ps) in *. assert (is_emptyb (segment_bytes all) = false) as Hne by (cbn; by destruct (encoded p)).
  destruct (last_segment _ _ _ _ _ _ Hsg) as (_ & Hin & _ & Hsize & _). pose proof Hsg as [Hs _ _ [Hb _] Hst _ _].
  rewrite app_nil_r in Hb. unfold events_in in *. cbn [open_events] in *. apply list.Forall_app in Hst as [_ Hse].
  unfold append. rewrite Hne. unfold resetting, st_bind, st_get, st_lift. rewrite Hact. cbn [ok_or].
  unfold on_store at 1, st_map_err, DiagnosticFile_append, st_bind at 1, st_lift, checked_add64. cbn [de_len df_snapshot handle entry_of df_maximum_size].
  rewrite <- Hlen, (proj2 (Z.leb_le _ _)) by lia. cbn [ok_or]. rewrite (proj2 (Z.ltb_ge _ _)) by lia. rewrite Hlen. fold (handle limit n).
  destruct (write_contents_run limit n (fun c => c ++ segment_bytes all) (fun reached c => c ++ take reached (segment_bytes all)) (sd_store d))
    as (o & Herr & Hrun); [done..|]. rewrite Hrun. clear Hrun.
  assert (forall more tail, segment_bytes evs ++ more = segment_bytes (evs ++ tail.1) ++ tail.2 -> Forall stored_ok tail.1 ->
    increasing (concat closed.*2 ++ evs ++ tail.1) -> newline ∉ tail.2 -> zlen (segment_bytes evs ++ more) <= limit ->
    let node := mkNode (nd_name n) (nd_contents n ++ more) (nd_identity n) (oc_modified o) in
    segments limit (replace_node node (ds_nodes (sd_store d))) closed (Some (node, evs ++ tail.1, tail.2))) as Hnew.
  { intros more [ws t] Heq Hws Hincws Ht Hz node. eapply segments_rewrite; try done; [by rewrite <- Heq, <- Hb|by cbn; rewrite Hb|].
    by apply list.Forall_app. }
  rewrite Hlen, Hb in Hfit. destruct (oc_error o) as [e|]; cbn [map_err].
  - split; [by apply Herr|]. split; [done|]. destruct (torn_lines all (oc_reached o) Hps) as (j & t & Htake & Ht). exists j.
    assert (Forall stored_ok (take j all)) as Hj by (by apply list.Forall_take).
    exists closed, (Some (mkNode (nd_name n) (nd_contents n ++ take (oc_reached o) (segment_bytes all)) (nd_identity n) (oc_modified o),
      evs ++ take j all, t)). split; [|split; [unfold events_in; cbn [open_events]; by rewrite <- app_assoc|by split]].
    apply (Hnew _ (take j all, t)); [by rewrite Htake, segment_bytes_app, app_assoc|done| |done|].
    + rewrite <- (take_drop j all) in Hinc. rewrite app_assoc in Hinc. apply increasing_app in Hinc as [Hinc _]. by rewrite app_assoc.
    + rewrite zlen_app. assert (zlen (take (oc_reached o) (segment_bytes all)) <= zlen (segment_bytes all)); [|lia].
      unfold zlen. rewrite length_take. lia.
  - cbn [ok_or]. unfold writer_mod, st_mod. cbn.
    split; [|split_and!; try done; intros H; by rewrite H]. split; [|done].
    eexists closed, (Some (_, evs ++ all, [])). split; [apply (Hnew (segment_bytes all) (all, []))|split; [unfold events_in; cbn [open_events]; by rewrite <- app_assoc|]].
    + by rewrite segment_bytes_app, app_nil_r.
    + done.
    + by rewrite app_assoc.
    + set_solver.
    + rewrite zlen_app. lia.
    + split; [done|]. intros _. eexists _, _, i. split_and!; try done.
      symmetry. apply zlen_app.
Qed.

Lemma rotate_run limit d evs : ready limit d evs -> 0 <= limit -> sw_active_len (sd_writer d) <> 0 ->
  match rotate d with
  | (d', Ok _) => ready limit d' evs /\ same_end (sd_writer d) (sd_writer d') /\
      (ds_outcomes (sd_store d) = [] -> ds_outcomes (sd_store d') = []) /\
      sw_active_len (sd_writer d') = 0 /\ sw_next_segment (sd_writer d') = sw_next_segment (sd_writer d) + 1
  | (d', Err _) => (ds_outcomes (sd_store d) <> [] \/ sw_next_segment (sd_writer d) = u64_max) /\
      sw_initialized (sd_writer d') = false /\ disk_ok limit d' evs
  end.
Proof.
  intros [Hd Hinit] Hlim Hlen0. pose proof Hd as (closed & open & Hsg & -> & Hlimit & Hw).
  destruct (Hw Hinit) as (n & evs & i & -> & Hi & Hmax & Hdir & Hact & Hlen & Hnext).
  destruct (last_segment _ _ _ _ _ _ Hsg) as (Hsegs & _ & _ & _ & j & Hj & Hpos). rewrite Hi in Hj. injection Hj as <-.
  unfold rotate, st_bind at 1, st_get. rewrite (proj2 (Z.eqb_neq _ _)) by done.
  unfold resetting, st_bind, st_lift. rewrite Hact, Hdir, Hlimit, Hnext. cbn [ok_or]. unfold writer_mod, st_mod. cbn [sd_writer sd_store].
  unfold on_store, st_map_err. cbn [sd_store sd_writer].
  assert (evs <> []) as Hne.
  { intros ->. pose proof (sg_open _ _ _ _ Hsg) as [Hb _]. rewrite Hlen, Hb in Hlen0. by apply Hlen0. }
  assert (forall id modified, let node := mkNode (segment_name (i + 1)) [] id modified in
    find_node (nd_name node) (ds_nodes (sd_store d)) = None /\
    segments limit (insert_node node (ds_nodes (sd_store d))) (closed ++ [(n, evs)]) (Some (node, [], []))) as Hins.
  { intros id modified. apply (segments_insert limit _ closed (Some (n, evs, []))); try done; [lia|].
    intros m Hm. destruct (last_index _ _ _ _ (sg_sorted _ _ _ _ Hsg) Hsegs Hi m Hm) as (k & Hk & Hle). exists k. split; [done|lia]. }
  assert (forall o, events_in closed (Some (n, evs, [])) = events_in (closed ++ [(n, evs)]) (Some (o, [], []))) as Hev.
  { intros o. unfold events_in. cbn. rewrite fmap_app, concat_app. cbn. by rewrite !app_nil_r. }
  destruct (create_run limit (i + 1) (sd_store d)) as (o & Herr & Hrun); [done|lia|by apply (Hins 0 None)|]. rewrite Hrun. clear Hrun.
  destruct (Hins (oc_identity o) (oc_modified o)) as [_ Hsg']. cbn [nd_name] in Hsg'.
  destruct (oc_error o) as [e|] eqn:He; cbn [map_err is_someb andb].
  - split; [left; by apply Herr|]. split; [done|]. destruct (oc_reached o =? 0)%nat.
    + exists closed, (Some (n, evs, [])). by split_and!.
    + eexists _, _. split; [exact Hsg'|]. split; [apply Hev|]. by split.
  - unfold checked_add64. destruct (Z.leb_spec (i + 1 + 1) u64_max) as [Hle|Hgt]; cbn [ok_or].
    + cbn. split; [|split_and!; try done; lia || (intros H; by rewrite H)]. split; [|done]. eexists _, _. split; [exact Hsg'|]. split; [apply Hev|].
      split; [done|]. intros _. eexists _, _, (i + 1). split_and!; try done; [by apply named_index; lia|lia].
    + split; [right; lia|]. split; [done|]. eexists _, _. split; [exact Hsg'|]. split; [apply Hev|]. by split.
Qed.

(** ** Flushing *)
Definition past (last : Z) (evs : list PreparedDiagnosticEvent) : Prop := increasing evs /\ Forall (fun e => last < sequence e) evs.

Lemma check_sequences evs : forall last id,
  (past last evs -> exists r, try_fold check_sequence (last, id) evs = Ok r) /\
  (forall r, try_fold check_sequence (last, id) evs = Ok r ->
     past last evs /\ fst r = default last (sequence <$> list.last evs) /\
     snd r = match list.last evs with Some e => Some (event_id e) | None => id end).
Proof.
  induction evs as [|e evs IH]; intros last id; [split; [eauto|]; intros r [= <-]; repeat split; constructor|].
  cbn [try_fold]. unfold check_sequence at 1 3. cbn [fst]. destruct (IH (sequence e) (Some (event_id e))) as [Hex Hok].
  destruct (Z.leb_spec (sequence e) last) as [Hle|Hlt]; cbn [result_bind].
  { split; [|done]. intros [_ [H _]%list.Forall_cons]. lia. }
  split.
  - intros [[Hi Hf]%StronglySorted_inv _]. apply Hex. by split.
  - intros r Hr. destruct (Hok r Hr) as ([Hi Hf] & H1 & H2). split; [split; [by constructor|]|].
    + constructor; [done|]. eapply list.Forall_impl; [done|]. cbn. lia.
    + rewrite last_cons. by destruct (list.last evs).
Qed.

(** The loop over the events of a batch; [more] bounds the events still to come. *)
Lemma flush_events_run limit log : MAX_PREPARED_EVENT_BYTES < limit <= MAX_SEGMENT_BYTES ->
  forall todo written ps rotations d, ready limit d (log ++ written) ->
  Forall stored_ok (ps ++ todo) -> increasing (log ++ written ++ ps ++ todo) ->
  sw_active_len (sd_writer d) + zlen (segment_bytes ps) <= limit ->
  match st_fold flush_event (segment_bytes ps, rotations) todo d with
  | (d', Ok acc) => exists written' ps', written ++ ps ++ todo = written' ++ ps' /\ fst acc = segment_bytes ps' /\
      ready limit d' (log ++ written') /\ same_end (sd_writer d) (sd_writer d') /\
      (ds_outcomes (sd_store d) = [] -> ds_outcomes (sd_store d') = []) /\
      sw_active_len (sd_writer d') + zlen (segment_bytes ps') <= limit
  | (d', Err _) => (ds_outcomes (sd_store d) <> [] \/ u64_max < sw_next_segment (sd_writer d) + zlen todo) /\
      sw_initialized (sd_writer d') = false /\ exists reached rest, written ++ ps ++ todo = reached ++ rest /\ disk_ok limit d' (log ++ reached)
  end.
Proof.
  intros Hlim. assert (limit <= u64_max) as Hlim64 by (unfold MAX_SEGMENT_BYTES, u64_max in *; lia).
  induction todo as [|e todo IH]; intros written ps rotations d Hready Hall Hinc Hfit.
  { cbn. exists written, ps. rewrite app_nil_r. split_and!; done. }
  cbn [st_fold]. pose proof Hready as [(closed & open & Hsg & Hlog & Hlimit & Hw) Hinit].
  destruct (Hw Hinit) as (n & evs & i & -> & _ & _ & _ & _ & Hlen & _). pose proof (zlen_nonneg (nd_contents n)).
  pose proof Hall as [Hps [He Htodo]%list.Forall_cons]%list.Forall_app. pose proof (stored_len e He) as Hel.
  pose proof (zlen_nonneg (segment_bytes ps)).
  unfold st_bind at 1. unfold flush_event at 1. unfold st_bind at 1, st_get. rewrite Hlimit.
  unfold st_bind at 1, st_lift. unfold encoded_len, checked_add64 at 1. rewrite (proj2 (Z.leb_le _ u64_max)) by (unfold MAX_PREPARED_EVENT_BYTES, u64_max in *; lia).
  cbn [ok_or]. rewrite (proj2 (Z.ltb_ge limit _)) by lia. unfold st_bind at 1.
  unfold checked_add64. rewrite (proj2 (Z.leb_le (sw_active_len _ + _) u64_max)) by lia. cbn [mbind option_bind].
  rewrite (proj2 (Z.leb_le _ u64_max)) by (unfold MAX_PREPARED_EVENT_BYTES, MAX_SEGMENT_BYTES, u64_max in *; lia). cbn [ok_or].
  assert (forall l, segment_bytes l ++ encoded e ++ [newline] = segment_bytes (l ++ [e])) as Hone.
  { intros l. rewrite segment_bytes_app. cbn. by rewrite app_nil_r. }
  destruct (Z.ltb_spec limit (sw_active_len (sd_writer d) + zlen (segment_bytes ps) + (zlen (encoded e) + 1))) as [Hover|Hroom].
  - pose proof (append_run limit d (log ++ written) ps Hready Hps) as Hap.
    assert (increasing ((log ++ written) ++ ps)) as Hincps.
    { rewrite !app_assoc in Hinc. rewrite <- !app_assoc in Hinc |- *. rewrite !app_assoc in Hinc. apply increasing_app in Hinc as [Hinc _].
      by rewrite <- app_assoc in Hinc. }
    specialize (Hap Hincps Hfit Hlim64). unfold st_bind. destruct (append (segment_bytes ps) d) as [d1 [[]|err]]; cycle 1.
    { destruct Hap as (Ho & Hi1 & k & Hk). split; [by left|]. split; [done|]. exists (written ++ take k ps), (drop k ps ++ e :: todo).
      split; [by rewrite <- app_assoc, (app_assoc (take k ps)), take_drop|by rewrite app_assoc]. }
    destruct Hap as (Hready1 & (Hq1 & Hid1 & Hl1) & Ho1 & Hlen1 & Hnext1).
    pose proof (rotate_run limit d1 _ Hready1 ltac:(unfold MAX_PREPARED_EVENT_BYTES in *; lia) ltac:(lia)) as Hro.
    destruct (rotate d1) as [d2 [[]|err]]; cycle 1.
    { destruct Hro as (Hwhy & Hi2 & Hd2). split; [destruct Hwhy as [Ho|Hn]; [left; auto|right; rewrite zlen_cons; pose proof (zlen_nonneg todo); lia]|].
      split; [done|]. exists (written ++ ps), (e :: todo). split; [by rewrite <- app_assoc|by rewrite app_assoc]. }
    destruct Hro as (Hready2 & (Hq2 & Hid2 & Hl2) & Ho2 & Hlen2 & Hnext2). unfold st_ret. cbn [fst snd].
    rewrite <- app_assoc in Hready2. assert (segment_bytes [e] = encoded e ++ [newline]) as Hsing by (cbn; by rewrite app_nil_r).
    assert (Forall stored_ok ([e] ++ todo)) as Hrest by (by constructor).
    assert (increasing (log ++ (written ++ ps) ++ [e] ++ todo)) as Hinc2 by (by rewrite <- (app_assoc written)).
    specialize (IH (written ++ ps) [e] (sat_add64 rotations 1) d2 Hready2 Hrest Hinc2).
    rewrite Hsing, Hlen2, zlen_app in IH. change (zlen [newline]) with 1 in IH. specialize (IH ltac:(lia)).
    rewrite <- (app_assoc written) in IH. cbn [app] in IH |- *.
    destruct (st_fold _ _ _ _) as [d3 [acc|err]].
    + destruct IH as (w' & ps' & Heq & Hacc & Hready3 & (Hq3 & Hid3 & Hl3) & Ho3 & Hfit3). exists w', ps'. rewrite <- Heq.
      split_and!; try done; [split_and!; congruence|auto].
    + destruct IH as (Hwhy & Hi3 & pre & rest & Heq & Hd3). split; [|split; [done|]; exists pre, rest; by rewrite <- Heq].
      destruct Hwhy as [Ho|Hn]; [left; auto|right; rewrite zlen_cons; lia].
  - unfold st_bind, st_ret. cbn [fst snd]. rewrite Hone. specialize (IH written (ps ++ [e]) rotations d Hready). rewrite <- !app_assoc in IH.
    cbn [app] in IH. specialize (IH Hall Hinc). rewrite <- Hone, !zlen_app in IH. change (zlen [newline]) with 1 in IH. specialize (IH ltac:(lia)).
    rewrite Hone in IH. destruct (st_fold _ _ _ _) as [d3 [acc|err]]; [done|]. destruct IH as (Hwhy & Hrest). split; [|done].
    destruct Hwhy as [Ho|Hn]; [by left|right; rewrite zlen_cons; lia].
Qed.

Lemma increasing_below evs : increasing evs -> Forall (fun e => sequence e <= default 0 (sequence <$> list.last evs)) evs.
Proof.
  destruct evs as [|e evs _] using rev_ind; [constructor|]. intros [_ Hf]%increasing_snoc. rewrite last_snoc. cbn.
  apply list.Forall_app. split; [eapply list.Forall_impl; [done|]; cbn; lia|]. constructor; [lia|constructor].
Qed.

Lemma past_app log evs last : increasing log -> Forall (fun e => sequence e <= last) log -> past last evs -> increasing (log ++ evs).
Proof.
  intros Hlog Hle [Hi Hf]. apply increasing_app. split_and!; [done|done|]. intros x y Hx Hy.
  apply (proj1 (list.Forall_forall _ _) Hle) in Hx. apply (proj1 (list.Forall_forall _ _) Hf) in Hy. cbn in *. lia.
Qed.

Lemma disk_increasing limit d evs : disk_ok limit d evs -> increasing evs.
Proof. intros (closed & open & Hsg & -> & _). apply Hsg. Qed.

(** A batch as [try_push] builds it. *)
Definition batch_ok (b : DurableBatch) : Prop :=
  Forall stored_ok (ba_events b) /\ 0 <= ba_event_bytes b <= MAX_BATCH_EVENT_BYTES /\ event_count b <= MAX_BATCH_EVENTS.

(** The part of a flush after the check of the sequence numbers. *)
Lemma flush_ready limit d log batch : MAX_PREPARED_EVENT_BYTES < limit <= MAX_SEGMENT_BYTES -> ready limit d log ->
  Forall (fun e => sequence e <= sw_last_sequence (sd_writer d)) log -> batch_ok batch -> ba_events batch <> [] ->
  match (let! final := st_lift (try_fold check_sequence (sw_last_sequence (sd_writer d), sw_last_event_id (sd_writer d)) (ba_events batch)) in
    do! st_lift (ok_or (checked_add64 (ba_event_bytes batch) (event_count batch)) InvalidData);
    let! acc := st_fold flush_event ([], 0) (ba_events batch) in
    do! append (fst acc);
    do! writer_mod (fun w => mkWriter (sw_segment_limit w) (sw_directory w) (sw_active w) (sw_active_len w)
                               (fst final) (snd final) (sw_next_segment w) (sw_initialized w));
    let! d := st_get in
    st_ret (if snd acc =? 0 then FlushWritten else FlushRotated (snd acc) (sat_sub (sw_next_segment (sd_writer d)) 1))) d with
  | (d', Ok _) => past (sw_last_sequence (sd_writer d)) (ba_events batch) /\
      disk_ok limit d' (log ++ ba_events batch) /\ numbered_ok (sd_writer d') (log ++ ba_events batch)
  | (d', Err _) => (exists reached rest, ba_events batch = reached ++ rest /\ disk_ok limit d' (log ++ reached) /\ numbered_ok (sd_writer d') (log ++ reached)) /\
      (past (sw_last_sequence (sd_writer d)) (ba_events batch) ->
       ds_outcomes (sd_store d) <> [] \/ u64_max < sw_next_segment (sd_writer d) + event_count batch)
  end.
Proof.
  intros Hlim [Hd Hinit] Hle (Hst & Hbytes & Hcount) Hne. unfold st_bind at 1, st_lift at 1.
  destruct (check_sequences (ba_events batch) (sw_last_sequence (sd_writer d)) (sw_last_event_id (sd_writer d))) as [Hex Hok].
  destruct (try_fold check_sequence _ _) as [final|err]; cycle 1.
  { split; [|intros Hp; by destruct (Hex Hp)]. exists [], (ba_events batch). rewrite app_nil_r. split_and!; try done. by intros _. }
  destruct (Hok final eq_refl) as (Hpast & Hlast & _). unfold st_bind at 1, st_lift, checked_add64.
  rewrite (proj2 (Z.leb_le _ u64_max)) by (unfold MAX_BATCH_EVENT_BYTES, MAX_BATCH_EVENTS, u64_max in *; lia). cbn [ok_or].
  pose proof (past_app _ _ _ (disk_increasing _ _ _ Hd) Hle Hpast) as Hinc.
  destruct Hd as (closed & open & Hsg & Hlog & Hlimit & Hw). destruct (Hw Hinit) as (n & evs & i & Hopen & Hi & Hi' & Hdir & Hact & Hlen & Hnext).
  assert (disk_ok limit d log) as Hd by (exists closed, open; by split_and!).
  assert (sw_active_len (sd_writer d) + zlen (segment_bytes []) <= limit) as Hfit.
  { rewrite Hlen. subst open. apply last_segment in Hsg as (_ & _ & _ & Hz & _). change (zlen (segment_bytes [])) with 0. lia. }
  pose proof (flush_events_run limit log Hlim (ba_events batch) [] [] 0 d) as Hrun. rewrite app_nil_r in Hrun.
  specialize (Hrun (conj Hd Hinit) Hst Hinc Hfit). unfold st_bind at 1. cbn [segment_bytes flat_map app] in Hrun.
  destruct (st_fold flush_event _ _ d) as [d1 [acc|err]]; cycle 1.
  { destruct Hrun as (Hwhy & Hi1 & pre & rest & Heq & Hd1). split; [|done]. exists pre, rest. split_and!; try done. unfold numbered_ok. by rewrite Hi1. }
  destruct Hrun as (written & ps & Heq & -> & Hready & (Hq & Hid & Hl) & Ho & Hfit1).
  pose proof (append_run limit d1 (log ++ written) ps Hready) as Hap. rewrite <- app_assoc, <- Heq in Hap.
  assert (Forall stored_ok ps) as Hps by (rewrite Heq in Hst; by apply list.Forall_app in Hst as [_ Hst]).
  specialize (Hap Hps Hinc Hfit1 ltac:(unfold MAX_SEGMENT_BYTES, u64_max in *; lia)). unfold st_bind.
  destruct (append (segment_bytes ps) d1) as [d2 [[]|err]]; cycle 1.
  { destruct Hap as (Ho1 & Hi2 & k & Hd2). split; [|intros _; left; auto]. exists (written ++ take k ps), (drop k ps).
    rewrite Heq. split_and!; [by rewrite <- app_assoc, take_drop|by rewrite app_assoc|]. unfold numbered_ok. by rewrite Hi2. }
  destruct Hap as [[Hd2 Hi2] _]. unfold writer_mod, st_mod, st_get, st_ret. split; [done|]. split.
  - destruct Hd2 as (closed2 & open2 & Hsg2 & Hlog2 & Hlimit2 & Hw2). exists closed2, open2. split_and!; [done|done|]. split; [done|]. exact Hw2.
  - intros _. cbn [sw_last_sequence sd_writer]. rewrite Hlast. pose proof (increasing_below _ Hinc) as Hbelow. rewrite last_app in Hbelow.
    destruct (list.last (ba_events batch)) eqn:E; [done|by apply last_None in E].
Qed.

Lemma flush_run limit d log batch : MAX_PREPARED_EVENT_BYTES < limit <= MAX_SEGMENT_BYTES ->
  disk_ok limit d log -> numbered_ok (sd_writer d) log -> batch_ok batch ->
  match flush batch d with
  | (d', Ok _) => disk_ok limit d' (log ++ ba_events batch) /\ numbered_ok (sd_writer d') (log ++ ba_events batch)
  | (d', Err _) => exists reached rest, ba_events batch = reached ++ rest /\ disk_ok limit d' (log ++ reached) /\
      numbered_ok (sd_writer d') (log ++ reached)
  end.
Proof.
  intros Hlim Hd Hnum Hbatch. unfold flush, batch_is_empty. destruct (ba_events batch) as [|e evs] eqn:Hev.
  { cbn. by rewrite app_nil_r. }
  cbn [is_emptyb]. rewrite <- Hev. assert (ba_events batch <> []) as Hne by (by rewrite Hev). clear e evs Hev.
  unfold st_bind at 1, st_get. destruct (sw_initialized (sd_writer d)) eqn:Hinit.
  - pose proof (flush_ready limit d log batch Hlim (conj Hd Hinit) (Hnum Hinit) Hbatch Hne) as Hrun.
    unfold st_bind at 1, st_ret at 1. unfold st_bind at 1. destruct (st_bind _ _ d) as [d' [o|err]]; [by destruct Hrun as (_ & ? & ?)|by destruct Hrun].
  - pose proof (recover_run limit d log Hd ltac:(unfold MAX_PREPARED_EVENT_BYTES, MAX_SEGMENT_BYTES, u64_max in *; lia)) as (Hd1 & _ & Hr).
    unfold st_bind at 1. unfold st_bind at 1. destruct (recover d) as [d1 [report|err]]; cbn in Hd1, Hr; cycle 1.
    { exists [], (ba_events batch). rewrite app_nil_r. destruct Hr as [Hw _]. split_and!; [done|done|]. by rewrite Hw. }
    destruct Hr as (Hi1 & Hlast & _). unfold st_ret at 1. unfold st_bind at 1.
    pose proof (flush_ready limit d1 log batch Hlim (conj Hd1 Hi1)) as Hrun.
    pose proof (increasing_below _ (disk_increasing _ _ _ Hd1)) as Hbelow. rewrite <- Hlast in Hbelow. specialize (Hrun Hbelow Hbatch Hne).
    destruct (st_bind _ _ d1) as [d' [o|err]]; [by destruct Hrun as (_ & ? & ?)|by destruct Hrun].
Qed.

(** ** Retention *)
Lemma delete_middle l n k : sorted_nodes (l ++ n :: k) -> delete_node (nd_name n) (l ++ n :: k) = l ++ k.
Proof.
  intros (_ & [_ Hk]%StronglySorted_inv & Hl)%sorted_app. unfold delete_node. rewrite List.filter_app. cbn.
  rewrite bool_decide_true by done. cbn. f_equal; apply forallb_filter_id, forallb_forall; intros m Hm%list_elem_of_In;
    apply negb_true_iff, bool_decide_eq_false.
  - apply name_lt_ne, Hl; [done|set_solver].
  - intros E. by apply (name_lt_ne n m); [apply (proj1 (list.Forall_forall _ _) Hk)|].
Qed.

Lemma increasing_middle a b c : increasing (a ++ b ++ c) -> increasing (a ++ c).
Proof.
  intros (Ha & (_ & Hc & _)%increasing_app & Hac)%increasing_app. apply increasing_app. split_and!; [done|done|].
  intros x y Hx Hy. apply Hac; [done|]. apply elem_of_app. by right.
Qed.

Lemma segments_delete limit nodes before n evs after open : segments limit nodes (before ++ (n, evs) :: after) open ->
  segments limit (delete_node (nd_name n) nodes) (before ++ after) open.
Proof.
  intros [Hs Hn Hc Ho Hst Hinc Hz]. rewrite fmap_app in Hn. cbn [fmap list_fmap fst] in Hn. rewrite <- app_assoc in Hn. cbn [app] in Hn.
  pose proof (sorted_filter is_segment _ Hs) as Hss. fold (seg_nodes nodes) in Hss. rewrite Hn in Hss.
  assert (seg_nodes (delete_node (nd_name n) nodes) = (before ++ after).*1 ++ open_nodes open) as Hsegs.
  { rewrite segs_delete, Hn, delete_middle by done. by rewrite fmap_app, app_assoc. }
  unfold events_in in *. rewrite fmap_app, concat_app in Hst, Hinc. cbn [fmap list_fmap snd concat] in Hst, Hinc.
  apply list.Forall_app in Hc as [Hcb [_ Hca]%list.Forall_cons]. rewrite !list.Forall_app in Hst.
  split.
  - by apply sorted_filter.
  - done.
  - by apply list.Forall_app.
  - destruct open as [[[m ms] t]|]; [done|]. by apply app_eq_nil in Ho as [_ ?].
  - unfold events_in. rewrite fmap_app, concat_app, !list.Forall_app. tauto.
  - unfold events_in. rewrite fmap_app, concat_app. rewrite <- !app_assoc in Hinc. rewrite <- app_assoc. by eapply increasing_middle.
  - rewrite Hsegs, fmap_app, <- app_assoc. rewrite Hn in Hz.
    apply list.Forall_app in Hz as [Hzb [_ Hza]%list.Forall_cons]. by apply list.Forall_app.
Qed.

(** ** Complete segments *)
Lemma split_segment_bytes evs e : Forall stored_ok (evs ++ [e]) ->
  split_bytes newline (segment_bytes evs ++ encoded e) = encoded <$> (evs ++ [e]).
Proof.
  intros [Hall [[He _] _]%list.Forall_cons]%list.Forall_app. unfold split_bytes.
  induction Hall as [|x evs [Hx _] _ IH]; cbn [segment_bytes flat_map app fmap list_fmap]; [by rewrite split_at_free|].
  rewrite <- !app_assoc. cbn [app]. rewrite split_at_cut by done. cbn [app]. f_equal. apply IH.
Qed.

Lemma validate_stored evs : Forall stored_ok evs -> increasing evs -> forall first last,
  is_some_and (fun l => default 0 (sequence <$> list.head evs) <=? l) last = false \/ evs = [] ->
  validate_lines (first, last) (encoded <$> evs) =
  Some (match first with Some f => Some f | None => sequence <$> list.head evs end,
        match sequence <$> list.last evs with Some l => Some l | None => last end).
Proof.
  induction 1 as [|e evs He Hall IH]; intros Hinc first last Hlast; [by destruct first|]. cbn [fmap list_fmap validate_lines].
  pose proof (stored_len e He) as Hlen. destruct He as (_ & ev & Hd & Hs & _). unfold validate_line.
  destruct (is_emptyb (encoded e)) eqn:Hemp; [apply is_emptyb_true in Hemp; rewrite Hemp in Hlen; change (zlen []) with 0 in Hlen; lia|].
  rewrite Hd, Hs. cbn [snd fst]. destruct Hlast as [Hlast|]; [|done]. 
  assert (is_some_and (fun previous => sequence e <=? previous) last = false) as -> by exact Hlast. cbn [mbind option_bind]. apply StronglySorted_inv in Hinc as [Hinc Hf]. rewrite IH; [|done|].
  - rewrite last_cons. destruct (list.last evs), first; done.
  - destruct evs as [|x evs]; [by right|left]. cbn. apply Z.leb_gt. by apply list.Forall_cons in Hf as [Hx _].
Qed.

Lemma validate_segment evs : Forall stored_ok evs -> increasing evs -> evs <> [] -> zlen (segment_bytes evs) <= MAX_SEGMENT_BYTES ->
  exists f l, list.head evs = Some f /\ list.last evs = Some l /\
    validate_complete_segment_bytes (segment_bytes evs) = Some (sequence f, sequence l).
Proof.
  intros Hall Hinc Hne Hlen. destruct evs as [|e evs _] using rev_ind; [done|].
  assert (segment_bytes (evs ++ [e]) = (segment_bytes evs ++ encoded e) ++ [newline]) as Hb.
  { rewrite segment_bytes_app. cbn. by rewrite app_nil_r, app_assoc. }
  unfold validate_complete_segment_bytes. rewrite (proj2 (Z.ltb_ge _ _)) by done.
  rewrite Hb, (last_snoc newline). rewrite bool_decide_true by done. rewrite length_app. cbn [length].
  rewrite take_app_le, firstn_all2 by lia. destruct (is_emptyb _) eqn:E; [apply is_emptyb_true, app_eq_nil in E as [_ E]; done|]. cbn [orb negb].
  rewrite split_segment_bytes, validate_stored by (done || by left). rewrite last_snoc. cbn [mbind option_bind fst snd].
  destruct (evs ++ [e]) as [|f rest] eqn:Hf; [by destruct evs|]. by exists f, e.
Qed.

(** ** The passes of retention *)
Lemma read_owned_looked limit m s : sorted_nodes (ds_nodes s) -> m ∈ ds_nodes s -> 0 < zlen (nd_contents m) <= MAX_SEGMENT_BYTES ->
  looked (read_owned_segment (handle limit m)) s (fun bytes => bytes = nd_contents m).
Proof.
  intros Hs Hm Hz. unfold read_owned_segment. cbn [de_len df_snapshot handle entry_of].
  rewrite (proj2 (Z.eqb_neq _ 0)), (proj2 (Z.ltb_ge _ _)) by lia. cbn [orb]. fold (handle limit m).
  eapply looked_bind; [apply looked_map_err, (read_range_looked limit m); try done; lia|]. cbn beta. intros ? s1 -> H1.
  assert (take (Z.to_nat (zlen (nd_contents m))) (drop (Z.to_nat 0) (nd_contents m)) = nd_contents m) as ->.
  { change (drop (Z.to_nat 0) (nd_contents m)) with (nd_contents m). unfold zlen. rewrite Nat2Z.id. apply firstn_all. }
  rewrite Z.eqb_refl. by apply looked_ret.
Qed.

(** A closed segment of a directory. *)
Lemma closed_valid limit nodes closed open m evs : segments limit nodes closed open -> limit <= MAX_SEGMENT_BYTES -> (m, evs) ∈ closed ->
  m ∈ nodes /\ 0 < zlen (nd_contents m) <= MAX_SEGMENT_BYTES /\
  exists f l, list.head evs = Some f /\ list.last evs = Some l /\
    validate_complete_segment_bytes (nd_contents m) = Some (sequence f, sequence l).
Proof.
  intros [Hs Hn Hc _ Hst Hinc Hz] Hlim Hm. assert (m ∈ seg_nodes nodes) as Hin.
  { rewrite Hn. apply elem_of_app. left. by apply (list_elem_of_fmap_2' fst _ (m, evs)). }
  apply (proj1 (list.Forall_forall _ _) Hc) in Hm as Hb. destruct Hb as [Hb Hne]. cbn in Hb, Hne.
  apply (proj1 (list.Forall_forall _ _) Hz) in Hin as Hsize. cbn in Hsize. apply list_elem_of_split in Hm as (before & after & ->).
  unfold events_in in Hst, Hinc. rewrite fmap_app, concat_app in Hst, Hinc. cbn [fmap list_fmap snd concat] in Hst, Hinc.
  rewrite !list.Forall_app in Hst. destruct Hst as [(_ & Hevs & _) _].
  apply increasing_app in Hinc as ((_ & (Hievs & _)%increasing_app & _)%increasing_app & _).
  split; [unfold seg_nodes in Hin; apply list_elem_of_In, filter_In in Hin as [? _]; by apply list_elem_of_In|].
  rewrite Hb in Hsize |- *. split; [|by apply validate_segment; [..|etrans]].
  split; [|lia]. destruct evs as [|e evs]; [done|]. unfold segment_bytes. cbn [flat_map]. rewrite !zlen_app. change (zlen [newline]) with 1.
  pose proof (zlen_nonneg (encoded e)). pose proof (zlen_nonneg (flat_map (fun e => encoded e ++ [newline]) evs)). lia.
Qed.

Lemma candidate_looked limit s closed open m evs : segments limit (ds_nodes s) closed open -> limit <= MAX_SEGMENT_BYTES ->
  (m, evs) ∈ closed -> looked (revalidate_candidate_for_removal (entry_of m)) s (fun _ => True).
Proof.
  intros Hsg Hlim Hm. destruct (closed_valid _ _ _ _ _ _ Hsg Hlim Hm) as (Hin & Hz & f & l & _ & _ & Hv).
  pose proof (sg_sorted _ _ _ _ Hsg) as Hs. unfold revalidate_candidate_for_removal.
  eapply looked_bind; [apply looked_map_err, (open_entry_looked MAX_SEGMENT_BYTES m); done || lia|]. intros ? s1 -> H1.
  eapply looked_bind; [apply (read_owned_looked MAX_SEGMENT_BYTES m); rewrite ?H1; done|]. intros ? s2 -> H2. rewrite Hv. cbn [ok_or].
  eapply looked_bind; [by apply (looked_ret (sequence f, sequence l) s2 (fun _ => True))|]. intros ? s3 _ H3. by apply looked_ret.
Qed.

(** Removing a closed segment: it is gone, or the system failed and it may be gone. *)
Lemma removal_run {X} limit s closed open m evs report (f : RetentionReport -> X) :
  segments limit (ds_nodes s) closed open -> limit <= MAX_SEGMENT_BYTES -> (m, evs) ∈ closed ->
  match (do! revalidate_candidate_for_removal (entry_of m);
         let! report := remove_candidate (entry_of m) report in st_ret (f report)) s with
  | (s', Ok x) => ds_nodes s' = delete_node (nd_name m) (ds_nodes s) /\ (ds_outcomes s = [] -> ds_outcomes s' = []) /\ exists r, x = f r
  | (s', Err _) => ds_outcomes s <> [] /\ (ds_nodes s' = ds_nodes s \/ ds_nodes s' = delete_node (nd_name m) (ds_nodes s))
  end.
Proof.
  intros Hsg Hlim Hm. destruct (closed_valid _ _ _ _ _ _ Hsg Hlim Hm) as (Hin & Hz & _). pose proof (sg_sorted _ _ _ _ Hsg) as Hs.
  pose proof (candidate_looked _ _ _ _ _ _ Hsg Hlim Hm) as (Hn1 & Ho1 & Hr1). unfold st_bind at 1.
  destruct (revalidate_candidate_for_removal (entry_of m) s) as [s1 [[]|e]]; cbn in Hn1, Ho1, Hr1; [|by split; [|left]].
  unfold st_bind at 1, remove_candidate, st_bind at 1, st_map_err, remove, st_bind at 1.
  destruct (open_entry_looked u64_max m s1) as (Hn2 & Ho2 & Hr2); [by rewrite Hn1..|unfold u64_max, MAX_SEGMENT_BYTES in *; lia|].
  destruct (open_entry _ _ s1) as [s2 [file|e]]; cbn in Hn2, Ho2, Hr2; [subst file|cbn; split; [auto|left; congruence]].
  unfold st_bind at 1. destruct (revalidate_looked u64_max m s2) as (Hn3 & Ho3 & Hr3); [by rewrite Hn2, Hn1..|].
  destruct (revalidate _ s2) as [s3 [k|e]]; cbn in Hn3, Ho3, Hr3; [subst k|cbn; split; [auto|left; congruence]].
  unfold st_bind at 1, st_get, st_bind at 1. destruct (next_outcome_popped s3) as (o & -> & Herr).
  assert (ds_nodes s3 = ds_nodes s) as Hn by congruence. unfold st_bind, set_nodes, st_mod, st_ret, st_err.
  destruct (oc_error o) as [e|]; [destruct (oc_reached o =? 0)%nat|]; cbn; rewrite ?Hn.
  - split; [|by left]. intros H. apply Herr; [done|]. auto.
  - split; [|by right]. intros H. apply Herr; [done|]. auto.
  - split; [done|]. split; [|eauto]. intros H. by rewrite Ho3 by auto.
Qed.

(** The closed segments that are left, and nothing else changed. *)
Definition kept_of (limit : Z) (closed : list (DiagnosticNode * list PreparedDiagnosticEvent)) (open : open_part)
    (s : DiagnosticStore) (kept : list (DiagnosticNode * list PreparedDiagnosticEvent)) : Prop :=
  segments limit (ds_nodes s) kept open /\ kept `sublist_of` closed.

(** A pass over the segments: a visit keeps a closed segment or removes it. *)
Section Pass.
Context {X : Type} (limit : Z) (closed : list (DiagnosticNode * list PreparedDiagnosticEvent)).
Context (n : DiagnosticNode) (evs : list PreparedDiagnosticEvent) (tail : list Z) (top : Z).
Context (visit : X -> DiagnosticEntry -> Z -> retention_op X).
Context (J : list (DiagnosticNode * list PreparedDiagnosticEvent) -> list (DiagnosticNode * list PreparedDiagnosticEvent) -> X -> Prop).
Hypothesis limit_small : limit <= MAX_SEGMENT_BYTES.
Hypothesis top_index : node_index n = Some top.
Hypothesis visit_top : forall s x, visit x (entry_of n) top s = (s, Ok x).
Hypothesis visit_closed : forall seen m rest x j, J seen (m :: rest) x -> (seen ++ m :: rest) `sublist_of` closed -> j <> top ->
  (exists x', J (seen ++ [m]) rest x' /\ forall s, visit x (entry_of m.1) j s = (s, Ok x')) \/
  (exists report f, (forall r, J seen rest (f r)) /\ forall s, visit x (entry_of m.1) j s =
     (do! revalidate_candidate_for_removal (entry_of m.1);
      let! report := remove_candidate (entry_of m.1) report in st_ret (f report)) s).

Definition pass_state (outs : list StoreOutcome) (c : option (list Z)) (s : DiagnosticStore) (x : X) : Prop :=
  (outs = [] -> ds_outcomes s = []) /\
  exists seen rest o, kept_of limit closed (Some (n, evs, tail)) s (seen ++ rest) /\ J seen rest x /\
    seg_nodes (visible c (ds_nodes s)) = rest.*1 ++ o /\ (o = [n] \/ o = [] /\ rest = []).

Lemma pass_visit outs c s x k after : visible c (ds_nodes s) = k :: after -> pass_state outs c s x ->
  match (match entry_index (entry_of k) with None => st_ret x | Some index => visit x (entry_of k) index end) s with
  | (s', Ok x') => visible (Some (nd_name k)) (ds_nodes s') = after /\ pass_state outs (Some (nd_name k)) s' x'
  | (s', Err _) => outs <> [] /\ exists kept, kept_of limit closed (Some (n, evs, tail)) s' kept
  end.
Proof using limit_small top_index visit_closed visit_top.
  intros Hv (Ho & seen & rest & o & [Hsg Hsub] & Hacc & Hsegs & Hend). pose proof (sg_sorted _ _ _ _ Hsg) as Hs.
  pose proof (visible_step _ _ _ _ Hs Hv) as Hnext. rewrite Hv in Hsegs. unfold seg_nodes in Hsegs. cbn [List.filter] in Hsegs.
  fold (node_index k). destruct (node_index k) as [j|] eqn:Hj; unfold is_segment at 1 in Hsegs; rewrite Hj in Hsegs; cbn [is_someb] in Hsegs; cycle 1.
  { cbn. rewrite Hnext. split; [done|]. split; [done|]. exists seen, rest, o. by rewrite Hnext. }
  fold (seg_nodes after) in Hsegs. destruct rest as [|m rest]; cycle 1.
  - injection Hsegs as -> Hsegs. assert (m ∈ seen ++ m :: rest) as Hm by set_solver.
    assert (j <> top) as Hne.
    { intros ->. pose proof (sorted_filter is_segment _ Hs) as Hss. fold (seg_nodes (ds_nodes s)) in Hss.
      rewrite (sg_nodes _ _ _ _ Hsg) in Hss. cbn in Hss. apply sorted_app in Hss as (_ & _ & Hlt).
      apply (name_lt_ne m.1 n); [apply Hlt; [by apply list_elem_of_fmap_2|set_solver]|].
      by eapply name_of_index; apply node_index_name. }
    destruct (visit_closed seen m rest x j Hacc Hsub Hne) as [(x' & Hacc' & Hvis)|(report & f & Hacc' & Hvis)]; rewrite Hvis.
    + rewrite Hnext. split; [done|]. split; [done|]. exists (seen ++ [m]), rest, o. rewrite Hnext. unfold kept_of. rewrite <- app_assoc. cbn.
      split_and!; try done. destruct Hend as [->|[_ ?]]; [by left|done].
    + destruct m as [m mevs]. pose proof (removal_run limit s (seen ++ (m, mevs) :: rest) _ m mevs report f Hsg limit_small Hm) as Hrem.
      pose proof (segments_delete _ _ _ _ _ _ _ Hsg) as Hsg'. cbn [fst] in *.
      assert (seen ++ rest `sublist_of` closed) as Hsub'.
      { etrans; [|done]. apply sublist_app; [done|]. by apply sublist_cons. }
      destruct (st_bind _ _ s) as [s' [x'|e]].
      * destruct Hrem as (Hdel & Ho' & r & ->). rewrite Hdel, visible_delete, Hnext. split; [done|]. split; [auto|].
        exists seen, rest, o. unfold kept_of. rewrite Hdel, visible_delete, Hnext. split_and!; try done.
        destruct Hend as [->|[_ ?]]; [by left|done].
      * destruct Hrem as (Hf & [Hd|Hd]); (split; [intros H; by apply Hf, Ho|]); [exists (seen ++ (m, mevs) :: rest)|exists (seen ++ rest)];
          unfold kept_of; by rewrite Hd.
  - destruct Hend as [->|[-> _]]; [|done]. injection Hsegs as -> Hsegs. assert (j = top) as -> by congruence. rewrite visit_top.
    rewrite Hnext. split; [done|]. split; [done|]. exists seen, [], []. rewrite Hnext. split_and!; try done. by right.
Qed.

Lemma pass_run s x : segments limit (ds_nodes s) closed (Some (n, evs, tail)) -> J [] closed x ->
  match scan_canonical_metadata visit x s with
  | (s', Ok (x', _)) => (ds_outcomes s = [] -> ds_outcomes s' = []) /\
      exists kept, kept_of limit closed (Some (n, evs, tail)) s' kept /\ J kept [] x'
  | (s', Err _) => ds_outcomes s <> [] /\ exists kept, kept_of limit closed (Some (n, evs, tail)) s' kept
  end.
Proof using limit_small top_index visit_closed visit_top.
  intros Hsg Hacc. unfold scan_canonical_metadata.
  pose proof (over_pages_run RETENTION_PAGE_ENTRIES map_retention_error UnsafeBoundary
    (fun x entry => match entry_index entry with None => st_ret x | Some index => visit x entry index end)
    (pass_state (ds_outcomes s)) (fun s' => ds_outcomes s <> [] /\ exists kept, kept_of limit closed (Some (n, evs, tail)) s' kept)) as Hrun.
  specialize (Hrun ltac:(unfold RETENTION_PAGE_ENTRIES; lia)).
  match type of Hrun with ?A -> ?B -> ?C -> _ => assert A as H1; [|assert B as H2; [|assert C as H3]] end.
  { intros c s' x' (Ho & seen & rest & o & Hk & Hacc' & Hsegs & Hend). split; [intros H; cbn; by rewrite (Ho H)|]. by exists seen, rest, o. }
  { intros c s' x' (Ho & seen & rest & o & Hk & _) Hne. split; [intros H; by apply Hne, Ho|]. by exists (seen ++ rest). }
  { intros c s' x' k after Hv HI. by eapply pass_visit. }
  specialize (Hrun H1 H2 H3 s x). match type of Hrun with ?A -> _ => assert A as H4 end.
  { split; [done|]. exists [], closed, [n]. split_and!; try done; [|by left]. by rewrite segs_visible, (sg_nodes _ _ _ _ Hsg). }
  specialize (Hrun H4). destruct (over_pages _ _ _ _ _ s) as [s' [[x' p]|e]]; [|done].
  destruct Hrun as (c & Hv & Ho & seen & rest & o & Hk & Hacc' & Hsegs & Hend). split; [done|]. rewrite Hv in Hsegs. cbn in Hsegs.
  assert (rest = []) as -> by (destruct rest; done). rewrite app_nil_r in Hk. eauto.
Qed.
End Pass.

(** ** What retention keeps *)
Definition total (l : list (DiagnosticNode * list PreparedDiagnosticEvent)) : Z :=
  foldr (fun p t => zlen (nd_contents p.1) + t) 0 l.

Lemma total_app a b : total (a ++ b) = total a + total b.
Proof. unfold total. induction a as [|p a IH]; [done|]. cbn. rewrite IH. lia. Qed.

Lemma total_at_least a : 0 <= total a.
Proof. unfold total. induction a as [|p a IH]; [done|]. cbn. pose proof (zlen_nonneg (nd_contents p.1)). lia. Qed.

Lemma total_sublist a b : a `sublist_of` b -> total a <= total b.
Proof.
  induction 1 as [|p a b _ IH|p a b _ IH]; [done|..]; unfold total in *; cbn; [lia|].
  pose proof (zlen_nonneg (nd_contents p.1)). lia.
Qed.

Lemma forall_sublist {A} (P : A -> Prop) a b : a `sublist_of` b -> Forall P b -> Forall P a.
Proof. induction 1; rewrite ?list.Forall_cons; naive_solver. Qed.

(** A segment retention does not let go for its age. *)
Definition young (policy : RetentionPolicy) (now : Z) (leases : list Z) (p : DiagnosticNode * list PreparedDiagnosticEvent) : Prop :=
  expired_by_age (nd_modified p.1) now (rp_max_age policy) = true -> is_leased (nd_identity p.1) leases = true.

Definition leased (leases : list Z) (p : DiagnosticNode * list PreparedDiagnosticEvent) : Prop := is_leased (nd_identity p.1) leases = true.

Section Enforce.
Context (limit : Z) (closed : list (DiagnosticNode * list PreparedDiagnosticEvent)).
Context (n : DiagnosticNode) (evs : list PreparedDiagnosticEvent) (tail : list Z) (top : Z).
Context (policy : RetentionPolicy) (now : Z) (leases : list Z).
Hypothesis limit_small : limit <= MAX_SEGMENT_BYTES.
Hypothesis top_index : node_index n = Some top.

Lemma age_run s report : segments limit (ds_nodes s) closed (Some (n, evs, tail)) ->
  match scan_canonical_metadata (age_candidate policy now top leases) (0, report) s with
  | (s', Ok (x, _)) => (ds_outcomes s = [] -> ds_outcomes s' = []) /\
      exists kept, kept_of limit closed (Some (n, evs, tail)) s' kept /\
        (total closed <= u64_max -> fst x = total kept) /\ Forall (young policy now leases) kept
  | (s', Err _) => ds_outcomes s <> [] /\ exists kept, kept_of limit closed (Some (n, evs, tail)) s' kept
  end.
Proof using limit_small top_index.
  intros Hsg. apply (pass_run limit closed n evs tail top _ (fun seen rest x =>
    (total closed <= u64_max -> fst x = total seen) /\ Forall (young policy now leases) seen)); try done.
  - intros s' [retained report']. unfold age_candidate. by rewrite Z.eqb_refl.
  - intros seen m rest [retained report'] j [Ht Hy] Hsub Hj. unfold age_candidate. rewrite (proj2 (Z.eqb_neq _ _)) by done.
    cbn [de_modified de_identity de_len entry_of].
    destruct (expired_by_age _ now _ && negb (is_leased (nd_identity m.1) leases)) eqn:E.
    + right. exists report', (fun r => (retained, r)). split; [done|]. done.
    + left. eexists. split; [|done]. cbn [fst] in *. split.
      * intros Hall. rewrite (Ht Hall), total_app. unfold sat_add64. rewrite Z.min_l; [unfold total at 3; cbn; lia|].
        pose proof (total_sublist _ _ Hsub) as Hle. rewrite total_app in Hle. pose proof (total_at_least rest). unfold total at 2 in Hle. cbn in Hle.
        fold (total rest) in Hle. lia.
      * apply list.Forall_app. split; [done|]. constructor; [|constructor]. intros He. rewrite He in E. cbn in E. by apply negb_false_iff in E.
Qed.

Lemma size_run aged s retained report : segments limit (ds_nodes s) aged (Some (n, evs, tail)) ->
  match scan_canonical_metadata (size_candidate policy top leases) (retained, report) s with
  | (s', Ok (x, _)) => (ds_outcomes s = [] -> ds_outcomes s' = []) /\
      exists kept, kept_of limit aged (Some (n, evs, tail)) s' kept /\
        (retained = total aged -> total kept <= rp_max_bytes policy \/ Forall (leased leases) kept)
  | (s', Err _) => ds_outcomes s <> [] /\ exists kept, kept_of limit aged (Some (n, evs, tail)) s' kept
  end.
Proof using limit_small top_index.
  intros Hsg. pose proof (pass_run limit aged n evs tail top (size_candidate policy top leases) (fun seen rest x =>
    retained = total aged -> fst x = total (seen ++ rest) /\ (fst x <= rp_max_bytes policy \/ Forall (leased leases) seen))) as Hrun.
  assert (forall s x, size_candidate policy top leases x (entry_of n) top s = (s, Ok x)) as H1.
  { intros s' [r report']. unfold size_candidate. rewrite Z.eqb_refl. by destruct (_ <=? _). }
  specialize (Hrun limit_small top_index H1). match type of Hrun with ?A -> _ => assert A as H2 end.
  { intros seen m rest [r report'] j HI Hsub Hj. unfold size_candidate. cbn [fst de_identity de_len entry_of] in *.
    destruct (Z.leb_spec r (rp_max_bytes policy)) as [Hle|Hgt].
    { left. eexists. split; [|done]. cbn. rewrite <- app_assoc. cbn. intros H. destruct (HI H). auto. }
    rewrite (proj2 (Z.eqb_neq _ _)) by done. cbn [orb]. destruct (is_leased (nd_identity m.1) leases) eqn:E.
    - left. eexists. split; [|done]. cbn. rewrite <- app_assoc. cbn. intros H. destruct (HI H) as [Hr [?|Hl]]; [lia|]. split; [done|right].
      apply list.Forall_app. split; [done|by constructor].
    - right. eexists report', (fun r' => (sat_sub r (zlen (nd_contents m.1)), r')). split; [|done]. intros r' Htot. cbn. destruct (HI Htot) as [Hr [?|Hl]]; [lia|].
      split; [|by right]. rewrite Hr, !total_app. unfold total at 2. cbn. fold (total rest). pose proof (total_at_least seen). pose proof (total_at_least rest).
      unfold sat_sub. lia. }
  specialize (Hrun H2 s (retained, report) Hsg). match type of Hrun with ?A -> _ => assert A as H3 end.
  { intros ->. cbn. split; [done|]. right. constructor. }
  specialize (Hrun H3). destruct (scan_canonical_metadata _ _ s) as [s' [[x p]|e]]; [|done].
  destruct Hrun as (Ho & kept & Hk & HJ'). split; [done|]. exists kept. split; [done|]. intros H. destruct (HJ' H) as [Hx [Hle|Hl]]; [left|by right].
  rewrite app_nil_r in Hx. lia.
Qed.

(** The validation before the passes: it changes nothing, and finds the last segment. *)
Definition owned_state (outs : list StoreOutcome) (nodes : list DiagnosticNode) (c : option (list Z)) (s : DiagnosticStore) (x : Z * Z) : Prop :=
  ds_nodes s = nodes /\ (outs = [] -> ds_outcomes s = []) /\
  exists seen rest o, closed = seen ++ rest /\ seg_nodes (visible c nodes) = rest.*1 ++ o /\
    Forall (fun e => fst x < sequence e) (concat rest.*2) /\ (o = [n] /\ snd x <= top \/ o = [] /\ rest = [] /\ snd x = top).

Lemma closed_below nodes m mevs j : segments limit nodes closed (Some (n, evs, tail)) -> (m, mevs) ∈ closed -> node_index m = Some j -> j < top.
Proof using limit_small top_index.
  intros Hsg Hm Hj. pose proof (sorted_filter is_segment _ (sg_sorted _ _ _ _ Hsg)) as Hss. fold (seg_nodes nodes) in Hss.
  rewrite (sg_nodes _ _ _ _ Hsg) in Hss. cbn in Hss. apply sorted_app in Hss as (_ & _ & Hlt).
  eapply index_lt_name; [by apply node_index_name..|]. apply Hlt; [by apply (list_elem_of_fmap_2' fst _ (m, mevs))|set_solver].
Qed.

Lemma owned_closed nodes active x s m mevs j : segments limit nodes closed (Some (n, evs, tail)) -> ds_nodes s = nodes ->
  (m, mevs) ∈ closed -> node_index m = Some j -> Forall (fun e => fst x < sequence e) mevs ->
  looked (owned_entry active x (entry_of m)) s (fun x' => snd x' = Z.max (snd x) j /\
    (fst x' = fst x \/ fst x' = default 0 (sequence <$> list.last mevs))).
Proof using limit_small top_index.
  intros Hsg Hn Hm Hj Hx. destruct (closed_valid _ _ _ _ _ _ Hsg limit_small Hm) as (Hin & Hz & f & l & Hf & Hl & Hv).
  pose proof (sg_sorted _ _ _ _ Hsg) as Hs. unfold owned_entry. fold (node_index m). rewrite Hj. destruct x as [last_sequence highest].
  case_bool_decide; [apply looked_ret; split; [done|by left]|].
  eapply looked_bind; [apply looked_map_err, (open_entry_looked MAX_SEGMENT_BYTES m); rewrite ?Hn; done || lia|]. intros ? s1 -> H1.
  eapply looked_bind; [apply (read_owned_looked MAX_SEGMENT_BYTES m); rewrite ?H1, ?Hn; done|]. intros ? s2 -> H2. rewrite Hv. cbn [ok_or].
  eapply looked_bind; [by apply (looked_ret (sequence f, sequence l) s2 (fun r => r = (sequence f, sequence l)))|]. intros ? s3 -> H3. cbn [fst snd].
  rewrite (proj2 (Z.leb_gt _ _)); [apply looked_ret; rewrite Hl; split; [done|by right]|].
  destruct mevs as [|f' mevs]; [done|]. injection Hf as ->. by apply list.Forall_cons in Hx as [Hx _].
Qed.

(** The last segment, when it is not the active one, may be refused; nothing changes. *)
Lemma owned_last active x s : segments limit (ds_nodes s) closed (Some (n, evs, tail)) ->
  match owned_entry active x (entry_of n) s with
  | (s', Ok x') => ds_nodes s' = ds_nodes s /\ (ds_outcomes s = [] -> ds_outcomes s' = []) /\ snd x' = Z.max (snd x) top
  | (s', Err _) => ds_nodes s' = ds_nodes s /\ (active = Some top -> ds_outcomes s <> [])
  end.
Proof using limit_small top_index.
  intros Hsg. destruct (last_segment _ _ _ _ _ _ Hsg) as (_ & Hin & _ & Hz & _). pose proof (sg_sorted _ _ _ _ Hsg) as Hs.
  unfold owned_entry. fold (node_index n). rewrite top_index. destruct x as [last_sequence highest]. case_bool_decide as Hact; [done|].
  unfold st_bind at 1. destruct (looked_map_err map_retention_error _ _ _ (open_entry_looked MAX_SEGMENT_BYTES n s Hs Hin ltac:(lia))) as (Hn1 & Ho1 & Hr1).
  destruct (st_map_err _ _ s) as [s1 [file|e]]; cbn in Hn1, Ho1, Hr1; [subst file|done].
  assert (forall bytes s2, ds_nodes s2 = ds_nodes s -> (ds_outcomes s = [] -> ds_outcomes s2 = []) ->
    match (let! range := st_lift (ok_or (validate_complete_segment_bytes bytes) UnsafeBoundary) in
           if fst range <=? last_sequence then st_err UnsafeBoundary else st_ret (snd range, Z.max highest top)) s2 with
    | (s', Ok x') => ds_nodes s' = ds_nodes s /\ (ds_outcomes s = [] -> ds_outcomes s' = []) /\ snd x' = Z.max (snd (last_sequence, highest)) top
    | (s', Err _) => ds_nodes s' = ds_nodes s /\ (active = Some top -> ds_outcomes s <> [])
    end) as Hcheck.
  { intros bytes s2 Hn2 Ho2. unfold st_bind, st_lift. destruct (validate_complete_segment_bytes bytes) as [range|]; cbn; [|done].
    by destruct (fst range <=? last_sequence). }
  unfold st_bind at 1. destruct (decide (0 < zlen (nd_contents n))) as [Hpos|Hempty].
  - destruct (read_owned_looked MAX_SEGMENT_BYTES n s1) as (Hn2 & Ho2 & Hr2); [by rewrite Hn1..|lia|].
    destruct (read_owned_segment _ s1) as [s2 [bytes|e]]; cbn in Hn2, Ho2, Hr2; [apply Hcheck; [congruence|auto]|]. split; [congruence|done].
  - unfold read_owned_segment. cbn [de_len df_snapshot handle entry_of]. pose proof (zlen_nonneg (nd_contents n)).
    rewrite (proj2 (Z.eqb_eq _ 0)) by lia. cbn. done.
Qed.

Lemma owned_visit active outs nodes c s' x k after : segments limit nodes closed (Some (n, evs, tail)) ->
  visible c (ds_nodes s') = k :: after -> owned_state outs nodes c s' x ->
  match owned_entry active x (entry_of k) s' with
  | (s'', Ok x') => visible (Some (nd_name k)) (ds_nodes s'') = after /\ owned_state outs nodes (Some (nd_name k)) s'' x'
  | (s'', Err _) => ds_nodes s'' = nodes /\ (active = Some top -> outs <> [])
  end.
Proof using limit_small top_index.
  intros Hsg Hv (Hn & Ho & seen & rest & o & Hcl & Hsegs & Hx & Hend). rewrite Hn in Hv.
  pose proof (visible_step _ _ _ _ (sg_sorted _ _ _ _ Hsg) Hv) as Hnext. rewrite Hv in Hsegs. unfold seg_nodes in Hsegs. cbn [List.filter] in Hsegs.
  unfold is_segment at 1 in Hsegs. destruct (node_index k) as [j|] eqn:Hj; cbn [is_someb] in Hsegs; cycle 1.
  { unfold owned_entry. fold (node_index k). rewrite Hj. cbn. rewrite Hn, Hnext. split; [done|]. split; [done|]. split; [done|].
    exists seen, rest, o. by rewrite Hnext. }
  fold (seg_nodes after) in Hsegs. destruct rest as [|[m mevs] rest].
  - destruct Hend as [[-> Hle]|[-> _]]; [|done]. injection Hsegs as -> Hsegs. pose proof (owned_last active x s') as Hlast.
    rewrite Hn in Hlast. specialize (Hlast Hsg). destruct (owned_entry _ _ _ s') as [s'' [x'|e]]; cycle 1.
    { destruct Hlast as [Hn' Ho']. split; [done|]. intros Ha H. by apply (Ho' Ha), Ho. }
    destruct Hlast as (Hn' & Ho' & Hmax). rewrite Hn', Hnext. split; [done|]. split; [done|]. split; [auto|]. exists seen, [], [].
    rewrite Hnext. split_and!; try done. right. split_and!; [done|done|lia].
  - injection Hsegs as -> Hsegs. cbn [fst snd fmap list_fmap concat] in *. apply list.Forall_app in Hx as [Hxm Hxr].
    assert ((m, mevs) ∈ closed) as Hm by (rewrite Hcl; set_solver).
    destruct (owned_closed _ active x s' m mevs j Hsg Hn Hm Hj Hxm) as (Hn' & Ho' & Hr). pose proof (closed_below _ _ _ _ Hsg Hm Hj) as Hbelow.
    destruct (owned_entry _ _ _ s') as [s'' [x'|e]]; cbn in Hn', Ho', Hr; cycle 1.
    { split; [congruence|]. intros _ H. by apply Hr, Ho. }
    destruct Hr as [Hmax Hfst]. rewrite Hn', Hn, Hnext. split; [done|]. split; [congruence|]. split; [auto|]. exists (seen ++ [(m, mevs)]), rest, o.
    rewrite Hnext, <- app_assoc. cbn. split_and!; [done|done| |].
    + destruct Hfst as [-> | ->]; [done|]. pose proof (sg_increasing _ _ _ _ Hsg) as Hinc. unfold events_in in Hinc.
      rewrite Hcl, fmap_app, concat_app in Hinc. cbn [fmap list_fmap snd concat] in Hinc.
      apply increasing_app in Hinc as ((_ & (_ & _ & Hlt)%increasing_app & _)%increasing_app & _).
      destruct (list.last mevs) as [l|] eqn:Hl.
      * apply list.Forall_forall. intros e He. cbn. apply Hlt; [apply last_Some in Hl as [? ->]; set_solver|done].
      * apply last_None in Hl. subst. pose proof (sg_closed _ _ _ _ Hsg) as Hc. by apply (proj1 (list.Forall_forall _ _) Hc) in Hm as [_ ?].
    + destruct Hend as [[-> Hle]|(_ & ? & _)]; [left; split; [done|lia]|done].
Qed.

Lemma owned_run active s : segments limit (ds_nodes s) closed (Some (n, evs, tail)) ->
  match scan_owned active s with
  | (s', Ok r) => ds_nodes s' = ds_nodes s /\ (ds_outcomes s = [] -> ds_outcomes s' = []) /\ snd r = top
  | (s', Err _) => ds_nodes s' = ds_nodes s /\ (active = Some top -> ds_outcomes s <> [])
  end.
Proof using limit_small top_index.
  intros Hsg. pose proof (sg_sorted _ _ _ _ Hsg) as Hs. unfold scan_owned, st_bind.
  pose proof (over_pages_run RETENTION_PAGE_ENTRIES map_retention_error UnsafeBoundary (owned_entry active)
    (owned_state (ds_outcomes s) (ds_nodes s)) (fun s' => ds_nodes s' = ds_nodes s /\ (active = Some top -> ds_outcomes s <> []))) as Hrun.
  specialize (Hrun ltac:(unfold RETENTION_PAGE_ENTRIES; lia)).
  match type of Hrun with ?A -> ?B -> ?C -> _ => assert A as H1; [|assert B as H2; [|assert C as H3]] end.
  { intros c s' x (Hn & Ho & Hx). split; [done|]. split; [intros H; cbn; by rewrite (Ho H)|done]. }
  { intros c s' x (Hn & Ho & _) Hne. split; [done|]. intros _ H. by apply Hne, Ho. }
  { intros c s' x k after Hv HI. by eapply owned_visit. }
  specialize (Hrun H1 H2 H3 s (0, 0)). match type of Hrun with ?A -> _ => assert A as H4 end.
  { split; [done|]. split; [done|]. exists [], closed, [n]. rewrite segs_visible, (sg_nodes _ _ _ _ Hsg). split_and!; try done.
    - pose proof (sg_stored _ _ _ _ Hsg) as Hst. unfold events_in in Hst. apply list.Forall_app in Hst as [Hst _].
      eapply list.Forall_impl; [exact Hst|]. cbn. intros e He. by apply stored_sequence in He as [? _].
    - left. split; [done|]. apply last_segment in Hsg as (_ & _ & _ & _ & i & Hi & Hpos). cbn. rewrite top_index in Hi. injection Hi as <-. lia. }
  specialize (Hrun H4). destruct (over_pages _ _ _ _ _ s) as [s' [[x p]|e]]; [|done].
  destruct Hrun as (c & Hv & Hn & Ho & seen & rest & o & _ & Hsegs & _ & Hend). rewrite Hn in Hv. rewrite Hv in Hsegs. cbn in Hsegs.
  cbn. split_and!; [done|done|]. destruct Hend as [[-> _]|(_ & _ & ?)]; [|done]. by destruct rest.
Qed.

Lemma enforce_open_run active s : segments limit (ds_nodes s) closed (Some (n, evs, tail)) ->
  match enforce_open policy now leases active s with
  | (s', Ok _) => exists kept, kept_of limit closed (Some (n, evs, tail)) s' kept /\
      (total closed <= u64_max -> Forall (young policy now leases) kept /\
         (total kept <= rp_max_bytes policy \/ Forall (leased leases) kept))
  | (s', Err _) => (active = Some top -> ds_outcomes s <> []) /\ exists kept, kept_of limit closed (Some (n, evs, tail)) s' kept
  end.
Proof using limit_small top_index.
  intros Hsg. unfold enforce_open, st_bind at 1. pose proof (owned_run active s Hsg) as Hown.
  assert (forall s', ds_nodes s' = ds_nodes s -> kept_of limit closed (Some (n, evs, tail)) s' closed) as Hsame.
  { intros s' Hn. unfold kept_of. by rewrite Hn. }
  destruct (scan_owned active s) as [s1 [[pages found]|e]]; [|destruct Hown as [Hn Ho]; split; [done|eauto]].
  destruct Hown as (Hn1 & Ho1 & Hfound). cbn in Hfound. subst found.
  destruct (is_some_and _ active) eqn:Hact.
  { split; [|eauto]. intros ->. cbn in Hact. by rewrite Z.eqb_refl in Hact. }
  assert (default top active = top) as -> by (destruct active as [a|]; [cbn in *; lia|done]).
  unfold st_bind at 1. pose proof (age_run s1 (add_pages RetentionReport_default pages)) as Hage. rewrite Hn1 in Hage. specialize (Hage Hsg).
  destruct (scan_canonical_metadata (age_candidate policy now top leases) _ s1) as [s2 [[[retained report] p]|e]]; cycle 1.
  { destruct Hage as [Ho Hk]. split; [|done]. intros _ H. by apply Ho, Ho1. }
  destruct Hage as (Ho2 & kept & [Hsg2 Hsub2] & Htot & Hyoung). cbn [fst] in Htot.
  destruct (Z.ltb_spec (rp_max_bytes policy) retained) as [Hbig|Hfits]; cycle 1.
  { cbn. exists kept. split; [done|]. intros Hall. split; [done|left]. rewrite <- (Htot Hall). lia. }
  clear Hsame. unfold st_bind at 1. pose proof (size_run kept s2 retained (add_pages report p) Hsg2) as Hsize.
  destruct (scan_canonical_metadata (size_candidate policy top leases) _ s2) as [s3 [[[r3 report3] p3]|e]]; cycle 1.
  { destruct Hsize as (Ho & k & Hk & Hsub3). split; [intros _ H; by apply Ho, Ho2, Ho1|]. exists k. split; [done|by etrans]. }
  destruct Hsize as (_ & k & [Hk Hsub3] & Hbound). cbn. exists k. split; [split; [done|by etrans]|]. intros Hall.
  split; [by eapply forall_sublist|]. auto.
Qed.
End Enforce.

(** Without a segment there is nothing to do. *)
Lemma no_segments_pages {X} (visit : X -> DiagnosticEntry -> retention_op X) s x :
  sorted_nodes (ds_nodes s) -> seg_nodes (ds_nodes s) = [] ->
  (forall x entry s, entry_index entry = None -> visit x entry s = (s, Ok x)) ->
  match over_pages RETENTION_PAGE_ENTRIES map_retention_error UnsafeBoundary visit x s with
  | (s', Ok (x', _)) => ds_nodes s' = ds_nodes s /\ x' = x
  | (s', Err _) => ds_nodes s' = ds_nodes s
  end.
Proof.
  intros Hs Hnone Hvisit. pose proof (over_pages_run RETENTION_PAGE_ENTRIES map_retention_error UnsafeBoundary visit
    (fun _ s' x' => ds_nodes s' = ds_nodes s /\ x' = x) (fun s' => ds_nodes s' = ds_nodes s)) as Hrun.
  specialize (Hrun ltac:(unfold RETENTION_PAGE_ENTRIES; lia) ltac:(by intros) ltac:(by intros ? ? ? [])).
  match type of Hrun with ?A -> _ => assert A as H1 end.
  { intros c s' x' n rest Hv [Hn ->]. assert (n ∈ ds_nodes s) as Hin.
    { apply list_elem_of_In. eapply (proj1 (filter_In _ n (ds_nodes s))). rewrite Hn in Hv. unfold visible in Hv. rewrite Hv. by left. }
    rewrite Hvisit.
    - split; [|done]. rewrite Hn in *. by eapply visible_step.
    - fold (node_index n). destruct (node_index n) as [i|] eqn:Hi; [|done]. exfalso.
      assert (n ∈ seg_nodes (ds_nodes s)) as H; [|rewrite Hnone in H; set_solver].
      apply list_elem_of_In, filter_In. split; [by apply list_elem_of_In|]. unfold is_segment. by rewrite Hi. }
  specialize (Hrun H1 s x ltac:(done)). destruct (over_pages _ _ _ _ _ s) as [s' [[x' p]|e]]; [|done]. by destruct Hrun as (_ & _ & ? & ?).
Qed.

Lemma enforce_empty policy now leases active s : sorted_nodes (ds_nodes s) -> seg_nodes (ds_nodes s) = [] ->
  ds_nodes (fst (enforce_open policy now leases active s)) = ds_nodes s.
Proof.
  intros Hs Hnone. unfold enforce_open, scan_owned, st_bind at 1 2.
  pose proof (no_segments_pages (owned_entry active) s (0, 0) Hs Hnone) as Hown.
  specialize (Hown ltac:(intros ? ? ? E; unfold owned_entry; by rewrite E)).
  destruct (over_pages _ _ _ (owned_entry active) _ s) as [s1 [[x p]|e]]; [|done]. destruct Hown as [Hn1 ->]. cbn [st_ret fst snd].
  destruct (is_some_and _ active); [done|]. unfold st_bind at 1, scan_canonical_metadata.
  assert (forall (visit : Z * RetentionReport -> DiagnosticEntry -> Z -> retention_op (Z * RetentionReport)) x (entry : DiagnosticEntry) (s : DiagnosticStore),
    entry_index entry = None -> match entry_index entry with None => st_ret x | Some index => visit x entry index end s = (s, Ok x)) as Hskip.
  { intros visit x entry s' E. by rewrite E. }
  rewrite <- Hn1 in Hs, Hnone. pose proof (fun x => no_segments_pages _ s1 x Hs Hnone (Hskip (age_candidate policy now (default 0 active) leases))) as Hage.
  cbn [fst snd] in *. match goal with |- context [over_pages _ _ _ _ ?x s1] => specialize (Hage x) end.
  destruct (over_pages _ _ _ _ _ s1) as [s2 [[[retained report] p2]|e]]; [|cbn; congruence]. destruct Hage as [Hn2 _].
  destruct (_ <? retained); [|cbn; congruence]. unfold st_bind at 1. rewrite <- Hn2 in Hs, Hnone.
  pose proof (fun x => no_segments_pages _ s2 x Hs Hnone (Hskip (size_candidate policy (default 0 active) leases))) as Hsize.
  match goal with |- context [over_pages _ _ _ _ ?x s2] => specialize (Hsize x) end.
  destruct (over_pages _ _ _ _ _ s2) as [s3 [[[r3 report3] p3]|e]]; cbn; [destruct Hsize as [Hn3 _]|]; congruence.
Qed.

(** ** The log and its operations *)
Record LogWorld : Set := mkLogWorld { lw_disk : SegmentDisk; lw_retention : RetentionManager }.

(** What the process does with its log; a restart makes a new writer and a new
    retention manager over the directory as it is. *)
Inductive LogOp : Set :=
| LogRecover
| LogFlush (batch : DurableBatch)
| LogRestart
| LogRetain (trigger : RetentionTrigger) (now : Z) (leases : list Z) (active_segment : option Z).

Definition fresh_writer (limit : Z) : SegmentWriter := mkWriter limit false None 0 0 None 1 false.

Definition run_op (op : LogOp) (w : LogWorld) : LogWorld * bool :=
  let d := lw_disk w in
  match op with
  | LogRecover => let '(d, r) := recover d in (mkLogWorld d (lw_retention w), is_ok r)
  | LogFlush batch => let '(d, r) := flush batch d in (mkLogWorld d (lw_retention w), is_ok r)
  | LogRestart =>
      (mkLogWorld (mkDisk (sd_store d) (fresh_writer (sw_segment_limit (sd_writer d))))
         (RetentionManager_with_policy (rm_policy (lw_retention w))), true)
  | LogRetain trigger now leases active_segment =>
      let '(s, m, r) := enforce_with_active trigger now leases active_segment (lw_retention w) (sd_store d) in
      (mkLogWorld (mkDisk s (sd_writer d)) m, is_ok r)
  end.

Definition op_ok (op : LogOp) : Prop := match op with LogFlush batch => batch_ok batch | _ => True end.

Definition world_nodes (w : LogWorld) : list DiagnosticNode := ds_nodes (sd_store (lw_disk w)).
Definition world_outcomes (w : LogWorld) : list StoreOutcome := ds_outcomes (sd_store (lw_disk w)).
Definition world_log (w : LogWorld) : list (list Z) := disk_log (world_nodes w).

Definition with_outcomes (outs : list StoreOutcome) (w : LogWorld) : LogWorld :=
  mkLogWorld (mkDisk (mkStore (world_nodes w) outs) (sd_writer (lw_disk w))) (lw_retention w).

(** What a process, its restarts and its file system can make of a directory
    that starts without segments. *)
Inductive log_reachable (limit : Z) : LogWorld -> Prop :=
| log_start nodes outs policy : sorted_nodes nodes -> seg_nodes nodes = [] ->
    log_reachable limit (mkLogWorld (mkDisk (mkStore nodes outs) (fresh_writer limit)) (RetentionManager_with_policy policy))
| log_step w op outs : log_reachable limit w -> op_ok op -> log_reachable limit (with_outcomes outs (fst (run_op op w))).

Definition world_ok (limit : Z) (w : LogWorld) (log : list PreparedDiagnosticEvent) : Prop :=
  disk_ok limit (lw_disk w) log /\ numbered_ok (sd_writer (lw_disk w)) log.

Lemma world_log_events limit w log : world_ok limit w log -> world_log w = encoded <$> log.
Proof. intros [(closed & open & Hsg & -> & _) _]. by eapply disk_log_events. Qed.

Lemma kept_events closed kept open : kept `sublist_of` closed -> events_in kept open `sublist_of` events_in closed open.
Proof.
  intros Hsub. unfold events_in. apply sublist_app; [|done]. induction Hsub as [|p a b _ IH|p a b _ IH]; [done|..]; cbn.
  - by apply sublist_app.
  - etrans; [exact IH|]. by apply sublist_inserts_l.
Qed.

(** Retention leaves a log in order, and the writer where it was. *)
Lemma retain_run limit w log trigger now leases active : MAX_PREPARED_EVENT_BYTES < limit <= MAX_SEGMENT_BYTES -> world_ok limit w log ->
  exists kept, world_ok limit (fst (run_op (LogRetain trigger now leases active) w)) kept /\ kept `sublist_of` log.
Proof.
  intros Hlim [(closed & open & Hsg & -> & Hw) Hnum]. cbn [run_op]. unfold enforce_with_active.
  assert (forall s m, (exists kept, kept_of limit closed open s kept) ->
    exists kept, world_ok limit (mkLogWorld (mkDisk s (sd_writer (lw_disk w))) m) kept /\ kept `sublist_of` events_in closed open) as Hkeep.
  { intros s m (kept & Hsg' & Hsub). exists (events_in kept open). apply (kept_events _ _ open) in Hsub. split; [|done]. split.
    - exists kept, open. by split_and!.
    - intros Hinit. eapply forall_sublist; [exact Hsub|]. by apply Hnum. }
  assert (forall s m, ds_nodes s = ds_nodes (sd_store (lw_disk w)) ->
    exists kept, world_ok limit (mkLogWorld (mkDisk s (sd_writer (lw_disk w))) m) kept /\ kept `sublist_of` events_in closed open) as Hsame.
  { intros s m Hn. apply Hkeep. exists closed. unfold kept_of. by rewrite Hn. }
  destruct (performs_retention trigger); [|by apply Hsame]. cbn [negb].
  assert (forall s, ds_nodes s = ds_nodes (sd_store (lw_disk w)) -> exists kept, world_ok limit (fst (let '(s0, m, r) :=
      (let '(s0, r) := enforce_open (rm_policy (lw_retention w)) now leases active s in (s0, mkRetention (rm_policy (lw_retention w)) true, r))
      in (mkLogWorld (mkDisk s0 (sd_writer (lw_disk w))) m, is_ok r))) kept /\ kept `sublist_of` events_in closed open) as Hopen.
  { intros s Hn. destruct open as [[[n evs] tail]|].
    - destruct (last_segment _ _ _ _ _ _ Hsg) as (_ & _ & _ & _ & top & Htop & _). rewrite <- Hn in Hsg.
      pose proof (enforce_open_run limit closed n evs tail top (rm_policy (lw_retention w)) now leases ltac:(lia) Htop active s Hsg) as Hrun.
      destruct (enforce_open _ _ _ _ s) as [s' [report|e]]; apply Hkeep; [destruct Hrun as (kept & ? & _); eauto|by destruct Hrun].
    - pose proof (enforce_empty (rm_policy (lw_retention w)) now leases active s) as Hrun. rewrite Hn in Hrun. pose proof (sg_open _ _ _ _ Hsg) as ->.
      specialize (Hrun (sg_sorted _ _ _ _ Hsg) (sg_nodes _ _ _ _ Hsg)). destruct (enforce_open _ _ _ _ s) as [s' r]. by apply Hsame. }
  destruct (rm_directory (lw_retention w)); [by apply Hopen|].
  destruct (os_check_looked (sd_store (lw_disk w))) as (Hn & _). unfold DiagnosticDirectory_open.
  destruct (os_check _) as [s [[]|e]]; [by apply Hopen|]. by destruct e; apply Hsame.
Qed.

(** What an operation makes of the log. *)
Definition log_after (op : LogOp) (ok : bool) (log log' : list PreparedDiagnosticEvent) : Prop :=
  match op with
  | LogFlush batch => if ok then log' = log ++ ba_events batch else exists k, log' = log ++ take k (ba_events batch)
  | LogRecover | LogRestart => log' = log
  | LogRetain _ _ _ _ => log' `sublist_of` log
  end.

Lemma op_run limit op w log : MAX_PREPARED_EVENT_BYTES < limit <= MAX_SEGMENT_BYTES -> op_ok op -> world_ok limit w log ->
  exists log', world_ok limit (fst (run_op op w)) log' /\ log_after op (snd (run_op op w)) log log'.
Proof.
  intros Hlim Hop Hw. destruct op as [|batch| |trigger now leases active]; [..|by apply retain_run]; destruct Hw as [Hd Hnum]; cbn [run_op].
  - exists log. pose proof (recover_run limit (lw_disk w) log Hd ltac:(unfold MAX_PREPARED_EVENT_BYTES, MAX_SEGMENT_BYTES, u64_max in *; lia)) as (Hd' & _ & Hr).
    destruct (recover (lw_disk w)) as [d [report|e]]; cbn in *; (split; [split; [done|]|done]).
    + destruct Hr as (_ & Hlast & _). intros _. cbn. pose proof (increasing_below _ (disk_increasing _ _ _ Hd)) as Hbelow. by rewrite <- Hlast in Hbelow.
    + destruct Hr as [Hsame _]. unfold numbered_ok. cbn. by rewrite Hsame.
  - pose proof (flush_run limit (lw_disk w) log batch Hlim Hd Hnum Hop) as Hr. destruct (flush batch (lw_disk w)) as [d [o|e]]; cbn.
    + exists (log ++ ba_events batch). done.
    + destruct Hr as (reached & rest & Heq & Hd' & Hnum'). exists (log ++ reached). split; [done|]. exists (length reached).
      by rewrite Heq, take_app_length.
  - exists log. split; [|done]. destruct Hd as (closed & open & Hsg & -> & Hlimit & _). split; [|done]. exists closed, open. split_and!; [done|done|]. by split.
Qed.

Lemma reachable_world limit w : MAX_PREPARED_EVENT_BYTES < limit <= MAX_SEGMENT_BYTES -> log_reachable limit w -> exists log, world_ok limit w log.
Proof.
  intros Hlim. induction 1 as [nodes outs policy Hs Hnone|w op outs _ [log IH] Hop].
  - exists []. split; [|done]. exists [], None. split; [|split; [done|]]; [|by split]. split; try done; [apply SSorted_nil|change (Forall (fun n => zlen (nd_contents n) <= limit) (seg_nodes nodes)); by rewrite Hnone].
  - destruct (op_run limit op w log Hlim Hop IH) as (log' & [Hd Hnum] & _). exists log'. by split.
Qed.

Lemma sublist_fmap {A B} (f : A -> B) a b : a `sublist_of` b -> f <$> a `sublist_of` f <$> b.
Proof. induction 1; cbn; by constructor. Qed.

(** C22: The log on disk refines an append-only list.  Whatever the file system
    does at each call (failures, torn appends, files created or removed by calls
    that fail), from every state a process and its restarts can reach: a flush
    that reports success has added exactly its batch, one that fails has added a
    prefix of it; recovery and restarts keep every complete line; retention
    leaves the lines it keeps in their order. *)
Theorem segment_log_refines limit w op : MAX_PREPARED_EVENT_BYTES < limit <= MAX_SEGMENT_BYTES ->
  log_reachable limit w -> op_ok op ->
  match op with
  | LogFlush batch =>
      if snd (run_op op w) then world_log (fst (run_op op w)) = world_log w ++ (encoded <$> ba_events batch)
      else exists k, world_log (fst (run_op op w)) = world_log w ++ take k (encoded <$> ba_events batch)
  | LogRecover | LogRestart => world_log (fst (run_op op w)) = world_log w
  | LogRetain _ _ _ _ => world_log (fst (run_op op w)) `sublist_of` world_log w
  end.
Proof.
  intros Hlim Hr Hop. destruct (reachable_world limit w Hlim Hr) as [log Hw]. destruct (op_run limit op w log Hlim Hop Hw) as (log' & Hw' & Hafter).
  rewrite (world_log_events _ _ _ Hw), (world_log_events _ _ _ Hw'). unfold log_after in Hafter. destruct op; [by subst| |by subst|by apply sublist_fmap].
  destruct (snd (run_op _ w)); [subst; apply fmap_app|]. destruct Hafter as [k ->]. exists k. by rewrite fmap_app, fmap_take.
Qed.

Lemma flush_total limit d log batch : MAX_PREPARED_EVENT_BYTES < limit <= MAX_SEGMENT_BYTES -> ready limit d log ->
  Forall (fun e => sequence e <= sw_last_sequence (sd_writer d)) log -> batch_ok batch ->
  past (sw_last_sequence (sd_writer d)) (ba_events batch) -> ds_outcomes (sd_store d) = [] ->
  sw_next_segment (sd_writer d) + event_count batch <= u64_max -> exists d' outcome, flush batch d = (d', Ok outcome).
Proof.
  intros Hlim [Hd Hinit] Hle Hbatch Hpast Ho Hnext. unfold flush, batch_is_empty. destruct (ba_events batch) as [|e evs] eqn:Hev; [by exists d, FlushNoop|].
  cbn [is_emptyb]. rewrite <- Hev in *. assert (ba_events batch <> []) as Hne by (by rewrite Hev). clear e evs Hev.
  unfold st_bind at 1, st_get. rewrite Hinit. pose proof (flush_ready limit d log batch Hlim (conj Hd Hinit) Hle Hbatch Hne) as Hrun.
  unfold st_bind at 1, st_ret at 1. unfold st_bind at 1. destruct (st_bind _ _ d) as [d' [o|err]]; [eauto|].
  destruct Hrun as [_ Hwhy]. destruct (Hwhy Hpast); [done|lia].
Qed.

(** C23: No failure is permanent.  From every reachable state of a directory
    whose numbers are not used up, once the file system works again recovery
    succeeds: it reports the number and the id of the last complete line, and the
    writer then accepts every batch with higher, increasing numbers. *)
Theorem segment_log_recovers limit w : MAX_PREPARED_EVENT_BYTES < limit <= MAX_SEGMENT_BYTES -> log_reachable limit w ->
  (forall n, n ∈ seg_nodes (world_nodes w) -> node_index n <> Some u64_max) ->
  exists evs d report, world_log w = encoded <$> evs /\ increasing evs /\
    recover (lw_disk (with_outcomes [] w)) = (d, Ok report) /\
    rr_last_sequence report = default 0 (sequence <$> list.last evs) /\ rr_last_event_id report = event_id <$> list.last evs /\
    forall batch, batch_ok batch -> past (rr_last_sequence report) (ba_events batch) ->
      rr_active_segment report + 1 + event_count batch <= u64_max ->
      exists d' outcome, flush batch d = (d', Ok outcome) /\ disk_log (ds_nodes (sd_store d')) = world_log w ++ (encoded <$> ba_events batch).
Proof.
  intros Hlim Hr Hnum. destruct (reachable_world limit w Hlim Hr) as [log Hw]. pose proof (world_log_events _ _ _ Hw) as Hlog.
  destruct Hw as [Hd _]. assert (disk_ok limit (lw_disk (with_outcomes [] w)) log) as Hd0.
  { destruct Hd as (closed & open & Hsg & Hl & Hwr). by exists closed, open. }
  pose proof (recover_run limit _ log Hd0 ltac:(unfold MAX_PREPARED_EVENT_BYTES, MAX_SEGMENT_BYTES, u64_max in *; lia)) as (Hd1 & Ho1 & Hres).
  destruct (recover _) as [d1 [report|e]]; cbn in Hd1, Ho1, Hres; cycle 1.
  { destruct Hres as [_ [H|(n & Hn & Hi)]]; [done|]. by destruct (Hnum n Hn). }
  destruct Hres as (Hinit & Hlast & Hseq & Hid & Hnext). exists log, d1, report. split_and!; try done; [by eapply disk_increasing|].
  intros batch Hb Hpast Hroom. pose proof (increasing_below _ (disk_increasing _ _ _ Hd1)) as Hbelow. rewrite <- Hlast in Hbelow.
  rewrite Hseq, <- Hlast in Hpast.
  destruct (flush_total limit d1 log batch Hlim (conj Hd1 Hinit) Hbelow Hb Hpast (Ho1 eq_refl) ltac:(lia)) as (d' & o & Hflush).
  exists d', o. split; [done|]. pose proof (flush_run limit d1 log batch Hlim Hd1 (fun _ => Hbelow) Hb) as Hrun. rewrite Hflush in Hrun.
  destruct Hrun as [(closed & open & Hsg & Hl & _) _]. rewrite (disk_log_events _ _ _ _ Hsg), <- Hl, Hlog. apply fmap_app.
Qed.

(** The bytes of some segments. *)
Definition node_bytes (l : list DiagnosticNode) : Z := foldr (fun n t => zlen (nd_contents n) + t) 0 l.

Lemma total_nodes l : total l = node_bytes l.*1.
Proof. unfold total, node_bytes. induction l as [|p l IH]; [done|]. cbn. by rewrite IH. Qed.

(** C32: Retention with the active segment ends, keeps it, and bounds the
    rest.  While the file system works it succeeds on every reachable directory;
    of the closed segments it leaves, in their order, none is older than the
    policy allows unless it is leased, and together they fit into the policy's
    bytes unless all of them are leased. *)
Theorem retention_bounded limit w closed n top trigger now leases : MAX_PREPARED_EVENT_BYTES < limit <= MAX_SEGMENT_BYTES ->
  log_reachable limit w -> world_outcomes w = [] -> seg_nodes (world_nodes w) = closed ++ [n] -> node_index n = Some top ->
  node_bytes closed <= u64_max -> performs_retention trigger = true ->
  let policy := rm_policy (lw_retention w) in
  exists s m report kept, enforce_with_active trigger now leases (Some top) (lw_retention w) (sd_store (lw_disk w)) = (s, m, Ok report) /\
    seg_nodes (ds_nodes s) = kept ++ [n] /\ kept `sublist_of` closed /\
    Forall (fun k => expired_by_age (nd_modified k) now (rp_max_age policy) = true -> is_leased (nd_identity k) leases = true) kept /\
    (node_bytes kept <= rp_max_bytes policy \/ Forall (fun k => is_leased (nd_identity k) leases = true) kept).
Proof.
  intros Hlim Hr Ho Hsegs Htop Hbytes Htrig policy. destruct (reachable_world limit w Hlim Hr) as [log [(parts & open & Hsg & _) _]].
  assert (exists evs tail, open = Some (n, evs, tail) /\ closed = parts.*1) as (evs & tail & -> & ->).
  { pose proof (sg_nodes _ _ _ _ Hsg) as Hn. fold (world_nodes w) in Hn. rewrite Hsegs in Hn. destruct open as [[[m evs] tail]|]; cbn in Hn.
    - apply app_inj_tail in Hn as [-> ->]. eauto.
    - pose proof (sg_open _ _ _ _ Hsg) as ->. cbn in Hn. by destruct closed. }
  unfold enforce_with_active. rewrite Htrig. cbn [negb]. unfold DiagnosticDirectory_open.
  assert (exists s, (if rm_directory (lw_retention w) then (sd_store (lw_disk w), Ok tt) else os_check (sd_store (lw_disk w))) = (s, Ok (E := DiagnosticStoreError) tt) /\
    ds_nodes s = world_nodes w /\ ds_outcomes s = []) as (s & -> & Hn & Ho1).
  { destruct (rm_directory _); [by eexists|]. destruct (os_check_looked (sd_store (lw_disk w))) as (H1 & H2 & H3).
    destruct (os_check _) as [s [[]|e]]; [eexists; split_and!; [done|done|by apply H2]|done]. }
  fold (world_nodes w) in Hsg. rewrite <- Hn in Hsg.
  pose proof (enforce_open_run limit parts n evs tail top policy now leases ltac:(lia) Htop (Some top) s Hsg) as Hrun. fold policy.
  destruct (enforce_open policy now leases (Some top) s) as [s' [report|e]]; [|by destruct Hrun as [Hf _]; destruct (Hf eq_refl)].
  destruct Hrun as (kept & [Hsg' Hsub] & Hbound). rewrite <- total_nodes in Hbytes. destruct (Hbound Hbytes) as [Hyoung Hsize].
  exists s', (mkRetention policy true), report, kept.*1. split; [done|]. split; [by rewrite (sg_nodes _ _ _ _ Hsg')|].
  split; [by apply sublist_fmap|]. rewrite <- total_nodes, !list.Forall_fmap. done.
Qed.
End Log.

(** ** Prepared events are stored as they are *)
Section Prepared.
Context `{HD : DiagnosticCrates, HJ : DiagnosticJson, HC : CryptoCrate, HL : !DiagnosticLaws, HW : !DiagnosticJsonLaws}.

(** [serde_json::to_vec] writes a document on one line. *)
Context (one_line : forall v, newline ∉ diagnostic_to_vec v).

Lemma prepared_stored e t sequence p : drafted e -> prepare_template e = Ok t -> 0 < sequence <= u64_max ->
  finalize t sequence = Ok p -> stored_ok p.
Proof using HL HW one_line.
  intros [He H0]%drafted_ok Ht Hs. rewrite (finalized e t) by done. intros [= <-].
  split; [apply one_line|]. exists (at_sequence sequence e). split; [|done].
  cbn [encoded]. unfold decode_trusted_prepared_encoding. rewrite (decode_finalized e t) by done. by rewrite andb_false_r.
Qed.
End Prepared.

(** ** Instances for the witnesses
    A line is the number of an event and padding. *)
Module SegmentsDemo.
Definition event : DiagnosticEvent :=
  DiagnosticEventDraft_new (replicate 16 171) "2026-01-02T03:04:05Z" LevelError ComponentProvider
    EventRequestFailed (mkBuildIdentity "0.1.0" (replicate 20 202) 1 3).

#[local] Existing Instance DiagnosticSpec.Demo.crates.
#[local] Existing Instance DiagnosticSpec.Demo.crypto.
#[local] Instance json : DiagnosticJson := {|
  diagnostic_to_vec _ := [];
  diagnostic_document l := match l with k :: _ => Some (event_value (at_sequence k event)) | [] => None end
|}.

Definition prepared (number : Z) : PreparedDiagnosticEvent :=
  mkPreparedEvent number (uuid_number (ev_event_id event)) (number :: replicate 250 77).

(** Eighty events, more than one segment of 16400 bytes holds. *)
Definition batch : DurableBatch := mkBatch (prepared <$> seqZ 20 80) (80 * 251) MAX_BATCH_EVENTS MAX_BATCH_EVENT_BYTES.

Lemma batch_stored : batch_ok batch.
Proof.
  split; [|by vm_compute]. cbn [ba_events batch]. let l := eval vm_compute in (seqZ 20 80) in change (seqZ 20 80) with l.
  cbn [fmap list_fmap].
  repeat (constructor; [split; [by apply (bool_decide_eq_true_1 (newline ∉ _)); vm_compute
                               |eexists; split; [vm_compute; reflexivity|by vm_compute]]|]). constructor.
Qed.

Definition start : LogWorld :=
  mkLogWorld (mkDisk (mkStore [] []) (fresh_writer 16400)) (RetentionManager_with_policy (mkPolicy 0 1000)).

Lemma start_reachable outs : log_reachable 16400 (with_outcomes outs start).
Proof. apply (log_start 16400 [] outs); [constructor|done]. Qed.

(** The fifth call is the append, torn within its second line. *)
Definition torn : list StoreOutcome :=
  replicate 3 (mkOutcome None O 0 (Some 7)) ++ [mkOutcome (Some StoreIo) 300 0 (Some 7)].

Definition after_torn : LogWorld := with_outcomes [] (fst (run_op (LogFlush batch) (with_outcomes torn start))).
Definition after_flush : LogWorld := with_outcomes [] (fst (run_op (LogFlush batch) (with_outcomes [] start))).

Lemma limit_fits : MAX_PREPARED_EVENT_BYTES < 16400 <= MAX_SEGMENT_BYTES.
Proof. by vm_compute. Qed.

(** A torn flush fails, and one of the eighty events is in the log. *)
Lemma segment_log_refines_witness : snd (run_op (LogFlush batch) (with_outcomes torn start)) = false /\
  length (world_log after_torn) = 1%nat /\
  exists k, world_log (fst (run_op (LogFlush batch) (with_outcomes torn start))) =
    world_log (with_outcomes torn start) ++ take k (encoded <$> ba_events batch).
Proof.
  pose proof (segment_log_refines 16400 (with_outcomes torn start) (LogFlush batch) limit_fits (start_reachable torn) batch_stored) as H.
  assert (snd (run_op (LogFlush batch) (with_outcomes torn start)) = false) as E by (vm_compute; reflexivity).
  cbn beta match in H. rewrite E in H. split; [exact E|]. split; [vm_compute; reflexivity|exact H].
Defined.

Lemma after_torn_reachable : log_reachable 16400 after_torn.
Proof. apply log_step; [apply start_reachable|apply batch_stored]. Qed.

Lemma after_torn_numbers n : n ∈ seg_nodes (world_nodes after_torn) -> node_index n <> Some u64_max.
Proof.
  assert (forallb (fun n => negb (bool_decide (node_index n = Some u64_max))) (seg_nodes (world_nodes after_torn)) = true) as H
    by (vm_compute; reflexivity).
  rewrite forallb_forall in H. intros Hn%list_elem_of_In%H. by apply negb_true_iff, bool_decide_eq_false in Hn.
Qed.

(** The torn log is recovered at number 20. *)
Lemma segment_log_recovers_witness : exists evs d report, world_log after_torn = encoded <$> evs /\
  recover (lw_disk (with_outcomes [] after_torn)) = (d, Ok report) /\ rr_last_sequence report = 20 /\ rr_truncated_bytes report = 48.
Proof.
  destruct (segment_log_recovers 16400 after_torn limit_fits after_torn_reachable after_torn_numbers) as (evs & d & report & Hlog & _ & Hrec & _).
  exists evs, d, report. split; [exact Hlog|]. split; [exact Hrec|].
  assert (snd (recover (lw_disk (with_outcomes [] after_torn))) = Ok (mkRecoveryReport 48 1 20 (Some (uuid_number (ev_event_id event))))) as E
    by (vm_compute; reflexivity).
  rewrite Hrec in E. injection E as ->. split; reflexivity.
Defined.

Lemma after_flush_reachable : log_reachable 16400 after_flush.
Proof. apply log_step; [apply start_reachable|apply batch_stored]. Qed.

(** Of the two segments of a flush, the closed one does not fit. *)
Lemma retention_bounded_witness : exists closed n, length closed = 1%nat /\ seg_nodes (world_nodes after_flush) = closed ++ [n] /\
  exists s m report kept, enforce_with_active TriggerRotation 8 [] (Some 2) (lw_retention after_flush) (sd_store (lw_disk after_flush)) = (s, m, Ok report) /\
    seg_nodes (ds_nodes s) = kept ++ [n] /\ rt_removed_files report = 1.
Proof.
  destruct (seg_nodes (world_nodes after_flush)) as [|c [|n [|? ?]]] eqn:Hsegs; try (exfalso; vm_compute in Hsegs; discriminate Hsegs).
  exists [c], n. split; [reflexivity|]. split; [reflexivity|].
  assert (node_index <$> seg_nodes (world_nodes after_flush) = [Some 1; Some 2]) as Hidx by (vm_compute; reflexivity).
  assert (zlen ∘ nd_contents <$> seg_nodes (world_nodes after_flush) = [16380; 3780]) as Hlen by (vm_compute; reflexivity).
  rewrite Hsegs in Hidx, Hlen. injection Hidx as Hc Hn. injection Hlen as Hlc Hln. cbn in Hlc.
  destruct (retention_bounded 16400 after_flush [c] n 2 TriggerRotation 8 [] limit_fits after_flush_reachable) as (s & m & report & kept & Hrun & Hkept & _).
  - vm_compute; reflexivity.
  - exact Hsegs.
  - exact Hn.
  - cbn. rewrite Hlc. unfold u64_max. lia.
  - reflexivity.
  - exists s, m, report, kept. split; [exact Hrun|]. split; [exact Hkept|].
    assert (snd (enforce_with_active TriggerRotation 8 [] (Some 2) (lw_retention after_flush) (sd_store (lw_disk after_flush)))
      = Ok (mkRetentionReport false 1 16380 3)) as E by (vm_compute; reflexivity).
    rewrite Hrun in E. injection E as ->. reflexivity.
Defined.
End SegmentsDemo.
