(* ===== verification/Update.v ===== *)
(** * Updating the executable

    Models [crates/wokcore-platform/src/update/]: the signed manifest
    ([manifest.rs]), staging, replacing and rolling back the executable
    ([installer.rs], [rollback.rs], the Unix build), and the installation of a
    verified archive in [apps/wokcore/src/commands/update.rs].  The directory the
    executable lives in is a map from names to inodes; every call of the file
    system may fail.  Signatures, versions, digests, JSON and archives are
    parameters. *)
From S2P Require Import Prelude Text Json Ident Catalog AuthRegistry Security ManagementApi Inbound DiagnosticEvent.

Definition MAX_UPDATE_MANIFEST_BYTES : Z := 64 * 1024.
Definition MAX_UPDATE_SIGNATURE_BYTES : Z := 16 * 1024.
Definition MAX_UPDATE_ARTIFACT_BYTES : Z := 512 * 1024 * 1024.
Definition MAX_PUBLIC_KEY_BYTES : Z := 4 * 1024.
Definition MAX_RELEASE_DOCUMENT_BYTES : Z := 4 * 1024 * 1024.
Definition RELEASE_DOCUMENTS : list string := ["LICENSE-APACHE"; "LICENSE-MIT"; "NOTICE.md"; "README.md"]%string.

Inductive UpdateError : Set :=
| InvalidManifest | InvalidSignature | TargetMismatch | DowngradeRejected | ArtifactSizeMismatch
| ArtifactHashMismatch | InvalidArchive | StagingFailed | AtomicReplaceFailed | RollbackFailed
| RollbackDurabilityFailed | RecoveryRequired | UpdateInProgress.

#[global] Instance UpdateError_eq_dec : EqDecision UpdateError.
Proof. solve_decision. Defined.

(** ** Third-party code *)
(** The [semver] crate. *)
Class SemverCrate (V : Type) : Type := {
  semver_parse : string -> option V;
  semver_to_string : V -> string;
  semver_cmp : V -> V -> comparison
}.

(** The [minisign_verify] crate; [verify] without legacy signatures. *)
Class MinisignCrate (K S : Type) : Type := {
  public_key_decode : string -> option K;
  signature_decode : string -> option S;
  key_verify : K -> list Z -> S -> bool
}.

(** An entry of a [tar] archive: its path, if it has a readable one, whether it
    is a regular file, its declared size and what reading it yields. *)
Record ArchiveEntry : Set := mkArchiveEntry {
  en_path : option (list Z);
  en_is_file : bool;
  en_size : Z;
  en_data : option (list Z)
}.

(** The entries the [tar] reader over the [flate2] decoder yields, [None] where
    the stream breaks off; no list when the archive cannot be read at all. *)
Class ArchiveCrate : Type := tar_entries : list Z -> option (list (option ArchiveEntry)).

(** ** Targets *)
Record TargetContract : Set := mkTargetContract {
  tg_target : string;
  tg_system : string;
  tg_architecture : string;
  tg_extension : string;
  tg_executable : string;
  tg_friendly_name : bool
}.

Definition legacy (target system architecture extension executable : string) : TargetContract :=
  mkTargetContract target system architecture extension executable false.
Definition friendly (target system architecture extension executable : string) : TargetContract :=
  mkTargetContract target system architecture extension executable true.

Definition V1_TARGETS : list TargetContract := [
  legacy "x86_64-pc-windows-msvc" "Windows" "x86_64" "zip" "wokcore.exe";
  legacy "x86_64-apple-darwin" "macOS" "x86_64" "tar.gz" "wokcore";
  legacy "aarch64-apple-darwin" "macOS" "arm64" "tar.gz" "wokcore";
  legacy "x86_64-unknown-linux-gnu" "Linux" "x86_64" "tar.gz" "wokcore";
  legacy "aarch64-unknown-linux-gnu" "Linux" "arm64" "tar.gz" "wokcore"].

Definition V2_TARGETS : list TargetContract := [
  friendly "x86_64-pc-windows-msvc" "Windows" "x86_64" "zip" "wokcore.exe";
  friendly "aarch64-pc-windows-msvc" "Windows" "arm64" "zip" "wokcore.exe";
  friendly "x86_64-apple-darwin" "macOS" "x86_64" "tar.gz" "wokcore";
  friendly "aarch64-apple-darwin" "macOS" "arm64" "tar.gz" "wokcore";
  friendly "x86_64-unknown-linux-gnu" "Linux" "x86_64" "tar.gz" "wokcore";
  friendly "aarch64-unknown-linux-gnu" "Linux" "arm64" "tar.gz" "wokcore"].

Definition expected_file (c : TargetContract) (version : string) : string :=
  if negb (tg_friendly_name c)
  then "wokcore-v" +:+ version +:+ "-" +:+ tg_target c +:+ "." +:+ tg_extension c
  else "WokCore-v" +:+ version +:+ "-" +:+ tg_system c +:+ "-" +:+ tg_architecture c
       +:+ (if bool_decide (tg_system c = "Windows"%string) then "-Portable"%string else EmptyString)
       +:+ "." +:+ tg_extension c.

Definition expected_url (c : TargetContract) (version : string) : string :=
  "https://github.com/hongjiadev/wokcore/releases/download/v" +:+ version +:+ "/" +:+ expected_file c version.

(** ** The manifest *)
Record ArtifactDocument : Set := mkArtifactDocument {
  ad_target : string;
  ad_file : string;
  ad_executable : string;
  ad_size : Z;
  ad_sha256 : string;
  ad_url : string
}.

Record ManifestDocument : Set := mkManifestDocument {
  md_schema_version : Z;
  md_product : string;
  md_api_major : Z;
  md_version : string;
  md_signing_key_id : string;
  md_artifacts : list ArtifactDocument
}.

(** [derive(Deserialize)] with [deny_unknown_fields]. *)
Definition read_artifact (v : Value) : option ArtifactDocument :=
  fields ← read_struct ["target"; "file"; "executable"; "size"; "sha256"; "url"]%string v;
  match fields with
  | [a; b; c; d; e; f] =>
      a ← required as_str a; b ← required as_str b; c ← required as_str c; d ← required read_u64 d;
      e ← required as_str e; f ← required as_str f; Some (mkArtifactDocument a b c d e f)
  | _ => None
  end.

Definition read_manifest (v : Value) : option ManifestDocument :=
  fields ← read_struct ["schema_version"; "product"; "api_major"; "version"; "signing_key_id"; "artifacts"]%string v;
  match fields with
  | [a; b; c; d; e; f] =>
      a ← required (read_uint 4294967295) a; b ← required as_str b; c ← required (read_uint 4294967295) c;
      d ← required as_str d; e ← required as_str e; f ← required (fun v => as_array v ≫= mapM read_artifact) f;
      Some (mkManifestDocument a b c d e f)
  | _ => None
  end.

(** [UpdateArtifact] has the fields of the document it was validated from. *)
Definition is_lower_hex_sha256 (value : string) : bool :=
  (zlen (str_bytes value) =? 64)
  && forallb (fun b => is_ascii_digit b || ((97 <=? b) && (b <=? 102))) (str_bytes value).

Definition validate_artifact (artifact : ArtifactDocument) (contract : TargetContract) (version : string)
  : result UpdateError ArtifactDocument :=
  if negb (bool_decide (ad_target artifact = tg_target contract))
     || negb (bool_decide (ad_file artifact = expected_file contract version))
     || negb (bool_decide (ad_executable artifact = tg_executable contract))
     || (ad_size artifact =? 0) || (MAX_UPDATE_ARTIFACT_BYTES <? ad_size artifact)
     || negb (is_lower_hex_sha256 (ad_sha256 artifact))
     || negb (bool_decide (ad_url artifact = expected_url contract version))
  then Err InvalidManifest
  else Ok artifact.

(** The loop over the artifacts: every one is checked, the target's is kept. *)
Fixpoint select_artifact (pairs : list (ArtifactDocument * TargetContract)) (version target : string)
  (selected : option ArtifactDocument) : result UpdateError (option ArtifactDocument) :=
  match pairs with
  | [] => Ok selected
  | (artifact, contract) :: pairs =>
      let? validated := validate_artifact artifact contract version in
      select_artifact pairs version target
        (if bool_decide (tg_target contract = target) then Some validated else selected)
  end.

Inductive UpdateDecision (V : Type) : Type :=
| DecisionCurrent
| DecisionAvailable (version : V) (artifact : ArtifactDocument)
| DecisionIncompatibleManifest.
Arguments DecisionCurrent {V}.
Arguments DecisionAvailable {V}.
Arguments DecisionIncompatibleManifest {V}.

(** [str::lines]. *)
Definition strip_return (line : list Z) : list Z :=
  match rev line with 13 :: rest => rev rest | _ => line end.

Fixpoint lines_from (line l : list Z) : list (list Z) :=
  match l with
  | [] => if is_emptyb line then [] else [line]
  | b :: l => if b =? 10 then strip_return line :: lines_from [] l else lines_from (line ++ [b]) l
  end.

Definition str_lines (s : string) : list (list Z) := lines_from [] (str_bytes s).

Definition hex_upper (d : Z) : Z := if d <? 10 then 48 + d else 55 + d.

Section Manifest.
Context {V K S : Type} `{HV : SemverCrate V, HM : MinisignCrate K S, HB : Base64Crate, HJ : JsonCrate, HD : DiagnosticJson}.

Definition public_key_id (public_key : string) : result UpdateError string :=
  match str_lines public_key with
  | [comment; payload] =>
      let? decoded := ok_or (standard_decode payload) InvalidSignature in
      if negb (zlen decoded =? 42) || negb (bool_decide (take 2 decoded = [69; 100])) then Err InvalidSignature
      else
        let key_id := flat_map (fun b => [hex_upper (b / 16); hex_upper (b mod 16)]) (rev (take 8 (drop 2 decoded))) in
        if negb (bool_decide (comment = str_bytes "untrusted comment: minisign public key " ++ key_id))
        then Err InvalidSignature
        else Ok (bytes_str key_id)
  | _ => Err InvalidSignature
  end.

Definition verify_signature (manifest signature public_key : list Z) : result UpdateError string :=
  if is_emptyb public_key || (MAX_PUBLIC_KEY_BYTES <? zlen public_key) then Err InvalidSignature
  else if negb (utf8_valid public_key) then Err InvalidSignature
  else if negb (utf8_valid signature) then Err InvalidSignature
  else
    let public_key_text := bytes_str public_key in
    let signature_text := bytes_str signature in
    let? key_id := public_key_id public_key_text in
    if negb (length (str_lines signature_text) =? 4)%nat then Err InvalidSignature
    else
      let? decoded_key := ok_or (public_key_decode public_key_text) InvalidSignature in
      let? decoded_signature := ok_or (signature_decode signature_text) InvalidSignature in
      if key_verify decoded_key manifest decoded_signature then Ok key_id else Err InvalidSignature.

Definition parse_manifest_document (manifest : list Z) : result UpdateError ManifestDocument :=
  ok_or (diagnostic_document manifest ≫= read_manifest) InvalidManifest.

Definition validate_document (document : ManifestDocument) (key_id : string) (current_version : V) (target : string)
  : result UpdateError (UpdateDecision V) :=
  let? targets := if md_schema_version document =? 1 then Ok V1_TARGETS
                  else if md_schema_version document =? 2 then Ok V2_TARGETS
                  else Err InvalidManifest in
  if negb (bool_decide (md_product document = "wokcore"%string)) || negb (md_api_major document =? 1)
     || negb (bool_decide (md_signing_key_id document = key_id))
     || negb (length (md_artifacts document) =? length targets)%nat
  then Err InvalidManifest
  else
    let? version := ok_or (semver_parse (md_version document)) InvalidManifest in
    if (128 <? zlen (str_bytes (md_version document)))
       || negb (bool_decide (semver_to_string version = md_version document))
    then Err InvalidManifest
    else
      let? selected := select_artifact (zip (md_artifacts document) targets) (md_version document) target None in
      let? artifact := ok_or selected TargetMismatch in
      match semver_cmp version current_version with
      | Lt => Err DowngradeRejected
      | Eq => Ok DecisionCurrent
      | Gt => Ok (DecisionAvailable version artifact)
      end.

Definition verify_manifest (manifest_bytes signature_bytes : list Z) (public_key_text : string) (current_version : V)
  (target : string) : result UpdateError (UpdateDecision V) :=
  if is_emptyb manifest_bytes || (MAX_UPDATE_MANIFEST_BYTES <? zlen manifest_bytes) then Err InvalidManifest
  else if is_emptyb signature_bytes || (MAX_UPDATE_SIGNATURE_BYTES <? zlen signature_bytes) then Err InvalidSignature
  else
    let? key_id := verify_signature manifest_bytes signature_bytes (str_bytes public_key_text) in
    let? value := ok_or (from_str manifest_bytes) InvalidManifest in
    let? schema_version := ok_or (value_get value "schema_version" ≫= as_u64) InvalidManifest in
    let? api_major := ok_or (value_get value "api_major" ≫= as_u64) InvalidManifest in
    if negb ((schema_version =? 1) || (schema_version =? 2)) || negb (api_major =? 1)
    then Ok DecisionIncompatibleManifest
    else
      let? document := parse_manifest_document manifest_bytes in
      validate_document document key_id current_version target.
End Manifest.

(** ** The directory of the executable
    A name is a file of the directory; an inode is its identity (the device is
    the same for all of them), and an open file is its inode, which outlives its
    names.  Every state the directory went through is kept in [fs_seen]. *)
Inductive Node : Set := Regular (content : list Z) | SymbolicLink | Directory.

#[global] Instance Node_eq_dec : EqDecision Node.
Proof. solve_decision. Defined.

Record FileSystem : Set := mkFileSystem {
  fs_names : gmap string Z;
  fs_nodes : gmap Z Node;
  fs_parent : Node;
  fs_locks : gset Z;
  fs_faults : list bool;
  fs_seen : list (gmap string Z * gmap Z Node)
}.

Inductive IoError : Set := NotFound | OtherIo.

#[global] Instance IoError_eq_dec : EqDecision IoError.
Proof. solve_decision. Defined.

Abbreviation io := (st_res FileSystem IoError).
Abbreviation upd := (st_res FileSystem UpdateError).

(** A call of the system, which may fail. *)
Definition system_call : io unit := fun f =>
  match fs_faults f with
  | [] => (f, Ok tt)
  | fault :: faults =>
      (mkFileSystem (fs_names f) (fs_nodes f) (fs_parent f) (fs_locks f) faults (fs_seen f),
       if fault : bool then Err OtherIo else Ok tt)
  end.

(** A change of the directory or of a file. *)
Definition change (names : gmap string Z) (nodes : gmap Z Node) (f : FileSystem) : FileSystem :=
  mkFileSystem names nodes (fs_parent f) (fs_locks f) (fs_faults f) (fs_seen f ++ [(names, nodes)]).

(** [fs::symlink_metadata] of a name and [File::metadata] of an open file. *)
Definition symlink_metadata (name : string) : io (Z * Node) :=
  do! system_call;
  let! f := st_get in
  match fs_names f !! name with
  | Some inode => match fs_nodes f !! inode with Some node => st_ret (inode, node) | None => st_err OtherIo end
  | None => st_err NotFound
  end.

Definition file_metadata (file : Z) : io (Z * Node) :=
  do! system_call;
  let! f := st_get in
  match fs_nodes f !! file with Some node => st_ret (file, node) | None => st_err OtherIo end.

(** [OpenOptions::open] with [O_NOFOLLOW]. *)
Definition open_no_follow (name : string) : io Z :=
  do! system_call;
  let! f := st_get in
  match fs_names f !! name with
  | Some inode => match fs_nodes f !! inode with
                  | Some SymbolicLink | None => st_err OtherIo
                  | Some _ => st_ret inode
                  end
  | None => st_err NotFound
  end.

(** [fs::hard_link]: the new name must be free. *)
Definition hard_link (name link : string) : io unit :=
  do! system_call;
  let! f := st_get in
  match fs_names f !! name, fs_names f !! link with
  | Some inode, None => st_mod (fun f => change (<[link := inode]> (fs_names f)) (fs_nodes f) f)
  | None, _ => st_err NotFound
  | Some _, Some _ => st_err OtherIo
  end.

(** [fs::rename]: one step; two names of one file are left as they are, and a
    directory is not replaced by a file. *)
Definition rename (from to : string) : io unit :=
  do! system_call;
  let! f := st_get in
  match fs_names f !! from with
  | None => st_err NotFound
  | Some inode =>
      if bool_decide (fs_names f !! to = Some inode) then st_ret tt
      else if bool_decide ((fs_names f !! to ≫= fun i => fs_nodes f !! i) = Some Directory)
              || bool_decide (fs_nodes f !! inode = Some Directory)
      then st_err OtherIo
      else st_mod (fun f => change (<[to := inode]> (delete from (fs_names f))) (fs_nodes f) f)
  end.

Definition remove_file (name : string) : io unit :=
  do! system_call;
  let! f := st_get in
  match fs_names f !! name with
  | None => st_err NotFound
  | Some inode =>
      if bool_decide (fs_nodes f !! inode = Some Directory) then st_err OtherIo
      else st_mod (fun f => change (delete name (fs_names f)) (fs_nodes f) f)
  end.

(** A new regular file under a name that was free, and bytes appended to a file. *)
Definition create_new (name : string) : io Z :=
  do! system_call;
  let! f := st_get in
  let inode := fresh (dom (fs_nodes f)) in
  if is_someb (fs_names f !! name) then st_err OtherIo
  else
    do! st_mod (fun f => change (<[name := inode]> (fs_names f)) (<[inode := Regular []]> (fs_nodes f)) f);
    st_ret inode.

Definition append_file (file : Z) (bytes : list Z) : io unit :=
  do! system_call;
  let! f := st_get in
  match fs_nodes f !! file with
  | Some (Regular content) =>
      st_mod (fun f => change (fs_names f) (<[file := Regular (content ++ bytes)]> (fs_nodes f)) f)
  | _ => st_err OtherIo
  end.

(** [map_err], and the result of a computation as a value. *)
Definition failing {E E' A} (error : E') (c : st_res FileSystem E A) : st_res FileSystem E' A := fun f =>
  let '(f, r) := c f in (f, map_err (fun _ => error) r).

Definition attempted {E E' A} (c : st_res FileSystem E A) : st_res FileSystem E' (result E A) := fun f =>
  let '(f, r) := c f in (f, Ok r).

Definition succeeds {E E' A} (c : st_res FileSystem E A) : st_res FileSystem E' bool :=
  let! r := attempted c in st_ret (is_ok r).

(** ** Replacing and restoring ([rollback.rs]) *)
Definition safe_regular_file (node : Node) : bool := match node with Regular _ => true | _ => false end.
Definition safe_directory (node : Node) : bool := match node with Directory => true | _ => false end.

Definition open_replacement (path : string) : io Z := open_no_follow path.

(** [sync_parent]: the directory is opened and synced. *)
Definition sync_parent : io unit := do! system_call; system_call.

Definition path_matches_open_file {E} (path : string) (file : Z) : st_res FileSystem E bool :=
  let! path_metadata := attempted (symlink_metadata path) in
  match path_metadata with
  | Err _ => st_ret false
  | Ok (path_inode, path_node) =>
      let! metadata := attempted (file_metadata file) in
      match metadata with
      | Err _ => st_ret false
      | Ok (file_inode, _) => st_ret (safe_regular_file path_node && (path_inode =? file_inode))
      end
  end.

Definition remove_stale (path : string) : upd unit :=
  let! metadata := attempted (symlink_metadata path) in
  match metadata with
  | Ok (_, node) =>
      if negb (safe_regular_file node) then st_err AtomicReplaceFailed
      else failing AtomicReplaceFailed (remove_file path)
  | Err NotFound => st_ret tt
  | Err OtherIo => st_err AtomicReplaceFailed
  end.

Definition restore_platform (target backup : string) (backup_file : Z) : io unit :=
  let! same := path_matches_open_file backup backup_file in
  if negb same then st_err OtherIo
  else do! rename backup target; sync_parent.

Definition atomic_replace_platform (target candidate : string) (candidate_file : Z) (backup : string) : upd unit :=
  do! failing AtomicReplaceFailed (hard_link target backup);
  let! backup_file := failing AtomicReplaceFailed (open_replacement backup) in
  let! candidate_same := path_matches_open_file candidate candidate_file in
  let! target_same := if candidate_same then path_matches_open_file target backup_file else st_ret false in
  let! backup_same := if target_same then path_matches_open_file backup backup_file else st_ret false in
  if negb backup_same then st_err AtomicReplaceFailed
  else
    let! renamed := succeeds (rename candidate target) in
    if negb renamed then st_err AtomicReplaceFailed
    else
      let! synced := succeeds sync_parent in
      if synced then st_ret tt
      else
        do! failing RollbackFailed (restore_platform target backup backup_file);
        st_err AtomicReplaceFailed.

Definition atomic_replace (target candidate : string) (candidate_file : Z) (backup : string) : upd unit :=
  do! remove_stale backup;
  atomic_replace_platform target candidate candidate_file backup.

Definition restore_previous (target backup : string) (backup_file : Z) : upd unit :=
  let! metadata := failing RollbackFailed (symlink_metadata backup) in
  if negb (safe_regular_file metadata.2) then st_err RollbackFailed
  else failing RollbackFailed (restore_platform target backup backup_file).

(** ** Staging and the transaction ([installer.rs]) *)
Definition handle_identity (file : Z) : upd Z :=
  let! metadata := failing StagingFailed (file_metadata file) in
  if negb (safe_regular_file metadata.2) then st_err StagingFailed else st_ret metadata.1.

Definition open_read_no_follow (path : string) : upd Z := failing StagingFailed (open_no_follow path).

Definition path_identity (path : string) : upd Z :=
  let! metadata := failing StagingFailed (symlink_metadata path) in
  if negb (safe_regular_file metadata.2) then st_err StagingFailed
  else
    let! file := open_read_no_follow path in
    handle_identity file.

Definition verify_handle_identity (file expected : Z) : upd unit :=
  let! identity := handle_identity file in
  if identity =? expected then st_ret tt else st_err StagingFailed.

Definition verify_path_identity (path : string) (expected : Z) : upd unit :=
  let! identity := path_identity path in
  if identity =? expected then st_ret tt else st_err StagingFailed.

(** The answer is not looked at. *)
Definition cleanup_previous {E} (path : string) : st_res FileSystem E unit :=
  let! _ := attempted (remove_file path) in st_ret tt.

Record PreparedInstall : Set := mkPreparedInstall {
  pi_candidate : string;
  pi_candidate_file : Z;
  pi_candidate_identity : Z;
  pi_target : string;
  pi_target_identity : Z;
  pi_backup : string
}.

Record InstallTransaction : Set := mkInstallTransaction {
  it_target : string;
  it_backup : string;
  it_installed_file : Z;
  it_installed_identity : Z;
  it_backup_file : Z;
  it_previous_identity : Z
}.

Definition begin_steps (p : PreparedInstall) : upd InstallTransaction :=
  let! candidate_handle := succeeds (verify_handle_identity (pi_candidate_file p) (pi_candidate_identity p)) in
  let! candidate_same :=
    if candidate_handle then succeeds (verify_path_identity (pi_candidate p) (pi_candidate_identity p)) else st_ret false in
  let unchanged := succeeds (verify_path_identity (pi_target p) (pi_target_identity p)) in
  if negb candidate_same then
    let! same := unchanged in
    st_err (if same then StagingFailed else RecoveryRequired)
  else
    let! target_same := unchanged in
    if negb target_same then st_err RecoveryRequired
    else
      let! replaced := attempted (atomic_replace (pi_target p) (pi_candidate p) (pi_candidate_file p) (pi_backup p)) in
      match replaced with
      | Err error =>
          let! same := unchanged in
          st_err (if same then error else RecoveryRequired)
      | Ok _ =>
          let! handle_same := succeeds (verify_handle_identity (pi_candidate_file p) (pi_candidate_identity p)) in
          let! installed :=
            if handle_same then succeeds (verify_path_identity (pi_target p) (pi_candidate_identity p)) else st_ret false in
          if negb installed then st_err RecoveryRequired
          else
            let! backup_file := failing RecoveryRequired (open_read_no_follow (pi_backup p)) in
            let! backup_handle := succeeds (verify_handle_identity backup_file (pi_target_identity p)) in
            let! backup_same :=
              if backup_handle then succeeds (verify_path_identity (pi_backup p) (pi_target_identity p)) else st_ret false in
            if negb backup_same then st_err RecoveryRequired
            else
              st_ret (mkInstallTransaction (pi_target p) (pi_backup p) (pi_candidate_file p) (pi_candidate_identity p)
                        backup_file (pi_target_identity p))
      end.

(** [TempPath] removes its file when it is dropped, at the end of [begin]. *)
Definition drop_temp {E} (path : string) : st_res FileSystem E unit :=
  let! _ := attempted (remove_file path) in st_ret tt.

Definition begin (p : PreparedInstall) : upd InstallTransaction :=
  let! r := attempted (begin_steps p) in
  do! drop_temp (pi_candidate p);
  st_lift r.

Definition paths_are_unchanged {E} (t : InstallTransaction) : st_res FileSystem E bool :=
  let! a := succeeds (verify_handle_identity (it_installed_file t) (it_installed_identity t)) in
  let! b := if a then succeeds (verify_path_identity (it_target t) (it_installed_identity t)) else st_ret false in
  let! c := if b then succeeds (verify_handle_identity (it_backup_file t) (it_previous_identity t)) else st_ret false in
  if c then succeeds (verify_path_identity (it_backup t) (it_previous_identity t)) else st_ret false.

Definition commit (t : InstallTransaction) : upd unit :=
  let! unchanged := paths_are_unchanged t in
  if negb unchanged then st_err RecoveryRequired
  else cleanup_previous (it_backup t).

Definition rollback (t : InstallTransaction) : upd unit :=
  let! unchanged := paths_are_unchanged t in
  if negb unchanged then st_err RecoveryRequired
  else
    let! restored := attempted (restore_previous (it_target t) (it_backup t) (it_backup_file t)) in
    match restored with
    | Ok _ => cleanup_previous (it_backup t)
    | Err _ =>
        let! same := succeeds (verify_path_identity (it_target t) (it_previous_identity t)) in
        if same then do! cleanup_previous (it_backup t); st_err RollbackDurabilityFailed
        else st_err RollbackFailed
    end.

(** [preserve_for_recovery] leaves everything in place; a transaction dropped
    without an answer is rolled back. *)
Definition preserve_for_recovery (t : InstallTransaction) : upd unit := st_ret tt.

Definition drop_transaction (t : InstallTransaction) : upd unit :=
  let! unchanged := paths_are_unchanged t in
  if negb unchanged then st_ret tt
  else
    let! restored := succeeds (restore_previous (it_target t) (it_backup t) (it_backup_file t)) in
    let! previous := if restored then st_ret true
                     else succeeds (verify_path_identity (it_target t) (it_previous_identity t)) in
    if previous then cleanup_previous (it_backup t) else st_ret tt.

(** The bytes behind an open file. *)
Definition file_content (file : Z) : upd (list Z) :=
  let! f := st_get in
  match fs_nodes f !! file with Some (Regular content) => st_ret content | _ => st_err StagingFailed end.

(** [io::Read::take]. *)
Definition taken (limit : Z) (data : list Z) : list Z :=
  if zlen data <=? limit then data else take (Z.to_nat limit) data.

Section Installing.
Context `{HA : ArchiveCrate, HC : CryptoCrate}.

(** The reads of the loop are one call here: any of them may fail. *)
Definition verify_artifact_file (file : Z) (artifact : ArtifactDocument) : upd unit :=
  let! metadata := failing StagingFailed (file_metadata file) in
  match metadata.2 with
  | Regular content =>
      if negb (zlen content =? ad_size artifact) then st_err ArtifactSizeMismatch
      else
        do! failing StagingFailed system_call;
        do! failing StagingFailed system_call;
        do! failing StagingFailed system_call;
        if negb (bool_decide (hex_display (sha256_digest (bytes_str content)) = ad_sha256 artifact))
        then st_err ArtifactHashMismatch
        else st_ret tt
  | _ => st_err ArtifactSizeMismatch
  end.

Definition verify_artifact (path : string) (artifact : ArtifactDocument) : upd unit :=
  let! metadata := failing StagingFailed (symlink_metadata path) in
  if negb (safe_regular_file metadata.2) then st_err StagingFailed
  else
    let! file := open_read_no_follow path in
    verify_artifact_file file artifact.

(** One entry of the archive: the executable is copied, the release documents
    are let pass once each, and anything else is refused. *)
Definition extract_entry (executable : string) (destination : Z) (state : bool * gset string)
  (entry : option ArchiveEntry) : upd (bool * gset string) :=
  let '(found, documents) := state in
  let! entry := st_lift (ok_or entry InvalidArchive) in
  let! path := st_lift (ok_or (en_path entry) InvalidArchive) in
  if negb (bool_decide (path = str_bytes executable)) then
    if negb (utf8_valid path) || negb (bool_decide (bytes_str path ∈ RELEASE_DOCUMENTS)) then st_err InvalidArchive
    else if bool_decide (bytes_str path ∈ documents) || negb (en_is_file entry)
            || (MAX_RELEASE_DOCUMENT_BYTES <? en_size entry)
    then st_err InvalidArchive
    else st_ret (found, {[bytes_str path]} ∪ documents)
  else
    let size := en_size entry in
    if found || negb (en_is_file entry) || (size =? 0) || (MAX_UPDATE_ARTIFACT_BYTES <? size) then st_err InvalidArchive
    else
      let! data := st_lift (ok_or (en_data entry) InvalidArchive) in
      let copied := taken (MAX_UPDATE_ARTIFACT_BYTES + 1) data in
      do! failing InvalidArchive (append_file destination copied);
      if negb (zlen copied =? size) then st_err InvalidArchive else st_ret (true, documents).

Fixpoint extract_entries (executable : string) (destination : Z) (entries : list (option ArchiveEntry))
  (state : bool * gset string) : upd (bool * gset string) :=
  match entries with
  | [] => st_ret state
  | entry :: entries =>
      let! state := extract_entry executable destination state entry in
      extract_entries executable destination entries state
  end.

Definition extract_executable (archive_file : Z) (artifact : ArtifactDocument) (destination : Z) : upd unit :=
  do! failing InvalidArchive system_call;
  do! failing InvalidArchive system_call;
  let! content := failing InvalidArchive (file_content archive_file) in
  let! entries := st_lift (ok_or (tar_entries content) InvalidArchive) in
  let! state := extract_entries (ad_executable artifact) destination entries (false, ∅) in
  if negb state.1 then st_err InvalidArchive else st_ret tt.

Definition CANDIDATE_PREFIX : string := ".wokcore-update-candidate-".
Definition backup_path (target : string) : string := "." +:+ target +:+ ".previous".
Definition lock_path (target : string) : string := "." +:+ target +:+ ".update.lock".

Definition parent_is_safe : upd unit :=
  do! failing StagingFailed system_call;
  let! f := st_get in
  if safe_directory (fs_parent f) then st_ret tt else st_err StagingFailed.

(** From the staged file to the prepared installation. *)
Definition stage (archive : Z) (artifact : ArtifactDocument) (target candidate : string) (target_identity staged : Z)
  : upd PreparedInstall :=
  do! extract_executable archive artifact staged;
  do! failing StagingFailed system_call;
  do! failing StagingFailed system_call;
  do! failing StagingFailed system_call;
  let! candidate_identity := handle_identity staged in
  let! candidate_file := failing StagingFailed (open_replacement candidate) in
  do! verify_handle_identity candidate_file candidate_identity;
  st_ret (mkPreparedInstall candidate candidate_file candidate_identity target target_identity (backup_path target)).

(** [current] is [current_target()] and [suffix] what the temporary file's name ends with. *)
Definition prepare_install_file (current suffix : string) (archive : Z) (artifact : ArtifactDocument) (target : string)
  : upd PreparedInstall :=
  do! verify_artifact_file archive artifact;
  if negb (bool_decide (ad_target artifact = current)) || negb (bool_decide (target = ad_executable artifact))
  then st_err TargetMismatch
  else
    let! target_identity := path_identity target in
    do! parent_is_safe;
    let candidate := CANDIDATE_PREFIX +:+ suffix in
    let! staged := failing StagingFailed (create_new candidate) in
    let! r := attempted (stage archive artifact target candidate target_identity staged) in
    match r with
    | Ok prepared => st_ret prepared
    | Err error => do! drop_temp candidate; st_err error
    end.

Definition prepare_install (current suffix archive : string) (artifact : ArtifactDocument) (target : string)
  : upd PreparedInstall :=
  let! metadata := failing StagingFailed (symlink_metadata archive) in
  if negb (safe_regular_file metadata.2) then st_err StagingFailed
  else
    let! archive := open_read_no_follow archive in
    prepare_install_file current suffix archive artifact target.

(** ** The lease *)
(** [OpenOptions::create]: the lock file is made if it is missing. *)
Definition open_or_create (name : string) : io Z :=
  let! f := st_get in
  if is_someb (fs_names f !! name) then open_no_follow name else create_new name.

Definition acquire_update_lease (target : string) : upd Z :=
  do! parent_is_safe;
  let! metadata := attempted (symlink_metadata (lock_path target)) in
  if match metadata with Ok (_, node) => negb (safe_regular_file node) | Err _ => false end then st_err StagingFailed
  else
    let! lock := failing StagingFailed (open_or_create (lock_path target)) in
    let! identity := handle_identity lock in
    do! verify_path_identity (lock_path target) identity;
    do! failing StagingFailed system_call;
    let! f := st_get in
    if bool_decide (lock ∈ fs_locks f) then st_err UpdateInProgress
    else
      do! st_mod (fun f => mkFileSystem (fs_names f) (fs_nodes f) (fs_parent f) ({[lock]} ∪ fs_locks f)
                             (fs_faults f) (fs_seen f));
      st_ret lock.

Definition drop_lease (lock : Z) : upd unit :=
  st_mod (fun f => mkFileSystem (fs_names f) (fs_nodes f) (fs_parent f) (fs_locks f ∖ {[lock]}) (fs_faults f) (fs_seen f)).

(** ** Installing a verified archive ([commands/update.rs]) *)
Inductive LifecyclePreparation : Set := LifecycleReady | LifecycleActiveRequestsRemain (count : Z).
Inductive VerificationFailure : Set := VerificationRecoveryRequired | SafeToRollback.
Inductive InstallOutcome : Set := Installed | RolledBack | InstallActiveRequestsRemain (count : Z).
Inductive InstallFailure : Set := InstallFailed | InstallRecoveryRequired | InstallOperationInProgress.

(** [UpdateLifecycle]: what the running service answers; it does not touch the
    directory of the executable. *)
Record UpdateLifecycle : Set := mkUpdateLifecycle {
  lc_prepare : option LifecyclePreparation;
  lc_verify_installed : result VerificationFailure unit;
  lc_restore_previous : bool;
  lc_disarm : bool
}.

Definition rollback_install_failure (error : UpdateError) : InstallFailure :=
  match error with
  | RollbackDurabilityFailed | RecoveryRequired => InstallRecoveryRequired
  | _ => InstallFailed
  end.

Abbreviation inst := (st_res FileSystem InstallFailure).

Definition disarm (lifecycle : UpdateLifecycle) : inst unit :=
  if lc_disarm lifecycle then st_ret tt else st_err InstallFailed.
Definition restored (lifecycle : UpdateLifecycle) : inst unit :=
  if lc_restore_previous lifecycle then st_ret tt else st_err InstallRecoveryRequired.

Definition finish_install (lifecycle : UpdateLifecycle) (transaction : InstallTransaction) : inst InstallOutcome :=
  match lc_verify_installed lifecycle with
  | Ok _ =>
      let! committed := attempted (commit transaction) in
      do! disarm lifecycle;
      match committed with
      | Ok _ => st_ret Installed
      | Err RecoveryRequired => st_err InstallRecoveryRequired
      | Err _ => st_err InstallFailed
      end
  | Err VerificationRecoveryRequired =>
      do! failing InstallFailed (preserve_for_recovery transaction);
      do! disarm lifecycle;
      st_err InstallRecoveryRequired
  | Err SafeToRollback =>
      let! rolled_back := attempted (rollback transaction) in
      match rolled_back with
      | Ok _ => do! restored lifecycle; do! disarm lifecycle; st_ret RolledBack
      | Err RollbackDurabilityFailed =>
          do! restored lifecycle; do! disarm lifecycle; st_err (rollback_install_failure RollbackDurabilityFailed)
      | Err error => do! disarm lifecycle; st_err (rollback_install_failure error)
      end
  end.

Definition install_verified (current suffix : string) (archive : Z) (artifact : ArtifactDocument) (target : string)
  (lifecycle : UpdateLifecycle) : inst InstallOutcome :=
  do! failing InstallFailed (verify_artifact_file archive artifact);
  let! prepared := failing InstallFailed (prepare_install_file current suffix archive artifact target) in
  match lc_prepare lifecycle with
  | None => do! drop_temp (pi_candidate prepared); st_err InstallFailed
  | Some (LifecycleActiveRequestsRemain count) =>
      do! drop_temp (pi_candidate prepared);
      do! disarm lifecycle;
      st_ret (InstallActiveRequestsRemain count)
  | Some LifecycleReady =>
      let! begun := attempted (begin prepared) in
      match begun with
      | Ok transaction => finish_install lifecycle transaction
      | Err RecoveryRequired => do! disarm lifecycle; st_err InstallRecoveryRequired
      | Err _ => do! restored lifecycle; do! disarm lifecycle; st_err InstallFailed
      end
  end.
End Installing.
