(* ===== verification/UpdateSpec.v ===== *)
(** * What an update can do to the installed executable

    Whatever call of the file system fails, and wherever the update is cut off,
    the name of the executable always leads to the previous executable or to the
    one extracted from the verified archive; and only a manifest signed by the
    embedded key chooses that archive. *)
From S2P Require Import Prelude Text Json Ident Catalog CatalogSpec AuthRegistry Security ManagementApi Inbound DiagnosticEvent Update.

(** ** Reasoning about the file system *)
(** What an assertion may speak about: the names, the files and the past states. *)
Notation view_type := (gmap string Z * gmap Z Node * list (gmap string Z * gmap Z Node))%type.

Definition view (f : FileSystem) : view_type := (fs_names f, fs_nodes f, fs_seen f).
Definition names_of (v : view_type) : gmap string Z := v.1.1.
Definition nodes_of (v : view_type) : gmap Z Node := v.1.2.
Definition seen_of (v : view_type) : list (gmap string Z * gmap Z Node) := v.2.

Definition triple {E A} (P : view_type -> Prop) (c : st_res FileSystem E A) (Q : result E A -> view_type -> Prop) : Prop :=
  forall f, P (view f) -> Q (c f).2 (view (c f).1).

Lemma triple_bind {E A B} P (c : st_res FileSystem E A) (k : A -> st_res FileSystem E B) R Q :
  triple P c R -> (forall a, triple (R (Ok a)) (k a) Q) -> (forall e v, R (Err e) v -> Q (Err e) v) ->
  triple P (st_bind c k) Q.
Proof.
  intros Hc Hk He f HP. specialize (Hc f HP). unfold st_bind. destruct (c f) as [f' [a|e]]; cbn in *; [by apply Hk|by apply He].
Qed.

Lemma triple_ret {E A} (P : view_type -> Prop) (a : A) (Q : result E A -> view_type -> Prop) :
  (forall v, P v -> Q (Ok a) v) -> triple P (st_ret a) Q.
Proof. intros H f HP. by apply H. Qed.

Lemma triple_err {E A} (P : view_type -> Prop) (e : E) (Q : result E A -> view_type -> Prop) :
  (forall v, P v -> Q (Err e) v) -> triple P (st_err e) Q.
Proof. intros H f HP. by apply H. Qed.

Lemma triple_lift {E A} (P : view_type -> Prop) (r : result E A) Q : (forall v, P v -> Q r v) -> triple P (st_lift r) Q.
Proof. intros H f HP. by apply H. Qed.

Lemma triple_lift_bind {E A A'} (P : view_type -> Prop) (r : result E A) (k : A -> st_res FileSystem E A') Q :
  (forall a, r = Ok a -> triple P (k a) Q) -> (forall e v, P v -> Q (Err e) v) -> triple P (let! a := st_lift r in k a) Q.
Proof. intros Hk He f HP. unfold st_bind, st_lift. destruct r as [a|e]; [by apply Hk|by apply He]. Qed.

Lemma triple_weaken {E A} (P P' : view_type -> Prop) (c : st_res FileSystem E A) Q Q' :
  triple P' c Q' -> (forall v, P v -> P' v) -> (forall r v, Q' r v -> Q r v) -> triple P c Q.
Proof. intros H HP HQ f Hf. by apply HQ, H, HP. Qed.

Lemma triple_failing {E E' A} P (c : st_res FileSystem E A) (error : E') Q :
  triple P c (fun r => Q (map_err (fun _ => error) r)) -> triple P (failing error c) Q.
Proof. intros H f HP. specialize (H f HP). unfold failing. by destruct (c f). Qed.

Lemma triple_attempted {E E' A} P (c : st_res FileSystem E A) (Q : result E' (result E A) -> view_type -> Prop) :
  triple P c (fun r => Q (Ok r)) -> triple P (attempted c) Q.
Proof. intros H f HP. specialize (H f HP). unfold attempted. by destruct (c f). Qed.

Lemma triple_succeeds {E E' A} P (c : st_res FileSystem E A) (Q : result E' bool -> view_type -> Prop) :
  triple P c (fun r => Q (Ok (is_ok r))) -> triple P (succeeds c) Q.
Proof.
  intros H f HP. specialize (H f HP). unfold succeeds, attempted, st_bind, st_ret. by destruct (c f).
Qed.

Lemma triple_pre {E A} (P : view_type -> Prop) (X : Prop) (c : st_res FileSystem E A) Q :
  (X -> triple P c Q) -> triple (fun v => X /\ P v) c Q.
Proof. intros H f [HX HP]. by apply H. Qed.

Lemma triple_exists {E A X} (P : X -> view_type -> Prop) (c : st_res FileSystem E A) Q :
  (forall x, triple (P x) c Q) -> triple (fun v => exists x, P x v) c Q.
Proof. intros H f [x Hx]. by apply (H x). Qed.

(** ** Calls that only look *)
Definition looks {E A} (c : st_res FileSystem E A) (phi : A -> view_type -> Prop) : Prop :=
  forall f, view (c f).1 = view f /\ forall a, (c f).2 = Ok a -> phi a (view f).

Lemma triple_looking {E A} (P : view_type -> Prop) (c : st_res FileSystem E A) phi Q :
  looks c phi -> (forall a v, P v -> phi a v -> Q (Ok a) v) -> (forall e v, P v -> Q (Err e) v) -> triple P c Q.
Proof.
  intros Hc Ho He f HP. destruct (Hc f) as [Hv Ha]. rewrite Hv. destruct (c f).2 as [a|e]; [by apply Ho, Ha|by apply He].
Qed.

Lemma looks_bind {E A B} (c : st_res FileSystem E A) (k : A -> st_res FileSystem E B) phi psi :
  looks c phi -> (forall a, looks (k a) (fun b v => phi a v -> psi b v)) -> looks (st_bind c k) psi.
Proof.
  intros Hc Hk f. destruct (Hc f) as [Hv Ha]. unfold st_bind. destruct (c f) as [f' [a|e]]; cbn in *; [|by split].
  destruct (Hk a f') as [Hv' Hb]. split; [congruence|]. intros b Hr. rewrite Hv in Hb. apply Hb; [done|by apply Ha].
Qed.

Lemma looks_ret {E A} (a : A) (phi : A -> view_type -> Prop) : (forall v, phi a v) -> looks (E := E) (st_ret a) phi.
Proof. intros H f. split; [done|]. by intros b [= <-]. Qed.

Lemma looks_err {E A} (e : E) (phi : A -> view_type -> Prop) : looks (st_err e) phi.
Proof. intros f. by split. Qed.

Lemma looks_lift {E A} (r : result E A) (phi : A -> view_type -> Prop) : (forall a v, r = Ok a -> phi a v) -> looks (st_lift r) phi.
Proof. intros H f. split; [done|]. intros a Ha. by apply H. Qed.

Lemma looks_weaken {E A} (c : st_res FileSystem E A) phi psi : looks c phi -> (forall a v, phi a v -> psi a v) -> looks c psi.
Proof. intros H Hw f. destruct (H f) as [Hv Ha]. split; [done|]. intros a Hr. by apply Hw, Ha. Qed.

Lemma looks_failing {E E' A} (error : E') (c : st_res FileSystem E A) phi : looks c phi -> looks (failing error c) phi.
Proof.
  intros H f. destruct (H f) as [Hv Ha]. unfold failing. destruct (c f) as [f' [a|e]]; cbn in *; [|by split].
  split; [done|]. intros b [= <-]. by apply Ha.
Qed.

Lemma looks_attempted {E E' A} (c : st_res FileSystem E A) phi :
  looks c phi -> looks (E := E') (attempted c) (fun r v => forall a, r = Ok a -> phi a v).
Proof.
  intros H f. destruct (H f) as [Hv Ha]. unfold attempted. destruct (c f) as [f' r]; cbn in *.
  split; [done|]. by intros b [= <-].
Qed.

Lemma looks_succeeds {E E' A} (c : st_res FileSystem E A) phi :
  looks c phi -> looks (E := E') (succeeds c) (fun b v => b = true -> exists a, phi a v).
Proof.
  intros H. unfold succeeds. eapply looks_bind; [by apply looks_attempted|]. intros r. apply looks_ret.
  intros v Hr Hb. destruct r as [a|]; [|done]. exists a. by apply Hr.
Qed.



Lemma looks_system_call : looks system_call (fun _ _ => True).
Proof. intros f. unfold system_call. destruct (fs_faults f) as [|[] l]; by split. Qed.

(** A look at the present state, after a call that may fail. *)
Lemma looks_now {A} (k : FileSystem -> io A) (phi : A -> view_type -> Prop) :
  (forall f, looks (k f) (fun a v => v = view f -> phi a v)) -> looks (do! system_call; let! f := st_get in k f) phi.
Proof.
  intros Hk f. unfold st_bind, st_get. destruct (looks_system_call f) as [Hv _].
  destruct (system_call f) as [f1 [u|e]]; cbn in *; [|by split].
  destruct (Hk f1 f1) as [Hv1 Ha]. split; [congruence|]. intros a Hr. rewrite <- Hv. by apply Ha.
Qed.

Lemma looks_metadata name : looks (symlink_metadata name) (fun m v => names_of v !! name = Some m.1 /\ nodes_of v !! m.1 = Some m.2).
Proof.
  apply looks_now. intros f. destruct (fs_names f !! name) as [i|] eqn:Hi; [|apply looks_err].
  destruct (fs_nodes f !! i) as [node|] eqn:Hn; [|apply looks_err]. apply looks_ret. by intros v ->.
Qed.

Lemma looks_file_metadata file : looks (file_metadata file) (fun m v => m.1 = file /\ nodes_of v !! file = Some m.2).
Proof.
  apply looks_now. intros f. destruct (fs_nodes f !! file) as [node|] eqn:Hn; [|apply looks_err]. apply looks_ret. by intros v ->.
Qed.

Lemma looks_open name : looks (open_no_follow name) (fun i v => names_of v !! name = Some i).
Proof.
  apply looks_now. intros f. destruct (fs_names f !! name) as [i|] eqn:Hi; [|apply looks_err].
  destruct (fs_nodes f !! i) as [[]|]; try apply looks_err; apply looks_ret; by intros v ->.
Qed.

Lemma looks_handle_identity file : looks (handle_identity file) (fun i v => i = file).
Proof.
  eapply looks_bind; [apply looks_failing, looks_file_metadata|]. intros [i node]. cbn.
  destruct (safe_regular_file node); [apply looks_ret; by intros v [-> _]|apply looks_err].
Qed.

Lemma looks_path_identity name : looks (path_identity name) (fun i v => names_of v !! name = Some i).
Proof.
  eapply looks_bind; [apply looks_failing, looks_metadata|]. intros [i node]. cbn.
  destruct (safe_regular_file node); [|apply looks_err]. cbn.
  eapply looks_bind; [apply looks_failing, looks_open|]. intros file.
  eapply looks_weaken; [apply looks_handle_identity|]. by intros a v -> ? _.
Qed.

Lemma looks_verify_handle file expected : looks (verify_handle_identity file expected) (fun _ _ => file = expected).
Proof.
  eapply looks_bind; [apply looks_handle_identity|]. intros i. destruct (Z.eqb_spec i expected) as [->|]; [|apply looks_err].
  apply looks_ret. by intros v ->.
Qed.

Lemma looks_verify_path name expected : looks (verify_path_identity name expected) (fun _ v => names_of v !! name = Some expected).
Proof.
  eapply looks_bind; [apply looks_path_identity|]. intros i. destruct (Z.eqb_spec i expected) as [->|]; [|apply looks_err].
  by apply looks_ret.
Qed.

Lemma looks_sync : looks sync_parent (fun _ _ => True).
Proof. eapply looks_bind; [apply looks_system_call|]. intros ?. eapply looks_weaken; [apply looks_system_call|done]. Qed.

Lemma looks_matches {E} path file : looks (E := E) (path_matches_open_file path file) (fun b v => b = true -> names_of v !! path = Some file).
Proof.
  eapply looks_bind; [apply looks_attempted, looks_metadata|]. intros [[i node]|]; [|by apply looks_ret].
  eapply looks_bind; [apply looks_attempted, looks_file_metadata|]. intros [[j node']|]; [|by apply looks_ret].
  apply looks_ret. intros v H1 H2 Hb. destruct (H1 _ eq_refl) as [Hn _]. destruct (H2 _ eq_refl) as [Hj _]. cbn in *.
  apply andb_true_iff in Hb as [_ Hb%Z.eqb_eq]. congruence.
Qed.

(** ** Calls that change the directory *)
Definition changed (names : gmap string Z) (nodes : gmap Z Node) (v : view_type) : view_type :=
  (names, nodes, seen_of v ++ [(names, nodes)]).

(** A change decided on the present state, after a call that may fail. *)
Lemma triple_now {A} (P : view_type -> Prop) (k : FileSystem -> io A) Q :
  (forall e v, P v -> Q (Err e) v) ->
  (forall f, P (view f) -> Q (k f f).2 (view (k f f).1)) -> triple P (do! system_call; let! f := st_get in k f) Q.
Proof.
  intros He Hk f HP. unfold st_bind, st_get. destruct (looks_system_call f) as [Hv _].
  destruct (system_call f) as [f1 [u|e]]; cbn in *; rewrite <- Hv in HP; [by apply Hk|by apply He].
Qed.

Lemma triple_hard_link P name link Q :
  (forall e v, P v -> Q (Err e) v) ->
  (forall v i, P v -> names_of v !! name = Some i -> names_of v !! link = None ->
     Q (Ok tt) (changed (<[link := i]> (names_of v)) (nodes_of v) v)) -> triple P (hard_link name link) Q.
Proof.
  intros He Hok. apply triple_now; [done|]. intros f HP.
  destruct (fs_names f !! name) as [i|] eqn:Hi; [|by apply He].
  destruct (fs_names f !! link) as [j|] eqn:Hj; [by apply He|]. by apply (Hok (view f)).
Qed.

Lemma triple_rename P from to Q :
  (forall e v, P v -> Q (Err e) v) ->
  (forall v i, P v -> names_of v !! from = Some i ->
     if bool_decide (names_of v !! to = Some i) then Q (Ok tt) v
     else Q (Ok tt) (changed (<[to := i]> (delete from (names_of v))) (nodes_of v) v)) -> triple P (rename from to) Q.
Proof.
  intros He Hok. apply triple_now; [done|]. intros f HP.
  destruct (fs_names f !! from) as [i|] eqn:Hi; [|by apply He]. specialize (Hok (view f) i HP Hi).
  unfold names_of in Hok. cbn in Hok. destruct (bool_decide (fs_names f !! to = Some i)); [done|].
  destruct (_ || _); [by apply He|done].
Qed.

Lemma triple_remove P name Q :
  (forall e v, P v -> Q (Err e) v) ->
  (forall v, P v -> Q (Ok tt) (changed (delete name (names_of v)) (nodes_of v) v)) -> triple P (remove_file name) Q.
Proof.
  intros He Hok. apply triple_now; [done|]. intros f HP.
  destruct (fs_names f !! name) as [i|] eqn:Hi; [|by apply He]. destruct (bool_decide _); [by apply He|].
  by apply (Hok (view f)).
Qed.

Lemma triple_create P name Q :
  (forall e v, P v -> Q (Err e) v) ->
  (forall v i, P v -> names_of v !! name = None -> nodes_of v !! i = None ->
     Q (Ok i) (changed (<[name := i]> (names_of v)) (<[i := Regular []]> (nodes_of v)) v)) -> triple P (create_new name) Q.
Proof.
  intros He Hok. apply triple_now; [done|]. intros f HP.
  destruct (fs_names f !! name) as [i|] eqn:Hi; cbn; [by apply He|]. apply (Hok (view f)); [done|done|].
  apply not_elem_of_dom. apply is_fresh.
Qed.

Lemma triple_append P file bytes Q :
  (forall e v, P v -> Q (Err e) v) ->
  (forall v content, P v -> nodes_of v !! file = Some (Regular content) ->
     Q (Ok tt) (changed (names_of v) (<[file := Regular (content ++ bytes)]> (nodes_of v)) v)) ->
  triple P (append_file file bytes) Q.
Proof.
  intros He Hok. apply triple_now; [done|]. intros f HP.
  destruct (fs_nodes f !! file) as [[content| |]|] eqn:Hi; try by apply He. by apply (Hok (view f)).
Qed.

(** ** The executable *)
Section Safety.
Context `{HA : ArchiveCrate, HC : CryptoCrate}.

(** What the archive the artifact describes holds under the name of the executable. *)
Definition extracted (artifact : ArtifactDocument) (content : list Z) : Prop :=
  exists archive entries e,
    zlen archive = ad_size artifact /\ hex_display (sha256_digest (bytes_str archive)) = ad_sha256 artifact /\
    tar_entries archive = Some entries /\ Some e ∈ entries /\ en_path e = Some (str_bytes (ad_executable artifact)) /\
    en_is_file e = true /\ en_data e = Some content /\ en_size e = zlen content /\
    0 < zlen content <= MAX_UPDATE_ARTIFACT_BYTES.

Context (artifact : ArtifactDocument) (T C : string) (o a : Z) (old ac : list Z)
  (names0 : gmap string Z) (nodes0 : gmap Z Node).
Notation B := (backup_path T).
Hypothesis C_T : C <> T.
Hypothesis C_B : C <> B.
Hypothesis old_file : nodes0 !! o = Some (Regular old).
Hypothesis archive_file : nodes0 !! a = Some (Regular ac).

Lemma B_T : B <> T.
Proof.
  intros H. apply (f_equal str_bytes) in H. unfold backup_path in H. rewrite !str_bytes_app in H.
  apply (f_equal length) in H. rewrite !length_app in H. cbn in H. lia.
Qed.

(** The name of the executable leads to the old one or to an extracted one. *)
Definition good (s : gmap string Z * gmap Z Node) : Prop :=
  exists i content, s.1 !! T = Some i /\ s.2 !! i = Some (Regular content) /\
    (content = old \/ extracted artifact content).

(** Nothing else is touched, and every state was good. *)
Record inv (v : view_type) : Prop := {
  inv_names : forall n, n <> T -> n <> B -> n <> C -> names_of v !! n = names0 !! n;
  inv_nodes : forall i node, nodes0 !! i = Some node -> nodes_of v !! i = Some node;
  inv_seen : Forall good (seen_of v)
}.

Definition at_old (v : view_type) : Prop := inv v /\ names_of v !! T = Some o.
Definition at_new (n : Z) (c : list Z) (v : view_type) : Prop :=
  inv v /\ names_of v !! T = Some n /\ nodes_of v !! n = Some (Regular c) /\ extracted artifact c.
Definition either (v : view_type) : Prop := at_old v \/ exists n c, at_new n c v.

Definition staging (n : Z) (c : list Z) (v : view_type) : Prop :=
  at_old v /\ names_of v !! C = Some n /\ nodes_of v !! n = Some (Regular c) /\ nodes0 !! n = None.
Definition staged (n : Z) (c : list Z) (v : view_type) : Prop := staging n c v /\ extracted artifact c.
Definition swapped (n : Z) (c : list Z) (v : view_type) : Prop :=
  at_new n c v /\ names_of v !! B = Some o /\ nodes0 !! n = None.

Lemma good_old v : at_old v -> good (names_of v, nodes_of v).
Proof using old_file. intros [Hi Ht]. exists o, old. split; [done|]. split; [by apply inv_nodes|]. by left. Qed.

Lemma good_new n c v : at_new n c v -> good (names_of v, nodes_of v).
Proof. intros (_ & Ht & Hn & Hc). exists n, c. by auto. Qed.

(** A change of names keeps the invariant if the new state is good. *)
Lemma inv_rename v names : inv v -> (forall n, n <> T -> n <> B -> n <> C -> names !! n = names_of v !! n) ->
  good (names, nodes_of v) -> inv (changed names (nodes_of v) v).
Proof.
  intros [Hn Hi Hs] Hnames Hg. split; cbn; [|done|apply list.Forall_app; split; [done|by apply list.Forall_singleton]].
  intros n H1 H2 H3. change (names !! n = names0 !! n). by rewrite Hnames, Hn.
Qed.

(** Removing another name changes nothing for the executable. *)
Lemma remove_old v name : at_old v -> name = B \/ name = C -> at_old (changed (delete name (names_of v)) (nodes_of v) v).
Proof using C_T old_file.
  intros Hv Hname. pose proof B_T. assert (name <> T) by naive_solver.
  assert (Hg : good (delete name (names_of v), nodes_of v)).
  { destruct (good_old v Hv) as (i & c & H1 & H2). exists i, c. cbn. by rewrite lookup_delete_ne. }
  destruct Hv as [Hi Ht]. split; [apply inv_rename; [done| |done]|].
  - intros n ? ? ?. rewrite lookup_delete_ne; [done|]. naive_solver.
  - change (delete name (names_of v) !! T = Some o). by rewrite lookup_delete_ne.
Qed.

Lemma remove_new n c v name : at_new n c v -> name = B \/ name = C -> at_new n c (changed (delete name (names_of v)) (nodes_of v) v).
Proof using C_T.
  intros Hv Hname. pose proof B_T. assert (name <> T) by naive_solver.
  assert (Hg : good (delete name (names_of v), nodes_of v)).
  { destruct (good_new n c v Hv) as (i & d & H1 & H2). exists i, d. cbn. by rewrite lookup_delete_ne. }
  destruct Hv as (Hi & Ht & Hn & Hc). split; [apply inv_rename; [done| |done]|].
  - intros m ? ? ?. rewrite lookup_delete_ne; [done|]. naive_solver.
  - change (delete name (names_of v) !! T = Some n /\ nodes_of v !! n = Some (Regular c) /\ extracted artifact c).
    by rewrite lookup_delete_ne.
Qed.
(** ** Replacing and restoring *)
Lemma removes_old {E} name (Q : result E unit -> view_type -> Prop) : name = B \/ name = C ->
  (forall v, at_old v -> Q (Ok tt) v) -> triple at_old (let! _ := attempted (remove_file name) in st_ret tt) Q.
Proof using C_T old_file.
  intros Hname HQ. eapply triple_bind with (R := fun r v => match r with Ok _ => at_old v | Err _ => False end).
  - apply triple_attempted, triple_remove; [done|]. intros v Hv. by apply remove_old.
  - intros r. apply triple_ret. auto.
  - done.
Qed.

Lemma removes_new {E} n c name (Q : result E unit -> view_type -> Prop) : name = B \/ name = C ->
  (forall v, at_new n c v -> Q (Ok tt) v) -> triple (at_new n c) (let! _ := attempted (remove_file name) in st_ret tt) Q.
Proof using C_T.
  intros Hname HQ. eapply triple_bind with (R := fun r v => match r with Ok _ => at_new n c v | Err _ => False end).
  - apply triple_attempted, triple_remove; [done|]. intros v Hv. by apply remove_new.
  - intros r. apply triple_ret. auto.
  - done.
Qed.

Lemma different_inode n : nodes0 !! n = None -> n <> o.
Proof using old_file. congruence. Qed.

Lemma restore_platform_spec n c : triple (swapped n c) (restore_platform T B o)
  (fun r v => match r with Ok _ => at_old v | Err _ => either v end).
Proof using C_T C_B old_file.
  assert (Hsw : forall v, swapped n c v -> either v) by (intros v [Hv _]; right; eauto).
  eapply triple_bind with (R := fun _ => swapped n c).
  - eapply triple_looking; [apply looks_matches|auto..].
  - intros same. destruct same; cbn; [|apply triple_err; auto].
    eapply triple_bind with (R := fun r v => match r with Ok _ => at_old v | Err _ => either v end).
    + apply triple_rename; [auto|]. intros v i [Hv [Hb Hn]] Hi. assert (i = o) as -> by congruence.
      destruct Hv as (Hinv & Ht & Hnode & Hc). rewrite bool_decide_eq_false_2 by (pose proof (different_inode n Hn); congruence).
      assert (Hlook : (<[T := o]> (delete B (names_of v)) : gmap string Z) !! T = Some o) by apply lookup_insert_eq.
      split; [|exact Hlook]. apply inv_rename; [done| |].
      * intros m H1 H2 H3. rewrite lookup_insert_ne, lookup_delete_ne by done. done.
      * exists o, old. split; [exact Hlook|]. split; [by apply (inv_nodes v Hinv)|]. by left.
    + intros u. eapply triple_looking; [apply looks_sync|auto|]. intros e v Hv. by left.
    + auto.
  - auto.
Qed.

Lemma restore_previous_spec n c : triple (swapped n c) (restore_previous T B o)
  (fun r v => match r with Ok _ => at_old v | Err _ => either v end).
Proof using C_T C_B old_file.
  assert (Hsw : forall v, swapped n c v -> either v) by (intros v [Hv _]; right; eauto).
  eapply triple_bind with (R := fun _ => swapped n c).
  - eapply triple_looking; [apply looks_failing, looks_metadata|auto..].
  - intros m. destruct (safe_regular_file m.2); cbn; [|apply triple_err; auto].
    apply triple_failing. eapply triple_weaken; [apply (restore_platform_spec n c)|done|]. by intros [] v.
  - auto.
Qed.

Lemma remove_stale_spec n c : triple (staged n c) (remove_stale B)
  (fun r v => match r with Ok _ => staged n c v | Err _ => at_old v end).
Proof using C_T C_B old_file.
  assert (Hst : forall v, staged n c v -> at_old v) by (by intros v [[Hv _] _]).
  eapply triple_bind with (R := fun _ => staged n c).
  - eapply triple_looking; [apply looks_attempted, looks_metadata|auto..].
  - intros [[i node]|[]]; [|apply triple_ret; auto|apply triple_err; auto].
    destruct (safe_regular_file node); cbn; [|apply triple_err; auto].
    apply triple_failing, triple_remove; [auto|]. intros v [(Hv & Hcn & Hnode & Hn) Hc].
    split; [|done]. split; [apply remove_old; auto|]. split; [|done].
    change (delete B (names_of v) !! C = Some n). by rewrite lookup_delete_ne.
  - auto.
Qed.

(** The rename puts the staged file in place of the executable, one of whose
    names is the backup. *)
Lemma rename_candidate_spec n c :
  triple (fun v => staged n c v /\ names_of v !! B = Some o) (rename C T)
    (fun r v => match r with Ok _ => swapped n c v | Err _ => at_old v end).
Proof using C_T C_B old_file.
  apply triple_rename; [by intros e v [[[Hv _] _] _]|].
  intros v i [[(Hold & Hcn & Hnode & Hn) Hc] Hb] Hi. assert (i = n) as -> by congruence.
  destruct Hold as [Hinv Ht]. rewrite bool_decide_eq_false_2 by (pose proof (different_inode n Hn); congruence).
  pose proof B_T.
  assert (Hlook : (<[T := n]> (delete C (names_of v)) : gmap string Z) !! T = Some n) by apply lookup_insert_eq.
  split; [split; [|split; [exact Hlook|done]]|split; [|done]].
  - apply inv_rename; [done| |].
    + intros m H1 H2 H3. rewrite lookup_insert_ne, lookup_delete_ne by done. done.
    + exists n, c. split; [exact Hlook|]. auto.
  - change ((<[T := n]> (delete C (names_of v)) : gmap string Z) !! B = Some o).
    rewrite lookup_insert_ne, lookup_delete_ne by done. done.
Qed.

Lemma atomic_replace_spec n c : triple (staged n c) (atomic_replace T C n B)
  (fun r v => match r with Ok _ => swapped n c v | Err _ => either v end).
Proof using C_T C_B old_file.
  assert (Hst : forall v, staged n c v -> either v) by (intros v [[Hv _] _]; by left).
  set (linked := fun v => staged n c v /\ names_of v !! B = Some o).
  assert (Hlk : forall v, linked v -> either v) by (intros v [Hv _]; auto).
  eapply triple_bind; [apply (remove_stale_spec n c)| |intros e v Hv; by left]. intros ?. unfold atomic_replace_platform.
  eapply triple_bind with (R := fun r v => match r with Ok _ => linked v | Err _ => either v end); [| |auto].
  { apply triple_failing, triple_hard_link; [cbn; auto|]. cbn. intros v i [(Hold & Hcn & Hnode & Hn) Hc] Hi Hfree.
    assert (i = o) as -> by (destruct Hold; congruence). pose proof B_T. split; [split; [|done]|apply lookup_insert_eq].
    split; [|split; [|done]].
    - destruct Hold as [Hinv Ht]. assert (Hlook : (<[B := o]> (names_of v) : gmap string Z) !! T = Some o)
        by (by rewrite lookup_insert_ne). split; [|exact Hlook]. apply inv_rename; [done| |].
      + intros m H1 H2 H3. by rewrite lookup_insert_ne.
      + exists o, old. split; [exact Hlook|]. split; [by apply (inv_nodes v Hinv)|by left].
    - change ((<[B := o]> (names_of v) : gmap string Z) !! C = Some n). by rewrite lookup_insert_ne. }
  intros ?. eapply triple_bind with (R := fun r v => linked v /\ forall file, r = Ok file -> file = o); [| |by intros e v [Hv _]; auto].
  { eapply triple_looking; [apply looks_failing, looks_open| |]; [|by intros e v Hv; split].
    intros file v [Hv Hb] Hf. split; [by split|]. intros ? [= <-]. congruence. }
  intros file. eapply triple_weaken with (P' := fun v => file = o /\ linked v); [apply triple_pre; intros ->| |by intros r v H; exact H].
  2: { intros v [Hv Hf]. split; [by apply Hf|done]. }
  eapply triple_bind with (R := fun _ => linked); [eapply triple_looking; [apply looks_matches|auto..]| |auto]. intros b1.
  eapply triple_bind with (R := fun _ => linked); [destruct b1; [eapply triple_looking; [apply looks_matches|auto..]|by apply triple_ret]| |auto]. intros b2.
  eapply triple_bind with (R := fun _ => linked); [destruct b2; [eapply triple_looking; [apply looks_matches|auto..]|by apply triple_ret]| |auto]. intros b3.
  destruct b3; cbn [negb]; [|apply triple_err; auto].
  eapply triple_bind with (R := fun r v => match r with Ok true => swapped n c v | _ => either v end); [| |by intros e v Hv].
  { apply triple_succeeds. eapply triple_weaken; [apply (rename_candidate_spec n c)|done|]. intros [] v Hv; cbn; [done|by left]. }
  intros [|]; cbn [negb]; [|by apply triple_err].
  eapply triple_bind with (R := fun _ => swapped n c); [| |intros e v [Hv _]; right; eauto].
  { apply triple_succeeds. eapply triple_looking; [apply looks_sync|auto..]. }
  intros [|]; [by apply triple_ret|].
  eapply triple_bind with (R := fun _ => either); [| |auto]; [|intros ?; by apply triple_err].
  apply triple_failing. eapply triple_weaken; [apply (restore_platform_spec n c)|done|]. intros [] v Hv; cbn; [by left|done].
Qed.
(** ** The transaction *)
(** A look that is or is not taken. *)
Lemma triple_look {E E' A} (P : view_type -> Prop) (b : bool) (c : st_res FileSystem E A) phi
    (Q : result E' bool -> view_type -> Prop) : looks c phi ->
  (forall r v, P v -> (r = true -> exists a, phi a v) -> Q (Ok r) v) ->
  triple P (if b then succeeds c else st_ret false) Q.
Proof.
  intros Hc HQ. destruct b; [|apply triple_ret; intros v Hv; by apply HQ].
  apply triple_succeeds. eapply triple_looking; [exact Hc| |]; cbn.
  - intros a' v Hv Ha. apply HQ; [done|]. intros _. by exists a'.
  - intros e v Hv. by apply HQ.
Qed.

(** Looks that keep an assertion, and what the last of them says. *)
Lemma triple_looks {E E' A B'} (P : view_type -> Prop) (b : bool) (c : st_res FileSystem E A) phi
    (k : bool -> st_res FileSystem E' B') Q : looks c phi ->
  (forall r, triple (fun v => P v /\ (r = true -> exists a, phi a v)) (k r) Q) ->
  triple P (let! r := (if b then succeeds c else st_ret false) in k r) Q.
Proof.
  intros Hc Hk. eapply triple_bind with (R := fun r v => match r with Ok r => P v /\ (r = true -> exists a, phi a v) | Err _ => False end);
    [eapply triple_look; [exact Hc|]; by intros r v Hv Hr|exact Hk|done].
Qed.

(** The outcome of [begin]: the new executable with the old one as backup, or
    the old one; only [RecoveryRequired] leaves it open. *)
Definition begun (n : Z) (c : list Z) (r : result UpdateError InstallTransaction) (v : view_type) : Prop :=
  match r with
  | Ok t => swapped n c v /\ t = mkInstallTransaction T B n n o o
  | Err RecoveryRequired => either v
  | Err _ => at_old v
  end.

Lemma begun_unless n c error v : either v -> at_old v \/ error = RecoveryRequired -> begun n c (Err error) v.
Proof. intros He [Ho| ->]; [|done]. by destruct error; cbn; try done. Qed.

Lemma either_at_old v : either v -> names_of v !! T = Some o -> at_old v.
Proof. intros [Hv|(n & c & Hv & _)] Ht; [done|by split]. Qed.

Lemma begin_steps_spec n c : triple (staged n c) (begin_steps (mkPreparedInstall C n n T o B)) (begun n c).
Proof using C_T C_B old_file.
  assert (Hst : forall v, staged n c v -> either v) by (intros v [[Hv _] _]; by left).
  unfold begin_steps. cbn [pi_candidate pi_candidate_file pi_candidate_identity pi_target pi_target_identity pi_backup].
  apply (triple_looks _ true _ _ _ _ (looks_verify_handle _ _)). intros b1.
  apply (triple_looks _ b1 _ _ _ _ (looks_verify_path _ _)). intros b2. destruct b2; cbn [negb].
  2: { apply (triple_looks _ true _ _ _ _ (looks_verify_path _ _)). intros b. apply triple_err. intros v [[[Hv _] _] _].
       destruct b; (apply begun_unless; [by auto|]); [left; by destruct Hv as [[? _] _]|by right]. }
  apply (triple_looks _ true _ _ _ _ (looks_verify_path _ _)). intros b. destruct b; cbn [negb].
  2: { apply triple_err. intros v [[[Hv _] _] _]. by apply Hst. }
  eapply triple_bind with (R := fun r v => match r with Ok (Ok _) => swapped n c v | Ok (Err _) => either v | Err _ => False end); [| |done].
  { apply triple_attempted. eapply triple_weaken; [apply (atomic_replace_spec n c)|by intros v [[[? _] _] _]|]. by intros [] v. }
  intros [u|error].
  2: { apply (triple_looks _ true _ _ _ _ (looks_verify_path _ _)). intros b. apply triple_err. intros v [Hv Hb].
       destruct b; (apply begun_unless; [done|]); [left; destruct Hb as [_ Hb]; [done|by apply either_at_old]|by right]. }
  assert (Hsw : forall v, swapped n c v -> either v) by (intros v [Hv _]; right; eauto).
  apply (triple_looks _ true _ _ _ _ (looks_verify_handle _ _)). intros b3.
  apply (triple_looks _ b3 _ _ _ _ (looks_verify_path _ _)). intros b4. destruct b4; cbn [negb].
  2: { apply triple_err. intros v [[Hv _] _]. by apply Hsw. }
  eapply triple_bind with (R := fun r v => swapped n c v /\ match r with Ok file => file = o | Err e => e = RecoveryRequired end);
    [| |by intros e v [Hv ->]; apply Hsw].
  { apply triple_failing. eapply triple_looking; [apply looks_failing, looks_open| |].
    - intros file v [[Hv _] _] Hf. split; [done|]. destruct Hv as (_ & Hb & _). cbn. congruence.
    - intros e v [[Hv _] _]. by split. }
  intros file. eapply triple_weaken with (P' := fun v => file = o /\ swapped n c v); [apply triple_pre; intros ->| |by intros r v H; exact H].
  2: { by intros v [Hv Hf]. }
  apply (triple_looks _ true _ _ _ _ (looks_verify_handle _ _)). intros b5.
  apply (triple_looks _ b5 _ _ _ _ (looks_verify_path _ _)). intros b6. destruct b6; cbn [negb].
  - apply triple_ret. by intros v [[Hv _] _].
  - apply triple_err. intros v [[Hv _] _]. by apply Hsw.
Qed.

Lemma swapped_remove_C n c v : swapped n c v -> swapped n c (changed (delete C (names_of v)) (nodes_of v) v).
Proof using C_T C_B.
  intros (Hv & Hb & Hn). split; [apply remove_new; auto|]. split; [|done].
  change (delete C (names_of v) !! B = Some o). by rewrite lookup_delete_ne.
Qed.

Lemma begun_remove_C n c r v : begun n c r v -> begun n c r (changed (delete C (names_of v)) (nodes_of v) v).
Proof using C_T C_B old_file.
  destruct r as [t|e]; cbn; [intros [Hv ->]; by split; [apply swapped_remove_C|]|].
  assert (Hold : at_old v -> at_old (changed (delete C (names_of v)) (nodes_of v) v)) by (intros; apply remove_old; auto).
  destruct e; auto. intros [Hv|(m & d & Hv)]; [by left; auto|]. right. exists m, d. apply remove_new; auto.
Qed.

Lemma begin_spec n c : triple (staged n c) (begin (mkPreparedInstall C n n T o B)) (begun n c).
Proof using C_T C_B old_file.
  eapply triple_bind with (R := fun r v => match r with Ok r => begun n c r v | Err _ => False end); [| |done].
  { apply triple_attempted. apply begin_steps_spec. }
  intros r. eapply triple_bind with (R := fun r' v => begun n c r v /\ is_ok r' = true); [| |by intros e v [_ ?]].
  { eapply triple_bind with (R := fun r' v => begun n c r v /\ is_ok r' = true); [| |by intros e v [_ ?]].
    - apply triple_attempted, triple_remove; [by intros|]. intros v Hv. split; [by apply begun_remove_C|done].
    - intros ?. apply triple_ret. by intros v [Hv _]. }
  intros ?. apply triple_lift. by intros v [Hv _].
Qed.

Lemma unchanged_spec {E} n c : triple (swapped n c) (paths_are_unchanged (E := E) (mkInstallTransaction T B n n o o))
  (fun r v => swapped n c v /\ is_ok r = true).
Proof.
  unfold paths_are_unchanged. cbn [it_installed_file it_installed_identity it_target it_backup it_backup_file it_previous_identity].
  apply (triple_looks _ true _ _ _ _ (looks_verify_handle _ _)). intros b1.
  apply (triple_looks _ b1 _ _ _ _ (looks_verify_path _ _)). intros b2.
  apply (triple_looks _ b2 _ _ _ _ (looks_verify_handle _ _)). intros b3.
  eapply (triple_look _ b3); [apply looks_verify_path|]. by intros r v [[[Hv _] _] _] _.
Qed.

(** A commit keeps the new executable; its only error is [RecoveryRequired]. *)
Lemma commit_spec n c : triple (swapped n c) (commit (mkInstallTransaction T B n n o o))
  (fun r v => at_new n c v /\ (r = Ok tt \/ r = Err RecoveryRequired)).
Proof using C_T.
  eapply triple_bind; [apply unchanged_spec| |by intros e v [_ ?]]. intros b. destruct b; cbn [negb].
  - eapply triple_weaken with (P' := at_new n c); [apply (removes_new n c B); [by left|]|by intros v [[Hv _] _]|intros r v H; exact H].
    intros v Hv. by split; [|left].
  - apply triple_err. intros v [[Hv _] _]. auto.
Qed.

Lemma rollback_spec n c : triple (swapped n c) (rollback (mkInstallTransaction T B n n o o))
  (fun r v => match r with Ok _ | Err RollbackDurabilityFailed => at_old v | Err _ => either v end).
Proof using C_T C_B old_file.
  assert (Hsw : forall v, swapped n c v -> either v) by (intros v [Hv _]; right; eauto).
  eapply triple_bind; [apply unchanged_spec| |by intros e v [_ ?]]. intros b. destruct b; cbn [negb].
  2: { apply triple_err. intros v [Hv _]. by apply Hsw. }
  eapply triple_bind with (R := fun r v => match r with Ok (Ok _) => at_old v | Ok (Err _) => either v | Err _ => False end); [| |done].
  { apply triple_attempted. eapply triple_weaken; [apply (restore_previous_spec n c)|by intros v [? _]|]. by intros [] v. }
  intros [u|error]; [apply removes_old; auto|].
  apply (triple_looks _ true _ _ _ _ (looks_verify_path _ _)). intros b.
  destruct b; [|apply triple_err; by intros v [Hv _]].
  eapply triple_weaken with (P' := at_old); [| |by intros r v H; exact H].
  - eapply triple_bind with (R := fun r v => match r with Ok _ => at_old v | Err _ => False end); [by apply removes_old; auto| |done].
    intros ?. by apply triple_err.
  - intros v [Hv Hb]. destruct Hb as [_ Hb]; [done|]. by apply either_at_old.
Qed.

Lemma drop_transaction_spec n c : triple (swapped n c) (drop_transaction (mkInstallTransaction T B n n o o)) (fun _ => either).
Proof using C_T C_B old_file.
  assert (Hsw : forall v, swapped n c v -> either v) by (intros v [Hv _]; right; eauto).
  eapply triple_bind; [apply unchanged_spec| |by intros e v [_ ?]]. intros b. destruct b; cbn [negb].
  2: { apply triple_ret. intros v [Hv _]. by apply Hsw. }
  eapply triple_bind with (R := fun r v => match r with Ok true => at_old v | Ok false => either v | Err _ => False end); [| |done].
  { apply triple_succeeds. eapply triple_weaken; [apply (restore_previous_spec n c)|by intros v [? _]|]. by intros [] v. }
  intros [|].
  - eapply triple_bind with (R := fun r v => match r with Ok _ => at_old v | Err _ => False end); [by apply triple_ret| |done].
    intros [|]; [apply removes_old; [by left|]; by (intros v Hv; left)|apply triple_ret; by (intros v Hv; left)].
  - apply (triple_looks _ true _ _ _ _ (looks_verify_path _ _)). intros b. destruct b; [|apply triple_ret; by intros v [Hv _]].
    eapply triple_weaken with (P' := at_old) (Q' := fun _ => either); [apply removes_old; [by left|]; by (intros v Hv; left)| |by intros r v H; exact H].
    intros v [Hv Hb]. destruct Hb as [_ Hb]; [done|]. by apply either_at_old.
Qed.

(** ** Staging *)
Lemma append_keeps n c bytes v : staging n c v ->
  staging n (c ++ bytes) (changed (names_of v) (<[n := Regular (c ++ bytes)]> (nodes_of v)) v).
Proof using old_file.
  intros ([Hinv Ht] & Hcn & Hnode & Hn). destruct Hinv as [H1 H2 H3].
  assert (Hframe : forall i node, nodes0 !! i = Some node -> (<[n := Regular (c ++ bytes)]> (nodes_of v) : gmap Z Node) !! i = Some node).
  { intros i node Hi. rewrite lookup_insert_ne by congruence. by apply H2. }
  split; [split; [split|done]|split; [done|split; [apply lookup_insert_eq|done]]]; [done|exact Hframe|].
  apply list.Forall_app. split; [done|]. apply list.Forall_singleton. exists o, old. cbn. split; [done|].
  split; [by apply Hframe|by left].
Qed.

Lemma create_keeps n v : at_old v -> names_of v !! C = None -> nodes_of v !! n = None ->
  staging n [] (changed (<[C := n]> (names_of v)) (<[n := Regular []]> (nodes_of v)) v).
Proof using C_T old_file.
  intros [Hinv Ht] Hfree Hn. destruct Hinv as [H1 H2 H3].
  assert (Hn0 : nodes0 !! n = None) by (destruct (nodes0 !! n) as [node|] eqn:E; [apply H2 in E; congruence|done]).
  assert (Hframe : forall i node, nodes0 !! i = Some node -> (<[n := Regular []]> (nodes_of v) : gmap Z Node) !! i = Some node).
  { intros i node Hi. rewrite lookup_insert_ne by congruence. by apply H2. }
  assert (Hlook : (<[C := n]> (names_of v) : gmap string Z) !! T = Some o) by (by rewrite lookup_insert_ne).
  split; [split; [split|exact Hlook]|split; [apply lookup_insert_eq|split; [apply lookup_insert_eq|done]]]; [|exact Hframe|].
  - intros m Hm1 Hm2 Hm3. change ((<[C := n]> (names_of v) : gmap string Z) !! m = names0 !! m).
    rewrite lookup_insert_ne by done. by apply H1.
  - apply list.Forall_app. split; [done|]. apply list.Forall_singleton. exists o, old. split; [exact Hlook|].
    split; [by apply Hframe|by left].
Qed.

(** The executable's entry of an archive. *)
Definition entry_holds (entries : list (option ArchiveEntry)) (c : list Z) : Prop :=
  exists e, Some e ∈ entries /\ en_path e = Some (str_bytes (ad_executable artifact)) /\ en_is_file e = true /\
    en_data e = Some c /\ en_size e = zlen c /\ 0 < zlen c <= MAX_UPDATE_ARTIFACT_BYTES.

Lemma taken_all limit data size : zlen (taken limit data) = size -> size < limit -> taken limit data = data.
Proof.
  unfold taken, zlen. destruct (Z.leb_spec (Z.of_nat (length data)) limit) as [|H]; [done|]. rewrite length_take. lia.
Qed.

(** Nothing is written before the executable is found, and then it is there. *)
Definition extracting (all : list (option ArchiveEntry)) (n : Z) (found : bool) (v : view_type) : Prop :=
  exists c, staging n c v /\ if found then entry_holds all c else c = [].

Lemma extract_entry_spec all n found documents entry : entry ∈ all ->
  triple (extracting all n found) (extract_entry (ad_executable artifact) n (found, documents) entry)
    (fun r v => match r with Ok state => extracting all n state.1 v | Err _ => at_old v end).
Proof using old_file.
  intros Hin. assert (Hold : forall v, extracting all n found v -> at_old v) by (by intros v (c & [Hv _] & _)).
  unfold extract_entry. apply triple_lift_bind; [|auto]. intros e He. destruct entry as [e'|]; [|done]. injection He as ->.
  apply triple_lift_bind; [|auto]. intros path Hpath. destruct (en_path e) as [path'|] eqn:Ep; [|done]. injection Hpath as ->.
  case_bool_decide as Hexe; cbn [negb].
  2: { destruct (_ || _); [by apply triple_err|]. destruct (_ || _); [by apply triple_err|]. by apply triple_ret. }
  destruct (found || _ || _ || _) eqn:Eg; [by apply triple_err|].
  rewrite !orb_false_iff, negb_false_iff, Z.eqb_neq, Z.ltb_ge in Eg. destruct Eg as [[[-> Hfile] Hne] Hmax].
  apply triple_lift_bind; [|auto]. intros data Hdata. destruct (en_data e) as [data'|] eqn:Ed; [|done]. injection Hdata as ->.
  set (copied := taken (MAX_UPDATE_ARTIFACT_BYTES + 1) data).
  eapply triple_bind with (R := fun r v => match r with Ok _ => staging n copied v | Err _ => at_old v end); [| |auto].
  { apply triple_failing, triple_append; [cbn; auto|]. intros v content (c & Hv & ->) Hc. cbn.
    assert (content = []) as -> by (destruct Hv as (_ & _ & Hnode & _); congruence). by apply (append_keeps n []). }
  intros ?. destruct (Z.eqb_spec (zlen copied) (en_size e)) as [Hsize|]; cbn [negb]; [|apply triple_err; by intros v [Hv _]].
  apply triple_ret. intros v Hv. exists copied. split; [done|]. exists e.
  assert (copied = data) as Hcopied by (unfold copied; eapply taken_all; [exact Hsize|lia]).
  split_and!; try congruence; unfold zlen in *; lia.
Qed.

Lemma extract_entries_spec all n entries : forall found documents, (forall e, e ∈ entries -> e ∈ all) ->
  triple (extracting all n found) (extract_entries (ad_executable artifact) n entries (found, documents))
    (fun r v => match r with Ok state => extracting all n state.1 v | Err _ => at_old v end).
Proof using old_file.
  induction entries as [|e entries IH]; intros found documents Hall; cbn [extract_entries]; [by apply triple_ret|].
  eapply triple_bind; [apply (extract_entry_spec all); apply Hall; by left| |auto].
  intros [found' documents']. cbn. apply IH. intros e' He'. apply Hall. by right.
Qed.

(** The archive is the one the artifact describes. *)
Definition authentic (content : list Z) : Prop :=
  zlen content = ad_size artifact /\ hex_display (sha256_digest (bytes_str content)) = ad_sha256 artifact.

Lemma looks_call {E} (e : E) : looks (failing e system_call) (fun _ _ => True).
Proof. apply looks_failing, looks_system_call. Qed.

Lemma looks_verify_artifact file :
  looks (verify_artifact_file file artifact) (fun _ v => exists content, nodes_of v !! file = Some (Regular content) /\ authentic content).
Proof.
  eapply looks_bind; [apply looks_failing, looks_file_metadata|]. intros [i [content| |]]; cbn; try apply looks_err.
  destruct (Z.eqb_spec (zlen content) (ad_size artifact)) as [Hsize|]; cbn; [|apply looks_err].
  do 3 (eapply looks_bind; [apply looks_call|]; intros ?). case_bool_decide; cbn; [|apply looks_err].
  apply looks_ret. intros v _ _ _ [_ Hn]. by exists content.
Qed.

Lemma looks_content file : looks (file_content file) (fun content v => nodes_of v !! file = Some (Regular content)).
Proof.
  intros f. unfold file_content, st_bind, st_get. destruct (fs_nodes f !! file) as [[content| |]|] eqn:E; split; try done.
  by intros ? [= <-].
Qed.

Lemma extract_spec n : authentic ac -> triple (staging n []) (extract_executable a artifact n)
  (fun r v => match r with Ok _ => exists c, staged n c v | Err _ => at_old v end).
Proof using old_file archive_file.
  intros Hauth. assert (Hold : forall v, staging n [] v -> at_old v) by (by intros v [Hv _]). unfold extract_executable.
  do 2 (eapply triple_bind with (R := fun _ => staging n []); [eapply triple_looking; [apply looks_call|auto..]|intros ?|auto]).
  eapply triple_bind with (R := fun r v => staging n [] v /\ match r with Ok content => content = ac | Err _ => True end);
    [| |intros e v [Hv _]; auto].
  { eapply triple_looking; [apply looks_failing, looks_content| |]; [|by intros e v Hv].
    intros content v Hv Hc. split; [done|]. destruct Hv as ([Hinv _] & _). apply (inv_nodes v Hinv) in archive_file. congruence. }
  intros content. eapply triple_weaken with (P' := fun v => content = ac /\ staging n [] v);
    [apply triple_pre; intros ->|by intros v [Hv Hc]|by intros r v H; exact H].
  apply triple_lift_bind; [|auto]. intros entries He. destruct (tar_entries ac) as [entries'|] eqn:Et; [|done]. injection He as ->.
  eapply triple_bind with (R := fun r v => match r with Ok state => extracting entries n state.1 v | Err _ => at_old v end); [| |auto].
  { eapply triple_weaken; [apply (extract_entries_spec entries n entries false); auto| |by intros r v H; exact H].
    intros v Hv. by exists []. }
  intros [found documents]. cbn. destruct found; cbn; [|apply triple_err; by intros v (c & [Hv _] & _)].
  apply triple_ret. intros v (c & Hv & e & He). exists c. split; [done|]. exists ac, entries, e. destruct Hauth. by split_and!; try apply He.
Qed.

Lemma stage_spec n : authentic ac -> triple (staging n []) (stage a artifact T C o n)
  (fun r v => match r with Ok p => exists c, staged n c v /\ p = mkPreparedInstall C n n T o B | Err _ => at_old v end).
Proof using old_file archive_file.
  intros Hauth. set (st := fun v => exists c, staged n c v).
  assert (Hold : forall v, st v -> at_old v) by (by intros v (c & [Hv _] & _)). unfold stage.
  eapply triple_bind; [by apply extract_spec| |auto]. intros ?. change (fun v => exists c, staged n c v) with st.
  do 3 (eapply triple_bind with (R := fun _ => st); [eapply triple_looking; [apply looks_call|auto..]|intros ?|auto]).
  eapply triple_bind with (R := fun r v => st v /\ match r with Ok i => i = n | Err _ => True end); [| |intros e v [Hv _]; auto].
  { eapply triple_looking; [apply looks_handle_identity|by intros i v Hv ->|by intros e v Hv]. }
  intros i. eapply triple_weaken with (P' := fun v => i = n /\ st v);
    [apply triple_pre; intros ->|by intros v [Hv Hc]|by intros r v H; exact H].
  eapply triple_bind with (R := fun r v => st v /\ match r with Ok i => i = n | Err _ => True end); [| |intros e v [Hv _]; auto].
  { eapply triple_looking; [apply looks_failing, looks_open| |by intros e v Hv].
    intros i v Hv Hi. split; [done|]. destruct Hv as (c & (_ & Hcn & _) & _). congruence. }
  intros i. eapply triple_weaken with (P' := fun v => i = n /\ st v);
    [apply triple_pre; intros ->|by intros v [Hv Hc]|by intros r v H; exact H].
  eapply triple_bind with (R := fun _ => st); [eapply triple_looking; [apply looks_verify_handle|auto..]|intros ?|auto].
  apply triple_ret. intros v (c & Hv). by exists c.
Qed.

Lemma prepare_spec current suffix : C = CANDIDATE_PREFIX +:+ suffix ->
  triple at_old (prepare_install_file current suffix a artifact T)
    (fun r v => match r with
     | Ok p => exists n c, staged n c v /\ p = mkPreparedInstall C n n T o B
     | Err _ => at_old v end).
Proof using C_T old_file archive_file.
  intros HCdef. unfold prepare_install_file. rewrite <- HCdef.
  eapply triple_bind with (R := fun r v => at_old v /\ match r with Ok _ => authentic ac | Err _ => True end); [| |by intros e v [Hv _]].
  { eapply triple_looking; [apply looks_verify_artifact| |by intros e v Hv]. intros u v Hv (content & Hn & Hauth). split; [done|].
    destruct Hv as [Hinv _]. apply (inv_nodes v Hinv) in archive_file. congruence. }
  intros ?. eapply triple_weaken with (P' := fun v => authentic ac /\ at_old v);
    [apply triple_pre; intros Hauth|by intros v [Hv Hc]|by intros r v H; exact H].
  destruct (_ || _); [by apply triple_err|].
  eapply triple_bind with (R := fun r v => at_old v /\ match r with Ok i => i = o | Err _ => True end); [| |by intros e v [Hv _]].
  { eapply triple_looking; [apply looks_path_identity| |by intros e v Hv]. intros i v [Hinv Ht] Hi. split; [done|]. congruence. }
  intros i. eapply triple_weaken with (P' := fun v => i = o /\ at_old v);
    [apply triple_pre; intros ->|by intros v [Hv Hc]|by intros r v H; exact H].
  eapply triple_bind with (R := fun _ => at_old); [| |auto].
  { eapply triple_bind with (R := fun _ => at_old); [eapply triple_looking; [apply looks_call|auto..]|intros ?|auto].
    intros f Hf. unfold st_bind, st_get. by destruct (safe_directory (fs_parent f)). }
  intros ?. eapply triple_bind with (R := fun r v => match r with Ok n => staging n [] v | Err _ => at_old v end); [| |auto].
  { apply triple_failing, triple_create; [auto|]. intros v n Hv Hfree Hn. by apply create_keeps. }
  intros n. eapply triple_bind with (R := fun r v => match r with
    | Ok (Ok p) => exists c, staged n c v /\ p = mkPreparedInstall C n n T o B | Ok (Err _) => at_old v | Err _ => False end); [| |done].
  { apply triple_attempted. eapply triple_weaken; [by apply stage_spec|done|]. by intros [] v. }
  intros [p|e]; [apply triple_ret; intros v (c & Hv & ->); by exists n, c|].
  eapply triple_bind with (R := fun r v => match r with Ok _ => at_old v | Err _ => False end);
    [by apply removes_old; auto|intros ?; by apply triple_err|done].
Qed.

(** ** The installation *)
Definition installed_as (lifecycle : UpdateLifecycle) (r : result InstallFailure InstallOutcome) (v : view_type) : Prop :=
  match r with
  | Ok Installed => exists n c, at_new n c v
  | Ok _ => at_old v
  | Err failure =>
      either v /\ (failure = InstallFailed -> lc_disarm lifecycle = true ->
                   lc_verify_installed lifecycle <> Err SafeToRollback -> at_old v)
  end.

Lemma failed_old lifecycle failure v : at_old v -> installed_as lifecycle (Err failure) v.
Proof. intros Hv. split; [by left|done]. Qed.

(** The answers of the service change nothing. *)
Lemma triple_answer {A} (P : view_type -> Prop) (b : bool) failure (k : st_res FileSystem InstallFailure A) Q :
  triple P k Q -> (b = false -> forall v, P v -> Q (Err failure) v) ->
  triple P (do! (if b then st_ret tt else st_err failure); k) Q.
Proof. intros Hk He f HP. unfold st_bind. destruct b; [by apply Hk|by apply He]. Qed.

Lemma finish_spec lifecycle n c : triple (swapped n c) (finish_install lifecycle (mkInstallTransaction T B n n o o)) (installed_as lifecycle).
Proof using C_T C_B old_file.
  assert (Hsw : forall v, swapped n c v -> either v) by (intros v [Hv _]; right; eauto). unfold finish_install.
  destruct (lc_verify_installed lifecycle) as [u|[|]] eqn:Ev.
  - eapply triple_bind with (R := fun r v => match r with Ok r => at_new n c v /\ (r = Ok tt \/ r = Err RecoveryRequired) | Err _ => False end);
      [apply triple_attempted, commit_spec| |done].
    intros r. apply triple_answer; [|intros Hd v [Hv _]; split; [right; eauto|congruence]].
    destruct r as [[]|[]]; try (apply triple_err; intros v [_ [?|?]]; done).
    + apply triple_ret. intros v [Hv _]. by exists n, c.
    + apply triple_err. intros v [Hv _]. split; [right; eauto|done].
  - eapply triple_bind with (R := fun r v => match r with Ok _ => swapped n c v | Err _ => False end);
      [by apply triple_failing, triple_ret| |done].
    intros ?. apply triple_answer; [apply triple_err|intros Hd]; intros v Hv; (split; [auto|congruence]).
  - eapply triple_bind with (R := fun r v => match r with
      | Ok (Ok _) | Ok (Err RollbackDurabilityFailed) => at_old v | Ok (Err _) => either v | Err _ => False end); [| |done].
    { apply triple_attempted. eapply triple_weaken; [apply (rollback_spec n c)|done|]. by intros [|[]] v. }
    assert (Hfail : forall failure v, either v -> installed_as lifecycle (Err failure) v) by (intros; split; [done|congruence]).
    intros [u|e].
    + do 2 (apply triple_answer; [|intros; by apply Hfail; left]). apply triple_ret. by intros v Hv.
    + destruct e; try (apply triple_answer; [apply triple_err|intros _]; intros v Hv; by apply Hfail).
      do 2 (apply triple_answer; [|intros; by apply Hfail; left]). apply triple_err. intros v Hv. apply Hfail. by left.
Qed.

Lemma install_spec current suffix lifecycle : C = CANDIDATE_PREFIX +:+ suffix ->
  triple at_old (install_verified current suffix a artifact T lifecycle) (installed_as lifecycle).
Proof using C_T C_B old_file archive_file.
  intros HC'. unfold install_verified.
  eapply triple_bind with (R := fun _ => at_old);
    [apply triple_failing; eapply triple_looking; [apply looks_verify_artifact|auto..]| |intros; by apply failed_old].
  intros ?. eapply triple_bind with (R := fun r v => match r with
    | Ok p => exists n c, staged n c v /\ p = mkPreparedInstall C n n T o B | Err _ => at_old v end);
    [apply triple_failing; eapply triple_weaken; [by apply prepare_spec|done|by intros [] v]| |intros; by apply failed_old].
  intros p. apply triple_exists. intros n. apply triple_exists. intros c.
  eapply triple_weaken with (P' := fun v => p = mkPreparedInstall C n n T o B /\ staged n c v);
    [apply triple_pre; intros ->|by intros v []|by intros r v H; exact H].
  assert (Hold : forall v, staged n c v -> at_old v) by (by intros v [[Hv _] _]).
  destruct (lc_prepare lifecycle) as [[|count]|]; cbn [pi_candidate].
  - eapply triple_bind with (R := fun r v => match r with Ok r => begun n c r v | Err _ => False end);
      [apply triple_attempted, begin_spec| |done].
    intros [t|e]; [intros f [Hv ->]; by apply (finish_spec lifecycle n c f)|].
    destruct e; try (do 2 (apply triple_answer; [|intros; by apply failed_old]); apply triple_err; intros v Hv; by apply failed_old).
    apply triple_answer; [apply triple_err; intros v Hv; split; [done|done]|]. intros Hd v Hv. split; [done|congruence].
  - eapply triple_weaken with (P' := at_old) (Q' := installed_as lifecycle); [|done|done].
    eapply triple_bind with (R := fun r v => match r with Ok _ => at_old v | Err _ => False end); [by apply removes_old; auto| |done].
    intros ?. apply triple_answer; [by apply triple_ret|]. intros; by apply failed_old.
  - eapply triple_weaken with (P' := at_old) (Q' := installed_as lifecycle); [|done|done].
    eapply triple_bind with (R := fun r v => match r with Ok _ => at_old v | Err _ => False end); [by apply removes_old; auto| |done].
    intros ?. apply triple_err. intros; by apply failed_old.
Qed.
End Safety.

(** C31: an update never loses the executable.  Whatever calls of the file system
    fail, in every state the directory goes through the name of the executable
    leads to the previous executable or to the file the archive with the
    manifest's size and digest holds under that name; no other file and no other
    name is touched.  After [Installed] it is the new one, after [RolledBack] or
    with requests still active the previous one; [InstallFailed] means the
    previous one unless a rollback was needed or the recovery could not be
    disarmed. *)
Theorem update_keeps_executable `{ArchiveCrate, CryptoCrate} current suffix archive artifact target lifecycle f o old ac :
  fs_names f !! target = Some o -> fs_nodes f !! o = Some (Regular old) ->
  fs_nodes f !! archive = Some (Regular ac) -> fs_seen f = [] ->
  CANDIDATE_PREFIX +:+ suffix <> target -> CANDIDATE_PREFIX +:+ suffix <> backup_path target ->
  let '(f', r) := install_verified current suffix archive artifact target lifecycle f in
  Forall (good artifact target old) (fs_seen f') /\
  (forall name, name ∉ [target; backup_path target; CANDIDATE_PREFIX +:+ suffix] -> fs_names f' !! name = fs_names f !! name) /\
  (forall inode node, fs_nodes f !! inode = Some node -> fs_nodes f' !! inode = Some node) /\
  match r with
  | Ok Installed => exists n content, fs_names f' !! target = Some n /\ fs_nodes f' !! n = Some (Regular content) /\
      extracted artifact content
  | Ok _ => fs_names f' !! target = Some o
  | Err failure => good artifact target old (fs_names f', fs_nodes f') /\
      (failure = InstallFailed -> lc_disarm lifecycle = true ->
       lc_verify_installed lifecycle <> Err SafeToRollback -> fs_names f' !! target = Some o)
  end.
Proof.
  intros Ht Ho Ha Hs HCT HCB. set (c := CANDIDATE_PREFIX +:+ suffix) in *.
  pose proof (install_spec artifact target c o archive old ac (fs_names f) (fs_nodes f) HCT HCB Ho Ha current suffix lifecycle eq_refl f) as Hspec.
  destruct (install_verified current suffix archive artifact target lifecycle f) as [f' r]. cbn [fst snd] in Hspec.
  assert (Hstart : at_old artifact target c o old (fs_names f) (fs_nodes f) (view f)).
  { split; [split; [done|done|]|done]. cbn. rewrite Hs. constructor. }
  specialize (Hspec Hstart).
  assert (Hinv : inv artifact target c old (fs_names f) (fs_nodes f) (view f')).
  { destruct r as [[| |]|]; cbn in Hspec; [by destruct Hspec as (? & ? & ? & _)|by destruct Hspec..|].
    destruct Hspec as [[[]|(? & ? & [])] _]; done. }
  destruct Hinv as [H1 H2 H3]. split_and!; [exact H3|intros name Hname; apply H1; set_solver|exact H2|].
  destruct r as [[| |]|failure]; cbn in Hspec; [destruct Hspec as (n & d & _ & ? & ? & ?); eauto|by destruct Hspec..|].
  destruct Hspec as [He Hf]. split; [|intros; by apply Hf].
  destruct He as [Hv|(n & d & Hv)]; [by eapply (good_old artifact target c o old (fs_names f) (fs_nodes f)) in Hv|by eapply good_new in Hv].
Qed.

(** ** The manifest *)
(** An artifact of the manifest is the one the release of that version has for a target. *)
Record conforms (version : string) (d : ArtifactDocument) (c : TargetContract) : Prop := {
  conforms_target : ad_target d = tg_target c;
  conforms_file : ad_file d = expected_file c version;
  conforms_executable : ad_executable d = tg_executable c;
  conforms_size : ad_size d <> 0 /\ ad_size d <= MAX_UPDATE_ARTIFACT_BYTES;
  conforms_sha256 : is_lower_hex_sha256 (ad_sha256 d) = true;
  conforms_url : ad_url d = expected_url c version
}.

Lemma validate_artifact_Ok d c version d' : validate_artifact d c version = Ok d' <-> d' = d /\ conforms version d c.
Proof.
  unfold validate_artifact. destruct (_ || _) eqn:E.
  - split; [done|]. intros [_ [H1 H2 H3 [H4 H4'] H5 H6]].
    rewrite !bool_decide_eq_true_2, H5 in E by done. rewrite (proj2 (Z.eqb_neq _ _)), (proj2 (Z.ltb_ge _ _)) in E by done. done.
  - rewrite !orb_false_iff, !negb_false_iff, !bool_decide_eq_true, Z.eqb_neq, Z.ltb_ge in E.
    split; [intros [= <-]; split; [done|]; split; naive_solver|by intros [-> _]].
Qed.

Definition last_match (target : string) (selected : option ArtifactDocument) (pairs : list (ArtifactDocument * TargetContract)) :=
  foldl (fun selected pair => if bool_decide (tg_target pair.2 = target) then Some pair.1 else selected) selected pairs.

Lemma select_artifact_Ok pairs version target selected r :
  select_artifact pairs version target selected = Ok r <->
  Forall (fun pair => conforms version pair.1 pair.2) pairs /\ r = last_match target selected pairs.
Proof.
  revert selected. induction pairs as [|[d c] pairs IH]; intros selected; cbn [select_artifact].
  - split; [intros [= <-]; by split|]. by intros [_ ->].
  - rewrite list.Forall_cons. cbn [fst snd]. split.
    + intros (d' & (-> & Hc)%validate_artifact_Ok & (Hall & ->)%IH)%result_bind_Ok. by split_and!.
    + intros [[Hc Hall] ->]. assert (validate_artifact d c version = Ok d) as -> by (by apply validate_artifact_Ok).
      cbn [result_bind]. by apply IH.
Qed.

Lemma last_match_Some target pairs selected a : NoDup (tg_target <$> pairs.*2) ->
  last_match target selected pairs = Some a <->
  (exists c, (a, c) ∈ pairs /\ tg_target c = target) \/ (selected = Some a /\ target ∉ tg_target <$> pairs.*2).
Proof.
  revert selected. induction pairs as [|[d c] pairs IH]; intros selected Hnd.
  - cbn. split; [right; split; [done|by apply not_elem_of_nil]|intros [(c & Hin & _)|[-> _]]; [by apply elem_of_nil in Hin|done]].
  - change (last_match target selected ((d, c) :: pairs))
      with (last_match target (if bool_decide (tg_target c = target) then Some d else selected) pairs).
    cbn [fmap list_fmap snd] in Hnd. apply list.NoDup_cons in Hnd as [Hnew Hnd]. rewrite IH by done.
    cbn [fmap list_fmap snd]. case_bool_decide as Ht.
    + subst target. split.
      * intros [(c' & Hin & Hc')|[[= <-] _]]; left; [exists c'; split; [by right|done]|exists c; split; [by left|done]].
      * intros [(c' & Hin & Hc')|[_ Hn]]; [|destruct Hn; by left].
        apply elem_of_cons in Hin as [[= -> ->]|Hin]; [by right|]. left. eauto.
    + rewrite not_elem_of_cons. split.
      * intros [(c' & Hin & Hc')|[-> Hn]]; [left; exists c'; split; [by right|done]|right; naive_solver].
      * intros [(c' & Hin & Hc')|[-> [_ Hn]]]; [|by right]. apply elem_of_cons in Hin as [[= -> ->]|Hin]; [done|]. left. eauto.
Qed.

Section Manifest.
Context {V K S : Type} `{HV : SemverCrate V, HM : MinisignCrate K S, HB : Base64Crate, HJ : JsonCrate, HD : DiagnosticJson}.

(** The targets of a manifest's schema. *)
Definition targets_of (document : ManifestDocument) : option (list TargetContract) :=
  if md_schema_version document =? 1 then Some V1_TARGETS
  else if md_schema_version document =? 2 then Some V2_TARGETS else None.

Lemma targets_distinct document targets : targets_of document = Some targets -> NoDup (tg_target <$> targets).
Proof.
  unfold targets_of. repeat case_match; intros [= <-]; apply (bool_decide_unpack _); vm_compute; exact I.
Qed.

(** The manifest is signed by the key, whose identifier is [key_id]. *)
Record signed (manifest signature : list Z) (public_key key_id : string) : Prop := {
  signed_key_size : 0 < zlen (str_bytes public_key) <= MAX_PUBLIC_KEY_BYTES;
  signed_text : utf8_valid (str_bytes public_key) = true /\ utf8_valid signature = true;
  signed_key_id : public_key_id public_key = Ok key_id;
  signed_lines : length (str_lines (bytes_str signature)) = 4%nat;
  signed_verified : exists key signature', public_key_decode public_key = Some key /\
    signature_decode (bytes_str signature) = Some signature' /\ key_verify key manifest signature' = true
}.

Lemma sized_iff (l : list Z) maximum : (is_emptyb l || (maximum <? zlen l)) = false <-> 0 < zlen l <= maximum.
Proof. unfold zlen. destruct l; cbn; rewrite ?orb_false_iff, ?Z.ltb_ge; lia. Qed.

Lemma verify_signature_Ok manifest signature public_key key_id :
  verify_signature manifest signature (str_bytes public_key) = Ok key_id <-> signed manifest signature public_key key_id.
Proof.
  unfold verify_signature. rewrite bytes_str_inv. split.
  - destruct (_ || _) eqn:Es; [done|]. apply sized_iff in Es. destruct (utf8_valid (str_bytes public_key)) eqn:E1; [|done].
    destruct (utf8_valid signature) eqn:E2; [|done]. cbn [negb].
    intros (id & Hid & H)%result_bind_Ok. destruct (Nat.eqb_spec (length (str_lines (bytes_str signature))) 4); [|done].
    cbn [negb] in H. apply result_bind_Ok in H as (key & Hk & (sig & Hsig & H)%result_bind_Ok).
    destruct (public_key_decode public_key) as [key'|] eqn:Ek; [|done]. injection Hk as ->.
    destruct (signature_decode _) as [sig'|] eqn:Eg; [|done]. injection Hsig as ->.
    destruct (key_verify key manifest sig) eqn:Ev; [|done]. injection H as ->. split; eauto.
  - intros [Hsize [Hu1 Hu2] Hid Hl (key & sig & Hk & Hsig & Hv)]. apply sized_iff in Hsize. rewrite Hsize, Hu1, Hu2, Hid, Hl.
    cbn. rewrite Hk, Hsig. cbn. by rewrite Hv.
Qed.

(** What the document must say for a version to be installed over [current]. *)
Record offers (document : ManifestDocument) (key_id : string) (current version : V) (target : string)
    (artifact : ArtifactDocument) : Prop := {
  offers_product : md_product document = "wokcore"%string /\ md_api_major document = 1;
  offers_key : md_signing_key_id document = key_id;
  offers_version : semver_parse (md_version document) = Some version /\ semver_to_string version = md_version document /\
    zlen (str_bytes (md_version document)) <= 128;
  offers_artifacts : exists targets, targets_of document = Some targets /\
    Forall2 (conforms (md_version document)) (md_artifacts document) targets /\
    exists contract, (artifact, contract) ∈ zip (md_artifacts document) targets /\ tg_target contract = target;
  offers_newer : semver_cmp version current = Gt
}.

Lemma Forall2_zip {A B} (P : A -> B -> Prop) l k : length l = length k ->
  Forall2 P l k <-> Forall (fun pair => P pair.1 pair.2) (zip l k).
Proof.
  revert k. induction l as [|a l IH]; intros [|b k] Hl; try done. cbn in *.
  rewrite list.Forall2_cons, list.Forall_cons, IH by lia. done.
Qed.

Lemma validate_document_Available document key_id current target version artifact :
  validate_document document key_id current target = Ok (DecisionAvailable version artifact) <->
  offers document key_id current version target artifact.
Proof.
  assert (Ht : forall targets, (if md_schema_version document =? 1 then Ok V1_TARGETS
      else if md_schema_version document =? 2 then Ok V2_TARGETS else Err InvalidManifest) = Ok targets <->
      targets_of document = Some targets).
  { intros targets. unfold targets_of. repeat case_match; (split; [by intros [= <-]|by intros [= <-]]) || done. }
  unfold validate_document. split.
  - intros (targets & Htg%Ht & H)%result_bind_Ok. destruct (_ || _) eqn:Eg in H; [done|].
    rewrite !orb_false_iff, !negb_false_iff, !bool_decide_eq_true, Z.eqb_eq, Nat.eqb_eq in Eg.
    destruct Eg as [[[Hp Ha] Hk] Hl]. apply result_bind_Ok in H as (v & Hv & H).
    destruct (semver_parse (md_version document)) as [v'|] eqn:Ev; [|done]. injection Hv as ->.
    destruct (_ || _) eqn:Ec in H; [done|]. rewrite orb_false_iff, negb_false_iff, bool_decide_eq_true, Z.ltb_ge in Ec.
    destruct Ec as [Hlen Hcanon]. apply result_bind_Ok in H as (selected & (Hall & ->)%select_artifact_Ok & H).
    apply result_bind_Ok in H as (a & Hsel & H). destruct (last_match target None _) as [a'|] eqn:El; [|done]. injection Hsel as ->.
    destruct (semver_cmp v current) eqn:Ecmp; try done. injection H as -> ->.
    apply last_match_Some in El; [|rewrite snd_zip by lia; by eapply targets_distinct].
    split; [done|done|done| |done]. exists targets. split; [done|]. split; [by apply Forall2_zip|].
    destruct El as [El|[? _]]; [done|done].
  - intros [[Hp Ha] Hk (Hv & Hcanon & Hlen) (targets & Htg & Hall & Hsel) Hcmp].
    rewrite (proj2 (Ht targets) Htg). cbn [result_bind]. pose proof (list.Forall2_length _ _ _ Hall) as Hl.
    rewrite !bool_decide_eq_true_2, Ha, Hl, Nat.eqb_refl, Hv by done. cbn [negb orb Z.eqb ok_or result_bind].
    rewrite (proj2 (Z.ltb_ge _ _)), bool_decide_eq_true_2 by done. cbn [negb orb].
    apply Forall2_zip in Hall; [|done].
    rewrite (proj2 (select_artifact_Ok _ _ _ None (last_match target None (zip (md_artifacts document) targets)))) by done.
    assert (NoDup (tg_target <$> (zip (md_artifacts document) targets).*2)) as Hnd
      by (rewrite snd_zip by lia; by eapply targets_distinct).
    cbn [result_bind]. rewrite (proj2 (last_match_Some target _ None artifact Hnd)) by (left; exact Hsel).
    cbn [ok_or result_bind]. by rewrite Hcmp.
Qed.

(** C36: an update is offered exactly when the manifest is signed by the embedded
    key, is one of the two known schemas for this API, names that key, and
    describes, for every target of its schema in order, the artifact of that
    version's release, with the one for this machine being offered, and the
    version is canonical and newer than the running one. *)
Theorem update_offered_exactly (manifest signature : list Z) (public_key : string) (current version : V) (target : string)
    (artifact : ArtifactDocument) :
  verify_manifest manifest signature public_key current target = Ok (DecisionAvailable version artifact) <->
  0 < zlen manifest <= MAX_UPDATE_MANIFEST_BYTES /\ 0 < zlen signature <= MAX_UPDATE_SIGNATURE_BYTES /\
  exists key_id value document,
    signed manifest signature public_key key_id /\
    from_str manifest = Some value /\
    (exists schema, value_get value "schema_version" ≫= as_u64 = Some schema /\ (schema = 1 \/ schema = 2)) /\
    value_get value "api_major" ≫= as_u64 = Some 1 /\
    parse_manifest_document manifest = Ok document /\
    offers document key_id current version target artifact.
Proof.
  unfold verify_manifest. split.
  - destruct (_ || _) eqn:E1; [done|]. destruct (_ || _) eqn:E2 in |- *; [done|]. apply sized_iff in E1, E2.
    intros (key_id & Hsig%verify_signature_Ok & (value & Hvalue & H)%result_bind_Ok)%result_bind_Ok.
    destruct (from_str manifest) as [value'|]; [|done]. injection Hvalue as ->.
    apply result_bind_Ok in H as (schema & Hs & (api & Ha & H)%result_bind_Ok).
    destruct (value_get value "schema_version" ≫= as_u64) as [schema'|] eqn:Es; [|done]. injection Hs as ->.
    destruct (value_get value "api_major" ≫= as_u64) as [api'|] eqn:Ea; [|done]. injection Ha as ->.
    destruct (negb _ || _) eqn:E in H; [done|]. rewrite orb_false_iff, !negb_false_iff, orb_true_iff, !Z.eqb_eq in E.
    destruct E as [Hschema ->]. apply result_bind_Ok in H as (document & Hd & Hoff%validate_document_Available).
    split_and!; try done; try apply E1; try apply E2. exists key_id, value, document. split_and!; try done. by exists schema.
  - intros (H1 & H2 & key_id & value & document & Hsig & Hvalue & (schema & Hs & Hschema) & Ha & Hd & Hoff).
    apply sized_iff in H1, H2. rewrite H1, H2, (proj2 (verify_signature_Ok _ _ _ _) Hsig). cbn [result_bind]. rewrite Hvalue.
    cbn [ok_or result_bind]. rewrite Hs, Ha. cbn [ok_or result_bind].
    assert ((schema =? 1) || (schema =? 2) = true) as -> by (rewrite orb_true_iff, !Z.eqb_eq; done). cbn [negb orb Z.eqb].
    rewrite Hd. cbn [result_bind]. by apply validate_document_Available.
Qed.
End Manifest.

(** ** Instances for the witnesses
    Toy crates: every signature verifies, versions are ordered as text, every
    archive holds a document and the executable, and every digest is the same. *)
Module UpdateDemo.
#[local] Instance semver : SemverCrate string :=
  {| semver_parse := Some; semver_to_string v := v; semver_cmp := String.compare |}.
#[local] Instance minisign : MinisignCrate unit unit :=
  {| public_key_decode _ := Some tt; signature_decode _ := Some tt; key_verify _ _ _ := true |}.
#[local] Instance base64 : Base64Crate := {| standard_decode _ := Some ([69; 100] ++ replicate 40 1) |}.
#[local] Instance crypto : CryptoCrate :=
  {| sha256_digest _ := replicate 32 7; base64_encode _ := EmptyString; base64_decode _ := None |}.
#[local] Instance archive : ArchiveCrate := fun _ => Some [
  Some (mkArchiveEntry (Some (str_bytes "README.md")) true 10 None);
  Some (mkArchiveEntry (Some (str_bytes "wokcore")) true 2 (Some [9; 9]))].

Definition artifact_for (c : TargetContract) : ArtifactDocument :=
  mkArtifactDocument (tg_target c) (expected_file c "2.0.0") (tg_executable c) 3 (hex_display (replicate 32 7))
    (expected_url c "2.0.0").

Definition artifact_value (d : ArtifactDocument) : Value := VObject [
  ("target"%string, VString (ad_target d)); ("file"%string, VString (ad_file d));
  ("executable"%string, VString (ad_executable d)); ("size"%string, json_uint (ad_size d));
  ("sha256"%string, VString (ad_sha256 d)); ("url"%string, VString (ad_url d))].

Definition manifest_value : Value := VObject [
  ("schema_version"%string, json_uint 2); ("product"%string, VString "wokcore"); ("api_major"%string, json_uint 1);
  ("version"%string, VString "2.0.0"); ("signing_key_id"%string, VString "0101010101010101");
  ("artifacts"%string, VArray (artifact_value <$> (artifact_for <$> V2_TARGETS)))].

#[local] Instance json : JsonCrate := {| from_str _ := Some manifest_value; to_string _ := EmptyString |}.
#[local] Instance document : DiagnosticJson := {| diagnostic_to_vec _ := []; diagnostic_document _ := Some manifest_value |}.

Definition newline : string := String (Ascii.ascii_of_N 10) EmptyString.
Definition public_key : string :=
  "untrusted comment: minisign public key 0101010101010101" +:+ newline +:+ "RWQ" +:+ newline.
Definition signature : list Z := [97; 10; 97; 10; 97; 10; 97; 10].

Definition linux : ArtifactDocument :=
  artifact_for (friendly "x86_64-unknown-linux-gnu" "Linux" "x86_64" "tar.gz" "wokcore").

(** Version 2.0.0 is offered to a machine that runs 1.0.0. *)
Lemma update_offered_exactly_witness :
  verify_manifest (V := string) (K := unit) (S := unit) [123; 125] signature public_key "1.0.0" "x86_64-unknown-linux-gnu"
    = Ok (DecisionAvailable "2.0.0"%string linux) /\
  exists key_id, signed (K := unit) (S := unit) [123; 125] signature public_key key_id.
Proof.
  assert (verify_manifest (V := string) (K := unit) (S := unit) [123; 125] signature public_key "1.0.0" "x86_64-unknown-linux-gnu"
    = Ok (DecisionAvailable "2.0.0"%string linux)) as Hrun by (vm_compute; reflexivity).
  split; [exact Hrun|].
  destruct (proj1 (update_offered_exactly (V := string) (K := unit) (S := unit) [123; 125] signature public_key "1.0.0" "2.0.0"
    "x86_64-unknown-linux-gnu" linux) Hrun) as (_ & _ & key_id & _ & _ & Hsigned & _).
  by exists key_id.
Defined.

(** A directory with the executable, the archive and an old backup; [faults]
    are the calls that fail. *)
Definition directory (faults : list bool) : FileSystem :=
  mkFileSystem {[ "wokcore"%string := 1; "archive.tar.gz"%string := 2; ".wokcore.previous"%string := 3 ]}
    {[ 1 := Regular [5]; 2 := Regular [1; 2; 3]; 3 := Regular [4] ]} Directory ∅ faults [].

Definition healthy : UpdateLifecycle := mkUpdateLifecycle (Some LifecycleReady) (Ok tt) true true.

Definition demo_install (faults : list bool) : FileSystem * result InstallFailure InstallOutcome :=
  install_verified "x86_64-unknown-linux-gnu" "a1B2c3" 2 linux "wokcore" healthy (directory faults).

(** Without a fault the new executable is installed; when the directory cannot
    be synced after the exchange, the old one is back. *)
Lemma update_keeps_executable_witness :
  (demo_install []).2 = Ok Installed /\
  (exists n content, fs_names (demo_install []).1 !! "wokcore"%string = Some n /\
     fs_nodes (demo_install []).1 !! n = Some (Regular content) /\ extracted linux content) /\
  exists faults, existsb (fun s => bool_decide (fst s !! "wokcore"%string = Some 4)) (fs_seen (demo_install faults).1) = true /\
    (demo_install faults).2 = Err InstallFailed /\ fs_names (demo_install faults).1 !! "wokcore"%string = Some 1.
Proof.
  assert (Hone : (demo_install []).2 = Ok Installed) by (vm_compute; reflexivity).
  split; [exact Hone|]. split.
  - pose proof (update_keeps_executable "x86_64-unknown-linux-gnu" "a1B2c3" 2 linux "wokcore" healthy (directory []) 1 [5] [1; 2; 3]
      ltac:(reflexivity) ltac:(reflexivity) ltac:(reflexivity) ltac:(reflexivity) ltac:(discriminate) ltac:(discriminate)) as H.
    fold (demo_install []) in H. destruct (demo_install []) as [f' r]. cbn [snd] in Hone. subst r. exact (proj2 (proj2 (proj2 H))).
  - exists (replicate 41 false ++ [true]). split; [|split]; vm_compute; reflexivity.
Defined.
End UpdateDemo.
