(* ===== verification/RuntimeMetadata.v ===== *)
(** * Runtime metadata of providers and accounts

    Models the batch the server makes of its account health
    ([crates/wokcore-server/src/providers.rs], [runtime_metadata_batch]) and the
    two tables of the state store that keep it
    ([crates/wokcore-storage/src/state/store.rs]): validation, the differential
    write in one transaction, and the load.  The tables are finite maps with the
    constraints of their schema: primary keys, checks, and the foreign key from
    accounts to providers that deletes along. *)
From S2P Require Import Prelude Ident Accounts Config Providers AuthRegistry Calendar.

Inductive AccountRuntimeHealth : Set := RuntimeHealthy | RuntimeCoolingDown | RuntimeQuarantined.

#[global] Instance AccountRuntimeHealth_eq_dec : EqDecision AccountRuntimeHealth.
Proof. solve_decision. Defined.

Definition as_database (health : AccountRuntimeHealth) : string :=
  match health with
  | RuntimeHealthy => "healthy"
  | RuntimeCoolingDown => "cooling_down"
  | RuntimeQuarantined => "quarantined"
  end.

Definition from_database (value : string) : result StorageError AccountRuntimeHealth :=
  if bool_decide (value = "healthy"%string) then Ok RuntimeHealthy
  else if bool_decide (value = "cooling_down"%string) then Ok RuntimeCoolingDown
  else if bool_decide (value = "quarantined"%string) then Ok RuntimeQuarantined
  else Err (StateDatabaseCorrupt "Provider account metadata contains an invalid health state").

Record ProviderRuntimeMetadata : Set := mkProviderMetadata {
  prm_provider_id : string;
  prm_updated_at_ms : Z
}.

Record AccountRuntimeMetadata : Set := mkAccountMetadata {
  arm_provider_id : string;
  arm_account_id : string;
  arm_health : AccountRuntimeHealth;
  arm_consecutive_failures : Z;
  arm_cooldown_until_ms : option Z;
  arm_quota_remaining : option Z;
  arm_quota_resets_at_ms : option Z;
  arm_selection_count : Z;
  arm_last_selected_sequence : Z;
  arm_updated_at_ms : Z
}.

#[global] Instance ProviderRuntimeMetadata_eq_dec : EqDecision ProviderRuntimeMetadata.
Proof. solve_decision. Defined.
#[global] Instance AccountRuntimeMetadata_eq_dec : EqDecision AccountRuntimeMetadata.
Proof. solve_decision. Defined.

Record ProviderMetadataBatch : Set := mkBatch {
  batch_providers : list ProviderRuntimeMetadata;
  batch_accounts : list AccountRuntimeMetadata
}.

Record ProviderMetadataBatchOutcome : Set := mkBatchOutcome {
  provider_rows_written : Z;
  account_rows_written : Z;
  provider_rows_deleted : Z;
  account_rows_deleted : Z
}.

#[global] Instance ProviderMetadataBatchOutcome_eq_dec : EqDecision ProviderMetadataBatchOutcome.
Proof. solve_decision. Defined.

(** ** The tables *)
(** A row of [account_runtime_metadata], without its key. *)
Record AccountRow : Set := mkAccountRow {
  col_provider_id : string;
  col_health_state : string;
  col_consecutive_failures : Z;
  col_cooldown_until_ms : option Z;
  col_quota_remaining : option Z;
  col_quota_resets_at_ms : option Z;
  col_selection_count : Z;
  col_last_selected_sequence : Z;
  col_updated_at_ms : Z
}.

Record MetadataTables : Type := mkMetadataTables {
  md_providers : gmap string Z;
  md_accounts : gmap string AccountRow;
  md_faults : list bool
}.

(** A statement that reads; the database may fail it. *)
Definition query {A} (read : MetadataTables -> A) : st_res MetadataTables StorageError A := fun d =>
  let d' := mkMetadataTables (md_providers d) (md_accounts d) (tail (md_faults d)) in
  if default false (head (md_faults d)) then (d', Err StateDatabase) else (d', Ok (read d')).

(** The tables of a transaction's body; an error rolls them back. *)
Abbreviation tables := (gmap string Z * gmap string AccountRow)%type.

Definition write_transaction (body : tables -> result StorageError tables)
  : st_res MetadataTables StorageError unit := fun d =>
  let d' := mkMetadataTables (md_providers d) (md_accounts d) (tail (md_faults d)) in
  if default false (head (md_faults d)) then (d', Err StateDatabase)
  else match body (md_providers d, md_accounts d) with
       | Ok (providers, accounts) => (mkMetadataTables providers accounts (tail (md_faults d)), Ok tt)
       | Err e => (d', Err e)
       end.

Definition known_health_state (value : string) : bool :=
  bool_decide (value ∈ ["healthy"; "cooling_down"; "quarantined"]%string).

Definition null_or_nonnegative (value : option Z) : bool := is_none_or (fun v => 0 <=? v) value.

(** The checks of the schema on an account's row. *)
Definition row_checks (row : AccountRow) : bool :=
  known_health_state (col_health_state row)
  && (0 <=? col_consecutive_failures row) && (col_consecutive_failures row <=? 64)
  && null_or_nonnegative (col_cooldown_until_ms row) && null_or_nonnegative (col_quota_remaining row)
  && null_or_nonnegative (col_quota_resets_at_ms row)
  && (0 <=? col_selection_count row) && (0 <=? col_last_selected_sequence row)
  && (0 <=? col_updated_at_ms row)
  && eqb (bool_decide (col_health_state row = "cooling_down"%string)) (is_someb (col_cooldown_until_ms row))
  && eqb (is_someb (col_quota_remaining row)) (is_someb (col_quota_resets_at_ms row)).

(** DELETE of a provider, which deletes its accounts along. *)
Definition delete_provider_row (db : tables) (provider : ProviderRuntimeMetadata) : tables :=
  (delete (prm_provider_id provider) db.1,
   filter (fun entry => col_provider_id entry.2 <> prm_provider_id provider) db.2).

Definition delete_account_row (accounts : gmap string AccountRow) (account : AccountRuntimeMetadata)
  : gmap string AccountRow := delete (arm_account_id account) accounts.

Definition to_i64 (value : Z) (name : string) : result StorageError Z :=
  if i64_max <? value then Err (InvalidStateRecord (name +:+ " exceeds SQLite range")) else Ok value.

Definition optional_to_i64 (value : option Z) (name : string) : result StorageError (option Z) :=
  match value with
  | None => Ok None
  | Some value => let? value := to_i64 value name in Ok (Some value)
  end.

(** INSERT .. ON CONFLICT DO UPDATE. *)
Definition upsert_provider (providers : gmap string Z) (provider : ProviderRuntimeMetadata)
  : result StorageError (gmap string Z) :=
  let? updated := to_i64 (prm_updated_at_ms provider) "Provider metadata timestamp" in
  check? guard_err (updated <? 0) StateDatabase;
  Ok (<[prm_provider_id provider := updated]> providers).

Definition row_of (account : AccountRuntimeMetadata) : result StorageError AccountRow :=
  let? cooldown := optional_to_i64 (arm_cooldown_until_ms account) "cooldown timestamp" in
  let? remaining := optional_to_i64 (arm_quota_remaining account) "quota remaining" in
  let? resets := optional_to_i64 (arm_quota_resets_at_ms account) "quota reset timestamp" in
  let? count := to_i64 (arm_selection_count account) "selection count" in
  let? last := to_i64 (arm_last_selected_sequence account) "last selected sequence" in
  let? updated := to_i64 (arm_updated_at_ms account) "account metadata timestamp" in
  Ok (mkAccountRow (arm_provider_id account) (as_database (arm_health account))
        (arm_consecutive_failures account) cooldown remaining resets count last updated).

Definition upsert_account (providers : gmap string Z) (accounts : gmap string AccountRow)
  (account : AccountRuntimeMetadata) : result StorageError (gmap string AccountRow) :=
  let? row := row_of account in
  check? guard_err (negb (row_checks row)) StateDatabase;
  check? guard_err (negb (is_someb (providers !! col_provider_id row))) StateDatabase;
  Ok (<[arm_account_id account := row]> accounts).

(** ** Loading *)
Definition provider_metadata_u64 (value : Z) (name : string) : result StorageError Z :=
  if value <? 0 then Err (StateDatabaseCorrupt ("Provider metadata contains an invalid " +:+ name))
  else Ok value.

Definition provider_metadata_optional_u64 (value : option Z) (name : string)
  : result StorageError (option Z) :=
  match value with
  | None => Ok None
  | Some value => let? value := provider_metadata_u64 value name in Ok (Some value)
  end.

Definition normalize_provider_metadata (now_ms : Z) (metadata : AccountRuntimeMetadata)
  : AccountRuntimeMetadata :=
  let cooled := is_some_and (fun until_ms => until_ms <=? now_ms) (arm_cooldown_until_ms metadata) in
  let reset := is_some_and (fun resets_at_ms => resets_at_ms <=? now_ms) (arm_quota_resets_at_ms metadata) in
  mkAccountMetadata (arm_provider_id metadata) (arm_account_id metadata)
    (if cooled then RuntimeHealthy else arm_health metadata)
    (arm_consecutive_failures metadata)
    (if cooled then None else arm_cooldown_until_ms metadata)
    (if reset then None else arm_quota_remaining metadata)
    (if reset then None else arm_quota_resets_at_ms metadata)
    (arm_selection_count metadata) (arm_last_selected_sequence metadata) (arm_updated_at_ms metadata).

Definition corrupt_unless {A} (value : result InvalidId A) (message : string) : result StorageError A :=
  map_err (fun _ => StateDatabaseCorrupt message) value.

Definition load_provider_row (row : string * Z) : result StorageError ProviderRuntimeMetadata :=
  let? id := corrupt_unless (ProviderId_new row.1)
    "Provider metadata contains an invalid Provider identifier" in
  let? updated := provider_metadata_u64 row.2 "Provider timestamp" in
  Ok (mkProviderMetadata id updated).

Definition load_account_row (now_ms : Z) (entry : string * AccountRow)
  : result StorageError AccountRuntimeMetadata :=
  let row := entry.2 in
  let? failures :=
    if (0 <=? col_consecutive_failures row) && (col_consecutive_failures row <=? 255)
    then Ok (col_consecutive_failures row)
    else Err (StateDatabaseCorrupt "Provider account metadata contains an invalid failure count") in
  let? provider := corrupt_unless (ProviderId_new (col_provider_id row))
    "Provider account metadata contains an invalid Provider identifier" in
  let? account := corrupt_unless (AccountId_new entry.1)
    "Provider account metadata contains an invalid account identifier" in
  let? health := from_database (col_health_state row) in
  let? cooldown := provider_metadata_optional_u64 (col_cooldown_until_ms row) "cooldown timestamp" in
  let? remaining := provider_metadata_optional_u64 (col_quota_remaining row) "quota remaining" in
  let? resets := provider_metadata_optional_u64 (col_quota_resets_at_ms row) "quota reset timestamp" in
  let? count := provider_metadata_u64 (col_selection_count row) "selection count" in
  let? last := provider_metadata_u64 (col_last_selected_sequence row) "last selected sequence" in
  let? updated := provider_metadata_u64 (col_updated_at_ms row) "account timestamp" in
  Ok (normalize_provider_metadata now_ms
        (mkAccountMetadata provider account health failures cooldown remaining resets count last updated)).

Definition load_provider_metadata (now_ms : Z) : st_res MetadataTables StorageError ProviderMetadataBatch :=
  let! provider_rows := query (fun d => btree_iter (md_providers d)) in
  let! providers := st_lift (try_map load_provider_row provider_rows) in
  let! account_rows := query (fun d => btree_iter (md_accounts d)) in
  let! accounts := st_lift (try_map (load_account_row now_ms) account_rows) in
  st_ret (mkBatch providers accounts).

(** ** Validation *)
Definition MAX_PROVIDER_METADATA_PROVIDERS : Z := 64.
Definition MAX_PROVIDER_METADATA_ACCOUNTS : Z := 256.

Definition validate_provider_row (seen : gset string) (provider : ProviderRuntimeMetadata)
  : result StorageError (gset string) :=
  check? guard_err (bool_decide (prm_provider_id provider ∈ seen))
    (InvalidStateRecord "Provider metadata batch contains a duplicate Provider");
  let? _ := to_i64 (prm_updated_at_ms provider) "Provider metadata timestamp" in
  Ok ({[prm_provider_id provider]} ∪ seen).

Definition validate_cooldown (account : AccountRuntimeMetadata) : result StorageError unit :=
  match arm_health account, arm_cooldown_until_ms account with
  | RuntimeCoolingDown, Some until_ms =>
      if arm_updated_at_ms account <? until_ms then Ok tt
      else Err (InvalidStateRecord "cooling Provider account metadata requires a future deadline")
  | RuntimeCoolingDown, None =>
      Err (InvalidStateRecord "cooling Provider account metadata requires a future deadline")
  | _, None => Ok tt
  | _, Some _ => Err (InvalidStateRecord "non-cooling Provider account metadata has a cooldown deadline")
  end.

Definition validate_quota (account : AccountRuntimeMetadata) : result StorageError unit :=
  match arm_quota_remaining account, arm_quota_resets_at_ms account with
  | None, None => Ok tt
  | Some _, Some resets_at_ms =>
      if arm_updated_at_ms account <? resets_at_ms then Ok tt
      else Err (InvalidStateRecord "Provider account quota metadata is inconsistent")
  | _, _ => Err (InvalidStateRecord "Provider account quota metadata is inconsistent")
  end.

Definition validate_account_row (seen : gset string) (account : AccountRuntimeMetadata)
  : result StorageError (gset string) :=
  check? guard_err (bool_decide (arm_account_id account ∈ seen))
    (InvalidStateRecord "Provider metadata batch contains a duplicate account");
  check? guard_err (64 <? arm_consecutive_failures account)
    (InvalidStateRecord "Provider account failure count exceeds its bound");
  check? validate_cooldown account;
  check? validate_quota account;
  check? guard_err ((arm_last_selected_sequence account <? arm_selection_count account)
                    || ((arm_selection_count account =? 0) && negb (arm_last_selected_sequence account =? 0)))
    (InvalidStateRecord "Provider account selection metadata is inconsistent");
  let? _ := optional_to_i64 (arm_cooldown_until_ms account) "cooldown timestamp" in
  let? _ := optional_to_i64 (arm_quota_remaining account) "quota remaining" in
  let? _ := optional_to_i64 (arm_quota_resets_at_ms account) "quota reset timestamp" in
  let? _ := to_i64 (arm_selection_count account) "selection count" in
  let? _ := to_i64 (arm_last_selected_sequence account) "last selected sequence" in
  let? _ := to_i64 (arm_updated_at_ms account) "account metadata timestamp" in
  Ok ({[arm_account_id account]} ∪ seen).

Definition validate_provider_metadata_batch (batch : ProviderMetadataBatch) : result StorageError unit :=
  check? guard_err ((MAX_PROVIDER_METADATA_PROVIDERS <? zlen (batch_providers batch))
                    || (MAX_PROVIDER_METADATA_ACCOUNTS <? zlen (batch_accounts batch)))
    (InvalidStateRecord "Provider metadata batch exceeds its bound");
  let? _ := try_fold validate_provider_row ∅ (batch_providers batch) in
  let? _ := try_fold validate_account_row ∅ (batch_accounts batch) in
  Ok tt.

(** ** Recording a batch *)
Definition find_provider (l : list ProviderRuntimeMetadata) (id : string) : option ProviderRuntimeMetadata :=
  List.find (fun current => bool_decide (prm_provider_id current = id)) l.

Definition find_account (l : list AccountRuntimeMetadata) (id : string) : option AccountRuntimeMetadata :=
  List.find (fun current => bool_decide (arm_account_id current = id)) l.

(** What differs between the stored batch and the new one. *)
Definition provider_changes (existing batch : list ProviderRuntimeMetadata)
  : list ProviderRuntimeMetadata * list ProviderRuntimeMetadata :=
  (List.filter (fun p => negb (bool_decide (find_provider existing (prm_provider_id p) = Some p))) batch,
   List.filter (fun p => negb (is_someb (find_provider batch (prm_provider_id p)))) existing).

Definition account_changes (existing batch : list AccountRuntimeMetadata)
  : list AccountRuntimeMetadata * list AccountRuntimeMetadata :=
  (List.filter (fun a => negb (bool_decide (find_account existing (arm_account_id a) = Some a))) batch,
   List.filter (fun a => negb (is_someb (find_account batch (arm_account_id a)))) existing).

(** The body of the transaction: deletions, then providers, then accounts. *)
Definition apply_changes (provider_rows provider_deletions : list ProviderRuntimeMetadata)
  (account_rows account_deletions : list AccountRuntimeMetadata) (db : tables) : result StorageError tables :=
  let accounts := foldl delete_account_row db.2 account_deletions in
  let '(providers, accounts) := foldl delete_provider_row (db.1, accounts) provider_deletions in
  let? providers := try_fold upsert_provider providers provider_rows in
  let? accounts := try_fold (upsert_account providers) accounts account_rows in
  Ok (providers, accounts).

Definition record_provider_metadata_batch (batch : ProviderMetadataBatch)
  : st_res MetadataTables StorageError ProviderMetadataBatchOutcome :=
  let! _ := st_lift (validate_provider_metadata_batch batch) in
  let! existing := load_provider_metadata 0 in
  if existsb (fun account => negb (is_someb (find_provider (batch_providers batch) (arm_provider_id account))))
       (batch_accounts batch)
  then st_err (InvalidStateRecord "Provider account metadata references an unknown Provider")
  else
    let '(provider_rows, provider_deletions) :=
      provider_changes (batch_providers existing) (batch_providers batch) in
    let '(account_rows, account_deletions) :=
      account_changes (batch_accounts existing) (batch_accounts batch) in
    let outcome := mkBatchOutcome (zlen provider_rows) (zlen account_rows)
                     (zlen provider_deletions) (zlen account_deletions) in
    if bool_decide (outcome = mkBatchOutcome 0 0 0 0) then st_ret outcome
    else
      let! _ := write_transaction
                  (apply_changes provider_rows provider_deletions account_rows account_deletions) in
      st_ret outcome.

(** ** The batch of the running service *)
Definition provider_metadata (updated : Z) (p : ProviderInstanceConfig) : option ProviderRuntimeMetadata :=
  if pi_enabled p then Some (mkProviderMetadata (pi_id p) updated) else None.

Definition account_metadata (observed : Z) (snapshots : list AccountHealthSnapshot) (account : AccountConfig)
  : option AccountRuntimeMetadata :=
  if negb (ac_enabled account) then None
  else
    snapshot ← List.find (fun s => bool_decide (snap_account_id s = ac_id account)) snapshots;
    let health :=
      if snap_quarantined snapshot then RuntimeQuarantined
      else if is_some_and (fun until => observed <? until) (snap_cooldown_until_ms snapshot)
      then RuntimeCoolingDown
      else RuntimeHealthy in
    Some (mkAccountMetadata (ac_provider account) (ac_id account) health
            (snap_consecutive_failures snapshot) (snap_cooldown_until_ms snapshot)
            (snap_quota_remaining snapshot) (snap_quota_resets_at_ms snapshot)
            (snap_selection_count snapshot) (snap_last_selected_sequence snapshot)
            (snap_updated_at_ms snapshot)).

(** Taking the snapshots normalizes the account table. *)
Definition runtime_metadata_batch {S} (observed : Z) (m : ProviderManagement (S := S))
  : ProviderManagement (S := S) * ProviderMetadataBatch :=
  let '(snaps, table) := snapshots (px_account_health (pm_execution m)) observed in
  let candidate := act_candidate (pm_active m) in
  (set_execution (mkExecutionSnapshot (px_snapshot (pm_execution m)) table) m,
   mkBatch (omap (provider_metadata (act_metadata_updated_at_ms (pm_active m)))
              (instances (pc_providers candidate)))
           (omap (account_metadata observed snaps) (accounts (pc_providers candidate)))).
