(* ===== verification/RuntimeMetadataSpec.v ===== *)
(** * What the stored runtime metadata is worth

    A recorded batch is what a later load reads, whatever the tables held; a
    refused or failed one leaves the tables alone; and which states of the
    running service are recorded at all. *)
From S2P Require Import Prelude NetAddr Config Catalog CatalogSpec EngineConfig Routing Snapshot SnapshotSpec.
From S2P Require Import Accounts AccountsSpec AccountsRestore Ident AuthRegistry AuthStore ConfigStore Providers.
From S2P Require Import ProvidersSpec Calendar RuntimeMetadata.

(** ** Validation *)
Definition fits (v : Z) : Prop := v <= i64_max.

Lemma to_i64_Ok v name u : to_i64 v name = Ok u <-> u = v /\ fits v.
Proof. unfold to_i64, fits. case_match; rewrite ?Z.ltb_lt, ?Z.ltb_ge in *; naive_solver lia. Qed.

Lemma optional_to_i64_Ok o name u : optional_to_i64 o name = Ok u <-> u = o /\ from_option fits True o.
Proof.
  destruct o as [v|]; cbn; [|naive_solver]. rewrite result_bind_Ok. setoid_rewrite to_i64_Ok. naive_solver.
Qed.

Definition cooldown_valid (a : AccountRuntimeMetadata) : Prop :=
  match arm_health a with
  | RuntimeCoolingDown => exists u, arm_cooldown_until_ms a = Some u /\ arm_updated_at_ms a < u
  | _ => arm_cooldown_until_ms a = None
  end.

Definition quota_valid (a : AccountRuntimeMetadata) : Prop :=
  match arm_quota_remaining a, arm_quota_resets_at_ms a with
  | None, None => True
  | Some _, Some resets => arm_updated_at_ms a < resets
  | _, _ => False
  end.

Record account_valid (a : AccountRuntimeMetadata) : Prop := {
  av_failures : arm_consecutive_failures a <= 64;
  av_cooldown : cooldown_valid a;
  av_quota : quota_valid a;
  av_count : arm_selection_count a <= arm_last_selected_sequence a;
  av_zero : arm_selection_count a = 0 -> arm_last_selected_sequence a = 0;
  av_fits_cooldown : from_option fits True (arm_cooldown_until_ms a);
  av_fits_remaining : from_option fits True (arm_quota_remaining a);
  av_fits_resets : from_option fits True (arm_quota_resets_at_ms a);
  av_fits_last : fits (arm_last_selected_sequence a);
  av_fits_updated : fits (arm_updated_at_ms a)
}.

Lemma validate_cooldown_Ok a : validate_cooldown a = Ok tt <-> cooldown_valid a.
Proof.
  unfold validate_cooldown, cooldown_valid.
  destruct (arm_health a), (arm_cooldown_until_ms a); try naive_solver.
  case_match; rewrite ?Z.ltb_lt, ?Z.ltb_ge in *; naive_solver lia.
Qed.

Lemma validate_quota_Ok a : validate_quota a = Ok tt <-> quota_valid a.
Proof.
  unfold validate_quota, quota_valid. destruct (arm_quota_remaining a), (arm_quota_resets_at_ms a); try naive_solver.
  case_match; rewrite ?Z.ltb_lt, ?Z.ltb_ge in *; naive_solver lia.
Qed.

Lemma validate_provider_row_Ok s p s' :
  validate_provider_row s p = Ok s' <->
  prm_provider_id p ∉ s /\ fits (prm_updated_at_ms p) /\ s' = {[prm_provider_id p]} ∪ s.
Proof.
  unfold validate_provider_row. rewrite check_Ok, guard_err_Ok, bool_decide_eq_false, result_bind_Ok.
  setoid_rewrite to_i64_Ok. naive_solver.
Qed.

Lemma validate_account_row_Ok s a s' :
  validate_account_row s a = Ok s' <->
  arm_account_id a ∉ s /\ account_valid a /\ s' = {[arm_account_id a]} ∪ s.
Proof.
  unfold validate_account_row.
  rewrite !check_Ok, !guard_err_Ok, bool_decide_eq_false, validate_cooldown_Ok, validate_quota_Ok.
  rewrite !result_bind_Ok. setoid_rewrite result_bind_Ok. setoid_rewrite result_bind_Ok.
  setoid_rewrite result_bind_Ok. setoid_rewrite result_bind_Ok. setoid_rewrite result_bind_Ok.
  setoid_rewrite optional_to_i64_Ok. setoid_rewrite to_i64_Ok.
  rewrite orb_false_iff, andb_false_iff, negb_false_iff, !Z.ltb_ge, Z.eqb_neq, Z.eqb_eq. split.
  - intros (Hn & Hf & Hc & Hq & [Hs Hz] & ? & [-> ?] & ? & [-> ?] & ? & [-> ?] & ? & [-> ?] & ? & [-> ?] & ? & [-> ?] & [= <-]).
    split_and!; [done| |done]. split; try done; lia.
  - intros (Hn & [] & ->). split_and!; try done; [lia|].
    do 3 (eexists; split; [done|]). exists (arm_selection_count a). unfold fits in *. split; [split; [done|lia]|].
    do 2 (eexists; split; [done|]). done.
Qed.

Record batch_valid (b : ProviderMetadataBatch) : Prop := {
  bv_providers : zlen (batch_providers b) <= MAX_PROVIDER_METADATA_PROVIDERS;
  bv_accounts : zlen (batch_accounts b) <= MAX_PROVIDER_METADATA_ACCOUNTS;
  bv_provider_ids : NoDup (prm_provider_id <$> batch_providers b);
  bv_fits : Forall (fun p => fits (prm_updated_at_ms p)) (batch_providers b);
  bv_account_ids : NoDup (arm_account_id <$> batch_accounts b);
  bv_valid : Forall account_valid (batch_accounts b)
}.

Lemma validate_batch_Ok b : validate_provider_metadata_batch b = Ok tt <-> batch_valid b.
Proof.
  unfold validate_provider_metadata_batch.
  rewrite check_Ok, guard_err_Ok, orb_false_iff, !Z.ltb_ge, !check_loop_Ok.
  setoid_rewrite (try_fold_dedup _ prm_provider_id (fun p => fits (prm_updated_at_ms p)) validate_provider_row_Ok).
  setoid_rewrite (try_fold_dedup _ arm_account_id account_valid validate_account_row_Ok).
  split.
  - intros ([] & (? & ? & _ & ? & _) & (? & ? & _ & ? & _) & _). by split.
  - intros []. split_and!; try done; eexists; split_and!; try done; set_solver.
Qed.

(** ** What the tables mean *)
(** The types of the source: unsigned numbers and valid identifiers. *)
Record account_typed (a : AccountRuntimeMetadata) : Prop := {
  at_provider : is_valid_identifier (arm_provider_id a) = true;
  at_account : is_valid_identifier (arm_account_id a) = true;
  at_failures : 0 <= arm_consecutive_failures a <= 255;
  at_cooldown : from_option (Z.le 0) True (arm_cooldown_until_ms a);
  at_remaining : from_option (Z.le 0) True (arm_quota_remaining a);
  at_resets : from_option (Z.le 0) True (arm_quota_resets_at_ms a);
  at_count : 0 <= arm_selection_count a;
  at_last : 0 <= arm_last_selected_sequence a;
  at_updated : 0 <= arm_updated_at_ms a
}.

Record batch_typed (b : ProviderMetadataBatch) : Prop := {
  bt_providers : Forall (fun p => is_valid_identifier (prm_provider_id p) = true /\ 0 <= prm_updated_at_ms p)
                   (batch_providers b);
  bt_accounts : Forall account_typed (batch_accounts b)
}.

(** The tables satisfy the constraints of the schema and hold valid identifiers. *)
Record tables_sound (d : MetadataTables) : Prop := {
  tb_providers : map_Forall (fun id updated => is_valid_identifier id = true /\ 0 <= updated) (md_providers d);
  tb_accounts : map_Forall (fun id row => is_valid_identifier id = true /\ row_checks row = true /\
                  is_valid_identifier (col_provider_id row) = true /\
                  is_Some (md_providers d !! col_provider_id row)) (md_accounts d)
}.

Definition health_of (row : AccountRow) : AccountRuntimeHealth :=
  if bool_decide (col_health_state row = "healthy"%string) then RuntimeHealthy
  else if bool_decide (col_health_state row = "cooling_down"%string) then RuntimeCoolingDown
  else RuntimeQuarantined.

(** What a row says. *)
Definition metadata_of (id : string) (row : AccountRow) : AccountRuntimeMetadata :=
  mkAccountMetadata (col_provider_id row) id (health_of row) (col_consecutive_failures row)
    (col_cooldown_until_ms row) (col_quota_remaining row) (col_quota_resets_at_ms row)
    (col_selection_count row) (col_last_selected_sequence row) (col_updated_at_ms row).

Lemma provider_u64_Ok v name : 0 <= v -> provider_metadata_u64 v name = Ok v.
Proof. intros. unfold provider_metadata_u64. by rewrite (proj2 (Z.ltb_ge v 0)). Qed.

Lemma provider_optional_u64_Ok v name :
  null_or_nonnegative v = true -> provider_metadata_optional_u64 v name = Ok v.
Proof. destruct v as [v|]; cbn; [|done]. intros ?%Z.leb_le. by rewrite provider_u64_Ok. Qed.

Lemma load_account_row_sound now id row :
  is_valid_identifier id = true -> is_valid_identifier (col_provider_id row) = true -> row_checks row = true ->
  load_account_row now (id, row) = Ok (normalize_provider_metadata now (metadata_of id row)).
Proof.
  intros Hid Hp Hc. unfold row_checks in Hc. rewrite !andb_true_iff, !Z.leb_le in Hc.
  destruct Hc as ((((((((((Hh & H0) & H64) & Hcd) & Hq) & Hr) & Hs) & Hl) & Hu) & _) & _).
  unfold load_account_row. cbn [fst snd].
  rewrite (proj2 (Z.leb_le 0 _) H0), (proj2 (Z.leb_le _ 255)) by lia. cbn [andb result_bind].
  unfold ProviderId_new, AccountId_new, identifier_new. rewrite Hid, Hp. cbn [negb corrupt_unless map_err result_bind].
  assert (from_database (col_health_state row) = Ok (health_of row)) as ->.
  { unfold known_health_state in Hh. apply bool_decide_eq_true in Hh. unfold from_database, health_of.
    repeat (case_bool_decide; [done|]). set_solver. }
  cbn [result_bind]. by rewrite !provider_optional_u64_Ok, !provider_u64_Ok.
Qed.

Definition provider_of (row : string * Z) : ProviderRuntimeMetadata := mkProviderMetadata row.1 row.2.

(** What a load of sound tables reads. *)
Definition listed (now : Z) (d : MetadataTables) : ProviderMetadataBatch :=
  mkBatch (provider_of <$> btree_iter (md_providers d))
    ((fun entry => normalize_provider_metadata now (metadata_of entry.1 entry.2)) <$> btree_iter (md_accounts d)).

Lemma try_map_pure {E A B} (f : A -> result E B) (g : A -> B) l :
  (forall a, a ∈ l -> f a = Ok (g a)) -> try_map f l = Ok (g <$> l).
Proof.
  intros H. apply try_map_Ok. induction l as [|a l IH]; [constructor|].
  constructor; [apply H; by left|]. apply IH. intros b Hb. apply H. by right.
Qed.

Definition same_tables (d d' : MetadataTables) : Prop :=
  md_providers d' = md_providers d /\ md_accounts d' = md_accounts d.

Lemma same_tables_sound d d' : same_tables d d' -> tables_sound d -> tables_sound d'.
Proof. intros [Hp Ha] []. split; by rewrite ?Hp, ?Ha. Qed.

Lemma same_tables_listed now d d' : same_tables d d' -> listed now d' = listed now d.
Proof. intros [Hp Ha]. unfold listed. by rewrite Hp, Ha. Qed.

Lemma load_cases now d d' r :
  tables_sound d -> load_provider_metadata now d = (d', r) ->
  same_tables d d' /\ (r = Ok (listed now d) \/ r = Err StateDatabase /\ md_faults d <> []) /\
  (md_faults d = [] -> md_faults d' = []).
Proof.
  intros [Hp Ha] Hl. unfold load_provider_metadata, query, st_bind, st_lift, st_ret in Hl.
  destruct (md_faults d) as [|[] faults]; cbn in Hl; [|by simplify_eq; split_and!; [|right|]|];
    (rewrite (try_map_pure load_provider_row provider_of) in Hl;
     [|intros [id u] He%elem_of_btree_iter%Hp; destruct He as [Hid Hu]; unfold load_provider_row; cbn;
       unfold ProviderId_new, identifier_new; rewrite Hid; cbn; by rewrite provider_u64_Ok]);
    [|destruct faults as [|[] faults]; cbn in Hl; [|by simplify_eq; split_and!; [|right|]|]];
    (rewrite (try_map_pure (load_account_row now)
       (fun entry => normalize_provider_metadata now (metadata_of entry.1 entry.2))) in Hl;
     [simplify_eq; split_and!; [done|by left|done]|
      intros [id row] He%elem_of_btree_iter%Ha; destruct He as (? & ? & ? & ?); by apply load_account_row_sound]).
Qed.

(** ** What is written *)
Lemma find_by_key {A} (key : A -> string) l k a :
  NoDup (key <$> l) -> List.find (fun x => bool_decide (key x = k)) l = Some a <-> a ∈ l /\ key a = k.
Proof.
  intros Hnd. split.
  - intros [Ha Hk%bool_decide_eq_true]%find_Some_elem. done.
  - intros [Ha Hk]. induction l as [|x l IH]; [by apply elem_of_nil in Ha|].
    rewrite fmap_cons, list.NoDup_cons in Hnd. destruct Hnd as [Hx Hnd]. cbn. case_bool_decide as Hkx.
    + apply elem_of_cons in Ha as [->|Ha]; [done|]. destruct Hx. rewrite Hkx, <- Hk. by apply list_elem_of_fmap_2.
    + apply IH; [done|]. apply elem_of_cons in Ha as [->|]; [done|done].
Qed.

Lemma find_by_key_None {A} (key : A -> string) l k :
  List.find (fun x => bool_decide (key x = k)) l = None <-> k ∉ key <$> l.
Proof.
  rewrite find_None_elem, list_elem_of_fmap. setoid_rewrite bool_decide_eq_false. naive_solver.
Qed.

(** Reading by key what was listed from a map. *)
Lemma find_listed {A V} (key : A -> string) (f : string -> V -> A) (m : gmap string V) k :
  (forall i v, key (f i v) = i) ->
  List.find (fun x => bool_decide (key x = k)) ((fun e => f e.1 e.2) <$> btree_iter m) = f k <$> m !! k.
Proof.
  intros Hkey. assert (key <$> ((fun e => f e.1 e.2) <$> btree_iter m) = (btree_iter m).*1) as Hids.
  { rewrite <- list_fmap_compose. apply list_fmap_ext. intros i [j v] _. apply Hkey. }
  destruct (m !! k) as [v|] eqn:Hv; cbn.
  - apply find_by_key; [rewrite Hids; apply NoDup_fst_btree_iter|]. split; [|apply Hkey].
    apply list_elem_of_fmap. exists (k, v). by rewrite elem_of_btree_iter.
  - apply find_by_key_None. rewrite Hids. intros ([j v] & -> & He%elem_of_btree_iter)%list_elem_of_fmap.
    cbn in Hv. congruence.
Qed.

Definition metadata0 (id : string) (row : AccountRow) : AccountRuntimeMetadata :=
  normalize_provider_metadata 0 (metadata_of id row).

Lemma existing_account d id : find_account (batch_accounts (listed 0 d)) id = metadata0 id <$> md_accounts d !! id.
Proof. apply (find_listed arm_account_id metadata0). done. Qed.

Lemma existing_provider d id :
  find_provider (batch_providers (listed 0 d)) id = mkProviderMetadata id <$> md_providers d !! id.
Proof. apply (find_listed prm_provider_id mkProviderMetadata). done. Qed.

(** The row written for an account. *)
Definition the_row (a : AccountRuntimeMetadata) : AccountRow :=
  mkAccountRow (arm_provider_id a) (as_database (arm_health a)) (arm_consecutive_failures a)
    (arm_cooldown_until_ms a) (arm_quota_remaining a) (arm_quota_resets_at_ms a)
    (arm_selection_count a) (arm_last_selected_sequence a) (arm_updated_at_ms a).

Lemma row_of_Ok a : account_valid a -> row_of a = Ok (the_row a).
Proof.
  intros []. unfold row_of.
  assert (fits (arm_selection_count a)) as Hc by (unfold fits in *; lia).
  do 3 (apply result_bind_Ok; eexists; split; [by apply optional_to_i64_Ok|]).
  do 3 (apply result_bind_Ok; eexists; split; [by apply to_i64_Ok|]). done.
Qed.

Lemma the_row_checks a : account_valid a -> account_typed a -> row_checks (the_row a) = true.
Proof.
  intros [Hf Hc Hq Hs Hz _ _ _ _ _] []. unfold row_checks; cbn.
  rewrite !andb_true_iff, !Z.leb_le. unfold cooldown_valid, quota_valid in *.
  split_and!; try lia; try done.
  - unfold known_health_state. apply bool_decide_eq_true. destruct (arm_health a); cbn; set_solver.
  - destruct (arm_cooldown_until_ms a); cbn in *; [by apply Z.leb_le|done].
  - destruct (arm_quota_remaining a); cbn in *; [by apply Z.leb_le|done].
  - destruct (arm_quota_resets_at_ms a); cbn in *; [by apply Z.leb_le|done].
  - apply eqb_true_iff. destruct (arm_health a); cbn; [by rewrite Hc| |by rewrite Hc].
    by destruct Hc as (u & -> & _).
  - apply eqb_true_iff. by destruct (arm_quota_remaining a), (arm_quota_resets_at_ms a).
Qed.

Lemma normalize_future now a :
  from_option (Z.lt now) True (arm_cooldown_until_ms a) -> from_option (Z.lt now) True (arm_quota_resets_at_ms a) ->
  normalize_provider_metadata now a = a.
Proof.
  intros Hc Hr. destruct a as [p i h f c q r n l u]; unfold normalize_provider_metadata; cbn in *.
  destruct c as [c|]; cbn in *; [rewrite (proj2 (Z.leb_gt c now)) by done|];
    (destruct r as [r|]; cbn in *; [rewrite (proj2 (Z.leb_gt r now)) by done|]; done).
Qed.

Lemma metadata0_the_row a : account_valid a -> account_typed a -> metadata0 (arm_account_id a) (the_row a) = a.
Proof.
  intros [_ Hc Hq _ _ _ _ _ _ _] []. unfold metadata0.
  assert (metadata_of (arm_account_id a) (the_row a) = a) as -> by (destruct a as [? ? []]; done).
  unfold cooldown_valid, quota_valid in *. apply normalize_future.
  - destruct (arm_health a); [by rewrite Hc| |by rewrite Hc]. destruct Hc as (u & -> & ?). cbn. lia.
  - destruct (arm_quota_remaining a), (arm_quota_resets_at_ms a); cbn; try done; lia.
Qed.

(** The deletions: accounts by their ids, providers with their accounts. *)
Lemma lookup_delete_step {V} (m : gmap string V) k (l : list string) id :
  (if decide (id ∈ l) then None else delete k m !! id) = if decide (id ∈ k :: l) then None else m !! id.
Proof.
  destruct (decide (id ∈ l)) as [Hin|Hin]; [rewrite decide_True; [done|by right]|].
  destruct (decide (k = id)) as [<-|Hne].
  - rewrite lookup_delete_eq, decide_True; [done|by left].
  - rewrite lookup_delete_ne, decide_False; [done| |done]. rewrite elem_of_cons. naive_solver.
Qed.

Lemma deleted_accounts m l id :
  foldl delete_account_row m l !! id = if decide (id ∈ arm_account_id <$> l) then None else m !! id.
Proof.
  revert m. induction l as [|a l IH]; intros m; cbn [foldl]; [by rewrite decide_False by apply not_elem_of_nil|].
  rewrite IH. apply lookup_delete_step.
Qed.

Lemma deleted_providers P A l :
  (forall id, (foldl delete_provider_row (P, A) l).1 !! id
              = if decide (id ∈ prm_provider_id <$> l) then None else P !! id) /\
  (forall id row, (foldl delete_provider_row (P, A) l).2 !! id = Some row <->
     A !! id = Some row /\ col_provider_id row ∉ prm_provider_id <$> l).
Proof.
  revert P A. induction l as [|p l IH]; intros P A; cbn [foldl].
  - split; intros; [by rewrite decide_False by apply not_elem_of_nil|]. cbn. set_solver.
  - unfold delete_provider_row at 2. unfold delete_provider_row at 3. cbn [fst snd].
    destruct (IH (delete (prm_provider_id p) P)
                (filter (fun entry => col_provider_id entry.2 <> prm_provider_id p) A)) as [HP HA].
    rewrite fmap_cons. split.
    + intros id. rewrite HP. apply lookup_delete_step.
    + intros id row. rewrite HA, map_lookup_filter_Some, not_elem_of_cons. cbn. naive_solver.
Qed.

(** Telling the elements of a list that changed. *)
Lemma elem_of_filter_negb {A} (p : A -> bool) l a :
  a ∈ List.filter (fun x => negb (p x)) l <-> a ∈ l /\ p a = false.
Proof. rewrite list_elem_of_In, filter_In, <- list_elem_of_In, negb_true_iff. done. Qed.

Lemma NoDup_filter_keys {A} (key : A -> string) p l :
  NoDup (key <$> l) -> NoDup (key <$> List.filter p l).
Proof.
  intros Hnd. induction l as [|a l IH]; [constructor|].
  rewrite fmap_cons, list.NoDup_cons in Hnd. destruct Hnd as [Ha Hnd]. cbn. destruct (p a); [|by apply IH].
  rewrite fmap_cons, list.NoDup_cons. split; [|by apply IH].
  intros (b & Hk & Hb)%list_elem_of_fmap. apply Ha, list_elem_of_fmap. exists b. split; [done|].
  apply list_elem_of_In in Hb. apply filter_In in Hb as [Hb _]. by apply list_elem_of_In.
Qed.

Section Changes.
Context (d : MetadataTables) (b : ProviderMetadataBatch).
Context (Hd : tables_sound d) (Hv : batch_valid b) (Ht : batch_typed b).
Context (Hknown : forall a, a ∈ batch_accounts b -> arm_provider_id a ∈ prm_provider_id <$> batch_providers b).

Definition provider_diff := provider_changes (batch_providers (listed 0 d)) (batch_providers b).
Definition account_diff := account_changes (batch_accounts (listed 0 d)) (batch_accounts b).

Lemma deleted_provider_ids id :
  id ∈ prm_provider_id <$> provider_diff.2 <->
  is_Some (md_providers d !! id) /\ id ∉ prm_provider_id <$> batch_providers b.
Proof using.
  unfold provider_diff, provider_changes. cbn [snd]. rewrite list_elem_of_fmap. setoid_rewrite elem_of_filter_negb.
  unfold find_provider. setoid_rewrite is_someb_false. setoid_rewrite find_by_key_None. split.
  - intros (p & -> & Hp & Hn). split; [|done]. apply list_elem_of_fmap in Hp as ([i u] & -> & Hi%elem_of_btree_iter).
    cbn. by eexists.
  - intros [[u Hu] Hn]. exists (mkProviderMetadata id u). split_and!; [done| |done].
    apply list_elem_of_fmap. exists (id, u). by rewrite elem_of_btree_iter.
Qed.

Lemma deleted_account_ids id :
  id ∈ arm_account_id <$> account_diff.2 <->
  is_Some (md_accounts d !! id) /\ id ∉ arm_account_id <$> batch_accounts b.
Proof using.
  unfold account_diff, account_changes. cbn [snd]. rewrite list_elem_of_fmap. setoid_rewrite elem_of_filter_negb.
  unfold find_account. setoid_rewrite is_someb_false. setoid_rewrite find_by_key_None. split.
  - intros (a & -> & Ha & Hn). split; [|done]. apply list_elem_of_fmap in Ha as ([i r] & -> & Hi%elem_of_btree_iter).
    cbn. by eexists.
  - intros [[r Hr] Hn]. exists (metadata0 id r). split_and!; [done| |done].
    apply list_elem_of_fmap. exists (id, r). by rewrite elem_of_btree_iter.
Qed.

Lemma changed_providers p :
  p ∈ provider_diff.1 <-> p ∈ batch_providers b /\
    md_providers d !! prm_provider_id p <> Some (prm_updated_at_ms p).
Proof using.
  unfold provider_diff, provider_changes. cbn [fst].
  rewrite elem_of_filter_negb, bool_decide_eq_false, existing_provider, fmap_Some. destruct p; cbn. naive_solver.
Qed.

Lemma changed_accounts a :
  a ∈ account_diff.1 <-> a ∈ batch_accounts b /\
    metadata0 (arm_account_id a) <$> md_accounts d !! arm_account_id a <> Some a.
Proof using.
  unfold account_diff, account_changes. cbn [fst]. by rewrite elem_of_filter_negb, bool_decide_eq_false, existing_account.
Qed.

Lemma upsert_provider_fill m p m' :
  fits (prm_updated_at_ms p) /\ 0 <= prm_updated_at_ms p ->
  upsert_provider m p = Ok m' <->
  exists v, v = prm_updated_at_ms p /\ m' = <[prm_provider_id p := v]> m.
Proof using.
  intros [Hf Hu]. unfold upsert_provider. rewrite result_bind_Ok. setoid_rewrite to_i64_Ok.
  setoid_rewrite check_Ok. setoid_rewrite guard_err_Ok. setoid_rewrite Z.ltb_ge. naive_solver.
Qed.

Lemma same_key {A} (key : A -> string) l x y : NoDup (key <$> l) -> x ∈ l -> y ∈ l -> key x = key y -> x = y.
Proof using.
  intros Hnd Hx Hy Hk. assert (Some x = Some y) as [= ->]; [|done].
  transitivity (List.find (fun z => bool_decide (key z = key y)) l); [symmetry|]; by apply find_by_key.
Qed.

Lemma written_providers accounts :
  exists P', try_fold upsert_provider (foldl delete_provider_row (md_providers d, accounts) provider_diff.2).1
               provider_diff.1 = Ok P' /\
  forall id v, P' !! id = Some v <->
    exists p, p ∈ batch_providers b /\ prm_provider_id p = id /\ v = prm_updated_at_ms p.
Proof using Hv Ht.
  set (m := (foldl delete_provider_row _ _).1). destruct Hv as [_ _ Hids Hfits _ _], Ht as [Htyped _].
  rewrite list.Forall_forall in Hfits, Htyped.
  assert (Forall (fun p => fits (prm_updated_at_ms p) /\ 0 <= prm_updated_at_ms p) provider_diff.1) as HQ.
  { apply list.Forall_forall. intros p [Hp _]%changed_providers. split; [by apply Hfits|by apply Htyped]. }
  destruct (proj2 (try_fold_fill_Ok _ _ _ _ upsert_provider_fill _ m HQ)) as [P' HP'].
  { apply list.Forall_forall. eauto. }
  exists P'. split; [done|]. intros id v.
  rewrite (try_fold_fill_gen _ _ _ _ upsert_provider_fill _ _ _ HQ (NoDup_filter_keys _ _ _ Hids)
             (fun _ _ _ Hv1 Hv2 => eq_trans Hv1 (eq_sym Hv2)) HP').
  unfold m. rewrite (proj1 (deleted_providers _ _ _)). split.
  - intros [(p & [Hp _]%changed_providers & Hk & ->)|[Hni Hm]]; [eauto|].
    destruct (decide (id ∈ prm_provider_id <$> provider_diff.2)) as [Hdel|Hdel]; [done|].
    rewrite deleted_provider_ids in Hdel.
    destruct (decide (id ∈ prm_provider_id <$> batch_providers b)) as [Hin|Hin]; [|destruct Hdel; eauto].
    apply list_elem_of_fmap in Hin as (p & -> & Hp). exists p. split_and!; [done..|].
    destruct (decide (md_providers d !! prm_provider_id p = Some (prm_updated_at_ms p))) as [He|He]; [congruence|].
    destruct Hni. apply list_elem_of_fmap. exists p. by rewrite changed_providers.
  - intros (p & Hp & <- & ->).
    destruct (decide (md_providers d !! prm_provider_id p = Some (prm_updated_at_ms p))) as [He|He].
    2: { left. exists p. by rewrite changed_providers. }
    right. split.
    + intros (q & Hk & [Hq Hne]%changed_providers)%list_elem_of_fmap.
      by rewrite (same_key _ _ _ _ Hids Hp Hq Hk) in He.
    + rewrite decide_False; [done|]. rewrite deleted_provider_ids. intros [_ Hn]. apply Hn.
      by apply list_elem_of_fmap_2.
Qed.

Lemma upsert_account_fill P' m a m' :
  account_valid a /\ account_typed a /\ is_Some (P' !! arm_provider_id a) ->
  upsert_account P' m a = Ok m' <-> exists row, row = the_row a /\ m' = <[arm_account_id a := row]> m.
Proof using.
  intros (Hva & Hta & [u Hp]). unfold upsert_account. rewrite row_of_Ok by done. cbn [result_bind].
  rewrite the_row_checks by done. cbn. rewrite Hp. cbn. naive_solver.
Qed.

(** The accounts that keep their row. *)
Definition kept_row (id : string) (row : AccountRow) : Prop :=
  id ∉ arm_account_id <$> account_diff.1 /\ md_accounts d !! id = Some row /\
  id ∉ arm_account_id <$> account_diff.2 /\ col_provider_id row ∉ prm_provider_id <$> provider_diff.2.

Lemma accounts_written P' :
  (forall id, is_Some (P' !! id) <-> id ∈ prm_provider_id <$> batch_providers b) ->
  exists A', try_fold (upsert_account P')
      (foldl delete_provider_row (md_providers d, foldl delete_account_row (md_accounts d) account_diff.2)
         provider_diff.2).2 account_diff.1 = Ok A' /\
  forall id row, A' !! id = Some row <->
    (exists a, a ∈ account_diff.1 /\ arm_account_id a = id /\ row = the_row a) \/ kept_row id row.
Proof using Hv Ht Hknown.
  intros HP'. set (m := (foldl delete_provider_row _ _).2). destruct Hv as [_ _ _ _ Hids Hvalid], Ht as [_ Htyped].
  rewrite list.Forall_forall in Hvalid, Htyped.
  assert (Forall (fun a => account_valid a /\ account_typed a /\ is_Some (P' !! arm_provider_id a)) account_diff.1) as HQ.
  { apply list.Forall_forall. intros a [Ha _]%changed_accounts.
    split_and!; [by apply Hvalid|by apply Htyped|]. by apply HP', Hknown. }
  destruct (proj2 (try_fold_fill_Ok _ _ _ _ (upsert_account_fill P') _ m HQ)) as [A' HA'].
  { apply list.Forall_forall. eauto. }
  exists A'. split; [done|]. intros id row.
  rewrite (try_fold_fill_gen _ _ _ _ (upsert_account_fill P') _ _ _ HQ (NoDup_filter_keys _ _ _ Hids)
             (fun _ _ _ Hv1 Hv2 => eq_trans Hv1 (eq_sym Hv2)) HA').
  unfold m, kept_row. rewrite (proj2 (deleted_providers _ _ _)), deleted_accounts.
  destruct (decide (id ∈ arm_account_id <$> account_diff.2)); naive_solver.
Qed.

(** A row that is kept reads as the batch has it. *)
Lemma kept_row_reads id row : kept_row id row ->
  exists a, a ∈ batch_accounts b /\ arm_account_id a = id /\ metadata0 id row = a.
Proof using.
  intros (Hni & Hm & Hdel & _). rewrite deleted_account_ids in Hdel.
  destruct (decide (id ∈ arm_account_id <$> batch_accounts b)) as [Hin|Hin]; [|destruct Hdel; eauto].
  apply list_elem_of_fmap in Hin as (a & -> & Ha). exists a. split_and!; [done..|].
  destruct (decide (metadata0 (arm_account_id a) <$> md_accounts d !! arm_account_id a = Some a)) as [He|He].
  - rewrite Hm in He. by injection He.
  - destruct Hni. apply list_elem_of_fmap. exists a. by rewrite changed_accounts.
Qed.

(** An account the tables already have is kept. *)
Lemma unchanged_kept a row : a ∈ batch_accounts b -> md_accounts d !! arm_account_id a = Some row ->
  metadata0 (arm_account_id a) row = a -> kept_row (arm_account_id a) row.
Proof using Hv Hknown.
  intros Ha Hrow He. destruct Hv as [_ _ _ _ Hids _]. split_and!; [|done| |].
  - intros (c & Hk & [Hc Hne]%changed_accounts)%list_elem_of_fmap.
    apply Hne. rewrite <- (same_key _ _ _ _ Hids Ha Hc Hk), Hrow. cbn. by rewrite He.
  - rewrite deleted_account_ids. intros [_ Hn]. apply Hn. by apply list_elem_of_fmap_2.
  - rewrite deleted_provider_ids. intros [_ Hn]. apply Hn.
    replace (col_provider_id row) with (arm_provider_id a) by by rewrite <- He. by apply Hknown.
Qed.

(** The changes turn the tables into the batch. *)
Lemma changes_applied :
  exists P' A', apply_changes provider_diff.1 provider_diff.2 account_diff.1 account_diff.2
                  (md_providers d, md_accounts d) = Ok (P', A') /\
  (forall id v, P' !! id = Some v <->
     exists p, p ∈ batch_providers b /\ prm_provider_id p = id /\ v = prm_updated_at_ms p) /\
  (forall id row, A' !! id = Some row -> metadata0 id row ∈ batch_accounts b /\
     (kept_row id row \/ row = the_row (metadata0 id row))) /\
  (forall a, a ∈ batch_accounts b -> is_Some (A' !! arm_account_id a)).
Proof using Hv Ht Hknown.
  destruct (written_providers (foldl delete_account_row (md_accounts d) account_diff.2)) as (P' & HP & HP').
  destruct (accounts_written P') as (A' & HA & HA').
  { intros id. rewrite list_elem_of_fmap. unfold is_Some. setoid_rewrite HP'. naive_solver. }
  exists P', A'. split.
  { unfold apply_changes. cbn [fst snd]. destruct (foldl delete_provider_row _ _) as [P1 A1].
    cbn [fst snd] in *. rewrite HP. cbn [result_bind]. rewrite HA. done. }
  split; [done|]. destruct Hv as [_ _ _ _ Hids Hvalid], Ht as [_ Htyped]. rewrite list.Forall_forall in Hvalid, Htyped. split.
  - intros id row [(a & [Ha _]%changed_accounts & <- & ->)|Hk]%HA'.
    + rewrite metadata0_the_row by auto. auto.
    + destruct (kept_row_reads _ _ Hk) as (a & Ha & _ & ->). auto.
  - intros a Ha.
    destruct (decide (metadata0 (arm_account_id a) <$> md_accounts d !! arm_account_id a = Some a)) as [He|He].
    + apply fmap_Some in He as (row & Hrow & He). exists row. apply HA'. right. by apply unchanged_kept.
    + exists (the_row a). apply HA'. left. exists a. by rewrite changed_accounts.
Qed.
End Changes.

(** ** Tables that hold a batch *)
Record holds (d : MetadataTables) (b : ProviderMetadataBatch) : Prop := {
  ho_providers : forall id v, md_providers d !! id = Some v <->
    exists p, p ∈ batch_providers b /\ prm_provider_id p = id /\ v = prm_updated_at_ms p;
  ho_rows : forall id row, md_accounts d !! id = Some row -> metadata0 id row ∈ batch_accounts b;
  ho_accounts : forall a, a ∈ batch_accounts b -> is_Some (md_accounts d !! arm_account_id a)
}.

Lemma normalize_later now a : 0 <= now ->
  normalize_provider_metadata now (normalize_provider_metadata 0 a) = normalize_provider_metadata now a.
Proof.
  intros Hn. destruct a as [p i h f c q r n l u]; unfold normalize_provider_metadata; cbn.
  destruct c as [c|]; cbn; [destruct (Z.leb_spec c 0); cbn; destruct (Z.leb_spec c now); cbn; try lia|];
    (destruct r as [r|]; cbn; [destruct (Z.leb_spec r 0); cbn; destruct (Z.leb_spec r now); cbn; try lia|]); done.
Qed.

Lemma NoDup_listed {A V} (key : A -> string) (f : string * V -> A) (m : gmap string V) :
  (forall e, key (f e) = e.1) -> NoDup (f <$> btree_iter m).
Proof.
  intros Hk. apply (NoDup_fmap_1 key). rewrite <- list_fmap_compose.
  rewrite (list_fmap_ext _ fst); [apply NoDup_fst_btree_iter|]. intros i e _. apply Hk.
Qed.

Lemma holds_account d b a : NoDup (arm_account_id <$> batch_accounts b) -> holds d b ->
  a ∈ batch_accounts b <-> exists row, md_accounts d !! arm_account_id a = Some row /\ metadata0 (arm_account_id a) row = a.
Proof.
  intros Hnd [_ Hr Ha]. split.
  - intros Hin. destruct (Ha a Hin) as [row Hrow]. exists row. split; [done|].
    apply (same_key arm_account_id (batch_accounts b)); [done|by apply Hr|done|done].
  - intros (row & Hrow & <-). cbn in Hrow. by apply Hr.
Qed.

Lemma holds_listed now d b : batch_valid b -> holds d b -> 0 <= now ->
  batch_providers (listed now d) ≡ₚ batch_providers b /\
  batch_accounts (listed now d) ≡ₚ normalize_provider_metadata now <$> batch_accounts b.
Proof.
  intros [_ _ Hpi _ Hai _] Hh Hnow. split.
  - apply NoDup_Permutation; [by apply (NoDup_listed prm_provider_id)|by apply (NoDup_fmap_1 prm_provider_id)|].
    intros [id v]. cbn. rewrite list_elem_of_fmap. split.
    + intros ([i u] & [= -> ->] & (p & Hp & <- & ->)%elem_of_btree_iter%(ho_providers _ _ Hh)). by destruct p.
    + intros Hp. exists (id, v). split; [done|]. apply elem_of_btree_iter, (ho_providers _ _ Hh). by eexists.
  - cbn. rewrite (list_fmap_ext _ (normalize_provider_metadata now ∘ (fun e => metadata0 e.1 e.2)))
      by (intros i e _; cbn; symmetry; by apply normalize_later).
    rewrite list_fmap_compose. f_equiv.
    apply NoDup_Permutation; [by apply (NoDup_listed arm_account_id)|by apply (NoDup_fmap_1 arm_account_id)|].
    intros a. rewrite list_elem_of_fmap, (holds_account d) by done. split.
    + intros ([i row] & -> & Hi%elem_of_btree_iter). cbn. eauto.
    + intros (row & Hrow & Ha). exists (arm_account_id a, row). cbn. by rewrite elem_of_btree_iter.
Qed.

(** Tables that hold the batch need no change. *)
Lemma holds_unchanged d b : batch_valid b -> holds d b ->
  provider_diff d b = ([], []) /\ account_diff d b = ([], []).
Proof.
  intros [_ _ Hpi _ Hai _] Hh. split; apply injective_projections; apply elem_of_nil_inv; cbn [fst snd].
  - intros p [Hp Hne]%changed_providers. apply Hne, (ho_providers _ _ Hh). eauto.
  - intros p Hp%(list_elem_of_fmap_2 prm_provider_id). apply deleted_provider_ids in Hp as [[v Hv] Hn].
    apply (ho_providers _ _ Hh) in Hv as (q & Hq & Hk & _). apply Hn. rewrite <- Hk. by apply list_elem_of_fmap_2.
  - intros a [Ha Hne]%changed_accounts. apply (holds_account d) in Ha as (row & Hrow & He); [|done|done].
    apply Hne. rewrite Hrow. cbn. by rewrite He.
  - intros a Ha%(list_elem_of_fmap_2 arm_account_id). apply deleted_account_ids in Ha as [[row Hrow] Hn].
    apply Hn. apply (ho_rows _ _ Hh) in Hrow. by apply (list_elem_of_fmap_2 arm_account_id) in Hrow.
Qed.

(** ** Recording *)
Definition known_providers (b : ProviderMetadataBatch) : Prop :=
  forall a, a ∈ batch_accounts b -> arm_provider_id a ∈ prm_provider_id <$> batch_providers b.

Lemma known_providers_check b :
  existsb (fun account => negb (is_someb (find_provider (batch_providers b) (arm_provider_id account))))
    (batch_accounts b) = false <-> known_providers b.
Proof.
  rewrite existsb_false_iff. unfold known_providers. apply forall_proper; intros a.
  rewrite negb_false_iff. unfold find_provider.
  pose proof (find_by_key_None prm_provider_id (batch_providers b) (arm_provider_id a)) as Hn.
  destruct (List.find _ _) eqn:Hf; cbn.
  - destruct (decide (arm_provider_id a ∈ prm_provider_id <$> batch_providers b)); naive_solver.
  - naive_solver.
Qed.

Lemma zlen_zero {A} (l : list A) : zlen l = 0 <-> l = [].
Proof. destruct l; cbn; [done|]. split; [unfold zlen; cbn; lia|done]. Qed.

Lemma changes_sound d b P' A' :
  tables_sound d -> batch_valid b -> batch_typed b -> known_providers b ->
  apply_changes (provider_diff d b).1 (provider_diff d b).2 (account_diff d b).1 (account_diff d b).2
    (md_providers d, md_accounts d) = Ok (P', A') ->
  forall faults, tables_sound (mkMetadataTables P' A' faults) /\ holds (mkMetadataTables P' A' faults) b.
Proof.
  intros Hd Hv Ht Hk Happ faults.
  destruct (changes_applied d b Hv Ht Hk) as (P & A & Happ' & HP & HA & Hin). rewrite Happ' in Happ.
  injection Happ as -> ->. split; [|split; cbn; [done| |done]; intros id row Hrow; by destruct (HA _ _ Hrow)].
  destruct Ht as [Htp Hta], Hv as [_ _ _ _ _ Hval]. rewrite list.Forall_forall in Htp. rewrite list.Forall_forall in Hta, Hval.
  split; cbn; intros id v Hl.
  - apply HP in Hl as (p & Hp & <- & ->). by apply Htp.
  - destruct (HA _ _ Hl) as [Hb Hrow]. pose proof (Hta _ Hb) as Htyped.
    split_and!; [apply (at_account _ Htyped)| |apply (at_provider _ Htyped)|].
    + destruct Hrow as [(_ & Hold & _)| ->]; [by apply (tb_accounts _ Hd) in Hold as (_ & ? & _)|].
      apply the_row_checks; auto.
    + apply Hk, list_elem_of_fmap in Hb as (p & Hp & Hin'). exists (prm_updated_at_ms p). apply HP. eauto.
Qed.

Lemma record_cases b d d' r :
  tables_sound d -> batch_typed b -> record_provider_metadata_batch b d = (d', r) ->
  tables_sound d' /\
  match r with
  | Ok outcome => batch_valid b /\ known_providers b /\ holds d' b /\
      (outcome = mkBatchOutcome 0 0 0 0 -> same_tables d d')
  | Err e => same_tables d d' /\ (md_faults d = [] -> ~ (batch_valid b /\ known_providers b))
  end.
Proof.
  intros Hd Ht. unfold record_provider_metadata_batch, st_bind at 1, st_lift.
  destruct (validate_provider_metadata_batch b) as [[]|e] eqn:Hval.
  2: { intros [= <- <-]. split_and!; [done..|]. intros _ [Hb _]. apply validate_batch_Ok in Hb. congruence. }
  apply validate_batch_Ok in Hval. unfold st_bind at 1.
  destruct (load_provider_metadata 0 d) as [d1 r1] eqn:Hload.
  destruct (load_cases 0 d d1 r1 Hd Hload) as (Hsame & [-> |[-> Hf]] & Hf').
  2: { intros [= <- <-]. split_and!; [by eapply same_tables_sound|done|done]. }
  destruct (existsb _ _) eqn:Hkn.
  { intros [= <- <-]. split_and!; [by eapply same_tables_sound|done|]. intros _ [_ Hk%known_providers_check].
    congruence. }
  apply known_providers_check in Hkn.
  pose proof (changes_applied d b Hval Ht Hkn) as (P' & A' & Happ & _).
  pose proof (changes_sound d b P' A' Hd Hval Ht Hkn Happ) as Hnew.
  destruct Hsame as [Hsp Hsa]. fold (provider_diff d b) (account_diff d b).
  destruct (provider_diff d b) as [pr pd] eqn:Hpd, (account_diff d b) as [ar ad] eqn:Had. cbn [fst snd] in *.
  case_bool_decide as Ho.
  - injection Ho as ->%zlen_zero ->%zlen_zero ->%zlen_zero ->%zlen_zero. cbn in Happ. injection Happ as <- <-.
    intros [= <- <-]. rewrite <- Hsp, <- Hsa in Hnew. destruct (Hnew (md_faults d1)) as [Hs Hh].
    destruct d1; cbn in *. by split_and!.
  - unfold st_bind, write_transaction. rewrite Hsp, Hsa.
    destruct (md_faults d1) as [|[] faults] eqn:Hfs; cbn [head default tail].
    2: { intros [= <- <-]. split_and!; [apply (same_tables_sound d); [split|]; done|done|].
         intros Hnil. discriminate (Hf' Hnil). }
    all: rewrite Happ; intros [= <- <-]; split; [apply Hnew|]; split_and!; try done; by apply Hnew.
Qed.

Lemma record_again b d d' : tables_sound d -> batch_typed b -> batch_valid b -> known_providers b -> holds d b ->
  md_faults d = [] -> same_tables d' d ->
  exists d3, record_provider_metadata_batch b d = (d3, Ok (mkBatchOutcome 0 0 0 0)) /\ same_tables d' d3.
Proof.
  intros Hd Ht Hv Hk Hh Hf [Hs1 Hs2]. unfold record_provider_metadata_batch, st_bind at 1, st_lift.
  rewrite (proj2 (validate_batch_Ok b) Hv). unfold st_bind at 1.
  destruct (load_provider_metadata 0 d) as [d1 r1] eqn:Hload.
  destruct (load_cases 0 d d1 r1 Hd Hload) as ([Hp Ha] & [-> |[_ Hne]] & _); [|done].
  rewrite (proj2 (known_providers_check b) Hk). fold (provider_diff d b) (account_diff d b).
  destruct (holds_unchanged d b Hv Hh) as [-> ->]. cbn. rewrite bool_decide_eq_true_2 by done.
  exists d1. split; [done|]. split; congruence.
Qed.

(** ** The batch of the running service *)
(** The states of an account the store takes. *)
Definition recordable (s : AccountState) : Prop :=
  persistable s /\
  from_option (fun until => updated_at_ms s < until /\ fits until) True (cooldown_until_ms s) /\
  from_option (fun resets => updated_at_ms s < resets /\ fits resets) True (quota_resets_at_ms s) /\
  from_option fits True (quota_remaining s) /\
  fits (last_selected_sequence s) /\ fits (updated_at_ms s).

(** What an account's state becomes. *)
Definition metadata_of_state (account : AccountConfig) (s : AccountState) : AccountRuntimeMetadata :=
  mkAccountMetadata (ac_provider account) (ac_id account)
    (if quarantined s then RuntimeQuarantined
     else if is_someb (cooldown_until_ms s) then RuntimeCoolingDown else RuntimeHealthy)
    (consecutive_failures s) (cooldown_until_ms s) (quota_remaining s) (quota_resets_at_ms s)
    (selection_count s) (last_selected_sequence s) (updated_at_ms s).

Lemma metadata_of_state_valid account s : state_wf s ->
  account_valid (metadata_of_state account s) <-> recordable s.
Proof.
  intros [Hf Hc Hq Hr Hrs Hn Hz Hl Hu]. unfold recordable, persistable. split.
  - intros [H1 H2 H3 H4 H5 H6 H7 H8 H9 H10]. unfold cooldown_valid, quota_valid in *; cbn in *.
    split_and!; try done.
    + intros Hqu. by rewrite Hqu in H2.
    + destruct (cooldown_until_ms s); cbn in *; [|done]. destruct (quarantined s); [done|]. cbn in H2. naive_solver.
    + destruct (quota_remaining s), (quota_resets_at_ms s); cbn in *; done.
  - intros ([H1 H2] & H3 & H4 & H5 & H6 & H7). split; unfold cooldown_valid, quota_valid; cbn; try done; try lia.
    + destruct (quarantined s); [by apply H2|]. destruct (cooldown_until_ms s); cbn in *; naive_solver.
    + destruct (quota_remaining s), (quota_resets_at_ms s); cbn in *; try naive_solver.
    + destruct (cooldown_until_ms s); cbn in *; naive_solver.
    + destruct (quota_resets_at_ms s); cbn in *; naive_solver.
Qed.

Lemma metadata_of_state_typed account s : state_wf s ->
  is_valid_identifier (ac_id account) = true -> is_valid_identifier (ac_provider account) = true ->
  account_typed (metadata_of_state account s).
Proof.
  intros [Hf Hc Hq Hr Hrs Hn Hz Hl Hu] Hi Hp. unfold in_u8, in_u64, opt_u64 in *. split; cbn; try done; try lia.
  - destruct (cooldown_until_ms s); cbn in *; [apply Hc|]; done.
  - destruct (quota_remaining s); cbn in *; [apply Hr|]; done.
  - destruct (quota_resets_at_ms s); cbn in *; [apply Hrs|]; done.
Qed.

Lemma normalized_cooldown now s0 until : cooldown_until_ms (normalize s0 now) = Some until -> now < until.
Proof.
  unfold normalize; cbn. destruct (cooldown_until_ms s0) as [u|]; cbn; [|done].
  destruct (Z.leb_spec u now); [done|]. by intros [= <-].
Qed.

Lemma account_metadata_view t now account : table_wf t ->
  account_metadata now (snapshots t now).1 account
  = if ac_enabled account then metadata_of_state account <$> view now t (ac_id account) else None.
Proof.
  intros Hwf. destruct (snapshots_complete t now Hwf) as (Hin & Hnd & _).
  unfold account_metadata. destruct (ac_enabled account); cbn [negb]; [|done].
  destruct (view now t (ac_id account)) as [s|] eqn:Hview; unfold view in Hview.
  - apply fmap_Some in Hview as (s0 & Hs0 & ->).
    rewrite (proj2 (find_by_key snap_account_id _ _ (snapshot_of (ac_id account) (normalize s0 now)) Hnd)).
    2: { split; [|done]. apply Hin. eauto. }
    cbn [mbind option_bind fmap option_fmap option_map]. unfold metadata_of_state. do 2 f_equal.
    cbn [snapshot_of snap_quarantined snap_cooldown_until_ms].
    pose proof (normalized_cooldown now s0) as Hlt.
    destruct (cooldown_until_ms (normalize s0 now)) as [u|]; cbn [is_some_and is_someb]; [|done].
    by rewrite (proj2 (Z.ltb_lt now u)) by auto.
  - rewrite (proj2 (find_by_key_None snap_account_id _ _)); [done|].
    intros (x & Hk & (id & s & Hs & ->)%Hin)%list_elem_of_fmap. cbn in Hk. rewrite Hk in Hview.
    apply fmap_None in Hview. congruence.
Qed.

Lemma NoDup_omap_keys {A B} (f : A -> option B) (ka : A -> string) (kb : B -> string) l :
  (forall a b, f a = Some b -> kb b = ka a) -> NoDup (ka <$> l) -> NoDup (kb <$> omap f l).
Proof.
  intros Hf. induction l as [|a l IH]; [constructor|]. rewrite fmap_cons, list.NoDup_cons. intros [Ha Hnd].
  cbn. destruct (f a) as [b|] eqn:Hb; [|by apply IH]. rewrite fmap_cons, list.NoDup_cons. split; [|by apply IH].
  intros (c & Hk & (a' & Ha' & Hc)%list_elem_of_omap)%list_elem_of_fmap. apply Ha.
  rewrite <- (Hf _ _ Hb), Hk, (Hf _ _ Hc). by apply list_elem_of_fmap_2.
Qed.

Lemma zlen_omap {A B} (f : A -> option B) l : zlen (omap f l) <= zlen l.
Proof.
  unfold zlen. induction l as [|a l IH]; cbn; [done|]. destruct (f a); cbn [length]; lia.
Qed.

Section Service.
Context `{HU : UrlCrate} {S : Type} (now : Z) (m : ProviderManagement (S := S)).
Context (Hm : management_ok m).
Context (Hup : 0 <= act_metadata_updated_at_ms (pm_active m) <= i64_max).

Let candidate := act_candidate (pm_active m).
Let health := px_account_health (pm_execution m).
Let batch := (runtime_metadata_batch now m).2.

(** The identifiers of the configuration are valid, as their types say. *)
Definition identified : Prop :=
  Forall (fun i => is_valid_identifier (pi_id i) = true) (instances (pc_providers candidate)) /\
  Forall (fun a => is_valid_identifier (ac_id a) = true /\ is_valid_identifier (ac_provider a) = true)
    (accounts (pc_providers candidate)).
Context (Hid : identified).

(** The providers of the enabled accounts are enabled, and the store takes
    every enabled account's state. *)
Definition service_recordable : Prop :=
  (forall account, account ∈ accounts (pc_providers candidate) -> ac_enabled account = true ->
     exists i, i ∈ instances (pc_providers candidate) /\ pi_id i = ac_provider account /\ pi_enabled i = true) /\
  (forall account s, account ∈ accounts (pc_providers candidate) -> ac_enabled account = true ->
     view now health (ac_id account) = Some s -> recordable s).

Lemma batch_providers_elem p :
  p ∈ batch_providers batch <->
  exists i, i ∈ instances (pc_providers candidate) /\ pi_enabled i = true /\
    p = mkProviderMetadata (pi_id i) (act_metadata_updated_at_ms (pm_active m)).
Proof using.
  unfold batch, runtime_metadata_batch. destruct (snapshots _ _). cbn. rewrite list_elem_of_omap.
  unfold provider_metadata. split.
  - intros (i & Hi & Hp). exists i. destruct (pi_enabled i); [|done]. by injection Hp as <-.
  - intros (i & Hi & He & ->). exists i. by rewrite He.
Qed.

Lemma batch_accounts_elem a :
  a ∈ batch_accounts batch <->
  exists account s, account ∈ accounts (pc_providers candidate) /\ ac_enabled account = true /\
    view now health (ac_id account) = Some s /\ a = metadata_of_state account s.
Proof using Hm.
  pose proof (account_metadata_view health now) as Hv.
  unfold batch, runtime_metadata_batch, health in *. destruct (snapshots _ _) as [snaps table]. cbn in *.
  rewrite list_elem_of_omap. pose proof (ti_wf _ (mg_health _ Hm)) as Hwf. split.
  - intros (account & Hin & Ha). rewrite Hv in Ha by done. exists account.
    destruct (ac_enabled account) eqn:He; [|done]. apply fmap_Some in Ha as (s & Hs & ->). eauto.
  - intros (account & s & Hin & He & Hs & ->). exists account. rewrite Hv by done. by rewrite He, Hs.
Qed.

(** Every enabled account has a state, and it is well-formed. *)
Lemma enabled_account_state account :
  account ∈ accounts (pc_providers candidate) -> ac_enabled account = true ->
  exists s, view now health (ac_id account) = Some s.
Proof using Hm.
  intros Hin He. destruct (proj2 (mg_accounts _ Hm (ac_id account))) as [s Hs].
  - unfold active_account_ids. apply list_elem_of_fmap. exists account. split; [done|].
    apply list_elem_of_In, filter_In. by rewrite <- list_elem_of_In.
  - exists (normalize s now). unfold view, health. by rewrite Hs.
Qed.
Lemma view_wf id s : view now health id = Some s -> state_wf s.
Proof using Hm.
  intros (s0 & Hs & ->)%fmap_Some. by apply normalize_wf, (ti_state _ (mg_health _ Hm) _ _ Hs).
Qed.

Lemma service_batch_typed : batch_typed batch.
Proof using Hm Hup Hid.
  destruct Hid as [Hi Ha]. rewrite list.Forall_forall in Hi. rewrite list.Forall_forall in Ha.
  split; apply list.Forall_forall.
  - intros p (i & Hin & _ & ->)%batch_providers_elem. cbn. split; [by apply Hi|apply Hup].
  - intros a (account & s & Hin & _ & Hs & ->)%batch_accounts_elem.
    apply metadata_of_state_typed; [by eapply view_wf|by apply Ha|by apply Ha].
Qed.

Lemma service_batch_shape :
  zlen (batch_providers batch) <= MAX_PROVIDER_METADATA_PROVIDERS /\
  zlen (batch_accounts batch) <= MAX_PROVIDER_METADATA_ACCOUNTS /\
  NoDup (prm_provider_id <$> batch_providers batch) /\ NoDup (arm_account_id <$> batch_accounts batch).
Proof using Hm.
  pose proof (mg_snapshot _ Hm) as Hb. apply build_Ok in Hb as (Hc & _).
  destruct (ok_shape _ _ _ Hc) as [(Hn1 & Hn2 & _) Hi _ Ha _ _ _ _ _].
  unfold batch, runtime_metadata_batch. destruct (snapshots _ _) as [snaps table]. cbn [snd batch_providers batch_accounts].
  split_and!.
  - etransitivity; [apply zlen_omap|done].
  - etransitivity; [apply zlen_omap|done].
  - apply (NoDup_omap_keys _ pi_id); [|done]. intros i p. unfold provider_metadata. by destruct (pi_enabled i); intros [= <-].
  - apply (NoDup_omap_keys _ ac_id); [|done]. intros a b. unfold account_metadata.
    destruct (ac_enabled a); cbn; [|done]. by destruct (List.find _ _); intros [= <-].
Qed.

Lemma service_batch_recordable : batch_valid batch /\ known_providers batch <-> service_recordable.
Proof using Hm Hup.
  destruct service_batch_shape as (Hn1 & Hn2 & Hi & Ha). split.
  - intros [Hv Hk]. pose proof (bv_valid _ Hv) as Hval. rewrite list.Forall_forall in Hval. split.
    + intros account Hin He. destruct (enabled_account_state account Hin He) as [s Hs].
      destruct (proj1 (list_elem_of_fmap _ _ _) (Hk (metadata_of_state account s)
        (proj2 (batch_accounts_elem _) (ex_intro _ account (ex_intro _ s (conj Hin (conj He (conj Hs eq_refl)))))))) as (p & Hp & Hpin).
      apply batch_providers_elem in Hpin as (i & Hiin & Hie & ->). cbn in Hp. eauto.
    + intros account s Hin He Hs. apply (metadata_of_state_valid account); [by eapply view_wf|].
      apply Hval, batch_accounts_elem. eauto 10.
  - intros [Hp Hr]. split; [split; try done|].
    + apply list.Forall_forall. intros p (i & _ & _ & ->)%batch_providers_elem. apply Hup.
    + apply list.Forall_forall. intros a (account & s & Hin & He & Hs & ->)%batch_accounts_elem.
      apply metadata_of_state_valid; [by eapply view_wf|eauto].
    + intros a (account & s & Hin & He & Hs & ->)%batch_accounts_elem. cbn.
      destruct (Hp account Hin He) as (i & Hiin & <- & Hie). apply list_elem_of_fmap.
      exists (mkProviderMetadata (pi_id i) (act_metadata_updated_at_ms (pm_active m))). split; [done|].
      apply batch_providers_elem. eauto.
Qed.
End Service.

(** ** Claims *)
(** C30: a recorded batch is what is read later.  Whatever sound tables the batch
    meets and whatever the database fails at, the tables stay sound.  If the
    call answers, the batch was valid and a load at any later time reads exactly
    its providers and its accounts, with the cooldowns and quotas that have run
    out since cleared, and recording it again writes nothing.  If the call is
    refused or fails, the tables are as they were; and on a database that works
    only an invalid batch, or one with an account of a provider it does not
    list, is refused. *)
Theorem metadata_recorded b d d' r :
  tables_sound d -> batch_typed b -> record_provider_metadata_batch b d = (d', r) ->
  tables_sound d' /\
  match r with
  | Ok _ => batch_valid b /\ known_providers b /\
      forall now d'', 0 <= now -> same_tables d' d'' -> md_faults d'' = [] ->
        (exists loaded, (load_provider_metadata now d'').2 = Ok loaded /\
           batch_providers loaded ≡ₚ batch_providers b /\
           batch_accounts loaded ≡ₚ normalize_provider_metadata now <$> batch_accounts b) /\
        exists d3, record_provider_metadata_batch b d'' = (d3, Ok (mkBatchOutcome 0 0 0 0)) /\ same_tables d' d3
  | Err _ => same_tables d d' /\ (md_faults d = [] -> ~ (batch_valid b /\ known_providers b))
  end.
Proof.
  intros Hd Ht Hr. destruct (record_cases b d d' r Hd Ht Hr) as [Hd' H]. split; [done|].
  destruct r as [outcome|e]; [|done]. destruct H as (Hv & Hk & Hh & _). split_and!; [done..|].
  intros now d'' Hnow Hs Hf. pose proof (same_tables_sound _ _ Hs Hd') as Hd''.
  assert (holds d'' b) as Hh' by (destruct Hs as [Hs1 Hs2], Hh; split; rewrite ?Hs1, ?Hs2; done).
  split.
  - destruct (load_provider_metadata now d'') as [d4 r4] eqn:Hl. exists (listed now d'').
    destruct (load_cases _ _ _ _ Hd'' Hl) as (_ & [-> |[_ Hne]] & _); [|done].
    split; [done|]. by apply holds_listed.
  - by apply record_again.
Qed.

(** C38: which states of the service are recorded.  On a database that works, the
    batch of a consistent control plane is recorded exactly if the provider of
    every enabled account is enabled and the store takes every enabled account's
    state: not quarantined while cooling down, at most 64 failures, no more
    selections than its last sequence, deadlines after its last change.  Then a load reads every enabled account with its
    state.  Otherwise nothing of the batch is: one enabled account of a disabled
    provider, which the configuration allows, keeps the health of every other
    account from being recorded. *)
Theorem service_metadata_exact `{UrlCrate} {S} (now : Z) (m : ProviderManagement (S := S)) d d' r :
  management_ok m -> identified m -> 0 <= act_metadata_updated_at_ms (pm_active m) <= i64_max ->
  tables_sound d -> md_faults d = [] ->
  record_provider_metadata_batch (runtime_metadata_batch now m).2 d = (d', r) ->
  ((exists outcome, r = Ok outcome) <-> service_recordable now m) /\
  (forall e, r = Err e -> same_tables d d') /\
  (forall outcome, r = Ok outcome -> forall account s now' d'', 0 <= now' -> same_tables d' d'' -> md_faults d'' = [] ->
     account ∈ accounts (pc_providers (act_candidate (pm_active m))) -> ac_enabled account = true ->
     view now (px_account_health (pm_execution m)) (ac_id account) = Some s ->
     exists loaded, (load_provider_metadata now' d'').2 = Ok loaded /\
       find_account (batch_accounts loaded) (ac_id account)
       = Some (normalize_provider_metadata now' (metadata_of_state account s))).
Proof.
  intros Hm Hid Hup Hd Hf Hr. pose proof (service_batch_typed now m Hm Hup Hid) as Ht.
  destruct (record_cases _ d d' r Hd Ht Hr) as [Hd' Hcase].
  rewrite <- (service_batch_recordable now m Hm Hup). destruct r as [outcome|e].
  - destruct Hcase as (Hv & Hk & Hh & _). split_and!; [naive_solver|done|].
    intros _ _ account s now' d'' Hnow Hs Hf' Hin He Hview. pose proof (same_tables_sound _ _ Hs Hd') as Hd''.
    destruct (load_provider_metadata now' d'') as [d4 r4] eqn:Hl.
    destruct (load_cases _ _ _ _ Hd'' Hl) as (_ & [-> |[_ Hne]] & _); [|done].
    exists (listed now' d''). split; [done|]. rewrite (same_tables_listed now' _ _ Hs).
    destruct (holds_listed now' d' _ Hv Hh Hnow) as [_ Hperm].
    assert (NoDup (arm_account_id <$> batch_accounts (listed now' d'))) as Hnd.
    { rewrite Hperm, <- list_fmap_compose. apply (bv_account_ids _ Hv). }
    apply (find_by_key arm_account_id _ _ _ Hnd). split; [|done]. rewrite Hperm. apply list_elem_of_fmap_2.
    apply batch_accounts_elem; eauto 10.
  - destruct Hcase as [Hs Hno]. split_and!; [|done|done].
    split; [by intros [? [=]]|]. intros Hyes. by destruct (Hno Hf).
Qed.

(** ** Witnesses *)
Definition empty_tables : MetadataTables := mkMetadataTables ∅ ∅ [].

Lemma empty_tables_sound : tables_sound empty_tables.
Proof. split; apply map_Forall_empty. Qed.

Definition demo_batch : ProviderMetadataBatch :=
  mkBatch [mkProviderMetadata "main" 5; mkProviderMetadata "lab" 5]
    [mkAccountMetadata "main" "work" RuntimeCoolingDown 1 (Some 30) None None 2 3 10;
     mkAccountMetadata "lab" "home" RuntimeHealthy 0 None (Some 7) (Some 90) 0 0 0].

Lemma demo_batch_typed : batch_typed demo_batch.
Proof.
  split; repeat (apply list.Forall_cons; split); try apply list.Forall_nil; try done;
    split; cbn; try done; try lia; vm_compute; reflexivity.
Qed.

(** Once recorded, the cooldown that ends at 30 is gone at 40; the quota is not. *)
Lemma metadata_recorded_witness :
  exists d outcome loaded, record_provider_metadata_batch demo_batch empty_tables = (d, Ok outcome) /\
    (load_provider_metadata 40 d).2 = Ok loaded /\
    batch_accounts loaded ≡ₚ
      [mkAccountMetadata "main" "work" RuntimeHealthy 1 None None None 2 3 10;
       mkAccountMetadata "lab" "home" RuntimeHealthy 0 None (Some 7) (Some 90) 0 0 0].
Proof.
  destruct (record_provider_metadata_batch demo_batch empty_tables) as [d r] eqn:Hr.
  destruct (metadata_recorded demo_batch empty_tables d r empty_tables_sound demo_batch_typed Hr) as [_ H].
  assert (is_ok (record_provider_metadata_batch demo_batch empty_tables).2 = true) as Hok by (vm_compute; reflexivity).
  assert (md_faults (record_provider_metadata_batch demo_batch empty_tables).1 = []) as Hf by (vm_compute; reflexivity).
  rewrite Hr in Hok, Hf. destruct r as [outcome|e]; [|discriminate]. destruct H as (_ & _ & H).
  destruct (H 40 d ltac:(lia) (conj eq_refl eq_refl) Hf) as [(loaded & Hl & _ & Hp) _].
  exists d, outcome, loaded. split; [reflexivity|]. split; [exact Hl|exact Hp].
Defined.

(** The configuration of the example, with an account on its disabled provider. *)
Definition idle_candidate : ProviderCandidate := mkProviderCandidate
  (mkProviderConfig (instances demo_config) (accounts demo_config ++ [mkAccount "idle" "spare" true (AuthApiKey "secret:3")]))
  demo_routing.

Definition idle_build := @from_loaded demo_url_crate MemorySecretStore (Ok demo_catalog) (mkDisk None []) demo_store
  (mkVersioned 1 (mkAppConfig (mkServerConfig 10101) (pc_providers idle_candidate) demo_routing)) 5.

Definition idle_management : ProviderManagement (S := MemorySecretStore) :=
  match idle_build with Ok m => m | Err _ => demo_management end.

Lemma idle_build_Ok : idle_build = Ok idle_management.
Proof.
  assert (is_ok idle_build = true) as Hok by (vm_compute; reflexivity).
  unfold idle_management. by destruct idle_build.
Qed.

Lemma idle_active : act_candidate (pm_active idle_management) = idle_candidate /\
  act_metadata_updated_at_ms (pm_active idle_management) = 5.
Proof. by vm_compute. Qed.

Lemma idle_identified : identified idle_management.
Proof.
  unfold identified. rewrite (proj1 idle_active).
  split; cbn; repeat (apply list.Forall_cons; split); try apply list.Forall_nil; vm_compute; done.
Qed.

(** It is never recorded. *)
Lemma service_metadata_exact_witness :
  exists e, (record_provider_metadata_batch (runtime_metadata_batch 9 idle_management).2 empty_tables).2 = Err e /\
    same_tables empty_tables
      (record_provider_metadata_batch (runtime_metadata_batch 9 idle_management).2 empty_tables).1.
Proof.
  destruct (record_provider_metadata_batch (runtime_metadata_batch 9 idle_management).2 empty_tables) as [d' r] eqn:Hr.
  destruct (@service_metadata_exact demo_url_crate _ 9 idle_management empty_tables d' r
    (@from_loaded_ok demo_url_crate _ _ _ _ _ _ _ idle_build_Ok) idle_identified
    ltac:(rewrite (proj2 idle_active); vm_compute; split; discriminate) empty_tables_sound eq_refl Hr)
    as (Hiff & Herr & _).
  destruct r as [outcome|e]; [|exists e; split; [reflexivity|exact (Herr e eq_refl)]].
  destruct (proj1 Hiff (ex_intro _ outcome eq_refl)) as [Hprov _]. rewrite (proj1 idle_active) in Hprov.
  destruct (Hprov (mkAccount "idle" "spare" true (AuthApiKey "secret:3"))) as (i & Hi & Hspare & Hen).
  - cbn. rewrite !elem_of_cons. auto.
  - reflexivity.
  - cbn in Hi. rewrite !elem_of_cons, elem_of_nil in Hi. cbn in Hspare.
    destruct Hi as [-> |[-> |[-> |[]]]]; discriminate.
Defined.
